(* ===== verification/_CoqProject ===== *)
-Q . S2P
Prelude.v
GoBytes.v
IpAlloc.v
IpAllocFacts.v
GoNet.v
IpRange.v
IpRangeFacts.v
IpCache.v
IpCacheFacts.v
IpamProps.v
ApicMetadata.v
ApicTypes.v
ApicBuild.v
ApicTypesFacts.v
GoSha.v
ApicDiff.v
ApicDiffFacts.v
Workqueue.v
ApicState.v
ApicSync.v
ApicConn.v
ApicPrepFacts.v
ApicConnFacts.v
ApicIndexFacts.v
ApicQueueFacts.v
ApicProps.v
GoText.v
PodIndex.v
PodIndexFacts.v
PodIndexSys.v
PodIndexProps.v
K8s.v
AciNames.v
NetPol.v
NetPolIndex.v
NetPolAugment.v
NetPolCtl.v
NetPolBlocks.v
NetPolRules.v
NetPolPeers.v
NetPolAugFacts.v
NetPolTables.v
NetPolProps.v
Snat.v
SnatFacts.v
SnatSys.v
SnatProps.v
GoText6.v
PodNet.v
PodNetFacts.v
HostIpam.v
HostIpamFacts.v
PodNetSys.v
PodNetProps.v
SvcTypes.v
OpflexDev.v
OpflexProps.v
SvcGraph.v
SvcNodes.v
SvcIps.v
Services.v
SvcIpsFacts.v
SvcDynamic.v
SvcGraphFacts.v
SvcWritten.v
SvcRuns.v
SvcProps.v
HostSvc.v
HostSvcProps.v
HostSnat.v
HostSnatFacts.v
HostSnatProps.v
GoJson.v
HostPods.v
HostPodsProps.v
HostPodsSync.v
CtlMirror.v
CtlPols.v
CtlProps.v
CtlSubnets.v
