(* ===== verification/Prelude.v ===== *)
(** * Verification of aci-containers

    aci-containers connects a Kubernetes cluster to a Cisco ACI fabric.  The
    controller (src/pkg/controller) watches the cluster and writes objects to
    the fabric's controller, the APIC; a host agent on every node
    (src/pkg/hostagent) gives addresses to containers and writes files that the
    OpFlex agent of the node reads.  This library models the core of both, as
    functions that follow the Go code, and proves what they promise.

    ** Parts and files

    In the order of dependencies; "Facts" and "Props" files hold the lemmas and
    the main theorems of the models before them.

    - Go's standard library as far as it is used: [GoBytes] (bytes, big
      numbers, addresses), [GoNet] (masks and networks), [GoText] and [GoText6]
      (decimal numbers, text of addresses and networks), [GoSha] (SHA-256).
    - Address management, src/pkg/ipam: [IpAlloc] (ipalloc.go: free lists),
      [IpRange] (iprange.go: covers by CIDR blocks), [IpCache] (ipcache.go: two
      generations of pools); [IpAllocFacts], [IpRangeFacts], [IpCacheFacts],
      [IpamProps].
    - The connection to the APIC, src/pkg/apicapi: [ApicMetadata] (the table of
      classes), [ApicTypes] and [ApicBuild] (objects and their constructors),
      [ApicDiff] (comparison), [Workqueue] (the vendored queue of client-go),
      [ApicState] (tables, mutex and monad of a connection), [ApicSync]
      (apic_sync.go), [ApicConn] (apicapi.go); [ApicTypesFacts],
      [ApicDiffFacts], [ApicPrepFacts], [ApicConnFacts], [ApicIndexFacts],
      [ApicQueueFacts], [ApicProps].
    - The index of pods by selectors, src/pkg/index: [PodIndex], with the
      informers as a transition system in [PodIndexSys]; [PodIndexFacts],
      [PodIndexProps].
    - Network policies, src/pkg/controller/network_policy.go: [K8s] (label
      selectors and the objects that are read), [AciNames] (src/pkg/util names
      and hashes), [NetPol] (rules), [NetPolIndex] (addresses and ports to
      policies), [NetPolAugment] (rules for service addresses), [NetPolCtl] (the
      handlers); [NetPolBlocks], [NetPolRules], [NetPolPeers], [NetPolAugFacts],
      [NetPolTables], [NetPolProps].
    - Source NAT, src/pkg/controller/snats.go and snatglobalinfo.go: [Snat],
      with the handlers as a transition system in [SnatSys];
      [SnatFacts], [SnatProps].
    - Nodes and pod networks, src/pkg/controller/nodes.go and
      src/pkg/hostagent/ipam.go: [PodNet] (controller), [HostIpam] (host), both
      together in [PodNetSys]; [PodNetFacts], [HostIpamFacts], [PodNetProps].
    - Services, src/pkg/controller/services.go: [SvcTypes], [OpflexDev] (the
      devices of the nodes), [SvcGraph] (the objects of the service graph),
      [SvcNodes] (the nodes behind a service), [SvcIps] (addresses of
      services), [Services] (the handlers); [OpflexProps], [SvcIpsFacts],
      [SvcDynamic], [SvcGraphFacts], [SvcWritten], [SvcRuns],
      [SvcProps].
    - Services on a host, src/pkg/hostagent/services.go: [HostSvc],
      [HostSvcProps].
    - Source NAT on a host, src/pkg/hostagent/snats.go, snatlocalinfo.go and
      nodeinfo.go: [HostSnat], [HostSnatFacts], [HostSnatProps].
    - Pods on a host, src/pkg/hostagent/group_assign.go, pods.go and
      pod_relatives.go: [GoJson] (JSON of annotations, Go's encoding/json),
      [HostPods] (groups, endpoints, handlers), [HostPodsProps], [HostPodsSync].
    - The mirror of the cluster on the APIC, src/pkg/controller/pods.go,
      deployments.go, replicasets.go, namespaces.go and epgcache.go:
      [CtlMirror]; policies for QoS, netflow and ERSPAN, qos.go, netflow.go,
      erspan.go and nodepodif.go: [CtlPols]; both in [CtlProps].  The subnets of
      the fabric, subnetcache.go and rdconfig.go: [CtlSubnets].

    ** How the parts interact

    The handlers of the controller build objects with [ApicBuild] and hand them
    to a connection by key; they are recorded as effects of the handler, and
    [NetPolCtl.apply_effect] runs them on a connection of [ApicSync].  The
    pools of [IpCache] give addresses to services and ranges to nodes; clients
    of a pool are proved against the class [AddressPool] of [IpCacheFacts].  The
    index of pods is used by network policies (three indexes) and tells the
    handlers which policies to rewrite; the handlers of pods and namespaces in
    [CtlMirror] feed it.  [CtlPols] reads the interfaces that [HostPods]
    publishes.  The annotation of a node carries its
    ranges from [PodNet] to [HostIpam], and [PodNetSys] lets any published
    version arrive at any time.  Services change the tables of ports of the
    network policies, whose state they share.

    ** How the code is modelled

    A Go function is a function of the part of the state it uses.  A panic, a
    mutex that is never released and a loop that does not end are the result
    [None] (or a constructor of its own); an error value is an [option] or a
    sum inside it.  Integers are unbounded where the code keeps them below
    their width, and wrap where it does not.  A pointer is an [option]; nil and
    the empty slice are told apart only where the program does.  Objects that
    the code shares and changes in place (maps of an egress rule, objects in the
    stores of informers) are kept in a store.  Handlers that run under one mutex
    are one step; where a handler reads before it takes the mutex, as the update
    of an object in the index of pods does, it is two ([PodIndexSys]).  The
    handlers of services carry the mutex: each Lock and Unlock of the code is an
    operation that blocks on a locked and panics on a free mutex ([SvcTypes],
    [SvcIps], [Services]).  Loops over a Go map take the order of [map_to_list], unless
    the order shows in the result, where it is a parameter.

    Recursion is structural where Go ranges over a slice.  The other loops carry
    fuel that is shown to suffice: the cover by CIDR blocks of an address of n
    bits may take 2^(n+1) rounds and ends before ([IpamProps.range2cidr_covers]);
    the parser of JSON has twice the length of its text
    ([GoJson.value_enough]); the port ranges of source NAT are as many as the
    quotient of the range by its step ([SnatProps.snat_port_ranges]), and
    its networks are walked address by address; loops over the bits of a set of
    resources take 64 rounds; loops over trees of APIC objects have the size or
    the height of the tree; and every item of the service queue is processed to
    its end, with the mutex free ([SvcProps.svc_queue_returns]).

    ** What the theorems show

    The comment before a theorem states all the conditions that it needs; where
    the code does something else outside of them, a lemma that the comment names
    shows it.

    - Addresses are given out once: pools and caches ([IpamProps]), pods on all
      hosts for any order of events ([PodNetProps.podnet_unique_addresses]),
      service addresses of nodes ([PodNetProps]), static and dynamic addresses of
      services ([SvcProps]), port ranges of source NAT ([SnatProps]).
    - What is written reaches the APIC: after a write or a clear the index by
      DN says what the desired state says, the comparison finds exactly the
      objects that differ, and processing the queue sends exactly the posts of
      the changed objects and the deletes of the roots of what is gone
      ([ApicProps]).
    - The objects that are written mean what the cluster asks for: a host
      protection policy lets a packet to a pod through exactly if the network
      policies do ([NetPolProps.netpol_enforced]); a redirect policy sends the
      traffic of a service to the nodes that serve it
      ([SvcProps.svc_redirect_policy]); filters list the ports of the service
      ([SvcWritten]); all trees fit the metadata ([SvcProps.svc_objects_typed]).
    - Indexes are what they index, once the notifications are handled, whatever
      their order, unless the update of an object was overtaken by a change of a
      namespace ([PodIndexProps]); the tables of policies, devices and services
      are linked as they should be ([NetPolProps], [OpflexProps],
      [HostSvcProps]).
    - Restarts read back what was published ([PodNetProps.podnet_restart],
      [SnatProps.snat_restart]).
    - On a host, the service files are exactly the descriptions kept
      ([HostSvcProps.host_files_synced]) and the tables between services and
      pods agree ([HostSvcProps.host_tables_linked]).
    - The host and the controller agree: the port ranges of source NAT in the
      files of two hosts are disjoint ([HostSnatProps.hsnat_ranges_apart]); the
      security groups of a pod name the host protection policies that the
      controller writes for the policies that select it
      ([HostPodsProps.hpods_policy_groups]), and adding a policy reaches the
      endpoints of its pods ([HostPodsProps.hpods_policy_applied]).
    - Pods do not disturb each other ([HostPodsProps.hpods_pods_apart]), their
      annotations have an order of precedence ([HostPodsProps.hpods_precedence]),
      and the endpoint files are exactly the endpoints
      ([HostPodsSync.hpods_files]).  Source NAT on a host does not panic for
      IPv4 destinations, and a pod has the identifiers of the policies that are
      listed for it, in the order of the resources ([HostSnatProps]).
    - The APIC mirrors pods, deployments, replica sets and namespaces
      ([CtlProps.ctl_mirror]); annotations with existing endpoint groups raise
      no fault ([CtlProps.epg_no_false_fault]); ERSPAN sessions name the
      endpoints of their pods ([CtlProps.erspan_sources]); the cache of subnets
      follows the fabric and is published ([CtlSubnets]).
    - Lemmas at the end of [PodNetProps], [NetPolProps], [SvcProps],
      [HostSvcProps], [HostSnatProps], [HostPodsProps], [HostPodsSync],
      [CtlProps] and [CtlSubnets] run
      the code on inputs where it does not do what it means to.

    ** Parameters

    The APIC's answers, the API server's answers, the stores of informers, the
    resolver of host names, random bytes, the directory of the OpFlex agent and
    the library cidranger (through its documented contract, with an
    implementation for the witnesses) are arguments of the definitions.

    ** Not modelled

    Logging, metrics, timers (their firing is a step that may come at any
    time), TLS, login and request signing of the APIC connection; the set-up of
    informers and clients; the GBP server; the operators; secondary networks;
    the text of the OpFlex configuration and OVS; generated clients and deep
    copies; the commands.
    The fabric attachments serve clusters without the OpFlex agent and depend
    on what the hosts discover through LLDP and netlink.
    The GBP server is another program, which takes the place of the APIC. *)

From stdpp Require Export base list gmap strings sorting.
From Stdlib Require Export ZArith Lia.

Declare Scope go_scope.
Delimit Scope go_scope with go.

(** ** Automation *)

Create HintDb go discriminated.

(** Split every boolean test of the goal or of a hypothesis into its two
    arithmetic outcomes. *)
Ltac bool_cases :=
  repeat match goal with
    | |- context [Z.ltb ?a ?b] => destruct (Z.ltb_spec a b)
    | |- context [Z.leb ?a ?b] => destruct (Z.leb_spec a b)
    | |- context [Z.eqb ?a ?b] => destruct (Z.eqb_spec a b)
    | |- context [Nat.ltb ?a ?b] => destruct (Nat.ltb_spec a b)
    | |- context [Nat.leb ?a ?b] => destruct (Nat.leb_spec a b)
    | |- context [Nat.eqb ?a ?b] => destruct (Nat.eqb_spec a b)
    | H : context [Z.ltb ?a ?b] |- _ => destruct (Z.ltb_spec a b)
    | H : context [Z.leb ?a ?b] |- _ => destruct (Z.leb_spec a b)
    | H : context [Z.eqb ?a ?b] |- _ => destruct (Z.eqb_spec a b)
    | H : context [Nat.ltb ?a ?b] |- _ => destruct (Nat.ltb_spec a b)
    | H : context [Nat.leb ?a ?b] |- _ => destruct (Nat.leb_spec a b)
    | H : context [Nat.eqb ?a ?b] |- _ => destruct (Nat.eqb_spec a b)
    end.

(** ** sort.Search *)

(** [Search n f] of Go's package sort: binary search on [0, n) for the place
    where [f] turns true.  The loop keeps [i <= j] and stops when they meet;
    the interval at least halves, so [n] rounds are enough. *)
Fixpoint search_loop (fuel : nat) (f : nat → bool) (i j : nat) : nat :=
  match fuel with
  | O => i
  | S fuel =>
      if (i <? j)%nat then
        let h := Nat.div2 (i + j) in
        if f h then search_loop fuel f i h else search_loop fuel f (S h) j
      else i
  end.

Definition Search (n : nat) (f : nat → bool) : nat := search_loop n f 0 n.

Lemma div2_between i j : (i < j)%nat → (i <= Nat.div2 (i + j) < j)%nat.
Proof. intros ?. rewrite Nat.div2_div. split; [apply Nat.div_le_lower_bound|apply Nat.Div0.div_lt_upper_bound]; lia. Qed.

Lemma search_loop_spec f fuel i j n :
  (i <= j <= n)%nat → (j - i <= fuel)%nat →
  (i = 0%nat ∨ f (i - 1)%nat = false) → (j = n ∨ f j = true) →
  let r := search_loop fuel f i j in
  (i <= r <= j)%nat ∧ (r = 0%nat ∨ f (r - 1)%nat = false) ∧ (r = n ∨ f r = true).
Proof.
  revert i j. induction fuel as [|fuel IH]; intros i j Hij Hf Hi Hj; simpl.
  - assert (i = j) as -> by lia. split_and!; auto; lia.
  - destruct (Nat.ltb_spec i j) as [Hlt|Hge].
    + pose proof (div2_between i j Hlt) as Hh.
      destruct (f (Nat.div2 (i + j))) eqn:E.
      * destruct (IH i (Nat.div2 (i + j))) as (?&?&?); auto; [lia..|]. split_and!; auto; lia.
      * destruct (IH (S (Nat.div2 (i + j))) j) as (?&?&?); auto; [lia..| |split_and!; auto; lia].
        right. by rewrite Nat.sub_succ, Nat.sub_0_r.
    + assert (i = j) as -> by lia. split_and!; auto; lia.
Qed.

(** What [Search] promises for any predicate, monotone or not: the answer is
    within [0, n], the predicate holds there (unless it is [n]) and fails just
    before it (unless it is 0). *)
Lemma Search_spec n f :
  (Search n f <= n)%nat ∧
  (Search n f = 0%nat ∨ f (Search n f - 1)%nat = false) ∧
  (Search n f = n ∨ f (Search n f) = true).
Proof.
  unfold Search. destruct (search_loop_spec f n 0 n n) as (?&?&?); [lia|lia|auto|auto|].
  split_and!; auto; lia.
Qed.

(** ** Loops with an early exit

    [while p body s] runs [body] at most [p] times, where the fuel [p] is a
    binary number so that bounds such as 2^128 cost nothing; [None] says that
    the fuel ran out. *)
Section While.
Context {S R : Type}.

Fixpoint while_step (p : positive) (body : S → S + R) (s : S) : S + R :=
  match p with
  | xH => body s
  | xO q =>
      match while_step q body s with
      | inl s' => while_step q body s'
      | inr r => inr r
      end
  | xI q =>
      match body s with
      | inl s' =>
          match while_step q body s' with
          | inl s'' => while_step q body s''
          | inr r => inr r
          end
      | inr r => inr r
      end
  end.

Definition while (p : positive) (body : S → S + R) (s : S) : option R :=
  match while_step p body s with inl _ => None | inr r => Some r end.

Context (body : S → S + R) (Inv : S → Prop) (Post : R → Prop) (m : S → Z).
Context (Hbody : ∀ s, Inv s →
  match body s with
  | inl s' => Inv s' ∧ 0 ≤ m s' ∧ m s' < m s
  | inr r => Post r
  end%Z).

Lemma while_step_spec p s :
  Inv s →
  match while_step p body s with
  | inl s' => Inv s' ∧ 0 ≤ m s' ∧ m s' ≤ m s - Zpos p
  | inr r => Post r
  end%Z.
Proof.
  revert s. induction p as [q IH|q IH|]; intros s Hs; simpl.
  - specialize (Hbody s Hs). destruct (body s) as [s1|r1]; [|done].
    destruct Hbody as (Hs1&?&?). specialize (IH s1 Hs1) as IH1.
    destruct (while_step q body s1) as [s2|r2]; [|done].
    destruct IH1 as (Hs2&?&?). specialize (IH s2 Hs2) as IH2.
    destruct (while_step q body s2) as [s3|r3]; [|done].
    destruct IH2 as (?&?&?). split_and!; auto; lia.
  - specialize (IH s Hs) as IH1.
    destruct (while_step q body s) as [s2|r2]; [|done].
    destruct IH1 as (Hs2&?&?). specialize (IH s2 Hs2) as IH2.
    destruct (while_step q body s2) as [s3|r3]; [|done].
    destruct IH2 as (?&?&?). split_and!; auto; lia.
  - specialize (Hbody s Hs). destruct (body s); [|done].
    destruct Hbody as (?&?&?). split_and!; auto; lia.
Qed.

(** Total correctness: an invariant, and a measure below the fuel that every
    round makes smaller, give a result that satisfies the postcondition. *)
Lemma while_total p s :
  Inv s → (m s < Zpos p)%Z → ∃ r, while p body s = Some r ∧ Post r.
Proof.
  intros Hs Hm. unfold while. pose proof (while_step_spec p s Hs) as H.
  destruct (while_step p body s) as [s'|r]; [|by eauto].
  destruct H as (_&?&?). lia.
Qed.
End While.

(** ** Lists *)

Lemma Forall_app_cons {A} (P : A → Prop) l1 x l2 :
  Forall P (l1 ++ x :: l2) ↔ Forall P l1 ∧ P x ∧ Forall P l2.
Proof. rewrite Forall_app, Forall_cons. tauto. Qed.

Lemma StronglySorted_app_iff {A} (R : A → A → Prop) l1 l2 :
  StronglySorted R (l1 ++ l2) ↔
  StronglySorted R l1 ∧ StronglySorted R l2 ∧
  (∀ x y, x ∈ l1 → y ∈ l2 → R x y).
Proof.
  induction l1 as [|a l1 IH]; simpl.
  { split; [intros ?; split_and!; auto; [constructor|set_solver]|tauto]. }
  rewrite !StronglySorted_cons, IH, Forall_app, !Forall_forall. set_solver.
Qed.

Lemma StronglySorted_impl {A} (R R' : A → A → Prop) l :
  (∀ x y, R x y → R' x y) → StronglySorted R l → StronglySorted R' l.
Proof.
  intros Himp. induction 1 as [|x l ? IH Hx]; constructor; auto.
  eapply Forall_impl; [exact Hx|]. auto.
Qed.

Lemma take_drop_middle_eq {A} (l : list A) i x :
  l !! i = Some x → l = take i l ++ x :: drop (S i) l.
Proof. intros. symmetry. by apply take_drop_middle. Qed.

#[export] Instance StronglySorted_decision {A} (R : A → A → Prop) `{!RelDecision R} l :
  Decision (StronglySorted R l).
Proof.
  induction l as [|x l IH].
  - left. constructor.
  - destruct IH as [Hl|Hl]; [|right; intros H; apply Hl; by inversion H].
    destruct (decide (Forall (R x) l)) as [Hx|Hx].
    + left. by constructor.
    + right. intros H. apply Hx. by inversion H.
Defined.

(** A test that holds of every entry of a map holds of each of them. *)
Lemma map_forallb {A} (p : string * A → bool) (m : gmap string A) k x :
  forallb p (map_to_list m) = true → m !! k = Some x → p (k, x) = true.
Proof.
  rewrite forallb_forall. intros H E.
  apply H, list_elem_of_In, elem_of_map_to_list, E.
Qed.

(** Decide a closed proposition by evaluating its [Decision] instance. *)
Ltac decide_now := refine (bool_decide_unpack _ _); vm_compute; exact I.
