(* ===== verification/GoBytes.v ===== *)
(** * Byte strings and IP addresses of the Go standard library

    The pieces of bytes, math/big and net that pkg/ipam uses.  A byte is a [Z]
    in [0, 256); an address (net.IP) is the list of its bytes, most significant
    first, and Go's nil slice is the empty list.  [val] reads such a list as a
    number; for two addresses of one width, bytes.Compare is the comparison of
    their numbers. *)
From S2P Require Import Prelude.

Open Scope Z_scope.

Abbreviation IP := (list Z).

(** ** bytes.Compare *)

Fixpoint Compare (a b : list Z) : comparison :=
  match a, b with
  | [], [] => Eq
  | [], _ => Lt
  | _, [] => Gt
  | x :: a, y :: b =>
      match x ?= y with
      | Eq => Compare a b
      | c => c
      end
  end.

Definition is_lt (c : comparison) : bool := match c with Lt => true | _ => false end.
Definition is_eq (c : comparison) : bool := match c with Eq => true | _ => false end.
Definition is_gt (c : comparison) : bool := match c with Gt => true | _ => false end.
Definition is_ge (c : comparison) : bool := negb (is_lt c).
Definition is_le (c : comparison) : bool := negb (is_gt c).

(** ** math/big: SetBytes and Bytes *)

(** The number a byte string denotes, big endian (big.Int.SetBytes). *)
Fixpoint val (l : list Z) : Z :=
  match l with
  | [] => 0
  | b :: l => b * 256 ^ Z.of_nat (length l) + val l
  end.

Definition byte_ok (b : Z) : Prop := 0 <= b < 256.

(** A byte string of [n] bytes. *)
Definition ok (n : nat) (l : list Z) : Prop := length l = n ∧ Forall byte_ok l.

#[export] Instance byte_ok_dec b : Decision (byte_ok b).
Proof. unfold byte_ok. apply _. Defined.
#[export] Instance ok_dec n l : Decision (ok n l).
Proof. unfold ok. apply _. Defined.

(** The [n] low bytes of [z], big endian. *)
Fixpoint to_bytes (n : nat) (z : Z) : list Z :=
  match n with
  | O => []
  | S n => to_bytes n (z / 256) ++ [z mod 256]
  end.

(** big.Int.Bytes: the shortest big endian string, empty for 0. *)
Definition big_bytes (z : Z) : list Z :=
  if z =? 0 then [] else to_bytes (Z.to_nat (Z.log2 z / 8 + 1)) z.

(** int64 arithmetic wraps; big.Int.Int64 keeps the low 64 bits. *)
Definition int64 (z : Z) : Z := (z + 2 ^ 63) mod 2 ^ 64 - 2 ^ 63.
Definition MaxInt64 : Z := 2 ^ 63 - 1.

Lemma int64_id z : - 2 ^ 63 <= z <= MaxInt64 → int64 z = z.
Proof. unfold int64, MaxInt64. intros. rewrite Z.mod_small; lia. Qed.

(** ** Facts about [val] *)

Lemma pow256_pos n : 0 < 256 ^ Z.of_nat n.
Proof. apply Z.pow_pos_nonneg; lia. Qed.
#[export] Hint Resolve pow256_pos : go.

Lemma pow256_S n : 256 ^ Z.of_nat (S n) = 256 * 256 ^ Z.of_nat n.
Proof. by rewrite Nat2Z.inj_succ, Z.pow_succ_r by lia. Qed.

Lemma ok_cons n b l : ok (S n) (b :: l) ↔ byte_ok b ∧ ok n l.
Proof. unfold ok. rewrite Forall_cons; simpl. naive_solver. Qed.

Lemma val_bound n l : ok n l → 0 <= val l < 256 ^ Z.of_nat n.
Proof.
  revert n. induction l as [|b l IH]; intros n [<- Hl].
  { simpl. lia. }
  apply Forall_cons in Hl as [Hb Hl]. specialize (IH (length l) (conj eq_refl Hl)).
  cbn [length val]. rewrite pow256_S. unfold byte_ok in Hb. nia.
Qed.

Lemma val_app a b : val (a ++ b) = val a * 256 ^ Z.of_nat (length b) + val b.
Proof.
  induction a as [|x a IH]; simpl; [done|].
  rewrite IH, length_app, Nat2Z.inj_add, Z.pow_add_r by lia. ring.
Qed.

Lemma Compare_val n a b : ok n a → ok n b → Compare a b = (val a ?= val b).
Proof.
  revert n b. induction a as [|x a IH]; intros n [|y b] [Ha Hfa] [Hb Hfb]; simpl in *; try lia.
  { done. }
  apply Forall_cons in Hfa as [Hx Hfa], Hfb as [Hy Hfb].
  assert (length a = length b) as Hab by lia.
  pose proof (val_bound _ _ (conj eq_refl Hfa)). pose proof (val_bound _ _ (conj eq_refl Hfb)).
  rewrite Hab in *. pose proof (pow256_pos (length b)).
  destruct (Z.compare_spec x y) as [->|Hlt|Hgt].
  - rewrite (IH (length b)) by done. symmetry.
    destruct (Z.compare_spec (val a) (val b)); [apply Z.compare_eq_iff|apply Z.compare_lt_iff|apply Z.compare_gt_iff]; lia.
  - symmetry. apply Z.compare_lt_iff. nia.
  - symmetry. apply Z.compare_gt_iff. nia.
Qed.

Section Tests.
Context (n : nat) (a b : IP) (Ha : ok n a) (Hb : ok n b).

Lemma Compare_lt : is_lt (Compare a b) = (val a <? val b).
Proof using Ha Hb. rewrite (Compare_val n) by done. by destruct (Z.compare_spec (val a) (val b)); simpl; bool_cases; try lia. Qed.
Lemma Compare_gt : is_gt (Compare a b) = (val b <? val a).
Proof using Ha Hb. rewrite (Compare_val n) by done. by destruct (Z.compare_spec (val a) (val b)); simpl; bool_cases; try lia. Qed.
Lemma Compare_ge : is_ge (Compare a b) = (val b <=? val a).
Proof using Ha Hb. rewrite (Compare_val n) by done. by destruct (Z.compare_spec (val a) (val b)); simpl; bool_cases; try lia. Qed.
Lemma Compare_le : is_le (Compare a b) = (val a <=? val b).
Proof using Ha Hb. rewrite (Compare_val n) by done. by destruct (Z.compare_spec (val a) (val b)); simpl; bool_cases; try lia. Qed.
Lemma Compare_eq : is_eq (Compare a b) = (val a =? val b).
Proof using Ha Hb. rewrite (Compare_val n) by done. by destruct (Z.compare_spec (val a) (val b)); simpl; bool_cases; try lia. Qed.
End Tests.

Lemma Compare_Eq_eq a b : Compare a b = Eq ↔ a = b.
Proof.
  revert b. induction a as [|x a IH]; intros [|y b]; simpl; try (split; done).
  destruct (Z.compare_spec x y) as [->|?|?].
  - rewrite IH. split; congruence.
  - split; [done|]. intros [= -> ->]. lia.
  - split; [done|]. intros [= -> ->]. lia.
Qed.

Lemma val_inj n a b : ok n a → ok n b → val a = val b → a = b.
Proof.
  intros Ha Hb E. apply Compare_Eq_eq. rewrite (Compare_val n), E by done.
  apply Z.compare_refl.
Qed.

(** ** Facts about [to_bytes] *)

Lemma to_bytes_ok n z : ok n (to_bytes n z).
Proof.
  revert z. induction n as [|n IH]; intros z; [by split|].
  destruct (IH (z / 256)) as [Hl Hf]. split.
  - simpl. rewrite length_app, Hl. simpl. lia.
  - simpl. apply Forall_app. split; [done|]. apply Forall_singleton.
    apply Z.mod_pos_bound. lia.
Qed.
#[export] Hint Resolve to_bytes_ok : go.

Lemma val_to_bytes n z : 0 <= z < 256 ^ Z.of_nat n → val (to_bytes n z) = z.
Proof.
  revert z. induction n as [|n IH]; intros z Hz; simpl; [simpl in Hz; lia|].
  rewrite pow256_S in Hz. rewrite val_app, IH.
  - simpl. rewrite Z.mul_1_r. pose proof (Z.div_mod z 256). lia.
  - split; [apply Z.div_pos; lia|apply Z.div_lt_upper_bound; lia].
Qed.

Lemma to_bytes_val n l : ok n l → to_bytes n (val l) = l.
Proof.
  intros Hl. apply (val_inj n); auto with go. apply val_to_bytes, val_bound, Hl.
Qed.

Lemma val_zeros k l : val (replicate k 0 ++ l) = val l.
Proof. induction k as [|k IH]; simpl; [done|]. rewrite IH. lia. Qed.

Lemma big_bytes_size n z :
  0 < z < 256 ^ Z.of_nat n →
  z < 256 ^ (Z.log2 z / 8 + 1) ∧ Z.log2 z / 8 + 1 <= Z.of_nat n.
Proof.
  intros Hz. change 256 with (2 ^ 8) in *. rewrite <- Z.pow_mul_r in * by lia.
  pose proof (Z.log2_spec z ltac:(lia)) as [Hl1 Hl2].
  pose proof (Z.log2_nonneg z). pose proof (Z.div_mod (Z.log2 z) 8 ltac:(lia)).
  pose proof (Z.mod_pos_bound (Z.log2 z) 8 ltac:(lia)).
  assert (Z.log2 z < 8 * Z.of_nat n) by (apply (Z.pow_lt_mono_r_iff 2); lia).
  rewrite <- Z.pow_mul_r by lia. split; [|lia].
  eapply Z.lt_le_trans; [exact Hl2|]. apply Z.pow_le_mono_r; lia.
Qed.

(** Padding big.Int.Bytes on the left, as GetIpChunk does, gives the address
    of the wanted width. *)
Lemma big_bytes_pad n z :
  0 <= z < 256 ^ Z.of_nat n →
  (length (big_bytes z) <= n)%nat ∧
  replicate (n - length (big_bytes z)) 0 ++ big_bytes z = to_bytes n z.
Proof.
  intros Hz. unfold big_bytes. destruct (Z.eqb_spec z 0) as [->|Hnz].
  - simpl. split; [lia|]. rewrite app_nil_r, Nat.sub_0_r.
    apply (val_inj n); auto with go.
    + split; [by rewrite length_replicate|]. apply Forall_replicate. unfold byte_ok; lia.
    + rewrite val_to_bytes by lia. rewrite <- (app_nil_r (replicate _ _)). apply val_zeros.
  - destruct (big_bytes_size n z ltac:(lia)) as [Hlt Hle].
    pose proof (Z.div_pos (Z.log2 z) 8 (Z.log2_nonneg z) ltac:(lia)).
    set (k := Z.to_nat (Z.log2 z / 8 + 1)).
    assert (Z.of_nat k = Z.log2 z / 8 + 1) as Hk by (unfold k; lia).
    destruct (to_bytes_ok k z) as [Hlen Hf]. rewrite Hlen. split; [lia|].
    apply (val_inj n); auto with go.
    + split; [rewrite length_app, length_replicate, Hlen; lia|].
      apply Forall_app; split; [apply Forall_replicate; unfold byte_ok; lia|done].
    + rewrite val_zeros, !val_to_bytes by (rewrite ?Hk; lia). done.
Qed.
