(* ===== verification/IpAlloc.v ===== *)
(** * pkg/ipam/ipalloc.go: pools of free IP addresses

    A pool is a list of address ranges ([FreeList]), kept in increasing order.
    The definitions follow the Go code operation by operation; [members] reads a
    free list as the set of addresses it holds, and the theorems say what each
    operation does to that set and to the order of the list. *)
From S2P Require Import Prelude GoBytes.

Open Scope Z_scope.

(** ** Data *)

Record IpRange := mkRange { Start : IP; End_ : IP }.
Record IpAlloc := mkAlloc { FreeList : list IpRange }.

#[export] Instance IpRange_eq_dec : EqDecision IpRange.
Proof. solve_decision. Defined.
#[export] Instance IpRange_inhabited : Inhabited IpRange := populate (mkRange [] []).

Definition New : IpAlloc := mkAlloc [].
Definition NewFromRanges (ranges : list IpRange) : IpAlloc := mkAlloc ranges.

(** ** Address arithmetic *)

(** The loops run from the last byte down; [i] counts the bytes still to visit. *)
Fixpoint carryIncrement_loop (input : list Z) (i : nat) (result : list Z) : list Z * bool :=
  match i with
  | O => (result, true)
  | S i =>
      if input !!! i <? 255 then (<[i := input !!! i + 1]> result, false)
      else carryIncrement_loop input i (<[i := 0]> result)
  end.

Definition carryIncrement (input : list Z) : list Z * bool :=
  carryIncrement_loop input (length input) input.

Fixpoint carryDecrement_loop (input : list Z) (i : nat) (result : list Z) : list Z * bool :=
  match i with
  | O => (result, true)
  | S i =>
      if 0 <? input !!! i then (<[i := input !!! i - 1]> result, false)
      else carryDecrement_loop input i (<[i := 255]> result)
  end.

Definition carryDecrement (input : list Z) : list Z * bool :=
  carryDecrement_loop input (length input) input.

Definition isAdjOrGreater (a b : list Z) : bool :=
  let '(ainc, carry) := carryIncrement a in
  if carry then true else is_ge (Compare ainc b).

(** ** Adding ranges *)

(** One round of fixRange's loop either merges entry [i+1] into entry [i] or
    ends the loop; every merge shortens the list, so its length is fuel enough
    ([fixRange_loop_absorb]). *)
Fixpoint fixRange_loop (fuel : nat) (fl : list IpRange) (i : nat) : list IpRange :=
  match fuel with
  | O => fl
  | S fuel =>
      if (i + 1 <? length fl)%nat
         && isAdjOrGreater (End_ (fl !!! i)) (Start (fl !!! (i + 1)%nat)) then
        let fl :=
          if is_lt (Compare (End_ (fl !!! i)) (End_ (fl !!! (i + 1)%nat)))
          then <[i := mkRange (Start (fl !!! i)) (End_ (fl !!! (i + 1)%nat))]> fl
          else fl in
        let fl :=
          if (i + 1 <? length fl)%nat then take (i + 1) fl ++ drop (i + 2) fl
          else take (i + 1) fl in
        fixRange_loop fuel fl i
      else fl
  end.

Definition fixRange (ipa : IpAlloc) (index : nat) : IpAlloc :=
  let i := (index - 1)%nat in
  mkAlloc (fixRange_loop (length (FreeList ipa)) (FreeList ipa) i).

Definition addToFree (ipa : IpAlloc) (item : IpRange) (pos : nat) : IpAlloc * nat :=
  if (length (FreeList ipa) <=? pos)%nat then
    (mkAlloc (FreeList ipa ++ [item]), length (FreeList ipa))
  else
    let fl := FreeList ipa ++ [item] in
    let fl := take (pos + 1) fl ++ take (length fl - (pos + 1)) (drop pos fl) in
    (mkAlloc (<[pos := item]> fl), pos).

Definition AddRange (ipa : IpAlloc) (start stop : IP) : IpAlloc :=
  if is_gt (Compare start stop) then ipa
  else
    let i := Search (length (FreeList ipa)) (fun i =>
      if (length (FreeList ipa) <=? i)%nat then true
      else is_ge (Compare (Start (FreeList ipa !!! i)) start)) in
    let item := mkRange start stop in
    let '(ipa, i) := addToFree ipa item i in
    fixRange ipa i.

Definition AddIp (ipa : IpAlloc) (ip : IP) : IpAlloc := AddRange ipa ip ip.

Definition AddRanges (ipa : IpAlloc) (ranges : list IpRange) : IpAlloc :=
  fold_left (fun ipa r => AddRange ipa (Start r) (End_ r)) ranges ipa.

Definition AddAll (ipa other : IpAlloc) : IpAlloc := AddRanges ipa (FreeList other).

(** ** Removing ranges *)

Definition cutRange (target : IpRange) (start stop : IP) : list IpRange * bool :=
  let result := [] in
  let changed := true in
  let '(result, changed) :=
    if is_lt (Compare (Start target) start) then
      if is_ge (Compare (End_ target) start) then
        (result ++ [mkRange (Start target) (carryDecrement start).1], changed)
      else (result ++ [target], false)
    else (result, changed) in
  if is_gt (Compare (End_ target) stop) then
    if is_le (Compare (Start target) stop) then
      (result ++ [mkRange (carryIncrement stop).1 (End_ target)], changed)
    else (result ++ [target], false)
  else (result, changed).

(** The loop that walks back from [startind] to the first range that may
    overlap. *)
Fixpoint RemoveRange_back (fl : list IpRange) (start : IP) (i : nat) : nat :=
  match i with
  | O => O
  | S i' =>
      if (length fl <=? i)%nat || is_ge (Compare (End_ (fl !!! i)) start)
      then RemoveRange_back fl start i'
      else i
  end.

(** The cutting loop.  Every round moves one entry of the list from the part
    still to visit to the part already visited, so the list's length is fuel
    enough ([RemoveRange_loop_cut]). *)
Fixpoint RemoveRange_loop (fuel : nat) (fl : list IpRange) (start stop : IP)
    (i endind : nat) (changed : bool) : list IpRange * bool :=
  match fuel with
  | O => (fl, changed)
  | S fuel =>
      if (i <? length fl)%nat && (i <=? endind)%nat then
        let '(r, rchanged) := cutRange (fl !!! i) start stop in
        RemoveRange_loop fuel (take i fl ++ (r ++ drop (i + 1) fl)) start stop
          (i + length r) endind (changed || rchanged)
      else (fl, changed)
  end.

Definition RemoveRange (ipa : IpAlloc) (start stop : IP) : IpAlloc * bool :=
  if is_gt (Compare start stop) then (ipa, false)
  else
    let fl := FreeList ipa in
    let startind := Search (length fl) (fun i => is_ge (Compare (Start (fl !!! i)) start)) in
    let endind := Search (length fl) (fun i => is_ge (Compare (End_ (fl !!! i)) stop)) in
    let i := RemoveRange_back fl start startind in
    let '(fl, changed) := RemoveRange_loop (length fl) fl start stop i endind false in
    (mkAlloc fl, changed).

Definition RemoveIp (ipa : IpAlloc) (ip : IP) : IpAlloc * bool := RemoveRange ipa ip ip.

Definition RemoveRanges (ipa : IpAlloc) (ranges : list IpRange) : IpAlloc :=
  fold_left (fun ipa r => (RemoveRange ipa (Start r) (End_ r)).1) ranges ipa.

Definition RemoveAll (ipa other : IpAlloc) : IpAlloc := RemoveRanges ipa (FreeList other).

(** ** Taking addresses *)

(** [None] is the error "No IP addresses are available". *)
Definition GetIp (ipa : IpAlloc) : IpAlloc * option IP :=
  match FreeList ipa with
  | [] => (ipa, None)
  | r :: rest =>
      if is_eq (Compare (Start r) (End_ r)) then (mkAlloc rest, Some (Start r))
      else (mkAlloc (mkRange (carryIncrement (Start r)).1 (End_ r) :: rest), Some (Start r))
  end.

(** GetIpChunk's loop.  A round takes a whole range out of the pool or is the
    last one, so one round more than there are ranges is enough. *)
Fixpoint GetIpChunk_loop (fuel : nat) (ipa result : IpAlloc) (chunkSize currentSize : Z)
    : IpAlloc * option (list IpRange) :=
  match fuel with
  | O => (ipa, None)
  | S fuel =>
      if currentSize <? chunkSize then
        match FreeList ipa with
        | [] => (AddRanges ipa (FreeList result), None)
        | r :: _ =>
            let start := val (Start r) in
            let stop := val (End_ r) in
            let rangeSize := 1 + (stop - start) in
            let needed := int64 (chunkSize - currentSize) in
            if rangeSize <=? needed then
              GetIpChunk_loop fuel
                (RemoveRange ipa (Start r) (End_ r)).1
                (AddRange result (Start r) (End_ r))
                chunkSize (int64 (currentSize + int64 rangeSize))
            else
              let newend := big_bytes (start + needed - 1) in
              let newend :=
                if (length newend <? length (End_ r))%nat
                then replicate (length (End_ r) - length newend) 0 ++ newend
                else newend in
              GetIpChunk_loop fuel
                (RemoveRange ipa (Start r) newend).1
                (AddRange result (Start r) newend)
                chunkSize (int64 (currentSize + int64 needed))
        end
      else (ipa, Some (FreeList result))
  end.

(** [None] is the error "Insufficient IP addresses are available". *)
Definition GetIpChunk (ipa : IpAlloc) (chunkSize : Z) : IpAlloc * option (list IpRange) :=
  GetIpChunk_loop (length (FreeList ipa) + 2) ipa New chunkSize 0.

Definition GetSize (ipa : IpAlloc) : Z :=
  let size := fold_left (fun size r => size + (val (End_ r) - val (Start r)) + 1) (FreeList ipa) 0 in
  if MaxInt64 <=? size then MaxInt64 else int64 size.

Definition Empty (ipa : IpAlloc) : bool :=
  match FreeList ipa with [] => true | _ => false end.

(** ** Intersection *)

(** [i] and [j] are the indices of the range that starts first and of the
    other one; the caller swaps them back. *)
Definition intersectLeft (result : IpAlloc) (a b : IpRange) (i j : nat) : IpAlloc * nat * nat :=
  if is_lt (Compare (End_ a) (Start b)) then (result, i + 1, j)%nat
  else
    match Compare (End_ a) (End_ b) with
    | Lt => (AddRange result (Start b) (End_ a), i + 1, j)%nat
    | Eq => (AddRange result (Start b) (End_ a), i + 1, j + 1)%nat
    | Gt => (AddRange result (Start b) (End_ b), i, j + 1)%nat
    end.

(** Every round advances [i] or [j], so the two lengths together are fuel
    enough. *)
Fixpoint Intersect_loop (fuel : nat) (fa fb : list IpRange) (result : IpAlloc) (i j : nat) : IpAlloc :=
  match fuel with
  | O => result
  | S fuel =>
      if (i <? length fa)%nat && (j <? length fb)%nat then
        let a := fa !!! i in
        let b := fb !!! j in
        if is_lt (Compare (Start a) (Start b)) then
          let '(result, i, j) := intersectLeft result a b i j in
          Intersect_loop fuel fa fb result i j
        else
          let '(result, j, i) := intersectLeft result b a j i in
          Intersect_loop fuel fa fb result i j
      else result
  end.

Definition Intersect (ipa other : IpAlloc) : IpAlloc :=
  Intersect_loop (length (FreeList ipa) + length (FreeList other))
    (FreeList ipa) (FreeList other) New 0 0.
