(* ===== verification/IpAllocFacts.v ===== *)
(** * Correctness of the address pools (pkg/ipam/ipalloc.go)

    The abstract view of a pool is the set of numbers its ranges cover
    ([members]); [wfl] is the weak order every sequence of operations keeps and
    [sfl] the disjointness that allocation relies on. *)
From S2P Require Import Prelude GoBytes IpAlloc.

Open Scope Z_scope.

(** ** Increment and decrement *)

Lemma val_snoc l b : val (l ++ [b]) = val l * 256 + b.
Proof. rewrite val_app. simpl. lia. Qed.

Lemma lookup_total_snoc (l x : list Z) b : ((l ++ [b]) ++ x) !!! length l = b.
Proof.
  rewrite <- app_assoc. apply list_lookup_total_correct, list_lookup_middle. done.
Qed.

Lemma insert_snoc (l y : list Z) b c : <[length l := c]> ((l ++ [b]) ++ y) = l ++ c :: y.
Proof.
  rewrite <- app_assoc. replace (length l) with (length l + 0)%nat by lia.
  by rewrite insert_app_r.
Qed.

Lemma carryIncrement_loop_spec l x y :
  Forall byte_ok l →
  ∃ r c, carryIncrement_loop (l ++ x) (length l) (l ++ y) = (r ++ y, c) ∧
    ok (length l) r ∧ val r + (if c : bool then 256 ^ Z.of_nat (length l) else 0) = val l + 1.
Proof.
  revert x y. induction l as [|b l IH] using rev_ind; intros x y Hl.
  { exists [], true. by split_and!. }
  apply Forall_app in Hl as [Hl Hb]. rewrite Forall_singleton in Hb.
  rewrite length_app, Nat.add_1_r. cbn [carryIncrement_loop].
  rewrite lookup_total_snoc, !insert_snoc. unfold byte_ok in Hb.
  destruct (Z.ltb_spec b 255).
  - exists (l ++ [b + 1]), false. rewrite <- app_assoc, !val_snoc. split_and!; [done| |lia].
    split; [rewrite length_app; simpl; lia|]. apply Forall_app; split; [done|].
    apply Forall_singleton. unfold byte_ok. lia.
  - rewrite <- app_assoc. destruct (IH ([b] ++ x) (0 :: y) Hl) as (r&c&->&[Hr1 Hr2]&Hv).
    exists (r ++ [0]), c. rewrite <- app_assoc, !val_snoc, pow256_S. split_and!; [done| |].
    + split; [rewrite length_app; simpl; lia|]. apply Forall_app; split; [done|].
      apply Forall_singleton. unfold byte_ok. lia.
    + destruct c; lia.
Qed.

Lemma carryDecrement_loop_spec l x y :
  Forall byte_ok l →
  ∃ r c, carryDecrement_loop (l ++ x) (length l) (l ++ y) = (r ++ y, c) ∧
    ok (length l) r ∧ val r - (if c : bool then 256 ^ Z.of_nat (length l) else 0) = val l - 1.
Proof.
  revert x y. induction l as [|b l IH] using rev_ind; intros x y Hl.
  { exists [], true. by split_and!. }
  apply Forall_app in Hl as [Hl Hb]. rewrite Forall_singleton in Hb.
  rewrite length_app, Nat.add_1_r. cbn [carryDecrement_loop].
  rewrite lookup_total_snoc, !insert_snoc. unfold byte_ok in Hb.
  destruct (Z.ltb_spec 0 b).
  - exists (l ++ [b - 1]), false. rewrite <- app_assoc, !val_snoc. split_and!; [done| |lia].
    split; [rewrite length_app; simpl; lia|]. apply Forall_app; split; [done|].
    apply Forall_singleton. unfold byte_ok. lia.
  - rewrite <- app_assoc. destruct (IH ([b] ++ x) (255 :: y) Hl) as (r&c&->&[Hr1 Hr2]&Hv).
    exists (r ++ [255]), c. rewrite <- app_assoc, !val_snoc, pow256_S. split_and!; [done| |].
    + split; [rewrite length_app; simpl; lia|]. apply Forall_app; split; [done|].
      apply Forall_singleton. unfold byte_ok. lia.
    + destruct c; lia.
Qed.

(** The carry is the overflow of the width. *)
Lemma carryIncrement_spec n a :
  ok n a →
  ok n (carryIncrement a).1 ∧
  val (carryIncrement a).1 + (if (carryIncrement a).2 then 256 ^ Z.of_nat n else 0) = val a + 1.
Proof.
  intros [<- Ha]. destruct (carryIncrement_loop_spec a [] [] Ha) as (r&c&E&Hr&Hv).
  rewrite !app_nil_r in E. unfold carryIncrement. rewrite E. done.
Qed.

Lemma carryDecrement_spec n a :
  ok n a →
  ok n (carryDecrement a).1 ∧
  val (carryDecrement a).1 - (if (carryDecrement a).2 then 256 ^ Z.of_nat n else 0) = val a - 1.
Proof.
  intros [<- Ha]. destruct (carryDecrement_loop_spec a [] [] Ha) as (r&c&E&Hr&Hv).
  rewrite !app_nil_r in E. unfold carryDecrement. rewrite E. done.
Qed.

Lemma carryIncrement_val n a :
  ok n a → val a + 1 < 256 ^ Z.of_nat n → carryIncrement a = (to_bytes n (val a + 1), false).
Proof.
  intros Ha Hlt. destruct (carryIncrement_spec n a Ha) as [Hr Hv].
  pose proof (val_bound _ _ Ha). pose proof (val_bound _ _ Hr).
  destruct (carryIncrement a) as [r []]; simpl in *; [lia|].
  f_equal. rewrite <- Hv, Z.add_0_r. symmetry. by apply to_bytes_val.
Qed.

Lemma carryDecrement_val n a :
  ok n a → 0 < val a → carryDecrement a = (to_bytes n (val a - 1), false).
Proof.
  intros Ha Hlt. destruct (carryDecrement_spec n a Ha) as [Hr Hv].
  pose proof (val_bound _ _ Ha). pose proof (val_bound _ _ Hr).
  destruct (carryDecrement a) as [r []]; simpl in *; [lia|].
  f_equal. rewrite <- Hv, Z.sub_0_r. symmetry. by apply to_bytes_val.
Qed.

Lemma isAdjOrGreater_val n a b :
  ok n a → ok n b → isAdjOrGreater a b = (val b <=? val a + 1).
Proof.
  intros Ha Hb. unfold isAdjOrGreater. destruct (carryIncrement_spec n a Ha) as [Hr Hv].
  pose proof (val_bound _ _ Ha). pose proof (val_bound _ _ Hb). pose proof (val_bound _ _ Hr).
  destruct (carryIncrement a) as [r []]; simpl in *.
  - bool_cases; [done|lia].
  - rewrite (Compare_ge n) by done. f_equal. lia.
Qed.

(** ** Free lists as sets *)

Definition lo (r : IpRange) : Z := val (Start r).
Definition hi (r : IpRange) : Z := val (End_ r).

Definition range_ok (n : nat) (r : IpRange) : Prop :=
  ok n (Start r) ∧ ok n (End_ r) ∧ lo r <= hi r.

(** The addresses a free list holds. *)
Definition members (fl : list IpRange) (x : Z) : Prop :=
  ∃ r, r ∈ fl ∧ lo r <= x <= hi r.

(** Well-formed ranges in the order of their first addresses. *)
Definition wfl (n : nat) (fl : list IpRange) : Prop :=
  Forall (range_ok n) fl ∧ StronglySorted (λ a b, lo a <= lo b) fl.

(** Well-formed, ordered and pairwise disjoint. *)
Definition sfl (n : nat) (fl : list IpRange) : Prop :=
  Forall (range_ok n) fl ∧ StronglySorted (λ a b, hi a < lo b) fl.

#[export] Instance range_ok_dec n r : Decision (range_ok n r).
Proof. unfold range_ok. apply _. Defined.

#[export] Instance lo_le_dec : RelDecision (λ a b : IpRange, lo a <= lo b).
Proof. intros a b. apply _. Defined.
#[export] Instance hi_lt_dec : RelDecision (λ a b : IpRange, hi a < lo b).
Proof. intros a b. apply _. Defined.
#[export] Instance wfl_dec n fl : Decision (wfl n fl).
Proof. unfold wfl. apply _. Defined.
#[export] Instance sfl_dec n fl : Decision (sfl n fl).
Proof. unfold sfl. apply _. Defined.
#[export] Instance members_dec fl x : Decision (members fl x).
Proof.
  refine (cast_if (decide (Exists (λ r, lo r <= x <= hi r) fl)));
    unfold members; by rewrite <- Exists_exists.
Defined.

Lemma members_nil x : members [] x ↔ False.
Proof. unfold members. set_solver. Qed.

Lemma members_cons r fl x : members (r :: fl) x ↔ lo r <= x <= hi r ∨ members fl x.
Proof. unfold members. set_solver. Qed.

Lemma members_app fl1 fl2 x : members (fl1 ++ fl2) x ↔ members fl1 x ∨ members fl2 x.
Proof. unfold members. set_solver. Qed.

Lemma members_bound n fl x : Forall (range_ok n) fl → members fl x → 0 <= x < 256 ^ Z.of_nat n.
Proof.
  intros Hf (r&Hr&Hx). rewrite Forall_forall in Hf. destruct (Hf r Hr) as (Hs&He&_).
  pose proof (val_bound _ _ Hs). pose proof (val_bound _ _ He). unfold lo, hi in *. lia.
Qed.

Lemma sfl_wfl n fl : sfl n fl → wfl n fl.
Proof.
  intros [Hf Hs]. split; [done|]. induction Hs as [|a l Hs IH Ha]; constructor.
  - apply IH. by inversion Hf.
  - apply Forall_cons in Hf as [(?&?&?) Hf]. rewrite Forall_forall in *.
    intros b Hb. specialize (Ha b Hb). simpl in Ha. lia.
Qed.

Lemma sfl_app n l1 l2 :
  sfl n (l1 ++ l2) ↔ sfl n l1 ∧ sfl n l2 ∧ (∀ a b, a ∈ l1 → b ∈ l2 → hi a < lo b).
Proof. unfold sfl. rewrite Forall_app, StronglySorted_app_iff. tauto. Qed.

Lemma wfl_app n l1 l2 :
  wfl n (l1 ++ l2) ↔ wfl n l1 ∧ wfl n l2 ∧ (∀ a b, a ∈ l1 → b ∈ l2 → lo a <= lo b).
Proof. unfold wfl. rewrite Forall_app, StronglySorted_app_iff. tauto. Qed.

Lemma sfl_cons n r l :
  sfl n (r :: l) ↔ range_ok n r ∧ sfl n l ∧ (∀ b, b ∈ l → hi r < lo b).
Proof. unfold sfl. rewrite Forall_cons, StronglySorted_cons, (Forall_forall (λ b, _ < lo b)). tauto. Qed.

Lemma wfl_cons n r l :
  wfl n (r :: l) ↔ range_ok n r ∧ wfl n l ∧ (∀ b, b ∈ l → lo r <= lo b).
Proof. unfold wfl. rewrite Forall_cons, StronglySorted_cons, (Forall_forall (λ b, _ <= lo b)). tauto. Qed.

Lemma wfl_nil n : wfl n [].
Proof. split; constructor. Qed.
Lemma sfl_nil n : sfl n [].
Proof. split; constructor. Qed.
#[export] Hint Resolve wfl_nil sfl_nil sfl_wfl : go.

(** ** fixRange *)

(** What the loop of fixRange computes once the list is split at the entry it
    works on: the entry swallows its successors while they touch it. *)
Fixpoint absorb (a : IpRange) (post : list IpRange) : list IpRange :=
  match post with
  | [] => [a]
  | b :: post' =>
      if isAdjOrGreater (End_ a) (Start b) then
        absorb (if is_lt (Compare (End_ a) (End_ b)) then mkRange (Start a) (End_ b) else a) post'
      else a :: post
  end.

Lemma fixRange_loop_absorb fuel pre a post :
  (length post <= fuel)%nat →
  fixRange_loop fuel (pre ++ a :: post) (length pre) = pre ++ absorb a post.
Proof.
  revert fuel a. induction post as [|b post IH]; intros fuel a Hfuel.
  - destruct fuel; simpl; [done|]. rewrite length_app. simpl.
    by rewrite (proj2 (Nat.ltb_ge _ _)) by lia.
  - destruct fuel as [|fuel]; [simpl in Hfuel; lia|]. cbn [fixRange_loop absorb].
    assert ((pre ++ a :: b :: post) !!! length pre = a) as ->.
    { by apply list_lookup_total_correct, list_lookup_middle. }
    assert ((pre ++ a :: b :: post) !!! (length pre + 1)%nat = b) as ->.
    { apply list_lookup_total_correct. rewrite lookup_app_r by lia.
      by replace (length pre + 1 - length pre)%nat with 1%nat by lia. }
    rewrite (proj2 (Nat.ltb_lt _ (length (pre ++ a :: b :: post)))) by (rewrite length_app; simpl; lia).
    simpl andb. destruct (isAdjOrGreater (End_ a) (Start b)); [|done].
    set (c := if is_lt _ then _ else a).
    assert ((if is_lt (Compare (End_ a) (End_ b))
             then <[length pre := mkRange (Start a) (End_ b)]> (pre ++ a :: b :: post)
             else pre ++ a :: b :: post) = pre ++ c :: b :: post) as ->.
    { subst c. destruct (is_lt _); [|done]. replace (length pre) with (length pre + 0)%nat at 1 by lia.
      by rewrite insert_app_r. }
    rewrite (proj2 (Nat.ltb_lt _ (length (pre ++ c :: b :: post)))) by (rewrite length_app; simpl; lia).
    rewrite take_app_add, drop_app_add. simpl.
    rewrite <- app_assoc. simpl. apply IH. simpl in Hfuel. lia.
Qed.

(** The merged entry of [absorb]'s step covers exactly the two ranges. *)
Lemma merge_step n a b :
  range_ok n a → range_ok n b → lo a <= lo b → isAdjOrGreater (End_ a) (Start b) = true →
  let c := if is_lt (Compare (End_ a) (End_ b)) then mkRange (Start a) (End_ b) else a in
  range_ok n c ∧ lo c = lo a ∧ hi c = Z.max (hi a) (hi b) ∧
  ∀ x, lo c <= x <= hi c ↔ lo a <= x <= hi a ∨ lo b <= x <= hi b.
Proof.
  intros (Ha1&Ha2&Ha3) (Hb1&Hb2&Hb3) Hab Hadj. rewrite (isAdjOrGreater_val n) in Hadj by done.
  rewrite (Compare_lt n) by done. unfold range_ok, lo, hi in *.
  destruct (Z.leb_spec (val (Start b)) (val (End_ a) + 1)); [|done].
  bool_cases; simpl; split_and!; auto; lia.
Qed.

Lemma absorb_wfl n a post :
  wfl n (a :: post) →
  wfl n (absorb a post) ∧ (∀ x, members (absorb a post) x ↔ members (a :: post) x) ∧
  (∀ c, c ∈ absorb a post → lo a <= lo c).
Proof.
  revert a. induction post as [|b post IH]; intros a Hwf.
  { simpl. split_and!; auto. intros c ->%list_elem_of_singleton. lia. }
  pose proof Hwf as (Ha&(Hb&Hpost&Hb')%wfl_cons&Ha')%wfl_cons.
  simpl. destruct (isAdjOrGreater (End_ a) (Start b)) eqn:Hadj.
  - destruct (merge_step n a b) as (Hc&Hlo&Hhi&Hmem); auto; [set_solver|].
    revert Hc Hlo Hhi Hmem. set (c := if is_lt _ then _ else a). intros Hc Hlo Hhi Hmem.
    destruct (IH c) as (?&Hm&?).
    { apply wfl_cons. split_and!; auto. intros d Hd. rewrite Hlo. set_solver. }
    split_and!; [done| |rewrite <- Hlo; done].
    intros x. rewrite Hm, !members_cons, Hmem. tauto.
  - split_and!; auto. intros c [->|Hc]%elem_of_cons; [lia|]. auto.
Qed.

Lemma absorb_sfl n a post : sfl n (a :: post) → sfl n (absorb a post).
Proof.
  revert a. induction post as [|b post IH]; intros a Hs; [done|].
  pose proof Hs as (Ha&(Hb&Hpost&Hb')%sfl_cons&Ha')%sfl_cons.
  simpl. destruct (isAdjOrGreater (End_ a) (Start b)) eqn:Hadj; [|done].
  assert (hi a < lo b) by set_solver.
  assert (lo a <= lo b) by (destruct Ha as (?&?&?); lia).
  destruct (merge_step n a b) as (Hc&Hlo&Hhi&_); auto.
  revert Hc Hlo Hhi. set (c := if is_lt _ then _ else a). intros Hc Hlo Hhi.
  apply IH, sfl_cons. split_and!; auto. intros d Hd. rewrite Hhi.
  assert (hi a < lo d) by set_solver. assert (hi b < lo d) by set_solver. lia.
Qed.

(** ** AddRange *)

Lemma addToFree_eq ipa item pos :
  (pos <= length (FreeList ipa))%nat →
  addToFree ipa item pos = (mkAlloc (take pos (FreeList ipa) ++ item :: drop pos (FreeList ipa)), pos).
Proof.
  intros Hpos. unfold addToFree. destruct (Nat.leb_spec (length (FreeList ipa)) pos).
  - assert (pos = length (FreeList ipa)) as -> by lia. by rewrite firstn_all, drop_all.
  - do 2 f_equal. set (fl := FreeList ipa) in *.
    assert (length (take pos fl) = pos) as Hl by (rewrite length_take; lia).
    destruct (lookup_lt_is_Some_2 fl pos) as [x Hx]; [lia|].
    rewrite take_app_le, drop_app_le by lia.
    rewrite Nat.add_1_r, (take_S_r _ _ x), <- app_assoc by done. simpl.
    rewrite <- Hl at 1. replace (length (take pos fl)) with (length (take pos fl) + 0)%nat at 1 by lia.
    rewrite insert_app_r. simpl. do 2 f_equal.
    rewrite length_app. simpl. rewrite take_app_le by (rewrite length_drop; lia).
    apply firstn_all2. rewrite length_drop. lia.
Qed.

Definition insert_point (fl : list IpRange) (start : IP) : nat :=
  Search (length fl) (fun i =>
    if (length fl <=? i)%nat then true else is_ge (Compare (Start (fl !!! i)) start)).

(** AddRange puts the item at the insertion point and lets the entry before it
    (or the item itself, at the front) swallow what follows. *)
Lemma AddRange_shape ipa start stop :
  is_gt (Compare start stop) = false →
  FreeList (AddRange ipa start stop) =
  match insert_point (FreeList ipa) start with
  | O => absorb (mkRange start stop) (FreeList ipa)
  | S p => take p (FreeList ipa) ++
           absorb (FreeList ipa !!! p) (mkRange start stop :: drop (S p) (FreeList ipa))
  end.
Proof.
  intros Hgt. unfold AddRange. rewrite Hgt. fold (insert_point (FreeList ipa) start).
  destruct (Search_spec (length (FreeList ipa)) (fun i =>
    if (length (FreeList ipa) <=? i)%nat then true
    else is_ge (Compare (Start (FreeList ipa !!! i)) start))) as (Hle&_&_).
  fold (insert_point (FreeList ipa) start) in Hle.
  rewrite addToFree_eq by done. unfold fixRange. cbn [FreeList].
  destruct (insert_point (FreeList ipa) start) as [|p].
  - rewrite take_0, drop_0. apply (fixRange_loop_absorb _ []). simpl; lia.
  - simpl Nat.sub. rewrite Nat.sub_0_r.
    destruct (lookup_lt_is_Some_2 (FreeList ipa) p) as [a Ha]; [lia|].
    rewrite (list_lookup_total_correct _ _ _ Ha), (take_S_r _ _ a), <- app_assoc by done.
    cbn [app]. assert (length (take p (FreeList ipa)) = p) as Hl by (rewrite length_take; lia).
    pose proof (fixRange_loop_absorb (length (take p (FreeList ipa) ++
      a :: mkRange start stop :: drop (S p) (FreeList ipa))) (take p (FreeList ipa)) a
      (mkRange start stop :: drop (S p) (FreeList ipa))) as H.
    rewrite Hl in H. apply H. rewrite length_app. simpl. lia.
Qed.

Lemma StronglySorted_lookup {A} (R : A → A → Prop) l i j x y :
  StronglySorted R l → (i < j)%nat → l !! i = Some x → l !! j = Some y → R x y.
Proof.
  intros Hs Hij Hi Hj. rewrite <- (take_drop_middle l i x Hi) in Hs.
  apply StronglySorted_app_iff in Hs as (_&Hs&_). rewrite StronglySorted_cons in Hs. destruct Hs as [Hs _].
  rewrite Forall_forall in Hs. apply Hs, list_elem_of_lookup.
  exists (j - S i)%nat. rewrite lookup_drop. rewrite <- Hj. f_equal. lia.
Qed.

(** Where the insertion point splits an ordered list. *)
Lemma insert_point_spec n fl start :
  wfl n fl → ok n start →
  let i := insert_point fl start in
  (i <= length fl)%nat ∧
  (∀ a, a ∈ take i fl → lo a < val start) ∧ (∀ a, a ∈ drop i fl → val start <= lo a).
Proof.
  intros [Hf Hs] Hst i. destruct (Search_spec (length fl) (fun i =>
    if (length fl <=? i)%nat then true else is_ge (Compare (Start (fl !!! i)) start))) as (Hle&Hbefore&Hat).
  fold (insert_point fl start) in Hle, Hbefore, Hat. fold i in Hle, Hbefore, Hat.
  assert (∀ k r, fl !! k = Some r → is_ge (Compare (Start (fl !!! k)) start) = (val start <=? lo r)) as Htest.
  { intros k r Hk. rewrite (list_lookup_total_correct _ _ _ Hk).
    apply (Compare_ge n); [|done]. by destruct (Forall_lookup_1 _ _ _ _ Hf Hk) as (?&?&?). }
  split_and!; [done|intros a|intros a].
  - rewrite elem_of_take. intros (k&Hk&Hki). destruct Hbefore as [?|Hb]; [lia|].
    destruct (lookup_lt_is_Some_2 fl (i - 1)) as [b Hb']; [lia|].
    rewrite (proj2 (Nat.leb_gt _ _)), (Htest _ b) in Hb by (done || lia).
    assert (lo b < val start) by lia.
    destruct (decide (k = i - 1)%nat) as [->|]; [congruence|].
    pose proof (StronglySorted_lookup _ _ k (i - 1) _ _ Hs ltac:(lia) Hk Hb') as H'. simpl in H'. lia.
  - intros (k&Hk)%list_elem_of_lookup. rewrite lookup_drop in Hk.
    pose proof (lookup_lt_Some _ _ _ Hk). destruct Hat as [?|Ha]; [lia|].
    destruct (lookup_lt_is_Some_2 fl i) as [b Hb']; [lia|].
    rewrite (proj2 (Nat.leb_gt _ _)), (Htest _ b) in Ha by (done || lia).
    destruct (decide (k = 0)%nat) as [->|]; [rewrite Nat.add_0_r in Hk; simplify_eq; lia|].
    pose proof (StronglySorted_lookup _ _ i (i + k) _ _ Hs ltac:(lia) Hb' Hk) as H'. simpl in H'. lia.
Qed.

Lemma wfl_insert n fl start stop i :
  wfl n fl → range_ok n (mkRange start stop) →
  (∀ a, a ∈ take i fl → lo a < val start) → (∀ a, a ∈ drop i fl → val start <= lo a) →
  wfl n (take i fl ++ mkRange start stop :: drop i fl).
Proof.
  intros Hwf Hr Hlo Hhi. rewrite <- (take_drop i fl), wfl_app in Hwf. destruct Hwf as (?&?&?).
  apply wfl_app. split_and!; [done| |].
  - apply wfl_cons. split_and!; auto.
  - intros a b Ha [->|Hb]%elem_of_cons; [|by auto]. specialize (Hlo a Ha). unfold lo at 2. simpl. lia.
Qed.

Lemma AddRange_ok n ipa start stop :
  wfl n (FreeList ipa) → ok n start → ok n stop →
  wfl n (FreeList (AddRange ipa start stop)) ∧
  ∀ x, members (FreeList (AddRange ipa start stop)) x ↔
       members (FreeList ipa) x ∨ val start <= x <= val stop.
Proof.
  intros Hwf Hs He. destruct (is_gt (Compare start stop)) eqn:Hgt.
  { unfold AddRange. rewrite Hgt. rewrite (Compare_gt n) in Hgt by done.
    split; [done|]. intros x. assert (val stop < val start) by lia. split; [auto|]. intros [?|?]; [done|lia]. }
  rewrite AddRange_shape by done. rewrite (Compare_gt n) in Hgt by done.
  assert (range_ok n (mkRange start stop)) as Hr by (split_and!; auto; unfold lo, hi; simpl; lia).
  destruct (insert_point_spec n (FreeList ipa) start) as (Hle&Hbef&Haft); [done..|].
  pose proof (wfl_insert _ _ _ _ _ Hwf Hr Hbef Haft) as Hins.
  destruct (insert_point (FreeList ipa) start) as [|p].
  - rewrite take_0, drop_0 in Hins. destruct (absorb_wfl _ _ _ Hins) as (?&Hm&_).
    split; [done|]. intros x. rewrite Hm, members_cons. unfold lo, hi; simpl. tauto.
  - destruct (lookup_lt_is_Some_2 (FreeList ipa) p) as [a Ha]; [lia|].
    rewrite (list_lookup_total_correct _ _ _ Ha).
    rewrite (take_S_r _ _ a), <- app_assoc in Hins by done. simpl in Hins.
    pose proof Hins as (Hpre&Hsuf&Hcross)%wfl_app.
    destruct (absorb_wfl _ _ _ Hsuf) as (Hw&Hm&Hlo). split.
    + apply wfl_app. split_and!; auto. intros b c Hb Hc. specialize (Hlo c Hc).
      specialize (Hcross b a Hb). etrans; [apply Hcross; set_solver|done].
    + intros x. rewrite members_app, Hm, !members_cons.
      rewrite <- (take_drop_middle (FreeList ipa) p a Ha) at 3.
      rewrite members_app, members_cons. unfold lo, hi; simpl. tauto.
Qed.

(** Adding a range that touches nothing of the pool keeps it disjoint. *)
Lemma AddRange_disjoint n ipa start stop :
  sfl n (FreeList ipa) → ok n start → ok n stop →
  (∀ x, val start <= x <= val stop → ¬ members (FreeList ipa) x) →
  sfl n (FreeList (AddRange ipa start stop)).
Proof.
  intros Hsfl Hs He Hdis. destruct (is_gt (Compare start stop)) eqn:Hgt.
  { unfold AddRange. by rewrite Hgt. }
  rewrite AddRange_shape by done. rewrite (Compare_gt n) in Hgt by done.
  assert (range_ok n (mkRange start stop)) as Hr by (split_and!; auto; unfold lo, hi; simpl; lia).
  destruct (insert_point_spec n (FreeList ipa) start) as (Hle&Hbef&Haft); [auto with go|done|].
  assert (sfl n (take (insert_point (FreeList ipa) start) (FreeList ipa) ++
    mkRange start stop :: drop (insert_point (FreeList ipa) start) (FreeList ipa))) as Hins.
  { set (i := insert_point (FreeList ipa) start) in *.
    pose proof Hsfl as Hsfl'. rewrite <- (take_drop i (FreeList ipa)), sfl_app in Hsfl'.
    destruct Hsfl' as (Hpre&Hpost&Hcross).
    apply sfl_app. split_and!; [done| |].
    - apply sfl_cons. split_and!; auto. intros b Hb. specialize (Haft b Hb).
      unfold hi; simpl. destruct (Z.lt_ge_cases (val stop) (lo b)); [done|].
      destruct (Hdis (lo b)); [lia|]. exists b. split; [by eapply elem_of_subseteq, Hb; apply subseteq_drop|].
      destruct Hpost as [Hf _]. rewrite Forall_forall in Hf. destruct (Hf b Hb) as (?&?&?). lia.
    - intros a b Ha [->|Hb]%elem_of_cons; [|by auto]. specialize (Hbef a Ha). unfold lo; simpl.
      destruct (Z.lt_ge_cases (hi a) (val start)); [done|]. destruct (Hdis (val start)); [lia|].
      exists a. split; [by eapply elem_of_subseteq, Ha; apply subseteq_take|lia]. }
  destruct (insert_point (FreeList ipa) start) as [|p].
  - rewrite take_0, drop_0 in Hins. by apply absorb_sfl.
  - destruct (lookup_lt_is_Some_2 (FreeList ipa) p) as [a Ha]; [lia|].
    rewrite (list_lookup_total_correct _ _ _ Ha).
    rewrite (take_S_r _ _ a), <- app_assoc in Hins by done. simpl in Hins.
    pose proof Hins as (Hpre&Hsuf&Hcross)%sfl_app. apply sfl_app. split_and!; auto using absorb_sfl.
    intros b c Hb Hc.
    destruct (absorb_wfl n a (mkRange start stop :: drop (S p) (FreeList ipa))) as (_&_&Hlo); [auto with go|].
    specialize (Hlo c Hc). specialize (Hcross b a Hb ltac:(set_solver)). lia.
Qed.

(** ** RemoveRange *)

(** Free lists of at most two ranges. *)
Ltac small_sfl :=
  repeat (apply sfl_cons; split_and!;
    [assumption| |let b := fresh "b" in let Hb := fresh "Hb" in intros b Hb;
      repeat (apply elem_of_cons in Hb as [->|Hb]; [lia|]); by apply elem_of_nil in Hb]);
  apply sfl_nil.

Section Remove.
Context (n : nat) (start stop : IP).
Context (Hstart : ok n start) (Hstop : ok n stop) (Hle : val start <= val stop).

(** cutRange keeps what lies outside [start, stop], in order, and reports a
    change exactly when the target meets the interval. *)
Lemma cutRange_spec t :
  range_ok n t →
  let '(r, c) := cutRange t start stop in
  sfl n r ∧ (∀ a, a ∈ r → lo t <= lo a ∧ hi a <= hi t) ∧
  (∀ x, members r x ↔ lo t <= x <= hi t ∧ ¬ (val start <= x <= val stop)) ∧
  (c = true ↔ lo t <= val stop ∧ val start <= hi t) ∧
  ((length r <= 1)%nat ∨ val stop < hi t).
Proof using Hstart Hstop Hle.
  intros Ht. pose proof Ht as (H1&H2&H3). unfold cutRange.
  rewrite !(Compare_lt n), !(Compare_ge n), !(Compare_gt n), !(Compare_le n) by done.
  pose proof (val_bound _ _ H1). pose proof (val_bound _ _ H2).
  pose proof (val_bound _ _ Hstart). pose proof (val_bound _ _ Hstop).
  assert (val (Start t) < val start → range_ok n (mkRange (Start t) (carryDecrement start).1) ∧
    hi (mkRange (Start t) (carryDecrement start).1) = val start - 1) as Hdec.
  { intros Hlt. rewrite (carryDecrement_val n) by (done || lia). unfold range_ok, lo, hi. simpl.
    rewrite val_to_bytes by lia. split_and!; auto with go; lia. }
  assert (val stop < val (End_ t) → range_ok n (mkRange (carryIncrement stop).1 (End_ t)) ∧
    lo (mkRange (carryIncrement stop).1 (End_ t)) = val stop + 1) as Hinc.
  { intros Hlt. rewrite (carryIncrement_val n) by (done || lia). unfold range_ok, lo, hi. simpl.
    rewrite val_to_bytes by lia. split_and!; auto with go; lia. }
  assert (lo t = val (Start t)) as Hlo by done. assert (hi t = val (End_ t)) as Hhi by done.
  revert Hdec Hinc. set (L := mkRange (Start t) _). set (R := mkRange _ (End_ t)). intros Hdec Hinc.
  assert (lo L = lo t) as HL by done. assert (hi R = hi t) as HR by done.
  clearbody L R. rewrite <- Hlo, <- Hhi in *.
  destruct (Z.ltb_spec (lo t) (val start)), (Z.leb_spec (val start) (hi t)),
    (Z.ltb_spec (val stop) (hi t)), (Z.leb_spec (lo t) (val stop)); try lia; simpl;
  repeat match goal with
    | H : ?P → _, H' : ?P |- _ => specialize (H H'); destruct H
    end;
  (split_and!;
    [ small_sfl
    | intros a Ha; repeat (apply elem_of_cons in Ha as [->|Ha]; [lia|]); by apply elem_of_nil in Ha
    | intros x; rewrite ?members_cons, ?members_nil; lia
    | split; [intros; try done; lia | intros; try done; lia]
    | first [left; simpl; lia | right; lia] ]).
Qed.

(** What the cutting loop computes on the part of the list it still has to
    visit; [i] is the index of its first entry. *)
Fixpoint cut_walk (endind i : nat) (post : list IpRange) : list IpRange * bool :=
  match post with
  | [] => ([], false)
  | t :: post' =>
      if (i <=? endind)%nat then
        let '(r, c) := cutRange t start stop in
        let '(out, c') := cut_walk endind (i + length r) post' in
        (r ++ out, c || c')
      else (post, false)
  end.

Lemma RemoveRange_loop_cut fuel pre post endind ch :
  (length post <= fuel)%nat →
  RemoveRange_loop fuel (pre ++ post) start stop (length pre) endind ch =
  let '(out, c) := cut_walk endind (length pre) post in (pre ++ out, ch || c).
Proof using Type.
  revert fuel pre ch. induction post as [|t post IH]; intros fuel pre ch Hf; simpl.
  - rewrite app_nil_r, orb_false_r. destruct fuel; simpl; [done|]. by rewrite Nat.ltb_irrefl.
  - destruct fuel as [|fuel]; simpl in Hf; [lia|]. cbn [RemoveRange_loop].
    rewrite (proj2 (Nat.ltb_lt _ _)) by (rewrite length_app; simpl; lia). simpl andb.
    destruct (length pre <=? endind)%nat; [|by rewrite orb_false_r].
    assert ((pre ++ t :: post) !!! length pre = t) as ->
      by (by apply list_lookup_total_correct, list_lookup_middle).
    destruct (cutRange t start stop) as [r c].
    rewrite (take_app_length pre), drop_app_add. simpl.
    rewrite app_assoc, <- length_app, IH by lia.
    rewrite length_app. destruct (cut_walk _ _ post) as [out c'].
    by rewrite <- app_assoc, orb_assoc.
Qed.

Lemma cut_walk_spec endind i post :
  sfl n post →
  (∀ k t, post !! k = Some t → (endind < i + k)%nat → val stop < lo t) →
  let '(out, c) := cut_walk endind i post in
  sfl n out ∧ (∀ a, a ∈ out → ∃ t, t ∈ post ∧ lo t <= lo a ∧ hi a <= hi t) ∧
  (∀ x, members out x ↔ members post x ∧ ¬ (val start <= x <= val stop)) ∧
  (c = true ↔ ∃ x, members post x ∧ val start <= x <= val stop).
Proof using Hstart Hstop Hle.
  revert i. induction post as [|t post IH]; intros i Hsfl Hidx; simpl.
  { split_and!; auto with go; [set_solver|setoid_rewrite members_nil; tauto|].
    split; [done|]. intros (x&Hx&_). by apply members_nil in Hx. }
  pose proof Hsfl as (Ht&Hpost&Hbelow)%sfl_cons.
  destruct (Nat.leb_spec i endind) as [Hi|Hi].
  - pose proof (cutRange_spec t Ht) as Hcut. destruct (cutRange t start stop) as [r c].
    destruct Hcut as (Hr1&Hr2&Hr3&Hr4&Hr5).
    specialize (IH (i + length r)%nat Hpost). destruct (cut_walk _ _ post) as [out c'].
    destruct IH as (Ho1&Ho2&Ho3&Ho4).
    { intros k u Hk Hend. destruct Hr5 as [Hr5|Hr5].
      - apply (Hidx (S k) u Hk). lia.
      - assert (hi t < lo u) by (apply Hbelow; eapply list_elem_of_lookup_2, Hk). lia. }
    split_and!.
    + apply sfl_app. split_and!; auto. intros a b Ha Hb. apply Hr2 in Ha as [_ Ha].
      apply Ho2 in Hb as (u&Hu&Hb&_). specialize (Hbelow u Hu). lia.
    + intros a [Ha|Ha]%elem_of_app; [exists t; set_solver|].
      apply Ho2 in Ha as (u&?&?). exists u. set_solver.
    + intros x. rewrite members_app, members_cons, Hr3, Ho3. tauto.
    + rewrite orb_true_iff, Hr4, Ho4. setoid_rewrite members_cons. split.
      * intros [[? ?]|(x&?&?)]; [|by eauto]. exists (Z.max (lo t) (val start)).
        destruct Ht as (?&?&?). split; [left|]; lia.
      * intros (x&[?|?]&?); [left; lia|eauto].
  - assert (∀ u, u ∈ t :: post → val stop < lo u) as Hall.
    { intros u (k&Hk)%list_elem_of_lookup. apply (Hidx k); [done|lia]. }
    split_and!; auto.
    + intros a Ha. exists a. split_and!; [done|lia|lia].
    + intros x. split; [|tauto]. intros Hx. split; [done|]. destruct Hx as (u&Hu&?).
      specialize (Hall u Hu). lia.
    + split; [done|]. intros (x&(u&Hu&?)&?). specialize (Hall u Hu). lia.
Qed.

Lemma RemoveRange_back_spec fl i :
  let j := RemoveRange_back fl start i in
  j = 0%nat ∨ ((j < length fl)%nat ∧ is_ge (Compare (End_ (fl !!! j)) start) = false).
Proof using Type.
  induction i as [|i IH]; simpl; [by left|].
  destruct (Nat.leb_spec (length fl) (S i)); simpl; [done|].
  destruct (is_ge _) eqn:E; [done|]. by right.
Qed.

(** RemoveRange takes exactly [start, stop] out of a disjoint pool, keeps it
    disjoint, and answers whether anything was there. *)
Lemma RemoveRange_ok ipa :
  sfl n (FreeList ipa) →
  let '(ipa', c) := RemoveRange ipa start stop in
  sfl n (FreeList ipa') ∧
  (∀ x, members (FreeList ipa') x ↔ members (FreeList ipa) x ∧ ¬ (val start <= x <= val stop)) ∧
  (c = true ↔ ∃ x, members (FreeList ipa) x ∧ val start <= x <= val stop).
Proof using Hstart Hstop Hle.
  intros Hsfl. unfold RemoveRange. rewrite (Compare_gt n) by done.
  rewrite (proj2 (Z.ltb_ge _ _)) by lia. set (fl := FreeList ipa) in *.
  pose proof (Search_spec (length fl) (fun i => is_ge (Compare (End_ (fl !!! i)) stop))) as (_&_&Hend).
  set (endind := Search _ (fun i => is_ge (Compare (End_ _) _))) in *.
  set (si := Search _ (fun i => is_ge (Compare (Start _) _))).
  pose proof (RemoveRange_back_spec fl si) as Hj. set (j := RemoveRange_back fl start si) in *.
  assert (j <= length fl)%nat as Hjl by (destruct Hj as [->|[? _]]; lia).
  assert (∀ k t, fl !! k = Some t → range_ok n t) as Hok
    by (intros; by eapply Forall_lookup_1; [apply Hsfl|]).
  assert (∀ k k' t t', fl !! k = Some t → fl !! k' = Some t' → (k < k')%nat → hi t < lo t') as Hord.
  { intros k k' t t' Hk Hk' Hlt. destruct Hsfl as [_ Hs].
    by apply (StronglySorted_lookup _ _ k k' _ _ Hs Hlt Hk Hk'). }
  assert (∀ a, a ∈ take j fl → hi a < val start) as Hpre.
  { intros a (k&Hk&Hkj)%elem_of_take. destruct Hj as [->|[Hj1 Hj2]]; [lia|].
    destruct (lookup_lt_is_Some_2 fl j Hj1) as [b Hb].
    rewrite (list_lookup_total_correct _ _ _ Hb) in Hj2.
    destruct (Hok _ _ Hb) as (?&?&?). rewrite (Compare_ge n) in Hj2 by done.
    specialize (Hord _ _ _ _ Hk Hb Hkj). unfold hi in *. lia. }
  pose proof Hsfl as Hsplit. rewrite <- (take_drop j fl), sfl_app in Hsplit.
  destruct Hsplit as (Hs1&Hs2&Hs3).
  assert (∀ x, members fl x ↔ members (take j fl) x ∨ members (drop j fl) x) as Hm
    by (intros; by rewrite <- members_app, take_drop).
  pose proof (RemoveRange_loop_cut (length fl) (take j fl) (drop j fl) endind false) as Hloop.
  rewrite take_drop, length_take, Nat.min_l in Hloop by lia.
  rewrite Hloop by (rewrite length_drop; lia).
  pose proof (cut_walk_spec endind j (drop j fl) Hs2) as Hcut.
  destruct (cut_walk endind j (drop j fl)) as [out c]. destruct Hcut as (Ho1&Ho2&Ho3&Ho4).
  { intros k t Hk Hlt. rewrite lookup_drop in Hk. pose proof (lookup_lt_Some _ _ _ Hk).
    destruct Hend as [Hend|Hend]; [lia|].
    destruct (lookup_lt_is_Some_2 fl endind) as [b Hb]; [lia|].
    rewrite (list_lookup_total_correct _ _ _ Hb) in Hend. destruct (Hok _ _ Hb) as (?&?&?).
    rewrite (Compare_ge n) in Hend by done. specialize (Hord _ _ _ _ Hb Hk Hlt). unfold hi in *. lia. }
  simpl. split_and!.
  - apply sfl_app. split_and!; auto. intros a b Ha Hb. apply Ho2 in Hb as (t&Ht&?&_).
    specialize (Hs3 a t Ha Ht). lia.
  - intros x. rewrite members_app, Ho3, Hm. split; [|tauto]. intros [(a&Ha&Hx)|?]; [|tauto]. specialize (Hpre a Ha).
    split; [left; by exists a|lia].
  - rewrite Ho4. split; intros (x&Hx&?); exists x; (split; [|done]).
    + rewrite Hm. by right.
    + rewrite Hm in Hx. destruct Hx as [(a&Ha&?)|?]; [|done].
      specialize (Hpre a Ha). lia.
Qed.
End Remove.

(** ** Sequences of additions and removals *)

Definition disjoint (P Q : Z → Prop) : Prop := ∀ x, P x → ¬ Q x.

Lemma members_singleton r x : members [r] x ↔ lo r <= x <= hi r.
Proof. rewrite members_cons, members_nil. tauto. Qed.

Lemma AddRanges_ok n ranges ipa :
  wfl n (FreeList ipa) → Forall (range_ok n) ranges →
  wfl n (FreeList (AddRanges ipa ranges)) ∧
  ∀ x, members (FreeList (AddRanges ipa ranges)) x ↔ members (FreeList ipa) x ∨ members ranges x.
Proof.
  unfold AddRanges. revert ipa. induction ranges as [|r ranges IH]; intros ipa Hipa Hr; simpl.
  { split; [done|]. intros x. rewrite members_nil. tauto. }
  apply Forall_cons in Hr as [(Hs&He&_) Hr].
  destruct (AddRange_ok n ipa (Start r) (End_ r)) as [Hw Hm]; [done..|].
  destruct (IH _ Hw Hr) as [Hw' Hm']. split; [done|].
  intros x. rewrite Hm', Hm, members_cons. unfold lo, hi. tauto.
Qed.

Lemma AddRanges_disjoint n ranges ipa :
  sfl n (FreeList ipa) → sfl n ranges → disjoint (members (FreeList ipa)) (members ranges) →
  sfl n (FreeList (AddRanges ipa ranges)).
Proof.
  unfold AddRanges. revert ipa. induction ranges as [|r ranges IH]; intros ipa Hipa Hr Hdis; simpl; [done|].
  apply sfl_cons in Hr as ((Hs&He&?)&Hr&Hbelow). apply IH; [|done|].
  - apply AddRange_disjoint; auto. intros x Hx Hm. apply (Hdis x Hm), members_cons. by left.
  - intros x Hx Hm. apply (AddRange_ok n) in Hx as [Hx|Hx]; auto with go.
    + apply (Hdis x Hx), members_cons. by right.
    + destruct Hm as (u&Hu&?). specialize (Hbelow u Hu). unfold lo, hi in *. lia.
Qed.

Lemma RemoveRanges_ok n ranges ipa :
  sfl n (FreeList ipa) → Forall (range_ok n) ranges →
  sfl n (FreeList (RemoveRanges ipa ranges)) ∧
  ∀ x, members (FreeList (RemoveRanges ipa ranges)) x ↔ members (FreeList ipa) x ∧ ¬ members ranges x.
Proof.
  unfold RemoveRanges. revert ipa. induction ranges as [|r ranges IH]; intros ipa Hipa Hr; simpl.
  { split; [done|]. intros x. rewrite members_nil. tauto. }
  apply Forall_cons in Hr as [(Hs&He&Hle) Hr].
  pose proof (RemoveRange_ok n (Start r) (End_ r) Hs He Hle ipa Hipa) as H.
  destruct (RemoveRange ipa (Start r) (End_ r)) as [ipa1 c]. destruct H as (Hw&Hm&_). simpl.
  destruct (IH _ Hw Hr) as [Hw' Hm']. split; [done|].
  intros x. rewrite Hm', Hm, members_cons. unfold lo, hi. tauto.
Qed.

(** ** GetIp *)

Lemma GetIp_ok n ipa :
  sfl n (FreeList ipa) →
  match GetIp ipa with
  | (ipa', None) => FreeList ipa = [] ∧ ipa' = ipa
  | (ipa', Some ip) =>
      ok n ip ∧ members (FreeList ipa) (val ip) ∧ (∀ x, members (FreeList ipa) x → val ip <= x) ∧
      sfl n (FreeList ipa') ∧ ∀ x, members (FreeList ipa') x ↔ members (FreeList ipa) x ∧ x ≠ val ip
  end.
Proof.
  intros Hsfl. unfold GetIp. destruct (FreeList ipa) as [|r rest]; [done|].
  apply sfl_cons in Hsfl as (Hr&Hrest&Hbelow). pose proof Hr as (Hs&He&Hle).
  rewrite (Compare_eq n) by done.
  assert (∀ x, members rest x → hi r < x) as Hrest'
    by (intros x (u&Hu&?); specialize (Hbelow u Hu); lia).
  assert (∀ x, members (r :: rest) x → lo r <= x) as Hmin.
  { intros x [?|Hx%Hrest']%members_cons; lia. }
  assert (members (r :: rest) (lo r)) as Hin by (apply members_cons; left; lia).
  destruct (Z.eqb_spec (val (Start r)) (val (End_ r))) as [E|E]; simpl.
  - split_and!; auto. intros x. rewrite members_cons. unfold lo, hi in *. rewrite E in *.
    specialize (Hrest' x). split; [intros Hx; specialize (Hrest' Hx); split; [auto|lia]|].
    intros [[?|?] ?]; [lia|done].
  - pose proof (val_bound _ _ He). unfold lo, hi in *. rewrite (carryIncrement_val n) by (done || lia). simpl.
    assert (val (to_bytes n (val (Start r) + 1)) = val (Start r) + 1) as Hv.
    { pose proof (val_bound _ _ Hs). apply val_to_bytes. lia. }
    split_and!; auto.
    + apply sfl_cons. unfold range_ok, lo, hi; simpl. rewrite Hv. split_and!; auto with go. lia.
    + intros x. rewrite !members_cons. unfold lo, hi; simpl. rewrite Hv.
      split; [|intros [[?|?] ?]; [left; lia|tauto]].
      intros [?|Hx]; [lia|]. specialize (Hrest' x Hx). split; [tauto|lia].
Qed.

(** ** Sizes *)

Definition rsize (r : IpRange) : Z := hi r - lo r + 1.
Fixpoint total (fl : list IpRange) : Z :=
  match fl with [] => 0 | r :: fl => rsize r + total fl end.

(** The addresses of a free list, one by one. *)
Fixpoint addresses (fl : list IpRange) : list Z :=
  match fl with [] => [] | r :: fl => seqZ (lo r) (rsize r) ++ addresses fl end.

Lemma elem_of_addresses fl x : x ∈ addresses fl ↔ members fl x.
Proof.
  induction fl as [|r fl IH]; simpl; [rewrite members_nil; set_solver|].
  rewrite elem_of_app, members_cons, IH, elem_of_seqZ. unfold rsize.
  assert (lo r <= x < lo r + (hi r - lo r + 1) ↔ lo r <= x <= hi r) as -> by lia. done.
Qed.

Lemma addresses_NoDup n fl : sfl n fl → NoDup (addresses fl).
Proof.
  induction fl as [|r fl IH]; simpl; intros Hs; [constructor|].
  apply sfl_cons in Hs as (Hr&Hs&Hbelow). apply NoDup_app. split_and!; auto using NoDup_seqZ.
  intros x Hx%elem_of_seqZ (u&Hu&?)%elem_of_addresses. specialize (Hbelow u Hu).
  unfold rsize in Hx. lia.
Qed.

Lemma total_addresses n fl : Forall (range_ok n) fl → total fl = Z.of_nat (length (addresses fl)).
Proof.
  induction 1 as [|r fl (?&?&?) Hf IH]; simpl; [done|].
  rewrite length_app, length_seqZ, IH. unfold rsize. lia.
Qed.

(** Disjoint pools have the size of the set they hold, so sizes add up. *)
Lemma total_union n a b c :
  sfl n a → sfl n b → sfl n c → disjoint (members a) (members b) →
  (∀ x, members c x ↔ members a x ∨ members b x) → total c = total a + total b.
Proof.
  intros Ha Hb Hc Hdis Hm. rewrite !(total_addresses n) by (apply Ha || apply Hb || apply Hc).
  rewrite <- Nat2Z.inj_add, <- length_app. f_equal. apply Permutation_length, NoDup_Permutation.
  - by eapply addresses_NoDup.
  - apply NoDup_app. split_and!; eauto using addresses_NoDup.
    intros x. rewrite !elem_of_addresses. apply Hdis.
  - intros x. rewrite elem_of_app, !elem_of_addresses. apply Hm.
Qed.

Lemma total_nonneg n fl : Forall (range_ok n) fl → 0 <= total fl.
Proof. intros H. rewrite (total_addresses n) by done. lia. Qed.

Lemma sfl_singleton n r : range_ok n r → sfl n [r].
Proof. intros. apply sfl_cons. split_and!; auto with go. intros b Hb. by apply elem_of_nil in Hb. Qed.
#[export] Hint Resolve sfl_singleton : go.

Lemma GetSize_total ipa :
  GetSize ipa = if MaxInt64 <=? total (FreeList ipa) then MaxInt64 else int64 (total (FreeList ipa)).
Proof.
  unfold GetSize.
  assert (∀ fl z, fold_left (fun size r => size + (val (End_ r) - val (Start r)) + 1) fl z = z + total fl) as ->.
  { induction fl as [|r fl IH]; intros z; simpl; [lia|]. rewrite IH. unfold rsize, lo, hi. lia. }
  done.
Qed.

(** ** GetIpChunk *)

Section Above.
Context (n : nat) (start stop : IP).
Context (Hstart : ok n start) (Hstop : ok n stop) (Hle : val start <= val stop).

Lemma cutRange_above t : range_ok n t → val stop < lo t → cutRange t start stop = ([t], false).
Proof using Hstart Hstop Hle.
  intros (H1&H2&H3) Hlt. unfold cutRange, lo, hi in *.
  rewrite !(Compare_lt n), !(Compare_gt n), !(Compare_le n) by done.
  by bool_cases; try lia.
Qed.

Lemma cut_walk_above endind i post :
  sfl n post → (∀ t, t ∈ post → val stop < lo t) → cut_walk start stop endind i post = (post, false).
Proof using Hstart Hstop Hle.
  revert i. induction post as [|t post IH]; intros i Hs Hab; simpl; [done|].
  apply sfl_cons in Hs as (Ht&Hs&_). destruct (i <=? endind)%nat; [|done].
  rewrite cutRange_above by set_solver. rewrite IH by set_solver. done.
Qed.
End Above.

(** Taking the first range out whole leaves the rest as it is. *)
Lemma RemoveRange_head n r rest :
  sfl n (r :: rest) → RemoveRange (mkAlloc (r :: rest)) (Start r) (End_ r) = (mkAlloc rest, true).
Proof.
  intros Hsfl. pose proof Hsfl as ((Hs&He&Hle)&Hrest&Hbelow)%sfl_cons.
  unfold RemoveRange. rewrite (Compare_gt n) by done. unfold lo, hi in Hle.
  rewrite (proj2 (Z.ltb_ge _ _)) by lia. cbn [FreeList].
  set (endind := Search _ (fun i => is_ge (Compare (End_ _) _))).
  set (si := Search _ (fun i => is_ge (Compare (Start _) _))).
  assert (RemoveRange_back (r :: rest) (Start r) si = 0%nat) as ->.
  { destruct (RemoveRange_back_spec (Start r) (r :: rest) si) as [->|[Hlt Hge]]; [done|].
    destruct (lookup_lt_is_Some_2 _ _ Hlt) as [b Hb].
    rewrite (list_lookup_total_correct _ _ _ Hb) in Hge.
    destruct (Forall_lookup_1 _ _ _ _ (proj1 Hsfl) Hb) as (Hb1&Hb2&Hb3).
    rewrite (Compare_ge n) in Hge by done. unfold lo, hi in *.
    apply list_elem_of_lookup_2, elem_of_cons in Hb as [->|Hb]; [lia|].
    specialize (Hbelow b Hb). lia. }
  pose proof (RemoveRange_loop_cut (Start r) (End_ r) (length (r :: rest)) [] (r :: rest) endind false) as Hl.
  simpl length in Hl. rewrite app_nil_l in Hl. simpl length. rewrite Hl by (simpl; lia). simpl.
  assert (cutRange r (Start r) (End_ r) = ([], true)) as ->.
  { unfold cutRange. rewrite (Compare_lt n), (Compare_gt n) by done. by rewrite !Z.ltb_irrefl. }
  simpl. rewrite (cut_walk_above n) by (done || apply Hbelow). done.
Qed.

(** The ranges of one pool lie below those of another. *)
Definition below (a b : list IpRange) : Prop := ∀ r u, r ∈ a → u ∈ b → hi r < lo u.

Lemma below_disjoint a b : below a b → disjoint (members a) (members b).
Proof. intros Hb x (r&Hr&?) (u&Hu&?). specialize (Hb r u Hr Hu). lia. Qed.

(** Adding a range that starts above everything in the result. *)
Lemma AddRange_above n result r rest :
  sfl n (FreeList result) → range_ok n r → below (FreeList result) (r :: rest) →
  sfl n (FreeList (AddRange result (Start r) (End_ r))) ∧
  (∀ x, members (FreeList (AddRange result (Start r) (End_ r))) x ↔
        members (FreeList result) x ∨ lo r <= x <= hi r) ∧
  total (FreeList (AddRange result (Start r) (End_ r))) = total (FreeList result) + rsize r.
Proof.
  intros Hres Hr Hb. pose proof Hr as (Hs&He&Hle).
  assert (disjoint (members (FreeList result)) (members [r])) as Hdis.
  { apply below_disjoint. intros a u Ha ->%list_elem_of_singleton. apply Hb; set_solver. }
  destruct (AddRange_ok n result (Start r) (End_ r)) as [_ Hm]; [auto with go..|].
  assert (sfl n (FreeList (AddRange result (Start r) (End_ r)))) as Hsfl.
  { apply AddRange_disjoint; auto. intros x Hx Hin. apply (Hdis x Hin). by apply members_singleton. }
  split_and!; [done|done|].
  replace (rsize r) with (total [r]) by (simpl; lia).
  eapply total_union; eauto with go. intros x. rewrite Hm, members_singleton. done.
Qed.

Lemma hi_members n fl r : Forall (range_ok n) fl → r ∈ fl → members fl (hi r).
Proof. rewrite Forall_forall. intros Hf Hr. exists r. destruct (Hf r Hr) as (?&?&?). split; [done|lia]. Qed.
Lemma lo_members n fl r : Forall (range_ok n) fl → r ∈ fl → members fl (lo r).
Proof. rewrite Forall_forall. intros Hf Hr. exists r. destruct (Hf r Hr) as (?&?&?). split; [done|lia]. Qed.

(** What a successful and a failed GetIpChunk leave behind, for a pool that
    held [P] with [sz] addresses. *)
Definition chunk_post (n : nat) (P : Z → Prop) (sz want : Z) (res : IpAlloc * option (list IpRange)) : Prop :=
  sfl n (FreeList res.1) ∧
  match res.2 with
  | Some rs =>
      sfl n rs ∧ total rs = want ∧ disjoint (members rs) (members (FreeList res.1)) ∧
      (∀ x, P x ↔ members rs x ∨ members (FreeList res.1) x)
  | None => sz < want ∧ (∀ x, P x ↔ members (FreeList res.1) x)
  end.

Lemma chunk_post_proper n P Q sz want res :
  (∀ x, P x ↔ Q x) → chunk_post n P sz want res → chunk_post n Q sz want res.
Proof.
  intros HPQ [H1 H2]. split; [done|]. destruct (res.2); destruct_and!; split_and!; auto;
    intros x; rewrite <- HPQ; auto.
Qed.

(** The last round: the wanted rest of the chunk fits into the first range. *)
Lemma chunk_cut n r needed :
  range_ok n r → 0 < needed < rsize r →
  let newend := big_bytes (lo r + needed - 1) in
  (if (length newend <? length (End_ r))%nat
   then replicate (length (End_ r) - length newend) 0 ++ newend else newend)
  = to_bytes n (lo r + needed - 1).
Proof.
  intros (Hs&He&Hle) Hn newend. pose proof (val_bound _ _ Hs). pose proof (val_bound _ _ He).
  unfold rsize, lo, hi in *. destruct (big_bytes_pad n (val (Start r) + needed - 1)) as [H1 H2]; [lia|].
  fold newend in H1, H2. destruct He as [Hlen _]. rewrite Hlen.
  destruct (Nat.ltb_spec (length newend) n); [done|].
  rewrite <- H2. by replace (n - length newend)%nat with 0%nat by lia.
Qed.

Lemma chunk_last_round n ipa result r rest needed sz :
  sfl n (FreeList ipa) → FreeList ipa = r :: rest → sfl n (FreeList result) →
  below (FreeList result) (FreeList ipa) → 0 < needed < rsize r →
  let newend := to_bytes n (lo r + needed - 1) in
  total (FreeList (AddRange result (Start r) newend)) = total (FreeList result) + needed ∧
  chunk_post n (λ x, members (FreeList result) x ∨ members (FreeList ipa) x) sz
    (total (FreeList result) + needed)
    ((RemoveRange ipa (Start r) newend).1, Some (FreeList (AddRange result (Start r) newend))).
Proof.
  intros Hipa Efl Hres Hbel Hn newend. rewrite Efl in Hbel.
  assert (range_ok n r) as (Hs&He&Hle) by (rewrite Efl, sfl_cons in Hipa; tauto).
  pose proof (val_bound _ _ Hs). pose proof (val_bound _ _ He). unfold rsize, lo, hi in Hn, Hle.
  assert (val newend = lo r + needed - 1) as Hv by (apply val_to_bytes; unfold lo; lia).
  assert (range_ok n (mkRange (Start r) newend)) as Hq.
  { split_and!; [done|apply to_bytes_ok|unfold lo, hi in *; simpl; lia]. }
  destruct (AddRange_above n result (mkRange (Start r) newend) []) as (Hsfl'&Hm'&Ht'); [done..| |].
  { intros a u Ha ->%list_elem_of_singleton. apply (Hbel a r Ha). set_solver. }
  unfold rsize, lo, hi in Ht', Hm', Hv; simpl in Ht', Hm'. split; [lia|].
  pose proof (RemoveRange_ok n (Start r) newend Hs (proj1 (proj2 Hq)) ltac:(apply Hq) ipa Hipa) as Hrem.
  destruct (RemoveRange ipa (Start r) newend) as [ipa1 ?]. destruct Hrem as (Hsfl1&Hm1&_).
  split; simpl; [done|]. split_and!; [done|lia| |].
  - intros x [Hx|Hx]%Hm' [Hx1 Hx2]%Hm1; [|lia]. rewrite Efl in Hx1. by apply (below_disjoint _ _ Hbel x).
  - intros x. rewrite Hm', Hm1, Efl, members_cons. unfold lo, hi.
    destruct (decide (val (Start r) <= x <= val newend)); [|tauto].
    split; [tauto|]. intros _. right. left. lia.
Qed.

Lemma GetIpChunk_loop_ok n chunkSize fuel ipa result :
  (length (FreeList ipa) + 1 < fuel)%nat →
  sfl n (FreeList ipa) → sfl n (FreeList result) → below (FreeList result) (FreeList ipa) →
  total (FreeList result) <= chunkSize <= MaxInt64 →
  chunk_post n (λ x, members (FreeList result) x ∨ members (FreeList ipa) x)
    (total (FreeList result) + total (FreeList ipa)) chunkSize
    (GetIpChunk_loop fuel ipa result chunkSize (total (FreeList result))).
Proof.
  revert ipa result. induction fuel as [|fuel IH]; intros ipa result Hfuel Hipa Hres Hbel Hsz; [lia|].
  pose proof (total_nonneg n (FreeList result) (proj1 Hres)) as Hpos.
  cbn [GetIpChunk_loop]. destruct (Z.ltb_spec (total (FreeList result)) chunkSize) as [Hlt|Hge].
  2:{ split; simpl; [done|]. split_and!; auto using below_disjoint. lia. }
  destruct (FreeList ipa) as [|r rest] eqn:Efl.
  { assert (ipa = New) as -> by (destruct ipa; simpl in *; by subst).
    destruct (AddRanges_ok n (FreeList result) New) as [_ Hm]; [apply wfl_nil|apply Hres|].
    split; simpl; [apply AddRanges_disjoint; auto with go; intros x Hx; by apply members_nil in Hx|].
    split; [lia|]. intros x. rewrite Hm, !members_nil. tauto. }
  pose proof Hipa as (Hr&Hrest&Hbelow)%sfl_cons. pose proof Hr as (Hs&He&Hle).
  rewrite int64_id by (unfold MaxInt64 in *; lia). fold (lo r) (hi r).
  replace (1 + (hi r - lo r)) with (rsize r) by (unfold rsize; lia).
  destruct (Z.leb_spec (rsize r) (chunkSize - total (FreeList result))) as [Hfit|Hbig].
  - assert (ipa = mkAlloc (r :: rest)) as -> by (destruct ipa; simpl in *; by subst).
    rewrite (RemoveRange_head n) by done. cbn [fst].
    destruct (AddRange_above n result r rest) as (Hsfl'&Hm'&Ht'); [done..|].
    assert (0 < rsize r) by (unfold rsize; lia).
    rewrite !int64_id by (rewrite ?int64_id; unfold MaxInt64 in *; lia). rewrite <- Ht'.
    eapply chunk_post_proper; [|replace (total (FreeList result) + total (r :: rest)) with
      (total (FreeList (AddRange result (Start r) (End_ r))) + total rest) by (rewrite Ht'; simpl; lia);
      apply (IH (mkAlloc rest)); simpl in *; auto; try lia].
    + intros x. simpl. rewrite Hm', members_cons. tauto.
    + intros a u Ha Hu. apply (hi_members n _ _ (proj1 Hsfl')), Hm' in Ha as [(b&Hb&?)|?].
      * assert (hi b < lo u) by (apply Hbel; set_solver). lia.
      * specialize (Hbelow u Hu). lia.
  - set (needed := chunkSize - total (FreeList result)) in *.
    rewrite (chunk_cut n) by (done || lia).
    destruct (chunk_last_round n ipa result r rest needed (total (FreeList result) + total (r :: rest)))
      as [Ht Hpost]; [by rewrite Efl|done|done|by rewrite Efl|lia|].
    rewrite !int64_id by (rewrite ?int64_id; unfold MaxInt64 in *; lia). rewrite <- Ht.
    destruct fuel as [|fuel]; [simpl in Hfuel; lia|]. cbn [GetIpChunk_loop].
    rewrite (proj2 (Z.ltb_ge _ _)) by lia. rewrite Efl in Hpost.
    by replace (total (FreeList result) + needed) with chunkSize in Hpost by lia.
Qed.

(** ** Intersect *)

(** The loop has collected the common addresses [P] up to those the unvisited
    parts [A] and [B] still share. *)
Definition meet_inv (n : nat) (P : Z → Prop) (A B : list IpRange) (result : IpAlloc) : Prop :=
  sfl n (FreeList result) ∧
  disjoint (members (FreeList result)) (λ x, members A x ∧ members B x) ∧
  ∀ x, P x ↔ members (FreeList result) x ∨ (members A x ∧ members B x).

Lemma meet_inv_sym n P A B result : meet_inv n P A B result → meet_inv n P B A result.
Proof. intros (H1&H2&H3). split_and!; [done| |]; intros x; specialize (H2 x); specialize (H3 x); tauto. Qed.

(** Adding a piece of the common part and dropping a range that is used up. *)
Lemma meet_inv_add n P A B A' B' result s e :
  meet_inv n P A B result → ok n s → ok n e →
  (∀ x, members A x ∧ members B x ↔ val s <= x <= val e ∨ (members A' x ∧ members B' x)) →
  (∀ x, val s <= x <= val e → ¬ (members A' x ∧ members B' x)) →
  meet_inv n P A' B' (AddRange result s e).
Proof.
  intros (H1&H2&H3) Hs He Hsplit Hdis.
  destruct (AddRange_ok n result s e) as [_ Hm]; [auto with go..|]. split_and!.
  - apply AddRange_disjoint; auto. intros x Hx Hin. apply (H2 x Hin), Hsplit. by left.
  - intros x [Hx|Hx]%Hm HAB; [|by apply (Hdis x)]. apply (H2 x Hx), Hsplit. by right.
  - intros x. rewrite H3, Hm, Hsplit. tauto.
Qed.

Lemma sfl_rest_above n a A x : sfl n (a :: A) → members A x → hi a < x.
Proof. intros (_&_&Hb)%sfl_cons (u&Hu&?). specialize (Hb u Hu). lia. Qed.

Lemma intersectLeft_ok n P a A b B result i j :
  sfl n (a :: A) → sfl n (b :: B) → lo a <= lo b → meet_inv n P (a :: A) (b :: B) result →
  ∃ di dj, let '(result', i', j') := intersectLeft result a b i j in
    i' = (i + di)%nat ∧ j' = (j + dj)%nat ∧ (0 < di + dj)%nat ∧ (di <= 1)%nat ∧ (dj <= 1)%nat ∧
    meet_inv n P (drop di (a :: A)) (drop dj (b :: B)) result'.
Proof.
  intros Ha Hb Hlo Hinv. pose proof Ha as ((Ha1&Ha2&Ha3)&_&_)%sfl_cons.
  pose proof Hb as ((Hb1&Hb2&Hb3)&_&_)%sfl_cons.
  assert (∀ x, members A x → hi a < x) as HA by (intros x; by apply sfl_rest_above with n).
  assert (∀ x, members B x → hi b < x) as HB by (intros x; by apply sfl_rest_above with n).
  unfold intersectLeft. rewrite (Compare_lt n), (Compare_val n (End_ a)) by done.
  fold (hi a) (hi b) (lo b). destruct (Z.ltb_spec (hi a) (lo b)).
  { exists 1%nat, 0%nat. rewrite Nat.add_0_r. split_and!; [done|done|lia|lia|lia|].
    simpl. rewrite drop_0. destruct Hinv as (H1&H2&H3). split_and!; [done| |];
      intros x; specialize (H2 x); specialize (H3 x); specialize (HB x); cbv beta in H2;
      rewrite !members_cons in *; destruct (decide (lo a <= x <= hi a)); try tauto.
    rewrite H3. assert (¬ (lo b <= x <= hi b) ∧ ¬ members B x) by (split; [lia|intros ?%HB; lia]). tauto. }
  assert (∀ x, (members A x → hi a < x) ∧ (members B x → hi b < x)) as HAB by auto.
  destruct (Z.compare_spec (hi a) (hi b));
    [exists 1%nat, 1%nat|exists 1%nat, 0%nat|exists 0%nat, 1%nat];
    rewrite ?Nat.add_0_r; (split_and!; [done|done|lia|lia|lia|]); simpl; rewrite !drop_0;
    (eapply meet_inv_add; eauto; fold (hi a) (hi b) (lo b); intros x;
      destruct (HAB x); rewrite ?members_cons; intuition lia).
Qed.

Lemma sfl_drop n k fl : sfl n fl → sfl n (drop k fl).
Proof. intros H. rewrite <- (take_drop k fl), sfl_app in H. tauto. Qed.

Lemma Intersect_loop_ok n P fuel fa fb result i j :
  sfl n fa → sfl n fb → (length fa - i + (length fb - j) <= fuel)%nat →
  meet_inv n P (drop i fa) (drop j fb) result →
  sfl n (FreeList (Intersect_loop fuel fa fb result i j)) ∧
  ∀ x, P x ↔ members (FreeList (Intersect_loop fuel fa fb result i j)) x.
Proof.
  intros Hfa Hfb. revert result i j. induction fuel as [|fuel IH]; intros result i j Hfuel Hinv; simpl.
  { destruct Hinv as (H1&_&H3). split; [done|]. intros x.
    rewrite H3, (drop_ge fa) by lia. rewrite members_nil. tauto. }
  destruct (Nat.ltb_spec i (length fa)) as [Hi|Hi]; simpl.
  2:{ destruct Hinv as (H1&_&H3). split; [done|]. intros x. rewrite H3, (drop_ge fa), members_nil by lia. tauto. }
  destruct (Nat.ltb_spec j (length fb)) as [Hj|Hj]; simpl.
  2:{ destruct Hinv as (H1&_&H3). split; [done|]. intros x. rewrite H3, (drop_ge fb), members_nil by lia. tauto. }
  destruct (lookup_lt_is_Some_2 _ _ Hi) as [a Ha]. destruct (lookup_lt_is_Some_2 _ _ Hj) as [b Hb].
  rewrite (list_lookup_total_correct _ _ _ Ha), (list_lookup_total_correct _ _ _ Hb).
  assert (range_ok n a) as (Ha1&_&_) by (by eapply Forall_lookup_1; [apply Hfa|]).
  assert (range_ok n b) as (Hb1&_&_) by (by eapply Forall_lookup_1; [apply Hfb|]).
  rewrite (drop_S _ _ _ Ha), (drop_S _ _ _ Hb) in Hinv.
  pose proof (sfl_drop n i fa Hfa) as Hda. pose proof (sfl_drop n j fb Hfb) as Hdb.
  rewrite (drop_S _ _ _ Ha) in Hda. rewrite (drop_S _ _ _ Hb) in Hdb.
  rewrite (Compare_lt n) by done. destruct (Z.ltb_spec (val (Start a)) (val (Start b))).
  - destruct (intersectLeft_ok n P a (drop (S i) fa) b (drop (S j) fb) result i j) as (di&dj&Hok); auto.
    { unfold lo. lia. }
    destruct (intersectLeft result a b i j) as [[res' i'] j']. destruct Hok as (->&->&?&?&?&Hinv').
    apply IH; [lia|]. rewrite <- (drop_S _ _ _ Ha), <- (drop_S _ _ _ Hb), !drop_drop in Hinv'. done.
  - destruct (intersectLeft_ok n P b (drop (S j) fb) a (drop (S i) fa) result j i) as (dj&di&Hok);
      auto using meet_inv_sym.
    destruct (intersectLeft result b a j i) as [[res' j'] i']. destruct Hok as (->&->&?&?&?&Hinv').
    apply IH; [lia|]. rewrite <- (drop_S _ _ _ Ha), <- (drop_S _ _ _ Hb), !drop_drop in Hinv'.
    by apply meet_inv_sym.
Qed.

Lemma Intersect_ok n ipa other :
  sfl n (FreeList ipa) → sfl n (FreeList other) →
  sfl n (FreeList (Intersect ipa other)) ∧
  ∀ x, members (FreeList ipa) x ∧ members (FreeList other) x ↔ members (FreeList (Intersect ipa other)) x.
Proof.
  intros Ha Hb. apply Intersect_loop_ok; [done|done|lia|]. rewrite !drop_0.
  split_and!; [apply sfl_nil| |]; intros x; simpl; rewrite ?members_nil; tauto.
Qed.

(** ** Adding an address that is already free *)

(** The neighbour that fixRange starts from is the entry before the insertion
    point; when that one does not touch the new item, the item's own successors
    are not looked at. *)
Lemma AddIp_again n pre a r post :
  sfl n (pre ++ a :: r :: post) → hi a + 1 < lo r →
  FreeList (AddIp (mkAlloc (pre ++ a :: r :: post)) (Start r)) =
  pre ++ a :: mkRange (Start r) (Start r) :: r :: post.
Proof.
  intros Hs Hgap. set (fl := pre ++ a :: r :: post) in *.
  pose proof Hs as (_&(Ha&(Hr&_&_)%sfl_cons&_)%sfl_cons&Hpre)%sfl_app.
  pose proof Hr as (Hr1&_&_). pose proof Ha as (_&Ha2&Ha3).
  unfold AddIp. rewrite AddRange_shape by (rewrite (Compare_gt n) by done; lia). simpl FreeList.
  destruct (insert_point_spec n fl (Start r)) as (Hle&Hbef&Haft); [auto with go|done|].
  fold (lo r) in Hbef, Haft.
  assert (insert_point fl (Start r) = S (length pre)) as ->.
  { assert (fl !! length pre = Some a) as H1 by (by apply list_lookup_middle).
    assert (fl !! S (length pre) = Some r) as H2.
    { unfold fl. rewrite lookup_app_r by lia. by replace (S (length pre) - length pre)%nat with 1%nat by lia. }
    destruct (lt_eq_lt_dec (insert_point fl (Start r)) (S (length pre))) as [[?|?]|?]; [|done|].
    - assert (lo r <= lo a); [|lia]. apply Haft. apply list_elem_of_lookup.
      exists (length pre - insert_point fl (Start r))%nat. rewrite lookup_drop, <- H1. f_equal. lia.
    - assert (lo r < lo r); [|lia]. apply Hbef. rewrite elem_of_take. by exists (S (length pre)). }
  unfold fl. rewrite (take_app_length pre).
  replace ((pre ++ a :: r :: post) !!! length pre) with a
    by (symmetry; by apply list_lookup_total_correct, list_lookup_middle).
  replace (S (length pre)) with (length pre + 1)%nat by lia. rewrite drop_app_add. simpl.
  rewrite (isAdjOrGreater_val n) by done. fold (hi a) (lo r).
  by rewrite (proj2 (Z.leb_gt _ _)) by lia.
Qed.
