(* ===== verification/GoNet.v ===== *)
(** * The part of Go's package net that the program uses

    Masks, address forms and networks over the byte lists of [GoBytes].  The
    definitions follow the standard library; the lemmas read masking as
    arithmetic on the numbers of the addresses. *)
From S2P Require Import Prelude GoBytes.

Open Scope Z_scope.

Definition IPv4len : nat := 4.
Definition IPv6len : nat := 16.

Definition v4InV6Prefix : list Z := [0; 0; 0; 0; 0; 0; 0; 0; 0; 0; 255; 255].

(** IP.To4: [None] is nil. *)
Definition To4 (ip : IP) : option IP :=
  if (length ip =? IPv4len)%nat then Some ip
  else if (length ip =? IPv6len)%nat && bool_decide (take 12 ip = v4InV6Prefix) then Some (drop 12 ip)
  else None.

(** IP.To16. *)
Definition To16 (ip : IP) : option IP :=
  if (length ip =? IPv4len)%nat then Some (v4InV6Prefix ++ ip)
  else if (length ip =? IPv6len)%nat then Some ip
  else None.

Record IPNet := mkNet { net_IP : IP; net_Mask : list Z }.

#[export] Instance IPNet_eq_dec : EqDecision IPNet.
Proof. solve_decision. Defined.

(** IP.Mask; the empty list is nil. *)
Definition Mask (ip mask : list Z) : IP :=
  let mask :=
    if (length mask =? IPv6len)%nat && (length ip =? IPv4len)%nat
       && forallb (Z.eqb 255) (take 12 mask) then drop 12 mask else mask in
  let ip :=
    if (length mask =? IPv4len)%nat && (length ip =? IPv6len)%nat
       && bool_decide (take 12 ip = v4InV6Prefix) then drop 12 ip else ip in
  if (length ip =? length mask)%nat then zip_with Z.land ip mask else [].

(** The bytes of CIDRMask: [n] bytes of which the first [ones] bits are set. *)
Fixpoint cidr_bytes (n ones : nat) : list Z :=
  match n with
  | O => []
  | S n =>
      if (8 <=? ones)%nat then 255 :: cidr_bytes n (ones - 8)
      else Z.lxor 255 (Z.shiftr 255 (Z.of_nat ones)) :: cidr_bytes n 0
  end.

(** CIDRMask; the empty list is nil. *)
Definition CIDRMask (ones bits : nat) : list Z :=
  if negb ((bits =? 8 * IPv4len)%nat || (bits =? 8 * IPv6len)%nat) then []
  else if (bits <? ones)%nat then []
  else cidr_bytes (bits / 8) ones.

(** networkNumberAndMask; [None] is the pair of nils. *)
Definition networkNumberAndMask (n : IPNet) : option (IP * list Z) :=
  let ip := default (net_IP n) (To4 (net_IP n)) in
  if negb ((length ip =? IPv4len)%nat || (length ip =? IPv6len)%nat) then None
  else if (length (net_Mask n) =? IPv4len)%nat then
    if (length ip =? IPv4len)%nat then Some (ip, net_Mask n) else None
  else if (length (net_Mask n) =? IPv6len)%nat then
    if (length ip =? IPv4len)%nat then Some (ip, drop 12 (net_Mask n)) else Some (ip, net_Mask n)
  else None.

(** IPNet.Contains; against a nil network only the empty address has the
    right length. *)
Definition Contains (n : IPNet) (ip : IP) : bool :=
  let ip := default ip (To4 ip) in
  match networkNumberAndMask n with
  | None => (length ip =? 0)%nat
  | Some (nn, m) =>
      (length ip =? length nn)%nat && bool_decide (zip_with Z.land nn m = zip_with Z.land ip m)
  end.

(** ** Masks as arithmetic *)

Lemma cidr_bytes_length n k : length (cidr_bytes n k) = n.
Proof. revert k. induction n as [|n IH]; intros k; cbn [cidr_bytes length]; [done|]. by destruct (8 <=? k)%nat; cbn [length]; rewrite IH. Qed.

Lemma CIDRMask_cidr n k :
  n = IPv4len ∨ n = IPv6len → (k <= 8 * n)%nat → CIDRMask k (8 * n) = cidr_bytes n k.
Proof.
  intros Hn Hk. unfold CIDRMask.
  rewrite (proj2 (Nat.ltb_ge _ _)) by done.
  destruct Hn as [->| ->]; done.
Qed.

Lemma Mask_same n ip m : ok n ip → length m = n → Mask ip m = zip_with Z.land ip m.
Proof.
  intros [Hi _] Hm. unfold Mask. rewrite Hi, Hm.
  assert ((n =? IPv6len)%nat && (n =? IPv4len)%nat = false) as H1.
  { destruct (Nat.eqb_spec n IPv6len) as [->|]; done. }
  rewrite H1. cbn [andb]. rewrite Hm.
  rewrite (andb_comm (n =? IPv4len)%nat), H1. cbn [andb]. by rewrite Hi, Nat.eqb_refl.
Qed.

(** One masked byte, checked on all 8 * 256 cases. *)
Lemma byte_masks b k :
  byte_ok b → (k < 8)%nat →
  let m := Z.lxor 255 (Z.shiftr 255 (Z.of_nat k)) in
  Z.land b m = b - b mod 2 ^ (8 - Z.of_nat k) ∧
  Z.lor b (Z.lxor m 255) = b - b mod 2 ^ (8 - Z.of_nat k) + 2 ^ (8 - Z.of_nat k) - 1.
Proof.
  intros Hb Hk m.
  assert (forallb (fun k => forallb (fun b =>
    let m := Z.lxor 255 (Z.shiftr 255 k) in
    (Z.land b m =? b - b mod 2 ^ (8 - k)) &&
    (Z.lor b (Z.lxor m 255) =? b - b mod 2 ^ (8 - k) + 2 ^ (8 - k) - 1))
    (seqZ 0 256)) (seqZ 0 8) = true) as Hall by (vm_compute; reflexivity).
  rewrite forallb_forall in Hall. specialize (Hall (Z.of_nat k)).
  rewrite <- list_elem_of_In, elem_of_seqZ, forallb_forall in Hall.
  specialize (Hall ltac:(lia) b). rewrite <- list_elem_of_In, elem_of_seqZ in Hall.
  unfold byte_ok in Hb. specialize (Hall ltac:(lia)). cbv zeta in Hall. fold m in Hall. lia.
Qed.

Lemma byte_full b : byte_ok b → Z.land b 255 = b ∧ Z.lor b (Z.lxor 255 255) = b.
Proof.
  intros Hb. change (Z.lxor 255 255) with 0. rewrite Z.lor_0_r.
  change 255 with (Z.ones 8). rewrite Z.land_ones by lia. split; [|done]. apply Z.mod_small. apply Hb.
Qed.

(** The host part of a prefix of length [k] in [n] bytes. *)
Definition host (n k : nat) : Z := 2 ^ (8 * Z.of_nat n - Z.of_nat k).

Lemma host_pos n k : (k <= 8 * n)%nat → 0 < host n k.
Proof. intros. apply Z.pow_pos_nonneg; lia. Qed.

Lemma pow256 n : 256 ^ Z.of_nat n = 2 ^ (8 * Z.of_nat n).
Proof. change 256 with (2 ^ 8). rewrite <- Z.pow_mul_r by lia. done. Qed.

Lemma host_S_full n k b v :
  (8 <= k <= 8 * S n)%nat →
  host (S n) k = host n (k - 8) ∧ (b * 256 ^ Z.of_nat n + v) mod host n (k - 8) = v mod host n (k - 8).
Proof.
  intros Hk. split; [unfold host; f_equal; lia|].
  pose proof (host_pos n (k - 8) ltac:(lia)).
  rewrite pow256. unfold host in *.
  replace (8 * Z.of_nat n) with ((8 * Z.of_nat n - Z.of_nat (k - 8)) + Z.of_nat (k - 8)) at 1 by lia.
  rewrite Z.pow_add_r by lia.
  rewrite (Z.mul_comm (2 ^ _) (2 ^ Z.of_nat (k - 8))), Z.mul_assoc, Z.add_comm, Z.mod_add by lia. done.
Qed.

Lemma host_S_part n k b v :
  (k < 8)%nat → 0 <= v < 256 ^ Z.of_nat n →
  host (S n) k = 2 ^ (8 - Z.of_nat k) * 256 ^ Z.of_nat n ∧
  (b * 256 ^ Z.of_nat n + v) mod host (S n) k = (b mod 2 ^ (8 - Z.of_nat k)) * 256 ^ Z.of_nat n + v.
Proof.
  intros Hk Hv. assert (host (S n) k = 2 ^ (8 - Z.of_nat k) * 256 ^ Z.of_nat n) as E.
  { rewrite pow256. unfold host. rewrite <- Z.pow_add_r by lia. f_equal. lia. }
  split; [done|]. rewrite E. assert (0 < 2 ^ (8 - Z.of_nat k)) by (apply Z.pow_pos_nonneg; lia).
  set (q := 2 ^ (8 - Z.of_nat k)) in *. pose proof (Z.mod_pos_bound b q ltac:(lia)).
  pose proof (Z.div_mod b q ltac:(lia)). symmetry.
  apply (Z.mod_unique_pos _ _ (b / q)); nia.
Qed.

Lemma mask_val n k ip :
  ok n ip → (k <= 8 * n)%nat →
  ok n (zip_with Z.land ip (cidr_bytes n k)) ∧
  ok n (zip_with (λ b m, Z.lor b (Z.lxor m 255)) ip (cidr_bytes n k)) ∧
  val (zip_with Z.land ip (cidr_bytes n k)) = val ip - val ip mod host n k ∧
  val (zip_with (λ b m, Z.lor b (Z.lxor m 255)) ip (cidr_bytes n k)) =
    val ip - val ip mod host n k + host n k - 1.
Proof.
  revert n k. induction ip as [|b ip IH]; intros n k Hok Hk.
  { destruct Hok as [<- _]. simpl in *. assert (k = 0%nat) as -> by lia. by split_and!. }
  destruct n as [|n]; [by destruct Hok|]. apply ok_cons in Hok as [Hb Hok].
  pose proof (val_bound _ _ Hok) as Hv. destruct Hok as [Hlen Hf].
  cbn [cidr_bytes]. destruct (Nat.leb_spec 8 k).
  - destruct (IH n (k - 8)%nat) as (H1&H2&H3&H4); [by split|lia|].
    destruct (byte_full b Hb) as [E1 E2]. cbn [zip_with val]. rewrite E1.
    rewrite E2, !ok_cons. destruct (host_S_full n k b (val ip)) as [-> Hmod]; [lia|].
    rewrite Hlen, Hmod, H3, H4.
    rewrite !length_zip_with, cidr_bytes_length, Hlen, Nat.min_id.
    split_and!; auto; lia.
  - destruct (IH n 0%nat) as (H1&H2&H3&H4); [by split|lia|].
    destruct (byte_masks b k Hb ltac:(lia)) as [E1 E2].
    assert (host n 0 = 256 ^ Z.of_nat n) as E0 by (rewrite pow256; unfold host; f_equal; lia).
    rewrite E0, Z.mod_small in H3, H4 by done.
    cbn [zip_with val]. rewrite E1, E2, !ok_cons. destruct (host_S_part n k b (val ip)) as [Hh Hmod]; [lia|done|].
    rewrite Hlen, Hmod, H3, H4, Hh.
    rewrite !length_zip_with, cidr_bytes_length, Hlen, Nat.min_id.
    assert (0 < 2 ^ (8 - Z.of_nat k)) by (apply Z.pow_pos_nonneg; lia).
    assert (2 ^ (8 - Z.of_nat k) * 2 ^ Z.of_nat k = 256) as E256.
    { rewrite <- Z.pow_add_r by lia. replace (8 - Z.of_nat k + Z.of_nat k) with 8 by lia. done. }
    assert (0 < 2 ^ Z.of_nat k) by (apply Z.pow_pos_nonneg; lia).
    set (q := 2 ^ (8 - Z.of_nat k)) in *. pose proof (Z.mod_pos_bound b q ltac:(lia)).
    pose proof (Z.div_mod b q ltac:(lia)). unfold byte_ok in *.
    assert (b / q * q + q <= 256).
    { assert (b / q < 2 ^ Z.of_nat k) by (apply Z.div_lt_upper_bound; lia). nia. }
    assert (0 <= b / q * q) by (pose proof (Z.div_pos b q ltac:(lia) ltac:(lia)); nia).
    split_and!; auto; [lia..|ring|ring].
Qed.
