(* ===== verification/IpRange.v ===== *)
(** * pkg/ipam/iprange.go: ranges and CIDR blocks

    Range2Cidr covers a range with CIDR blocks, taking at every step the largest
    aligned block that starts where the last one ended and does not pass the end
    of the range.  AddSubnet and RemoveSubnet of ipalloc.go are here too, since
    they go through [subnetRange]. *)
From S2P Require Import Prelude GoBytes GoNet IpAlloc.

Open Scope Z_scope.

(** last: the last address of the block; [None] is the panic of an index past
    the end of a short mask. *)
Definition last (ip mask : list Z) : option IP :=
  if (length mask <? length ip)%nat then None
  else Some (zip_with (λ b m, Z.lor b (Z.lxor m 255)) ip mask).

(** next's loop, from the last byte down; [copy] says that the carry is gone. *)
Fixpoint next_loop (ip : IP) (n : nat) (copy : bool) (out : IP) : IP :=
  match n with
  | O => out
  | S n =>
      if copy then next_loop ip n copy (<[n := ip !!! n]> out)
      else if ip !!! n <? 255 then next_loop ip n true (<[n := ip !!! n + 1]> out)
      else next_loop ip n copy (<[n := 0]> out)
  end.

Definition next (ip : IP) : IP := next_loop ip (length ip) false (replicate (length ip) 0).

Definition subnetRange (subnet : IPNet) : option (IP * IP) :=
  let start := Mask (net_IP subnet) (net_Mask subnet) in
  match last start (net_Mask subnet) with
  | Some stop => Some (start, stop)
  | None => None
  end.

(** ipalloc.go: AddSubnet and RemoveSubnet. *)
Definition AddSubnet (ipa : IpAlloc) (subnet : IPNet) : option IpAlloc :=
  match subnetRange subnet with
  | Some (start, stop) => Some (AddRange ipa start stop)
  | None => None
  end.

Definition RemoveSubnet (ipa : IpAlloc) (subnet : IPNet) : option (IpAlloc * bool) :=
  match subnetRange subnet with
  | Some (start, stop) => Some (RemoveRange ipa start stop)
  | None => None
  end.

(** The inner loop: shorten the prefix while the block still starts at [start]
    and ends within the range. *)
Fixpoint prefix_loop (start stop : IP) (maxLen l : nat) : option nat :=
  match l with
  | O => Some O
  | S l' =>
      let m := CIDRMask l' maxLen in
      let firstAddr := Mask start m in
      match last start m with
      | None => None
      | Some lastAddr =>
          if negb (is_eq (Compare start firstAddr)) || is_gt (Compare lastAddr stop) then Some l
          else prefix_loop start stop maxLen l'
      end
  end.

(** One round of the outer loop on (start, blocks so far); the result of the
    loop is [None] when a call panics. *)
Definition Range2Cidr_body (stop : IP) (maxLen : nat) (endOfRange : list Z)
    (s : IP * list IPNet) : (IP * list IPNet) + option (list IPNet) :=
  let '(start, r) := s in
  if is_le (Compare start stop) then
    match prefix_loop start stop maxLen maxLen with
    | None => inr None
    | Some l =>
        let r := r ++ [mkNet start (CIDRMask l maxLen)] in
        match last start (CIDRMask l maxLen) with
        | None => inr None
        | Some lastAddr =>
            if is_eq (Compare lastAddr endOfRange) then inr (Some r)
            else inl (next lastAddr, r)
        end
    end
  else inr (Some r).

(** Every round moves [start] up, so the number of addresses of the width,
    2^(8 * len), bounds the rounds; the fuel is binary. *)
Definition Range2Cidr (start stop : IP) : option (list IPNet) :=
  let maxLen := (8 * length start)%nat in
  let endOfRange := replicate (length start) 255 in
  match while (Pos.pow 2 (Pos.of_succ_nat maxLen))
              (Range2Cidr_body stop maxLen endOfRange) (start, []) with
  | Some r => r
  | None => None
  end.

(** A /24 without its first and last address. *)
Example Range2Cidr_example :
  option_map (map (λ c, (net_IP c, net_Mask c))) (Range2Cidr [10; 0; 0; 1] [10; 0; 0; 6]) =
  Some [([10; 0; 0; 1], [255; 255; 255; 255]); ([10; 0; 0; 2], [255; 255; 255; 254]);
        ([10; 0; 0; 4], [255; 255; 255; 254]); ([10; 0; 0; 6], [255; 255; 255; 255])].
Proof. vm_compute. reflexivity. Qed.
