(* ===== verification/IpRangeFacts.v ===== *)
(** * Correctness of the CIDR decomposition (pkg/ipam/iprange.go)

    [tiles] says what a cover by CIDR blocks is: aligned blocks that follow one
    another without gap or overlap, each the largest possible.  Range2Cidr
    produces one, and it always finishes. *)
From S2P Require Import Prelude GoBytes GoNet IpAlloc IpAllocFacts IpRange.

Open Scope Z_scope.

(** ** next *)

Lemma snoc_of_length (z l : list Z) b :
  length z = length (l ++ [b]) → ∃ z' c, z = z' ++ [c] ∧ length z' = length l.
Proof.
  intros Hz. destruct z as [|c z' _] using rev_ind.
  - rewrite length_app in Hz. simpl in Hz. lia.
  - exists z', c. rewrite !length_app in Hz. simpl in Hz. split; [done|lia].
Qed.

Lemma next_loop_copy l z x y :
  length z = length l → next_loop (l ++ x) (length l) true (z ++ y) = l ++ y.
Proof.
  revert z x y. induction l as [|b l IH] using rev_ind; intros z x y Hz; [by destruct z|].
  destruct (snoc_of_length _ _ _ Hz) as (z'&c&->&Hz').
  rewrite length_app, Nat.add_1_r. cbn [next_loop]. rewrite lookup_total_snoc, <- Hz', insert_snoc.
  rewrite <- !app_assoc, Hz'. simpl. by rewrite IH.
Qed.

Lemma next_loop_spec l z x y :
  Forall byte_ok l → length z = length l →
  ∃ r, next_loop (l ++ x) (length l) false (z ++ y) = r ++ y ∧ ok (length l) r ∧
    (val l + 1 < 256 ^ Z.of_nat (length l) → val r = val l + 1).
Proof.
  revert z x y. induction l as [|b l IH] using rev_ind; intros z x y Hl Hz.
  { exists []. destruct z; [|done]. split_and!; [done|done|simpl; lia]. }
  apply Forall_app in Hl as [Hl Hb]. rewrite Forall_singleton in Hb. unfold byte_ok in Hb.
  destruct (snoc_of_length _ _ _ Hz) as (z'&c&->&Hz').
  rewrite length_app, Nat.add_1_r. cbn [next_loop].
  rewrite lookup_total_snoc, <- Hz', !insert_snoc, Hz', val_snoc, <- !app_assoc.
  destruct (Z.ltb_spec b 255).
  - rewrite next_loop_copy by done. exists (l ++ [b + 1]). rewrite <- app_assoc, val_snoc.
    split_and!; [done| |lia]. split; [rewrite length_app; simpl; lia|].
    apply Forall_app; split; [done|]. apply Forall_singleton. unfold byte_ok. lia.
  - destruct (IH z' ([b] ++ x) (0 :: y) Hl Hz') as (r&->&[Hr1 Hr2]&Hv).
    exists (r ++ [0]). rewrite <- app_assoc, val_snoc, pow256_S. split_and!; [done| |].
    + split; [rewrite length_app; simpl; lia|]. apply Forall_app; split; [done|].
      apply Forall_singleton. unfold byte_ok. lia.
    + intros. rewrite Hv; lia.
Qed.

Lemma next_val n ip :
  ok n ip → ok n (next ip) ∧ (val ip + 1 < 256 ^ Z.of_nat n → val (next ip) = val ip + 1).
Proof.
  intros [<- Hf]. destruct (next_loop_spec ip (replicate (length ip) 0) [] [] Hf) as (r&E&Hr&Hv).
  { by rewrite length_replicate. }
  rewrite !app_nil_r in E. unfold next. by rewrite E.
Qed.

(** ** Blocks *)

Section Cidr.
Context (n : nat) (Hn : n = IPv4len ∨ n = IPv6len).

(** The block of prefix length [l] at [ip]: its mask, alignment and last address. *)
Lemma block_val ip l :
  ok n ip → (l <= 8 * n)%nat →
  ok n (Mask ip (CIDRMask l (8 * n))) ∧
  val (Mask ip (CIDRMask l (8 * n))) = val ip - val ip mod host n l ∧
  ∃ la, last ip (CIDRMask l (8 * n)) = Some la ∧ ok n la ∧
        val la = val ip - val ip mod host n l + host n l - 1.
Proof using Hn.
  intros Hip Hl. rewrite CIDRMask_cidr by done.
  rewrite (Mask_same n) by (done || apply cidr_bytes_length).
  destruct (mask_val n l ip Hip Hl) as (H1&H2&H3&H4). split_and!; [done|done|].
  unfold last. rewrite cidr_bytes_length. destruct Hip as [-> _].
  rewrite Nat.ltb_irrefl. eauto.
Qed.

(** A block that fits: it starts at [start] and stays within [stop]. *)
Definition fits (start stop : Z) (l : nat) : Prop :=
  start mod host n l = 0 ∧ start + host n l - 1 <= stop.

Lemma prefix_loop_spec start stop l :
  ok n start → ok n stop → (l <= 8 * n)%nat → fits (val start) (val stop) l →
  ∃ k, prefix_loop start stop (8 * n) l = Some k ∧ (k <= l)%nat ∧
    fits (val start) (val stop) k ∧ (k = 0%nat ∨ ¬ fits (val start) (val stop) (k - 1)).
Proof using Hn.
  intros Hs He. induction l as [|l IH]; intros Hl Hfit; cbn [prefix_loop].
  { exists 0%nat. split_and!; auto. }
  destruct (block_val start l Hs ltac:(lia)) as (Hf1&Hf2&la&->&Hla&Hlv).
  rewrite (Compare_eq n), (Compare_gt n) by done. rewrite Hf2, Hlv.
  pose proof (Z.mod_pos_bound (val start) (host n l) (host_pos n l ltac:(lia))).
  destruct (Z.eqb_spec (val start) (val start - val start mod host n l)) as [E|E]; cbn [negb orb].
  - destruct (Z.ltb_spec (val stop) (val start - val start mod host n l + host n l - 1)).
    + exists (S l). split_and!; auto. right. rewrite Nat.sub_succ, Nat.sub_0_r. unfold fits. lia.
    + destruct IH as (k&->&?&?&?); [lia|unfold fits; lia|]. exists k. split_and!; auto.
  - exists (S l). split_and!; auto. right. rewrite Nat.sub_succ, Nat.sub_0_r. unfold fits. lia.
Qed.

(** [tiles_to b a nets c]: the blocks cover [a, c) in order, without gap or
    overlap; each is aligned, stays below [b], and could not be larger. *)
Fixpoint tiles_to (b a : Z) (nets : list IPNet) (c : Z) : Prop :=
  match nets with
  | [] => a = c
  | x :: nets =>
      ok n (net_IP x) ∧ val (net_IP x) = a ∧
      ∃ l, (l <= 8 * n)%nat ∧ net_Mask x = CIDRMask l (8 * n) ∧
        fits a b l ∧ (l = 0%nat ∨ ¬ fits a b (l - 1)) ∧
        tiles_to b (a + host n l) nets c
  end.

Lemma tiles_to_snoc b a nets start l :
  tiles_to b a nets (val start) → ok n start → (l <= 8 * n)%nat →
  fits (val start) b l → (l = 0%nat ∨ ¬ fits (val start) b (l - 1)) →
  tiles_to b a (nets ++ [mkNet start (CIDRMask l (8 * n))]) (val start + host n l).
Proof using Type.
  intros Ht Hs Hl Hf Hmax. revert a Ht. induction nets as [|x nets IH]; intros a Ht.
  - cbn [app tiles_to] in *. subst a. split_and!; [done|done|]. exists l. split_and!; auto.
  - cbn [app tiles_to] in *. destruct Ht as (?&?&k&?&?&?&?&Ht). split_and!; [done|done|].
    exists k. split_and!; auto.
Qed.

(** One round of Range2Cidr: it ends with the cover of the whole range or
    moves on to the address after the block it added. *)
Lemma Range2Cidr_body_spec s0 stop start r :
  ok n stop → ok n start → tiles_to (val stop) s0 r (val start) → val start <= val stop + 1 →
  match Range2Cidr_body stop (8 * n) (replicate n 255) (start, r) with
  | inl (start', r') =>
      ok n start' ∧ tiles_to (val stop) s0 r' (val start') ∧ val start' <= val stop + 1 ∧
      val start < val start'
  | inr res => ∃ nets, res = Some nets ∧ tiles_to (val stop) s0 nets (val stop + 1)
  end.
Proof using Hn.
  intros He Hs Ht Hle. unfold Range2Cidr_body. rewrite (Compare_le n) by done.
  destruct (Z.leb_spec (val start) (val stop)) as [Hin|Hout].
  2:{ exists r. split; [done|]. by replace (val stop + 1) with (val start) by lia. }
  assert (host n (8 * n) = 1) as Hone by (unfold host; rewrite Nat2Z.inj_mul, Z.sub_diag; done).
  destruct (prefix_loop_spec start stop (8 * n)) as (l&->&Hl&Hfit&Hmax); auto.
  { unfold fits. rewrite Hone, Z.mod_1_r. lia. }
  destruct (block_val start l Hs Hl) as (_&_&la&->&Hla&Hlv).
  pose proof Hfit as [Hal Hfin]. rewrite Hal in Hlv. pose proof (host_pos n l Hl).
  assert (ok n (replicate n 255)) as Hff.
  { split; [by rewrite length_replicate|]. apply Forall_replicate. unfold byte_ok. lia. }
  assert (val (replicate n 255) = 256 ^ Z.of_nat n - 1) as Hffv.
  { clear. induction n as [|k IH]; [done|]. cbn [replicate val]. rewrite IH, length_replicate, pow256_S. lia. }
  rewrite (Compare_eq n) by done. rewrite Hffv.
  pose proof (tiles_to_snoc _ _ _ _ _ Ht Hs Hl Hfit Hmax) as Ht'.
  pose proof (val_bound _ _ Hla). pose proof (val_bound _ _ He).
  destruct (Z.eqb_spec (val la) (256 ^ Z.of_nat n - 1)).
  - eexists. split; [done|]. by replace (val stop + 1) with (val start + host n l) by lia.
  - destruct (next_val n la Hla) as [Hnok Hnv]. rewrite Hnv by lia.
    replace (val la + 1) with (val start + host n l) by lia. split_and!; auto; lia.
Qed.

Lemma Range2Cidr_ok start stop :
  ok n start → ok n stop → val start <= val stop + 1 →
  ∃ nets, Range2Cidr start stop = Some nets ∧ tiles_to (val stop) (val start) nets (val stop + 1).
Proof using Hn.
  intros Hs He Hle. unfold Range2Cidr. pose proof Hs as [-> _].
  edestruct (while_total (Range2Cidr_body stop (8 * n) (replicate n 255))
    (λ s, ok n s.1 ∧ tiles_to (val stop) (val start) s.2 (val s.1) ∧ val s.1 <= val stop + 1)
    (λ res, ∃ nets, res = Some nets ∧ tiles_to (val stop) (val start) nets (val stop + 1))
    (λ s, 256 ^ Z.of_nat n - val s.1))
    as (res&->&nets&->&Ht); [| | |by eauto].
  - intros [s r] (H1&H2&H3). pose proof (Range2Cidr_body_spec (val start) stop s r He H1 H2 H3) as H.
    destruct (Range2Cidr_body _ _ _ _) as [[s' r']|res]; [|done].
    destruct H as (H1'&?&?&?). pose proof (val_bound _ _ H1'). simpl in *. split_and!; auto; lia.
  - simpl. split_and!; auto.
  - simpl fst. pose proof (val_bound _ _ Hs).
    rewrite Pos2Z.inj_pow, Zpos_P_of_succ_nat, Z.pow_succ_r, pow256 in * by lia.
    replace (Z.of_nat (8 * n)) with (8 * Z.of_nat n) by lia. lia.
Qed.

(** Membership in a block and in the cover. *)
Definition in_net (c : IPNet) (x : Z) : Prop :=
  ∃ la, last (net_IP c) (net_Mask c) = Some la ∧
        val (Mask (net_IP c) (net_Mask c)) <= x <= val la.

Lemma tiles_members b a nets c x :
  tiles_to b a nets c → (∃ d, d ∈ nets ∧ in_net d x) ↔ a <= x < c.
Proof using Hn.
  revert a. induction nets as [|d nets IH]; intros a; cbn [tiles_to].
  { intros ->. split; [intros (d&Hd&_); by apply elem_of_nil in Hd|lia]. }
  intros (Hok&Hv&l&Hl&Hm&[Hal Hfit]&_&Ht). pose proof (host_pos n l Hl).
  assert (a + host n l <= c) as Hlec.
  { clear -Ht Hn. revert Ht. generalize (a + host n l). induction nets as [|e nets IH]; intros z; cbn [tiles_to]; [lia|].
    intros (_&_&k&Hk&_&_&_&Ht). pose proof (host_pos n k Hk). specialize (IH _ Ht). lia. }
  destruct (block_val (net_IP d) l Hok Hl) as (_&Hfirst&la&Hla&_&Hlv).
  rewrite Hv, Hal in Hfirst, Hlv.
  assert (in_net d x ↔ a <= x < a + host n l) as Hd.
  { unfold in_net. rewrite Hm, Hla, Hfirst. split; [intros (?&[= <-]&?); lia|intros; eexists; split; [done|lia]]. }
  setoid_rewrite elem_of_cons. specialize (IH _ Ht).
  split; [intros (e&[->|He]&Hx); [apply Hd in Hx; lia|]|].
  - assert (a + host n l <= x < c) by (apply IH; eauto). lia.
  - intros Hx. destruct (Z.lt_ge_cases x (a + host n l)); [exists d; rewrite Hd; split; [by left|lia]|].
    destruct (proj2 IH) as (e&?&?); [lia|]. exists e. auto.
Qed.
End Cidr.
