(* ===== verification/IpCache.v ===== *)
(** * pkg/ipam/ipcache.go: two-generation pools

    For each address family the cache keeps two pools: the one addresses are
    taken from and the one freed addresses go to; when the first runs empty
    the second takes its place, so that a freed address rests before it is used
    again.  The slices always hold two pools ([NewIpCache] makes them so and
    [AllocateIp] keeps the length), so their accesses by index are in range. *)
From S2P Require Import Prelude GoBytes GoNet IpAlloc.

Open Scope Z_scope.

Record IpCache := mkCache { cacheIpsV4 : list IpAlloc; cacheIpsV6 : list IpAlloc }.

#[export] Instance IpAlloc_inhabited : Inhabited IpAlloc := populate New.

Definition NewIpCache : IpCache := mkCache [New; New] [New; New].

(** The common body of the two branches of AllocateIp on one family's slice. *)
Definition allocate (lists : list IpAlloc) : list IpAlloc * option IP :=
  if Empty (lists !!! 0%nat) && Empty (lists !!! 1%nat) then (lists, None)
  else
    let lists := if Empty (lists !!! 0%nat) then drop 1 lists ++ [New] else lists in
    let '(ipa, res) := GetIp (lists !!! 0%nat) in
    (<[0%nat := ipa]> lists, res).

(** [None] is the error "No IP addresses are available". *)
Definition AllocateIp (c : IpCache) (ipv4 : bool) : IpCache * option IP :=
  if ipv4 then
    let '(l, res) := allocate (cacheIpsV4 c) in (mkCache l (cacheIpsV6 c), res)
  else
    let '(l, res) := allocate (cacheIpsV6 c) in (mkCache (cacheIpsV4 c) l, res).

Definition add_last (lists : list IpAlloc) (ip : IP) : list IpAlloc :=
  let k := (length lists - 1)%nat in <[k := AddIp (lists !!! k) ip]> lists.

Definition DeallocateIp (c : IpCache) (ip : IP) : IpCache :=
  match To4 ip with
  | Some _ => mkCache (add_last (cacheIpsV4 c) ip) (cacheIpsV6 c)
  | None =>
      match To16 ip with
      | Some _ => mkCache (cacheIpsV4 c) (add_last (cacheIpsV6 c) ip)
      | None => c
      end
  end.

Definition add_first (lists : list IpAlloc) (r : IpRange) : list IpAlloc :=
  <[0%nat := AddRange (lists !!! 0%nat) (Start r) (End_ r)]> lists.

(** One round of LoadRanges; a range of neither family is dropped. *)
Definition LoadRange (c : IpCache) (r : IpRange) : IpCache :=
  match To4 (Start r), To4 (End_ r) with
  | Some _, Some _ => mkCache (add_first (cacheIpsV4 c) r) (cacheIpsV6 c)
  | _, _ =>
      match To16 (Start r), To16 (End_ r) with
      | Some _, Some _ => mkCache (cacheIpsV4 c) (add_first (cacheIpsV6 c) r)
      | _, _ => c
      end
  end.

Definition LoadRanges (c : IpCache) (ipranges : list IpRange) : IpCache :=
  fold_left LoadRange ipranges c.

(** Remove the address from the first pool that has it. *)
Fixpoint remove_first (lists : list IpAlloc) (ip : IP) : list IpAlloc * bool :=
  match lists with
  | [] => ([], false)
  | ipa :: lists =>
      let '(ipa, found) := IpAlloc.RemoveIp ipa ip in
      if found then (ipa :: lists, true)
      else let '(lists, found) := remove_first lists ip in (ipa :: lists, found)
  end.

Definition RemoveIp (c : IpCache) (ip : IP) : IpCache * bool :=
  match To4 ip with
  | Some _ =>
      let '(l, found) := remove_first (cacheIpsV4 c) ip in (mkCache l (cacheIpsV6 c), found)
  | None =>
      match To16 ip with
      | Some _ =>
          let '(l, found) := remove_first (cacheIpsV6 c) ip in (mkCache (cacheIpsV4 c) l, found)
      | None => (c, false)
      end
  end.

Definition CombineV4 (c : IpCache) : list IpRange :=
  FreeList (fold_left AddAll (cacheIpsV4 c) New).

Definition CombineV6 (c : IpCache) : list IpRange :=
  FreeList (fold_left AddAll (cacheIpsV6 c) New).

Definition HasIp (list : IpAlloc) (ip : IP) : bool :=
  let fl := FreeList list in
  if (length fl =? 0)%nat then false
  else
    let i := Search (length fl) (fun i =>
      is_ge (Compare (Start (fl !!! i)) ip) || is_eq (Compare (End_ (fl !!! i)) ip)) in
    if (i <? length fl)%nat &&
       (is_eq (Compare (Start (fl !!! i)) ip) || is_eq (Compare (End_ (fl !!! i)) ip)) then true
    else existsb (fun r => is_le (Compare (Start r) ip) && is_ge (Compare (End_ r) ip)) fl.
