(* ===== verification/IpCacheFacts.v ===== *)
(** * Correctness of the two-generation pools (pkg/ipam/ipcache.go)

    [AddressPool] states what an allocator promises its clients; the theorems
    about sequences of allocations are proved against that interface, and
    [IpCache] is shown to be an instance of it. *)
From S2P Require Import Prelude GoBytes GoNet IpAlloc IpAllocFacts IpCache.

Open Scope Z_scope.

(** ** The interface *)

Definition is_v4 (ip : IP) : bool := match To4 ip with Some _ => true | None => false end.

Class AddressPool (S : Type) (alloc : S → bool → S * option IP) (dealloc : S → IP → S) := {
  pool_inv : S → Prop;
  pool_free : S → IP → Prop;
  pool_valid : IP → Prop;
  pool_free_valid : ∀ s ip, pool_inv s → pool_free s ip → pool_valid ip;
  alloc_some : ∀ s s' b ip, pool_inv s → alloc s b = (s', Some ip) →
    pool_inv s' ∧ is_v4 ip = b ∧ pool_free s ip ∧ ∀ x, pool_free s' x ↔ pool_free s x ∧ x ≠ ip;
  alloc_none : ∀ s s' b, pool_inv s → alloc s b = (s', None) →
    pool_inv s' ∧ (∀ x, pool_free s' x ↔ pool_free s x) ∧ ∀ x, is_v4 x = b → ¬ pool_free s x;
  dealloc_free : ∀ s ip, pool_inv s → pool_valid ip → ¬ pool_free s ip →
    pool_inv (dealloc s ip) ∧ ∀ x, pool_free (dealloc s ip) x ↔ pool_free s x ∨ x = ip;
}.

(** ** Clients: sequences of allocations and releases *)

Inductive pool_op := OpAlloc (v4 : bool) | OpDealloc (ip : IP).

Section Client.
Context {S : Type} (alloc : S → bool → S * option IP) (dealloc : S → IP → S).

(** A client that keeps the addresses it holds and gives back only those. *)
Definition client_step (st : S * list IP) (op : pool_op) : S * list IP :=
  let '(s, out) := st in
  match op with
  | OpAlloc b =>
      match alloc s b with
      | (s', Some ip) => (s', ip :: out)
      | (s', None) => (s', out)
      end
  | OpDealloc ip =>
      if decide (ip ∈ out) then (dealloc s ip, filter (.≠ ip) out) else (s, out)
  end.

Definition client_run (st : S * list IP) (ops : list pool_op) : S * list IP :=
  fold_left client_step ops st.

Context `{!AddressPool S alloc dealloc}.

(** The free addresses and the held ones split [P] between them. *)
Definition client_inv (P : IP → Prop) (st : S * list IP) : Prop :=
  pool_inv st.1 ∧ NoDup st.2 ∧ (∀ ip, ip ∈ st.2 → pool_valid ip ∧ ¬ pool_free st.1 ip) ∧
  ∀ ip, P ip ↔ pool_free st.1 ip ∨ ip ∈ st.2.

Lemma client_step_inv P st op : client_inv P st → client_inv P (client_step st op).
Proof using Type.
  destruct st as [s out]. intros (Hi&Hnd&Hout&HP); simpl in *. destruct op as [b|ip]; simpl.
  - destruct (alloc s b) as [s' [ip|]] eqn:E.
    + destruct (alloc_some s s' b ip Hi E) as (Hi'&_&Hf&Hf').
      assert (ip ∉ out) as Hni by (intros Hin; by apply Hout in Hin as [_ ?]).
      split_and!; simpl; [done|by constructor| |].
      * intros x [->|Hx]%elem_of_cons; [split; [by apply (pool_free_valid s)|rewrite Hf'; tauto]|].
        rewrite Hf'. destruct (Hout x Hx). tauto.
      * intros x. rewrite HP, Hf', elem_of_cons. destruct (decide (x = ip)) as [->|]; tauto.
    + destruct (alloc_none s s' b Hi E) as (Hi'&Hf'&_).
      split_and!; simpl; [done..| |]; intros x; [intros Hx; rewrite Hf'; auto|rewrite HP, Hf'; done].
  - destruct (decide (ip ∈ out)) as [Hin|]; [|by split_and!].
    destruct (Hout ip Hin) as [Hv Hnf]. destruct (dealloc_free s ip Hi Hv Hnf) as [Hi' Hf'].
    split_and!; simpl; [done|by apply NoDup_filter| |].
    + intros x [Hne Hx]%list_elem_of_filter. destruct (Hout x Hx). rewrite Hf'. tauto.
    + intros x. rewrite HP, Hf', list_elem_of_filter. destruct (decide (x = ip)) as [->|]; tauto.
Qed.

Lemma client_run_inv P ops st : client_inv P st → client_inv P (client_run st ops).
Proof using Type.
  revert st. induction ops as [|op ops IH]; intros st Hst; [done|].
  apply IH. by apply client_step_inv.
Qed.
End Client.

(** ** IpCache as an address pool *)

Section Cache.
Context (n4 n6 : nat).

Definition family_inv (n : nat) (v4 : bool) (lists : list IpAlloc) : Prop :=
  ∃ a b, lists = [a; b] ∧ sfl n (FreeList a) ∧ sfl n (FreeList b) ∧
    disjoint (members (FreeList a)) (members (FreeList b)) ∧
    ∀ ip, ok n ip → members (FreeList a) (val ip) ∨ members (FreeList b) (val ip) → is_v4 ip = v4.

Definition family_free (lists : list IpAlloc) (x : Z) : Prop :=
  ∃ a, a ∈ lists ∧ members (FreeList a) x.

Definition cache_inv (c : IpCache) : Prop :=
  family_inv n4 true (cacheIpsV4 c) ∧ family_inv n6 false (cacheIpsV6 c).

Definition cache_valid (ip : IP) : Prop := if is_v4 ip then ok n4 ip else ok n6 ip.

Definition cache_free (c : IpCache) (ip : IP) : Prop :=
  cache_valid ip ∧
  family_free (if is_v4 ip then cacheIpsV4 c else cacheIpsV6 c) (val ip).

Lemma family_free_pair a b x :
  family_free [a; b] x ↔ members (FreeList a) x ∨ members (FreeList b) x.
Proof using Type.
  unfold family_free. setoid_rewrite elem_of_cons. setoid_rewrite elem_of_cons.
  setoid_rewrite elem_of_nil. naive_solver.
Qed.

Lemma Empty_members n ipa :
  sfl n (FreeList ipa) → Empty ipa = true → ∀ x, ¬ members (FreeList ipa) x.
Proof using Type. unfold Empty. destruct (FreeList ipa); [|done]. intros _ _ x. rewrite members_nil. tauto. Qed.

Lemma Empty_false n ipa :
  sfl n (FreeList ipa) → Empty ipa = false → ∃ ipa' ip, GetIp ipa = (ipa', Some ip).
Proof using Type.
  unfold Empty, GetIp. destruct (FreeList ipa) as [|r l]; [done|].
  destruct (is_eq _); eauto.
Qed.

(** Taking an address from the first pool of a pair. *)
Lemma allocate_from n v4 a b ipa ip :
  family_inv n v4 [a; b] → GetIp a = (ipa, Some ip) →
  family_inv n v4 [ipa; b] ∧ ok n ip ∧ is_v4 ip = v4 ∧ members (FreeList a) (val ip) ∧
  ∀ x, family_free [ipa; b] x ↔ family_free [a; b] x ∧ x ≠ val ip.
Proof using Type.
  intros (?&?&[= <- <-]&Ha&Hb&Hdis&Hv4) E. pose proof (GetIp_ok n a Ha) as H. rewrite E in H.
  destruct H as (Hip&Hmem&_&Hs'&Hm'). split_and!; auto.
  - exists ipa, b. split_and!; auto.
    + intros x [Hx _]%Hm'. by apply Hdis.
    + intros ip' Hok. rewrite Hm'. intros [[? _]|?]; auto.
  - intros x. rewrite !family_free_pair, Hm'. split; [|tauto].
    intros [?|Hx]; [tauto|]. split; [tauto|]. intros ->. by apply (Hdis (val ip)).
Qed.

Lemma allocate_ok n v4 lists :
  family_inv n v4 lists →
  match allocate lists with
  | (l, Some ip) =>
      family_inv n v4 l ∧ ok n ip ∧ is_v4 ip = v4 ∧ family_free lists (val ip) ∧
      ∀ x, family_free l x ↔ family_free lists x ∧ x ≠ val ip
  | (l, None) => l = lists ∧ ∀ x, ¬ family_free lists x
  end.
Proof using Type.
  intros Hinv. pose proof Hinv as (a&b&->&Ha&Hb&Hdis&Hv4). unfold allocate. simpl.
  destruct (Empty a) eqn:Ea; simpl.
  - pose proof (Empty_members n a Ha Ea) as Hea. destruct (Empty b) eqn:Eb.
    { split; [done|]. intros x. rewrite family_free_pair. pose proof (Empty_members n b Hb Eb x).
      specialize (Hea x). tauto. }
    destruct (Empty_false n b Hb Eb) as (ipa&ip&E). rewrite E. simpl.
    assert (family_inv n v4 [b; New]) as Hinv'.
    { exists b, New. split_and!; auto with go.
      - intros x _. simpl. rewrite members_nil. tauto.
      - intros ip' Hok. rewrite members_nil. intros [?|[]]; auto. }
    destruct (allocate_from n v4 b New ipa ip Hinv' E) as (?&?&?&?&Hf). split_and!; auto.
    + apply family_free_pair. by right.
    + intros x. rewrite Hf, !family_free_pair, members_nil. specialize (Hea x). tauto.
  - destruct (Empty_false n a Ha Ea) as (ipa&ip&E). rewrite E. simpl.
    destruct (allocate_from n v4 a b ipa ip Hinv E) as (?&?&?&?&?). split_and!; auto.
    apply family_free_pair. by left.
Qed.

Lemma add_last_ok n v4 lists ip :
  family_inv n v4 lists → ok n ip → is_v4 ip = v4 → ¬ family_free lists (val ip) →
  family_inv n v4 (add_last lists ip) ∧
  ∀ x, family_free (add_last lists ip) x ↔ family_free lists x ∨ x = val ip.
Proof using Type.
  intros (a&b&->&Ha&Hb&Hdis&Hv4) Hip Hv Hnf. rewrite family_free_pair in Hnf.
  unfold add_last, AddIp. simpl.
  destruct (AddRange_ok n b ip ip) as [_ Hm]; [auto with go..|].
  assert (∀ x, val ip <= x <= val ip ↔ x = val ip) as Heq by lia. setoid_rewrite Heq in Hm.
  assert (sfl n (FreeList (AddRange b ip ip))) as Hs.
  { apply AddRange_disjoint; auto. intros x Hx Hin. assert (x = val ip) as -> by lia. tauto. }
  split.
  - exists a, (AddRange b ip ip). split_and!; auto.
    + intros x Hx [Hb'| ->]%Hm; [by apply (Hdis x)|tauto].
    + intros ip' Hok [?|[?|E]%Hm]; [auto..|]. by rewrite (val_inj n ip' ip Hok Hip E).
  - intros x. rewrite !family_free_pair, Hm. tauto.
Qed.

Lemma cache_alloc_some c c' b ip :
  cache_inv c → AllocateIp c b = (c', Some ip) →
  cache_inv c' ∧ is_v4 ip = b ∧ cache_free c ip ∧ ∀ x, cache_free c' x ↔ cache_free c x ∧ x ≠ ip.
Proof using Type.
  intros [H4 H6] E. unfold AllocateIp in E.
  destruct b; [pose proof (allocate_ok n4 true _ H4) as H|pose proof (allocate_ok n6 false _ H6) as H];
    destruct (allocate _) as [l [ip'|]]; simplify_eq; destruct H as (Hl&Hok&Hv&Hf&Hf').
  all: split; [split; done|]; split; [done|]; unfold cache_free, cache_valid; rewrite ?Hv.
  all: split; [done|]; intros x; simpl; destruct (is_v4 x) eqn:Ex; rewrite ?Hf'.
  all: split; [intros H; destruct_and!; split_and!; try done; intros ->; congruence|].
  all: intros [[Hx1 Hx2] Hne]; split_and!; try done.
  all: intros E'; apply Hne; eapply val_inj; eauto.
Qed.

Lemma cache_alloc_none c c' b :
  cache_inv c → AllocateIp c b = (c', None) →
  cache_inv c' ∧ (∀ x, cache_free c' x ↔ cache_free c x) ∧ ∀ x, is_v4 x = b → ¬ cache_free c x.
Proof using Type.
  intros [H4 H6] E. unfold AllocateIp in E.
  destruct b; [pose proof (allocate_ok n4 true _ H4) as H|pose proof (allocate_ok n6 false _ H6) as H];
    destruct (allocate _) as [l [ip'|]]; simplify_eq; destruct H as (->&Hf).
  all: destruct c; simpl in *; split_and!; [done|done|].
  all: unfold cache_free; intros x ->; simpl; intros [_ Hx]; by apply (Hf (val x)).
Qed.

Context (Hn6 : n6 = IPv6len).

Lemma cache_dealloc c ip :
  cache_inv c → cache_valid ip → ¬ cache_free c ip →
  cache_inv (DeallocateIp c ip) ∧ ∀ x, cache_free (DeallocateIp c ip) x ↔ cache_free c x ∨ x = ip.
Proof using Hn6.
  intros [H4 H6] Hv Hnf. unfold cache_free, cache_valid, DeallocateIp in *.
  destruct (To4 ip) eqn:E4; unfold is_v4 in Hv, Hnf; rewrite E4 in Hv, Hnf.
  - destruct (add_last_ok n4 true (cacheIpsV4 c) ip H4 Hv) as [Hi Hf]; [by unfold is_v4; rewrite E4|tauto|].
    split; [by split|]. intros x. simpl. fold (is_v4 ip) in *. destruct (is_v4 x) eqn:Ex; rewrite ?Hf.
    + split; [intros [? [?|?]]; [tauto|right; eapply val_inj; eauto]|].
      intros [?| ->]; tauto.
    + split; [tauto|]. intros [?| ->]; [done|]. unfold is_v4 in Ex. by rewrite E4 in Ex.
  - assert (To16 ip = Some ip) as ->.
    { unfold To16. destruct Hv as [-> _]. subst n6. done. }
    destruct (add_last_ok n6 false (cacheIpsV6 c) ip H6 Hv) as [Hi Hf]; [by unfold is_v4; rewrite E4|tauto|].
    split; [by split|]. intros x. simpl. destruct (is_v4 x) eqn:Ex; rewrite ?Hf.
    + split; [tauto|]. intros [?| ->]; [done|]. unfold is_v4 in Ex. by rewrite E4 in Ex.
    + split; [intros [? [?|?]]; [tauto|right; eapply val_inj; eauto]|].
      intros [?| ->]; tauto.
Qed.
End Cache.

(** An IpCache whose v4 pools hold [n4]-byte addresses is an address pool. *)
#[export] Instance IpCache_pool (n4 : nat) : AddressPool IpCache AllocateIp DeallocateIp := {|
  pool_inv := cache_inv n4 IPv6len;
  pool_free := cache_free n4 IPv6len;
  pool_valid := cache_valid n4 IPv6len;
  pool_free_valid s ip _ H := proj1 H;
  alloc_some := cache_alloc_some n4 IPv6len;
  alloc_none := cache_alloc_none n4 IPv6len;
  dealloc_free := cache_dealloc n4 IPv6len eq_refl;
|}.

(** ** Which addresses are v4 *)

Lemma is_v4_4 ip : ok IPv4len ip → is_v4 ip = true.
Proof. intros [H _]. unfold is_v4, To4. by rewrite H. Qed.

(** In 16-byte form the v4 addresses are ::ffff:0:0/96. *)
Lemma is_v4_16 ip : ok IPv6len ip → is_v4 ip = (val ip / 2 ^ 32 =? 65535).
Proof.
  intros [Hl Hf]. unfold is_v4, To4. rewrite Hl. simpl.
  assert (ok 12 (take 12 ip)) as Ht by (split; [rewrite length_take, Hl; done|by apply Forall_take]).
  assert (ok 4 (drop 12 ip)) as Hd by (split; [rewrite length_drop, Hl; done|by apply Forall_drop]).
  assert (val ip / 2 ^ 32 = val (take 12 ip)) as ->.
  { rewrite <- (take_drop 12 ip) at 1. rewrite val_app. destruct Hd as [Hdl Hdf]. rewrite Hdl.
    pose proof (val_bound 4 (drop 12 ip) (conj Hdl Hdf)).
    change (256 ^ Z.of_nat 4) with (2 ^ 32) in *. rewrite Z.div_add_l, Z.div_small by lia. lia. }
  assert (ok 12 v4InV6Prefix) as Hp by decide_now.
  case_bool_decide as E; [by rewrite E|]. symmetry. apply Z.eqb_neq. intros Hv. apply E.
  by apply (val_inj 12).
Qed.

Lemma is_v4_between n s e ip :
  n = IPv4len ∨ n = IPv6len → ok n s → ok n e → ok n ip → is_v4 s = true → is_v4 e = true →
  val s <= val ip <= val e → is_v4 ip = true.
Proof.
  intros [->| ->] Hs He Hip Hvs Hve Hb; [by apply is_v4_4|].
  rewrite is_v4_16 in * by done. pose proof (Z.div_le_mono (val s) (val ip) (2 ^ 32)).
  pose proof (Z.div_le_mono (val ip) (val e) (2 ^ 32)). lia.
Qed.

(** ** LoadRanges *)

Section Load.
Context (n4 : nat).

(** A range of the pod network: of one family, in that family's width. *)
Definition load_ok (r : IpRange) : Prop :=
  is_v4 (Start r) = is_v4 (End_ r) ∧
  if is_v4 (Start r) then range_ok n4 r
  else range_ok IPv6len r ∧ ∀ ip, ok IPv6len ip → lo r <= val ip <= hi r → is_v4 ip = false.

(** The address lies in the range, in the family of the range. *)
Definition in_range (r : IpRange) (ip : IP) : Prop :=
  cache_valid n4 IPv6len ip ∧ is_v4 ip = is_v4 (Start r) ∧ lo r <= val ip <= hi r.

Lemma add_first_ok n v4 lists r :
  family_inv n v4 lists → range_ok n r →
  (∀ x, lo r <= x <= hi r → ¬ family_free lists x) →
  (∀ ip, ok n ip → lo r <= val ip <= hi r → is_v4 ip = v4) →
  family_inv n v4 (add_first lists r) ∧
  ∀ x, family_free (add_first lists r) x ↔ family_free lists x ∨ lo r <= x <= hi r.
Proof using Type.
  intros (a&b&->&Ha&Hb&Hdis&Hv) (Hs&He&Hle) Hnf Hcl. unfold add_first. simpl.
  setoid_rewrite family_free_pair in Hnf.
  destruct (AddRange_ok n a (Start r) (End_ r)) as [_ Hm]; [auto with go..|].
  assert (sfl n (FreeList (AddRange a (Start r) (End_ r)))) as Hsf.
  { apply AddRange_disjoint; auto. intros x Hx Hin. apply (Hnf x Hx). by left. }
  fold (lo r) (hi r) in Hm. split.
  - eexists _, b. split_and!; auto.
    + intros x [Hx|Hx]%Hm Hxb; [by apply (Hdis x)|]. apply (Hnf x Hx). by right.
    + intros ip Hok [[?|?]%Hm|?]; auto.
  - intros x. rewrite !family_free_pair, Hm. tauto.
Qed.

Lemma NewIpCache_inv : cache_inv n4 IPv6len NewIpCache.
Proof using Type.
  split; exists New, New; split_and!; auto with go; try (intros x; simpl; rewrite members_nil; tauto);
    intros ip _; simpl; rewrite members_nil; tauto.
Qed.

Lemma NewIpCache_free ip : ¬ cache_free n4 IPv6len NewIpCache ip.
Proof using Type.
  intros [_ Hf]. simpl in Hf. destruct (is_v4 ip); apply family_free_pair in Hf; simpl in Hf;
    rewrite members_nil in Hf; tauto.
Qed.

Context (Hn4 : n4 = IPv4len ∨ n4 = IPv6len).

Lemma LoadRange_ok c r :
  cache_inv n4 IPv6len c → load_ok r →
  (∀ ip, in_range r ip → ¬ cache_free n4 IPv6len c ip) →
  cache_inv n4 IPv6len (LoadRange c r) ∧
  ∀ ip, cache_free n4 IPv6len (LoadRange c r) ip ↔ cache_free n4 IPv6len c ip ∨ in_range r ip.
Proof using Hn4.
  intros [H4 H6] [Hsame Hr] Hdis. unfold LoadRange.
  assert (∀ ip x, To4 ip = Some x → is_v4 ip = true) as Hyes by (intros ip x E; unfold is_v4; by rewrite E).
  assert (∀ ip, To4 ip = None → is_v4 ip = false) as Hno by (intros ip E; unfold is_v4; by rewrite E).
  destruct (To4 (Start r)) eqn:E1, (To4 (End_ r)) eqn:E2;
    rewrite ?(Hyes _ _ E1), ?(Hno _ E1), ?(Hyes _ _ E2), ?(Hno _ E2) in *; try done.
  - pose proof Hr as (Hs&He&_).
    destruct (add_first_ok n4 true (cacheIpsV4 c) r H4 Hr) as [Hi Hf].
    + intros x Hx Hin. assert (ok n4 (to_bytes n4 x)) as Hok by apply to_bytes_ok.
      pose proof (val_bound _ _ Hs). pose proof (val_bound _ _ He). unfold lo, hi in Hx.
      assert (val (to_bytes n4 x) = x) as Hval by (apply val_to_bytes; lia).
      assert (is_v4 (to_bytes n4 x) = true) as Hv.
      { apply (is_v4_between n4 (Start r) (End_ r)); eauto. lia. }
      apply (Hdis (to_bytes n4 x)); unfold in_range, cache_free, cache_valid; rewrite Hv, Hval, ?(Hyes _ _ E1); auto.
    + intros ip Hok Hb. apply (is_v4_between n4 (Start r) (End_ r)); eauto.
    + split; [by split|]. intros ip. unfold cache_free, in_range, cache_valid. simpl. rewrite (Hyes _ _ E1).
      destruct (is_v4 ip) eqn:Ev; rewrite ?Hf; naive_solver.
  - destruct Hr as [Hr Hcl]. pose proof Hr as ([Hls Hs]&[Hle He]&_).
    assert (To16 (Start r) = Some (Start r)) as -> by (unfold To16; by rewrite Hls).
    assert (To16 (End_ r) = Some (End_ r)) as -> by (unfold To16; by rewrite Hle).
    destruct (add_first_ok IPv6len false (cacheIpsV6 c) r H6 Hr) as [Hi Hf]; [|done|].
    + intros x Hx Hin. assert (ok IPv6len (to_bytes IPv6len x)) as Hok by apply to_bytes_ok.
      pose proof (val_bound _ _ (conj Hls Hs)). pose proof (val_bound _ _ (conj Hle He)).
      assert (val (to_bytes IPv6len x) = x) as Hval by (apply val_to_bytes; unfold lo, hi in Hx; lia).
      assert (is_v4 (to_bytes IPv6len x) = false) as Hv by (apply Hcl; [done|lia]).
      apply (Hdis (to_bytes IPv6len x)); unfold in_range, cache_free, cache_valid;
        rewrite Hv, Hval, ?(Hno _ E1); auto.
    + split; [by split|]. intros ip. unfold cache_free, in_range, cache_valid. simpl. rewrite (Hno _ E1).
      destruct (is_v4 ip) eqn:Ev; rewrite ?Hf; naive_solver.
Qed.

Lemma LoadRanges_ok rs c :
  cache_inv n4 IPv6len c → Forall load_ok rs →
  StronglySorted (λ r1 r2, ∀ ip, in_range r1 ip → ¬ in_range r2 ip) rs →
  (∀ r ip, r ∈ rs → in_range r ip → ¬ cache_free n4 IPv6len c ip) →
  cache_inv n4 IPv6len (LoadRanges c rs) ∧
  ∀ ip, cache_free n4 IPv6len (LoadRanges c rs) ip ↔
        cache_free n4 IPv6len c ip ∨ ∃ r, r ∈ rs ∧ in_range r ip.
Proof using Hn4.
  unfold LoadRanges. revert c. induction rs as [|r rs IH]; intros c Hc Hrs Hss Hdis; simpl.
  { split; [done|]. intros ip. split; [tauto|]. intros [?|(r&Hr&_)]; [done|]. by apply elem_of_nil in Hr. }
  apply Forall_cons in Hrs as [Hr Hrs]. rewrite StronglySorted_cons in Hss. destruct Hss as [Hr' Hss].
  rewrite Forall_forall in Hr'.
  destruct (LoadRange_ok c r Hc Hr) as [Hc' Hf]; [intros ip; apply Hdis; set_solver|].
  destruct (IH (LoadRange c r) Hc' Hrs Hss) as [Hc'' Hf'].
  { intros u ip Hu Hin [Hx|Hx]%Hf; [by apply (Hdis u ip); [set_solver|..]|].
    by apply (Hr' u Hu ip). }
  split; [done|]. intros ip. rewrite Hf', Hf. setoid_rewrite elem_of_cons. naive_solver.
Qed.
End Load.

(** ** RemoveIp, Combine and HasIp *)

Section Others.
Context (n4 : nat).

Lemma RemoveIp_one n ipa ip :
  sfl n (FreeList ipa) → ok n ip →
  let '(ipa', c) := IpAlloc.RemoveIp ipa ip in
  sfl n (FreeList ipa') ∧ (∀ x, members (FreeList ipa') x ↔ members (FreeList ipa) x ∧ x ≠ val ip) ∧
  (c = true ↔ members (FreeList ipa) (val ip)).
Proof using Type.
  intros Hs Hip. unfold IpAlloc.RemoveIp.
  pose proof (RemoveRange_ok n ip ip Hip Hip (Z.le_refl _) ipa Hs) as H.
  destruct (RemoveRange ipa ip ip) as [ipa' c]. destruct H as (H1&H2&H3). split_and!; [done| |].
  - intros x. rewrite H2. assert (val ip <= x <= val ip ↔ x = val ip) as -> by lia. done.
  - rewrite H3. split; [|intros; exists (val ip); split; [done|lia]].
    intros (x&Hx&?). by assert (x = val ip) as -> by lia.
Qed.

Lemma remove_first_ok n v4 lists ip :
  family_inv n v4 lists → ok n ip →
  let '(l, found) := remove_first lists ip in
  family_inv n v4 l ∧ (∀ x, family_free l x ↔ family_free lists x ∧ x ≠ val ip) ∧
  (found = true ↔ family_free lists (val ip)).
Proof using Type.
  intros (a&b&->&Ha&Hb&Hdis&Hv) Hip. cbn [remove_first].
  pose proof (RemoveIp_one n a ip Ha Hip) as H. destruct (IpAlloc.RemoveIp a ip) as [a' ca].
  destruct H as (Ha'&Hma&Hca). destruct ca.
  - split_and!.
    + exists a', b. split_and!; auto; [intros x [Hx _]%Hma; by apply Hdis|].
      intros ip' Hok. rewrite Hma. intros [[? _]|?]; auto.
    + intros x. rewrite !family_free_pair, Hma. split; [|tauto].
      intros [?|Hx]; [tauto|]. split; [tauto|]. intros ->. apply (Hdis (val ip)); tauto.
    + rewrite family_free_pair. tauto.
  - assert (¬ members (FreeList a) (val ip)) as Hna by (intros ?%Hca; done).
    pose proof (RemoveIp_one n b ip Hb Hip) as H. destruct (IpAlloc.RemoveIp b ip) as [b' cb].
    destruct H as (Hb'&Hmb&Hcb).
    assert (family_inv n v4 [a'; b'] ∧
      ∀ x, family_free [a'; b'] x ↔ family_free [a; b] x ∧ x ≠ val ip) as [Hi Hf].
    { split.
      - exists a', b'. split_and!; auto; [intros x [Hx _]%Hma [Hy _]%Hmb; by apply (Hdis x)|].
        intros ip' Hok. rewrite Hma, Hmb. intros [[? _]|[? _]]; auto.
      - intros x. rewrite !family_free_pair, Hma, Hmb. tauto. }
    destruct cb; split_and!; auto; rewrite family_free_pair, <- Hcb; intuition congruence.
Qed.

Lemma cache_RemoveIp c ip :
  cache_inv n4 IPv6len c → cache_valid n4 IPv6len ip →
  let '(c', found) := RemoveIp c ip in
  cache_inv n4 IPv6len c' ∧
  (∀ x, cache_free n4 IPv6len c' x ↔ cache_free n4 IPv6len c x ∧ x ≠ ip) ∧
  (found = true ↔ cache_free n4 IPv6len c ip).
Proof using Type.
  intros [H4 H6] Hv. unfold RemoveIp, cache_free. pose proof Hv as Hv'. unfold cache_valid in Hv.
  destruct (To4 ip) as [q|] eqn:E4.
  - assert (is_v4 ip = true) as Ei by (unfold is_v4; by rewrite E4). rewrite Ei in *.
    pose proof (remove_first_ok n4 true (cacheIpsV4 c) ip H4 Hv) as H.
    destruct (remove_first (cacheIpsV4 c) ip) as [l found]. destruct H as (Hi&Hf&Hfound).
    split_and!; [by split| |rewrite Hfound; tauto].
    intros x. simpl. unfold cache_valid. destruct (is_v4 x) eqn:Ex; rewrite ?Hf.
    + split; [intros (?&?&?); split_and!; auto; intros ->; done|].
      intros [[? ?] Hne]. split_and!; auto. intros E. apply Hne. by eapply val_inj.
    + split; [|tauto]. intros ?. split; [done|]. intros ->. congruence.
  - assert (is_v4 ip = false) as Ei by (unfold is_v4; by rewrite E4). rewrite Ei in *.
    assert (To16 ip = Some ip) as -> by (unfold To16; destruct Hv as [-> _]; done).
    pose proof (remove_first_ok IPv6len false (cacheIpsV6 c) ip H6 Hv) as H.
    destruct (remove_first (cacheIpsV6 c) ip) as [l found]. destruct H as (Hi&Hf&Hfound).
    split_and!; [by split| |rewrite Hfound; tauto].
    intros x. simpl. unfold cache_valid. destruct (is_v4 x) eqn:Ex; rewrite ?Hf.
    + split; [|tauto]. intros ?. split; [done|]. intros ->. congruence.
    + split; [intros (?&?&?); split_and!; auto; intros ->; done|].
      intros [[? ?] Hne]. split_and!; auto. intros E. apply Hne. by eapply val_inj.
Qed.

(** HasIp decides membership, whatever its binary search finds. *)
Lemma HasIp_ok n list ip :
  Forall (range_ok n) (FreeList list) → ok n ip →
  HasIp list ip = true ↔ members (FreeList list) (val ip).
Proof using Type.
  intros Hf Hip. unfold HasIp. set (fl := FreeList list) in *.
  assert (∀ r, r ∈ fl → range_ok n r) as Hr by (by rewrite <- Forall_forall).
  destruct (Nat.eqb_spec (length fl) 0) as [H0|_].
  { destruct fl; [|done]. rewrite members_nil. done. }
  set (i := Search _ _). destruct (_ && _) eqn:E.
  - split; [intros _|done]. apply andb_true_iff in E as [Hi E]. apply Nat.ltb_lt in Hi.
    destruct (lookup_lt_is_Some_2 _ _ Hi) as [r Hl]. rewrite (list_lookup_total_correct _ _ _ Hl) in E.
    apply list_elem_of_lookup_2 in Hl. exists r. split; [done|].
    destruct (Hr r Hl) as (?&?&?). rewrite !(Compare_eq n) in E by done. unfold lo, hi in *. lia.
  - rewrite existsb_exists. unfold members. setoid_rewrite <- list_elem_of_In.
    split; intros (r&Hin&E'); exists r; (split; [done|]); destruct (Hr r Hin) as (?&?&?);
      rewrite (Compare_le n), (Compare_ge n) in * by done; unfold lo, hi in *; lia.
Qed.

Lemma Combine_ok n lists :
  Forall (λ a, Forall (range_ok n) (FreeList a)) lists →
  wfl n (FreeList (fold_left AddAll lists New)) ∧
  ∀ x, members (FreeList (fold_left AddAll lists New)) x ↔ family_free lists x.
Proof using Type.
  intros Hl. assert (∀ ipa, wfl n (FreeList ipa) →
    wfl n (FreeList (fold_left AddAll lists ipa)) ∧
    ∀ x, members (FreeList (fold_left AddAll lists ipa)) x ↔
         members (FreeList ipa) x ∨ family_free lists x) as H.
  { induction Hl as [|a lists Ha Hl IH]; intros ipa Hipa; simpl.
    - split; [done|]. intros x. unfold family_free. setoid_rewrite elem_of_nil. naive_solver.
    - destruct (AddRanges_ok n (FreeList a) ipa Hipa Ha) as [Hw Hm].
      destruct (IH (AddAll ipa a) Hw) as [Hw' Hm']. split; [done|]. intros x. rewrite Hm'.
      unfold AddAll at 1. rewrite Hm. unfold family_free. setoid_rewrite elem_of_cons. naive_solver. }
  destruct (H New) as [Hw Hm]; [apply wfl_nil|]. split; [done|]. intros x. rewrite Hm.
  simpl. rewrite members_nil. tauto.
Qed.
End Others.
