(* ===== verification/IpamProps.v ===== *)
(** * Properties of the address management package (pkg/ipam)

    The statements a user of the package relies on, each with a concrete
    instance of its hypotheses. *)
From S2P Require Import Prelude GoBytes GoNet IpAlloc IpAllocFacts.
From S2P Require Import IpRange IpRangeFacts IpCache IpCacheFacts.

Open Scope Z_scope.

(** Concrete addresses of the witnesses: 10.0.0.[d] in 4 bytes. *)
Definition v4 (d : Z) : IP := [10; 0; 0; d].
Definition pool0 : IpAlloc :=
  mkAlloc [mkRange (v4 1) (v4 2); mkRange (v4 10) (v4 20)].

Lemma val_v4 d : val (v4 d) = 167772160 + d.
Proof. unfold v4. simpl. lia. Qed.

(** ** Pools *)

(** C30: AddRange adds exactly the addresses of the interval to the pool (nothing
    when the interval is empty) and keeps the ranges well-formed and in order of
    their start, for every pool in that state. *)
Theorem ipalloc_add_range (n : nat) (ipa : IpAlloc) (start stop : IP) :
  wfl n (FreeList ipa) → ok n start → ok n stop →
  wfl n (FreeList (AddRange ipa start stop)) ∧
  ∀ x, members (FreeList (AddRange ipa start stop)) x ↔
       members (FreeList ipa) x ∨ val start <= x <= val stop.
Proof. apply AddRange_ok. Qed.

Lemma ipalloc_add_range_witness :
  members (FreeList (AddRange pool0 (v4 3) (v4 9))) (val (v4 7)).
Proof.
  apply (ipalloc_add_range 4 pool0 (v4 3) (v4 9)); [decide_now..|].
  right. rewrite !val_v4. lia.
Defined.

(** Adding addresses the pool does not hold keeps its ranges disjoint, so no
    address is ever in the pool twice. *)
Theorem ipalloc_add_disjoint (n : nat) (ipa : IpAlloc) (start stop : IP) :
  sfl n (FreeList ipa) → ok n start → ok n stop →
  (∀ x, val start <= x <= val stop → ¬ members (FreeList ipa) x) →
  sfl n (FreeList (AddRange ipa start stop)).
Proof. apply AddRange_disjoint. Qed.

Lemma ipalloc_add_disjoint_witness : sfl 4 (FreeList (AddRange pool0 (v4 3) (v4 5))).
Proof.
  apply (ipalloc_add_disjoint 4 pool0 (v4 3) (v4 5)); [decide_now..|].
  intros x Hx (r&Hr&Hb). rewrite !val_v4 in Hx. unfold lo, hi in Hb.
  repeat (apply elem_of_cons in Hr as [->|Hr]; [simpl Start in Hb; simpl End_ in Hb; rewrite !val_v4 in Hb; lia|]).
  by apply elem_of_nil in Hr.
Defined.

(** RemoveRange takes exactly the interval out of a disjoint pool, leaves it
    disjoint, and reports a change exactly when an address was removed. *)
Theorem ipalloc_remove_range (n : nat) (ipa : IpAlloc) (start stop : IP) :
  sfl n (FreeList ipa) → ok n start → ok n stop → val start <= val stop →
  let '(ipa', changed) := RemoveRange ipa start stop in
  sfl n (FreeList ipa') ∧
  (∀ x, members (FreeList ipa') x ↔ members (FreeList ipa) x ∧ ¬ (val start <= x <= val stop)) ∧
  (changed = true ↔ ∃ x, members (FreeList ipa) x ∧ val start <= x <= val stop).
Proof. intros Hs H1 H2 H3. by apply RemoveRange_ok. Qed.

Lemma ipalloc_remove_range_witness :
  let '(ipa', changed) := RemoveRange pool0 (v4 12) (v4 14) in
  sfl 4 (FreeList ipa') ∧ changed = true.
Proof.
  pose proof (ipalloc_remove_range 4 pool0 (v4 12) (v4 14)) as H.
  destruct (RemoveRange pool0 (v4 12) (v4 14)) as [ipa' changed].
  destruct H as (H1&_&H3); [decide_now|decide_now|decide_now|rewrite !val_v4; lia|]. split; [exact H1|]. apply H3.
  exists (val (v4 13)). split; [decide_now|]. rewrite !val_v4. lia.
Defined.

(** GetIp hands out the lowest address of the pool and takes exactly that
    address out; it fails only on an empty pool, which it leaves alone. *)
Theorem ipalloc_get_ip (n : nat) (ipa : IpAlloc) :
  sfl n (FreeList ipa) →
  match GetIp ipa with
  | (ipa', None) => FreeList ipa = [] ∧ ipa' = ipa
  | (ipa', Some ip) =>
      ok n ip ∧ members (FreeList ipa) (val ip) ∧ (∀ x, members (FreeList ipa) x → val ip <= x) ∧
      sfl n (FreeList ipa') ∧ ∀ x, members (FreeList ipa') x ↔ members (FreeList ipa) x ∧ x ≠ val ip
  end.
Proof. apply GetIp_ok. Qed.

Lemma ipalloc_get_ip_witness :
  ∃ ipa', GetIp pool0 = (ipa', Some (v4 1)) ∧ sfl 4 (FreeList ipa').
Proof.
  pose proof (ipalloc_get_ip 4 pool0 ltac:(decide_now)) as H.
  eexists. split; [vm_compute; reflexivity|]. vm_compute GetIp in H. apply H.
Defined.

(** GetIpChunk either takes exactly [chunkSize] addresses out of the pool, as
    disjoint ranges that together with what remains are the old pool, or, when
    the pool has fewer addresses, fails and gives back a pool with the same
    addresses as before.  It always finishes within the rounds its model allows. *)
Theorem ipalloc_get_chunk (n : nat) (ipa : IpAlloc) (chunkSize : Z) :
  sfl n (FreeList ipa) → 0 <= chunkSize <= MaxInt64 →
  let '(ipa', res) := GetIpChunk ipa chunkSize in
  sfl n (FreeList ipa') ∧
  match res with
  | Some rs =>
      sfl n rs ∧ total rs = chunkSize ∧ disjoint (members rs) (members (FreeList ipa')) ∧
      ∀ x, members (FreeList ipa) x ↔ members rs x ∨ members (FreeList ipa') x
  | None =>
      total (FreeList ipa) < chunkSize ∧
      ∀ x, members (FreeList ipa) x ↔ members (FreeList ipa') x
  end.
Proof.
  intros Hs Hc.
  destruct (GetIpChunk_loop_ok n chunkSize (length (FreeList ipa) + 2) ipa New) as [H1 H2];
    [lia|done|apply sfl_nil|intros r u Hr; by apply elem_of_nil in Hr|simpl; lia|].
  unfold GetIpChunk. change (total (FreeList New)) with 0 in H1, H2.
  destruct (GetIpChunk_loop _ _ _ _ _) as [ipa' [rs|]]; simpl in *; (split; [done|]).
  - destruct H2 as (?&?&?&Hm). split_and!; auto. intros x. rewrite <- Hm, members_nil. tauto.
  - destruct H2 as (?&Hm). split; [done|]. intros x. rewrite <- Hm, members_nil. tauto.
Qed.

Lemma ipalloc_get_chunk_witness :
  (∃ ipa' rs, GetIpChunk pool0 5 = (ipa', Some rs) ∧ total rs = 5) ∧
  (∃ ipa', GetIpChunk pool0 14 = (ipa', None)).
Proof.
  split.
  - pose proof (ipalloc_get_chunk 4 pool0 5 ltac:(decide_now) ltac:(unfold MaxInt64; lia)) as H.
    do 2 eexists. split; [vm_compute; reflexivity|]. vm_compute GetIpChunk in H. apply H.
  - eexists. vm_compute. reflexivity.
Defined.

(** C39: GetSize is the number of distinct addresses in a disjoint pool, or
    MaxInt64 when there are at least that many. *)
Theorem ipalloc_get_size (n : nat) (ipa : IpAlloc) :
  sfl n (FreeList ipa) →
  NoDup (addresses (FreeList ipa)) ∧
  (∀ x, x ∈ addresses (FreeList ipa) ↔ members (FreeList ipa) x) ∧
  GetSize ipa = Z.min MaxInt64 (Z.of_nat (length (addresses (FreeList ipa)))).
Proof.
  intros Hs. split_and!; [by eapply addresses_NoDup|intros; apply elem_of_addresses|].
  rewrite GetSize_total, (total_addresses n) by apply Hs.
  destruct (Z.leb_spec MaxInt64 (Z.of_nat (length (addresses (FreeList ipa))))); [lia|].
  rewrite int64_id; unfold MaxInt64 in *; lia.
Qed.

Lemma ipalloc_get_size_witness : GetSize pool0 = 13 ∧ NoDup (addresses (FreeList pool0)).
Proof. split; [vm_compute; reflexivity|]. apply (ipalloc_get_size 4). decide_now. Defined.

(** Intersect of two disjoint pools holds exactly the addresses that are in
    both, and is a disjoint pool again. *)
Theorem ipalloc_intersect (n : nat) (ipa other : IpAlloc) :
  sfl n (FreeList ipa) → sfl n (FreeList other) →
  sfl n (FreeList (Intersect ipa other)) ∧
  ∀ x, members (FreeList (Intersect ipa other)) x ↔
       members (FreeList ipa) x ∧ members (FreeList other) x.
Proof.
  intros Ha Hb. destruct (Intersect_ok n ipa other Ha Hb) as [Hs Hm].
  split; [done|]. intros x. by rewrite Hm.
Qed.

Lemma ipalloc_intersect_witness :
  members (FreeList (Intersect pool0 (mkAlloc [mkRange (v4 2) (v4 12)]))) (val (v4 11)).
Proof. apply (ipalloc_intersect 4); decide_now. Defined.

(** Adding the first address of a range that is already in the pool (a
    double release), when the range before it does not touch it, leaves that
    address in the pool twice: fixRange merges only from the entry before the
    insertion point, so the pool is no longer disjoint. *)
Theorem ipalloc_readd_duplicates (n : nat) (pre post : list IpRange) (a r : IpRange) :
  sfl n (pre ++ a :: r :: post) → hi a + 1 < lo r →
  let ipa' := AddIp (mkAlloc (pre ++ a :: r :: post)) (Start r) in
  FreeList ipa' = pre ++ a :: mkRange (Start r) (Start r) :: r :: post ∧
  ¬ sfl n (FreeList ipa').
Proof.
  intros Hs Hgap ipa'. assert (FreeList ipa' = pre ++ a :: mkRange (Start r) (Start r) :: r :: post) as E
    by (by apply (AddIp_again n)).
  split; [done|]. rewrite E. intros (_&(_&(_&_&Hb)%sfl_cons&_)%sfl_cons&_)%sfl_app.
  specialize (Hb r ltac:(set_solver)). unfold lo, hi in Hb. simpl in Hb. lia.
Qed.

(** Four allocations from [pool0] after releasing 10.0.0.10 again. *)
Lemma ipalloc_readd_duplicates_witness :
  let p := AddIp pool0 (v4 10) in
  ¬ sfl 4 (FreeList p) ∧
  (let '(p, i1) := GetIp p in let '(p, i2) := GetIp p in
   let '(p, i3) := GetIp p in let '(p, i4) := GetIp p in
   [i1; i2; i3; i4] = [Some (v4 1); Some (v4 2); Some (v4 10); Some (v4 10)]).
Proof.
  split; [|vm_compute; reflexivity].
  apply (ipalloc_readd_duplicates 4 [] [] (mkRange (v4 1) (v4 2)) (mkRange (v4 10) (v4 20))); decide_now.
Defined.

(** ** CIDR blocks *)

(** C33: Range2Cidr finishes for every IPv4 or IPv6 range and covers it exactly:
    the blocks are aligned, follow one another from the start to the end of the
    range without gap or overlap, and each is the largest block that fits. *)
Theorem range2cidr_covers (n : nat) (start stop : IP) :
  n = IPv4len ∨ n = IPv6len → ok n start → ok n stop → val start <= val stop →
  ∃ nets, Range2Cidr start stop = Some nets ∧
    tiles_to n (val stop) (val start) nets (val stop + 1) ∧
    ∀ x, (∃ c, c ∈ nets ∧ in_net c x) ↔ val start <= x <= val stop.
Proof.
  intros Hn Hs He Hle. destruct (Range2Cidr_ok n Hn start stop Hs He) as (nets&Hr&Ht); [lia|].
  exists nets. split_and!; [done|done|]. intros x. rewrite (tiles_members n Hn _ _ _ _ x Ht). lia.
Qed.

Lemma range2cidr_covers_witness :
  ∃ nets, Range2Cidr (v4 1) (v4 6) = Some nets ∧ length nets = 4%nat ∧
    ∀ x, (∃ c, c ∈ nets ∧ in_net c x) ↔ val (v4 1) <= x <= val (v4 6).
Proof.
  destruct (range2cidr_covers 4 (v4 1) (v4 6)) as (nets&Hr&_&Hx);
    [by left|decide_now|decide_now|rewrite !val_v4; lia|].
  exists nets. split; [exact Hr|split; [|exact Hx]]. vm_compute in Hr. injection Hr as <-. reflexivity.
Defined.

(** ** The cache of two generations *)

(** C31: Whatever sequence of allocations and releases a client makes that
    releases only addresses it holds, it never holds an address twice, no address
    it holds is free at the same time, and no address is lost: the free and the
    held addresses are always together the initial ones. *)
Theorem ipcache_no_double_allocation (n4 : nat) (c : IpCache) (ops : list pool_op) :
  cache_inv n4 IPv6len c →
  let '(c', held) := client_run AllocateIp DeallocateIp (c, []) ops in
  NoDup held ∧ (∀ ip, ip ∈ held → ¬ cache_free n4 IPv6len c' ip) ∧
  (∀ ip, cache_free n4 IPv6len c ip ↔ cache_free n4 IPv6len c' ip ∨ ip ∈ held) ∧
  cache_inv n4 IPv6len c'.
Proof.
  intros Hc. pose proof (client_run_inv AllocateIp DeallocateIp (AddressPool0 := IpCache_pool n4)
    (cache_free n4 IPv6len c) ops (c, [])) as H.
  destruct (client_run _ _ _ _) as [c' held]. destruct H as (H1&H2&H3&H4).
  - split_and!; simpl; [done|constructor|by intros ip ?%elem_of_nil|].
    intros ip. rewrite elem_of_nil. tauto.
  - split_and!; auto. intros ip Hip. by apply H3.
Qed.

Definition cache0 : IpCache := LoadRanges NewIpCache [mkRange (v4 1) (v4 2)].

Lemma cache0_inv : cache_inv 4 IPv6len cache0.
Proof.
  apply (LoadRanges_ok 4); [by left|apply NewIpCache_inv| | |].
  - repeat constructor; decide_now.
  - repeat constructor.
  - intros r ip _ _. apply NewIpCache_free.
Qed.

Lemma ipcache_no_double_allocation_witness :
  (client_run AllocateIp DeallocateIp (cache0, [])
     [OpAlloc true; OpAlloc true; OpDealloc (v4 1); OpAlloc true]).2 = [v4 1; v4 2] ∧
  NoDup (client_run AllocateIp DeallocateIp (cache0, [])
     [OpAlloc true; OpAlloc true; OpDealloc (v4 1); OpAlloc true]).2.
Proof.
  split; [vm_compute; reflexivity|].
  pose proof (ipcache_no_double_allocation 4 cache0
    [OpAlloc true; OpAlloc true; OpDealloc (v4 1); OpAlloc true] cache0_inv) as H.
  destruct (client_run _ _ _ _). apply H.
Defined.

(** Loading pairwise disjoint ranges of the two families into a new cache
    gives a well-formed cache whose free addresses are exactly those of the
    ranges, each in the pool of its own family. *)
Theorem ipcache_load_ranges (n4 : nat) (rs : list IpRange) :
  n4 = IPv4len ∨ n4 = IPv6len → Forall (load_ok n4) rs →
  StronglySorted (λ r1 r2, ∀ ip, in_range n4 r1 ip → ¬ in_range n4 r2 ip) rs →
  cache_inv n4 IPv6len (LoadRanges NewIpCache rs) ∧
  ∀ ip, cache_free n4 IPv6len (LoadRanges NewIpCache rs) ip ↔ ∃ r, r ∈ rs ∧ in_range n4 r ip.
Proof.
  intros Hn Hrs Hss. destruct (LoadRanges_ok n4 Hn rs NewIpCache) as [Hi Hf]; auto.
  - apply NewIpCache_inv.
  - intros r ip _ _. apply NewIpCache_free.
  - split; [done|]. intros ip. rewrite Hf. pose proof (NewIpCache_free n4 ip). tauto.
Qed.

Lemma ipcache_load_ranges_witness :
  cache_free 4 IPv6len (LoadRanges NewIpCache [mkRange (v4 1) (v4 2)]) (v4 2).
Proof.
  apply (ipcache_load_ranges 4); [by left|repeat constructor; decide_now|repeat constructor|].
  exists (mkRange (v4 1) (v4 2)). split; [decide_now|]. split_and!; decide_now.
Defined.

(** RemoveIp of the cache takes exactly the address out, from whichever
    generation has it, and reports whether it was free; the pools stay
    well-formed. *)
Theorem ipcache_remove_ip (n4 : nat) (c : IpCache) (ip : IP) :
  cache_inv n4 IPv6len c → cache_valid n4 IPv6len ip →
  let '(c', found) := IpCache.RemoveIp c ip in
  cache_inv n4 IPv6len c' ∧
  (∀ x, cache_free n4 IPv6len c' x ↔ cache_free n4 IPv6len c x ∧ x ≠ ip) ∧
  (found = true ↔ cache_free n4 IPv6len c ip).
Proof. apply cache_RemoveIp. Qed.

Lemma ipcache_remove_ip_witness : ¬ cache_free 4 IPv6len (IpCache.RemoveIp cache0 (v4 1)).1 (v4 1).
Proof.
  pose proof (ipcache_remove_ip 4 cache0 (v4 1) cache0_inv ltac:(decide_now)) as H.
  destruct (IpCache.RemoveIp cache0 (v4 1)) as [c' found]. destruct H as (_&H&_).
  intros Hf. apply H in Hf as [_ Hf]. by apply Hf.
Defined.

(** HasIp decides whether an address is in a pool, on every list of
    well-formed ranges, ordered or not. *)
Theorem ipcache_has_ip (n : nat) (list : IpAlloc) (ip : IP) :
  Forall (range_ok n) (FreeList list) → ok n ip →
  HasIp list ip = true ↔ members (FreeList list) (val ip).
Proof. apply HasIp_ok. Qed.

Lemma ipcache_has_ip_witness : HasIp pool0 (v4 15) = true ∧ members (FreeList pool0) (val (v4 15)).
Proof. split; [vm_compute; reflexivity|]. apply (ipcache_has_ip 4); [decide_now|decide_now|vm_compute; reflexivity]. Defined.
