(* ===== verification/ApicMetadata.v ===== *)
(** * ApicMetadata: what the controller knows of the APIC's object classes

    Models src/pkg/apicapi/apic_metadata.go: the table [metadata] with, for
    each class, the default of every attribute the controller compares, the
    classes of its children, the hints ("deletable", "cardinality") and the
    normalizer that rewrites attribute values to the form the APIC reports
    them in; the tables of well-known ports and protocols; and
    [AddMetaDataChild].  An attribute value is a Go [interface{}]: a string,
    a bool, a number or nil.  A nil attribute map behaves as an empty one
    everywhere in the package, so both are the empty [gmap]. *)

From S2P Require Import Prelude.

Open Scope string_scope.

Inductive attr :=
  | ANil
  | AStr (s : string)
  | ABool (b : bool)
  | AInt (z : Z).

#[export] Instance attr_eq_dec : EqDecision attr.
Proof. solve_decision. Defined.

Notation attrs := (gmap string attr).

Record apicMeta := mkMeta {
  hints : list (string * attr);
  attributes : list (string * attr);
  meta_children : list string;
  normalizer : option (attrs → attrs)
}.

(** ** Well-known ports and protocols *)

Definition portNormalizations : gmap string string :=
  list_to_map
    [("0", "unspecified"); ("20", "ftpData"); ("25", "smtp"); ("53", "dns");
     ("80", "http"); ("110", "pop3"); ("443", "https"); ("554", "rtsp")].

Definition classDepth : gmap string nat :=
  list_to_map
    [("cloudEPg", 4); ("vzBrCP", 3); ("vzFilter", 3); ("hostprotPol", 3)]%nat.

Definition protoNormalizations : gmap string string :=
  list_to_map
    [("0", "unspecified"); ("1", "icmp"); ("2", "igmp"); ("6", "tcp");
     ("8", "egp"); ("9", "igp"); ("17", "udp"); ("58", "icmpv6");
     ("88", "eigrp"); ("89", "ospfigp"); ("103", "pim"); ("115", "l2tp");
     ("132", "sctp")].

Definition normalizePort (port : string) : string :=
  match portNormalizations !! port with Some n => n | None => port end.

Definition normalizeProto (proto : string) : string :=
  match protoNormalizations !! proto with Some n => n | None => proto end.

(** Rewrite the attribute [k] with [f] when it is present and a string: the
    shape all the normalizers share. *)
Definition normalizeAttr (f : string → string) (k : string) (b : attrs) : attrs :=
  match b !! k with
  | Some (AStr v) => <[k := AStr (f v)]> b
  | _ => b
  end.

Definition normalizePorts (b : attrs) (ports : list string) : attrs :=
  foldl (λ b port, normalizeAttr normalizePort port b) b ports.

(** [strings.ToUpper] on the ASCII letters; a MAC address has no others. *)
Definition ToUpper_ascii (c : Ascii.ascii) : Ascii.ascii :=
  let n := Ascii.nat_of_ascii c in
  if ((97 <=? n) && (n <=? 122))%nat then Ascii.ascii_of_nat (n - 32) else c.

Fixpoint ToUpper (s : string) : string :=
  match s with
  | EmptyString => EmptyString
  | String c s => String (ToUpper_ascii c) (ToUpper s)
  end.

Definition redirectDestNormalizer (b : attrs) : attrs :=
  normalizeAttr ToUpper "mac" b.

Definition ruleNormalizer (b : attrs) : attrs :=
  normalizeAttr normalizeProto "proto" (normalizePorts b ["toPort"; "fromPort"]).

Definition filterEntryNormalizer (b : attrs) : attrs :=
  normalizeAttr normalizeProto "prot"
    (normalizePorts b ["dToPort"; "dFromPort"; "sToPort"; "sFromPort"]).

Definition injectedSvcPortNormalizer (b : attrs) : attrs :=
  normalizeAttr normalizeProto "protocol" (normalizePorts b ["port"; "nodePort"]).

(** ** The table of classes *)

Definition metadata_1 : list (string * apicMeta) :=
  [("fvTenant", mkMeta []
     [("name", AStr EmptyString); ("nameAlias", AStr EmptyString)]
     ["fvBD"; "fvCtx"; "fvAp"] None);
   ("cloudAwsProvider", mkMeta []
     [("region", AStr EmptyString); ("accessKeyId", AStr "{{accessKeyId}}"); ("secretAccessKey", AStr "{{secretAccessKey}}"); ("providerId", AStr EmptyString)]
     [] None);
   ("cloudDomP", mkMeta []
     [("name", AStr EmptyString)]
     ["cloudBgpAsP"; "cloudProvP"] None);
   ("cloudBgpAsP", mkMeta []
     [("asn", AStr EmptyString)]
     [] None);
   ("cloudProvP", mkMeta []
     [("vendor", AStr EmptyString)]
     ["cloudRegion"] None);
   ("cloudRegion", mkMeta []
     [("name", AStr EmptyString); ("adminSt", AStr "managed")]
     [] None);
   ("cloudCtxProfile", mkMeta []
     [("name", AStr EmptyString)]
     ["cloudRsToCtx"; "cloudRsCtxProfileToRegion"; "cloudCidr"] None);
   ("cloudRsToCtx", mkMeta []
     [("tnFvCtxName", AStr EmptyString)]
     [] None);
   ("cloudRsCtxProfileToRegion", mkMeta []
     [("tDn", AStr EmptyString)]
     [] None);
   ("cloudCidr", mkMeta []
     [("addr", AStr EmptyString); ("primary", AStr "yes")]
     ["cloudSubnet"] None);
   ("cloudSubnet", mkMeta []
     [("ip", AStr EmptyString); ("scope", AStr "shared,public")]
     [] None);
   ("fvCtx", mkMeta []
     [("name", AStr EmptyString); ("nameAlias", AStr EmptyString); ("pcEnfPref", AStr "enforced")]
     ["fvRtCtx"] None);
   ("fvAp", mkMeta []
     [("name", AStr EmptyString); ("nameAlias", AStr EmptyString)]
     ["fvAEPg"] None);
   ("cloudApp", mkMeta []
     [("name", AStr EmptyString); ("nameAlias", AStr EmptyString)]
     ["cloudEPg"] None);
   ("fvAEPg", mkMeta []
     [("name", AStr EmptyString); ("nameAlias", AStr EmptyString)]
     ["fvRsBd"; "fvRsCons"; "fvRsProv"; "fvRsDomAtt"; "fvRsPathAtt"] None);
   ("infraGeneric", mkMeta []
     [("name", AStr EmptyString); ("nameAlias", AStr EmptyString)]
     ["infraRsFuncToEpg"] None)].

Definition metadata_2 : list (string * apicMeta) :=
  [("infraRsFuncToEpg", mkMeta []
     [("tDn", AStr EmptyString); ("encap", AStr EmptyString); ("mode", AStr EmptyString)]
     [] None);
   ("cloudEPg", mkMeta []
     [("name", AStr EmptyString); ("nameAlias", AStr EmptyString)]
     ["fvRsCons"; "fvRsProv"] None);
   ("cloudEPSelector", mkMeta []
     [("name", AStr EmptyString); ("matchExpression", AStr EmptyString)]
     [] None);
   ("fvRsBd", mkMeta [("deletable", ABool false)]
     [("tnFvBDName", AStr EmptyString)]
     ["fvRsBd"; "fvRsCons"; "fvRsProv"] None);
   ("fvBD", mkMeta []
     [("arpFlood", AStr "no"); ("ipLearning", AStr "yes"); ("name", AStr EmptyString); ("nameAlias", AStr EmptyString); ("unicastRoute", AStr "yes"); ("unkMacUcastAct", AStr "proxy")]
     ["fvSubnet"; "fvRsCtx"; "fvRsBDToOut"] None);
   ("fvRsCtx", mkMeta [("deletable", ABool false)]
     [("tnFvCtxName", AStr EmptyString)]
     [] None);
   ("fvRsBDToOut", mkMeta []
     [("tnL3extOutName", AStr EmptyString)]
     [] None);
   ("fvSubnet", mkMeta []
     [("ip", AStr EmptyString); ("virtual", AStr "no"); ("preferred", AStr "no")]
     [] None);
   ("fvRsDomAtt", mkMeta []
     [("tDn", AStr EmptyString)]
     [] None);
   ("fvRsPathAtt", mkMeta []
     [("tDn", AStr EmptyString); ("encap", AStr EmptyString)]
     [] None);
   ("fvnsVlanInstP", mkMeta []
     [("name", AStr EmptyString); ("allocMode", AStr EmptyString)]
     ["fvnsEncapBlk"] None);
   ("fvnsEncapBlk", mkMeta []
     [("from", AStr EmptyString); ("to", AStr EmptyString); ("allocMode", AStr EmptyString)]
     [] None);
   ("physDomP", mkMeta []
     [("name", AStr EmptyString)]
     ["infraRsVlanNs"] None);
   ("infraRsDomP", mkMeta []
     [("tDn", AStr EmptyString)]
     [] None);
   ("infraRsVlanNs", mkMeta []
     [("tDn", AStr EmptyString)]
     [] None);
   ("tagInst", mkMeta []
     [("name", AStr EmptyString)]
     [] None);
   ("tagAnnotation", mkMeta []
     [("key", AStr EmptyString)]
     [] None);
   ("hostprotPol", mkMeta []
     [("name", AStr EmptyString)]
     ["hostprotSubj"] None)].

Definition metadata_3 : list (string * apicMeta) :=
  [("hostprotSubj", mkMeta []
     [("name", AStr EmptyString)]
     ["hostprotRule"] None);
   ("hostprotRule", mkMeta []
     [("name", AStr EmptyString); ("connTrack", AStr "reflexive"); ("direction", AStr "ingress"); ("ethertype", AStr "undefined"); ("protocol", AStr "unspecified"); ("fromPort", AStr "unspecified"); ("toPort", AStr "unspecified")]
     ["hostprotRule"] (Some ruleNormalizer));
   ("hostprotRemoteIp", mkMeta []
     [("addr", AStr EmptyString)]
     [] None);
   ("qosRequirement", mkMeta []
     [("name", AStr EmptyString)]
     ["qosRsEgressDppPol"; "qosRsIngressDppPol"; "qosEpDscpMarking"] None);
   ("qosRsEgressDppPol", mkMeta []
     [("tnQosDppPolName", AStr EmptyString)]
     [] None);
   ("qosRsIngressDppPol", mkMeta []
     [("tnQosDppPolName", AStr EmptyString)]
     [] None);
   ("qosDppPol", mkMeta []
     [("name", AStr EmptyString); ("burst", AStr "unspecified"); ("burstUnit", AStr "kilo"); ("rate", AStr "0"); ("rateUnit", AStr "kilo")]
     [] None);
   ("qosEpDscpMarking", mkMeta []
     [("mark", AStr EmptyString)]
     [] None);
   ("vnsLDevVip", mkMeta []
     [("name", AStr EmptyString); ("devtype", AStr "PHYSICAL"); ("svcType", AStr "OTHERS"); ("contextAware", AStr "single-Context"); ("managed", AStr "yes")]
     ["vnsRsALDevToPhysDomP"; "vnsLIf"; "vnsCDev"] None);
   ("vnsRsALDevToPhysDomP", mkMeta []
     [("tDn", AStr EmptyString)]
     [] None);
   ("vnsLIf", mkMeta []
     [("name", AStr EmptyString); ("encap", AStr EmptyString)]
     ["vnsRsCIfAttN"] None);
   ("vnsRsCIfAttN", mkMeta []
     [("tDn", AStr EmptyString)]
     [] None);
   ("vnsCDev", mkMeta []
     [("name", AStr EmptyString); ("devCtxLbl", AStr EmptyString)]
     ["vnsCIf"] None);
   ("vnsCIf", mkMeta []
     [("name", AStr EmptyString)]
     ["vnsRsCIfPathAtt"] None);
   ("vnsRsCIfPathAtt", mkMeta []
     [("tDn", AStr EmptyString)]
     [] None);
   ("vnsAbsGraph", mkMeta []
     [("name", AStr EmptyString); ("uiTemplateType", AStr "UNSPECIFIED")]
     ["vnsAbsTermNodeCon"; "vnsAbsTermNodeProv"; "vnsAbsConnection"; "vnsAbsNode"] None);
   ("vnsAbsTermNodeCon", mkMeta []
     [("name", AStr EmptyString)]
     ["vnsAbsTermConn"; "vnsInTerm"; "vnsOutTerm"] None)].

Definition metadata_4 : list (string * apicMeta) :=
  [("vnsAbsTermNodeProv", mkMeta []
     [("name", AStr EmptyString)]
     ["vnsAbsTermConn"; "vnsInTerm"; "vnsOutTerm"] None);
   ("vnsAbsTermConn", mkMeta []
     []
     [] None);
   ("vnsInTerm", mkMeta []
     []
     [] None);
   ("vnsOutTerm", mkMeta []
     []
     [] None);
   ("vnsAbsConnection", mkMeta []
     [("name", AStr EmptyString); ("adjType", AStr "L3"); ("connDir", AStr "unknown"); ("connType", AStr "external"); ("directConnect", AStr "no"); ("unicastRoute", AStr "yes")]
     ["vnsRsAbsConnectionConns"] None);
   ("vnsRsAbsConnectionConns", mkMeta []
     [("tDn", AStr EmptyString)]
     [] None);
   ("vnsAbsNode", mkMeta []
     [("name", AStr EmptyString); ("funcTemplateType", AStr "OTHER"); ("funcType", AStr "GoTo"); ("isCopy", AStr "no"); ("managed", AStr "yes"); ("routingMode", AStr "unspecified"); ("shareEncap", AStr "no")]
     ["vnsAbsFuncConn"; "vnsRsNodeToLDev"] None);
   ("vnsAbsFuncConn", mkMeta []
     [("name", AStr EmptyString)]
     [] None);
   ("vnsRsNodeToLDev", mkMeta []
     [("tDn", AStr EmptyString)]
     [] None);
   ("vnsSvcRedirectPol", mkMeta []
     [("name", AStr EmptyString); ("thresholdDownAction", AStr "permit")]
     ["vnsRedirectDest"; "vnsRsIPSLAMonitoringPol"] None);
   ("vnsRedirectDest", mkMeta []
     [("ip", AStr EmptyString); ("mac", AStr EmptyString); ("descr", AStr EmptyString)]
     ["vnsRsRedirectHealthGroup"] (Some redirectDestNormalizer));
   ("fvIPSLAMonitoringPol", mkMeta []
     [("name", AStr EmptyString); ("slaType", AStr "icmp"); ("slaFrequency", AStr "60")]
     [] None);
   ("vnsRsIPSLAMonitoringPol", mkMeta []
     [("tDn", AStr EmptyString)]
     [] None);
   ("vnsRedirectHealthGroup", mkMeta []
     [("name", AStr EmptyString)]
     [] None);
   ("vnsRsRedirectHealthGroup", mkMeta []
     [("tDn", AStr EmptyString)]
     [] None);
   ("vnsLDevCtx", mkMeta []
     [("ctrctNameOrLbl", AStr EmptyString); ("graphNameOrLbl", AStr EmptyString); ("nodeNameOrLbl", AStr EmptyString)]
     ["vnsRsLDevCtxToLDev"; "vnsLIfCtx"] None);
   ("vnsRsLDevCtxToLDev", mkMeta []
     [("tDn", AStr EmptyString)]
     [] None);
   ("vnsLIfCtx", mkMeta []
     [("connNameOrLbl", AStr EmptyString)]
     ["vnsRsLIfCtxToSvcRedirectPol"; "vnsRsLIfCtxToBD"; "vnsRsLIfCtxToLIf"] None);
   ("vnsRsLIfCtxToSvcRedirectPol", mkMeta []
     [("tDn", AStr EmptyString)]
     [] None)].

Definition metadata_5 : list (string * apicMeta) :=
  [("vnsRsLIfCtxToBD", mkMeta []
     [("tDn", AStr EmptyString)]
     [] None);
   ("vnsRsLIfCtxToLIf", mkMeta []
     [("tDn", AStr EmptyString)]
     [] None);
   ("vzBrCP", mkMeta []
     [("name", AStr EmptyString); ("scope", AStr "context")]
     ["vzSubj"] None);
   ("vzSubj", mkMeta []
     [("name", AStr EmptyString); ("revFltPorts", AStr "yes")]
     ["vzRsSubjFiltAtt"; "vzRsSubjGraphAtt"; "vzInTerm"; "vzOutTerm"] None);
   ("vzInTerm", mkMeta []
     [("name", AStr EmptyString)]
     ["vzRsFiltAtt"; "vzRsInTermGraphAtt"] None);
   ("vzOutTerm", mkMeta []
     [("name", AStr EmptyString)]
     ["vzRsFiltAtt"; "vzRsOutTermGraphAtt"] None);
   ("vzRsInTermGraphAtt", mkMeta []
     [("tnVnsAbsGraphName", AStr EmptyString)]
     [] None);
   ("vzRsOutTermGraphAtt", mkMeta []
     [("tnVnsAbsGraphName", AStr EmptyString)]
     [] None);
   ("vzRsFiltAtt", mkMeta []
     [("tnVzFilterName", AStr EmptyString)]
     [] None);
   ("vzRsSubjFiltAtt", mkMeta []
     [("tnVzFilterName", AStr EmptyString)]
     [] None);
   ("vzRsSubjGraphAtt", mkMeta []
     [("tnVnsAbsGraphName", AStr EmptyString)]
     [] None);
   ("vzFilter", mkMeta []
     [("name", AStr EmptyString)]
     ["vzEntry"] None);
   ("vzEntry", mkMeta []
     [("name", AStr EmptyString); ("applyToFrag", AStr "no"); ("arpOpc", AStr "unspecified"); ("dFromPort", AStr "unspecified"); ("dToPort", AStr "unspecified"); ("etherT", AStr "unspecified"); ("prot", AStr "unspecified"); ("sFromPort", AStr "unspecified"); ("sToPort", AStr "unspecified"); ("tcpRules", AStr EmptyString); ("stateful", AStr "no")]
     [] (Some filterEntryNormalizer));
   ("l3extInstP", mkMeta []
     [("name", AStr EmptyString)]
     ["l3extSubnet"; "fvRsProv"; "fvRsCons"] None);
   ("l3extSubnet", mkMeta []
     [("ip", AStr EmptyString); ("scope", AStr "import-security")]
     [] None);
   ("fvRsProv", mkMeta []
     [("tnVzBrCPName", AStr EmptyString)]
     [] None);
   ("fvRsCons", mkMeta []
     [("tnVzBrCPName", AStr EmptyString)]
     [] None);
   ("vmmInjectedContGrp", mkMeta [("cardinality", AStr "high")]
     [("guid", AStr EmptyString); ("name", AStr EmptyString); ("replicaSetName", AStr EmptyString); ("hostName", AStr EmptyString); ("computeNodeName", AStr EmptyString)]
     [] None)].

Definition metadata_6 : list (string * apicMeta) :=
  [("vmmInjectedDepl", mkMeta [("cardinality", AStr "high")]
     [("guid", AStr EmptyString); ("name", AStr EmptyString); ("replicas", AStr EmptyString)]
     [] None);
   ("vmmInjectedReplSet", mkMeta [("cardinality", AStr "high")]
     [("guid", AStr EmptyString); ("name", AStr EmptyString); ("deploymentName", AStr EmptyString)]
     [] None);
   ("vmmInjectedSvc", mkMeta [("cardinality", AStr "high")]
     [("guid", AStr EmptyString); ("name", AStr EmptyString); ("clusterIp", AStr "0.0.0.0"); ("lbIp", AStr "0.0.0.0"); ("type", AStr "clusterUp")]
     ["vmmInjectedSvcEp"; "vmmInjectedSvcPort"] None);
   ("vmmInjectedSvcEp", mkMeta [("cardinality", AStr "high")]
     [("name", AStr EmptyString); ("contGrpName", AStr EmptyString)]
     [] None);
   ("vmmInjectedSvcPort", mkMeta [("cardinality", AStr "high")]
     [("protocol", AStr EmptyString); ("port", AStr EmptyString); ("nodePort", AStr EmptyString); ("targetPort", AStr EmptyString)]
     [] (Some injectedSvcPortNormalizer));
   ("vmmInjectedHost", mkMeta []
     [("name", AStr EmptyString); ("hostName", AStr EmptyString); ("kernelVer", AStr EmptyString); ("os", AStr EmptyString)]
     [] None);
   ("vmmInjectedNs", mkMeta []
     [("name", AStr EmptyString)]
     ["vmmInjectedContGrp"; "vmmInjectedSvc"; "vmmInjectedDepl"; "vmmInjectedReplSet"] None);
   ("vmmInjectedNwPol", mkMeta []
     [("name", AStr EmptyString)]
     [] None);
   ("vmmInjectedOrg", mkMeta []
     [("name", AStr EmptyString)]
     ["vmmInjectedOrgUnit"] None);
   ("vmmInjectedOrgUnit", mkMeta []
     [("name", AStr EmptyString)]
     ["vmmInjectedContGrp"; "vmmInjectedDepl"] None);
   ("infraInfra", mkMeta []
     [("name", AStr EmptyString)]
     ["netflowVmmExporterPol"; "spanVSrcGrp"; "spanVDestGrp"; "infraAccBndlGrp"; "infraAccPortGrp"] None);
   ("netflowVmmExporterPol", mkMeta []
     [("name", AStr EmptyString); ("ver", AStr "v5"); ("dstAddr", AStr EmptyString); ("dstPort", AStr "2055")]
     [] None);
   ("vmmVSwitchPolicyCont", mkMeta []
     []
     ["vmmRsVswitchExporterPol"] None);
   ("vmmRsVswitchExporterPol", mkMeta []
     [("tDn", AStr EmptyString); ("activeFlowTimeOut", AStr "60"); ("idleFlowTimeOut", AStr "15"); ("samplingRate", AStr "0")]
     [] None)].

Definition metadata_7 : list (string * apicMeta) :=
  [("spanVSrcGrp", mkMeta []
     [("name", AStr EmptyString); ("adminSt", AStr "start")]
     ["spanVSrc"; "spanSpanLbl"] None);
   ("spanVSrc", mkMeta []
     [("name", AStr EmptyString); ("dir", AStr "both")]
     ["spanRsSrcToVPort"] None);
   ("spanRsSrcToVPort", mkMeta []
     [("tDn", AStr EmptyString)]
     [] None);
   ("spanVDestGrp", mkMeta []
     [("name", AStr EmptyString)]
     ["spanVDest"] None);
   ("spanVDest", mkMeta []
     [("name", AStr EmptyString)]
     ["spanVEpgSummary"] None);
   ("spanVEpgSummary", mkMeta []
     [("dstIp", AStr EmptyString); ("flowId", AStr "1")]
     [] None);
   ("spanSpanLbl", mkMeta []
     [("name", AStr EmptyString)]
     [] None);
   ("infraAccBndlGrp", mkMeta []
     [("name", AStr EmptyString); ("lagT", AStr "node")]
     ["infraRsSpanVSrcGrp"; "infraRsSpanVDestGrp"] None);
   ("infraAccPortGrp", mkMeta []
     [("name", AStr EmptyString)]
     ["infraRsSpanVSrcGrp"; "infraRsSpanVDestGrp"] None);
   ("infraRsSpanVSrcGrp", mkMeta []
     [("tnSpanVSrcGrpName", AStr EmptyString)]
     [] None);
   ("infraRsSpanVDestGrp", mkMeta []
     [("tnSpanVDestGrpName", AStr EmptyString)]
     [] None);
   ("vmmInjectedClusterInfo", mkMeta []
     [("accountName", AStr EmptyString); ("version", AStr EmptyString); ("provider", AStr EmptyString)]
     ["vmmnInjectedClusterDetails"; "vmmInjectedClusterSubnet"; "vmmClusterFaultInfo"] None);
   ("vmmClusterFaultInfo", mkMeta []
     [("faultDesc", AStr EmptyString); ("faultSeverity", AStr EmptyString); ("faultCode", AStr EmptyString)]
     [] None);
   ("vmmInjectedLabel", mkMeta [("cardinality", AStr "high")]
     [("name", AStr EmptyString); ("value", AStr EmptyString)]
     [] None)].

Definition metadata : gmap string apicMeta :=
  list_to_map (metadata_1 ++ metadata_2 ++ metadata_3 ++ metadata_4 ++ metadata_5 ++ metadata_6 ++ metadata_7).

(** The table is a shared global; [AddMetaDataChild] appends to the children
    of a class and is the only code that changes it. *)
Definition AddMetaDataChild (md : gmap string apicMeta) (parent child : string)
  : string + gmap string apicMeta :=
  match md !! parent with
  | None => inl ("parent " ++ parent ++ " not found")
  | Some p =>
      match md !! child with
      | None => inl ("child " ++ child ++ " not found")
      | Some _ =>
          inr (<[parent := mkMeta (hints p) (attributes p)
                             (meta_children p ++ [child]) (normalizer p)]> md)
      end
  end.

(** Proofs evaluate the table only where they ask for it. *)
#[global] Opaque metadata.
