(* ===== verification/ApicTypes.v ===== *)
(** * ApicTypes: APIC objects

    Models the object type of src/pkg/apicapi/apic_types.go and its methods.
    In Go an [ApicObject] is a map from a class to a body; every object the
    package builds or receives has exactly one entry, and every method looks
    at one entry only, so an object is a tree node with a class, the DN hint,
    the attributes and the children.  Dereferencing the body of a class that
    is not there is a nil-pointer panic, here the result [None].
    [sort.Sort] is [sort], which orders by DN; objects with equal DNs keep
    their order, where Go's sort leaves it open. *)

From S2P Require Import Prelude ApicMetadata.

Open Scope string_scope.

Inductive ApicObject :=
  Obj (o_class : string) (o_hintDn : string) (o_attrs : attrs)
      (o_children : list ApicObject).

Notation ApicSlice := (list ApicObject).

Definition class (o : ApicObject) : string := let 'Obj c _ _ _ := o in c.
Definition HintDn (o : ApicObject) : string := let 'Obj _ h _ _ := o in h.
Definition Attributes (o : ApicObject) : attrs := let 'Obj _ _ a _ := o in a.
Definition Children (o : ApicObject) : ApicSlice := let 'Obj _ _ _ ch := o in ch.

(** Induction over the tree, with the hypothesis for every child. *)
Definition ApicObject_rect' (P : ApicObject → Prop)
  (H : ∀ c h a ch, Forall P ch → P (Obj c h a ch)) : ∀ o, P o :=
  fix go o :=
    match o with
    | Obj c h a ch =>
        H c h a ch
          ((fix all (l : list ApicObject) : Forall P l :=
              match l with
              | [] => Forall_nil_2 P
              | x :: l => Forall_cons_2 P x l (go x) (all l)
              end) ch)
    end.

(** ** Reading and writing *)

Definition GetAttr (o : ApicObject) (name : string) : attr :=
  default ANil (Attributes o !! name).

Definition GetAttrStr (o : ApicObject) (name : string) : string :=
  match Attributes o !! name with Some (AStr s) => s | _ => EmptyString end.

Definition GetHintDn (o : ApicObject) : string := HintDn o.

Definition GetAttrDn (o : ApicObject) : string := GetAttrStr o "dn".

Definition GetDn (o : ApicObject) : string :=
  let attrDn := GetAttrStr o "dn" in
  if String.eqb attrDn EmptyString then GetHintDn o else attrDn.

Definition GetRn (o : ApicObject) : string :=
  match Attributes o !! "rn" with Some (AStr r) => r | _ => EmptyString end.

Definition BuildDn (o : ApicObject) (parentDn : string) : string :=
  let dn := GetDn o in
  if negb (String.eqb dn EmptyString) then dn
  else
    let rn := GetRn o in
    if negb (String.eqb rn EmptyString) then parentDn ++ "/" ++ rn
    else EmptyString.

Definition cmpApicObject (a b : ApicObject) : comparison :=
  String.compare (GetDn a) (GetDn b).

Definition ApicNameAliasLength : nat := 64.

Definition truncatedName (name : string) : string :=
  if (ApicNameAliasLength - 1 <? String.length name)%nat
  then String.substring 0 (ApicNameAliasLength - 4) name ++ "..."
  else name.

Definition SetAttr (o : ApicObject) (name : string) (value : attr) : ApicObject :=
  let 'Obj c h a ch := o in Obj c h (<[name := value]> a) ch.

Definition AddChild (o c : ApicObject) : ApicObject :=
  let 'Obj cl h a ch := o in Obj cl h a (ch ++ [c])%list.

(** [ret[class].Attributes[k] = v] and [ret[class].HintDn = v]. *)
Definition set_attr (cl k : string) (v : attr) (o : ApicObject) : option ApicObject :=
  if String.eqb (class o) cl then Some (SetAttr o k v) else None.

Definition set_hint (cl v : string) (o : ApicObject) : option ApicObject :=
  let 'Obj c _ a ch := o in
  if String.eqb c cl then Some (Obj c v a ch) else None.

Definition newApicObject (cl : string) : option ApicObject :=
  md ← metadata !! cl;
  Some (Obj cl EmptyString (list_to_map (attributes md)) []).

Definition EmptyApicObject (cl dn : string) : ApicObject :=
  Obj cl EmptyString {["dn" := AStr dn]} [].

(** [Copy] rebuilds the bodies from their attributes and children only: the
    DN hint is not copied. *)
Fixpoint Copy (o : ApicObject) : ApicObject :=
  let 'Obj c h a ch := o in Obj c EmptyString a (map Copy ch).

Definition Slice_Copy (s : ApicSlice) : ApicSlice := map Copy s.

(** ** Sorting by DN *)

(** [Less a b] is [cmpApicObject a b < 0]; the order the sort establishes is
    that no later object is less than an earlier one. *)
Definition Less (a b : ApicObject) : bool :=
  match cmpApicObject a b with Lt => true | _ => false end.

Definition dn_le (a b : ApicObject) : Prop := String.le (GetDn a) (GetDn b).

#[export] Instance dn_le_dec : RelDecision dn_le.
Proof. intros a b. unfold dn_le. apply _. Defined.

Definition sort (s : ApicSlice) : ApicSlice := merge_sort dn_le s.

(** ** Ownership tags *)

Definition aciContainersAnnotKey : string := "aci-containers-controller-tag".
Definition aciContainersOwnerAnnotation : string :=
  "orchestrator:aci-containers-controller".

(** The child carries the controller's tag. *)
Definition is_tag (c : ApicObject) : bool :=
  String.eqb (class c) "tagAnnotation" &&
  match Attributes c !! "key" with
  | Some (AStr k) => String.eqb k aciContainersAnnotKey
  | _ => false
  end.

Definition GetTag (o : ApicObject) : string :=
  match List.find is_tag (Children o) with
  | Some c => GetAttrStr c "value"
  | None => EmptyString
  end.

Definition NewTagAnnotation (ApicVersion parentDn key : string) : option ApicObject :=
  ret ← newApicObject "tagAnnotation";
  let dn :=
    if String.leb "4.1" ApicVersion
    then parentDn ++ "/annotationKey-[" ++ key ++ "]"
    else parentDn ++ "/annotationKey-" ++ key in
  ret ← set_attr "tagAnnotation" "key" (AStr key) ret;
  set_attr "tagAnnotation" "dn" (AStr dn) ret.

(** The loop of [SetTag] runs over the children from the last one: it stops
    at the controller's tag, which it overwrites, and removes every other
    annotation it passes.  [todo] are the children still to visit, last
    first; [kept] those it has passed and kept. *)
Fixpoint SetTag_loop (tag : string) (todo kept : ApicSlice) : bool * ApicSlice :=
  match todo with
  | [] => (false, kept)
  | c :: todo =>
      if String.eqb (class c) "tagAnnotation" then
        if is_tag c
        then (true, reverse todo ++ SetAttr c "value" (AStr tag) :: kept)%list
        else SetTag_loop tag todo kept
      else SetTag_loop tag todo (c :: kept)
  end.

(** The constructor cannot panic here: [tagAnnotation] has metadata
    ([NewTagAnnotation_some] below). *)
Definition SetTag (ApicVersion : string) (o : ApicObject) (tag : string) : ApicObject :=
  let 'Obj c h a ch := o in
  let '(found, ch') := SetTag_loop tag (reverse ch) [] in
  let o' := Obj c h a ch' in
  if found then o'
  else if negb (String.eqb (GetAttrDn o') EmptyString) then
    match NewTagAnnotation ApicVersion (GetAttrDn o') aciContainersAnnotKey with
    | Some t => AddChild o' (SetAttr t "value" (AStr tag))
    | None => o'
    end
  else o'.
