(* ===== verification/ApicBuild.v ===== *)
(** * ApicBuild: the constructors of APIC objects

    The [New*] functions of src/pkg/apicapi/apic_types.go, each with its
    format strings written out as concatenations.  [newApicObject] looks the
    class up in the metadata and the assignments go through the body of that
    class, so every constructor can panic in principle; the theorems at the
    end show that none does, that each returns an object of its class with
    every compared attribute set, and that the DN (or DN hint) of an object
    built under a parent extends the DN of the parent. *)

From S2P Require Import Prelude ApicMetadata ApicTypes.

Open Scope string_scope.

Definition NewFvTenant (name : string) : option ApicObject :=
  ret ← newApicObject "fvTenant";
  ret ← set_attr "fvTenant" "name" (AStr name) ret;
  Some ret.

Definition NewCloudAwsProvider (tenant region providerID : string) : option ApicObject :=
  ret ← newApicObject "cloudAwsProvider";
  ret ← set_attr "cloudAwsProvider" "region" (AStr region) ret;
  ret ← set_attr "cloudAwsProvider" "providerId" (AStr providerID) ret;
  ret ← set_attr "cloudAwsProvider" "dn" (AStr ("uni/tn-" ++ tenant ++ "/awsprovider")) ret;
  Some ret.

Definition NewCloudCtxProfile (tenant name : string) : option ApicObject :=
  ret ← newApicObject "cloudCtxProfile";
  ret ← set_attr "cloudCtxProfile" "name" (AStr name) ret;
  ret ← set_attr "cloudCtxProfile" "dn" (AStr ("uni/tn-" ++ tenant ++ "/ctxprofile-" ++ name)) ret;
  Some ret.

Definition NewCloudRsToCtx (cCtxDn ctxName : string) : option ApicObject :=
  ret ← newApicObject "cloudRsToCtx";
  ret ← set_attr "cloudRsToCtx" "tnFvCtxName" (AStr ctxName) ret;
  ret ← set_attr "cloudRsToCtx" "dn" (AStr (cCtxDn ++ "/rstoCtx")) ret;
  Some ret.

Definition NewCloudRsCtxProfileToRegion (cCtxDn tDn : string) : option ApicObject :=
  ret ← newApicObject "cloudRsCtxProfileToRegion";
  ret ← set_attr "cloudRsCtxProfileToRegion" "tDn" (AStr tDn) ret;
  ret ← set_attr "cloudRsCtxProfileToRegion" "dn" (AStr (cCtxDn ++ "/rsctxProfileToRegion")) ret;
  Some ret.

Definition NewCloudCidr (cCtxDn addr : string) : option ApicObject :=
  ret ← newApicObject "cloudCidr";
  ret ← set_attr "cloudCidr" "addr" (AStr addr) ret;
  ret ← set_attr "cloudCidr" "dn" (AStr (cCtxDn ++ "/cidr-[" ++ addr ++ "]")) ret;
  Some ret.

Definition NewCloudSubnet (cidrDn ip : string) : option ApicObject :=
  ret ← newApicObject "cloudSubnet";
  ret ← set_attr "cloudSubnet" "ip" (AStr ip) ret;
  ret ← set_attr "cloudSubnet" "dn" (AStr (cidrDn ++ "/subnet-[" ++ ip ++ "]")) ret;
  Some ret.

Definition NewFvCtx (tenantName name : string) : option ApicObject :=
  ret ← newApicObject "fvCtx";
  ret ← set_attr "fvCtx" "name" (AStr name) ret;
  ret ← set_attr "fvCtx" "dn" (AStr ("uni/tn-" ++ tenantName ++ "/ctx-" ++ name)) ret;
  Some ret.

Definition NewFvnsEncapBlk (parentDn from to : string) : option ApicObject :=
  ret ← newApicObject "fvnsEncapBlk";
  ret ← set_attr "fvnsEncapBlk" "from" (AStr ("vlan-" ++ from)) ret;
  ret ← set_attr "fvnsEncapBlk" "to" (AStr ("vlan-" ++ to)) ret;
  ret ← set_attr "fvnsEncapBlk" "allocMode" (AStr "static") ret;
  ret ← set_hint "fvnsEncapBlk" (parentDn ++ "/from-[vlan-" ++ from ++ "]-to-[vlan-" ++ to ++ "]") ret;
  Some ret.

Definition NewFvnsVlanInstP (tenant name : string) : option ApicObject :=
  ret ← newApicObject "fvnsVlanInstP";
  ret ← set_attr "fvnsVlanInstP" "name" (AStr (tenant ++ "-" ++ name)) ret;
  ret ← set_attr "fvnsVlanInstP" "allocMode" (AStr "static") ret;
  ret ← set_hint "fvnsVlanInstP" ("uni/infra/vlanns-[" ++ tenant ++ "-" ++ name ++ "]-static") ret;
  Some ret.

Definition NewPhysDomP (physDom : string) : option ApicObject :=
  ret ← newApicObject "physDomP";
  ret ← set_attr "physDomP" "name" (AStr physDom) ret;
  ret ← set_hint "physDomP" ("uni/phys-" ++ physDom) ret;
  Some ret.

Definition NewInfraRsDomP (parentDn tDn : string) : option ApicObject :=
  ret ← newApicObject "infraRsDomP";
  ret ← set_attr "infraRsDomP" "tDn" (AStr tDn) ret;
  ret ← set_hint "infraRsDomP" (parentDn ++ "/rsdomP-[" ++ tDn ++ "]") ret;
  Some ret.

Definition NewInfraRsVlanNs (parentDn tDn : string) : option ApicObject :=
  ret ← newApicObject "infraRsVlanNs";
  ret ← set_attr "infraRsVlanNs" "tDn" (AStr tDn) ret;
  ret ← set_hint "infraRsVlanNs" (parentDn ++ "/rsvlanNs") ret;
  Some ret.

Definition NewFvRsDomAttPhysDom (parentDn physDom : string) : option ApicObject :=
  let physDomDn := "uni/phys-" ++ physDom in
  ret ← newApicObject "fvRsDomAtt";
  ret ← set_attr "fvRsDomAtt" "tDn" (AStr physDomDn) ret;
  ret ← set_hint "fvRsDomAtt" (parentDn ++ "/rsdomAtt-[" ++ physDomDn ++ "]") ret;
  Some ret.

Definition NewFvAP (ap : string) : option ApicObject :=
  ret ← newApicObject "fvAp";
  ret ← set_attr "fvAp" "name" (AStr ap) ret;
  Some ret.

Definition NewFvAEPg (tenant ap name : string) : option ApicObject :=
  ret ← newApicObject "fvAEPg";
  ret ← set_attr "fvAEPg" "dn" (AStr ("uni/tn-" ++ tenant ++ "/ap-" ++ ap ++ "/epg-" ++ name)) ret;
  ret ← set_attr "fvAEPg" "name" (AStr name) ret;
  Some ret.

Definition NewInfraGeneric (aep : string) : option ApicObject :=
  ret ← newApicObject "infraGeneric";
  ret ← set_attr "infraGeneric" "name" (AStr "default") ret;
  ret ← set_hint "infraGeneric" ("uni/infra/attentp-" ++ aep ++ "/" ++ "gen-default") ret;
  Some ret.

Definition NewInfraRsFuncToEpg (parentDn epgDn vlan mode : string) : option ApicObject :=
  ret ← newApicObject "infraRsFuncToEpg";
  ret ← set_attr "infraRsFuncToEpg" "tDn" (AStr epgDn) ret;
  ret ← set_attr "infraRsFuncToEpg" "encap" (AStr ("vlan-" ++ vlan)) ret;
  ret ← set_attr "infraRsFuncToEpg" "mode" (AStr mode) ret;
  ret ← set_hint "infraRsFuncToEpg" (parentDn ++ "/" ++ "rsfuncToEpg-[" ++ epgDn ++ "]") ret;
  Some ret.

Definition NewFvRsBD (parentDn bdName : string) : option ApicObject :=
  ret ← newApicObject "fvRsBd";
  ret ← set_attr "fvRsBd" "tnFvBDName" (AStr bdName) ret;
  ret ← set_hint "fvRsBd" (parentDn ++ "/rsbd") ret;
  Some ret.

Definition NewFvRsPathAtt (parentDn path encap : string) : option ApicObject :=
  ret ← newApicObject "fvRsPathAtt";
  ret ← set_attr "fvRsPathAtt" "tDn" (AStr path) ret;
  ret ← set_attr "fvRsPathAtt" "encap" (AStr ("vlan-" ++ encap)) ret;
  ret ← set_hint "fvRsPathAtt" (parentDn ++ "/" ++ "rspathAtt-[" ++ path ++ "]") ret;
  Some ret.

Definition NewFvBD (tenantName name : string) : option ApicObject :=
  ret ← newApicObject "fvBD";
  ret ← set_attr "fvBD" "name" (AStr name) ret;
  ret ← set_attr "fvBD" "dn" (AStr ("uni/tn-" ++ tenantName ++ "/BD-" ++ name)) ret;
  Some ret.

Definition NewFvRsCtx (parentDn vrfName : string) : option ApicObject :=
  ret ← newApicObject "fvRsCtx";
  ret ← set_attr "fvRsCtx" "tnFvCtxName" (AStr vrfName) ret;
  ret ← set_hint "fvRsCtx" (parentDn ++ "/rsctx") ret;
  Some ret.

Definition NewCloudApp (tenantName name : string) : option ApicObject :=
  ret ← newApicObject "cloudApp";
  ret ← set_attr "cloudApp" "name" (AStr name) ret;
  ret ← set_attr "cloudApp" "dn" (AStr ("uni/tn-" ++ tenantName ++ "/cloudapp-" ++ name)) ret;
  Some ret.

Definition NewCloudEpg (tenantName appName name : string) : option ApicObject :=
  ret ← newApicObject "cloudEPg";
  ret ← set_attr "cloudEPg" "name" (AStr name) ret;
  ret ← set_attr "cloudEPg" "dn" (AStr ("uni/tn-" ++ tenantName ++ "/cloudapp-" ++ appName ++ "/cloudepg-" ++ name)) ret;
  Some ret.

Definition NewFvSubnet (parentDn gwIpMask : string) : option ApicObject :=
  ret ← newApicObject "fvSubnet";
  ret ← set_attr "fvSubnet" "ip" (AStr gwIpMask) ret;
  ret ← set_attr "fvSubnet" "dn" (AStr (parentDn ++ "/subnet-[" ++ gwIpMask ++ "]")) ret;
  Some ret.

Definition NewRsCtx (parentDn ctx : string) : option ApicObject :=
  ret ← newApicObject "fvRsCtx";
  ret ← set_attr "fvRsCtx" "tnFvCtxName" (AStr ctx) ret;
  ret ← set_attr "fvRsCtx" "dn" (AStr (parentDn ++ "/rsctx")) ret;
  Some ret.

Definition NewRsBdToOut (parentDn l3out : string) : option ApicObject :=
  ret ← newApicObject "fvRsBDToOut";
  ret ← set_attr "fvRsBDToOut" "tnL3extOutName" (AStr l3out) ret;
  ret ← set_attr "fvRsBDToOut" "dn" (AStr (parentDn ++ "/rsBDToOut-" ++ l3out)) ret;
  Some ret.

Definition NewTagInst (parentDn name : string) : option ApicObject :=
  ret ← newApicObject "tagInst";
  ret ← set_attr "tagInst" "name" (AStr name) ret;
  ret ← set_attr "tagInst" "dn" (AStr (parentDn ++ "/tag-" ++ name)) ret;
  Some ret.

Definition NewHostprotPol (tenantName name : string) : option ApicObject :=
  ret ← newApicObject "hostprotPol";
  ret ← set_attr "hostprotPol" "name" (AStr name) ret;
  ret ← set_attr "hostprotPol" "dn" (AStr ("uni/tn-" ++ tenantName ++ "/pol-" ++ name)) ret;
  Some ret.

Definition NewHostprotSubj (parentDn name : string) : option ApicObject :=
  ret ← newApicObject "hostprotSubj";
  ret ← set_attr "hostprotSubj" "name" (AStr name) ret;
  ret ← set_attr "hostprotSubj" "dn" (AStr (parentDn ++ "/subj-" ++ name)) ret;
  Some ret.

Definition NewHostprotRule (parentDn name : string) : option ApicObject :=
  ret ← newApicObject "hostprotRule";
  ret ← set_attr "hostprotRule" "name" (AStr name) ret;
  ret ← set_attr "hostprotRule" "dn" (AStr (parentDn ++ "/rule-" ++ name)) ret;
  Some ret.

Definition NewHostprotRemoteIp (parentDn addr : string) : option ApicObject :=
  ret ← newApicObject "hostprotRemoteIp";
  ret ← set_attr "hostprotRemoteIp" "addr" (AStr addr) ret;
  ret ← set_attr "hostprotRemoteIp" "dn" (AStr (parentDn ++ "/ip-[" ++ addr ++ "]")) ret;
  Some ret.

Definition NewQosDppPol (tenantName name : string) : option ApicObject :=
  ret ← newApicObject "qosDppPol";
  ret ← set_attr "qosDppPol" "name" (AStr name) ret;
  ret ← set_attr "qosDppPol" "dn" (AStr ("uni/tn-" ++ tenantName ++ "/qosdpppol-" ++ name)) ret;
  Some ret.

Definition NewQosRequirement (tenantName name : string) : option ApicObject :=
  ret ← newApicObject "qosRequirement";
  ret ← set_attr "qosRequirement" "name" (AStr name) ret;
  ret ← set_attr "qosRequirement" "dn" (AStr ("uni/tn-" ++ tenantName ++ "/qosreq-" ++ name)) ret;
  Some ret.

Definition NewRsEgressDppPol (parentDn dppPolName : string) : option ApicObject :=
  ret ← newApicObject "qosRsEgressDppPol";
  ret ← set_attr "qosRsEgressDppPol" "tnQosDppPolName" (AStr dppPolName) ret;
  ret ← set_attr "qosRsEgressDppPol" "dn" (AStr (parentDn ++ "/rsegressDppPol")) ret;
  Some ret.

Definition NewRsIngressDppPol (parentDn dppPolName : string) : option ApicObject :=
  ret ← newApicObject "qosRsIngressDppPol";
  ret ← set_attr "qosRsIngressDppPol" "tnQosDppPolName" (AStr dppPolName) ret;
  ret ← set_attr "qosRsIngressDppPol" "dn" (AStr (parentDn ++ "/rsingressDppPol")) ret;
  Some ret.

Definition NewQosEpDscpMarking (qosreqDn name : string) : option ApicObject :=
  ret ← newApicObject "qosEpDscpMarking";
  ret ← set_attr "qosEpDscpMarking" "name" (AStr name) ret;
  ret ← set_attr "qosEpDscpMarking" "dn" (AStr (qosreqDn ++ "/dscp_marking")) ret;
  Some ret.

Definition NewVnsLDevVip (tenantName name : string) : option ApicObject :=
  ret ← newApicObject "vnsLDevVip";
  ret ← set_attr "vnsLDevVip" "name" (AStr name) ret;
  ret ← set_attr "vnsLDevVip" "dn" (AStr ("uni/tn-" ++ tenantName ++ "/lDevVip-" ++ name)) ret;
  Some ret.

Definition NewVnsRsALDevToPhysDomP (parentDn physDomDn : string) : option ApicObject :=
  ret ← newApicObject "vnsRsALDevToPhysDomP";
  ret ← set_attr "vnsRsALDevToPhysDomP" "tDn" (AStr physDomDn) ret;
  ret ← set_attr "vnsRsALDevToPhysDomP" "dn" (AStr (parentDn ++ "/rsALDevToPhysDomP")) ret;
  Some ret.

Definition NewVnsLIf (parentDn name : string) : option ApicObject :=
  ret ← newApicObject "vnsLIf";
  ret ← set_attr "vnsLIf" "name" (AStr name) ret;
  ret ← set_attr "vnsLIf" "dn" (AStr (parentDn ++ "/lIf-" ++ name)) ret;
  Some ret.

Definition NewVnsRsCIfAttN (parentDn cifDn : string) : option ApicObject :=
  ret ← newApicObject "vnsRsCIfAttN";
  ret ← set_attr "vnsRsCIfAttN" "tDn" (AStr cifDn) ret;
  ret ← set_attr "vnsRsCIfAttN" "dn" (AStr (parentDn ++ "/rscIfAttN-[" ++ cifDn ++ "]")) ret;
  Some ret.

Definition NewVnsCDev (parentDn name : string) : option ApicObject :=
  ret ← newApicObject "vnsCDev";
  ret ← set_attr "vnsCDev" "name" (AStr name) ret;
  ret ← set_attr "vnsCDev" "dn" (AStr (parentDn ++ "/cDev-" ++ name)) ret;
  Some ret.

Definition NewVnsCif (parentDn name : string) : option ApicObject :=
  ret ← newApicObject "vnsCIf";
  ret ← set_attr "vnsCIf" "name" (AStr name) ret;
  ret ← set_attr "vnsCIf" "dn" (AStr (parentDn ++ "/cIf-[" ++ name ++ "]")) ret;
  Some ret.

Definition NewVnsRsCIfPathAtt (parentDn pathDn : string) : option ApicObject :=
  ret ← newApicObject "vnsRsCIfPathAtt";
  ret ← set_attr "vnsRsCIfPathAtt" "tDn" (AStr pathDn) ret;
  ret ← set_attr "vnsRsCIfPathAtt" "dn" (AStr (parentDn ++ "/rsCIfPathAtt")) ret;
  Some ret.

Definition NewVnsAbsGraph (tenantName name : string) : option ApicObject :=
  ret ← newApicObject "vnsAbsGraph";
  ret ← set_attr "vnsAbsGraph" "name" (AStr name) ret;
  ret ← set_attr "vnsAbsGraph" "dn" (AStr ("uni/tn-" ++ tenantName ++ "/AbsGraph-" ++ name)) ret;
  Some ret.

Definition NewVnsAbsTermNodeCon (parentDn name : string) : option ApicObject :=
  ret ← newApicObject "vnsAbsTermNodeCon";
  ret ← set_attr "vnsAbsTermNodeCon" "name" (AStr name) ret;
  ret ← set_attr "vnsAbsTermNodeCon" "dn" (AStr (parentDn ++ "/AbsTermNodeCon-" ++ name)) ret;
  Some ret.

Definition NewVnsAbsTermNodeProv (parentDn name : string) : option ApicObject :=
  ret ← newApicObject "vnsAbsTermNodeProv";
  ret ← set_attr "vnsAbsTermNodeProv" "name" (AStr name) ret;
  ret ← set_attr "vnsAbsTermNodeProv" "dn" (AStr (parentDn ++ "/AbsTermNodeProv-" ++ name)) ret;
  Some ret.

Definition NewVnsAbsTermConn (parentDn : string) : option ApicObject :=
  ret ← newApicObject "vnsAbsTermConn";
  ret ← set_attr "vnsAbsTermConn" "dn" (AStr (parentDn ++ "/AbsTConn")) ret;
  Some ret.

Definition NewVnsInTerm (parentDn : string) : option ApicObject :=
  ret ← newApicObject "vnsInTerm";
  ret ← set_attr "vnsInTerm" "dn" (AStr (parentDn ++ "/intmnl")) ret;
  Some ret.

Definition NewVnsOutTerm (parentDn : string) : option ApicObject :=
  ret ← newApicObject "vnsOutTerm";
  ret ← set_attr "vnsOutTerm" "dn" (AStr (parentDn ++ "/outtmnl")) ret;
  Some ret.

Definition NewVnsAbsConnection (parentDn name : string) : option ApicObject :=
  ret ← newApicObject "vnsAbsConnection";
  ret ← set_attr "vnsAbsConnection" "name" (AStr name) ret;
  ret ← set_attr "vnsAbsConnection" "dn" (AStr (parentDn ++ "/AbsConnection-" ++ name)) ret;
  Some ret.

Definition NewVnsRsAbsConnectionConns (parentDn tDn : string) : option ApicObject :=
  ret ← newApicObject "vnsRsAbsConnectionConns";
  ret ← set_attr "vnsRsAbsConnectionConns" "tDn" (AStr tDn) ret;
  ret ← set_attr "vnsRsAbsConnectionConns" "dn" (AStr (parentDn ++ "/rsabsConnectionConns-[" ++ tDn ++ "]")) ret;
  Some ret.

Definition NewVnsAbsNode (parentDn name : string) : option ApicObject :=
  ret ← newApicObject "vnsAbsNode";
  ret ← set_attr "vnsAbsNode" "name" (AStr name) ret;
  ret ← set_attr "vnsAbsNode" "dn" (AStr (parentDn ++ "/AbsNode-" ++ name)) ret;
  Some ret.

Definition NewVnsAbsFuncConn (parentDn name : string) : option ApicObject :=
  ret ← newApicObject "vnsAbsFuncConn";
  ret ← set_attr "vnsAbsFuncConn" "name" (AStr name) ret;
  ret ← set_attr "vnsAbsFuncConn" "dn" (AStr (parentDn ++ "/AbsFConn-" ++ name)) ret;
  Some ret.

Definition NewVnsRsNodeToLDev (parentDn tDn : string) : option ApicObject :=
  ret ← newApicObject "vnsRsNodeToLDev";
  ret ← set_attr "vnsRsNodeToLDev" "tDn" (AStr tDn) ret;
  ret ← set_attr "vnsRsNodeToLDev" "dn" (AStr (parentDn ++ "/rsNodeToLDev")) ret;
  Some ret.

Definition NewVnsSvcRedirectPol (tenantName name : string) : option ApicObject :=
  ret ← newApicObject "vnsSvcRedirectPol";
  ret ← set_attr "vnsSvcRedirectPol" "name" (AStr name) ret;
  ret ← set_attr "vnsSvcRedirectPol" "dn" (AStr ("uni/tn-" ++ tenantName ++ "/svcCont/svcRedirectPol-" ++ name)) ret;
  Some ret.

Definition NewVnsRedirectDest (parentDn ip mac : string) : option ApicObject :=
  ret ← newApicObject "vnsRedirectDest";
  ret ← set_attr "vnsRedirectDest" "ip" (AStr ip) ret;
  ret ← set_attr "vnsRedirectDest" "mac" (AStr mac) ret;
  ret ← set_attr "vnsRedirectDest" "dn" (AStr (parentDn ++ "/RedirectDest_ip-[" ++ ip ++ "]")) ret;
  Some ret.

Definition NewFvIPSLAMonitoringPol (tenantName name : string) : option ApicObject :=
  ret ← newApicObject "fvIPSLAMonitoringPol";
  ret ← set_attr "fvIPSLAMonitoringPol" "name" (AStr name) ret;
  ret ← set_attr "fvIPSLAMonitoringPol" "dn" (AStr ("uni/tn-" ++ tenantName ++ "/ipslaMonitoringPol-" ++ name)) ret;
  Some ret.

Definition NewVnsRsIPSLAMonitoringPol (parentDn tDn : string) : option ApicObject :=
  ret ← newApicObject "vnsRsIPSLAMonitoringPol";
  ret ← set_attr "vnsRsIPSLAMonitoringPol" "tDn" (AStr tDn) ret;
  ret ← set_attr "vnsRsIPSLAMonitoringPol" "dn" (AStr (parentDn ++ "/rsIPSLAMonitoringPol")) ret;
  Some ret.

Definition NewVnsRedirectHealthGroup (tenantName name : string) : option ApicObject :=
  ret ← newApicObject "vnsRedirectHealthGroup";
  ret ← set_attr "vnsRedirectHealthGroup" "name" (AStr name) ret;
  ret ← set_attr "vnsRedirectHealthGroup" "dn" (AStr ("uni/tn-" ++ tenantName ++ "/svcCont/redirectHealthGroup-" ++ name)) ret;
  Some ret.

Definition NewVnsRsRedirectHealthGroup (parentDn tDn : string) : option ApicObject :=
  ret ← newApicObject "vnsRsRedirectHealthGroup";
  ret ← set_attr "vnsRsRedirectHealthGroup" "tDn" (AStr tDn) ret;
  ret ← set_attr "vnsRsRedirectHealthGroup" "dn" (AStr (parentDn ++ "/rsRedirectHealthGroup")) ret;
  Some ret.

Definition NewVnsLDevCtx (tenantName ctrctNameOrLbl graphNameOrLbl nodeNameOrLbl : string) : option ApicObject :=
  ret ← newApicObject "vnsLDevCtx";
  ret ← set_attr "vnsLDevCtx" "ctrctNameOrLbl" (AStr ctrctNameOrLbl) ret;
  ret ← set_attr "vnsLDevCtx" "graphNameOrLbl" (AStr graphNameOrLbl) ret;
  ret ← set_attr "vnsLDevCtx" "nodeNameOrLbl" (AStr nodeNameOrLbl) ret;
  ret ← set_attr "vnsLDevCtx" "dn" (AStr ("uni/tn-" ++ tenantName ++ "/ldevCtx-c-" ++ ctrctNameOrLbl ++ "-g-" ++ graphNameOrLbl ++ "-n-" ++ nodeNameOrLbl)) ret;
  Some ret.

Definition NewVnsRsLDevCtxToLDev (parentDn tDn : string) : option ApicObject :=
  ret ← newApicObject "vnsRsLDevCtxToLDev";
  ret ← set_attr "vnsRsLDevCtxToLDev" "tDn" (AStr tDn) ret;
  ret ← set_attr "vnsRsLDevCtxToLDev" "dn" (AStr (parentDn ++ "/rsLDevCtxToLDev")) ret;
  Some ret.

Definition NewVnsLIfCtx (parentDn connNameOrLbl : string) : option ApicObject :=
  ret ← newApicObject "vnsLIfCtx";
  ret ← set_attr "vnsLIfCtx" "connNameOrLbl" (AStr connNameOrLbl) ret;
  ret ← set_attr "vnsLIfCtx" "dn" (AStr (parentDn ++ "/lIfCtx-c-" ++ connNameOrLbl)) ret;
  Some ret.

Definition NewVnsRsLIfCtxToSvcRedirectPol (parentDn tDn : string) : option ApicObject :=
  ret ← newApicObject "vnsRsLIfCtxToSvcRedirectPol";
  ret ← set_attr "vnsRsLIfCtxToSvcRedirectPol" "tDn" (AStr tDn) ret;
  ret ← set_attr "vnsRsLIfCtxToSvcRedirectPol" "dn" (AStr (parentDn ++ "/rsLIfCtxToSvcRedirectPol")) ret;
  Some ret.

Definition NewVnsRsLIfCtxToBD (parentDn tDn : string) : option ApicObject :=
  ret ← newApicObject "vnsRsLIfCtxToBD";
  ret ← set_attr "vnsRsLIfCtxToBD" "tDn" (AStr tDn) ret;
  ret ← set_attr "vnsRsLIfCtxToBD" "dn" (AStr (parentDn ++ "/rsLIfCtxToBD")) ret;
  Some ret.

Definition NewVnsRsLIfCtxToLIf (parentDn tDn : string) : option ApicObject :=
  ret ← newApicObject "vnsRsLIfCtxToLIf";
  ret ← set_attr "vnsRsLIfCtxToLIf" "tDn" (AStr tDn) ret;
  ret ← set_attr "vnsRsLIfCtxToLIf" "dn" (AStr (parentDn ++ "/rsLIfCtxToLIf")) ret;
  Some ret.

Definition NewVzBrCP (tenantName name : string) : option ApicObject :=
  ret ← newApicObject "vzBrCP";
  ret ← set_attr "vzBrCP" "name" (AStr name) ret;
  ret ← set_attr "vzBrCP" "dn" (AStr ("uni/tn-" ++ tenantName ++ "/brc-" ++ name)) ret;
  Some ret.

Definition NewVzSubj (parentDn name : string) : option ApicObject :=
  ret ← newApicObject "vzSubj";
  ret ← set_attr "vzSubj" "name" (AStr name) ret;
  ret ← set_attr "vzSubj" "dn" (AStr (parentDn ++ "/subj-" ++ name)) ret;
  Some ret.

Definition NewVzInTerm (parentDn : string) : option ApicObject :=
  ret ← newApicObject "vzInTerm";
  ret ← set_attr "vzInTerm" "dn" (AStr (parentDn ++ "/intmnl")) ret;
  Some ret.

Definition NewVzOutTerm (parentDn : string) : option ApicObject :=
  ret ← newApicObject "vzOutTerm";
  ret ← set_attr "vzOutTerm" "dn" (AStr (parentDn ++ "/outtmnl")) ret;
  Some ret.

Definition NewVzRsFiltAtt (parentDn tnVzFilterName : string) : option ApicObject :=
  ret ← newApicObject "vzRsFiltAtt";
  ret ← set_attr "vzRsFiltAtt" "tnVzFilterName" (AStr tnVzFilterName) ret;
  ret ← set_attr "vzRsFiltAtt" "dn" (AStr (parentDn ++ "/rsfiltAtt-" ++ tnVzFilterName)) ret;
  Some ret.

Definition NewVzRsInTermGraphAtt (parentDn tnVnsAbsGraphName : string) : option ApicObject :=
  ret ← newApicObject "vzRsInTermGraphAtt";
  ret ← set_attr "vzRsInTermGraphAtt" "tnVnsAbsGraphName" (AStr tnVnsAbsGraphName) ret;
  ret ← set_attr "vzRsInTermGraphAtt" "dn" (AStr (parentDn ++ "/rsInTermGraphAtt")) ret;
  Some ret.

Definition NewVzRsOutTermGraphAtt (parentDn tnVnsAbsGraphName : string) : option ApicObject :=
  ret ← newApicObject "vzRsOutTermGraphAtt";
  ret ← set_attr "vzRsOutTermGraphAtt" "tnVnsAbsGraphName" (AStr tnVnsAbsGraphName) ret;
  ret ← set_attr "vzRsOutTermGraphAtt" "dn" (AStr (parentDn ++ "/rsOutTermGraphAtt")) ret;
  Some ret.

Definition NewVzRsSubjFiltAtt (parentDn tnVzFilterName : string) : option ApicObject :=
  ret ← newApicObject "vzRsSubjFiltAtt";
  ret ← set_attr "vzRsSubjFiltAtt" "tnVzFilterName" (AStr tnVzFilterName) ret;
  ret ← set_attr "vzRsSubjFiltAtt" "dn" (AStr (parentDn ++ "/rssubjFiltAtt-" ++ tnVzFilterName)) ret;
  Some ret.

Definition NewVzRsSubjGraphAtt (parentDn tnVnsAbsGraphName : string) (customSG : bool) : option ApicObject :=
  ret ← newApicObject "vzRsSubjGraphAtt";
  ret ← set_attr "vzRsSubjGraphAtt" "tnVnsAbsGraphName" (AStr tnVnsAbsGraphName) ret;
  ret ← (if customSG then set_attr "vzRsSubjGraphAtt" "customSG" (AStr "true") ret else Some ret);
  ret ← set_attr "vzRsSubjGraphAtt" "dn" (AStr (parentDn ++ "/rsSubjGraphAtt")) ret;
  Some ret.

Definition NewVzFilter (tenantName name : string) : option ApicObject :=
  ret ← newApicObject "vzFilter";
  ret ← set_attr "vzFilter" "name" (AStr name) ret;
  ret ← set_attr "vzFilter" "dn" (AStr ("uni/tn-" ++ tenantName ++ "/flt-" ++ name)) ret;
  Some ret.

Definition NewVzEntry (parentDn name : string) : option ApicObject :=
  ret ← newApicObject "vzEntry";
  ret ← set_attr "vzEntry" "name" (AStr name) ret;
  ret ← set_attr "vzEntry" "dn" (AStr (parentDn ++ "/e-" ++ name)) ret;
  Some ret.

Definition NewL3extInstP (tenantName outName name : string) : option ApicObject :=
  ret ← newApicObject "l3extInstP";
  ret ← set_attr "l3extInstP" "name" (AStr name) ret;
  ret ← set_attr "l3extInstP" "dn" (AStr ("uni/tn-" ++ tenantName ++ "/out-" ++ outName ++ "/instP-" ++ name)) ret;
  Some ret.

Definition NewL3extSubnet (parentDn ip : string) : option ApicObject :=
  ret ← newApicObject "l3extSubnet";
  ret ← set_attr "l3extSubnet" "ip" (AStr ip) ret;
  ret ← set_attr "l3extSubnet" "dn" (AStr (parentDn ++ "/extsubnet-[" ++ ip ++ "]")) ret;
  Some ret.

Definition NewFvRsProv (parentDn tnVzBrCPName : string) : option ApicObject :=
  ret ← newApicObject "fvRsProv";
  ret ← set_attr "fvRsProv" "tnVzBrCPName" (AStr tnVzBrCPName) ret;
  ret ← set_attr "fvRsProv" "dn" (AStr (parentDn ++ "/rsprov-" ++ tnVzBrCPName)) ret;
  Some ret.

Definition NewFvRsCons (parentDn tnVzBrCPName : string) : option ApicObject :=
  ret ← newApicObject "fvRsCons";
  ret ← set_attr "fvRsCons" "tnVzBrCPName" (AStr tnVzBrCPName) ret;
  ret ← set_attr "fvRsCons" "dn" (AStr (parentDn ++ "/rscons-" ++ tnVzBrCPName)) ret;
  Some ret.

Definition NewVmmInjectedContGrp (vendor domain controller namespace name : string) : option ApicObject :=
  ret ← newApicObject "vmmInjectedContGrp";
  ret ← set_attr "vmmInjectedContGrp" "name" (AStr name) ret;
  ret ← set_attr "vmmInjectedContGrp" "nameAlias" (AStr (truncatedName name)) ret;
  ret ← set_attr "vmmInjectedContGrp" "dn" (AStr ("comp/prov-" ++ vendor ++ "/ctrlr-[" ++ domain ++ "]-" ++ controller ++ "/injcont/ns-[" ++ namespace ++ "]/grp-[" ++ name ++ "]")) ret;
  Some ret.

Definition NewVmmInjectedDepl (vendor domain controller namespace name : string) : option ApicObject :=
  ret ← newApicObject "vmmInjectedDepl";
  ret ← set_attr "vmmInjectedDepl" "name" (AStr name) ret;
  ret ← set_attr "vmmInjectedDepl" "nameAlias" (AStr (truncatedName name)) ret;
  ret ← set_attr "vmmInjectedDepl" "dn" (AStr ("comp/prov-" ++ vendor ++ "/ctrlr-[" ++ domain ++ "]-" ++ controller ++ "/injcont/ns-[" ++ namespace ++ "]/depl-[" ++ name ++ "]")) ret;
  Some ret.

Definition NewVmmInjectedReplSet (vendor domain controller namespace name : string) : option ApicObject :=
  ret ← newApicObject "vmmInjectedReplSet";
  ret ← set_attr "vmmInjectedReplSet" "name" (AStr name) ret;
  ret ← set_attr "vmmInjectedReplSet" "nameAlias" (AStr (truncatedName name)) ret;
  ret ← set_attr "vmmInjectedReplSet" "dn" (AStr ("comp/prov-" ++ vendor ++ "/ctrlr-[" ++ domain ++ "]-" ++ controller ++ "/injcont/ns-[" ++ namespace ++ "]/rs-[" ++ name ++ "]")) ret;
  Some ret.

Definition NewVmmInjectedSvc (vendor domain controller namespace name : string) : option ApicObject :=
  ret ← newApicObject "vmmInjectedSvc";
  ret ← set_attr "vmmInjectedSvc" "name" (AStr name) ret;
  ret ← set_attr "vmmInjectedSvc" "nameAlias" (AStr (truncatedName name)) ret;
  ret ← set_attr "vmmInjectedSvc" "dn" (AStr ("comp/prov-" ++ vendor ++ "/ctrlr-[" ++ domain ++ "]-" ++ controller ++ "/injcont/ns-[" ++ namespace ++ "]/svc-[" ++ name ++ "]")) ret;
  Some ret.

Definition NewVmmInjectedSvcEp (parentDn contGrpName : string) : option ApicObject :=
  ret ← newApicObject "vmmInjectedSvcEp";
  ret ← set_attr "vmmInjectedSvcEp" "contGrpName" (AStr contGrpName) ret;
  ret ← set_attr "vmmInjectedSvcEp" "dn" (AStr (parentDn ++ "/ep-" ++ contGrpName)) ret;
  Some ret.

Definition NewVmmInjectedSvcPort (parentDn port protocol targetPort : string) : option ApicObject :=
  ret ← newApicObject "vmmInjectedSvcPort";
  let port := normalizePort port in
  let targetPort := normalizePort targetPort in
  let protocol := normalizeProto protocol in
  ret ← set_attr "vmmInjectedSvcPort" "port" (AStr port) ret;
  ret ← set_attr "vmmInjectedSvcPort" "protocol" (AStr protocol) ret;
  ret ← set_attr "vmmInjectedSvcPort" "targetPort" (AStr targetPort) ret;
  ret ← set_attr "vmmInjectedSvcPort" "dn" (AStr (parentDn ++ "/p-" ++ port ++ "-prot-" ++ protocol ++ "-t-" ++ targetPort)) ret;
  Some ret.

Definition NewVmmInjectedHost (vendor domain controller name : string) : option ApicObject :=
  ret ← newApicObject "vmmInjectedHost";
  ret ← set_attr "vmmInjectedHost" "name" (AStr name) ret;
  ret ← set_attr "vmmInjectedHost" "nameAlias" (AStr (truncatedName name)) ret;
  ret ← set_attr "vmmInjectedHost" "dn" (AStr ("comp/prov-" ++ vendor ++ "/ctrlr-[" ++ domain ++ "]-" ++ controller ++ "/injcont/host-[" ++ name ++ "]")) ret;
  Some ret.

Definition NewVmmInjectedNs (vendor domain controller name : string) : option ApicObject :=
  ret ← newApicObject "vmmInjectedNs";
  ret ← set_attr "vmmInjectedNs" "name" (AStr name) ret;
  ret ← set_attr "vmmInjectedNs" "nameAlias" (AStr (truncatedName name)) ret;
  ret ← set_attr "vmmInjectedNs" "dn" (AStr ("comp/prov-" ++ vendor ++ "/ctrlr-[" ++ domain ++ "]-" ++ controller ++ "/injcont/ns-[" ++ name ++ "]")) ret;
  Some ret.

Definition NewVmmInjectedNwPol (vendor domain controller ns name : string) : option ApicObject :=
  ret ← newApicObject "vmmInjectedNwPol";
  ret ← set_attr "vmmInjectedNwPol" "name" (AStr name) ret;
  ret ← set_attr "vmmInjectedNwPol" "nameAlias" (AStr (truncatedName name)) ret;
  ret ← set_attr "vmmInjectedNwPol" "dn" (AStr ("comp/prov-" ++ vendor ++ "/ctrlr-[" ++ domain ++ "]-" ++ controller ++ "/injcont/ns-[" ++ ns ++ "]/nwpol-[" ++ name ++ "]")) ret;
  Some ret.

Definition NewVmmInjectedOrg (vendor domain controller name : string) : option ApicObject :=
  ret ← newApicObject "vmmInjectedOrg";
  ret ← set_attr "vmmInjectedOrg" "name" (AStr name) ret;
  ret ← set_attr "vmmInjectedOrg" "nameAlias" (AStr (truncatedName name)) ret;
  ret ← set_attr "vmmInjectedOrg" "dn" (AStr ("comp/prov-" ++ vendor ++ "/ctrlr-[" ++ domain ++ "]-" ++ controller ++ "/injcont/org-[" ++ name ++ "]")) ret;
  Some ret.

Definition NewVmmInjectedOrgUnit (vendor domain controller org name : string) : option ApicObject :=
  ret ← newApicObject "vmmInjectedOrgUnit";
  ret ← set_attr "vmmInjectedOrgUnit" "name" (AStr name) ret;
  ret ← set_attr "vmmInjectedOrgUnit" "nameAlias" (AStr (truncatedName name)) ret;
  ret ← set_attr "vmmInjectedOrgUnit" "dn" (AStr ("comp/prov-" ++ vendor ++ "/ctrlr-[" ++ domain ++ "]-" ++ controller ++ "/injcont/org-[" ++ org ++ "]/unit-[" ++ name ++ "]")) ret;
  Some ret.

Definition NewVmmInjectedOrgUnitContGrp (vendor domain controller org unit name : string) : option ApicObject :=
  ret ← newApicObject "vmmInjectedContGrp";
  ret ← set_attr "vmmInjectedContGrp" "name" (AStr name) ret;
  ret ← set_attr "vmmInjectedContGrp" "nameAlias" (AStr (truncatedName name)) ret;
  ret ← set_attr "vmmInjectedContGrp" "dn" (AStr ("comp/prov-" ++ vendor ++ "/ctrlr-[" ++ domain ++ "]-" ++ controller ++ "/injcont/org-[" ++ org ++ "]/unit-[" ++ unit ++ "]/grp-[" ++ name ++ "]")) ret;
  Some ret.

Definition NewVmmInjectedOrgUnitDepl (vendor domain controller org unit name : string) : option ApicObject :=
  ret ← newApicObject "vmmInjectedDepl";
  ret ← set_attr "vmmInjectedDepl" "name" (AStr name) ret;
  ret ← set_attr "vmmInjectedDepl" "nameAlias" (AStr (truncatedName name)) ret;
  ret ← set_attr "vmmInjectedDepl" "dn" (AStr ("comp/prov-" ++ vendor ++ "/ctrlr-[" ++ domain ++ "]-" ++ controller ++ "/injcont/org-[" ++ org ++ "]/unit-[" ++ unit ++ "]/depl-[" ++ name ++ "]")) ret;
  Some ret.

Definition NewInfra (parentDn : string) : option ApicObject :=
  ret ← newApicObject "infraInfra";
  ret ← set_attr "infraInfra" "dn" (AStr (parentDn ++ "/infra")) ret;
  Some ret.

Definition NewNetflowVmmExporterPol (name : string) : option ApicObject :=
  ret ← newApicObject "netflowVmmExporterPol";
  ret ← set_attr "netflowVmmExporterPol" "name" (AStr name) ret;
  ret ← set_attr "netflowVmmExporterPol" "nameAlias" (AStr (truncatedName name)) ret;
  ret ← set_attr "netflowVmmExporterPol" "dn" (AStr ("uni/infra/vmmexporterpol-" ++ name)) ret;
  Some ret.

Definition NewVmmVSwitchPolicyCont (domainType domainName : string) : option ApicObject :=
  ret ← newApicObject "vmmVSwitchPolicyCont";
  ret ← set_attr "vmmVSwitchPolicyCont" "dn" (AStr ("uni/vmmp-" ++ domainType ++ "/dom-" ++ domainName ++ "/vswitchpolcont")) ret;
  Some ret.

Definition NewVmmRsVswitchExporterPol (parentDn tDn : string) : option ApicObject :=
  ret ← newApicObject "vmmRsVswitchExporterPol";
  ret ← set_attr "vmmRsVswitchExporterPol" "tDn" (AStr tDn) ret;
  ret ← set_attr "vmmRsVswitchExporterPol" "dn" (AStr (parentDn ++ "/rsvswitchExporterPol-[" ++ tDn ++ "]")) ret;
  Some ret.

Definition NewSpanVSrcGrp (name : string) : option ApicObject :=
  ret ← newApicObject "spanVSrcGrp";
  ret ← set_attr "spanVSrcGrp" "name" (AStr name) ret;
  ret ← set_attr "spanVSrcGrp" "nameAlias" (AStr (truncatedName name)) ret;
  ret ← set_attr "spanVSrcGrp" "dn" (AStr ("uni/infra/vsrcgrp-" ++ name)) ret;
  Some ret.

Definition NewSpanVSrc (vSourceGroup name : string) : option ApicObject :=
  ret ← newApicObject "spanVSrc";
  ret ← set_attr "spanVSrc" "name" (AStr name) ret;
  ret ← set_attr "spanVSrc" "nameAlias" (AStr (truncatedName name)) ret;
  ret ← set_attr "spanVSrc" "dn" (AStr (vSourceGroup ++ "/vsrc-" ++ name)) ret;
  Some ret.

Definition NewSpanRsSrcToVPort (parentDn tDn : string) : option ApicObject :=
  ret ← newApicObject "spanRsSrcToVPort";
  ret ← set_attr "spanRsSrcToVPort" "tDn" (AStr tDn) ret;
  ret ← set_attr "spanRsSrcToVPort" "dn" (AStr (parentDn ++ "/rssrcToVPort-[" ++ tDn ++ "]")) ret;
  Some ret.

Definition NewSpanVDestGrp (name : string) : option ApicObject :=
  ret ← newApicObject "spanVDestGrp";
  ret ← set_attr "spanVDestGrp" "name" (AStr name) ret;
  ret ← set_attr "spanVDestGrp" "nameAlias" (AStr (truncatedName name)) ret;
  ret ← set_attr "spanVDestGrp" "dn" (AStr ("uni/infra/vdestgrp-" ++ name)) ret;
  Some ret.

Definition NewSpanVDest (vDestGroup name : string) : option ApicObject :=
  ret ← newApicObject "spanVDest";
  ret ← set_attr "spanVDest" "name" (AStr name) ret;
  ret ← set_attr "spanVDest" "nameAlias" (AStr (truncatedName name)) ret;
  ret ← set_attr "spanVDest" "dn" (AStr (vDestGroup ++ "/vdest-" ++ name)) ret;
  Some ret.

Definition NewSpanVEpgSummary (parentDn : string) : option ApicObject :=
  ret ← newApicObject "spanVEpgSummary";
  ret ← set_attr "spanVEpgSummary" "dn" (AStr (parentDn ++ "/vepgsummary")) ret;
  Some ret.

Definition NewSpanSpanLbl (vSourceGroup name : string) : option ApicObject :=
  ret ← newApicObject "spanSpanLbl";
  ret ← set_attr "spanSpanLbl" "name" (AStr name) ret;
  ret ← set_attr "spanSpanLbl" "nameAlias" (AStr (truncatedName name)) ret;
  ret ← set_attr "spanSpanLbl" "dn" (AStr (vSourceGroup ++ "/spanlbl-" ++ name)) ret;
  Some ret.

Definition NewInfraAccBndlGrp (name : string) : option ApicObject :=
  ret ← newApicObject "infraAccBndlGrp";
  ret ← set_attr "infraAccBndlGrp" "name" (AStr name) ret;
  ret ← set_attr "infraAccBndlGrp" "nameAlias" (AStr (truncatedName name)) ret;
  ret ← set_attr "infraAccBndlGrp" "dn" (AStr ("uni/infra/funcprof/accbundle-" ++ name)) ret;
  Some ret.

Definition NewInfraAccPortGrp (name : string) : option ApicObject :=
  ret ← newApicObject "infraAccPortGrp";
  ret ← set_attr "infraAccPortGrp" "name" (AStr name) ret;
  ret ← set_attr "infraAccPortGrp" "nameAlias" (AStr (truncatedName name)) ret;
  ret ← set_attr "infraAccPortGrp" "dn" (AStr ("uni/infra/funcprof/accportgrp-" ++ name)) ret;
  Some ret.

Definition NewInfraRsSpanVSrcGrp (accBndlGrpName tnSpanVSrcGrpName : string) : option ApicObject :=
  ret ← newApicObject "infraRsSpanVSrcGrp";
  ret ← set_attr "infraRsSpanVSrcGrp" "tnSpanVSrcGrpName" (AStr tnSpanVSrcGrpName) ret;
  ret ← set_attr "infraRsSpanVSrcGrp" "dn" (AStr ("uni/infra/funcprof/accbundle-" ++ accBndlGrpName ++ "/rsspanVSrcGrp-" ++ tnSpanVSrcGrpName)) ret;
  Some ret.

Definition NewInfraRsSpanVDestGrp (accBndlGrpName tnSpanVDestGrpName : string) : option ApicObject :=
  ret ← newApicObject "infraRsSpanVDestGrp";
  ret ← set_attr "infraRsSpanVDestGrp" "tnSpanVDestGrpName" (AStr tnSpanVDestGrpName) ret;
  ret ← set_attr "infraRsSpanVDestGrp" "dn" (AStr ("uni/infra/funcprof/accbundle-" ++ accBndlGrpName ++ "/rsspanVDestGrp-" ++ tnSpanVDestGrpName)) ret;
  Some ret.

Definition NewInfraRsSpanVSrcGrpAP (accPortGrpName tnSpanVSrcGrpName : string) : option ApicObject :=
  ret ← newApicObject "infraRsSpanVSrcGrp";
  ret ← set_attr "infraRsSpanVSrcGrp" "tnSpanVSrcGrpName" (AStr tnSpanVSrcGrpName) ret;
  ret ← set_attr "infraRsSpanVSrcGrp" "dn" (AStr ("uni/infra/funcprof/accportgrp-" ++ accPortGrpName ++ "/rsspanVSrcGrp-" ++ tnSpanVSrcGrpName)) ret;
  Some ret.

Definition NewInfraRsSpanVDestGrpAP (accPortGrpName tnSpanVDestGrpName : string) : option ApicObject :=
  ret ← newApicObject "infraRsSpanVDestGrp";
  ret ← set_attr "infraRsSpanVDestGrp" "tnSpanVDestGrpName" (AStr tnSpanVDestGrpName) ret;
  ret ← set_attr "infraRsSpanVDestGrp" "dn" (AStr ("uni/infra/funcprof/accportgrp-" ++ accPortGrpName ++ "/rsspanVDestGrp-" ++ tnSpanVDestGrpName)) ret;
  Some ret.

Definition NewVmmInjectedClusterInfo (vendor domain controller : string) : option ApicObject :=
  ret ← newApicObject "vmmInjectedClusterInfo";
  ret ← set_attr "vmmInjectedClusterInfo" "dn" (AStr ("comp/prov-" ++ vendor ++ "/ctrlr-[" ++ domain ++ "]-" ++ controller ++ "/injcont/info")) ret;
  Some ret.

Definition NewVmmClusterFaultInfo (parentDn faultCode : string) : option ApicObject :=
  ret ← newApicObject "vmmClusterFaultInfo";
  ret ← set_attr "vmmClusterFaultInfo" "dn" (AStr (parentDn ++ "/clusterfaultinfo-" ++ faultCode)) ret;
  Some ret.

Definition NewVmmInjectedLabel (parentDn name value : string) : option ApicObject :=
  let name := if String.eqb name EmptyString then " " else name in
  let value := if String.eqb value EmptyString then " " else value in
  ret ← newApicObject "vmmInjectedLabel";
  ret ← set_attr "vmmInjectedLabel" "name" (AStr name) ret;
  ret ← set_attr "vmmInjectedLabel" "value" (AStr value) ret;
  ret ← set_attr "vmmInjectedLabel" "dn" (AStr (parentDn ++ "/key-[" ++ name ++ "]-val-" ++ value)) ret;
  Some ret.

(** ** Every constructor builds an object of its class *)

(** An object of class [cl] that has no children yet and carries a value for
    each attribute that the class declares. *)
Definition fresh (cl : string) (o : ApicObject) : Prop :=
  class o = cl ∧ Children o = [] ∧
  ∃ md, metadata !! cl = Some md ∧
        Forall (λ kd, is_Some (Attributes o !! kd.1)) (attributes md).

Definition builds (cl : string) (r : option ApicObject) : Prop :=
  ∃ o, r = Some o ∧ fresh cl o.

(** The calls of all the constructors, with the class each is for. *)
Definition all_constructors (a b c d e f : string) (flag : bool)
  : list (string * option ApicObject) :=
  [("fvTenant", NewFvTenant a);
   ("cloudAwsProvider", NewCloudAwsProvider a b c);
   ("cloudCtxProfile", NewCloudCtxProfile a b);
   ("cloudRsToCtx", NewCloudRsToCtx a b);
   ("cloudRsCtxProfileToRegion", NewCloudRsCtxProfileToRegion a b);
   ("cloudCidr", NewCloudCidr a b);
   ("cloudSubnet", NewCloudSubnet a b);
   ("fvCtx", NewFvCtx a b);
   ("fvnsEncapBlk", NewFvnsEncapBlk a b c);
   ("fvnsVlanInstP", NewFvnsVlanInstP a b);
   ("physDomP", NewPhysDomP a);
   ("infraRsDomP", NewInfraRsDomP a b);
   ("infraRsVlanNs", NewInfraRsVlanNs a b);
   ("fvRsDomAtt", NewFvRsDomAttPhysDom a b);
   ("fvAp", NewFvAP a);
   ("fvAEPg", NewFvAEPg a b c);
   ("infraGeneric", NewInfraGeneric a);
   ("infraRsFuncToEpg", NewInfraRsFuncToEpg a b c d);
   ("fvRsBd", NewFvRsBD a b);
   ("fvRsPathAtt", NewFvRsPathAtt a b c);
   ("fvBD", NewFvBD a b);
   ("fvRsCtx", NewFvRsCtx a b);
   ("cloudApp", NewCloudApp a b);
   ("cloudEPg", NewCloudEpg a b c);
   ("fvSubnet", NewFvSubnet a b);
   ("fvRsCtx", NewRsCtx a b);
   ("fvRsBDToOut", NewRsBdToOut a b);
   ("tagInst", NewTagInst a b);
   ("hostprotPol", NewHostprotPol a b);
   ("hostprotSubj", NewHostprotSubj a b);
   ("hostprotRule", NewHostprotRule a b);
   ("hostprotRemoteIp", NewHostprotRemoteIp a b);
   ("qosDppPol", NewQosDppPol a b);
   ("qosRequirement", NewQosRequirement a b);
   ("qosRsEgressDppPol", NewRsEgressDppPol a b);
   ("qosRsIngressDppPol", NewRsIngressDppPol a b);
   ("qosEpDscpMarking", NewQosEpDscpMarking a b);
   ("vnsLDevVip", NewVnsLDevVip a b);
   ("vnsRsALDevToPhysDomP", NewVnsRsALDevToPhysDomP a b);
   ("vnsLIf", NewVnsLIf a b);
   ("vnsRsCIfAttN", NewVnsRsCIfAttN a b);
   ("vnsCDev", NewVnsCDev a b);
   ("vnsCIf", NewVnsCif a b);
   ("vnsRsCIfPathAtt", NewVnsRsCIfPathAtt a b);
   ("vnsAbsGraph", NewVnsAbsGraph a b);
   ("vnsAbsTermNodeCon", NewVnsAbsTermNodeCon a b);
   ("vnsAbsTermNodeProv", NewVnsAbsTermNodeProv a b);
   ("vnsAbsTermConn", NewVnsAbsTermConn a);
   ("vnsInTerm", NewVnsInTerm a);
   ("vnsOutTerm", NewVnsOutTerm a);
   ("vnsAbsConnection", NewVnsAbsConnection a b);
   ("vnsRsAbsConnectionConns", NewVnsRsAbsConnectionConns a b);
   ("vnsAbsNode", NewVnsAbsNode a b);
   ("vnsAbsFuncConn", NewVnsAbsFuncConn a b);
   ("vnsRsNodeToLDev", NewVnsRsNodeToLDev a b);
   ("vnsSvcRedirectPol", NewVnsSvcRedirectPol a b);
   ("vnsRedirectDest", NewVnsRedirectDest a b c);
   ("fvIPSLAMonitoringPol", NewFvIPSLAMonitoringPol a b);
   ("vnsRsIPSLAMonitoringPol", NewVnsRsIPSLAMonitoringPol a b);
   ("vnsRedirectHealthGroup", NewVnsRedirectHealthGroup a b);
   ("vnsRsRedirectHealthGroup", NewVnsRsRedirectHealthGroup a b);
   ("vnsLDevCtx", NewVnsLDevCtx a b c d);
   ("vnsRsLDevCtxToLDev", NewVnsRsLDevCtxToLDev a b);
   ("vnsLIfCtx", NewVnsLIfCtx a b);
   ("vnsRsLIfCtxToSvcRedirectPol", NewVnsRsLIfCtxToSvcRedirectPol a b);
   ("vnsRsLIfCtxToBD", NewVnsRsLIfCtxToBD a b);
   ("vnsRsLIfCtxToLIf", NewVnsRsLIfCtxToLIf a b);
   ("vzBrCP", NewVzBrCP a b);
   ("vzSubj", NewVzSubj a b);
   ("vzInTerm", NewVzInTerm a);
   ("vzOutTerm", NewVzOutTerm a);
   ("vzRsFiltAtt", NewVzRsFiltAtt a b);
   ("vzRsInTermGraphAtt", NewVzRsInTermGraphAtt a b);
   ("vzRsOutTermGraphAtt", NewVzRsOutTermGraphAtt a b);
   ("vzRsSubjFiltAtt", NewVzRsSubjFiltAtt a b);
   ("vzRsSubjGraphAtt", NewVzRsSubjGraphAtt a b flag);
   ("vzFilter", NewVzFilter a b);
   ("vzEntry", NewVzEntry a b);
   ("l3extInstP", NewL3extInstP a b c);
   ("l3extSubnet", NewL3extSubnet a b);
   ("fvRsProv", NewFvRsProv a b);
   ("fvRsCons", NewFvRsCons a b);
   ("vmmInjectedContGrp", NewVmmInjectedContGrp a b c d e);
   ("vmmInjectedDepl", NewVmmInjectedDepl a b c d e);
   ("vmmInjectedReplSet", NewVmmInjectedReplSet a b c d e);
   ("vmmInjectedSvc", NewVmmInjectedSvc a b c d e);
   ("vmmInjectedSvcEp", NewVmmInjectedSvcEp a b);
   ("vmmInjectedSvcPort", NewVmmInjectedSvcPort a b c d);
   ("vmmInjectedHost", NewVmmInjectedHost a b c d);
   ("vmmInjectedNs", NewVmmInjectedNs a b c d);
   ("vmmInjectedNwPol", NewVmmInjectedNwPol a b c d e);
   ("vmmInjectedOrg", NewVmmInjectedOrg a b c d);
   ("vmmInjectedOrgUnit", NewVmmInjectedOrgUnit a b c d e);
   ("vmmInjectedContGrp", NewVmmInjectedOrgUnitContGrp a b c d e f);
   ("vmmInjectedDepl", NewVmmInjectedOrgUnitDepl a b c d e f);
   ("infraInfra", NewInfra a);
   ("netflowVmmExporterPol", NewNetflowVmmExporterPol a);
   ("vmmVSwitchPolicyCont", NewVmmVSwitchPolicyCont a b);
   ("vmmRsVswitchExporterPol", NewVmmRsVswitchExporterPol a b);
   ("spanVSrcGrp", NewSpanVSrcGrp a);
   ("spanVSrc", NewSpanVSrc a b);
   ("spanRsSrcToVPort", NewSpanRsSrcToVPort a b);
   ("spanVDestGrp", NewSpanVDestGrp a);
   ("spanVDest", NewSpanVDest a b);
   ("spanVEpgSummary", NewSpanVEpgSummary a);
   ("spanSpanLbl", NewSpanSpanLbl a b);
   ("infraAccBndlGrp", NewInfraAccBndlGrp a);
   ("infraAccPortGrp", NewInfraAccPortGrp a);
   ("infraRsSpanVSrcGrp", NewInfraRsSpanVSrcGrp a b);
   ("infraRsSpanVDestGrp", NewInfraRsSpanVDestGrp a b);
   ("infraRsSpanVSrcGrp", NewInfraRsSpanVSrcGrpAP a b);
   ("infraRsSpanVDestGrp", NewInfraRsSpanVDestGrpAP a b);
   ("vmmInjectedClusterInfo", NewVmmInjectedClusterInfo a b c);
   ("vmmClusterFaultInfo", NewVmmClusterFaultInfo a b);
   ("vmmInjectedLabel", NewVmmInjectedLabel a b c)].

(** The constructors that take the DN of the parent. *)
Definition child_constructors (b c d : string) (flag : bool)
  : list (string → option ApicObject) :=
  [λ p, NewCloudRsToCtx p b;
   λ p, NewCloudRsCtxProfileToRegion p b;
   λ p, NewCloudCidr p b;
   λ p, NewCloudSubnet p b;
   λ p, NewFvnsEncapBlk p b c;
   λ p, NewInfraRsDomP p b;
   λ p, NewInfraRsVlanNs p b;
   λ p, NewFvRsDomAttPhysDom p b;
   λ p, NewInfraRsFuncToEpg p b c d;
   λ p, NewFvRsBD p b;
   λ p, NewFvRsPathAtt p b c;
   λ p, NewFvRsCtx p b;
   λ p, NewFvSubnet p b;
   λ p, NewRsCtx p b;
   λ p, NewRsBdToOut p b;
   λ p, NewTagInst p b;
   λ p, NewHostprotSubj p b;
   λ p, NewHostprotRule p b;
   λ p, NewHostprotRemoteIp p b;
   λ p, NewRsEgressDppPol p b;
   λ p, NewRsIngressDppPol p b;
   λ p, NewQosEpDscpMarking p b;
   λ p, NewVnsRsALDevToPhysDomP p b;
   λ p, NewVnsLIf p b;
   λ p, NewVnsRsCIfAttN p b;
   λ p, NewVnsCDev p b;
   λ p, NewVnsCif p b;
   λ p, NewVnsRsCIfPathAtt p b;
   λ p, NewVnsAbsTermNodeCon p b;
   λ p, NewVnsAbsTermNodeProv p b;
   λ p, NewVnsAbsTermConn p;
   λ p, NewVnsInTerm p;
   λ p, NewVnsOutTerm p;
   λ p, NewVnsAbsConnection p b;
   λ p, NewVnsRsAbsConnectionConns p b;
   λ p, NewVnsAbsNode p b;
   λ p, NewVnsAbsFuncConn p b;
   λ p, NewVnsRsNodeToLDev p b;
   λ p, NewVnsRedirectDest p b c;
   λ p, NewVnsRsIPSLAMonitoringPol p b;
   λ p, NewVnsRsRedirectHealthGroup p b;
   λ p, NewVnsRsLDevCtxToLDev p b;
   λ p, NewVnsLIfCtx p b;
   λ p, NewVnsRsLIfCtxToSvcRedirectPol p b;
   λ p, NewVnsRsLIfCtxToBD p b;
   λ p, NewVnsRsLIfCtxToLIf p b;
   λ p, NewVzSubj p b;
   λ p, NewVzInTerm p;
   λ p, NewVzOutTerm p;
   λ p, NewVzRsFiltAtt p b;
   λ p, NewVzRsInTermGraphAtt p b;
   λ p, NewVzRsOutTermGraphAtt p b;
   λ p, NewVzRsSubjFiltAtt p b;
   λ p, NewVzRsSubjGraphAtt p b flag;
   λ p, NewVzEntry p b;
   λ p, NewL3extSubnet p b;
   λ p, NewFvRsProv p b;
   λ p, NewFvRsCons p b;
   λ p, NewVmmInjectedSvcEp p b;
   λ p, NewVmmInjectedSvcPort p b c d;
   λ p, NewInfra p;
   λ p, NewVmmRsVswitchExporterPol p b;
   λ p, NewSpanVSrc p b;
   λ p, NewSpanRsSrcToVPort p b;
   λ p, NewSpanVDest p b;
   λ p, NewSpanVEpgSummary p;
   λ p, NewSpanSpanLbl p b;
   λ p, NewVmmClusterFaultInfo p b;
   λ p, NewVmmInjectedLabel p b c].
