(* ===== verification/ApicTypesFacts.v ===== *)
(** * ApicTypesFacts: lemmas on APIC objects, tags and constructors *)

From S2P Require Import Prelude ApicMetadata ApicTypes ApicBuild.

Open Scope string_scope.

(** ** Constructors *)

Lemma newApicObject_builds cl : is_Some (metadata !! cl) → builds cl (newApicObject cl).
Proof.
  intros [md E]. unfold newApicObject. rewrite E. eexists. split; [done|].
  split_and!; [done..|]. exists md. split; [done|].
  apply Forall_forall. intros [k d] Hkd. simpl.
  apply not_eq_None_Some. intros HN.
  apply not_elem_of_list_to_map_2 in HN. apply HN.
  apply list_elem_of_fmap. exists (k, d). split; [reflexivity|exact Hkd].
Qed.

Lemma set_attr_builds cl k v o : fresh cl o → builds cl (set_attr cl k v o).
Proof.
  intros (<-&Hch&md&E&HF). unfold set_attr. rewrite String.eqb_refl.
  exists (SetAttr o k v). split; [done|]. destruct o as [c h at_ ch]; simpl in *.
  split_and!; [done..|]. exists md. split; [done|].
  eapply Forall_impl; [exact HF|]. intros [k' d] [x Hx]; simpl in *.
  destruct (decide (k = k')) as [->|]; [rewrite lookup_insert_eq|rewrite lookup_insert_ne]; eauto.
Qed.

Lemma set_hint_builds cl v o : fresh cl o → builds cl (set_hint cl v o).
Proof.
  intros (<-&Hch&md&E&HF). destruct o as [c h at_ ch]; simpl in *. rewrite String.eqb_refl.
  eexists; split; [done|]. split_and!; [done..|]. exists md. split; [exact E|exact HF].
Qed.

Lemma builds_bind cl m f :
  builds cl m → (∀ o, fresh cl o → builds cl (f o)) → builds cl (m ≫= f).
Proof. intros (o&->&Ho) Hf. apply Hf, Ho. Qed.

Lemma builds_some cl o : fresh cl o → builds cl (Some o).
Proof. by exists o. Qed.

Lemma builds_if cl (b : bool) m1 m2 :
  builds cl m1 → builds cl m2 → builds cl (if b then m1 else m2).
Proof. by destruct b. Qed.

#[export] Hint Resolve set_attr_builds set_hint_builds builds_bind builds_some builds_if : go.

(** Open the constructor that the goal is about. *)
Ltac head t := match t with ?f _ => head f | _ => t end.
Ltac open_constructor :=
  match goal with
  | |- builds _ ?t => let h := head t in unfold h
  end; cbv zeta.

(** Every class a constructor asks for has metadata.  The test keeps the
    evaluation away from the entry itself, which holds the normalizer. *)
Definition has_class (cl : string) : bool :=
  match metadata !! cl with Some _ => true | None => false end.

Lemma has_class_some cl : has_class cl = true → is_Some (metadata !! cl).
Proof. unfold has_class. destruct (metadata !! cl); [eauto|done]. Qed.

Ltac has_metadata := apply has_class_some; vm_compute; reflexivity.

(** Walk down the assignments of a constructor. *)
Ltac builds_walk :=
  repeat match goal with
    | |- builds _ (newApicObject _) => apply newApicObject_builds; has_metadata
    | |- builds _ (set_attr _ _ _ _) => apply set_attr_builds; assumption
    | |- builds _ (set_hint _ _ _) => apply set_hint_builds; assumption
    | |- builds _ (Some _) => apply builds_some; assumption
    | |- builds _ (if _ then _ else _) => apply builds_if
    | |- builds _ (_ ≫= _) => apply builds_bind; [|intros ? ?]
    end.

Lemma all_constructors_build a b c d e f flag :
  Forall (λ cr, builds cr.1 cr.2) (all_constructors a b c d e f flag).
Proof.
  unfold all_constructors.
  repeat (simple apply Forall_cons_2; [cbn [fst snd]; open_constructor; builds_walk|]).
  constructor.
Qed.

(** ** The DN of an object built under a parent *)

(** No class declares a default for "dn". *)
Lemma metadata_dn_free :
  forallb (λ e, negb (bool_decide ("dn" ∈ (attributes e.2).*1))) (map_to_list metadata) = true.
Proof. vm_compute. reflexivity. Qed.

Lemma metadata_no_dn cl md :
  metadata !! cl = Some md → (list_to_map (attributes md) : attrs) !! "dn" = None.
Proof.
  intros E. apply not_elem_of_list_to_map_1. intros Hin.
  pose proof (map_forallb _ metadata cl md metadata_dn_free E) as Hdn.
  cbv beta in Hdn. rewrite negb_true_iff, bool_decide_eq_false in Hdn. exact (Hdn Hin).
Qed.

(** What a constructor has done so far to the DN attribute and the hint. *)
Definition dn_state (cl : string) (d : option attr) (h : string) (o : ApicObject) : Prop :=
  class o = cl ∧ Attributes o !! "dn" = d ∧ HintDn o = h.

Definition tracks (cl : string) (d : option attr) (h : string) (r : option ApicObject) : Prop :=
  ∃ o, r = Some o ∧ dn_state cl d h o.

Definition under (p : string) (r : option ApicObject) : Prop :=
  ∃ o rn, r = Some o ∧ GetDn o = p ++ "/" ++ rn.

Lemma tracks_new cl : is_Some (metadata !! cl) → tracks cl None EmptyString (newApicObject cl).
Proof.
  intros [md E]. unfold newApicObject. rewrite E. eexists. split; [reflexivity|].
  split_and!; [reflexivity| |reflexivity]. apply (metadata_no_dn cl md E).
Qed.

Lemma tracks_dn cl v d h o : dn_state cl d h o → tracks cl (Some v) h (set_attr cl "dn" v o).
Proof.
  intros (<-&?&?). unfold set_attr. rewrite String.eqb_refl. destruct o as [c h' at_ ch].
  eexists; split; [reflexivity|]. split_and!; [reflexivity|apply lookup_insert_eq|assumption].
Qed.

Lemma tracks_attr cl k v d h o :
  k ≠ "dn" → dn_state cl d h o → tracks cl d h (set_attr cl k v o).
Proof.
  intros Hk (<-&?&?). unfold set_attr. rewrite String.eqb_refl. destruct o as [c h' at_ ch].
  eexists; split; [reflexivity|]. split_and!; [reflexivity| |assumption].
  simpl. by rewrite lookup_insert_ne.
Qed.

Lemma tracks_hint cl v d h o : dn_state cl d h o → tracks cl d v (set_hint cl v o).
Proof.
  intros (<-&?&?). destruct o as [c h' at_ ch]; simpl in *. rewrite String.eqb_refl.
  eexists; split; [reflexivity|]. done.
Qed.

Lemma tracks_bind cl m f d h d' h' :
  tracks cl d h m → (∀ o, dn_state cl d h o → tracks cl d' h' (f o)) →
  tracks cl d' h' (m ≫= f).
Proof. intros (o&->&Ho) Hf. apply Hf, Ho. Qed.

Lemma tracks_some cl d h o : dn_state cl d h o → tracks cl d h (Some o).
Proof. by exists o. Qed.

Lemma tracks_if cl d h (b : bool) m1 m2 :
  tracks cl d h m1 → tracks cl d h m2 → tracks cl d h (if b then m1 else m2).
Proof. by destruct b. Qed.

Ltac tracks_walk :=
  repeat match goal with
    | |- tracks _ _ _ (newApicObject _) => apply tracks_new; has_metadata
    | |- tracks _ _ _ (set_attr _ "dn" _ _) => eapply tracks_dn; eassumption
    | |- tracks _ _ _ (set_attr _ _ _ _) => eapply tracks_attr; [discriminate|eassumption]
    | |- tracks _ _ _ (set_hint _ _ _) => eapply tracks_hint; eassumption
    | |- tracks _ _ _ (Some _) => eapply tracks_some; eassumption
    | |- tracks _ _ _ (if _ then _ else _) => eapply tracks_if
    | |- tracks _ _ _ (_ ≫= _) => eapply tracks_bind; [|intros ? ?]
    end.

Lemma append_slash_nonempty p rn : String.eqb (p ++ "/" ++ rn) EmptyString = false.
Proof. by destruct p. Qed.

Lemma under_attr p rn cl s h r :
  tracks cl (Some (AStr s)) h r → s = p ++ "/" ++ rn → under p r.
Proof.
  intros (o&->&_&Hd&Hh) ->. exists o, rn. split; [done|].
  unfold GetDn, GetAttrStr. rewrite Hd, append_slash_nonempty. done.
Qed.

Lemma under_hint p rn cl h r : tracks cl None h r → h = p ++ "/" ++ rn → under p r.
Proof.
  intros (o&->&_&Hd&Hh) ->. exists o, rn. split; [done|].
  unfold GetDn, GetAttrStr. by rewrite Hd.
Qed.

Ltac open_under :=
  match goal with
  | |- under _ ?t => let h := head t in unfold h
  end; cbv zeta.

Lemma child_constructors_under b c d flag :
  Forall (λ f, ∀ p, under p (f p)) (child_constructors b c d flag).
Proof.
  unfold child_constructors.
  repeat (simple apply Forall_cons_2;
    [intros p; cbv beta; open_under;
     first [ eapply under_attr; [solve [tracks_walk]|reflexivity]
           | eapply under_hint; [solve [tracks_walk]|reflexivity] ]|]).
  constructor.
Qed.

(** ** Reading objects that were built *)

Lemma AddChild_attrs o c n : GetAttrStr (AddChild o c) n = GetAttrStr o n.
Proof. by destruct o. Qed.
Lemma AddChild_dn o c : GetDn (AddChild o c) = GetDn o.
Proof. by destruct o. Qed.
Lemma AddChild_children o c : Children (AddChild o c) = (Children o ++ [c])%list.
Proof. by destruct o. Qed.
Lemma SetAttr_children o n v : Children (SetAttr o n v) = Children o.
Proof. by destruct o. Qed.
Lemma SetAttr_eq o n v : GetAttrStr (SetAttr o n (AStr v)) n = v.
Proof. destruct o. unfold GetAttrStr. simpl. by rewrite lookup_insert_eq. Qed.
Lemma SetAttr_other o n m v : n ≠ m → GetAttrStr (SetAttr o n v) m = GetAttrStr o m.
Proof. intros H. destruct o. unfold GetAttrStr. simpl. by rewrite lookup_insert_ne. Qed.
Lemma SetAttr_dn o n v : n ≠ "dn" → GetDn (SetAttr o n v) = GetDn o.
Proof. intros H. unfold GetDn. rewrite SetAttr_other by done. by destruct o. Qed.

Create Rewrite HintDb apicobj.
#[export] Hint Rewrite AddChild_attrs AddChild_dn AddChild_children SetAttr_children SetAttr_eq : apicobj.
#[export] Hint Rewrite SetAttr_other SetAttr_dn using discriminate : apicobj.

(** The object of a class before anything is assigned. *)
Definition blank (cl : string) : ApicObject :=
  Obj cl EmptyString (match metadata !! cl with Some md => list_to_map (attributes md) | None => ∅ end) [].

Lemma new_blank cl : has_class cl = true → newApicObject cl = Some (blank cl).
Proof. intros H. destruct (has_class_some cl H) as [md E]. unfold newApicObject, blank. by rewrite E. Qed.

Lemma class_SetAttr o k v : class (SetAttr o k v) = class o.
Proof. by destruct o. Qed.
Lemma class_AddChild o c : class (AddChild o c) = class o.
Proof. by destruct o. Qed.
Lemma set_attr_class cl k v o : class o = cl → set_attr cl k v o = Some (SetAttr o k v).
Proof. intros <-. unfold set_attr. by rewrite String.eqb_refl. Qed.
Lemma SetAttr_dn_eq o v : v ≠ EmptyString → GetDn (SetAttr o "dn" (AStr v)) = v.
Proof. intros Hv. unfold GetDn. rewrite SetAttr_eq. apply String.eqb_neq in Hv. by rewrite Hv. Qed.
Lemma blank_children cl : Children (blank cl) = [].
Proof. done. Qed.
Lemma blank_class cl : class (blank cl) = cl.
Proof. done. Qed.
#[export] Hint Rewrite class_SetAttr class_AddChild blank_children blank_class : apicobj.

(** Run a constructor: what is left is the object with its assignments. *)
Ltac run_constructor :=
  repeat first
    [ rewrite new_blank by (vm_compute; reflexivity)
    | rewrite set_attr_class by (autorewrite with apicobj; reflexivity)
    | progress cbn [mbind option_bind] ].

(** A new object: its class, its DN and some of its attributes. *)
Definition made (cl dn : string) (kv : list (string * string)) (r : option ApicObject) : Prop :=
  ∃ o, r = Some o ∧ class o = cl ∧ GetDn o = dn ∧ Children o = [] ∧ Forall (λ p, GetAttrStr o p.1 = p.2) kv.

Ltac made_by f :=
  unfold f; run_constructor; eexists; split; [reflexivity|];
  split; [reflexivity|]; split; [apply SetAttr_dn_eq; let H := fresh in intros H; first [discriminate H | match type of H with (?s ++ _)%string = _ => destruct s end; discriminate H]|];
  split; [reflexivity|]; repeat (apply Forall_cons; split; [cbn [fst snd]; autorewrite with apicobj; reflexivity|]); apply Forall_nil_2.

(** The next constructor of a sequence succeeds. *)
Ltac next_obj :=
  match goal with
  | |- context [?c ≫= _] =>
      assert (∃ o, c = Some o) as [? ->] by (let h := head c in unfold h; run_constructor; eauto); cbn [mbind option_bind]
  end.

(** ** Trees of objects that fit the metadata *)

(** A tree is typed if every class in it has metadata with all its compared
    attributes set, every child is of a class that the metadata lists as a
    child of its parent's class, and the DN of a child extends the DN of its
    parent.  These are what the synchronisation with the APIC relies on: it
    asks for the subtree by the listed classes and finds a child's parent by
    its DN.  The rules below follow how the controller builds its objects. *)

Definition child_of (parent cl : string) : bool :=
  match metadata !! parent with Some md => bool_decide (cl ∈ meta_children md) | None => false end.

Definition set_attrs (o : ApicObject) : Prop :=
  ∃ md, metadata !! class o = Some md ∧ Forall (λ kd, is_Some (Attributes o !! kd.1)) (attributes md).

Inductive typed : ApicObject → Prop :=
  typed_intro o :
    set_attrs o →
    (∀ c, c ∈ Children o → child_of (class o) (class c) = true ∧ (∃ rn, GetDn c = GetDn o ++ "/" ++ rn)) →
    (∀ c, c ∈ Children o → typed c) →
    typed o.

(** What a constructor call gives: a typed tree of the class, below [p]. *)
Definition tree (cl : string) (r : option ApicObject) : Prop := ∃ o, r = Some o ∧ class o = cl ∧ typed o.
Definition tree_under (cl p : string) (r : option ApicObject) : Prop :=
  ∃ o, r = Some o ∧ class o = cl ∧ typed o ∧ ∃ rn, GetDn o = p ++ "/" ++ rn.

Lemma elem_of_nil_1 {A} (x : A) : x ∉ @nil A.
Proof. intros H. by apply elem_of_nil in H. Qed.

Lemma fresh_typed cl o : fresh cl o → class o = cl ∧ typed o.
Proof.
  intros (E&Hch&md&Em&Hf). split; [done|]. constructor.
  - exists md. rewrite E. exact (conj Em Hf).
  - intros c. rewrite Hch. intros H. destruct (elem_of_nil_1 _ H).
  - intros c. rewrite Hch. intros H. destruct (elem_of_nil_1 _ H).
Qed.

Lemma builds_tree cl r : builds cl r → tree cl r.
Proof. intros (o&->&[E T]%fresh_typed). by exists o. Qed.

Lemma builds_under cl p r : builds cl r → under p r → tree_under cl p r.
Proof. intros (o&->&[E T]%fresh_typed) (o'&rn&E'&Hd). injection E' as <-. exists o. split_and!; [done|done|done|by exists rn]. Qed.

Lemma typed_SetAttr o k v : k ≠ "dn" → typed o → typed (SetAttr o k v).
Proof.
  intros Hk H. destruct H as [o (md&Em&Hf) Hc Ht]. constructor.
  - exists md. rewrite class_SetAttr. split; [done|]. eapply Forall_impl; [exact Hf|]. intros [k' d] [x Hx]. destruct o as [c h a ch].
    cbn in *. destruct (decide (k' = k)) as [->|]; [rewrite lookup_insert_eq|rewrite lookup_insert_ne by done]; eauto.
  - intros c. rewrite SetAttr_children, class_SetAttr, SetAttr_dn by done. apply Hc.
  - intros c. rewrite SetAttr_children. apply Ht.
Qed.

Lemma typed_AddChild o c :
  typed o → typed c → child_of (class o) (class c) = true → (∃ rn, GetDn c = GetDn o ++ "/" ++ rn) → typed (AddChild o c).
Proof.
  intros H Hty Hcl Hdn. destruct H as [o (md&Em&Hf) Hc Ht]. constructor.
  - exists md. rewrite class_AddChild. split; [done|]. by destruct o.
  - intros x. rewrite AddChild_children, class_AddChild, AddChild_dn, elem_of_app, list_elem_of_singleton. intros [Hx| ->]; auto.
  - intros x. rewrite AddChild_children, elem_of_app, list_elem_of_singleton. intros [Hx| ->]; auto.
Qed.

Lemma typed_add o p cl r :
  typed o → GetDn o = p → child_of (class o) cl = true → tree_under cl p r →
  ∃ c, r = Some c ∧ typed (AddChild o c).
Proof. intros Ht <- Hc (c&->&E&T&Hd). exists c. split; [done|]. apply typed_AddChild; [done|done|by rewrite E|done]. Qed.

(** ** Automation *)

#[export] Hint Resolve typed_SetAttr : go.

Ltac prove_under :=
  open_under; first [ eapply under_attr; [solve [tracks_walk]|reflexivity]
                    | eapply under_hint; [solve [tracks_walk]|reflexivity] ].
(** A plain constructor, by itself or below a parent. *)
Ltac plain_tree := apply builds_tree; open_constructor; builds_walk.
Ltac plain_under := apply builds_under; [open_constructor; builds_walk|prove_under].
Ltac child_class := vm_compute; reflexivity.
