(* ===== verification/GoSha.v ===== *)
(** * GoSha: the hash that names the objects of a key

    The controller labels the APIC objects of a key with a tag made of its
    prefix and the first 16 bytes of the SHA-256 of the key, in hexadecimal.
    This file models [sha256.Sum256] and [hex.EncodeToString] of Go's
    standard library and, from src/pkg/apicapi, [getTagFromKey] and the tag
    pattern of [isSyncTag]. *)

From S2P Require Import Prelude.
From Stdlib Require Import Ascii.

Open Scope Z_scope.

Definition w32 (x : Z) : Z := x mod 2 ^ 32.
Definition rotr (n x : Z) : Z :=
  Z.lor (Z.shiftr x n) (w32 (Z.shiftl x (32 - n))).
Definition not32 (x : Z) : Z := 2 ^ 32 - 1 - x.

Definition sha_K : list Z :=
  [1116352408; 1899447441; 3049323471; 3921009573; 961987163; 1508970993; 2453635748; 2870763221;
   3624381080; 310598401; 607225278; 1426881987; 1925078388; 2162078206; 2614888103; 3248222580;
   3835390401; 4022224774; 264347078; 604807628; 770255983; 1249150122; 1555081692; 1996064986;
   2554220882; 2821834349; 2952996808; 3210313671; 3336571891; 3584528711; 113926993; 338241895;
   666307205; 773529912; 1294757372; 1396182291; 1695183700; 1986661051; 2177026350; 2456956037;
   2730485921; 2820302411; 3259730800; 3345764771; 3516065817; 3600352804; 4094571909; 275423344;
   430227734; 506948616; 659060556; 883997877; 958139571; 1322822218; 1537002063; 1747873779;
   1955562222; 2024104815; 2227730452; 2361852424; 2428436474; 2756734187; 3204031479; 3329325298].

Definition sha_H0 : list Z :=
  [1779033703; 3144134277; 1013904242; 2773480762; 1359893119; 2600822924; 528734635; 1541459225].

(** Big-endian bytes of a number, and words of a block. *)
Fixpoint be_bytes (n : nat) (x : Z) : list Z :=
  match n with
  | O => []
  | S n => Z.shiftr x (8 * Z.of_nat n) mod 256 :: be_bytes n x
  end.

Fixpoint be_words (fuel : nat) (l : list Z) : list Z :=
  match fuel, l with
  | S fuel, a :: b :: c :: d :: l =>
      (a * 2 ^ 24 + b * 2 ^ 16 + c * 2 ^ 8 + d) :: be_words fuel l
  | _, _ => []
  end.

Definition sha_pad (m : list Z) : list Z :=
  let len := Z.of_nat (length m) in
  m ++ [128] ++ repeat 0 (Z.to_nat ((55 - len) mod 64)) ++ be_bytes 8 (8 * len).

Definition nthz (l : list Z) (i : nat) : Z := nth i l 0.

(** The message schedule, newest word first. *)
Fixpoint sha_schedule (n : nat) (w : list Z) : list Z :=
  match n with
  | O => w
  | S n =>
      let w15 := nthz w 14 in
      let w2 := nthz w 1 in
      let s0 := Z.lxor (Z.lxor (rotr 7 w15) (rotr 18 w15)) (Z.shiftr w15 3) in
      let s1 := Z.lxor (Z.lxor (rotr 17 w2) (rotr 19 w2)) (Z.shiftr w2 10) in
      sha_schedule n (w32 (nthz w 15 + s0 + nthz w 6 + s1) :: w)
  end.

Definition sha_round (h : list Z) (kw : Z * Z) : list Z :=
  match h with
  | [a; b; c; d; e; f; g; hh] =>
      let s1 := Z.lxor (Z.lxor (rotr 6 e) (rotr 11 e)) (rotr 25 e) in
      let ch := Z.lxor (Z.land e f) (Z.land (not32 e) g) in
      let t1 := hh + s1 + ch + fst kw + snd kw in
      let s0 := Z.lxor (Z.lxor (rotr 2 a) (rotr 13 a)) (rotr 22 a) in
      let maj := Z.lxor (Z.lxor (Z.land a b) (Z.land a c)) (Z.land b c) in
      [w32 (t1 + s0 + maj); a; b; c; w32 (d + t1); e; f; g]
  | _ => h
  end.

Definition sha_block (h : list Z) (block : list Z) : list Z :=
  let w := reverse (sha_schedule 48 (reverse (be_words 16 block))) in
  zip_with (λ x y, w32 (x + y)) h (foldl sha_round h (zip sha_K w)).

Fixpoint sha_blocks (fuel : nat) (h l : list Z) : list Z :=
  match fuel, l with
  | S fuel, _ :: _ => sha_blocks fuel (sha_block h (take 64 l)) (drop 64 l)
  | _, _ => h
  end.

Definition Sum256 (m : list Z) : list Z :=
  let p := sha_pad m in
  mjoin (map (be_bytes 4) (sha_blocks (length p) sha_H0 p)).

(** ** Hexadecimal *)

Definition hex_digit (x : Z) : ascii :=
  ascii_of_nat (Z.to_nat (if x <? 10 then 48 + x else 87 + x)).

Fixpoint EncodeToString (l : list Z) : string :=
  match l with
  | [] => EmptyString
  | x :: l => String (hex_digit (x / 16)) (String (hex_digit (x mod 16)) (EncodeToString l))
  end.

Fixpoint string_bytes (s : string) : list Z :=
  match s with
  | EmptyString => []
  | String c s => Z.of_nat (nat_of_ascii c) :: string_bytes s
  end.

Open Scope string_scope.

Definition getTagFromKey (prefix key : string) : string :=
  prefix ++ "-" ++ EncodeToString (take 16 (Sum256 (string_bytes key))).

(** ** The pattern of a tag *)

Definition in_range (lo hi : nat) (c : ascii) : bool :=
  ((lo <=? nat_of_ascii c) && (nat_of_ascii c <=? hi))%nat.

(** [a-zA-Z0-9_] and [a-f0-9]. *)
Definition word_char (c : ascii) : bool :=
  in_range 97 122 c || in_range 65 90 c || in_range 48 57 c || (nat_of_ascii c =? 95)%nat.
Definition hex_char (c : ascii) : bool := in_range 97 102 c || in_range 48 57 c.

Fixpoint hex_run (n : nat) (s : string) : bool :=
  match n, s with
  | O, _ => true
  | S n, String c s => hex_char c && hex_run n s
  | S _, EmptyString => false
  end.

(** The unanchored pattern [[a-zA-Z0-9_]{1,31}-[a-f0-9]{32}] matches somewhere
    in the string: a word character, a dash and 32 hexadecimal digits (of the
    up to 31 word characters the match needs one). *)
Fixpoint tagRegexp (s : string) : bool :=
  match s with
  | EmptyString => false
  | String c s' =>
      (word_char c &&
       match s' with
       | String d t => (nat_of_ascii d =? 45)%nat && hex_run 32 t
       | EmptyString => false
       end) || tagRegexp s'
  end.

Definition isSyncTag (prefix tag : string) : bool :=
  tagRegexp tag && String.prefix (prefix ++ "-") tag.

(** The digest of "abc" published with the standard. *)
Example sum256_abc :
  EncodeToString (Sum256 (string_bytes "abc")) =
  "ba7816bf8f01cfea414140de5dae2223b00361a396177a9cb410ff61f20015ad".
Proof. vm_compute. reflexivity. Qed.

(** A message of two blocks. *)
Example sum256_two_blocks :
  EncodeToString (Sum256 (string_bytes
    "abcdbcdecdefdefgefghfghighijhijkijkljklmklmnlmnomnopnopq")) =
  "248d6a61d20638b8e5c026930c3e6039a33ce45964ff2167f6ecedd419db06c1".
Proof. vm_compute. reflexivity. Qed.
