(* ===== verification/ApicDiff.v ===== *)
(** * ApicDiff: comparing the APIC's state with the desired one

    The comparison of src/pkg/apicapi/apic_sync.go: attributes, subtrees and
    sorted slices of objects.  The comparison of a [vzRsSubjGraphAtt] with a
    custom service graph overwrites an attribute of the desired object with
    the value the APIC has; the result of a comparison therefore lists, next
    to whether an update is needed and which DNs are to be deleted, these
    overwrites as [grafts], by the DN of the object.  Desired objects are
    shared between the tables of the connection, and [graft] is what all of
    them see. *)

From S2P Require Import Prelude ApicMetadata ApicTypes.

Open Scope string_scope.

(** ** Attributes *)

Definition checkNonDeletable (cl : string) : bool :=
  match metadata !! cl with
  | Some md =>
      match (list_to_map (hints md) : gmap string attr) !! "deletable" with
      | Some (ABool false) => false
      | _ => true
      end
  | None => true
  end.

(** The overwritten attribute of a desired object: its DN and the value. *)
Definition grafts := list (string * attr).

(** Is [p] the attribute whose comparison is skipped for these bodies? *)
Definition graft_here (cl p : string) (c d : attrs) : bool :=
  String.eqb cl "vzRsSubjGraphAtt" && String.eqb p "tnVnsAbsGraphName" &&
  bool_decide (is_Some (c !! "forceResolve")) &&
  bool_decide (is_Some (d !! "customSG")).

(** One round of the loop over the declared attributes [p] with default
    [def]: does it let the comparison go on? *)
Definition attr_same (cl : string) (c d : attrs) (pd : string * attr) : bool :=
  let '(p, def) := pd in
  graft_here cl p c d || bool_decide (default def (c !! p) = default def (d !! p)).

Definition annotation_same (cl : string) (c d : attrs) : bool :=
  String.eqb cl "tagAnnotation" || String.eqb cl "tagInst" ||
  bool_decide (default (AStr EmptyString) (c !! "annotation") =
               default (AStr EmptyString) (d !! "annotation")).

(** [apicBodyAttrCmp]: the answer, and the overwrite of the desired body.  The
    only class with an overwrite declares only that attribute, so the order of
    the loop, which Go leaves open, does not matter. *)
Definition apicBodyAttrCmp (cl : string) (c d : attrs) : bool * option attr :=
  match metadata !! cl with
  | None => (true, None)
  | Some md =>
      (forallb (attr_same cl c d) (attributes md) && annotation_same cl c d,
       if existsb (λ pd, graft_here cl pd.1 c d) (attributes md)
       then Some (default ANil (c !! "tnVnsAbsGraphName")) else None)
  end.

Record cmpResult := mkCmp {
  r_update : bool;
  r_deletes : list string;
  r_grafts : grafts
}.

Definition no_change : cmpResult := mkCmp false [] [].

Definition cmp_app (a b : cmpResult) : cmpResult :=
  mkCmp (r_update a || r_update b) (r_deletes a ++ r_deletes b)%list
        (r_grafts a ++ r_grafts b)%list.

(** The bodies of two objects of the same class. *)
Definition body_cmp (current desired : ApicObject) : cmpResult :=
  let '(same, g) := apicBodyAttrCmp (class current) (Attributes current) (Attributes desired) in
  mkCmp (negb same) []
    (match g with Some v => [(GetDn desired, v)] | None => [] end).

(** An object of the current state that is not desired: it is deleted unless
    its class is not deletable. *)
Definition drop_current (c : ApicObject) : cmpResult :=
  mkCmp false (if checkNonDeletable (class c) then [GetDn c] else []) [].

Definition new_desired : cmpResult := mkCmp true [] [].

(** ** Subtrees *)

(** The loop of [apicObjCmp] over the two sorted lists of children. *)
Section ChildrenCmp.
Variable objCmp : ApicObject → ApicObject → cmpResult.

Fixpoint children_cmp (cs : ApicSlice) : ApicSlice → cmpResult :=
  match cs with
  | [] => λ ds, match ds with [] => no_change | _ => new_desired end
  | c :: cs' =>
      fix over_desired (ds : ApicSlice) : cmpResult :=
        match ds with
        | [] => cmp_app (drop_current c) (children_cmp cs' [])
        | d :: ds' =>
            match cmpApicObject c d with
            | Lt => cmp_app (drop_current c) (children_cmp cs' ds)
            | Gt => cmp_app new_desired (over_desired ds')
            | Eq => cmp_app (objCmp c d) (children_cmp cs' ds')
            end
        end
  end.
End ChildrenCmp.

Fixpoint apicObjCmp (current desired : ApicObject) : cmpResult :=
  let 'Obj cc _ _ cch := current in
  if negb (String.eqb cc (class desired)) then no_change
  else cmp_app (body_cmp current desired)
               (children_cmp apicObjCmp cch (Children desired)).

(** [apicCntCmp] compares a container object without its children; [true] says
    that nothing changed. *)
Definition apicCntCmp (current desired : ApicObject) : cmpResult :=
  if negb (String.eqb (class current) (class desired)) then new_desired
  else body_cmp current desired.

(** ** Slices *)

Record diffResult := mkDiff {
  d_updates : ApicSlice;
  d_deletes : list string;
  d_grafts : grafts
}.

Definition diff_nil : diffResult := mkDiff [] [] [].

Definition diff_app (a b : diffResult) : diffResult :=
  mkDiff (d_updates a ++ d_updates b)%list (d_deletes a ++ d_deletes b)%list
         (d_grafts a ++ d_grafts b)%list.

Definition diff_drop (c : ApicObject) : diffResult :=
  mkDiff [] (if checkNonDeletable (class c) then [GetDn c] else []) [].

Definition diff_new (d : ApicObject) : diffResult := mkDiff [d] [] [].

(** Objects with the same DN: containers are compared without their children,
    and then ask for no deletes. *)
Definition diff_same (containerDns : gset string) (c d : ApicObject) : diffResult :=
  let r := if bool_decide (GetDn c ∈ containerDns) then apicCntCmp c d
           else apicObjCmp c d in
  mkDiff (if r_update r then [d] else []) (r_deletes r) (r_grafts r).

(** The loop of [diffApicState] over the two sorted slices. *)
Fixpoint diff_loop (containerDns : gset string) (cs : ApicSlice) : ApicSlice → diffResult :=
  match cs with
  | [] => λ ds, mkDiff ds [] []
  | c :: cs' =>
      fix over_desired (ds : ApicSlice) : diffResult :=
        match ds with
        | [] => diff_app (diff_drop c) (diff_loop containerDns cs' [])
        | d :: ds' =>
            match cmpApicObject c d with
            | Lt => diff_app (diff_drop c) (diff_loop containerDns cs' ds)
            | Gt => diff_app (diff_new d) (over_desired ds')
            | Eq => diff_app (diff_same containerDns c d) (diff_loop containerDns cs' ds')
            end
        end
  end.

(** ** Grafts *)

(** Overwrite the attribute of the objects that [g] names. *)
Definition graft_attrs (g : grafts) (o : ApicObject) : attrs :=
  if String.eqb (class o) "vzRsSubjGraphAtt" then
    match (list_to_map g : gmap string attr) !! GetDn o with
    | Some v => <["tnVnsAbsGraphName" := v]> (Attributes o)
    | None => Attributes o
    end
  else Attributes o.

Fixpoint graft (g : grafts) (o : ApicObject) : ApicObject :=
  let 'Obj c h a ch := o in Obj c h (graft_attrs g o) (map (graft g) ch).

(** The updates are references to the desired objects, so they show the
    overwrites too. *)
Definition diffApicState (containerDns : gset string) (currentState desiredState : ApicSlice)
  : diffResult :=
  let r := diff_loop containerDns currentState desiredState in
  mkDiff (map (graft (d_grafts r)) (d_updates r)) (d_deletes r) (d_grafts r).

#[global] Opaque checkNonDeletable apicBodyAttrCmp.
