(* ===== verification/ApicDiffFacts.v ===== *)
(** * ApicDiffFacts: the merge loops against set-level specifications

    Both loops of the comparison walk two slices sorted by DN in step.  They
    are shown equal to folds over one list of [events] (an object only in the
    current state, only in the desired state, or in both), and the events of
    strictly sorted slices are exactly those that a search by DN finds. *)

From S2P Require Import Prelude ApicMetadata ApicTypes ApicDiff.

Open Scope string_scope.

Lemma or_cong (A B C D : Prop) : (A ↔ C) → (B ↔ D) → (A ∨ B ↔ C ∨ D).
Proof. tauto. Qed.

(** ** The order by DN *)

Definition dn_lt (a b : ApicObject) : Prop := cmpApicObject a b = Lt.

#[export] Instance dn_lt_dec : RelDecision dn_lt.
Proof. intros a b. unfold dn_lt. apply _. Defined.

Lemma compare_eq s t : String.compare s t = Eq ↔ s = t.
Proof.
  split; [apply String.compare_eq_iff|intros <-].
  induction s as [|c s IH]; [done|]. simpl. unfold Ascii.compare. by rewrite N.compare_refl.
Qed.

Lemma compare_le s t : String.le s t ↔ String.compare s t ≠ Gt.
Proof.
  unfold String.le, String.leb. destruct (String.compare s t); simpl; split; naive_solver.
Qed.

Lemma compare_lt s t : String.compare s t = Lt ↔ String.le s t ∧ s ≠ t.
Proof.
  rewrite compare_le, <- compare_eq.
  destruct (String.compare s t); (split; [intros; split; congruence|intros [? ?]; congruence]).
Qed.

Lemma compare_gt s t : String.compare s t = Gt ↔ String.compare t s = Lt.
Proof. rewrite (String.compare_antisym t s). by destruct (String.compare s t); simpl; split. Qed.

#[export] Instance dn_lt_trans : Transitive dn_lt.
Proof.
  unfold dn_lt, cmpApicObject. intros a b c. rewrite !compare_lt. intros [Hab Nab] [Hbc Nbc].
  split; [by etrans|]. intros E. rewrite E in Hab. apply Nbc. by apply (anti_symm String.le).
Qed.

Lemma dn_lt_ne a b : dn_lt a b → GetDn a ≠ GetDn b.
Proof. unfold dn_lt, cmpApicObject. rewrite compare_lt. tauto. Qed.

Lemma cmp_eq a b : cmpApicObject a b = Eq → GetDn a = GetDn b.
Proof. apply compare_eq. Qed.

Lemma cmp_gt a b : cmpApicObject a b = Gt → dn_lt b a.
Proof. apply compare_gt. Qed.

Lemma cmp_refl a b : GetDn a = GetDn b → cmpApicObject a b = Eq.
Proof. apply compare_eq. Qed.

#[export] Instance dn_le_trans : Transitive dn_le.
Proof. intros a b c. unfold dn_le. by intros; etrans. Qed.

#[export] Instance dn_le_total : Total dn_le.
Proof. intros a b. unfold dn_le. apply (total String.le). Qed.

Lemma sort_Permutation s : sort s ≡ₚ s.
Proof. apply merge_sort_Permutation. Qed.

Lemma sort_sorted s : StronglySorted dn_le (sort s).
Proof. apply (StronglySorted_merge_sort dn_le). Qed.

(** A slice sorted by the code is strictly sorted when its DNs differ. *)
Lemma sorted_strict s :
  StronglySorted dn_le s → NoDup (GetDn <$> s) → StronglySorted dn_lt s.
Proof.
  induction 1 as [|x s Hs IH Hx]; intros Hnd; constructor.
  - apply IH. by apply NoDup_cons in Hnd as [_ ?].
  - apply NoDup_cons in Hnd as [Hin _]. rewrite Forall_forall in *.
    intros y Hy. apply compare_lt. split; [by apply Hx|].
    intros E. apply Hin. rewrite E. by apply list_elem_of_fmap_2.
Qed.

Lemma sort_strict s : NoDup (GetDn <$> s) → StronglySorted dn_lt (sort s).
Proof.
  intros. apply sorted_strict; [apply sort_sorted|].
  by rewrite sort_Permutation.
Qed.

Lemma StronglySorted_hd_notin x s :
  StronglySorted dn_lt (x :: s) → GetDn x ∉ (GetDn <$> s).
Proof.
  rewrite StronglySorted_cons. intros [Hx _] (y&E&Hy)%list_elem_of_fmap.
  rewrite Forall_forall in Hx. by apply (dn_lt_ne x y); [apply Hx|].
Qed.

(** ** Events *)

Inductive event :=
  | Drop (c : ApicObject)
  | New (d : ApicObject)
  | Same (c d : ApicObject).

Fixpoint events (cs : ApicSlice) : ApicSlice → list event :=
  match cs with
  | [] => λ ds, map New ds
  | c :: cs' =>
      fix over_desired (ds : ApicSlice) : list event :=
        match ds with
        | [] => Drop c :: events cs' []
        | d :: ds' =>
            match cmpApicObject c d with
            | Lt => Drop c :: events cs' ds
            | Gt => New d :: over_desired ds'
            | Eq => Same c d :: events cs' ds'
            end
        end
  end.

(** Induction that follows the walk. *)
Lemma events_ind (P : ApicSlice → ApicSlice → Prop) :
  (∀ ds, P [] ds) →
  (∀ c cs, P cs [] → P (c :: cs) []) →
  (∀ c cs d ds, cmpApicObject c d = Lt → P cs (d :: ds) → P (c :: cs) (d :: ds)) →
  (∀ c cs d ds, cmpApicObject c d = Gt → P (c :: cs) ds → P (c :: cs) (d :: ds)) →
  (∀ c cs d ds, cmpApicObject c d = Eq → P cs ds → P (c :: cs) (d :: ds)) →
  ∀ cs ds, P cs ds.
Proof.
  intros Hnil Hdrop Hlt Hgt Heq. induction cs as [|c cs IHc]; [done|].
  induction ds as [|d ds IHd]; [auto|].
  destruct (cmpApicObject c d) eqn:E; auto.
Qed.

Definition in_events (cs ds : ApicSlice) (e : event) : Prop :=
  match e with
  | Drop c => c ∈ cs ∧ GetDn c ∉ (GetDn <$> ds)
  | New d => d ∈ ds ∧ GetDn d ∉ (GetDn <$> cs)
  | Same c d => c ∈ cs ∧ d ∈ ds ∧ GetDn c = GetDn d
  end.

Lemma lt_not_in x s ds :
  dn_lt x s → StronglySorted dn_lt (s :: ds) → GetDn x ∉ (GetDn <$> s :: ds).
Proof.
  intros Hx Hs. apply StronglySorted_hd_notin. constructor; [done|].
  rewrite StronglySorted_cons in Hs. destruct Hs as [Hf _].
  constructor; [done|]. eapply Forall_impl; [exact Hf|]. intros y. by apply transitivity.
Qed.

(** The walk meets exactly the events that the two sets of DNs have. *)
Lemma events_spec cs ds :
  StronglySorted dn_lt cs → StronglySorted dn_lt ds →
  ∀ e, e ∈ events cs ds ↔ in_events cs ds e.
Proof.
  revert cs ds. apply (events_ind (λ cs ds, StronglySorted dn_lt cs → StronglySorted dn_lt ds →
    ∀ e, e ∈ events cs ds ↔ in_events cs ds e)).
  - intros ds _ _ e. simpl. rewrite list_elem_of_fmap.
    destruct e; simpl; set_solver.
  - intros c cs IH Hcs _ e. simpl. rewrite elem_of_cons, IH.
    2: by apply StronglySorted_cons in Hcs as [_ ?].
    2: constructor.
    destruct e; simpl; set_solver.
  - intros c cs d ds E IH Hcs Hds e. simpl. rewrite E, elem_of_cons, IH; [|by apply StronglySorted_cons in Hcs as [_ ?]|done].
    pose proof (lt_not_in c d ds E Hds). destruct e as [c'|d'|c' d']; simpl in *.
    + set_solver.
    + set_solver.
    + set_solver.
  - intros c cs d ds E IH Hcs Hds e. simpl. rewrite E, elem_of_cons.
    change (_ ∈ _) with (e ∈ events (c :: cs) ds). rewrite IH; [|done|by apply StronglySorted_cons in Hds as [_ ?]].
    apply cmp_gt in E. pose proof (lt_not_in d c cs E Hcs). destruct e as [c'|d'|c' d']; simpl in *; set_solver.
  - intros c cs d ds E IH Hcs Hds e. simpl. rewrite E, elem_of_cons, IH;
      [|by apply StronglySorted_cons in Hcs as [_ ?]|by apply StronglySorted_cons in Hds as [_ ?]].
    apply cmp_eq in E. pose proof (StronglySorted_hd_notin _ _ Hcs) as Hc.
    pose proof (StronglySorted_hd_notin _ _ Hds) as Hd. rewrite list_elem_of_fmap in Hc, Hd.
    assert (∀ x, x ∈ cs → GetDn x ≠ GetDn d) by (intros x Hx Ex; apply Hc; exists x; split; congruence).
    assert (∀ x, x ∈ ds → GetDn x ≠ GetDn c) by (intros x Hx Ex; apply Hd; exists x; split; congruence).
    clear IH Hc Hd Hcs Hds.
    destruct e as [c'|d'|c' d']; simpl in *; rewrite ?elem_of_cons, ?list_elem_of_fmap;
      naive_solver eauto using eq_sym.
Qed.

(** ** The loops as folds over the events *)

Definition ev_cmp (f : ApicObject → ApicObject → cmpResult) (e : event) : cmpResult :=
  match e with
  | Drop c => drop_current c
  | New _ => new_desired
  | Same c d => f c d
  end.

Definition ev_diff (cds : gset string) (e : event) : diffResult :=
  match e with
  | Drop c => diff_drop c
  | New d => diff_new d
  | Same c d => diff_same cds c d
  end.

Definition cmp_fold (l : list cmpResult) : cmpResult := foldr cmp_app no_change l.
Definition diff_fold (l : list diffResult) : diffResult := foldr diff_app diff_nil l.

Lemma children_cmp_events f cs ds :
  children_cmp f cs ds = cmp_fold (ev_cmp f <$> events cs ds).
Proof.
  revert cs ds. apply events_ind.
  - intros [|d ds]; [done|]. simpl. unfold new_desired, cmp_app; simpl. f_equal.
    + induction ds as [|d' ds IH]; [done|]. exact IH.
    + induction ds as [|d' ds IH]; [done|]. exact IH.
  - intros c cs IH. simpl. by rewrite IH.
  - intros c cs d ds E IH. simpl. by rewrite E, IH.
  - intros c cs d ds E IH. simpl. rewrite E. simpl. f_equal. exact IH.
  - intros c cs d ds E IH. simpl. by rewrite E, IH.
Qed.

Lemma diff_loop_events cds cs ds :
  diff_loop cds cs ds = diff_fold (ev_diff cds <$> events cs ds).
Proof.
  revert cs ds. apply events_ind.
  - intros ds. induction ds as [|d ds IH]; [done|].
    change (mkDiff (d :: ds) [] [] = diff_app (diff_new d) (diff_fold (ev_diff cds <$> events [] ds))).
    by rewrite <- IH.
  - intros c cs IH. simpl. by rewrite IH.
  - intros c cs d ds E IH. simpl. by rewrite E, IH.
  - intros c cs d ds E IH. simpl. rewrite E. simpl. f_equal. exact IH.
  - intros c cs d ds E IH. simpl. by rewrite E, IH.
Qed.

Lemma cmp_fold_update l : r_update (cmp_fold l) = true ↔ ∃ r, r ∈ l ∧ r_update r = true.
Proof.
  induction l as [|r l IH]; simpl; [set_solver|].
  rewrite orb_true_iff, IH. set_solver.
Qed.

Lemma cmp_fold_deletes l x : x ∈ r_deletes (cmp_fold l) ↔ ∃ r, r ∈ l ∧ x ∈ r_deletes r.
Proof. induction l as [|r l IH]; simpl; [set_solver|]. rewrite elem_of_app, IH. set_solver. Qed.

Lemma diff_fold_updates l x : x ∈ d_updates (diff_fold l) ↔ ∃ r, r ∈ l ∧ x ∈ d_updates r.
Proof. induction l as [|r l IH]; simpl; [set_solver|]. rewrite elem_of_app, IH. set_solver. Qed.

Lemma diff_fold_deletes l x : x ∈ d_deletes (diff_fold l) ↔ ∃ r, r ∈ l ∧ x ∈ d_deletes r.
Proof. induction l as [|r l IH]; simpl; [set_solver|]. rewrite elem_of_app, IH. set_solver. Qed.

(** ** What the loops compute, by DN *)

Section Sorted.
Context (cs ds : ApicSlice) (Hcs : StronglySorted dn_lt cs) (Hds : StronglySorted dn_lt ds).

(** An object of [cs] that nothing in [ds] asks for, and may be deleted. *)
Definition surplus (c : ApicObject) : Prop :=
  c ∈ cs ∧ GetDn c ∉ (GetDn <$> ds) ∧ checkNonDeletable (class c) = true.

Definition paired (c d : ApicObject) : Prop := c ∈ cs ∧ d ∈ ds ∧ GetDn c = GetDn d.

Lemma children_cmp_update f :
  r_update (children_cmp f cs ds) = true ↔
  (∃ d, d ∈ ds ∧ GetDn d ∉ (GetDn <$> cs)) ∨
  (∃ c d, paired c d ∧ r_update (f c d) = true).
Proof using Hcs Hds.
  rewrite children_cmp_events, cmp_fold_update. split.
  - intros (r&(e&->&He)%list_elem_of_fmap&Hr). apply events_spec in He; [|done..].
    destruct e as [c|d|c d]; simpl in *; [done|left; eauto|right; exists c, d; done].
  - intros [(d&Hd)|(c&d&Hp&Hr)].
    + exists (ev_cmp f (New d)). split; [|done]. apply list_elem_of_fmap_2, events_spec; done.
    + exists (ev_cmp f (Same c d)). split; [|done]. apply list_elem_of_fmap_2, events_spec; done.
Qed.

Lemma children_cmp_deletes f x :
  x ∈ r_deletes (children_cmp f cs ds) ↔
  (∃ c, surplus c ∧ x = GetDn c) ∨ (∃ c d, paired c d ∧ x ∈ r_deletes (f c d)).
Proof using Hcs Hds.
  rewrite children_cmp_events, cmp_fold_deletes. split.
  - intros (r&(e&->&He)%list_elem_of_fmap&Hr). apply events_spec in He; [|done..].
    destruct e as [c|d|c d]; simpl in *.
    + destruct He as [Hc Hd]. destruct (checkNonDeletable (class c)) eqn:E.
      * apply list_elem_of_singleton in Hr as ->. left. exists c. exact (conj (conj Hc (conj Hd E)) eq_refl).
      * apply elem_of_nil in Hr. destruct Hr.
    + apply elem_of_nil in Hr. destruct Hr.
    + right. by exists c, d.
  - intros [(c&(Hc&Hd&E)&->)|(c&d&Hp&Hr)].
    + exists (ev_cmp f (Drop c)). split.
      { apply list_elem_of_fmap_2, events_spec; [exact Hcs|exact Hds|exact (conj Hc Hd)]. }
      simpl. rewrite E. apply list_elem_of_here.
    + exists (ev_cmp f (Same c d)). split; [|done]. by apply list_elem_of_fmap_2, events_spec.
Qed.

Lemma diff_loop_updates cds u :
  u ∈ d_updates (diff_loop cds cs ds) ↔
  (u ∈ ds ∧ GetDn u ∉ (GetDn <$> cs)) ∨
  (∃ c, paired c u ∧ d_updates (diff_same cds c u) = [u]).
Proof using Hcs Hds.
  rewrite diff_loop_events, diff_fold_updates. split.
  - intros (r&(e&->&He)%list_elem_of_fmap&Hr). apply events_spec in He; [|done..].
    destruct e as [c|d|c d]; simpl in *; [set_solver|left; set_solver|right].
    unfold paired. destruct (r_update _) eqn:E; [|set_solver].
    apply list_elem_of_singleton in Hr as ->. eexists. split; [exact He|]. unfold diff_same. simpl. by rewrite E.
  - intros [Hd|(c&Hp&Hr)].
    + exists (ev_diff cds (New u)). split; [by apply list_elem_of_fmap_2, events_spec|set_solver].
    + exists (ev_diff cds (Same c u)). split; [by apply list_elem_of_fmap_2, events_spec|].
      unfold ev_diff. rewrite Hr. set_solver.
Qed.

Lemma diff_loop_deletes cds x :
  x ∈ d_deletes (diff_loop cds cs ds) ↔
  (∃ c, surplus c ∧ x = GetDn c) ∨ (∃ c d, paired c d ∧ x ∈ d_deletes (diff_same cds c d)).
Proof using Hcs Hds.
  rewrite diff_loop_events, diff_fold_deletes. split.
  - intros (r&(e&->&He)%list_elem_of_fmap&Hr). apply events_spec in He; [|done..].
    destruct e as [c|d|c d]; simpl in *.
    + destruct He as [Hc Hd]. destruct (checkNonDeletable (class c)) eqn:E.
      * apply list_elem_of_singleton in Hr as ->. left. exists c. exact (conj (conj Hc (conj Hd E)) eq_refl).
      * apply elem_of_nil in Hr. destruct Hr.
    + apply elem_of_nil in Hr. destruct Hr.
    + right. by exists c, d.
  - intros [(c&(Hc&Hd&E)&->)|(c&d&Hp&Hr)].
    + exists (ev_diff cds (Drop c)). split.
      { apply list_elem_of_fmap_2, events_spec; [exact Hcs|exact Hds|exact (conj Hc Hd)]. }
      simpl. rewrite E. apply list_elem_of_here.
    + exists (ev_diff cds (Same c d)). split; [|done]. by apply list_elem_of_fmap_2, events_spec.
Qed.
End Sorted.

(** ** Subtrees: what it means that nothing changed *)

(** The attributes that the class declares have the same values (a missing
    one stands for its default), but for the graph of a custom service graph,
    and so has the annotation of an object that is not itself a tag. *)
Definition attrs_agree (cl : string) (a b : attrs) : Prop :=
  ∀ md, metadata !! cl = Some md →
  (∀ p def, (p, def) ∈ attributes md →
     default def (a !! p) = default def (b !! p) ∨
     (cl = "vzRsSubjGraphAtt" ∧ p = "tnVnsAbsGraphName" ∧
      is_Some (a !! "forceResolve") ∧ is_Some (b !! "customSG"))) ∧
  (cl = "tagAnnotation" ∨ cl = "tagInst" ∨
   default (AStr EmptyString) (a !! "annotation") =
   default (AStr EmptyString) (b !! "annotation")).

Lemma attr_same_iff cl a b p def :
  attr_same cl a b (p, def) = true ↔
  default def (a !! p) = default def (b !! p) ∨
  (cl = "vzRsSubjGraphAtt" ∧ p = "tnVnsAbsGraphName" ∧
   is_Some (a !! "forceResolve") ∧ is_Some (b !! "customSG")).
Proof.
  unfold attr_same, graft_here.
  rewrite orb_true_iff, !andb_true_iff, !bool_decide_eq_true, !String.eqb_eq. tauto.
Qed.

Lemma annotation_same_iff cl a b :
  annotation_same cl a b = true ↔
  cl = "tagAnnotation" ∨ cl = "tagInst" ∨
  default (AStr EmptyString) (a !! "annotation") = default (AStr EmptyString) (b !! "annotation").
Proof.
  unfold annotation_same.
  rewrite !orb_true_iff, bool_decide_eq_true, !String.eqb_eq. tauto.
Qed.

#[local] Transparent apicBodyAttrCmp.

Lemma body_cmp_agree c d :
  r_update (body_cmp c d) = false ↔ attrs_agree (class c) (Attributes c) (Attributes d).
Proof.
  unfold body_cmp, apicBodyAttrCmp, attrs_agree.
  destruct (metadata !! class c) as [md|]; [|split; [congruence|reflexivity]]. simpl.
  rewrite negb_false_iff, andb_true_iff, forallb_forall, annotation_same_iff. split.
  - intros [Hat Han] md' [= <-]. split; [|exact Han]. intros p def Hp.
    apply attr_same_iff, Hat, list_elem_of_In, Hp.
  - intros H. destruct (H md eq_refl) as [Hat Han]. split; [|exact Han].
    intros [p def] Hp. apply attr_same_iff, Hat, list_elem_of_In, Hp.
Qed.

Lemma body_cmp_deletes c d : r_deletes (body_cmp c d) = [].
Proof. unfold body_cmp. by destruct (apicBodyAttrCmp _ _ _). Qed.

#[local] Opaque apicBodyAttrCmp.

(** [matches c d]: the subtree [c] of the APIC needs neither an update nor a
    delete to agree with the desired [d].  Objects of different classes are
    never compared further. *)
Inductive matches : ApicObject → ApicObject → Prop :=
  | matches_other c d : class c ≠ class d → matches c d
  | matches_same c d :
      class c = class d →
      attrs_agree (class c) (Attributes c) (Attributes d) →
      (∀ d', d' ∈ Children d → GetDn d' ∈ (GetDn <$> Children c)) →
      (∀ c', c' ∈ Children c → checkNonDeletable (class c') = true →
             GetDn c' ∈ (GetDn <$> Children d)) →
      (∀ c' d', c' ∈ Children c → d' ∈ Children d → GetDn c' = GetDn d' → matches c' d') →
      matches c d.

(** The children are sorted strictly by DN at every level. *)
Fixpoint deep_sorted (o : ApicObject) : bool :=
  let 'Obj _ _ _ ch := o in bool_decide (StronglySorted dn_lt ch) && forallb deep_sorted ch.

Lemma deep_sorted_iff o :
  deep_sorted o = true ↔
  StronglySorted dn_lt (Children o) ∧ ∀ c, c ∈ Children o → deep_sorted c = true.
Proof.
  destruct o as [c h a ch]; simpl. rewrite andb_true_iff, bool_decide_eq_true, forallb_forall.
  split; intros [? H]; (split; [done|]); intros x Hx; apply H, list_elem_of_In, Hx.
Qed.

Lemma apicObjCmp_unfold c d :
  apicObjCmp c d =
  if negb (String.eqb (class c) (class d)) then no_change
  else cmp_app (body_cmp c d) (children_cmp apicObjCmp (Children c) (Children d)).
Proof. by destruct c. Qed.

Definition silent (r : cmpResult) : Prop := r_update r = false ∧ ∀ x, x ∉ r_deletes r.

Lemma children_cmp_silent f cs ds :
  StronglySorted dn_lt cs → StronglySorted dn_lt ds →
  silent (children_cmp f cs ds) ↔
  (∀ d, d ∈ ds → GetDn d ∈ (GetDn <$> cs)) ∧
  (∀ c, c ∈ cs → checkNonDeletable (class c) = true → GetDn c ∈ (GetDn <$> ds)) ∧
  (∀ c d, paired cs ds c d → silent (f c d)).
Proof.
  intros Hcs Hds. unfold silent. rewrite <- not_true_iff_false, (children_cmp_update cs ds) by done.
  split.
  - intros [Hu Hx]. split_and!.
    + intros d Hd. destruct (decide (GetDn d ∈ (GetDn <$> cs))) as [?|Hn]; [assumption|].
      destruct Hu. left. exists d. exact (conj Hd Hn).
    + intros c Hc E. destruct (decide (GetDn c ∈ (GetDn <$> ds))) as [?|Hn]; [assumption|].
      destruct (Hx (GetDn c)). apply (children_cmp_deletes cs ds Hcs Hds). left. exists c.
      exact (conj (conj Hc (conj Hn E)) eq_refl).
    + intros c d Hp. split.
      * apply not_true_iff_false. intros Hr. apply Hu. right. by exists c, d.
      * intros x Hr. apply (Hx x), (children_cmp_deletes cs ds Hcs Hds). right. by exists c, d.
  - intros (Hd&Hc&Hp). split.
    + intros [(d&Hin&Hn)|(c&d&Hcd&Hr)]; [exact (Hn (Hd d Hin))|].
      destruct (Hp c d Hcd) as [Hf _]. rewrite Hf in Hr. discriminate.
    + intros x Hr. apply (children_cmp_deletes cs ds Hcs Hds) in Hr as [(c&(Hin&Hn&E)&_)|(c&d&Hcd&Hr)].
      * exact (Hn (Hc c Hin E)).
      * destruct (Hp c d Hcd) as [_ Hf]. exact (Hf x Hr).
Qed.

Lemma cmp_app_silent a b : silent (cmp_app a b) ↔ silent a ∧ silent b.
Proof.
  unfold silent, cmp_app. simpl. rewrite orb_false_iff.
  setoid_rewrite not_elem_of_app. split; [intros [[? ?] Hab]; split; (split; [done|]); intros x; apply (Hab x)|].
  intros [[? Ha] [? Hb]]. split; [done|]. intros x. split; [apply Ha|apply Hb].
Qed.

Lemma body_cmp_silent c d :
  silent (body_cmp c d) ↔ attrs_agree (class c) (Attributes c) (Attributes d).
Proof.
  unfold silent. rewrite body_cmp_agree, body_cmp_deletes.
  split; [tauto|]. intros. split; [done|]. intros x Hx. by apply elem_of_nil in Hx.
Qed.

Lemma apicObjCmp_silent c d :
  deep_sorted c = true → deep_sorted d = true →
  silent (apicObjCmp c d) ↔ matches c d.
Proof.
  revert d. induction c as [cl h a ch IH] using ApicObject_rect'. rewrite Forall_forall in IH.
  intros d Hc Hd. apply deep_sorted_iff in Hc as [Hc Hcc]. apply deep_sorted_iff in Hd as [Hd Hdd].
  rewrite apicObjCmp_unfold. simpl in *.
  destruct (String.eqb_spec cl (class d)) as [E|E]; simpl.
  - rewrite cmp_app_silent, body_cmp_silent, children_cmp_silent by done. simpl.
    assert (Hrec : ∀ c' d', paired ch (Children d) c' d' → silent (apicObjCmp c' d') ↔ matches c' d').
    { intros c' d' (?&?&?). apply IH; auto. }
    split.
    + intros (Ha&H1&H2&H3). apply matches_same; auto. intros c' d' ???.
      apply Hrec, H3; by repeat split.
    + inversion 1 as [? ? Hne|? ? ? Ha H1 H2 H3]; subst; [by destruct Hne|].
      split_and!; auto. intros c' d' Hp. apply Hrec; [done|]. destruct Hp as (?&?&?). by apply H3.
  - split; [intros _; by apply matches_other|]. intros _. split; [done|]. intros x Hx. by apply elem_of_nil in Hx.
Qed.

(** Comparing an object with itself reports nothing. *)
Lemma children_cmp_refl f cs :
  (∀ c, c ∈ cs → silent (f c c)) → silent (children_cmp f cs cs).
Proof.
  induction cs as [|c cs IH]; intros H.
  - split; [done|]. intros x Hx. by apply elem_of_nil in Hx.
  - simpl. rewrite (cmp_refl c c eq_refl). apply cmp_app_silent. split.
    + apply H, list_elem_of_here.
    + apply IH. intros x Hx. by apply H, list_elem_of_further.
Qed.

Lemma apicObjCmp_refl o : silent (apicObjCmp o o).
Proof.
  induction o as [cl h a ch IH] using ApicObject_rect'. rewrite Forall_forall in IH.
  rewrite apicObjCmp_unfold, String.eqb_refl. simpl. apply cmp_app_silent. split.
  - apply body_cmp_silent. intros md _. split; auto.
  - apply children_cmp_refl. exact IH.
Qed.

Lemma diff_loop_refl cds s :
  d_updates (diff_loop cds s s) = [] ∧ d_deletes (diff_loop cds s s) = [].
Proof.
  induction s as [|o s [IHu IHd]]; [done|]. simpl. rewrite (cmp_refl o o eq_refl).
  assert (Hs : silent (if bool_decide (GetDn o ∈ cds) then apicCntCmp o o else apicObjCmp o o)).
  { destruct (bool_decide (GetDn o ∈ cds)); [|apply apicObjCmp_refl].
    unfold apicCntCmp. rewrite String.eqb_refl. simpl. apply body_cmp_silent.
    intros md _. split; auto. }
  unfold diff_app, diff_same. simpl. destruct Hs as [Hu Hd]. rewrite Hu, IHu, IHd. split; [done|].
  rewrite app_nil_r. destruct (r_deletes _) as [|x l]; [done|]. destruct (Hd x). apply list_elem_of_here.
Qed.
