(* ===== verification/Workqueue.v ===== *)
(** * Workqueue: the queue the controller's loops share

    Models client-go's work queue as vendored in
    src/vendor/k8s.io/client-go/util/workqueue/queue.go: [queue] is the order
    of work, [dirty] the items that need work, [processing] those a worker
    holds.  [delayed] holds the items given to [AddRateLimited], which a timer
    adds later ([fire]); how long it waits is not modelled.  The invariant is
    the one the comments of the type state. *)

From S2P Require Import Prelude.

Record Queue := mkQueue {
  queue : list string;
  dirty : gset string;
  processing : gset string;
  delayed : list string;
  shuttingDown : bool
}.

Definition newQueue : Queue := mkQueue [] ∅ ∅ [] false.

Definition Add (item : string) (q : Queue) : Queue :=
  if shuttingDown q then q
  else if bool_decide (item ∈ dirty q) then q
  else if bool_decide (item ∈ processing q)
  then mkQueue (queue q) ({[item]} ∪ dirty q) (processing q) (delayed q) (shuttingDown q)
  else mkQueue (queue q ++ [item]) ({[item]} ∪ dirty q) (processing q) (delayed q) (shuttingDown q).

(** [None] stands for both an empty queue, on which Go waits, and shutdown. *)
Definition Get (q : Queue) : option (string * Queue) :=
  match queue q with
  | [] => None
  | item :: rest =>
      Some (item, mkQueue rest (dirty q ∖ {[item]}) ({[item]} ∪ processing q)
                          (delayed q) (shuttingDown q))
  end.

Definition Done (item : string) (q : Queue) : Queue :=
  let p := processing q ∖ {[item]} in
  if bool_decide (item ∈ dirty q)
  then mkQueue (queue q ++ [item]) (dirty q) p (delayed q) (shuttingDown q)
  else mkQueue (queue q) (dirty q) p (delayed q) (shuttingDown q).

Definition AddRateLimited (item : string) (q : Queue) : Queue :=
  mkQueue (queue q) (dirty q) (processing q) (delayed q ++ [item]) (shuttingDown q).

(** The timer of the [i]-th delayed item runs out. *)
Definition fire (i : nat) (q : Queue) : Queue :=
  match delayed q !! i with
  | Some item =>
      Add item (mkQueue (queue q) (dirty q) (processing q)
                        (delete i (delayed q)) (shuttingDown q))
  | None => q
  end.

Definition ShutDown (q : Queue) : Queue :=
  mkQueue (queue q) (dirty q) (processing q) (delayed q) true.

(** ** The invariant *)

Definition q_inv (q : Queue) : Prop :=
  NoDup (queue q) ∧ ∀ x, x ∈ queue q ↔ x ∈ dirty q ∧ x ∉ processing q.

Inductive q_step : Queue → Queue → Prop :=
  | step_add x q : q_step q (Add x q)
  | step_get q x q' : Get q = Some (x, q') → q_step q q'
  | step_done x q : x ∈ processing q → q_step q (Done x q)
  | step_delay x q : q_step q (AddRateLimited x q)
  | step_fire i q : q_step q (fire i q)
  | step_down q : q_step q (ShutDown q).

Lemma q_inv_new : q_inv newQueue.
Proof. split; [constructor|set_solver]. Qed.

Lemma q_inv_add x q : q_inv q → q_inv (Add x q).
Proof.
  intros [Hnd Hq]. unfold Add. destruct (shuttingDown q); [done|].
  case_bool_decide as Hd; [done|]. case_bool_decide as Hp; split; simpl.
  - done.
  - intros y. rewrite Hq. set_solver.
  - apply NoDup_app. split_and!; [done| |apply NoDup_singleton].
    intros y Hy. rewrite Hq in Hy. set_solver.
  - intros y. rewrite elem_of_app, Hq, list_elem_of_singleton. set_solver.
Qed.

Lemma q_inv_get q x q' : q_inv q → Get q = Some (x, q') → q_inv q'.
Proof.
  intros [Hnd Hq]. unfold Get. destruct (queue q) as [|y l] eqn:E; [done|]. intros [= <- <-].
  apply NoDup_cons in Hnd as [Hy Hnd]. split; [done|]. simpl. intros z.
  specialize (Hq z). rewrite elem_of_cons in Hq. set_solver.
Qed.

Lemma q_inv_done x q : x ∈ processing q → q_inv q → q_inv (Done x q).
Proof.
  intros Hx [Hnd Hq]. unfold Done. case_bool_decide as Hd; split; simpl.
  - apply NoDup_app. split_and!; [done| |apply NoDup_singleton].
    intros y Hy. rewrite Hq in Hy. set_solver.
  - intros y. rewrite elem_of_app, Hq, list_elem_of_singleton.
    destruct (decide (y = x)) as [->|]; set_solver.
  - done.
  - intros y. rewrite Hq. destruct (decide (y = x)) as [->|]; set_solver.
Qed.

Lemma q_inv_fire i q : q_inv q → q_inv (fire i q).
Proof. intros H. unfold fire. destruct (delayed q !! i); [|done]. apply q_inv_add. exact H. Qed.

#[export] Hint Resolve q_inv_new q_inv_add q_inv_get q_inv_done q_inv_fire : go.

Lemma q_inv_step q q' : q_step q q' → q_inv q → q_inv q'.
Proof. destruct 1; eauto with go. Qed.

Lemma q_inv_reachable q q' : rtc q_step q q' → q_inv q → q_inv q'.
Proof. induction 1; eauto using q_inv_step. Qed.
