(* ===== verification/ApicState.v ===== *)
(** * ApicState: the state of an APIC connection

    The part of [ApicConnection] (src/pkg/apicapi/apic_types.go) that its
    operations work on, and the monad they are written in.  [indexMutex]
    guards the tables; an operation that waits for the mutex while it is held
    for good never returns, and so does one that panics: both are [None].
    [sent] and [deleteCalls] record what the connection does to the outside:
    the HTTP requests, in order, and the calls of delete hooks. *)

From S2P Require Import Prelude ApicMetadata ApicTypes Workqueue.

Inductive subKind := apicSubClass | apicSubDn | apicSubTree.

Record subComponent := mkComponent {
  sc_targetClasses : list string;
  sc_respClasses : list string
}.

(** A hook for updates is a function of the object; hooks for deletes are
    known by a number, and calls to them are recorded. *)
Record subscription := mkSub {
  kind : subKind;
  sub_id : string;
  childSubs : gmap string subComponent;
  targetClasses : list string;
  respClasses : list string;
  targetFilter : string;
  updateHook : option (ApicObject → bool);
  deleteHook : option nat
}.

Inductive changeKind := pendingChangeDelete | pendingChangeUpdate.

Record pendingChange := mkPending {
  pc_kind : changeKind;
  subIds : list string;
  isDirty : bool
}.

(** [pendingChange{isDirty: true}]: the other fields are zero values, and zero
    is the kind [pendingChangeDelete]. *)
Definition dirtyChange : pendingChange := mkPending pendingChangeDelete [] true.

Inductive request :=
  | Post (dn : string) (obj : ApicObject)
  | Delete (dn : string)
  | GetSubtree (dn : string) (respClasses : list string)
  | Subscribe (uri : string).

Record Conn := mkConn {
  prefix : string;
  ApicVersion : string;
  indexMutex : bool;
  syncEnabled : bool;
  SyncDone : bool;
  restartCh : bool;
  desiredState : gmap string ApicSlice;
  desiredStateDn : gmap string ApicObject;
  keyHashes : gmap string string;
  containerDns : gset string;
  cachedState : gmap string ApicSlice;
  cacheDnSubIds : gmap string (gset string);
  pendingSubDnUpdate : gmap string pendingChange;
  subs : gmap string subscription;
  ids : gmap string string;
  deltaQueue : option Queue;
  sent : list request;
  deleteCalls : list (nat * string)
}.

Definition set_prefix (v : string) (s : Conn) : Conn :=
  mkConn v (ApicVersion s) (indexMutex s) (syncEnabled s) (SyncDone s) (restartCh s) (desiredState s) (desiredStateDn s) (keyHashes s) (containerDns s) (cachedState s) (cacheDnSubIds s) (pendingSubDnUpdate s) (subs s) (ids s) (deltaQueue s) (sent s) (deleteCalls s).
Definition set_ApicVersion (v : string) (s : Conn) : Conn :=
  mkConn (prefix s) v (indexMutex s) (syncEnabled s) (SyncDone s) (restartCh s) (desiredState s) (desiredStateDn s) (keyHashes s) (containerDns s) (cachedState s) (cacheDnSubIds s) (pendingSubDnUpdate s) (subs s) (ids s) (deltaQueue s) (sent s) (deleteCalls s).
Definition set_indexMutex (v : bool) (s : Conn) : Conn :=
  mkConn (prefix s) (ApicVersion s) v (syncEnabled s) (SyncDone s) (restartCh s) (desiredState s) (desiredStateDn s) (keyHashes s) (containerDns s) (cachedState s) (cacheDnSubIds s) (pendingSubDnUpdate s) (subs s) (ids s) (deltaQueue s) (sent s) (deleteCalls s).
Definition set_syncEnabled (v : bool) (s : Conn) : Conn :=
  mkConn (prefix s) (ApicVersion s) (indexMutex s) v (SyncDone s) (restartCh s) (desiredState s) (desiredStateDn s) (keyHashes s) (containerDns s) (cachedState s) (cacheDnSubIds s) (pendingSubDnUpdate s) (subs s) (ids s) (deltaQueue s) (sent s) (deleteCalls s).
Definition set_SyncDone (v : bool) (s : Conn) : Conn :=
  mkConn (prefix s) (ApicVersion s) (indexMutex s) (syncEnabled s) v (restartCh s) (desiredState s) (desiredStateDn s) (keyHashes s) (containerDns s) (cachedState s) (cacheDnSubIds s) (pendingSubDnUpdate s) (subs s) (ids s) (deltaQueue s) (sent s) (deleteCalls s).
Definition set_restartCh (v : bool) (s : Conn) : Conn :=
  mkConn (prefix s) (ApicVersion s) (indexMutex s) (syncEnabled s) (SyncDone s) v (desiredState s) (desiredStateDn s) (keyHashes s) (containerDns s) (cachedState s) (cacheDnSubIds s) (pendingSubDnUpdate s) (subs s) (ids s) (deltaQueue s) (sent s) (deleteCalls s).
Definition set_desiredState (v : gmap string ApicSlice) (s : Conn) : Conn :=
  mkConn (prefix s) (ApicVersion s) (indexMutex s) (syncEnabled s) (SyncDone s) (restartCh s) v (desiredStateDn s) (keyHashes s) (containerDns s) (cachedState s) (cacheDnSubIds s) (pendingSubDnUpdate s) (subs s) (ids s) (deltaQueue s) (sent s) (deleteCalls s).
Definition set_desiredStateDn (v : gmap string ApicObject) (s : Conn) : Conn :=
  mkConn (prefix s) (ApicVersion s) (indexMutex s) (syncEnabled s) (SyncDone s) (restartCh s) (desiredState s) v (keyHashes s) (containerDns s) (cachedState s) (cacheDnSubIds s) (pendingSubDnUpdate s) (subs s) (ids s) (deltaQueue s) (sent s) (deleteCalls s).
Definition set_keyHashes (v : gmap string string) (s : Conn) : Conn :=
  mkConn (prefix s) (ApicVersion s) (indexMutex s) (syncEnabled s) (SyncDone s) (restartCh s) (desiredState s) (desiredStateDn s) v (containerDns s) (cachedState s) (cacheDnSubIds s) (pendingSubDnUpdate s) (subs s) (ids s) (deltaQueue s) (sent s) (deleteCalls s).
Definition set_containerDns (v : gset string) (s : Conn) : Conn :=
  mkConn (prefix s) (ApicVersion s) (indexMutex s) (syncEnabled s) (SyncDone s) (restartCh s) (desiredState s) (desiredStateDn s) (keyHashes s) v (cachedState s) (cacheDnSubIds s) (pendingSubDnUpdate s) (subs s) (ids s) (deltaQueue s) (sent s) (deleteCalls s).
Definition set_cachedState (v : gmap string ApicSlice) (s : Conn) : Conn :=
  mkConn (prefix s) (ApicVersion s) (indexMutex s) (syncEnabled s) (SyncDone s) (restartCh s) (desiredState s) (desiredStateDn s) (keyHashes s) (containerDns s) v (cacheDnSubIds s) (pendingSubDnUpdate s) (subs s) (ids s) (deltaQueue s) (sent s) (deleteCalls s).
Definition set_cacheDnSubIds (v : gmap string (gset string)) (s : Conn) : Conn :=
  mkConn (prefix s) (ApicVersion s) (indexMutex s) (syncEnabled s) (SyncDone s) (restartCh s) (desiredState s) (desiredStateDn s) (keyHashes s) (containerDns s) (cachedState s) v (pendingSubDnUpdate s) (subs s) (ids s) (deltaQueue s) (sent s) (deleteCalls s).
Definition set_pendingSubDnUpdate (v : gmap string pendingChange) (s : Conn) : Conn :=
  mkConn (prefix s) (ApicVersion s) (indexMutex s) (syncEnabled s) (SyncDone s) (restartCh s) (desiredState s) (desiredStateDn s) (keyHashes s) (containerDns s) (cachedState s) (cacheDnSubIds s) v (subs s) (ids s) (deltaQueue s) (sent s) (deleteCalls s).
Definition set_subs (v : gmap string subscription) (s : Conn) : Conn :=
  mkConn (prefix s) (ApicVersion s) (indexMutex s) (syncEnabled s) (SyncDone s) (restartCh s) (desiredState s) (desiredStateDn s) (keyHashes s) (containerDns s) (cachedState s) (cacheDnSubIds s) (pendingSubDnUpdate s) v (ids s) (deltaQueue s) (sent s) (deleteCalls s).
Definition set_ids (v : gmap string string) (s : Conn) : Conn :=
  mkConn (prefix s) (ApicVersion s) (indexMutex s) (syncEnabled s) (SyncDone s) (restartCh s) (desiredState s) (desiredStateDn s) (keyHashes s) (containerDns s) (cachedState s) (cacheDnSubIds s) (pendingSubDnUpdate s) (subs s) v (deltaQueue s) (sent s) (deleteCalls s).
Definition set_deltaQueue (v : option Queue) (s : Conn) : Conn :=
  mkConn (prefix s) (ApicVersion s) (indexMutex s) (syncEnabled s) (SyncDone s) (restartCh s) (desiredState s) (desiredStateDn s) (keyHashes s) (containerDns s) (cachedState s) (cacheDnSubIds s) (pendingSubDnUpdate s) (subs s) (ids s) v (sent s) (deleteCalls s).
Definition set_sent (v : list request) (s : Conn) : Conn :=
  mkConn (prefix s) (ApicVersion s) (indexMutex s) (syncEnabled s) (SyncDone s) (restartCh s) (desiredState s) (desiredStateDn s) (keyHashes s) (containerDns s) (cachedState s) (cacheDnSubIds s) (pendingSubDnUpdate s) (subs s) (ids s) (deltaQueue s) v (deleteCalls s).
Definition set_deleteCalls (v : list (nat * string)) (s : Conn) : Conn :=
  mkConn (prefix s) (ApicVersion s) (indexMutex s) (syncEnabled s) (SyncDone s) (restartCh s) (desiredState s) (desiredStateDn s) (keyHashes s) (containerDns s) (cachedState s) (cacheDnSubIds s) (pendingSubDnUpdate s) (subs s) (ids s) (deltaQueue s) (sent s) v.

(** [New]: a connection with empty tables. *)
Definition New_connection (pre version : string) : Conn :=
  mkConn pre version false false false false ∅ ∅ ∅ ∅ ∅ ∅ ∅ ∅ ∅ None [] [].

(** ** The monad *)

Definition M (A : Type) : Type := Conn → option (A * Conn).

#[export] Instance M_ret : MRet M := λ A x s, Some (x, s).
#[export] Instance M_bind : MBind M := λ A B f m s,
  match m s with Some (x, s') => f x s' | None => None end.

Definition id_state (s : Conn) : Conn := s.
Definition get {A} (f : Conn → A) : M A := λ s, Some (f s, s).
Definition modify (f : Conn → Conn) : M unit := λ s, Some (tt, f s).

Definition Lock : M unit := λ s,
  if indexMutex s then None else Some (tt, set_indexMutex true s).
Definition Unlock : M unit := λ s,
  if indexMutex s then Some (tt, set_indexMutex false s) else None.

Fixpoint forM {A} (l : list A) (f : A → M unit) : M unit :=
  match l with
  | [] => mret tt
  | x :: l => _ ← f x; forM l f
  end.

(** [queueDn] and the queue of the connection, absent while disconnected. *)
Definition queue_add (dn : string) (s : Conn) : Conn :=
  match deltaQueue s with
  | Some q => set_deltaQueue (Some (Add dn q)) s
  | None => s
  end.

Definition queueDn (dn : string) : M unit :=
  _ ← Lock; _ ← modify (queue_add dn); Unlock.

Definition restart : M unit :=
  _ ← Lock; _ ← modify (set_restartCh false); Unlock.
