(* ===== verification/ApicSync.v ===== *)
(** * ApicSync: writing the desired state and reconciling the APIC with it

    The operations of src/pkg/apicapi/apic_sync.go on the state of
    ApicState.v: preparing objects (sorting, ownership tags, annotations,
    normalized attributes), writing and clearing the objects of a key, the
    full synchronisation after a connect, and reconciling one object that the
    APIC reported. *)

From S2P Require Import Prelude ApicMetadata ApicTypes GoSha ApicDiff Workqueue ApicState.

Open Scope string_scope.

(** ** Preparing objects *)

Definition is_tag_class (cl : string) : bool :=
  String.eqb cl "tagInst" || String.eqb cl "tagAnnotation".

Definition normalize (cl : string) (a : attrs) : attrs :=
  match metadata !! cl with
  | Some md => match normalizer md with Some f => f a | None => a end
  | None => a
  end.

(** The recursion goes down the children, which [SetTag] may have given one
    more child without children of its own; [fuel] bounds the depth. *)
Fixpoint prepare_fuel (fuel : nat) (ver : string) (objects : ApicSlice) (tag : string) : ApicSlice :=
  match fuel with
  | O => objects
  | S fuel =>
      map (λ o,
        let o1 := if is_tag_class (class o) then o
                  else SetAttr (SetTag ver o tag) "annotation"
                         (AStr aciContainersOwnerAnnotation) in
        Obj (class o1) (HintDn o1) (normalize (class o1) (Attributes o1))
            (prepare_fuel fuel ver (Children o1) tag))
        (sort objects)
  end.

Fixpoint height (o : ApicObject) : nat :=
  let 'Obj _ _ _ ch := o in S (foldr (λ c n, Nat.max (height c) n) 0%nat ch).

Definition slice_height (s : ApicSlice) : nat := foldr (λ c n, Nat.max (height c) n) 0%nat s.

Definition prepareApicSliceTag (ver : string) (objects : ApicSlice) (tag : string) : ApicSlice :=
  prepare_fuel (S (slice_height objects)) ver objects tag.

Definition PrepareApicSlice (ver : string) (objects : ApicSlice) (pre key : string) : ApicSlice :=
  prepareApicSliceTag ver objects (getTagFromKey pre key).

(** [prepareApicCache]: give an object that the APIC sent, and the objects
    below it, their DNs, and sort the children; the number of objects is
    counted. *)
Fixpoint prepareApicCache (parentDn : string) (obj : ApicObject) : ApicObject * nat :=
  let dn := BuildDn obj parentDn in
  let 'Obj c h a ch := obj in
  let r := map (prepareApicCache dn) ch in
  (Obj c h (<["dn" := AStr dn]> a) (sort (map fst r)), S (foldr (λ x n, snd x + n) 0 r)%nat).

(** ** Applying a difference *)

Definition sort_strings (l : list string) : list string := merge_sort String.le l.

Definition applyDiff (updates : ApicSlice) (deletes : list string) : M unit :=
  _ ← forM (sort_strings deletes) queueDn;
  forM (map GetDn (sort updates)) queueDn.

(** The overwrites of a comparison, seen by every table that shares the
    desired objects. *)
Definition apply_grafts (g : grafts) (s : Conn) : Conn :=
  match g with
  | [] => s
  | _ => set_desiredState (map (graft g) <$> desiredState s)
           (set_desiredStateDn (graft g <$> desiredStateDn s) s)
  end.

(** ** The index by DN *)

Fixpoint index_obj (obj : ApicObject) (idx : gmap string ApicObject) : gmap string ApicObject :=
  if String.eqb (GetDn obj) EmptyString then idx
  else
    let 'Obj _ _ _ ch := obj in
    foldl (λ idx c, index_obj c idx) (<[GetDn obj := obj]> idx) ch.

Definition updateDnIndex (objects : ApicSlice) (idx : gmap string ApicObject)
  : gmap string ApicObject :=
  foldl (λ idx o, index_obj o idx) idx objects.

(** Every level of the recursion removes an entry, so the size of the index
    bounds its depth. *)
Fixpoint remove_fuel (fuel : nat) (dn : string) (idx : gmap string ApicObject)
  : gmap string ApicObject :=
  match fuel with
  | O => idx
  | S fuel =>
      if String.eqb dn EmptyString then idx
      else
        match idx !! dn with
        | Some obj =>
            foldl (λ idx c, remove_fuel fuel (GetDn c) idx) (delete dn idx) (Children obj)
        | None => idx
        end
  end.

Definition removeFromDnIndex (dn : string) (idx : gmap string ApicObject)
  : gmap string ApicObject := remove_fuel (size idx) dn idx.

(** ** Writing the objects of a key *)

(** [strings.Contains]. *)
Definition Contains (s sub : string) : bool :=
  match String.index 0 sub s with Some _ => true | None => false end.

(** The redirect policies among the deletes add the deletes of their
    destinations; [None] says that the index lacks one of them. *)
Fixpoint redirect_deletes (idx : gmap string ApicObject) (deletes : list string)
  : option (list string) :=
  match deletes with
  | [] => Some []
  | del :: deletes =>
      if Contains del "svcRedirectPol" then
        obj ← idx !! del;
        rest ← redirect_deletes idx deletes;
        Some ((GetDn <$> filter (λ c, class c = "vnsRedirectDest") (Children obj)) ++ rest)%list
      else redirect_deletes idx deletes
  end.

(** [doWriteApicObjects].  A nil slice clears the key.  Where the index lacks
    a redirect policy the function returns early, with the mutex held. *)
Definition doWriteApicObjects (key : string) (objects : option ApicSlice)
    (container : bool) : M unit :=
  pre ← get prefix;
  ver ← get ApicVersion;
  let tag := getTagFromKey pre key in
  let objs0 := prepareApicSliceTag ver (default [] objects) tag in
  _ ← Lock;
  cds ← get containerDns;
  old ← get (λ s, default [] (desiredState s !! key));
  idx ← get desiredStateDn;
  let r := diffApicState cds old objs0 in
  let objs := map (graft (d_grafts r)) objs0 in
  match redirect_deletes idx (d_deletes r) with
  | None => mret tt
  | Some extra =>
      let deletes := (d_deletes r ++ extra)%list in
      _ ← modify (λ s, set_desiredStateDn
             (foldl (λ idx del, removeFromDnIndex del idx)
                (updateDnIndex objs (desiredStateDn s)) deletes) s);
      _ ← modify (λ s,
             if container
             then set_containerDns
                    ((containerDns s ∖ list_to_set deletes)
                     ∪ list_to_set (GetDn <$> d_updates r)) s
             else s);
      _ ← modify (λ s,
             match objects with
             | None => set_desiredState (delete key (desiredState s))
                         (set_keyHashes (delete tag (keyHashes s)) s)
             | Some _ => set_desiredState (<[key := objs]> (desiredState s))
                           (set_keyHashes (<[tag := key]> (keyHashes s)) s)
             end);
      en ← get syncEnabled;
      _ ← Unlock;
      if (en : bool) then applyDiff (d_updates r) deletes else mret tt
  end.

Definition WriteApicContainer (key : string) (objects : option ApicSlice) : M unit :=
  doWriteApicObjects key objects true.
Definition ClearApicContainer (key : string) : M unit := WriteApicContainer key None.
Definition WriteApicObjects (key : string) (objects : option ApicSlice) : M unit :=
  doWriteApicObjects key objects false.
Definition ClearApicObjects (key : string) : M unit := WriteApicObjects key None.
Definition WriteStaticApicObjects (key : string) (objects : option ApicSlice) : M unit :=
  doWriteApicObjects key objects false.

(** ** Full synchronisation *)

(** The state of the two loops of [fullSync]: what they collected. *)
Definition collected := (ApicSlice * list string)%type.

Definition sync_tag (tag : string) (acc : collected) : M collected :=
  current ← get (λ s, sort (default [] (cachedState s !! tag)));
  _ ← modify (λ s, set_cachedState (<[tag := current]> (cachedState s)) s);
  desired ← get (λ s, default [] (desiredState s !! default EmptyString (keyHashes s !! tag)));
  cds ← get containerDns;
  let r := diffApicState cds current desired in
  _ ← modify (apply_grafts (d_grafts r));
  mret (acc.1 ++ d_updates r, acc.2 ++ d_deletes r)%list.

Definition sync_key (pre : string) (key : string) (acc : collected) : M collected :=
  present ← get (λ s, cachedState s !! getTagFromKey pre key);
  desired ← get (λ s, default [] (desiredState s !! key));
  cds ← get containerDns;
  match present with
  | Some _ => mret acc
  | None => mret (acc.1 ++ d_updates (diffApicState cds [] desired), acc.2)%list
  end.

Fixpoint foldM {A B} (f : A → B → M B) (l : list A) (b : B) : M B :=
  match l with
  | [] => mret b
  | x :: l => b' ← f x b; foldM f l b'
  end.

Definition fullSync : M unit :=
  _ ← Lock;
  tags ← get (λ s, (map_to_list (cachedState s)).*1);
  acc ← foldM sync_tag tags ([], []);
  keys ← get (λ s, (map_to_list (desiredState s)).*1);
  pre ← get prefix;
  acc ← foldM (sync_key pre) keys acc;
  _ ← modify (set_syncEnabled true);
  _ ← Unlock;
  _ ← applyDiff acc.1 acc.2;
  modify (set_SyncDone true).

(** The delete hooks of the subscriptions that saw an object before the
    connection was made anew, when the object is gone. *)
Definition call_hook (dn id : string) : M unit :=
  s ← get id_state;
  match ids s !! id ≫= λ value, subs s !! value with
  | Some sub =>
      match deleteHook sub with
      | Some h => modify (λ s, set_deleteCalls (deleteCalls s ++ [(h, dn)])%list s)
      | None => mret tt
      end
  | None => mret tt
  end.

Definition checkDeletes (oldState : gmap string (gset string)) : M unit :=
  _ ← Lock;
  _ ← forM (map_to_list oldState) (λ di,
        found ← get (λ s, cacheDnSubIds s !! di.1);
        match found with
        | Some _ => mret tt
        | None => forM (elements di.2) (call_hook di.1)
        end);
  Unlock.

(** ** Reconciling one object *)

Definition reconcileApicObject (aci : ApicObject) : M unit :=
  _ ← Lock;
  en ← get syncEnabled;
  if negb en then Unlock
  else
    let dn := GetDn aci in
    found ← get (λ s, desiredStateDn s !! dn);
    cds ← get containerDns;
    pre ← get prefix;
    match found with
    | Some eobj =>
        let r := if bool_decide (dn ∈ cds) then apicCntCmp aci eobj
                 else apicObjCmp aci eobj in
        _ ← modify (apply_grafts (r_grafts r));
        _ ← Unlock;
        applyDiff (if r_update r then [eobj] else []) (r_deletes r)
    | None =>
        _ ← Unlock;
        applyDiff [] (if isSyncTag pre (GetTag aci) then [dn] else [])
    end.
