(* ===== verification/ApicConn.v ===== *)
(** * ApicConn: notifications, the work queue and subscriptions

    The operations of src/pkg/apicapi/apicapi.go that keep the APIC and the
    desired state together: websocket notifications, the handling of queued
    DNs, posting, deleting and fetching objects, the subscriptions and the
    start and end of a connection.  The APIC is a function [respond] of the
    requests sent so far and the new one.  Logging, TLS, login and the timing
    of retries are not modelled. *)

From S2P Require Import Prelude ApicMetadata ApicTypes GoSha ApicDiff Workqueue ApicState.
From S2P Require Import ApicSync.

Open Scope string_scope.

(** ** Strings *)

(** [strings.Split(s, "/")] and [strings.Join]. *)
Fixpoint split_slash (s : string) : list string :=
  match s with
  | EmptyString => [EmptyString]
  | String c s =>
      if (Ascii.nat_of_ascii c =? 47)%nat then EmptyString :: split_slash s
      else
        match split_slash s with
        | [] => [String c EmptyString]
        | p :: ps => String c p :: ps
        end
  end.

Fixpoint Join (sep : string) (l : list string) : string :=
  match l with
  | [] => EmptyString
  | [x] => x
  | x :: l => x ++ sep ++ Join sep l
  end.

(** The root of the subtree a DN is in; [None] is the panic of a slice
    expression past the end. *)
Definition getRootDn (dn rootClass : string) : option string :=
  let depth := default 0%nat (classDepth !! rootClass) in
  let parts := split_slash dn in
  if (depth <=? length parts)%nat then Some (Join "/" (take depth parts)) else None.

(** ** Websocket notifications *)

(** One object of a notification: the DN it is about goes to the queue with
    what is known of the change. *)
Definition socket_object (subs_of : list string) (obj : ApicObject) : M unit :=
  match Attributes obj !! "dn", Attributes obj !! "status" with
  | Some (AStr dn), Some (AStr status) =>
      let k := if String.eqb status "deleted" then pendingChangeDelete else pendingChangeUpdate in
      _ ← Lock;
      _ ← modify (λ s, queue_add dn
             (set_pendingSubDnUpdate
                (<[dn := mkPending k subs_of false]> (pendingSubDnUpdate s)) s));
      Unlock
  | _, _ => mret tt
  end.

Definition handleSocketUpdate (subs_of : list string) (imdata : ApicSlice) : M unit :=
  forM imdata (socket_object subs_of).

(** ** Requests *)

Inductive response :=
  | NetError
  | NoRequest      (* the request could not be built *)
  | Resp (status : Z) (body : option ApicSlice) (subscriptionId : option string).

Definition is2xx (status : Z) : bool := ((200 <=? status) && (status <? 300))%Z.

Section Requests.
Variable respond : list request → request → response.

Definition send (r : request) : M response := λ s,
  Some (respond (sent s) r, set_sent (sent s ++ [r])%list s).

(** [postDn] asks for a retry when the APIC rejects the object. *)
Definition postDn (dn : string) (obj : ApicObject) : M bool :=
  r ← send (Post dn obj);
  match r with
  | NetError | NoRequest => _ ← restart; mret false
  | Resp st _ _ =>
      if is2xx st then mret false
      else if (st =? 400)%Z then mret true
      else _ ← restart; mret false
  end.

Definition DeleteDn (dn : string) : M bool :=
  if String.eqb dn EmptyString then mret false
  else
    r ← send (Delete dn);
    match r with
    | NetError | NoRequest => _ ← restart; mret false
    | Resp st _ _ => if is2xx st then mret false else _ ← restart; mret false
    end.

Definition getSubtreeDn (dn : string) (classes : list string)
    (updateHandlers : list (ApicObject → bool)) : M unit :=
  r ← send (GetSubtree dn classes);
  match r with
  | NoRequest => mret tt
  | NetError => restart
  | Resp st body _ =>
      if negb (is2xx st) then restart
      else
        forM (default [] body) (λ obj,
          let obj := fst (prepareApicCache EmptyString obj) in
          if existsb (λ h, h obj) updateHandlers then mret tt
          else reconcileApicObject obj)
  end.

(** ** The work queue *)

(** What [handleId] collects of the subscriptions a change came from. *)
Record collectedSubs := mkColl {
  cl_resp : list string;
  cl_update : list (ApicObject → bool);
  cl_delete : list nat;
  cl_rootDn : string
}.

Definition opt_list {A} (o : option A) : list A :=
  match o with Some x => [x] | None => [] end.

Definition handleId (dn id : string) (acc : collectedSubs) : M collectedSubs :=
  _ ← Lock;
  s ← get id_state;
  r ← match ids s !! id ≫= λ value, (λ sub, (value, sub)) <$> subs s !! value with
      | None => mret acc
      | Some (value, sub) =>
          let classes := match childSubs sub !! id with
                         | Some comp => sc_respClasses comp
                         | None => respClasses sub
                         end in
          let acc' := mkColl (cl_resp acc ++ classes) (cl_update acc ++ opt_list (updateHook sub))
                             (cl_delete acc ++ opt_list (deleteHook sub)) (cl_rootDn acc) in
          match kind sub with
          | apicSubTree =>
              match getRootDn dn value with
              | Some root => mret (mkColl (cl_resp acc') (cl_update acc') (cl_delete acc') root)
              | None => λ _, None
              end
          | _ => mret acc'
          end
      end%list;
  _ ← Unlock;
  mret r.

Definition handleQueuedDn (dn : string) : M bool :=
  _ ← Lock;
  pending ← get (λ s, pendingSubDnUpdate s !! dn);
  _ ← modify (λ s, set_pendingSubDnUpdate (<[dn := dirtyChange]> (pendingSubDnUpdate s)) s);
  desired ← get (λ s, desiredStateDn s !! dn);
  _ ← Unlock;
  acc ← foldM (handleId dn) (match pending with Some p => subIds p | None => [] end)
          (mkColl [] [] [] EmptyString);
  let rootDn := if String.eqb (cl_rootDn acc) EmptyString then dn else cl_rootDn acc in
  match desired, pending with
  | Some obj, Some p =>
      match pc_kind p with
      | pendingChangeDelete => postDn dn obj
      | pendingChangeUpdate =>
          _ ← getSubtreeDn rootDn (cl_resp acc) (cl_update acc); mret false
      end
  | Some obj, None => postDn dn obj
  | None, Some p =>
      match pc_kind p with
      | pendingChangeDelete =>
          _ ← forM (cl_delete acc) (λ h,
                 modify (λ s, set_deleteCalls (deleteCalls s ++ [(h, dn)])%list s));
          if String.eqb dn rootDn then mret false
          else _ ← getSubtreeDn rootDn (cl_resp acc) (cl_update acc); mret false
      | pendingChangeUpdate =>
          _ ← getSubtreeDn rootDn (cl_resp acc) (cl_update acc); mret false
      end
  | None, None => DeleteDn dn
  end.

(** The loop body of [processQueue], in the two halves between which
    notifications and writes of other goroutines fit: taking an item and
    handling it, and settling it. *)
Definition on_queue (f : Queue → Queue) (s : Conn) : Conn :=
  set_deltaQueue (f <$> deltaQueue s) s.

Definition process_take : M (option string) := λ s,
  match deltaQueue s ≫= Get with
  | Some (dn, q) => Some (Some dn, set_deltaQueue (Some q) s)
  | None => Some (None, s)
  end.

Definition process_settle (dn : string) (requeue : bool) : M unit :=
  if requeue then
    _ ← modify (on_queue (AddRateLimited dn)); modify (on_queue (Done dn))
  else
    _ ← Lock;
    _ ← modify (λ s,
           match pendingSubDnUpdate s !! dn with
           | Some p =>
               if isDirty p
               then set_pendingSubDnUpdate (delete dn (pendingSubDnUpdate s)) s else s
           | None => s
           end);
    _ ← Unlock;
    modify (on_queue (Done dn)).

Definition processQueue_step : M unit :=
  item ← process_take;
  match item with
  | None => mret tt
  | Some dn => requeue ← handleQueuedDn dn; process_settle dn requeue
  end.
End Requests.

(** ** Subscriptions *)

(** The visited classes, depth first; [fuel] bounds the depth, and every level
    visits a new class of the table. *)
Fixpoint visit_classes (fuel : nat) (md : gmap string apicMeta) (classes : list string)
    (visited : gset string) : gset string :=
  match fuel with
  | O => visited
  | S fuel =>
      foldl (λ visited cl,
        if bool_decide (cl ∈ visited) then visited
        else
          let visited := {[cl]} ∪ visited in
          match md !! cl with
          | Some m => visit_classes fuel md (meta_children m) visited
          | None => visited
          end) visited classes
  end.

Definition doComputeRespClasses (md : gmap string apicMeta) (classes : list string)
    (visited : gset string) : gset string :=
  visit_classes (S (size md)) md classes visited.

Definition computeRespClasses (md : gmap string apicMeta) (classes : list string) : list string :=
  (elements (doComputeRespClasses md classes ∅ ∖ list_to_set classes) ++ ["tagAnnotation"])%list.

(** A subscription is stored under its class or DN; [AddSubscriptionTree]
    panics for a class whose depth is not known. *)
Definition add_sub (value : string) (sub : subscription) : M unit :=
  _ ← Lock; _ ← modify (λ s, set_subs (<[value := sub]> (subs s)) s); Unlock.

Definition AddSubscriptionTree (cl : string) (targets : list string) (filter_ : string) : M unit :=
  match classDepth !! cl with
  | None => λ _, None
  | Some _ => add_sub cl (mkSub apicSubTree EmptyString ∅ targets [] filter_ None None)
  end.

Definition AddSubscriptionClass (md : gmap string apicMeta) (cl : string)
    (targets : list string) (filter_ : string) : M unit :=
  add_sub cl (mkSub apicSubClass EmptyString ∅ targets (computeRespClasses md targets)
                filter_ None None).

Definition AddSubscriptionDn (md : gmap string apicMeta) (dn : string)
    (targets : list string) : M unit :=
  add_sub dn (mkSub apicSubDn EmptyString ∅ targets (computeRespClasses md targets)
                EmptyString None None).

Definition SetSubscriptionHooks (value : string) (up : option (ApicObject → bool))
    (del : option nat) : M unit :=
  _ ← Lock;
  _ ← modify (λ s,
         match subs s !! value with
         | Some b =>
             set_subs (<[value := mkSub (kind b) (sub_id b) (childSubs b) (targetClasses b)
                                   (respClasses b) (targetFilter b) up del]> (subs s)) s
         | None => s
         end);
  Unlock.

(** ** Subscribing *)

Definition high_cardinality (m : apicMeta) : bool :=
  bool_decide ((list_to_map (hints m) : gmap string attr) !! "cardinality" = Some (AStr "high")).

(** [separateClasses]: the known classes other than the tags, apart by
    cardinality. *)
Definition combinable (md : gmap string apicMeta) (classes : list string) : list string :=
  filter (λ cl, match md !! cl with
                | Some m => negb (String.eqb cl "tagAnnotation") && negb (high_cardinality m)
                | None => false
                end = true) classes.

Definition separable (md : gmap string apicMeta) (classes : list string) : list string :=
  filter (λ cl, match md !! cl with
                | Some m => negb (String.eqb cl "tagAnnotation") && high_cardinality m
                | None => false
                end = true) classes.

(** The first occurrences only. *)
Fixpoint dedup (seen : gset string) (l : list string) : list string :=
  match l with
  | [] => []
  | x :: l => if bool_decide (x ∈ seen) then dedup seen l else x :: dedup ({[x]} ∪ seen) l
  end.

(** One query of a subscription: its arguments and, for the parts of a split
    subscription, the classes of the part. *)
Record query := mkQuery { q_args : list string; q_part : option subComponent }.

(** The queries of a subscription: one, or one for each class when a class of
    high cardinality is among those of the response. *)
Definition subscribe_queries (md : gmap string apicMeta) (sub : subscription) : list query :=
  let base := ["query-target=subtree"; "rsp-subtree=full";
               "target-subtree-class=" ++ Join "," (targetClasses sub)] in
  let flt := if String.eqb (targetFilter sub) EmptyString then []
             else ["query-target-filter=" ++ targetFilter sub] in
  match respClasses sub with
  | [] => [mkQuery (base ++ flt)%list None]
  | resp =>
      match separable md resp with
      | [] =>
          [mkQuery (base ++ ["rsp-subtree-class=" +:+ Join "," (combinable md resp)
                               +:+ ",tagAnnotation"] ++ flt)%list None]
      | sep =>
          let classes := (sep ++ separable md (targetClasses sub) ++
                          combinable md resp ++ combinable md (targetClasses sub))%list in
          map (λ cl,
            mkQuery (["query-target=subtree"; "rsp-subtree=children";
                      "target-subtree-class=" +:+ cl; "rsp-subtree-class=tagAnnotation"] ++ flt)%list
              (Some (mkComponent [cl] (computeRespClasses md [cl]))))
            (dedup ∅ classes)
      end
  end.

Section Subscribing.
Variable respond : list request → request → response.

(** The answer to [doSubscribe], when it succeeds: the objects and the id. *)
Definition doSubscribe (args : list string) (kind_ value refresh : string)
  : M (option (ApicSlice * option string)) :=
  r ← send respond (Subscribe ("/api/" ++ kind_ ++ "/" ++ value ++
                      ".json?subscription=yes&" ++ refresh ++ Join "&" args));
  match r with
  | Resp st (Some objs) id => mret (if is2xx st then Some (objs, id) else None)
  | _ => mret None
  end.

(** One object of the answer: remember which subscription saw its DN, then
    cache it when no hook takes it and it carries a tag of this cluster. *)
Definition subscribed_object (sub : subscription) (subId : string) (obj : ApicObject) : M unit :=
  let dn := GetDn obj in
  if String.eqb dn EmptyString then mret tt
  else
    _ ← Lock;
    _ ← modify (λ s, set_cacheDnSubIds
           (<[dn := {[subId]} ∪ default ∅ (cacheDnSubIds s !! dn)]> (cacheDnSubIds s)) s);
    _ ← Unlock;
    if match updateHook sub with Some h => h obj | None => false end then mret tt
    else
      pre ← get prefix;
      let tag := GetTag obj in
      if negb (isSyncTag pre tag) then mret tt
      else
        _ ← Lock;
        _ ← modify (λ s, set_cachedState
               (<[tag := default [] (cachedState s !! tag) ++
                         [fst (prepareApicCache EmptyString obj)]]>%list (cachedState s)) s);
        Unlock.

(** The id of an answered query goes to the parts of a split subscription, or
    to the subscription itself. *)
Definition record_id (value subId : string) (split : bool) (part : option subComponent)
    (s : Conn) : Conn :=
  let s :=
    match subs s !! value with
    | Some b =>
        let b' :=
          if split
          then mkSub (kind b) (sub_id b)
                 (<[subId := default (mkComponent [] []) part]> (childSubs b))
                 (targetClasses b) (respClasses b) (targetFilter b) (updateHook b) (deleteHook b)
          else mkSub (kind b) subId (childSubs b)
                 (targetClasses b) (respClasses b) (targetFilter b) (updateHook b) (deleteHook b) in
        set_subs (<[value := b']> (subs s)) s
    | None => s
    end in
  set_ids (<[subId := value]> (ids s)) s.

Fixpoint subscribe_loop (value kind_ refresh : string) (sub : subscription) (split : bool)
    (qs : list query) : M bool :=
  match qs with
  | [] => mret true
  | q :: qs =>
      r ← doSubscribe (q_args q) kind_ value refresh;
      match r with
      | Some (objs, Some subId) =>
          _ ← Lock;
          _ ← modify (record_id value subId split (q_part q));
          _ ← Unlock;
          _ ← forM objs (subscribed_object sub subId);
          subscribe_loop value kind_ refresh sub split qs
      | _ => mret false
      end
  end.

(** [subscribe]; [refresh] is the formatted refresh argument. *)
Definition subscribe (md : gmap string apicMeta) (refresh value : string) (sub : subscription)
  : M bool :=
  let qs := subscribe_queries md sub in
  let kind_ := match kind sub with apicSubDn => "mo" | _ => "class" end in
  subscribe_loop value kind_ refresh sub (1 <? length qs)%nat qs.

(** ** The life of a connection *)

(** The parts of [Run] and [runConn] before the subscriptions: forget the ids
    and parts of earlier subscriptions, the caches, and make a new queue; the
    index of the earlier cache is kept for [checkDeletes]. *)
Definition conn_reset : M (gmap string (gset string)) :=
  _ ← modify (λ s, set_ids ∅ (set_subs
         ((λ b, mkSub (kind b) (sub_id b) ∅ (targetClasses b) (respClasses b)
                  (targetFilter b) (updateHook b) (deleteHook b)) <$> subs s) s));
  _ ← modify (set_restartCh true);
  _ ← Lock;
  old ← get cacheDnSubIds;
  _ ← modify (λ s, set_deltaQueue (Some newQueue) (set_cacheDnSubIds ∅ (set_cachedState ∅ s)));
  _ ← Unlock;
  mret old.

Fixpoint subscribe_all (md : gmap string apicMeta) (refresh : string)
    (l : list (string * subscription)) : M bool :=
  match l with
  | [] => mret true
  | (value, sub) :: l =>
      ok ← subscribe md refresh value sub;
      if (ok : bool) then subscribe_all md refresh l else _ ← restart; mret false
  end.

(** A connect: the subscriptions, the deletes that were missed meanwhile and
    the full synchronisation. *)
Definition conn_start (md : gmap string apicMeta) (refresh : string) : M bool :=
  old ← conn_reset;
  l ← get (λ s, map_to_list (subs s));
  ok ← subscribe_all md refresh l;
  if (ok : bool) then _ ← checkDeletes old; _ ← fullSync; mret true else mret false.

(** [closeConn]. *)
Definition closeConn : M unit :=
  _ ← Lock;
  _ ← modify (λ s, set_ids ∅ (set_syncEnabled false (set_deltaQueue None s)));
  Unlock.
End Subscribing.

(** ** Checking the VRF of the cluster *)

(** The relations the APIC reports, sorted, are searched for each expected
    one. *)
Definition SearchStrings (a : list string) (x : string) : nat :=
  Search (length a) (λ i, String.leb x (default EmptyString (a !! i))).

Definition vrf_relations (imdata : ApicSlice) : list string :=
  omap (λ o, match Attributes o !! "tDn" with Some (AStr t) => Some t | _ => None end) imdata.

(** [ValidateAciVrfAssociation] for the answer to its request; the result is
    the error, if any.  An error status of the APIC is returned as the [err]
    of the request that succeeded: nil. *)
Definition ValidateAciVrfAssociation (r : response) (expected : list string) : option string :=
  match r with
  | NoRequest | NetError => Some "request failed"
  | Resp st body _ =>
      if negb (is2xx st) then None
      else
        match body with
        | None => Some "Could not parse APIC response"
        | Some imdata =>
            let dns := sort_strings (vrf_relations imdata) in
            if forallb (λ e, bool_decide (dns !! SearchStrings dns e = Some e)) expected
            then None else Some "Incorrect Pod/NodeBD/L3OUT VRF association"
        end
  end.

(** [GetApicResponse] has the same error path: an error status gives an empty
    answer and no error. *)
Definition GetApicResponse (r : response) : ApicSlice * option string :=
  match r with
  | NoRequest | NetError => ([], Some "request failed")
  | Resp st body _ =>
      if negb (is2xx st) then ([], None)
      else
        match body with
        | None => ([], Some "Could not parse APIC response")
        | Some imdata => (imdata, None)
        end
  end.
