(* ===== verification/ApicPrepFacts.v ===== *)
(** * ApicPrepFacts: tags, normalizers and prepared slices *)

From S2P Require Import Prelude ApicMetadata ApicTypes ApicTypesFacts GoSha ApicDiff.
From S2P Require Import ApicDiffFacts Workqueue ApicState ApicSync.
From Stdlib Require Import Ascii.

Open Scope string_scope.

(** ** Tags of keys *)

Lemma hex_digit_char x : (0 ≤ x < 16)%Z → hex_char (hex_digit x) = true.
Proof.
  intros Hx.
  assert (Hall : forallb (λ n, hex_char (hex_digit (Z.of_nat n))) (seq 0 16) = true)
    by (vm_compute; reflexivity).
  rewrite forallb_forall in Hall. specialize (Hall (Z.to_nat x)).
  rewrite Z2Nat.id in Hall by lia. apply Hall, in_seq. lia.
Qed.

Lemma EncodeToString_hex l n :
  (n <= 2 * length l)%nat → Forall (λ x, 0 ≤ x < 256)%Z l →
  hex_run n (EncodeToString l) = true.
Proof.
  revert n. induction l as [|x l IH]; intros n Hn Hl; simpl in *; [by destruct n; [|lia]|].
  apply Forall_cons in Hl as [Hx Hl]. destruct n as [|[|n]]; [done| |].
  - simpl. rewrite hex_digit_char; [done|]. split; [apply Z.div_pos; lia|apply Z.div_lt_upper_bound; lia].
  - simpl. rewrite !hex_digit_char, IH; [done|lia|done|apply Z.mod_pos_bound; lia|].
    split; [apply Z.div_pos; lia|apply Z.div_lt_upper_bound; lia].
Qed.

Lemma be_bytes_range n x : Forall (λ b, 0 ≤ b < 256)%Z (be_bytes n x).
Proof. induction n; constructor; [apply Z.mod_pos_bound; lia|done]. Qed.

Lemma be_bytes_length n x : length (be_bytes n x) = n.
Proof. induction n; simpl; auto. Qed.

Lemma sha_round_length h kw : length h = 8%nat → length (sha_round h kw) = 8%nat.
Proof. intros H. do 9 (destruct h as [|? h]; [done|]; try done). Qed.

Lemma sha_rounds_length l h : length h = 8%nat → length (foldl sha_round h l) = 8%nat.
Proof.
  revert h. induction l as [|kw l IH]; intros h Hh; [done|]. simpl. apply IH, sha_round_length, Hh.
Qed.

Lemma sha_block_length h b : length h = 8%nat → length (sha_block h b) = 8%nat.
Proof.
  intros Hh. unfold sha_block. rewrite length_zip_with, sha_rounds_length by done. by rewrite Hh.
Qed.

Lemma sha_blocks_length fuel h l : length h = 8%nat → length (sha_blocks fuel h l) = 8%nat.
Proof.
  revert h l. induction fuel as [|fuel IH]; intros h l Hh; [done|].
  destruct l as [|x l]; [done|]. cbn [sha_blocks]. apply IH, sha_block_length, Hh.
Qed.

Lemma mjoin_be_bytes l :
  length (mjoin (map (be_bytes 4) l)) = (4 * length l)%nat ∧
  Forall (λ b, 0 ≤ b < 256)%Z (mjoin (map (be_bytes 4) l)).
Proof.
  induction l as [|x l [IHl IHr]]; [by split; [|constructor]|].
  change (mjoin (map (be_bytes 4) (x :: l))) with (be_bytes 4 x ++ mjoin (map (be_bytes 4) l))%list. split.
  - rewrite length_app, be_bytes_length, IHl. simpl. lia.
  - apply Forall_app. split; [apply be_bytes_range|exact IHr].
Qed.

Lemma Sum256_bytes m : length (Sum256 m) = 32%nat ∧ Forall (λ b, 0 ≤ b < 256)%Z (Sum256 m).
Proof.
  unfold Sum256. destruct (mjoin_be_bytes (sha_blocks (length (sha_pad m)) sha_H0 (sha_pad m))) as [Hl Hr].
  split; [|exact Hr]. rewrite Hl, sha_blocks_length by done. done.
Qed.

(** The tag the connection gives to a key is one it recognises, when the
    prefix ends in a word character. *)
Lemma tagRegexp_cons c s :
  tagRegexp (String c s) =
  (word_char c &&
   match s with
   | String d t => (nat_of_ascii d =? 45)%nat && hex_run 32 t
   | EmptyString => false
   end) || tagRegexp s.
Proof. reflexivity. Qed.

Lemma tagRegexp_append p c t :
  word_char c = true → hex_run 32 t = true →
  tagRegexp (p ++ String c ("-" ++ t)) = true.
Proof.
  intros Hc Ht. induction p as [|x p IH].
  - change (EmptyString ++ String c ("-" ++ t)) with (String c (String "-" t)).
    rewrite tagRegexp_cons, Hc, Ht. done.
  - change (String x p ++ String c ("-" ++ t)) with (String x (p ++ String c ("-" ++ t))).
    rewrite tagRegexp_cons, IH. apply orb_true_r.
Qed.

Lemma prefix_append p t : String.prefix p (p ++ t) = true.
Proof.
  induction p as [|c p IH]; [by destruct t|]. simpl.
  destruct (ascii_dec c c) as [_|N]; [exact IH|by destruct N].
Qed.

Lemma string_app_assoc (a b c : string) : a ++ b ++ c = (a ++ b) ++ c.
Proof.
  induction a as [|x a IH]; [done|].
  change (String x (a ++ b ++ c) = String x ((a ++ b) ++ c)). by rewrite IH.
Qed.

Lemma isSyncTag_getTag p c key :
  word_char c = true →
  isSyncTag (p ++ String c EmptyString) (getTagFromKey (p ++ String c EmptyString) key) = true.
Proof.
  intros Hc. unfold isSyncTag, getTagFromKey.
  assert (E : ∀ t, (p ++ String c EmptyString) ++ t = p ++ String c t).
  { intros t. induction p as [|x p IH]; [done|].
    change (String x ((p ++ String c EmptyString) ++ t) = String x (p ++ String c t)). by rewrite IH. }
  apply andb_true_iff. split.
  - rewrite E. apply tagRegexp_append; [exact Hc|].
    destruct (Sum256_bytes (string_bytes key)) as [Hl Hr].
    apply EncodeToString_hex; [rewrite length_take; lia|by apply Forall_take].
  - rewrite string_app_assoc. apply prefix_append.
Qed.

(** ** Normalizers *)

Lemma ToUpper_idem s : ToUpper (ToUpper s) = ToUpper s.
Proof.
  induction s as [|c s IH]; [done|]. simpl. rewrite IH. f_equal.
  assert (Hall : forallb (λ n, Ascii.eqb (ToUpper_ascii (ToUpper_ascii (ascii_of_nat n)))
                                 (ToUpper_ascii (ascii_of_nat n))) (seq 0 256) = true)
    by (vm_compute; reflexivity).
  rewrite forallb_forall in Hall. specialize (Hall (nat_of_ascii c)).
  rewrite ascii_nat_embedding in Hall. apply Ascii.eqb_eq, Hall, in_seq.
  pose proof (nat_ascii_bounded c). lia.
Qed.

(** A table whose values are not keys rewrites a value once. *)
Lemma normalize_table_idem (t : gmap string string) :
  forallb (λ kv, match t !! kv.2 with None => true | Some _ => false end) (map_to_list t) = true →
  ∀ s, (let f s := match t !! s with Some n => n | None => s end in f (f s) = f s).
Proof.
  intros Ht s. simpl. destruct (t !! s) as [n|] eqn:E.
  - pose proof (map_forallb _ t s n Ht E) as Hn. simpl in Hn. by destruct (t !! n).
  - by rewrite E.
Qed.

Lemma normalizePort_idem p : normalizePort (normalizePort p) = normalizePort p.
Proof. apply (normalize_table_idem portNormalizations). vm_compute. reflexivity. Qed.

Lemma normalizeProto_idem p : normalizeProto (normalizeProto p) = normalizeProto p.
Proof. apply (normalize_table_idem protoNormalizations). vm_compute. reflexivity. Qed.

(** Rewriting with an idempotent function, attribute by attribute. *)
Lemma normalizeAttr_lookup f k b j :
  normalizeAttr f k b !! j =
  if decide (j = k) then (λ v, match v with AStr s => AStr (f s) | _ => v end) <$> b !! j
  else b !! j.
Proof.
  unfold normalizeAttr. destruct (decide (j = k)) as [->|Hj].
  - destruct (b !! k) as [[| | |]|] eqn:E; simpl; rewrite ?lookup_insert_eq, ?E; done.
  - destruct (b !! k) as [[| | |]|] eqn:E; simpl; try done. by rewrite lookup_insert_ne.
Qed.

Lemma normalizePorts_lookup ports b j :
  (∀ s, normalizePort (normalizePort s) = normalizePort s) →
  normalizePorts b ports !! j =
  if decide (j ∈ ports) then (λ v, match v with AStr s => AStr (normalizePort s) | _ => v end) <$> b !! j
  else b !! j.
Proof.
  intros Hid. revert b. induction ports as [|p ports IH]; intros b; [done|].
  unfold normalizePorts in *. simpl. rewrite IH, normalizeAttr_lookup.
  destruct (decide (j ∈ ports)), (decide (j = p)), (decide (j ∈ p :: ports)); try set_solver.
  destruct (b !! j) as [[| | |]|]; simpl; rewrite ?Hid; done.
Qed.

Lemma normalize_both_idem k ports b :
  k ∉ ports →
  let f b := normalizeAttr normalizeProto k (normalizePorts b ports) in f (f b) = f b.
Proof.
  intros Hk. simpl. apply map_eq. intros j.
  rewrite !normalizeAttr_lookup, !(normalizePorts_lookup _ _ _ normalizePort_idem),
    !normalizeAttr_lookup, !(normalizePorts_lookup _ _ _ normalizePort_idem).
  destruct (decide (j = k)) as [->|Hj]; [destruct (decide (k ∈ ports)) as [?|_]; [done|]|].
  - destruct (b !! k) as [[| | |]|]; simpl; rewrite ?normalizeProto_idem; done.
  - destruct (decide (j ∈ ports)); [|done].
    destruct (b !! j) as [[| | |]|]; simpl; rewrite ?normalizePort_idem; done.
Qed.

Lemma redirectDest_idem b : redirectDestNormalizer (redirectDestNormalizer b) = redirectDestNormalizer b.
Proof.
  apply map_eq. intros j. unfold redirectDestNormalizer. rewrite !normalizeAttr_lookup.
  destruct (decide (j = "mac")); [|done].
  destruct (b !! j) as [[| | |]|]; simpl; rewrite ?ToUpper_idem; done.
Qed.

(** The normalizers in the table are the four of the source. *)
Definition known_normalizer (f : attrs → attrs) : Prop :=
  f = redirectDestNormalizer ∨ f = ruleNormalizer ∨ f = filterEntryNormalizer ∨
  f = injectedSvcPortNormalizer.

Lemma known_idem f : known_normalizer f → ∀ b, f (f b) = f b.
Proof.
  intros [-> | [-> | [-> | ->]]] b; [apply redirectDest_idem| | |];
    apply normalize_both_idem; set_solver.
Qed.

#[local] Transparent metadata.

Lemma metadata_normalizers cl md f :
  metadata !! cl = Some md → normalizer md = Some f → known_normalizer f.
Proof.
  intros E. apply elem_of_list_to_map_2 in E. revert f.
  assert (H : Forall (λ e : string * apicMeta, ∀ f, normalizer e.2 = Some f → known_normalizer f)
    (metadata_1 ++ metadata_2 ++ metadata_3 ++ metadata_4 ++ metadata_5 ++ metadata_6 ++ metadata_7)%list).
  { unfold known_normalizer. rewrite !Forall_app. split_and!;
      repeat (apply Forall_cons_2; [intros f; simpl; intros [= <-]; tauto|]); apply Forall_nil_2. }
  rewrite Forall_forall in H. exact (H (cl, md) E).
Qed.

#[local] Opaque metadata.

Lemma normalize_idem cl a : normalize cl (normalize cl a) = normalize cl a.
Proof.
  unfold normalize. destruct (metadata !! cl) as [md|] eqn:E; [|done].
  destruct (normalizer md) as [f|] eqn:F; [|done].
  apply known_idem. exact (metadata_normalizers cl md f E F).
Qed.

(** No normalizer touches the attributes that identify an object. *)
Definition identity_attrs : list string := ["dn"; "annotation"; "key"; "value"; "rn"].

Lemma normalizeAttr_other f k b j : j ≠ k → normalizeAttr f k b !! j = b !! j.
Proof. intros. rewrite normalizeAttr_lookup. by rewrite decide_False. Qed.

Lemma normalizePorts_other ports b j : j ∉ ports → normalizePorts b ports !! j = b !! j.
Proof. intros. rewrite normalizePorts_lookup by apply normalizePort_idem. by rewrite decide_False. Qed.

Lemma normalize_identity cl a j : j ∈ identity_attrs → normalize cl a !! j = a !! j.
Proof.
  intros Hj. unfold normalize. destruct (metadata !! cl) as [md|] eqn:E; [|reflexivity].
  destruct (normalizer md) as [f|] eqn:F; [|reflexivity].
  pose proof (metadata_normalizers cl md f E F) as Hf. clear E F. unfold identity_attrs in Hj.
  destruct Hf as [-> | [-> | [-> | ->]]];
    unfold redirectDestNormalizer, ruleNormalizer, filterEntryNormalizer, injectedSvcPortNormalizer;
    rewrite normalizeAttr_other, ?normalizePorts_other; set_solver.
Qed.

(** ** Tags of objects *)

Definition not_annotation (c : ApicObject) : bool := negb (String.eqb (class c) "tagAnnotation").

Lemma is_tag_class_annotation c : is_tag c = true → class c = "tagAnnotation".
Proof. unfold is_tag. rewrite andb_true_iff, String.eqb_eq. tauto. Qed.

(** What the loop of [SetTag] leaves of the children: with a tag among them,
    the last one gets the new value and the annotations behind it are gone;
    without one, all annotations are gone. *)
Lemma SetTag_loop_spec tag todo kept :
  (∃ t1 c t2, todo = (t1 ++ c :: t2)%list ∧ is_tag c = true ∧
     Forall (λ x, is_tag x = false) t1 ∧
     SetTag_loop tag todo kept =
       (true, reverse t2 ++ SetAttr c "value" (AStr tag) ::
              List.filter not_annotation (reverse t1) ++ kept)%list)
  ∨ (Forall (λ x, is_tag x = false) todo ∧
     SetTag_loop tag todo kept = (false, List.filter not_annotation (reverse todo) ++ kept)%list).
Proof.
  revert kept. induction todo as [|c todo IH]; intros kept.
  - right. split; [constructor|done].
  - destruct (is_tag c) eqn:Hc.
    + left. exists [], c, todo. split_and!; [done..| |]; [constructor|].
      simpl. rewrite (is_tag_class_annotation c Hc), Hc. done.
    + simpl. destruct (String.eqb_spec (class c) "tagAnnotation") as [E|E].
      * assert (Hn : not_annotation c = false) by (unfold not_annotation; rewrite E; done).
        rewrite Hc. destruct (IH kept) as [(t1&x&t2&->&Hx&Ht1&->)|[Hf ->]]; [left|right].
        -- exists (c :: t1), x, t2. split_and!; [done..|by constructor|].
           rewrite reverse_cons, List.filter_app. simpl. by rewrite Hn, app_nil_r.
        -- split; [by constructor|]. rewrite reverse_cons, List.filter_app. simpl. by rewrite Hn, app_nil_r.
      * assert (Hn : not_annotation c = true) by (unfold not_annotation; by rewrite (proj2 (String.eqb_neq _ _) E)).
        destruct (IH (c :: kept)) as [(t1&x&t2&->&Hx&Ht1&->)|[Hf ->]]; [left|right].
        -- exists (c :: t1), x, t2. split_and!; [done..|by constructor|].
           rewrite reverse_cons, List.filter_app. simpl. rewrite Hn. by rewrite <- (assoc (++)%list).
        -- split; [by constructor|]. rewrite reverse_cons, List.filter_app. simpl. rewrite Hn.
           by rewrite <- (assoc (++)%list).
Qed.

Lemma GetTag_filter o :
  GetTag o = match List.filter is_tag (Children o) with
             | c :: _ => GetAttrStr c "value"
             | [] => EmptyString
             end.
Proof.
  unfold GetTag. induction (Children o) as [|c ch IH]; [done|]. simpl.
  destruct (is_tag c); [done|exact IH].
Qed.

Lemma filter_all_false {A} (p : A → bool) l : Forall (λ x, p x = false) l → List.filter p l = [].
Proof. induction 1 as [|x l Hx _ IH]; [done|]. simpl. by rewrite Hx. Qed.

Lemma filter_tags_out l : List.filter is_tag (List.filter not_annotation l) = [].
Proof.
  induction l as [|c l IH]; [done|]. simpl. destruct (not_annotation c) eqn:E; [|exact IH].
  simpl. destruct (is_tag c) eqn:T; [|exact IH].
  apply is_tag_class_annotation in T. unfold not_annotation in E. rewrite T in E. discriminate.
Qed.

Lemma is_tag_SetAttr c v : is_tag (SetAttr c "value" v) = is_tag c.
Proof. destruct c as [cl h a ch]. unfold is_tag. simpl. by rewrite lookup_insert_ne. Qed.

Lemma GetAttrStr_SetAttr c k s : GetAttrStr (SetAttr c k (AStr s)) k = s.
Proof. destruct c as [cl h a ch]. unfold GetAttrStr. simpl. by rewrite lookup_insert_eq. Qed.

Lemma NewTagAnnotation_some ver p k :
  ∃ o, NewTagAnnotation ver p k = Some o ∧ class o = "tagAnnotation" ∧
       Attributes o !! "key" = Some (AStr k) ∧ Children o = [].
Proof.
  unfold NewTagAnnotation, newApicObject.
  destruct (has_class_some "tagAnnotation" ltac:(vm_compute; reflexivity)) as [md E]. rewrite E.
  eexists. split; [reflexivity|]. split; [reflexivity|]. split; [|reflexivity].
  simpl. rewrite lookup_insert_ne by discriminate. apply lookup_insert_eq.
Qed.

(** The tag that [SetTag] adds when there was none. *)
Lemma NewTag_is_tag ver p tag o :
  NewTagAnnotation ver p aciContainersAnnotKey = Some o →
  is_tag (SetAttr o "value" (AStr tag)) = true ∧ Children o = [] ∧ class o = "tagAnnotation".
Proof.
  destruct (NewTagAnnotation_some ver p aciContainersAnnotKey) as (o'&->&Hcl&Hk&Hch). intros [= <-].
  split; [|done]. rewrite is_tag_SetAttr. unfold is_tag. rewrite Hcl, Hk. reflexivity.
Qed.

Definition one_tag_here (ch : ApicSlice) : bool := (length (List.filter is_tag ch) <=? 1)%nat.

(** After [SetTag] an object with a DN, or with a tag, has exactly one tag and
    it is the new one. *)
Lemma SetTag_one ver o tag :
  one_tag_here (Children o) = true →
  GetAttrDn o ≠ EmptyString ∨ existsb is_tag (Children o) = true →
  ∃ c, List.filter is_tag (Children (SetTag ver o tag)) = [c] ∧ GetAttrStr c "value" = tag.
Proof.
  destruct o as [cl h a ch]; simpl. intros Hone Hdn.
  destruct (SetTag_loop_spec tag (reverse ch) []) as [(t1&c&t2&E&Hc&Ht1&->)|[Hf ->]].
  - assert (Hch : ch = (reverse t2 ++ c :: reverse t1)%list).
    { rewrite <- (reverse_involutive ch), E, reverse_app, reverse_cons. by rewrite <- (assoc (++)%list). }
    unfold one_tag_here in Hone. rewrite Hch, List.filter_app in Hone. simpl in Hone. rewrite Hc, length_app in Hone.
    simpl in Hone. apply Nat.leb_le in Hone.
    assert (Hpre : List.filter is_tag (reverse t2) = []) by (destruct (List.filter is_tag (reverse t2)); simpl in *; [done|lia]).
    exists (SetAttr c "value" (AStr tag)). split; [|apply GetAttrStr_SetAttr]. simpl.
    rewrite List.filter_app, Hpre. simpl. rewrite is_tag_SetAttr, Hc, app_nil_r, filter_tags_out. done.
  - rewrite app_nil_r. destruct Hdn as [Hdn|Hex].
    + change (GetAttrDn (Obj cl h a ch)) with (GetAttrDn (Obj cl h a (List.filter not_annotation (reverse (reverse ch))))) in Hdn.
      destruct (String.eqb_spec (GetAttrDn (Obj cl h a (List.filter not_annotation (reverse (reverse ch))))) EmptyString) as [N|_]; [done|].
      simpl. destruct (NewTagAnnotation ver _ _) as [t|] eqn:ET.
      * destruct (NewTag_is_tag _ _ tag _ ET) as [Ht _]. exists (SetAttr t "value" (AStr tag)).
        split; [|apply GetAttrStr_SetAttr]. simpl. rewrite List.filter_app, filter_tags_out. simpl. by rewrite Ht.
      * destruct (NewTagAnnotation_some ver (GetAttrDn (Obj cl h a (List.filter not_annotation (reverse (reverse ch))))) aciContainersAnnotKey) as (t&Et&_).
        rewrite ET in Et. discriminate.
    + exfalso. rewrite Forall_forall in Hf. apply existsb_exists in Hex as (x&Hx&Tx).
      rewrite Hf in Tx; [discriminate|]. apply elem_of_reverse, list_elem_of_In, Hx.
Qed.

Lemma SetTag_same ver o tag :
  class (SetTag ver o tag) = class o ∧ HintDn (SetTag ver o tag) = HintDn o ∧
  Attributes (SetTag ver o tag) = Attributes o.
Proof.
  destruct o as [cl h a ch]; simpl. destruct (SetTag_loop tag (reverse ch) []) as [[] ch']; [done|].
  destruct (negb _); [|done]. by destruct (NewTagAnnotation _ _ _).
Qed.

(** Where the children of a tagged object come from. *)
Lemma SetTag_children ver o tag c :
  c ∈ Children (SetTag ver o tag) →
  (∃ c0, c0 ∈ Children o ∧ class c = class c0 ∧ Children c = Children c0) ∨
  (class c = "tagAnnotation" ∧ Children c = []).
Proof.
  destruct o as [cl h a ch]; simpl. intros Hc.
  assert (Hin : ∀ x, x ∈ List.filter not_annotation (reverse (reverse ch)) → x ∈ ch).
  { intros x Hx. rewrite reverse_involutive in Hx.
    apply list_elem_of_In, List.filter_In in Hx as [Hx _]. by apply list_elem_of_In. }
  destruct (SetTag_loop_spec tag (reverse ch) []) as [(t1&x&t2&E&Hx&Ht1&Heq)|[Hf Heq]]; rewrite Heq in Hc.
  - left. simpl in Hc. apply elem_of_app in Hc as [Hc|Hc].
    + exists c. split; [|done]. apply elem_of_reverse. rewrite E. apply elem_of_reverse in Hc. set_solver.
    + apply elem_of_cons in Hc as [->|Hc].
      * exists x. split; [apply elem_of_reverse; rewrite E; set_solver|]. by destruct x.
      * exists c. split; [|done]. rewrite app_nil_r in Hc.
        apply list_elem_of_In, List.filter_In in Hc as [Hc _]. apply list_elem_of_In, elem_of_reverse in Hc.
        apply elem_of_reverse. rewrite E. set_solver.
  - rewrite app_nil_r in Hc. destruct (negb _); simpl in Hc; [|left; exists c; auto].
    destruct (NewTagAnnotation _ _ _) as [t|] eqn:ET; simpl in Hc; [|left; exists c; auto].
    apply elem_of_app in Hc as [Hc|Hc]; [left; exists c; auto|].
    apply list_elem_of_singleton in Hc as ->. right. destruct (NewTag_is_tag _ _ tag _ ET) as (_&Hch&Hcl).
    clear ET. destruct t. split; [exact Hcl|exact Hch].
Qed.

(** ** Prepared slices *)

(** One round of [prepareApicSliceTag] on an object. *)
Definition prep_head (ver tag : string) (o : ApicObject) : ApicObject :=
  if is_tag_class (class o) then o
  else SetAttr (SetTag ver o tag) "annotation" (AStr aciContainersOwnerAnnotation).

Definition prep_obj (fuel : nat) (ver tag : string) (o : ApicObject) : ApicObject :=
  let o1 := prep_head ver tag o in
  Obj (class o1) (HintDn o1) (normalize (class o1) (Attributes o1))
      (prepare_fuel fuel ver (Children o1) tag).

Lemma prepare_fuel_S fuel ver objs tag :
  prepare_fuel (S fuel) ver objs tag = map (prep_obj fuel ver tag) (sort objs).
Proof. reflexivity. Qed.

Lemma SetAttr_same o k v :
  class (SetAttr o k v) = class o ∧ HintDn (SetAttr o k v) = HintDn o ∧
  Children (SetAttr o k v) = Children o ∧ Attributes (SetAttr o k v) = <[k := v]> (Attributes o).
Proof. by destruct o. Qed.

Lemma prep_head_same ver tag o :
  class (prep_head ver tag o) = class o ∧ HintDn (prep_head ver tag o) = HintDn o ∧
  ∀ k, k ≠ "annotation" → Attributes (prep_head ver tag o) !! k = Attributes o !! k.
Proof.
  unfold prep_head. destruct (is_tag_class (class o)); [done|].
  destruct (SetTag_same ver o tag) as (Hc&Hh&Ha).
  destruct (SetAttr_same (SetTag ver o tag) "annotation" (AStr aciContainersOwnerAnnotation)) as (Ec&Eh&_&Ea).
  rewrite Ec, Eh, Ea, Ha. split_and!; [done..|]. intros k Hk. by rewrite lookup_insert_ne.
Qed.

Lemma prep_obj_attr fuel ver tag o k :
  k ∈ identity_attrs → k ≠ "annotation" →
  Attributes (prep_obj fuel ver tag o) !! k = Attributes o !! k.
Proof.
  intros Hi Hk. simpl. rewrite normalize_identity by done. by apply prep_head_same.
Qed.

Lemma prep_obj_class fuel ver tag o : class (prep_obj fuel ver tag o) = class o.
Proof. simpl. apply prep_head_same. Qed.

Lemma prep_obj_AttrDn fuel ver tag o : GetAttrDn (prep_obj fuel ver tag o) = GetAttrDn o.
Proof.
  unfold GetAttrDn, GetAttrStr. rewrite prep_obj_attr; [done| |discriminate].
  unfold identity_attrs. set_solver.
Qed.

Lemma prep_obj_dn fuel ver tag o : GetDn (prep_obj fuel ver tag o) = GetDn o.
Proof.
  pose proof (prep_obj_AttrDn fuel ver tag o) as Hd. unfold GetDn, GetAttrDn in *. rewrite Hd.
  destruct (String.eqb _ _); [|done]. unfold GetHintDn. simpl. apply prep_head_same.
Qed.

Lemma prep_obj_is_tag fuel ver tag o : is_tag (prep_obj fuel ver tag o) = is_tag o.
Proof.
  unfold is_tag. rewrite prep_obj_class, prep_obj_attr; [done| |discriminate].
  unfold identity_attrs. set_solver.
Qed.

Lemma prep_obj_value fuel ver tag o :
  GetAttrStr (prep_obj fuel ver tag o) "value" = GetAttrStr o "value".
Proof.
  unfold GetAttrStr. rewrite prep_obj_attr; [done| |discriminate].
  unfold identity_attrs. set_solver.
Qed.

Lemma sorted_map (f : ApicObject → ApicObject) s :
  (∀ o, GetDn (f o) = GetDn o) → StronglySorted dn_le s → StronglySorted dn_le (map f s).
Proof.
  intros Hf. induction 1 as [|x s _ IH Hx]; [constructor|]. simpl. constructor; [done|].
  apply Forall_fmap. eapply Forall_impl; [exact Hx|]. intros y. unfold dn_le. simpl. by rewrite !Hf.
Qed.

Lemma prepare_sorted fuel ver objs tag :
  (0 < fuel)%nat ∨ objs = [] → StronglySorted dn_le (prepare_fuel fuel ver objs tag).
Proof.
  destruct fuel as [|fuel]; [intros [?| ->]; [lia|constructor]|intros _].
  rewrite prepare_fuel_S. apply sorted_map; [apply prep_obj_dn|apply sort_sorted].
Qed.

Lemma filter_Permutation_bool {A} (p : A → bool) l1 l2 :
  l1 ≡ₚ l2 → List.filter p l1 ≡ₚ List.filter p l2.
Proof.
  induction 1 as [|x l1 l2 _ IH|x y l|l1 l2 l3 _ IH1 _ IH2]; simpl; [done| | |by etrans].
  - destruct (p x); [by apply Permutation_skip|exact IH].
  - destruct (p x), (p y); first [reflexivity|apply Permutation_swap].
Qed.

(** The tags of a list survive its preparation. *)
Lemma prepare_tags fuel ver objs tag c :
  List.filter is_tag objs = [c] →
  ∃ c', List.filter is_tag (prepare_fuel fuel ver objs tag) = [c'] ∧
        GetAttrStr c' "value" = GetAttrStr c "value".
Proof.
  intros Hc. destruct fuel as [|fuel]; [by exists c|]. rewrite prepare_fuel_S.
  exists (prep_obj fuel ver tag c). split; [|apply prep_obj_value].
  assert (Hs : List.filter is_tag (sort objs) = [c]).
  { apply Permutation_singleton_r. rewrite <- Hc. apply filter_Permutation_bool, sort_Permutation. }
  rewrite <- (app_nil_r [c]) in Hs.
  revert Hs. generalize (sort objs). intros l Hl.
  assert (E : List.filter is_tag (map (prep_obj fuel ver tag) l) =
              map (prep_obj fuel ver tag) (List.filter is_tag l)).
  { clear. induction l as [|x l IH]; [done|]. simpl map. simpl List.filter.
    rewrite prep_obj_is_tag. destruct (is_tag x); [simpl; by rewrite IH|exact IH]. }
  rewrite E, Hl. done.
Qed.

(** At every level at most one child is a tag of the controller. *)
Fixpoint one_tag (o : ApicObject) : bool :=
  let 'Obj _ _ _ ch := o in one_tag_here ch && forallb one_tag ch.

Lemma one_tag_iff o :
  one_tag o = true ↔ one_tag_here (Children o) = true ∧ ∀ c, c ∈ Children o → one_tag c = true.
Proof.
  destruct o as [cl h a ch]; simpl. rewrite andb_true_iff, forallb_forall.
  split; intros [? H]; (split; [done|]); intros x Hx; apply H, list_elem_of_In, Hx.
Qed.

(** A prepared object: its children are sorted and prepared, and unless it is
    a tag itself it carries the owner's annotation and, when it has a DN, the
    tag; its attributes are in the form its normalizer gives them. *)
Inductive prepared (tag : string) : ApicObject → Prop :=
  | prepared_intro o :
      StronglySorted dn_le (Children o) →
      Forall (prepared tag) (Children o) →
      normalize (class o) (Attributes o) = Attributes o →
      (is_tag_class (class o) = false →
       Attributes o !! "annotation" = Some (AStr aciContainersOwnerAnnotation) ∧
       (GetAttrDn o ≠ EmptyString → GetTag o = tag)) →
      prepared tag o.

(** The depth the preparation of an object goes down to: the tag that it may
    get is one level below the object. *)
Definition rank (o : ApicObject) : nat :=
  match Children o with
  | [] => if is_tag_class (class o) then 1%nat else 2%nat
  | _ => S (height o)
  end.

Lemma height_child o c : c ∈ Children o → (height c < height o)%nat.
Proof.
  destruct o as [cl h a ch]; simpl. induction ch as [|x ch IH]; intros Hc; [by apply elem_of_nil in Hc|].
  apply elem_of_cons in Hc as [->|Hc]; simpl; [|apply IH in Hc]; lia.
Qed.

Lemma rank_le o : (rank o <= S (height o))%nat.
Proof. unfold rank. destruct o as [cl h a [|x ch]]; simpl; [destruct (is_tag_class cl)|]; lia. Qed.

Lemma rank_pos o : (1 <= rank o)%nat.
Proof. unfold rank. destruct (Children o); [destruct (is_tag_class _)|]; lia. Qed.

Lemma height_children a b : Children a = Children b → height a = height b.
Proof. destruct a, b. simpl. by intros ->. Qed.

Lemma prep_head_children ver tag o c :
  c ∈ Children (prep_head ver tag o) →
  (∃ c0, c0 ∈ Children o ∧ class c = class c0 ∧ Children c = Children c0) ∨
  (is_tag_class (class o) = false ∧ class c = "tagAnnotation" ∧ Children c = []).
Proof.
  unfold prep_head. destruct (is_tag_class (class o)) eqn:E; [left; by exists c|].
  destruct (SetAttr_same (SetTag ver o tag) "annotation" (AStr aciContainersOwnerAnnotation)) as (_&_&->&_).
  intros [?|?]%SetTag_children; [by left|by right].
Qed.

Lemma prep_head_rank ver tag o c :
  c ∈ Children (prep_head ver tag o) → (S (rank c) <= rank o)%nat.
Proof.
  intros [(c0&Hin&Hcl&Hch)|(Ht&Hcl&Hch)]%prep_head_children.
  - pose proof (height_child o c0 Hin). pose proof (rank_le c).
    rewrite (height_children c c0 Hch) in *. unfold rank at 2.
    destruct (Children o); [by apply elem_of_nil in Hin|lia].
  - unfold rank at 1. rewrite Hch, Hcl. simpl. unfold rank.
    destruct o as [cl h a [|x ch]]; simpl in *; [rewrite Ht|]; lia.
Qed.

Lemma prep_head_one_tag ver tag o :
  one_tag o = true → ∀ c, c ∈ Children (prep_head ver tag o) → one_tag c = true.
Proof.
  intros [_ Ho]%one_tag_iff c [(c0&Hin&_&Hch)|(_&_&Hch)]%prep_head_children; apply one_tag_iff.
  - rewrite Hch. apply one_tag_iff, Ho, Hin.
  - rewrite Hch. split; [done|]. intros x Hx. by apply elem_of_nil in Hx.
Qed.

Lemma prep_obj_tag fuel ver tag o :
  one_tag o = true → is_tag_class (class o) = false →
  GetAttrDn o ≠ EmptyString → GetTag (prep_obj fuel ver tag o) = tag.
Proof.
  intros [Hone _]%one_tag_iff Hcl Hdn.
  destruct (SetTag_one ver o tag Hone (or_introl Hdn)) as (c&Hc&Hv).
  rewrite GetTag_filter. unfold prep_obj, prep_head. rewrite Hcl. simpl.
  destruct (SetAttr_same (SetTag ver o tag) "annotation" (AStr aciContainersOwnerAnnotation)) as (_&_&->&_).
  destruct (prepare_tags fuel ver _ tag c Hc) as (c'&->&->). exact Hv.
Qed.

Lemma prep_obj_annotation fuel ver tag o :
  is_tag_class (class o) = false →
  Attributes (prep_obj fuel ver tag o) !! "annotation" = Some (AStr aciContainersOwnerAnnotation).
Proof.
  intros Hcl. simpl. rewrite normalize_identity by (unfold identity_attrs; set_solver).
  unfold prep_head. rewrite Hcl.
  destruct (SetAttr_same (SetTag ver o tag) "annotation" (AStr aciContainersOwnerAnnotation)) as (_&_&_&->).
  apply lookup_insert_eq.
Qed.

Lemma prepare_fuel_prepared fuel ver objs tag :
  (∀ o, o ∈ objs → (rank o <= fuel)%nat) → (∀ o, o ∈ objs → one_tag o = true) →
  StronglySorted dn_le (prepare_fuel fuel ver objs tag) ∧
  Forall (prepared tag) (prepare_fuel fuel ver objs tag).
Proof.
  revert objs. induction fuel as [|fuel IH]; intros objs Hr Hone.
  { destruct objs as [|o objs]; [by split; constructor|].
    pose proof (rank_pos o). specialize (Hr o (list_elem_of_here _ _)). lia. }
  split; [apply prepare_sorted; lia|]. rewrite prepare_fuel_S. apply Forall_fmap, Forall_forall.
  intros o Ho. rewrite sort_Permutation in Ho. specialize (Hr o Ho). specialize (Hone o Ho).
  destruct (IH (Children (prep_head ver tag o))) as [Hs Hp].
  { intros c Hc. pose proof (prep_head_rank ver tag o c Hc). lia. }
  { apply prep_head_one_tag, Hone. }
  constructor; [exact Hs|exact Hp|apply normalize_idem|]. intros Hcl.
  assert (Hcl' : is_tag_class (class o) = false) by (rewrite <- Hcl; by rewrite prep_obj_class).
  split; [by apply prep_obj_annotation|]. rewrite prep_obj_AttrDn. by apply prep_obj_tag.
Qed.

Lemma slice_height_le objs o : o ∈ objs → (height o <= slice_height objs)%nat.
Proof.
  induction objs as [|x objs IH]; intros Ho; [by apply elem_of_nil in Ho|].
  apply elem_of_cons in Ho as [->|Ho]; simpl; [|apply IH in Ho]; lia.
Qed.

Lemma prepareApicSliceTag_prepared ver objs tag :
  forallb one_tag objs = true →
  StronglySorted dn_le (prepareApicSliceTag ver objs tag) ∧
  Forall (prepared tag) (prepareApicSliceTag ver objs tag).
Proof.
  intros Hone. rewrite forallb_forall in Hone. apply prepare_fuel_prepared.
  - intros o Ho. pose proof (rank_le o). pose proof (slice_height_le objs o Ho). lia.
  - intros o Ho. apply Hone, list_elem_of_In, Ho.
Qed.

(** The top-level DNs are those of the slice given. *)
Lemma prepareApicSliceTag_dns ver objs tag :
  GetDn <$> prepareApicSliceTag ver objs tag ≡ₚ GetDn <$> objs.
Proof.
  unfold prepareApicSliceTag. rewrite prepare_fuel_S.
  rewrite <- (sort_Permutation objs) at 3. rewrite <- list_fmap_compose.
  apply Permutation_refl', list_fmap_ext. intros _ o _. simpl. apply prep_obj_dn.
Qed.
