(* ===== verification/ApicConnFacts.v ===== *)
(** * ApicConnFacts: running the operations of a connection *)

From S2P Require Import Prelude ApicMetadata ApicTypes ApicTypesFacts GoSha ApicDiff.
From S2P Require Import ApicDiffFacts Workqueue ApicState ApicSync ApicPrepFacts ApicConn.

Open Scope string_scope.

(** ** Running the monad *)

Lemma bind_run {A B} (m : M A) (f : A → M B) s x s' :
  m s = Some (x, s') → (m ≫= f) s = f x s'.
Proof. intros E. unfold mbind, M_bind. by rewrite E. Qed.

Lemma ret_run {A} (x : A) s : (mret x : M A) s = Some (x, s).
Proof. reflexivity. Qed.

Lemma get_run {A} (f : Conn → A) s : get f s = Some (f s, s).
Proof. reflexivity. Qed.

Lemma modify_run f s : modify f s = Some (tt, f s).
Proof. reflexivity. Qed.

Lemma Lock_run s : indexMutex s = false → Lock s = Some (tt, set_indexMutex true s).
Proof. intros E. unfold Lock. by rewrite E. Qed.

Lemma Unlock_run s : indexMutex s = true → Unlock s = Some (tt, set_indexMutex false s).
Proof. intros E. unfold Unlock. by rewrite E. Qed.

(** Step through an operation whose mutex state is known. *)
Ltac mstep :=
  first
    [ rewrite (bind_run _ _ _ _ _ (get_run _ _))
    | rewrite (bind_run _ _ _ _ _ (modify_run _ _))
    | rewrite (bind_run _ _ _ _ _ (ret_run _ _))
    | erewrite (bind_run Lock) by (apply Lock_run; first [assumption|reflexivity])
    | erewrite (bind_run Unlock) by (apply Unlock_run; first [assumption|reflexivity]) ].

Lemma queue_add_mutex b dn s : queue_add dn (set_indexMutex b s) = set_indexMutex b (queue_add dn s).
Proof. unfold queue_add. simpl. by destruct (deltaQueue s). Qed.

Lemma queue_add_keeps dn s :
  indexMutex (queue_add dn s) = indexMutex s ∧
  desiredState (queue_add dn s) = desiredState s ∧
  desiredStateDn (queue_add dn s) = desiredStateDn s ∧
  keyHashes (queue_add dn s) = keyHashes s ∧
  containerDns (queue_add dn s) = containerDns s ∧
  pendingSubDnUpdate (queue_add dn s) = pendingSubDnUpdate s ∧
  sent (queue_add dn s) = sent s ∧ syncEnabled (queue_add dn s) = syncEnabled s ∧
  deltaQueue (queue_add dn s) = Add dn <$> deltaQueue s.
Proof. unfold queue_add. destruct s. simpl. by destruct deltaQueue. Qed.

Lemma set_mutex_same s : indexMutex s = false → set_indexMutex false (set_indexMutex true s) = s.
Proof. destruct s. simpl. by intros ->. Qed.

Lemma set_mutex_id s : indexMutex s = false → set_indexMutex false s = s.
Proof. destruct s. simpl. by intros ->. Qed.

Lemma queueDn_run dn s : indexMutex s = false → queueDn dn s = Some (tt, queue_add dn s).
Proof.
  intros E. unfold queueDn. mstep. mstep. rewrite queue_add_mutex.
  rewrite Unlock_run by reflexivity.
  do 2 f_equal. change (set_indexMutex false (set_indexMutex true (queue_add dn s)) = queue_add dn s).
  apply set_mutex_same. by rewrite (proj1 (queue_add_keeps dn s)).
Qed.

Definition queue_adds (l : list string) (s : Conn) : Conn := foldl (λ s dn, queue_add dn s) s l.

Lemma queue_adds_cons x l s : queue_adds (x :: l) s = queue_adds l (queue_add x s).
Proof. reflexivity. Qed.

Lemma queue_adds_mutex l s : indexMutex (queue_adds l s) = indexMutex s.
Proof.
  revert s. induction l as [|x l IH]; intros s; [done|]. rewrite queue_adds_cons, IH.
  apply queue_add_keeps.
Qed.

Lemma forM_queueDn l s : indexMutex s = false → forM l queueDn s = Some (tt, queue_adds l s).
Proof.
  revert s. induction l as [|x l IH]; intros s E; [done|]. simpl.
  rewrite (bind_run _ _ _ _ _ (queueDn_run x s E)). apply IH. by rewrite (proj1 (queue_add_keeps x s)).
Qed.

Lemma queue_adds_app l1 l2 s : queue_adds (l1 ++ l2)%list s = queue_adds l2 (queue_adds l1 s).
Proof. apply foldl_app. Qed.

(** The order in which a difference is queued. *)
Definition diff_order (updates : ApicSlice) (deletes : list string) : list string :=
  (sort_strings deletes ++ (GetDn <$> sort updates))%list.

Lemma applyDiff_run u d s :
  indexMutex s = false → applyDiff u d s = Some (tt, queue_adds (diff_order u d) s).
Proof.
  intros E. unfold applyDiff, diff_order. rewrite (bind_run _ _ _ _ _ (forM_queueDn _ s E)).
  rewrite forM_queueDn by (by rewrite queue_adds_mutex). by rewrite queue_adds_app.
Qed.

Lemma diff_order_in u d x : x ∈ diff_order u d ↔ x ∈ d ∨ x ∈ (GetDn <$> u).
Proof.
  unfold diff_order. rewrite elem_of_app. unfold sort_strings. rewrite merge_sort_Permutation.
  by rewrite sort_Permutation.
Qed.

(** What the queue holds afterwards. *)
Lemma Add_dirty x q : shuttingDown q = false → dirty (Add x q) = {[x]} ∪ dirty q.
Proof.
  intros E. unfold Add. rewrite E. case_bool_decide; [set_solver|]. by case_bool_decide.
Qed.

Lemma Add_down x q : shuttingDown (Add x q) = shuttingDown q.
Proof. unfold Add. destruct (shuttingDown q) eqn:E; [done|]. by repeat case_bool_decide. Qed.

Lemma Add_processing x q : processing (Add x q) = processing q.
Proof. unfold Add. destruct (shuttingDown q) eqn:E; [done|]. by repeat case_bool_decide. Qed.

Lemma queue_adds_queue l s q :
  deltaQueue s = Some q → shuttingDown q = false →
  ∃ q', deltaQueue (queue_adds l s) = Some q' ∧ shuttingDown q' = false ∧
        ∀ x, x ∈ dirty q' ↔ x ∈ dirty q ∨ x ∈ l.
Proof.
  revert s q. induction l as [|y l IH]; intros s q Eq Ed.
  - exists q. split_and!; [done..|]. set_solver.
  - rewrite queue_adds_cons. destruct (IH (queue_add y s) (Add y q)) as (q'&Hq'&Hd'&Hx).
    + destruct (queue_add_keeps y s) as (_&_&_&_&_&_&_&_&->). by rewrite Eq.
    + by rewrite Add_down.
    + exists q'. split_and!; [done..|]. intros x. rewrite Hx, Add_dirty by done. set_solver.
Qed.

Lemma queue_adds_keeps l s :
  desiredState (queue_adds l s) = desiredState s ∧
  desiredStateDn (queue_adds l s) = desiredStateDn s ∧
  keyHashes (queue_adds l s) = keyHashes s ∧
  pendingSubDnUpdate (queue_adds l s) = pendingSubDnUpdate s ∧
  sent (queue_adds l s) = sent s ∧ syncEnabled (queue_adds l s) = syncEnabled s.
Proof.
  revert s. induction l as [|x l IH]; intros s; [done|]. rewrite queue_adds_cons.
  destruct (IH (queue_add x s)) as (->&->&->&->&->&->).
  destruct (queue_add_keeps x s) as (_&->&->&->&_&->&->&->&_). done.
Qed.

(** ** Writing a key *)

(** The inputs of the comparison of a write. *)
Definition write_objs (s : Conn) (key : string) (objects : option ApicSlice) : ApicSlice :=
  prepareApicSliceTag (ApicVersion s) (default [] objects) (getTagFromKey (prefix s) key).

Definition write_diff (s : Conn) (key : string) (objects : option ApicSlice) : diffResult :=
  diffApicState (containerDns s) (default [] (desiredState s !! key)) (write_objs s key objects).

Lemma doWrite_run key objects container s extra :
  indexMutex s = false →
  redirect_deletes (desiredStateDn s) (d_deletes (write_diff s key objects)) = Some extra →
  let r := write_diff s key objects in
  let objs := map (graft (d_grafts r)) (write_objs s key objects) in
  let deletes := (d_deletes r ++ extra)%list in
  let tag := getTagFromKey (prefix s) key in
  ∃ s', doWriteApicObjects key objects container s = Some (tt, s') ∧
    indexMutex s' = false ∧
    desiredState s' = match objects with
                      | None => delete key (desiredState s)
                      | Some _ => <[key := objs]> (desiredState s)
                      end ∧
    keyHashes s' = match objects with
                   | None => delete tag (keyHashes s)
                   | Some _ => <[tag := key]> (keyHashes s)
                   end ∧
    desiredStateDn s' = foldl (λ idx del, removeFromDnIndex del idx)
                          (updateDnIndex objs (desiredStateDn s)) deletes ∧
    deltaQueue s' = deltaQueue (if syncEnabled s
                                then queue_adds (diff_order (d_updates r) deletes) s else s) ∧
    pendingSubDnUpdate s' = pendingSubDnUpdate s ∧ sent s' = sent s.
Proof.
  intros E Hred r objs deletes tag.
  unfold doWriteApicObjects. do 2 mstep. mstep. do 3 mstep.
  change (containerDns (set_indexMutex true s)) with (containerDns s).
  change (desiredState (set_indexMutex true s)) with (desiredState s).
  change (desiredStateDn (set_indexMutex true s)) with (desiredStateDn s).
  fold tag. change (prepareApicSliceTag (ApicVersion s) (default [] objects) tag) with (write_objs s key objects).
  change (diffApicState (containerDns s) (default [] (desiredState s !! key)) (write_objs s key objects)) with r.
  change (d_deletes r) with (d_deletes (write_diff s key objects)). rewrite Hred. fold r.
  fold objs. fold deletes. do 4 mstep.
  set (s1 := set_desiredStateDn _ _). set (s2 := if container then _ else _).
  set (s3 := match objects with Some _ => _ | None => _ end).
  assert (H3 : indexMutex s3 = true) by (unfold s3, s2; by destruct objects, container).
  erewrite (bind_run Unlock) by (apply Unlock_run, H3).
  assert (Een : syncEnabled s3 = syncEnabled s) by (unfold s3, s2; by destruct objects, container).
  assert (Hq : deltaQueue (set_indexMutex false s3) = deltaQueue s)
    by (unfold s3, s2; by destruct objects, container).
  assert (Hf : desiredState (set_indexMutex false s3) = match objects with
                      | None => delete key (desiredState s) | Some _ => <[key := objs]> (desiredState s) end ∧
    keyHashes (set_indexMutex false s3) = match objects with
                   | None => delete tag (keyHashes s) | Some _ => <[tag := key]> (keyHashes s) end ∧
    desiredStateDn (set_indexMutex false s3) = foldl (λ idx del, removeFromDnIndex del idx)
                          (updateDnIndex objs (desiredStateDn s)) deletes ∧
    pendingSubDnUpdate (set_indexMutex false s3) = pendingSubDnUpdate s ∧
    sent (set_indexMutex false s3) = sent s)
    by (unfold s3, s2, s1; by destruct objects, container).
  rewrite Een. destruct (syncEnabled s).
  - rewrite applyDiff_run by reflexivity. eexists. split; [reflexivity|].
    destruct (queue_adds_keeps (diff_order (d_updates r) deletes) (set_indexMutex false s3)) as (->&->&->&->&->&_).
    rewrite queue_adds_mutex. split; [done|]. destruct Hf as (?&?&?&?&?). split_and!; [done..| |done|done].
    revert Hq. generalize (diff_order (d_updates r) deletes) (set_indexMutex false s3). clear.
    intros l. revert s. induction l as [|x l IH]; intros s s' Hq; [done|]. rewrite !queue_adds_cons. apply IH.
    destruct (queue_add_keeps x s) as (_&_&_&_&_&_&_&_&->).
    destruct (queue_add_keeps x s') as (_&_&_&_&_&_&_&_&->). by rewrite Hq.
  - eexists. split; [reflexivity|]. destruct Hf as (?&?&?&?&?). split_and!; done.
Qed.

(** ** The classes of a response *)

Definition children_of (md : gmap string apicMeta) (cl : string) : list string :=
  match md !! cl with Some m => meta_children m | None => [] end.

Inductive reach (md : gmap string apicMeta) (targets : list string) : string → Prop :=
  | reach_target cl : cl ∈ targets → reach md targets cl
  | reach_child cl d : reach md targets cl → d ∈ children_of md cl → reach md targets d.

Lemma reach_mono md t1 t2 cl :
  (∀ x, x ∈ t1 → reach md t2 x) → reach md t1 cl → reach md t2 cl.
Proof. intros H. induction 1 as [cl Hc|cl d _ IH Hd]; [by apply H|by eapply reach_child]. Qed.

(** What a depth-first visit adds to the classes already visited. *)
Definition visited_ok (md : gmap string apicMeta) (ts : list string) (V V' : gset string) : Prop :=
  V ⊆ V' ∧ (∀ c, c ∈ ts → c ∈ V') ∧
  (∀ c, c ∈ V' → c ∉ V → ∀ d, d ∈ children_of md c → d ∈ V') ∧
  (∀ c, c ∈ V' → c ∈ V ∨ reach md ts c).

Lemma visited_ok_cons md x ts V V1 V' :
  visited_ok md [x] V V1 → visited_ok md ts V1 V' → visited_ok md (x :: ts) V V'.
Proof.
  intros (H1&H2&H3&H4) (K1&K2&K3&K4). split_and!.
  - set_solver.
  - intros c. rewrite elem_of_cons. intros [->|?]; [apply K1, H2; set_solver|auto].
  - intros c Hc Hn d Hd. destruct (decide (c ∈ V1)); [apply K1; eauto|eauto].
  - intros c Hc. destruct (K4 c Hc) as [Hc1|Hr].
    + destruct (H4 c Hc1) as [?|Hr]; [by left|right]. eapply reach_mono; [|exact Hr].
      intros y Hy. apply reach_target. set_solver.
    + right. eapply reach_mono; [|exact Hr]. intros y Hy. apply reach_target. set_solver.
Qed.

Lemma visit_step_ok md x V V' :
  x ∉ V → visited_ok md (children_of md x) ({[x]} ∪ V) V' → visited_ok md [x] V V'.
Proof.
  intros Hx (H1&H2&H3&H4). split_and!.
  - set_solver.
  - set_solver.
  - intros c Hc Hn d Hd. destruct (decide (c = x)) as [->|Hne]; [by apply H2|].
    eapply H3; [exact Hc|set_solver|exact Hd].
  - intros c Hc. destruct (H4 c Hc) as [Hc1|Hr].
    + destruct (decide (c = x)) as [->|]; [right; apply reach_target; set_solver|left; set_solver].
    + right. eapply reach_mono; [|exact Hr]. intros y Hy.
      eapply (reach_child _ _ x); [apply reach_target, list_elem_of_here|exact Hy].
Qed.

Lemma visit_classes_ok fuel md ts V :
  (size (dom md ∖ V) < fuel)%nat → visited_ok md ts V (visit_classes fuel md ts V).
Proof.
  revert ts V. induction fuel as [|fuel IH]; intros ts V Hf; [lia|]. simpl.
  revert V Hf. induction ts as [|x ts IHts]; intros V Hf; simpl.
  { split_and!; set_solver. }
  set (V1 := if bool_decide (x ∈ V) then V else _).
  assert (H1 : visited_ok md [x] V V1).
  { unfold V1. case_bool_decide as Hx; [split_and!; set_solver|]. apply visit_step_ok; [done|].
    unfold children_of. destruct (md !! x) as [m|] eqn:E; [|split_and!; set_solver].
    apply IH. assert (dom md ∖ ({[x]} ∪ V) ⊂ dom md ∖ V) as Hsub%subset_size; [|lia].
    assert (x ∈ dom md) by (by apply elem_of_dom_2 in E). set_solver. }
  eapply visited_ok_cons; [exact H1|]. apply IHts.
  assert (dom md ∖ V1 ⊆ dom md ∖ V) as Hs%subseteq_size; [|lia].
  destruct H1 as [H1 _]. set_solver.
Qed.

Lemma doComputeRespClasses_reach md ts cl :
  cl ∈ doComputeRespClasses md ts ∅ ↔ reach md ts cl.
Proof.
  destruct (visit_classes_ok (S (size md)) md ts ∅) as (_&H2&H3&H4).
  { rewrite difference_empty_L, size_dom. lia. }
  split.
  - intros Hc. destruct (H4 cl Hc) as [?|?]; [set_solver|done].
  - induction 1 as [cl Hc|cl d _ IH Hd]; [by apply H2|]. eapply H3; [exact IH|set_solver|exact Hd].
Qed.

Lemma computeRespClasses_in md ts cl :
  cl ∈ computeRespClasses md ts ↔ (reach md ts cl ∧ cl ∉ ts) ∨ cl = "tagAnnotation".
Proof.
  unfold computeRespClasses. rewrite elem_of_app, elem_of_elements, elem_of_difference,
    elem_of_list_to_set, list_elem_of_singleton, doComputeRespClasses_reach. done.
Qed.

(** ** Splitting and joining DNs *)

Lemma split_slash_nonempty s : split_slash s ≠ [].
Proof. destruct s as [|c s]; simpl; [done|]. destruct (_ =? _)%nat; [done|]. by destruct (split_slash s). Qed.

Lemma Join_cons2 sep x y l : Join sep (x :: y :: l) = x ++ sep ++ Join sep (y :: l).
Proof. reflexivity. Qed.

Lemma Join_split_slash s : Join "/" (split_slash s) = s.
Proof.
  induction s as [|c s IH]; [done|]. simpl split_slash.
  destruct (Nat.eqb_spec (Ascii.nat_of_ascii c) 47) as [E|E].
  - destruct (split_slash s) as [|p ps] eqn:Es; [by apply split_slash_nonempty in Es|].
    rewrite Join_cons2, IH. simpl. f_equal. rewrite <- (Ascii.ascii_nat_embedding c), E. done.
  - destruct (split_slash s) as [|p ps] eqn:Es; [by apply split_slash_nonempty in Es|].
    destruct ps as [|q ps]; [simpl in *; by rewrite IH|].
    rewrite Join_cons2 in *. rewrite <- IH. done.
Qed.


(** ** Searching the relations of a VRF *)

Lemma sorted_lookup_le l i j x y :
  StronglySorted String.le l → (i <= j)%nat → l !! i = Some x → l !! j = Some y → String.le x y.
Proof.
  intros Hs. revert i j. induction Hs as [|a l _ IH Ha]; intros i j Hij Hi Hj; [done|].
  destruct i as [|i], j as [|j]; simpl in *; [|by rewrite Forall_forall in Ha; apply list_elem_of_lookup_2 in Hj; simplify_eq; apply Ha|lia|by apply (IH i j); [lia|..]].
  simplify_eq. reflexivity.
Qed.

Lemma SearchStrings_found l x :
  StronglySorted String.le l → (l !! SearchStrings l x = Some x ↔ x ∈ l).
Proof.
  intros Hs. split; [apply list_elem_of_lookup_2|]. intros [i Hi]%list_elem_of_lookup_1.
  unfold SearchStrings. set (f := λ i, String.leb x (default EmptyString (l !! i))).
  destruct (Search_spec (length l) f) as (Hle&Hlo&Hhi). set (r := Search (length l) f) in *.
  assert (Hlt : (i < length l)%nat) by (by apply lookup_lt_Some in Hi).
  assert (Hbelow : ∀ k y, (k < length l)%nat → f k = false → l !! k = Some y → ¬ String.le x y).
  { intros k y _ Hf Hk Hxy. unfold f in Hf. rewrite Hk in Hf. simpl in Hf. unfold String.le in Hxy.
    by rewrite Hf in Hxy. }
  assert (Hri : (r <= i)%nat).
  { destruct (decide (r <= i)%nat) as [?|Hn]; [done|]. destruct Hlo as [?|Hlo]; [lia|].
    destruct (lookup_lt_is_Some_2 l (r - 1)) as [y Hy]; [lia|].
    destruct (Hbelow (r - 1)%nat y ltac:(lia) Hlo Hy). by apply (sorted_lookup_le l i (r - 1)); [|lia|..]. }
  destruct Hhi as [?|Hhi]; [lia|]. destruct (lookup_lt_is_Some_2 l r) as [y Hy]; [lia|].
  rewrite Hy. f_equal. apply (anti_symm String.le).
  - by apply (sorted_lookup_le l r i).
  - unfold f in Hhi. rewrite Hy in Hhi. simpl in Hhi. unfold String.le. by rewrite Hhi.
Qed.

Lemma sort_strings_sorted l : StronglySorted String.le (sort_strings l).
Proof. apply (StronglySorted_merge_sort String.le). Qed.

(** ** Full synchronisation *)

(** The comparison of a tag of the cache with the objects of its key. *)
Definition tag_diff (s : Conn) (tag : string) : diffResult :=
  diffApicState (containerDns s) (sort (default [] (cachedState s !! tag)))
    (default [] (desiredState s !! default EmptyString (keyHashes s !! tag))).

Lemma sync_tag_run s m tag acc :
  m !! tag = cachedState s !! tag → d_grafts (tag_diff s tag) = [] →
  sync_tag tag acc (set_cachedState m s) =
  Some ((acc.1 ++ d_updates (tag_diff s tag), acc.2 ++ d_deletes (tag_diff s tag))%list,
        set_cachedState (<[tag := sort (default [] (cachedState s !! tag))]> m) s).
Proof.
  intros Hm Hg. unfold sync_tag. do 4 mstep.
  cbn [cachedState set_cachedState desiredState keyHashes containerDns]. rewrite Hm.
  change (diffApicState (containerDns s) (sort (default [] (cachedState s !! tag)))
    (default [] (desiredState s !! default EmptyString (keyHashes s !! tag)))) with (tag_diff s tag).
  rewrite Hg. mstep. reflexivity.
Qed.

Lemma foldM_sync_tag s tags m acc :
  NoDup tags → (∀ tag, tag ∈ tags → m !! tag = cachedState s !! tag) →
  (∀ tag, tag ∈ tags → d_grafts (tag_diff s tag) = []) →
  (∀ tag, tag ∈ tags → is_Some (m !! tag)) →
  ∃ m', foldM sync_tag tags acc (set_cachedState m s) =
    Some ((acc.1 ++ flat_map (λ t, d_updates (tag_diff s t)) tags,
           acc.2 ++ flat_map (λ t, d_deletes (tag_diff s t)) tags)%list, set_cachedState m' s) ∧
    ∀ tag, m' !! tag = None ↔ m !! tag = None.
Proof.
  revert m acc. induction tags as [|t tags IH]; intros m acc Hnd Hm Hg Hs.
  - exists m. cbn [foldM flat_map]. rewrite !app_nil_r. destruct acc. done.
  - apply NoDup_cons in Hnd as [Ht Hnd]. cbn [foldM].
    rewrite (bind_run _ _ _ _ _ (sync_tag_run s m t acc (Hm t (list_elem_of_here _ _)) (Hg t (list_elem_of_here _ _)))).
    destruct (IH (<[t := sort (default [] (cachedState s !! t))]> m)
      (acc.1 ++ d_updates (tag_diff s t), acc.2 ++ d_deletes (tag_diff s t))%list) as (m'&E&Hdom); auto.
    + intros x Hx. rewrite lookup_insert_ne by set_solver. apply Hm. by apply list_elem_of_further.
    + intros x Hx. apply Hg. by apply list_elem_of_further.
    + intros x Hx. rewrite lookup_insert_ne by set_solver. apply Hs. by apply list_elem_of_further.
    + exists m'. rewrite E. cbn [fst snd flat_map]. rewrite <- !(assoc (++)%list). split; [done|].
      intros x. rewrite Hdom. destruct (decide (t = x)) as [<-|Hne]; [|by rewrite lookup_insert_ne].
      rewrite lookup_insert_eq. destruct (Hs t (list_elem_of_here _ _)) as [y Hy]. rewrite Hy. done.
Qed.

Lemma foldM_sync_key s pre keys acc :
  foldM (sync_key pre) keys acc s =
  Some ((acc.1 ++ flat_map (λ k, match cachedState s !! getTagFromKey pre k with
                                 | Some _ => []
                                 | None => d_updates (diffApicState (containerDns s) [] (default [] (desiredState s !! k)))
                                 end) keys)%list, acc.2, s).
Proof.
  revert acc. induction keys as [|k keys IH]; intros acc.
  - cbn [foldM flat_map]. rewrite app_nil_r. by destruct acc.
  - cbn [foldM flat_map].
    assert (E : sync_key pre k acc s = Some ((acc.1 ++ match cachedState s !! getTagFromKey pre k with
                                 | Some _ => []
                                 | None => d_updates (diffApicState (containerDns s) [] (default [] (desiredState s !! k)))
                                 end, acc.2)%list, s)).
    { unfold sync_key. do 3 mstep. destruct (cachedState s !! getTagFromKey pre k); [|done].
      rewrite app_nil_r, ret_run. by destruct acc. }
    rewrite (bind_run _ _ _ _ _ E), IH. cbn [fst snd]. by rewrite <- (assoc (++)%list).
Qed.
