(* ===== verification/ApicIndexFacts.v ===== *)
(** * ApicIndexFacts: the index by DN follows the desired state

    [desiredStateDn] is kept next to [desiredState] and is what decides
    whether a DN is posted or deleted.  A write updates it from the new
    objects and removes the subtrees that the comparison with the old objects
    found gone.  These lemmas show that the two tables keep saying the same,
    for objects named as the APIC names them: the DN of an object determines
    its class and the DNs above it. *)

From S2P Require Import Prelude ApicMetadata ApicTypes ApicTypesFacts GoSha ApicDiff.
From S2P Require Import ApicDiffFacts Workqueue ApicState ApicSync ApicPrepFacts ApicConn.
From S2P Require Import ApicConnFacts.

Open Scope string_scope.

(** ** The objects an index holds *)

Fixpoint nodes (o : ApicObject) : ApicSlice :=
  if String.eqb (GetDn o) EmptyString then []
  else let 'Obj _ _ _ ch := o in o :: flat_map nodes ch.

Definition slice_nodes (s : ApicSlice) : ApicSlice := flat_map nodes s.

Lemma elem_of_flat_map {A B} (f : A → list B) l y : y ∈ flat_map f l ↔ ∃ x, x ∈ l ∧ y ∈ f x.
Proof.
  rewrite list_elem_of_In, in_flat_map. split; intros (x&H1&H2); exists x; split; by apply list_elem_of_In.
Qed.

Lemma nodes_unfold o :
  GetDn o ≠ EmptyString → nodes o = o :: slice_nodes (Children o).
Proof. intros H%String.eqb_neq. destruct o. unfold nodes. rewrite H. reflexivity. Qed.

Definition idx_ins (l : ApicSlice) (idx : gmap string ApicObject) : gmap string ApicObject :=
  foldl (λ m x, <[GetDn x := x]> m) idx l.

Lemma idx_ins_app l1 l2 idx : idx_ins (l1 ++ l2)%list idx = idx_ins l2 (idx_ins l1 idx).
Proof. apply foldl_app. Qed.

Lemma index_obj_nodes o idx : index_obj o idx = idx_ins (nodes o) idx.
Proof.
  revert idx. induction o as [cl h a ch IH] using ApicObject_rect'. intros idx.
  cbn [index_obj nodes]. destruct (String.eqb (GetDn _) EmptyString); [done|].
  change (idx_ins (?x :: ?l) idx) with (idx_ins l (<[GetDn x := x]> idx)).
  generalize (<[GetDn (Obj cl h a ch) := Obj cl h a ch]> idx). clear idx.
  induction IH as [|c ch Hc _ IHch]; intros idx; [done|]. simpl.
  by rewrite IHch, Hc, idx_ins_app.
Qed.

Lemma updateDnIndex_nodes objs idx : updateDnIndex objs idx = idx_ins (slice_nodes objs) idx.
Proof.
  revert idx. induction objs as [|o objs IH]; intros idx; [done|].
  unfold updateDnIndex in *. simpl. by rewrite IH, index_obj_nodes, idx_ins_app.
Qed.

Lemma idx_ins_notin l idx dn : dn ∉ (GetDn <$> l) → idx_ins l idx !! dn = idx !! dn.
Proof.
  revert idx. induction l as [|x l IH]; intros idx Hn; [done|].
  change (idx_ins (x :: l) idx) with (idx_ins l (<[GetDn x := x]> idx)).
  rewrite IH by set_solver. rewrite lookup_insert_ne; [done|]. set_solver.
Qed.

Lemma idx_ins_in l idx x : NoDup (GetDn <$> l) → x ∈ l → idx_ins l idx !! GetDn x = Some x.
Proof.
  revert idx. induction l as [|y l IH]; intros idx Hnd Hx; [by apply elem_of_nil in Hx|].
  change (idx_ins (y :: l) idx) with (idx_ins l (<[GetDn y := y]> idx)).
  apply NoDup_cons in Hnd as [Hy Hnd].
  apply elem_of_cons in Hx as [->|Hx]; [|by apply IH].
  rewrite idx_ins_notin by exact Hy. apply lookup_insert_eq.
Qed.

(** ** Removing a subtree from an index *)

Lemma remove_fuel_S fuel dn idx :
  remove_fuel (S fuel) dn idx =
  if String.eqb dn EmptyString then idx
  else match idx !! dn with
       | Some obj => foldl (λ idx c, remove_fuel fuel (GetDn c) idx) (delete dn idx) (Children obj)
       | None => idx
       end.
Proof. reflexivity. Qed.

Lemma foldl_remove_size fuel (ch : ApicSlice) idx :
  (∀ dn idx, (size (remove_fuel fuel dn idx) <= size idx)%nat) →
  (size (foldl (λ idx c, remove_fuel fuel (GetDn c) idx) idx ch) <= size idx)%nat.
Proof.
  intros H. revert idx. induction ch as [|c ch IH]; intros idx; [done|]. simpl.
  etrans; [apply IH|apply H].
Qed.

Lemma remove_size fuel dn idx : (size (remove_fuel fuel dn idx) <= size idx)%nat.
Proof.
  revert dn idx. induction fuel as [|fuel IH]; intros dn idx; [done|]. rewrite remove_fuel_S.
  destruct (String.eqb dn EmptyString); [done|]. destruct (idx !! dn) as [obj|] eqn:E; [|done].
  etrans; [by apply foldl_remove_size|]. rewrite map_size_delete_Some by eauto. lia.
Qed.

(** More fuel than the index has entries changes nothing. *)
Lemma remove_more fuel dn idx :
  (size idx <= fuel)%nat → remove_fuel (S fuel) dn idx = remove_fuel fuel dn idx.
Proof.
  revert dn idx. induction fuel as [|fuel IH]; intros dn idx Hs.
  - assert (idx = ∅) as -> by (apply map_size_empty_iff; lia).
    rewrite remove_fuel_S, lookup_empty. by destruct (String.eqb dn EmptyString).
  - rewrite (remove_fuel_S (S fuel)), (remove_fuel_S fuel).
    destruct (String.eqb dn EmptyString); [done|]. destruct (idx !! dn) as [obj|] eqn:E; [|done].
    assert (Hd : (size (delete dn idx) <= fuel)%nat) by (rewrite map_size_delete_Some by eauto; lia).
    revert Hd. generalize (delete dn idx). generalize (Children obj). clear -IH.
    induction l as [|c l IHl]; intros idx Hd; [done|]. cbn [foldl]. rewrite IH by done. apply IHl.
    etrans; [apply remove_size|done].
Qed.

Lemma removeFromDnIndex_fuel n dn idx :
  (size idx <= n)%nat → removeFromDnIndex dn idx = remove_fuel n dn idx.
Proof.
  unfold removeFromDnIndex. induction 1 as [|n Hn IH]; [done|]. rewrite IH. symmetry. by apply remove_more.
Qed.

(** The state of an object in an index while subtrees are being removed: it is
    there, or nothing of its subtree is. *)
Definition settled (idx : gmap string ApicObject) (z : ApicObject) : Prop :=
  idx !! GetDn z = Some z ∨ ∀ w, w ∈ nodes z → idx !! GetDn w = None.

Definition without (idx : gmap string ApicObject) (l : list string) (dn : string) : option ApicObject :=
  if decide (dn ∈ l) then None else idx !! dn.

Lemma nodes_trans a b c : c ∈ nodes b → b ∈ nodes a → c ∈ nodes a.
Proof.
  revert b c. induction a as [cl h at_ ch IH] using ApicObject_rect'. intros b c Hc Hb.
  rewrite Forall_forall in IH. cbn [nodes] in Hb |- *.
  destruct (String.eqb (GetDn _) EmptyString) eqn:E; [by apply elem_of_nil in Hb|].
  apply elem_of_cons in Hb as [->|Hb].
  - rewrite nodes_unfold in Hc by (by apply String.eqb_neq). exact Hc.
  - apply elem_of_cons. right. apply elem_of_flat_map in Hb as (x&Hx&Hb).
    apply elem_of_flat_map. exists x. split; [done|]. by eapply IH.
Qed.

Lemma nodes_dn x z : z ∈ nodes x → GetDn z ≠ EmptyString.
Proof.
  revert z. induction x as [cl h a ch IH] using ApicObject_rect'. rewrite Forall_forall in IH. intros z Hz.
  cbn [nodes] in Hz.
  destruct (String.eqb_spec (GetDn (Obj cl h a ch)) EmptyString) as [?|N]; [by apply elem_of_nil in Hz|].
  apply elem_of_cons in Hz as [->|Hz]; [done|]. apply elem_of_flat_map in Hz as (y&Hy&Hz). by eapply IH.
Qed.

Lemma nodes_self x z : z ∈ nodes x → z ∈ nodes z.
Proof. intros Hz%nodes_dn. rewrite nodes_unfold by done. apply list_elem_of_here. Qed.

Lemma slice_nodes_self s z : z ∈ slice_nodes s → z ∈ nodes z.
Proof. intros (x&_&Hz)%elem_of_flat_map. by eapply nodes_self. Qed.

Lemma remove_children fuel ch idx :
  (∀ c, c ∈ ch → ∀ idx, NoDup (GetDn <$> nodes c) → (∀ z, z ∈ nodes c → settled idx z) →
     ∀ dn, remove_fuel fuel (GetDn c) idx !! dn = without idx (GetDn <$> nodes c) dn) →
  NoDup (GetDn <$> slice_nodes ch) → (∀ z, z ∈ slice_nodes ch → settled idx z) →
  ∀ dn, foldl (λ idx c, remove_fuel fuel (GetDn c) idx) idx ch !! dn =
        without idx (GetDn <$> slice_nodes ch) dn.
Proof.
  revert idx. induction ch as [|c ch IH]; intros idx Hrec Hnd Hset dn; [done|].
  change (slice_nodes (c :: ch)) with (nodes c ++ slice_nodes ch)%list in *.
  rewrite fmap_app in Hnd. apply NoDup_app in Hnd as (Hnd1&Hdis&Hnd2).
  assert (Hc : ∀ dn, remove_fuel fuel (GetDn c) idx !! dn = without idx (GetDn <$> nodes c) dn).
  { apply Hrec; [apply list_elem_of_here|done|]. intros z Hz. apply Hset. set_solver. }
  cbn [foldl]. rewrite IH.
  - unfold without at 1. rewrite Hc. unfold without. rewrite fmap_app.
    destruct (decide (dn ∈ _ ++ _)%list), (decide (dn ∈ GetDn <$> slice_nodes ch)),
      (decide (dn ∈ GetDn <$> nodes c)); set_solver.
  - intros c' Hc'. apply Hrec. by apply list_elem_of_further.
  - done.
  - intros z Hz. specialize (Hset z ltac:(set_solver)).
    assert (Hout : ∀ w, w ∈ nodes z → remove_fuel fuel (GetDn c) idx !! GetDn w = idx !! GetDn w).
    { intros w Hw. rewrite Hc. unfold without. rewrite decide_False; [done|]. intros Hin.
      apply (Hdis _ Hin). apply elem_of_flat_map in Hz as (x&Hx&Hz). apply list_elem_of_fmap_2.
      apply elem_of_flat_map. exists x. split; [done|]. by eapply nodes_trans. }
    destruct Hset as [Hs|Hs]; [left|right].
    + rewrite Hout; [done|]. apply elem_of_flat_map in Hz as (x&_&Hz).
      by eapply nodes_self.
    + intros w Hw. rewrite Hout by done. by apply Hs.
Qed.

Lemma remove_subtree y fuel idx :
  (height y <= fuel)%nat → NoDup (GetDn <$> nodes y) → (∀ z, z ∈ nodes y → settled idx z) →
  ∀ dn, remove_fuel fuel (GetDn y) idx !! dn = without idx (GetDn <$> nodes y) dn.
Proof.
  revert fuel idx. induction y as [cl h a ch IH] using ApicObject_rect'. rewrite Forall_forall in IH.
  intros fuel idx Hf Hnd Hset dn. destruct fuel as [|fuel]; [simpl in Hf; lia|].
  rewrite remove_fuel_S. set (y := Obj cl h a ch) in *.
  destruct (String.eqb_spec (GetDn y) EmptyString) as [E|E].
  { assert (nodes y = []) as -> by (unfold y; cbn [nodes]; fold y; by rewrite E). done. }
  rewrite nodes_unfold in Hnd, Hset |- * by done. apply NoDup_cons in Hnd as [Hy Hnd].
  destruct (Hset y (list_elem_of_here _ _)) as [Hs|Hs].
  - rewrite Hs. rewrite (remove_children fuel (Children y) (delete (GetDn y) idx)).
    + unfold without. simpl. destruct (decide (dn = GetDn y)) as [->|Hne].
      * rewrite lookup_delete_eq. destruct (decide _), (decide _); set_solver.
      * rewrite lookup_delete_ne by done. destruct (decide _), (decide _); set_solver.
    + intros c Hc idx' Hnd' Hset'. apply IH; [exact Hc| |done|done].
      pose proof (height_child y c Hc). lia.
    + exact Hnd.
    + intros z Hz. assert (Hne : ∀ w, w ∈ nodes z → GetDn w ≠ GetDn y).
      { intros w Hw Ew. apply Hy. change (fmap GetDn) with (fmap (M := list) GetDn). rewrite <- Ew.
        apply list_elem_of_fmap_2. apply elem_of_flat_map in Hz as (x&Hx&Hz). apply elem_of_flat_map.
        exists x. split; [done|]. by eapply nodes_trans. }
      destruct (Hset z (list_elem_of_further _ _ _ Hz)) as [Hz'|Hz'].
      * left. rewrite lookup_delete_ne; [done|]. intros Ez. apply Hy. rewrite Ez. by apply list_elem_of_fmap_2.
      * right. intros w Hw. rewrite lookup_delete_ne; [by apply Hz'|]. intros Ew. by apply (Hne w Hw).
  - rewrite nodes_unfold in Hs by done. rewrite (Hs y) by apply list_elem_of_here.
    unfold without. destruct (decide _) as [Hin|]; [|done].
    apply list_elem_of_fmap in Hin as (w&->&Hw). by apply Hs.
Qed.

(** ** Removing several subtrees of one slice *)

Lemma flat_map_sublist {A B} (f : A → list B) l x : x ∈ l → f x `sublist_of` flat_map f l.
Proof.
  induction l as [|y l IH]; intros Hx; [by apply elem_of_nil in Hx|]. simpl.
  apply elem_of_cons in Hx as [->|Hx]; [by apply sublist_inserts_r|].
  apply sublist_inserts_l. by apply IH.
Qed.

Lemma nodes_sublist x y : y ∈ nodes x → nodes y `sublist_of` nodes x.
Proof.
  revert y. induction x as [cl h a ch IH] using ApicObject_rect'. rewrite Forall_forall in IH. intros y Hy.
  cbn [nodes] in Hy. destruct (String.eqb_spec (GetDn (Obj cl h a ch)) EmptyString) as [E|E];
    [by apply elem_of_nil in Hy|].
  apply elem_of_cons in Hy as [->|Hy]; [done|]. rewrite (nodes_unfold (Obj cl h a ch)) by done.
  apply elem_of_flat_map in Hy as (c&Hc&Hy). apply sublist_cons. etrans; [by apply (IH c)|].
  by apply (flat_map_sublist nodes ch).
Qed.

Lemma slice_nodes_sublist s y : y ∈ slice_nodes s → nodes y `sublist_of` slice_nodes s.
Proof.
  intros (x&Hx&Hy)%elem_of_flat_map. etrans; [by apply nodes_sublist|]. by apply flat_map_sublist.
Qed.

Lemma NoDup_key_inj {A} (f : A → string) l x y :
  NoDup (f <$> l) → x ∈ l → y ∈ l → f x = f y → x = y.
Proof.
  induction l as [|a l IH]; intros H Hx Hy E; [by apply elem_of_nil in Hx|].
  apply NoDup_cons in H as [Ha H].
  apply elem_of_cons in Hx as [->|Hx]; apply elem_of_cons in Hy as [->|Hy]; auto; destruct Ha.
  - change (f a ∈ f <$> l). rewrite E. by apply list_elem_of_fmap_2.
  - change (f a ∈ f <$> l). rewrite <- E. by apply list_elem_of_fmap_2.
Qed.

Lemma fmap_sublist {A B} (f : A → B) l1 l2 :
  l1 `sublist_of` l2 → (f <$> l1) `sublist_of` (f <$> l2).
Proof. induction 1; simpl; by constructor. Qed.

Section RemoveMany.
Context (old : ApicSlice) (Hnd : NoDup (GetDn <$> slice_nodes old)).

Lemma slice_nodes_closed y z : y ∈ slice_nodes old → z ∈ nodes y → z ∈ slice_nodes old.
Proof using. intros Hy Hz. by apply (elem_of_sublist _ _ _ Hz), slice_nodes_sublist. Qed.

Lemma nodes_NoDup y : y ∈ slice_nodes old → NoDup (GetDn <$> nodes y).
Proof using Hnd.
  intros Hy. eapply sublist_NoDup; [exact Hnd|]. by apply fmap_sublist, slice_nodes_sublist.
Qed.

Lemma removeFromDnIndex_subtree y idx :
  y ∈ slice_nodes old → (∀ z, z ∈ nodes y → settled idx z) →
  ∀ dn, removeFromDnIndex (GetDn y) idx !! dn = without idx (GetDn <$> nodes y) dn.
Proof using Hnd.
  intros Hy Hset dn. rewrite (removeFromDnIndex_fuel (size idx + height y)) by lia.
  apply remove_subtree; [lia|by apply nodes_NoDup|done].
Qed.

(** Part of the objects of the slice, with what is below them. *)
Context (G : ApicObject → Prop) (HG : ∀ y, G y → y ∈ slice_nodes old)
  (Hclosed : ∀ y z, G y → z ∈ nodes y → G z).

(** Removal keeps these objects settled. *)
Lemma removeFromDnIndex_settled y idx :
  G y → (∀ z, G z → settled idx z) → ∀ z, G z → settled (removeFromDnIndex (GetDn y) idx) z.
Proof using Hnd HG Hclosed.
  intros Hy Hset z Hz.
  assert (Hrm : ∀ dn, removeFromDnIndex (GetDn y) idx !! dn = without idx (GetDn <$> nodes y) dn).
  { apply removeFromDnIndex_subtree; [by apply HG|]. intros w Hw. apply Hset. exact (Hclosed y w Hy Hw). }
  destruct (decide (GetDn z ∈ GetDn <$> nodes y)) as [Hin|Hin].
  - right. intros w Hw. rewrite Hrm. unfold without. rewrite decide_True; [done|].
    apply list_elem_of_fmap in Hin as (z'&Ez&Hz').
    assert (z = z') as ->.
    { eapply (NoDup_key_inj GetDn); [exact Hnd|by apply HG|apply HG; exact (Hclosed y z' Hy Hz')|done]. }
    apply list_elem_of_fmap_2. by eapply nodes_trans.
  - destruct (Hset z Hz) as [Hs|Hs]; [left|right].
    + rewrite Hrm. unfold without. by rewrite decide_False.
    + intros w Hw. rewrite Hrm. unfold without. destruct (decide _); [done|by apply Hs].
Qed.

Lemma remove_many L idx :
  (∀ x, x ∈ L → ∃ y, G y ∧ GetDn y = x) → (∀ z, G z → settled idx z) →
  ∃ S : list string,
    (∀ dn, foldl (λ idx del, removeFromDnIndex del idx) idx L !! dn = without idx S dn) ∧
    (∀ d, d ∈ S ↔ ∃ y, G y ∧ GetDn y ∈ L ∧ d ∈ (GetDn <$> nodes y)).
Proof using Hnd HG Hclosed.
  revert idx. induction L as [|x L IH]; intros idx HL Hset.
  - exists []. split; [done|]. intros d. split; [by intros ?%elem_of_nil|]. intros (y&_&Hy&_). by apply elem_of_nil in Hy.
  - destruct (HL x (list_elem_of_here _ _)) as (y&Hy&<-).
    destruct (IH (removeFromDnIndex (GetDn y) idx)) as (S&HS&HdS).
    + intros x' Hx'. apply HL. by apply list_elem_of_further.
    + by apply removeFromDnIndex_settled.
    + exists ((GetDn <$> nodes y) ++ S)%list. split.
      * intros dn. simpl. rewrite HS. unfold without at 1.
        rewrite removeFromDnIndex_subtree; [|by apply HG|intros z Hz; apply Hset; exact (Hclosed y z Hy Hz)].
        unfold without. destruct (decide (dn ∈ S)), (decide (dn ∈ GetDn <$> nodes y)),
          (decide (dn ∈ _ ++ S)%list); set_solver.
      * intros d. rewrite elem_of_app, HdS. split.
        -- intros [Hd|(y'&?&?&?)]; [exists y; set_solver|exists y'; set_solver].
        -- intros (y'&Hy'&HyL&Hd). apply elem_of_cons in HyL as [E|HyL]; [left|right; exists y'; set_solver].
           assert (y' = y) as -> by (eapply (NoDup_key_inj GetDn); [exact Hnd|by apply HG..|done]). done.
Qed.
End RemoveMany.

(** ** Objects named as the APIC names them *)

Section Naming.
Context (path : string → list string) (cls : string → string).

(** [placed p o]: the objects above [o] have the DNs [p], its class is that of
    its DN, the class may be deleted, and the same holds below it. *)
Fixpoint placed (p : list string) (o : ApicObject) : bool :=
  let 'Obj c _ _ ch := o in
  let dn := GetDn o in
  bool_decide (path dn = p) && String.eqb c (cls dn) && negb (String.eqb dn EmptyString) &&
  checkNonDeletable c && bool_decide (StronglySorted dn_lt ch) &&
  forallb (placed (p ++ [dn])%list) ch.

Definition level_ok (p : list string) (s : ApicSlice) : Prop :=
  StronglySorted dn_lt s ∧ ∀ o, o ∈ s → placed p o = true.

Lemma placed_iff p o :
  placed p o = true ↔
  path (GetDn o) = p ∧ class o = cls (GetDn o) ∧ GetDn o ≠ EmptyString ∧
  checkNonDeletable (class o) = true ∧ level_ok (p ++ [GetDn o])%list (Children o).
Proof using.
  destruct o as [c h a ch]. unfold level_ok. cbn [placed class Children].
  rewrite !andb_true_iff, !bool_decide_eq_true, String.eqb_eq, negb_true_iff, String.eqb_neq, forallb_forall.
  setoid_rewrite <- list_elem_of_In. tauto.
Qed.

(** The path of an object in the subtree of [c] leads through [c]. *)
Lemma placed_path p c y :
  placed p c = true → y ∈ nodes c →
  (y = c ∧ path (GetDn y) = p) ∨
  (y ∈ slice_nodes (Children c) ∧ ∃ q, path (GetDn y) = (p ++ GetDn c :: q)%list).
Proof using.
  revert p y. induction c as [cl h a ch IH] using ApicObject_rect'. rewrite Forall_forall in IH.
  intros p y Hp Hy. pose proof Hp as (Hpath&_&Hdn&_&_&Hch)%placed_iff.
  rewrite nodes_unfold in Hy by done. apply elem_of_cons in Hy as [->|Hy]; [by left|right].
  split; [done|]. apply elem_of_flat_map in Hy as (c&Hc&Hy).
  destruct (IH c Hc _ y (Hch c Hc) Hy) as [[-> E]|(_&q&E)]; rewrite E.
  - by exists [].
  - exists (GetDn c :: q). by rewrite <- (assoc (++)%list).
Qed.

Lemma placed_below p c y : placed p c = true → y ∈ nodes c → ∃ q, placed q y = true.
Proof using.
  revert p. induction c as [cl h a ch IH] using ApicObject_rect'. rewrite Forall_forall in IH.
  intros p Hp Hy. pose proof Hp as (_&_&Hdn&_&_&Hch)%placed_iff. rewrite nodes_unfold in Hy by done.
  apply elem_of_cons in Hy as [->|Hy]; [by exists p|]. apply elem_of_flat_map in Hy as (c&Hc&Hy).
  by apply (IH c Hc _ (Hch c Hc)).
Qed.

(** Objects of one level that share a DN somewhere in their subtrees have the
    same DN themselves. *)
Lemma placed_share p c d y z :
  placed p c = true → placed p d = true → y ∈ nodes c → z ∈ nodes d →
  GetDn y = GetDn z → GetDn c = GetDn d.
Proof using.
  intros Hc Hd Hy Hz E.
  destruct (placed_path p c y Hc Hy) as [[-> Ey]|(_&q&Ey)],
           (placed_path p d z Hd Hz) as [[-> Ez]|(_&r&Ez)]; rewrite E in Ey; rewrite Ey in Ez.
  - done.
  - apply (f_equal length) in Ez. rewrite length_app in Ez. simpl in Ez. lia.
  - apply (f_equal length) in Ez. rewrite length_app in Ez. simpl in Ez. lia.
  - apply app_inv_head in Ez. congruence.
Qed.

Lemma sorted_key_inj s x y :
  StronglySorted dn_lt s → x ∈ s → y ∈ s → GetDn x = GetDn y → x = y.
Proof using.
  clear. induction s as [|a s IH]; intros Hs Hx Hy E; [by apply elem_of_nil in Hx|].
  pose proof (StronglySorted_hd_notin a s Hs) as Ha. apply StronglySorted_cons in Hs as [_ Hs].
  apply elem_of_cons in Hx as [->|Hx]; apply elem_of_cons in Hy as [->|Hy]; auto; destruct Ha.
  - rewrite E. by apply list_elem_of_fmap_2.
  - rewrite <- E. by apply list_elem_of_fmap_2.
Qed.

(** The DNs of a level are distinct throughout. *)
Lemma level_NoDup_list (ch : ApicSlice) p :
  (∀ c, c ∈ ch → placed p c = true → NoDup (GetDn <$> nodes c)) →
  level_ok p ch → NoDup (GetDn <$> slice_nodes ch).
Proof using.
  induction ch as [|c ch IH]; intros Hn [Hs Hp]; [constructor|].
  change (slice_nodes (c :: ch)) with (nodes c ++ slice_nodes ch)%list. rewrite fmap_app. apply NoDup_app.
  pose proof (StronglySorted_hd_notin c ch Hs) as Hc. apply StronglySorted_cons in Hs as [_ Hs].
  split_and!.
  - apply Hn; [apply list_elem_of_here|]. apply Hp, list_elem_of_here.
  - intros x (y&->&Hy)%list_elem_of_fmap (z&E&Hz)%list_elem_of_fmap.
    apply elem_of_flat_map in Hz as (d&Hd&Hz). apply Hc.
    rewrite (placed_share p c d y z); [by apply list_elem_of_fmap_2| | |done..].
    + apply Hp, list_elem_of_here.
    + apply Hp. by apply list_elem_of_further.
  - apply IH; [|split; [done|]]; intros x Hx; [apply Hn|apply Hp]; by apply list_elem_of_further.
Qed.

Lemma placed_NoDup p c : placed p c = true → NoDup (GetDn <$> nodes c).
Proof using.
  revert p. induction c as [cl h a ch IH] using ApicObject_rect'. rewrite Forall_forall in IH.
  intros p Hp. pose proof Hp as (Hpath&_&Hdn&_&Hlev)%placed_iff. rewrite nodes_unfold by done.
  rewrite fmap_cons. apply NoDup_cons. split.
  - intros (y&E&Hy)%list_elem_of_fmap.
    destruct (placed_path p (Obj cl h a ch) y Hp) as [[-> _]|(_&q&Eq)].
    + rewrite nodes_unfold by done. by apply list_elem_of_further.
    + apply elem_of_flat_map in Hy as (c&Hc&Hy). apply height_child in Hc as Hh.
      assert (Hin : Obj cl h a ch ∈ nodes (Obj cl h a ch)) by (rewrite nodes_unfold by done; apply list_elem_of_here).
      destruct Hlev as [_ Hch].
      destruct (placed_path (p ++ [GetDn (Obj cl h a ch)])%list c _ (Hch c Hc) Hy) as [[_ E1]|(_&q1&E1)];
        rewrite Hpath in E1; apply (f_equal length) in E1; rewrite !length_app in E1; simpl in E1; lia.
    + rewrite <- E, Hpath in Eq. apply (f_equal length) in Eq. rewrite length_app in Eq. simpl in Eq. lia.
  - eapply level_NoDup_list; [|exact Hlev]. intros c Hc. by apply IH.
Qed.

Lemma level_NoDup p s : level_ok p s → NoDup (GetDn <$> slice_nodes s).
Proof using. apply level_NoDup_list. intros c _. apply placed_NoDup. Qed.

(** ** What the deletes of a comparison cover *)

(** The DNs [dels] are roots of subtrees of [cs] none of which is in [ds], and
    every object of [cs] that is not in [ds] is in one of these subtrees. *)
Definition covers (dels : list string) (cs ds : ApicSlice) : Prop :=
  (∀ x, x ∈ dels → ∃ y, y ∈ cs ∧ GetDn y = x ∧ ∀ z, z ∈ nodes y → GetDn z ∉ (GetDn <$> ds)) ∧
  (∀ z, z ∈ cs → GetDn z ∉ (GetDn <$> ds) →
     ∃ y, y ∈ cs ∧ GetDn y ∈ dels ∧ z ∈ nodes y).

Lemma covers_level p cs ds :
  level_ok p cs → level_ok p ds →
  (∀ c d, paired cs ds c d → covers (r_deletes (apicObjCmp c d)) (nodes c) (nodes d)) →
  covers (r_deletes (children_cmp apicObjCmp cs ds)) (slice_nodes cs) (slice_nodes ds).
Proof using.
  intros [Hcs Hpc] [Hds Hpd] Hrec.
  assert (Hself : ∀ c, c ∈ cs → c ∈ nodes c).
  { intros c Hc. apply Hpc, placed_iff in Hc as (_&_&Hdn&_). rewrite nodes_unfold by done. apply list_elem_of_here. }
  split.
  - intros x Hx. apply (children_cmp_deletes cs ds Hcs Hds) in Hx as [(c&(Hc&Hn&_)&->)|(c&d&Hp&Hx)].
    + exists c. split_and!; [apply elem_of_flat_map; eauto|done|]. intros z Hz (w&E&Hw)%list_elem_of_fmap.
      apply elem_of_flat_map in Hw as (d&Hd&Hw). apply Hn.
      rewrite (placed_share p c d z w) by auto. by apply list_elem_of_fmap_2.
    + destruct (Hrec c d Hp) as [Ha _]. destruct (Ha x Hx) as (y&Hy&<-&Hz). destruct Hp as (Hc&Hd&Ecd).
      exists y. split_and!; [apply elem_of_flat_map; eauto|done|]. intros z Hzy (w&E&Hw)%list_elem_of_fmap.
      apply elem_of_flat_map in Hw as (d'&Hd'&Hw).
      assert (d' = d) as ->.
      { apply (sorted_key_inj ds); [done..|]. rewrite <- Ecd. symmetry.
        apply (placed_share p c d' z w); auto. by eapply nodes_trans. }
      apply (Hz z Hzy). rewrite E. by apply list_elem_of_fmap_2.
  - intros z (c&Hc&Hz)%elem_of_flat_map Hn.
    destruct (decide (GetDn c ∈ (GetDn <$> ds))) as [(d&Ecd&Hd)%list_elem_of_fmap|Hcd].
    + assert (Hp : paired cs ds c d) by done. destruct (Hrec c d Hp) as [_ Hb].
      destruct (Hb z Hz) as (y&Hy&Hdel&Hzy).
      { intros (w&E&Hw)%list_elem_of_fmap. apply Hn. rewrite E. apply list_elem_of_fmap_2.
        apply elem_of_flat_map. eauto. }
      exists y. split_and!; [apply elem_of_flat_map; eauto| |done].
      apply (children_cmp_deletes cs ds Hcs Hds). right. eauto.
    + exists c. split_and!; [apply elem_of_flat_map; eauto| |done].
      apply (children_cmp_deletes cs ds Hcs Hds). left. exists c. split; [|done].
      split; [done|]. split; [done|]. apply Hpc, placed_iff in Hc. tauto.
Qed.

Lemma covers_obj p c d :
  placed p c = true → placed p d = true → GetDn c = GetDn d →
  covers (r_deletes (apicObjCmp c d)) (nodes c) (nodes d).
Proof using.
  revert p d. induction c as [cl h a ch IH] using ApicObject_rect'. rewrite Forall_forall in IH.
  intros p d Hc Hd E. pose proof (placed_NoDup p _ Hc) as Hnd.
  pose proof Hc as (_&Hcl&Hdn&_&Hlc)%placed_iff. pose proof Hd as (_&Hdl&Hdd&_&Hld)%placed_iff.
  rewrite apicObjCmp_unfold, Hcl, Hdl, E, String.eqb_refl. cbn [negb cmp_app r_deletes].
  rewrite body_cmp_deletes. cbn [app]. rewrite <- E in Hld.
  destruct (covers_level _ _ _ Hlc Hld) as [Ha Hb].
  { intros c' d' (Hc'&Hd'&E'). eapply IH; [exact Hc'|apply Hlc, Hc'|apply Hld, Hd'|exact E']. }
  rewrite nodes_unfold in Hnd |- * by done. rewrite (nodes_unfold d) by done.
  rewrite fmap_cons in Hnd. apply NoDup_cons in Hnd as [Hself Hnd]. split.
  - intros x Hx. destruct (Ha x Hx) as (y&Hy&<-&Hz). exists y. split_and!; [by apply list_elem_of_further|done|].
    intros z Hzy. rewrite fmap_cons, not_elem_of_cons. split; [|by apply Hz]. rewrite <- E. intros Ez.
    apply Hself. rewrite <- Ez. apply list_elem_of_fmap_2. by apply (slice_nodes_closed _ y).
  - intros z Hz Hn. rewrite fmap_cons, not_elem_of_cons in Hn. destruct Hn as [Hne Hn].
    apply elem_of_cons in Hz as [->|Hz]; [by destruct Hne|].
    destruct (Hb z Hz Hn) as (y&Hy&Hdel&Hzy). exists y. split_and!; [by apply list_elem_of_further|done..].
Qed.

Lemma diff_deletes_cover cds p cs ds :
  level_ok p cs → level_ok p ds → (∀ c, c ∈ cs → GetDn c ∉ cds) →
  covers (d_deletes (diff_loop cds cs ds)) (slice_nodes cs) (slice_nodes ds).
Proof using.
  intros Hcs Hds Hcont.
  destruct (covers_level p cs ds Hcs Hds) as [Ha Hb].
  { intros c d (Hc&Hd&E). eapply covers_obj; [by apply Hcs|by apply Hds|done]. }
  assert (Hsame : ∀ x, x ∈ d_deletes (diff_loop cds cs ds) ↔
                       x ∈ r_deletes (children_cmp apicObjCmp cs ds)).
  { intros x. destruct Hcs as [Hcs _], Hds as [Hds _].
    rewrite (diff_loop_deletes cs ds Hcs Hds), (children_cmp_deletes cs ds Hcs Hds).
    assert (Hd : ∀ c d, paired cs ds c d →
      x ∈ d_deletes (diff_same cds c d) ↔ x ∈ r_deletes (apicObjCmp c d)).
    { intros c d (Hc&_). unfold diff_same. simpl. by rewrite bool_decide_eq_false_2 by (by apply Hcont). }
    split; (intros [?|(c&d&Hp&Hx)]; [by left|right; exists c, d; split; [done|by apply (Hd c d Hp)]]). }
  split.
  - intros x Hx. by apply Ha, Hsame.
  - intros z Hz Hn. destruct (Hb z Hz Hn) as (y&Hy&Hdel&Hzy). exists y. split_and!; [done| |done]. by apply Hsame.
Qed.

(** ** The deletes are roots *)

(** Above a deleted object of [cs] every object is in [ds]. *)
Definition rooted (dels : list string) (cs ds : ApicSlice) : Prop :=
  ∀ y p, GetDn y ∈ dels → y ∈ cs → p ∈ cs → y ∈ nodes p → p = y ∨ GetDn p ∈ (GetDn <$> ds).

(** Two objects in each other's subtrees are the same. *)
Lemma nodes_antisym p c y : placed p c = true → y ∈ nodes c → c ∈ nodes y → y = c.
Proof using.
  intros Hp Hy Hc. destruct (placed_path p c y Hp Hy) as [[-> _]|(_&q&Eq)]; [done|].
  destruct (placed_below p c y Hp Hy) as [q' Hq']. pose proof Hq' as (Ey&_)%placed_iff. pose proof Hp as (Ec&_)%placed_iff.
  destruct (placed_path q' y c Hq' Hc) as [[-> _]|(_&r&Er)]; [done|]. exfalso.
  rewrite Ec in Er. rewrite <- Ey, Eq in Er. apply (f_equal length) in Er. rewrite !length_app in Er. simpl in Er. lia.
Qed.

Lemma rooted_level p cs ds :
  level_ok p cs → level_ok p ds →
  (∀ c d, paired cs ds c d → rooted (r_deletes (apicObjCmp c d)) (nodes c) (nodes d)) →
  (∀ c d, paired cs ds c d → covers (r_deletes (apicObjCmp c d)) (nodes c) (nodes d)) →
  rooted (r_deletes (children_cmp apicObjCmp cs ds)) (slice_nodes cs) (slice_nodes ds).
Proof using.
  intros Hcs Hds Hrec Hcov y a Hdel Hy Ha Hya. pose proof (level_NoDup _ _ Hcs) as Hnd.
  assert (Hself : ∀ c, c ∈ cs → c ∈ nodes c).
  { intros c Hc. apply Hcs, placed_iff in Hc as (_&_&Hdn&_). rewrite nodes_unfold by done. apply list_elem_of_here. }
  pose proof Ha as (c'&Hc'&Hac')%elem_of_flat_map. assert (Hyc' : y ∈ nodes c') by (by eapply nodes_trans).
  assert (Hsame : ∀ c, c ∈ cs → y ∈ nodes c → c' = c).
  { intros c Hc Hyc. apply (sorted_key_inj cs); [apply Hcs|done|done|].
    apply (placed_share p c' c y y); [by apply Hcs|by apply Hcs|done|done|done]. }
  apply (children_cmp_deletes cs ds (proj1 Hcs) (proj1 Hds)) in Hdel as [(c&(Hc&_)&E)|(c&d&Hp&Hx)].
  - assert (y = c) as ->.
    { eapply (NoDup_key_inj GetDn); [exact Hnd|exact Hy| |exact E]. apply elem_of_flat_map. eauto. }
    left. rewrite (Hsame c Hc (Hself c Hc)) in *. eapply nodes_antisym; [by apply Hcs|done|done].
  - pose proof Hp as (Hc&Hd&_). destruct (Hcov c d Hp) as [Hroot _]. destruct (Hroot _ Hx) as (y'&Hy'&E&_).
    assert (y' = y) as ->.
    { eapply (NoDup_key_inj GetDn); [exact Hnd| |exact Hy|exact E]. apply elem_of_flat_map. eauto. }
    rewrite (Hsame c Hc Hy') in *. destruct (Hrec c d Hp y a Hx Hy' Hac' Hya) as [->|Hin]; [by left|right].
    apply list_elem_of_fmap in Hin as (w&->&Hw). apply list_elem_of_fmap_2, elem_of_flat_map. eauto.
Qed.

Lemma rooted_obj p c d :
  placed p c = true → placed p d = true → GetDn c = GetDn d →
  rooted (r_deletes (apicObjCmp c d)) (nodes c) (nodes d).
Proof using.
  revert p d. induction c as [cl h a ch IH] using ApicObject_rect'. rewrite Forall_forall in IH.
  intros p d Hc Hd E. pose proof (placed_NoDup p _ Hc) as Hnd.
  pose proof Hc as (_&Hcl&Hdn&_&Hlc)%placed_iff. pose proof Hd as (_&Hdl&Hdd&_&Hld)%placed_iff.
  rewrite apicObjCmp_unfold, Hcl, Hdl, E, String.eqb_refl. cbn [negb cmp_app r_deletes].
  rewrite body_cmp_deletes. cbn [app]. rewrite <- E in Hld.
  assert (Hcov : ∀ c' d', paired ch (Children d) c' d' → covers (r_deletes (apicObjCmp c' d')) (nodes c') (nodes d')).
  { intros c' d' (Hc'&Hd'&E'). eapply covers_obj; [by apply Hlc|by apply Hld|done]. }
  pose proof (rooted_level _ _ _ Hlc Hld) as Hr. destruct (covers_level _ _ _ Hlc Hld Hcov) as [Hroot _].
  rewrite nodes_unfold in Hnd |- * by done. rewrite (nodes_unfold d) by done.
  rewrite fmap_cons in Hnd. apply NoDup_cons in Hnd as [Hself Hnd]. intros y q Hdel Hy Hq Hyq.
  destruct (Hroot _ Hdel) as (y'&Hy'&Ey&_).
  apply elem_of_cons in Hq as [->|Hq]; [right; rewrite E; apply list_elem_of_here|].
  apply elem_of_cons in Hy as [->|Hy].
  { exfalso. apply Hself. rewrite <- Ey. by apply list_elem_of_fmap_2. }
  destruct (Hr ltac:(intros c' d' (Hc'&Hd'&E'); eapply IH; [exact Hc'|apply Hlc, Hc'|apply Hld, Hd'|exact E']) Hcov y q Hdel Hy Hq Hyq)
    as [->|Hin]; [by left|right]. by apply list_elem_of_further.
Qed.

(** An object that is gone, with everything above it still there. *)
Definition removed_root (old new : ApicSlice) (y : ApicObject) : Prop :=
  y ∈ slice_nodes old ∧ GetDn y ∉ (GetDn <$> slice_nodes new) ∧
  ∀ p, p ∈ slice_nodes old → y ∈ nodes p → p = y ∨ GetDn p ∈ (GetDn <$> slice_nodes new).

(** The comparison deletes exactly the roots of what is gone. *)
Lemma diff_deletes_roots cds p cs ds :
  level_ok p cs → level_ok p ds → (∀ c, c ∈ cs → GetDn c ∉ cds) →
  ∀ x, x ∈ d_deletes (diff_loop cds cs ds) ↔ ∃ y, removed_root cs ds y ∧ GetDn y = x.
Proof using.
  intros Hcs Hds Hcont. pose proof (level_NoDup _ _ Hcs) as Hnd. destruct (diff_deletes_cover cds p cs ds Hcs Hds Hcont) as [Ha Hb].
  assert (Hsame : ∀ x, x ∈ d_deletes (diff_loop cds cs ds) → x ∈ r_deletes (children_cmp apicObjCmp cs ds)).
  { intros x. rewrite (diff_loop_deletes cs ds (proj1 Hcs) (proj1 Hds)), (children_cmp_deletes cs ds (proj1 Hcs) (proj1 Hds)).
    intros [?|(c&d&Hp&Hx)]; [by left|right]. exists c, d. split; [done|]. destruct Hp as (Hc&_). unfold diff_same in Hx. simpl in Hx.
    by rewrite bool_decide_eq_false_2 in Hx by (by apply Hcont). }
  assert (Hr : rooted (r_deletes (children_cmp apicObjCmp cs ds)) (slice_nodes cs) (slice_nodes ds)).
  { apply (rooted_level p); [done|done| |]; intros c d (Hc&Hd&E);
      [eapply rooted_obj; [by apply Hcs|by apply Hds|done]|eapply covers_obj; [by apply Hcs|by apply Hds|done]]. }
  intros x. split.
  - intros Hx. destruct (Ha x Hx) as (y&Hy&<-&Hz). exists y. split; [|done]. split; [done|].
    split; [apply Hz; by eapply slice_nodes_self|]. intros q Hq Hyq. exact (Hr y q (Hsame _ Hx) Hy Hq Hyq).
  - intros (y&(Hy&Hn&Htop)&<-). destruct (Hb y Hy Hn) as (z&Hz&Hdel&Hyz).
    destruct (Htop z Hz Hyz) as [->|Hin]; [done|]. destruct (Ha _ Hdel) as (z'&Hz'&E&Hout).
    exfalso. apply (Hout z'); [by eapply slice_nodes_self|]. by rewrite E.
Qed.

(** ** The invariant *)

(** The index holds exactly the objects of the desired state, each under its
    DN. *)
Definition index_exact (ds : gmap string ApicSlice) (idx : gmap string ApicObject) : Prop :=
  ∀ dn o, idx !! dn = Some o ↔
    ∃ key objs, ds !! key = Some objs ∧ o ∈ slice_nodes objs ∧ GetDn o = dn.

(** The DNs of [objs] belong to no other key. *)
Definition apart (ds : gmap string ApicSlice) (key : string) (objs : ApicSlice) : Prop :=
  ∀ key' objs' o o', key' ≠ key → ds !! key' = Some objs' →
    o ∈ slice_nodes objs → o' ∈ slice_nodes objs' → GetDn o ≠ GetDn o'.

Definition index_ok (ds : gmap string ApicSlice) (idx : gmap string ApicObject) : Prop :=
  index_exact ds idx ∧
  ∀ key objs, ds !! key = Some objs → level_ok [] objs ∧ apart ds key objs.

Lemma index_write ds idx key new dels extra :
  index_ok ds idx → level_ok [] new → apart ds key new →
  let old := default [] (ds !! key) in
  covers dels (slice_nodes old) (slice_nodes new) →
  (∀ x, x ∈ extra → ∃ y, y ∈ slice_nodes old ∧ GetDn y = x ∧
     ∀ z, z ∈ nodes y → GetDn z ∉ (GetDn <$> slice_nodes new)) →
  index_exact (<[key := new]> ds)
    (foldl (λ idx del, removeFromDnIndex del idx) (updateDnIndex new idx) (dels ++ extra)%list).
Proof using.
  intros [Hex Hlev] Hnew Hapart old [Ha Hb] Hextra.
  assert (Hold : level_ok [] old).
  { unfold old. destruct (ds !! key) as [objs|] eqn:E; [by eapply Hlev|]. split; [constructor|].
    intros o Ho. by apply elem_of_nil in Ho. }
  assert (Hin_old : ∀ o, o ∈ slice_nodes old → idx !! GetDn o = Some o).
  { intros o Ho. apply Hex. unfold old in Ho. destruct (ds !! key) as [objs|] eqn:E; [by eauto|].
    by apply elem_of_nil in Ho. }
  pose proof (level_NoDup _ _ Hold) as Hnd_old. pose proof (level_NoDup _ _ Hnew) as Hnd_new.
  rewrite updateDnIndex_nodes. set (idx1 := idx_ins (slice_nodes new) idx).
  assert (Hall : ∀ x, x ∈ (dels ++ extra)%list → ∃ y, y ∈ slice_nodes old ∧ GetDn y = x ∧
     ∀ z, z ∈ nodes y → GetDn z ∉ (GetDn <$> slice_nodes new)).
  { intros x [Hx|Hx]%elem_of_app; auto. }
  set (G := λ y, y ∈ slice_nodes old ∧ ∀ z, z ∈ nodes y → GetDn z ∉ (GetDn <$> slice_nodes new)).
  destruct (remove_many old Hnd_old G) with (L := (dels ++ extra)%list) (idx := idx1) as (S&HS&HdS).
  { by intros y [? _]. }
  { intros y z [Hy Hz] Hzy. split; [exact (slice_nodes_closed old y z Hy Hzy)|].
    intros w Hw. apply Hz. by eapply nodes_trans. }
  { intros x Hx. destruct (Hall x Hx) as (y&?&?&?). by exists y. }
  { intros z [Hz Hzn]. left. unfold idx1. rewrite idx_ins_notin; [by apply Hin_old|]. apply Hzn.
    by apply (slice_nodes_self old). }
  assert (HSnew : ∀ o, o ∈ slice_nodes new → GetDn o ∉ S).
  { intros o Ho (y&[_ Hy]&_&(z&E&Hz)%list_elem_of_fmap)%HdS. apply (Hy z Hz). rewrite <- E.
    by apply list_elem_of_fmap_2. }
  intros dn o. rewrite HS. unfold without. split.
  - destruct (decide (dn ∈ S)) as [|HnS]; [done|]. intros Hl.
    destruct (decide (dn ∈ GetDn <$> slice_nodes new)) as [(o'&->&Ho')%list_elem_of_fmap|Hn].
    + unfold idx1 in Hl. rewrite idx_ins_in in Hl by done. injection Hl as <-.
      exists key, new. by rewrite lookup_insert_eq.
    + unfold idx1 in Hl. rewrite idx_ins_notin in Hl by done.
      apply Hex in Hl as (key'&objs&Hk&Ho&<-).
      destruct (decide (key' = key)) as [->|Hne].
      * exfalso. apply HnS, HdS. assert (Ho' : o ∈ slice_nodes old) by (unfold old; by rewrite Hk).
        destruct (Hb o Ho' Hn) as (y&Hy&Hdel&Hoy). destruct (Ha _ Hdel) as (y'&Hy'&Ey&Hz).
        assert (y' = y) as -> by (eapply (NoDup_key_inj GetDn); [exact Hnd_old|done..]).
        exists y. split_and!; [by split|set_solver|by apply list_elem_of_fmap_2].
      * exists key', objs. by rewrite lookup_insert_ne.
  - intros (key'&objs&Hk&Ho&<-). destruct (decide (key' = key)) as [->|Hne].
    + rewrite lookup_insert_eq in Hk. injection Hk as <-. rewrite decide_False by (by apply HSnew).
      unfold idx1. by rewrite idx_ins_in.
    + rewrite lookup_insert_ne in Hk by done. rewrite decide_False.
      * unfold idx1. rewrite idx_ins_notin; [apply Hex; eauto|].
        intros (o'&E&Ho')%list_elem_of_fmap. by apply (Hapart key' objs o' o).
      * intros (y&[Hy _]&_&(z&E&Hz)%list_elem_of_fmap)%HdS.
        assert (Hz' : z ∈ slice_nodes old) by exact (slice_nodes_closed old y z Hy Hz).
        pose proof (Hin_old z Hz') as Hl1. assert (Hl2 : idx !! GetDn o = Some o) by (apply Hex; eauto).
        rewrite E, Hl1 in Hl2. injection Hl2 as ->. unfold old in Hz'.
        destruct (ds !! key) as [oldobjs|] eqn:Ek; [|by apply elem_of_nil in Hz'].
        destruct (Hlev key oldobjs Ek) as [_ Hap]. by apply (Hap key' objs o o).
Qed.

Lemma index_ok_insert ds idx idx' key new :
  index_ok ds idx → level_ok [] new → apart ds key new →
  index_exact (<[key := new]> ds) idx' → index_ok (<[key := new]> ds) idx'.
Proof using.
  intros [_ Hlev] Hnew Hap Hex. split; [done|]. intros k objs Hk.
  destruct (decide (k = key)) as [->|Hne].
  - rewrite lookup_insert_eq in Hk. injection Hk as <-. split; [done|].
    intros key' objs' o o' Hk' Hl. rewrite lookup_insert_ne in Hl by done. by eapply Hap.
  - rewrite lookup_insert_ne in Hk by done. destruct (Hlev k objs Hk) as [Hl Ha]. split; [done|].
    intros key' objs' o o' Hk' Hl' Ho Ho'. destruct (decide (key' = key)) as [->|Hne'].
    + rewrite lookup_insert_eq in Hl'. injection Hl' as <-. intros E. symmetry in E. revert E. by eapply Hap.
    + rewrite lookup_insert_ne in Hl' by done. by eapply Ha.
Qed.

Lemma index_ok_delete ds idx key : index_ok (<[key := []]> ds) idx → index_ok (delete key ds) idx.
Proof using.
  intros [Hex Hlev]. assert (Hk : ∀ k objs, delete key ds !! k = Some objs → <[key := []]> ds !! k = Some objs).
  { intros k objs (Hne&Hk)%lookup_delete_Some. by rewrite lookup_insert_ne. }
  split.
  - intros dn o. rewrite (Hex dn o). split; intros (k&objs&Hl&Ho&E); exists k, objs; [|by auto].
    destruct (decide (k = key)) as [->|Hne].
    + rewrite lookup_insert_eq in Hl. injection Hl as <-. by apply elem_of_nil in Ho.
    + rewrite lookup_insert_ne in Hl by done. by rewrite lookup_delete_ne.
  - intros k objs Hl. destruct (Hlev k objs (Hk _ _ Hl)) as [? Ha]. split; [done|].
    intros k' objs' o o' Hne Hl'. by apply (Ha k' objs' o o' Hne (Hk _ _ Hl')).
Qed.

(** A redirect policy that is deleted is in the index, and so are its
    destinations. *)
Lemma redirect_deletes_some idx (dels : list string) (P : string → Prop) :
  (∀ x, x ∈ dels → ∃ y, idx !! x = Some y ∧ ∀ c, c ∈ Children y → P (GetDn c)) →
  ∃ extra, redirect_deletes idx dels = Some extra ∧ ∀ x, x ∈ extra → P x.
Proof using.
  induction dels as [|d dels IH]; intros H.
  - exists []. split; [done|]. intros x Hx. by apply elem_of_nil in Hx.
  - destruct IH as (extra&E&He); [intros x Hx; apply H; by apply list_elem_of_further|].
    simpl. destruct (Contains d "svcRedirectPol"); [|by exists extra].
    destruct (H d (list_elem_of_here _ _)) as (y&->&Hc). simpl. rewrite E. simpl.
    eexists. split; [done|]. intros x [Hx|Hx]%elem_of_app; [|by apply He].
    apply list_elem_of_fmap in Hx as (c&->&Hc'). apply list_elem_of_filter in Hc' as [_ Hc']. by apply Hc.
Qed.

(** What a redirect policy that is deleted adds: its destinations. *)
Definition redirect_destination (y : ApicObject) (dn : string) : Prop :=
  Contains (GetDn y) "svcRedirectPol" = true ∧ ∃ c, c ∈ Children y ∧ class c = "vnsRedirectDest" ∧ GetDn c = dn.

Lemma redirect_deletes_in idx dels extra :
  redirect_deletes idx dels = Some extra → (∀ x y, idx !! x = Some y → GetDn y = x) →
  ∀ x, x ∈ extra ↔ ∃ y, idx !! GetDn y = Some y ∧ GetDn y ∈ dels ∧ redirect_destination y x.
Proof using.
  intros E Hidx. revert extra E. induction dels as [|d dels IH]; intros extra E x.
  - injection E as <-. split; [by intros ?%elem_of_nil|]. intros (y&_&Hy&_). by apply elem_of_nil in Hy.
  - cbn [redirect_deletes] in E. destruct (Contains d "svcRedirectPol") eqn:Ec.
    + destruct (idx !! d) as [obj|] eqn:Ed; [|discriminate]. cbn [mbind option_bind] in E.
      destruct (redirect_deletes idx dels) as [rest|] eqn:Er; [|discriminate]. injection E as <-.
      pose proof (Hidx d obj Ed) as <-. rewrite elem_of_app, (IH rest eq_refl), list_elem_of_fmap. setoid_rewrite list_elem_of_filter.
      split.
      * intros [(c&->&Hcl&Hc)|(y&?&?&?)]; [exists obj|exists y].
        -- split; [done|]. split; [apply list_elem_of_here|]. split; [done|]. eauto.
        -- split; [done|]. split; [by apply list_elem_of_further|done].
      * intros (y&Hy&Hin&Hd). apply elem_of_cons in Hin as [Ey|Hin]; [left|right; eauto].
        rewrite Ey, Ed in Hy. injection Hy as <-. destruct Hd as (_&c&Hc&Hcl&<-). eauto.
    + rewrite (IH extra E). split; intros (y&?&Hin&Hd); exists y; (split; [done|]); (split; [|done]).
      * by apply list_elem_of_further.
      * apply elem_of_cons in Hin as [Ey|Hin]; [|done]. destruct Hd as (Hd&_). rewrite Ey in Hd. congruence.
Qed.

Lemma graft_nil o : graft [] o = o.
Proof using.
  clear. induction o as [c h a ch IH] using ApicObject_rect'. simpl. f_equal.
  - unfold graft_attrs. simpl. by destruct (String.eqb c "vzRsSubjGraphAtt").
  - induction IH as [|x l Hx _ IHl]; [done|]. simpl. by rewrite Hx, IHl.
Qed.

Lemma map_graft_nil s : map (graft []) s = s.
Proof using. clear. induction s as [|o s IH]; [done|]. simpl. by rewrite graft_nil, IH. Qed.

Lemma write_keeps_index key objects s :
  indexMutex s = false →
  index_ok (desiredState s) (desiredStateDn s) →
  let old := default [] (desiredState s !! key) in
  let new := write_objs s key objects in
  level_ok [] new → apart (desiredState s) key new →
  (∀ c, c ∈ old → GetDn c ∉ containerDns s) →
  d_grafts (write_diff s key objects) = [] →
  ∃ extra s',
    redirect_deletes (desiredStateDn s) (d_deletes (write_diff s key objects)) = Some extra ∧
    (∀ x, x ∈ (d_deletes (write_diff s key objects) ++ extra)%list →
       ∃ y, y ∈ slice_nodes old ∧ GetDn y = x ∧
            ∀ z, z ∈ nodes y → GetDn z ∉ (GetDn <$> slice_nodes new)) ∧
    (∀ z, z ∈ slice_nodes old → GetDn z ∉ (GetDn <$> slice_nodes new) →
       ∃ y, y ∈ slice_nodes old ∧ GetDn y ∈ d_deletes (write_diff s key objects) ∧ z ∈ nodes y) ∧
    doWriteApicObjects key objects false s = Some (tt, s') ∧ indexMutex s' = false ∧
    index_ok (desiredState s') (desiredStateDn s').
Proof using.
  intros Hm Hok old new Hnew Hap Hcont Hg.
  assert (Hold : level_ok [] old).
  { unfold old. destruct (desiredState s !! key) as [objs|] eqn:E; [by eapply Hok|].
    split; [constructor|]. intros o Ho. by apply elem_of_nil in Ho. }
  pose proof (diff_deletes_cover (containerDns s) [] old new Hold Hnew Hcont) as Hcov.
  change (d_deletes (diff_loop (containerDns s) old new)) with (d_deletes (write_diff s key objects)) in Hcov.
  destruct (redirect_deletes_some (desiredStateDn s) (d_deletes (write_diff s key objects))
    (λ x, ∃ y, y ∈ slice_nodes old ∧ GetDn y = x ∧
               ∀ z, z ∈ nodes y → GetDn z ∉ (GetDn <$> slice_nodes new))) as (extra&Ered&Hextra).
  { intros x Hx. destruct Hcov as [Ha _]. destruct (Ha x Hx) as (y&Hy&<-&Hz). exists y. split.
    - apply Hok. unfold old in Hy. destruct (desiredState s !! key) as [objs|] eqn:E; [by eauto|].
      by apply elem_of_nil in Hy.
    - intros c Hc. assert (Hcy : c ∈ nodes y).
      { pose proof (slice_nodes_self old y Hy) as Hyy. pose proof (nodes_dn _ _ Hyy) as Hdn.
        rewrite nodes_unfold by done. apply list_elem_of_further, elem_of_flat_map. exists c. split; [done|].
        assert (Hpl : ∃ p, placed p y = true).
        { apply elem_of_flat_map in Hy as (x&Hx'&Hyx). by apply (placed_below [] x y); [apply Hold|]. }
        destruct Hpl as [p Hpl]. apply placed_iff in Hpl as (_&_&_&_&_&Hch).
        pose proof (Hch c Hc) as (_&_&Hcdn&_)%placed_iff. rewrite nodes_unfold by done. apply list_elem_of_here. }
      exists c. split_and!; [exact (slice_nodes_closed old y c Hy Hcy)|done|].
      intros z Hzc. apply Hz. by eapply nodes_trans. }
  destruct (doWrite_run key objects false s extra Hm Ered) as (s'&Hrun&Hm'&Hds&_&Hidx&_).
  exists extra, s'. split; [done|]. split.
  { intros x [Hx|Hx]%elem_of_app; [by apply Hcov|by apply Hextra]. }
  split; [apply Hcov|]. split; [done|]. split; [done|].
  rewrite Hg, map_graft_nil in Hds, Hidx. fold new in Hds, Hidx.
  assert (Hins : index_ok (<[key := new]> (desiredState s)) (desiredStateDn s')).
  { eapply index_ok_insert; [exact Hok|exact Hnew|exact Hap|]. rewrite Hidx. by apply index_write. }
  rewrite Hds. destruct objects as [objs|]; [exact Hins|].
  apply index_ok_delete. exact Hins.
Qed.
End Naming.
