(* ===== verification/ApicQueueFacts.v ===== *)
(** * ApicQueueFacts: from a queued DN to the requests to the APIC *)

From S2P Require Import Prelude ApicMetadata ApicTypes ApicTypesFacts GoSha ApicDiff.
From S2P Require Import ApicDiffFacts Workqueue ApicState ApicSync ApicPrepFacts ApicConn.
From S2P Require Import ApicConnFacts ApicIndexFacts.

Open Scope string_scope.

Section Requests.
Context (respond : list request → request → response).

(** The APIC answers every request with success. *)
Definition apic_ok : Prop :=
  ∀ h r, ∃ st b i, respond h r = Resp st b i ∧ is2xx st = true.

(** The request for a DN that no notification is pending for. *)
Definition request_for (idx : gmap string ApicObject) (dn : string) : list request :=
  match idx !! dn with
  | Some o => [Post dn o]
  | None => if String.eqb dn EmptyString then [] else [Delete dn]
  end.

Lemma send_run r s :
  send respond r s = Some (respond (sent s) r, set_sent (sent s ++ [r])%list s).
Proof. reflexivity. Qed.

Lemma postDn_ok dn o s :
  apic_ok → postDn respond dn o s = Some (false, set_sent (sent s ++ [Post dn o])%list s).
Proof.
  intros Hok. unfold postDn. rewrite (bind_run _ _ _ _ _ (send_run _ _)).
  destruct (Hok (sent s) (Post dn o)) as (st&b&i&->&->). reflexivity.
Qed.

Lemma DeleteDn_ok dn s :
  apic_ok → dn ≠ EmptyString →
  DeleteDn respond dn s = Some (false, set_sent (sent s ++ [Delete dn])%list s).
Proof.
  intros Hok Hdn%String.eqb_neq. unfold DeleteDn. rewrite Hdn, (bind_run _ _ _ _ _ (send_run _ _)).
  destruct (Hok (sent s) (Delete dn)) as (st&b&i&->&->). reflexivity.
Qed.

(** The state after a DN without pending notification was handled. *)
Definition handled (dn : string) (s : Conn) : Conn :=
  set_sent (sent s ++ request_for (desiredStateDn s) dn)%list
    (set_pendingSubDnUpdate (<[dn := dirtyChange]> (pendingSubDnUpdate s)) s).

Lemma handleQueuedDn_plain dn s :
  apic_ok → indexMutex s = false → pendingSubDnUpdate s !! dn = None →
  handleQueuedDn respond dn s = Some (false, handled dn s).
Proof.
  intros Hok Hm Hp. unfold handleQueuedDn. do 5 mstep.
  change (pendingSubDnUpdate (set_indexMutex true s)) with (pendingSubDnUpdate s). rewrite Hp.
  cbn [foldM]. mstep. cbn [cl_rootDn].
  change (desiredStateDn (set_pendingSubDnUpdate ?p (set_indexMutex true s))) with (desiredStateDn s).
  unfold handled, request_for.
  destruct (desiredStateDn s !! dn) as [o|].
  - rewrite postDn_ok by done. f_equal. f_equal. destruct s. simpl in *. by subst.
  - destruct (String.eqb_spec dn EmptyString) as [->|Hdn].
    + unfold DeleteDn. simpl. unfold mret, M_ret. do 2 f_equal. destruct s. simpl in *. subst. by rewrite app_nil_r.
    + rewrite DeleteDn_ok by done. f_equal. f_equal. destruct s. simpl in *. by subst.
Qed.

Lemma process_settle_run dn s :
  indexMutex s = false → pendingSubDnUpdate s !! dn = Some dirtyChange →
  process_settle dn false s =
  Some (tt, on_queue (Done dn) (set_pendingSubDnUpdate (delete dn (pendingSubDnUpdate s)) s)).
Proof.
  intros Hm Hp. unfold process_settle. mstep. mstep.
  change (pendingSubDnUpdate (set_indexMutex true s)) with (pendingSubDnUpdate s). rewrite Hp.
  cbn [isDirty dirtyChange]. mstep. rewrite modify_run. do 3 f_equal. destruct s. simpl in *. by subst.
Qed.

(** One round of the loop, for a DN that nothing is pending for. *)
Lemma processQueue_plain dn rest q s :
  apic_ok → indexMutex s = false → deltaQueue s = Some q → queue q = dn :: rest → q_inv q →
  processing q = ∅ → pendingSubDnUpdate s !! dn = None →
  ∃ s' q', processQueue_step respond s = Some (tt, s') ∧ indexMutex s' = false ∧
    deltaQueue s' = Some q' ∧ queue q' = rest ∧ q_inv q' ∧ processing q' = ∅ ∧
    pendingSubDnUpdate s' = pendingSubDnUpdate s ∧
    desiredStateDn s' = desiredStateDn s ∧ desiredState s' = desiredState s ∧
    sent s' = (sent s ++ request_for (desiredStateDn s) dn)%list.
Proof.
  intros Hok Hm Hq Hqu Hinv Hpr Hp. unfold processQueue_step.
  set (q1 := mkQueue rest (dirty q ∖ {[dn]}) ({[dn]} ∪ processing q) (delayed q) (shuttingDown q)).
  assert (Hget : Get q = Some (dn, q1)) by (unfold Get; by rewrite Hqu).
  assert (Htake : process_take s = Some (Some dn, set_deltaQueue (Some q1) s)).
  { unfold process_take. rewrite Hq. simpl. by rewrite Hget. }
  rewrite (bind_run _ _ _ _ _ Htake).
  rewrite (bind_run _ _ _ _ _ (handleQueuedDn_plain dn (set_deltaQueue (Some q1) s) Hok Hm Hp)).
  rewrite process_settle_run; [|exact Hm|apply lookup_insert_eq].
  pose proof (q_inv_get q dn q1 Hinv Hget) as Hinv1.
  assert (Hproc : dn ∈ processing q1) by (simpl; set_solver).
  assert (Hdone : Done dn q1 = mkQueue rest (dirty q1) (processing q1 ∖ {[dn]}) (delayed q1) (shuttingDown q1)).
  { unfold Done. rewrite bool_decide_eq_false_2; [done|]. simpl. set_solver. }
  eexists _, (Done dn q1). split; [reflexivity|]. split_and!.
  - exact Hm.
  - reflexivity.
  - by rewrite Hdone.
  - by apply q_inv_done.
  - rewrite Hdone. simpl. rewrite Hpr. set_solver.
  - simpl. by rewrite delete_insert_id.
  - reflexivity.
  - reflexivity.
  - reflexivity.
Qed.

(** The loop, [n] rounds. *)
Fixpoint drain (n : nat) : M unit :=
  match n with
  | O => mret tt
  | S n => _ ← processQueue_step respond; drain n
  end.

Lemma drain_plain q s :
  apic_ok → indexMutex s = false → deltaQueue s = Some q → q_inv q → processing q = ∅ →
  (∀ dn, dn ∈ queue q → pendingSubDnUpdate s !! dn = None) →
  ∃ s' q', drain (length (queue q)) s = Some (tt, s') ∧ indexMutex s' = false ∧
    deltaQueue s' = Some q' ∧ queue q' = [] ∧ dirty q' = ∅ ∧
    desiredStateDn s' = desiredStateDn s ∧ desiredState s' = desiredState s ∧
    sent s' = (sent s ++ flat_map (request_for (desiredStateDn s)) (queue q))%list.
Proof.
  intros Hok. remember (queue q) as l eqn:El. revert q s El.
  induction l as [|dn l IH]; intros q s El Hm Hq Hinv Hpr Hp.
  - exists s, q. split; [done|]. split_and!; [done..| | | |].
    + assert (∀ x, x ∉ dirty q) by (intros x Hx; destruct Hinv as [_ Hinv]; specialize (Hinv x); rewrite <- El in Hinv; set_solver).
      set_solver.
    + done.
    + done.
    + simpl. by rewrite app_nil_r.
  - destruct (processQueue_plain dn l q s) as (s1&q1&Hstep&Hm1&Hq1&Hl1&Hi1&Hp1&Hpe1&Hidx1&Hds1&Hse1); auto.
    { apply Hp, list_elem_of_here. }
    destruct (IH q1 s1) as (s2&q2&Hdr&Hm2&Hq2&Hl2&Hd2&Hidx2&Hds2&Hse2); auto.
    { intros x Hx. rewrite Hpe1. apply Hp. by apply list_elem_of_further. }
    exists s2, q2. simpl. rewrite (bind_run _ _ _ _ _ Hstep). split_and!; [done..| | |].
    + by rewrite Hidx2, Hidx1.
    + by rewrite Hds2, Hds1.
    + rewrite Hse2, Hse1, Hidx1. by rewrite <- (assoc (++)%list).
Qed.

(** ** From a write to the requests *)

(** A queue with nothing to do. *)
Definition idle (q : Queue) : Prop :=
  queue q = [] ∧ dirty q = ∅ ∧ processing q = ∅ ∧ shuttingDown q = false.

Lemma queue_adds_inv l s q :
  deltaQueue s = Some q → q_inv q → shuttingDown q = false → processing q = ∅ →
  ∃ q', deltaQueue (queue_adds l s) = Some q' ∧ q_inv q' ∧ processing q' = ∅ ∧
        ∀ x, x ∈ dirty q' ↔ x ∈ dirty q ∨ x ∈ l.
Proof.
  revert s q. induction l as [|y l IH]; intros s q Eq Hi Hd Hp.
  - exists q. split_and!; [done..|]. set_solver.
  - rewrite queue_adds_cons. destruct (IH (queue_add y s) (Add y q)) as (q'&Hq'&Hi'&Hp'&Hx).
    + destruct (queue_add_keeps y s) as (_&_&_&_&_&_&_&_&->). by rewrite Eq.
    + by apply q_inv_add.
    + by rewrite Add_down.
    + by rewrite Add_processing.
    + exists q'. split_and!; [done..|]. intros x. rewrite Hx, Add_dirty by done. set_solver.
Qed.

Lemma idle_adds l s q :
  deltaQueue s = Some q → idle q →
  ∃ q', deltaQueue (queue_adds l s) = Some q' ∧ q_inv q' ∧ processing q' = ∅ ∧
        ∀ x, x ∈ queue q' ↔ x ∈ l.
Proof.
  intros Eq (Hq&Hd&Hp&Hs).
  destruct (queue_adds_inv l s q) as (q'&Hq'&Hi'&Hp'&Hx); auto.
  { split; rewrite Hq; [constructor|]. set_solver. }
  exists q'. split_and!; [done..|]. intros x. destruct Hi' as [_ Hi']. rewrite Hi', Hx. set_solver.
Qed.

Lemma request_for_in idx l r :
  r ∈ flat_map (request_for idx) l ↔
  ∃ dn, dn ∈ l ∧ ((∃ o, idx !! dn = Some o ∧ r = Post dn o) ∨
                  (idx !! dn = None ∧ dn ≠ EmptyString ∧ r = Delete dn)).
Proof.
  rewrite elem_of_flat_map. unfold request_for. split.
  - intros (dn&Hdn&Hr). exists dn. split; [done|]. destruct (idx !! dn) as [o|] eqn:E.
    + apply list_elem_of_singleton in Hr as ->. left. eauto.
    + destruct (String.eqb_spec dn EmptyString) as [|Hne]; [by apply elem_of_nil in Hr|].
      apply list_elem_of_singleton in Hr as ->. by right.
  - intros (dn&Hdn&[(o&E&->)|(E&Hne&->)]); exists dn; (split; [done|]); rewrite E.
    + apply list_elem_of_here.
    + apply String.eqb_neq in Hne. rewrite Hne. apply list_elem_of_here.
Qed.
End Requests.

Section WriteDrain.
Context (respond : list request → request → response).
Context (path : string → list string) (cls : string → string).

(** What is asked of the objects of a write: they are named properly, their
    DNs belong to no other key, the key is not one of containers, and no
    attribute of a custom service graph is overwritten. *)
Record fits (s : Conn) (key : string) (objects : option ApicSlice) : Prop := {
  w_new : level_ok path cls [] (write_objs s key objects);
  w_apart : apart (desiredState s) key (write_objs s key objects);
  w_containers : ∀ c, c ∈ default [] (desiredState s !! key) → GetDn c ∉ containerDns s;
  w_grafts : d_grafts (write_diff s key objects) = []
}.

(** The states that writes lead to. *)
Inductive written (pre ver : string) : Conn → Prop :=
  | written_new : written pre ver (New_connection pre ver)
  | written_write s key objects s' :
      written pre ver s → fits s key objects →
      WriteApicObjects key objects s = Some (tt, s') → written pre ver s'.

Lemma index_ok_empty : index_ok path cls ∅ ∅.
Proof using.
  split; [|intros key objs H; by rewrite lookup_empty in H]. intros dn o. rewrite lookup_empty.
  split; [done|]. intros (k&objs&H&_). by rewrite lookup_empty in H.
Qed.

Lemma written_index pre ver s :
  written pre ver s → indexMutex s = false ∧ index_ok path cls (desiredState s) (desiredStateDn s).
Proof using.
  induction 1 as [|s key objects s' _ [Hm Hidx] [Hnew Hap Hcont Hg] Hrun]; [split; [done|apply index_ok_empty]|].
  destruct (write_keeps_index path cls key objects s Hm Hidx Hnew Hap Hcont Hg)
    as (extra&s1&_&_&_&Hrun1&Hm1&Hidx1).
  unfold WriteApicObjects in Hrun. rewrite Hrun1 in Hrun. injection Hrun as <-. done.
Qed.

(** The objects of [new] that the comparison with [old] wants posted. *)
Definition changed (old new : ApicSlice) (d : ApicObject) : Prop :=
  d ∈ new ∧
  (GetDn d ∉ (GetDn <$> old) ∨
   ∃ c, c ∈ old ∧ GetDn c = GetDn d ∧ r_update (apicObjCmp c d) = true).

Lemma diff_updates_changed cds old new d :
  StronglySorted dn_lt old → StronglySorted dn_lt new → (∀ c, c ∈ old → GetDn c ∉ cds) →
  d ∈ d_updates (diff_loop cds old new) ↔ changed old new d.
Proof.
  intros Ho Hn Hc. rewrite (diff_loop_updates old new Ho Hn). unfold changed.
  assert (Hs : ∀ c, c ∈ old → d_updates (diff_same cds c d) = [d] ↔ r_update (apicObjCmp c d) = true).
  { intros c Hin. unfold diff_same. simpl. rewrite bool_decide_eq_false_2 by (by apply Hc).
    by destruct (r_update (apicObjCmp c d)). }
  split.
  - intros [[? ?]|(c&(Hin&Hd&E)&Hu)]; [by auto|]. split; [done|right]. exists c. by rewrite <- Hs.
  - intros [Hd [?|(c&Hin&E&Hu)]]; [by left|right]. exists c. split; [done|]. by apply Hs.
Qed.

Lemma write_drain s key objects q :
  apic_ok respond → indexMutex s = false →
  index_ok path cls (desiredState s) (desiredStateDn s) → fits s key objects →
  syncEnabled s = true →
  deltaQueue s = Some q → idle q → pendingSubDnUpdate s = ∅ →
  let old := default [] (desiredState s !! key) in
  let new := write_objs s key objects in
  ∃ s1 n s2 reqs,
    WriteApicObjects key objects s = Some (tt, s1) ∧
    drain respond n s1 = Some (tt, s2) ∧ indexMutex s2 = false ∧
    (∃ q2, deltaQueue s2 = Some q2 ∧ queue q2 = []) ∧
    sent s2 = (sent s ++ reqs)%list ∧
    (∀ r, r ∈ reqs ↔
       (∃ d, changed old new d ∧ r = Post (GetDn d) d) ∨
       (∃ y dn, removed_root old new y ∧ (dn = GetDn y ∨ redirect_destination y dn) ∧ r = Delete dn)) ∧
    (∀ z, z ∈ slice_nodes old → GetDn z ∉ (GetDn <$> slice_nodes new) →
       ∃ y, removed_root old new y ∧ z ∈ nodes y).
Proof.
  intros Hok Hm Hidx [Hnew Hap Hcont Hg] Hen Hq Hidle Hpend old new.
  destruct (write_keeps_index path cls key objects s Hm Hidx Hnew Hap Hcont Hg)
    as (extra&s1&Ered&Hdel&Hcov&Hrun&Hm1&Hidx1).
  destruct (doWrite_run key objects false s extra Hm Ered) as (s1'&Hrun'&_&Hds&_&_&Hqueue&Hpend1&Hsent1).
  rewrite Hrun in Hrun'. injection Hrun' as <-. rewrite Hg, map_graft_nil in Hds. fold new in Hds.
  rewrite Hen in Hqueue. set (order := diff_order _ _) in Hqueue.
  destruct (idle_adds order s q Hq Hidle) as (q1&Hq1&Hi1&Hp1&Hin1). rewrite Hq1 in Hqueue.
  destruct (drain_plain respond q1 s1 Hok Hm1 Hqueue Hi1 Hp1) as (s2&q2&Hdr&Hm2&Hq2&Hl2&_&_&_&Hsent2).
  { intros dn _. by rewrite Hpend1, Hpend. }
  assert (Hold : StronglySorted dn_lt old).
  { unfold old. destruct (desiredState s !! key) as [objs|] eqn:E; [|constructor].
    by apply (proj2 Hidx key objs E). }
  assert (Hup : ∀ d, d ∈ d_updates (write_diff s key objects) ↔ changed old new d).
  { intros d. unfold write_diff, diffApicState. cbn [d_updates].
    assert (Hg' := Hg). unfold write_diff, diffApicState in Hg'. cbn [d_grafts] in Hg'.
    rewrite Hg', map_graft_nil. apply diff_updates_changed; [done|apply Hnew|done]. }
  assert (Hpost : ∀ d, d ∈ new → desiredStateDn s1 !! GetDn d = Some d).
  { intros d Hd. apply Hidx1. exists key, new. split_and!; [| |done].
    - rewrite Hds. destruct objects; [apply lookup_insert_eq|].
      exfalso. clear -Hd. by apply elem_of_nil in Hd.
    - apply elem_of_flat_map. exists d. split; [done|].
      pose proof (proj2 Hnew d Hd) as (_&_&Hdn&_)%placed_iff. rewrite nodes_unfold by done. apply list_elem_of_here. }
  assert (Hgone : ∀ y, y ∈ slice_nodes old → GetDn y ∉ (GetDn <$> slice_nodes new) →
                       desiredStateDn s1 !! GetDn y = None).
  { intros y Hy Hn. apply eq_None_not_Some. intros [o Ho]. apply Hidx1 in Ho as (k&objs&Hk&Ho&E).
    destruct (decide (k = key)) as [->|Hne].
    - assert (objs = new) as ->.
      { rewrite Hds in Hk. destruct objects; [rewrite lookup_insert_eq in Hk; congruence|].
        by rewrite lookup_delete_eq in Hk. }
      apply Hn. rewrite <- E. by apply list_elem_of_fmap_2.
    - assert (Hk' : desiredState s !! k = Some objs).
      { rewrite Hds in Hk. destruct objects; [by rewrite lookup_insert_ne in Hk|by rewrite lookup_delete_ne in Hk]. }
      unfold old in Hy. destruct (desiredState s !! key) as [oldobjs|] eqn:Ek; [|by apply elem_of_nil in Hy].
      destruct (proj2 Hidx key oldobjs Ek) as [_ Hapk]. by apply (Hapk k objs y o). }
  exists s1, (length (queue q1)), s2, (flat_map (request_for (desiredStateDn s1)) (queue q1)).
  assert (Hnew0 : level_ok path cls [] old).
  { unfold old. destruct (desiredState s !! key) as [objs|] eqn:E; [by eapply (proj2 Hidx)|].
    split; [constructor|]. intros o Ho. by apply elem_of_nil in Ho. }
  assert (Hroots : ∀ x, x ∈ d_deletes (write_diff s key objects) ↔ ∃ y, removed_root old new y ∧ GetDn y = x)
    by exact (diff_deletes_roots path cls (containerDns s) [] old new Hnew0 Hnew Hcont).
  assert (Hold_idx : ∀ y, y ∈ slice_nodes old → desiredStateDn s !! GetDn y = Some y).
  { intros y Hy. apply (proj1 Hidx). unfold old in Hy. destruct (desiredState s !! key) as [objs|] eqn:E; [by eauto|].
    by apply elem_of_nil in Hy. }
  assert (Hall : ∀ x, x ∈ (d_deletes (write_diff s key objects) ++ extra)%list ↔
                      ∃ y, removed_root old new y ∧ (x = GetDn y ∨ redirect_destination y x)).
  { intros x. rewrite elem_of_app, Hroots, (redirect_deletes_in _ _ _ Ered).
    2:{ intros dn o Ho. by apply (proj1 Hidx) in Ho as (?&?&_&_&?). }
    split.
    - intros [(y&Hy&<-)|(y&Hl&Hdy&Hd)]; [exists y; auto|]. apply Hroots in Hdy as (y'&Hy'&E). exists y'. split; [done|].
      pose proof (Hold_idx y' (proj1 Hy')) as Hl'. rewrite E, Hl in Hl'. injection Hl' as <-. by right.
    - intros (y&Hy&[->|Hd]); [left; eauto|right]. exists y. split; [apply Hold_idx, Hy|]. split; [|done]. apply Hroots. eauto. }
  split_and!; [done..|by eauto|by rewrite Hsent2, Hsent1| |].
  - intros r. rewrite request_for_in. split.
    + intros (dn&Hdn&Hr). apply Hin1, diff_order_in in Hdn as [Hdn|Hdn].
      * right. pose proof Hdn as (y&Hroot&Hy)%Hall. exists y, dn. split; [done|]. split; [done|].
        destruct (Hdel dn Hdn) as (w&Hw&<-&Hout).
        assert (Hn : GetDn w ∉ (GetDn <$> slice_nodes new)) by (apply Hout; by apply (slice_nodes_self old)).
        rewrite (Hgone w Hw Hn) in Hr. destruct Hr as [(o&?&_)|(_&_&->)]; done.
      * left. apply list_elem_of_fmap in Hdn as (d&->&Hd). apply Hup in Hd. exists d. split; [done|].
        destruct Hd as [Hd _]. rewrite (Hpost d Hd) in Hr. destruct Hr as [(o&[= <-]&->)|(?&_)]; done.
    + intros [(d&Hd&->)|(y&dn&Hroot&Hy&->)].
      * exists (GetDn d). split; [apply Hin1, diff_order_in; right; apply list_elem_of_fmap_2; by apply Hup|].
        left. exists d. split; [|done]. apply Hpost. by destruct Hd.
      * assert (Hdn : dn ∈ (d_deletes (write_diff s key objects) ++ extra)%list) by (apply Hall; eauto).
        exists dn. split; [apply Hin1, diff_order_in; by left|]. right. destruct (Hdel dn Hdn) as (w&Hw&<-&Hout).
        split_and!; [|by apply (nodes_dn w), (slice_nodes_self old)|done]. apply Hgone; [done|]. apply Hout. by apply (slice_nodes_self old).
  - intros z Hz Hn. destruct (Hcov z Hz Hn) as (y&Hy&Hdy&Hzy). apply Hroots in Hdy as (y'&Hy'&E). exists y. split; [|done].
    pose proof (Hold_idx y' (proj1 Hy')) as Hl. rewrite E, (Hold_idx y Hy) in Hl. by injection Hl as <-.
Qed.
End WriteDrain.

(** ** Full synchronisation *)

(** The DNs that a full synchronisation queues. *)
Definition sync_wants (s : Conn) (x : string) : Prop :=
  (∃ tag, is_Some (cachedState s !! tag) ∧
     (x ∈ d_deletes (tag_diff s tag) ∨ x ∈ (GetDn <$> d_updates (tag_diff s tag)))) ∨
  (∃ key objs, desiredState s !! key = Some objs ∧
     cachedState s !! getTagFromKey (prefix s) key = None ∧ x ∈ (GetDn <$> objs)).

Lemma set_cachedState_id s : set_cachedState (cachedState s) s = s.
Proof. by destruct s. Qed.

Lemma map_keys_NoDup {A} (m : gmap string A) : NoDup (map_to_list m).*1.
Proof. apply NoDup_fst_map_to_list. Qed.

Lemma map_keys_in {A} (m : gmap string A) k : k ∈ (map_to_list m).*1 ↔ is_Some (m !! k).
Proof.
  rewrite list_elem_of_fmap. split.
  - intros ([k' x]&->&Hx). apply elem_of_map_to_list in Hx. eauto.
  - intros [x Hx]. exists (k, x). split; [done|]. by apply elem_of_map_to_list.
Qed.

Lemma fullSync_run s q :
  indexMutex s = false → deltaQueue s = Some q → shuttingDown q = false →
  (∀ tag, is_Some (cachedState s !! tag) → d_grafts (tag_diff s tag) = []) →
  ∃ s' q', fullSync s = Some (tt, s') ∧ indexMutex s' = false ∧ syncEnabled s' = true ∧
    SyncDone s' = true ∧ deltaQueue s' = Some q' ∧
    desiredState s' = desiredState s ∧ desiredStateDn s' = desiredStateDn s ∧
    ∀ x, x ∈ dirty q' ↔ x ∈ dirty q ∨ sync_wants s x.
Proof.
  intros Hm Hq Hsd Hg. unfold fullSync. mstep. mstep.
  set (s0 := set_indexMutex true s).
  destruct (foldM_sync_tag s0 ((map_to_list (cachedState s)).*1) (cachedState s) ([], [])) as (m'&E&Hdom).
  { apply map_keys_NoDup. }
  { done. }
  { intros tag Htag%map_keys_in. by apply Hg. }
  { intros tag Htag%map_keys_in. done. }
  change (set_cachedState (cachedState s) s0) with (set_cachedState (cachedState s0) s0) in E.
  rewrite set_cachedState_id in E. rewrite (bind_run _ _ _ _ _ E). clear E. do 2 mstep.
  rewrite (bind_run _ _ _ _ _ (foldM_sync_key _ _ _ _)). mstep.
  erewrite (bind_run Unlock) by (apply Unlock_run; reflexivity). cbn [fst snd app].
  match goal with |- context [applyDiff ?u ?d] => set (ups := u); set (dels := d) end.
  set (s1 := set_indexMutex false _).
  assert (Hm1 : indexMutex s1 = false) by reflexivity.
  rewrite (bind_run _ _ _ _ _ (applyDiff_run ups dels s1 Hm1)).
  rewrite modify_run.
  destruct (queue_adds_queue (diff_order ups dels) s1 q) as (q'&Hq'&_&Hdirty); [exact Hq|exact Hsd|].
  destruct (queue_adds_keeps (diff_order ups dels) s1) as (Hds&Hdn&_&_&_&Hen).
  eexists _, q'. split; [reflexivity|]. cbn [indexMutex syncEnabled SyncDone deltaQueue desiredState desiredStateDn set_SyncDone].
  rewrite queue_adds_mutex, Hen, Hds, Hdn. split_and!; [done..|].
  intros x. rewrite Hdirty, diff_order_in. apply or_iff_compat_l. unfold dels, ups, sync_wants.
  rewrite fmap_app, elem_of_app.
  assert (Hd : x ∈ flat_map (λ t, d_deletes (tag_diff s0 t)) ((map_to_list (cachedState s)).*1) ↔
               ∃ tag, is_Some (cachedState s !! tag) ∧ x ∈ d_deletes (tag_diff s tag)).
  { rewrite elem_of_flat_map. by setoid_rewrite map_keys_in. }
  assert (Hu : x ∈ (GetDn <$> flat_map (λ t, d_updates (tag_diff s0 t)) ((map_to_list (cachedState s)).*1)) ↔
               ∃ tag, is_Some (cachedState s !! tag) ∧ x ∈ (GetDn <$> d_updates (tag_diff s tag))).
  { setoid_rewrite list_elem_of_fmap. setoid_rewrite elem_of_flat_map. setoid_rewrite map_keys_in. naive_solver. }
  rewrite Hd, Hu. clear Hd Hu.
  match goal with |- context [x ∈ GetDn <$> flat_map ?f ?l] =>
    assert (Hk : x ∈ (GetDn <$> flat_map f l) ↔
      ∃ key objs, desiredState s !! key = Some objs ∧
        cachedState s !! getTagFromKey (prefix s) key = None ∧ x ∈ (GetDn <$> objs)) end.
  { rewrite list_elem_of_fmap. setoid_rewrite elem_of_flat_map. setoid_rewrite map_keys_in.
    cbn [cachedState desiredState prefix set_cachedState set_indexMutex s0 containerDns]. split.
    - intros (o&->&key&[objs Hobjs]&Ho). exists key, objs. split; [done|].
      destruct (m' !! getTagFromKey (prefix s) key) eqn:Et; [by apply elem_of_nil in Ho|].
      apply Hdom in Et. split; [done|]. rewrite Hobjs in Ho. unfold diffApicState in Ho. cbn in Ho.
      apply list_elem_of_fmap. exists o. split; [done|]. by rewrite map_graft_nil in Ho.
    - intros (key&objs&Hobjs&Et&(o&->&Ho)%list_elem_of_fmap). exists o. split; [done|]. exists key.
      split; [by eauto|]. apply Hdom in Et. rewrite Et, Hobjs. unfold diffApicState. cbn. by rewrite map_graft_nil. }
  rewrite Hk. clear Hk. naive_solver.
Qed.

(** ** Reconciling one object *)

Definition reconcile_wants (s : Conn) (aci : ApicObject) (x : string) : Prop :=
  match desiredStateDn s !! GetDn aci with
  | Some eobj =>
      let r := if bool_decide (GetDn aci ∈ containerDns s) then apicCntCmp aci eobj
               else apicObjCmp aci eobj in
      (r_update r = true ∧ x = GetDn eobj) ∨ x ∈ r_deletes r
  | None => isSyncTag (prefix s) (GetTag aci) = true ∧ x = GetDn aci
  end.

Lemma reconcile_run s q aci :
  indexMutex s = false → syncEnabled s = true → deltaQueue s = Some q → shuttingDown q = false →
  ∃ s' q', reconcileApicObject aci s = Some (tt, s') ∧ indexMutex s' = false ∧
    deltaQueue s' = Some q' ∧ sent s' = sent s ∧
    ∀ x, x ∈ dirty q' ↔ x ∈ dirty q ∨ reconcile_wants s aci x.
Proof.
  intros Hm Hen Hq Hsd. unfold reconcileApicObject. do 2 mstep.
  change (syncEnabled (set_indexMutex true s)) with (syncEnabled s). rewrite Hen. cbn [negb]. do 3 mstep.
  cbn [desiredStateDn containerDns prefix set_indexMutex]. unfold reconcile_wants.
  destruct (desiredStateDn s !! GetDn aci) as [eobj|].
  - set (r := if bool_decide _ then _ else _). mstep.
    assert (Hag : ∀ g s, indexMutex (apply_grafts g s) = indexMutex s ∧
      deltaQueue (apply_grafts g s) = deltaQueue s ∧ sent (apply_grafts g s) = sent s) by (by intros [] ?).
    destruct (Hag (r_grafts r) (set_indexMutex true s)) as (Hm1&Hq1&Hs1).
    erewrite (bind_run Unlock) by (apply Unlock_run, Hm1).
    rewrite applyDiff_run by reflexivity. set (s1 := set_indexMutex false _).
    destruct (queue_adds_queue (diff_order (if r_update r then [eobj] else []) (r_deletes r)) s1 q) as (q'&Hq'&_&Hd).
    { change (deltaQueue (apply_grafts (r_grafts r) (set_indexMutex true s)) = Some q). by rewrite Hq1. }
    { done. }
    eexists _, q'. split; [reflexivity|]. rewrite queue_adds_mutex. split_and!; [done..| |].
    + destruct (queue_adds_keeps (diff_order (if r_update r then [eobj] else []) (r_deletes r)) s1) as (_&_&_&_&->&_).
      exact Hs1.
    + intros x. rewrite Hd, diff_order_in. destruct (r_update r); simpl; set_solver.
  - erewrite (bind_run Unlock) by (apply Unlock_run; reflexivity).
    rewrite applyDiff_run by reflexivity. set (s1 := set_indexMutex false _).
    set (dels := if isSyncTag _ _ then _ else _).
    destruct (queue_adds_queue (diff_order [] dels) s1 q) as (q'&Hq'&_&Hd); [done..|].
    eexists _, q'. split; [reflexivity|]. rewrite queue_adds_mutex. split_and!; [done..| |].
    + by destruct (queue_adds_keeps (diff_order [] dels) s1) as (_&_&_&_&->&_).
    + intros x. rewrite Hd, diff_order_in. unfold dels. destruct (isSyncTag _ _); simpl; set_solver.
Qed.

(** ** A notification during the handling of its DN *)

Lemma socket_object_run ids obj dn st s :
  indexMutex s = false → Attributes obj !! "dn" = Some (AStr dn) →
  Attributes obj !! "status" = Some (AStr st) →
  socket_object ids obj s =
  Some (tt, queue_add dn (set_pendingSubDnUpdate
    (<[dn := mkPending (if String.eqb st "deleted" then pendingChangeDelete else pendingChangeUpdate) ids false]>
       (pendingSubDnUpdate s)) s)).
Proof.
  intros Hm Hd Hs. unfold socket_object. rewrite Hd, Hs. do 2 mstep.
  change (set_pendingSubDnUpdate ?p (set_indexMutex true s)) with (set_indexMutex true (set_pendingSubDnUpdate p s)).
  rewrite queue_add_mutex, Unlock_run by reflexivity. do 2 f_equal. apply set_mutex_same.
  by rewrite (proj1 (queue_add_keeps _ _)).
Qed.
