(* ===== verification/ApicProps.v ===== *)
(** * ApicProps: what the APIC connection guarantees *)

From S2P Require Import Prelude ApicMetadata ApicTypes ApicBuild ApicTypesFacts GoSha ApicDiff.
From S2P Require Import ApicDiffFacts Workqueue ApicState ApicSync ApicPrepFacts ApicConn.
From S2P Require Import ApicConnFacts ApicIndexFacts ApicQueueFacts.

Open Scope string_scope.

(** ** Objects for the witnesses *)

Definition bd_dn : string := "uni/tn-t/BD-b".
Definition bd_tag_dn : string := "uni/tn-t/BD-b/annotationKey-[aci-containers-controller-tag]".
Definition subnet_dn : string := "uni/tn-t/BD-b/subnet-[10.0.0.1/8]".
Definition subnet_tag_dn : string :=
  "uni/tn-t/BD-b/subnet-[10.0.0.1/8]/annotationKey-[aci-containers-controller-tag]".

Definition or_nil (o : option ApicObject) : ApicSlice := opt_list o.

(** A bridge domain with a subnet. *)
Definition bd_objs : ApicSlice :=
  match NewFvBD "t" "b", NewFvSubnet bd_dn "10.0.0.1/8" with
  | Some bd, Some sn => [AddChild bd sn]
  | _, _ => []
  end.

(** The DNs above a DN, and its class. *)
Definition bd_path (dn : string) : list string :=
  default [] ((list_to_map [(bd_tag_dn, [bd_dn]); (subnet_dn, [bd_dn]);
                            (subnet_tag_dn, [bd_dn; subnet_dn])] : gmap string (list string)) !! dn).
Definition bd_cls (dn : string) : string :=
  default "fvBD" ((list_to_map [(bd_tag_dn, "tagAnnotation"); (subnet_tag_dn, "tagAnnotation");
                               (subnet_dn, "fvSubnet")] : gmap string string) !! dn).

(** A connection that is up, with an empty queue. *)
Definition conn_up : Conn :=
  set_deltaQueue (Some newQueue) (set_syncEnabled true (New_connection "kube" "4.2(1)")).

Definition always_ok (_ : list request) (_ : request) : response := Resp 200 (Some []) None.

Lemma always_ok_ok : apic_ok always_ok.
Proof. intros h r. by exists 200%Z, (Some []), None. Defined.

Lemma level_ok_bool path cls p s :
  bool_decide (StronglySorted dn_lt s) && forallb (placed path cls p) s = true → level_ok path cls p s.
Proof.
  rewrite andb_true_iff, bool_decide_eq_true, forallb_forall. intros [? H]. split; [done|].
  intros o Ho. by apply H, list_elem_of_In.
Qed.

Lemma fits_empty path cls s key objects :
  desiredState s = ∅ →
  bool_decide (StronglySorted dn_lt (write_objs s key objects)) &&
    forallb (placed path cls []) (write_objs s key objects) = true →
  fits path cls s key objects.
Proof.
  intros Hds Hl. split.
  - by apply level_ok_bool.
  - intros k objs o o' _ Hk. by rewrite Hds, lookup_empty in Hk.
  - intros c Hc. rewrite Hds, lookup_empty in Hc. by apply elem_of_nil in Hc.
  - unfold write_diff. rewrite Hds, lookup_empty. reflexivity.
Qed.

(** ** Writing *)

(** C1: A write of the objects of a key reaches the APIC.  It is assumed that the connection is up (synchronisation is enabled and every request is answered with a 2xx status) and idle (the queue is empty, the mutex free, no notification pending), that the index by DN holds the desired state, and that the write [fits]: the DN of an object determines its class and the DNs above it, the classes may be deleted, no DN belongs to another key, no old object of the key is a container, and the comparison overwrites no attribute of a custom service graph.  Then, once the queue is worked off, the requests sent are exactly: a POST of every object of the key that is new or compares as different from what was desired before; a DELETE of every object that is gone while everything above it is still desired; and a DELETE of every destination of a service redirect policy that is deleted so.  Every object that is gone lies below one that is deleted; the mutex is free and the queue empty. *)
Theorem apic_write_reaches_apic respond path cls s key objects q :
  apic_ok respond → indexMutex s = false →
  index_ok path cls (desiredState s) (desiredStateDn s) → fits path cls s key objects →
  syncEnabled s = true →
  deltaQueue s = Some q → idle q → pendingSubDnUpdate s = ∅ →
  let old := default [] (desiredState s !! key) in
  let new := write_objs s key objects in
  ∃ s1 n s2 reqs,
    WriteApicObjects key objects s = Some (tt, s1) ∧
    drain respond n s1 = Some (tt, s2) ∧ indexMutex s2 = false ∧
    (∃ q2, deltaQueue s2 = Some q2 ∧ queue q2 = []) ∧
    sent s2 = (sent s ++ reqs)%list ∧
    (∀ r, r ∈ reqs ↔
       (∃ d, changed old new d ∧ r = Post (GetDn d) d) ∨
       (∃ y dn, removed_root old new y ∧ (dn = GetDn y ∨ redirect_destination y dn) ∧ r = Delete dn)) ∧
    (∀ z, z ∈ slice_nodes old → GetDn z ∉ (GetDn <$> slice_nodes new) →
       ∃ y, removed_root old new y ∧ z ∈ nodes y).
Proof. apply write_drain. Qed.

Lemma apic_write_reaches_apic_witness :
  fits bd_path bd_cls conn_up "bd" (Some bd_objs) ∧
  ∃ s1 n s2 reqs, WriteApicObjects "bd" (Some bd_objs) conn_up = Some (tt, s1) ∧
    drain always_ok n s1 = Some (tt, s2) ∧ sent s2 = reqs ∧
    ∀ d, d ∈ write_objs conn_up "bd" (Some bd_objs) → Post (GetDn d) d ∈ reqs.
Proof.
  assert (Hf : fits bd_path bd_cls conn_up "bd" (Some bd_objs)).
  { apply fits_empty; [reflexivity|vm_compute; reflexivity]. }
  split; [exact Hf|].
  destruct (apic_write_reaches_apic always_ok bd_path bd_cls conn_up "bd" (Some bd_objs) newQueue
    always_ok_ok eq_refl (index_ok_empty bd_path bd_cls) Hf eq_refl eq_refl
    ltac:(done) eq_refl) as (s1&n&s2&reqs&H1&H2&_&_&H3&H4&_).
  exists s1, n, s2, reqs. split_and!; [exact H1|exact H2|exact H3|].
  intros d Hd. apply H4. left. exists d. split; [|reflexivity]. split; [exact Hd|]. left. apply not_elem_of_nil.
Defined.

(** C9: From a new connection, in every state that a sequence of writes leads to in which each write [fits] the state before it (the DN of an object determines its class and the DNs above it, the classes may be deleted, no DN belongs to two keys, no key of containers, no attribute of a custom service graph is overwritten), the index by DN holds exactly the objects of the desired state, each under its DN, the mutex is free, and the next write that fits returns with the mutex free. *)
Theorem apic_index_invariant path cls pre ver s :
  written path cls pre ver s →
  indexMutex s = false ∧
  (∀ dn o, desiredStateDn s !! dn = Some o ↔
     ∃ key objs, desiredState s !! key = Some objs ∧ o ∈ slice_nodes objs ∧ GetDn o = dn) ∧
  (∀ key objects, fits path cls s key objects →
     ∃ s', WriteApicObjects key objects s = Some (tt, s') ∧ indexMutex s' = false).
Proof.
  intros Hw. destruct (written_index path cls pre ver s Hw) as [Hm Hidx].
  split; [done|]. split; [apply Hidx|]. intros key objects [Hnew Hap Hcont Hg].
  destruct (write_keeps_index path cls key objects s Hm Hidx Hnew Hap Hcont Hg)
    as (extra&s1&_&_&_&Hrun1&Hm1&_). by exists s1.
Qed.

Lemma apic_index_invariant_witness :
  ∃ s, WriteApicObjects "bd" (Some bd_objs) (New_connection "kube" "4.2(1)") = Some (tt, s) ∧
       written bd_path bd_cls "kube" "4.2(1)" s ∧ indexMutex s = false.
Proof.
  assert (Hf : fits bd_path bd_cls (New_connection "kube" "4.2(1)") "bd" (Some bd_objs)).
  { apply fits_empty; [reflexivity|vm_compute; reflexivity]. }
  destruct (apic_index_invariant bd_path bd_cls "kube" "4.2(1)" (New_connection "kube" "4.2(1)")
    (written_new _ _ _ _)) as (_&_&Hrun).
  destruct (Hrun "bd" (Some bd_objs) Hf) as (s'&Hs'&Hm').
  exists s'. split_and!; [exact Hs'| |exact Hm'].
  eapply written_write; [apply written_new|exact Hf|exact Hs'].
Defined.

(** When the comparison of a write asks to delete a service redirect policy that the index does not hold, doWriteApicObjects returns with the index mutex locked, and the next operation that takes the mutex never returns. *)
Theorem apic_redirect_leaves_mutex_locked key objects container s :
  indexMutex s = false →
  redirect_deletes (desiredStateDn s) (d_deletes (write_diff s key objects)) = None →
  ∃ s', doWriteApicObjects key objects container s = Some (tt, s') ∧ indexMutex s' = true ∧
        ∀ dn, queueDn dn s' = None.
Proof.
  intros Hm Hred. exists (set_indexMutex true s). split_and!; [|reflexivity|reflexivity].
  unfold doWriteApicObjects. do 6 mstep.
  change (redirect_deletes (desiredStateDn s) (d_deletes (write_diff s key objects)) = None) in Hred.
  match goal with |- match ?r with Some _ => _ | None => _ end _ = _ =>
    change r with (redirect_deletes (desiredStateDn s) (d_deletes (write_diff s key objects))) end.
  rewrite Hred. reflexivity.
Qed.

(** Two keys with the same redirect policy: clearing the first removes it from
    the index, and clearing the second finds it missing. *)
Definition redirect_objs : ApicSlice := or_nil (NewVnsSvcRedirectPol "common" "kube_svc_default_web").

Definition redirect_state : option Conn :=
  '(_, s) ← WriteApicObjects "a" (Some redirect_objs) (New_connection "kube" "4.2(1)");
  '(_, s) ← WriteApicObjects "b" (Some redirect_objs) s;
  '(_, s) ← ClearApicObjects "a" s;
  Some s.

Lemma apic_redirect_leaves_mutex_locked_witness :
  ∃ s s', redirect_state = Some s ∧ ClearApicObjects "b" s = Some (tt, s') ∧ indexMutex s' = true.
Proof.
  destruct redirect_state as [s|] eqn:E; [|exfalso; revert E; vm_compute; discriminate].
  destruct (apic_redirect_leaves_mutex_locked "b" None false s) as (s'&Hrun&Hm&_).
  - assert (H : (indexMutex <$> redirect_state) = Some false) by (vm_compute; reflexivity).
    rewrite E in H. injection H as H. exact H.
  - assert (H : ((λ s, match redirect_deletes (desiredStateDn s) (d_deletes (write_diff s "b" None)) with
                       | None => true | Some _ => false end) <$> redirect_state) = Some true)
      by (vm_compute; reflexivity).
    rewrite E in H. injection H as H. clear E. revert H.
    destruct (redirect_deletes _ _); [discriminate|reflexivity].
  - exists s, s'. split; [reflexivity|]. split; [exact Hrun|exact Hm].
Defined.

(** Writing to a key the objects it already has queues nothing, whatever else the connection is doing. *)
Theorem apic_rewrite_queues_nothing key objs container s :
  indexMutex s = false →
  desiredState s !! key = Some (write_objs s key (Some objs)) →
  ∃ s', doWriteApicObjects key (Some objs) container s = Some (tt, s') ∧
        indexMutex s' = false ∧ deltaQueue s' = deltaQueue s ∧ sent s' = sent s.
Proof.
  intros Hm Hk.
  destruct (diff_loop_refl (containerDns s) (write_objs s key (Some objs))) as [Hu Hd].
  assert (E : d_deletes (write_diff s key (Some objs)) = [] ∧ d_updates (write_diff s key (Some objs)) = []).
  { unfold write_diff. rewrite Hk. unfold diffApicState. simpl. rewrite Hu, Hd. done. }
  destruct E as [Ed Eu].
  destruct (doWrite_run key (Some objs) container s []) as (s'&Hrun&Hm'&_&_&_&Hq&_&Hs); [done|by rewrite Ed|].
  exists s'. split_and!; [done..| |done]. rewrite Hq, Ed, Eu. by destruct (syncEnabled s).
Qed.

Lemma apic_rewrite_queues_nothing_witness :
  ∃ s s', WriteApicObjects "bd" (Some bd_objs) conn_up = Some (tt, s) ∧
    doWriteApicObjects "bd" (Some bd_objs) false s = Some (tt, s') ∧ deltaQueue s' = deltaQueue s.
Proof.
  destruct (doWrite_run "bd" (Some bd_objs) false conn_up []) as (s&Hrun&Hm&Hds&_); [reflexivity..|].
  assert (Hpre : prefix s = "kube" ∧ ApicVersion s = "4.2(1)").
  { assert (H : ((λ r, (prefix r.2, ApicVersion r.2)) <$> doWriteApicObjects "bd" (Some bd_objs) false conn_up)
                 = Some ("kube", "4.2(1)")) by (vm_compute; reflexivity).
    rewrite Hrun in H. injection H as H1 H2. exact (conj H1 H2). }
  destruct Hpre as [Hp Hv].
  destruct (apic_rewrite_queues_nothing "bd" bd_objs false s) as (s'&Hrun'&_&Hq&_); [exact Hm| |].
  - rewrite Hds, lookup_insert_eq. f_equal. rewrite map_graft_nil. unfold write_objs. rewrite Hp, Hv. reflexivity.
  - exists s, s'. split; [exact Hrun|]. split; [exact Hrun'|exact Hq].
Defined.

(** ** Preparing and comparing *)

(** Preparing a slice (whose objects carry at most one tag of the controller each) keeps its DNs and gives, at every level, children sorted by DN and attributes in normal form; every object that is not a tag itself gets the owner's annotation and, when it has a DN, exactly the given tag. *)
Theorem apic_prepare ver objs tag :
  forallb one_tag objs = true →
  StronglySorted dn_le (prepareApicSliceTag ver objs tag) ∧
  Forall (prepared tag) (prepareApicSliceTag ver objs tag) ∧
  GetDn <$> prepareApicSliceTag ver objs tag ≡ₚ GetDn <$> objs.
Proof.
  intros H. destruct (prepareApicSliceTag_prepared ver objs tag H). split_and!; [done..|].
  apply prepareApicSliceTag_dns.
Qed.

Lemma apic_prepare_witness :
  Forall (prepared "kube-1") (prepareApicSliceTag "4.2" bd_objs "kube-1") ∧
  length (prepareApicSliceTag "4.2" bd_objs "kube-1") = 1%nat.
Proof. split; [apply (apic_prepare "4.2" bd_objs "kube-1")|]; vm_compute; reflexivity. Defined.

(** C32: For subtrees sorted by DN, apicObjCmp asks for no update and no delete exactly when the two subtrees match: declared attributes and annotations agree, every desired child is there, every child that may be deleted is desired, and children with the same DN match. *)
Theorem apic_compare_iff_matches c d :
  deep_sorted c = true → deep_sorted d = true →
  (r_update (apicObjCmp c d) = false ∧ ∀ x, x ∉ r_deletes (apicObjCmp c d)) ↔ matches c d.
Proof. apply apicObjCmp_silent. Qed.

Lemma apic_compare_iff_matches_witness :
  ∃ o, write_objs conn_up "bd" (Some bd_objs) = [o] ∧ matches o o.
Proof.
  destruct (write_objs conn_up "bd" (Some bd_objs)) as [|o [|]] eqn:E;
    [exfalso; apply (f_equal length) in E; revert E; vm_compute; discriminate| |
     exfalso; apply (f_equal length) in E; revert E; vm_compute; discriminate].
  exists o. split; [reflexivity|].
  assert (Hs : deep_sorted o = true).
  { assert (H : forallb deep_sorted (write_objs conn_up "bd" (Some bd_objs)) = true) by (vm_compute; reflexivity).
    rewrite E in H. simpl in H. rewrite andb_true_r in H. exact H. }
  apply (apic_compare_iff_matches o o Hs Hs), apicObjCmp_refl.
Defined.

(** For slices sorted strictly by DN, diffApicState finds by one walk what a search by DN finds: it updates exactly the desired objects that are not in the current state or that compare as different, and deletes exactly the current objects that are not desired and may be deleted, and what the comparison of common objects asks to delete. *)
Theorem apic_diff_spec cds cs ds :
  StronglySorted dn_lt cs → StronglySorted dn_lt ds →
  let r := diffApicState cds cs ds in
  (∀ u, u ∈ d_updates r ↔
     ∃ d, u = graft (d_grafts r) d ∧ d ∈ ds ∧
       (GetDn d ∉ (GetDn <$> cs) ∨
        ∃ c, c ∈ cs ∧ GetDn c = GetDn d ∧
          r_update (if bool_decide (GetDn c ∈ cds) then apicCntCmp c d else apicObjCmp c d) = true)) ∧
  (∀ x, x ∈ d_deletes r ↔
     (∃ c, c ∈ cs ∧ x = GetDn c ∧ x ∉ (GetDn <$> ds) ∧ checkNonDeletable (class c) = true) ∨
     (∃ c d, c ∈ cs ∧ d ∈ ds ∧ GetDn c = GetDn d ∧
        x ∈ r_deletes (if bool_decide (GetDn c ∈ cds) then apicCntCmp c d else apicObjCmp c d))).
Proof.
  intros Hcs Hds r. split.
  - intros u. unfold r, diffApicState. cbn [d_updates d_grafts]. rewrite list_elem_of_fmap.
    setoid_rewrite (diff_loop_updates cs ds Hcs Hds). unfold paired, diff_same. cbn [d_updates].
    split; intros (d&->&H); exists d; (split; [done|]).
    + destruct H as [[? ?]|(c&(?&?&?)&Hu)]; [by auto|]. split; [done|right]. exists c. split_and!; [done..|].
      by destruct (r_update _).
    + destruct H as [Hd [?|(c&?&?&Hu)]]; [by left|right]. exists c. split; [done|]. by rewrite Hu.
  - intros x. unfold r, diffApicState. cbn [d_deletes]. rewrite (diff_loop_deletes cs ds Hcs Hds).
    unfold paired, surplus, diff_same. cbn [d_deletes].
    apply or_cong; (split; [intros (c&H); exists c|intros (c&H); exists c]).
    + destruct H as ((H1&H2&H3)&->). exact (conj H1 (conj eq_refl (conj H2 H3))).
    + destruct H as (H1&->&H2&H3). exact (conj (conj H1 (conj H2 H3)) eq_refl).
    + destruct H as (d&(?&?&?)&?). by exists d.
    + destruct H as (d&?&?&?&?). by exists d.
Qed.

Lemma apic_diff_spec_witness :
  let objs := write_objs conn_up "bd" (Some bd_objs) in
  StronglySorted dn_lt objs ∧ ∀ x, x ∈ d_deletes (diffApicState ∅ objs []) ↔ x = bd_dn.
Proof.
  intros objs. assert (Hs : StronglySorted dn_lt objs) by decide_now. split; [exact Hs|].
  intros x. destruct (apic_diff_spec ∅ objs [] Hs ltac:(constructor)) as [_ H].
  rewrite H. split.
  - intros [(c&Hc&->&_)|(c&d&_&Hd&_)]; [|by apply elem_of_nil in Hd].
    assert (Ha : forallb (λ c, String.eqb (GetDn c) bd_dn) objs = true) by (vm_compute; reflexivity).
    rewrite forallb_forall in Ha. apply String.eqb_eq, Ha, list_elem_of_In, Hc.
  - intros ->. apply (H bd_dn). vm_compute. left.
Defined.

(** The tag that the connection gives to the objects of a key is one that it recognises as its own (so that objects that are no longer desired are found again), for a prefix that ends in a word character. *)
Theorem apic_own_tag_recognised p c key :
  word_char c = true →
  isSyncTag (p ++ String c EmptyString) (getTagFromKey (p ++ String c EmptyString) key) = true.
Proof. apply isSyncTag_getTag. Qed.

Lemma apic_own_tag_recognised_witness :
  isSyncTag "kube" (getTagFromKey "kube" "svc") = true.
Proof. apply (apic_own_tag_recognised "kub" (Ascii.ascii_of_nat 101) "svc"). vm_compute. reflexivity. Defined.

(** No constructor of APIC objects panics: each class has metadata, the object built is of that class and has a value for every attribute the class declares; and the DN (or DN hint) of an object built under a parent is the DN of the parent, a slash and a name. *)
Theorem apic_constructors_total a b c d e f flag :
  Forall (λ cr, builds cr.1 cr.2) (all_constructors a b c d e f flag) ∧
  Forall (λ g, ∀ p, ∃ o rn, g p = Some o ∧ GetDn o = p ++ "/" ++ rn) (child_constructors b c d flag).
Proof. split; [apply all_constructors_build|apply child_constructors_under]. Qed.

(** ** Synchronising *)

(** A full synchronisation returns with the mutex free and synchronisation enabled, leaves the desired state alone, and queues exactly: for every tag in the cache of what the APIC reported, the differences to the objects of its key, and every object of a key whose tag the APIC did not report. *)
Theorem apic_full_sync s q :
  indexMutex s = false → deltaQueue s = Some q → shuttingDown q = false →
  (∀ tag, is_Some (cachedState s !! tag) → d_grafts (tag_diff s tag) = []) →
  ∃ s' q', fullSync s = Some (tt, s') ∧ indexMutex s' = false ∧ syncEnabled s' = true ∧
    SyncDone s' = true ∧ deltaQueue s' = Some q' ∧
    desiredState s' = desiredState s ∧ desiredStateDn s' = desiredStateDn s ∧
    ∀ x, x ∈ dirty q' ↔ x ∈ dirty q ∨ sync_wants s x.
Proof. apply fullSync_run. Qed.

(** The APIC has an object of the controller that is not desired. *)
Definition sync_state : Conn :=
  set_cachedState (<[getTagFromKey "kube" "bd" := write_objs conn_up "bd" (Some bd_objs)]> ∅) conn_up.

Lemma apic_full_sync_witness :
  ∃ s' q', fullSync sync_state = Some (tt, s') ∧ deltaQueue s' = Some q' ∧ bd_dn ∈ dirty q'.
Proof.
  destruct (apic_full_sync sync_state newQueue) as (s'&q'&Hrun&_&_&_&Hq&_&_&Hx); [reflexivity..| |].
  - intros tag Htag. assert (tag = getTagFromKey "kube" "bd") as ->.
    { destruct (decide (tag = getTagFromKey "kube" "bd")) as [->|Hne]; [reflexivity|].
      unfold sync_state in Htag. cbn [cachedState set_cachedState] in Htag.
      rewrite lookup_insert_ne in Htag by (intros E; by apply Hne). destruct Htag as [? H].
      by rewrite lookup_empty in H. }
    vm_compute. reflexivity.
  - exists s', q'. split; [exact Hrun|]. split; [exact Hq|]. apply Hx. right. left.
    exists (getTagFromKey "kube" "bd"). split; [|left; vm_compute; left].
    unfold sync_state. cbn [cachedState set_cachedState]. rewrite lookup_insert_eq. eauto.
Defined.

(** Reconciling an object that the APIC reported, with synchronisation enabled, queues: for a desired DN, the DN when the comparison wants an update and the DNs it wants deleted; for a DN that is not desired, the DN itself when the object carries a tag of this cluster, so that it will be deleted; and nothing else. *)
Theorem apic_reconcile s q aci :
  indexMutex s = false → syncEnabled s = true → deltaQueue s = Some q → shuttingDown q = false →
  ∃ s' q', reconcileApicObject aci s = Some (tt, s') ∧ indexMutex s' = false ∧
    deltaQueue s' = Some q' ∧ sent s' = sent s ∧
    ∀ x, x ∈ dirty q' ↔ x ∈ dirty q ∨ reconcile_wants s aci x.
Proof. apply reconcile_run. Qed.

Lemma apic_reconcile_witness :
  ∃ s' q', reconcileApicObject (nth 0 (write_objs conn_up "bd" (Some bd_objs)) (EmptyApicObject "x" "y")) conn_up
             = Some (tt, s') ∧ deltaQueue s' = Some q' ∧ bd_dn ∈ dirty q'.
Proof.
  set (o := nth 0 _ _).
  destruct (apic_reconcile conn_up newQueue o) as (s'&q'&Hrun&_&Hq&_&Hx); [reflexivity..|].
  exists s', q'. split; [exact Hrun|]. split; [exact Hq|]. apply Hx. right. unfold reconcile_wants.
  cbn [desiredStateDn conn_up set_deltaQueue set_syncEnabled New_connection]. rewrite lookup_empty.
  split; vm_compute; reflexivity.
Defined.

(** ** Notifications and the queue *)

(** A notification for a DN that arrives while the DN is being handled is not lost: when the worker settles the DN, the pending change of the notification is still recorded and the DN is queued again. *)
Theorem apic_notification_kept s q dn ids obj st :
  indexMutex s = false → deltaQueue s = Some q → shuttingDown q = false →
  dn ∈ processing q →
  Attributes obj !! "dn" = Some (AStr dn) → Attributes obj !! "status" = Some (AStr st) →
  ∃ s1 s2 q2,
    handleSocketUpdate ids [obj] s = Some (tt, s1) ∧
    process_settle dn false s1 = Some (tt, s2) ∧
    pendingSubDnUpdate s2 !! dn =
      Some (mkPending (if String.eqb st "deleted" then pendingChangeDelete else pendingChangeUpdate) ids false) ∧
    deltaQueue s2 = Some q2 ∧ dn ∈ queue q2 ∧ dn ∉ processing q2.
Proof.
  intros Hm Hq Hsd Hproc Hdn Hst. unfold handleSocketUpdate. cbn [forM].
  rewrite (bind_run _ _ _ _ _ (socket_object_run ids obj dn st s Hm Hdn Hst)). rewrite ret_run.
  set (s1 := queue_add dn _). destruct (queue_add_keeps dn (set_pendingSubDnUpdate
    (<[dn := mkPending (if String.eqb st "deleted" then pendingChangeDelete else pendingChangeUpdate) ids false]>
       (pendingSubDnUpdate s)) s)) as (Hm1&_&_&_&_&Hp1&_&_&Hq1). fold s1 in Hm1, Hp1, Hq1.
  cbn [indexMutex pendingSubDnUpdate deltaQueue set_pendingSubDnUpdate] in Hm1, Hp1, Hq1.
  rewrite Hm in Hm1. rewrite Hq in Hq1. simpl in Hq1.
  exists s1. unfold process_settle. mstep. mstep.
  change (pendingSubDnUpdate (set_indexMutex true s1)) with (pendingSubDnUpdate s1).
  rewrite Hp1, lookup_insert_eq. cbn [isDirty].
  erewrite (bind_run Unlock) by (apply Unlock_run; reflexivity). rewrite modify_run.
  eexists _, (Done dn (Add dn q)). split; [reflexivity|]. split; [reflexivity|]. split; [|split_and!].
  - change (pendingSubDnUpdate s1 !! dn = Some (mkPending (if String.eqb st "deleted" then pendingChangeDelete else pendingChangeUpdate) ids false)).
    by rewrite Hp1, lookup_insert_eq.
  - unfold on_queue. simpl. by rewrite Hq1.
  - unfold Done. rewrite bool_decide_eq_true_2 by (rewrite Add_dirty by done; set_solver). simpl. set_solver.
  - unfold Done. rewrite bool_decide_eq_true_2 by (rewrite Add_dirty by done; set_solver). simpl. set_solver.
Qed.

Lemma apic_notification_kept_witness :
  let s := set_deltaQueue (Some (mkQueue [] ∅ {[bd_dn]} [] false)) conn_up in
  let obj := Obj "fvBD" EmptyString (<["status" := AStr "modified"]> {["dn" := AStr bd_dn]}) [] in
  ∃ s1 s2 q2, handleSocketUpdate ["1"] [obj] s = Some (tt, s1) ∧
    process_settle bd_dn false s1 = Some (tt, s2) ∧ deltaQueue s2 = Some q2 ∧ bd_dn ∈ queue q2.
Proof.
  intros s obj.
  destruct (apic_notification_kept s (mkQueue [] ∅ {[bd_dn]} [] false) bd_dn ["1"] obj "modified")
    as (s1&s2&q2&H1&H2&_&H3&H4&_);
    [reflexivity|reflexivity|reflexivity|decide_now|vm_compute; reflexivity..|].
  exists s1, s2, q2. split; [exact H1|]. split; [exact H2|]. split; [exact H3|exact H4].
Defined.

(** The mark that a worker leaves on a DN whose POST was rejected reads as a pending delete: when the object is no longer desired at the next attempt, the worker sends no DELETE and forgets the DN. *)
Theorem apic_rejected_dn_is_not_deleted respond s q dn rest :
  indexMutex s = false → deltaQueue s = Some q → queue q = dn :: rest → q_inv q →
  pendingSubDnUpdate s !! dn = Some dirtyChange → desiredStateDn s !! dn = None →
  ∃ s' q', processQueue_step respond s = Some (tt, s') ∧ sent s' = sent s ∧
    deltaQueue s' = Some q' ∧ queue q' = rest ∧ dn ∉ dirty q' ∧ delayed q' = delayed q ∧
    pendingSubDnUpdate s' !! dn = None.
Proof.
  intros Hm Hq Hqu Hinv Hp Hd. unfold processQueue_step.
  set (q1 := mkQueue rest (dirty q ∖ {[dn]}) ({[dn]} ∪ processing q) (delayed q) (shuttingDown q)).
  assert (Htake : process_take s = Some (Some dn, set_deltaQueue (Some q1) s)).
  { unfold process_take. rewrite Hq. simpl. unfold Get. by rewrite Hqu. }
  rewrite (bind_run _ _ _ _ _ Htake).
  assert (Hh : handleQueuedDn respond dn (set_deltaQueue (Some q1) s) =
    Some (false, set_pendingSubDnUpdate (<[dn := dirtyChange]> (pendingSubDnUpdate s)) (set_deltaQueue (Some q1) s))).
  { unfold handleQueuedDn. do 5 mstep.
    change (pendingSubDnUpdate (set_indexMutex true (set_deltaQueue (Some q1) s))) with (pendingSubDnUpdate s).
    rewrite Hp. cbn [subIds dirtyChange foldM]. mstep. cbn [cl_rootDn].
    change (desiredStateDn (set_pendingSubDnUpdate ?p (set_indexMutex true (set_deltaQueue (Some q1) s)))) with (desiredStateDn s).
    rewrite Hd. cbn [pc_kind cl_delete forM dirtyChange]. mstep. cbn [String.eqb]. rewrite String.eqb_refl, ret_run.
    do 2 f_equal. destruct s. simpl in *. by subst. }
  rewrite (bind_run _ _ _ _ _ Hh), process_settle_run; [|exact Hm|apply lookup_insert_eq].
  assert (Hdone : Done dn q1 = mkQueue rest (dirty q1) (processing q1 ∖ {[dn]}) (delayed q1) (shuttingDown q1)).
  { unfold Done. rewrite bool_decide_eq_false_2; [done|]. simpl. set_solver. }
  eexists _, (Done dn q1). split; [reflexivity|]. split; [reflexivity|]. split; [reflexivity|].
  split; [by rewrite Hdone|]. split; [rewrite Hdone; simpl; set_solver|].
  split; [by rewrite Hdone|]. apply lookup_delete_eq.
Qed.

(** An object whose POST the APIC rejects is cleared while it waits for the
    retry, and the retry comes before the worker gets to the DN. *)
Definition reject (_ : list request) (_ : request) : response := Resp 400 None None.

Definition rejected_state : option Conn :=
  '(_, s) ← WriteApicObjects "bd" (Some bd_objs) conn_up;
  '(_, s) ← processQueue_step reject s;
  '(_, s) ← ClearApicObjects "bd" s;
  Some (on_queue (fire 0) s).

Lemma apic_rejected_dn_is_not_deleted_witness :
  ∃ s s' q', rejected_state = Some s ∧ processQueue_step always_ok s = Some (tt, s') ∧
    (Delete bd_dn) ∉ sent s' ∧ deltaQueue s' = Some q' ∧ queue q' = [] ∧ delayed q' = [].
Proof.
  destruct rejected_state as [s|] eqn:E; [|exfalso; revert E; vm_compute; discriminate].
  assert (Hq : (deltaQueue <$> rejected_state) = Some (Some (mkQueue [bd_dn] {[bd_dn]} ∅ [] false)))
    by (vm_compute; reflexivity).
  assert (Hm : (indexMutex <$> rejected_state) = Some false) by (vm_compute; reflexivity).
  assert (Hp : ((λ s, pendingSubDnUpdate s !! bd_dn) <$> rejected_state) = Some (Some dirtyChange))
    by (vm_compute; reflexivity).
  assert (Hd : ((λ s, match desiredStateDn s !! bd_dn with None => true | Some _ => false end) <$> rejected_state) = Some true)
    by (vm_compute; reflexivity).
  assert (Hs : ((λ s, forallb (λ r, match r with Delete _ => false | _ => true end) (sent s)) <$> rejected_state) = Some true)
    by (vm_compute; reflexivity).
  rewrite E in Hq, Hm, Hp, Hd, Hs. clear E.
  injection Hq as Hq. injection Hm as Hm. injection Hp as Hp. injection Hd as Hd. injection Hs as Hs.
  assert (Hd' : desiredStateDn s !! bd_dn = None) by (revert Hd; destruct (desiredStateDn s !! bd_dn); [discriminate|reflexivity]).
  destruct (apic_rejected_dn_is_not_deleted always_ok s (mkQueue [bd_dn] {[bd_dn]} ∅ [] false) bd_dn [])
    as (s'&q'&Hrun&Hsent&Hq'&Hqu&_&Hdl&_); [exact Hm|exact Hq|reflexivity| |exact Hp|exact Hd'|].
  { split; [apply NoDup_singleton|]. simpl. set_solver. }
  exists s, s'.
  assert (Hdel : (Delete bd_dn) ∉ sent s').
  { rewrite Hsent. intros Hin. rewrite forallb_forall in Hs. apply list_elem_of_In, Hs in Hin. discriminate. }
  exists q'. split; [reflexivity|]. split; [exact Hrun|]. split; [exact Hdel|]. split; [exact Hq'|]. split; [exact Hqu|].
  exact Hdl.
Defined.

(** In every state of the work queue that its operations lead to, the queue holds exactly the items that are dirty and not being processed, each once; so an item is never worked on twice at the same time, and one that is added while it is being processed is queued again when the worker is done. *)
Theorem workqueue_invariant q :
  rtc q_step newQueue q →
  NoDup (queue q) ∧ (∀ x, x ∈ queue q ↔ x ∈ dirty q ∧ x ∉ processing q) ∧
  (∀ x, x ∈ processing q → shuttingDown q = false → x ∈ queue (Done x (Add x q))).
Proof.
  intros Hr. assert (Hinv : q_inv q) by exact (q_inv_reachable _ _ Hr q_inv_new).
  split; [apply Hinv|]. split; [apply Hinv|]. intros x Hx Hsd.
  unfold Done. rewrite bool_decide_eq_true_2 by (rewrite Add_dirty by done; set_solver). simpl. set_solver.
Qed.

Lemma workqueue_invariant_witness :
  rtc q_step newQueue (Add "a" newQueue) ∧ queue (Add "a" newQueue) = ["a"] ∧
  ("a" ∈ dirty (Add "a" newQueue) ∧ "a" ∉ processing (Add "a" newQueue)).
Proof.
  assert (Hr : rtc q_step newQueue (Add "a" newQueue)) by (apply rtc_once; constructor).
  split; [exact Hr|]. split; [vm_compute; reflexivity|].
  destruct (workqueue_invariant _ Hr) as (_&H&_). apply H. vm_compute. left.
Defined.

(** The classes asked for below a subscription are those reachable from its target classes through the children of the metadata, without the targets themselves, and the annotations that carry the tags. *)
Theorem apic_response_classes md targets cl :
  cl ∈ computeRespClasses md targets ↔
  (reach md targets cl ∧ cl ∉ targets) ∨ cl = "tagAnnotation".
Proof. apply computeRespClasses_in. Qed.

(** C40: The check of the cluster's VRF, for an answer of the APIC that could be read, succeeds exactly when every expected relation is among those reported; but for an answer with an error status it reports no error at all. *)
Theorem apic_vrf_check r expected :
  match r with
  | Resp st (Some imdata) _ =>
      is2xx st = true →
      (ValidateAciVrfAssociation r expected = None ↔
       ∀ e, e ∈ expected → e ∈ vrf_relations imdata)
  | Resp st None _ => is2xx st = true → ValidateAciVrfAssociation r expected ≠ None
  | _ => ValidateAciVrfAssociation r expected ≠ None
  end ∧
  ∀ st body id, is2xx st = false → ValidateAciVrfAssociation (Resp st body id) expected = None.
Proof.
  split.
  - destruct r as [| |st [imdata|] id]; [done..| |simpl; by intros ->].
    simpl. intros ->. simpl. destruct (forallb _ expected) eqn:E.
    + split; [intros _|done]. intros e He. rewrite forallb_forall in E.
      apply list_elem_of_In, E, bool_decide_eq_true, SearchStrings_found in He; [|apply sort_strings_sorted].
      unfold sort_strings in He. by rewrite merge_sort_Permutation in He.
    + split; [done|]. intros H. exfalso. apply not_true_iff_false in E. apply E.
      apply forallb_forall. intros e He%list_elem_of_In. apply bool_decide_eq_true, SearchStrings_found;
        [apply sort_strings_sorted|]. unfold sort_strings. rewrite merge_sort_Permutation. by apply H.
  - intros st body id Hst. unfold ValidateAciVrfAssociation. by rewrite Hst.
Qed.
