(* ===== verification/GoText.v ===== *)
(** * The text side of Go's packages strconv, strings and net

    Decimal numbers, splitting, and the text form of addresses and networks as
    net.ParseIP, net.ParseCIDR, IP.String and IPNet.String read and write it.
    Zones ([fe80::1%eth0]) are refused by both parsers of package net.  The
    lemmas show that the text of an IPv4 network is read back as that
    network. *)
From Stdlib Require Export Ascii.
From stdpp Require Export pretty.
From S2P Require Import Prelude GoBytes GoNet.

Open Scope string_scope.

(** ** strconv *)

Definition Itoa (z : Z) : string := pretty z.

#[export] Instance Itoa_inj : Inj (=) (=) Itoa.
Proof. unfold Itoa. apply _. Qed.

(** The value of a decimal digit. *)
Definition digit (c : ascii) : option Z :=
  let n := nat_of_ascii c in
  if ((48 <=? n) && (n <=? 57))%nat then Some (Z.of_nat n - 48)%Z else None.

Fixpoint all_digits (s : string) : bool :=
  match s with
  | EmptyString => true
  | String c s => bool_decide (is_Some (digit c)) && all_digits s
  end.

Lemma pretty_go_digits x s : all_digits s = true → all_digits (pretty_N_go x s) = true.
Proof.
  revert s. induction (N.lt_wf_0 x) as [x _ IH]; intros s Hs.
  destruct (decide (x = 0)%N) as [->|Hx]; [done|].
  rewrite pretty_N_go_step by lia. apply IH; [apply N.div_lt; lia|]. simpl.
  rewrite Hs, andb_true_r. apply bool_decide_eq_true. unfold pretty_N_char. repeat case_match; by vm_compute; eauto.
Qed.

Lemma pretty_go_length x s : (String.length s <= String.length (pretty_N_go x s))%nat.
Proof.
  revert s. induction (N.lt_wf_0 x) as [x _ IH]; intros s.
  destruct (decide (x = 0)%N) as [->|Hx]; [done|].
  rewrite pretty_N_go_step by lia. etrans; [|apply IH, N.div_lt; lia]. simpl. lia.
Qed.

(** The decimal of a number: digits, after a minus sign or not. *)
Lemma Itoa_shape z : ∃ c s, (Itoa z = String c s ∨ Itoa z = String "-" (String c s)) ∧ is_Some (digit c).
Proof.
  assert (H : ∀ p, ∃ c s, pretty (N.pos p) = String c s ∧ is_Some (digit c)).
  { intros p. assert (E : pretty (N.pos p) = pretty_N_go (N.pos p) EmptyString) by done.
    rewrite E. pose proof (pretty_go_digits (N.pos p) EmptyString eq_refl) as Hd.
    rewrite (pretty_N_go_step (N.pos p)) in Hd |- * by lia.
    pose proof (pretty_go_length (N.pos p `div` 10) (String (pretty_N_char (N.pos p `mod` 10)) EmptyString)) as Hl.
    set (t := pretty_N_go (N.pos p `div` 10) (String (pretty_N_char (N.pos p `mod` 10)) EmptyString)) in *.
    clearbody t. destruct t as [|c s]; [cbn [String.length] in Hl; lia|]. exists c, s. split; [done|].
    simpl in Hd. apply andb_true_iff in Hd as [Hd _]. by apply bool_decide_eq_true in Hd. }
  destruct z as [|p|p].
  - exists "0"%char, EmptyString. split; [by left|by vm_compute; eauto].
  - destruct (H p) as (c&s&E&Hc). exists c, s. split; [by left|done].
  - destruct (H p) as (c&s&E&Hc). exists c, s. split; [right|done].
    change (Itoa (Z.neg p)) with ("-" +:+ pretty (N.pos p)). by rewrite E.
Qed.

(** The value of a hexadecimal digit. *)
Definition hexdigit (c : ascii) : option Z :=
  let n := nat_of_ascii c in
  if ((48 <=? n) && (n <=? 57))%nat then Some (Z.of_nat n - 48)%Z
  else if ((97 <=? n) && (n <=? 102))%nat then Some (Z.of_nat n - 87)%Z
  else if ((65 <=? n) && (n <=? 70))%nat then Some (Z.of_nat n - 55)%Z
  else None.

(** The digits of a string as a number, after [acc]. *)
Fixpoint digits (acc : Z) (s : string) : option Z :=
  match s with
  | EmptyString => Some acc
  | String c s => d ← digit c; digits (acc * 10 + d)%Z s
  end.

(** strconv.Atoi without a sign; the program reads back what Itoa wrote. *)
Definition Atoi (s : string) : option Z :=
  if String.eqb s EmptyString then None else digits 0 s.

(** ** strings *)

(** strings.Split for a separator of one character. *)
Fixpoint split_on (sep : ascii) (s : string) : list string :=
  match s with
  | EmptyString => [EmptyString]
  | String c s =>
      if Ascii.eqb c sep then EmptyString :: split_on sep s
      else match split_on sep s with
           | w :: ws => String c w :: ws
           | [] => [String c EmptyString]
           end
  end.

(** No character of the string satisfies the test. *)
Fixpoint none (p : ascii → bool) (s : string) : bool :=
  match s with
  | EmptyString => true
  | String c s => negb (p c) && none p s
  end.

Lemma split_on_none sep s t :
  none (Ascii.eqb sep) s = true → split_on sep (s ++ String sep t) = s :: split_on sep t.
Proof.
  induction s as [|c s IH]; simpl; [by rewrite Ascii.eqb_refl|].
  rewrite andb_true_iff, negb_true_iff. intros [Hc Hs].
  change (String.app s (String sep t)) with (s ++ String sep t).
  rewrite Ascii.eqb_sym, Hc, IH by done. done.
Qed.

Lemma split_on_all sep s : none (Ascii.eqb sep) s = true → split_on sep s = [s].
Proof.
  induction s as [|c s IH]; simpl; [done|].
  rewrite andb_true_iff, negb_true_iff. intros [Hc Hs]. by rewrite Ascii.eqb_sym, Hc, IH.
Qed.

(** The string up to the first separator, and what follows it. *)
Fixpoint cut (sep : ascii) (s : string) : option (string * string) :=
  match s with
  | EmptyString => None
  | String c s =>
      if Ascii.eqb c sep then Some (EmptyString, s)
      else '(a, b) ← cut sep s; Some (String c a, b)
  end.

Lemma cut_none sep s t :
  none (Ascii.eqb sep) s = true → cut sep (s ++ String sep t) = Some (s, t).
Proof.
  induction s as [|c s IH]; simpl; [by rewrite Ascii.eqb_refl|].
  rewrite andb_true_iff, negb_true_iff. intros [Hc Hs].
  change (String.app s (String sep t)) with (s ++ String sep t).
  rewrite Ascii.eqb_sym, Hc, IH by done. done.
Qed.

(** strings.TrimSuffix for a suffix of one character. *)
Fixpoint TrimSuffix (s : string) (c : ascii) : string :=
  match s with
  | EmptyString => EmptyString
  | String a EmptyString => if Ascii.eqb a c then EmptyString else s
  | String a t => String a (TrimSuffix t c)
  end.

(** strings.Replace of every occurrence of a character by another. *)
Fixpoint replace_char (a b : ascii) (s : string) : string :=
  match s with
  | EmptyString => EmptyString
  | String c s => String (if Ascii.eqb c a then b else c) (replace_char a b s)
  end.

(** strings.ToLower on ASCII text. *)
Fixpoint ToLower (s : string) : string :=
  match s with
  | EmptyString => EmptyString
  | String c s =>
      let n := nat_of_ascii c in
      String (if ((65 <=? n) && (n <=? 90))%nat then ascii_of_nat (n + 32) else c) (ToLower s)
  end.

(** ** Reading addresses *)

Open Scope list_scope.
Open Scope Z_scope.

(** A field of a dotted address: a number up to 255 without a leading zero. *)
Definition octet (s : string) : option Z :=
  match s with
  | EmptyString => None
  | String c EmptyString => digit c
  | String c _ =>
      if Ascii.eqb c "0" then None
      else n ← digits 0 s; if n <=? 255 then Some n else None
  end.

Definition parseIPv4 (s : string) : option IP :=
  match split_on "." s with
  | [a; b; c; d] =>
      a ← octet a; b ← octet b; c ← octet c; d ← octet d; Some [a; b; c; d]
  | _ => None
  end.

(** The leading hexadecimal digits: their number, their value and the rest. *)
Fixpoint hexrun (n : nat) (acc : Z) (s : string) : nat * Z * string :=
  match s with
  | EmptyString => (n, acc, s)
  | String c t =>
      match hexdigit c with
      | Some d => hexrun (S n) (acc * 16 + d) t
      | None => (n, acc, s)
      end
  end.

(** The bytes of a colon form once the text is read: the ellipsis stands for
    the zeros that are missing, at least one field of them. *)
Definition expand (bytes : IP) (ellipsis : option nat) : option IP :=
  let missing := (16 - length bytes)%nat in
  match ellipsis with
  | Some e =>
      if (missing =? 0)%nat then None
      else Some (take e bytes ++ replicate missing 0 ++ drop e bytes)
  | None => if (missing =? 0)%nat then Some bytes else None
  end.

(** The loop of netip's parseIPv6 over the fields; at most eight fields are
    read, which is the fuel. *)
Fixpoint fields6 (fuel : nat) (bytes : IP) (ellipsis : option nat) (s : string) : option IP :=
  match fuel with
  | O => if String.eqb s EmptyString then expand bytes ellipsis else None
  | S fuel =>
      let '(n, acc, rest) := hexrun 0 0 s in
      if (n =? 0)%nat || (4 <? n)%nat then None
      else
        match rest with
        | EmptyString => expand (bytes ++ [acc / 256; acc mod 256]) ellipsis
        | String c t =>
            if Ascii.eqb c "." then
              if (bool_decide (ellipsis = None) && negb (length bytes =? 12)%nat) || (12 <? length bytes)%nat
              then None
              else q ← parseIPv4 s; expand (bytes ++ q) ellipsis
            else if Ascii.eqb c ":" then
              let bytes := bytes ++ [acc / 256; acc mod 256] in
              match t with
              | EmptyString => None
              | String c' t' =>
                  if Ascii.eqb c' ":" then
                    if bool_decide (is_Some ellipsis) then None
                    else if String.eqb t' EmptyString then expand bytes (Some (length bytes))
                    else fields6 fuel bytes (Some (length bytes)) t'
                  else fields6 fuel bytes ellipsis t
              end
            else None
        end
  end.

Definition parseIPv6 (s : string) : option IP :=
  match s with
  | String c (String c' t) =>
      if Ascii.eqb c ":" && Ascii.eqb c' ":" then
        if String.eqb t EmptyString then Some (replicate 16 0) else fields6 8 [] (Some 0%nat) t
      else fields6 8 [] None s
  | _ => fields6 8 [] None s
  end.

(** netip.ParseAddr: the first dot or colon decides; a percent sign starts a
    zone. *)
Fixpoint family (s : string) : option bool :=
  match s with
  | EmptyString => None
  | String c s =>
      if Ascii.eqb c "." then Some true
      else if Ascii.eqb c ":" then Some false
      else if Ascii.eqb c "%" then None
      else family s
  end.

(** The address with its family: [true] is IPv4, as four bytes. *)
Definition ParseAddr (s : string) : option (bool * IP) :=
  if none (Ascii.eqb "%") s then
    v4 ← family s;
    ip ← (if (v4 : bool) then parseIPv4 s else parseIPv6 s);
    Some (v4, ip)
  else None.

(** net.ParseIP gives sixteen bytes. *)
Definition ParseIP (s : string) : option IP :=
  '(v4, ip) ← ParseAddr s;
  Some (if (v4 : bool) then (v4InV6Prefix ++ ip)%list else ip).

(** dtoi: a whole decimal number below 0xFFFFFF. *)
Definition dtoi (s : string) : option Z :=
  n ← Atoi s; if n <? 16777215 then Some n else None.

(** net.ParseCIDR: the network. *)
Definition ParseCIDR (s : string) : option IPNet :=
  '(addr, mask) ← cut "/" s;
  '(v4, ip) ← ParseAddr addr;
  let iplen := if (v4 : bool) then IPv4len else IPv6len in
  n ← dtoi mask;
  if n <=? 8 * Z.of_nat iplen then
    let m := CIDRMask (Z.to_nat n) (8 * iplen) in
    Some (mkNet (Mask ip m) m)
  else None.

(** ** Writing addresses *)

Definition string4 (ip : IP) : string :=
  match ip with
  | [a; b; c; d] => (Itoa a ++ "." ++ Itoa b ++ "." ++ Itoa c ++ "." ++ Itoa d)%string
  | _ => EmptyString
  end.

Definition hexchar (d : Z) : ascii :=
  ascii_of_nat (Z.to_nat (if d <? 10 then 48 + d else 87 + d)).

(** A field in hexadecimal without leading zeros. *)
Definition hexfield (v : Z) : string :=
  let c k := String (hexchar (Z.shiftr v k mod 16)) in
  if v <? 16 then c 0 EmptyString
  else if v <? 256 then c 4 (c 0 EmptyString)
  else if v <? 4096 then c 8 (c 4 (c 0 EmptyString))
  else c 12 (c 8 (c 4 (c 0 EmptyString))).

Fixpoint words16 (ip : IP) : list Z :=
  match ip with
  | a :: b :: ip => a * 256 + b :: words16 ip
  | _ => []
  end.

(** The length of the run of zeros at the head. *)
Fixpoint zeros (l : list Z) : nat :=
  match l with
  | w :: l => if w =? 0 then S (zeros l) else 0%nat
  | [] => 0%nat
  end.

(** The first longest run of at least two zero fields: start and length. *)
Fixpoint longest_run (i : nat) (l : list Z) (best : nat * nat) : nat * nat :=
  match l with
  | [] => best
  | _ :: l' =>
      let n := zeros l in
      longest_run (S i) l' (if (2 <=? n)%nat && (snd best <? n)%nat then (i, n) else best)
  end.

Fixpoint join (sep : string) (l : list string) : string :=
  match l with
  | [] => EmptyString
  | [s] => s
  | s :: l => (s ++ sep ++ join sep l)%string
  end.

Definition string6 (ip : IP) : string :=
  let w := words16 ip in
  let '(i, n) := longest_run 0 w (0%nat, 0%nat) in
  if (n =? 0)%nat then join ":" (map hexfield w)
  else (join ":" (map hexfield (take i w)) ++ "::" ++ join ":" (map hexfield (drop (i + n) w)))%string.

(** IP.String for addresses of four or sixteen bytes. *)
Definition IP_String (ip : IP) : string :=
  match To4 ip with
  | Some q => string4 q
  | None => string6 ip
  end.

(** The length of the leading ones of a mask; [None] is -1. *)
Fixpoint simpleMaskLength (m : list Z) : option Z :=
  match m with
  | [] => Some 0
  | v :: m =>
      if v =? 255 then n ← simpleMaskLength m; Some (n + 8)
      else
        match List.find (λ k, Z.lxor 255 (Z.shiftr 255 k) =? v) [0; 1; 2; 3; 4; 5; 6; 7] with
        | Some k => if forallb (Z.eqb 0) m then Some k else None
        | None => None
        end
  end.

(** IPNet.String; a mask that is not a prefix, which the program never
    makes, is written in hexadecimal and left out here. *)
Definition IPNet_String (n : IPNet) : string :=
  match networkNumberAndMask n with
  | None => "<nil>"
  | Some (nn, m) =>
      match simpleMaskLength m with
      | Some l => (IP_String nn ++ "/" ++ Itoa l)%string
      | None => (IP_String nn ++ "/")%string
      end
  end.

Example parse_examples :
  ParseIP "10.0.0.1" = Some (v4InV6Prefix ++ [10; 0; 0; 1]) ∧
  ParseIP "10.0.0.01" = None ∧ ParseIP "256.0.0.1" = None ∧
  ParseIP "2001:db8::8:800:200c:417a" = Some [32; 1; 13; 184; 0; 0; 0; 0; 0; 8; 8; 0; 32; 12; 65; 122] ∧
  ParseIP "::ffff:1.2.3.4" = Some (v4InV6Prefix ++ [1; 2; 3; 4]) ∧
  ParseIP "1::2::3" = None ∧ ParseIP "1:2:3:4:5:6:7::8" = None ∧ ParseIP "::1:2:3:4:5:6:7:8" = None ∧
  ParseIP "::" = Some (replicate 16 0) ∧ ParseIP "1:" = None ∧ ParseIP "fe80::1%eth0" = None ∧
  ParseCIDR "10.1.2.3/8" = Some (mkNet [10; 0; 0; 0] [255; 0; 0; 0]) ∧
  ParseCIDR "10.1.2.3/33" = None ∧ ParseCIDR "10.1.2.3" = None.
Proof. vm_compute. by split_and!. Qed.

Example string_examples :
  IP_String [32; 1; 13; 184; 0; 0; 0; 0; 0; 8; 8; 0; 32; 12; 65; 122] = "2001:db8::8:800:200c:417a" ∧
  IP_String (replicate 16 0) = "::" ∧ IP_String (v4InV6Prefix ++ [1; 2; 3; 4]) = "1.2.3.4" ∧
  IP_String [0; 1; 0; 0; 0; 0; 0; 2; 0; 0; 0; 0; 0; 0; 0; 3] = "1:0:0:2::3" ∧
  IPNet_String (mkNet [10; 0; 0; 0] [255; 128; 0; 0]) = "10.0.0.0/9".
Proof. vm_compute. by split_and!. Qed.

(** ** IPv4 text is read back *)

(** The characters that structure an address. *)
Definition structural (c : ascii) : bool :=
  Ascii.eqb "." c || Ascii.eqb "/" c || Ascii.eqb ":" c || Ascii.eqb "%" c.

Lemma none_impl (p q : ascii → bool) s :
  (∀ c, p c = true → q c = true) → none q s = true → none p s = true.
Proof.
  intros H. induction s as [|c s IH]; simpl; [done|]. rewrite !andb_true_iff, !negb_true_iff.
  intros [Hc Hs]. split; [|by apply IH]. destruct (p c) eqn:E; [|done]. apply H in E. congruence.
Qed.

Lemma none_app p s t : none p (s ++ t)%string = none p s && none p t.
Proof. induction s as [|c s IH]; simpl; [done|]. by rewrite IH, andb_assoc. Qed.

Lemma Itoa_octet b :
  byte_ok b → octet (Itoa b) = Some b ∧ none structural (Itoa b) = true.
Proof.
  intros Hb.
  assert (forallb (λ b, bool_decide (octet (Itoa b) = Some b) && none structural (Itoa b)) (seqZ 0 256) = true)
    as Hall by (vm_compute; reflexivity).
  rewrite forallb_forall in Hall. specialize (Hall b). rewrite <- list_elem_of_In, elem_of_seqZ in Hall.
  unfold byte_ok in Hb. specialize (Hall ltac:(lia)). apply andb_true_iff in Hall as [H1 H2].
  by apply bool_decide_eq_true in H1.
Qed.

Lemma Itoa_prefix k :
  (k <= 32)%nat →
  dtoi (Itoa (Z.of_nat k)) = Some (Z.of_nat k) ∧ simpleMaskLength (cidr_bytes 4 k) = Some (Z.of_nat k).
Proof.
  intros Hk.
  assert (forallb (λ k, bool_decide (dtoi (Itoa (Z.of_nat k)) = Some (Z.of_nat k)) &&
                        bool_decide (simpleMaskLength (cidr_bytes 4 k) = Some (Z.of_nat k))) (seq 0 33) = true)
    as Hall by (vm_compute; reflexivity).
  rewrite forallb_forall in Hall. specialize (Hall k). rewrite in_seq in Hall.
  specialize (Hall ltac:(lia)). apply andb_true_iff in Hall as [H1 H2].
  apply bool_decide_eq_true in H1, H2. by split.
Qed.

Lemma ok4 ip : ok 4 ip → ∃ a b c d, ip = [a; b; c; d] ∧ byte_ok a ∧ byte_ok b ∧ byte_ok c ∧ byte_ok d.
Proof.
  intros [Hl Hf]. destruct ip as [|a [|b [|c [|d [|]]]]]; try done.
  rewrite !Forall_cons in Hf. exists a, b, c, d. tauto.
Qed.

Lemma string4_none p ip :
  ok 4 ip → (∀ c, p c = true → structural c = true) → p "."%char = false → none p (string4 ip) = true.
Proof.
  intros Hip Hp Hdot. destruct (ok4 ip Hip) as (a&b&c&d&->&Ha&Hb&Hc&Hd). unfold string4.
  rewrite !none_app. simpl. rewrite Hdot. simpl.
  repeat match goal with H : byte_ok ?x |- _ => apply Itoa_octet in H as [_ H]; apply (none_impl p) in H; [|done]; rewrite H end.
  done.
Qed.

Lemma split_dot b rest :
  byte_ok b → split_on "." (Itoa b ++ "." ++ rest)%string = Itoa b :: split_on "." rest.
Proof.
  intros Hb. apply (split_on_none "." (Itoa b) rest). apply Itoa_octet in Hb as [_ Hb].
  eapply none_impl; [|exact Hb]. intros x Hx. unfold structural. by rewrite Hx.
Qed.

Lemma parseIPv4_string4 ip : ok 4 ip → parseIPv4 (string4 ip) = Some ip.
Proof.
  intros Hip. destruct (ok4 ip Hip) as (a&b&c&d&->&Ha&Hb&Hc&Hd). unfold parseIPv4, string4.
  rewrite !split_dot by done. rewrite split_on_all.
  2:{ apply Itoa_octet in Hd as [_ Hd]. eapply none_impl; [|exact Hd]. intros x Hx. unfold structural. by rewrite Hx. }
  apply Itoa_octet in Ha as [-> _], Hb as [-> _], Hc as [-> _], Hd as [-> _]. done.
Qed.

Lemma family_app s t : none structural s = true → family (s ++ t)%string = family t.
Proof.
  induction s as [|c s IH]; [done|]. cbn [none]. rewrite andb_true_iff, negb_true_iff. intros [Hc Hs].
  unfold structural in Hc. rewrite !orb_false_iff in Hc. destruct Hc as [[[H1 H2] H3] H4].
  change ((String c s ++ t)%string) with (String c (s ++ t)%string). cbn [family].
  rewrite Ascii.eqb_sym, H1, (Ascii.eqb_sym c ":"), H3, (Ascii.eqb_sym c "%"), H4. by apply IH.
Qed.

Lemma ParseAddr_string4 ip : ok 4 ip → ParseAddr (string4 ip) = Some (true, ip).
Proof.
  intros Hip. unfold ParseAddr.
  rewrite string4_none; [|done|intros c Hc; unfold structural; by rewrite Hc, !orb_true_r|done].
  assert (family (string4 ip) = Some true) as ->.
  { destruct (ok4 ip Hip) as (a&b&c&d&->&Ha&Hb&Hc&Hd). unfold string4. apply Itoa_octet in Ha as [_ Ha].
    rewrite family_app by done. done. }
  simpl. by rewrite parseIPv4_string4.
Qed.

Lemma ParseIP_string4 ip : ok 4 ip → ParseIP (string4 ip) = Some (v4InV6Prefix ++ ip).
Proof. intros Hip. unfold ParseIP. by rewrite ParseAddr_string4. Qed.

Lemma cut_all sep s : none (Ascii.eqb sep) s = true → cut sep s = None.
Proof.
  induction s as [|c s IH]; simpl; [done|]. rewrite andb_true_iff, negb_true_iff. intros [Hc Hs].
  by rewrite Ascii.eqb_sym, Hc, IH.
Qed.

Lemma ParseCIDR_string4 ip : ok 4 ip → ParseCIDR (string4 ip) = None.
Proof.
  intros Hip. unfold ParseCIDR. rewrite cut_all; [done|]. apply string4_none; [done| |done].
  intros c Hc. unfold structural. by rewrite Hc, !orb_true_r.
Qed.

(** A network as the program makes them: the host bits are zero. *)
Definition net4 (n : IPNet) (k : nat) : Prop :=
  (k <= 32)%nat ∧ ok 4 (net_IP n) ∧ net_Mask n = CIDRMask k 32 ∧ Mask (net_IP n) (net_Mask n) = net_IP n.

Lemma net4_String n k :
  net4 n k → IPNet_String n = (string4 (net_IP n) ++ "/" ++ Itoa (Z.of_nat k))%string.
Proof.
  intros (Hk&Hip&Hm&_). unfold IPNet_String, networkNumberAndMask. destruct Hip as [Hl Hf].
  unfold To4. rewrite Hl. cbn [Nat.eqb IPv4len default orb negb].
  change (CIDRMask k 32) with (CIDRMask k (8 * 4)) in Hm.
  rewrite CIDRMask_cidr in Hm by (auto; lia). rewrite Hm, cidr_bytes_length, ?Hl. unfold id. rewrite Hl. cbn [Nat.eqb IPv4len negb orb].
  destruct (Itoa_prefix k Hk) as [_ ->]. unfold IP_String, To4. by rewrite Hl.
Qed.

Lemma ParseCIDR_net4 n k : net4 n k → ParseCIDR (IPNet_String n) = Some n.
Proof.
  intros Hn. rewrite (net4_String n k Hn). destruct Hn as (Hk&Hip&Hm&Hmask). unfold ParseCIDR.
  change ("/" ++ Itoa (Z.of_nat k))%string with (String "/" (Itoa (Z.of_nat k))).
  rewrite cut_none.
  2:{ apply string4_none; [done| |done]. intros c Hc. unfold structural. by rewrite Hc, !orb_true_r. }
  simpl. rewrite ParseAddr_string4 by done. simpl. destruct (Itoa_prefix k Hk) as [-> _]. simpl.
  change (8 * Z.of_nat IPv4len) with 32. rewrite (proj2 (Z.leb_le (Z.of_nat k) 32)) by lia.
  rewrite Nat2Z.id, <- Hm, Hmask. by destruct n.
Qed.

(** ** What the parser makes *)

Lemma digit_ok c d : digit c = Some d → 0 <= d <= 9.
Proof. unfold digit. case_match eqn:E; [|done]. intros [= <-]. apply andb_true_iff in E as [E1 E2].
  apply Nat.leb_le in E1, E2. lia. Qed.

Lemma digits_nonneg acc s n : 0 <= acc → digits acc s = Some n → 0 <= n.
Proof.
  revert acc. induction s as [|c s IH]; intros acc Hacc; cbn [digits]; [by intros [= <-]|].
  destruct (digit c) as [d|] eqn:Ed; simpl; [|done]. apply digit_ok in Ed. apply IH. lia.
Qed.

Lemma octet_ok s b : octet s = Some b → byte_ok b.
Proof.
  unfold octet, byte_ok. destruct s as [|c [|c' s]]; [done| |].
  - intros H%digit_ok. lia.
  - destruct (Ascii.eqb c "0"); [done|]. destruct (digits 0 _) as [m|] eqn:E; simpl; [|done].
    apply digits_nonneg in E; [|lia]. destruct (Z.leb_spec m 255); [|done]. intros [= <-]. lia.
Qed.

Lemma parseIPv4_ok s ip : parseIPv4 s = Some ip → ok 4 ip.
Proof.
  unfold parseIPv4. destruct (split_on "." s) as [|a [|b [|c [|d [|]]]]]; try done.
  destruct (octet a) eqn:Ha; simpl; [|done]. destruct (octet b) eqn:Hb; simpl; [|done].
  destruct (octet c) eqn:Hc; simpl; [|done]. destruct (octet d) eqn:Hd; simpl; [|done].
  intros [= <-]. apply octet_ok in Ha, Hb, Hc, Hd. by rewrite !ok_cons.
Qed.
