(* ===== verification/PodIndex.v ===== *)
(** * PodIndex: which selector objects select which pods

    Models src/pkg/index/pod_selector_index.go.  The label selectors of
    Kubernetes are a type [Selector] with equality (Go's [reflect.DeepEqual])
    and a function [Matches]; selector objects are a type [Obj] with the
    functions the index is made with.  The stores of the informers (pods,
    namespaces, selector objects) are read through [stores].  Each operation
    returns the keys that the callbacks are called with.  The operations run
    under the index's mutex, so they are atomic, but for the update of a
    selector object: it reads the namespaces of the object before it takes the
    mutex, and is therefore two steps, [UpdateSelectorObj_read] and
    [UpdateSelectorObj_locked], which PodIndexSys interleaves with the other
    operations. *)

From S2P Require Import Prelude.

Open Scope string_scope.

Abbreviation labels := (gmap string string).

(** A port that a container declares. *)
Record ContainerPort := mkCPort {
  cp_Name : string;
  cp_ContainerPort : Z;
  cp_Protocol : string
}.

Record Pod := mkPod {
  pod_ns : string;
  pod_name : string;
  pod_labels : labels;
  pod_ip : string;
  pod_ips : list string;
  pod_containers : list (list ContainerPort)
}.

(** [cache.MetaNamespaceKeyFunc]. *)
Definition MetaNamespaceKey (ns name : string) : string :=
  if String.eqb ns EmptyString then name else ns ++ "/" ++ name.

Definition podkey (p : Pod) : string := MetaNamespaceKey (pod_ns p) (pod_name p).

Section PodIndex.
Context {Selector : Type} `{!EqDecision Selector} (Matches : Selector → labels → bool).

Record PodSelector := mkPodSelector {
  Namespace : option string;
  NsSelector : option Selector;
  PodSel : Selector
}.

Context {Obj : Type} (getKey : Obj → option string) (getPodSelector : Obj → list PodSelector).
Context (podHashFunc : option (Pod → string)).

Record Stores := mkStores {
  pods : gmap string Pod;
  namespaces : gmap string labels;
  objs : gmap string Obj
}.

Record podIndexState := mkPodState {
  objKeys : gset string;
  podHash : string
}.

Abbreviation nsmap := (gmap string (list Selector)).

Record PodSelectorIndex := mkIndex {
  podIndex : gmap string podIndexState;
  objPodIndex : gmap string (gset string);
  objNsIndex : gmap string nsmap
}.

(** [PodSelectorFromNsAndSelector]; [LabelSelectorAsSelector] is the function
    of Kubernetes that compiles a label selector, or fails. *)
Definition PodSelectorFromNsAndSelector {LabelSelector} (LabelSelectorAsSelector : LabelSelector → option Selector)
    (ns : string) (selector : LabelSelector) : list PodSelector :=
  match LabelSelectorAsSelector selector with
  | Some s => [mkPodSelector (Some ns) None s]
  | None => []
  end.

Definition NewPodSelectorIndex : PodSelectorIndex := mkIndex ∅ ∅ ∅.

(** ** Queries *)

Definition GetObjForPod (i : PodSelectorIndex) (pk : string) : gset string :=
  match podIndex i !! pk with Some st => objKeys st | None => ∅ end.

Definition GetPodForObj (i : PodSelectorIndex) (ok : string) : gset string :=
  default ∅ (objPodIndex i !! ok).

(** ** Pods *)

(** Drop the pod from the pods of an object; an empty set is dropped too. *)
Definition drop_pod (pk ok : string) (m : gmap string (gset string)) : gmap string (gset string) :=
  match m !! ok with
  | Some s =>
      let s' := s ∖ {[pk]} in
      if bool_decide (s' = ∅) then delete ok m else <[ok := s']> m
  | None => m
  end.

(** The objects whose selectors for the namespace of the pod match it. *)
Definition ns_matches (p : Pod) (v : nsmap) : bool :=
  match v !! pod_ns p with
  | Some sels => existsb (λ sel, Matches sel (pod_labels p)) sels
  | None => false
  end.

Definition matched_objs (p : Pod) (ix : gmap string nsmap) : gset string :=
  list_to_set (fst <$> filter (λ kv, ns_matches p kv.2 = true) (map_to_list ix)).

(** Add the pod to the pods of the matching objects, noting the objects for
    which it is new. *)
Definition add_pod (pk : string) (acc : gmap string (gset string) * gset string) (ok : string)
  : gmap string (gset string) * gset string :=
  let '(m, updated) := acc in
  let s := default ∅ (m !! ok) in
  if bool_decide (pk ∈ s) then (m, updated)
  else (<[ok := {[pk]} ∪ s]> m, {[ok]} ∪ updated).

(** [DeletePod]: the index and the objects whose callback is called. *)
Definition DeletePod (p : Pod) (i : PodSelectorIndex) : PodSelectorIndex * gset string :=
  let pk := podkey p in
  match podIndex i !! pk with
  | Some st =>
      (mkIndex (delete pk (podIndex i))
         (foldl (λ m ok, drop_pod pk ok m) (objPodIndex i) (elements (objKeys st)))
         (objNsIndex i),
       filter (λ ok, is_Some (objPodIndex i !! ok)) (objKeys st))
  | None => (i, ∅)
  end.

(** [UpdatePodNoCallback]: the index, the objects whose callback is called and
    whether an update of the pod should be queued. *)
Definition UpdatePodNoCallback (p : Pod) (i : PodSelectorIndex)
  : PodSelectorIndex * gset string * bool :=
  let hash := match podHashFunc with Some f => f p | None => EmptyString end in
  if bool_decide (is_Some podHashFunc) && String.eqb hash EmptyString then
    let '(i', upd) := DeletePod p i in (i', upd, false)
  else
    let pk := podkey p in
    let matched := matched_objs p (objNsIndex i) in
    let '(m1, added) := foldl (add_pod pk) (objPodIndex i, ∅) (elements matched) in
    let st := default (mkPodState ∅ EmptyString) (podIndex i !! pk) in
    let stale := objKeys st ∖ matched in
    let m2 := foldl (λ m ok, drop_pod pk ok m) m1 (elements stale) in
    let updated := added ∪ stale ∪ (if String.eqb hash (podHash st) then ∅ else matched) in
    (mkIndex (<[pk := mkPodState matched hash]> (podIndex i)) m2 (objNsIndex i),
     updated, bool_decide (added ∪ stale ≠ ∅)).

(** [UpdatePod]: with the pods whose callback is called last. *)
Definition UpdatePod (p : Pod) (i : PodSelectorIndex) : PodSelectorIndex * gset string * gset string :=
  let '(i', updObjs, changed) := UpdatePodNoCallback p i in
  (i', updObjs, if (changed : bool) then {[podkey p]} else ∅).

(** ** Selector objects *)

(** The namespaces that the selectors of an object name or select, each with
    the pod selectors for it. *)
Definition add_sel (ret : nsmap) (ns : string) (sel : Selector) : nsmap :=
  <[ns := default [] (ret !! ns) ++ [sel]]>%list ret.

Definition getObjNamespaces (st : Stores) (o : Obj) : nsmap :=
  foldl (λ ret ps,
    let ret := match Namespace ps with Some ns => add_sel ret ns (PodSel ps) | None => ret end in
    match NsSelector ps with
    | Some nsel =>
        foldl (λ ret nl, if Matches nsel nl.2 then add_sel ret nl.1 (PodSel ps) else ret)
          ret (map_to_list (namespaces st))
    | None => ret
    end) ∅ (getPodSelector o).

(** [cache.ListAllByNamespace] on the store of pods: the empty namespace
    stands for all. *)
Definition list_pods (st : Stores) (ns : string) (sel : Selector) : list Pod :=
  filter (λ p, ((String.eqb ns EmptyString || String.eqb (pod_ns p) ns) &&
                Matches sel (pod_labels p)) = true) (snd <$> map_to_list (pods st)).

Definition selected_pods (st : Stores) (v : nsmap) : list Pod :=
  flat_map (λ nv, flat_map (list_pods st nv.1) nv.2) (map_to_list v).

(** Add the object to the objects of a pod, noting the pods for which it is
    new. *)
Definition add_obj (ok : string) (acc : gmap string podIndexState * gset string) (pk : string)
  : gmap string podIndexState * gset string :=
  let '(m, updated) := acc in
  let st := default (mkPodState ∅ EmptyString) (m !! pk) in
  if bool_decide (ok ∈ objKeys st) then (<[pk := st]> m, updated)
  else (<[pk := mkPodState ({[ok]} ∪ objKeys st) (podHash st)]> m, {[pk]} ∪ updated).

(** Drop the object from the objects of a pod; a pod without objects is
    dropped too. *)
Definition drop_obj (ok pk : string) (m : gmap string podIndexState) : gmap string podIndexState :=
  match m !! pk with
  | Some st =>
      let s' := objKeys st ∖ {[ok]} in
      if bool_decide (s' = ∅) then delete pk m else <[pk := mkPodState s' (podHash st)]> m
  | None => m
  end.

(** [updateSelectorObjForNs]: the index, the pods whose callback is called and
    whether the pods of the object changed. *)
Definition updateSelectorObjForNs (st : Stores) (o : Obj) (v : nsmap) (i : PodSelectorIndex)
  : PodSelectorIndex * gset string * bool :=
  match getKey o with
  | None => (i, ∅, false)
  | Some ok =>
      let keys := podkey <$> selected_pods st v in
      let matched : gset string := list_to_set keys in
      let '(p1, added) := foldl (add_obj ok) (podIndex i, ∅) keys in
      let stale := default ∅ (objPodIndex i !! ok) ∖ matched in
      let p2 := foldl (λ m pk, drop_obj ok pk m) p1 (elements stale) in
      let changed := negb (bool_decide (objPodIndex i !! ok = Some matched)) in
      (mkIndex p2 (if changed then <[ok := matched]> (objPodIndex i) else objPodIndex i)
         (<[ok := v]> (objNsIndex i)),
       added ∪ stale, changed)
  end.

(** The two steps of [UpdateSelectorObjNoCallback]: what it reads without the
    mutex, and what it does with it. *)
Definition UpdateSelectorObj_read (st : Stores) (o : Obj) : nsmap := getObjNamespaces st o.
Definition UpdateSelectorObj_locked (st : Stores) (o : Obj) (read : nsmap) (i : PodSelectorIndex)
  : PodSelectorIndex * gset string * bool := updateSelectorObjForNs st o read i.

(** The whole call, when nothing happens between the steps. *)
Definition UpdateSelectorObjNoCallback (st : Stores) (o : Obj) (i : PodSelectorIndex)
  : PodSelectorIndex * gset string * bool :=
  UpdateSelectorObj_locked st o (UpdateSelectorObj_read st o) i.

(** [UpdateSelectorObj]: with the objects whose callback is called last. *)
Definition UpdateSelectorObj (st : Stores) (o : Obj) (i : PodSelectorIndex)
  : PodSelectorIndex * gset string * gset string :=
  let '(i', updPods, changed) := UpdateSelectorObjNoCallback st o i in
  (i', updPods,
   if (changed : bool) then match getKey o with Some ok => {[ok]} | None => ∅ end else ∅).

Definition DeleteSelectorObj (o : Obj) (i : PodSelectorIndex) : PodSelectorIndex * gset string :=
  match getKey o with
  | None => (i, ∅)
  | Some ok =>
      let old := default ∅ (objPodIndex i !! ok) in
      (mkIndex (foldl (λ m pk, drop_obj ok pk m) (podIndex i) (elements old))
         (delete ok (objPodIndex i)) (delete ok (objNsIndex i)),
       filter (λ pk, is_Some (podIndex i !! pk)) old)
  end.

(** ** Namespaces *)

(** [UpdateNamespace] recomputes the namespaces of every selector object and
    updates those for which they changed. *)
Definition update_for_ns (st : Stores)
    (acc : PodSelectorIndex * gset string * gset string) (o : Obj)
  : PodSelectorIndex * gset string * gset string :=
  let '(i, updPods, updObjs) := acc in
  match getKey o with
  | None => acc
  | Some ok =>
      let v := getObjNamespaces st o in
      if bool_decide (objNsIndex i !! ok = Some v) then acc
      else
        let '(i', up, ch) := updateSelectorObjForNs st o v i in
        (i', updPods ∪ up, if (ch : bool) then {[ok]} ∪ updObjs else updObjs)
  end.

Definition UpdateNamespace (st : Stores) (i : PodSelectorIndex)
  : PodSelectorIndex * gset string * gset string :=
  foldl (update_for_ns st) (i, ∅, ∅) (snd <$> map_to_list (objs st)).

Definition DeleteNamespace (st : Stores) (i : PodSelectorIndex)
  : PodSelectorIndex * gset string * gset string := UpdateNamespace st i.
End PodIndex.

Arguments mkPodSelector {Selector}.
Arguments mkIndex {Selector}.
Arguments NewPodSelectorIndex {Selector}.
