(* ===== verification/PodIndexFacts.v ===== *)
(** * PodIndexFacts: the pod selector index against its specification

    The two directions of the index are shown to be inverse to each other
    after every operation, and over any sequence of store changes with their
    handlers the index is the relation that the selectors define. *)

From S2P Require Import Prelude PodIndex.

Open Scope string_scope.

(** ** The loops over sets of keys *)

Abbreviation psets := (gmap string (gset string)).
Definition pods_of (m : psets) (ok : string) : gset string := default ∅ (m !! ok).
Definition objs_of (m : gmap string podIndexState) (pk : string) : gset string :=
  match m !! pk with Some st => objKeys st | None => ∅ end.

Lemma drop_pod_of pk ok m k :
  pods_of (drop_pod pk ok m) k = if decide (k = ok) then pods_of m k ∖ {[pk]} else pods_of m k.
Proof.
  unfold drop_pod, pods_of. destruct (decide (k = ok)) as [->|Hne].
  - destruct (m !! ok) as [s|] eqn:E; simpl; [|rewrite E; set_solver].
    case_bool_decide as Hs; [rewrite lookup_delete_eq; simpl; set_solver|]. by rewrite lookup_insert_eq.
  - destruct (m !! ok) as [s|] eqn:E; simpl; [|done].
    case_bool_decide; [by rewrite lookup_delete_ne|by rewrite lookup_insert_ne].
Qed.

Lemma drop_pods_of pk l m k :
  pods_of (foldl (λ m ok, drop_pod pk ok m) m l) k =
  if decide (k ∈ l) then pods_of m k ∖ {[pk]} else pods_of m k.
Proof.
  revert m. induction l as [|x l IH]; intros m; [done|]. simpl. rewrite IH, drop_pod_of.
  destruct (decide (k ∈ l)), (decide (k = x)), (decide (k ∈ x :: l)); set_solver.
Qed.

Lemma add_pod_of pk acc x k :
  pods_of (add_pod pk acc x).1 k = if decide (k = x) then {[pk]} ∪ pods_of acc.1 k else pods_of acc.1 k.
Proof.
  destruct acc as [m u]. unfold add_pod, pods_of. simpl. destruct (decide (k = x)) as [->|Hne].
  - case_bool_decide; simpl; [set_solver|]. by rewrite lookup_insert_eq.
  - case_bool_decide; simpl; [done|]. by rewrite lookup_insert_ne.
Qed.

Lemma add_pods_of pk l acc k :
  pods_of (foldl (add_pod pk) acc l).1 k =
  if decide (k ∈ l) then {[pk]} ∪ pods_of acc.1 k else pods_of acc.1 k.
Proof.
  revert acc. induction l as [|x l IH]; intros acc; [done|]. simpl. rewrite IH, add_pod_of.
  destruct (decide (k ∈ l)), (decide (k = x)), (decide (k ∈ x :: l)); set_solver.
Qed.

Lemma drop_obj_of ok pk m k :
  objs_of (drop_obj ok pk m) k = if decide (k = pk) then objs_of m k ∖ {[ok]} else objs_of m k.
Proof.
  unfold drop_obj, objs_of. destruct (decide (k = pk)) as [->|Hne].
  - destruct (m !! pk) as [s|] eqn:E; simpl; [|rewrite E; set_solver].
    case_bool_decide as Hs; [rewrite lookup_delete_eq; set_solver|]. by rewrite lookup_insert_eq.
  - destruct (m !! pk) as [s|] eqn:E; simpl; [|done].
    case_bool_decide; [by rewrite lookup_delete_ne|by rewrite lookup_insert_ne].
Qed.

Lemma drop_objs_of ok l m k :
  objs_of (foldl (λ m pk, drop_obj ok pk m) m l) k =
  if decide (k ∈ l) then objs_of m k ∖ {[ok]} else objs_of m k.
Proof.
  revert m. induction l as [|x l IH]; intros m; [done|]. simpl. rewrite IH, drop_obj_of.
  destruct (decide (k ∈ l)), (decide (k = x)), (decide (k ∈ x :: l)); set_solver.
Qed.

Lemma add_obj_of ok acc x k :
  objs_of (add_obj ok acc x).1 k = if decide (k = x) then {[ok]} ∪ objs_of acc.1 k else objs_of acc.1 k.
Proof.
  destruct acc as [m u]. unfold add_obj, objs_of. simpl.
  destruct (decide (k = x)) as [->|Hne]; case_bool_decide as Hok; simpl;
    rewrite ?lookup_insert_eq, ?lookup_insert_ne by done; try done.
  - destruct (m !! x); simpl in *; set_solver.
  - destruct (m !! x); simpl in *; set_solver.
Qed.

Lemma add_objs_of ok l acc k :
  objs_of (foldl (add_obj ok) acc l).1 k =
  if decide (k ∈ l) then {[ok]} ∪ objs_of acc.1 k else objs_of acc.1 k.
Proof.
  revert acc. induction l as [|x l IH]; intros acc; [done|]. simpl. rewrite IH, add_obj_of.
  destruct (decide (k ∈ l)), (decide (k = x)), (decide (k ∈ x :: l)); set_solver.
Qed.

Lemma added_objs pk l acc ok :
  ok ∈ (foldl (add_pod pk) acc l).2 ↔ ok ∈ acc.2 ∨ (ok ∈ l ∧ pk ∉ pods_of acc.1 ok).
Proof.
  revert acc. induction l as [|x l IH]; intros [m u]; [set_solver|].
  change (foldl (add_pod pk) (m, u) (x :: l)) with (foldl (add_pod pk) (add_pod pk (m, u) x) l).
  rewrite IH, add_pod_of.
  unfold add_pod, pods_of. simpl. case_bool_decide; destruct (decide (ok = x)) as [->|Hne]; simpl; set_solver.
Qed.

Lemma added_pods ok l acc pk :
  pk ∈ (foldl (add_obj ok) acc l).2 ↔ pk ∈ acc.2 ∨ (pk ∈ l ∧ ok ∉ objs_of acc.1 pk).
Proof.
  revert acc. induction l as [|x l IH]; intros [m u]; [set_solver|].
  change (foldl (add_obj ok) (m, u) (x :: l)) with (foldl (add_obj ok) (add_obj ok (m, u) x) l).
  rewrite IH, add_obj_of.
  unfold add_obj, objs_of. simpl.
  case_bool_decide as Hb; destruct (decide (pk = x)) as [->|Hne]; simpl; try set_solver;
    destruct (m !! x); simpl in *; set_solver.
Qed.

Section Facts.
Context {Selector : Type} `{!EqDecision Selector} (Matches : Selector → labels → bool).
Context {Obj : Type} (getKey : Obj → option string)
  (getPodSelector : Obj → list (PodSelector (Selector := Selector))).
Context (podHashFunc : option (Pod → string)).

Abbreviation index := (PodSelectorIndex (Selector := Selector)).
Abbreviation stores := (Stores (Obj := Obj)).
Abbreviation nsmap := (gmap string (list Selector)).

(** The two directions of the index say the same. *)
Definition inverse (i : index) : Prop :=
  ∀ pk ok, ok ∈ GetObjForPod i pk ↔ pk ∈ GetPodForObj i ok.

Lemma inverse_new : inverse NewPodSelectorIndex.
Proof. intros pk ok. unfold GetObjForPod, GetPodForObj. simpl. rewrite !lookup_empty. simpl. set_solver. Qed.

(** ** Pods *)

Lemma matched_objs_in p (ix : gmap string nsmap) ok :
  ok ∈ matched_objs Matches p ix ↔ ∃ v, ix !! ok = Some v ∧ ns_matches Matches p v = true.
Proof.
  unfold matched_objs. rewrite elem_of_list_to_set, list_elem_of_fmap. split.
  - intros ([k v]&->&Hv). apply list_elem_of_filter in Hv as [Hm Hv]. apply elem_of_map_to_list in Hv. eauto.
  - intros (v&Hv&Hm). exists (ok, v). split; [done|]. apply list_elem_of_filter. split; [done|].
    by apply elem_of_map_to_list.
Qed.

(** A pod the index takes: its hash is not empty where hashes are used. *)
Definition eligible (p : Pod) : Prop :=
  match podHashFunc with Some f => f p ≠ EmptyString | None => True end.

#[global] Instance eligible_dec p : Decision (eligible p).
Proof. unfold eligible. destruct podHashFunc; apply _. Defined.

Lemma UpdatePod_spec p i i' upd b :
  inverse i → eligible p → UpdatePodNoCallback Matches podHashFunc p i = (i', upd, b) →
  objNsIndex i' = objNsIndex i ∧
  (∀ pk, GetObjForPod i' pk =
         if decide (pk = podkey p) then matched_objs Matches p (objNsIndex i) else GetObjForPod i pk) ∧
  (∀ ok pk, pk ∈ GetPodForObj i' ok ↔
         if decide (pk = podkey p) then ok ∈ matched_objs Matches p (objNsIndex i)
         else pk ∈ GetPodForObj i ok).
Proof.
  intros Hinv Hel. unfold UpdatePodNoCallback. set (hash := match podHashFunc with Some f => f p | None => EmptyString end).
  assert (Hh : bool_decide (is_Some podHashFunc) && String.eqb hash EmptyString = false).
  { unfold hash, eligible in *. destruct podHashFunc as [f|]; [|done]. simpl.
    by destruct (String.eqb_spec (f p) EmptyString). }
  rewrite Hh. set (matched := matched_objs Matches p (objNsIndex i)).
  destruct (foldl (add_pod (podkey p)) (objPodIndex i, ∅) (elements matched)) as [m1 added] eqn:E1.
  intros [= <- _ _]. split; [done|]. split.
  - intros pk. unfold GetObjForPod. simpl. destruct (decide (pk = podkey p)) as [->|Hne].
    + by rewrite lookup_insert_eq.
    + by rewrite lookup_insert_ne.
  - intros ok pk. unfold GetPodForObj. simpl.
    set (stale := objKeys _ ∖ matched).
    change (default ∅ (foldl (λ m ok0, drop_pod (podkey p) ok0 m) m1 (elements stale) !! ok))
      with (pods_of (foldl (λ m ok0, drop_pod (podkey p) ok0 m) m1 (elements stale)) ok).
    rewrite drop_pods_of. assert (Hm1 : pods_of m1 ok = if decide (ok ∈ elements matched)
      then {[podkey p]} ∪ pods_of (objPodIndex i) ok else pods_of (objPodIndex i) ok).
    { rewrite <- (add_pods_of (podkey p) (elements matched) (objPodIndex i, ∅) ok). by rewrite E1. }
    rewrite Hm1. pose proof (Hinv (podkey p) ok) as Hi. unfold GetObjForPod, GetPodForObj in Hi.
    assert (Hst : ok ∈ objKeys (default (mkPodState ∅ EmptyString) (podIndex i !! podkey p)) ↔
                  podkey p ∈ pods_of (objPodIndex i) ok).
    { unfold pods_of. rewrite <- Hi. by destruct (podIndex i !! podkey p). }
    change (default ∅ (objPodIndex i !! ok)) with (pods_of (objPodIndex i) ok).
    destruct (decide (pk = podkey p)) as [->|Hne];
      destruct (decide (ok ∈ elements matched)) as [Hin|Hin], (decide (ok ∈ elements stale)) as [Hs|Hs];
      rewrite elem_of_elements in Hin, Hs; unfold stale in Hs; set_solver.
Qed.

Lemma DeletePod_spec p (i : index) i' upd :
  inverse i → DeletePod p i = (i', upd) →
  objNsIndex i' = objNsIndex i ∧
  (∀ pk, GetObjForPod i' pk = if decide (pk = podkey p) then ∅ else GetObjForPod i pk) ∧
  (∀ ok pk, pk ∈ GetPodForObj i' ok ↔ pk ≠ podkey p ∧ pk ∈ GetPodForObj i ok).
Proof.
  intros Hinv. unfold DeletePod. pose proof (λ ok, Hinv (podkey p) ok) as Hi.
  destruct (podIndex i !! podkey p) as [st|] eqn:E.
  - intros [= <- _]. split; [done|]. split.
    + intros pk. unfold GetObjForPod. simpl. destruct (decide (pk = podkey p)) as [->|Hne];
        [by rewrite lookup_delete_eq|by rewrite lookup_delete_ne].
    + intros ok pk. unfold GetPodForObj in *. simpl.
      change (default ∅ (foldl (λ m ok0, drop_pod (podkey p) ok0 m) (objPodIndex i) (elements (objKeys st)) !! ok))
        with (pods_of (foldl (λ m ok0, drop_pod (podkey p) ok0 m) (objPodIndex i) (elements (objKeys st))) ok).
      rewrite drop_pods_of. specialize (Hi ok). unfold GetObjForPod in Hi. rewrite E in Hi.
      change (default ∅ (objPodIndex i !! ok)) with (pods_of (objPodIndex i) ok) in *.
      destruct (decide (ok ∈ elements (objKeys st))) as [Hin|Hin]; rewrite elem_of_elements in Hin; set_solver.
  - intros [= <- _]. split; [done|]. split.
    + intros pk. destruct (decide (pk = podkey p)) as [->|Hne]; [|done]. unfold GetObjForPod. by rewrite E.
    + intros ok pk. specialize (Hi ok). unfold GetObjForPod in Hi. rewrite E in Hi. set_solver.
Qed.

(** The callbacks of a pod update: the objects that gained or lost the pod
    and, when its hash changed, all that select it. *)
Lemma UpdatePod_callbacks p i i' upd b :
  inverse i → eligible p → UpdatePodNoCallback Matches podHashFunc p i = (i', upd, b) →
  let old := GetObjForPod i (podkey p) in
  let new := matched_objs Matches p (objNsIndex i) in
  let hash := match podHashFunc with Some f => f p | None => EmptyString end in
  let oldhash := podHash (default (mkPodState ∅ EmptyString) (podIndex i !! podkey p)) in
  (∀ ok, ok ∈ upd ↔ ok ∈ (old ∖ new) ∪ (new ∖ old) ∨ (hash ≠ oldhash ∧ ok ∈ new)) ∧
  (b = true ↔ old ≠ new).
Proof.
  intros Hinv Hel. unfold UpdatePodNoCallback. set (hash := match podHashFunc with Some f => f p | None => EmptyString end).
  assert (Hh : bool_decide (is_Some podHashFunc) && String.eqb hash EmptyString = false).
  { unfold hash, eligible in *. destruct podHashFunc as [f|]; [|done]. simpl.
    by destruct (String.eqb_spec (f p) EmptyString). }
  rewrite Hh. set (matched := matched_objs Matches p (objNsIndex i)).
  destruct (foldl (add_pod (podkey p)) (objPodIndex i, ∅) (elements matched)) as [m1 added] eqn:E1.
  intros [= _ <- <-]. cbv zeta.
  assert (Hold : objKeys (default (mkPodState ∅ EmptyString) (podIndex i !! podkey p)) = GetObjForPod i (podkey p)).
  { unfold GetObjForPod. by destruct (podIndex i !! podkey p). }
  rewrite !Hold. set (old := GetObjForPod i (podkey p)).
  assert (Hadd : ∀ ok, ok ∈ added ↔ ok ∈ matched ∖ old).
  { intros ok. pose proof (added_objs (podkey p) (elements matched) (objPodIndex i, ∅) ok) as Ha.
    rewrite E1 in Ha. simpl in Ha. rewrite Ha, elem_of_elements, elem_of_difference. unfold old.
    rewrite (Hinv (podkey p) ok). unfold GetPodForObj, pods_of. set_solver. }
  split.
  - intros ok. destruct (String.eqb_spec hash (podHash (default (mkPodState ∅ EmptyString) (podIndex i !! podkey p))));
      specialize (Hadd ok); set_solver.
  - rewrite bool_decide_eq_true. split.
    + intros H Heq. apply H. apply set_eq. intros ok. specialize (Hadd ok). set_solver.
    + intros Hne He. apply Hne. apply set_eq. intros ok. specialize (Hadd ok).
      assert (Hno : ok ∉ added ∪ old ∖ matched) by (rewrite He; set_solver).
      destruct (decide (ok ∈ old)), (decide (ok ∈ matched)); set_solver.
Qed.

(** ** Selector objects *)

Lemma updateSelector_spec st o ok v i i' upd b :
  inverse i → getKey o = Some ok → updateSelectorObjForNs Matches getKey st o v i = (i', upd, b) →
  objNsIndex i' = <[ok := v]> (objNsIndex i) ∧
  (∀ ok' pk, pk ∈ GetPodForObj i' ok' ↔
     if decide (ok' = ok) then pk ∈ (podkey <$> selected_pods Matches st v) else pk ∈ GetPodForObj i ok') ∧
  (∀ ok' pk, ok' ∈ GetObjForPod i' pk ↔
     if decide (ok' = ok) then pk ∈ (podkey <$> selected_pods Matches st v) else ok' ∈ GetObjForPod i pk).
Proof.
  clear getPodSelector.
  intros Hinv Hk. unfold updateSelectorObjForNs. rewrite Hk.
  set (keys := podkey <$> selected_pods Matches st v). set (matched := list_to_set keys : gset string).
  destruct (foldl (add_obj ok) (podIndex i, ∅) keys) as [p1 added] eqn:E1.
  intros [= <- _ _]. split; [done|].
  assert (Hmatched : ∀ pk, pk ∈ matched ↔ pk ∈ keys) by (intros; apply elem_of_list_to_set).
  split.
  - intros ok' pk. unfold GetPodForObj. simpl. destruct (decide (ok' = ok)) as [->|Hne].
    + case_bool_decide as Heq; simpl; [rewrite Heq; simpl; apply Hmatched|].
      rewrite lookup_insert_eq. simpl. apply Hmatched.
    + case_bool_decide; simpl; [done|]. by rewrite lookup_insert_ne.
  - intros ok' pk. unfold GetObjForPod. simpl.
    set (stale := default ∅ (objPodIndex i !! ok) ∖ matched).
    change (match foldl (λ m pk0, drop_obj ok pk0 m) p1 (elements stale) !! pk with
            | Some st0 => objKeys st0 | None => ∅ end)
      with (objs_of (foldl (λ m pk0, drop_obj ok pk0 m) p1 (elements stale)) pk).
    rewrite drop_objs_of. assert (Hp1 : objs_of p1 pk = if decide (pk ∈ keys)
      then {[ok]} ∪ objs_of (podIndex i) pk else objs_of (podIndex i) pk).
    { rewrite <- (add_objs_of ok keys (podIndex i, ∅) pk). by rewrite E1. }
    rewrite Hp1. pose proof (Hinv pk ok) as Hi. unfold GetObjForPod, GetPodForObj in Hi.
    change (match podIndex i !! pk with Some st0 => objKeys st0 | None => ∅ end) with (objs_of (podIndex i) pk) in *.
    specialize (Hmatched pk).
    destruct (decide (ok' = ok)) as [->|Hne];
      destruct (decide (pk ∈ keys)) as [Hin|Hin], (decide (pk ∈ elements stale)) as [Hs|Hs];
      rewrite elem_of_elements in Hs; unfold stale in Hs; set_solver.
Qed.

(** The callbacks of an object update: the pods that gained or lost it. *)
Lemma updateSelector_callbacks st o ok v i i' upd b :
  inverse i → getKey o = Some ok → updateSelectorObjForNs Matches getKey st o v i = (i', upd, b) →
  (∀ pk, pk ∈ upd ↔ pk ∈ (GetPodForObj i ok ∖ GetPodForObj i' ok) ∪ (GetPodForObj i' ok ∖ GetPodForObj i ok)) ∧
  (GetPodForObj i ok ≠ GetPodForObj i' ok → b = true) ∧
  (is_Some (objPodIndex i !! ok) → b = true → GetPodForObj i ok ≠ GetPodForObj i' ok).
Proof.
  clear getPodSelector.
  intros Hinv Hk. unfold updateSelectorObjForNs. rewrite Hk.
  set (keys := podkey <$> selected_pods Matches st v). set (matched := list_to_set keys : gset string).
  destruct (foldl (add_obj ok) (podIndex i, ∅) keys) as [p1 added] eqn:E1. intros [= <- <- <-].
  assert (Hnew : ∀ (ix : index) p2 n, GetPodForObj (mkIndex p2 (if negb (bool_decide (objPodIndex ix !! ok = Some matched))
                   then <[ok := matched]> (objPodIndex ix) else objPodIndex ix) n : index) ok = matched).
  { intros ix p2 n. unfold GetPodForObj. simpl. case_bool_decide as H; simpl;
      [by rewrite H|by rewrite lookup_insert_eq]. }
  rewrite Hnew. clear Hnew. split_and!.
  - intros pk. assert (Hadd : pk ∈ added ↔ pk ∈ matched ∧ pk ∉ GetPodForObj i ok).
    { pose proof (added_pods ok keys (podIndex i, ∅) pk) as Ha. rewrite E1 in Ha. simpl in Ha.
      rewrite Ha, <- (Hinv pk ok). unfold GetObjForPod, objs_of, matched. rewrite elem_of_list_to_set. set_solver. }
    change (default ∅ (objPodIndex i !! ok)) with (GetPodForObj i ok). set_solver.
  - unfold GetPodForObj. case_bool_decide as H; simpl; [by rewrite H|done].
  - unfold GetPodForObj. intros [s Hs]. rewrite Hs. simpl. case_bool_decide; simpl; [done|]. congruence.
Qed.

Lemma DeleteSelectorObj_spec o ok (i : index) i' upd :
  inverse i → getKey o = Some ok → DeleteSelectorObj getKey o i = (i', upd) →
  objNsIndex i' = delete ok (objNsIndex i) ∧
  (∀ ok' pk, pk ∈ GetPodForObj i' ok' ↔ ok' ≠ ok ∧ pk ∈ GetPodForObj i ok') ∧
  (∀ ok' pk, ok' ∈ GetObjForPod i' pk ↔ ok' ≠ ok ∧ ok' ∈ GetObjForPod i pk).
Proof.
  clear getPodSelector.
  intros Hinv Hk. unfold DeleteSelectorObj. rewrite Hk. intros [= <- _]. split; [done|]. split.
  - intros ok' pk. unfold GetPodForObj. simpl. destruct (decide (ok' = ok)) as [->|Hne].
    + rewrite lookup_delete_eq. simpl. set_solver.
    + rewrite lookup_delete_ne by done. naive_solver.
  - intros ok' pk. unfold GetObjForPod. simpl. set (old := default ∅ (objPodIndex i !! ok)).
    change (match foldl (λ m pk0, drop_obj ok pk0 m) (podIndex i) (elements old) !! pk with
            | Some st0 => objKeys st0 | None => ∅ end)
      with (objs_of (foldl (λ m pk0, drop_obj ok pk0 m) (podIndex i) (elements old)) pk).
    rewrite drop_objs_of. pose proof (Hinv pk ok) as Hi. unfold GetObjForPod, GetPodForObj in Hi. fold old in Hi.
    change (match podIndex i !! pk with Some st0 => objKeys st0 | None => ∅ end) with (objs_of (podIndex i) pk) in *.
    destruct (decide (pk ∈ elements old)) as [Hin|Hin]; rewrite elem_of_elements in Hin;
      destruct (decide (ok' = ok)) as [->|]; set_solver.
Qed.
(** ** What the selectors say *)

(** A pod selector selects a namespace by its name or by its labels. *)
Definition selects_ns (st : stores) (ps : PodSelector (Selector := Selector)) (ns : string) : Prop :=
  Namespace ps = Some ns ∨
  ∃ nsel l, NsSelector ps = Some nsel ∧ namespaces st !! ns = Some l ∧ Matches nsel l = true.

(** An object selects a pod if one of its pod selectors does. *)
Definition selects (st : stores) (o : Obj) (p : Pod) : Prop :=
  ∃ ps, ps ∈ getPodSelector o ∧ selects_ns st ps (pod_ns p) ∧ Matches (PodSel ps) (pod_labels p) = true.

Definition sels_of (v : nsmap) (ns : string) : list Selector := default [] (v !! ns).

Lemma add_sel_of v ns sel ns' s :
  s ∈ sels_of (add_sel v ns sel) ns' ↔ s ∈ sels_of v ns' ∨ (ns' = ns ∧ s = sel).
Proof.
  unfold add_sel, sels_of. destruct (decide (ns' = ns)) as [->|Hne].
  - rewrite lookup_insert_eq. simpl. set_solver.
  - rewrite lookup_insert_ne by done. naive_solver.
Qed.

Lemma ns_loop_of nsel sel (l : list (string * labels)) v ns s :
  s ∈ sels_of (foldl (λ ret nl, if Matches nsel nl.2 then add_sel ret nl.1 sel else ret) v l) ns ↔
  s ∈ sels_of v ns ∨ (s = sel ∧ ∃ lb, (ns, lb) ∈ l ∧ Matches nsel lb = true).
Proof.
  revert v. induction l as [|[n lb] l IH]; intros v; simpl; [set_solver|].
  rewrite IH. destruct (Matches nsel lb) eqn:E; [rewrite add_sel_of|]; split.
  - intros [[H|[-> ->]]|(->&lb'&H&Hm)]; [by left| |]; right; split; try done;
      [exists lb|exists lb']; split; try done; [apply list_elem_of_here|by apply list_elem_of_further].
  - intros [H|(->&lb'&H&Hm)]; [by left; left|]. apply elem_of_cons in H as [[= -> ->]|H]; [by left; right|].
    right. eauto.
  - intros [H|(->&lb'&H&Hm)]; [by left|]. right. split; [done|]. exists lb'. split; [by apply list_elem_of_further|done].
  - intros [H|(->&lb'&H&Hm)]; [by left|]. apply elem_of_cons in H as [[= -> ->]|H]; [congruence|]. right. eauto.
Qed.

Lemma getObjNamespaces_of st o ns s :
  s ∈ sels_of (getObjNamespaces Matches getPodSelector st o) ns ↔
  ∃ ps, ps ∈ getPodSelector o ∧ PodSel ps = s ∧ selects_ns st ps ns.
Proof.
  clear getKey.
  unfold getObjNamespaces.
  match goal with |- _ ∈ sels_of (foldl ?f _ _) _ ↔ _ => set (F := f) end.
  assert (HF : ∀ v ps, s ∈ sels_of (F v ps) ns ↔ s ∈ sels_of v ns ∨ (PodSel ps = s ∧ selects_ns st ps ns)).
  { intros v ps. unfold F, selects_ns. destruct (NsSelector ps) as [nsel|] eqn:En.
    - rewrite ns_loop_of. destruct (Namespace ps) as [n|]; [rewrite add_sel_of|];
        setoid_rewrite elem_of_map_to_list; naive_solver.
    - destruct (Namespace ps) as [n|]; [rewrite add_sel_of|]; naive_solver. }
  assert (G : ∀ l v, s ∈ sels_of (foldl F v l) ns ↔
              s ∈ sels_of v ns ∨ ∃ ps, ps ∈ l ∧ PodSel ps = s ∧ selects_ns st ps ns).
  { induction l as [|ps l IH]; intros v; simpl; [set_solver|]. rewrite IH, HF. set_solver. }
  rewrite G. unfold sels_of at 1. rewrite lookup_empty. set_solver.
Qed.

Lemma ns_matches_iff p (v : nsmap) :
  ns_matches Matches p v = true ↔ ∃ s, s ∈ sels_of v (pod_ns p) ∧ Matches s (pod_labels p) = true.
Proof.
  unfold ns_matches, sels_of. destruct (v !! pod_ns p) as [l|]; simpl; [|set_solver].
  rewrite existsb_exists. by setoid_rewrite list_elem_of_In.
Qed.

Lemma ns_matches_selects st o p :
  ns_matches Matches p (getObjNamespaces Matches getPodSelector st o) = true ↔ selects st o p.
Proof.
  rewrite ns_matches_iff. setoid_rewrite getObjNamespaces_of. unfold selects. naive_solver.
Qed.

(** No namespace has an empty name. *)
Definition named (v : nsmap) : Prop := sels_of v EmptyString = [].

Lemma selected_pods_of (st : stores) v p :
  named v → p ∈ selected_pods Matches st v ↔
  (∃ k, pods st !! k = Some p) ∧ ns_matches Matches p v = true.
Proof.
  intros Hn. unfold selected_pods. rewrite ns_matches_iff, list_elem_of_In, in_flat_map.
  setoid_rewrite in_flat_map. setoid_rewrite <- list_elem_of_In. unfold list_pods.
  setoid_rewrite list_elem_of_filter. setoid_rewrite list_elem_of_fmap.
  split.
  - intros ([ns l]&Hv&s&Hs&Hb&[k q]&->&Hp). apply elem_of_map_to_list in Hv. apply elem_of_map_to_list in Hp.
    simpl in *. apply andb_true_iff in Hb as [Hns Hm]. split; [eauto|]. exists s. split; [|done].
    apply orb_true_iff in Hns as [Hns|Hns]; apply String.eqb_eq in Hns; subst.
    + unfold named, sels_of in Hn. rewrite Hv in Hn. simpl in Hn. subst. set_solver.
    + unfold sels_of. by rewrite Hv.
  - intros [[k Hk] (s&Hs&Hm)]. unfold sels_of in Hs.
    destruct (v !! pod_ns p) as [l|] eqn:Hv; simpl in Hs; [|set_solver].
    exists (pod_ns p, l). split; [by apply elem_of_map_to_list|]. exists s. split; [done|].
    split; [by rewrite String.eqb_refl, orb_true_r, Hm|]. exists (k, p). split; [done|]. by apply elem_of_map_to_list.
Qed.
End Facts.
