(* ===== verification/PodIndexSys.v ===== *)
(** * PodIndexSys: the index under informers

    The stores of the informers are ahead of their handlers: a change of a
    store queues a notification, and the handlers of pods, of selector objects
    and of namespaces run later, in any interleaving with each other and with
    further changes of the stores.  Each queue is in order.  A handler that
    holds the mutex reads the stores at one moment, with the object that its
    notification carries.  The update of a selector object is two steps: other
    handlers and changes come between its read of the namespaces and its part
    under the mutex. *)

From S2P Require Import Prelude PodIndex PodIndexFacts.

Open Scope string_scope.

Section Sys.
Context {Selector : Type} `{!EqDecision Selector} (Matches : Selector → labels → bool).
Context {Obj : Type} (getKey : Obj → option string)
  (getPodSelector : Obj → list (PodSelector (Selector := Selector))).
Context (podHashFunc : option (Pod → string)).

Abbreviation index := (PodSelectorIndex (Selector := Selector)).
Abbreviation stores := (Stores (Obj := Obj)).
Abbreviation nsmap := (gmap string (list Selector)).

(** An update of a selector object that has read the namespaces and waits for
    the mutex: what it read, whether a namespace changed since, and whether a
    handler of a namespace ran after that change. *)
Record Reading := mkReading {
  rd_namespaces : nsmap;
  rd_changed : bool;
  rd_raced : bool
}.

(** A notification: an object and whether it is an addition or update
    ([true]) or a deletion.  [reading] is the update of the first object of
    its queue, if it has begun.  [outdated] records the objects whose last
    update was overtaken: between its two steps a namespace changed and a
    handler of a namespace ran, and no handler of a namespace ran since. *)
Record Sys := mkSys {
  sys_stores : stores;
  sys_index : index;
  pod_queue : list (Pod * bool);
  obj_queue : list (Obj * bool);
  ns_queue : nat;
  reading : option Reading;
  outdated : gset string
}.

Definition initial : Sys := mkSys (mkStores ∅ ∅ ∅) NewPodSelectorIndex [] [] 0 None ∅.

Definition handle_pod (n : Pod * bool) (i : index) : index :=
  if n.2 then (UpdatePodNoCallback Matches podHashFunc n.1 i).1.1 else (DeletePod n.1 i).1.

Definition handle_obj (st : stores) (n : Obj * bool) (i : index) : index :=
  if n.2 then (UpdateSelectorObjNoCallback Matches getKey getPodSelector st n.1 i).1.1
  else (DeleteSelectorObj getKey n.1 i).1.

(** The second step of the update of an object. *)
Definition finish_obj (st : stores) (o : Obj) (read : nsmap) (i : index) : index :=
  (UpdateSelectorObj_locked Matches getKey st o read i).1.1.

Definition handle_ns (st : stores) (i : index) : index :=
  (UpdateNamespace Matches getKey getPodSelector st i).1.1.

(** The API server names every namespace. *)
Definition obj_named (o : Obj) : Prop :=
  ∀ ps, ps ∈ getPodSelector o → Namespace ps ≠ Some EmptyString.

Definition note_change (r : Reading) : Reading := mkReading (rd_namespaces r) true (rd_raced r).
Definition note_race (r : Reading) : Reading := mkReading (rd_namespaces r) (rd_changed r) (rd_raced r || rd_changed r).

Inductive step : Sys → Sys → Prop :=
| step_pod_set st i pq oq nq rd out p :
    step (mkSys st i pq oq nq rd out)
      (mkSys (mkStores (<[podkey p := p]> (pods st)) (namespaces st) (objs st)) i (pq ++ [(p, true)]) oq nq rd out)
| step_pod_delete st i pq oq nq rd out p :
    step (mkSys st i pq oq nq rd out)
      (mkSys (mkStores (delete (podkey p) (pods st)) (namespaces st) (objs st)) i (pq ++ [(p, false)]) oq nq rd out)
| step_obj_set st i pq oq nq rd out o ok :
    getKey o = Some ok → obj_named o →
    step (mkSys st i pq oq nq rd out)
      (mkSys (mkStores (pods st) (namespaces st) (<[ok := o]> (objs st))) i pq (oq ++ [(o, true)]) nq rd out)
| step_obj_delete st i pq oq nq rd out o ok :
    getKey o = Some ok →
    step (mkSys st i pq oq nq rd out)
      (mkSys (mkStores (pods st) (namespaces st) (delete ok (objs st))) i pq (oq ++ [(o, false)]) nq rd out)
| step_ns_change st i pq oq nq rd out ns l :
    ns ≠ EmptyString →
    step (mkSys st i pq oq nq rd out)
      (mkSys (mkStores (pods st) (partial_alter (λ _, l) ns (namespaces st)) (objs st)) i pq oq (S nq)
         (note_change <$> rd) out)
| step_handle_pod st i n pq oq nq rd out :
    step (mkSys st i (n :: pq) oq nq rd out) (mkSys st (handle_pod n i) pq oq nq rd out)
| step_read_obj st i pq o oq nq out :
    step (mkSys st i pq ((o, true) :: oq) nq None out)
      (mkSys st i pq ((o, true) :: oq) nq
         (Some (mkReading (UpdateSelectorObj_read Matches getPodSelector st o) false false)) out)
| step_finish_obj st i pq o ok oq nq rd out :
    getKey o = Some ok →
    step (mkSys st i pq ((o, true) :: oq) nq (Some rd) out)
      (mkSys st (finish_obj st o (rd_namespaces rd) i) pq oq nq None
         (if rd_raced rd then {[ok]} ∪ out else out ∖ {[ok]}))
| step_delete_obj st i pq o ok oq nq out :
    getKey o = Some ok →
    step (mkSys st i pq ((o, false) :: oq) nq None out)
      (mkSys st (handle_obj st (o, false) i) pq oq nq None (out ∖ {[ok]}))
| step_handle_ns st i pq oq nq rd out :
    step (mkSys st i pq oq (S nq) rd out) (mkSys st (handle_ns st i) pq oq nq (note_race <$> rd) ∅).

(** ** The invariant *)

(** The last notification for a key, if any is queued. *)
Definition last_note {A} (key : A → option string) (k : string) (q : list (A * bool)) : option (A * bool) :=
  List.last (List.map Some (filter (λ n, key n.1 = Some k) q)) None.

Definition pod_note (pk : string) (q : list (Pod * bool)) := last_note (λ p, Some (podkey p)) pk q.

(** What a notification says of the store. *)
Definition note_value {A} (n : A * bool) : option A := if n.2 then Some n.1 else None.

(** The namespaces the index keeps for an object are named. *)
Definition ix_named (i : index) : Prop := ∀ ok v, objNsIndex i !! ok = Some v → named v.

(** A pod without queued notifications is indexed exactly under the objects
    whose kept namespaces match it; a pod without a hash may be missing. *)
Definition pod_settled (st : stores) (i : index) (pk : string) : Prop :=
  ∀ ok, match pods st !! pk with
        | Some p =>
            (ok ∈ GetObjForPod i pk → ok ∈ matched_objs Matches p (objNsIndex i)) ∧
            (eligible podHashFunc p → ok ∈ matched_objs Matches p (objNsIndex i) → ok ∈ GetObjForPod i pk)
        | None => ok ∉ GetObjForPod i pk
        end.

(** The kept namespaces of an object are those of the stored object. *)
Definition obj_settled (st : stores) (i : index) (ok : string) : Prop :=
  objNsIndex i !! ok = getObjNamespaces Matches getPodSelector st <$> objs st !! ok.

Record Inv (s : Sys) : Prop := mkInv {
  inv_inverse : inverse (sys_index s);
  inv_pods : ∀ pk p, pods (sys_stores s) !! pk = Some p → podkey p = pk;
  inv_objs : ∀ ok o, objs (sys_stores s) !! ok = Some o → getKey o = Some ok ∧ obj_named o;
  inv_ns : namespaces (sys_stores s) !! EmptyString = None;
  inv_notes : ∀ n, n ∈ obj_queue s → is_Some (getKey n.1) ∧ (n.2 = true → obj_named n.1);
  inv_pod_note : ∀ pk n, pod_note pk (pod_queue s) = Some n → pods (sys_stores s) !! pk = note_value n;
  inv_obj_note : ∀ ok n, last_note getKey ok (obj_queue s) = Some n → objs (sys_stores s) !! ok = note_value n;
  inv_pod_settled : ∀ pk, pod_note pk (pod_queue s) = None → pod_settled (sys_stores s) (sys_index s) pk;
  inv_obj_dom : ∀ ok, last_note getKey ok (obj_queue s) = None →
    (is_Some (objNsIndex (sys_index s) !! ok) ↔ is_Some (objs (sys_stores s) !! ok));
  inv_obj_settled : ∀ ok, last_note getKey ok (obj_queue s) = None → ns_queue s = 0 → ok ∉ outdated s →
    obj_settled (sys_stores s) (sys_index s) ok;
  inv_reading : ∀ rd, reading s = Some rd → ∃ o oq, obj_queue s = (o, true) :: oq ∧ named (rd_namespaces rd) ∧
    (rd_changed rd = false → rd_namespaces rd = getObjNamespaces Matches getPodSelector (sys_stores s) o) ∧
    (rd_changed rd = true → ns_queue s = 0 → rd_raced rd = true)
}.

(** ** Queues *)

Lemma last_note_nil {A} (key : A → option string) k : last_note key k [] = None.
Proof. done. Qed.

Lemma last_note_app {A} (key : A → option string) k q n :
  last_note key k (q ++ [n]) = if decide (key n.1 = Some k) then Some n else last_note key k q.
Proof.
  unfold last_note. rewrite filter_app, map_app. destruct (decide (key n.1 = Some k)) as [H|H].
  - rewrite (filter_cons_True (λ m, key m.1 = Some k) n [] H). simpl. apply last_last.
  - rewrite (filter_cons_False (λ m, key m.1 = Some k) n [] H). simpl. by rewrite app_nil_r.
Qed.

Lemma last_note_cons {A} (key : A → option string) k q n :
  last_note key k (n :: q) =
  match last_note key k q with
  | Some m => Some m
  | None => if decide (key n.1 = Some k) then Some n else None
  end.
Proof.
  induction q as [|m q IH] using rev_ind.
  - change (n :: []) with ([] ++ [n])%list. by rewrite last_note_app.
  - change (n :: q ++ [m])%list with ((n :: q) ++ [m])%list. rewrite !last_note_app, IH.
    by destruct (decide (key m.1 = Some k)).
Qed.
(** ** Handlers *)

Lemma handle_pod_spec n i :
  inverse i →
  inverse (handle_pod n i) ∧ objNsIndex (handle_pod n i) = objNsIndex i ∧
  ∀ pk, GetObjForPod (handle_pod n i) pk =
        if decide (pk = podkey n.1) then
          if n.2 then
            if decide (eligible podHashFunc n.1) then matched_objs Matches n.1 (objNsIndex i) else ∅
          else ∅
        else GetObjForPod i pk.
Proof.
  destruct n as [p b]. intros Hinv. unfold handle_pod. simpl.
  assert (HD : ∀ i' upd, DeletePod p i = (i', upd) → inverse i' ∧ objNsIndex i' = objNsIndex i ∧
            ∀ pk, GetObjForPod i' pk = if decide (pk = podkey p) then ∅ else GetObjForPod i pk).
  { intros i' upd E. destruct (DeletePod_spec p i i' upd Hinv E) as (H1&H2&H3). split_and!; [|done|done].
    intros pk ok. rewrite H2, H3. pose proof (Hinv pk ok).
    destruct (decide (pk = podkey p)); set_solver. }
  destruct b.
  - destruct (decide (eligible podHashFunc p)) as [He|He].
    + destruct (UpdatePodNoCallback Matches podHashFunc p i) as [[i' upd] c] eqn:E. simpl.
      destruct (UpdatePod_spec Matches podHashFunc p i i' upd c Hinv He E) as (H1&H2&H3).
      split_and!; [|done|done]. intros pk ok. rewrite H2, H3. pose proof (Hinv pk ok).
      by destruct (decide (pk = podkey p)).
    + unfold UpdatePodNoCallback, eligible in *. destruct podHashFunc as [f|]; [|done]. simpl.
      destruct (String.eqb_spec (f p) EmptyString) as [Hf|Hf]; [|done].
      destruct (DeletePod p i) as [i' upd] eqn:E. simpl. by apply (HD i' upd).
  - destruct (DeletePod p i) as [i' upd] eqn:E. simpl. by apply (HD i' upd).
Qed.

(** Updating an object keeps settled pods settled. *)
Lemma update_obj_spec st o ok v i i' upd b :
  inverse i → getKey o = Some ok → named v →
  (∀ pk p, pods st !! pk = Some p → podkey p = pk) →
  updateSelectorObjForNs Matches getKey st o v i = (i', upd, b) →
  inverse i' ∧ objNsIndex i' = <[ok := v]> (objNsIndex i) ∧
  ∀ pk, pod_settled st i pk → pod_settled st i' pk.
Proof.
  intros Hinv Hk Hv Hp E.
  destruct (updateSelector_spec Matches getKey st o ok v i i' upd b Hinv Hk E) as (H1&H2&H3).
  split_and!; [|done|].
  { intros pk ok'. rewrite H2, H3. pose proof (Hinv pk ok'). by destruct (decide (ok' = ok)). }
  assert (Hsel : ∀ pk, pk ∈ (podkey <$> selected_pods Matches st v) ↔
                 ∃ p, pods st !! pk = Some p ∧ ns_matches Matches p v = true).
  { intros pk. rewrite list_elem_of_fmap. setoid_rewrite (selected_pods_of Matches st v); [|done]. split.
    - intros (p&->&(k&Hk')&Hm). exists p. by rewrite (Hp _ _ Hk').
    - intros (p&Hpk&Hm). exists p. split; [by rewrite (Hp _ _ Hpk)|eauto]. }
  intros pk Hs ok'. specialize (Hs ok'). specialize (H3 ok' pk). specialize (Hsel pk).
  destruct (pods st !! pk) as [p|] eqn:Epk.
  - rewrite !matched_objs_in in *. rewrite H1. destruct (decide (ok' = ok)) as [->|Hne].
    + rewrite lookup_insert_eq. naive_solver.
    + rewrite lookup_insert_ne by done. naive_solver.
  - destruct (decide (ok' = ok)) as [->|Hne]; naive_solver.
Qed.

Lemma delete_obj_spec st o ok i :
  inverse i → getKey o = Some ok →
  let i' := (DeleteSelectorObj getKey o i).1 in
  inverse i' ∧ objNsIndex i' = delete ok (objNsIndex i) ∧
  ∀ pk, pod_settled st i pk → pod_settled st i' pk.
Proof.
  intros Hinv Hk. destruct (DeleteSelectorObj getKey o i) as [i' upd] eqn:E. simpl.
  destruct (DeleteSelectorObj_spec getKey o ok i i' upd Hinv Hk E) as (H1&H2&H3).
  split_and!; [|done|].
  - intros pk ok'. rewrite H2, H3. pose proof (Hinv pk ok'). naive_solver.
  - intros pk Hs ok'. specialize (Hs ok'). specialize (H3 ok' pk).
    destruct (pods st !! pk) as [p|] eqn:Epk; [|naive_solver].
    rewrite !matched_objs_in in *. rewrite H1. destruct (decide (ok' = ok)) as [->|Hne].
    + rewrite lookup_delete_eq. naive_solver.
    + rewrite lookup_delete_ne by done. naive_solver.
Qed.

Lemma named_obj st o :
  namespaces st !! EmptyString = None → obj_named o → named (getObjNamespaces Matches getPodSelector st o).
Proof.
  intros Hns Ho. unfold named.
  destruct (sels_of (getObjNamespaces Matches getPodSelector st o) EmptyString) as [|s l] eqn:E; [done|].
  assert (H : s ∈ sels_of (getObjNamespaces Matches getPodSelector st o) EmptyString)
    by (rewrite E; apply list_elem_of_here).
  apply getObjNamespaces_of in H as (ps&Hps&_&[H|(?&?&_&H&_)]); [by destruct (Ho ps Hps)|congruence].
Qed.

Lemma handle_ns_spec st i :
  inverse i → namespaces st !! EmptyString = None →
  (∀ pk p, pods st !! pk = Some p → podkey p = pk) →
  (∀ ok o, objs st !! ok = Some o → getKey o = Some ok ∧ obj_named o) →
  inverse (handle_ns st i) ∧
  (∀ pk, pod_settled st i pk → pod_settled st (handle_ns st i) pk) ∧
  ∀ ok, objNsIndex (handle_ns st i) !! ok =
        match objs st !! ok with
        | Some o => Some (getObjNamespaces Matches getPodSelector st o)
        | None => objNsIndex i !! ok
        end.
Proof.
  intros Hinv Hns Hp Ho. unfold handle_ns, UpdateNamespace.
  set (F := update_for_ns Matches getKey getPodSelector st).
  assert (G : ∀ l i up uo, inverse i →
    (∀ o, o ∈ l → obj_named o ∧ ∃ ok, getKey o = Some ok ∧ objs st !! ok = Some o) →
    let i' := (foldl F (i, up, uo) l).1.1 in
    inverse i' ∧ (∀ pk, pod_settled st i pk → pod_settled st i' pk) ∧
    ∀ ok, objNsIndex i' !! ok = objNsIndex i !! ok ∧ (∀ o, o ∈ l → getKey o ≠ Some ok) ∨
          ∃ o, o ∈ l ∧ objs st !! ok = Some o ∧
               objNsIndex i' !! ok = Some (getObjNamespaces Matches getPodSelector st o)).
  { clear i Hinv. induction l as [|o l IH]; intros i up uo Hinv Hl; cbv zeta.
    { simpl. split_and!; [done|done|]. intros ok. left. split; [done|]. intros o Ho'. by apply elem_of_nil in Ho'. }
    destruct (Hl o (list_elem_of_here _ _)) as [Hnm (ok&Hk&Hst)].
    assert (Hl' : ∀ o, o ∈ l → obj_named o ∧ ∃ ok, getKey o = Some ok ∧ objs st !! ok = Some o)
      by (intros o' Ho'; by apply Hl, list_elem_of_further).
    change (foldl F (i, up, uo) (o :: l)) with (foldl F (F (i, up, uo) o) l).
    set (v := getObjNamespaces Matches getPodSelector st o).
    assert (Hstep : ∃ i1 up1 uo1, F (i, up, uo) o = (i1, up1, uo1) ∧ inverse i1 ∧
              objNsIndex i1 = <[ok := v]> (objNsIndex i) ∧ ∀ pk, pod_settled st i pk → pod_settled st i1 pk).
    { unfold F, update_for_ns. rewrite Hk. fold v. case_bool_decide as Heq.
      - exists i, up, uo. split_and!; try done. by rewrite insert_id.
      - destruct (updateSelectorObjForNs Matches getKey st o v i) as [[i1 up1] ch] eqn:E.
        destruct (update_obj_spec st o ok v i i1 up1 ch Hinv Hk (named_obj st o Hns Hnm) Hp E) as (?&?&?).
        eexists _, _, _. split_and!; done. }
    destruct Hstep as (i1&up1&uo1&->&Hinv1&Hn1&Hs1).
    destruct (IH i1 up1 uo1 Hinv1 Hl') as (A&B&C). split_and!; [done|naive_solver|].
    intros ok'. destruct (C ok') as [[C1 C2]|(o'&C1&C2&C3)].
    - rewrite C1, Hn1. destruct (decide (ok' = ok)) as [->|Hne].
      + right. exists o. split; [apply list_elem_of_here|]. by rewrite lookup_insert_eq.
      + left. rewrite lookup_insert_ne by done. split; [done|].
        intros o' Ho'. apply elem_of_cons in Ho' as [->|Ho']; [congruence|by apply C2].
    - right. exists o'. split; [by apply list_elem_of_further|done]. }
  destruct (G (snd <$> map_to_list (objs st)) i ∅ ∅ Hinv) as (A&B&C).
  { intros o Hin. apply list_elem_of_fmap in Hin as ([ok o']&->&Hin). apply elem_of_map_to_list in Hin.
    simpl in *. destruct (Ho _ _ Hin). eauto. }
  split_and!; [done|done|]. intros ok. destruct (C ok) as [[C1 C2]|(o&C1&C2&C3)].
  - rewrite C1. destruct (objs st !! ok) as [o|] eqn:E; [|done]. exfalso. destruct (Ho _ _ E) as [Hk _].
    apply (C2 o); [|done]. apply list_elem_of_fmap. exists (ok, o). split; [done|]. by apply elem_of_map_to_list.
  - by rewrite C3, C2.
Qed.
(** ** The invariant holds *)

Lemma Inv_initial : Inv initial.
Proof.
  split; simpl; try done.
  - intros n Hn. by apply elem_of_nil in Hn.
  - intros pk _ ok. simpl. rewrite lookup_empty. unfold GetObjForPod. simpl. rewrite lookup_empty. set_solver.
  - intros ok _. rewrite !lookup_empty. split; intros [? H]; done.
Qed.

(** Changes of the pods of the store. *)
Lemma Inv_pod_store st i pq oq nq rd out p b :
  Inv (mkSys st i pq oq nq rd out) →
  Inv (mkSys (mkStores (partial_alter (λ _, note_value (p, b)) (podkey p) (pods st)) (namespaces st) (objs st))
         i (pq ++ [(p, b)]) oq nq rd out).
Proof.
  intros [H1 H2 H3 H4 H5 H6 H7 H8 H9 H10 H11]. simpl in *. split; simpl; try done.
  - intros pk q. destruct (decide (pk = podkey p)) as [->|Hne].
    + rewrite lookup_partial_alter_eq. destruct b; simpl; [by intros [= <-]|done].
    + rewrite lookup_partial_alter_ne by done. apply H2.
  - intros pk n. unfold pod_note. rewrite last_note_app. simpl. case_decide as Hd.
    + injection Hd as <-. intros [= <-]. by rewrite lookup_partial_alter_eq.
    + intros Hn. rewrite lookup_partial_alter_ne by congruence. by apply H6.
  - intros pk. unfold pod_note. rewrite last_note_app. simpl. case_decide as Hd; [done|].
    intros Hn ok. simpl. rewrite lookup_partial_alter_ne by congruence. by apply H8.
Qed.

(** Changes of the objects of the store. *)
Lemma Inv_obj_store st i pq oq nq rd out o ok b :
  getKey o = Some ok → (b = true → obj_named o) →
  Inv (mkSys st i pq oq nq rd out) →
  Inv (mkSys (mkStores (pods st) (namespaces st) (partial_alter (λ _, note_value (o, b)) ok (objs st)))
         i pq (oq ++ [(o, b)]) nq rd out).
Proof.
  intros Hk Hnm [H1 H2 H3 H4 H5 H6 H7 H8 H9 H10 H11]. simpl in *. split; simpl; try done.
  - intros k q. destruct (decide (k = ok)) as [->|Hne].
    + rewrite lookup_partial_alter_eq. destruct b; simpl; [intros [= <-]; auto|done].
    + rewrite lookup_partial_alter_ne by done. apply H3.
  - intros n Hn. apply elem_of_app in Hn as [Hn|Hn]; [by apply H5|].
    apply list_elem_of_singleton in Hn as ->. simpl. eauto.
  - intros k n. rewrite last_note_app. simpl. case_decide as Hd.
    + assert (k = ok) as -> by congruence. intros [= <-]. by rewrite lookup_partial_alter_eq.
    + intros Hn. rewrite lookup_partial_alter_ne by congruence. by apply H7.
  - intros k. rewrite last_note_app. simpl. case_decide as Hd; [done|]. intros Hn.
    rewrite lookup_partial_alter_ne by congruence. by apply H9.
  - intros k. rewrite last_note_app. simpl. case_decide as Hd; [done|]. intros Hn Hq Ho.
    unfold obj_settled. simpl. rewrite lookup_partial_alter_ne by congruence. by apply H10.
  - intros r Hr. destruct (H11 r Hr) as (o'&oq'&->&Hn). by exists o', (oq' ++ [(o, b)])%list.
Qed.

Lemma Inv_handle_pod st i n pq oq nq rd out :
  Inv (mkSys st i (n :: pq) oq nq rd out) → Inv (mkSys st (handle_pod n i) pq oq nq rd out).
Proof.
  intros [H1 H2 H3 H4 H5 H6 H7 H8 H9 H10 H11]. simpl in *.
  destruct (handle_pod_spec n i H1) as (A&B&C).
  unfold pod_note in *. split; simpl; try done; try (by rewrite B).
  - intros pk m Hm. unfold pod_note in Hm. apply H6. by rewrite last_note_cons, Hm.
  - intros pk Hpk ok. unfold pod_note in Hpk. rewrite C, B. specialize (H6 pk). specialize (H8 pk).
    rewrite last_note_cons, Hpk in H6, H8. destruct (decide (pk = podkey n.1)) as [->|Hne].
    + rewrite decide_True in H6 by done. rewrite (H6 n eq_refl). destruct n as [p []]; simpl.
      * destruct (decide (eligible podHashFunc p)); set_solver.
      * set_solver.
    + rewrite decide_False in H8 by congruence. by apply H8.
  - intros ok Hq Hn Ho. unfold obj_settled. rewrite B. by apply H10.
Qed.

(** The first notification of the queue of objects is handled: the index [i']
    has [v] as the namespaces of its object, which are current unless the
    object is outdated. *)
Lemma Inv_obj_handled st i i' pq n ok oq nq rd out out' v :
  Inv (mkSys st i pq (n :: oq) nq rd out) → getKey n.1 = Some ok →
  inverse i' → objNsIndex i' = partial_alter (λ _, v) ok (objNsIndex i) →
  (∀ pk, pod_settled st i pk → pod_settled st i' pk) →
  (is_Some v ↔ n.2 = true) →
  (nq = 0 → ok ∉ out' → v = getObjNamespaces Matches getPodSelector st <$> note_value n) →
  (∀ k, k ≠ ok → k ∈ out → k ∈ out') →
  Inv (mkSys st i' pq oq nq None out').
Proof.
  intros [H1 H2 H3 H4 H5 H6 H7 H8 H9 H10 H11] Hk A B C Hv Hcur Hout. simpl in *.
  split; simpl; try done.
  - intros m Hm. by apply H5, list_elem_of_further.
  - intros k m Hm. apply H7. by rewrite last_note_cons, Hm.
  - intros pk Hpk. by apply C, H8.
  - intros k Hq. rewrite B. specialize (H7 k). specialize (H9 k). rewrite last_note_cons, Hq in H7, H9.
    destruct (decide (k = ok)) as [->|Hne].
    + rewrite decide_True in H7 by done. rewrite lookup_partial_alter_eq, (H7 n eq_refl), Hv. unfold note_value.
      destruct n as [o []]; simpl; [split; [by eauto|done]|]. split; [done|]. intros [? [=]].
    + rewrite lookup_partial_alter_ne by done. rewrite decide_False in H9 by congruence. by apply H9.
  - intros k Hq Hn Ho. unfold obj_settled. rewrite B. specialize (H7 k). specialize (H10 k).
    rewrite last_note_cons, Hq in H7, H10. destruct (decide (k = ok)) as [->|Hne].
    + rewrite decide_True in H7 by done. rewrite lookup_partial_alter_eq, (H7 n eq_refl). by apply Hcur.
    + rewrite lookup_partial_alter_ne by done. rewrite decide_False in H10 by congruence. apply H10; [done|done|]. auto.
Qed.

Lemma Inv_read_obj st i pq o oq nq out :
  Inv (mkSys st i pq ((o, true) :: oq) nq None out) →
  Inv (mkSys st i pq ((o, true) :: oq) nq
         (Some (mkReading (UpdateSelectorObj_read Matches getPodSelector st o) false false)) out).
Proof.
  intros [H1 H2 H3 H4 H5 H6 H7 H8 H9 H10 H11]. simpl in *. split; simpl; try done.
  intros rd [= <-]. exists o, oq. split_and!; [done| |done|done]. apply named_obj; [done|].
  destruct (H5 _ (list_elem_of_here _ _)) as [_ Hn]. by apply Hn.
Qed.

Lemma Inv_finish_obj st i pq o ok oq nq rd out :
  getKey o = Some ok → Inv (mkSys st i pq ((o, true) :: oq) nq (Some rd) out) →
  Inv (mkSys st (finish_obj st o (rd_namespaces rd) i) pq oq nq None (if rd_raced rd then {[ok]} ∪ out else out ∖ {[ok]})).
Proof.
  intros Hk HI. destruct (inv_reading _ HI rd eq_refl) as (o'&oq'&[= -> ->]&Hn&Hf&Hc). simpl in Hf, Hc.
  unfold finish_obj, UpdateSelectorObj_locked.
  destruct (updateSelectorObjForNs Matches getKey st o' (rd_namespaces rd) i) as [[i' up] ch] eqn:E. simpl.
  destruct (update_obj_spec st o' ok _ i i' up ch (inv_inverse _ HI) Hk Hn (inv_pods _ HI) E) as (A&B&C).
  eapply (Inv_obj_handled st i i' pq (o', true) ok oq' nq (Some rd) out _ (Some (rd_namespaces rd))); [exact HI|done|done|exact B|exact C|done| |].
  - intros Hq Ho. simpl. f_equal. destruct (rd_raced rd); [set_solver|]. apply Hf.
    destruct (rd_changed rd); [|done]. discriminate (Hc eq_refl Hq).
  - intros k Hne Hin. destruct (rd_raced rd); set_solver.
Qed.

Lemma Inv_delete_obj st i pq o ok oq nq out :
  getKey o = Some ok → Inv (mkSys st i pq ((o, false) :: oq) nq None out) →
  Inv (mkSys st (handle_obj st (o, false) i) pq oq nq None (out ∖ {[ok]})).
Proof.
  intros Hk HI. destruct (delete_obj_spec st o ok i (inv_inverse _ HI) Hk) as (A&B&C).
  eapply (Inv_obj_handled st i _ pq (o, false) ok oq nq None out _ None); [exact HI|done|exact A|exact B|exact C| |done|set_solver].
  split; [by intros [? [=]]|done].
Qed.

Lemma Inv_handle_ns st i pq oq nq rd out :
  Inv (mkSys st i pq oq (S nq) rd out) → Inv (mkSys st (handle_ns st i) pq oq nq (note_race <$> rd) ∅).
Proof.
  intros [H1 H2 H3 H4 H5 H6 H7 H8 H9 H10 H11]. simpl in *.
  destruct (handle_ns_spec st i H1 H4 H2 H3) as (A&B&C).
  split; simpl; try done.
  - intros pk Hpk. by apply B, H8.
  - intros ok Hq. rewrite C. specialize (H9 ok Hq). by destruct (objs st !! ok).
  - intros ok Hq _ _. unfold obj_settled. rewrite C. specialize (H9 ok Hq).
    destruct (objs st !! ok) as [o|]; [done|]. simpl.
    destruct (objNsIndex i !! ok) as [v|]; [|done]. destruct H9 as [[? H9] _]; [eauto|done].
  - intros r Hr. apply fmap_Some in Hr as (r0&->&->). destruct (H11 r0 eq_refl) as (o&oq'&->&Hn&Hf&_).
    exists o, oq'. split_and!; [done|done|done|]. simpl. intros -> _. apply orb_true_r.
Qed.

Lemma Inv_ns_change st i pq oq nq rd out ns l :
  ns ≠ EmptyString → Inv (mkSys st i pq oq nq rd out) →
  Inv (mkSys (mkStores (pods st) (partial_alter (λ _, l) ns (namespaces st)) (objs st)) i pq oq (S nq)
         (note_change <$> rd) out).
Proof.
  intros Hns [H1 H2 H3 H4 H5 H6 H7 H8 H9 H10 H11]. simpl in *. split; simpl; try done.
  - by rewrite lookup_partial_alter_ne.
  - intros r Hr. apply fmap_Some in Hr as (r0&->&->). destruct (H11 r0 eq_refl) as (o&oq'&->&Hn&_). by exists o, oq'.
Qed.

Lemma Inv_step s s' : Inv s → step s s' → Inv s'.
Proof.
  intros HI Hs. destruct Hs.
  - exact (Inv_pod_store st i pq oq nq rd out p true HI).
  - exact (Inv_pod_store st i pq oq nq rd out p false HI).
  - exact (Inv_obj_store st i pq oq nq rd out o ok true H (λ _, H0) HI).
  - refine (Inv_obj_store st i pq oq nq rd out o ok false H _ HI). done.
  - by apply Inv_ns_change.
  - by apply Inv_handle_pod.
  - by apply Inv_read_obj.
  - by apply Inv_finish_obj.
  - by apply Inv_delete_obj.
  - eapply Inv_handle_ns. exact HI.
Qed.

Lemma Inv_reachable s : rtc step initial s → Inv s.
Proof.
  intros H. assert (G : ∀ x, rtc step x s → Inv x → Inv s).
  { clear H. intros x Hx. induction Hx as [|x y z Hs _ IH]; [done|]. intros HI. apply IH. by apply (Inv_step x). }
  by apply (G initial), Inv_initial.
Qed.
End Sys.
