(* ===== verification/PodIndexProps.v ===== *)
(** * PodIndexProps: the pod selector index

    The claims about src/pkg/index: the index is the relation that the
    selectors define once the notifications are handled, the callbacks are
    called for what changed, and two behaviours of it that depend on the order
    of events.  The witnesses select by one label. *)

From S2P Require Import Prelude PodIndex PodIndexFacts PodIndexSys.

Open Scope string_scope.

(** ** A concrete instance *)

(** A selector that requires one label, or nothing; an object with its key and
    its pod selectors. *)
Definition label_selector : Type := option (string * string).
Definition label_matches (s : label_selector) (l : labels) : bool :=
  match s with Some (k, v) => bool_decide (l !! k = Some v) | None => true end.

Definition sel_obj : Type := string * list (PodSelector (Selector := label_selector)).
Definition sel_key (o : sel_obj) : option string := Some o.1.
Definition sel_selectors (o : sel_obj) := o.2.

(** The hash of the network policies: the address of the pod. *)
Definition ip_hash : option (Pod → string) := Some pod_ip.

Definition web (ip : string) : Pod := mkPod "ns1" "web" {["app" := "web"]} ip [ip] [].
Definition by_ns_label : sel_obj := ("np1", [mkPodSelector None (Some (Some ("team", "red"))) (Some ("app", "web"))]).

Abbreviation sys := (Sys (Selector := label_selector) (Obj := sel_obj)).
Abbreviation sys_step := (step label_matches sel_key sel_selectors ip_hash).

(** The namespace, the pod and the object are stored; the handlers run with
    the pod first. *)
Definition sys_example : sys :=
  let st := mkStores {["ns1/web" := web "10.0.0.1"]} {["ns1" := {["team" := "red"]}]} {["np1" := by_ns_label]} in
  mkSys st
    (handle_ns label_matches sel_key sel_selectors st
      (finish_obj label_matches sel_key st by_ns_label (UpdateSelectorObj_read label_matches sel_selectors st by_ns_label)
        (handle_pod label_matches ip_hash (web "10.0.0.1", true) NewPodSelectorIndex))) [] [] 0 None ∅.

Lemma sys_example_reachable : rtc sys_step initial sys_example.
Proof.
  unfold sys_example. eapply rtc_l; [by apply (step_ns_change _ _ _ _ _ _ _ _ _ _ _ "ns1" (Some {["team" := "red"]}))|].
  eapply rtc_l; [apply (step_pod_set _ _ _ _ _ _ _ _ _ _ _ (web "10.0.0.1"))|].
  eapply rtc_l; [apply (step_obj_set _ _ _ _ _ _ _ _ _ _ _ by_ns_label "np1"); [done|]|].
  { intros ps Hps. apply list_elem_of_singleton in Hps as ->. done. }
  eapply rtc_l; [apply step_handle_pod|]. eapply rtc_l; [apply step_read_obj|].
  eapply rtc_l; [by apply (step_finish_obj _ _ _ _ _ _ _ _ "np1")|].
  eapply rtc_l; [apply step_handle_ns|]. apply rtc_refl.
Qed.

(** ** Claims *)

Section Claims.
Context {Selector : Type} `{!EqDecision Selector} (Matches : Selector → labels → bool).
Context {Obj : Type} (getKey : Obj → option string)
  (getPodSelector : Obj → list (PodSelector (Selector := Selector))).
Context (podHashFunc : option (Pod → string)).

(** C10: in every state that changes of the informers' stores and the steps of
    the handlers can reach, in any order, where the update of an object is two
    steps, the read of its namespaces without the mutex and the rest with it:
    for a pod and an object whose notifications are handled, with no namespace
    notification left, and with an object whose last update was not overtaken
    (between its two steps a namespace changed and the handler of a namespace
    ran, and none ran since), the two directions of the index agree; a pod is
    indexed under an object only if both are in the stores and the selectors of
    the object select the pod; and a stored pod with a hash is indexed under
    every stored object that selects it.  Objects and namespaces have names. *)
Theorem pod_index_settles s pk ok :
  rtc (step Matches getKey getPodSelector podHashFunc) initial s →
  pod_note pk (pod_queue s) = None → last_note getKey ok (obj_queue s) = None → ns_queue s = 0 → ok ∉ outdated s →
  let st := sys_stores s in
  let i := sys_index s in
  (ok ∈ GetObjForPod i pk ↔ pk ∈ GetPodForObj i ok) ∧
  (ok ∈ GetObjForPod i pk → ∃ p o, pods st !! pk = Some p ∧ objs st !! ok = Some o ∧
     selects Matches getPodSelector st o p) ∧
  (∀ p o, pods st !! pk = Some p → objs st !! ok = Some o → eligible podHashFunc p →
     selects Matches getPodSelector st o p → ok ∈ GetObjForPod i pk).
Proof.
  intros Hr Hp Ho Hn Hout. apply Inv_reachable in Hr as [H1 H2 H3 H4 H5 H6 H7 H8 H9 H10 _].
  specialize (H8 pk Hp ok). specialize (H10 ok Ho Hn Hout). unfold obj_settled in H10. cbv zeta. split_and!.
  - apply H1.
  - intros Hin. destruct (pods (sys_stores s) !! pk) as [p|] eqn:Ep; [|done].
    destruct H8 as [H8 _]. apply H8, matched_objs_in in Hin as (v&Hv&Hm). rewrite H10 in Hv.
    destruct (objs (sys_stores s) !! ok) as [o|] eqn:Eo; [|done]. injection Hv as <-.
    exists p, o. split_and!; try done. by apply ns_matches_selects.
  - intros p o Ep Eo He Hs. rewrite Ep in H8. destruct H8 as [_ H8]. apply H8; [done|].
    apply matched_objs_in. rewrite H10, Eo. eexists. split; [done|]. by apply ns_matches_selects.
Qed.

(** An update of a pod calls back exactly the objects that gained or lost
    the pod, and all objects that select it when its hash changed; it reports
    a change exactly if the objects of the pod changed.  An update of a
    selector object calls back exactly the pods that gained or lost the
    object, and reports a change whenever its pods changed, and only then for
    an object that had an entry. *)
Theorem pod_index_callbacks (i : PodSelectorIndex (Selector := Selector)) :
  inverse i →
  (∀ p i' upd b, eligible podHashFunc p → UpdatePodNoCallback Matches podHashFunc p i = (i', upd, b) →
     let old := GetObjForPod i (podkey p) in
     let new := GetObjForPod i' (podkey p) in
     let hash := match podHashFunc with Some f => f p | None => EmptyString end in
     let oldhash := podHash (default (mkPodState ∅ EmptyString) (podIndex i !! podkey p)) in
     (∀ ok, ok ∈ upd ↔ ok ∈ (old ∖ new) ∪ (new ∖ old) ∨ (hash ≠ oldhash ∧ ok ∈ new)) ∧
     (b = true ↔ old ≠ new)) ∧
  (∀ st o ok i' upd b, getKey o = Some ok →
     UpdateSelectorObjNoCallback Matches getKey getPodSelector st o i = (i', upd, b) →
     let old := GetPodForObj i ok in
     let new := GetPodForObj i' ok in
     (∀ pk, pk ∈ upd ↔ pk ∈ (old ∖ new) ∪ (new ∖ old)) ∧
     (old ≠ new → b = true) ∧ (is_Some (objPodIndex i !! ok) → b = true → old ≠ new)).
Proof.
  intros Hinv. split.
  - intros p i' upd b He E. destruct (UpdatePod_spec Matches podHashFunc p i i' upd b Hinv He E) as (_&H&_).
    cbv zeta. rewrite H, decide_True by done. by apply (UpdatePod_callbacks Matches podHashFunc p i i' upd b).
  - intros st o ok i' upd b Hk E. by apply (updateSelector_callbacks Matches getKey st o ok _ i i' upd b Hinv Hk E).
Qed.

(** [UpdateSelectorObjNoCallback] reads the namespaces of the object
    before it takes the lock of the index.  If the handler of a namespace
    change runs between the two, the index ends with the namespaces that the
    old labels gave: the pods of the object are those the old labels select,
    although every notification is handled. *)
Theorem pod_index_stale_namespaces (before after : Stores (Obj := Obj)) o ok i :
  inverse i → getKey o = Some ok → namespaces after !! EmptyString = None →
  (∀ pk p, pods after !! pk = Some p → podkey p = pk) →
  (∀ k o', objs after !! k = Some o' → getKey o' = Some k ∧ obj_named getPodSelector o') →
  let read := getObjNamespaces Matches getPodSelector before o in
  let i1 := handle_ns Matches getKey getPodSelector after i in
  let i2 := (updateSelectorObjForNs Matches getKey after o read i1).1.1 in
  objNsIndex i2 !! ok = Some read ∧
  ∀ pk, pk ∈ GetPodForObj i2 ok ↔ pk ∈ (podkey <$> selected_pods Matches after read).
Proof.
  intros Hinv Hk Hns Hp Ho. cbv zeta.
  destruct (handle_ns_spec Matches getKey getPodSelector podHashFunc after i Hinv Hns Hp Ho) as (H1&_&_).
  destruct (updateSelectorObjForNs Matches getKey after o (getObjNamespaces Matches getPodSelector before o)
              (handle_ns Matches getKey getPodSelector after i)) as [[i2 upd] b] eqn:E. simpl.
  destruct (updateSelector_spec Matches getKey after o ok _ _ i2 upd b H1 Hk E) as (A&B&_).
  split; [by rewrite A, lookup_insert_eq|]. intros pk. by rewrite B, decide_True.
Qed.

(** A pod without a hash (without an address, for the network policies)
    is removed from the index by its own handler, but the handlers of selector
    objects index it: whether it is indexed depends on which handler ran
    last. *)
Theorem pod_index_hashless_order (st : Stores (Obj := Obj)) o ok p i :
  inverse i → getKey o = Some ok → obj_named getPodSelector o → namespaces st !! EmptyString = None →
  ¬ eligible podHashFunc p → pods st !! podkey p = Some p → selects Matches getPodSelector st o p →
  podkey p ∈ GetPodForObj (handle_obj Matches getKey getPodSelector st (o, true)
                             (handle_pod Matches podHashFunc (p, true) i)) ok ∧
  podkey p ∉ GetPodForObj (handle_pod Matches podHashFunc (p, true)
                             (handle_obj Matches getKey getPodSelector st (o, true) i)) ok.
Proof.
  intros Hinv Hk Hnm Hns Hel Hp Hs.
  assert (HO : ∀ j, inverse j → inverse (handle_obj Matches getKey getPodSelector st (o, true) j) ∧
            podkey p ∈ GetPodForObj (handle_obj Matches getKey getPodSelector st (o, true) j) ok).
  { intros j Hj. unfold handle_obj, UpdateSelectorObjNoCallback, UpdateSelectorObj_locked, UpdateSelectorObj_read. simpl.
    destruct (updateSelectorObjForNs Matches getKey st o (getObjNamespaces Matches getPodSelector st o) j)
      as [[j' up] c] eqn:E. simpl.
    destruct (updateSelector_spec Matches getKey st o ok _ j j' up c Hj Hk E) as (_&A&B). split.
    - intros pk ok'. rewrite A, B. pose proof (Hj pk ok'). by destruct (decide (ok' = ok)).
    - apply A. rewrite decide_True by done. apply list_elem_of_fmap. exists p. split; [done|].
      apply selected_pods_of; [by apply named_obj|]. split; [eauto|].
      by apply ns_matches_selects. }
  split.
  - apply HO. by apply handle_pod_spec.
  - destruct (HO i Hinv) as [Hj _].
    destruct (handle_pod_spec Matches podHashFunc (p, true) _ Hj) as (A&_&C).
    rewrite <- (A (podkey p) ok), C. simpl. rewrite decide_True, decide_False by done. apply not_elem_of_empty.
Qed.
End Claims.

(** The pod is indexed under the object that selects its
    namespace by a label. *)
Lemma pod_index_settles_witness :
  rtc sys_step initial sys_example ∧ "np1" ∈ GetObjForPod (sys_index sys_example) "ns1/web" ∧
  "ns1/web" ∈ GetPodForObj (sys_index sys_example) "np1".
Proof.
  pose proof (pod_index_settles label_matches sel_key sel_selectors ip_hash sys_example "ns1/web" "np1"
    sys_example_reachable eq_refl eq_refl eq_refl ltac:(apply not_elem_of_empty)) as (H1&_&H3).
  split; [exact sys_example_reachable|].
  assert (H : "np1" ∈ GetObjForPod (sys_index sys_example) "ns1/web").
  { apply (H3 (web "10.0.0.1") by_ns_label); [reflexivity|reflexivity|done|].
    eexists. split; [apply list_elem_of_here|]. split; [|reflexivity].
    right. eexists _, _. split_and!; reflexivity. }
  split; [exact H|]. by apply H1.
Defined.

(** The address of an indexed pod changes. *)
Lemma pod_index_callbacks_witness :
  inverse (sys_index sys_example) ∧
  "np1" ∈ (UpdatePodNoCallback label_matches ip_hash (web "10.0.0.2") (sys_index sys_example)).1.2.
Proof.
  pose proof (inv_inverse _ _ _ _ _ (Inv_reachable _ _ _ _ _ sys_example_reachable)) as Hinv.
  split; [exact Hinv|].
  destruct (pod_index_callbacks label_matches sel_key sel_selectors ip_hash (sys_index sys_example) Hinv) as [H _].
  destruct (UpdatePodNoCallback label_matches ip_hash (web "10.0.0.2") (sys_index sys_example))
    as [[i' upd] b] eqn:E.
  apply (H (web "10.0.0.2") i' upd b); [done|exact E|]. right. split; [vm_compute; discriminate|].
  assert (Hi : i' = (UpdatePodNoCallback label_matches ip_hash (web "10.0.0.2") (sys_index sys_example)).1.1)
    by (rewrite E; reflexivity).
  rewrite Hi. apply (bool_decide_eq_true_1 _). vm_compute. reflexivity.
Defined.

(** The namespace loses its label between the read of the
    namespaces and the update, and the pod stays in the index. *)
Definition unlabelled : Stores (Obj := sel_obj) :=
  mkStores {["ns1/web" := web "10.0.0.1"]} {["ns1" := ∅]} {["np1" := by_ns_label]}.

Lemma pod_index_stale_namespaces_witness :
  inverse (sys_index sys_example) ∧
  ¬ selects label_matches sel_selectors unlabelled by_ns_label (web "10.0.0.1") ∧
  "ns1/web" ∈ GetPodForObj
    (updateSelectorObjForNs label_matches sel_key unlabelled by_ns_label
       (getObjNamespaces label_matches sel_selectors (sys_stores sys_example) by_ns_label)
       (handle_ns label_matches sel_key sel_selectors unlabelled (sys_index sys_example))).1.1 "np1".
Proof.
  pose proof (inv_inverse _ _ _ _ _ (Inv_reachable _ _ _ _ _ sys_example_reachable)) as Hinv.
  split; [exact Hinv|]. split.
  - intros (ps&Hps&Hs&_). apply list_elem_of_singleton in Hps as ->.
    destruct Hs as [Hs|(nsel&l&Hn&Hl&Hm)]; [discriminate Hs|]. injection Hn as <-.
    vm_compute in Hl. injection Hl as <-. vm_compute in Hm. discriminate Hm.
  - apply (pod_index_stale_namespaces label_matches sel_key sel_selectors ip_hash (sys_stores sys_example) unlabelled
             by_ns_label "np1" (sys_index sys_example) Hinv eq_refl eq_refl).
    + intros pk p Hp. unfold unlabelled in Hp. simpl in Hp. apply lookup_singleton_Some in Hp as [<- <-]. reflexivity.
    + intros k o' Ho. unfold unlabelled in Ho. simpl in Ho. apply lookup_singleton_Some in Ho as [<- <-].
      split; [reflexivity|]. intros ps Hps. apply list_elem_of_singleton in Hps as ->. discriminate.
    + apply (bool_decide_eq_true_1 _). vm_compute. reflexivity.
Defined.

(** The state is reachable: every notification is handled, the update of the
    object was overtaken, and the index has a pod that the object does not
    select. *)
Definition overtaken_example : sys :=
  mkSys unlabelled
    (finish_obj label_matches sel_key unlabelled by_ns_label
       (UpdateSelectorObj_read label_matches sel_selectors (sys_stores sys_example) by_ns_label)
       (handle_ns label_matches sel_key sel_selectors unlabelled (sys_index sys_example))) [] [] 0 None ({["np1"]} ∪ ∅).

Lemma overtaken_reachable :
  rtc sys_step initial overtaken_example ∧
  ¬ selects label_matches sel_selectors (sys_stores overtaken_example) by_ns_label (web "10.0.0.1") ∧
  "ns1/web" ∈ GetPodForObj (sys_index overtaken_example) "np1".
Proof.
  split; [|split].
  - etrans; [apply sys_example_reachable|]. unfold sys_example, overtaken_example.
    eapply rtc_l; [apply (step_obj_set _ _ _ _ _ _ _ _ _ _ _ by_ns_label "np1"); [done|]|].
    { intros ps Hps. apply list_elem_of_singleton in Hps as ->. done. }
    eapply rtc_l; [apply step_read_obj|].
    eapply rtc_l; [by apply (step_ns_change _ _ _ _ _ _ _ _ _ _ _ "ns1" (Some ∅))|].
    eapply rtc_l; [apply step_handle_ns|]. apply rtc_once. by apply (step_finish_obj _ _ _ _ _ _ _ _ "np1").
  - intros (ps&Hps&Hs&_). apply list_elem_of_singleton in Hps as ->.
    destruct Hs as [Hs|(nsel&l&Hn&Hl&Hm)]; [discriminate Hs|]. injection Hn as <-.
    vm_compute in Hl. injection Hl as <-. vm_compute in Hm. discriminate Hm.
  - apply (bool_decide_eq_true_1 _). vm_compute. reflexivity.
Qed.

(** A pod without an address. *)
Definition pending : Stores (Obj := sel_obj) :=
  mkStores {["ns1/web" := web EmptyString]} {["ns1" := {["team" := "red"]}]} {["np1" := by_ns_label]}.

Lemma pod_index_hashless_order_witness :
  "ns1/web" ∈ GetPodForObj (handle_obj label_matches sel_key sel_selectors pending (by_ns_label, true)
    (handle_pod label_matches ip_hash (web EmptyString, true) NewPodSelectorIndex)) "np1".
Proof.
  refine (proj1 (pod_index_hashless_order label_matches sel_key sel_selectors ip_hash pending by_ns_label "np1"
    (web EmptyString) NewPodSelectorIndex _ eq_refl _ eq_refl _ eq_refl _)).
  - apply inverse_new.
  - intros ps Hps. apply list_elem_of_singleton in Hps as ->. discriminate.
  - intros H. by apply H.
  - eexists. split; [apply list_elem_of_here|]. split; [|reflexivity].
    right. eexists _, _. split_and!; reflexivity.
Defined.
