(* ===== verification/K8s.v ===== *)
(** * K8s: the Kubernetes objects that the controller reads

    Label selectors with their conversion (the vendored apimachinery code:
    LabelSelectorAsSelector, NewRequirement and its validation, Matches),
    network policies, services and endpoints.  A pointer is an [option]; a
    slice is a list, and nil is told from empty only where the program does
    (the policy types). *)
From S2P Require Import Prelude GoText PodIndex.

Open Scope string_scope.

(** ** Label selectors *)

Record LabelSelectorRequirement := mkLsr {
  lsr_Key : string;
  lsr_Operator : string;
  lsr_Values : list string
}.

Record LabelSelector := mkLs {
  MatchLabels : gmap string string;
  MatchExpressions : list LabelSelectorRequirement
}.

#[export] Instance lsr_eq_dec : EqDecision LabelSelectorRequirement.
Proof. solve_decision. Defined.
#[export] Instance LabelSelector_eq_dec : EqDecision LabelSelector.
Proof. solve_decision. Defined.

Inductive selection_op := Op_In | Op_NotIn | Op_Exists | Op_DoesNotExist | Op_Equals.

#[export] Instance selection_op_eq_dec : EqDecision selection_op.
Proof. solve_decision. Defined.

Record Requirement := mkReq {
  r_key : string;
  r_operator : selection_op;
  r_strValues : list string
}.

#[export] Instance Requirement_eq_dec : EqDecision Requirement.
Proof. solve_decision. Defined.

Inductive Selector := Nothing | internalSelector (reqs : list Requirement).

#[export] Instance Selector_eq_dec : EqDecision Selector.
Proof. solve_decision. Defined.

Definition Everything : Selector := internalSelector [].

Definition in_chars (lo hi : nat) (c : ascii) : bool :=
  ((lo <=? nat_of_ascii c) && (nat_of_ascii c <=? hi))%nat.
Definition lower_alnum (c : ascii) : bool := in_chars 97 122 c || in_chars 48 57 c.
Definition alnum (c : ascii) : bool := lower_alnum c || in_chars 65 90 c.

(** [[C][E]*]?[C] for two classes of characters [C] and [E], [C] within [E]. *)
Fixpoint inner_chars (C E : ascii → bool) (s : string) : bool :=
  match s with
  | EmptyString => false
  | String c EmptyString => C c
  | String c s => E c && inner_chars C E s
  end.

Definition name_format (C E : ascii → bool) (s : string) : bool :=
  match s with
  | EmptyString => false
  | String c s' => C c && (String.eqb s' EmptyString || inner_chars C E s')
  end.

Definition qualifiedName (s : string) : bool :=
  name_format alnum (λ c, alnum c || Ascii.eqb c "-" || Ascii.eqb c "_" || Ascii.eqb c ".") s.

Definition IsDNS1123Subdomain (s : string) : bool :=
  (String.length s <=? 253)%nat &&
  forallb (name_format lower_alnum (λ c, lower_alnum c || Ascii.eqb c "-")) (split_on "." s).

Definition IsQualifiedName (s : string) : bool :=
  let name_ok n := (String.length n <=? 63)%nat && qualifiedName n in
  match split_on "/" s with
  | [name] => name_ok name
  | [pre; name] => IsDNS1123Subdomain pre && name_ok name
  | _ => false
  end.

Definition IsValidLabelValue (s : string) : bool :=
  (String.length s <=? 63)%nat && (String.eqb s EmptyString || qualifiedName s).

Definition NewRequirement (key : string) (op : selection_op) (vals : list string) : option Requirement :=
  let shape :=
    match op with
    | Op_In | Op_NotIn => negb (length vals =? 0)%nat
    | Op_Equals => (length vals =? 1)%nat
    | Op_Exists | Op_DoesNotExist => (length vals =? 0)%nat
    end in
  if IsQualifiedName key && shape && forallb IsValidLabelValue vals
  then Some (mkReq key op vals) else None.

Definition Requirement_Matches (r : Requirement) (ls : labels) : bool :=
  let hasValue v := bool_decide (v ∈ r_strValues r) in
  match r_operator r with
  | Op_In | Op_Equals => match ls !! r_key r with Some v => hasValue v | None => false end
  | Op_NotIn => match ls !! r_key r with Some v => negb (hasValue v) | None => true end
  | Op_Exists => bool_decide (is_Some (ls !! r_key r))
  | Op_DoesNotExist => negb (bool_decide (is_Some (ls !! r_key r)))
  end.

Definition Selector_Matches (s : Selector) (ls : labels) : bool :=
  match s with
  | Nothing => false
  | internalSelector reqs => forallb (λ r, Requirement_Matches r ls) reqs
  end.

Definition key_le (a b : Requirement) : Prop := String.le (r_key a) (r_key b).
#[export] Instance key_le_dec : RelDecision key_le.
Proof. intros a b. unfold key_le. apply _. Defined.

Definition op_of (s : string) : option selection_op :=
  if String.eqb s "In" then Some Op_In
  else if String.eqb s "NotIn" then Some Op_NotIn
  else if String.eqb s "Exists" then Some Op_Exists
  else if String.eqb s "DoesNotExist" then Some Op_DoesNotExist
  else None.

(** [None] is the error. *)
Definition LabelSelectorAsSelector (ps : option LabelSelector) : option Selector :=
  match ps with
  | None => Some Nothing
  | Some ps =>
      if bool_decide (MatchLabels ps = ∅) && bool_decide (MatchExpressions ps = []) then Some Everything
      else
        r1 ← mapM (λ kv, NewRequirement kv.1 Op_Equals [kv.2]) (map_to_list (MatchLabels ps));
        r2 ← mapM (λ e, op ← op_of (lsr_Operator e); NewRequirement (lsr_Key e) op (lsr_Values e))
               (MatchExpressions ps);
        Some (internalSelector (merge_sort key_le (r1 ++ r2)))
  end.

(** ** Network policies *)

Inductive IntOrString := IntVal (n : Z) | StrVal (s : string).

#[export] Instance IntOrString_eq_dec : EqDecision IntOrString.
Proof. solve_decision. Defined.

Definition IntOrString_String (v : IntOrString) : string :=
  match v with IntVal n => Itoa n | StrVal s => s end.

Record IPBlock := mkBlock { CIDR : string; Except : list string }.

Record NetworkPolicyPeer := mkPeer {
  PodSelector_ : option LabelSelector;
  NamespaceSelector : option LabelSelector;
  IPBlock_ : option IPBlock
}.

Record NetworkPolicyPort := mkPort {
  Protocol : option string;
  Port : option IntOrString;
  EndPort : option Z
}.

(** An ingress rule (with [From]) or an egress rule (with [To]). *)
Record NetworkPolicyRule := mkRule {
  rule_Ports : list NetworkPolicyPort;
  rule_Peers : list NetworkPolicyPeer
}.

Record NetworkPolicy := mkNp {
  np_Namespace : string;
  np_Name : string;
  np_PodSelector : LabelSelector;
  np_Ingress : list NetworkPolicyRule;
  np_Egress : list NetworkPolicyRule;
  np_PolicyTypes : option (list string)
}.

#[export] Instance IPBlock_eq_dec : EqDecision IPBlock.
Proof. solve_decision. Defined.
#[export] Instance NetworkPolicyPeer_eq_dec : EqDecision NetworkPolicyPeer.
Proof. solve_decision. Defined.
#[export] Instance NetworkPolicyPort_eq_dec : EqDecision NetworkPolicyPort.
Proof. solve_decision. Defined.
#[export] Instance NetworkPolicyRule_eq_dec : EqDecision NetworkPolicyRule.
Proof. solve_decision. Defined.

Definition ProtocolTCP : string := "TCP".
Definition ProtocolUDP : string := "UDP".
Definition ProtocolSCTP : string := "SCTP".

(** ** Services and endpoints *)

Record ServicePort := mkSvcPort {
  sp_Name : string;
  sp_Protocol : string;
  sp_Port : Z;
  sp_TargetPort : IntOrString
}.

Record Service := mkSvc {
  svc_Namespace : string;
  svc_Name : string;
  ClusterIP : string;
  svc_Ports : list ServicePort;
  svc_Ingress : list string
}.

Record EndpointPort := mkEpPort { ep_Name : string; ep_Protocol : string }.

Record EndpointSubset := mkSubset {
  Addresses : list string;
  NotReadyAddresses : list string;
  es_Ports : list EndpointPort
}.

(** An endpoint slice: its labels, its ports and the addresses of its
    endpoints. *)
Record EndpointSlice := mkSlice {
  slice_ns : string;
  slice_labels : labels;
  slice_Ports : list EndpointPort;
  slice_Endpoints : list (list string)
}.

(** k8util.LookupContainerPortNumberByName. *)
Definition LookupContainerPortNumberByName (p : Pod) (name : string) : option Z :=
  cp_ContainerPort <$> List.find (λ c, String.eqb (cp_Name c) name) (concat (pod_containers p)).

Example selector_example :
  (λ s, (Selector_Matches s {["app" := "web"; "tier" := "a"]}, Selector_Matches s {["app" := "web"; "tier" := "b"]}))
    <$> LabelSelectorAsSelector (Some (mkLs {["app" := "web"]} [mkLsr "tier" "NotIn" ["b"]])) =
  Some (true, false).
Proof. vm_compute. reflexivity. Qed.
