(* ===== verification/AciNames.v ===== *)
(** * AciNames: names for Kubernetes objects on the APIC

    src/pkg/util/aci.go, and the key that src/pkg/util/nwpolicy.go gives a
    network policy when equal policies share one host protection policy.
    Sorting is stable here, where Go's sort.Slice leaves the order of
    expressions with equal keys open. *)
From S2P Require Import Prelude GoText GoSha PodIndex K8s.

Open Scope string_scope.

Definition Hash (key : string) : string := EncodeToString (take 16 (Sum256 (string_bytes key))).

(** The name is kept where it is shorter than 64 characters; else the part
    that does not fit is replaced by a hash. *)
Definition AciNameForKey (prefix ktype key : string) : string :=
  let name := prefix ++ "_" ++ ktype ++ "_" ++ replace_char "/" "_" key in
  if (String.length name <? 64)%nat then name
  else
    let long := (31 <? String.length prefix + String.length ktype + 1)%nat in
    let pre_long := (31 <? String.length prefix)%nat in
    let hashed :=
      (if long then (if pre_long then prefix ++ "_" else EmptyString) ++ ktype ++ "_" else EmptyString) ++ key in
    let hashstr := Hash hashed in
    if pre_long then hashstr
    else (if long then prefix else prefix ++ "_" ++ ktype) ++ "_" ++ hashstr.

(** ** The key of a network policy *)

Definition sort_strs (l : list string) : list string := merge_sort String.le l.

Definition lsr_le (a b : LabelSelectorRequirement) : Prop := String.le (lsr_Key a) (lsr_Key b).
#[export] Instance lsr_le_dec : RelDecision lsr_le.
Proof. intros a b. unfold lsr_le. apply _. Defined.

Definition concat_str (l : list string) : string := foldr String.app EmptyString l.

Definition labelSelectorToStr (labelsel : option LabelSelector) : string :=
  match labelsel with
  | None => EmptyString
  | Some ls =>
      "[" ++
      concat_str (map (λ k, k ++ "_" ++ default EmptyString (MatchLabels ls !! k))
                    (sort_strs (fst <$> map_to_list (MatchLabels ls)))) ++
      concat_str (map (λ e, lsr_Key e ++ lsr_Operator e ++ concat_str (lsr_Values e))
                    (merge_sort lsr_le (MatchExpressions ls))) ++
      "]"
  end.

Definition selectorsToStr (peers : list NetworkPolicyPeer) (ns : string) : string :=
  concat_str (map (λ p,
    let podSel := labelSelectorToStr (PodSelector_ p) in
    let nsSel := labelSelectorToStr (NamespaceSelector p) in
    podSel ++ (if negb (String.eqb podSel EmptyString) && String.eqb nsSel EmptyString then ns else nsSel)) peers).

Definition peersToStr (peers : list NetworkPolicyPeer) : string :=
  TrimSuffix ("[" ++ concat_str (map (λ p,
    match IPBlock_ p with
    | Some b =>
        CIDR b ++
        (if (length (Except b) =? 0)%nat then EmptyString
         else "[except" ++ concat_str (map (λ e, "-" ++ e) (Except b)) ++ "]") ++ "+"
    | None => EmptyString
    end) peers)) "+" ++ "]".

Definition portsToStr (ports : list NetworkPolicyPort) : string :=
  TrimSuffix ("[" ++ concat_str (map (λ p,
    default EmptyString (Protocol p) ++
    match Port p with Some v => ":" ++ IntOrString_String v | None => EmptyString end ++ "+") ports)) "+" ++ "]".

Definition rulesStrSorted (rules : list NetworkPolicyRule) (ns : string) : string :=
  TrimSuffix (concat_str (map (λ s, s ++ "+")
    (sort_strs (map (λ r, selectorsToStr (rule_Peers r) ns ++ peersToStr (rule_Peers r) ++ portsToStr (rule_Ports r))
                 rules)))) "+".

Definition ingressStrSorted (np : NetworkPolicy) : string := rulesStrSorted (np_Ingress np) (np_Namespace np).
Definition egressStrSorted (np : NetworkPolicy) : string := rulesStrSorted (np_Egress np) (np_Namespace np).

Definition sortPolicyTypes (l : list string) : list string := sort_strs l.

(** The text that is hashed. *)
Definition netpol_key (np : NetworkPolicy) : string :=
  (if (0 <? length (np_Ingress np))%nat then ingressStrSorted np else EmptyString) ++
  (if (0 <? length (np_Egress np))%nat then egressStrSorted np else EmptyString) ++
  match np_PolicyTypes np with
  | Some l => concat_str (sortPolicyTypes l)
  | None => EmptyString
  end.

Definition CreateHashFromNetPol (np : NetworkPolicy) : string := Hash (netpol_key np).

(** [GetNetPolPolicyTypes] on the stored policy, [None] where it is absent. *)
Definition GetNetPolPolicyTypes (np : option NetworkPolicy) : list string :=
  match np with
  | None => []
  | Some np =>
      match np_PolicyTypes np with
      | Some (t :: l) => t :: l
      | _ => if (0 <? length (np_Egress np))%nat then ["Ingress"; "Egress"] else ["Ingress"]
      end
  end.

(** ** The length of names *)

Lemma hex_length l : String.length (EncodeToString l) = (2 * length l)%nat.
Proof. induction l as [|x l IH]; simpl; [done|]. rewrite IH. lia. Qed.

Lemma append_length a b : String.length (a ++ b) = (String.length a + String.length b)%nat.
Proof. induction a as [|c a IH]; simpl; [done|]. by rewrite <- IH. Qed.

Lemma Hash_length_le key : (String.length (Hash key) <= 32)%nat.
Proof. unfold Hash. rewrite hex_length, length_take. lia. Qed.

Lemma AciNameForKey_length prefix ktype key : (String.length (AciNameForKey prefix ktype key) <= 64)%nat.
Proof.
  unfold AciNameForKey. set (h := Hash _). assert (Hh : (String.length h <= 32)%nat) by apply Hash_length_le.
  clearbody h. bool_cases; rewrite ?append_length in *; simpl in *; lia.
Qed.
