(* ===== verification/NetPol.v ===== *)
(** * NetPol: network policies as host protection rules

    src/pkg/controller/network_policy.go, first part: the pod selectors of a
    policy, the addresses of its peers, and the rules of the subjects of a
    host protection policy.  [None] is a nil-pointer panic; an error value is
    the inner [None] of [ipBlockToSubnets].  Logging is left out. *)
From S2P Require Import Prelude GoBytes GoNet GoText IpAlloc IpRange ApicMetadata ApicTypes ApicBuild.
From S2P Require Import PodIndex K8s AciNames.

Open Scope string_scope.

(** ** Configuration *)

Record netIps := mkNetIps { V4 : IpAlloc; V6 : IpAlloc }.

Record Config := mkConfig {
  AciPolicyTenant : string;
  AciPrefix : string;
  AciVmmDomain : string;
  AciVmmDomainType : string;
  AciVmmController : string;
  LBType : string;
  ChainedMode : bool;
  HppOptimization : bool
}.

Definition aciNameForKey (cfg : Config) (ktype key : string) : string :=
  AciNameForKey (AciPrefix cfg) ktype key.

Definition vmmDomainProvider (cfg : Config) : string :=
  if String.eqb (ToLower (AciVmmDomainType cfg)) "openshift" then "OpenShift" else "Kubernetes".

Definition npkey (np : NetworkPolicy) : string := MetaNamespaceKey (np_Namespace np) (np_Name np).

(** ** Pod selectors *)

Abbreviation pod_selector := (PodSelector (Selector := Selector)).

Definition peerPodSelector (np : NetworkPolicy) (peers : list NetworkPolicyPeer) : list pod_selector :=
  flat_map (λ peer,
    match LabelSelectorAsSelector (PodSelector_ peer), LabelSelectorAsSelector (NamespaceSelector peer) with
    | Some podselector, Some nsselector =>
        match PodSelector_ peer, NamespaceSelector peer with
        | Some _, Some _ => [mkPodSelector None (Some nsselector) podselector]
        | Some _, None => [mkPodSelector (Some (np_Namespace np)) None podselector]
        | None, Some _ => [mkPodSelector None (Some nsselector) Everything]
        | None, None => []
        end
    | _, _ => []
    end) peers.

Definition egressPodSelector (np : NetworkPolicy) : list pod_selector :=
  flat_map (λ r, peerPodSelector np (rule_Peers r)) (np_Egress np).

Definition ingressPodSelector (np : NetworkPolicy) : list pod_selector :=
  flat_map (λ r, peerPodSelector np (rule_Peers r)) (np_Ingress np).

(** The selectors of [netPolPods]: the pods the policy applies to. *)
Definition netPolPodSelector (np : NetworkPolicy) : list pod_selector :=
  PodSelectorFromNsAndSelector (λ s, LabelSelectorAsSelector (Some s)) (np_Namespace np) (np_PodSelector np).

(** ** Static policies *)

(** A rule with attributes set. *)
Definition new_rule (subjDn name : string) (attrs : list (string * string)) : option ApicObject :=
  r ← NewHostprotRule subjDn name;
  Some (foldl (λ r kv, SetAttr r kv.1 (AStr kv.2)) r attrs).

(** Add a rule to a subject if the condition holds. *)
Definition add_rule (cond : bool) (name : string) (attrs : list (string * string)) (subj : ApicObject)
  : option ApicObject :=
  if cond then r ← new_rule (GetDn subj) name attrs; Some (AddChild subj r) else Some subj.

Definition static_pol (cfg : Config) (polname subjname : string) (fill : ApicObject → option ApicObject)
  : option ApicObject :=
  hpp ← NewHostprotPol (AciPolicyTenant cfg) (aciNameForKey cfg "np" polname);
  subj ← NewHostprotSubj (GetDn hpp) subjname;
  subj ← fill subj;
  Some (AddChild hpp subj).

Definition staticNetPolObjs (cfg : Config) (ips : netIps) : option ApicSlice :=
  let v4 := negb (Empty (V4 ips)) in
  let v6 := negb (Empty (V6 ips)) in
  let reflexive dir subj :=
    subj ← add_rule v6 "allow-all-reflexive-v6" [("direction", dir); ("ethertype", "ipv6")] subj;
    add_rule v4 "allow-all-reflexive" [("direction", dir); ("ethertype", "ipv4")] subj in
  let arp dir name subj :=
    add_rule true name [("direction", dir); ("ethertype", "arp"); ("connTrack", "normal")] subj in
  let icmp dir name ether proto cond subj :=
    add_rule cond name [("direction", dir); ("ethertype", ether); ("protocol", proto); ("connTrack", "normal")] subj in
  hppIngress ← static_pol cfg "static-ingress" "ingress" (reflexive "ingress");
  hppEgress ← static_pol cfg "static-egress" "egress" (reflexive "egress");
  hppDiscovery ← static_pol cfg "static-discovery" "discovery" (λ subj,
    subj ← arp "ingress" "arp-ingress" subj;
    subj ← arp "egress" "arp-egress" subj;
    subj ← icmp "ingress" "icmp-ingress" "ipv4" "icmp" v4 subj;
    subj ← icmp "ingress" "icmpv6-ingress" "ipv6" "icmpv6" v6 subj;
    subj ← icmp "egress" "icmp-egress" "ipv4" "icmp" v4 subj;
    icmp "egress" "icmpv6-egress" "ipv6" "icmpv6" v6 subj);
  Some [hppIngress; hppEgress; hppDiscovery].

(** ** Peers *)

Definition peerMatchesPod (npNs : string) (peer : NetworkPolicyPeer) (pod : Pod) (podNs : labels) : bool :=
  let ns_part :=
    match NamespaceSelector peer with
    | Some _ =>
        match LabelSelectorAsSelector (NamespaceSelector peer) with
        | Some selector => Selector_Matches selector podNs
        | None => false
        end
    | None => false
    end in
  match PodSelector_ peer with
  | Some _ =>
      if String.eqb npNs (pod_ns pod) then
        match LabelSelectorAsSelector (PodSelector_ peer) with
        | Some selector => Selector_Matches selector (pod_labels pod)
        | None => ns_part
        end
      else ns_part
  | None => ns_part
  end.

Definition ipsForPod (pod : Pod) : list string :=
  match pod_ips pod with
  | [] => if String.eqb (pod_ip pod) EmptyString then [] else [pod_ip pod]
  | ips => ips
  end.

(** The exceptions of a block are taken out one after the other. *)
Fixpoint remove_excepts (ips : IpAlloc) (excepts : list string) : option (option IpAlloc) :=
  match excepts with
  | [] => Some (Some ips)
  | e :: excepts =>
      match ParseCIDR e with
      | None => Some None
      | Some nw => '(ips, _) ← RemoveSubnet ips nw; remove_excepts ips excepts
      end
  end.

Definition ipBlockToSubnets (ipblock : IPBlock) : option (option (list string)) :=
  match ParseCIDR (CIDR ipblock) with
  | None => Some None
  | Some nw =>
      ips ← AddSubnet New nw;
      r ← remove_excepts ips (Except ipblock);
      match r with
      | None => Some None
      | Some ips =>
          nets ← mapM (λ r, Range2Cidr (Start r) (End_ r)) (FreeList ips);
          Some (Some (map IPNet_String (concat nets)))
      end
  end.

Definition parseCIDR (sub : string) : option IPNet :=
  match ParseCIDR sub with
  | Some netw => Some netw
  | None =>
      ip ← ParseIP sub;
      if bool_decide (is_Some (To4 ip)) then Some (mkNet ip (CIDRMask 32 32))
      else if bool_decide (is_Some (To16 ip)) then Some (mkNet ip (CIDRMask 128 128))
      else None
  end.

(** The addresses of the matching pods, each once, in the order of the
    pods. *)
Definition add_ip (acc : list string * gset string) (ip : string) : list string * gset string :=
  let '(subs, seen) := acc in
  if bool_decide (ip ∈ seen) then acc else ((subs ++ [ip])%list, {[ip]} ∪ seen).

Definition pod_subnets (peers : list NetworkPolicyPeer) (namespace : string)
    (peerPods : list Pod) (peerNs : gmap string labels) : list string * gset string :=
  foldl (λ acc pod,
    foldl (λ acc peer,
      match peerNs !! pod_ns pod with
      | Some ns =>
          if peerMatchesPod namespace peer pod ns then foldl add_ip acc (ipsForPod pod) else acc
      | None => acc
      end) acc peers) ([], ∅) peerPods.

(** The blocks of the peers; a block that is not valid is skipped. *)
Fixpoint block_subnets (peers : list NetworkPolicyPeer) (acc : list string * gset string)
  : option (list string * gset string) :=
  match peers with
  | [] => Some acc
  | p :: peers =>
      match IPBlock_ p with
      | None => block_subnets peers acc
      | Some b =>
          r ← ipBlockToSubnets b;
          match r with
          | None => block_subnets peers acc
          | Some subs => block_subnets peers ((acc.1 ++ subs)%list, list_to_set subs ∪ acc.2)
          end
      end
  end.

Definition getPeerRemoteSubnets (peers : list NetworkPolicyPeer) (namespace : string)
    (peerPods : list Pod) (peerNs : gmap string labels) : option (list string * gset string) :=
  match peers with
  | [] => Some ([], ∅)
  | _ =>
      '(subs, m) ← block_subnets peers (pod_subnets peers namespace peerPods peerNs);
      Some (sort_strs subs, m)
  end.

(** ** Rules *)

(** The subnet belongs to the family of the rule. *)
Definition of_ethertype (ethertype subnetStr : string) : bool :=
  match ParseCIDR subnetStr with
  | Some subnet =>
      (String.eqb ethertype "ipv4" && bool_decide (is_Some (To4 (net_IP subnet)))) ||
      (String.eqb ethertype "ipv6" && negb (bool_decide (is_Some (To4 (net_IP subnet)))))
  | None =>
      match ParseIP subnetStr with
      | Some ip =>
          (String.eqb ethertype "ipv6" && bool_decide (is_Some (To16 ip)) && negb (bool_decide (is_Some (To4 ip)))) ||
          (String.eqb ethertype "ipv4" && bool_decide (is_Some (To4 ip)))
      | None => false
      end
  end.

Fixpoint add_remotes (rule : ApicObject) (subnets : list string) : option ApicObject :=
  match subnets with
  | [] => Some rule
  | s :: subnets => c ← NewHostprotRemoteIp (GetDn rule) s; add_remotes (AddChild rule c) subnets
  end.

Definition buildNetPolSubjRule (subj : ApicObject)
    (ruleName direction ethertype proto port : string) (remoteSubnets : list string) : option ApicObject :=
  rule ← NewHostprotRule (GetDn subj) (ruleName ++ "-" ++ ethertype);
  let rule := SetAttr rule "direction" (AStr direction) in
  let rule := SetAttr rule "ethertype" (AStr ethertype) in
  let rule := if String.eqb proto EmptyString then rule else SetAttr rule "protocol" (AStr proto) in
  rule ← add_remotes rule (List.filter (of_ethertype ethertype) remoteSubnets);
  let rule := if String.eqb port EmptyString then rule else SetAttr rule "toPort" (AStr port) in
  Some (AddChild subj rule).

Definition portProto (protocol : option string) : string :=
  match protocol with
  | Some p => if String.eqb p ProtocolUDP then "udp" else if String.eqb p ProtocolSCTP then "sctp" else "tcp"
  | None => "tcp"
  end.

Definition portKey (p : option NetworkPolicyPort) : string :=
  match p with
  | Some p =>
      match Port p with
      | Some v =>
          portProto (Protocol p) ++ "-" ++ (match v with IntVal _ => "num" | StrVal _ => "name" end) ++ "-" ++
          IntOrString_String v
      | None => EmptyString
      end
  | None => EmptyString
  end.

(** ** Target ports *)

Record targetPort := mkTargetPort { tp_proto : string; tp_ports : list Z }.

Record portIndexEntry := mkPortEntry {
  pie_port : targetPort;
  serviceKeys : gset string;
  networkPolicyKeys : gset string
}.

Abbreviation port_index := (gmap string portIndexEntry).

Definition getPortNums (idx : port_index) (port : option NetworkPolicyPort) : list Z :=
  match idx !! portKey port with Some e => tp_ports (pie_port e) | None => [] end.

(** The numbers that the pods give a port name, each once. *)
Definition getPortNumsFromPortName (store : gmap string Pod) (podKeys : list string) (portName : string) : list Z :=
  foldl (λ ports podkey,
    match store !! podkey with
    | Some pod =>
        match LookupContainerPortNumberByName pod portName with
        | Some port => if bool_decide (port ∈ ports) then ports else (ports ++ [port])%list
        | None => ports
        end
    | None => ports
    end) [] podKeys.

(** What the rules of a policy are built from. *)
Record RuleEnv := mkRuleEnv {
  env_ips : netIps;
  env_portIndex : port_index;
  env_pods : gmap string Pod;
  env_npPods : list string
}.

(** The ports of a rule: [None] says that the port is skipped. *)
Definition port_list (env : RuleEnv) (direction : string) (np : NetworkPolicy) (p : NetworkPolicyPort)
  : option (list string) :=
  match Port p with
  | None => Some []
  | Some (IntVal n) => Some [Itoa n]
  | Some (StrVal name) =>
      let portnums :=
        if String.eqb direction "egress" then getPortNums (env_portIndex env) (Some p)
        else if bool_decide (np_PodSelector np = mkLs ∅ []) then []
        else getPortNumsFromPortName (env_pods env) (env_npPods env) name in
      match portnums with [] => None | _ => Some (map Itoa portnums) end
  end.

(** The rules for one port number, one per family of the cluster. *)
Definition build_family_rules (env : RuleEnv) (ruleName direction proto port : string)
    (remoteSubnets : list string) (subj : ApicObject) : option ApicObject :=
  subj ← (if Empty (V4 (env_ips env)) then Some subj
          else buildNetPolSubjRule subj ruleName direction "ipv4" proto port remoteSubnets);
  if Empty (V6 (env_ips env)) then Some subj
  else buildNetPolSubjRule subj ruleName direction "ipv6" proto port remoteSubnets.

Fixpoint build_port_rules (env : RuleEnv) (ruleName direction proto : string) (remoteSubnets : list string)
    (n : nat) (ports : list string) (subj : ApicObject) : option ApicObject :=
  match ports with
  | [] => Some subj
  | port :: ports =>
      subj ← build_family_rules env (ruleName ++ "_" ++ Itoa (Z.of_nat n)) direction proto port remoteSubnets subj;
      build_port_rules env ruleName direction proto remoteSubnets (S n) ports subj
  end.

Fixpoint build_ports (env : RuleEnv) (ruleName direction : string) (np : NetworkPolicy) (remoteSubnets : list string)
    (j : nat) (ports : list NetworkPolicyPort) (subj : ApicObject) : option ApicObject :=
  match ports with
  | [] => Some subj
  | p :: ports =>
      subj ← match port_list env direction np p with
             | Some l => build_port_rules env ruleName direction (portProto (Protocol p)) remoteSubnets j l subj
             | None => Some subj
             end;
      build_ports env ruleName direction np remoteSubnets (S j) ports subj
  end.

Definition buildNetPolSubjRules (env : RuleEnv) (ruleName : string) (subj : ApicObject) (direction : string)
    (peers : list NetworkPolicyPeer) (remoteSubnets : list string) (ports : list NetworkPolicyPort)
    (np : NetworkPolicy) : option ApicObject :=
  match peers, remoteSubnets with
  | _ :: _, [] => Some subj
  | _, _ =>
      match ports with
      | [] => build_family_rules env ruleName direction EmptyString EmptyString remoteSubnets subj
      | _ => build_ports env ruleName direction np remoteSubnets 0 ports subj
      end
  end.
