(* ===== verification/NetPolIndex.v ===== *)
(** * NetPolIndex: the indexes from addresses and ports to policies

    src/pkg/controller/network_policy.go, second part.  An index of networks
    is a ranger of the library cidranger; what the program relies on is its
    documented contract: one entry per network (networks are equal when they
    are written alike), [CoveredNetworks] gives the entries that lie within a
    network, [ContainingNetworks] those an address lies in.  The entries of
    the program are sets of keys. *)
From S2P Require Import Prelude GoBytes GoNet GoText PodIndex K8s AciNames NetPol.

Open Scope string_scope.

(** ** Networks of the ranger *)

(** The network number: four bytes where the address has that form. *)
Definition rn_number (ip : IP) : option IP :=
  match To4 ip with Some q => Some q | None => To16 ip end.

Definition rn_contains (n : IPNet) (ip : IP) : bool :=
  match rn_number ip, rn_number (net_IP n) with
  | Some nn, Some number =>
      (length (net_Mask n) =? length nn)%nat && bool_decide (zip_with Z.land nn (net_Mask n) = number)
  | _, _ => false
  end.

Definition mask_size (n : IPNet) : Z := default 0%Z (simpleMaskLength (net_Mask n)).

Definition rn_covers (n o : IPNet) : bool :=
  match rn_number (net_IP n), rn_number (net_IP o) with
  | Some a, Some b =>
      (length a =? length b)%nat && rn_contains n (net_IP o) && (mask_size n <=? mask_size o)%Z
  | _, _ => false
  end.

Record ipIndexEntry := mkIpEntry { ipNet : IPNet; keys : gset string }.

Abbreviation ip_index := (gmap string ipIndexEntry).

Definition CoveredNetworks (idx : ip_index) (n : IPNet) : list ipIndexEntry :=
  List.filter (λ e, rn_covers n (ipNet e)) (snd <$> map_to_list idx).

Definition ContainingNetworks (idx : ip_index) (ip : IP) : list ipIndexEntry :=
  List.filter (λ e, rn_contains (ipNet e) ip) (snd <$> map_to_list idx).

Definition RInsert (e : ipIndexEntry) (idx : ip_index) : ip_index := <[IPNet_String (ipNet e) := e]> idx.
Definition RRemove (n : IPNet) (idx : ip_index) : ip_index := delete (IPNet_String n) idx.

(** ** Updates of an index *)

(** IP.Equal. *)
Definition IP_Equal (a b : IP) : bool :=
  if (length a =? length b)%nat then bool_decide (a = b)
  else if (length a =? IPv4len)%nat && (length b =? IPv6len)%nat then bool_decide ((v4InV6Prefix ++ a)%list = b)
  else if (length a =? IPv6len)%nat && (length b =? IPv4len)%nat then bool_decide (a = (v4InV6Prefix ++ b)%list)
  else false.

Definition netEqual (a b : IPNet) : bool :=
  IP_Equal (net_IP a) (net_IP b) && bool_decide (net_Mask a = net_Mask b).

(** Take the key out of one entry; an entry without keys is removed. *)
Definition drop_key (key : string) (acc : ip_index * bool) (e : ipIndexEntry) : ip_index * bool :=
  let '(idx, existing) := acc in
  let keys' := keys e ∖ {[key]} in
  (if bool_decide (keys' = ∅) then RRemove (ipNet e) idx else RInsert (mkIpEntry (ipNet e) keys') idx,
   existing || bool_decide (key ∈ keys e)).

Definition updateIpIndexEntry (idx : ip_index) (subnetStr key : string) (add : bool) : ip_index * bool :=
  match parseCIDR subnetStr with
  | None => (idx, false)
  | Some cidr =>
      let entries := CoveredNetworks idx cidr in
      if add then
        match List.find (λ e, netEqual (ipNet e) cidr) entries with
        | Some e =>
            (RInsert (mkIpEntry (ipNet e) ({[key]} ∪ keys e)) idx, negb (bool_decide (key ∈ keys e)))
        | None => (RInsert (mkIpEntry cidr {[key]}) idx, true)
        end
      else foldl (drop_key key) (idx, false) entries
  end.

Definition updateIpIndex (idx : ip_index) (oldSubnets newSubnets : gset string) (key : string) : ip_index :=
  let idx := foldl (λ idx s, (updateIpIndexEntry idx s key false).1) idx (elements (oldSubnets ∖ newSubnets)) in
  foldl (λ idx s, (updateIpIndexEntry idx s key true).1) idx (elements (newSubnets ∖ oldSubnets)).

(** ** Target ports *)

Definition drop_port (service : bool) (key : string) (idx : port_index) (portkey : string) : port_index :=
  match idx !! portkey with
  | None => idx
  | Some e =>
      let e' := if service then mkPortEntry (pie_port e) (serviceKeys e ∖ {[key]}) (networkPolicyKeys e)
                else mkPortEntry (pie_port e) (serviceKeys e) (networkPolicyKeys e ∖ {[key]}) in
      if bool_decide (serviceKeys e' = ∅) && bool_decide (networkPolicyKeys e' = ∅)
      then delete portkey idx else <[portkey := e']> idx
  end.

Definition add_port (service : bool) (key : string) (idx : port_index) (kp : string * targetPort) : port_index :=
  let '(portkey, port) := kp in
  let e := match idx !! portkey with
           | None => mkPortEntry port ∅ ∅
           | Some e => mkPortEntry (mkTargetPort (tp_proto (pie_port e)) (tp_ports port)) (serviceKeys e)
                         (networkPolicyKeys e)
           end in
  <[portkey := if service then mkPortEntry (pie_port e) ({[key]} ∪ serviceKeys e) (networkPolicyKeys e)
               else mkPortEntry (pie_port e) (serviceKeys e) ({[key]} ∪ networkPolicyKeys e)]> idx.

Definition updateTargetPortIndex (service : bool) (key : string) (oldPorts newPorts : gmap string targetPort)
    (idx : port_index) : port_index :=
  let idx := foldl (drop_port service key) idx (fst <$> map_to_list (oldPorts ∖ newPorts)) in
  foldl (add_port service key) idx (map_to_list (newPorts ∖ oldPorts)).

(** ** The addresses and ports of policies and services *)

Definition getNetworkPolicyEgressIpBlocks (np : NetworkPolicy) : gset string :=
  list_to_set (flat_map (λ r, flat_map (λ to,
    match IPBlock_ to with
    | Some b => if String.eqb (CIDR b) EmptyString then [] else [CIDR b]
    | None => []
    end) (rule_Peers r)) (np_Egress np)).

(** [p.Port.Type] panics where a port has no number and no name. *)
Fixpoint named_port_in (ports : list NetworkPolicyPort) : option bool :=
  match ports with
  | [] => Some false
  | p :: ports =>
      match Port p with
      | None => None
      | Some (StrVal _) => Some true
      | Some (IntVal _) => named_port_in ports
      end
  end.

Definition isNamedPortPresenInNp (np : NetworkPolicy) : option bool :=
  named_port_in (flat_map rule_Ports (np_Egress np)).

(** Port names of containers: from a name to "protocol-number" to pods. *)
Abbreviation port_names := (gmap string (gmap string (gset string))).

(** The numbers of a port name that the cache has for a protocol. *)
Definition cached_ports (cache : port_names) (proto name : string) : list Z :=
  match cache !! name with
  | None => []
  | Some entry =>
      flat_map (λ kv : string * gset string,
        match split_on "-" kv.1 with
        | [p; n] => if String.eqb p proto then [default 0%Z (Atoi n)] else []
        | _ => []
        end) (map_to_list entry)
  end.

Section TargetPorts.
Context (store : gmap string Pod) (cache : port_names) (egressPods : list string).

(** The target port of one port of an egress rule. *)
Definition target_port (hasTo : bool) (p : NetworkPolicyPort) : option (string * targetPort) :=
  v ← Port p;
  let proto := default ProtocolTCP (Protocol p) in
  match v with
  | IntVal n => Some (portProto (Some proto) ++ "-num-" ++ Itoa n, mkTargetPort proto [n])
  | StrVal name =>
      let portnums := if (hasTo : bool) then getPortNumsFromPortName store egressPods name
                      else cached_ports cache (portProto (Some proto)) name in
      match portnums with
      | [] => None
      | _ => Some (portProto (Some proto) ++ "-name-" ++ name, mkTargetPort proto portnums)
      end
  end.

Definition add_target (hasTo : bool) (ports : gmap string targetPort) (p : NetworkPolicyPort)
  : gmap string targetPort :=
  match target_port hasTo p with
  | Some (k, t) => <[k := t]> ports
  | None => ports
  end.

Fixpoint target_ports (np : NetworkPolicy) (rules : list NetworkPolicyRule) (ports : gmap string targetPort)
  : option (gmap string targetPort) :=
  match rules with
  | [] => Some ports
  | r :: rules =>
      let hasTo := negb (length (rule_Peers r) =? 0)%nat in
      named ← (if hasTo then isNamedPortPresenInNp np else Some true);
      target_ports np rules
        (if hasTo && negb named then ports else foldl (add_target hasTo) ports (rule_Ports r))
  end.

Definition getNetPolTargetPorts (np : NetworkPolicy) : option (gmap string targetPort) :=
  target_ports np (np_Egress np) ∅.
End TargetPorts.

(** IntOrString.IntValue. *)
Definition IntValue (v : IntOrString) : Z :=
  match v with IntVal n => n | StrVal s => default 0%Z (Atoi s) end.

Definition getServiceTargetPorts (service : Service) : gmap string targetPort :=
  foldl (λ ports port,
    let n := IntValue (sp_TargetPort port) in
    let portNum := if (n <=? 0)%Z then sp_Port port else n in
    <[portProto (Some (sp_Protocol port)) ++ "-num-" ++ Itoa portNum :=
      mkTargetPort (sp_Protocol port) [portNum]]> ports) ∅ (svc_Ports service).

(** ** Which policies to queue *)

Definition queueIPNetPolUpdates (idx : ip_index) (ips : gset string) : gset string :=
  list_to_set (flat_map (λ s,
    match ParseIP s with
    | Some ip => flat_map (λ e, elements (keys e)) (ContainingNetworks idx ip)
    | None => []
    end) (elements ips)).

Definition queuePortNetPolUpdates (idx : port_index) (ports : gmap string targetPort) : gset string :=
  list_to_set (flat_map (λ k,
    match idx !! k with Some e => elements (networkPolicyKeys e) | None => [] end) (map fst (map_to_list ports))).
