(* ===== verification/NetPolAugment.v ===== *)
(** * NetPolAugment: egress rules for service addresses

    src/pkg/controller/network_policy.go, third part: an egress rule whose
    addresses cover all endpoints of a service also allows the addresses of
    the service.  The subnets of an egress rule are one Go map that every port
    of the rule shares, so the maps are kept in a heap and the entries of
    [portRemoteSubs] hold references. *)
From S2P Require Import Prelude GoBytes GoNet GoText ApicTypes PodIndex K8s AciNames NetPol NetPolIndex.

Open Scope string_scope.

(** ** Subnets per port *)

Abbreviation heap := (gmap nat (gset string)).

Record portRemoteSubnet := mkPrs {
  prs_port : option NetworkPolicyPort;
  subnetMap : nat;
  hasNamedTarget : bool
}.

Abbreviation port_subs := (gmap string portRemoteSubnet).

Definition subnets_of (h : heap) (ref : nat) : gset string := default ∅ (h !! ref).

Definition updatePortRemoteSubnets (st : heap * port_subs) (portkey : string) (port : option NetworkPolicyPort)
    (ref : nat) (named : bool) : heap * port_subs :=
  let '(h, subs) := st in
  match subs !! portkey with
  | Some prs =>
      (<[subnetMap prs := subnets_of h ref ∪ subnets_of h (subnetMap prs)]> h,
       <[portkey := mkPrs (prs_port prs) (subnetMap prs) (named || hasNamedTarget prs)]> subs)
  | None => (h, <[portkey := mkPrs port ref named]> subs)
  end.

(** ** Augments *)

Record portServiceAugment := mkAugment {
  psa_proto : string;
  psa_port : string;
  ipMap : gset string
}.

Abbreviation augments := (gmap string portServiceAugment).

Definition portServiceAugmentKey (proto port : string) : string := proto ++ "-" ++ port.

Definition updateServiceAugment (proto port : string) (a : augments) (ip : string) : augments :=
  let key := portServiceAugmentKey proto port in
  match a !! key with
  | Some psa => <[key := mkAugment (psa_proto psa) (psa_port psa) ({[ip]} ∪ ipMap psa)]> a
  | None => <[key := mkAugment proto port {[ip]}]> a
  end.

(** The addresses of a service. *)
Definition service_ips (service : Service) : list string :=
  (if String.eqb (ClusterIP service) EmptyString then [] else [ClusterIP service]) ++
  List.filter (λ ip, negb (String.eqb ip EmptyString)) (svc_Ingress service).

Definition updateServiceAugmentForService (a : augments) (proto port : string) (service : Service) : augments :=
  foldl (updateServiceAugment proto port) a (service_ips service).

(** ** By subnet *)

(** The ranger of the subnets of an entry. *)
Definition subnet_ranger (subs : gset string) : list IPNet := omap parseCIDR (elements subs).

Definition ranger_contains (r : list IPNet) (ip : IP) : bool := existsb (λ n, rn_contains n ip) r.

Definition checkEndpoints (r : list IPNet) (addresses : list string) : bool :=
  forallb (λ a, match ParseIP a with Some ip => ranger_contains r ip | None => false end) addresses.

(** The rule selects the port of the service; reading the protocol of a port
    that has none is a panic. *)
Definition port_selects (port : option NetworkPolicyPort) (portstrings : list string) (sp : ServicePort)
  : option bool :=
  match port with
  | None => Some true
  | Some p =>
      proto ← Protocol p;
      Some (String.eqb (sp_Protocol sp) proto && bool_decide (IntOrString_String (sp_TargetPort sp) ∈ portstrings))
  end.

Definition find_ep_port (service : Service) (sp : ServicePort) (ports : list EndpointPort) : option EndpointPort :=
  List.find (λ p, String.eqb (ep_Name p) (sp_Name sp) ||
                  ((length (svc_Ports service) =? 1)%nat && String.eqb (ep_Name p) EmptyString)) ports.

(** What the controller knows of the endpoints of services: Endpoints objects
    by key, or endpoint slices. *)
Inductive EndpointSource :=
  | FromEndpoints (eps : gmap string (list EndpointSubset))
  | FromSlices (slices : gmap string EndpointSlice).

Section BySubnet.
Context (service : Service) (port : option NetworkPolicyPort) (portstrings : list string) (r : list IPNet).

Definition augment_subset (sp : ServicePort) (a : augments) (subset : EndpointSubset) : augments :=
  match find_ep_port service sp (es_Ports subset) with
  | None => a
  | Some found =>
      if checkEndpoints r (Addresses subset) && checkEndpoints r (NotReadyAddresses subset)
      then updateServiceAugmentForService a (portProto (Some (ep_Protocol found))) (Itoa (sp_Port sp)) service
      else a
  end.

Fixpoint augment_endpoints (subsets : list EndpointSubset) (sps : list ServicePort) (a : augments)
  : option augments :=
  match sps with
  | [] => Some a
  | sp :: sps =>
      sel ← port_selects port portstrings sp;
      augment_endpoints subsets sps (if (sel : bool) then foldl (augment_subset sp) a subsets else a)
  end.

(** A port that the slice lacks ends the work on the slice. *)
Fixpoint augment_slice (slice : EndpointSlice) (sps : list ServicePort) (a : augments) : option augments :=
  match sps with
  | [] => Some a
  | sp :: sps =>
      sel ← port_selects port portstrings sp;
      if (sel : bool) then
        match find_ep_port service sp (slice_Ports slice) with
        | None => Some a
        | Some found =>
            augment_slice slice sps
              (if forallb (checkEndpoints r) (slice_Endpoints slice)
               then updateServiceAugmentForService a (portProto (Some (ep_Protocol found))) (Itoa (sp_Port sp)) service
               else a)
        end
      else augment_slice slice sps a
  end.

Fixpoint augment_slices (slices : list EndpointSlice) (a : augments) : option augments :=
  match slices with
  | [] => Some a
  | s :: slices => a ← augment_slice s (svc_Ports service) a; augment_slices slices a
  end.
End BySubnet.

(** The slices of a service. *)
Definition service_slices (slices : gmap string EndpointSlice) (service : Service) : list EndpointSlice :=
  List.filter (λ s, String.eqb (slice_ns s) (svc_Namespace service) &&
                    bool_decide (slice_labels s !! "kubernetes.io/service-name" = Some (svc_Name service)))
    (snd <$> map_to_list slices).

Definition SetNpServiceAugmentForService (src : EndpointSource) (pidx : port_index) (servicekey : string)
    (service : Service) (port : option NetworkPolicyPort) (r : list IPNet) (a : augments) : option augments :=
  let portstrings := map Itoa (getPortNums pidx port) in
  match src with
  | FromEndpoints eps =>
      match eps !! servicekey with
      | None => Some a
      | Some subsets => augment_endpoints service port portstrings r subsets (svc_Ports service) a
      end
  | FromSlices slices => augment_slices service port portstrings r (service_slices slices service) a
  end.

(** What the augments are computed from. *)
Record AugmentEnv := mkAugEnv {
  ae_services : gmap string Service;
  ae_source : EndpointSource;
  ae_endpointsIpIndex : ip_index;
  ae_portIndex : port_index
}.

Definition matched_services (idx : ip_index) (r : list IPNet) : gset string :=
  ⋃ (flat_map (λ n, keys <$> CoveredNetworks idx n) r).

Fixpoint augment_services (env : AugmentEnv) (port : option NetworkPolicyPort) (r : list IPNet)
    (servicekeys : list string) (a : augments) : option augments :=
  match servicekeys with
  | [] => Some a
  | k :: servicekeys =>
      a ← match ae_services env !! k with
          | None => Some a
          | Some service => SetNpServiceAugmentForService (ae_source env) (ae_portIndex env) k service port r a
          end;
      augment_services env port r servicekeys a
  end.

Definition getServiceAugmentBySubnet (env : AugmentEnv) (port : option NetworkPolicyPort) (subs : gset string)
    (a : augments) : option augments :=
  let r := subnet_ranger subs in
  augment_services env port r (elements (matched_services (ae_endpointsIpIndex env) r)) a.

(** ** By port *)

(** The entries of the port index for the number or the name of a port. *)
Definition port_entries (pidx : port_index) (p : NetworkPolicyPort) (v : IntOrString)
  : gmap string portIndexEntry :=
  match pidx !! portKey (Some p) with
  | None => ∅
  | Some entry =>
      match v with
      | StrVal _ =>
          foldl (λ m n,
            match pidx !! (portProto (Protocol p) ++ "-" ++ "num" ++ "-" ++ Itoa n) with
            | Some e => <[Itoa n := e]> m
            | None => m
            end) ∅ (tp_ports (pie_port entry))
      | IntVal _ =>
          match tp_ports (pie_port entry) with
          | n :: _ => {[Itoa n := entry]}
          | [] => ∅
          end
      end
  end.

Fixpoint augment_ports (p : NetworkPolicyPort) (key : string) (service : Service) (sps : list ServicePort)
    (a : augments) : option augments :=
  match sps with
  | [] => Some a
  | sp :: sps =>
      proto ← Protocol p;
      augment_ports p key service sps
        (if String.eqb (sp_Protocol sp) proto && String.eqb (IntOrString_String (sp_TargetPort sp)) key
         then updateServiceAugmentForService a (portProto (Some (sp_Protocol sp))) (Itoa (sp_Port sp)) service
         else a)
  end.

Fixpoint augment_entries (services : gmap string Service) (p : NetworkPolicyPort)
    (work : list (string * string)) (a : augments) : option augments :=
  match work with
  | [] => Some a
  | (key, k) :: work =>
      a ← match services !! k with
          | None => Some a
          | Some service => augment_ports p key service (svc_Ports service) a
          end;
      augment_entries services p work a
  end.

Definition getServiceAugmentByPort (env : AugmentEnv) (port : option NetworkPolicyPort) (a : augments)
  : option augments :=
  match port with
  | None => Some a
  | Some p =>
      match Port p with
      | None => Some a
      | Some v =>
          augment_entries (ae_services env) p
            (flat_map (λ ke : string * portIndexEntry, map (pair ke.1) (elements (serviceKeys ke.2)))
               (map_to_list (port_entries (ae_portIndex env) p v))) a
      end
  end.

(** ** The rules *)

Fixpoint collect_augments (env : AugmentEnv) (h : heap) (prss : list portRemoteSubnet) (a : augments)
  : option augments :=
  match prss with
  | [] => Some a
  | prs :: prss =>
      a ← (if bool_decide ("0.0.0.0/0" ∈ subnets_of h (subnetMap prs))
           then getServiceAugmentByPort env (prs_port prs) a
           else getServiceAugmentBySubnet env (prs_port prs) (subnets_of h (subnetMap prs)) a);
      collect_augments env h prss a
  end.

Definition is_v4 (s : string) : bool :=
  match ParseIP s with Some ip => bool_decide (is_Some (To4 ip)) | None => false end.
Definition is_v6 (s : string) : bool :=
  match ParseIP s with
  | Some ip => negb (bool_decide (is_Some (To4 ip))) && bool_decide (is_Some (To16 ip))
  | None => false
  end.

Definition augment_rule (ethertype : string) (family : string → bool) (subj : ApicObject) (psa : portServiceAugment)
  : option ApicObject :=
  match List.filter family (elements (ipMap psa)) with
  | [] => Some subj
  | ips => buildNetPolSubjRule subj ("service_" ++ psa_proto psa ++ "_" ++ psa_port psa) "egress" ethertype
             (psa_proto psa) (psa_port psa) ips
  end.

Fixpoint augment_rules (subj : ApicObject) (l : list portServiceAugment) : option ApicObject :=
  match l with
  | [] => Some subj
  | psa :: l =>
      subj ← augment_rule "ipv4" is_v4 subj psa;
      subj ← augment_rule "ipv6" is_v6 subj psa;
      augment_rules subj l
  end.

Definition buildServiceAugment (env : AugmentEnv) (h : heap) (subs : port_subs) (subj : ApicObject)
  : option ApicObject :=
  a ← collect_augments env h (snd <$> map_to_list subs) ∅;
  augment_rules subj (snd <$> map_to_list a).
