(* ===== verification/NetPolCtl.v ===== *)
(** * NetPolCtl: the network policy controller

    src/pkg/controller/network_policy.go, last part: from a policy to its host
    protection policy on the APIC, the cache of shared policies, and the
    handlers of the informer.  The state is the part of [AciController] that
    they use.  What a handler asks of the APIC connection and of the work
    queues is recorded in order in [effects]; [apply_effect] runs the requests
    on a connection of ApicSync.  The handlers hold the mutex of the
    controller around the parts that change its tables and are modelled as
    one step. *)
From S2P Require Import Prelude GoText ApicMetadata ApicTypes ApicBuild ApicState ApicSync PodIndex K8s AciNames.
From S2P Require Import NetPol NetPolIndex NetPolAugment.

Open Scope string_scope.

Abbreviation np_stores := (Stores (Obj := NetworkPolicy)).
Abbreviation np_index := (PodSelectorIndex (Selector := Selector)).

Record hppReference := mkHppRef {
  RefCount : nat;
  Npkeys : list string;
  HppObj : ApicSlice
}.

Inductive effect :=
  | WriteObjects (key : string) (objs : ApicSlice)
  | ClearObjects (key : string)
  | QueueNetPol (key : string)
  | QueuePod (key : string).

Definition apply_effect (e : effect) : M unit :=
  match e with
  | WriteObjects key objs => WriteApicObjects key (Some objs)
  | ClearObjects key => ClearApicObjects key
  | _ => mret tt
  end.

(** The informers' stores. *)
Record Informers := mkInformers {
  inf_stores : np_stores;
  inf_services : gmap string Service;
  inf_source : EndpointSource
}.

Record NpState := mkNpState {
  netPolPods : np_index;
  netPolIngressPods : np_index;
  netPolEgressPods : np_index;
  netPolSubnetIndex : ip_index;
  endpointsIpIndex : ip_index;
  targetPortIndex : port_index;
  nmPortNp : gset string;
  ctrPortNameCache : port_names;
  hppRef : gmap string hppReference;
  effects : list effect
}.

Definition set_pods (f : np_index → np_index) (s : NpState) : NpState :=
  mkNpState (f (netPolPods s)) (netPolIngressPods s) (netPolEgressPods s) (netPolSubnetIndex s) (endpointsIpIndex s)
    (targetPortIndex s) (nmPortNp s) (ctrPortNameCache s) (hppRef s) (effects s).
Definition set_ingress (f : np_index → np_index) (s : NpState) : NpState :=
  mkNpState (netPolPods s) (f (netPolIngressPods s)) (netPolEgressPods s) (netPolSubnetIndex s) (endpointsIpIndex s)
    (targetPortIndex s) (nmPortNp s) (ctrPortNameCache s) (hppRef s) (effects s).
Definition set_egress (f : np_index → np_index) (s : NpState) : NpState :=
  mkNpState (netPolPods s) (netPolIngressPods s) (f (netPolEgressPods s)) (netPolSubnetIndex s) (endpointsIpIndex s)
    (targetPortIndex s) (nmPortNp s) (ctrPortNameCache s) (hppRef s) (effects s).
Definition set_subnets (f : ip_index → ip_index) (s : NpState) : NpState :=
  mkNpState (netPolPods s) (netPolIngressPods s) (netPolEgressPods s) (f (netPolSubnetIndex s)) (endpointsIpIndex s)
    (targetPortIndex s) (nmPortNp s) (ctrPortNameCache s) (hppRef s) (effects s).
Definition set_ports (f : port_index → port_index) (s : NpState) : NpState :=
  mkNpState (netPolPods s) (netPolIngressPods s) (netPolEgressPods s) (netPolSubnetIndex s) (endpointsIpIndex s)
    (f (targetPortIndex s)) (nmPortNp s) (ctrPortNameCache s) (hppRef s) (effects s).
Definition set_named (f : gset string → gset string) (s : NpState) : NpState :=
  mkNpState (netPolPods s) (netPolIngressPods s) (netPolEgressPods s) (netPolSubnetIndex s) (endpointsIpIndex s)
    (targetPortIndex s) (f (nmPortNp s)) (ctrPortNameCache s) (hppRef s) (effects s).
Definition set_names (f : port_names → port_names) (s : NpState) : NpState :=
  mkNpState (netPolPods s) (netPolIngressPods s) (netPolEgressPods s) (netPolSubnetIndex s) (endpointsIpIndex s)
    (targetPortIndex s) (nmPortNp s) (f (ctrPortNameCache s)) (hppRef s) (effects s).
Definition set_hpp (f : gmap string hppReference → gmap string hppReference) (s : NpState) : NpState :=
  mkNpState (netPolPods s) (netPolIngressPods s) (netPolEgressPods s) (netPolSubnetIndex s) (endpointsIpIndex s)
    (targetPortIndex s) (nmPortNp s) (ctrPortNameCache s) (f (hppRef s)) (effects s).
Definition emit (l : list effect) (s : NpState) : NpState :=
  mkNpState (netPolPods s) (netPolIngressPods s) (netPolEgressPods s) (netPolSubnetIndex s) (endpointsIpIndex s)
    (targetPortIndex s) (nmPortNp s) (ctrPortNameCache s) (hppRef s) (effects s ++ l).

Definition initial_np : NpState :=
  mkNpState NewPodSelectorIndex NewPodSelectorIndex NewPodSelectorIndex ∅ ∅ ∅ ∅ ∅ ∅ [].

(** The hash of the peer indexes: the address of a pod. *)
Definition nphash (p : Pod) : string := pod_ip p.

(** ** Shared host protection policies *)

Definition addToHppCache (labelKey key : string) (hpp : ApicSlice) (refs : gmap string hppReference)
  : gmap string hppReference :=
  match refs !! labelKey with
  | Some r =>
      <[labelKey :=
        if bool_decide (key ∈ Npkeys r) then mkHppRef (RefCount r) (Npkeys r) hpp
        else mkHppRef (S (RefCount r)) (Npkeys r ++ [key])%list hpp]> refs
  | None => <[labelKey := mkHppRef 1 [key] hpp]> refs
  end.

(** The first occurrence of the key is taken out. *)
Fixpoint remove_first_key (key : string) (l : list string) : list string :=
  match l with
  | [] => []
  | k :: l => if String.eqb k key then l else k :: remove_first_key key l
  end.

(** The cache and the result: the name, and whether nothing refers to it any
    more.  [RefCount] is unsigned; it is only decremented where the key is in
    the list. *)
Definition removeFromHppCache (cfg : Config) (np : NetworkPolicy) (key : string)
    (refs : gmap string hppReference) : gmap string hppReference * (string * bool) :=
  let labelKey := aciNameForKey cfg "np" (CreateHashFromNetPol np) in
  match refs !! labelKey with
  | Some r =>
      let r' := if bool_decide (key ∈ Npkeys r)
                then mkHppRef (RefCount r - 1) (remove_first_key key (Npkeys r)) (HppObj r) else r in
      if (0 <? RefCount r')%nat then (<[labelKey := r']> refs, (labelKey, false))
      else (delete labelKey refs, (labelKey, true))
  | None => (refs, (labelKey, false))
  end.

(** ** From a policy to its objects *)

(** The pods of the peers that are stored, with their stored namespaces. *)
Fixpoint peer_pods (st : np_stores) (podkeys : list string) (pods_ : list Pod) (nss : gmap string labels)
  : list Pod * gmap string labels :=
  match podkeys with
  | [] => (pods_, nss)
  | k :: podkeys =>
      match pods st !! k with
      | None => peer_pods st podkeys pods_ nss
      | Some pod =>
          match nss !! pod_ns pod with
          | Some _ => peer_pods st podkeys (pods_ ++ [pod])%list nss
          | None =>
              match namespaces st !! pod_ns pod with
              | None => peer_pods st podkeys pods_ nss
              | Some l => peer_pods st podkeys (pods_ ++ [pod])%list (<[pod_ns pod := l]> nss)
              end
          end
      end
  end.

Fixpoint ingress_rules (env : RuleEnv) (np : NetworkPolicy) (peerPods : list Pod) (peerNs : gmap string labels)
    (i : nat) (rules : list NetworkPolicyRule) (subj : ApicObject) : option ApicObject :=
  match rules with
  | [] => Some subj
  | r :: rules =>
      '(remoteSubnets, _) ← getPeerRemoteSubnets (rule_Peers r) (np_Namespace np) peerPods peerNs;
      subj ← buildNetPolSubjRules env (Itoa (Z.of_nat i)) subj "ingress" (rule_Peers r) remoteSubnets (rule_Ports r) np;
      ingress_rules env np peerPods peerNs (S i) rules subj
  end.

(** The subnets of an egress rule are recorded for its ports; the map of the
    i-th rule is reference [i]. *)
Definition record_ports (i : nat) (ports : list NetworkPolicyPort) (st : heap * port_subs) : heap * port_subs :=
  match ports with
  | [] => updatePortRemoteSubnets st EmptyString None i false
  | _ =>
      foldl (λ st p, updatePortRemoteSubnets st (portKey (Some p)) (Some p) i
                       (match Port p with Some (IntVal _) => true | _ => false end)) st ports
  end.

Fixpoint egress_rules (env : RuleEnv) (np : NetworkPolicy) (peerPods : list Pod) (peerNs : gmap string labels)
    (i : nat) (rules : list NetworkPolicyRule) (subj : ApicObject) (st : heap * port_subs)
  : option (ApicObject * (heap * port_subs)) :=
  match rules with
  | [] => Some (subj, st)
  | r :: rules =>
      '(remoteSubnets, subs) ← getPeerRemoteSubnets (rule_Peers r) (np_Namespace np) peerPods peerNs;
      subj ← buildNetPolSubjRules env (Itoa (Z.of_nat i)) subj "egress" (rule_Peers r) remoteSubnets (rule_Ports r) np;
      let subs := match rule_Peers r with [] => {["0.0.0.0/0"]} | _ => subs end in
      let '(h, ps) := st in
      egress_rules env np peerPods peerNs (S i) rules subj (record_ports i (rule_Ports r) (<[i := subs]> h, ps))
  end.

Definition has_type (np : NetworkPolicy) (t : string) : bool :=
  match np_PolicyTypes np with None => true | Some l => bool_decide (t ∈ l) end.

Section Handlers.
Context (cfg : Config) (ips : netIps) (inf : Informers).

Definition rule_env (s : NpState) (key : string) : RuleEnv :=
  mkRuleEnv ips (targetPortIndex s) (pods (inf_stores inf)) (elements (GetPodForObj (netPolPods s) key)).

Definition augment_env (s : NpState) : AugmentEnv :=
  mkAugEnv (inf_services inf) (inf_source inf) (endpointsIpIndex s) (targetPortIndex s).

Definition label_key (np : NetworkPolicy) : string :=
  if HppOptimization cfg then aciNameForKey cfg "np" (CreateHashFromNetPol np) else aciNameForKey cfg "np" (npkey np).

Definition ingress_subject (s : NpState) (np : NetworkPolicy) (peerPods : list Pod) (peerNs : gmap string labels)
    (hpp : ApicObject) : option ApicObject :=
  if has_type np "Ingress" then
    subj ← NewHostprotSubj (GetDn hpp) "networkpolicy-ingress";
    subj ← ingress_rules (rule_env s (npkey np)) np peerPods peerNs 0 (np_Ingress np) subj;
    Some (AddChild hpp subj)
  else Some hpp.

Definition egress_subject (s : NpState) (np : NetworkPolicy) (peerPods : list Pod) (peerNs : gmap string labels)
    (hpp : ApicObject) : option ApicObject :=
  if has_type np "Egress" then
    subj ← NewHostprotSubj (GetDn hpp) "networkpolicy-egress";
    '(subj, (h, ps)) ← egress_rules (rule_env s (npkey np)) np peerPods peerNs 0 (np_Egress np) subj (∅, ∅);
    subj ← buildServiceAugment (augment_env s) h ps subj;
    Some (AddChild hpp subj)
  else Some hpp.

Definition handleNetPolUpdate (np : NetworkPolicy) (s : NpState) : option NpState :=
  if ChainedMode cfg then Some s
  else
    let key := npkey np in
    let podkeys := (elements (GetPodForObj (netPolIngressPods s) key) ++
                    elements (GetPodForObj (netPolEgressPods s) key))%list in
    let '(peerPods, peerNs) := peer_pods (inf_stores inf) podkeys [] ∅ in
    let labelKey := label_key np in
    hpp ← NewHostprotPol (AciPolicyTenant cfg) labelKey;
    hpp ← ingress_subject s np peerPods peerNs hpp;
    hpp ← egress_subject s np peerPods peerNs hpp;
    let s := if HppOptimization cfg then set_hpp (addToHppCache labelKey key [hpp]) s else s in
    Some (emit [WriteObjects labelKey [hpp]] s).

(** ** Handlers of the informer *)

Definition rules_to_str (rules : list NetworkPolicyRule) : string :=
  TrimSuffix (concat_str (map (λ r, peersToStr (rule_Peers r) ++ ":" ++ portsToStr (rule_Ports r) ++ "+") rules)) "+".
Definition ingressStr (np : NetworkPolicy) : string := rules_to_str (np_Ingress np).
Definition egressStr (np : NetworkPolicy) : string := rules_to_str (np_Egress np).

Definition lbTypeAci : string := "aci-nlb".

Definition set_nonempty (name value : string) (o : ApicObject) : ApicObject :=
  if String.eqb value EmptyString then o else SetAttr o name (AStr value).

Definition writeApicNP (key : string) (np : NetworkPolicy) (s : NpState) : option NpState :=
  if String.eqb (LBType cfg) lbTypeAci || ChainedMode cfg then Some s
  else
    npObj ← NewVmmInjectedNwPol (vmmDomainProvider cfg) (AciVmmDomain cfg) (AciVmmController cfg)
              (np_Namespace np) (np_Name np);
    let npObj := set_nonempty "egress" (egressStr np) (set_nonempty "ingress" (ingressStr np) npObj) in
    Some (emit [WriteObjects (aciNameForKey cfg "NwPol" key) [npObj]] s).

(** The index operations with the callbacks that the controller registers:
    pods whose policies changed are queued if they are stored; policies whose
    peers changed likewise. *)
Definition queue_pods (updated : gset string) (s : NpState) : NpState :=
  emit (QueuePod <$> List.filter (λ k, bool_decide (is_Some (pods (inf_stores inf) !! k))) (elements updated)) s.

Definition queue_nps (updated : gset string) (s : NpState) : NpState :=
  emit (QueueNetPol <$> List.filter (λ k, bool_decide (is_Some (objs (inf_stores inf) !! k))) (elements updated)) s.

Definition np_getKey (np : NetworkPolicy) : option string := Some (npkey np).

Definition update_netPolPods (np : NetworkPolicy) (s : NpState) : NpState :=
  let '(i, updPods, _) :=
    UpdateSelectorObj Selector_Matches np_getKey netPolPodSelector (inf_stores inf) np (netPolPods s) in
  queue_pods updPods (set_pods (λ _, i) s).

Definition update_ingressPods (callback : bool) (np : NetworkPolicy) (s : NpState) : NpState :=
  let '(i, _, updObjs) :=
    UpdateSelectorObj Selector_Matches np_getKey ingressPodSelector (inf_stores inf) np (netPolIngressPods s) in
  queue_nps (if callback then updObjs else ∅) (set_ingress (λ _, i) s).

Definition update_egressPods (callback : bool) (np : NetworkPolicy) (s : NpState) : NpState :=
  let '(i, _, updObjs) :=
    UpdateSelectorObj Selector_Matches np_getKey egressPodSelector (inf_stores inf) np (netPolEgressPods s) in
  queue_nps (if callback then updObjs else ∅) (set_egress (λ _, i) s).

Definition targets (s : NpState) (np : NetworkPolicy) : option (gmap string targetPort) :=
  getNetPolTargetPorts (pods (inf_stores inf)) (ctrPortNameCache s)
    (elements (GetPodForObj (netPolEgressPods s) (npkey np))) np.

Definition networkPolicyAdded (np : NetworkPolicy) (s : NpState) : option NpState :=
  let key := npkey np in
  s ← writeApicNP key np s;
  if ChainedMode cfg then Some s
  else
    let s := update_egressPods true np (update_ingressPods true np (update_netPolPods np s)) in
    let s := set_subnets (λ idx, updateIpIndex idx ∅ (getNetworkPolicyEgressIpBlocks np) key) s in
    ports ← targets s np;
    let s := set_ports (updateTargetPortIndex false key ∅ ports) s in
    named ← isNamedPortPresenInNp np;
    let s := if (named : bool) then set_named (λ m, {[key]} ∪ m) s else s in
    Some (emit [QueueNetPol key] s).

Definition networkPolicyChanged (oldnp newnp : NetworkPolicy) (s : NpState) : option NpState :=
  let key := npkey newnp in
  let s := if HppOptimization cfg then set_hpp (λ refs, (removeFromHppCache cfg oldnp key refs).1) s else s in
  s ← writeApicNP key newnp s;
  let s := set_subnets (λ idx, updateIpIndex idx (getNetworkPolicyEgressIpBlocks oldnp)
                                 (getNetworkPolicyEgressIpBlocks newnp) key) s in
  oldPorts ← targets s oldnp;
  newPorts ← targets s newnp;
  let s := set_ports (updateTargetPortIndex false key oldPorts newPorts) s in
  let s := if bool_decide (np_PodSelector oldnp = np_PodSelector newnp) then s else update_netPolPods newnp s in
  let s := if bool_decide (np_PolicyTypes oldnp = np_PolicyTypes newnp) then s
           else emit (QueuePod <$> elements (GetPodForObj (netPolPods s) key)) s in
  let ingress := bool_decide (np_Ingress oldnp = np_Ingress newnp) in
  let egress := bool_decide (np_Egress oldnp = np_Egress newnp) in
  let s := if ingress then s else update_ingressPods false newnp s in
  let s := if egress then s else update_egressPods false newnp s in
  Some (if ingress && egress then s else emit [QueueNetPol key] s).

Definition networkPolicyDeleted (np : NetworkPolicy) (s : NpState) : option NpState :=
  let key := npkey np in
  let s := if String.eqb (LBType cfg) lbTypeAci then s
           else emit [ClearObjects (aciNameForKey cfg "NwPol" key)] s in
  let '(refs, (labelKey, noHppRef)) :=
    if HppOptimization cfg then removeFromHppCache cfg np key (hppRef s)
    else (hppRef s, (aciNameForKey cfg "np" key, true)) in
  let s := set_hpp (λ _, refs) s in
  let s := set_subnets (λ idx, updateIpIndex idx (getNetworkPolicyEgressIpBlocks np) ∅ key) s in
  ports ← targets s np;
  let s := set_ports (updateTargetPortIndex false key ports ∅) s in
  named ← isNamedPortPresenInNp np;
  let s := if (named : bool) then set_named (λ m, m ∖ {[key]}) s else s in
  let '(i1, upd) := DeleteSelectorObj np_getKey np (netPolPods s) in
  let s := queue_pods upd (set_pods (λ _, i1) s) in
  let s := set_ingress (λ i, (DeleteSelectorObj np_getKey np i).1) s in
  let s := set_egress (λ i, (DeleteSelectorObj np_getKey np i).1) s in
  Some (if noHppRef && negb (String.eqb labelKey EmptyString) then emit [ClearObjects labelKey] s else s).
(** ** Port names of containers (src/pkg/controller/pods.go) *)

(** Some named egress port of the policy is a port of the pod. *)
Fixpoint named_ports_match (pod : Pod) (ports : list NetworkPolicyPort) : option bool :=
  match ports with
  | [] => Some false
  | p :: ports =>
      v ← Port p;
      match v with
      | StrVal name =>
          if bool_decide (is_Some (LookupContainerPortNumberByName pod name)) then Some true
          else named_ports_match pod ports
      | IntVal _ => named_ports_match pod ports
      end
  end.

Definition checkPodNmpMatchesNp (key podkey : string) : option bool :=
  match pods (inf_stores inf) !! podkey, objs (inf_stores inf) !! key with
  | Some pod, Some np => named_ports_match pod (flat_map rule_Ports (np_Egress np))
  | _, _ => Some false
  end.

Definition named_cports (pod : Pod) : list ContainerPort :=
  List.filter (λ c, negb (String.eqb (cp_Name c) EmptyString)) (concat (pod_containers pod)).

Definition cport_key (c : ContainerPort) : string :=
  portProto (Some (cp_Protocol c)) ++ "-" ++ Itoa (cp_ContainerPort c).

Definition add_cport (podkey : string) (m : port_names) (c : ContainerPort) : port_names :=
  let entry := default ∅ (m !! cp_Name c) in
  <[cp_Name c := <[cport_key c := {[podkey]} ∪ default ∅ (entry !! cport_key c)]> entry]> m.

Definition drop_cport (podkey : string) (m : port_names) (c : ContainerPort) : port_names :=
  match m !! cp_Name c with
  | None => m
  | Some entry =>
      let entry' :=
        match entry !! cport_key c with
        | None => entry
        | Some ps =>
            let ps' := ps ∖ {[podkey]} in
            if bool_decide (ps' = ∅) then delete (cport_key c) entry else <[cport_key c := ps']> entry
        end in
      if bool_decide (entry' = ∅) then delete (cp_Name c) m else <[cp_Name c := entry']> m
  end.

(** The policies with port names that the pod may concern. *)
Fixpoint requeue_named (update : bool) (podkey : string) (keys : list string) (s : NpState) : option NpState :=
  match keys with
  | [] => Some s
  | key :: keys =>
      match objs (inf_stores inf) !! key with
      | None => requeue_named update podkey keys s
      | Some np =>
          b ← checkPodNmpMatchesNp key podkey;
          if (b : bool) then
            s ← (if update then ports ← targets s np; Some (set_ports (updateTargetPortIndex false key ∅ ports) s)
                 else Some s);
            requeue_named update podkey keys (emit [QueueNetPol key] s)
          else requeue_named update podkey keys s
      end
  end.

Definition updateCtrNmPortForPod (pod : Pod) (podkey : string) (s : NpState) : option NpState :=
  let cports := named_cports pod in
  let s := set_names (λ m, foldl (add_cport podkey) m cports) s in
  match cports with [] => Some s | _ => requeue_named true podkey (elements (nmPortNp s)) s end.

(** Without the removal of the pod from its node, which is another table. *)
Definition deleteCtrNmPortForPod (pod : Pod) (podkey : string) (s : NpState) : option NpState :=
  let cports := named_cports pod in
  let s := set_names (λ m, foldl (drop_cport podkey) m cports) s in
  match cports with [] => Some s | _ => requeue_named false podkey (elements (nmPortNp s)) s end.
End Handlers.
