(* ===== verification/NetPolBlocks.v ===== *)
(** * NetPolBlocks: IP blocks of network policies

    The subnets that [ipBlockToSubnets] makes of an IPv4 block with
    exceptions: CIDR text that is read back as the networks it stands for,
    covering exactly the addresses of the block without the exceptions. *)
From S2P Require Import Prelude GoBytes GoNet GoText IpAlloc IpAllocFacts IpRange IpRangeFacts.
From S2P Require Import PodIndex K8s AciNames NetPol.

Open Scope Z_scope.

Lemma v4_len : 4%nat = IPv4len ∨ 4%nat = IPv6len.
Proof. by left. Qed.

(** A CIDR whose mask has four bytes is a network in the sense of [net4]. *)
Lemma ParseCIDR_v4 s n : ParseCIDR s = Some n → length (net_Mask n) = 4%nat → ∃ k, net4 n k.
Proof.
  unfold ParseCIDR. destruct (cut "/" s) as [[addr mask]|]; simpl; [|done].
  unfold ParseAddr. case_match; [|done]. destruct (family addr) as [v4|]; simpl; [|done].
  destruct v4.
  - destruct (parseIPv4 addr) as [ip|] eqn:Eip; simpl; [|done]. apply parseIPv4_ok in Eip.
    destruct (dtoi mask) as [m|] eqn:Em; simpl; [|done].
    destruct (Z.leb_spec m (8 * Z.of_nat IPv4len)) as [Hm|]; [|done]. intros [= <-] _.
    exists (Z.to_nat m). assert (Hk : (Z.to_nat m <= 8 * 4)%nat) by (unfold IPv4len in Hm; lia).
    destruct (block_val 4 v4_len ip (Z.to_nat m) Eip Hk) as (H1&H2&_).
    destruct (block_val 4 v4_len _ (Z.to_nat m) H1 Hk) as (H3&H4&_).
    change (8 * 4)%nat with 32%nat in *. split_and!; [done|done|done|]. apply (val_inj 4); [done|done|].
    cbn [net_IP net_Mask]. change (8 * IPv4len)%nat with 32%nat.
    rewrite H4, H2. pose proof (host_pos 4 (Z.to_nat m) Hk). set (h := host 4 (Z.to_nat m)) in *.
    pose proof (Z.div_mod (val ip) h ltac:(lia)).
    replace (val ip - val ip mod h) with (val ip / h * h) by lia. rewrite Z.mod_mul; lia.
  - destruct (parseIPv6 addr) as [ip|] eqn:Eip; simpl; [|done].
    destruct (dtoi mask) as [m|] eqn:Em; simpl; [|done].
    destruct (m <=? 8 * Z.of_nat IPv6len); [|done]. intros [= <-]. cbn [net_Mask].
    unfold CIDRMask. change (8 * IPv6len)%nat with 128%nat. cbn [Nat.eqb IPv4len Nat.mul Nat.add negb orb].
    destruct (128 <? Z.to_nat m)%nat; [done|]. rewrite cidr_bytes_length. done.
Qed.

(** ** Membership *)

Lemma net4_in_net n k x :
  net4 n k → in_net n x ↔ val (net_IP n) <= x <= val (net_IP n) + host 4 k - 1.
Proof.
  intros (Hk&Hip&Hm&Hmask). unfold in_net. rewrite Hmask, Hm.
  destruct (block_val 4 v4_len (net_IP n) k Hip ltac:(lia)) as (_&H2&la&Hla&_&Hlv).
  change (8 * 4)%nat with 32%nat in *. rewrite <- Hm, Hmask in H2. rewrite Hla.
  pose proof (Z.mod_pos_bound (val (net_IP n)) (host 4 k) (host_pos 4 k ltac:(lia))).
  split; [intros (?&[= <-]&?); lia|]. intros ?. eexists. split; [done|lia].
Qed.

Lemma Contains_net4 n k ip :
  net4 n k → ok 4 ip → Contains n ip = true ↔ in_net n (val ip).
Proof.
  intros Hn Hip. rewrite (net4_in_net n k) by done. destruct Hn as (Hk&Hok&Hm&Hmask).
  pose proof Hok as [Hl _]. pose proof Hip as [Hl' _].
  assert (Hcm : CIDRMask k 32 = cidr_bytes 4 k) by (apply (CIDRMask_cidr 4 k v4_len); lia).
  assert (Hnn : networkNumberAndMask n = Some (net_IP n, cidr_bytes 4 k)).
  { unfold networkNumberAndMask, To4. rewrite Hl. cbn [Nat.eqb IPv4len default]. unfold id.
    rewrite Hl, Hm, Hcm, cidr_bytes_length. done. }
  unfold Contains. rewrite Hnn. unfold To4. rewrite Hl'. cbn [Nat.eqb IPv4len default]. unfold id.
  rewrite Hl, Hl'. cbn [Nat.eqb andb]. rewrite bool_decide_eq_true.
  destruct (mask_val 4 k (net_IP n) Hok ltac:(lia)) as (A1&_&A3&_).
  destruct (mask_val 4 k ip Hip ltac:(lia)) as (B1&_&B3&_).
  assert (Hz : zip_with Z.land (net_IP n) (cidr_bytes 4 k) = net_IP n).
  { rewrite <- Hcm, <- Hm. rewrite <- Hmask at 2. symmetry. apply (Mask_same 4); [done|].
    rewrite Hm, Hcm. apply cidr_bytes_length. }
  rewrite Hz in A1, A3 |- *. pose proof (host_pos 4 k ltac:(lia)) as Hh. set (h := host 4 k) in *.
  pose proof (Z.mod_pos_bound (val ip) h Hh). pose proof (Z.mod_pos_bound (val (net_IP n)) h Hh).
  pose proof (Z.div_mod (val ip) h ltac:(lia)). pose proof (Z.div_mod (val (net_IP n)) h ltac:(lia)).
  split.
  - intros Heq. rewrite Heq in A3 |- *. rewrite Heq in Hmask. rewrite B3. lia.
  - intros Hx. apply (val_inj 4); [done|done|]. rewrite B3.
    assert (val ip / h = val (net_IP n) / h); [|nia].
    symmetry. apply (Z.div_unique_pos (val ip) h _ (val ip - val (net_IP n))); nia.
Qed.

(** ** The loops *)

Lemma subnetRange_net4 n k :
  net4 n k → ∃ stop, subnetRange n = Some (net_IP n, stop) ∧ ok 4 stop ∧ ∀ x, in_net n x ↔ val (net_IP n) <= x <= val stop.
Proof.
  intros Hn. pose proof (net4_in_net n k) as Hin. destruct Hn as (Hk&Hok&Hm&Hmask). unfold subnetRange. rewrite Hmask.
  destruct (block_val 4 v4_len (net_IP n) k Hok ltac:(lia)) as (_&H2&la&Hla&Hlok&Hlv).
  change (8 * 4)%nat with 32%nat in *. rewrite Hm, Hla. exists la. split_and!; [done|done|].
  intros x. rewrite Hin by done. rewrite <- Hm, Hmask in H2. rewrite Hlv. lia.
Qed.

(** The network of an IPv4 text. *)
Definition v4_cidr (s : string) : Prop := ∃ n k, ParseCIDR s = Some n ∧ net4 n k.

(** The address lies in the network of the text. *)
Definition in_cidr (s : string) (x : Z) : Prop := ∃ n, ParseCIDR s = Some n ∧ in_net n x.

Lemma remove_excepts_ok excepts ips :
  sfl 4 (FreeList ips) → Forall v4_cidr excepts →
  ∃ ips', remove_excepts ips excepts = Some (Some ips') ∧ sfl 4 (FreeList ips') ∧
    ∀ x, members (FreeList ips') x ↔ members (FreeList ips) x ∧ ∀ e, e ∈ excepts → ¬ in_cidr e x.
Proof.
  revert ips. induction excepts as [|e excepts IH]; intros ips Hs Hf; simpl.
  { exists ips. split_and!; [done|done|]. intros x. split; [|tauto]. intros Hx. split; [done|].
    intros e He. by apply elem_of_nil in He. }
  apply Forall_cons in Hf as [(nw&k&Hp&Hn) Hf]. rewrite Hp.
  destruct (subnetRange_net4 nw k Hn) as (stop&Hr&Hstop&Hin). unfold RemoveSubnet. rewrite Hr. simpl.
  pose proof Hn as (Hk&Hok&_).
  assert (Hle : val (net_IP nw) <= val stop).
  { pose proof (host_pos 4 k ltac:(lia)). pose proof (net4_in_net nw k (val (net_IP nw)) Hn) as H1.
    rewrite Hin in H1. lia. }
  pose proof (RemoveRange_ok 4 (net_IP nw) stop Hok Hstop Hle ips Hs) as HR.
  destruct (RemoveRange ips (net_IP nw) stop) as [ips1 c]. destruct HR as (Hs1&Hm1&_).
  destruct (IH ips1 Hs1 Hf) as (ips'&He&Hs'&Hm'). exists ips'. split_and!; [done|done|].
  intros x. rewrite Hm', Hm1, <- Hin. split.
  - intros [[Hx Hnx] Hall]. split; [done|]. intros e' He'. apply elem_of_cons in He' as [->|He']; [|by apply Hall].
    intros (n'&Hp'&Hx'). rewrite Hp in Hp'. injection Hp' as <-. done.
  - intros [Hx Hall]. split; [split; [done|]|].
    + intros Hx'. apply (Hall e); [apply list_elem_of_here|]. by exists nw.
    + intros e' He'. by apply Hall, list_elem_of_further.
Qed.

Lemma remove_excepts_err excepts ips e :
  sfl 4 (FreeList ips) → Forall (λ e, v4_cidr e ∨ ParseCIDR e = None) excepts →
  e ∈ excepts → ParseCIDR e = None → remove_excepts ips excepts = Some None.
Proof.
  revert ips. induction excepts as [|e' excepts IH]; intros ips Hs Hf He Hp; [by apply elem_of_nil in He|]. simpl.
  apply Forall_cons in Hf as [[(nw&k&Hp'&Hn)|Hp'] Hf]; [|by rewrite Hp'].
  rewrite Hp'. apply elem_of_cons in He as [->|He]; [congruence|].
  destruct (remove_excepts_ok [e'] ips Hs) as (ips1&He1&Hs1&_); [constructor; [by exists nw, k|constructor]|].
  simpl in He1. rewrite Hp' in He1. destruct (RemoveSubnet ips nw) as [[ips2 c]|]; simpl in *; [|done].
  injection He1 as ->. by apply IH.
Qed.

(** The networks of a free list. *)
Lemma tiles_net4 b a nets c d : tiles_to 4 b a nets c → d ∈ nets → ∃ k, net4 d k.
Proof.
  revert a. induction nets as [|x nets IH]; intros a Ht Hd; [by apply elem_of_nil in Hd|].
  cbn [tiles_to] in Ht. destruct Ht as (Hok&Hv&l&Hl&Hm&[Hal Hfit]&_&Ht).
  apply elem_of_cons in Hd as [->|Hd]; [|by apply (IH _ Ht)]. exists l. split_and!; [done|done|done|].
  destruct (block_val 4 v4_len (net_IP x) l Hok Hl) as (H1&H2&_). rewrite Hm.
  apply (val_inj 4); [done|done|]. rewrite H2, Hv, Hal. lia.
Qed.

Lemma nets_of_list fl :
  sfl 4 fl →
  ∃ nets, mapM (λ r, Range2Cidr (Start r) (End_ r)) fl = Some nets ∧
    (∀ d, d ∈ concat nets → ∃ k, net4 d k) ∧
    ∀ x, (∃ d, d ∈ concat nets ∧ in_net d x) ↔ members fl x.
Proof.
  induction fl as [|r fl IH]; intros Hs.
  { exists []. split_and!; [done|intros d Hd; by apply elem_of_nil in Hd|]. intros x. rewrite members_nil.
    split; [intros (d&Hd&_); by apply elem_of_nil in Hd|done]. }
  apply sfl_cons in Hs as ((H1&H2&H3)&Hs&_). destruct (IH Hs) as (nets&Hm&Hk&Hx).
  destruct (Range2Cidr_ok 4 v4_len (Start r) (End_ r) H1 H2) as (ns&Hr&Ht); [unfold lo, hi in *; lia|].
  exists (ns :: nets). simpl. rewrite Hr. simpl. rewrite Hm. split_and!; [done| |].
  - intros d Hd. apply elem_of_app in Hd as [Hd|Hd]; [by apply (tiles_net4 _ _ _ _ _ Ht)|by apply Hk].
  - intros x. rewrite members_cons, <- Hx. pose proof (tiles_members 4 v4_len _ _ _ _ x Ht) as Htm.
    assert (Heq : lo r <= x <= hi r ↔ ∃ d, d ∈ ns ∧ in_net d x) by (rewrite Htm; unfold lo, hi; lia).
    rewrite Heq. setoid_rewrite elem_of_app. naive_solver.
Qed.

Lemma ipBlock_ok b :
  v4_cidr (CIDR b) → Forall v4_cidr (Except b) →
  ∃ nets, ipBlockToSubnets b = Some (Some (map IPNet_String nets)) ∧
    (∀ d, d ∈ nets → ∃ k, net4 d k) ∧
    ∀ x, (∃ d, d ∈ nets ∧ in_net d x) ↔ in_cidr (CIDR b) x ∧ ∀ e, e ∈ Except b → ¬ in_cidr e x.
Proof.
  intros (nw&k&Hp&Hn) Hf. unfold ipBlockToSubnets. rewrite Hp.
  destruct (subnetRange_net4 nw k Hn) as (stop&Hr&Hstop&Hin). unfold AddSubnet. rewrite Hr. simpl.
  pose proof Hn as (_&Hok&_).
  pose proof (AddRange_disjoint 4 New (net_IP nw) stop (sfl_nil 4) Hok Hstop) as Hs.
  destruct (AddRange_ok 4 New (net_IP nw) stop (wfl_nil 4) Hok Hstop) as [_ Hm].
  destruct (remove_excepts_ok (Except b) (AddRange New (net_IP nw) stop)) as (ips'&He&Hs'&Hm'); [|done|].
  { apply Hs. intros x _ Hx. simpl in Hx. by apply members_nil in Hx. }
  rewrite He. simpl. destruct (nets_of_list (FreeList ips') Hs') as (nets&Hnets&Hk&Hx). rewrite Hnets. simpl.
  exists (concat nets). split_and!; [done|done|]. intros x. rewrite Hx, Hm', Hm. simpl. rewrite members_nil, <- Hin.
  unfold in_cidr at 2. rewrite Hp. naive_solver.
Qed.

(** A block with an exception that is not a network is an error. *)
Lemma ipBlock_error b e :
  v4_cidr (CIDR b) → Forall (λ e, v4_cidr e ∨ ParseCIDR e = None) (Except b) →
  e ∈ Except b → ParseCIDR e = None → ipBlockToSubnets b = Some None.
Proof.
  intros (nw&k&Hp&Hn) Hf He Hnone. unfold ipBlockToSubnets. rewrite Hp.
  destruct (subnetRange_net4 nw k Hn) as (stop&Hr&Hstop&Hin). unfold AddSubnet. rewrite Hr. simpl.
  pose proof Hn as (_&Hok&_).
  pose proof (AddRange_disjoint 4 New (net_IP nw) stop (sfl_nil 4) Hok Hstop) as Hs.
  rewrite (remove_excepts_err (Except b) (AddRange New (net_IP nw) stop) e); [done| |done|done|done].
  apply Hs. intros x _ Hx. simpl in Hx. by apply members_nil in Hx.
Qed.
