(* ===== verification/NetPolRules.v ===== *)
(** * NetPolRules: the rules that are built, as plain records

    A rule of a host protection policy is read through [view]; building a
    subject appends the views that [subject_views] computes.  [view_allows]
    is what a rule lets through: a rule without remote addresses matches every
    address of its family, which is how the static policies of the controller
    allow everything. *)
From S2P Require Import Prelude GoBytes GoNet GoText IpAlloc ApicMetadata ApicTypes ApicBuild ApicTypesFacts.
From S2P Require Import PodIndex K8s AciNames NetPol.

Open Scope string_scope.

Record rview := mkView {
  v_dn : string;
  v_dir : string;
  v_eth : string;
  v_proto : string;
  v_port : string;
  v_addrs : list string
}.

Definition view (r : ApicObject) : rview :=
  mkView (GetDn r) (GetAttrStr r "direction") (GetAttrStr r "ethertype") (GetAttrStr r "protocol")
    (GetAttrStr r "toPort") ((λ c, GetAttrStr c "addr") <$> Children r).

Definition views (subj : ApicObject) : list rview := view <$> Children subj.

(** ** Constructors *)

Definition rule_attrs : attrs :=
  list_to_map [("name", AStr EmptyString); ("connTrack", AStr "reflexive"); ("direction", AStr "ingress");
    ("ethertype", AStr "undefined"); ("protocol", AStr "unspecified"); ("fromPort", AStr "unspecified");
    ("toPort", AStr "unspecified")].

Lemma new_hostprotRule : newApicObject "hostprotRule" = Some (Obj "hostprotRule" EmptyString rule_attrs []).
Proof. vm_compute. reflexivity. Qed.

Lemma new_hostprotRemoteIp :
  newApicObject "hostprotRemoteIp" = Some (Obj "hostprotRemoteIp" EmptyString {["addr" := AStr EmptyString]} []).
Proof. vm_compute. reflexivity. Qed.

Lemma NewHostprotRule_eq p n :
  NewHostprotRule p n =
  Some (Obj "hostprotRule" EmptyString
          (<["dn" := AStr (p ++ "/rule-" ++ n)]> (<["name" := AStr n]> rule_attrs)) []).
Proof. unfold NewHostprotRule. rewrite new_hostprotRule. reflexivity. Qed.

Lemma NewHostprotRemoteIp_eq p a :
  NewHostprotRemoteIp p a =
  Some (Obj "hostprotRemoteIp" EmptyString
          (<["dn" := AStr (p ++ "/ip-[" ++ a ++ "]")]> (<["addr" := AStr a]> {["addr" := AStr EmptyString]})) []).
Proof. unfold NewHostprotRemoteIp. rewrite new_hostprotRemoteIp. reflexivity. Qed.

Lemma rule_dn_nonempty p n : String.eqb (p ++ "/rule-" ++ n) EmptyString = false.
Proof. by destruct p. Qed.

(** ** Subjects *)

Lemma new_hostprotSubj : newApicObject "hostprotSubj" = Some (Obj "hostprotSubj" EmptyString {["name" := AStr EmptyString]} []).
Proof. vm_compute. reflexivity. Qed.
Lemma NewHostprotSubj_spec p n : ∃ o, NewHostprotSubj p n = Some o ∧ GetDn o = p ++ "/subj-" ++ n ∧ views o = [].
Proof.
  unfold NewHostprotSubj. rewrite new_hostprotSubj. simpl. eexists. split; [reflexivity|]. split; [|reflexivity].
  unfold GetDn, GetAttrStr. simpl. rewrite lookup_insert_eq. by destruct p.
Qed.
Lemma NewHostprotPol_spec t n :
  ∃ o, NewHostprotPol t n = Some o ∧ GetDn o = "uni/tn-" ++ t ++ "/pol-" ++ n ∧ Children o = [].
Proof.
  unfold NewHostprotPol. assert (∃ a, newApicObject "hostprotPol" = Some (Obj "hostprotPol" EmptyString a [])) as [a Ha].
  { vm_compute. eexists. reflexivity. }
  rewrite Ha. simpl. eexists. split; [reflexivity|]. split; [|reflexivity].
  unfold GetDn, GetAttrStr. simpl. by rewrite lookup_insert_eq.
Qed.

(** ** One rule *)

Lemma add_remotes_spec rule subnets :
  ∃ r, add_remotes rule subnets = Some r ∧ (∀ n, GetAttrStr r n = GetAttrStr rule n) ∧ GetDn r = GetDn rule ∧
    (λ c, GetAttrStr c "addr") <$> Children r = (((λ c, GetAttrStr c "addr") <$> Children rule) ++ subnets)%list.
Proof.
  revert rule. induction subnets as [|s subnets IH]; intros rule; simpl.
  { exists rule. rewrite app_nil_r. done. }
  rewrite NewHostprotRemoteIp_eq. simpl.
  match goal with |- context [AddChild rule ?c] => destruct (IH (AddChild rule c)) as (r&->&H1&H2&H3) end.
  exists r. split_and!; [done| | |].
  - intros n. by rewrite H1, AddChild_attrs.
  - by rewrite H2, AddChild_dn.
  - rewrite H3, AddChild_children, fmap_app, <- app_assoc. done.
Qed.

(** The view of the rule that [buildNetPolSubjRule] adds. *)
Definition rule_view (subjDn ruleName direction ethertype proto port : string) (remoteSubnets : list string) : rview :=
  mkView (subjDn ++ "/rule-" ++ ruleName ++ "-" ++ ethertype) direction ethertype
    (if String.eqb proto EmptyString then "unspecified" else proto)
    (if String.eqb port EmptyString then "unspecified" else port)
    (List.filter (of_ethertype ethertype) remoteSubnets).

Lemma buildNetPolSubjRule_view subj ruleName direction ethertype proto port subs :
  ∃ subj', buildNetPolSubjRule subj ruleName direction ethertype proto port subs = Some subj' ∧
    GetDn subj' = GetDn subj ∧
    views subj' = (views subj ++ [rule_view (GetDn subj) ruleName direction ethertype proto port subs])%list.
Proof.
  unfold buildNetPolSubjRule. rewrite NewHostprotRule_eq. simpl mbind.
  match goal with |- context [add_remotes ?r ?l] => set (r0 := r); destruct (add_remotes_spec r0 l) as (r1&->&A&D&C) end.
  simpl. eexists. split; [reflexivity|]. autorewrite with apicobj. split; [done|].
  unfold views. autorewrite with apicobj. rewrite fmap_app. f_equal. simpl. f_equal.
  assert (Hdn : GetDn r0 = GetDn subj ++ "/rule-" ++ ruleName ++ "-" ++ ethertype).
  { unfold r0. destruct (String.eqb proto EmptyString); unfold GetDn, GetAttrStr; simpl;
      rewrite !lookup_insert_ne by done; rewrite lookup_insert_eq; by rewrite rule_dn_nonempty. }
  assert (Hp : GetAttrStr r0 "protocol" = if String.eqb proto EmptyString then "unspecified" else proto).
  { unfold r0. destruct (String.eqb proto EmptyString); unfold GetAttrStr; simpl;
      [rewrite !lookup_insert_ne by done; reflexivity|by rewrite lookup_insert_eq]. }
  assert (Hd : GetAttrStr r0 "direction" = direction ∧ GetAttrStr r0 "ethertype" = ethertype ∧ GetAttrStr r0 "toPort" = "unspecified").
  { unfold r0. destruct (String.eqb proto EmptyString); unfold GetAttrStr; simpl; split_and!;
      repeat (rewrite lookup_insert_ne by done); rewrite ?lookup_insert_eq; reflexivity. }
  destruct Hd as (Hd1&Hd2&Hd3).
  assert (Hc : Children r0 = []) by (unfold r0; by destruct (String.eqb proto EmptyString)).
  rewrite Hc in C. simpl in C. unfold view, rule_view.
  destruct (String.eqb port EmptyString) eqn:Ep; autorewrite with apicobj; rewrite ?A, ?D, ?Hdn, ?Hp, ?Hd1, ?Hd2, ?Hd3, ?C;
    reflexivity.
Qed.

(** ** The rules of a policy *)

(** [grows f vs]: the step returns, keeps the DN of the subject and appends
    the views [vs], which depend on that DN only. *)
Definition grows (f : ApicObject → option ApicObject) (vs : string → list rview) : Prop :=
  ∀ subj, ∃ subj', f subj = Some subj' ∧ GetDn subj' = GetDn subj ∧ views subj' = (views subj ++ vs (GetDn subj))%list.

Lemma grows_id : grows Some (λ _, []).
Proof. intros subj. exists subj. by rewrite app_nil_r. Qed.

Lemma grows_bind f g vs ws :
  grows f vs → grows g ws → grows (λ subj, subj ← f subj; g subj) (λ dn, vs dn ++ ws dn)%list.
Proof.
  intros Hf Hg subj. destruct (Hf subj) as (s1&->&D1&V1). simpl. destruct (Hg s1) as (s2&->&D2&V2).
  exists s2. rewrite D2, V2, V1, D1, app_assoc. done.
Qed.

Lemma grows_if (b : bool) f g vs ws :
  grows f vs → grows g ws → grows (λ subj, if b then f subj else g subj) (λ dn, if b then vs dn else ws dn).
Proof. by destruct b. Qed.

Lemma grows_ext f g vs ws :
  (∀ o, f o = g o) → (∀ dn, vs dn = ws dn) → grows f vs → grows g ws.
Proof. intros Hfg Hvw H subj. rewrite <- Hfg, <- Hvw. apply H. Qed.

Definition family_views (ips : netIps) (name dir proto port : string) (subs : list string) (dn : string) : list rview :=
  (if Empty (V4 ips) then [] else [rule_view dn name dir "ipv4" proto port subs]) ++
  (if Empty (V6 ips) then [] else [rule_view dn name dir "ipv6" proto port subs]).

Lemma grows_family env name dir proto port subs :
  grows (build_family_rules env name dir proto port subs) (family_views (env_ips env) name dir proto port subs).
Proof.
  unfold build_family_rules, family_views. apply grows_bind; apply grows_if; try apply grows_id;
    intros subj; apply buildNetPolSubjRule_view.
Qed.

Fixpoint port_views (ips : netIps) (name dir proto : string) (subs : list string) (n : nat) (ports : list string)
    (dn : string) : list rview :=
  match ports with
  | [] => []
  | port :: ports =>
      family_views ips (name ++ "_" ++ Itoa (Z.of_nat n)) dir proto port subs dn ++
      port_views ips name dir proto subs (S n) ports dn
  end.

Lemma grows_port_rules env name dir proto subs n ports :
  grows (build_port_rules env name dir proto subs n ports) (port_views (env_ips env) name dir proto subs n ports).
Proof.
  revert n. induction ports as [|p ports IH]; intros n; [apply grows_id|].
  exact (grows_bind _ _ _ _ (grows_family env _ dir proto p subs) (IH (S n))).
Qed.

Fixpoint ports_views (env : RuleEnv) (name dir : string) (np : NetworkPolicy) (subs : list string) (j : nat)
    (ports : list NetworkPolicyPort) (dn : string) : list rview :=
  match ports with
  | [] => []
  | p :: ports =>
      match port_list env dir np p with
      | Some l => port_views (env_ips env) name dir (portProto (Protocol p)) subs j l dn
      | None => []
      end ++ ports_views env name dir np subs (S j) ports dn
  end.

Lemma grows_ports env name dir np subs j ports :
  grows (build_ports env name dir np subs j ports) (ports_views env name dir np subs j ports).
Proof.
  revert j. induction ports as [|p ports IH]; intros j; [apply grows_id|].
  refine (grows_bind (λ subj, match port_list env dir np p with
      | Some l => build_port_rules env name dir (portProto (Protocol p)) subs j l subj | None => Some subj end)
    _ (λ dn, match port_list env dir np p with
      | Some l => port_views (env_ips env) name dir (portProto (Protocol p)) subs j l dn | None => [] end) _ _ (IH (S j))).
  destruct (port_list env dir np p); [apply grows_port_rules|apply grows_id].
Qed.

(** The views of one ingress or egress rule. *)
Definition rule_views (env : RuleEnv) (name dir : string) (np : NetworkPolicy) (peers : list NetworkPolicyPeer)
    (subs : list string) (ports : list NetworkPolicyPort) (dn : string) : list rview :=
  match peers, subs with
  | _ :: _, [] => []
  | _, _ =>
      match ports with
      | [] => family_views (env_ips env) name dir EmptyString EmptyString subs dn
      | _ => ports_views env name dir np subs 0 ports dn
      end
  end.

Lemma grows_rules env name dir np peers subs ports :
  grows (λ subj, buildNetPolSubjRules env name subj dir peers subs ports np) (rule_views env name dir np peers subs ports).
Proof.
  unfold buildNetPolSubjRules, rule_views.
  destruct peers, subs; try apply grows_id; destruct ports;
    first [exact (grows_family env name dir EmptyString EmptyString _) | exact (grows_ports env name dir np _ 0 _)].
Qed.

(** ** What rules allow *)

(** A packet from or to a remote IPv4 address. *)
Record packet := mkPacket { pk_ip : IP; pk_proto : string; pk_port : Z }.

Definition text_covers (s : string) (ip : IP) : bool :=
  match ParseCIDR s with
  | Some n => Contains n ip
  | None => match ParseIP s with Some a => bool_decide (To4 a = Some ip) | None => false end
  end.

Definition view_allows (dir : string) (pkt : packet) (v : rview) : bool :=
  String.eqb (v_dir v) dir && String.eqb (v_eth v) "ipv4" &&
  (String.eqb (v_proto v) "unspecified" || String.eqb (v_proto v) (pk_proto pkt)) &&
  (String.eqb (v_port v) "unspecified" || String.eqb (v_port v) (Itoa (pk_port pkt))) &&
  (bool_decide (v_addrs v = []) || existsb (λ s, text_covers s (pk_ip pkt)) (v_addrs v)).

(** Some rule of the views allows the packet. *)
Definition allows (dir : string) (pkt : packet) (vs : list rview) : Prop :=
  ∃ v, v ∈ vs ∧ view_allows dir pkt v = true.

Lemma allows_nil dir pkt : allows dir pkt [] ↔ False.
Proof. split; [|done]. intros (v&Hv&_). by apply elem_of_nil in Hv. Qed.

Lemma allows_app dir pkt l1 l2 : allows dir pkt (l1 ++ l2)%list ↔ allows dir pkt l1 ∨ allows dir pkt l2.
Proof. unfold allows. setoid_rewrite elem_of_app. naive_solver. Qed.

Lemma allows_one dir pkt v : allows dir pkt [v] ↔ view_allows dir pkt v = true.
Proof. unfold allows. setoid_rewrite list_elem_of_singleton. naive_solver. Qed.

(** An IPv4 cluster. *)
Definition v4_only (ips : netIps) : Prop := Empty (V4 ips) = false ∧ Empty (V6 ips) = true.

(** The text of an IPv4 address or network. *)
Definition v4_text (s : string) : Prop :=
  (∃ q, ok 4 q ∧ s = string4 q) ∨ (∃ n k, net4 n k ∧ s = IPNet_String n).

Lemma v4_text_ethertype s : v4_text s → of_ethertype "ipv4" s = true.
Proof.
  unfold of_ethertype. intros [(q&Hq&->)|(n&k&Hn&->)].
  - rewrite ParseCIDR_string4, ParseIP_string4 by done. destruct Hq as [Hl _].
    assert (Ht : To4 (v4InV6Prefix ++ q) = Some q).
    { unfold To4. rewrite length_app, Hl. simpl. rewrite drop_0. done. }
    rewrite Ht. reflexivity.
  - rewrite (ParseCIDR_net4 n k Hn). destruct Hn as (_&[Hl _]&_). unfold To4. rewrite Hl. reflexivity.
Qed.

Lemma filter_v4 subs : Forall v4_text subs → List.filter (of_ethertype "ipv4") subs = subs.
Proof. induction 1 as [|s subs Hs _ IH]; simpl; [done|]. by rewrite v4_text_ethertype, IH. Qed.

Definition proto_ok (proto : string) (pkt : packet) : Prop := proto = EmptyString ∨ proto = pk_proto pkt.
Definition port_ok (port : string) (pkt : packet) : Prop := port = EmptyString ∨ port = Itoa (pk_port pkt).
Definition covered (subs : list string) (pkt : packet) : Prop :=
  subs = [] ∨ ∃ s, s ∈ subs ∧ text_covers s (pk_ip pkt) = true.

Lemma rule_view_allows dn name dir proto port subs pkt :
  Forall v4_text subs → proto ≠ "unspecified" → port ≠ "unspecified" →
  view_allows dir pkt (rule_view dn name dir "ipv4" proto port subs) = true ↔
  proto_ok proto pkt ∧ port_ok port pkt ∧ covered subs pkt.
Proof.
  intros Hs Hproto Hport. unfold view_allows, rule_view, proto_ok, port_ok, covered. cbn [v_dir v_eth v_proto v_port v_addrs].
  rewrite filter_v4, !String.eqb_refl by done. rewrite !andb_true_l, !andb_true_iff, !orb_true_iff.
  rewrite bool_decide_eq_true, existsb_exists. setoid_rewrite <- list_elem_of_In.
  assert (A : (String.eqb (if String.eqb proto EmptyString then "unspecified" else proto) "unspecified" = true ∨
               String.eqb (if String.eqb proto EmptyString then "unspecified" else proto) (pk_proto pkt) = true) ↔
              proto = EmptyString ∨ proto = "unspecified" ∨ proto = pk_proto pkt).
  { destruct (String.eqb_spec proto EmptyString) as [->|]; rewrite !String.eqb_eq; naive_solver. }
  assert (B : (String.eqb (if String.eqb port EmptyString then "unspecified" else port) "unspecified" = true ∨
               String.eqb (if String.eqb port EmptyString then "unspecified" else port) (Itoa (pk_port pkt)) = true) ↔
              port = EmptyString ∨ port = "unspecified" ∨ port = Itoa (pk_port pkt)).
  { destruct (String.eqb_spec port EmptyString) as [->|]; rewrite !String.eqb_eq; naive_solver. }
  rewrite A, B. clear A B. naive_solver.
Qed.

Lemma Itoa_named z : Itoa z ≠ EmptyString ∧ Itoa z ≠ "unspecified".
Proof.
  destruct (Itoa_shape z) as (c&s&[->| ->]&Hc); split; intros H; try discriminate H.
  injection H as -> _. vm_compute in Hc. by destruct Hc.
Qed.

Lemma portProto_named p : portProto p ≠ EmptyString ∧ portProto p ≠ "unspecified".
Proof. unfold portProto. destruct p as [p|]; [|done]. repeat case_match; done. Qed.

(** ** The rules of one ingress or egress rule, in an IPv4 cluster *)

Section Allows.
Context (env : RuleEnv) (np : NetworkPolicy) (dir : string) (pkt : packet).
Context (H4 : v4_only (env_ips env)).

Lemma family_allows name proto port subs dn :
  Forall v4_text subs → proto ≠ "unspecified" → port ≠ "unspecified" →
  allows dir pkt (family_views (env_ips env) name dir proto port subs dn) ↔
  proto_ok proto pkt ∧ port_ok port pkt ∧ covered subs pkt.
Proof using H4.
  intros Hs Hp Hq. unfold family_views. destruct H4 as [-> ->]. rewrite app_nil_r, allows_one.
  by apply rule_view_allows.
Qed.

(** What a port of a policy selects, in Kubernetes' terms: without a port all
    ports of the protocol, with an end port a range. *)
Definition port_selected (p : NetworkPolicyPort) : Prop :=
  pk_proto pkt = portProto (Protocol p) ∧
  match Port p, EndPort p with
  | None, _ => True
  | Some (IntVal n), None => pk_port pkt = n
  | Some (IntVal n), Some e => (n <= pk_port pkt <= e)%Z
  | Some (StrVal _), _ => False
  end.

(** A port given by its number alone. *)
Definition plain_port (p : NetworkPolicyPort) : Prop := ∃ n, Port p = Some (IntVal n) ∧ EndPort p = None.

Lemma ports_allows name subs j ports dn :
  Forall v4_text subs → Forall plain_port ports →
  allows dir pkt (ports_views env name dir np subs j ports dn) ↔
  (∃ p, p ∈ ports ∧ port_selected p) ∧ covered subs pkt.
Proof using H4.
  intros Hs. revert j. induction ports as [|p ports IH]; intros j Hf.
  { simpl. rewrite allows_nil. split; [done|]. intros [(p&Hp&_) _]. by apply elem_of_nil in Hp. }
  apply Forall_cons in Hf as [(n&Hn&He) Hf]. cbn [ports_views]. unfold port_list. rewrite Hn.
  rewrite allows_app, IH by done. cbn [port_views]. rewrite app_nil_r.
  destruct (Itoa_named n) as [Hn1 Hn2], (portProto_named (Protocol p)) as [Hp1 Hp2].
  rewrite family_allows by done. unfold proto_ok, port_ok.
  assert (Hsel : port_selected p ↔ portProto (Protocol p) = pk_proto pkt ∧ Itoa n = Itoa (pk_port pkt)).
  { unfold port_selected. rewrite Hn, He. split; [intros [-> ->]; done|]. intros [-> H%Itoa_inj]. done. }
  assert (Hhere : (proto_ok (portProto (Protocol p)) pkt ∧ port_ok (Itoa n) pkt) ↔ port_selected p).
  { rewrite Hsel. unfold proto_ok, port_ok. tauto. }
  unfold proto_ok, port_ok in Hhere. setoid_rewrite elem_of_cons. split.
  - intros [(A&B&C)|[(q&Hq&Hq') C]]; (split; [|exact C]); [exists p; split; [by left|by apply Hhere]|exists q; auto].
  - intros [(q&[->|Hq]&Hq') C]; [left|right; split; [by exists q|exact C]].
    apply Hhere in Hq' as [A B]. auto.
Qed.

Lemma rule_allows name peers subs ports dn :
  Forall v4_text subs → Forall plain_port ports → (peers = [] → subs = []) →
  allows dir pkt (rule_views env name dir np peers subs ports dn) ↔
  (peers = [] ∨ ∃ s, s ∈ subs ∧ text_covers s (pk_ip pkt) = true) ∧
  (ports = [] ∨ ∃ p, p ∈ ports ∧ port_selected p).
Proof using H4.
  intros Hs Hf Hnil.
  assert (Hmain : allows dir pkt (match ports with
      | [] => family_views (env_ips env) name dir EmptyString EmptyString subs dn
      | _ => ports_views env name dir np subs 0 ports dn end) ↔
    covered subs pkt ∧ (ports = [] ∨ ∃ p, p ∈ ports ∧ port_selected p)).
  { destruct ports as [|p ports].
    - rewrite family_allows by done. unfold proto_ok, port_ok. tauto.
    - rewrite ports_allows by done. split; [tauto|]. intros [C [H|H]]; [discriminate H|auto]. }
  unfold rule_views. destruct peers as [|q peers].
  - rewrite (Hnil eq_refl) in Hmain |- *. rewrite Hmain. unfold covered. tauto.
  - destruct subs as [|s subs].
    + rewrite allows_nil. split; [done|]. intros [[H|(s&H&_)] _]; [done|by apply elem_of_nil in H].
    + rewrite Hmain. unfold covered. split.
      * intros [[H|H] Hp]; [discriminate H|auto].
      * intros [[H|H] Hp]; [discriminate H|auto].
Qed.
End Allows.
