(* ===== verification/NetPolPeers.v ===== *)
(** * NetPolPeers: the peers of a policy

    Which pods and addresses the peers of a rule stand for: [peer_selects] is
    the meaning of the two selectors of a peer in Kubernetes, and the lemmas
    relate it to the pod selectors of the indexes, to [peerMatchesPod] and to
    the addresses of [getPeerRemoteSubnets]. *)
From S2P Require Import Prelude GoBytes GoNet GoText IpRangeFacts PodIndex PodIndexFacts K8s AciNames.
From S2P Require Import NetPol NetPolCtl NetPolBlocks NetPolRules.
From S2P Require Import IpAlloc ApicTypes NetPolIndex NetPolAugment.

Open Scope string_scope.

(** ** Selectors *)

Definition sel_matches (ls : LabelSelector) (l : labels) : Prop :=
  ∃ s, LabelSelectorAsSelector (Some ls) = Some s ∧ Selector_Matches s l = true.

Definition ns_selected (st : np_stores) (ls : LabelSelector) (ns : string) : Prop :=
  ∃ l, namespaces st !! ns = Some l ∧ sel_matches ls l.

(** A peer selects a pod: with a pod selector alone pods of the policy's
    namespace, with a namespace selector alone all pods of the namespaces,
    with both the pods that match in the namespaces that match. *)
Definition peer_selects (st : np_stores) (npNs : string) (peer : NetworkPolicyPeer) (pod : Pod) : Prop :=
  match PodSelector_ peer, NamespaceSelector peer with
  | None, None => False
  | Some ps, None => pod_ns pod = npNs ∧ sel_matches ps (pod_labels pod)
  | None, Some ns => ns_selected st ns (pod_ns pod)
  | Some ps, Some ns => ns_selected st ns (pod_ns pod) ∧ sel_matches ps (pod_labels pod)
  end.

(** The peer has at most one of the two selectors. *)
Definition one_selector (peer : NetworkPolicyPeer) : Prop := PodSelector_ peer = None ∨ NamespaceSelector peer = None.

Lemma sel_matches_eq ls s l :
  LabelSelectorAsSelector (Some ls) = Some s → Selector_Matches s l = true ↔ sel_matches ls l.
Proof. intros H. unfold sel_matches. rewrite H. naive_solver. Qed.

Lemma sel_matches_none ls l : LabelSelectorAsSelector (Some ls) = None → ¬ sel_matches ls l.
Proof. intros H (s&Hs&_). congruence. Qed.

Lemma peerMatchesPod_one st npNs peer pod l :
  one_selector peer → namespaces st !! pod_ns pod = Some l →
  peerMatchesPod npNs peer pod l = true ↔ peer_selects st npNs peer pod.
Proof.
  intros Hone Hl. unfold peerMatchesPod, peer_selects, ns_selected.
  destruct (PodSelector_ peer) as [ps|] eqn:Ep, (NamespaceSelector peer) as [ns|] eqn:En.
  - destruct Hone as [H|H]; congruence.
  - destruct (String.eqb_spec npNs (pod_ns pod)) as [Heq|Hne].
    + destruct (LabelSelectorAsSelector (Some ps)) as [s|] eqn:E.
      * rewrite (sel_matches_eq ps s) by done. naive_solver.
      * split; [done|]. intros [_ H]. by destruct (sel_matches_none ps _ E H).
    + split; [done|]. intros [H _]. congruence.
  - destruct (LabelSelectorAsSelector (Some ns)) as [s|] eqn:E.
    + rewrite (sel_matches_eq ns s) by done. naive_solver.
    + split; [done|]. intros (l'&_&H). by destruct (sel_matches_none ns _ E H).
  - done.
Qed.

Lemma peerPodSelector_selects np st peer pod :
  (∃ ps, ps ∈ peerPodSelector np [peer] ∧ selects_ns Selector_Matches st ps (pod_ns pod) ∧
         Selector_Matches (PodSel ps) (pod_labels pod) = true) ↔
  peer_selects st (np_Namespace np) peer pod.
Proof.
  unfold peerPodSelector, peer_selects, ns_selected, selects_ns. cbn [flat_map]. rewrite app_nil_r.
  change (LabelSelectorAsSelector None) with (Some Nothing).
  destruct (PodSelector_ peer) as [pl|], (NamespaceSelector peer) as [nl|].
  - destruct (LabelSelectorAsSelector (Some pl)) as [s|] eqn:Es.
    + destruct (LabelSelectorAsSelector (Some nl)) as [t|] eqn:Et.
      * rewrite <- (sel_matches_eq pl s) by done. setoid_rewrite list_elem_of_singleton.
        setoid_rewrite <- (sel_matches_eq nl t); [|done]. split.
        -- intros (ps&->&[H|(nsel&l&[= <-]&Hl&Hm)]&Hp); [discriminate H|]. eauto.
        -- intros [(l&Hl&Hm) Hp]. eexists. split; [done|]. split; [|done]. right. by exists t, l.
      * split; [intros (ps&H&_); by apply elem_of_nil in H|]. intros [(l&_&H) _]. by destruct (sel_matches_none nl _ Et H).
    + split; [intros (ps&H&_); by apply elem_of_nil in H|]. intros [_ H]. by destruct (sel_matches_none pl _ Es H).
  - change (LabelSelectorAsSelector None) with (Some Nothing).
    destruct (LabelSelectorAsSelector (Some pl)) as [s|] eqn:Es.
    + rewrite <- (sel_matches_eq pl s) by done. setoid_rewrite list_elem_of_singleton. split.
      * intros (ps&->&[[= H]|(nsel&l&H&_)]&Hp); [done|discriminate H].
      * intros [Hn Hp]. eexists. split; [done|]. split; [left; simpl; congruence|done].
    + split; [intros (ps&H&_); by apply elem_of_nil in H|]. intros [_ H]. by destruct (sel_matches_none pl _ Es H).
  - change (LabelSelectorAsSelector None) with (Some Nothing).
    destruct (LabelSelectorAsSelector (Some nl)) as [t|] eqn:Et.
    + setoid_rewrite list_elem_of_singleton. setoid_rewrite <- (sel_matches_eq nl t); [|done]. split.
      * intros (ps&->&[H|(nsel&l&[= <-]&Hl&Hm)]&Hp); [discriminate H|]. eauto.
      * intros (l&Hl&Hm). eexists. split; [done|]. split; [|done]. right. by exists t, l.
    + split; [intros (ps&H&_); by apply elem_of_nil in H|]. intros (l&_&H). by destruct (sel_matches_none nl _ Et H).
  - change (LabelSelectorAsSelector None) with (Some Nothing).
    split; [intros (ps&H&_); by apply elem_of_nil in H|done].
Qed.

Lemma peerPodSelector_app np peers1 peers2 :
  peerPodSelector np (peers1 ++ peers2)%list = (peerPodSelector np peers1 ++ peerPodSelector np peers2)%list.
Proof. unfold peerPodSelector. by rewrite flat_map_app. Qed.

Lemma elem_of_peerPodSelector np peers ps :
  ps ∈ peerPodSelector np peers ↔ ∃ peer, peer ∈ peers ∧ ps ∈ peerPodSelector np [peer].
Proof.
  induction peers as [|p peers IH].
  { split; [intros H; by apply elem_of_nil in H|intros (?&H&_); by apply elem_of_nil in H]. }
  change (p :: peers) with ([p] ++ peers)%list. rewrite peerPodSelector_app, elem_of_app, IH.
  setoid_rewrite elem_of_app. setoid_rewrite list_elem_of_singleton. naive_solver.
Qed.

(** The peers of the ingress or egress rules select the pod. *)
Definition rules_select (st : np_stores) (npNs : string) (rules : list NetworkPolicyRule) (pod : Pod) : Prop :=
  ∃ r peer, r ∈ rules ∧ peer ∈ rule_Peers r ∧ peer_selects st npNs peer pod.

Lemma selects_rules np st rules pod :
  (∃ ps, ps ∈ flat_map (λ r, peerPodSelector np (rule_Peers r)) rules ∧
         selects_ns Selector_Matches st ps (pod_ns pod) ∧ Selector_Matches (PodSel ps) (pod_labels pod) = true) ↔
  rules_select st (np_Namespace np) rules pod.
Proof.
  split.
  - intros (ps&Hin&Hs). apply list_elem_of_In, in_flat_map in Hin as (r&Hr&Hps). apply list_elem_of_In in Hr, Hps.
    apply elem_of_peerPodSelector in Hps as (peer&Hpe&Hps). exists r, peer. split_and!; [done|done|].
    apply peerPodSelector_selects. eauto.
  - intros (r&peer&Hr&Hpe&Hs). apply peerPodSelector_selects in Hs as (ps&Hps&Hs). exists ps. split; [|done].
    apply list_elem_of_In, in_flat_map. exists r. split; [by apply list_elem_of_In|].
    apply list_elem_of_In, elem_of_peerPodSelector. eauto.
Qed.

(** ** Peer pods *)

Lemma peer_pods_spec st podkeys pods0 nss0 :
  (∀ ns l, nss0 !! ns = Some l → namespaces st !! ns = Some l) →
  (∀ pod, pod ∈ pods0 → is_Some (nss0 !! pod_ns pod)) →
  let '(ps, nss) := peer_pods st podkeys pods0 nss0 in
  (∀ ns l, nss !! ns = Some l → namespaces st !! ns = Some l) ∧
  (∀ pod, pod ∈ ps → is_Some (nss !! pod_ns pod)) ∧
  (∀ pod, pod ∈ ps ↔ pod ∈ pods0 ∨ ∃ k, k ∈ podkeys ∧ pods st !! k = Some pod ∧ is_Some (namespaces st !! pod_ns pod)).
Proof.
  revert pods0 nss0. induction podkeys as [|k podkeys IH]; intros pods0 nss0 Hn Hp; cbn [peer_pods].
  { split_and!; [done|done|]. intros pod. split; [by left|]. intros [H|(k&H&_)]; [done|by apply elem_of_nil in H]. }
  assert (Hskip : ∀ ps : list Pod, (∀ pod, pods st !! k = Some pod → is_Some (namespaces st !! pod_ns pod) → False) →
    ∀ pod, pod ∈ ps ∨ (∃ k0, k0 ∈ podkeys ∧ pods st !! k0 = Some pod ∧ is_Some (namespaces st !! pod_ns pod)) ↔
           pod ∈ ps ∨ (∃ k0, k0 ∈ k :: podkeys ∧ pods st !! k0 = Some pod ∧ is_Some (namespaces st !! pod_ns pod))).
  { intros ps Hno pod. setoid_rewrite elem_of_cons. naive_solver. }
  assert (Hadd : ∀ p0, pods st !! k = Some p0 → is_Some (namespaces st !! pod_ns p0) → ∀ pod,
    pod ∈ (pods0 ++ [p0])%list ∨ (∃ k0, k0 ∈ podkeys ∧ pods st !! k0 = Some pod ∧ is_Some (namespaces st !! pod_ns pod)) ↔
    pod ∈ pods0 ∨ (∃ k0, k0 ∈ k :: podkeys ∧ pods st !! k0 = Some pod ∧ is_Some (namespaces st !! pod_ns pod))).
  { intros p0 Hk Hs pod. rewrite elem_of_app, list_elem_of_singleton. setoid_rewrite elem_of_cons. naive_solver. }
  destruct (pods st !! k) as [p0|] eqn:Ek.
  2:{ specialize (IH pods0 nss0 Hn Hp). destruct (peer_pods _ _ _ _) as [ps nss]. destruct IH as (A&B&C).
      split_and!; [done|done|]. intros pod. rewrite C. apply Hskip. intros q Hq. done. }
  destruct (nss0 !! pod_ns p0) as [l|] eqn:El.
  - specialize (IH (pods0 ++ [p0])%list nss0 Hn).
    destruct (peer_pods _ _ _ _) as [ps nss]. destruct IH as (A&B&C).
    { intros pod. rewrite elem_of_app, list_elem_of_singleton. intros [H| ->]; [by apply Hp|eauto]. }
    split_and!; [done|done|]. intros pod. rewrite C. apply (Hadd p0); [done|]. eauto.
  - destruct (namespaces st !! pod_ns p0) as [l|] eqn:En.
    + specialize (IH (pods0 ++ [p0])%list (<[pod_ns p0 := l]> nss0)).
      destruct (peer_pods _ _ _ _) as [ps nss]. destruct IH as (A&B&C).
      { intros ns l'. destruct (decide (ns = pod_ns p0)) as [->|Hne].
        - rewrite lookup_insert_eq. intros [= <-]. done.
        - rewrite lookup_insert_ne by done. apply Hn. }
      { intros pod. rewrite elem_of_app, list_elem_of_singleton. intros [H| ->]; [|rewrite lookup_insert_eq; eauto].
        destruct (decide (pod_ns pod = pod_ns p0)) as [->|Hne]; [rewrite lookup_insert_eq; eauto|].
        rewrite lookup_insert_ne by done. by apply Hp. }
      split_and!; [done|done|]. intros pod. rewrite C. apply (Hadd p0); [done|]. rewrite En. eauto.
    + specialize (IH pods0 nss0 Hn Hp). destruct (peer_pods _ _ _ _) as [ps nss]. destruct IH as (A&B&C).
      split_and!; [done|done|]. intros pod. rewrite C. apply Hskip. intros q [= <-]. rewrite En. intros [? H]. done.
Qed.

(** ** Addresses *)

Lemma add_ips_spec l acc :
  (∀ s, s ∈ acc.1 ↔ s ∈ acc.2) →
  let r := foldl add_ip acc l in
  (∀ s, s ∈ r.1 ↔ s ∈ r.2) ∧ ∀ s, s ∈ r.1 ↔ s ∈ acc.1 ∨ s ∈ l.
Proof.
  revert acc. induction l as [|x l IH]; intros [subs seen] Hacc; simpl; [split; [done|set_solver]|].
  destruct (IH (add_ip (subs, seen) x)) as [A B].
  { intros s. unfold add_ip. case_bool_decide; simpl in *; [apply Hacc|]. specialize (Hacc s). set_solver. }
  split; [done|]. intros s. rewrite B. unfold add_ip. case_bool_decide as Hx; simpl in *; [|set_solver].
  specialize (Hacc x). set_solver.
Qed.

(** The addresses of the pods that some peer matches. *)
Definition peer_address (peers : list NetworkPolicyPeer) (ns : string) (peerPods : list Pod)
    (peerNs : gmap string labels) (s : string) : Prop :=
  ∃ pod peer l, pod ∈ peerPods ∧ peer ∈ peers ∧ peerNs !! pod_ns pod = Some l ∧
    peerMatchesPod ns peer pod l = true ∧ s ∈ ipsForPod pod.

Lemma pod_subnets_spec peers ns peerPods peerNs :
  let r := pod_subnets peers ns peerPods peerNs in
  (∀ s, s ∈ r.1 ↔ s ∈ r.2) ∧ ∀ s, s ∈ r.1 ↔ peer_address peers ns peerPods peerNs s.
Proof.
  unfold pod_subnets.
  set (step pod := λ acc peer, match peerNs !! pod_ns pod with
      | Some l => if peerMatchesPod ns peer pod l then foldl add_ip acc (ipsForPod pod) else acc
      | None => acc end : list string * gset string).
  assert (Hin : ∀ pod ps acc, (∀ s, s ∈ acc.1 ↔ s ∈ acc.2) →
    (∀ s, s ∈ (foldl (step pod) acc ps).1 ↔ s ∈ (foldl (step pod) acc ps).2) ∧
    ∀ s, s ∈ (foldl (step pod) acc ps).1 ↔ s ∈ acc.1 ∨ ∃ peer l, peer ∈ ps ∧ peerNs !! pod_ns pod = Some l ∧
      peerMatchesPod ns peer pod l = true ∧ s ∈ ipsForPod pod).
  { intros pod ps. induction ps as [|p ps IH]; intros acc Hacc; [simpl; split; [done|set_solver]|].
    change (foldl (step pod) acc (p :: ps)) with (foldl (step pod) (step pod acc p) ps).
    assert (Hstep : (∀ s, s ∈ (step pod acc p).1 ↔ s ∈ (step pod acc p).2) ∧
      ∀ s, s ∈ (step pod acc p).1 ↔ s ∈ acc.1 ∨ ∃ l, peerNs !! pod_ns pod = Some l ∧
        peerMatchesPod ns p pod l = true ∧ s ∈ ipsForPod pod).
    { unfold step. destruct (peerNs !! pod_ns pod) as [l|].
      2:{ split; [done|]. intros s. split; [by left|]. intros [H|(l&H&_)]; [done|discriminate H]. }
      destruct (peerMatchesPod ns p pod l) eqn:Em.
      2:{ split; [done|]. intros s. split; [by left|]. intros [H|(l'&[= <-]&H&_)]; [done|]. by rewrite Em in H. }
      destruct (add_ips_spec (ipsForPod pod) acc Hacc) as [A B]. split; [done|]. intros s. rewrite B. split.
      - intros [H|H]; [by left|]. right. by exists l.
      - intros [H|(l'&_&_&H)]; [by left|by right]. }
    destruct Hstep as [A B]. destruct (IH _ A) as [C D]. split; [done|]. intros s. rewrite D, B. split.
    - intros [[H|(l&H)]|(q&l&Hq&H)]; [by left|right..].
      + exists p, l. split; [apply list_elem_of_here|done].
      + exists q, l. split; [by apply list_elem_of_further|done].
    - intros [H|(q&l&Hq&H)]; [by left; left|]. apply elem_of_cons in Hq as [->|Hq]; [left; right; by exists l|].
      right. by exists q, l. }
  assert (Hout : ∀ pods_ acc, (∀ s, s ∈ acc.1 ↔ s ∈ acc.2) →
    let r := foldl (λ acc pod, foldl (step pod) acc peers) acc pods_ in
    (∀ s, s ∈ r.1 ↔ s ∈ r.2) ∧ ∀ s, s ∈ r.1 ↔ s ∈ acc.1 ∨ peer_address peers ns pods_ peerNs s).
  { unfold peer_address. induction pods_ as [|pod pods_ IH]; intros acc Hacc; [simpl; split; [done|set_solver]|].
    cbv zeta in *. cbn [foldl].
    destruct (Hin pod peers acc Hacc) as [A B]. destruct (IH _ A) as [C D]. split; [done|].
    intros s. rewrite D, B. split.
    - intros [[H|(q&l&H)]|(pd&q&l&Hq&H)]; [by left|right..].
      + exists pod, q, l. split; [apply list_elem_of_here|done].
      + exists pd, q, l. split; [by apply list_elem_of_further|done].
    - intros [H|(pd&q&l&Hq&H)]; [by left; left|]. apply elem_of_cons in Hq as [->|Hq]; [left; right; by exists q, l|].
      right. by exists pd, q, l. }
  destruct (Hout peerPods ([], ∅)) as [A B]; [simpl; set_solver|]. split; [exact A|].
  intros s. etrans; [apply (B s)|]. simpl. split; [intros [H|H]; [by apply elem_of_nil in H|done]|by right].
Qed.

Definition v4_block (b : IPBlock) : Prop := v4_cidr (CIDR b) ∧ Forall v4_cidr (Except b).
Definition v4_blocks (peers : list NetworkPolicyPeer) : Prop :=
  ∀ peer b, peer ∈ peers → IPBlock_ peer = Some b → v4_block b.

(** The block holds the address and no exception does. *)
Definition block_has (b : IPBlock) (ip : IP) : Prop :=
  in_cidr (CIDR b) (val ip) ∧ ∀ e, e ∈ Except b → ¬ in_cidr e (val ip).

Lemma text_covers_ip q ip : ok 4 q → text_covers (string4 q) ip = true ↔ q = ip.
Proof.
  intros Hq. unfold text_covers. rewrite ParseCIDR_string4, ParseIP_string4 by done.
  assert (Ht : To4 (v4InV6Prefix ++ q) = Some q).
  { destruct Hq as [Hl _]. unfold To4. rewrite length_app, Hl. simpl. rewrite drop_0. done. }
  rewrite Ht, bool_decide_eq_true. naive_solver.
Qed.

Lemma text_covers_net n k ip : net4 n k → ok 4 ip → text_covers (IPNet_String n) ip = true ↔ in_net n (val ip).
Proof. intros Hn Hip. unfold text_covers. rewrite (ParseCIDR_net4 n k Hn). by apply (Contains_net4 n k). Qed.

Lemma block_subnets_spec peers acc :
  v4_blocks peers →
  ∃ r, block_subnets peers acc = Some r ∧
    (∀ s, s ∈ r.1 → s ∈ acc.1 ∨ ∃ n k, net4 n k ∧ s = IPNet_String n) ∧
    (∀ s, s ∈ r.2 ↔ s ∈ acc.2 ∨ (s ∈ r.1 ∧ s ∈ r.2)) ∧ (∀ s, s ∈ acc.1 → s ∈ r.1) ∧
    ∀ ip, ok 4 ip → (∃ s, s ∈ r.1 ∧ text_covers s ip = true) ↔
      (∃ s, s ∈ acc.1 ∧ text_covers s ip = true) ∨ ∃ peer b, peer ∈ peers ∧ IPBlock_ peer = Some b ∧ block_has b ip.
Proof.
  revert acc. induction peers as [|p peers IH]; intros acc Hv; cbn [block_subnets].
  { exists acc. split_and!; [done|by left|naive_solver|done|]. intros ip Hip. set_solver. }
  assert (Hv' : v4_blocks peers) by (intros q b Hq; apply Hv; by apply list_elem_of_further).
  destruct (IPBlock_ p) as [b|] eqn:Eb.
  2:{ destruct (IH acc Hv') as (r&->&A&B&B'&C). exists r. split_and!; [done..|]. intros ip Hip. rewrite C by done. split.
      - intros [H|(q&b&Hq&H)]; [by left|right]. exists q, b. split; [by apply list_elem_of_further|done].
      - intros [H|(q&b&Hq&Hqb&H)]; [by left|right]. apply elem_of_cons in Hq as [->|Hq]; [congruence|]. by exists q, b. }
  destruct (Hv p b (list_elem_of_here _ _) Eb) as [H1 H2].
  destruct (ipBlock_ok b H1 H2) as (nets&Hb&Hk&Hx). rewrite Hb. simpl.
  destruct (IH ((acc.1 ++ map IPNet_String nets)%list, list_to_set (map IPNet_String nets) ∪ acc.2) Hv') as (r&->&A&B&B'&C).
  exists r. simpl in *. split_and!; [done| | | |].
  - intros s Hs. apply A in Hs as [Hs|Hs]; [|by right]. apply elem_of_app in Hs as [Hs|Hs]; [by left|].
    right. apply list_elem_of_In, in_map_iff in Hs as (n&<-&Hn). apply list_elem_of_In in Hn.
    destruct (Hk n Hn) as [k Hnk]. by exists n, k.
  - intros s. specialize (B s). specialize (B' s). rewrite B, elem_of_union, elem_of_list_to_set. set_solver.
  - intros s Hs. apply B'. set_solver.
  - intros ip Hip. rewrite C by done.
    assert (Hnets : (∃ s, s ∈ map IPNet_String nets ∧ text_covers s ip = true) ↔ block_has b ip).
    { unfold block_has. rewrite <- Hx. split.
      - intros (s&Hs&Ht). apply list_elem_of_In, in_map_iff in Hs as (n&<-&Hn). apply list_elem_of_In in Hn.
        destruct (Hk n Hn) as [k Hnk]. exists n. split; [done|]. by apply (text_covers_net n k).
      - intros (n&Hn&Hi). destruct (Hk n Hn) as [k Hnk]. exists (IPNet_String n). split.
        + apply list_elem_of_In, in_map_iff. exists n. split; [done|]. by apply list_elem_of_In.
        + by apply (text_covers_net n k). }
    split.
    + intros [(s&Hs&Ht)|(q&b'&Hq&H)].
      * apply elem_of_app in Hs as [Hs|Hs]; [left; by exists s|right]. exists p, b.
        split_and!; [apply list_elem_of_here|done|]. apply Hnets. by exists s.
      * right. exists q, b'. split; [by apply list_elem_of_further|done].
    + intros [(s&Hs&Ht)|(q&b'&Hq&Hqb&H)].
      * left. exists s. split; [apply elem_of_app; by left|done].
      * apply elem_of_cons in Hq as [->|Hq]; [|right; by exists q, b']. left.
        rewrite Eb in Hqb. injection Hqb as <-. apply Hnets in H as (s&Hs&Ht). exists s.
        split; [apply elem_of_app; by right|done].
Qed.

(** The remote subnets of a rule: texts of IPv4 addresses and networks that
    cover exactly the addresses of matching pods and of the blocks. *)
Lemma getPeerRemoteSubnets_spec peers ns peerPods peerNs :
  v4_blocks peers → (∀ pod s, pod ∈ peerPods → s ∈ ipsForPod pod → ∃ q, ok 4 q ∧ s = string4 q) →
  ∃ subs m, getPeerRemoteSubnets peers ns peerPods peerNs = Some (subs, m) ∧
    Forall v4_text subs ∧ (peers = [] → subs = []) ∧
    ∀ ip, ok 4 ip → (∃ s, s ∈ subs ∧ text_covers s ip = true) ↔
      peer_address peers ns peerPods peerNs (string4 ip) ∨
      ∃ peer b, peer ∈ peers ∧ IPBlock_ peer = Some b ∧ block_has b ip.
Proof.
  intros Hb Hp. unfold getPeerRemoteSubnets. destruct peers as [|p0 peers0].
  { exists [], ∅. split_and!; [done|constructor|done|]. intros ip Hip. split.
    - intros (s&Hs&_). by apply elem_of_nil in Hs.
    - intros [(pod&peer&l&_&H&_)|(peer&b&H&_)]; by apply elem_of_nil in H. }
  set (peers := p0 :: peers0) in *. assert (Hne : peers ≠ []) by done. clearbody peers.
  destruct (pod_subnets_spec peers ns peerPods peerNs) as [_ Hps].
  set (acc := pod_subnets peers ns peerPods peerNs) in *. clearbody acc.
  destruct (block_subnets_spec peers acc Hb) as ([subs m]&->&A&B&B'&C). simpl in *.
  exists (sort_strs subs), m.
  assert (Hperm : ∀ s, s ∈ sort_strs subs ↔ s ∈ subs).
  { intros s. unfold sort_strs. by rewrite merge_sort_Permutation. }
  assert (Haddr : ∀ s, s ∈ acc.1 → ∃ q, ok 4 q ∧ s = string4 q).
  { intros s Hs. apply Hps in Hs as (pod&peer&l&Hpod&_&_&_&Hs). by apply (Hp pod). }
  split_and!; [done| |done|].
  - apply Forall_forall. intros s Hs. apply Hperm in Hs. apply A in Hs as [Hs|Hs]; [left; by apply Haddr|by right].
  - intros ip Hip. setoid_rewrite Hperm. rewrite C by done.
    assert (Hpods : (∃ s, s ∈ acc.1 ∧ text_covers s ip = true) ↔ peer_address peers ns peerPods peerNs (string4 ip)).
    { rewrite <- Hps. split; [|intros H; exists (string4 ip); split; [done|by apply text_covers_ip]].
      intros (s&Hs&Ht). destruct (Haddr s Hs) as (q&Hq&->). apply text_covers_ip in Ht as ->; done. }
    by rewrite Hpods.
Qed.

(** ** From the rules of a policy to what is let through *)

(** [policy_allows] is what Kubernetes says of a policy; the lemmas relate the
    subjects that [ingress_rules] and [egress_rules] build to it, for IPv4
    clusters and policies with plain ports whose peers have one selector. *)

(** ** The meaning of a policy *)

(** The address is that of a stored pod that the peer selects, or lies in the
    block of the peer. *)
Definition peer_allows (st : np_stores) (npNs : string) (ip : IP) (peer : NetworkPolicyPeer) : Prop :=
  (∃ k pod, pods st !! k = Some pod ∧ peer_selects st npNs peer pod ∧ string4 ip ∈ ipsForPod pod) ∨
  (∃ b, IPBlock_ peer = Some b ∧ block_has b ip).

Definition rule_selects (st : np_stores) (npNs : string) (pkt : packet) (r : NetworkPolicyRule) : Prop :=
  (rule_Peers r = [] ∨ ∃ peer, peer ∈ rule_Peers r ∧ peer_allows st npNs (pk_ip pkt) peer) ∧
  (rule_Ports r = [] ∨ ∃ p, p ∈ rule_Ports r ∧ port_selected pkt p).

Definition policy_allows (st : np_stores) (npNs : string) (rules : list NetworkPolicyRule) (pkt : packet) : Prop :=
  ∃ r, r ∈ rules ∧ rule_selects st npNs pkt r.

(** ** Assumptions *)

(** Pods live in stored namespaces and have IPv4 addresses in the usual
    writing; a pod with addresses has a main address. *)
Definition v4_cluster (st : np_stores) : Prop :=
  ∀ k pod, pods st !! k = Some pod →
    is_Some (namespaces st !! pod_ns pod) ∧
    (∀ s, s ∈ ipsForPod pod → ∃ q, ok 4 q ∧ s = string4 q) ∧
    (ipsForPod pod ≠ [] → pod_ip pod ≠ EmptyString).

(** The rules use port numbers, IPv4 blocks and one selector per peer. *)
Definition plain_rule (r : NetworkPolicyRule) : Prop :=
  Forall plain_port (rule_Ports r) ∧ Forall one_selector (rule_Peers r) ∧ v4_blocks (rule_Peers r).

(** The indexes of peers hold the pods that the rules select and that have an
    address; [PodIndexProps.pod_index_settles] says when they do. *)
Definition peers_indexed (st : np_stores) (np : NetworkPolicy) (s : NpState) : Prop :=
  ∀ k pod, pods st !! k = Some pod → pod_ip pod ≠ EmptyString →
    (selects Selector_Matches ingressPodSelector st np pod → k ∈ GetPodForObj (netPolIngressPods s) (npkey np)) ∧
    (selects Selector_Matches egressPodSelector st np pod → k ∈ GetPodForObj (netPolEgressPods s) (npkey np)).

(** ** Addresses of peers *)

Section Rules.
Context (st : np_stores) (np : NetworkPolicy) (peerPods : list Pod) (peerNs : gmap string labels).
Context (Hcluster : v4_cluster st).
Context (Hns : ∀ ns l, peerNs !! ns = Some l → namespaces st !! ns = Some l).
Context (Hpods : ∀ pod, pod ∈ peerPods → is_Some (peerNs !! pod_ns pod) ∧ ∃ k, pods st !! k = Some pod).

(** The pods of the rules are among the peer pods. *)
Definition complete (rules : list NetworkPolicyRule) : Prop :=
  ∀ k pod, pods st !! k = Some pod → pod_ip pod ≠ EmptyString →
    rules_select st (np_Namespace np) rules pod → pod ∈ peerPods.

Lemma peerPods_v4 pod s : pod ∈ peerPods → s ∈ ipsForPod pod → ∃ q, ok 4 q ∧ s = string4 q.
Proof using Hcluster Hpods.
  intros Hp Hs. destruct (Hpods pod Hp) as (_&k&Hk). destruct (Hcluster k pod Hk) as (_&H&_). by apply H.
Qed.

Lemma peer_address_selects rules r ip :
  complete rules → r ∈ rules → Forall one_selector (rule_Peers r) →
  peer_address (rule_Peers r) (np_Namespace np) peerPods peerNs (string4 ip) ↔
  ∃ peer, peer ∈ rule_Peers r ∧
    ∃ k pod, pods st !! k = Some pod ∧ peer_selects st (np_Namespace np) peer pod ∧ string4 ip ∈ ipsForPod pod.
Proof using Hcluster Hns Hpods.
  intros Hc Hr Hone. rewrite Forall_forall in Hone. split.
  - intros (pod&peer&l&Hpod&Hpe&Hl&Hm&Hs). destruct (Hpods pod Hpod) as (_&k&Hk).
    exists peer. split; [done|]. exists k, pod. split_and!; [done| |done].
    apply (peerMatchesPod_one st _ _ _ l); [by apply Hone|by apply Hns|done].
  - intros (peer&Hpe&k&pod&Hk&Hsel&Hs). destruct (Hcluster k pod Hk) as ([l Hl]&_&Hip).
    assert (Hpod : pod ∈ peerPods).
    { apply (Hc k); [done|apply Hip; intros E; rewrite E in Hs; by apply elem_of_nil in Hs|]. by exists r, peer. }
    destruct (Hpods pod Hpod) as ([l' Hl']&_). pose proof (Hns _ _ Hl') as Hl''. rewrite Hl in Hl''. injection Hl'' as <-.
    exists pod, peer, l. split_and!; [done..| |done]. apply (peerMatchesPod_one st); [by apply Hone|done|done].
Qed.

(** ** Ingress and egress rules *)

Context (env : RuleEnv) (H4 : v4_only (env_ips env)).

(** One rule: its subnets, and what its views allow. *)
Lemma one_rule_allows rules r name dir dn :
  complete rules → r ∈ rules → plain_rule r →
  ∃ subs m, getPeerRemoteSubnets (rule_Peers r) (np_Namespace np) peerPods peerNs = Some (subs, m) ∧
    ∀ pkt, ok 4 (pk_ip pkt) →
      allows dir pkt (rule_views env name dir np (rule_Peers r) subs (rule_Ports r) dn) ↔
      rule_selects st (np_Namespace np) pkt r.
Proof using Hcluster Hns Hpods H4.
  intros Hc Hr (Hp&Hone&Hb).
  destruct (getPeerRemoteSubnets_spec (rule_Peers r) (np_Namespace np) peerPods peerNs Hb peerPods_v4)
    as (subs&m&E&Hv&Hnil&Hcov).
  exists subs, m. split; [done|]. intros pkt Hip. rewrite (rule_allows env np dir pkt H4) by done.
  unfold rule_selects. rewrite Hcov by done. rewrite (peer_address_selects rules) by done.
  unfold peer_allows. split; intros [A B]; (split; [|done]); (destruct A as [A|A]; [by left|right]).
  - destruct A as [(peer&Hpe&A)|(peer&b&Hpe&A)]; exists peer; split; [done|by left|done|right; by exists b].
  - destruct A as (peer&Hpe&[A|(b&A)]); [left; by exists peer|right; by exists peer, b].
Qed.

Lemma ingress_rules_allows all rules i subj :
  complete all → (∀ r, r ∈ rules → r ∈ all ∧ plain_rule r) →
  ∃ subj' vs, ingress_rules env np peerPods peerNs i rules subj = Some subj' ∧
    GetDn subj' = GetDn subj ∧ views subj' = (views subj ++ vs)%list ∧
    ∀ pkt, ok 4 (pk_ip pkt) → allows "ingress" pkt vs ↔ policy_allows st (np_Namespace np) rules pkt.
Proof using Hcluster Hns Hpods H4.
  intros Hc. revert i subj. induction rules as [|r rules IH]; intros i subj Hf; cbn [ingress_rules].
  { exists subj, []. rewrite app_nil_r. split_and!; [done..|]. intros pkt _. rewrite allows_nil.
    split; [done|]. intros (r&Hr&_). by apply elem_of_nil in Hr. }
  destruct (Hf r (list_elem_of_here _ _)) as [Hr Hpl].
  destruct (one_rule_allows all r (Itoa (Z.of_nat i)) "ingress" (GetDn subj) Hc Hr Hpl) as (subs&m&->&Hal). simpl.
  destruct (grows_rules env (Itoa (Z.of_nat i)) "ingress" np (rule_Peers r) subs (rule_Ports r) subj) as (s1&->&D1&V1).
  simpl. destruct (IH (S i) s1) as (s2&vs&->&D2&V2&A2); [intros q Hq; by apply Hf, list_elem_of_further|].
  eexists s2, _. split_and!; [done|congruence|rewrite V2, V1, <- app_assoc; reflexivity|].
  intros pkt Hip. rewrite allows_app, Hal, A2 by done. unfold policy_allows. split.
  - intros [H|(q&Hq&H)]; [exists r|exists q]; split; try done; [apply list_elem_of_here|by apply list_elem_of_further].
  - intros (q&Hq&H). apply elem_of_cons in Hq as [->|Hq]; [by left|right; by exists q].
Qed.

Lemma egress_rules_allows all rules i subj h ps :
  complete all → (∀ r, r ∈ rules → r ∈ all ∧ plain_rule r) →
  ∃ subj' vs h' ps', egress_rules env np peerPods peerNs i rules subj (h, ps) = Some (subj', (h', ps')) ∧
    GetDn subj' = GetDn subj ∧ views subj' = (views subj ++ vs)%list ∧
    ∀ pkt, ok 4 (pk_ip pkt) → allows "egress" pkt vs ↔ policy_allows st (np_Namespace np) rules pkt.
Proof using Hcluster Hns Hpods H4.
  intros Hc. revert i subj h ps. induction rules as [|r rules IH]; intros i subj h ps Hf; cbn [egress_rules].
  { exists subj, [], h, ps. rewrite app_nil_r. split_and!; [done..|]. intros pkt _. rewrite allows_nil.
    split; [done|]. intros (r&Hr&_). by apply elem_of_nil in Hr. }
  destruct (Hf r (list_elem_of_here _ _)) as [Hr Hpl].
  destruct (one_rule_allows all r (Itoa (Z.of_nat i)) "egress" (GetDn subj) Hc Hr Hpl) as (subs&m&->&Hal). simpl.
  destruct (grows_rules env (Itoa (Z.of_nat i)) "egress" np (rule_Peers r) subs (rule_Ports r) subj) as (s1&->&D1&V1).
  simpl. destruct (record_ports i (rule_Ports r) _) as [h1 ps1].
  destruct (IH (S i) s1 h1 ps1) as (s2&vs&h2&ps2&->&D2&V2&A2); [intros q Hq; by apply Hf, list_elem_of_further|].
  eexists s2, _, h2, ps2. split_and!; [done|congruence|rewrite V2, V1, <- app_assoc; reflexivity|].
  intros pkt Hip. rewrite allows_app, Hal, A2 by done. unfold policy_allows. split.
  - intros [H|(q&Hq&H)]; [exists r|exists q]; split; try done; [apply list_elem_of_here|by apply list_elem_of_further].
  - intros (q&Hq&H). apply elem_of_cons in Hq as [->|Hq]; [by left|right; by exists q].
Qed.
End Rules.
