(* ===== verification/NetPolAugFacts.v ===== *)
(** * NetPolAugFacts: when the address of a service is allowed

    Every address in the augments is the address of a service one of whose
    ports an egress rule selects, and for which the endpoints of some subset
    (or slice) all lie in the subnets recorded for the port, or the rule
    allows every address.  The subnets recorded for the ports of one rule are
    one map. *)
From S2P Require Import Prelude GoBytes GoNet GoText ApicTypes PodIndex K8s AciNames.
From S2P Require Import NetPol NetPolIndex NetPolAugment NetPolCtl NetPolRules.

Open Scope string_scope.

(** ** Augments as a relation *)

Definition protos : list string := ["tcp"; "udp"; "sctp"].

Lemma portProto_protos p : portProto p ∈ protos.
Proof. unfold portProto, protos. destruct p as [p|]; [|set_solver]. repeat case_match; set_solver. Qed.

Lemma augment_key_inj p q n m :
  p ∈ protos → q ∈ protos → portServiceAugmentKey p n = portServiceAugmentKey q m → p = q ∧ n = m.
Proof.
  unfold protos, portServiceAugmentKey. intros Hp Hq H. rewrite !elem_of_cons in Hp, Hq.
  destruct Hp as [->|[->|[->|Hp]]], Hq as [->|[->|[->|Hq]]];
    try (by apply elem_of_nil in Hp); try (by apply elem_of_nil in Hq); simpl in H; by simplify_eq.
Qed.

(** Every address of the augments satisfies [P]. *)
Definition aug_all (P : string → string → string → Prop) (a : augments) : Prop :=
  ∀ key psa, a !! key = Some psa →
    psa_proto psa ∈ protos ∧ key = portServiceAugmentKey (psa_proto psa) (psa_port psa) ∧
    ∀ ip, ip ∈ ipMap psa → P (psa_proto psa) (psa_port psa) ip.

Lemma aug_all_empty P : aug_all P ∅.
Proof. intros key psa. by rewrite lookup_empty. Qed.

Lemma aug_all_update P proto port a ip :
  proto ∈ protos → P proto port ip → aug_all P a → aug_all P (updateServiceAugment proto port a ip).
Proof.
  intros Hproto HP Ha key psa. unfold updateServiceAugment. set (key' := portServiceAugmentKey proto port).
  destruct (a !! key') as [old|] eqn:E.
  - destruct (Ha key' old E) as (H1&H2&H3).
    apply augment_key_inj in H2 as [H2a H2b]; [|done|done].
    destruct (decide (key = key')) as [->|Hne]; [|rewrite lookup_insert_ne by done; apply Ha].
    rewrite lookup_insert_eq. intros [= <-]. cbn [psa_proto psa_port ipMap]. rewrite <- H2a, <- H2b in *.
    split_and!; [done|done|]. intros x Hx. apply elem_of_union in Hx as [Hx|Hx]; [|by apply H3].
    apply elem_of_singleton in Hx as ->. done.
  - destruct (decide (key = key')) as [->|Hne]; [|rewrite lookup_insert_ne by done; apply Ha].
    rewrite lookup_insert_eq. intros [= <-]. cbn [psa_proto psa_port ipMap]. split_and!; [done|done|].
    intros x Hx. apply elem_of_singleton in Hx as ->. done.
Qed.

Lemma aug_all_service P proto port a service :
  proto ∈ protos → (∀ ip, ip ∈ service_ips service → P proto port ip) → aug_all P a →
  aug_all P (updateServiceAugmentForService a proto port service).
Proof.
  intros Hproto. unfold updateServiceAugmentForService. generalize (service_ips service). intros l.
  revert a. induction l as [|ip l IH]; intros a HP Ha; [done|]. cbn [foldl]. apply IH.
  - intros x Hx. by apply HP, list_elem_of_further.
  - apply aug_all_update; [done|apply HP, list_elem_of_here|done].
Qed.

(** ** Justifications *)

(** The port of the egress rule has a protocol, which the API server fills
    in; reading it cannot panic. *)
Definition port_total (port : option NetworkPolicyPort) : Prop := ∀ p, port = Some p → is_Some (Protocol p).

Lemma port_selects_total port strings sp : port_total port → is_Some (port_selects port strings sp).
Proof.
  intros H. unfold port_selects. destruct port as [p|]; [|eauto]. destruct (H p eq_refl) as [proto ->]. simpl. eauto.
Qed.

Definition addr_covered (r : list IPNet) (a : string) : Prop :=
  ∃ ip, ParseIP a = Some ip ∧ ranger_contains r ip = true.

Lemma checkEndpoints_covered r l : checkEndpoints r l = true ↔ ∀ a, a ∈ l → addr_covered r a.
Proof.
  unfold checkEndpoints, addr_covered. rewrite forallb_forall. setoid_rewrite <- list_elem_of_In. split.
  - intros H a Ha. specialize (H a Ha). destruct (ParseIP a) as [ip|]; [eauto|done].
  - intros H a Ha. destruct (H a Ha) as (ip&->&Hr). done.
Qed.

(** Some subset of the endpoints of the service, or some slice, has the port
    and only covered addresses. *)
Definition endpoints_covered (src : EndpointSource) (k : string) (svc : Service) (sp : ServicePort)
    (cov : string → Prop) : Prop :=
  match src with
  | FromEndpoints eps =>
      ∃ subsets subset, eps !! k = Some subsets ∧ subset ∈ subsets ∧
        is_Some (find_ep_port svc sp (es_Ports subset)) ∧
        ∀ a, a ∈ (Addresses subset ++ NotReadyAddresses subset)%list → cov a
  | FromSlices slices =>
      ∃ slice, slice ∈ service_slices slices svc ∧ is_Some (find_ep_port svc sp (slice_Ports slice)) ∧
        ∀ l a, l ∈ slice_Endpoints slice → a ∈ l → cov a
  end.

Lemma endpoints_covered_mono src k svc sp (cov cov' : string → Prop) :
  (∀ a, cov a → cov' a) → endpoints_covered src k svc sp cov → endpoints_covered src k svc sp cov'.
Proof.
  intros H. destruct src as [eps|slices]; simpl.
  - intros (l&x&H1&H2&H3&H4). exists l, x. split_and!; eauto.
  - intros (x&H1&H2&H3). exists x. split_and!; eauto.
Qed.

Definition by_subnet (env : AugmentEnv) (port : option NetworkPolicyPort) (r : list IPNet)
    (num ip : string) : Prop :=
  ∃ k svc sp, ae_services env !! k = Some svc ∧ ip ∈ service_ips svc ∧ sp ∈ svc_Ports svc ∧ num = Itoa (sp_Port sp) ∧
    port_selects port (map Itoa (getPortNums (ae_portIndex env) port)) sp = Some true ∧
    endpoints_covered (ae_source env) k svc sp (addr_covered r).

Definition by_port (env : AugmentEnv) (port : option NetworkPolicyPort) (num ip : string) : Prop :=
  ∃ p v k svc sp, port = Some p ∧ Port p = Some v ∧
    ae_services env !! k = Some svc ∧ ip ∈ service_ips svc ∧ sp ∈ svc_Ports svc ∧ num = Itoa (sp_Port sp) ∧
    Protocol p = Some (sp_Protocol sp) ∧
    is_Some (port_entries (ae_portIndex env) p v !! IntOrString_String (sp_TargetPort sp)).

(** ** By subnet *)

Section BySubnet.
Context (P : string → string → string → Prop) (env : AugmentEnv) (port : option NetworkPolicyPort) (r : list IPNet).
Context (Htotal : port_total port).
Context (HP : ∀ proto num ip, by_subnet env port r num ip → P proto num ip).

Section Service.
Context (k : string) (svc : Service) (Hk : ae_services env !! k = Some svc).
Let strings := map Itoa (getPortNums (ae_portIndex env) port).

Lemma augment_endpoints_ok subsets eps sps a :
  ae_source env = FromEndpoints eps → eps !! k = Some subsets →
  (∀ sp, sp ∈ sps → sp ∈ svc_Ports svc) → aug_all P a →
  ∃ a', augment_endpoints svc port strings r subsets sps a = Some a' ∧ aug_all P a'.
Proof using Htotal HP Hk.
  intros Hsrc Heps. revert a. induction sps as [|sp sps IH]; intros a Hsps Ha; cbn [augment_endpoints]; [eauto|].
  destruct (port_selects_total port strings sp Htotal) as [sel Hsel]. rewrite Hsel. simpl.
  apply IH; [intros x Hx; by apply Hsps, list_elem_of_further|]. destruct sel; [|done].
  assert (G : ∀ l a, (∀ x, x ∈ l → x ∈ subsets) → aug_all P a → aug_all P (foldl (augment_subset svc r sp) a l)).
  { induction l as [|sub l IHl]; intros b Hl Hb; [done|]. cbn [foldl]. apply IHl; [intros x Hx; by apply Hl, list_elem_of_further|].
    unfold augment_subset. destruct (find_ep_port svc sp (es_Ports sub)) as [found|] eqn:Ef; [|done].
    destruct (checkEndpoints r (Addresses sub) && checkEndpoints r (NotReadyAddresses sub)) eqn:Ec; [|done].
    apply andb_true_iff in Ec as [E1 E2]. apply aug_all_service; [exact (portProto_protos (Some _))| |done].
    intros ip Hip. apply HP. exists k, svc, sp. split_and!; [done|done|apply Hsps, list_elem_of_here|done|done|].
    rewrite Hsrc. exists subsets, sub. split_and!; [done|apply Hl, list_elem_of_here|eauto|].
    intros x Hx. apply elem_of_app in Hx as [Hx|Hx];
      [by apply (checkEndpoints_covered r (Addresses sub))|by apply (checkEndpoints_covered r (NotReadyAddresses sub))]. }
  by apply G.
Qed.

Lemma augment_slice_ok slices slice sps a :
  ae_source env = FromSlices slices → slice ∈ service_slices slices svc →
  (∀ sp, sp ∈ sps → sp ∈ svc_Ports svc) → aug_all P a →
  ∃ a', augment_slice svc port strings r slice sps a = Some a' ∧ aug_all P a'.
Proof using Htotal HP Hk.
  intros Hsrc Hsl. revert a. induction sps as [|sp sps IH]; intros a Hsps Ha; cbn [augment_slice]; [eauto|].
  destruct (port_selects_total port strings sp Htotal) as [sel Hsel]. rewrite Hsel. simpl.
  assert (Hsps' : ∀ x, x ∈ sps → x ∈ svc_Ports svc) by (intros x Hx; by apply Hsps, list_elem_of_further).
  destruct sel; [|by apply IH]. destruct (find_ep_port svc sp (slice_Ports slice)) as [found|] eqn:Ef; [|eauto].
  apply IH; [done|]. destruct (forallb (checkEndpoints r) (slice_Endpoints slice)) eqn:Ec; [|done].
  apply aug_all_service; [exact (portProto_protos (Some _))| |done].
  intros ip Hip. apply HP. exists k, svc, sp. split_and!; [done|done|apply Hsps, list_elem_of_here|done|done|].
  rewrite Hsrc. exists slice. split_and!; [done|eauto|]. rewrite forallb_forall in Ec.
  intros l x Hl Hx. specialize (Ec l). rewrite <- list_elem_of_In in Ec. by apply (proj1 (checkEndpoints_covered r l) (Ec Hl)).
Qed.

Lemma augment_slices_ok slices l a :
  ae_source env = FromSlices slices → (∀ s, s ∈ l → s ∈ service_slices slices svc) → aug_all P a →
  ∃ a', augment_slices svc port strings r l a = Some a' ∧ aug_all P a'.
Proof using Htotal HP Hk.
  intros Hsrc. revert a. induction l as [|s l IH]; intros a Hl Ha; cbn [augment_slices]; [eauto|].
  destruct (augment_slice_ok slices s (svc_Ports svc) a) as (a1&->&H1); [done|apply Hl, list_elem_of_here|done|done|].
  simpl. apply IH; [|done]. intros x Hx. by apply Hl, list_elem_of_further.
Qed.

Lemma SetNp_ok a :
  aug_all P a →
  ∃ a', SetNpServiceAugmentForService (ae_source env) (ae_portIndex env) k svc port r a = Some a' ∧ aug_all P a'.
Proof using Htotal HP Hk.
  intros Ha. unfold SetNpServiceAugmentForService. fold strings. destruct (ae_source env) as [eps|slices] eqn:Es.
  - destruct (eps !! k) as [subsets|] eqn:Ek; [|eauto]. by apply (augment_endpoints_ok subsets eps).
  - by apply (augment_slices_ok slices).
Qed.
End Service.

Lemma getServiceAugmentBySubnet_ok keys_ a :
  aug_all P a → ∃ a', augment_services env port r keys_ a = Some a' ∧ aug_all P a'.
Proof using Htotal HP.
  revert a. induction keys_ as [|k l IH]; intros a Ha; cbn [augment_services]; [eauto|].
  destruct (ae_services env !! k) as [svc|] eqn:Ek; [|by apply IH].
  destruct (SetNp_ok k svc Ek a Ha) as (a1&->&H1). simpl. by apply IH.
Qed.
End BySubnet.

(** ** By port *)

Section ByPort.
Context (P : string → string → string → Prop) (env : AugmentEnv) (port : option NetworkPolicyPort).
Context (Htotal : port_total port).
Context (HP : ∀ proto num ip, by_port env port num ip → P proto num ip).

Lemma getServiceAugmentByPort_ok a :
  aug_all P a → ∃ a', getServiceAugmentByPort env port a = Some a' ∧ aug_all P a'.
Proof using Htotal HP.
  intros Ha. unfold getServiceAugmentByPort. destruct port as [p|] eqn:Ep; [|eauto].
  destruct (Port p) as [v|] eqn:Ev; [|eauto]. destruct (Htotal p eq_refl) as [proto Hproto].
  set (ents := port_entries (ae_portIndex env) p v).
  assert (Hwork : ∀ key k, (key, k) ∈ flat_map (λ ke : string * portIndexEntry, map (pair ke.1) (elements (serviceKeys ke.2)))
                                       (map_to_list ents) → is_Some (ents !! key)).
  { intros key k H. apply list_elem_of_In, in_flat_map in H as ([k' e]&Hin&H).
    apply in_map_iff in H as (x&[= -> ->]&_). apply list_elem_of_In, elem_of_map_to_list in Hin. eauto. }
  revert Hwork. generalize (flat_map (λ ke : string * portIndexEntry, map (pair ke.1) (elements (serviceKeys ke.2)))
                             (map_to_list ents)). intros work.
  revert a Ha. induction work as [|[key k] work IH]; intros a Ha Hwork; cbn [augment_entries]; [eauto|].
  assert (Hwork' : ∀ key0 k0, (key0, k0) ∈ work → is_Some (ents !! key0))
    by (intros key0 k0 H; by apply (Hwork key0 k0), list_elem_of_further).
  destruct (ae_services env !! k) as [svc|] eqn:Ek; [|simpl; by apply IH].
  assert (G : ∀ sps b, (∀ sp, sp ∈ sps → sp ∈ svc_Ports svc) → aug_all P b →
              ∃ b', augment_ports p key svc sps b = Some b' ∧ aug_all P b').
  { induction sps as [|sp sps IHs]; intros b Hsps Hb; cbn [augment_ports]; [eauto|]. rewrite Hproto. simpl.
    apply IHs; [intros x Hx; by apply Hsps, list_elem_of_further|].
    destruct (String.eqb (sp_Protocol sp) proto && String.eqb (IntOrString_String (sp_TargetPort sp)) key) eqn:Ec; [|done].
    apply andb_true_iff in Ec as [E1 E2]. apply String.eqb_eq in E1, E2. subst.
    apply aug_all_service; [exact (portProto_protos (Some _))| |done]. intros ip Hip. apply HP.
    exists p, v, k, svc, sp. split_and!; [done..|apply Hsps, list_elem_of_here|done|done|].
    apply (Hwork _ k), list_elem_of_here. }
  destruct (G (svc_Ports svc) a) as (a1&->&H1); [done|done|]. simpl. by apply IH.
Qed.
End ByPort.

(** ** All ports *)

(** An entry of [portRemoteSubs] lets the address of a service through. *)
Definition justified (env : AugmentEnv) (h : heap) (prs : portRemoteSubnet) (num ip : string) : Prop :=
  let subs := subnets_of h (subnetMap prs) in
  ("0.0.0.0/0" ∈ subs ∧ by_port env (prs_port prs) num ip) ∨ by_subnet env (prs_port prs) (subnet_ranger subs) num ip.

Lemma collect_augments_ok env h prss a :
  (∀ prs, prs ∈ prss → port_total (prs_port prs)) →
  ∀ P : string → string → string → Prop, (∀ proto num ip prs, prs ∈ prss → justified env h prs num ip → P proto num ip) →
  aug_all P a → ∃ a', collect_augments env h prss a = Some a' ∧ aug_all P a'.
Proof.
  intros Ht P. revert a Ht. induction prss as [|prs prss IH]; intros a Ht HP Ha; cbn [collect_augments]; [eauto|].
  assert (G : ∃ a1, (if bool_decide ("0.0.0.0/0" ∈ subnets_of h (subnetMap prs))
      then getServiceAugmentByPort env (prs_port prs) a
      else getServiceAugmentBySubnet env (prs_port prs) (subnets_of h (subnetMap prs)) a) = Some a1 ∧ aug_all P a1).
  { pose proof (Ht prs (list_elem_of_here _ _)) as Hport. case_bool_decide as Hall.
    - apply getServiceAugmentByPort_ok; [done| |done]. intros proto num ip Hj.
      apply (HP proto num ip prs (list_elem_of_here _ _)). by left.
    - apply getServiceAugmentBySubnet_ok; [done| |done]. intros proto num ip Hj.
      apply (HP proto num ip prs (list_elem_of_here _ _)). by right. }
  destruct G as (a1&->&H1). simpl. apply IH; [|intros proto num ip q Hq; apply (HP proto num ip q); by apply list_elem_of_further|done].
  intros q Hq. by apply Ht, list_elem_of_further.
Qed.

(** ** The rules for services *)

(** The view of a service rule: only addresses of the augment. *)
Definition service_view (P : string → string → string → Prop) (v : rview) : Prop :=
  v_dir v = "egress" ∧ ∀ ip, ip ∈ v_addrs v → P (v_proto v) (v_port v) ip.

Lemma augment_rule_grows P eth family psa :
  psa_proto psa ∈ protos →
  (∀ ip, ip ∈ ipMap psa → psa_port psa ≠ EmptyString ∧ P (psa_proto psa) (psa_port psa) ip) →
  ∃ vs, grows (λ subj, augment_rule eth family subj psa) vs ∧ ∀ dn v, v ∈ vs dn → service_view P v.
Proof.
  intros Hproto HP. unfold augment_rule. destruct (List.filter family (elements (ipMap psa))) as [|x l] eqn:E.
  - exists (λ _, []). split; [apply grows_id|]. intros dn v Hv. by apply elem_of_nil in Hv.
  - exists (λ dn, [rule_view dn ("service_" ++ psa_proto psa ++ "_" ++ psa_port psa) "egress" eth (psa_proto psa)
                     (psa_port psa) (x :: l)]). split; [intros subj; apply buildNetPolSubjRule_view|]. intros dn v Hv.
    apply list_elem_of_singleton in Hv as ->. split; [done|]. cbn [v_addrs v_proto v_port rule_view].
    assert (String.eqb (psa_proto psa) EmptyString = false) as ->.
    { apply String.eqb_neq. intros H. rewrite H in Hproto. unfold protos in Hproto. set_solver. }
    assert (G : ∀ ip, ip ∈ x :: l → psa_port psa ≠ EmptyString ∧ P (psa_proto psa) (psa_port psa) ip).
    { intros ip Hip. apply HP. apply elem_of_elements. rewrite <- E in Hip.
      apply list_elem_of_In, filter_In in Hip as [Hip _]. by apply list_elem_of_In. }
    destruct (G x (list_elem_of_here _ _)) as [Hport _]. apply String.eqb_neq in Hport as ->.
    intros ip Hip. apply G. apply list_elem_of_In, filter_In in Hip as [Hip _]. by apply list_elem_of_In.
Qed.

Lemma augment_rules_grows P l :
  (∀ psa, psa ∈ l → psa_proto psa ∈ protos ∧
                    ∀ ip, ip ∈ ipMap psa → psa_port psa ≠ EmptyString ∧ P (psa_proto psa) (psa_port psa) ip) →
  ∃ vs, grows (λ subj, augment_rules subj l) vs ∧ ∀ dn v, v ∈ vs dn → service_view P v.
Proof.
  induction l as [|psa l IH]; intros Hl.
  { exists (λ _, []). split; [apply grows_id|]. intros dn v Hv. by apply elem_of_nil in Hv. }
  destruct (Hl psa (list_elem_of_here _ _)) as (H1&H2).
  destruct (augment_rule_grows P "ipv4" is_v4 psa H1 H2) as (v1&G1&S1).
  destruct (augment_rule_grows P "ipv6" is_v6 psa H1 H2) as (v2&G2&S2).
  destruct IH as (v3&G3&S3); [intros q Hq; by apply Hl, list_elem_of_further|].
  exists (λ dn, v1 dn ++ (v2 dn ++ v3 dn))%list. split.
  - exact (grows_bind _ _ _ _ G1 (grows_bind _ _ _ _ G2 G3)).
  - intros dn v. rewrite !elem_of_app. intros [H|[H|H]]; eauto.
Qed.

(** The service rules of a policy: every address in them is justified. *)
Lemma buildServiceAugment_ok env h ps :
  (∀ k prs, ps !! k = Some prs → port_total (prs_port prs)) →
  ∃ vs, grows (buildServiceAugment env h ps) vs ∧
    ∀ dn v, v ∈ vs dn → service_view (λ _ num ip, ∃ k prs, ps !! k = Some prs ∧ justified env h prs num ip) v.
Proof.
  intros Ht. set (P := λ _ num ip : string, ∃ k prs, ps !! k = Some prs ∧ justified env h prs num ip).
  set (P' := λ proto num ip : string, num ≠ EmptyString ∧ P proto num ip).
  destruct (collect_augments_ok env h (snd <$> map_to_list ps) ∅) with (P := P') as (a&Ea&Ha); [| |apply aug_all_empty|].
  { intros prs Hp. apply list_elem_of_fmap in Hp as ([k q]&->&Hp). apply elem_of_map_to_list in Hp. by apply (Ht k). }
  { intros proto num ip prs Hp Hj. apply list_elem_of_fmap in Hp as ([k q]&->&Hp). apply elem_of_map_to_list in Hp.
    split; [|by exists k, q]. assert (∃ z, num = Itoa z) as [z ->].
    { destruct Hj as [[_ (p&v&k'&svc&sp&?&?&?&?&?&->&_)]|(k'&svc&sp&?&?&?&->&_)]; eauto. }
    apply Itoa_named. }
  destruct (augment_rules_grows P (snd <$> map_to_list a)) as (vs&G&S).
  { intros psa Hp. apply list_elem_of_fmap in Hp as ([k q]&->&Hp). apply elem_of_map_to_list in Hp.
    destruct (Ha k q Hp) as (H1&_&H3). by split. }
  exists vs. split; [|done]. intros subj. unfold buildServiceAugment. rewrite Ea. exact (G subj).
Qed.

(** ** What the egress rules record for their ports *)

(** [egress_rules] records, for every port key, a reference to a map of
    subnets.  [recorded] says where its entries come from: the port is a port
    of some rule, and each subnet belongs to some rule.  A map is shared by
    the ports of a rule; when every rule has at most one port nothing is
    shared and the subnets of an entry belong to rules with the same port. *)

Definition rule_keys (r : NetworkPolicyRule) : list string :=
  match rule_Ports r with [] => [EmptyString] | ps => map (λ p, portKey (Some p)) ps end.

(** The entry for [k] is the port of the rule, or the rule has no port. *)
Definition from_port (r : NetworkPolicyRule) (k : string) (port : option NetworkPolicyPort) : Prop :=
  match port with
  | None => rule_Ports r = [] ∧ k = EmptyString
  | Some p => p ∈ rule_Ports r ∧ k = portKey (Some p)
  end.

Lemma from_port_key r k port : from_port r k port → k ∈ rule_keys r.
Proof.
  unfold from_port, rule_keys. destruct port as [p|]; intros [H ->].
  - destruct (rule_Ports r) as [|q l] eqn:E; [by apply elem_of_nil in H|]. apply list_elem_of_In.
    apply (in_map (λ p, portKey (Some p))). by apply list_elem_of_In.
  - rewrite H. apply list_elem_of_here.
Qed.

Section Recorded.
Context (np : NetworkPolicy) (peerPods : list Pod) (peerNs : gmap string labels).

(** The subnets that an egress rule records. *)
Definition rule_subs (r : NetworkPolicyRule) : gset string :=
  match rule_Peers r with
  | [] => {["0.0.0.0/0"]}
  | _ => match getPeerRemoteSubnets (rule_Peers r) (np_Namespace np) peerPods peerNs with
         | Some (_, m) => m
         | None => ∅
         end
  end.

Definition distinct_maps (ps : port_subs) : Prop :=
  ∀ k1 k2 p1 p2, ps !! k1 = Some p1 → ps !! k2 = Some p2 → subnetMap p1 = subnetMap p2 → k1 = k2.

Definition below (n : nat) (ps : port_subs) : Prop := ∀ k prs, ps !! k = Some prs → (subnetMap prs < n)%nat.

Definition recorded (strict : bool) (rules : list NetworkPolicyRule) (st : heap * port_subs) : Prop :=
  ∀ k prs, st.2 !! k = Some prs →
    (∃ r, r ∈ rules ∧ from_port r k (prs_port prs)) ∧
    ∀ sub, sub ∈ subnets_of st.1 (subnetMap prs) →
      ∃ r, r ∈ rules ∧ sub ∈ rule_subs r ∧ (strict = true → k ∈ rule_keys r).

Lemma subnets_of_insert h i j m : subnets_of (<[i := m]> h) j = if decide (i = j) then m else subnets_of h j.
Proof.
  unfold subnets_of. destruct (decide (i = j)) as [->|Hne]; [by rewrite lookup_insert_eq|by rewrite lookup_insert_ne].
Qed.

(** One port of the i-th rule. *)
Lemma update_recorded strict rules r i k port named h ps :
  r ∈ rules → from_port r k port → recorded strict rules (h, ps) → below (S i) ps →
  subnets_of h i ⊆ rule_subs r → (strict = true → distinct_maps ps ∧ below i ps) →
  let st' := updatePortRemoteSubnets (h, ps) k port i named in
  recorded strict rules st' ∧ below (S i) st'.2 ∧ subnets_of st'.1 i ⊆ rule_subs r ∧
  (strict = true → distinct_maps st'.2).
Proof.
  intros Hr Hport Hrec Hbelow Hi Hstrict. unfold updatePortRemoteSubnets.
  destruct (ps !! k) as [q|] eqn:Ek; cbn [fst snd].
  - assert (Hmap : ∀ k1 p1, (<[k := mkPrs (prs_port q) (subnetMap q) (named || hasNamedTarget q)]> ps) !! k1 = Some p1 →
      ∃ p0, ps !! k1 = Some p0 ∧ subnetMap p1 = subnetMap p0 ∧ prs_port p1 = prs_port p0).
    { intros k1 p1. destruct (decide (k = k1)) as [->|Hne]; [rewrite lookup_insert_eq|rewrite lookup_insert_ne by done; eauto].
      intros [= <-]. eauto. }
    split_and!.
    + intros k1 p1 H1. apply Hmap in H1 as (p0&H0&Em&Ep). rewrite Em, Ep. destruct (Hrec k1 p0 H0) as [A B].
      split; [exact A|]. intros sub. cbn [fst]. rewrite subnets_of_insert.
      destruct (decide (subnetMap q = subnetMap p0)) as [E|Hne]; [|apply B]. intros Hs.
      apply elem_of_union in Hs as [Hs|Hs]; [|rewrite E in Hs; by apply B].
      exists r. split_and!; [done|by apply Hi|]. intros Hst. destruct (Hstrict Hst) as [Hd _].
      rewrite <- (Hd k k1 q p0 Ek H0 E). by apply (from_port_key r k port).
    + intros k1 p1 H1. apply Hmap in H1 as (p0&H0&->&_). by apply (Hbelow k1).
    + rewrite subnets_of_insert. destruct (decide (subnetMap q = i)) as [->|]; [|done].
      intros x Hx. apply elem_of_union in Hx as [Hx|Hx]; by apply Hi.
    + intros Hst k1 k2 p1 p2 H1 H2 E. apply Hmap in H1 as (p1'&H1&E1&_). apply Hmap in H2 as (p2'&H2&E2&_).
      destruct (Hstrict Hst) as [Hd _]. apply (Hd k1 k2 p1' p2'); [done|done|congruence].
  - assert (Hmap : ∀ k1 p1, (<[k := mkPrs port i named]> ps) !! k1 = Some p1 →
      (k1 = k ∧ p1 = mkPrs port i named) ∨ ps !! k1 = Some p1).
    { intros k1 p1. destruct (decide (k = k1)) as [->|Hne]; [rewrite lookup_insert_eq|rewrite lookup_insert_ne by done; eauto].
      intros [= <-]. by left. }
    split_and!.
    + intros k1 p1 H1. apply Hmap in H1 as [[-> ->]|H1]; [|by apply Hrec]. cbn [prs_port subnetMap fst].
      split; [by exists r|]. intros sub Hs. exists r. split_and!; [done|by apply Hi|]. intros _. by apply (from_port_key r k port).
    + intros k1 p1 H1. apply Hmap in H1 as [[-> ->]|H1]; [simpl; lia|by apply (Hbelow k1)].
    + done.
    + intros Hst k1 k2 p1 p2 H1 H2 E. destruct (Hstrict Hst) as [Hd Hb].
      apply Hmap in H1 as [[-> ->]|H1]; apply Hmap in H2 as [[-> ->]|H2]; [done| | |by apply (Hd k1 k2 p1 p2)].
      * pose proof (Hb _ _ H2). simpl in E. lia.
      * pose proof (Hb _ _ H1). simpl in E. lia.
Qed.

(** All ports of the i-th rule. *)
Lemma record_fold strict rules r i ports st :
  r ∈ rules → (∀ p, p ∈ ports → p ∈ rule_Ports r) → recorded strict rules st → below (S i) st.2 →
  subnets_of st.1 i ⊆ rule_subs r →
  (strict = true → distinct_maps st.2 ∧ (ports = [] ∨ (length ports = 1%nat ∧ below i st.2))) →
  let st' := foldl (λ st p, updatePortRemoteSubnets st (portKey (Some p)) (Some p) i
                       (match Port p with Some (IntVal _) => true | _ => false end)) st ports in
  recorded strict rules st' ∧ below (S i) st'.2 ∧ (strict = true → distinct_maps st'.2).
Proof.
  intros Hr. revert st. induction ports as [|p ports IH]; intros [h ps] Hp Hrec Hb Hi Hst.
  { cbn [foldl]. split_and!; [done|done|]. intros H. by apply Hst. }
  cbn [foldl]. destruct (update_recorded strict rules r i (portKey (Some p)) (Some p)
    (match Port p with Some (IntVal _) => true | _ => false end) h ps) as (A&B&C&D); [done| |done|done|done| |].
  { split; [|done]. apply Hp, list_elem_of_here. }
  { intros H. destruct (Hst H) as [Hd [E|[_ E]]]; [discriminate E|by split]. }
  apply IH; [intros q Hq; by apply Hp, list_elem_of_further|done|done|done|].
  intros H. split; [by apply D|]. left. destruct (Hst H) as [_ [E|[E _]]]; [discriminate E|].
  destruct ports; [done|simpl in E; lia].
Qed.

Definition single_ports (rules : list NetworkPolicyRule) : Prop := Forall (λ r, (length (rule_Ports r) ≤ 1)%nat) rules.

Lemma record_ports_recorded strict rules r i h ps :
  r ∈ rules → recorded strict rules (h, ps) → below i ps → (strict = true → distinct_maps ps ∧ (length (rule_Ports r) ≤ 1)%nat) →
  let st' := record_ports i (rule_Ports r) (<[i := rule_subs r]> h, ps) in
  recorded strict rules st' ∧ below (S i) st'.2 ∧ (strict = true → distinct_maps st'.2).
Proof.
  intros Hr Hrec Hb Hst.
  assert (Hi : subnets_of (<[i := rule_subs r]> h) i ⊆ rule_subs r) by (rewrite subnets_of_insert, decide_True; done).
  assert (Hrec' : recorded strict rules (<[i := rule_subs r]> h, ps)).
  { intros k prs Hk. destruct (Hrec k prs Hk) as [A B]. split; [exact A|]. cbn [fst]. pose proof (Hb k prs Hk).
    rewrite subnets_of_insert, decide_False by lia. exact B. }
  assert (Hb' : below (S i) ps) by (intros k prs Hk; pose proof (Hb k prs Hk); lia).
  unfold record_ports. destruct (rule_Ports r) as [|p l] eqn:Ep.
  - destruct (update_recorded strict rules r i EmptyString None false (<[i := rule_subs r]> h) ps) as (A&B&_&D); [done| |done|done|done| |].
    + by split.
    + intros H. destruct (Hst H). by split.
    + done.
  - rewrite <- Ep in *. apply (record_fold strict rules r); [done|done|done|done|done|]. intros H. destruct (Hst H) as [Hd Hl].
    split; [exact Hd|]. right. split; [|exact Hb]. rewrite Ep in *. simpl in *. lia.
Qed.

(** The state after the egress rules. *)
Lemma egress_rules_recorded env strict all rules i subj h ps subj' st' :
  (∀ r, r ∈ rules → r ∈ all) → (strict = true → single_ports rules) →
  recorded strict all (h, ps) → below i ps → (strict = true → distinct_maps ps) →
  egress_rules env np peerPods peerNs i rules subj (h, ps) = Some (subj', st') → recorded strict all st'.
Proof.
  intros Hall Hsp. revert i subj h ps. induction rules as [|r rules IH]; intros i subj h ps Hrec Hb Hd; cbn [egress_rules].
  { intros [= _ <-]. done. }
  destruct (getPeerRemoteSubnets (rule_Peers r) (np_Namespace np) peerPods peerNs) as [[l m]|] eqn:Eg; [|done]. simpl.
  destruct (buildNetPolSubjRules _ _ _ _ _ _ _ _) as [s1|]; [|done]. simpl.
  assert (Es : (match rule_Peers r with [] => {["0.0.0.0/0"]} | _ => m end) = rule_subs r).
  { unfold rule_subs. rewrite Eg. by destruct (rule_Peers r). }
  rewrite Es. destruct (record_ports_recorded strict all r i h ps) as (A&B&C); [apply Hall, list_elem_of_here|done|done| |].
  { intros H. split; [by apply Hd|]. specialize (Hsp H). unfold single_ports in Hsp. by apply Forall_cons in Hsp as [Hsp _]. }
  destruct (record_ports i (rule_Ports r) _) as [h1 ps1]. apply IH; [|..|done|done|done].
  - intros q Hq. by apply Hall, list_elem_of_further.
  - intros H. specialize (Hsp H). unfold single_ports in *. by apply Forall_cons in Hsp as [_ Hsp].
Qed.

Lemma recorded_empty strict rules : recorded strict rules (∅, ∅).
Proof. intros k prs. cbn [snd]. by rewrite lookup_empty. Qed.
Lemma below_empty n : below n ∅.
Proof. intros k prs. by rewrite lookup_empty. Qed.
Lemma distinct_empty : distinct_maps ∅.
Proof. intros k1 k2 p1 p2. by rewrite lookup_empty. Qed.
End Recorded.
