(* ===== verification/NetPolTables.v ===== *)
(** * NetPolTables: lemmas on the tables of the network policy controller

    First the references to shared host protection policies, then the index
    from addresses to policies.

    With [HppOptimization] policies with the same rules share one host
    protection policy, and [hppRef] counts who uses it.  [refers] reads the
    table as a relation between names and policies; the operations of the
    table are the insertion and the removal of a pair. *)
From S2P Require Import Prelude GoText ApicTypes ApicBuild PodIndex K8s AciNames.
From S2P Require Import NetPol NetPolIndex NetPolAugment NetPolCtl.
From S2P Require Import GoBytes GoNet IpRangeFacts NetPolBlocks.

Open Scope string_scope.

Definition refers (refs : gmap string hppReference) (label key : string) : Prop :=
  ∃ r, refs !! label = Some r ∧ key ∈ Npkeys r.

(** The count is the number of keys, which are distinct, and there is one. *)
Definition ref_ok (r : hppReference) : Prop :=
  RefCount r = length (Npkeys r) ∧ NoDup (Npkeys r) ∧ Npkeys r ≠ [].

Definition hpp_ok (refs : gmap string hppReference) : Prop := map_Forall (λ _, ref_ok) refs.

Lemma refers_insert refs l r l' k :
  refers (<[l := r]> refs) l' k ↔ (l' = l ∧ k ∈ Npkeys r) ∨ (l' ≠ l ∧ refers refs l' k).
Proof.
  unfold refers. destruct (decide (l = l')) as [->|Hne].
  - rewrite lookup_insert_eq. split; [intros (r'&[= <-]&H); by left|]. intros [[_ H]|[H _]]; [by exists r|done].
  - rewrite lookup_insert_ne by done. split; [intros H; right; split; [congruence|done]|]. intros [[H _]|[_ H]]; [congruence|done].
Qed.

Lemma refers_delete refs l l' k : refers (delete l refs) l' k ↔ l' ≠ l ∧ refers refs l' k.
Proof.
  unfold refers. destruct (decide (l = l')) as [->|Hne].
  - rewrite lookup_delete_eq. split; [intros (r&H&_); discriminate H|by intros [H _]].
  - rewrite lookup_delete_ne by done. split; [intros H; split; [congruence|done]|by intros [_ H]].
Qed.

Lemma remove_first_key_spec key l :
  NoDup l → key ∈ l →
  NoDup (remove_first_key key l) ∧ length l = S (length (remove_first_key key l)) ∧
  ∀ k, k ∈ remove_first_key key l ↔ k ∈ l ∧ k ≠ key.
Proof.
  induction l as [|x l IH]; intros Hn Hk; [by apply elem_of_nil in Hk|]. apply NoDup_cons in Hn as [Hx Hn].
  cbn [remove_first_key]. destruct (String.eqb_spec x key) as [->|Hne].
  - split_and!; [done|done|]. intros k. rewrite elem_of_cons. split.
    + intros H. split; [by right|]. intros ->. done.
    + intros [[->|H] H']; done.
  - apply elem_of_cons in Hk as [->|Hk]; [done|]. destruct (IH Hn Hk) as (A&B&C). split_and!.
    + apply NoDup_cons. split; [|done]. intros H%C. by destruct H.
    + simpl. by rewrite B.
    + intros k. rewrite !elem_of_cons, C. split; [|tauto]. intros [->|[H H']]; auto.
Qed.

(** ** The two operations *)

Lemma addToHppCache_ok l k hpp refs :
  hpp_ok refs →
  hpp_ok (addToHppCache l k hpp refs) ∧
  ∀ l' k', refers (addToHppCache l k hpp refs) l' k' ↔ refers refs l' k' ∨ (l' = l ∧ k' = k).
Proof.
  intros Hok. unfold addToHppCache. destruct (refs !! l) as [r|] eqn:El.
  - destruct (Hok l r El) as (H1&H2&H3). split.
    + apply map_Forall_insert_2; [|done]. case_bool_decide as Hin; [by split_and!|]. split_and!; simpl.
      * rewrite length_app. simpl. lia.
      * apply NoDup_app. split_and!; [done| |apply NoDup_singleton]. intros x Hx Hx'.
        apply list_elem_of_singleton in Hx' as ->. done.
      * by destruct (Npkeys r).
    + intros l' k'. rewrite refers_insert.
      assert (Hkeys : k' ∈ Npkeys (if bool_decide (k ∈ Npkeys r) then mkHppRef (RefCount r) (Npkeys r) hpp
                        else mkHppRef (S (RefCount r)) (Npkeys r ++ [k])%list hpp) ↔ k' ∈ Npkeys r ∨ k' = k).
      { case_bool_decide; simpl; [|by rewrite elem_of_app, list_elem_of_singleton]. split; [by left|]. intros [?| ->]; done. }
      rewrite Hkeys. split.
      * intros [[-> [H|H]]|[H H']]; [left; by exists r|right; by split|by left].
      * intros [H|[-> ->]]; [|left; auto]. destruct (decide (l' = l)) as [->|Hne]; [left|right; by split].
        destruct H as (r'&Hr'&H). split; [done|]. rewrite El in Hr'. injection Hr' as <-. by left.
  - split.
    + apply map_Forall_insert_2; [|done]. split_and!; simpl; [done|apply NoDup_singleton|done].
    + intros l' k'. rewrite refers_insert. simpl. rewrite list_elem_of_singleton. split.
      * intros [[-> ->]|[_ H]]; [by right|by left].
      * intros [H|[-> ->]]; [right|by left]. split; [|done]. intros ->. destruct H as (r&H&_). congruence.
Qed.

(** Removing reports that nothing refers to the name exactly if the policy
    was its last user. *)
Lemma removeFromHppCache_ok cfg np k refs :
  hpp_ok refs →
  let '(refs', (l, noRef)) := removeFromHppCache cfg np k refs in
  l = aciNameForKey cfg "np" (CreateHashFromNetPol np) ∧ hpp_ok refs' ∧
  (∀ l' k', refers refs' l' k' ↔ refers refs l' k' ∧ ¬ (l' = l ∧ k' = k)) ∧
  (noRef = true ↔ refers refs l k ∧ ∀ k', refers refs l k' → k' = k).
Proof.
  intros Hok. unfold removeFromHppCache. set (l := aciNameForKey cfg "np" _). clearbody l.
  destruct (refs !! l) as [r|] eqn:El.
  2:{ split_and!; [done|done| |].
      - intros l' k'. split; [|by intros [H _]]. intros H. split; [done|]. intros [-> _]. destruct H as (r&H&_). congruence.
      - split; [done|]. intros [(r&H&_) _]. congruence. }
  destruct (Hok l r El) as (H1&H2&H3).
  assert (Hl : ∀ x, refers refs l x ↔ x ∈ Npkeys r).
  { intros x. split; [intros (r'&Hr&H); congruence|intros H; by exists r]. }
  case_bool_decide as Hin; cbn [RefCount].
  - destruct (remove_first_key_spec k (Npkeys r) H2 Hin) as (A&B&C).
    destruct (Nat.ltb_spec 0 (RefCount r - 1)) as [Hlt|Hge].
    + split_and!; [done| | |].
      * apply map_Forall_insert_2; [|done]. split_and!; simpl; [lia|done|]. destruct (remove_first_key k (Npkeys r)); simpl in *; [lia|done].
      * intros l' k'. rewrite refers_insert. simpl. rewrite C. split.
        -- intros [[-> [H H']]|[H H']]; [split; [by apply Hl|by intros [_ ?]]|split; [done|by intros [? _]]].
        -- intros [H Hn]. destruct (decide (l' = l)) as [->|Hne]; [left|right; by split]. split; [done|]. split; [by apply Hl|].
           intros ->. by apply Hn.
      * split; [done|]. intros [_ H]. exfalso. destruct (remove_first_key k (Npkeys r)) as [|x xs] eqn:E; simpl in *; [lia|].
        destruct (C x) as [C1 _]. destruct (C1 (list_elem_of_here _ _)) as [C2 C3]. apply C3, H, Hl. done.
    + assert (Hnil : remove_first_key k (Npkeys r) = []).
      { destruct (remove_first_key k (Npkeys r)); [done|]. simpl in *. lia. }
      rewrite Hnil in C. assert (Honly : ∀ x, x ∈ Npkeys r → x = k).
      { intros x Hx. destruct (decide (x = k)) as [->|Hne]; [done|]. exfalso. by apply (not_elem_of_nil x), C. }
      split_and!; [done| | |].
      * by apply map_Forall_delete.
      * intros l' k'. rewrite refers_delete. split.
        -- intros [H H']. split; [done|by intros [? _]].
        -- intros [H Hn]. split; [|done]. intros ->. apply Hn. split; [done|]. by apply Honly, Hl.
      * split; [|done]. intros _. split; [by apply Hl|]. intros k' Hk'. by apply Honly, Hl.
  - destruct (Nat.ltb_spec 0 (RefCount r)) as [Hlt|Hge].
    + split_and!; [done|by apply map_Forall_insert_2| |].
      * intros l' k'. rewrite refers_insert. split.
        -- intros [[-> H]|[H H']]; [split; [by apply Hl|]; intros [_ ->]; done|split; [done|by intros [? _]]].
        -- intros [H Hn]. destruct (decide (l' = l)) as [->|Hne]; [left; split; [done|by apply Hl]|right; by split].
      * split; [done|]. intros [H _]. by apply Hl in H.
    + destruct (Npkeys r); [done|simpl in *; lia].
Qed.

(** ** Steps of the controller *)

Section Steps.
Context (cfg : Config) (ips : netIps).

(** Any handler, with any content of the informers' stores. *)
Inductive np_step : NpState → NpState → Prop :=
  | step_update inf np s s' : handleNetPolUpdate cfg ips inf np s = Some s' → np_step s s'
  | step_added inf np s s' : networkPolicyAdded cfg inf np s = Some s' → np_step s s'
  | step_changed inf o n s s' : networkPolicyChanged cfg inf o n s = Some s' → np_step s s'
  | step_deleted inf np s s' : networkPolicyDeleted cfg inf np s = Some s' → np_step s s'
  | step_pod_ports inf pod key s s' : updateCtrNmPortForPod inf pod key s = Some s' → np_step s s'
  | step_pod_ports_gone inf pod key s s' : deleteCtrNmPortForPod inf pod key s = Some s' → np_step s s'.

Definition np_reach : NpState → Prop := rtc np_step initial_np.

Lemma update_pods_hpp inf np s : hppRef (update_netPolPods inf np s) = hppRef s.
Proof. unfold update_netPolPods. by destruct (UpdateSelectorObj _ _ _ _ _ _) as [[??]?]. Qed.
Lemma update_ingress_hpp inf b np s : hppRef (update_ingressPods inf b np s) = hppRef s.
Proof. unfold update_ingressPods. by destruct (UpdateSelectorObj _ _ _ _ _ _) as [[??]?]. Qed.
Lemma update_egress_hpp inf b np s : hppRef (update_egressPods inf b np s) = hppRef s.
Proof. unfold update_egressPods. by destruct (UpdateSelectorObj _ _ _ _ _ _) as [[??]?]. Qed.

Lemma writeApicNP_hpp key np s s' : writeApicNP cfg key np s = Some s' → hppRef s' = hppRef s.
Proof.
  unfold writeApicNP. destruct (_ || _); [by intros [= <-]|]. destruct (NewVmmInjectedNwPol _ _ _ _ _); [|done].
  simpl. by intros [= <-].
Qed.

Lemma requeue_named_hpp inf u podkey ks s s' : requeue_named inf u podkey ks s = Some s' → hppRef s' = hppRef s.
Proof.
  revert s. induction ks as [|k ks IH]; intros s; cbn [requeue_named]; [by intros [= <-]|].
  destruct (objs (inf_stores inf) !! k) as [np|]; [|apply IH].
  destruct (checkPodNmpMatchesNp inf k podkey) as [[|]|]; [|apply IH|done]. simpl.
  destruct u; [|simpl; intros H%IH; exact H].
  destruct (targets inf s np) as [ports|]; [|done]. simpl. intros H%IH. exact H.
Qed.

(** What each handler does to the table. *)
Lemma handleNetPolUpdate_hpp inf np s s' :
  handleNetPolUpdate cfg ips inf np s = Some s' →
  hppRef s' = hppRef s ∨ ∃ hpp, hppRef s' = addToHppCache (label_key cfg np) (npkey np) hpp (hppRef s).
Proof.
  unfold handleNetPolUpdate. destruct (ChainedMode cfg); [intros [= <-]; by left|].
  destruct (peer_pods _ _ _ _) as [pp pn]. destruct (NewHostprotPol _ _) as [o|]; [|done]. simpl.
  destruct (ingress_subject _ _ _ _ _ _ o) as [o1|]; [|done]. simpl.
  destruct (egress_subject _ _ _ _ _ _ o1) as [o2|]; [|done]. simpl. intros [= <-].
  destruct (HppOptimization cfg); [right; by exists [o2]|by left].
Qed.

Lemma networkPolicyAdded_hpp inf np s s' : networkPolicyAdded cfg inf np s = Some s' → hppRef s' = hppRef s.
Proof.
  unfold networkPolicyAdded. destruct (writeApicNP _ _ _ _) as [s1|] eqn:Ew; [|done]. apply writeApicNP_hpp in Ew. simpl.
  destruct (ChainedMode cfg); [intros [= <-]; done|].
  destruct (targets _ _ _) as [ports|]; [|done]. simpl. destruct (isNamedPortPresenInNp np) as [[|]|]; [| |done]; simpl;
    intros [= <-]; simpl; by rewrite update_egress_hpp, update_ingress_hpp, update_pods_hpp.
Qed.

Lemma networkPolicyChanged_hpp inf o n s s' :
  networkPolicyChanged cfg inf o n s = Some s' →
  hppRef s' = if HppOptimization cfg then (removeFromHppCache cfg o (npkey n) (hppRef s)).1 else hppRef s.
Proof.
  unfold networkPolicyChanged. destruct (writeApicNP _ _ _ _) as [s1|] eqn:Ew; [|done]. apply writeApicNP_hpp in Ew. simpl.
  destruct (targets _ _ o) as [oports|]; [|done]. simpl. destruct (targets _ _ n) as [nports|]; [|done]. simpl.
  intros [= <-].
  repeat match goal with |- context [if bool_decide ?P then _ else _] => destruct (bool_decide P) end; simpl;
    rewrite ?update_egress_hpp, ?update_ingress_hpp; simpl; rewrite ?update_pods_hpp; simpl;
    rewrite Ew; by destruct (HppOptimization cfg).
Qed.

Lemma networkPolicyDeleted_hpp inf np s s' :
  networkPolicyDeleted cfg inf np s = Some s' →
  hppRef s' = if HppOptimization cfg then (removeFromHppCache cfg np (npkey np) (hppRef s)).1 else hppRef s.
Proof.
  unfold networkPolicyDeleted.
  set (s0 := if String.eqb (LBType cfg) lbTypeAci then s else _).
  assert (H0 : hppRef s0 = hppRef s) by (unfold s0; by destruct (String.eqb _ _)). clearbody s0. rewrite H0.
  set (r := if HppOptimization cfg then removeFromHppCache cfg np (npkey np) (hppRef s) else _).
  assert (Hr : r.1 = if HppOptimization cfg then (removeFromHppCache cfg np (npkey np) (hppRef s)).1 else hppRef s)
    by (unfold r; by destruct (HppOptimization cfg)).
  clearbody r. destruct r as [refs [l b]]. simpl in Hr. subst refs.
  destruct (targets _ _ _) as [ports|]; [|done]. cbn [mbind option_bind].
  destruct (isNamedPortPresenInNp np) as [named|]; [|done]. cbn [mbind option_bind].
  match goal with |- context [DeleteSelectorObj np_getKey np ?i] => destruct (DeleteSelectorObj np_getKey np i) as [i1 upd] end.
  intros [= <-]. destruct named, (b && negb (String.eqb l EmptyString)); reflexivity.
Qed.

Lemma np_step_ok s s' : np_step s s' → hpp_ok (hppRef s) → hpp_ok (hppRef s').
Proof.
  intros Hs Hok. destruct Hs as [inf np s s' H|inf np s s' H|inf o n s s' H|inf np s s' H|inf pod key s s' H|inf pod key s s' H].
  - apply handleNetPolUpdate_hpp in H as [->|(hpp&->)]; [done|]. by apply addToHppCache_ok.
  - by apply networkPolicyAdded_hpp in H as ->.
  - apply networkPolicyChanged_hpp in H as ->. destruct (HppOptimization cfg); [|done].
    pose proof (removeFromHppCache_ok cfg o (npkey n) _ Hok) as G. by destruct (removeFromHppCache _ _ _ _) as [? [? ?]]; destruct G as (_&G&_).
  - apply networkPolicyDeleted_hpp in H as ->. destruct (HppOptimization cfg); [|done].
    pose proof (removeFromHppCache_ok cfg np (npkey np) _ Hok) as G. by destruct (removeFromHppCache _ _ _ _) as [? [? ?]]; destruct G as (_&G&_).
  - unfold updateCtrNmPortForPod in H. destruct (named_cports pod); [by injection H as <-|]. by apply requeue_named_hpp in H as ->.
  - unfold deleteCtrNmPortForPod in H. destruct (named_cports pod); [by injection H as <-|]. by apply requeue_named_hpp in H as ->.
Qed.

Lemma np_reach_ok s : np_reach s → hpp_ok (hppRef s).
Proof.
  unfold np_reach. intros H. remember initial_np as s0 eqn:E. assert (H0 : hpp_ok (hppRef s0)) by (subst s0; apply map_Forall_empty).
  clear E. induction H as [s|s s1 s2 H _ IH]; [done|]. apply IH. by apply (np_step_ok s).
Qed.
End Steps.

(** ** The index from addresses to policies *)

(** [registered] reads an index as a relation between networks and keys.
    Adding a block adds a pair; removing a block removes the key from every
    network the block covers.  For IPv4 blocks of which no removed one covers
    a kept one, [updateIpIndex] moves the key from the old to the new blocks,
    and an address then finds the policies whose blocks it lies in. *)

Definition v4_net (n : IPNet) : Prop := ∃ k, net4 n k.

(** Entries are stored under the text of their network and have keys. *)
Definition index_ok (idx : ip_index) : Prop :=
  ∀ t e, idx !! t = Some e → t = IPNet_String (ipNet e) ∧ v4_net (ipNet e) ∧ keys e ≠ ∅.

Definition registered (idx : ip_index) (n : IPNet) (key : string) : Prop :=
  ∃ e, idx !! IPNet_String n = Some e ∧ key ∈ keys e.

Lemma v4_String_inj n m : v4_net n → v4_net m → IPNet_String n = IPNet_String m → n = m.
Proof.
  intros [k Hn] [j Hm] H. pose proof (ParseCIDR_net4 n k Hn) as E. rewrite H, (ParseCIDR_net4 m j Hm) in E. congruence.
Qed.

(** ** Networks *)

Lemma To4_ok q : length q = 4%nat → To4 q = Some q.
Proof. intros H. unfold To4. by rewrite H. Qed.

Lemma rn_contains_net4 n q : v4_net n → ok 4 q → rn_contains n q = true ↔ in_net n (val q).
Proof.
  intros [k Hn] Hq. rewrite <- (Contains_net4 n k q Hn Hq). destruct Hn as (Hk&[Hl Hb]&Hm&Hmask). destruct Hq as [Hl' _].
  unfold rn_contains, rn_number, Contains. rewrite !To4_ok by done.
  assert (Hml : length (net_Mask n) = 4%nat).
  { rewrite Hm. assert (E : CIDRMask k 32 = cidr_bytes 4 k) by (apply (CIDRMask_cidr 4 k v4_len); lia).
    rewrite E. apply cidr_bytes_length. }
  assert (Hnn : networkNumberAndMask n = Some (net_IP n, net_Mask n)).
  { unfold networkNumberAndMask. rewrite To4_ok by done. cbn [default]. unfold id. rewrite Hl, Hml. done. }
  rewrite Hnn, Hl, Hml, Hl'. cbn [default]. unfold id. rewrite Hl'. cbn [Nat.eqb andb]. rewrite !bool_decide_eq_true.
  assert (Hz : zip_with Z.land (net_IP n) (net_Mask n) = net_IP n).
  { rewrite <- Hmask at 2. symmetry. by apply (Mask_same 4). }
  rewrite Hz. split; congruence.
Qed.

Lemma rn_contains_To4 n ip q : rn_number ip = Some q → length q = 4%nat → rn_contains n ip = rn_contains n q.
Proof. intros H Hq. unfold rn_contains. rewrite H. unfold rn_number. by rewrite (To4_ok q). Qed.

Lemma net4_self n : v4_net n → in_net n (val (net_IP n)).
Proof.
  intros [k Hn]. destruct (subnetRange_net4 n k Hn) as (stop&_&_&Hin).
  pose proof (net4_in_net n k (val (net_IP n)) Hn) as H. pose proof (host_pos 4 k). destruct Hn as (Hk&_). rewrite H. lia.
Qed.

Lemma rn_covers_refl n : v4_net n → rn_covers n n = true.
Proof.
  intros Hn. pose proof (net4_self n Hn) as Hs. pose proof Hn as [k (_&Hok&_)].
  apply (rn_contains_net4 n) in Hs; [|done|done]. unfold rn_covers. destruct Hok as [Hl _]. unfold rn_number at 1 2.
  rewrite !To4_ok by done. rewrite Nat.eqb_refl, Hs, Z.leb_refl. done.
Qed.

Lemma netEqual_eq n m : v4_net n → v4_net m → netEqual n m = true ↔ n = m.
Proof.
  intros [k (_&[Hn _]&_)] [j (_&[Hm _]&_)]. unfold netEqual, IP_Equal. rewrite Hn, Hm. cbn [Nat.eqb].
  rewrite andb_true_iff, !bool_decide_eq_true. destruct n, m; simpl. split; [intros [-> ->]; done|intros [= -> ->]; done].
Qed.

(** ** One block *)

Section Entry.
Context (idx : ip_index) (Hok : index_ok idx) (n : IPNet) (Hn : v4_net n) (key : string).

Lemma covered_entries m e : idx !! IPNet_String m = Some e → v4_net m → e ∈ CoveredNetworks idx n ↔ rn_covers n m = true.
Proof using Hok.
  intros He Hm. destruct (Hok _ _ He) as (Ht&Hv&_). apply v4_String_inj in Ht as Hme; [|done|done].
  unfold CoveredNetworks. rewrite list_elem_of_In, filter_In, <- list_elem_of_In, list_elem_of_fmap, <- Hme.
  split; [by intros [_ H]|]. intros H. split; [|done]. exists (IPNet_String m, e). split; [done|]. by apply elem_of_map_to_list.
Qed.

Lemma registered_insert e m k :
  v4_net (ipNet e) → v4_net m →
  registered (RInsert e idx) m k ↔ (m = ipNet e ∧ k ∈ keys e) ∨ (m ≠ ipNet e ∧ registered idx m k).
Proof.
  intros He Hm. unfold registered, RInsert. destruct (decide (m = ipNet e)) as [->|Hne].
  - rewrite lookup_insert_eq. split; [intros (e'&[= <-]&H); by left|]. intros [[_ H]|[H _]]; [by exists e|done].
  - rewrite lookup_insert_ne; [|intros H; apply Hne; symmetry; by apply v4_String_inj]. split; [by right|].
    intros [[H _]|[_ H]]; [done|exact H].
Qed.

Lemma ip_index_insert e : v4_net (ipNet e) → keys e ≠ ∅ → index_ok (RInsert e idx).
Proof using Hok.
  intros He Hk t e'. unfold RInsert. destruct (decide (IPNet_String (ipNet e) = t)) as [<-|Hne].
  - rewrite lookup_insert_eq. intros [= <-]. by split_and!.
  - rewrite lookup_insert_ne by done. apply Hok.
Qed.

Lemma add_entry str :
  parseCIDR str = Some n →
  let idx' := (updateIpIndexEntry idx str key true).1 in
  index_ok idx' ∧ ∀ m k, v4_net m → registered idx' m k ↔ registered idx m k ∨ (m = n ∧ k = key).
Proof using Hok Hn.
  intros Hp. unfold updateIpIndexEntry. rewrite Hp.
  destruct (List.find (λ e, netEqual (ipNet e) n) (CoveredNetworks idx n)) as [e|] eqn:Ef; cbn [fst].
  - apply find_some in Ef as [Hin Heq]. unfold CoveredNetworks in Hin. apply filter_In in Hin as [Hin _].
    apply list_elem_of_In, list_elem_of_fmap in Hin as ([t e']&Ee&Hin). simpl in Ee. subst e'. apply elem_of_map_to_list in Hin.
    destruct (Hok _ _ Hin) as (->&Hv&Hke). apply netEqual_eq in Heq; [|done|done].
    split; [apply ip_index_insert; simpl; [done|set_solver]|]. intros m k Hm. rewrite registered_insert by done. simpl. rewrite Heq in *.
    split.
    + intros [[-> H]|[_ H]]; [|by left]. apply elem_of_union in H as [H|H]; [right; by apply elem_of_singleton in H as ->|].
      left. by exists e.
    + intros [H|[-> ->]]; [|left; set_solver]. destruct (decide (m = n)) as [->|Hne]; [left|right; by split]. split; [done|].
      destruct H as (e'&He'&H). rewrite Hin in He'. injection He' as <-. set_solver.
  - assert (Hnone : idx !! IPNet_String n = None).
    { destruct (idx !! IPNet_String n) as [e|] eqn:Ee; [|done]. exfalso.
      destruct (Hok _ _ Ee) as (Ht&Hv&_). apply v4_String_inj in Ht; [|done|done].
      assert (Hc : e ∈ CoveredNetworks idx n) by (apply (covered_entries n e); [done|done|by apply rn_covers_refl]).
      apply list_elem_of_In, (find_none _ _ Ef e) in Hc.
      assert (netEqual (ipNet e) n = true) by (apply netEqual_eq; done). congruence. }
    split; [apply ip_index_insert; simpl; [done|set_solver]|]. intros m k Hm. rewrite registered_insert by done. simpl. split.
    + intros [[-> H]|[_ H]]; [right; by apply elem_of_singleton in H as ->|by left].
    + intros [H|[-> ->]]; [|left; set_solver]. right. split; [|done]. intros ->. destruct H as (e&He&_). congruence.
Qed.
End Entry.

(** Removal, over the entries that remain to be visited. *)
Lemma drop_keys_ok key entries idx b :
  index_ok idx → NoDup (IPNet_String ∘ ipNet <$> entries) → (∀ e, e ∈ entries → idx !! IPNet_String (ipNet e) = Some e) →
  let idx' := (foldl (drop_key key) (idx, b) entries).1 in
  index_ok idx' ∧ ∀ m k, v4_net m →
    registered idx' m k ↔ registered idx m k ∧ ¬ (k = key ∧ ∃ e, e ∈ entries ∧ m = ipNet e).
Proof.
  revert idx b. induction entries as [|e entries IH]; intros idx b Hok Hnd Hin.
  { split; [done|]. intros m k Hm. cbn [foldl fst]. split; [|by intros [H _]]. intros H. split; [done|].
    intros (_&e&He&_). by apply elem_of_nil in He. }
  rewrite fmap_cons in Hnd. apply NoDup_cons in Hnd as [Hnew Hnd]. pose proof (Hin e (list_elem_of_here _ _)) as He.
  destruct (Hok _ _ He) as (_&Hv&_). cbv zeta. cbn [foldl].
  set (idx1 := if bool_decide (keys e ∖ {[key]} = ∅) then RRemove (ipNet e) idx else RInsert (mkIpEntry (ipNet e) (keys e ∖ {[key]})) idx).
  change (drop_key key (idx, b) e) with (idx1, b || bool_decide (key ∈ keys e)).
  assert (H1 : index_ok idx1 ∧ (∀ m k, v4_net m → registered idx1 m k ↔ registered idx m k ∧ ¬ (k = key ∧ m = ipNet e)) ∧
               ∀ t, t ≠ IPNet_String (ipNet e) → idx1 !! t = idx !! t).
  { unfold idx1. case_bool_decide as Hemp; split_and!.
    - intros t e' H. unfold RRemove in H. apply lookup_delete_Some in H as [_ H]. by apply Hok.
    - intros m k Hm. unfold registered, RRemove. destruct (decide (m = ipNet e)) as [->|Hne].
      + rewrite lookup_delete_eq, He. split; [intros (e'&H&_); discriminate H|]. intros [(e'&[= <-]&H) Hn]. exfalso. apply Hn.
        split; [|done]. set_solver.
      + rewrite lookup_delete_ne by (intros H; apply Hne; symmetry; by apply v4_String_inj). split; [|by intros [H _]].
        intros H. split; [done|]. by intros [_ ->].
    - intros t Ht. unfold RRemove. by rewrite lookup_delete_ne.
    - by apply ip_index_insert.
    - intros m k Hm. rewrite registered_insert by done. simpl. split.
      + intros [[-> H]|[Hne H]]; [|split; [done|by intros [_ ?]]]. apply elem_of_difference in H as [H H'].
        split; [by exists e|]. intros [-> _]. apply H'. by apply elem_of_singleton.
      + intros [H Hn]. destruct (decide (m = ipNet e)) as [->|Hne]; [left|right; by split]. split; [done|].
        destruct H as (e'&He'&H). rewrite He in He'. injection He' as <-. apply elem_of_difference. split; [done|].
        intros ->%elem_of_singleton. by apply Hn.
    - intros t Ht. unfold RInsert. by rewrite lookup_insert_ne. }
  destruct H1 as (A&B&C).
  destruct (IH idx1 (b || bool_decide (key ∈ keys e)) A Hnd) as [D E].
  { intros e' He'. rewrite C; [by apply Hin, list_elem_of_further|]. intros H. apply Hnew. apply list_elem_of_fmap. by exists e'. }
  split; [exact D|]. intros m k Hm. rewrite E, B by done. split.
  - intros [[H1 H2] H3]. split; [done|]. intros (->&e'&He'&->). apply elem_of_cons in He' as [->|He']; [by apply H2|].
    apply H3. split; [done|]. by exists e'.
  - intros [H1 H2]. split; [split; [done|]|].
    + intros [-> ->]. apply H2. split; [done|]. exists e. split; [apply list_elem_of_here|done].
    + intros (->&e'&He'&->). apply H2. split; [done|]. exists e'. split; [by apply list_elem_of_further|done].
Qed.

Lemma drop_entry idx str key n :
  index_ok idx → parseCIDR str = Some n →
  let idx' := (updateIpIndexEntry idx str key false).1 in
  index_ok idx' ∧ ∀ m k, v4_net m → registered idx' m k ↔ registered idx m k ∧ ¬ (k = key ∧ rn_covers n m = true).
Proof.
  intros Hok Hp. unfold updateIpIndexEntry. rewrite Hp.
  assert (Hin : ∀ e, e ∈ CoveredNetworks idx n → idx !! IPNet_String (ipNet e) = Some e).
  { intros e He. unfold CoveredNetworks in He. apply list_elem_of_In, filter_In in He as [He _].
    apply list_elem_of_In, list_elem_of_fmap in He as ([t e']&->&He). apply elem_of_map_to_list in He. simpl in *.
    destruct (Hok _ _ He) as (<-&_). done. }
  assert (Hnd : NoDup (IPNet_String ∘ ipNet <$> CoveredNetworks idx n)).
  { unfold CoveredNetworks. generalize (λ e, rn_covers n (ipNet e)). intros f.
    assert (Hs : ∀ l, (∀ t e, (t, e) ∈ l → t = IPNet_String (ipNet e)) → NoDup (l.*1) →
      NoDup (IPNet_String ∘ ipNet <$> List.filter f (l.*2))).
    { induction l as [|[t e] l IH]; intros Hl Hd; [constructor|]. rewrite fmap_cons in Hd. apply NoDup_cons in Hd as [Ht Hd].
      rewrite fmap_cons. cbn [List.filter snd]. specialize (IH (λ t e H, Hl t e (list_elem_of_further _ _ _ H)) Hd).
      destruct (f e); [|done]. rewrite fmap_cons. apply NoDup_cons. split; [|done]. intros H. apply Ht.
      apply list_elem_of_fmap in H as (e'&E&H). apply list_elem_of_In, filter_In in H as [H _].
      apply list_elem_of_In, list_elem_of_fmap in H as ([t' e'']&->&H). simpl in *.
      apply list_elem_of_fmap. exists (t', e''). split; [|done]. simpl.
      rewrite (Hl t' e'' (list_elem_of_further _ _ _ H)), (Hl t e (list_elem_of_here _ _)). exact E. }
    apply Hs; [|apply NoDup_fst_map_to_list]. intros t e H. apply elem_of_map_to_list in H. by apply Hok in H as (->&_). }
  destruct (drop_keys_ok key (CoveredNetworks idx n) idx false Hok Hnd Hin) as [A B]. split; [exact A|].
  intros m k Hm. rewrite B by done. split; intros [H1 H2]; (split; [done|]); intros [-> H]; apply H2; (split; [done|]).
  - destruct H1 as (e&He&_). exists e. split; [by apply (covered_entries idx Hok n m e)|].
    destruct (Hok _ _ He) as (Ht&Hv&_). by apply v4_String_inj.
  - destruct H as (e&He&->). apply (covered_entries idx Hok n (ipNet e) e); [by apply Hin|done|done].
Qed.

(** ** The blocks of a policy *)

(** The policy has a block with the network. *)
Definition has_block (blocks : gset string) (n : IPNet) : Prop := ∃ b, b ∈ blocks ∧ parseCIDR b = Some n.

Definition v4_subnets (blocks : gset string) : Prop := ∀ b, b ∈ blocks → ∃ n, parseCIDR b = Some n ∧ v4_net n.

(** No block that goes covers one that stays. *)
Definition keeps_apart (old new : gset string) : Prop :=
  ∀ o b n m, o ∈ old ∖ new → b ∈ old ∩ new → parseCIDR o = Some n → parseCIDR b = Some m → rn_covers n m = false.

Lemma drop_entries key l idx :
  index_ok idx → (∀ b, b ∈ l → ∃ n, parseCIDR b = Some n ∧ v4_net n) →
  let idx' := foldl (λ idx s, (updateIpIndexEntry idx s key false).1) idx l in
  index_ok idx' ∧ ∀ m k, v4_net m → registered idx' m k ↔
    registered idx m k ∧ ¬ (k = key ∧ ∃ b n, b ∈ l ∧ parseCIDR b = Some n ∧ rn_covers n m = true).
Proof.
  revert idx. induction l as [|b l IH]; intros idx Hok Hl.
  { split; [done|]. intros m k Hm. cbn [foldl]. split; [|by intros [H _]]. intros H. split; [done|].
    intros (_&b&n&Hb&_). by apply elem_of_nil in Hb. }
  cbv zeta. cbn [foldl]. destruct (Hl b (list_elem_of_here _ _)) as (n&Hp&_).
  destruct (drop_entry idx b key n Hok Hp) as [A B].
  destruct (IH _ A) as [C D]; [intros x Hx; by apply Hl, list_elem_of_further|]. split; [exact C|].
  intros m k Hm. rewrite D, B by done. split.
  - intros [[H1 H2] H3]. split; [done|]. intros (->&x&n'&Hx&Hp'&Hc). apply elem_of_cons in Hx as [->|Hx].
    + apply H2. split; [done|]. congruence.
    + apply H3. split; [done|]. by exists x, n'.
  - intros [H1 H2]. split; [split; [done|]|].
    + intros [-> Hc]. apply H2. split; [done|]. exists b, n. split_and!; [apply list_elem_of_here|done|done].
    + intros (->&x&n'&Hx&Hp'&Hc). apply H2. split; [done|]. exists x, n'. split_and!; [by apply list_elem_of_further|done|done].
Qed.

Lemma add_entries key l idx :
  index_ok idx → (∀ b, b ∈ l → ∃ n, parseCIDR b = Some n ∧ v4_net n) →
  let idx' := foldl (λ idx s, (updateIpIndexEntry idx s key true).1) idx l in
  index_ok idx' ∧ ∀ m k, v4_net m → registered idx' m k ↔
    registered idx m k ∨ (k = key ∧ ∃ b, b ∈ l ∧ parseCIDR b = Some m).
Proof.
  revert idx. induction l as [|b l IH]; intros idx Hok Hl.
  { split; [done|]. intros m k Hm. cbn [foldl]. split; [by left|]. intros [H|(_&b&Hb&_)]; [done|by apply elem_of_nil in Hb]. }
  cbv zeta. cbn [foldl]. destruct (Hl b (list_elem_of_here _ _)) as (n&Hp&Hn).
  destruct (add_entry idx Hok n Hn key b Hp) as [A B].
  destruct (IH _ A) as [C D]; [intros x Hx; by apply Hl, list_elem_of_further|]. split; [exact C|].
  intros m k Hm. rewrite D, B by done. split.
  - intros [[H|[-> ->]]|(->&x&Hx&Hp')]; [by left|right..]; (split; [done|]).
    + exists b. split; [apply list_elem_of_here|done].
    + exists x. split; [by apply list_elem_of_further|done].
  - intros [H|(->&x&Hx&Hp')]; [by left; left|]. apply elem_of_cons in Hx as [->|Hx]; [left; right; split; [congruence|done]|].
    right. split; [done|]. by exists x.
Qed.

Lemma updateIpIndex_ok idx old new key :
  index_ok idx → v4_subnets old → v4_subnets new → keeps_apart old new →
  (∀ m, v4_net m → registered idx m key ↔ has_block old m) →
  let idx' := updateIpIndex idx old new key in
  index_ok idx' ∧ (∀ m, v4_net m → registered idx' m key ↔ has_block new m) ∧
  ∀ m k, v4_net m → k ≠ key → registered idx' m k ↔ registered idx m k.
Proof.
  intros Hok Ho Hn Hap Hreg. unfold updateIpIndex.
  destruct (drop_entries key (elements (old ∖ new)) idx Hok) as [A B]; [intros b Hb; apply Ho; set_solver|].
  destruct (add_entries key (elements (new ∖ old)) _ A) as [C D]; [intros b Hb; apply Hn; set_solver|].
  split_and!; [exact C| |].
  - intros m Hm. rewrite D, B, Hreg by done. split.
    + intros [[(b&Hb&Hp) Hno]|(_&b&Hb&Hp)]; [|exists b; set_solver]. exists b. split; [|done].
      destruct (decide (b ∈ new)) as [|Hnew]; [done|]. exfalso. apply Hno. split; [done|]. exists b, m.
      split_and!; [set_solver|done|by apply rn_covers_refl].
    + intros (b&Hb&Hp). destruct (decide (b ∈ old)) as [Hold|Hold]; [left|right; split; [done|]; exists b; set_solver].
      split; [by exists b|]. intros (_&o&n&Hin&Hpo&Hc). rewrite elem_of_elements in Hin.
      rewrite (Hap o b n m) in Hc; [done|done|set_solver|done|done].
  - intros m k Hm Hk. rewrite D, B by done. split.
    + intros [[H _]|[H _]]; done.
    + intros H. left. split; [done|]. by intros [-> _].
Qed.

(** ** Queries *)

Lemma queueIP_spec idx ips k :
  k ∈ queueIPNetPolUpdates idx ips ↔
  ∃ a ip t e, a ∈ ips ∧ ParseIP a = Some ip ∧ idx !! t = Some e ∧ rn_contains (ipNet e) ip = true ∧ k ∈ keys e.
Proof.
  unfold queueIPNetPolUpdates, ContainingNetworks. rewrite elem_of_list_to_set, list_elem_of_In, in_flat_map. split.
  - intros (a&Ha&H). apply list_elem_of_In, elem_of_elements in Ha. destruct (ParseIP a) as [ip|] eqn:Ep; [|done].
    apply in_flat_map in H as (e&He&Hk). apply filter_In in He as [He Hc].
    apply list_elem_of_In, list_elem_of_fmap in He as ([t e']&->&He). apply elem_of_map_to_list in He.
    apply list_elem_of_In, elem_of_elements in Hk. exists a, ip, t, e'. done.
  - intros (a&ip&t&e&Ha&Hp&He&Hc&Hk). exists a. split; [apply list_elem_of_In; set_solver|]. rewrite Hp. apply in_flat_map.
    exists e. split; [|apply list_elem_of_In; set_solver]. apply filter_In. split; [|done].
    apply list_elem_of_In, list_elem_of_fmap. exists (t, e). split; [done|]. by apply elem_of_map_to_list.
Qed.

(** An IPv4 address finds the keys of the networks it lies in. *)
Lemma queueIP_registered idx q k :
  index_ok idx → ok 4 q →
  k ∈ queueIPNetPolUpdates idx {[string4 q]} ↔ ∃ n, v4_net n ∧ registered idx n k ∧ in_net n (val q).
Proof.
  intros Hok Hq. rewrite queueIP_spec. pose proof Hq as [Hl _].
  assert (Hnum : rn_number (v4InV6Prefix ++ q)%list = Some q).
  { unfold rn_number, To4. rewrite length_app, Hl. simpl. by rewrite drop_0. }
  split.
  - intros (a&ip&t&e&Ha&Hp&He&Hc&Hk). apply elem_of_singleton in Ha as ->. rewrite ParseIP_string4 in Hp by done. injection Hp as <-.
    destruct (Hok _ _ He) as (->&Hv&_). exists (ipNet e). split_and!; [done|by exists e|].
    rewrite (rn_contains_To4 _ _ q) in Hc by done. by apply rn_contains_net4 in Hc.
  - intros (n&Hn&(e&He&Hk)&Hi). exists (string4 q), (v4InV6Prefix ++ q)%list, (IPNet_String n), e.
    split_and!; [by apply elem_of_singleton|by apply ParseIP_string4|done| |done].
    destruct (Hok _ _ He) as (Ht&Hv&_). apply v4_String_inj in Ht; [|done|done]. rewrite <- Ht.
    rewrite (rn_contains_To4 _ _ q) by done. by apply rn_contains_net4.
Qed.

(** ** The handler *)

Lemma update_pods_subnets inf np s : netPolSubnetIndex (update_netPolPods inf np s) = netPolSubnetIndex s.
Proof. unfold update_netPolPods. by destruct (UpdateSelectorObj _ _ _ _ _ _) as [[??]?]. Qed.
Lemma update_ingress_subnets inf b np s : netPolSubnetIndex (update_ingressPods inf b np s) = netPolSubnetIndex s.
Proof. unfold update_ingressPods. by destruct (UpdateSelectorObj _ _ _ _ _ _) as [[??]?]. Qed.
Lemma update_egress_subnets inf b np s : netPolSubnetIndex (update_egressPods inf b np s) = netPolSubnetIndex s.
Proof. unfold update_egressPods. by destruct (UpdateSelectorObj _ _ _ _ _ _) as [[??]?]. Qed.

Lemma writeApicNP_subnets cfg key np s s' : writeApicNP cfg key np s = Some s' → netPolSubnetIndex s' = netPolSubnetIndex s.
Proof.
  unfold writeApicNP. destruct (_ || _); [by intros [= <-]|]. destruct (NewVmmInjectedNwPol _ _ _ _ _); [|done].
  simpl. by intros [= <-].
Qed.

Lemma networkPolicyChanged_subnets cfg inf o n s s' :
  networkPolicyChanged cfg inf o n s = Some s' →
  netPolSubnetIndex s' = updateIpIndex (netPolSubnetIndex s) (getNetworkPolicyEgressIpBlocks o)
                           (getNetworkPolicyEgressIpBlocks n) (npkey n).
Proof.
  unfold networkPolicyChanged. destruct (writeApicNP _ _ _ _) as [s1|] eqn:Ew; [|done]. apply writeApicNP_subnets in Ew.
  cbn [mbind option_bind]. destruct (targets _ _ o) as [oports|]; [|done]. cbn [mbind option_bind].
  destruct (targets _ _ n) as [nports|]; [|done]. cbn [mbind option_bind]. intros [= <-].
  assert (E : netPolSubnetIndex s1 = netPolSubnetIndex s) by (rewrite Ew; by destruct (HppOptimization cfg)).
  repeat match goal with |- context [if bool_decide ?P then _ else _] => destruct (bool_decide P) end;
    cbn [netPolSubnetIndex emit set_ports set_subnets andb];
    rewrite ?update_egress_subnets, ?update_ingress_subnets; cbn [netPolSubnetIndex emit set_ports set_subnets];
    rewrite ?update_pods_subnets; cbn [netPolSubnetIndex emit set_ports set_subnets]; by rewrite E.
Qed.
