(* ===== verification/NetPolProps.v ===== *)
(** * NetPolProps: what holds of network policies *)
From S2P Require Import Prelude GoBytes GoNet GoText IpAlloc ApicMetadata ApicTypes ApicBuild ApicTypesFacts PodIndex PodIndexFacts K8s.
From S2P Require Import AciNames NetPol NetPolIndex NetPolAugment NetPolCtl NetPolBlocks NetPolRules NetPolPeers.
From S2P Require Import NetPolPeers NetPolAugFacts NetPolTables IpRangeFacts.

Open Scope string_scope.

(** ** Enforcement *)

Section Enforced.
Context (ips : netIps) (inf : Informers) (s : NpState) (np : NetworkPolicy).

(** The peers of the policy. *)
Definition np_peers : list Pod * gmap string labels :=
  peer_pods (inf_stores inf)
    (elements (GetPodForObj (netPolIngressPods s) (npkey np)) ++ elements (GetPodForObj (netPolEgressPods s) (npkey np)))%list
    [] ∅.

Lemma np_peers_spec :
  (∀ ns l, np_peers.2 !! ns = Some l → namespaces (inf_stores inf) !! ns = Some l) ∧
  (∀ pod, pod ∈ np_peers.1 → is_Some (np_peers.2 !! pod_ns pod) ∧ ∃ k, pods (inf_stores inf) !! k = Some pod) ∧
  (∀ k pod, (k ∈ GetPodForObj (netPolIngressPods s) (npkey np) ∨ k ∈ GetPodForObj (netPolEgressPods s) (npkey np)) →
     pods (inf_stores inf) !! k = Some pod → is_Some (namespaces (inf_stores inf) !! pod_ns pod) → pod ∈ np_peers.1).
Proof.
  unfold np_peers.
  match goal with |- context [peer_pods ?st ?ks [] ∅] => pose proof (peer_pods_spec st ks [] ∅) as H end.
  destruct (peer_pods _ _ _ _) as [ps nss]. destruct H as (A&B&C).
  { intros ns l. by rewrite lookup_empty. }
  { intros pod Hp. by apply elem_of_nil in Hp. }
  cbn [fst snd]. split_and!; [done| |].
  - intros pod Hp. split; [by apply B|]. apply C in Hp as [Hp|(k&_&Hk&_)]; [by apply elem_of_nil in Hp|by exists k].
  - intros k pod Hk Hpod Hns. apply C. right. exists k. split; [|done]. rewrite elem_of_app, !elem_of_elements. done.
Qed.

Lemma np_peers_complete rules (side : NetworkPolicy → list pod_selector) (index : np_index) :
  v4_cluster (inf_stores inf) →
  (side np = flat_map (λ r, peerPodSelector np (rule_Peers r)) rules) →
  (index = netPolIngressPods s ∨ index = netPolEgressPods s) →
  (∀ k pod, pods (inf_stores inf) !! k = Some pod → pod_ip pod ≠ EmptyString →
     selects Selector_Matches side (inf_stores inf) np pod → k ∈ GetPodForObj index (npkey np)) →
  complete (inf_stores inf) np np_peers.1 rules.
Proof.
  intros Hcl Hside Hidx H k pod Hk Hip Hsel. destruct np_peers_spec as (_&_&Hc).
  apply (Hc k); [|done|by apply (Hcl k)].
  assert (k ∈ GetPodForObj index (npkey np)).
  { apply (H k pod Hk Hip). apply selects_rules in Hsel. unfold selects. rewrite Hside. exact Hsel. }
  destruct Hidx as [->| ->]; [by left|by right].
Qed.

(** Ports of the egress rules have a protocol; the API server sets one. *)
Definition ports_have_protocols (rules : list NetworkPolicyRule) : Prop :=
  ∀ r p, r ∈ rules → p ∈ rule_Ports r → is_Some (Protocol p).

(** Each address of a rule is that of a service, with the port of the rule. *)
Definition service_address (num ip : string) : Prop :=
  ∃ k svc sp, inf_services inf !! k = Some svc ∧ ip ∈ service_ips svc ∧ sp ∈ svc_Ports svc ∧ num = Itoa (sp_Port sp).

(** The subject for ingress allows what the policy allows. *)
Definition ingress_enforced (subj : ApicObject) : Prop :=
  ∀ pkt, ok 4 (pk_ip pkt) →
    allows "ingress" pkt (views subj) ↔ policy_allows (inf_stores inf) (np_Namespace np) (np_Ingress np) pkt.

(** The subject for egress has rules that allow what the policy allows,
    followed by rules for addresses of services. *)
Definition egress_enforced (subj : ApicObject) : Prop :=
  ∃ vs ws, views subj = (vs ++ ws)%list ∧
    (∀ pkt, ok 4 (pk_ip pkt) →
       allows "egress" pkt vs ↔ policy_allows (inf_stores inf) (np_Namespace np) (np_Egress np) pkt) ∧
    (∀ v, v ∈ ws → service_view (λ _, service_address) v).

Context (H4 : v4_only ips) (Hcluster : v4_cluster (inf_stores inf)).
Context (Hindexed : peers_indexed (inf_stores inf) np s).

Lemma ingress_subject_ok hpp :
  Forall plain_rule (np_Ingress np) → has_type np "Ingress" = true →
  ∃ subj, ingress_subject ips inf s np np_peers.1 np_peers.2 hpp = Some (AddChild hpp subj) ∧
    GetDn subj = GetDn hpp ++ "/subj-networkpolicy-ingress" ∧ ingress_enforced subj.
Proof using H4 Hcluster Hindexed.
  intros Hp Ht. unfold ingress_subject. rewrite Ht.
  destruct (NewHostprotSubj_spec (GetDn hpp) "networkpolicy-ingress") as (o&->&Hdn&Hv). simpl.
  destruct np_peers_spec as (Hns&Hpods&_).
  destruct (ingress_rules_allows (inf_stores inf) np np_peers.1 np_peers.2 Hcluster Hns Hpods
    (rule_env ips inf s (npkey np)) H4 (np_Ingress np) (np_Ingress np) 0 o) as (subj&vs&->&D&V&A).
  { apply (np_peers_complete (np_Ingress np) ingressPodSelector (netPolIngressPods s)); [done|done|by left|].
    intros k pod Hk Hip. by apply (Hindexed k pod). }
  { rewrite Forall_forall in Hp. intros r Hr. split; [done|by apply Hp]. }
  simpl. exists subj. split_and!; [done|by rewrite D, Hdn|]. intros pkt Hpkt. rewrite V, Hv. by apply A.
Qed.

Lemma egress_subject_ok hpp :
  Forall plain_rule (np_Egress np) → ports_have_protocols (np_Egress np) → has_type np "Egress" = true →
  ∃ subj, egress_subject ips inf s np np_peers.1 np_peers.2 hpp = Some (AddChild hpp subj) ∧
    GetDn subj = GetDn hpp ++ "/subj-networkpolicy-egress" ∧ egress_enforced subj.
Proof using H4 Hcluster Hindexed.
  intros Hp Hproto Ht. unfold egress_subject. rewrite Ht.
  destruct (NewHostprotSubj_spec (GetDn hpp) "networkpolicy-egress") as (o&->&Hdn&Hv). simpl.
  destruct np_peers_spec as (Hns&Hpods&_).
  destruct (egress_rules_allows (inf_stores inf) np np_peers.1 np_peers.2 Hcluster Hns Hpods
    (rule_env ips inf s (npkey np)) H4 (np_Egress np) (np_Egress np) 0 o ∅ ∅) as (subj&vs&h&ps&E&D&V&A).
  { apply (np_peers_complete (np_Egress np) egressPodSelector (netPolEgressPods s)); [done|done|by right|].
    intros k pod Hk Hip. by apply (Hindexed k pod). }
  { rewrite Forall_forall in Hp. intros r Hr. split; [done|by apply Hp]. }
  rewrite E. simpl.
  pose proof (egress_rules_recorded np np_peers.1 np_peers.2 _ false (np_Egress np) (np_Egress np) 0 o ∅ ∅ subj (h, ps)
    ltac:(done) ltac:(done) (recorded_empty _ _ _ _ _) (below_empty _) ltac:(done) E) as Hrec.
  destruct (buildServiceAugment_ok (augment_env inf s) h ps) as (ws&G&Hw).
  { intros k prs Hk p Hport. destruct (Hrec k prs Hk) as [(r&Hr&Hf) _]. rewrite Hport in Hf. destruct Hf as [Hin _].
    by apply (Hproto r p). }
  destruct (G subj) as (subj'&->&D'&V'). simpl. exists subj'. split_and!; [done|by rewrite D', D, Hdn|].
  exists vs, (ws (GetDn subj)). rewrite V', V, Hv. split_and!; [done|exact A|].
  intros v Hin. destruct (Hw _ v Hin) as [W1 W2]. split; [exact W1|]. intros ip Hip.
  destruct (W2 ip Hip) as (k&prs&_&[[_ (p&n&k'&svc&sp&_&_&B1&B2&B3&B4&_)]|(k'&svc&sp&B1&B2&B3&B4&_)]); by exists k', svc, sp.
Qed.
End Enforced.

(** C3: in an IPv4 cluster, with policies that use port numbers, IPv4 blocks
    and one selector per peer, and with the peer indexes up to date, an update
    of a policy always completes and writes one host protection policy under
    the name of the policy.  Its ingress subject lets a packet through exactly
    if an ingress rule of the policy selects its port and its peer (the
    address of a stored pod that matches, or an address in a block and not in
    an exception); its egress subject likewise, apart from further rules whose
    addresses are addresses of services.  There is a subject for a direction
    exactly if the policy has that type. *)
Theorem netpol_enforced cfg ips inf s np :
  ChainedMode cfg = false → v4_only ips → v4_cluster (inf_stores inf) → peers_indexed (inf_stores inf) np s →
  Forall plain_rule (np_Ingress np) → Forall plain_rule (np_Egress np) → ports_have_protocols (np_Egress np) →
  ∃ s' hpp ing eg, handleNetPolUpdate cfg ips inf np s = Some s' ∧
    effects s' = (effects s ++ [WriteObjects (label_key cfg np) [hpp]])%list ∧
    GetDn hpp = "uni/tn-" ++ AciPolicyTenant cfg ++ "/pol-" ++ label_key cfg np ∧
    Children hpp = (ing ++ eg)%list ∧
    (if has_type np "Ingress" then ∃ subj, ing = [subj] ∧ ingress_enforced inf np subj else ing = []) ∧
    (if has_type np "Egress" then ∃ subj, eg = [subj] ∧ egress_enforced inf np subj else eg = []).
Proof.
  intros Hch H4 Hcl Hidx Hin Heg Hproto. unfold handleNetPolUpdate. rewrite Hch.
  destruct (peer_pods (inf_stores inf) _ [] ∅) as [pp pn] eqn:Epp.
  assert (Ep : np_peers inf s np = (pp, pn)) by exact Epp.
  destruct (NewHostprotPol_spec (AciPolicyTenant cfg) (label_key cfg np)) as (o&->&Hdn&Hch0). simpl.
  assert (I : ∃ o1 ing, ingress_subject ips inf s np pp pn o = Some o1 ∧ GetDn o1 = GetDn o ∧ Children o1 = ing ∧
    (if has_type np "Ingress" then ∃ subj, ing = [subj] ∧ ingress_enforced inf np subj else ing = [])).
  { destruct (has_type np "Ingress") eqn:Ht.
    - destruct (ingress_subject_ok ips inf s np H4 Hcl Hidx o Hin Ht) as (subj&E&_&Hs). rewrite Ep in E. cbn [fst snd] in E.
      exists (AddChild o subj), [subj]. autorewrite with apicobj. rewrite Hch0. split_and!; [done..|by exists subj].
    - exists o, []. unfold ingress_subject. by rewrite Ht. }
  destruct I as (o1&ing&->&D1&C1&I1). simpl.
  assert (E : ∃ o2 eg, egress_subject ips inf s np pp pn o1 = Some o2 ∧ GetDn o2 = GetDn o1 ∧ Children o2 = (Children o1 ++ eg)%list ∧
    (if has_type np "Egress" then ∃ subj, eg = [subj] ∧ egress_enforced inf np subj else eg = [])).
  { destruct (has_type np "Egress") eqn:Ht.
    - destruct (egress_subject_ok ips inf s np H4 Hcl Hidx o1 Heg Hproto Ht) as (subj&E&_&Hs). rewrite Ep in E. cbn [fst snd] in E.
      exists (AddChild o1 subj), [subj]. autorewrite with apicobj. split_and!; [done..|by exists subj].
    - exists o1, []. unfold egress_subject. rewrite Ht, app_nil_r. done. }
  destruct E as (o2&eg&->&D2&C2&I2). simpl. eexists _, o2, ing, eg. split; [reflexivity|].
  split_and!; [by destruct (HppOptimization cfg)|congruence|congruence|exact I1|exact I2].
Qed.

(** *** An example *)

Definition example_cfg (opt : bool) : Config := mkConfig "k8s" "kube" "dom" "Kubernetes" "ctl" EmptyString false opt.
Definition v4_pool : IpAlloc := mkAlloc [mkRange [10; 2; 0; 2]%Z [10; 2; 255; 254]%Z].
Definition v4_ips : netIps := mkNetIps v4_pool New.

Definition app (name : string) : LabelSelector := mkLs {["app" := name]} [].
Definition tcp (n : Z) : NetworkPolicyPort := mkPort (Some ProtocolTCP) (Some (IntVal n)) None.
Definition pod_peer (name : string) : NetworkPolicyPeer := mkPeer (Some (app name)) None None.
Definition block_peer (cidr : string) (except : list string) : NetworkPolicyPeer :=
  mkPeer None None (Some (mkBlock cidr except)).
Definition a_pod (name : string) (ip : string) : Pod := mkPod "ns" name {["app" := name]} ip [ip] [].

Definition example_np : NetworkPolicy :=
  mkNp "ns" "np" (app "db") [mkRule [tcp 80] [pod_peer "web"]]
    [mkRule [tcp 443] [block_peer "10.0.0.0/8" ["10.1.0.0/16"]]] None.

Definition example_inf (np : NetworkPolicy) : Informers :=
  mkInformers (mkStores {["ns/web" := a_pod "web" "10.2.0.7"]} {["ns" := ∅]} {["ns/np" := np]}) ∅ (FromEndpoints ∅).

(** The state after the policy was added. *)
Definition example_state (opt : bool) (np : NetworkPolicy) : NpState :=
  default initial_np (networkPolicyAdded (example_cfg opt) (example_inf np) np initial_np).

#[local] Instance net4_dec n k : Decision (net4 n k).
Proof. unfold net4. apply _. Defined.

Lemma v4_cidr_check cidr k :
  match ParseCIDR cidr with Some n => bool_decide (net4 n k) | None => false end = true → v4_cidr cidr.
Proof. destruct (ParseCIDR cidr) as [n|] eqn:E; [|done]. intros H%bool_decide_eq_true_1. by exists n, k. Qed.

Lemma example_cluster np : v4_cluster (inf_stores (example_inf np)).
Proof.
  intros k pod Hk. cbn in Hk. apply lookup_singleton_Some in Hk as [<- <-]. split_and!; [by exists ∅| |done].
  intros x Hx. apply list_elem_of_singleton in Hx as ->. exists [10; 2; 0; 7]%Z. split; [|reflexivity].
  apply (bool_decide_eq_true_1 _). reflexivity.
Qed.

Lemma example_plain ports peers :
  forallb (λ p, match Port p, EndPort p with Some (IntVal _), None => true | _, _ => false end) ports = true →
  Forall one_selector peers → v4_blocks peers → plain_rule (mkRule ports peers).
Proof.
  intros Hp H1 H2. split_and!; [|done|done]. apply Forall_forall. intros p Hin. rewrite forallb_forall in Hp.
  apply list_elem_of_In, Hp in Hin. destruct p as [pr [[n|n]|] [e|]]; try done. by exists n.
Qed.

Lemma netpol_enforced_witness :
  ∃ s' hpp ing eg,
    handleNetPolUpdate (example_cfg true) v4_ips (example_inf example_np) example_np (example_state true example_np) = Some s' ∧
    effects s' = (effects (example_state true example_np) ++ [WriteObjects (label_key (example_cfg true) example_np) [hpp]])%list ∧
    GetDn hpp = "uni/tn-" ++ AciPolicyTenant (example_cfg true) ++ "/pol-" ++ label_key (example_cfg true) example_np ∧
    Children hpp = (ing ++ eg)%list ∧
    (∃ subj, ing = [subj] ∧ ingress_enforced (example_inf example_np) example_np subj) ∧
    (∃ subj, eg = [subj] ∧ egress_enforced (example_inf example_np) example_np subj).
Proof.
  apply (netpol_enforced (example_cfg true) v4_ips (example_inf example_np) (example_state true example_np) example_np).
  - reflexivity.
  - split; reflexivity.
  - apply example_cluster.
  - intros k pod Hk _. cbn in Hk. apply lookup_singleton_Some in Hk as [<- <-]. split; intros H; [|exfalso].
    + apply (bool_decide_eq_true_1 _). vm_compute. reflexivity.
    + destruct H as (ps&Hps&_). vm_compute in Hps. by apply elem_of_nil in Hps.
  - constructor; [|constructor]. apply example_plain; [reflexivity|constructor; [by right|constructor]|].
    intros peer b Hp. apply list_elem_of_singleton in Hp as ->. discriminate.
  - constructor; [|constructor]. apply example_plain; [reflexivity|constructor; [by left|constructor]|].
    intros peer b Hp. apply list_elem_of_singleton in Hp as ->. intros [= <-].
    split; [apply (v4_cidr_check _ 8); vm_compute; reflexivity|].
    constructor; [|constructor]. apply (v4_cidr_check _ 16). vm_compute. reflexivity.
  - intros r p Hr Hp. apply list_elem_of_singleton in Hr as ->. apply list_elem_of_singleton in Hp as ->. by exists ProtocolTCP.
Defined.

(** ** Addresses of services *)

Section Services.
Context (inf : Informers) (s : NpState) (np : NetworkPolicy) (peerPods : list Pod) (peerNs : gmap string labels).

(** An egress rule with the port key has a subnet that the address is in. *)
Definition egress_covers (key a : string) : Prop :=
  ∃ r sub n ip, r ∈ np_Egress np ∧ key ∈ rule_keys r ∧ sub ∈ rule_subs np peerPods peerNs r ∧
    parseCIDR sub = Some n ∧ ParseIP a = Some ip ∧ rn_contains n ip = true.

(** An egress rule with the port key allows every IPv4 address. *)
Definition egress_open (key : string) : Prop :=
  ∃ r, r ∈ np_Egress np ∧ key ∈ rule_keys r ∧ "0.0.0.0/0" ∈ rule_subs np peerPods peerNs r.

(** The address of a service is let through on a port of the service: some
    rule of the policy has a port that selects it, and either rules with that
    port are open, or they cover the endpoints of a subset (or slice). *)
Definition service_granted (num ip : string) : Prop :=
  ∃ r key port k svc sp, r ∈ np_Egress np ∧ from_port r key port ∧
    inf_services inf !! k = Some svc ∧ ip ∈ service_ips svc ∧ sp ∈ svc_Ports svc ∧ num = Itoa (sp_Port sp) ∧
    ((egress_open key ∧ ∃ p v, port = Some p ∧ Port p = Some v ∧ Protocol p = Some (sp_Protocol sp) ∧
        is_Some (port_entries (targetPortIndex s) p v !! IntOrString_String (sp_TargetPort sp))) ∨
     (port_selects port (map Itoa (getPortNums (targetPortIndex s) port)) sp = Some true ∧
      endpoints_covered (inf_source inf) k svc sp (egress_covers key))).

Lemma justified_granted h ps k prs num ip :
  recorded np peerPods peerNs true (np_Egress np) (h, ps) → ps !! k = Some prs →
  justified (augment_env inf s) h prs num ip → service_granted num ip.
Proof.
  intros Hrec Hk Hj. destruct (Hrec k prs Hk) as [(r&Hr&Hf) Hsub]. cbn [fst] in Hsub.
  destruct Hj as [[Hall (p&v&k'&svc&sp&B0&B1&B2&B3&B4&B5&B6&B7)]|(k'&svc&sp&B2&B3&B4&B5&B6&B7)].
  - exists r, k, (prs_port prs), k', svc, sp. split_and!; [done..|]. left. split.
    + destruct (Hsub _ Hall) as (r'&H1&H2&H3). exists r'. split_and!; [done|by apply H3|done].
    + by exists p, v.
  - exists r, k, (prs_port prs), k', svc, sp. split_and!; [done..|]. right. split; [done|].
    revert B7. apply endpoints_covered_mono. intros a (i&Hi&Hc). unfold ranger_contains in Hc.
    apply existsb_exists in Hc as (n&Hn&Hc). apply list_elem_of_In in Hn.
    unfold subnet_ranger in Hn. apply list_elem_of_omap in Hn as (sub&Hsin&Hn). apply elem_of_elements in Hsin.
    destruct (Hsub _ Hsin) as (r'&H1&H2&H3). exists r', sub, n, i. split_and!; [done|by apply H3|done..].
Qed.
End Services.

(** C34: Suppose that every port of the egress rules has a protocol, and that
    every egress rule has at most one port (for rules with several ports the
    code shares their subnets, [netpol_shared_subnets]).  If the rules of the
    policy itself are computed, then the rules that are added for services are
    computed too, and every address in them is the address of a service, on the
    number of one of its ports, for which some egress rule has a port that
    selects it, and the egress rules with that same port either are open to all
    IPv4 addresses or cover every endpoint address of some subset (or slice) of
    the service.  This is weaker than the comment at buildServiceAugment, which
    asks for all endpoints of the service: the code is content with those of
    one subset ([netpol_one_subset_enough]). *)
Theorem netpol_service_rules ips inf s np peerPods peerNs subj subj1 h ps :
  ports_have_protocols (np_Egress np) → single_ports (np_Egress np) →
  egress_rules (rule_env ips inf s (npkey np)) np peerPods peerNs 0 (np_Egress np) subj (∅, ∅) = Some (subj1, (h, ps)) →
  ∃ subj2 ws, buildServiceAugment (augment_env inf s) h ps subj1 = Some subj2 ∧ views subj2 = (views subj1 ++ ws)%list ∧
    ∀ v, v ∈ ws → service_view (λ _, service_granted inf s np peerPods peerNs) v.
Proof.
  intros Hproto Hsp E.
  pose proof (egress_rules_recorded np peerPods peerNs _ true (np_Egress np) (np_Egress np) 0 subj ∅ ∅ subj1 (h, ps)
    ltac:(done) ltac:(done) (recorded_empty _ _ _ _ _) (below_empty _) (λ _, distinct_empty) E) as Hrec.
  destruct (buildServiceAugment_ok (augment_env inf s) h ps) as (ws&G&Hw).
  { intros k prs Hk p Hport. destruct (Hrec k prs Hk) as [(r&Hr&Hf) _]. rewrite Hport in Hf. destruct Hf as [Hin _].
    by apply (Hproto r p). }
  destruct (G subj1) as (subj2&E2&_&V2). exists subj2, (ws (GetDn subj1)). split_and!; [done|done|].
  intros v Hv. destruct (Hw _ v Hv) as [W1 W2]. split; [exact W1|]. intros ip Hip.
  destruct (W2 ip Hip) as (k&prs&Hk&Hj). by apply (justified_granted inf s np peerPods peerNs h ps k prs).
Qed.

(** *** Examples *)

Definition svc80 : Service := mkSvc "ns" "svc" "172.30.0.1" [mkSvcPort EmptyString ProtocolTCP 8080 (IntVal 80)] [].
Definition svc_endpoints (addrs : list string) : EndpointSource :=
  FromEndpoints {["ns/svc" := [mkSubset addrs [] [mkEpPort EmptyString ProtocolTCP]]]}.
Definition svc_inf (addrs : list string) : Informers := mkInformers (mkStores ∅ ∅ ∅) {["ns/svc" := svc80]} (svc_endpoints addrs).

(** The state once the service and its endpoints are indexed. *)
Definition svc_state (addrs : list string) : NpState :=
  mkNpState NewPodSelectorIndex NewPodSelectorIndex NewPodSelectorIndex ∅
    (updateIpIndex ∅ ∅ (list_to_set addrs) "ns/svc")
    (updateTargetPortIndex true "ns/svc" ∅ (getServiceTargetPorts svc80) ∅) ∅ ∅ ∅ [].

Definition egress_np (rules : list NetworkPolicyRule) : NetworkPolicy := mkNp "ns" "np" (app "db") [] rules (Some ["Egress"]).

(** The egress subject of a policy without pod peers. *)
Definition egress_run (addrs : list string) (rules : list NetworkPolicyRule) : option (ApicObject * (heap * port_subs)) :=
  subj ← NewHostprotSubj "pol" "networkpolicy-egress";
  egress_rules (rule_env v4_ips (svc_inf addrs) (svc_state addrs) (npkey (egress_np rules))) (egress_np rules) [] ∅ 0 rules subj (∅, ∅).

(** The addresses, protocols and ports of its rules, with those for services. *)
Definition egress_views (addrs : list string) (rules : list NetworkPolicyRule) : option (list (string * string * list string)) :=
  '(subj, (h, ps)) ← egress_run addrs rules;
  subj ← buildServiceAugment (augment_env (svc_inf addrs) (svc_state addrs)) h ps subj;
  Some ((λ v, (v_proto v, v_port v, v_addrs v)) <$> views subj).

Definition web_rules : list NetworkPolicyRule :=
  [mkRule [tcp 80] [block_peer "192.168.0.0/16" []]; mkRule [tcp 443] [block_peer "10.0.0.0/8" []]].

Example egress_views_web :
  egress_views ["192.168.5.5"] web_rules =
  Some [("tcp", "80", ["192.168.0.0/16"]); ("tcp", "443", ["10.0.0.0/8"]); ("tcp", "8080", ["172.30.0.1"])].
Proof. vm_compute. reflexivity. Qed.

Lemma netpol_service_rules_witness :
  ∃ subj1 h ps subj2 ws, egress_run ["192.168.5.5"] web_rules = Some (subj1, (h, ps)) ∧
    buildServiceAugment (augment_env (svc_inf ["192.168.5.5"]) (svc_state ["192.168.5.5"])) h ps subj1 = Some subj2 ∧
    views subj2 = (views subj1 ++ ws)%list ∧
    ∀ v, v ∈ ws → service_view (λ _, service_granted (svc_inf ["192.168.5.5"]) (svc_state ["192.168.5.5"]) (egress_np web_rules) [] ∅) v.
Proof.
  assert (is_Some (egress_run ["192.168.5.5"] web_rules)) as [[subj1 [h ps]] E].
  { apply (bool_decide_eq_true_1 _). vm_compute. reflexivity. }
  pose proof E as E0. unfold egress_run in E. destruct (NewHostprotSubj _ _) as [subj|] eqn:En; [|discriminate E].
  destruct (netpol_service_rules v4_ips (svc_inf ["192.168.5.5"]) (svc_state ["192.168.5.5"]) (egress_np web_rules) [] ∅ subj subj1 h ps)
    as (subj2&ws&H1&H2&H3); [| |exact E|].
  - intros r p Hr Hp. assert (forallb (λ r, forallb (λ p, bool_decide (is_Some (Protocol p))) (rule_Ports r)) web_rules = true) as H
      by reflexivity.
    rewrite forallb_forall in H. apply list_elem_of_In, H in Hr. rewrite forallb_forall in Hr.
    apply list_elem_of_In, Hr in Hp. by apply (bool_decide_eq_true_1 _) in Hp.
  - repeat constructor; simpl; lia.
  - exists subj1, h, ps, subj2, ws. exact (conj E0 (conj H1 (conj H2 H3))).
Defined.

(** Ports 80 and 443 to 10.0.0.0/8, and 443 to 192.168.0.0/16. *)
Definition leak_rules : list NetworkPolicyRule :=
  [mkRule [tcp 80; tcp 443] [block_peer "10.0.0.0/8" []]; mkRule [tcp 443] [block_peer "192.168.0.0/16" []]].

(** The maps of subnets are shared by the ports of a rule, so a later rule
    for one of the ports also widens the others.  With ports 80 and 443 to
    10.0.0.0/8 and port 443 to 192.168.0.0/16, a service whose target port is 80
    and whose only endpoint is 192.168.5.5 is let through, though no rule allows port
    80 of that endpoint: no rule of the subject covers it.  With the two ports
    in separate rules the service is not let through. *)
Theorem netpol_shared_subnets :
  egress_views ["192.168.5.5"] leak_rules =
    Some [("tcp", "80", ["10.0.0.0/8"]); ("tcp", "443", ["10.0.0.0/8"]); ("tcp", "443", ["192.168.0.0/16"]);
          ("tcp", "8080", ["172.30.0.1"])] ∧
  (∀ a, egress_covers (egress_np leak_rules) [] ∅ "tcp-num-80" a → a ≠ "192.168.5.5") ∧
  egress_views ["192.168.5.5"]
    [mkRule [tcp 80] [block_peer "10.0.0.0/8" []]; mkRule [tcp 443] [block_peer "10.0.0.0/8" []];
     mkRule [tcp 443] [block_peer "192.168.0.0/16" []]] =
    Some [("tcp", "80", ["10.0.0.0/8"]); ("tcp", "443", ["10.0.0.0/8"]); ("tcp", "443", ["192.168.0.0/16"])].
Proof.
  split_and!; [vm_compute; reflexivity| |vm_compute; reflexivity].
  intros a (r&sub&n&ip&Hr&Hk&Hsub&Hn&Hip&Hc) ->.
  apply elem_of_cons in Hr as [->|Hr]; [|apply list_elem_of_singleton in Hr as ->].
  - assert (E : rule_subs (egress_np leak_rules) [] ∅ (mkRule [tcp 80; tcp 443] [block_peer "10.0.0.0/8" []]) = {["10.0.0.0/8"]})
      by (vm_compute; reflexivity).
    rewrite E in Hsub. apply elem_of_singleton in Hsub as ->.
    vm_compute in Hn, Hip. injection Hn as <-. injection Hip as <-. vm_compute in Hc. discriminate Hc.
  - apply (bool_decide_eq_true_2 _) in Hk. by vm_compute in Hk.
Qed.

(** ** Blocks *)

(** An IP block with exceptions becomes a list of networks that together
    hold exactly the addresses of the block that are in no exception; if some
    exception is not a network, the result is an error (and the block is left
    out of the rule). *)
Theorem netpol_ip_block b :
  v4_cidr (CIDR b) → Forall (λ e, v4_cidr e ∨ ParseCIDR e = None) (Except b) →
  if bool_decide (Forall (λ e, is_Some (ParseCIDR e)) (Except b)) then
    ∃ subs, ipBlockToSubnets b = Some (Some subs) ∧
      ∀ ip, ok 4 ip → (∃ t, t ∈ subs ∧ text_covers t ip = true) ↔ block_has b ip
  else ipBlockToSubnets b = Some None.
Proof.
  intros Hc He. case_bool_decide as Hall.
  - rewrite Forall_forall in Hall, He. assert (Hv : Forall v4_cidr (Except b)).
    { apply Forall_forall. intros e Hin. destruct (He e Hin) as [H|H]; [done|]. destruct (Hall e Hin) as [n Hn]. congruence. }
    destruct (ipBlock_ok b Hc Hv) as (nets&E&Hk&Hx). exists (map IPNet_String nets). split; [done|]. intros ip Hip.
    unfold block_has. rewrite <- Hx. split.
    + intros (t&Ht&Hcov). apply list_elem_of_In, in_map_iff in Ht as (n&<-&Hn). apply list_elem_of_In in Hn.
      destruct (Hk n Hn) as [k Hnk]. exists n. split; [done|]. by apply (text_covers_net n k).
    + intros (n&Hn&Hi). destruct (Hk n Hn) as [k Hnk]. exists (IPNet_String n). split; [|by apply (text_covers_net n k)].
      apply list_elem_of_In, in_map_iff. exists n. split; [done|]. by apply list_elem_of_In.
  - apply not_Forall_Exists in Hall; [|apply _]. apply Exists_exists in Hall as (e&Hin&Hnone). apply eq_None_not_Some in Hnone.
    by apply (ipBlock_error b e).
Qed.

Lemma netpol_ip_block_witness :
  (∃ subs, ipBlockToSubnets (mkBlock "10.0.0.0/8" ["10.1.0.0/16"]) = Some (Some subs) ∧
    ∀ ip, ok 4 ip → (∃ t, t ∈ subs ∧ text_covers t ip = true) ↔ block_has (mkBlock "10.0.0.0/8" ["10.1.0.0/16"]) ip) ∧
  ipBlockToSubnets (mkBlock "10.0.0.0/8" ["10.1.0.0"]) = Some None.
Proof.
  split.
  - apply (netpol_ip_block (mkBlock "10.0.0.0/8" ["10.1.0.0/16"])).
    + apply (v4_cidr_check _ 8). vm_compute. reflexivity.
    + constructor; [|constructor]. left. apply (v4_cidr_check _ 16). vm_compute. reflexivity.
  - apply (netpol_ip_block (mkBlock "10.0.0.0/8" ["10.1.0.0"])).
    + apply (v4_cidr_check _ 8). vm_compute. reflexivity.
    + constructor; [|constructor]. right. vm_compute. reflexivity.
Defined.

(** ** Shared policies *)

(** In every state the controller reaches, from the start and through any
    of the handlers, each reference counts its distinct policies and has at least
    one.  Writing a policy adds it to the users of its name; removing a
    policy takes it out and reports that the name is unused exactly if the
    policy was its only user. *)
Theorem netpol_hpp_cache cfg ips s :
  np_reach cfg ips s →
  hpp_ok (hppRef s) ∧
  (∀ l k hpp l' k', refers (addToHppCache l k hpp (hppRef s)) l' k' ↔ refers (hppRef s) l' k' ∨ (l' = l ∧ k' = k)) ∧
  (∀ np k, let '(refs', (l, noRef)) := removeFromHppCache cfg np k (hppRef s) in
     (∀ l' k', refers refs' l' k' ↔ refers (hppRef s) l' k' ∧ ¬ (l' = l ∧ k' = k)) ∧
     (noRef = true ↔ refers (hppRef s) l k ∧ ∀ k', refers (hppRef s) l k' → k' = k)).
Proof.
  intros H. apply np_reach_ok in H as Hok. split_and!; [done| |].
  - intros l k hpp. by apply addToHppCache_ok.
  - intros np k. pose proof (removeFromHppCache_ok cfg np k (hppRef s) Hok) as G.
    destruct (removeFromHppCache cfg np k (hppRef s)) as [refs' [l noRef]]. by destruct G as (_&_&G).
Qed.

(** The example policy added and written. *)
Definition written_state : NpState :=
  default initial_np (handleNetPolUpdate (example_cfg true) v4_ips (example_inf example_np) example_np (example_state true example_np)).

Lemma example_added : networkPolicyAdded (example_cfg true) (example_inf example_np) example_np initial_np = Some (example_state true example_np).
Proof. vm_compute. reflexivity. Qed.
Lemma example_written :
  handleNetPolUpdate (example_cfg true) v4_ips (example_inf example_np) example_np (example_state true example_np) = Some written_state.
Proof. vm_compute. reflexivity. Qed.

Lemma netpol_hpp_cache_witness :
  hpp_ok (hppRef written_state) ∧ size (hppRef written_state) = 1%nat ∧
  (removeFromHppCache (example_cfg true) example_np "ns/np" (hppRef written_state)).2.2 = true.
Proof.
  destruct (netpol_hpp_cache (example_cfg true) v4_ips written_state) as (H&_).
  - apply (rtc_l _ _ (example_state true example_np)); [eapply step_added, example_added|].
    apply (rtc_l _ _ written_state); [eapply step_update, example_written|constructor].
  - split_and!; [exact H|vm_compute; reflexivity|vm_compute; reflexivity].
Defined.

(** ** The index of blocks *)

(** When a policy changes, and no egress block that goes covers one that
    stays, the index of blocks afterwards finds the policy for an IPv4 address
    exactly if the address lies in an egress block of the new policy, and it
    finds every other policy for the same addresses as before. *)
Theorem netpol_ip_index cfg inf o n s s' :
  let old := getNetworkPolicyEgressIpBlocks o in
  let new := getNetworkPolicyEgressIpBlocks n in
  networkPolicyChanged cfg inf o n s = Some s' → index_ok (netPolSubnetIndex s) →
  v4_subnets old → v4_subnets new → keeps_apart old new →
  (∀ m, v4_net m → registered (netPolSubnetIndex s) m (npkey n) ↔ has_block old m) →
  index_ok (netPolSubnetIndex s') ∧
  ∀ q k, ok 4 q →
    k ∈ queueIPNetPolUpdates (netPolSubnetIndex s') {[string4 q]} ↔
    if decide (k = npkey n) then ∃ m, v4_net m ∧ has_block new m ∧ in_net m (val q)
    else k ∈ queueIPNetPolUpdates (netPolSubnetIndex s) {[string4 q]}.
Proof.
  intros old new Hch Hok Ho Hn Hap Hreg. apply networkPolicyChanged_subnets in Hch as ->.
  destruct (updateIpIndex_ok (netPolSubnetIndex s) old new (npkey n) Hok Ho Hn Hap Hreg) as (A&B&C).
  split; [exact A|]. intros q k Hq. destruct (decide (k = npkey n)) as [->|Hne]; rewrite !queueIP_registered by done.
  - split; intros (m&Hm&H1&H2); exists m; (split_and!; [done|by apply B|done]).
  - split; intros (m&Hm&H1&H2); exists m; (split_and!; [done|by apply C|done]).
Qed.

Definition changed_np (cidrs : list string) : NetworkPolicy :=
  egress_np [mkRule [tcp 443] (map (λ c, block_peer c []) cidrs)].

Definition changed_state (cidrs : list string) : NpState :=
  default initial_np (networkPolicyAdded (example_cfg true) (svc_inf []) (changed_np cidrs) initial_np).

Lemma one_block c k :
  match ParseCIDR c with Some n => bool_decide (net4 n k) | None => false end = true → v4_subnets {[c]}.
Proof.
  intros H b Hb. apply elem_of_singleton in Hb as ->. apply v4_cidr_check in H as (n&j&Hp&Hn). exists n.
  split; [unfold parseCIDR; by rewrite Hp|by exists j].
Qed.

(** The index after a policy with the blocks is added to an empty one. *)
Lemma fresh_index blocks key :
  v4_subnets blocks →
  index_ok (updateIpIndex ∅ ∅ blocks key) ∧
  ∀ m, v4_net m → registered (updateIpIndex ∅ ∅ blocks key) m key ↔ has_block blocks m.
Proof.
  intros H. destruct (updateIpIndex_ok ∅ ∅ blocks key) as (A&B&_); [| |done| | |by split].
  - intros t e. by rewrite lookup_empty.
  - intros b Hb. by apply not_elem_of_empty in Hb.
  - intros o b n m Ho. apply elem_of_difference in Ho as [Ho _]. by apply not_elem_of_empty in Ho.
  - intros m _. split; [intros (e&He&_); by rewrite lookup_empty in He|]. intros (b&Hb&_). by apply not_elem_of_empty in Hb.
Qed.

Lemma netpol_ip_index_witness :
  ∃ s', networkPolicyChanged (example_cfg true) (svc_inf []) (changed_np ["10.0.0.0/8"]) (changed_np ["192.168.0.0/16"])
          (changed_state ["10.0.0.0/8"]) = Some s' ∧ index_ok (netPolSubnetIndex s').
Proof.
  destruct (networkPolicyChanged (example_cfg true) (svc_inf []) (changed_np ["10.0.0.0/8"]) (changed_np ["192.168.0.0/16"])
          (changed_state ["10.0.0.0/8"])) as [s'|] eqn:E; [|vm_compute in E; discriminate E].
  exists s'. split; [reflexivity|].
  assert (O : getNetworkPolicyEgressIpBlocks (changed_np ["10.0.0.0/8"]) = {["10.0.0.0/8"]}) by (vm_compute; reflexivity).
  assert (N : getNetworkPolicyEgressIpBlocks (changed_np ["192.168.0.0/16"]) = {["192.168.0.0/16"]}) by (vm_compute; reflexivity).
  assert (S0 : netPolSubnetIndex (changed_state ["10.0.0.0/8"]) = updateIpIndex ∅ ∅ {["10.0.0.0/8"]} "ns/np")
    by (vm_compute; reflexivity).
  assert (V1 : v4_subnets {["10.0.0.0/8"]}) by (apply (one_block _ 8%nat); vm_compute; reflexivity).
  assert (V2 : v4_subnets {["192.168.0.0/16"]}) by (apply (one_block _ 16%nat); vm_compute; reflexivity).
  destruct (fresh_index {["10.0.0.0/8"]} "ns/np" V1) as [G1 G2].
  apply (netpol_ip_index (example_cfg true) (svc_inf []) (changed_np ["10.0.0.0/8"]) (changed_np ["192.168.0.0/16"])
    (changed_state ["10.0.0.0/8"]) s' E); rewrite ?O, ?N, ?S0; [exact G1|exact V1|exact V2| |exact G2].
  intros a b m m' _ Hb. exfalso. apply elem_of_intersection in Hb as [H1 H2].
  apply elem_of_singleton in H1, H2. congruence.
Defined.

(** ** Where the code and the meaning of policies part *)

(** Behaviour of src/pkg/controller/network_policy.go outside the hypotheses
    of NetPolProps: each statement is an input on which the rules are wider or
    narrower than the policy, or a table loses what it should keep. *)

(** ** Dual stack *)

Lemma v4_text_not_v6 t : v4_text t → of_ethertype "ipv6" t = false.
Proof.
  unfold of_ethertype. intros [(q&Hq&->)|(n&k&Hn&->)].
  - rewrite ParseCIDR_string4, ParseIP_string4 by done. destruct Hq as [Hl _].
    assert (Ht : To4 (v4InV6Prefix ++ q) = Some q).
    { unfold To4. rewrite length_app, Hl. simpl. rewrite drop_0. done. }
    rewrite Ht. simpl. by rewrite andb_false_r.
  - rewrite (ParseCIDR_net4 n k Hn). destruct Hn as (_&[Hl _]&_). unfold To4. rewrite Hl. reflexivity.
Qed.

(** In a dual-stack cluster a rule whose peers have IPv4 addresses only also
    yields an IPv6 rule without remote addresses, which matches every IPv6
    address. *)
Lemma netpol_other_family_open env np name dir peer peers sub subs subj :
  Empty (V4 (env_ips env)) = false → Empty (V6 (env_ips env)) = false → Forall v4_text (sub :: subs) →
  ∃ subj' v, buildNetPolSubjRules env name subj dir (peer :: peers) (sub :: subs) [] np = Some subj' ∧ v ∈ views subj' ∧
    v_dir v = dir ∧ v_eth v = "ipv6" ∧ v_proto v = "unspecified" ∧ v_port v = "unspecified" ∧ v_addrs v = [].
Proof.
  intros E4 E6 Hs. destruct (grows_rules env name dir np (peer :: peers) (sub :: subs) [] subj) as (s1&E1&_&V1).
  exists s1, (rule_view (GetDn subj) name dir "ipv6" EmptyString EmptyString (sub :: subs)). split; [done|].
  split; [rewrite V1; unfold rule_views, family_views; rewrite E4, E6; apply elem_of_app; right; set_solver|].
  split_and!; [done..|]. cbn [v_addrs rule_view]. clear E1 V1.
  induction Hs as [|t l Ht _ IH]; [done|]. cbn [List.filter]. by rewrite (v4_text_not_v6 t Ht).
Qed.

(** ** Peers with both selectors *)

Definition red : LabelSelector := mkLs {["team" := "red"]} [].
Definition red_pod (name ip : string) : Pod := mkPod "red" name {["app" := name]} ip [ip] [].

(** The peer asks for pods with the label in namespaces with the label; a pod
    of such a namespace without the label is taken when another rule of the
    policy brings it among the peer pods. *)
Example netpol_peer_confusion :
  let peer := mkPeer (Some (app "web")) (Some red) None in
  let pods_ := [red_pod "web" "10.2.0.7"; red_pod "db" "10.2.0.8"] in
  (fst <$> getPeerRemoteSubnets [peer] "ns" pods_ {["red" := {["team" := "red"]}]}) = Some ["10.2.0.7"; "10.2.0.8"] ∧
  ∀ st : np_stores, ¬ peer_selects st "ns" peer (red_pod "db" "10.2.0.8").
Proof.
  split; [vm_compute; reflexivity|]. intros st [_ (x&Hx&Hm)]. vm_compute in Hx. injection Hx as <-.
  vm_compute in Hm. discriminate Hm.
Qed.

(** ** Ports *)

(** A port without a number stands for all ports of its protocol; no rule is
    built for it. *)
Lemma netpol_all_ports_dropped env np name dir peers subs proto subj :
  buildNetPolSubjRules env name subj dir peers subs [mkPort proto None None] np = Some subj.
Proof. unfold buildNetPolSubjRules. by destruct peers, subs. Qed.

(** Such a port in an egress rule makes the informer's handler panic. *)
Example netpol_all_ports_panic :
  let np := egress_np [mkRule [mkPort (Some ProtocolTCP) None None] []] in
  networkPolicyAdded (example_cfg false) (svc_inf []) np initial_np = None.
Proof. vm_compute. reflexivity. Qed.

(** ** References *)

(** A change of a policy takes its reference away even when its rules are the
    same. *)
Lemma netpol_changed_drops_reference cfg inf np s s' :
  HppOptimization cfg = true → hpp_ok (hppRef s) → networkPolicyChanged cfg inf np np s = Some s' →
  ¬ refers (hppRef s') (label_key cfg np) (npkey np).
Proof.
  intros Hopt Hok H. apply networkPolicyChanged_hpp in H as ->. rewrite Hopt.
  pose proof (removeFromHppCache_ok cfg np (npkey np) (hppRef s) Hok) as G.
  destruct (removeFromHppCache cfg np (npkey np) (hppRef s)) as [refs [l b]]. destruct G as (El&_&G&_). cbn [fst].
  rewrite G. intros [_ Hn]. apply Hn. unfold label_key. by rewrite Hopt.
Qed.

(** The policy is not queued again: such a change writes the policy's
    description and nothing else, and a later deletion clears the description
    but leaves the host protection policy on the APIC. *)
Example netpol_changed_leaks :
  let cfg := example_cfg true in
  let inf := example_inf example_np in
  (s1 ← networkPolicyChanged cfg inf example_np example_np written_state;
   s2 ← networkPolicyDeleted cfg inf example_np s1;
   Some (bool_decide (hppRef s1 = ∅),
         (λ e, match e with WriteObjects k _ => ("write", k) | ClearObjects k => ("clear", k)
                       | QueueNetPol k => ("queue", k) | QueuePod k => ("pod", k) end)
           <$> drop (length (effects written_state)) (effects s2))) =
  Some (true, [("write", aciNameForKey cfg "NwPol" "ns/np"); ("clear", aciNameForKey cfg "NwPol" "ns/np")]).
Proof. vm_compute. reflexivity. Qed.

(** ** Names of shared policies *)

(** The texts of selectors have no separators: different selectors give the
    same name, so the policies overwrite each other. *)
Lemma netpol_hash_collision cfg :
  let np l := mkNp "ns" "np" (app "db") [mkRule [tcp 80] [mkPeer (Some (mkLs l [])) None None]] [] None in
  let np1 := np {["a" := "b"; "c" := "d"]} in
  let np2 := np {["a" := "bc_d"]} in
  HppOptimization cfg = true → label_key cfg np1 = label_key cfg np2 ∧
  sel_matches (mkLs {["a" := "bc_d"]} []) {["a" := "bc_d"]} ∧
  ¬ sel_matches (mkLs {["a" := "b"; "c" := "d"]} []) {["a" := "bc_d"]}.
Proof.
  intros np np1 np2 Hopt. split_and!.
  - unfold label_key. rewrite Hopt. unfold CreateHashFromNetPol. do 2 f_equal.
  - eexists. split; [vm_compute; reflexivity|]. vm_compute. reflexivity.
  - intros (x&Hx&Hm). vm_compute in Hx. injection Hx as <-. vm_compute in Hm. discriminate Hm.
Qed.

(** ** The index of blocks *)

(** Removing a block takes the policy out of the blocks it covers as well:
    after 10.0.0.0/8 goes and 10.1.0.0/16 stays, an address of the latter no
    longer finds the policy. *)
Example netpol_block_removal :
  let idx := updateIpIndex ∅ ∅ {["10.0.0.0/8"; "10.1.0.0/16"]} "ns/np" in
  "ns/np" ∈ queueIPNetPolUpdates idx {["10.1.0.9"]} ∧
  queueIPNetPolUpdates (updateIpIndex idx {["10.0.0.0/8"; "10.1.0.0/16"]} {["10.1.0.0/16"]} "ns/np") {["10.1.0.9"]} = ∅.
Proof. split; [apply (bool_decide_eq_true_1 _)|]; vm_compute; reflexivity. Qed.

(** ** Services *)

(** The endpoints of one subset in the subnets are enough, though the comment
    of [buildServiceAugment] asks for all endpoints of the service. *)
Example netpol_one_subset_enough :
  let port := [mkEpPort EmptyString ProtocolTCP] in
  SetNpServiceAugmentForService
    (FromEndpoints {["ns/svc" := [mkSubset ["192.168.5.5"] [] port; mkSubset ["172.16.0.1"] [] port]]})
    (targetPortIndex (svc_state [])) "ns/svc" svc80 (Some (tcp 80)) (subnet_ranger {["192.168.0.0/16"]}) ∅ =
  Some {["tcp-8080" := mkAugment "tcp" "8080" {["172.30.0.1"]}]}.
Proof. vm_compute. reflexivity. Qed.
