(* ===== verification/Snat.v ===== *)
(** * Snat: source NAT addresses and port ranges of nodes

    src/pkg/controller/snats.go, src/pkg/controller/snatglobalinfo.go,
    src/pkg/util/snat.go and src/pkg/util/iputil.go.  A policy names addresses
    (or the load balancer addresses of services); every node that uses the
    policy gets a port range on one of the addresses.  The allocations are the
    map [snatGlobalInfoCache] from addresses to nodes to entries.  The state
    is the part of [AciController] that the handlers use; requests to queues
    and to the APIC are recorded in [snat_effects].  A policy in the informer's
    store is shared: setting its status changes the stored object.  The API
    server's answers are parameters.  [None] is a panic or a loop that does not
    end.  Logging is left out; iteration over a Go map is in the order of the
    model's maps. *)
From S2P Require Import Prelude GoBytes GoNet GoText IpAlloc PodIndex K8s GoSha AciNames.

Open Scope string_scope.

(** strconv.Atoi, with a sign and the bounds of int. *)
Definition Atoi_int (s : string) : option Z :=
  z ← match s with
      | String "-" s' => n ← Atoi s'; Some (- n)%Z
      | String "+" s' => Atoi s'
      | _ => Atoi s
      end;
  if ((- 2 ^ 63 <=? z) && (z <=? MaxInt64))%Z then Some z else None.

(** ** Port ranges (util/snat.go) *)

Record PortRange := mkRangeP { pr_Start : Z; pr_End : Z }.

#[export] Instance PortRange_eq_dec : EqDecision PortRange.
Proof. solve_decision. Defined.

Definition PORTPERNODES : Z := 3000.
Definition MIN_PORT : Z := 5000.
Definition MAX_PORT : Z := 65000.

(** The loop over one range; [None] when the fuel does not reach. *)
Fixpoint expand_loop (fuel : nat) (temp end_ step : Z) : option (list PortRange) :=
  match fuel with
  | O => None
  | S fuel =>
      if (temp <? end_ - 1)%Z then
        let last := int64 (temp + step - 1) in
        rest ← expand_loop fuel (int64 (temp + step)) end_ step;
        Some (if (last <=? end_ - 1)%Z then mkRangeP temp last :: rest else rest)
      else Some []
  end.

Definition start_le (a b : PortRange) : Prop := (pr_Start a <= pr_Start b)%Z.
#[export] Instance start_le_dec : RelDecision start_le.
Proof. intros a b. unfold start_le. apply _. Defined.

(** A step of at least one leaves the loop within the fuel. *)
Definition ExpandPortRanges (currPortRange : list PortRange) (step : Z) : option (list PortRange) :=
  l ← mapM (λ item, expand_loop (S (Z.to_nat (pr_End item - pr_Start item))) (pr_Start item) (pr_End item) step)
        currPortRange;
  Some (merge_sort start_le (concat l)).

(** The values of the configuration map, if they are valid. *)
Definition valid_cfg (data : gmap string string) : option (PortRange * Z) :=
  start ← data !! "start" ≫= Atoi_int;
  end_ ← data !! "end" ≫= Atoi_int;
  portsPerNode ← data !! "ports-per-node" ≫= Atoi_int;
  if ((start <? 5000) || (65000 <? end_) || (end_ <? start) || (end_ - start + 1 <? portsPerNode))%Z then None
  else Some (mkRangeP start end_, portsPerNode).

Definition GetPortRangeFromConfigMap (cMap : option (gmap string string)) : PortRange * Z :=
  default (mkRangeP MIN_PORT MAX_PORT, PORTPERNODES) (cMap ≫= valid_cfg).

(** ** Addresses (util/iputil.go) *)

(** [inc] adds one and wraps around; the bytes from the last to the first. *)
Fixpoint inc_rev (l : list Z) : list Z :=
  match l with
  | [] => []
  | b :: l => let b' := ((b + 1) mod 256)%Z in if (0 <? b')%Z then b' :: l else b' :: inc_rev l
  end.
Definition inc (ip : IP) : IP := rev (inc_rev (rev ip)).

(** [ParseCIDR], for an address the network of the address alone.  The outer
    [None] is the error, the inner one a nil network. *)
Definition parseIP (cidr : string) : option (option IPNet) :=
  match ParseCIDR cidr with
  | Some n => Some (Some n)
  | None =>
      ip ← ParseIP cidr;
      if bool_decide (is_Some (To4 ip)) then Some (ParseCIDR (cidr ++ "/32"))
      else if bool_decide (is_Some (To16 ip)) then Some (ParseCIDR (cidr ++ "/128"))
      else None
  end.

Fixpoint cidr_loop (fuel : nat) (ipnet : IPNet) (ip : IP) : option (list string) :=
  match fuel with
  | O => None
  | S fuel =>
      if Contains ipnet ip then rest ← cidr_loop fuel ipnet (inc ip); Some (IP_String ip :: rest) else Some []
  end.

(** The number of addresses of the network, by the zeros of its mask. *)
Definition host_count (m : list Z) : nat :=
  match simpleMaskLength m with Some k => 2 ^ (8 * length m - Z.to_nat k) | None => 0 end.

(** The outer [None] is a nil pointer or a loop that does not end. *)
Definition GetIPsFromCIDR (cidr : string) : option (list string) :=
  match parseIP cidr with
  | None => Some []
  | Some ipnet =>
      ipnet ← ipnet;
      output ← cidr_loop (S (host_count (net_Mask ipnet))) ipnet (Mask (net_IP ipnet) (net_Mask ipnet));
      match output with
      | [ip] => Some [ip]
      | [] => None
      | _ :: output => Some (removelast output)
      end
  end.

Definition bytes_le (a b : list Z) : Prop := Compare a b ≠ Gt.
#[export] Instance bytes_le_dec : RelDecision bytes_le.
Proof. intros a b. unfold bytes_le. destruct (Compare a b); [left|left|right]; congruence. Defined.

(** [ParseIP] gives nil where the text is not an address. *)
Definition sortIps (ips : list string) : list string :=
  map (λ ip, match ip with [] => "<nil>" | _ => IP_String ip end)
    (merge_sort bytes_le (map (λ s, default [] (ParseIP s)) ips)).

Definition ExpandCIDRs (currCIDRs : list string) : option (list string) :=
  l ← mapM GetIPsFromCIDR currCIDRs;
  Some (sortIps (concat l)).

(** ** State *)

Record ContPodSelector := mkCps { cps_Labels : labels; cps_Namespace : string }.

#[export] Instance ContPodSelector_eq_dec : EqDecision ContPodSelector.
Proof. solve_decision. Defined.

(** A policy in the controller's cache. *)
Record ContSnatPolicy := mkCsp {
  csp_SnatIp : list string;
  csp_Selector : ContPodSelector;
  ExpandedSnatIps : list string;
  ExpandedSnatPorts : list PortRange
}.

(** A policy in the informer's store; the status is Ready, Failed,
    IpPortsExhausted or empty. *)
Record SnatPolicy := mkSp {
  sp_Ns : string;
  sp_NameP : string;
  sp_SnatIp : list string;
  sp_DestIp : list string;
  sp_Selector : ContPodSelector;
  sp_State : string
}.

Definition Ready : string := "Ready".
Definition Failed : string := "Failed".
Definition IpPortsExhausted : string := "IpPortsExhausted".

Record NodeInfo := mkNodeInfo {
  ni_Namespace : string;
  ni_Name : string;
  Macaddress : string;
  SnatPolicyNames : gset string
}.

#[export] Instance NodeInfo_eq_dec : EqDecision NodeInfo.
Proof. solve_decision. Defined.

Definition nodeinfokey (n : NodeInfo) : string := MetaNamespaceKey (ni_Namespace n) (ni_Name n).

Record GlobalInfo := mkGlobalInfo {
  MacAddress : string;
  PortRanges : list PortRange;
  gi_SnatIp : string;
  SnatIpUid : string;
  gi_SnatPolicyName : string
}.

#[export] Instance GlobalInfo_eq_dec : EqDecision GlobalInfo.
Proof. solve_decision. Defined.

Inductive snat_effect :=
  | QueueNodeInfo (key : string)
  | QueueSnat (key : string)
  | QueueService (key : string)
  | SyncGlobalInfo
  | ClearSnatGraph (name : string)
  | UpdateSnatGraph.

(** A service with its labels and whether it is being deleted. *)
Record SvcObj := mkSvcObj { so_svc : Service; so_labels : labels; so_deleting : bool }.

Abbreviation glinfo_cache := (gmap string (gmap string GlobalInfo)).

Record SnatState := mkSnat {
  snatGlobalInfoCache : glinfo_cache;
  snatPolicyCache : gmap string ContSnatPolicy;
  snatNodeInfoCache : gmap string NodeInfo;
  snatIndexer : gmap string SnatPolicy;
  snatServices : gset string;
  snat_effects : list snat_effect
}.

Definition set_glinfo (f : glinfo_cache → glinfo_cache) (s : SnatState) : SnatState :=
  mkSnat (f (snatGlobalInfoCache s)) (snatPolicyCache s) (snatNodeInfoCache s) (snatIndexer s) (snatServices s) (snat_effects s).
Definition set_policies (f : gmap string ContSnatPolicy → gmap string ContSnatPolicy) (s : SnatState) : SnatState :=
  mkSnat (snatGlobalInfoCache s) (f (snatPolicyCache s)) (snatNodeInfoCache s) (snatIndexer s) (snatServices s) (snat_effects s).
Definition set_nodeinfos (f : gmap string NodeInfo → gmap string NodeInfo) (s : SnatState) : SnatState :=
  mkSnat (snatGlobalInfoCache s) (snatPolicyCache s) (f (snatNodeInfoCache s)) (snatIndexer s) (snatServices s) (snat_effects s).
Definition set_snatobjs (f : gmap string SnatPolicy → gmap string SnatPolicy) (s : SnatState) : SnatState :=
  mkSnat (snatGlobalInfoCache s) (snatPolicyCache s) (snatNodeInfoCache s) (f (snatIndexer s)) (snatServices s) (snat_effects s).
Definition set_snatsvcs (f : gset string → gset string) (s : SnatState) : SnatState :=
  mkSnat (snatGlobalInfoCache s) (snatPolicyCache s) (snatNodeInfoCache s) (snatIndexer s) (f (snatServices s)) (snat_effects s).
Definition snat_emit (l : list snat_effect) (s : SnatState) : SnatState :=
  mkSnat (snatGlobalInfoCache s) (snatPolicyCache s) (snatNodeInfoCache s) (snatIndexer s) (snatServices s) (snat_effects s ++ l).

Definition initial_snat : SnatState := mkSnat ∅ ∅ ∅ ∅ ∅ [].

(** ** Services of a policy *)

Definition SelectorFromSet (ls : labels) : Selector :=
  internalSelector (map (λ kv, mkReq kv.1 Op_Equals [kv.2]) (map_to_list ls)).

Section Handlers.
(** The services in the informer's store; whether the API server refuses to
    store a status. *)
Context (services : gmap string SvcObj) (update_fails : string → string → bool).

Definition getServicesBySelector (selector : Selector) (ns : string) : list (string * SvcObj) :=
  List.filter (λ ks : string * SvcObj,
    let so := ks.2 in
    Selector_Matches selector (so_labels so) &&
    (String.eqb ns EmptyString || String.eqb ns (svc_Namespace (so_svc so))) &&
    negb (length (svc_Ingress (so_svc so)) =? 0)%nat) (map_to_list services).

Definition getServiceIps (policy : ContSnatPolicy) : list string :=
  flat_map (λ ks, svc_Ingress (so_svc ks.2))
    (getServicesBySelector (SelectorFromSet (cps_Labels (csp_Selector policy))) (cps_Namespace (csp_Selector policy))).

(** ** Status of policies *)

(** The result asks for another try. *)
Definition setSnatPolicyStatus (name status : string) (s : SnatState) : SnatState * bool :=
  match snatIndexer s !! name with
  | Some p =>
      if String.eqb (sp_State p) status then (s, false)
      else
        (set_snatobjs <[name := mkSp (sp_Ns p) (sp_NameP p) (sp_SnatIp p) (sp_DestIp p) (sp_Selector p) status]> s,
         update_fails name status)
  | None => (s, false)
  end.

Definition checksnatPolicyPortExhausted (name : string) (s : SnatState) : bool :=
  match snatIndexer s !! name with Some p => String.eqb (sp_State p) IpPortsExhausted | None => false end.

Definition setSnatPoliciesState (names : list string) (status : string) (s : SnatState) : SnatState * bool :=
  foldl (λ acc name, let '(s, ret) := acc in let '(s, r) := setSnatPolicyStatus name status s in (s, ret || r))
    (s, false) names.

(** ** Allocation *)

(** The starts of the ranges that are taken on an address; an entry without
    ranges is a panic. *)
Definition taken_starts (glinfos : gmap string GlobalInfo) : option (list Z) :=
  mapM (λ g, pr_Start <$> head (PortRanges g)) (snd <$> map_to_list glinfos).

(** [None] is a panic, [Some None] that nothing is left. *)
Fixpoint allocate_from (cache : glinfo_cache) (nodename : string) (ports : list PortRange) (first : PortRange)
    (snatIps : list string) : option (option (string * PortRange)) :=
  match snatIps with
  | [] => Some None
  | snatip :: snatIps =>
      match cache !! snatip with
      | None => Some (Some (snatip, first))
      | Some globalInfo =>
          if (size globalInfo <? length ports)%nat then
            match globalInfo !! nodename with
            | None =>
                seen ← taken_starts globalInfo;
                match List.find (λ v, negb (bool_decide (pr_Start v ∈ seen))) ports with
                | Some v => Some (Some (snatip, v))
                | None => allocate_from cache nodename ports first snatIps
                end
            | Some g => r ← head (PortRanges g); Some (Some (gi_SnatIp g, r))
            end
          else allocate_from cache nodename ports first snatIps
      end
  end.

Definition allocateIpSnatPortRange (cache : glinfo_cache) (snatIps : list string) (nodename : string)
    (expandedsnatports : list PortRange) : option (option (string * PortRange)) :=
  match expandedsnatports with
  | [] => Some None
  | first :: _ => allocate_from cache nodename expandedsnatports first snatIps
  end.

Definition getIpAndPortRange (cache : glinfo_cache) (nodename : string) (policy : ContSnatPolicy) (serviceIp : string)
  : option (option (string * PortRange)) :=
  match csp_SnatIp policy with
  | [] => allocateIpSnatPortRange cache [serviceIp] nodename (ExpandedSnatPorts policy)
  | _ =>
      match ExpandedSnatIps policy with
      | [] => Some None
      | ips => allocateIpSnatPortRange cache ips nodename (ExpandedSnatPorts policy)
      end
  end.

Definition checkIfPolicyApplied (cache : glinfo_cache) (nodename policyname : string) (snatIps : list string) : bool :=
  existsb (λ ip, match cache !! ip ≫= lookup nodename with
                 | Some g => String.eqb (gi_SnatPolicyName g) policyname
                 | None => false
                 end) snatIps.

(** uuid.FromBytes and String: sixteen bytes, or the zero identifier. *)
Definition uuid_String (b : list Z) : string :=
  let b := if (length b =? 16)%nat then b else repeat 0%Z 16 in
  let part i n := EncodeToString (take n (drop i b)) in
  part 0%nat 4%nat ++ "-" ++ part 4%nat 2%nat ++ "-" ++ part 6%nat 2%nat ++ "-" ++ part 8%nat 2%nat ++ "-" ++ part 10%nat 6%nat.

Definition updateGlobalInfoforPolicy (portrange : PortRange) (snatIp nodename macaddr plcyname : string) (s : SnatState)
  : SnatState :=
  let glinfo := mkGlobalInfo macaddr [portrange] snatIp (uuid_String (default [] (ParseIP snatIp))) plcyname in
  set_glinfo (λ c, <[snatIp := <[nodename := glinfo]> (default ∅ (c !! snatIp))]> c) s.

(** ** Nodes *)

(** What a pass over the policies of a node collects: the policies that
    failed, those that are ready again, and whether entries changed. *)
Record pass := mkPass { ps_state : SnatState; allocfailed : list string; markready : list string; updated : bool }.

Definition allocate_for (nodeinfo : NodeInfo) (name : string) (policy : ContSnatPolicy) (serviceIp : string) (p : pass)
  : option pass :=
  r ← getIpAndPortRange (snatGlobalInfoCache (ps_state p)) (ni_Name nodeinfo) policy serviceIp;
  match r with
  | None => Some (mkPass (ps_state p) (allocfailed p ++ [name]) (markready p) (updated p))
  | Some (snatIp, portrange) =>
      let ready := if checksnatPolicyPortExhausted name (ps_state p) then (markready p ++ [name])%list else markready p in
      Some (mkPass (updateGlobalInfoforPolicy portrange snatIp (ni_Name nodeinfo) (Macaddress nodeinfo) name (ps_state p))
              (allocfailed p) ready true)
  end.

Fixpoint allocate_services (nodeinfo : NodeInfo) (name : string) (policy : ContSnatPolicy) (ips : list string) (p : pass)
  : option pass :=
  match ips with
  | [] => Some p
  | ip :: ips => p ← allocate_for nodeinfo name policy ip p; allocate_services nodeinfo name policy ips p
  end.

Fixpoint allocate_policies (nodeinfo : NodeInfo) (names : list string) (p : pass) : option pass :=
  match names with
  | [] => Some p
  | name :: names =>
      p ← match snatPolicyCache (ps_state p) !! name with
          | None => Some p
          | Some policy =>
              let cache := snatGlobalInfoCache (ps_state p) in
              match csp_SnatIp policy with
              | [] =>
                  let snatIps := getServiceIps policy in
                  if checkIfPolicyApplied cache (ni_Name nodeinfo) name snatIps then Some p
                  else allocate_services nodeinfo name policy snatIps p
              | _ =>
                  if checkIfPolicyApplied cache (ni_Name nodeinfo) name (ExpandedSnatIps policy) then Some p
                  else allocate_for nodeinfo name policy EmptyString p
              end
          end;
      allocate_policies nodeinfo names p
  end.

(** Take the node out of one address. *)
Definition drop_node (snatip nodename : string) (c : glinfo_cache) : glinfo_cache :=
  match c !! snatip with
  | None => c
  | Some glinfos =>
      let glinfos' := delete nodename glinfos in
      if bool_decide (glinfos' = ∅) then delete snatip c else <[snatip := glinfos']> c
  end.

(** A status that cannot be stored ends the work. *)
Fixpoint drop_node_all (ips : list string) (nodename : string) (s : SnatState) : SnatState * bool :=
  match ips with
  | [] => (s, false)
  | ip :: ips =>
      match snatGlobalInfoCache s !! ip ≫= lookup nodename with
      | None => drop_node_all ips nodename s
      | Some v =>
          let '(s, failed) :=
            if checksnatPolicyPortExhausted (gi_SnatPolicyName v) s
            then setSnatPolicyStatus (gi_SnatPolicyName v) Ready s else (s, false) in
          if (failed : bool) then (s, true)
          else drop_node_all ips nodename (set_glinfo (drop_node ip nodename) s)
      end
  end.

Fixpoint ready_all (names : list string) (s : SnatState) : SnatState * bool :=
  match names with
  | [] => (s, false)
  | name :: names =>
      if checksnatPolicyPortExhausted name s then
        let '(s, failed) := setSnatPolicyStatus name Ready s in
        if (failed : bool) then (s, true) else ready_all names s
      else ready_all names s
  end.

Definition deleteNodeinfoFromGlInfoCache (snatPolicyNames : gset string) (nodename : string) (s : SnatState)
  : SnatState * bool :=
  let '(s, failed) := drop_node_all (fst <$> map_to_list (snatGlobalInfoCache s)) nodename s in
  if (failed : bool) then (s, true) else ready_all (elements snatPolicyNames) s.

Definition handleSnatNodeInfo (nodeinfo : NodeInfo) (s : SnatState) : option (SnatState * bool) :=
  if negb (bool_decide (is_Some (snatNodeInfoCache s !! ni_Name nodeinfo))) || bool_decide (SnatPolicyNames nodeinfo = ∅)
  then
    let '(s, ret) := deleteNodeinfoFromGlInfoCache (SnatPolicyNames nodeinfo) (ni_Name nodeinfo) s in
    Some (snat_emit [SyncGlobalInfo] s, ret)
  else
    p ← allocate_policies nodeinfo (elements (SnatPolicyNames nodeinfo)) (mkPass s [] [] false);
    let '(s, r1) := setSnatPoliciesState (allocfailed p) IpPortsExhausted (ps_state p) in
    let '(s, r2) := setSnatPoliciesState (markready p) Ready s in
    Some (if updated p then snat_emit [SyncGlobalInfo] s else s, r2 && r1).

(** ** Clearing *)

(** An address without entries ends the work; so does the first entry of the
    node, if one is given. *)
Fixpoint clear_ips (ips : list string) (nodename : string) (c : glinfo_cache) : glinfo_cache :=
  match ips with
  | [] => c
  | snatip :: ips =>
      match c !! snatip with
      | None => c
      | Some v =>
          if String.eqb nodename EmptyString then clear_ips ips nodename (delete snatip c)
          else if bool_decide (is_Some (v !! nodename)) then drop_node snatip nodename c
          else clear_ips ips nodename c
      end
  end.

Definition clearSnatGlobalCache (policyName nodename : string) (s : SnatState) : SnatState :=
  match snatPolicyCache s !! policyName with
  | None => s
  | Some policy =>
      let ips := match csp_SnatIp policy with [] => getServiceIps policy | _ => ExpandedSnatIps policy end in
      set_glinfo (clear_ips ips nodename) s
  end.

Definition getNodeInfoKeys (policyName : string) (s : SnatState) : gset string :=
  list_to_set (map nodeinfokey (List.filter (λ n, bool_decide (policyName ∈ SnatPolicyNames n))
                                  (snd <$> map_to_list (snatNodeInfoCache s)))).

(** The status is only logged. *)
Definition updateSnatIpandPorts (oldPolicyNames newPolicynames : gset string) (nodename : string) (s : SnatState)
  : SnatState :=
  foldl (λ s oldkey,
    let s := clearSnatGlobalCache oldkey nodename s in
    if checksnatPolicyPortExhausted oldkey s then (setSnatPolicyStatus oldkey Ready s).1 else s) s
    (elements (oldPolicyNames ∖ newPolicynames)).

(** ** Handlers of the informers *)

(** The policies are changed one after the other. *)
Fixpoint reconfigure (range : PortRange) (portsPerNode : Z) (names : list string) (keys : gset string) (s : SnatState)
  : option (SnatState * gset string) :=
  match names with
  | [] => Some (s, keys)
  | name :: names =>
      let s := clearSnatGlobalCache name EmptyString s in
      ports ← ExpandPortRanges [range] portsPerNode;
      let s := set_policies (alter (λ p, mkCsp (csp_SnatIp p) (csp_Selector p) (ExpandedSnatIps p) ports) name) s in
      reconfigure range portsPerNode names (getNodeInfoKeys name s ∪ keys) s
  end.

Definition snatCfgUpdate (oldData newData : gmap string string) (s : SnatState) : option SnatState :=
  if bool_decide (oldData = newData) then Some s
  else
    match valid_cfg newData with
    | None => Some s
    | Some (range, portsPerNode) =>
        '(s, keys) ← reconfigure range portsPerNode (fst <$> map_to_list (snatPolicyCache s)) ∅ s;
        Some (snat_emit (QueueNodeInfo <$> elements keys) s)
    end.

Definition snatNodeInfoAdded (n : NodeInfo) (s : SnatState) : SnatState :=
  snat_emit [QueueNodeInfo (nodeinfokey n)] (set_nodeinfos <[ni_Name n := n]> s).

Definition snatNodeInfoUpdated (old new : NodeInfo) (s : SnatState) : SnatState :=
  if bool_decide (Macaddress old = Macaddress new) && bool_decide (SnatPolicyNames old = SnatPolicyNames new) then s
  else
    let s := updateSnatIpandPorts (SnatPolicyNames old) (SnatPolicyNames new) (ni_Name new) s in
    snat_emit [QueueNodeInfo (nodeinfokey new)] (set_nodeinfos <[ni_Name new := new]> s).

Definition snatNodeInfoDeleted (n : NodeInfo) (s : SnatState) : option SnatState :=
  fst <$> handleSnatNodeInfo n (set_nodeinfos (delete (ni_Name n)) s).

(** ** Policies *)

Definition updateSnatPolicyCache (cMap : option (gmap string string)) (key : string) (p : SnatPolicy) (s : SnatState)
  : option SnatState :=
  ips ← ExpandCIDRs (sp_SnatIp p);
  let '(portRange, portsPerNode) := GetPortRangeFromConfigMap cMap in
  ports ← ExpandPortRanges [portRange] portsPerNode;
  let policy := mkCsp (sp_SnatIp p) (sp_Selector p) ips ports in
  let Update := match snatPolicyCache s !! key with
                | Some info => negb (bool_decide (sp_SnatIp p = csp_SnatIp info))
                | None => false
                end in
  let s := if Update then clearSnatGlobalCache (sp_NameP p) EmptyString s else s in
  let s := set_policies <[key := policy]> s in
  Some (if Update then snat_emit (QueueNodeInfo <$> elements (getNodeInfoKeys (sp_NameP p) s)) s else s).

(** The keys of the services of a policy that are not being deleted. *)
Definition handleSnatPolicyForServices (p : SnatPolicy) (s : SnatState) : SnatState :=
  foldl (λ s ks, if so_deleting ks.2 then s else snat_emit [QueueService ks.1] (set_snatsvcs (union {[ks.1]}) s)) s
    (getServicesBySelector (SelectorFromSet (cps_Labels (sp_Selector p))) (cps_Namespace (sp_Selector p))).

(** Two addresses of policies conflict.  A nil network is a panic. *)
Definition ips_conflict (val ip : string) : option (option bool) :=
  match parseIP ip with
  | None => Some None
  | Some net2 =>
      net2 ← net2;
      match parseIP val with
      | Some (Some net1) => Some (Some (Contains net2 (net_IP net1) || Contains net1 (net_IP net2)))
      | _ => None
      end
  end.

(** The policy has no address that is invalid or conflicts. *)
Fixpoint check_ips (val : string) (ips : list string) : option bool :=
  match ips with
  | [] => Some true
  | ip :: ips =>
      r ← ips_conflict val ip;
      match r with Some false => check_ips val ips | _ => Some false end
  end.

Fixpoint check_item (vals ips : list string) : option bool :=
  match vals with
  | [] => Some true
  | val :: vals => b ← check_ips val ips; if (b : bool) then check_item vals ips else Some false
  end.

Fixpoint check_policies (cr : SnatPolicy) (items : list (string * ContSnatPolicy)) : option bool :=
  match items with
  | [] => Some true
  | (key, item) :: items =>
      if String.eqb (sp_NameP cr) key then check_policies cr items
      else if bool_decide (cps_Labels (csp_Selector item) = ∅) && bool_decide (cps_Labels (sp_Selector cr) = ∅) &&
              String.eqb (cps_Namespace (sp_Selector cr)) (cps_Namespace (csp_Selector item)) then Some false
      else b ← check_item (csp_SnatIp item) (sp_SnatIp cr); if (b : bool) then check_policies cr items else Some false
  end.

Definition all_ips (ips : list string) : bool := forallb (λ ip, bool_decide (is_Some (parseIP ip))) ips.

Definition validateCr (cr : SnatPolicy) (s : SnatState) : option bool :=
  b ← (if bool_decide (snatPolicyCache s = ∅) then Some (all_ips (sp_SnatIp cr))
       else check_policies cr (map_to_list (snatPolicyCache s)));
  Some (b && all_ips (sp_DestIp cr)).

(** [graph_fails]: writing the service graph fails.  The result asks for
    another try. *)
Definition handleSnatUpdate (cMap : option (gmap string string)) (syncEnabled graph_fails : bool) (p : SnatPolicy)
    (s : SnatState) : option (SnatState * bool) :=
  if String.eqb (sp_State p) EmptyString then
    ok ← validateCr p s;
    Some (setSnatPolicyStatus (sp_NameP p) (if (ok : bool) then Ready else Failed) s)
  else if negb (String.eqb (sp_State p) Ready) then Some (s, false)
  else
    s ← updateSnatPolicyCache cMap (sp_NameP p) p s;
    Some (if syncEnabled then
            match sp_SnatIp p with
            | [] => (handleSnatPolicyForServices p s, false)
            | _ => (snat_emit [UpdateSnatGraph] s, graph_fails)
            end
          else (s, false)).

(** [graphName] is the name of the service graph on the APIC. *)
Definition snatPolicyDelete (graphName : string) (p : SnatPolicy) (s : SnatState) : SnatState :=
  let s := set_policies (delete (sp_NameP p)) (clearSnatGlobalCache (sp_NameP p) EmptyString s) in
  match sp_SnatIp p with
  | [] =>
      foldl (λ s ks, snat_emit [QueueService ks.1] (set_snatsvcs (.∖ {[ks.1]}) s)) s
        (getServicesBySelector (SelectorFromSet (cps_Labels (sp_Selector p))) (cps_Namespace (sp_Selector p)))
  | _ =>
      if bool_decide (snatPolicyCache s = ∅) then snat_emit [ClearSnatGraph graphName] s
      else snat_emit [UpdateSnatGraph] s
  end.

Definition snatPolicyUpdated (p : SnatPolicy) (s : SnatState) : SnatState :=
  snat_emit [QueueSnat (MetaNamespaceKey (sp_Ns p) (sp_NameP p))] s.

Definition snatFullSync (s : SnatState) : SnatState :=
  snat_emit ((λ p, QueueSnat (MetaNamespaceKey (sp_Ns p) (sp_NameP p))) <$> (snd <$> map_to_list (snatIndexer s))) s.
End Handlers.

(** ** The custom resource *)

(** The entries by node. *)
Definition by_node (cache : glinfo_cache) : gmap string (list GlobalInfo) :=
  foldl (λ m ng, <[ng.1 := (default [] (m !! ng.1) ++ [ng.2])%list]> m) ∅
    (flat_map (λ ig : string * gmap string GlobalInfo, map_to_list ig.2) (map_to_list cache)).

(** The answer to reading the resource. *)
Inductive cr_answer := CrMissing | CrError | CrFound (infos : gmap string (list GlobalInfo)).

(** The entries that are stored, if any, and whether to try again. *)
Definition syncSnatGlobalInfo (client chained : bool) (answer : cr_answer) (write_fails : bool) (s : SnatState)
  : option (gmap string (list GlobalInfo)) * bool :=
  if negb client || chained then (None, false)
  else
    let infos := by_node (snatGlobalInfoCache s) in
    match answer with
    | CrMissing => if write_fails then (None, true) else (Some infos, false)
    | CrError => (None, true)
    | CrFound old => if bool_decide (old = infos) then (None, false)
                     else if write_fails then (None, true) else (Some infos, false)
    end.

(** At the start of the controller: the entries of the resource, with the
    nodes found by their MAC addresses. *)
Definition createGlobalInfoCache (nodeInfos : list NodeInfo) (infos : gmap string (list GlobalInfo)) (cache : glinfo_cache)
  : glinfo_cache :=
  let names : gmap string string := foldl (λ m n, <[Macaddress n := ni_Name n]> m) ∅ nodeInfos in
  foldl (λ c v,
    let nodeName := default EmptyString (names !! MacAddress v) in
    <[gi_SnatIp v := <[nodeName := v]> (default ∅ (c !! gi_SnatIp v))]> c) cache
    (concat (snd <$> map_to_list infos)).
