(* ===== verification/SnatFacts.v ===== *)
(** * SnatFacts: lemmas about the allocation of port ranges

    [expand_loop] yields the ranges of a grid; [cache_ok] says that every entry
    on an address holds one range of the grid and that two nodes never hold
    the same; the allocation keeps it, and fails only when the addresses are
    full. *)
From S2P Require Import Prelude GoBytes GoNet GoText IpAlloc IpAllocFacts IpRangeFacts PodIndex K8s AciNames NetPolBlocks Snat.

Open Scope string_scope.

(** ** The grid of ranges *)

(** The k-th range of a grid. *)
Definition grid_range (start step : Z) (k : nat) : PortRange :=
  mkRangeP (start + Z.of_nat k * step) (start + (Z.of_nat k + 1) * step - 1).

(** The range lies before the end, which itself is never used. *)
Definition in_grid (start end_ step : Z) (r : PortRange) : Prop :=
  ∃ k, r = grid_range start step k ∧ (pr_Start r < end_ - 1 ∧ pr_End r <= end_ - 1)%Z.

Definition small (z : Z) : Prop := (0 <= z <= 2 ^ 32)%Z.

Lemma int64_small z : (0 <= z <= 2 ^ 34)%Z → int64 z = z.
Proof. intros H. apply int64_id. unfold MaxInt64. lia. Qed.

Lemma grid_range_S start step k : grid_range start step (S k) = grid_range (start + step) step k.
Proof. unfold grid_range. f_equal; lia. Qed.

Lemma grid_range_0 start step : grid_range start step 0 = mkRangeP start (start + step - 1).
Proof. unfold grid_range. f_equal; lia. Qed.

Lemma in_grid_cons temp end_ step r :
  in_grid temp end_ step r ↔
  (r = mkRangeP temp (temp + step - 1) ∧ (temp < end_ - 1 ∧ temp + step - 1 <= end_ - 1)%Z) ∨ in_grid (temp + step) end_ step r.
Proof.
  unfold in_grid. split.
  - intros ([|k]&->&H); [left; rewrite grid_range_0 in *; done|right; exists k; by rewrite <- grid_range_S].
  - intros [[-> H]|(k&->&H)]; [exists 0%nat; by rewrite grid_range_0|exists (S k); by rewrite grid_range_S].
Qed.

Lemma in_grid_start temp end_ step r : (0 < step)%Z → in_grid temp end_ step r → (temp <= pr_Start r < end_ - 1)%Z.
Proof. intros Hs (k&->&H). unfold grid_range in *. simpl in *. nia. Qed.

Lemma expand_loop_ok fuel temp end_ step :
  (0 <= temp <= 2 ^ 33)%Z → small end_ → (1 <= step <= 2 ^ 32)%Z → (end_ - temp < Z.of_nat fuel)%Z → (0 < fuel)%nat →
  ∃ l, expand_loop fuel temp end_ step = Some l ∧ (∀ r, r ∈ l ↔ in_grid temp end_ step r) ∧
    StronglySorted (λ a b, pr_Start a < pr_Start b)%Z l.
Proof.
  revert temp. induction fuel as [|fuel IH]; intros temp Ht He Hs Hf H0; unfold small in *; [lia|]. cbn [expand_loop].
  destruct (Z.ltb_spec temp (end_ - 1)) as [Hlt|Hge].
  - rewrite !int64_small by lia. destruct (IH (temp + step)%Z) as (l&->&Hl&Hsort); [lia..|]. simpl.
    assert (Hstart : ∀ r, r ∈ l → (temp < pr_Start r)%Z).
    { intros r Hr. apply Hl in Hr. apply in_grid_start in Hr; lia. }
    destruct (Z.leb_spec (temp + step - 1) (end_ - 1)) as [Hle|Hgt].
    + eexists. split; [reflexivity|]. split.
      * intros r. rewrite elem_of_cons, Hl, (in_grid_cons temp). split.
        -- intros [->|H]; [left; done|by right].
        -- intros [[-> _]|H]; [by left|by right].
      * constructor; [done|]. apply Forall_forall. intros r Hr. simpl. by apply Hstart.
    + eexists. split; [reflexivity|]. split; [|done]. intros r. rewrite Hl, (in_grid_cons temp). split; [by right|].
      intros [[_ H]|H]; [lia|done].
  - exists []. split; [done|]. split; [|constructor]. intros r. split; [intros H; by apply elem_of_nil in H|].
    intros H. apply in_grid_start in H; lia.
Qed.

Lemma starts_NoDup l : StronglySorted (λ a b, pr_Start a < pr_Start b)%Z l → NoDup (pr_Start <$> l).
Proof.
  induction 1 as [|r l Hs IH Hf]; [constructor|]. rewrite fmap_cons. apply NoDup_cons. split; [|done].
  intros H. apply list_elem_of_fmap in H as (x&Hx&Hin). rewrite Forall_forall in Hf. specialize (Hf x Hin). lia.
Qed.

Lemma ExpandPortRanges_ok range step :
  small (pr_Start range) → small (pr_End range) → (1 <= step <= 2 ^ 32)%Z →
  ∃ l, ExpandPortRanges [range] step = Some l ∧
    (∀ r, r ∈ l ↔ in_grid (pr_Start range) (pr_End range) step r) ∧ NoDup (pr_Start <$> l) ∧ Sorted start_le l.
Proof.
  intros H1 H2 H3. unfold ExpandPortRanges. cbn [mapM].
  destruct (expand_loop_ok (S (Z.to_nat (pr_End range - pr_Start range))) (pr_Start range) (pr_End range) step)
    as (l&E&Hl&Hs); [unfold small in *; lia|done|done|lia|lia|].
  rewrite E. simpl. rewrite app_nil_r. exists (merge_sort start_le l). split_and!; [done| | |].
  - intros r. by rewrite merge_sort_Permutation.
  - rewrite merge_sort_Permutation. by apply starts_NoDup.
  - apply Sorted_merge_sort. intros a b. unfold start_le. lia.
Qed.

(** With a step of zero the loop never ends. *)
Lemma expand_loop_zero fuel temp end_ : small temp → (temp < end_ - 1)%Z → expand_loop fuel temp end_ 0 = None.
Proof.
  intros Ht Hlt. induction fuel as [|fuel IH]; [done|]. cbn [expand_loop]. destruct (Z.ltb_spec temp (end_ - 1)); [|lia].
  replace (temp + 0)%Z with temp by lia. unfold small in Ht. rewrite (int64_small temp) by lia. by rewrite IH.
Qed.

(** Ranges of a grid with different starts have no port in common. *)
Definition disjoint (a b : PortRange) : Prop := (pr_End a < pr_Start b ∨ pr_End b < pr_Start a)%Z.

Lemma grid_disjoint start end_ step a b :
  (0 < step)%Z → in_grid start end_ step a → in_grid start end_ step b → pr_Start a ≠ pr_Start b → disjoint a b.
Proof.
  intros Hs (i&->&_) (j&->&_) Hne. unfold disjoint, grid_range in *. simpl in *.
  destruct (decide (Z.of_nat i < Z.of_nat j)%Z); [left|right]; [nia|]. assert (i ≠ j) by (intros ->; done). nia.
Qed.

(** ** The entries of an address *)

Section Cache.
Context (grid : list PortRange) (Hgrid : NoDup (pr_Start <$> grid)).

Definition node_entry (c : glinfo_cache) (ip node : string) : option GlobalInfo := c !! ip ≫= lookup node.

(** Each entry holds one range of the grid on its address, and different
    nodes hold different ranges. *)
Definition cache_ok (c : glinfo_cache) : Prop :=
  (∀ ip node g, node_entry c ip node = Some g → gi_SnatIp g = ip ∧ ∃ r, PortRanges g = [r] ∧ r ∈ grid) ∧
  (∀ ip n1 n2 g1 g2, node_entry c ip n1 = Some g1 → node_entry c ip n2 = Some g2 → PortRanges g1 = PortRanges g2 → n1 = n2).

Lemma entry_insert c ip node g ip' node' :
  node_entry (<[ip := <[node := g]> (default ∅ (c !! ip))]> c) ip' node' =
  if decide (ip' = ip ∧ node' = node) then Some g else node_entry c ip' node'.
Proof.
  unfold node_entry. destruct (decide (ip = ip')) as [->|Hne].
  - rewrite lookup_insert_eq. simpl. destruct (decide (node = node')) as [->|Hn].
    + rewrite lookup_insert_eq, decide_True; done.
    + rewrite lookup_insert_ne, decide_False by naive_solver. by destruct (c !! ip') as [m|]; simpl; rewrite ?lookup_empty.
  - rewrite lookup_insert_ne, decide_False by naive_solver. done.
Qed.

(** A cache with fewer entries is still in order. *)
Definition sub_cache (c' c : glinfo_cache) : Prop := ∀ ip node g, node_entry c' ip node = Some g → node_entry c ip node = Some g.

Lemma cache_ok_sub c' c : sub_cache c' c → cache_ok c → cache_ok c'.
Proof. intros Hs [H1 H2]. split; [intros ip n g H; by apply (H1 ip n), Hs|]. intros ip n1 n2 g1 g2 A B. by apply (H2 ip); apply Hs. Qed.

Lemma entry_delete c ip ip' node : node_entry (delete ip c) ip' node = if decide (ip = ip') then None else node_entry c ip' node.
Proof.
  unfold node_entry. destruct (decide (ip = ip')) as [->|Hne]; [by rewrite lookup_delete_eq|by rewrite lookup_delete_ne].
Qed.

Lemma entry_drop c ip node ip' node' :
  node_entry (drop_node ip node c) ip' node' = if decide (ip' = ip ∧ node' = node) then None else node_entry c ip' node'.
Proof.
  unfold drop_node. destruct (c !! ip) as [m|] eqn:E.
  2:{ destruct (decide (ip' = ip ∧ node' = node)) as [[-> ->]|]; [|done]. unfold node_entry. by rewrite E. }
  case_bool_decide as Hemp.
  - rewrite entry_delete. destruct (decide (ip = ip')) as [->|Hne]; [|by rewrite decide_False by naive_solver].
    destruct (decide _) as [?|Hn]; [done|]. unfold node_entry. rewrite E. simpl.
    assert (Hm : delete node m !! node' = None) by (rewrite Hemp; apply lookup_empty).
    rewrite lookup_delete_ne in Hm by naive_solver. done.
  - unfold node_entry. destruct (decide (ip = ip')) as [->|Hne].
    + rewrite lookup_insert_eq, E. simpl. destruct (decide (node = node')) as [->|Hn].
      * rewrite lookup_delete_eq, decide_True; done.
      * rewrite lookup_delete_ne, decide_False by naive_solver. done.
    + rewrite lookup_insert_ne, decide_False by naive_solver. done.
Qed.

Lemma sub_drop ip node c : sub_cache (drop_node ip node c) c.
Proof. intros ip' n g. rewrite entry_drop. by destruct (decide _). Qed.

Lemma sub_trans a b c : sub_cache a b → sub_cache b c → sub_cache a c.
Proof. intros H1 H2 ip n g H. by apply H2, H1. Qed.

Lemma sub_clear ips node c : sub_cache (clear_ips ips node c) c.
Proof.
  revert c. induction ips as [|ip ips IH]; intros c; cbn [clear_ips]; [by intros ? ? ?|].
  destruct (c !! ip) as [m|]; [|by intros ? ? ?]. destruct (String.eqb node EmptyString).
  - apply (sub_trans _ (delete ip c)); [apply IH|]. intros ip' n g. rewrite entry_delete. by destruct (decide _).
  - case_bool_decide; [apply sub_drop|apply IH].
Qed.

(** ** Allocation *)

Lemma taken_starts_ok c ip m :
  cache_ok c → c !! ip = Some m →
  ∃ seen, taken_starts m = Some seen ∧ length seen = size m ∧
    ∀ z, z ∈ seen ↔ ∃ node g r, m !! node = Some g ∧ PortRanges g = [r] ∧ pr_Start r = z.
Proof.
  intros [H1 _] Hm. unfold taken_starts.
  assert (Hall : ∀ g, g ∈ (snd <$> map_to_list m) → ∃ r, PortRanges g = [r]).
  { intros g Hg. apply list_elem_of_fmap in Hg as ([node g']&->&Hg). apply elem_of_map_to_list in Hg.
    destruct (H1 ip node g') as (_&r&Hr&_); [unfold node_entry; by rewrite Hm|]. by exists r. }
  assert (Hseen : ∀ l, (∀ g, g ∈ l → ∃ r, PortRanges g = [r]) →
    ∃ seen, mapM (λ g, pr_Start <$> head (PortRanges g)) l = Some seen ∧ length seen = length l ∧
      ∀ z, z ∈ seen ↔ ∃ g r, g ∈ l ∧ PortRanges g = [r] ∧ pr_Start r = z).
  { induction l as [|g l IH]; intros Hl.
    { exists []. split_and!; [done|done|]. intros z. split; [intros H; by apply elem_of_nil in H|].
      intros (g&r&H&_). by apply elem_of_nil in H. }
    destruct (Hl g (list_elem_of_here _ _)) as [r Hr]. destruct IH as (seen&E&El&Hs); [intros x Hx; by apply Hl, list_elem_of_further|].
    exists (pr_Start r :: seen). cbn [mapM]. rewrite Hr. simpl. rewrite E. simpl. split_and!; [done|by rewrite El|].
    intros z. rewrite elem_of_cons, Hs. split.
    - intros [->|(x&y&Hx&H)]; [exists g, r; split_and!; [apply list_elem_of_here|done|done]|].
      exists x, y. split; [by apply list_elem_of_further|done].
    - intros (x&y&Hx&Hp&Hz). apply elem_of_cons in Hx as [->|Hx]; [left; rewrite Hr in Hp; congruence|right; by exists x, y]. }
  destruct (Hseen _ Hall) as (seen&E&El&Hs). exists seen. split_and!; [done| |].
  - rewrite El, length_fmap. apply length_map_to_list.
  - intros z. rewrite Hs. split.
    + intros (g&r&Hg&H). apply list_elem_of_fmap in Hg as ([node g']&->&Hg). apply elem_of_map_to_list in Hg. by exists node, g', r.
    + intros (node&g&r&Hg&H). exists g, r. split; [|done]. apply list_elem_of_fmap. exists (node, g). split; [done|].
      by apply elem_of_map_to_list.
Qed.

(** What an allocation gives: a range of the grid that no other node has on
    the address. *)
Definition free_for (c : glinfo_cache) (node ip : string) (r : PortRange) : Prop :=
  r ∈ grid ∧ ∀ node' g, node' ≠ node → node_entry c ip node' = Some g → PortRanges g ≠ [r].

(** The address has no room for the node. *)
Definition full (c : glinfo_cache) (ip : string) : Prop := ∃ m, c !! ip = Some m ∧ (length grid <= size m)%nat.

Lemma pigeonhole seen :
  (length seen < length grid)%nat → ∃ r, List.find (λ v, negb (bool_decide (pr_Start v ∈ seen))) grid = Some r.
Proof using Hgrid.
  intros Hlen. destruct (List.find _ grid) as [r|] eqn:E; [by exists r|]. exfalso.
  assert (Hsub : pr_Start <$> grid ⊆ seen).
  { intros z Hz. apply list_elem_of_fmap in Hz as (r&->&Hr). apply list_elem_of_In in Hr.
    apply (find_none _ _ E) in Hr. apply negb_false_iff in Hr. by apply bool_decide_eq_true_1 in Hr. }
  apply NoDup_submseteq in Hsub; [|done]. apply submseteq_length in Hsub. rewrite length_fmap in Hsub. lia.
Qed.

Lemma allocate_from_ok c node first ips :
  cache_ok c → first ∈ grid →
  ∃ res, allocate_from c node grid first ips = Some res ∧
    match res with
    | Some (ip, r) => ip ∈ ips ∧ free_for c node ip r
    | None => ∀ ip, ip ∈ ips → full c ip
    end.
Proof using Hgrid.
  intros Hok Hfirst. pose proof Hok as [H1 H2].
  assert (Hrec : ∀ ip ips (res : option (string * PortRange)), full c ip →
    match res with Some (ip', r) => ip' ∈ ips ∧ free_for c node ip' r | None => ∀ ip', ip' ∈ ips → full c ip' end →
    match res with Some (ip', r) => ip' ∈ ip :: ips ∧ free_for c node ip' r | None => ∀ ip', ip' ∈ ip :: ips → full c ip' end).
  { intros ip l [[ip' r]|] Hf; [intros [A B]; split; [by apply list_elem_of_further|done]|].
    intros H x Hx. apply elem_of_cons in Hx as [->|Hx]; [done|by apply H]. }
  induction ips as [|ip ips IH]; cbn [allocate_from].
  { exists None. split; [done|]. intros ip Hip. by apply elem_of_nil in Hip. }
  destruct (c !! ip) as [m|] eqn:Em.
  2:{ eexists. split; [reflexivity|]. split; [apply list_elem_of_here|]. split; [done|].
      intros node' g _. unfold node_entry. rewrite Em. done. }
  destruct (Nat.ltb_spec (size m) (length grid)) as [Hlt|Hge].
  2:{ destruct IH as (res&->&Hres). exists res. split; [done|]. apply Hrec; [by exists m|done]. }
  destruct (m !! node) as [g|] eqn:En.
  - destruct (H1 ip node g) as (Hip&r&Hr&Hin); [unfold node_entry; rewrite Em; done|]. rewrite Hr. simpl.
    eexists. split; [reflexivity|]. rewrite Hip. split; [apply list_elem_of_here|]. split; [done|].
    intros node' g' Hne Hg' Hpr. apply Hne. apply (H2 ip node' node g' g); [done|unfold node_entry; by rewrite Em|congruence].
  - destruct (taken_starts_ok c ip m Hok Em) as (seen&->&Hlen&Hseen). simpl.
    destruct (pigeonhole seen) as [r Hr]; [lia|]. rewrite Hr. eexists. split; [reflexivity|].
    apply find_some in Hr as [Hin Hnot]. apply negb_true_iff, bool_decide_eq_false_1 in Hnot.
    split; [apply list_elem_of_here|]. split; [by apply list_elem_of_In|].
    intros node' g' _ Hg' Hpr. apply Hnot, Hseen. unfold node_entry in Hg'. rewrite Em in Hg'. by exists node', g', r.
Qed.

Lemma update_ok portrange ip node mac policy s :
  cache_ok (snatGlobalInfoCache s) → free_for (snatGlobalInfoCache s) node ip portrange →
  cache_ok (snatGlobalInfoCache (updateGlobalInfoforPolicy portrange ip node mac policy s)).
Proof.
  intros [H1 H2] [Hin Hfree]. unfold updateGlobalInfoforPolicy. cbn [snatGlobalInfoCache set_glinfo]. split.
  - intros ip' n g. rewrite entry_insert. destruct (decide _) as [[-> ->]|]; [|apply H1]. intros [= <-]. simpl. split; [done|by exists portrange].
  - intros ip' n1 n2 g1 g2. rewrite !entry_insert.
    destruct (decide (ip' = ip ∧ n1 = node)) as [[E1 ->]|A1], (decide (ip' = ip ∧ n2 = node)) as [[E2 ->]|A2].
    + done.
    + subst ip'. intros [= <-] Hg2 Hp. exfalso. apply (Hfree n2 g2); [naive_solver|done|]. by rewrite <- Hp.
    + subst ip'. intros Hg1 [= <-] Hp. exfalso. apply (Hfree n1 g1); [naive_solver|done|]. by rewrite Hp.
    + apply H2.
Qed.
End Cache.

(** ** The addresses of a network *)

Open Scope Z_scope.

Lemma inc_rev_ok l :
  Forall byte_ok l →
  length (inc_rev l) = length l ∧ Forall byte_ok (inc_rev l) ∧
  val (rev (inc_rev l)) = (val (rev l) + 1) mod 256 ^ Z.of_nat (length l).
Proof.
  induction l as [|b l IH]; intros Hl; [simpl; split_and!; [done|done|]; by rewrite Z.mod_1_r|].
  apply Forall_cons in Hl as [Hb Hl]. destruct (IH Hl) as (H1&H2&H3). cbn [inc_rev].
  assert (Hbound : 0 <= val (rev l) < 256 ^ Z.of_nat (length l)).
  { apply val_bound. split; [by rewrite length_rev|]. by apply Forall_rev. }
  unfold byte_ok in Hb. cbn [rev length]. rewrite pow256_S.
  destruct (decide (b = 255)) as [->|Hne].
  - change ((255 + 1) mod 256) with 0. simpl. split_and!; [by rewrite H1|by constructor|].
    rewrite !val_snoc, H3, Z.add_0_r. rewrite <- Z.mul_mod_distr_r by (pose proof (pow256_pos (length l)); lia).
    f_equal; lia.
  - rewrite Z.mod_small by lia. destruct (Z.ltb_spec 0 (b + 1)); [|lia]. cbn [rev length].
    split_and!; [done|constructor; [unfold byte_ok; lia|done]|]. rewrite !val_snoc. rewrite Z.mod_small; lia.
Qed.

Lemma inc_ok n ip : ok n ip → ok n (inc ip) ∧ val (inc ip) = (val ip + 1) mod 256 ^ Z.of_nat n.
Proof.
  intros [Hl Hf]. unfold inc. destruct (inc_rev_ok (rev ip)) as (H1&H2&H3); [by apply Forall_rev|].
  rewrite rev_involutive, length_rev, Hl in H3. split; [|done]. split; [rewrite length_rev, H1, length_rev; done|].
  by apply Forall_rev.
Qed.

(** ** The loop *)

Definition addr_text (z : Z) : string := string4 (to_bytes 4 z).

Lemma IP_String_v4 q : ok 4 q → IP_String q = addr_text (val q).
Proof.
  intros Hq. unfold IP_String, addr_text. rewrite to_bytes_val by done. destruct Hq as [Hl _]. unfold To4. by rewrite Hl.
Qed.

Lemma cidr_loop_ok n k m fuel ip :
  net4 n k → (1 <= k)%nat → ok 4 ip → (m < fuel)%nat →
  val ip + Z.of_nat m = val (net_IP n) + host 4 k → (0 < m)%nat → val (net_IP n) <= val ip →
  cidr_loop fuel n ip = Some (addr_text <$> seqZ (val ip) (Z.of_nat m)).
Proof.
  intros Hn Hk. revert fuel ip. induction m as [|m IH]; intros fuel ip Hip Hf Hv Hm Hlo; [lia|].
  destruct fuel as [|fuel]; [lia|]. cbn [cidr_loop].
  assert (Hc : Contains n ip = true) by (apply (Contains_net4 n k); [done|done|]; apply (net4_in_net n k); [done|lia]).
  rewrite Hc. destruct (inc_ok 4 ip Hip) as [Hi Hiv]. rewrite seqZ_cons by lia. rewrite fmap_cons.
  replace (Z.pred (Z.of_nat (S m))) with (Z.of_nat m) by lia. rewrite (IP_String_v4 ip Hip).
  pose proof (val_bound 4 ip Hip) as Hb. change (256 ^ Z.of_nat 4) with (2 ^ 32) in *.
  destruct m as [|m].
  - assert (Hend : Contains n (inc ip) = false).
    { apply not_true_iff_false. rewrite (Contains_net4 n k), (net4_in_net n k) by done. rewrite Hiv.
      assert (host 4 k <= 2 ^ 31).
      { unfold host. apply Z.pow_le_mono_r; lia. }
      destruct (decide (val ip + 1 = 2 ^ 32)) as [E|E]; [rewrite E, Z.mod_same by lia; lia|].
      rewrite Z.mod_small by lia. lia. }
    destruct fuel as [|fuel]; [lia|]. cbn [cidr_loop]. rewrite Hend. simpl. done.
  - destruct Hn as (Hk32&Hok&Hm0&Hmask).
    assert (Htop : val (net_IP n) + host 4 k <= 2 ^ 32).
    { destruct (block_val 4 v4_len (net_IP n) k Hok ltac:(lia)) as (_&H2&la&_&Hla&Hlv).
      change (8 * 4)%nat with 32%nat in *. rewrite <- Hm0, Hmask in H2.
      pose proof (val_bound 4 la Hla). change (256 ^ Z.of_nat 4) with (2 ^ 32) in *. lia. }
    rewrite Z.mod_small in Hiv by lia. rewrite IH; [|done|lia|lia|lia|lia]. simpl. rewrite Hiv.
    replace (Z.succ (val ip)) with (val ip + 1) by lia. done.
Qed.

Lemma host_count_ok n k : net4 n k → Z.of_nat (host_count (net_Mask n)) = host 4 k.
Proof.
  intros (Hk&_&Hm&_). unfold host_count, host. rewrite Hm.
  assert (E : CIDRMask k 32 = cidr_bytes 4 k) by (apply (CIDRMask_cidr 4 k v4_len); lia).
  rewrite E. destruct (Itoa_prefix k Hk) as [_ ->]. rewrite cidr_bytes_length, Nat2Z.id, Nat2Z.inj_pow. f_equal. lia.
Qed.

Lemma GetIPsFromCIDR_ok cidr n k :
  ParseCIDR cidr = Some n → net4 n k → (1 <= k)%nat →
  GetIPsFromCIDR cidr =
    Some (if decide (k = 32%nat) then [addr_text (val (net_IP n))]
          else addr_text <$> seqZ (val (net_IP n) + 1) (host 4 k - 2)).
Proof.
  intros Hp Hn Hk. unfold GetIPsFromCIDR, parseIP. rewrite Hp. cbn [mbind option_bind].
  pose proof Hn as (Hk32&Hok&Hm0&Hmask). rewrite Hmask. pose proof (host_count_ok n k Hn) as Hh.
  pose proof (host_pos 4 k ltac:(lia)) as Hpos.
  rewrite (cidr_loop_ok n k (host_count (net_Mask n))); [|done|done|done|lia|lia|lia|lia]. rewrite Hh. cbn [mbind option_bind].
  destruct (decide (k = 32%nat)) as [->|Hne].
  - change (host 4 32) with 1. rewrite seqZ_cons by lia. done.
  - assert (Hh2 : 2 <= host 4 k).
    { unfold host. transitivity (2 ^ 1); [lia|]. apply Z.pow_le_mono_r; lia. }
    rewrite seqZ_cons by lia. rewrite fmap_cons.
    replace (Z.pred (host 4 k)) with ((host 4 k - 2) + 1) by lia. rewrite seqZ_app by lia. rewrite fmap_app.
    replace (Z.succ (val (net_IP n))) with (val (net_IP n) + 1) by lia.
    rewrite (seqZ_cons _ 1) by lia. change (seqZ _ (Z.pred 1)) with (@nil Z).
    set (l := addr_text <$> seqZ (val (net_IP n) + 1) (host 4 k - 2)). cbn [fmap list_fmap].
    destruct (l ++ [_])%list as [|x r] eqn:E; [by destruct l|]. rewrite <- E. by rewrite removelast_last.
Qed.
