(* ===== verification/SnatSys.v ===== *)
(** * SnatSys: the handlers of source NAT as a transition system

    The steps are the handlers, with any content of the service store and any
    answers of the API server, and changes of the informer's store of policies.
    The configuration of the port ranges is fixed; [snat_ok] holds in every
    state that is reached. *)
From S2P Require Import Prelude GoBytes GoNet GoText IpAlloc PodIndex K8s AciNames Snat SnatFacts.

Open Scope string_scope.

Section Invariant.
Context (grid : list PortRange) (Hgrid : NoDup (pr_Start <$> grid)).

(** The entries are in order and all policies use the same ranges. *)
Definition snat_ok (s : SnatState) : Prop :=
  cache_ok grid (snatGlobalInfoCache s) ∧ ∀ k p, snatPolicyCache s !! k = Some p → ExpandedSnatPorts p = grid.

(** The step leaves entries and policies as they are. *)
Definition same_tables (s' s : SnatState) : Prop :=
  snatGlobalInfoCache s' = snatGlobalInfoCache s ∧ snatPolicyCache s' = snatPolicyCache s ∧
  snatNodeInfoCache s' = snatNodeInfoCache s.

Lemma same_refl s : same_tables s s.
Proof. done. Qed.
Lemma same_trans a b c : same_tables a b → same_tables b c → same_tables a c.
Proof. intros (A1&A2&A3) (B1&B2&B3). split_and!; congruence. Qed.
Lemma snat_ok_same s' s : same_tables s' s → snat_ok s → snat_ok s'.
Proof. intros (H1&H2&_) [A B]. split; rewrite ?H1, ?H2; done. Qed.

Lemma status_same uf name st s : same_tables (setSnatPolicyStatus uf name st s).1 s.
Proof. unfold setSnatPolicyStatus. destruct (snatIndexer s !! name) as [p|]; [destruct (String.eqb _ _)|]; done. Qed.

Lemma states_same uf names st s : same_tables (setSnatPoliciesState uf names st s).1 s.
Proof.
  unfold setSnatPoliciesState. generalize false. revert s. induction names as [|n names IH]; intros s b; [done|]. cbn [foldl].
  pose proof (status_same uf n st s) as Hs. destruct (setSnatPolicyStatus uf n st s) as [s1 r]. cbn [fst] in Hs.
  apply (same_trans _ s1); [apply IH|done].
Qed.

(** ** Allocation for a node *)

Lemma getIpAndPortRange_ok c node policy ip :
  cache_ok grid c → ExpandedSnatPorts policy = grid →
  ∃ res, getIpAndPortRange c node policy ip = Some res ∧
    match res with
    | Some (ip', r) => ip' ∈ match csp_SnatIp policy with [] => [ip] | _ => ExpandedSnatIps policy end ∧ free_for grid c node ip' r
    | None => grid = [] ∨
              ∀ ip', ip' ∈ match csp_SnatIp policy with [] => [ip] | _ => ExpandedSnatIps policy end → full grid c ip'
    end.
Proof using Hgrid.
  intros Hok Hp. unfold getIpAndPortRange. rewrite Hp.
  assert (A : ∀ ips, ∃ res, allocateIpSnatPortRange c ips node grid = Some res ∧
    match res with Some (ip', r) => ip' ∈ ips ∧ free_for grid c node ip' r | None => grid = [] ∨ ∀ ip', ip' ∈ ips → full grid c ip' end).
  { intros ips. unfold allocateIpSnatPortRange. destruct grid as [|first rest] eqn:Eg; [exists None; split; [done|by left]|].
    destruct (allocate_from_ok (first :: rest) Hgrid c node first ips Hok) as (res&->&H); [apply list_elem_of_here|].
    exists res. split; [done|]. destruct res as [[ip' r]|]; [done|by right]. }
  destruct (csp_SnatIp policy) as [|x l]; [apply A|].
  destruct (ExpandedSnatIps policy) as [|y ips]; [|apply A].
  exists None. split; [done|]. right. intros ip' H. by apply elem_of_nil in H.
Qed.

(** The pass changes entries only. *)
Definition pass_ok (p : pass) : Prop := snat_ok (ps_state p).
Definition pass_keeps (p' p : pass) : Prop :=
  snatPolicyCache (ps_state p') = snatPolicyCache (ps_state p) ∧ snatIndexer (ps_state p') = snatIndexer (ps_state p) ∧
  snatNodeInfoCache (ps_state p') = snatNodeInfoCache (ps_state p).

Lemma allocate_for_ok ni name policy ip p :
  pass_ok p → ExpandedSnatPorts policy = grid →
  ∃ p', allocate_for ni name policy ip p = Some p' ∧ pass_ok p' ∧ pass_keeps p' p.
Proof using Hgrid.
  intros [Hc Hp] Hg. unfold allocate_for.
  destruct (getIpAndPortRange_ok (snatGlobalInfoCache (ps_state p)) (ni_Name ni) policy ip Hc Hg) as (res&->&Hres). simpl.
  destruct res as [[ip' r]|]; eexists; (split; [reflexivity|]); (split; [|done]).
  - destruct Hres as [_ Hf]. split; [|done]. by apply update_ok.
  - by split.
Qed.

Lemma keeps_trans a b c : pass_keeps a b → pass_keeps b c → pass_keeps a c.
Proof. intros (A1&A2&A3) (B1&B2&B3). split_and!; congruence. Qed.

Lemma allocate_services_ok ni name policy ips p :
  pass_ok p → ExpandedSnatPorts policy = grid →
  ∃ p', allocate_services ni name policy ips p = Some p' ∧ pass_ok p' ∧ pass_keeps p' p.
Proof using Hgrid.
  intros Hok Hg. revert p Hok. induction ips as [|ip ips IH]; intros p Hok; cbn [allocate_services]; [by exists p|].
  destruct (allocate_for_ok ni name policy ip p Hok Hg) as (p1&->&H1&K1). simpl.
  destruct (IH p1 H1) as (p2&->&H2&K2). exists p2. split_and!; [done|done|by apply (keeps_trans _ p1)].
Qed.

Lemma allocate_policies_ok services ni names p :
  pass_ok p → ∃ p', allocate_policies services ni names p = Some p' ∧ pass_ok p' ∧ pass_keeps p' p.
Proof using Hgrid.
  revert p. induction names as [|name names IH]; intros p Hok; cbn [allocate_policies]; [by exists p|].
  assert (Hstep : ∃ p1, match snatPolicyCache (ps_state p) !! name with
      | None => Some p
      | Some policy =>
          match csp_SnatIp policy with
          | [] => if checkIfPolicyApplied (snatGlobalInfoCache (ps_state p)) (ni_Name ni) name (getServiceIps services policy) then Some p
                  else allocate_services ni name policy (getServiceIps services policy) p
          | _ => if checkIfPolicyApplied (snatGlobalInfoCache (ps_state p)) (ni_Name ni) name (ExpandedSnatIps policy) then Some p
                 else allocate_for ni name policy EmptyString p
          end
      end = Some p1 ∧ pass_ok p1 ∧ pass_keeps p1 p).
  { destruct (snatPolicyCache (ps_state p) !! name) as [policy|] eqn:Ep; [|by exists p].
    destruct Hok as [Hc Hp]. pose proof (Hp _ _ Ep) as Hg.
    destruct (csp_SnatIp policy); destruct (checkIfPolicyApplied _ _ _ _); try (by exists p);
      [apply allocate_services_ok|apply allocate_for_ok]; done. }
  destruct Hstep as (p1&->&H1&K1). simpl. destruct (IH p1 H1) as (p2&->&H2&K2).
  exists p2. split_and!; [done|done|by apply (keeps_trans _ p1)].
Qed.

(** ** Removal *)

Lemma snat_ok_glinfo f s :
  sub_cache (f (snatGlobalInfoCache s)) (snatGlobalInfoCache s) → snat_ok s → snat_ok (set_glinfo f s).
Proof. intros Hs [A B]. split; [by apply (cache_ok_sub grid _ _ Hs)|done]. Qed.

Lemma drop_node_all_ok uf ips node s : snat_ok s → snat_ok (drop_node_all uf ips node s).1.
Proof.
  revert s. induction ips as [|ip ips IH]; intros s Hok; cbn [drop_node_all]; [done|].
  destruct (snatGlobalInfoCache s !! ip ≫= lookup node) as [v|]; [|by apply IH].
  set (r := if checksnatPolicyPortExhausted (gi_SnatPolicyName v) s then _ else _).
  assert (Hr : snat_ok r.1).
  { unfold r. destruct (checksnatPolicyPortExhausted _ _); [|done]. by apply (snat_ok_same _ s); [apply status_same|]. }
  clearbody r. destruct r as [s1 [|]]; [done|]. apply IH. by apply snat_ok_glinfo; [apply sub_drop|].
Qed.

Lemma ready_all_same uf names s : same_tables (ready_all uf names s).1 s.
Proof.
  revert s. induction names as [|n names IH]; intros s; cbn [ready_all]; [done|].
  destruct (checksnatPolicyPortExhausted n s); [|apply IH].
  pose proof (status_same uf n Ready s) as Hs. destruct (setSnatPolicyStatus uf n Ready s) as [s1 [|]]; [done|].
  apply (same_trans _ s1); [apply IH|done].
Qed.

Lemma delete_ok uf names node s : snat_ok s → snat_ok (deleteNodeinfoFromGlInfoCache uf names node s).1.
Proof.
  intros Hok. unfold deleteNodeinfoFromGlInfoCache.
  pose proof (drop_node_all_ok uf (fst <$> map_to_list (snatGlobalInfoCache s)) node s Hok) as H.
  destruct (drop_node_all _ _ _ _) as [s1 [|]]; [done|]. by apply (snat_ok_same _ s1); [apply ready_all_same|].
Qed.

Lemma handleSnatNodeInfo_ok services uf ni s :
  snat_ok s → ∃ s' b, handleSnatNodeInfo services uf ni s = Some (s', b) ∧ snat_ok s'.
Proof using Hgrid.
  intros Hok. unfold handleSnatNodeInfo.
  destruct (negb _ || _).
  - pose proof (delete_ok uf (SnatPolicyNames ni) (ni_Name ni) s Hok) as H.
    destruct (deleteNodeinfoFromGlInfoCache _ _ _ _) as [s1 b]. by exists (snat_emit [SyncGlobalInfo] s1), b.
  - destruct (allocate_policies_ok services ni (elements (SnatPolicyNames ni)) (mkPass s [] [] false) Hok) as (p&->&Hp&_). simpl.
    pose proof (states_same uf (allocfailed p) IpPortsExhausted (ps_state p)) as S1.
    destruct (setSnatPoliciesState uf (allocfailed p) IpPortsExhausted (ps_state p)) as [s1 r1].
    pose proof (states_same uf (markready p) Ready s1) as S2.
    destruct (setSnatPoliciesState uf (markready p) Ready s1) as [s2 r2]. eexists _, _. split; [reflexivity|].
    assert (snat_ok s2) by (apply (snat_ok_same _ (ps_state p)); [by apply (same_trans _ s1)|done]).
    by destruct (updated p).
Qed.

Lemma clear_ok services name node s : snat_ok s → snat_ok (clearSnatGlobalCache services name node s).
Proof.
  intros Hok. unfold clearSnatGlobalCache. destruct (snatPolicyCache s !! name); [|done].
  apply snat_ok_glinfo; [apply sub_clear|done].
Qed.

Lemma updateSnatIpandPorts_ok services uf old new node s :
  snat_ok s → snat_ok (updateSnatIpandPorts services uf old new node s).
Proof.
  unfold updateSnatIpandPorts. generalize (elements (old ∖ new)). intros l. revert s.
  induction l as [|k l IH]; intros s Hok; [done|]. cbn [foldl]. apply IH. destruct (checksnatPolicyPortExhausted _ _).
  - eapply snat_ok_same; [apply status_same|by apply clear_ok].
  - by apply clear_ok.
Qed.

(** ** Policies *)

(** The configuration gives the ranges of the grid. *)
Definition configured (cMap : option (gmap string string)) : Prop :=
  let '(range, step) := GetPortRangeFromConfigMap cMap in ExpandPortRanges [range] step = Some grid.

Lemma updateSnatPolicyCache_ok services cMap key p s s' :
  configured cMap → snat_ok s → updateSnatPolicyCache services cMap key p s = Some s' → snat_ok s'.
Proof.
  unfold configured, updateSnatPolicyCache. intros Hcfg Hok. destruct (ExpandCIDRs (sp_SnatIp p)) as [ips|]; [|done]. simpl.
  destruct (GetPortRangeFromConfigMap cMap) as [range step]. rewrite Hcfg. simpl.
  set (upd := match snatPolicyCache s !! key with Some info => _ | None => false end). clearbody upd.
  set (s1 := if upd then clearSnatGlobalCache services (sp_NameP p) EmptyString s else s).
  assert (H1 : snat_ok s1) by (unfold s1; destruct upd; [by apply clear_ok|done]). clearbody s1.
  assert (H2 : snat_ok (set_policies <[key := mkCsp (sp_SnatIp p) (sp_Selector p) ips grid]> s1)).
  { destruct H1 as [A B]. split; [done|]. intros k q. cbn [snatPolicyCache set_policies].
    destruct (decide (key = k)) as [->|Hne]; [rewrite lookup_insert_eq; by intros [= <-]|rewrite lookup_insert_ne by done; apply B]. }
  intros [= <-]. by destruct upd.
Qed.

Lemma foldl_same {A} (f : SnatState → A → SnatState) l s :
  (∀ s x, same_tables (f s x) s) → same_tables (foldl f s l) s.
Proof. intros H. revert s. induction l as [|x l IH]; intros s; [done|]. cbn [foldl]. by apply (same_trans _ (f s x)). Qed.

Lemma handleSnatUpdate_ok services uf cMap sync gf p s s' b :
  configured cMap → snat_ok s → handleSnatUpdate services uf cMap sync gf p s = Some (s', b) → snat_ok s'.
Proof.
  intros Hcfg Hok. unfold handleSnatUpdate. destruct (String.eqb (sp_State p) EmptyString).
  - destruct (validateCr p s) as [v|]; [|done]. simpl. intros H.
    pose proof (status_same uf (sp_NameP p) (if v then Ready else Failed) s) as Hs. injection H as H.
    rewrite H in Hs. by apply (snat_ok_same _ s).
  - destruct (negb _); [by intros [= <- _]|]. destruct (updateSnatPolicyCache _ _ _ _ _) as [s1|] eqn:E; [|done]. simpl.
    apply updateSnatPolicyCache_ok in E; [|done|done]. destruct sync; [|by intros [= <- _]].
    destruct (sp_SnatIp p); intros [= <- _]; [|done]. apply (snat_ok_same _ s1); [|done].
    apply foldl_same. intros s0 [k so]. by destruct (so_deleting _).
Qed.

Lemma snatPolicyDelete_ok services graph p s : snat_ok s → snat_ok (snatPolicyDelete services graph p s).
Proof.
  intros Hok. unfold snatPolicyDelete. set (s1 := set_policies _ _).
  assert (H1 : snat_ok s1).
  { destruct (clear_ok services (sp_NameP p) EmptyString s Hok) as [A B]. split; [done|]. intros k q.
    unfold s1. cbn [snatPolicyCache set_policies]. intros H. apply lookup_delete_Some in H as [_ H]. by apply (B k). }
  clearbody s1. destruct (sp_SnatIp p).
  - apply (snat_ok_same _ s1); [|done]. apply foldl_same. by intros s0 [k so].
  - by destruct (bool_decide _).
Qed.
End Invariant.

(** ** Steps *)

Inductive snat_step (cMap : option (gmap string string)) : SnatState → SnatState → Prop :=
  | step_nodeinfo services uf ni s s' b : handleSnatNodeInfo services uf ni s = Some (s', b) → snat_step cMap s s'
  | step_ni_added n s : snat_step cMap s (snatNodeInfoAdded n s)
  | step_ni_updated services uf o n s : snat_step cMap s (snatNodeInfoUpdated services uf o n s)
  | step_ni_deleted services uf n s s' : snatNodeInfoDeleted services uf n s = Some s' → snat_step cMap s s'
  | step_policy services uf sync gf p s s' b : handleSnatUpdate services uf cMap sync gf p s = Some (s', b) → snat_step cMap s s'
  | step_policy_deleted services graph p s : snat_step cMap s (snatPolicyDelete services graph p s)
  | step_store f s : snat_step cMap s (set_snatobjs f s).

Definition snat_reach (cMap : option (gmap string string)) : SnatState → Prop := rtc (snat_step cMap) initial_snat.

Lemma snat_step_ok grid cMap s s' :
  NoDup (pr_Start <$> grid) → configured grid cMap → snat_step cMap s s' → snat_ok grid s → snat_ok grid s'.
Proof.
  intros Hg Hcfg Hs Hok.
  destruct Hs as [services uf ni s s' b H|n s|services uf o n s|services uf n s s' H|services uf sync gf p s s' b H|services graph p s|f s].
  - destruct (handleSnatNodeInfo_ok grid Hg services uf ni s Hok) as (s1&b1&E&H1). congruence.
  - done.
  - unfold snatNodeInfoUpdated. destruct (_ && _); [done|]. exact (updateSnatIpandPorts_ok grid services uf _ _ _ s Hok).
  - unfold snatNodeInfoDeleted in H.
    destruct (handleSnatNodeInfo_ok grid Hg services uf n (set_nodeinfos (delete (ni_Name n)) s) Hok) as (s1&b1&E&H1).
    rewrite E in H. by injection H as <-.
  - by apply (handleSnatUpdate_ok grid) in H.
  - by apply snatPolicyDelete_ok.
  - done.
Qed.

Lemma snat_reach_ok grid cMap s : NoDup (pr_Start <$> grid) → configured grid cMap → snat_reach cMap s → snat_ok grid s.
Proof.
  intros Hg Hcfg H. unfold snat_reach in H. remember initial_snat as s0 eqn:E.
  assert (H0 : snat_ok grid s0).
  { subst s0. split; [|intros k p; cbn; by rewrite lookup_empty]. split; unfold node_entry.
    - intros ip n g. cbn. by rewrite lookup_empty.
    - intros ip n1 n2 g1 g2. cbn. by rewrite lookup_empty. }
  clear E. induction H as [|a b c H _ IH]; [done|]. apply IH. by apply (snat_step_ok grid cMap a).
Qed.
