(* ===== verification/SnatProps.v ===== *)
(** * SnatProps: what holds of source NAT *)
From S2P Require Import Prelude GoBytes GoNet GoText IpAlloc PodIndex K8s AciNames Snat SnatFacts SnatSys NetPolBlocks IpRangeFacts.

Open Scope string_scope.

(** ** Port ranges *)

(** The bounds that the configuration is checked for; the size of a range is
    not checked to be positive. *)
Lemma cfg_bounds cMap :
  let '(range, step) := GetPortRangeFromConfigMap cMap in
  (5000 <= pr_Start range ∧ pr_Start range <= pr_End range ∧ pr_End range <= 65000 ∧
   step <= pr_End range - pr_Start range + 1)%Z.
Proof.
  unfold GetPortRangeFromConfigMap. destruct (cMap ≫= valid_cfg) as [[range step]|] eqn:E; [|simpl; unfold MIN_PORT, MAX_PORT, PORTPERNODES; lia].
  simpl. destruct cMap as [data|]; [|done]. simpl in E. unfold valid_cfg in E.
  destruct (data !! "start" ≫= Atoi_int) as [a|]; [|done]. simpl in E. destruct (data !! "end" ≫= Atoi_int) as [b|]; [|done]. simpl in E.
  destruct (data !! "ports-per-node" ≫= Atoi_int) as [c|]; [|done]. simpl in E.
  destruct (_ || _) eqn:Ec; [done|]. injection E as <- <-. simpl. rewrite !orb_false_iff, !Z.ltb_ge in Ec. lia.
Qed.

(** C37: for a positive number of ports per node, cutting the configured range
    ends and gives exactly the consecutive ranges of that size from its start,
    in order, as far as they end before the last port; for zero ports per node,
    which the check of the configuration lets through, the loop never ends. *)
Theorem snat_port_ranges range step :
  small (pr_Start range) → small (pr_End range) → (0 <= step <= 2 ^ 32)%Z →
  if decide (step = 0)%Z then
    (pr_Start range < pr_End range - 1)%Z → ∀ fuel, expand_loop fuel (pr_Start range) (pr_End range) step = None
  else
    ∃ l, ExpandPortRanges [range] step = Some l ∧ Sorted start_le l ∧ NoDup (pr_Start <$> l) ∧
      (∀ r, r ∈ l ↔ ∃ k, r = grid_range (pr_Start range) step k ∧
         pr_Start r < pr_End range - 1 ∧ pr_End r <= pr_End range - 1)%Z ∧
      (∀ a b, a ∈ l → b ∈ l → a ≠ b → disjoint a b).
Proof.
  intros H1 H2 H3. destruct (decide (step = 0)%Z) as [->|Hne].
  - intros Hlt fuel. by apply expand_loop_zero.
  - destruct (ExpandPortRanges_ok range step H1 H2) as (l&E&Hl&Hnd&Hs); [lia|]. exists l. split_and!; [done|done|done|exact Hl|].
    intros a b Ha Hb Hab. pose proof (proj1 (Hl a) Ha) as (i&Hi&Hi'). pose proof (proj1 (Hl b) Hb) as (j&Hj&Hj').
    apply (grid_disjoint (pr_Start range) (pr_End range) step); [lia|by exists i|by exists j|].
    intros Heq. apply Hab. subst a b. unfold grid_range in *. simpl in *. assert (i = j) as -> by nia. done.
Qed.

Lemma snat_port_ranges_witness :
  (∃ l, ExpandPortRanges [mkRangeP 5000 65000] 3000 = Some l ∧ length l = 20%nat ∧ ∀ a b, a ∈ l → b ∈ l → a ≠ b → disjoint a b) ∧
  ∀ fuel, expand_loop fuel 5000 65000 0 = None.
Proof.
  split.
  - assert (length <$> ExpandPortRanges [mkRangeP 5000 65000] 3000 = Some 20%nat) as Hn by (vm_compute; reflexivity).
    destruct (snat_port_ranges (mkRangeP 5000 65000) 3000) as (l&E&_&_&_&H); [unfold small; simpl; lia|unfold small; simpl; lia|lia|].
    exists l. rewrite E in Hn. injection Hn as Hn. exact (conj E (conj Hn H)).
  - apply (snat_port_ranges (mkRangeP 5000 65000) 0); [unfold small; simpl; lia|unfold small; simpl; lia|lia|simpl; lia].
Defined.

(** The range lies in the configured one, before its last port, and has the
    configured number of ports. *)
Definition within_config (cMap : option (gmap string string)) (r : PortRange) : Prop :=
  let '(range, step) := GetPortRangeFromConfigMap cMap in
  (pr_Start range <= pr_Start r ∧ pr_End r < pr_End range ∧ pr_End r - pr_Start r + 1 = step)%Z.

(** The entries of two nodes on one address. *)
Lemma reach_entries_apart cMap s :
  (1 <= (GetPortRangeFromConfigMap cMap).2)%Z → snat_reach cMap s →
  ∀ ip n1 n2 g1 g2, n1 ≠ n2 →
    node_entry (snatGlobalInfoCache s) ip n1 = Some g1 → node_entry (snatGlobalInfoCache s) ip n2 = Some g2 →
    ∃ r1 r2, PortRanges g1 = [r1] ∧ PortRanges g2 = [r2] ∧ disjoint r1 r2 ∧
      (5000 <= pr_Start r1 ∧ pr_Start r1 <= pr_End r1 ∧ pr_End r1 < 65000)%Z ∧ gi_SnatIp g1 = ip ∧
      within_config cMap r1 ∧ within_config cMap r2.
Proof.
  intros Hstep Hr ip n1 n2 g1 g2 Hne E1 E2. pose proof (cfg_bounds cMap) as Hb. unfold within_config.
  destruct (GetPortRangeFromConfigMap cMap) as [range step] eqn:Ec. simpl in Hstep.
  destruct (ExpandPortRanges_ok range step) as (grid&Eg&Hl&Hnd&_); [unfold small; lia|unfold small; lia|lia|].
  destruct (snat_reach_ok grid cMap s Hnd) as [[C1 C2] _]; [unfold configured; by rewrite Ec|done|].
  destruct (C1 _ _ _ E1) as (Hip&r1&P1&I1). destruct (C1 _ _ _ E2) as (_&r2&P2&I2). exists r1, r2.
  assert (Hr12 : r1 ≠ r2).
  { intros ->. apply Hne, (C2 ip n1 n2 g1 g2); [done|done|congruence]. }
  apply Hl in I1, I2. pose proof I1 as (i&Hi&Hi'). pose proof I2 as (j&Hj&Hj').
  split_and!; [done|done| | | | |done| | | | | |]; try (subst r1 r2; unfold grid_range in *; simpl in *; nia).
  - apply (grid_disjoint (pr_Start range) (pr_End range) step); [lia|done|done|]. intros Heq. apply Hr12. subst r1 r2.
    unfold grid_range in *. simpl in *. assert (i = j) as -> by nia. done.
Qed.

(** C5: in every state that the handlers reach while the configuration of the
    port ranges stays the same, with at least one port per node, whenever two
    nodes have entries on the same address, the entry of each holds one range;
    the ranges have no port in common; and each lies within the configured range
    of ports (the one of the config map if that is valid, else 5000 to 65000)
    and has the configured number of ports. *)
Theorem snat_no_overlap cMap s :
  (1 <= (GetPortRangeFromConfigMap cMap).2)%Z → snat_reach cMap s →
  ∀ ip n1 n2 g1 g2, n1 ≠ n2 →
    node_entry (snatGlobalInfoCache s) ip n1 = Some g1 → node_entry (snatGlobalInfoCache s) ip n2 = Some g2 →
    ∃ r1 r2, PortRanges g1 = [r1] ∧ PortRanges g2 = [r2] ∧ disjoint r1 r2 ∧
      (5000 <= pr_Start r1 ∧ pr_Start r1 <= pr_End r1 ∧ pr_End r1 < 65000)%Z ∧ gi_SnatIp g1 = ip ∧
      within_config cMap r1 ∧ within_config cMap r2.
Proof. apply reach_entries_apart. Qed.

(** *** An example: two nodes with one policy *)

Definition snat_policy (ips : list string) : SnatPolicy := mkSp EmptyString "pol" ips [] (mkCps ∅ EmptyString) Ready.
Definition snat_node (name mac : string) : NodeInfo := mkNodeInfo "sys" name mac {["pol"]}.
Definition no_fail (name status : string) : bool := false.

(** The policy is cached, the nodes are known and handled. *)
Definition snat_run (ips : list string) (nodes : list NodeInfo) : option SnatState :=
  '(s, _) ← handleSnatUpdate ∅ no_fail None true false (snat_policy ips)
              (set_snatobjs <["pol" := snat_policy ips]> initial_snat);
  foldl (λ o n, s ← o; '(s, _) ← handleSnatNodeInfo ∅ no_fail n (snatNodeInfoAdded n s); Some s) (Some s) nodes.

Definition two_nodes : list NodeInfo := [snat_node "n1" "m1"; snat_node "n2" "m2"].

Lemma snat_run_reach ips nodes s : snat_run ips nodes = Some s → snat_reach None s.
Proof.
  unfold snat_run. destruct (handleSnatUpdate _ _ _ _ _ _ _) as [[s0 b]|] eqn:E; [|done]. simpl. intros H.
  assert (H0 : snat_reach None s0).
  { eapply rtc_l; [apply (step_store None <["pol" := snat_policy ips]>)|]. eapply rtc_l; [|constructor].
    eapply step_policy, E. }
  clear E. revert s0 H H0. induction nodes as [|n nodes IH]; intros s0 H H0; [by injection H as <-|].
  cbn [foldl] in H. simpl in H. destruct (handleSnatNodeInfo ∅ no_fail n (snatNodeInfoAdded n s0)) as [[s1 b1]|] eqn:E.
  - simpl in H. apply (IH s1 H). eapply rtc_r; [eapply rtc_r; [exact H0|apply step_ni_added]|]. eapply step_nodeinfo, E.
  - exfalso. simpl in H. clear -H. induction nodes; [discriminate H|]. cbn [foldl] in H. auto.
Qed.

Lemma snat_no_overlap_witness :
  ∃ s g1 g2 r1 r2, snat_run ["10.20.30.40"] two_nodes = Some s ∧
    node_entry (snatGlobalInfoCache s) "10.20.30.40" "n1" = Some g1 ∧ node_entry (snatGlobalInfoCache s) "10.20.30.40" "n2" = Some g2 ∧
    PortRanges g1 = [r1] ∧ PortRanges g2 = [r2] ∧ disjoint r1 r2.
Proof.
  assert (is_Some (snat_run ["10.20.30.40"] two_nodes)) as [s E] by (apply (bool_decide_eq_true_1 _); vm_compute; reflexivity).
  assert (bool_decide (is_Some (node_entry (snatGlobalInfoCache (default initial_snat (snat_run ["10.20.30.40"] two_nodes))) "10.20.30.40" "n1"))
    && bool_decide (is_Some (node_entry (snatGlobalInfoCache (default initial_snat (snat_run ["10.20.30.40"] two_nodes))) "10.20.30.40" "n2")) = true)
    as H by (vm_compute; reflexivity).
  rewrite E in H. cbn [default] in H. unfold id in H. apply andb_true_iff in H as [A%bool_decide_eq_true_1 B%bool_decide_eq_true_1].
  destruct A as [g1 A], B as [g2 B].
  destruct (snat_no_overlap None s) with (ip := "10.20.30.40") (n1 := "n1") (n2 := "n2") (g1 := g1) (g2 := g2)
    as (r1&r2&H1&H2&H3&_); [vm_compute; discriminate|by apply (snat_run_reach ["10.20.30.40"] two_nodes)|discriminate|exact A|exact B|].
  exists s, g1, g2, r1, r2. split_and!; assumption.
Defined.

(** ** Service for a node *)

Lemma applied_after portrange ip node mac name s ips :
  ip ∈ ips → checkIfPolicyApplied (snatGlobalInfoCache (updateGlobalInfoforPolicy portrange ip node mac name s)) node name ips = true.
Proof.
  intros Hin. unfold checkIfPolicyApplied. apply existsb_exists. exists ip. split; [by apply list_elem_of_In|].
  change (match node_entry (snatGlobalInfoCache (updateGlobalInfoforPolicy portrange ip node mac name s)) ip node with
    | Some g => String.eqb (gi_SnatPolicyName g) name | None => false end = true).
  unfold updateGlobalInfoforPolicy. cbn [snatGlobalInfoCache set_glinfo]. rewrite entry_insert, decide_True by done.
  apply String.eqb_refl.
Qed.

Lemma status_set uf name status s p :
  snatIndexer (setSnatPolicyStatus uf name status s).1 !! name = Some p → sp_State p = status.
Proof.
  unfold setSnatPolicyStatus. destruct (snatIndexer s !! name) as [q|] eqn:E; [|intros H; cbn [fst] in H; congruence].
  destruct (String.eqb_spec (sp_State q) status) as [Heq|Hne]; cbn [fst].
  - rewrite E. intros [= <-]. done.
  - cbn [snatIndexer set_snatobjs]. rewrite lookup_insert_eq. by intros [= <-].
Qed.

(** Handling a node with a policy of explicit addresses always completes.
    Afterwards the node has an entry for the policy on one of its addresses,
    or there was no room: every address already had as many nodes as there
    are ranges (or there are no ranges at all), nothing was changed, and the
    stored policy is marked as exhausted. *)
Theorem snat_node_served grid cMap services uf ni name policy s :
  NoDup (pr_Start <$> grid) → configured grid cMap → snat_reach cMap s →
  is_Some (snatNodeInfoCache s !! ni_Name ni) → SnatPolicyNames ni = {[name]} →
  snatPolicyCache s !! name = Some policy → csp_SnatIp policy ≠ [] →
  ∃ s' b, handleSnatNodeInfo services uf ni s = Some (s', b) ∧
    (checkIfPolicyApplied (snatGlobalInfoCache s') (ni_Name ni) name (ExpandedSnatIps policy) = true ∨
     ((grid = [] ∨ ∀ ip, ip ∈ ExpandedSnatIps policy → full grid (snatGlobalInfoCache s) ip) ∧
      snatGlobalInfoCache s' = snatGlobalInfoCache s ∧
      ∀ p, snatIndexer s' !! name = Some p → sp_State p = IpPortsExhausted)).
Proof.
  intros Hg Hcfg Hr Hni Hnames Hp Hips. destruct (snat_reach_ok grid cMap s Hg Hcfg Hr) as [Hc Hports].
  unfold handleSnatNodeInfo. rewrite bool_decide_true by done.
  rewrite bool_decide_false by (rewrite Hnames; set_solver). cbn [negb orb]. rewrite Hnames, elements_singleton.
  cbn [allocate_policies ps_state]. rewrite Hp. destruct (csp_SnatIp policy) as [|x l] eqn:Eips; [done|].
  destruct (checkIfPolicyApplied (snatGlobalInfoCache s) (ni_Name ni) name (ExpandedSnatIps policy)) eqn:Ea.
  { simpl. eexists _, _. split; [reflexivity|]. left. exact Ea. }
  unfold allocate_for. cbn [ps_state].
  destruct (getIpAndPortRange_ok grid Hg (snatGlobalInfoCache s) (ni_Name ni) policy EmptyString Hc (Hports _ _ Hp)) as (res&->&Hres).
  rewrite Eips in Hres. cbn [mbind option_bind]. destruct res as [[ip r]|]; cbn [allocfailed markready updated ps_state mbind option_bind].
  - destruct Hres as [Hin _]. cbn [setSnatPoliciesState foldl].
    set (s1 := updateGlobalInfoforPolicy r ip (ni_Name ni) (Macaddress ni) name s).
    assert (Ha : checkIfPolicyApplied (snatGlobalInfoCache s1) (ni_Name ni) name (ExpandedSnatIps policy) = true) by by apply applied_after.
    pose proof (states_same uf (if checksnatPolicyPortExhausted name s then ([] ++ [name])%list else []) Ready s1) as Hst.
    change (foldl _ (s1, false) []) with (s1, false). cbv beta iota.
    destruct (setSnatPoliciesState uf (if checksnatPolicyPortExhausted name s then ([] ++ [name])%list else []) Ready s1) as [s2 b2].
    destruct Hst as (Hst&_). eexists _, _. split; [reflexivity|]. left. cbn [snatGlobalInfoCache snat_emit]. cbn [fst] in Hst. by rewrite Hst.
  - cbn [setSnatPoliciesState foldl app]. pose proof (status_same uf name IpPortsExhausted s) as (Hst&_).
    pose proof (status_set uf name IpPortsExhausted s) as Hset.
    destruct (setSnatPolicyStatus uf name IpPortsExhausted s) as [s1 b1]. cbn [fst snd] in *.
    eexists _, _. split; [reflexivity|]. right. split_and!; [done|done|done].
Qed.

Definition default_grid : list PortRange := default [] (ExpandPortRanges [mkRangeP 5000 65000] 3000).

Lemma default_grid_ok : NoDup (pr_Start <$> default_grid) ∧ configured default_grid None.
Proof.
  split; [|vm_compute; reflexivity]. apply (bool_decide_eq_true_1 _). vm_compute. reflexivity.
Qed.

Lemma snat_node_served_witness :
  ∃ s s' b policy, snat_run ["10.20.30.40"] two_nodes = Some s ∧ snatPolicyCache s !! "pol" = Some policy ∧
    handleSnatNodeInfo ∅ no_fail (snat_node "n1" "m1") s = Some (s', b) ∧
    (checkIfPolicyApplied (snatGlobalInfoCache s') "n1" "pol" (ExpandedSnatIps policy) = true ∨
     ((default_grid = [] ∨ ∀ ip, ip ∈ ExpandedSnatIps policy → full default_grid (snatGlobalInfoCache s) ip) ∧
      snatGlobalInfoCache s' = snatGlobalInfoCache s ∧
      ∀ p, snatIndexer s' !! "pol" = Some p → sp_State p = IpPortsExhausted)).
Proof.
  assert (is_Some (snat_run ["10.20.30.40"] two_nodes)) as [s E] by (apply (bool_decide_eq_true_1 _); vm_compute; reflexivity).
  assert ((match snatPolicyCache (default initial_snat (snat_run ["10.20.30.40"] two_nodes)) !! "pol" with
           | Some p => negb (bool_decide (csp_SnatIp p = [])) | None => false end) &&
          bool_decide (is_Some (snatNodeInfoCache (default initial_snat (snat_run ["10.20.30.40"] two_nodes)) !! "n1")) = true)
    as H by (vm_compute; reflexivity).
  rewrite E in H. cbn [default] in H. unfold id in H. apply andb_true_iff in H as [A B%bool_decide_eq_true_1].
  destruct (snatPolicyCache s !! "pol") as [policy|] eqn:Ep; [|discriminate A].
  apply negb_true_iff, bool_decide_eq_false_1 in A.
  destruct (snat_node_served default_grid None ∅ no_fail (snat_node "n1" "m1") "pol" policy s) as (s'&b&H1&H2).
  - apply default_grid_ok.
  - apply default_grid_ok.
  - exact (snat_run_reach ["10.20.30.40"] two_nodes s E).
  - exact B.
  - reflexivity.
  - exact Ep.
  - exact A.
  - exists s, s', b, policy. exact (conj E (conj Ep (conj H1 H2))).
Defined.

(** ** Restart *)

(** The entries of the resource, in the order of the nodes. *)
Lemma by_node_spec cache n g :
  (∃ l, by_node cache !! n = Some l ∧ g ∈ l) ↔ ∃ ip, node_entry cache ip n = Some g.
Proof.
  unfold by_node.
  assert (H : ∀ (l : list (string * GlobalInfo)) m,
    (∃ x, (foldl (λ (m : gmap string (list GlobalInfo)) ng, <[ng.1 := (default [] (m !! ng.1) ++ [ng.2])%list]> m) m l) !! n = Some x ∧ g ∈ x) ↔
    (n, g) ∈ l ∨ ∃ x, m !! n = Some x ∧ g ∈ x).
  { induction l as [|[n' g'] l IH]; intros m; cbn [foldl fst snd].
    { split; [by right|]. intros [H|H]; [by apply elem_of_nil in H|done]. }
    rewrite IH, elem_of_cons. destruct (decide (n' = n)) as [->|Hne].
    - setoid_rewrite lookup_insert_eq. split.
      + intros [H|(x&[= <-]&H)]; [by left; right|]. apply elem_of_app in H as [H|H].
        * destruct (m !! n) as [y|]; [right; by exists y|by apply elem_of_nil in H].
        * apply list_elem_of_singleton in H as ->. by left; left.
      + intros [[[= ->]|H]|(x&Hx&H)]; [right|by left|right]; eexists; (split; [reflexivity|]); apply elem_of_app.
        * right. by apply list_elem_of_singleton.
        * left. by rewrite Hx.
    - setoid_rewrite lookup_insert_ne; [|done]. split; [intros [H|H]; [by left; right|by right]|].
      intros [[[= -> _]|H]|H]; [done|by left|by right]. }
  rewrite H. setoid_rewrite lookup_empty. rewrite list_elem_of_In, in_flat_map. unfold node_entry. split.
  - intros [([ip m]&Hin&Hg)|(x&Hx&_)]; [|done]. apply list_elem_of_In, elem_of_map_to_list in Hin. apply list_elem_of_In, elem_of_map_to_list in Hg.
    exists ip. rewrite Hin. exact Hg.
  - intros (ip&Hg). left. destruct (cache !! ip) as [m|] eqn:Em; [|done]. exists (ip, m).
    split; [apply list_elem_of_In; by apply elem_of_map_to_list|]. apply list_elem_of_In. by apply elem_of_map_to_list.
Qed.

(** Loading entries whose places are given by their content. *)
Lemma load_spec (place : GlobalInfo → string) l c ip n g :
  (∀ v w, v ∈ l → w ∈ l → gi_SnatIp v = gi_SnatIp w → place v = place w → v = w) →
  (∀ ip n, node_entry c ip n = None) →
  node_entry (foldl (λ c v, <[gi_SnatIp v := <[place v := v]> (default ∅ (c !! gi_SnatIp v))]> c) c l) ip n = Some g ↔
  g ∈ l ∧ gi_SnatIp g = ip ∧ place g = n.
Proof.
  intros Hf Hc.
  assert (H : ∀ l c, (∀ v w, v ∈ l → w ∈ l → gi_SnatIp v = gi_SnatIp w → place v = place w → v = w) →
    (∀ v g, v ∈ l → node_entry c (gi_SnatIp v) (place v) = Some g → g = v) →
    node_entry (foldl (λ c v, <[gi_SnatIp v := <[place v := v]> (default ∅ (c !! gi_SnatIp v))]> c) c l) ip n = Some g ↔
    (g ∈ l ∧ gi_SnatIp g = ip ∧ place g = n) ∨ node_entry c ip n = Some g).
  { clear Hf Hc l c. induction l as [|v l IH]; intros c Hf Hc; cbn [foldl].
    { split; [by right|]. intros [[H _]|H]; [by apply elem_of_nil in H|done]. }
    rewrite IH.
    - rewrite entry_insert, elem_of_cons. destruct (decide (ip = gi_SnatIp v ∧ n = place v)) as [[-> ->]|Hne].
      + split.
        * intros [(H1&H2&H3)|[= <-]]; [left; auto|left; auto].
        * intros [([->|H1]&H2&H3)|H]; [by right|left; auto|right]. f_equal. symmetry. by apply Hc; [apply list_elem_of_here|].
      + split.
        * intros [(H1&H2&H3)|H]; [left; auto|by right].
        * intros [([->|H1]&H2&H3)|H]; [naive_solver|left; auto|by right].
    - intros x w Hx Hw. apply Hf; by apply list_elem_of_further.
    - intros x w Hx. rewrite entry_insert. destruct (decide _) as [[E1 E2]|_]; [|apply Hc; by apply list_elem_of_further].
      intros [= <-]. symmetry. apply Hf; [by apply list_elem_of_further|apply list_elem_of_here|done|done]. }
  rewrite H; [|done|intros v x _; by rewrite Hc]. rewrite Hc. split; [intros [?|?]; done|by left].
Qed.

(** The names of the nodes by their MAC addresses. *)
Lemma mac_names nodes (m : gmap string string) ni :
  NoDup (Macaddress <$> nodes) → ni ∈ nodes →
  foldl (λ (m : gmap string string) n, <[Macaddress n := ni_Name n]> m) m nodes !! Macaddress ni = Some (ni_Name ni).
Proof.
  revert m. induction nodes as [|x nodes IH]; intros m Hnd Hin; [by apply elem_of_nil in Hin|].
  rewrite fmap_cons in Hnd. apply NoDup_cons in Hnd as [Hx Hnd]. cbn [foldl]. apply elem_of_cons in Hin as [->|Hin]; [|by apply IH].
  assert (Hkeep : ∀ l (m : gmap string string), Macaddress x ∉ (Macaddress <$> l) →
    foldl (λ (m : gmap string string) n, <[Macaddress n := ni_Name n]> m) m l !! Macaddress x = m !! Macaddress x).
  { induction l as [|y l IHl]; intros m0 Hm; [done|]. rewrite fmap_cons, not_elem_of_cons in Hm. destruct Hm as [H1 H2]. cbn [foldl].
    rewrite IHl by done. by rewrite lookup_insert_ne. }
  rewrite Hkeep by done. by rewrite lookup_insert_eq.
Qed.

(** The entries of the resource are those of the table. *)
Lemma by_node_infos cache v :
  v ∈ concat (snd <$> map_to_list (by_node cache)) ↔ ∃ ip n, node_entry cache ip n = Some v.
Proof.
  rewrite list_elem_of_In, in_concat. split.
  - intros (l&Hl&Hv). apply list_elem_of_In, list_elem_of_fmap in Hl as ([n' l']&->&Hl). apply elem_of_map_to_list in Hl.
    destruct (proj1 (by_node_spec cache n' v)) as [ip' Hip']; [exists l'; split; [done|by apply list_elem_of_In]|].
    by exists ip', n'.
  - intros (ip'&n'&Hv). destruct (proj2 (by_node_spec cache n' v)) as (l&Hl&Hin); [by exists ip'|].
    exists l. split; [|by apply list_elem_of_In]. apply list_elem_of_In, list_elem_of_fmap. exists (n', l). split; [done|].
    by apply elem_of_map_to_list.
Qed.

Lemma reach_snat_ip cMap s ip n g :
  (1 <= (GetPortRangeFromConfigMap cMap).2)%Z → snat_reach cMap s →
  node_entry (snatGlobalInfoCache s) ip n = Some g → gi_SnatIp g = ip.
Proof.
  intros Hstep Hr Hg. pose proof (cfg_bounds cMap) as Hb. destruct (GetPortRangeFromConfigMap cMap) as [range step] eqn:Ec.
  simpl in Hstep. destruct (ExpandPortRanges_ok range step) as (grid&Eg&Hl&Hnds&_); [unfold small; lia|unfold small; lia|lia|].
  destruct (snat_reach_ok grid cMap s Hnds) as [[C1 _] _]; [unfold configured; by rewrite Ec|done|]. by destruct (C1 _ _ _ Hg).
Qed.

(** C38: a controller that starts again restores from the stored resource
    every entry of the table and no other, if at the start each entry carries
    the current MAC address of its node and the nodes have different MAC
    addresses (and at least one port per node is configured). *)
Theorem snat_restart cMap s nodes :
  (1 <= (GetPortRangeFromConfigMap cMap).2)%Z → snat_reach cMap s →
  NoDup (Macaddress <$> nodes) →
  (∀ ip n g, node_entry (snatGlobalInfoCache s) ip n = Some g → ∃ ni, ni ∈ nodes ∧ ni_Name ni = n ∧ Macaddress ni = MacAddress g) →
  ∀ ip n, node_entry (createGlobalInfoCache nodes (by_node (snatGlobalInfoCache s)) ∅) ip n =
          node_entry (snatGlobalInfoCache s) ip n.
Proof.
  intros Hstep Hr Hnd Hmac ip n.
  assert (Hip : ∀ ip n g, node_entry (snatGlobalInfoCache s) ip n = Some g → gi_SnatIp g = ip)
    by (intros ip' n' g; by apply (reach_snat_ip cMap)).
  unfold createGlobalInfoCache. pose proof (λ ni, mac_names nodes ∅ ni Hnd) as Hnames.
  set (names := foldl _ ∅ nodes) in *. clearbody names.
  set (place := λ v, default EmptyString (names !! MacAddress v)).
  pose proof (by_node_infos (snatGlobalInfoCache s)) as Hinfos. set (infos := concat _) in *. clearbody infos.
  assert (Hplace : ∀ ip n v, node_entry (snatGlobalInfoCache s) ip n = Some v → place v = n).
  { intros ip' n' v Hv. destruct (Hmac _ _ _ Hv) as (ni&Hni&<-&Hm). unfold place. rewrite <- Hm, (Hnames ni Hni). done. }
  change (foldl _ ∅ infos) with (foldl (λ c v, <[gi_SnatIp v := <[place v := v]> (default ∅ (c !! gi_SnatIp v))]> c) (∅ : glinfo_cache) infos).
  apply option_eq. intros g. rewrite load_spec.
  - split.
    + intros (Hg&<-&<-). apply Hinfos in Hg as (ip'&n'&Hg). by rewrite (Hip _ _ _ Hg), (Hplace _ _ _ Hg).
    + intros Hg. split_and!; [apply Hinfos; by exists ip, n|by apply (Hip _ n)|by apply (Hplace ip)].
  - intros v w Hv Hw E1 E2. apply Hinfos in Hv as (i1&n1&Hv), Hw as (i2&n2&Hw).
    rewrite (Hip _ _ _ Hv), (Hip _ _ _ Hw) in E1. rewrite (Hplace _ _ _ Hv), (Hplace _ _ _ Hw) in E2. congruence.
  - intros ip' n'. unfold node_entry. by rewrite lookup_empty.
Qed.

(** Every entry of the cache satisfies a test. *)
Definition check_entries (f : string → string → GlobalInfo → bool) (c : glinfo_cache) : bool :=
  forallb (λ im : string * gmap string GlobalInfo, forallb (λ ng : string * GlobalInfo, f im.1 ng.1 ng.2) (map_to_list im.2)) (map_to_list c).

Lemma check_entries_ok f c ip n g : check_entries f c = true → node_entry c ip n = Some g → f ip n g = true.
Proof.
  unfold check_entries, node_entry. intros H Hg. destruct (c !! ip) as [m|] eqn:Em; [|done]. simpl in Hg.
  rewrite forallb_forall in H. specialize (H (ip, m)). rewrite forallb_forall in H.
  apply (H (proj1 (list_elem_of_In _ _) (proj2 (elem_of_map_to_list c ip m) Em)) (n, g)).
  by apply list_elem_of_In, elem_of_map_to_list.
Qed.

(** One address, whose entries carry the MAC addresses of the two nodes. *)
Definition macs_match (c : glinfo_cache) : bool :=
  bool_decide (size c = 1%nat) &&
  check_entries (λ _ n g, existsb (λ ni, String.eqb (ni_Name ni) n && String.eqb (Macaddress ni) (MacAddress g)) two_nodes) c.

Lemma snat_restart_witness :
  ∃ s, snat_run ["10.20.30.40"] two_nodes = Some s ∧ size (snatGlobalInfoCache s) = 1%nat ∧
    ∀ ip n, node_entry (createGlobalInfoCache two_nodes (by_node (snatGlobalInfoCache s)) ∅) ip n =
            node_entry (snatGlobalInfoCache s) ip n.
Proof.
  assert (is_Some (snat_run ["10.20.30.40"] two_nodes)) as [s E] by (apply (bool_decide_eq_true_1 _); vm_compute; reflexivity).
  assert (Hc : macs_match (snatGlobalInfoCache (default initial_snat (snat_run ["10.20.30.40"] two_nodes))) = true)
    by (vm_compute; reflexivity).
  rewrite E in Hc. cbn [default] in Hc. unfold id in Hc. apply andb_true_iff in Hc as [Hsize%bool_decide_eq_true_1 Hc].
  exists s. split; [exact E|]. split; [exact Hsize|].
  apply (snat_restart None s two_nodes).
  - vm_compute. discriminate.
  - exact (snat_run_reach ["10.20.30.40"] two_nodes s E).
  - apply (bool_decide_eq_true_1 _). vm_compute. reflexivity.
  - intros ip n g Hg. apply (check_entries_ok _ _ _ _ _ Hc) in Hg. apply existsb_exists in Hg as (ni&Hin&Hg).
    apply andb_true_iff in Hg as [H1%String.eqb_eq H2%String.eqb_eq]. exists ni. split; [by apply list_elem_of_In|exact (conj H1 H2)].
Defined.

(** A node whose MAC address changes: its policy counts as applied, the entry
    keeps the old address, and the start of the controller files it under no
    node. *)
Example snat_mac_change_loses_entry :
  (s ← snat_run ["10.20.30.40"] [snat_node "n1" "m1"; snat_node "n1" "m9"];
   let c := createGlobalInfoCache [snat_node "n1" "m9"] (by_node (snatGlobalInfoCache s)) ∅ in
   Some (MacAddress <$> node_entry (snatGlobalInfoCache s) "10.20.30.40" "n1",
         bool_decide (is_Some (node_entry c "10.20.30.40" "n1")),
         bool_decide (is_Some (node_entry c "10.20.30.40" EmptyString)))) =
  Some (Some "m1", false, true).
Proof. vm_compute. reflexivity. Qed.

(** ** Addresses *)

(** The addresses of an IPv4 network with a prefix of at least one bit:
    the loop ends and gives the addresses in order, without the first and the
    last one; a prefix of 32 gives the address itself, a prefix of 31 nothing.
    For the prefix 0 the loop never ends, since the increment wraps around. *)
Theorem snat_addresses cidr n k :
  ParseCIDR cidr = Some n → net4 n k →
  if decide (k = 0%nat) then ∀ fuel ip, ok 4 ip → cidr_loop fuel n ip = None
  else GetIPsFromCIDR cidr =
    Some (if decide (k = 32%nat) then [addr_text (val (net_IP n))]
          else addr_text <$> seqZ (val (net_IP n) + 1) (host 4 k - 2)).
Proof.
  intros Hp Hn. destruct (decide (k = 0%nat)) as [->|Hk]; [|apply GetIPsFromCIDR_ok; [done|done|lia]].
  induction fuel as [|fuel IH]; intros ip Hip; [done|]. cbn [cidr_loop].
  destruct (inc_ok 4 ip Hip) as [Hi _]. rewrite IH by done.
  assert (Hc : Contains n ip = true).
  { apply (Contains_net4 n 0); [done|done|]. apply (net4_in_net n 0); [done|]. pose proof (val_bound 4 ip Hip) as Hb.
    pose proof Hn as (_&Hok&Hm&Hmask). destruct (block_val 4 v4_len (net_IP n) 0 Hok ltac:(lia)) as (_&H2&_).
    change (8 * 4)%nat with 32%nat in *. rewrite <- Hm, Hmask in H2. pose proof (val_bound 4 (net_IP n) Hok) as Hb'.
    change (host 4 0) with (2 ^ 32)%Z in *. change (256 ^ Z.of_nat 4)%Z with (2 ^ 32)%Z in *. rewrite Z.mod_small in H2 by lia. lia. }
  by rewrite Hc.
Qed.

Lemma snat_addresses_witness :
  GetIPsFromCIDR "10.20.30.8/29" =
  Some ["10.20.30.9"; "10.20.30.10"; "10.20.30.11"; "10.20.30.12"; "10.20.30.13"; "10.20.30.14"].
Proof.
  assert (H : net4 (mkNet [10; 20; 30; 8]%Z (CIDRMask 29 32)) 29).
  { split_and!; [lia|apply (bool_decide_eq_true_1 _); vm_compute; reflexivity|reflexivity|vm_compute; reflexivity]. }
  etransitivity; [exact (snat_addresses "10.20.30.8/29" _ 29 eq_refl H)|]. vm_compute. reflexivity.
Defined.

(** ** A policy whose first address is free *)

(** Two ranges per address. *)
Definition small_cfg : option (gmap string string) := Some {["start" := "5000"; "end" := "5005"; "ports-per-node" := "2"]}.

(** The steps: the policy with two addresses, nodes that fill the first and
    start the second, then the nodes of the first go, then the policy. *)
Definition leak_run : option SnatState :=
  let p := snat_policy ["10.0.0.0/30"] in
  let add s n := '(s, _) ← handleSnatNodeInfo ∅ no_fail n (snatNodeInfoAdded n s); Some s in
  '(s, _) ← handleSnatUpdate ∅ no_fail small_cfg true false p (set_snatobjs <["pol" := p]> initial_snat);
  s ← add s (snat_node "n1" "m1"); s ← add s (snat_node "n2" "m2"); s ← add s (snat_node "n3" "m3");
  s ← snatNodeInfoDeleted ∅ no_fail (snat_node "n1" "m1") s;
  s ← snatNodeInfoDeleted ∅ no_fail (snat_node "n2" "m2") s;
  Some (snatPolicyDelete ∅ "graph" p s).

(** [clearSnatGlobalCache] stops at the first address without entries: the
    entry of the third node on the second address outlives its policy. *)
Example snat_policy_delete_leaks :
  (s ← leak_run; g ← node_entry (snatGlobalInfoCache s) "10.0.0.2" "n3"; Some (gi_SnatPolicyName g, size (snatPolicyCache s))) =
  Some ("pol", 0%nat).
Proof. vm_compute. reflexivity. Qed.

(** A network of two addresses gives none. *)
Example snat_prefix_31 : ExpandCIDRs ["10.0.0.0/31"] = Some [].
Proof. vm_compute. reflexivity. Qed.
