(* ===== verification/GoText6.v ===== *)
(** * GoText6: the text of an IPv6 address is read back

    The round trip of [IP_String] and [ParseIP] for addresses of sixteen
    bytes, of which the text of an IPv4 address is one case: maps that the
    program keys by the text of an address are keyed by the address. *)
From S2P Require Import Prelude GoBytes GoNet GoText.

Open Scope string_scope.
Open Scope Z_scope.

Lemma text_app_nil (s : string) : (s ++ EmptyString)%string = s.
Proof. induction s as [|c s IH]; [done|]. change (String c (s ++ EmptyString)%string = String c s). by rewrite IH. Qed.

Lemma text_app_assoc (a b c : string) : ((a ++ b) ++ c)%string = (a ++ b ++ c)%string.
Proof. induction a as [|x a IH]; [done|]. change (String x ((a ++ b) ++ c)%string = String x (a ++ b ++ c)%string). by rewrite IH. Qed.

Definition word_ok (w : Z) : Prop := 0 <= w < 65536.

(** ** Fields *)

Lemma hexchar_ok d :
  0 <= d < 16 → hexdigit (hexchar d) = Some d ∧ structural (hexchar d) = false.
Proof.
  intros Hd. assert (In d (seqZ 0 16)) as H by (apply list_elem_of_In, elem_of_seqZ; lia).
  cbn in H. repeat destruct H as [<-|H]; try (split; vm_compute; reflexivity). done.
Qed.

(** What follows a field ends it. *)
Definition ends_field (s : string) : Prop := s = EmptyString ∨ ∃ t, s = String ":" t.

Lemma hexrun_end n acc s : ends_field s → hexrun n acc s = (n, acc, s).
Proof. by intros [->|[t ->]]. Qed.

Lemma hexrun_char n acc d s :
  0 <= d < 16 → hexrun n acc (String (hexchar d) s) = hexrun (S n) (acc * 16 + d) s.
Proof. intros Hd. cbn [hexrun]. by destruct (hexchar_ok d Hd) as [-> _]. Qed.

Lemma shift_digit v k : 0 <= k → 0 <= Z.shiftr v k mod 16 < 16.
Proof. intros. apply Z.mod_pos_bound. lia. Qed.

Lemma word_split v :
  word_ok v → let c k := Z.shiftr v k mod 16 in
  v = ((c 12 * 16 + c 8) * 16 + c 4) * 16 + c 0 ∧
  (v < 16 → c 12 = 0 ∧ c 8 = 0 ∧ c 4 = 0) ∧ (v < 256 → c 12 = 0 ∧ c 8 = 0) ∧ (v < 4096 → c 12 = 0).
Proof.
  intros [H0 H1] c. unfold c. rewrite !Z.shiftr_div_pow2 by lia.
  change (2 ^ 12) with 4096. change (2 ^ 8) with 256. change (2 ^ 4) with 16. change (2 ^ 0) with 1.
  split_and!; intros; Z.to_euclidean_division_equations; lia.
Qed.

Lemma hexrun_field v s :
  word_ok v → ends_field s → ∃ n, (1 <= n <= 4)%nat ∧ hexrun 0 0 (hexfield v ++ s) = (n, v, s).
Proof.
  intros Hv Hs. destruct (word_split v Hv) as (E&E1&E2&E3). unfold hexfield.
  assert (∀ k, 0 <= k → 0 <= Z.shiftr v k mod 16 < 16) as Hd by (intros; by apply shift_digit).
  destruct (Z.ltb_spec v 16); [exists 1%nat|destruct (Z.ltb_spec v 256); [exists 2%nat|
    destruct (Z.ltb_spec v 4096); [exists 3%nat|exists 4%nat]]];
  (split; [lia|]); cbn [String.app app]; unfold String.append; cbn -[hexrun Z.mul Z.add Z.shiftr Z.modulo hexchar];
  rewrite !hexrun_char by (apply Hd; lia); rewrite hexrun_end by done; do 2 f_equal; lia.
Qed.

Lemma hexfield_none v p :
  (∀ c, p c = true → structural c = true) → word_ok v → none p (hexfield v) = true.
Proof.
  intros Hp Hv. assert (∀ k, 0 <= k → p (hexchar (Z.shiftr v k mod 16)) = false) as Hd.
  { intros k Hk. destruct (hexchar_ok _ (shift_digit v k Hk)) as [_ H].
    destruct (p _) eqn:E; [|done]. apply Hp in E. congruence. }
  unfold hexfield. destruct (v <? 16); [|destruct (v <? 256); [|destruct (v <? 4096)]];
    cbn [none]; rewrite !Hd by lia; done.
Qed.

Lemma hexfield_head v : word_ok v → ∃ c s, hexfield v = String c s ∧ structural c = false.
Proof.
  intros Hv. pose proof (hexfield_none v structural (λ _ H, H) Hv) as H.
  assert (hexfield v ≠ EmptyString) as He.
  { unfold hexfield. by destruct (v <? 16); [|destruct (v <? 256); [|destruct (v <? 4096)]]. }
  destruct (hexfield v) as [|c s]; [done|]. exists c, s. split; [done|].
  cbn [none] in H. by apply andb_true_iff in H as [H%negb_true_iff _].
Qed.

(** ** Lists of fields *)

(** The bytes of the fields. *)
Definition unwords (ws : list Z) : IP := concat (map (λ w, [w / 256; w mod 256]) ws).

Lemma unwords_app a b : unwords (a ++ b) = (unwords a ++ unwords b)%list.
Proof. unfold unwords. by rewrite map_app, concat_app. Qed.

Lemma unwords_length ws : length (unwords ws) = (2 * length ws)%nat.
Proof. induction ws as [|w ws IH]; [done|]. cbn. fold (unwords ws). rewrite IH. lia. Qed.

Lemma unwords_zeros n : unwords (replicate n 0) = replicate (2 * n) 0.
Proof.
  induction n as [|n IH]; [done|]. cbn [replicate]. cbn. fold (unwords (replicate n 0)). rewrite IH.
  replace (n + S (n + 0))%nat with (S (2 * n)) by lia. done.
Qed.

Lemma join_cons w w' ws :
  join ":" (map hexfield (w :: w' :: ws)) = hexfield w ++ String ":" (join ":" (map hexfield (w' :: ws))).
Proof. done. Qed.

Lemma join_head w ws :
  word_ok w → ∃ c s, join ":" (map hexfield (w :: ws)) = String c s ∧ structural c = false.
Proof.
  intros Hw. destruct (hexfield_head w Hw) as (c&s&E&Hc).
  destruct ws as [|w' ws]; [by exists c, s|]. rewrite join_cons, E. by do 2 eexists.
Qed.

Lemma structural_colon c : structural c = false → Ascii.eqb c ":" = false ∧ Ascii.eqb c "." = false.
Proof.
  unfold structural. rewrite !orb_false_iff, !(Ascii.eqb_sym c). tauto.
Qed.

(** One field that is followed by a colon and a further field. *)
Lemma fields6_step fuel bytes e w c t :
  word_ok w → Ascii.eqb c ":" = false →
  fields6 (S fuel) bytes e (hexfield w ++ String ":" (String c t)) =
  fields6 fuel (bytes ++ [w / 256; w mod 256]) e (String c t).
Proof.
  intros Hw Hc. cbn [fields6].
  destruct (hexrun_field w (String ":" (String c t)) Hw) as (n&Hn&->); [by right; eexists|].
  rewrite (proj2 (Nat.eqb_neq n 0)), (proj2 (Nat.ltb_ge 4 n)) by lia. cbn [orb].
  change (Ascii.eqb ":" ".") with false. change (Ascii.eqb ":" ":") with true. cbn iota. by rewrite Hc.
Qed.

Lemma fields6_all fuel bytes e ws :
  Forall word_ok ws → ws ≠ [] → (length ws <= fuel)%nat →
  fields6 fuel bytes e (join ":" (map hexfield ws)) = expand (bytes ++ unwords ws) e.
Proof.
  revert fuel bytes. induction ws as [|w ws IH]; intros fuel bytes Hok Hne Hf; [done|].
  apply Forall_cons in Hok as [Hw Hws]. destruct fuel as [|fuel]; [simpl in Hf; lia|].
  destruct ws as [|w' ws].
  - change (join ":" (map hexfield [w])) with (hexfield w). cbn [fields6].
    destruct (hexrun_field w EmptyString Hw) as (n&Hn&E); [by left|].
    rewrite text_app_nil in E. rewrite E.
    by rewrite (proj2 (Nat.eqb_neq n 0)), (proj2 (Nat.ltb_ge 4 n)) by lia.
  - rewrite join_cons. destruct (join_head w' ws) as (c&t&E&Hc); [exact (Forall_inv Hws)|].
    apply structural_colon in Hc as [Hc _]. rewrite E, fields6_step, <- E, IH by (done || (simpl in *; lia)).
    f_equal. unfold unwords. cbn [map concat]. by rewrite <- (assoc_L _).
Qed.

(** Fields, the ellipsis, and fields that may be missing. *)
Lemma fields6_ellipsis fuel bytes ws ws' :
  Forall word_ok ws → Forall word_ok ws' → ws ≠ [] → (length ws + length ws' <= fuel)%nat →
  fields6 fuel bytes None (join ":" (map hexfield ws) ++ "::" ++ join ":" (map hexfield ws')) =
  expand (bytes ++ unwords ws ++ unwords ws') (Some (length (bytes ++ unwords ws))).
Proof.
  revert fuel bytes. induction ws as [|w ws IH]; intros fuel bytes Hok Hok' Hne Hf; [done|].
  apply Forall_cons in Hok as [Hw Hws]. destruct fuel as [|fuel]; [simpl in Hf; lia|].
  destruct ws as [|w' ws].
  - change (join ":" (map hexfield [w])) with (hexfield w). cbn [fields6].
    destruct (hexrun_field w ("::" ++ join ":" (map hexfield ws')) Hw) as (n&Hn&->); [by right; eexists|].
    rewrite (proj2 (Nat.eqb_neq n 0)), (proj2 (Nat.ltb_ge 4 n)) by lia. cbn [orb].
    change ("::" ++ ?s) with (String ":" (String ":" s)). cbn iota.
    change (Ascii.eqb ":" ".") with false. change (Ascii.eqb ":" ":") with true. cbn iota.
    rewrite bool_decide_false by (intros [? ?]; done).
    change (unwords [w]) with [w / 256; w mod 256].
    destruct ws' as [|w' ws'].
    + cbn [map join]. rewrite String.eqb_refl. unfold unwords. cbn [map concat]. by rewrite app_nil_r.
    + destruct (join_head w' ws') as (c&t&E&Hc); [exact (Forall_inv Hok')|].
      assert (join ":" (map hexfield (w' :: ws')) ≠ EmptyString) as Hj by (by rewrite E).
      apply String.eqb_neq in Hj. rewrite Hj, fields6_all by (done || (simpl in *; lia)).
      by rewrite <- (assoc_L _).
  - rewrite join_cons. destruct (join_head w' ws) as (c&t&E&Hc); [exact (Forall_inv Hws)|].
    apply structural_colon in Hc as [Hc _]. rewrite text_app_assoc.
    change (String ":" ?a ++ ?b) with (String ":" (a ++ b)). rewrite E at 1.
    change (String c t ++ ?b) with (String c (t ++ b)). rewrite fields6_step by done.
    change (String c (t ++ ?b)) with (String c t ++ b). rewrite <- E, IH by (done || (simpl in *; lia)).
    unfold unwords. cbn [map concat]. rewrite <- !(assoc_L (++)%list). done.
Qed.

(** ** The run of zeros *)

Lemma zeros_spec l : (zeros l <= length l)%nat ∧ take (zeros l) l = replicate (zeros l) 0.
Proof.
  induction l as [|w l [IH1 IH2]]; [done|]. cbn [zeros]. destruct (Z.eqb_spec w 0) as [->|]; [|by split; [simpl; lia|]].
  cbn. split; [lia|by rewrite IH2].
Qed.

(** A run of zeros of [w], or nothing. *)
Definition run_of (w : list Z) (r : nat * nat) : Prop :=
  (r.1 + r.2 <= length w)%nat ∧ take r.2 (drop r.1 w) = replicate r.2 0.

Lemma longest_run_spec w i best :
  (i <= length w)%nat → run_of w best → run_of w (longest_run i (drop i w) best).
Proof.
  intros Hi. remember (drop i w) as l eqn:E. revert i best E Hi.
  induction l as [|x l IH]; intros i best E Hi Hb; [done|]. cbn [longest_run].
  assert (i < length w)%nat as Hlt by (apply (f_equal length) in E; rewrite length_drop in E; simpl in E; lia).
  apply IH; [|lia|].
  - change l with (drop 1 (x :: l)). by rewrite E, drop_drop, Nat.add_comm.
  - destruct (_ && _); [|done]. destruct (zeros_spec (x :: l)) as [H1 H2]. split; cbn [fst snd].
    + apply (f_equal length) in E. rewrite length_drop in E. lia.
    + by rewrite <- E.
Qed.

Lemma run_split w i n :
  run_of w (i, n) → w = (take i w ++ replicate n 0 ++ drop (i + n) w)%list.
Proof.
  intros [H1 H2]; cbn [fst snd] in *. rewrite <- H2, <- drop_drop. by rewrite take_drop, take_drop.
Qed.

(** ** Words and bytes *)

Lemma words16_spec ip k :
  ok (2 * k) ip → length (words16 ip) = k ∧ Forall word_ok (words16 ip) ∧ unwords (words16 ip) = ip.
Proof.
  revert ip. induction k as [|k IH]; intros ip [Hl Hf].
  - by destruct ip.
  - destruct ip as [|a [|b ip]]; [simpl in Hl; lia|simpl in Hl; lia|].
    apply Forall_cons in Hf as [Ha Hf]. apply Forall_cons in Hf as [Hb Hf].
    destruct (IH ip) as (H1&H2&H3); [split; [simpl in Hl; lia|done]|]. unfold byte_ok in *.
    cbn [words16 length]. split_and!; [by rewrite H1|constructor; [unfold word_ok; lia|done]|].
    unfold unwords in *. cbn [map concat app]. rewrite H3. repeat f_equal; Z.to_euclidean_division_equations; lia.
Qed.

Lemma expand_ellipsis a n b :
  (2 * length a + 2 * n + 2 * length b = 16)%nat → (0 < n)%nat →
  expand (unwords a ++ unwords b) (Some (length (unwords a))) =
  Some (unwords (a ++ replicate n 0 ++ b)).
Proof.
  intros Hl Hn. unfold expand. rewrite length_app, !unwords_length.
  rewrite (proj2 (Nat.eqb_neq _ 0)) by lia. rewrite <- unwords_length, take_app_length, drop_app_length.
  rewrite !unwords_app, unwords_zeros. do 4 f_equal. rewrite !unwords_length. lia.
Qed.

(** ** The round trip *)

Lemma parseIPv6_fields s c t :
  s = String c t → Ascii.eqb c ":" = false → parseIPv6 s = fields6 8 [] None s.
Proof. intros -> Hc. unfold parseIPv6. destruct t as [|c' t]; [done|]. by rewrite Hc. Qed.

Lemma parseIPv6_string6 ip : ok 16 ip → parseIPv6 (string6 ip) = Some ip.
Proof.
  intros Hip. destruct (words16_spec ip 8 Hip) as (Hl&Hok&Eip). unfold string6.
  pose proof (longest_run_spec (words16 ip) 0 (0, 0)%nat ltac:(lia) ltac:(split; [simpl; lia|done])) as Hrun.
  rewrite drop_0 in Hrun. destruct (longest_run _ _ _) as [i n]. pose proof (run_split _ _ _ Hrun) as Ew.
  destruct Hrun as [Hin _]; cbn [fst snd] in Hin. set (w := words16 ip) in *.
  destruct (Nat.eqb_spec n 0) as [->|Hn].
  - destruct w as [|w0 ws] eqn:E; [done|]. destruct (join_head w0 ws (Forall_inv Hok)) as (c&t&Ej&[Hc _]%structural_colon).
    rewrite (parseIPv6_fields _ c t) by done. rewrite fields6_all by (done || lia). cbn [app].
    change ([] ++ unwords (w0 :: ws))%list with (unwords (w0 :: ws)). rewrite Eip.
    unfold expand. destruct Hip as [-> _]. done.
  - set (a := take i w) in *. set (b := drop (i + n) w) in *.
    assert (length a = i) as La by (apply length_take_le; lia).
    assert (length b = (8 - (i + n))%nat) as Lb by (unfold b; rewrite length_drop; lia).
    assert (Forall word_ok a) as Ha by (by apply Forall_take). assert (Forall word_ok b) as Hb by (by apply Forall_drop).
    assert (expand (unwords a ++ unwords b) (Some (length (unwords a))) = Some ip) as Hexp.
    { rewrite (expand_ellipsis a n b) by lia. by rewrite <- Ew, Eip. }
    destruct a as [|a0 a'] eqn:Ea.
    + cbn [map join]. change (EmptyString ++ ?s) with s. destruct b as [|b0 b'] eqn:Eb.
      * cbn [map join]. cbn in Hexp. exact Hexp.
      * destruct (join_head b0 b' (Forall_inv Hb)) as (c&t&Ej&[Hc _]%structural_colon).
        change ("::" ++ ?s) with (String ":" (String ":" s)). cbn [parseIPv6].
        change (Ascii.eqb ":" ":" && Ascii.eqb ":" ":") with true. cbn iota.
        rewrite (proj2 (String.eqb_neq _ EmptyString)) by (by rewrite Ej).
        rewrite fields6_all by (done || (simpl in *; lia)). exact Hexp.
    + destruct (join_head a0 a' (Forall_inv Ha)) as (c&t&Ej&[Hc _]%structural_colon).
      rewrite (parseIPv6_fields _ c (t ++ "::" ++ join ":" (map hexfield b))) by (by rewrite ?Ej).
      rewrite fields6_ellipsis by (done || (simpl in *; lia)). cbn [app]. exact Hexp.
Qed.

Lemma join_none p ws :
  (∀ c, p c = true → structural c = true) → p ":"%char = false → Forall word_ok ws →
  none p (join ":" (map hexfield ws)) = true.
Proof.
  intros Hp Hcolon Hok. induction ws as [|w ws IH]; [done|]. apply Forall_cons in Hok as [Hw Hws].
  destruct ws as [|w' ws]; [by apply hexfield_none|].
  rewrite join_cons, none_app, hexfield_none by done. cbn [none andb]. rewrite Hcolon. by apply IH.
Qed.

Lemma string6_percent ip : ok 16 ip → none (Ascii.eqb "%") (string6 ip) = true.
Proof.
  intros Hip. destruct (words16_spec ip 8 Hip) as (_&Hok&_). unfold string6.
  destruct (longest_run _ _ _) as [i n]. assert (∀ c, Ascii.eqb "%" c = true → structural c = true) as Hp.
  { intros c Hc. unfold structural. by rewrite Hc, !orb_true_r. }
  destruct (n =? 0)%nat; [by apply join_none|]. rewrite !none_app.
  rewrite !join_none; [done|done|done|by apply Forall_drop|done|done|by apply Forall_take].
Qed.

Lemma string6_family ip : ok 16 ip → family (string6 ip) = Some false.
Proof.
  intros Hip. destruct (words16_spec ip 8 Hip) as (Hl&Hok&_). unfold string6.
  destruct (longest_run _ _ _) as [i n]. destruct (n =? 0)%nat.
  - destruct (words16 ip) as [|a [|b l]]; [done|done|]. rewrite join_cons, family_app; [done|].
    by apply hexfield_none, (Forall_inv Hok).
  - destruct (take i (words16 ip)) as [|a l] eqn:E; [done|].
    assert (Forall word_ok (a :: l)) as Ha by (rewrite <- E; by apply Forall_take).
    destruct l as [|b l].
    + change (join ":" (map hexfield [a])) with (hexfield a). rewrite family_app; [done|]. apply hexfield_none; [done|].
      exact (Forall_inv Ha).
    + rewrite join_cons, text_app_assoc, family_app; [done|]. apply hexfield_none; [done|]. exact (Forall_inv Ha).
Qed.

Lemma v4_prefix ip : ok 16 ip → is_Some (To4 ip) → ∃ q, ok 4 q ∧ To4 ip = Some q ∧ (v4InV6Prefix ++ q)%list = ip.
Proof.
  intros [Hl Hf] [q E]. unfold To4 in E. rewrite Hl in E. cbn [Nat.eqb IPv4len IPv6len andb] in E.
  destruct (bool_decide _) eqn:Hp; [|done]. injection E as <-. exists (drop 12 ip).
  apply bool_decide_eq_true_1 in Hp. split_and!.
  - split; [rewrite length_drop, Hl; done|by apply Forall_drop].
  - unfold To4. rewrite Hl. cbn [Nat.eqb IPv4len IPv6len andb]. by rewrite (bool_decide_true _ Hp).
  - rewrite <- Hp. apply take_drop.
Qed.

Lemma ParseIP_String ip : ok 16 ip → ParseIP (IP_String ip) = Some ip.
Proof.
  intros Hip. unfold IP_String. destruct (To4 ip) as [q|] eqn:E4.
  - destruct (v4_prefix ip Hip) as (q'&Hq&Eq&Ep); [by eexists|]. assert (q' = q) as -> by congruence.
    by rewrite ParseIP_string4, Ep.
  - unfold ParseIP, ParseAddr. rewrite string6_percent, string6_family by done. cbn [mbind option_bind].
    rewrite parseIPv6_string6 by done. done.
Qed.

Lemma IP_String_inj a b : ok 16 a → ok 16 b → IP_String a = IP_String b → a = b.
Proof. intros Ha Hb E. apply (f_equal ParseIP) in E. rewrite !ParseIP_String in E by done. congruence. Qed.

(** ** What is read is an address *)

Lemma hexdigit_bound c d : hexdigit c = Some d → 0 <= d < 16.
Proof. unfold hexdigit. intros H. repeat case_match; simplify_eq; repeat match goal with H : (_ && _) = true |- _ => apply andb_true_iff in H as [?%Nat.leb_le ?%Nat.leb_le] end; lia. Qed.

Lemma hexrun_bound s n acc n' acc' rest :
  0 <= acc < 16 ^ Z.of_nat n → hexrun n acc s = (n', acc', rest) → 0 <= acc' < 16 ^ Z.of_nat n'.
Proof.
  revert n acc. induction s as [|c s IH]; intros n acc Ha; cbn [hexrun]; [by intros [= <- <- <-]|].
  destruct (hexdigit c) as [d|] eqn:E; [|by intros [= <- <- <-]]. apply hexdigit_bound in E. apply IH.
  rewrite Nat2Z.inj_succ, Z.pow_succ_r by lia. lia.
Qed.

Lemma expand_ok bytes e ip :
  Forall byte_ok bytes → (length bytes <= 16)%nat → expand bytes e = Some ip → ok 16 ip.
Proof.
  intros Hb Hl. unfold expand. destruct e as [e|].
  - destruct (Nat.eqb_spec (16 - length bytes) 0); [done|]. intros [= <-]. split.
    + rewrite !length_app, length_replicate, length_take, length_drop. lia.
    + repeat apply Forall_app_2; [by apply Forall_take|apply Forall_replicate; unfold byte_ok; lia|by apply Forall_drop].
  - destruct (Nat.eqb_spec (16 - length bytes) 0); [|done]. intros [= <-]. split; [lia|done].
Qed.

Lemma fields6_ok fuel bytes e s ip :
  Forall byte_ok bytes → (length bytes + 2 * fuel = 16)%nat → fields6 fuel bytes e s = Some ip → ok 16 ip.
Proof.
  revert bytes e s. induction fuel as [|fuel IH]; intros bytes e s Hb Hl; cbn [fields6].
  { destruct (String.eqb s EmptyString); [|done]. apply expand_ok; [done|lia]. }
  destruct (hexrun 0 0 s) as [[n acc] rest] eqn:E. destruct (_ || _) eqn:En; [done|].
  apply orb_false_iff in En as [En1%Nat.eqb_neq En2%Nat.ltb_ge].
  apply hexrun_bound in E; [|simpl; lia].
  assert (16 ^ Z.of_nat n <= 16 ^ 4) by (apply Z.pow_le_mono_r; lia). change (16 ^ 4) with 65536 in *.
  assert (Forall byte_ok (bytes ++ [acc / 256; acc mod 256])) as Hb'.
  { apply Forall_app_2; [done|]. repeat constructor; unfold byte_ok; Z.to_euclidean_division_equations; lia. }
  assert (length (bytes ++ [acc / 256; acc mod 256]) = (length bytes + 2)%nat) as Hl' by (by rewrite length_app).
  destruct rest as [|c t]; [apply expand_ok; [done|lia]|].
  destruct (Ascii.eqb c ".").
  - destruct (_ || _) eqn:Eo; [done|]. apply orb_false_iff in Eo as [_ Eo%Nat.ltb_ge].
    destruct (parseIPv4 s) as [q|] eqn:Eq; [|done]. cbn [mbind option_bind]. apply parseIPv4_ok in Eq as [Lq Fq].
    apply expand_ok; [by apply Forall_app_2|rewrite length_app, Lq; lia].
  - destruct (Ascii.eqb c ":"); [|done]. destruct t as [|c' t']; [done|]. destruct (Ascii.eqb c' ":").
    + destruct (bool_decide _); [done|]. destruct (String.eqb t' EmptyString); [apply expand_ok; [done|lia]|].
      apply IH; [done|lia].
    + apply IH; [done|lia].
Qed.

Lemma ParseIP_ok s ip : ParseIP s = Some ip → ok 16 ip.
Proof.
  unfold ParseIP, ParseAddr. destruct (none _ s); [|done]. destruct (family s) as [[|]|]; [| |done]; cbn [mbind option_bind].
  - destruct (parseIPv4 s) as [q|] eqn:E; [|done]. cbn [mbind option_bind]. intros [= <-]. apply parseIPv4_ok in E as [Lq Fq].
    change (ok 16 (v4InV6Prefix ++ q)%list). split; [by rewrite length_app, Lq|]. apply Forall_app_2; [|done]. repeat constructor; unfold byte_ok; lia.
  - destruct (parseIPv6 s) as [q|] eqn:E; [|done]. cbn [mbind option_bind]. intros [= <-]. unfold parseIPv6 in E.
    assert (∀ t, fields6 8 [] None t = Some q → ok 16 q) as H1 by (intros t; by apply fields6_ok).
    assert (∀ t, fields6 8 [] (Some 0%nat) t = Some q → ok 16 q) as H2 by (intros t; by apply fields6_ok).
    destruct s as [|c [|c' t]]; [by eapply H1|by eapply H1|]. destruct (_ && _); [|by eapply H1].
    destruct (String.eqb t EmptyString); [|by eapply H2]. injection E as <-. split; [done|].
    repeat constructor; unfold byte_ok; lia.
Qed.
