(* ===== verification/PodNet.v ===== *)
(** * PodNet: nodes and their pod networks

    src/pkg/controller/nodes.go, with the parts of controller.go and config.go
    that set up the address pools.  Every node gets ranges of pod addresses in
    chunks from the configured pool; the ranges are kept in the controller's
    cache and published in an annotation of the node, from which they are read
    back after a restart.  The node also gets an address for service traffic, a
    host protection policy, an injected host object and a tunnel identifier.

    The state is the part of [AciController] that the handlers use; requests to
    the APIC, the API server and other handlers are recorded in
    [node_effects].  A node object is shared with the informer's store:
    [nodeChanged] writes annotations into it, so it returns the object.  JSON
    texts are kept as the fields they encode, with addresses as text
    ([Marshal], [Unmarshal]); a text of another form is [Raw].  Logging and
    locking are left out; the iteration over the addresses of a node is in the
    order of the model's sets. *)
From S2P Require Import Prelude GoBytes GoNet GoText IpAlloc ApicMetadata ApicTypes ApicBuild GoSha AciNames.

Open Scope string_scope.

(** ** Annotations *)

(** metadata.NetIps and metadata.ServiceEndpoint; an empty address is nil. *)
Record NetIps := mkNetIps { V4 : list IpRange; V6 : list IpRange }.
#[export] Instance NetIps_eq_dec : EqDecision NetIps.
Proof. solve_decision. Defined.
Record ServiceEndpoint := mkSvcEp {
  HealthGroupDn : string;
  Mac : string;
  Ipv4 : IP;
  Ipv6 : IP
}.

(** The text of an annotation: the JSON form of ranges, the JSON form of a
    service endpoint, or anything else. *)
Inductive text :=
  | Raw (s : string)
  | NetText (v4 v6 : list (string * string))
  | EpText (mac ipv4 ipv6 : string).

#[export] Instance text_eq_dec : EqDecision text.
Proof. solve_decision. Defined.

(** IP.MarshalText and IP.UnmarshalText; [None] is an error. *)
Definition MarshalIP (ip : IP) : option string :=
  if (length ip =? 0)%nat then Some EmptyString
  else if (length ip =? IPv4len)%nat || (length ip =? IPv6len)%nat then Some (IP_String ip)
  else None.
Definition UnmarshalIP (s : string) : option IP :=
  if String.eqb s EmptyString then Some [] else ParseIP s.

Definition MarshalRange (r : IpRange) : option (string * string) :=
  a ← MarshalIP (Start r); b ← MarshalIP (End_ r); Some (a, b).
Definition UnmarshalRange (p : string * string) : option IpRange :=
  a ← UnmarshalIP p.1; b ← UnmarshalIP p.2; Some (mkRange a b).

(** json.Marshal and json.Unmarshal of NetIps. *)
Definition Marshal (v : NetIps) : option text :=
  a ← mapM MarshalRange (V4 v); b ← mapM MarshalRange (V6 v); Some (NetText a b).
Definition Unmarshal (t : text) : option NetIps :=
  match t with
  | NetText a b => a ← mapM UnmarshalRange a; b ← mapM UnmarshalRange b; Some (mkNetIps a b)
  | _ => None
  end.

(** The same for a service endpoint, whose health group is not written.  What
    was read before an error stays. *)
Definition MarshalEp (ep : ServiceEndpoint) : option text :=
  a ← MarshalIP (Ipv4 ep); b ← MarshalIP (Ipv6 ep); Some (EpText (Mac ep) a b).
Definition emptyEp : ServiceEndpoint := mkSvcEp EmptyString EmptyString [] [].
Definition UnmarshalEp (t : text) : ServiceEndpoint :=
  match t with
  | EpText mac a b =>
      match UnmarshalIP a with
      | None => mkSvcEp EmptyString mac [] []
      | Some ip4 => mkSvcEp EmptyString mac ip4 (default [] (UnmarshalIP b))
      end
  | _ => emptyEp
  end.

(** ** State *)

Record netIps := mkPools { p4 : IpAlloc; p6 : IpAlloc }.
Definition newNetIps : netIps := mkPools New New.

Record nodePodNetMeta := mkPodNet {
  nodePods : gset string;
  podNetIps : NetIps;
  podNetIpsAnnotation : text
}.
Definition newNodePodNetMeta : nodePodNetMeta := mkPodNet ∅ (mkNetIps [] []) (Raw EmptyString).

Record tunnelState := mkTunnels { nodeToTunnel : gmap string Z; nextID : Z }.

Record NodeCfg := mkNodeCfg {
  ChainedMode : bool;
  AciPrefix : string;
  AciPolicyTenant : string;
  AciVrfTenant : string;
  AciVmmDomain : string;
  AciVmmController : string;
  AciVmmDomainType : string;
  ApicVersion : string;
  AciServiceMonitorInterval : Z;
  AciMultipod : bool;
  LBType : string;
  MaxCSRTunnels : Z;
  CSRTunnelIDBase : Z;
  PodIpPoolChunkSize : Z;
  PodIpPool : list IpRange;
  NodeServiceIpPool : list IpRange
}.

Record Node := mkNode {
  node_Name : string;
  ann_PodNet : option text;
  ann_ServiceEp : option text;
  ann_AciPod : string;
  Addresses_ : list (string * string);
  OSImage : string;
  KernelVersion : string
}.

Inductive node_effect :=
  | WriteApic (key : string) (objs : ApicSlice)
  | ClearApic (key : string)
  | UpdateServicesForNode (name : string)
  | SnatFullSync
  | PodNetworkChanged (name : string)
  | UpdateNode (node : Node)
  | UpdateTunnels (ids : gmap string Z)
  | DeleteNodeInfoCR (name : string)
  | QueueNodeInfo (key : string)
  | DeleteNodePodIfCR (name : string)
  | UnexpectedObject.

Record NodeState := mkNodeState {
  configuredPodNetworkIps : netIps;
  podNetworkIps : netIps;
  nodePodNetCache : gmap string nodePodNetMeta;
  nodeServiceIps : netIps;
  nodeServiceMetaCache : gmap string ServiceEndpoint;
  nodeOpflexDevice : gmap string ApicSlice;
  nodeACIPod : gmap string string;
  snatNodeInfoCache_ : gmap string string;
  nodeSyncEnabled : bool;
  tunnelGetter : option tunnelState;
  node_effects : list node_effect
}.

Definition set_pool (p : netIps) (s : NodeState) : NodeState :=
  mkNodeState (configuredPodNetworkIps s) p (nodePodNetCache s) (nodeServiceIps s) (nodeServiceMetaCache s)
    (nodeOpflexDevice s) (nodeACIPod s) (snatNodeInfoCache_ s) (nodeSyncEnabled s) (tunnelGetter s) (node_effects s).
Definition set_podnet (n : string) (m : nodePodNetMeta) (s : NodeState) : NodeState :=
  mkNodeState (configuredPodNetworkIps s) (podNetworkIps s) (<[n := m]> (nodePodNetCache s)) (nodeServiceIps s)
    (nodeServiceMetaCache s) (nodeOpflexDevice s) (nodeACIPod s) (snatNodeInfoCache_ s) (nodeSyncEnabled s)
    (tunnelGetter s) (node_effects s).
Definition set_service (p : netIps) (m : gmap string ServiceEndpoint) (s : NodeState) : NodeState :=
  mkNodeState (configuredPodNetworkIps s) (podNetworkIps s) (nodePodNetCache s) p m
    (nodeOpflexDevice s) (nodeACIPod s) (snatNodeInfoCache_ s) (nodeSyncEnabled s) (tunnelGetter s) (node_effects s).
Definition set_nodeinfo (m : gmap string string) (s : NodeState) : NodeState :=
  mkNodeState (configuredPodNetworkIps s) (podNetworkIps s) (nodePodNetCache s) (nodeServiceIps s)
    (nodeServiceMetaCache s) (nodeOpflexDevice s) (nodeACIPod s) m (nodeSyncEnabled s) (tunnelGetter s) (node_effects s).
Definition set_sync (b : bool) (s : NodeState) : NodeState :=
  mkNodeState (configuredPodNetworkIps s) (podNetworkIps s) (nodePodNetCache s) (nodeServiceIps s)
    (nodeServiceMetaCache s) (nodeOpflexDevice s) (nodeACIPod s) (snatNodeInfoCache_ s) b (tunnelGetter s) (node_effects s).
Definition set_tunnels (t : option tunnelState) (s : NodeState) : NodeState :=
  mkNodeState (configuredPodNetworkIps s) (podNetworkIps s) (nodePodNetCache s) (nodeServiceIps s)
    (nodeServiceMetaCache s) (nodeOpflexDevice s) (nodeACIPod s) (snatNodeInfoCache_ s) (nodeSyncEnabled s) t (node_effects s).
Definition node_emit (l : list node_effect) (s : NodeState) : NodeState :=
  mkNodeState (configuredPodNetworkIps s) (podNetworkIps s) (nodePodNetCache s) (nodeServiceIps s)
    (nodeServiceMetaCache s) (nodeOpflexDevice s) (nodeACIPod s) (snatNodeInfoCache_ s) (nodeSyncEnabled s)
    (tunnelGetter s) (node_effects s ++ l)%list.

(** ** Setting up the pools (config.go) *)

Definition loadIpRange (p : netIps) (r : IpRange) : netIps :=
  if bool_decide (is_Some (To4 (Start r))) && bool_decide (is_Some (To4 (End_ r))) then
    mkPools (AddRange (p4 p) (Start r) (End_ r)) (p6 p)
  else if bool_decide (is_Some (To16 (Start r))) && bool_decide (is_Some (To16 (End_ r))) then
    mkPools (p4 p) (AddRange (p6 p) (Start r) (End_ r))
  else p.
Definition loadIpRanges (p : netIps) (ipranges : list IpRange) : netIps := foldl loadIpRange p ipranges.

(** The pools of pod and node addresses; no node is known yet. *)
Definition initIpam (cfg : NodeCfg) : NodeState :=
  let configured := loadIpRanges newNetIps (PodIpPool cfg) in
  mkNodeState configured
    (mkPools (AddAll New (p4 configured)) (AddAll New (p6 configured))) ∅
    (loadIpRanges newNetIps (NodeServiceIpPool cfg)) ∅ ∅ ∅ ∅ false None [].

(** ** Pod networks *)

Definition recomputePodNetAnnotation (podnet : nodePodNetMeta) : nodePodNetMeta :=
  mkPodNet (nodePods podnet) (podNetIps podnet) (default (Raw EmptyString) (Marshal (podNetIps podnet))).

(** One family of [mergePodNet]: the ranges of the node and the pool.  The
    sizes that the code computes only decide whether to log a warning. *)
Definition merge_family (configured pool : IpAlloc) (own existing : list IpRange) : list IpRange * IpAlloc :=
  let v := AddRanges (NewFromRanges own) existing in
  (FreeList (Intersect v configured), RemoveRanges pool existing).

Definition mergePodNet (podnet : nodePodNetMeta) (existingAnnotation : text) (s : NodeState)
  : nodePodNetMeta * NodeState :=
  match Unmarshal existingAnnotation with
  | None => (podnet, s)
  | Some existing =>
      let '(v4, pool4) := merge_family (p4 (configuredPodNetworkIps s)) (p4 (podNetworkIps s))
                            (V4 (podNetIps podnet)) (V4 existing) in
      let '(v6, pool6) := merge_family (p6 (configuredPodNetworkIps s)) (p6 (podNetworkIps s))
                            (V6 (podNetIps podnet)) (V6 existing) in
      (recomputePodNetAnnotation (mkPodNet (nodePods podnet) (mkNetIps v4 v6) (podNetIpsAnnotation podnet)),
       set_pool (mkPools pool4 pool6) s)
  end.

Definition syncPodNet (node : Node) (s : NodeState) : NodeState :=
  match ann_PodNet node with
  | None => s
  | Some netval =>
      let '(nodePodNet, s) := mergePodNet newNodePodNetMeta netval s in
      set_podnet (node_Name node) nodePodNet s
  end.

Definition allocateIpChunk (cfg : NodeCfg) (podnet : nodePodNetMeta) (v4 : bool) (s : NodeState)
  : bool * nodePodNetMeta * NodeState :=
  let ips := podNetIps podnet in
  let podnetipam := NewFromRanges (if v4 then V4 ips else V6 ips) in
  let ipa := if v4 then p4 (podNetworkIps s) else p6 (podNetworkIps s) in
  let size := GetSize podnetipam in
  if (int64 (size - Z.quot (PodIpPoolChunkSize cfg) 2) <? Z.of_nat (base.size (nodePods podnet)))%Z then
    let '(ipa, res) := GetIpChunk ipa (PodIpPoolChunkSize cfg) in
    let s := set_pool (if v4 then mkPools ipa (p6 (podNetworkIps s)) else mkPools (p4 (podNetworkIps s)) ipa) s in
    match res with
    | None => (false, podnet, s)
    | Some r =>
        let fl := FreeList (AddRanges podnetipam r) in
        let ips := if v4 then mkNetIps fl (V6 ips) else mkNetIps (V4 ips) fl in
        (true, recomputePodNetAnnotation (mkPodNet (nodePods podnet) ips (podNetIpsAnnotation podnet)), s)
    end
  else (false, podnet, s).

Definition check_family (cfg : NodeCfg) (v4 : bool) (podnet : nodePodNetMeta) (s : NodeState)
  : bool * nodePodNetMeta * NodeState :=
  let c := configuredPodNetworkIps s in
  if negb (Empty (if v4 then p4 c else p6 c)) then allocateIpChunk cfg podnet v4 s else (false, podnet, s).

Definition checkNodePodNet (cfg : NodeCfg) (nodename : string) (s : NodeState) : NodeState :=
  match nodePodNetCache s !! nodename with
  | None => s
  | Some podnet =>
      let '(v4changed, podnet, s) := check_family cfg true podnet s in
      let '(v6changed, podnet, s) := check_family cfg false podnet s in
      let s := set_podnet nodename podnet s in
      if v4changed || v6changed then node_emit [PodNetworkChanged nodename] s else s
  end.

Definition addPodToNode (cfg : NodeCfg) (nodename key : string) (s : NodeState) : NodeState :=
  let existing := default newNodePodNetMeta (nodePodNetCache s !! nodename) in
  let s := set_podnet nodename existing s in
  if bool_decide (key ∈ nodePods existing) then s
  else
    checkNodePodNet cfg nodename
      (set_podnet nodename
         (mkPodNet ({[key]} ∪ nodePods existing) (podNetIps existing) (podNetIpsAnnotation existing)) s).

Definition removePodFromNode (cfg : NodeCfg) (nodename key : string) (s : NodeState) : NodeState :=
  match nodePodNetCache s !! nodename with
  | None => s
  | Some existing =>
      checkNodePodNet cfg nodename
        (set_podnet nodename
           (mkPodNet (nodePods existing ∖ {[key]}) (podNetIps existing) (podNetIpsAnnotation existing)) s)
  end.

(** ** Service addresses of nodes *)

(** net.ParseMAC succeeds: 6, 8 or 20 octets as pairs of hexadecimal digits
    with colons or dashes, or in groups of four digits with dots. *)
Fixpoint hex_only (s : string) : bool :=
  match s with
  | EmptyString => true
  | String c s => bool_decide (is_Some (hexdigit c)) && hex_only s
  end.
Definition mac_groups (sep : ascii) (width : nat) (s : string) : bool :=
  let groups := split_on sep s in
  forallb (λ g, (String.length g =? width)%nat && hex_only g) groups
  && bool_decide (width * length groups ∈ [12; 16; 40])%nat.
Definition ParseMAC_ok (s : string) : bool :=
  mac_groups ":" 2 s || mac_groups "-" 2 s || mac_groups "." 4 s.

(** HardwareAddr.String. *)
Definition mac_String (mac : list Z) : string :=
  join ":" (map (λ b, String (hexchar (b / 16)) (String (hexchar (b mod 16)) EmptyString)) mac).

(** One family of addresses: an address that the endpoint has stays, the
    existing one is taken if the pool has it, and else a new one. *)
Definition service_addr (cur existing : IP) (pool : IpAlloc) : IP * IpAlloc :=
  let '(cur, pool) :=
    if (length cur =? 0)%nat && negb (length existing =? 0)%nat then
      let '(pool, found) := RemoveIp pool existing in
      (if found then existing else cur, pool)
    else (cur, pool) in
  if (length cur =? 0)%nat then
    let '(pool, res) := GetIp pool in (default [] res, pool)
  else (cur, pool).

Definition node_aciName (cfg : NodeCfg) (ktype key : string) : string := AciNameForKey (AciPrefix cfg) ktype key.

(** The result is the endpoint and whether there was no error; [rnd] is what
    the source of random bytes gives. *)
Definition createServiceEndpoint (cfg : NodeCfg) (rnd : option (list Z)) (existing ep : ServiceEndpoint)
    (deviceMac nodeName : string) (s : NodeState) : option (bool * ServiceEndpoint * NodeState) :=
  let mac :=
    if ParseMAC_ok deviceMac && negb (String.eqb deviceMac "00:00:00:00:00:00") then Some deviceMac
    else if ParseMAC_ok (Mac existing) then Some (Mac existing)
    else
      match rnd with
      | Some (b :: mac) => Some (mac_String (Z.lor (Z.land b 254) 2 :: mac))
      | _ => None
      end in
  match mac with
  | None => Some (false, ep, s)
  | Some mac =>
      let '(ip4, pool4) := service_addr (Ipv4 ep) (Ipv4 existing) (p4 (nodeServiceIps s)) in
      let '(ip6, pool6) := service_addr (Ipv6 ep) (Ipv6 existing) (p6 (nodeServiceIps s)) in
      let s := set_service (mkPools pool4 pool6) (nodeServiceMetaCache s) s in
      let ep := mkSvcEp (HealthGroupDn ep) mac ip4 ip6 in
      if (length ip4 =? 0)%nat && (length ip6 =? 0)%nat then Some (false, ep, s)
      else if String.eqb (HealthGroupDn ep) EmptyString && (0 <? AciServiceMonitorInterval cfg)%Z then
        let name := node_aciName cfg "svc" nodeName in
        obj ← NewVnsRedirectHealthGroup (AciVrfTenant cfg) name;
        Some (true, mkSvcEp (GetDn obj) mac ip4 ip6, node_emit [WriteApic name [obj]] s)
      else Some (true, ep, s)
  end.

(** ** Tunnel identifiers *)

Definition lbTypeAci : string := "aci-nlb".
Definition tunnelIDIncr : Z := 2.

Definition getNodeIP (node : Node) (aType : string) : string :=
  match List.find (λ a, String.eqb a.1 aType) (Addresses_ node) with Some a => a.2 | None => EmptyString end.

(** The state of the tunnels on first use: [driver] is what the state driver
    reads, [None] if it fails. *)
Definition initTunnels (driver : option (option (gmap string Z))) : option tunnelState :=
  ids ← driver;
  Some match ids with
       | None => mkTunnels ∅ 0
       | Some ids => mkTunnels ids (int64 (map_fold (λ _ v m, if (v <? m)%Z then m else v) 0%Z ids + tunnelIDIncr))
       end.

Definition getTunnelID (cfg : NodeCfg) (driver : option (option (gmap string Z))) (node : Node) (s : NodeState)
  : Z * NodeState :=
  if String.eqb (LBType cfg) lbTypeAci then (0%Z, s)
  else
    let nodeIP := getNodeIP node "InternalIP" in
    if String.eqb nodeIP EmptyString then (0%Z, s)
    else
      match (match tunnelGetter s with Some t => Some t | None => initTunnels driver end) with
      | None => (0%Z, s)
      | Some t =>
          let s := set_tunnels (Some t) s in
          match nodeToTunnel t !! nodeIP with
          | Some id => (int64 (id + CSRTunnelIDBase cfg), s)
          | None =>
              let id := nextID t in
              if (int64 (MaxCSRTunnels cfg * tunnelIDIncr) <=? id)%Z then (0%Z, s)
              else
                let ids := <[nodeIP := id]> (nodeToTunnel t) in
                (int64 (id + CSRTunnelIDBase cfg),
                 node_emit [UpdateTunnels ids] (set_tunnels (Some (mkTunnels ids (int64 (id + tunnelIDIncr)))) s))
          end
      end.

(** ** APIC objects of a node *)

Definition node_rule (subjDn name dir : string) (ips : list string) : option ApicObject :=
  r ← NewHostprotRule subjDn name;
  let r := SetAttr (SetAttr (SetAttr r "direction" (AStr dir)) "ethertype" (AStr "ipv4")) "connTrack" (AStr "normal") in
  foldl (λ o ip, o ← o; c ← NewHostprotRemoteIp (GetDn r) ip; Some (AddChild o c)) (Some r) ips.

Definition apicNodeNetPol (name tenantName : string) (nodeIps : gset string) : option ApicObject :=
  hpp ← NewHostprotPol tenantName name;
  nodeSubj ← NewHostprotSubj (GetDn hpp) "local-node";
  nodeSubj ←
    (if (0 <? size nodeIps)%nat then
       outbound ← node_rule (GetDn nodeSubj) "allow-all-egress" "egress" (elements nodeIps);
       inbound ← node_rule (GetDn nodeSubj) "allow-all-ingress" "ingress" (elements nodeIps);
       Some (AddChild (AddChild nodeSubj inbound) outbound)
     else Some nodeSubj);
  Some (AddChild hpp nodeSubj).

Definition node_ips (node : Node) : gset string :=
  list_to_set (omap (λ a, if negb (String.eqb a.2 EmptyString) &&
                             (String.eqb a.1 "InternalIP" || String.eqb a.1 "ExternalIP")
                          then Some a.2 else None) (Addresses_ node)).

Definition createNetPolForNode (cfg : NodeCfg) (node : Node) (s : NodeState) : option NodeState :=
  let sgName := node_aciName cfg "node" (node_Name node) in
  hpp ← apicNodeNetPol sgName (AciPolicyTenant cfg) (node_ips node);
  Some (node_emit [WriteApic sgName [hpp]] s).

Definition node_vmmProvider (cfg : NodeCfg) : string :=
  if String.eqb (ToLower (AciVmmDomainType cfg)) "openshift" then "OpenShift" else "Kubernetes".

Definition writeApicNode (cfg : NodeCfg) (driver : option (option (gmap string Z))) (node : Node) (s : NodeState)
  : option NodeState :=
  if ChainedMode cfg then Some s
  else
    let '(tunnelID, s) := getTunnelID cfg driver node s in
    aobj ← NewVmmInjectedHost (node_vmmProvider cfg) (AciVmmDomain cfg) (AciVmmController cfg) (node_Name node);
    let aobj := SetAttr aobj "mgmtIp" (AStr (getNodeIP node "InternalIP")) in
    let aobj := SetAttr aobj "os" (AStr (OSImage node)) in
    let aobj := SetAttr aobj "kernelVer" (AStr (KernelVersion node)) in
    let aobj := if String.leb "5.0" (ApicVersion cfg) then SetAttr aobj "id" (AStr (Itoa tunnelID)) else aobj in
    Some (node_emit [WriteApic (node_aciName cfg "node-vmm" (node_Name node)) [aobj]] s).

(** ** Handlers *)

Definition deviceMacForNode (name : string) (s : NodeState) : option string :=
  (λ d, GetAttrStr d "mac") <$> last (default [] (nodeOpflexDevice s !! name)).

(** The service endpoint of a node that has an opflex device: the state, the
    node and whether the node's annotation changed. *)
Definition node_service (cfg : NodeCfg) (rnd : option (list Z)) (node : Node) (s : NodeState)
  : option (NodeState * Node * bool) :=
  match deviceMacForNode (node_Name node) s with
  | Some deviceMac =>
      if nodeSyncEnabled s then
        let n := node_Name node in
        let nodeMeta := default emptyEp (nodeServiceMetaCache s !! n) in
        let existing := default emptyEp (UnmarshalEp <$> ann_ServiceEp node) in
        '(_, ep, s) ← createServiceEndpoint cfg rnd existing nodeMeta deviceMac n s;
        let s := set_service (nodeServiceIps s) (<[n := ep]> (nodeServiceMetaCache s)) s in
        Some match MarshalEp ep with
             | None => (s, node, false)
             | Some raw =>
                 if bool_decide (ann_ServiceEp node = Some raw) then (s, node, false)
                 else
                   (node_emit [UpdateServicesForNode n; SnatFullSync] s,
                    mkNode n (ann_PodNet node) (Some raw) (ann_AciPod node) (Addresses_ node) (OSImage node)
                      (KernelVersion node), true)
             end
      else Some (s, node, false)
  | None => Some (s, node, false)
  end.

(** The pod network of the node; the annotation is overwritten if it differs
    from the one that the controller has computed. *)
Definition node_podnet (cfg : NodeCfg) (node : Node) (s : NodeState) : NodeState * Node * bool :=
  let n := node_Name node in
  let s := match nodePodNetCache s !! n with Some _ => s | None => set_podnet n newNodePodNetMeta s end in
  if nodeSyncEnabled s then
    let s := checkNodePodNet cfg n s in
    let ann := podNetIpsAnnotation (default newNodePodNetMeta (nodePodNetCache s !! n)) in
    if bool_decide (default (Raw EmptyString) (ann_PodNet node) = ann) then (s, node, false)
    else
      (s, mkNode n (Some ann) (ann_ServiceEp node) (ann_AciPod node) (Addresses_ node) (OSImage node)
            (KernelVersion node), true)
  else (s, node, false).

Definition node_acipod (cfg : NodeCfg) (node : Node) (s : NodeState) : Node * bool :=
  let nodeAciPod := default EmptyString (nodeACIPod s !! node_Name node) in
  if AciMultipod cfg && nodeSyncEnabled s && negb (String.eqb (ann_AciPod node) nodeAciPod)
     && negb (String.eqb nodeAciPod EmptyString) then
    (mkNode (node_Name node) (ann_PodNet node) (ann_ServiceEp node) nodeAciPod (Addresses_ node) (OSImage node)
       (KernelVersion node), true)
  else (node, false).

(** What the update of the node object answers is only logged. *)
Definition nodeChanged (cfg : NodeCfg) (rnd : option (list Z)) (driver : option (option (gmap string Z)))
    (node : Node) (s : NodeState) : option (NodeState * Node) :=
  if ChainedMode cfg then Some (s, node)
  else
    '(s, node, u1) ← node_service cfg rnd node s;
    let '(s, node, u2) := node_podnet cfg node s in
    let '(node, u3) := node_acipod cfg node s in
    s ← createNetPolForNode cfg node s;
    s ← writeApicNode cfg driver node s;
    Some (if u1 || u2 || u3 then node_emit [UpdateNode node] s else s, node).

(** The objects of the informers' delete events. *)
Inductive k8s_object :=
  | ONode (n : Node)
  | ONodePodIF (name : string)
  | ODeletedFinalStateUnknown (o : k8s_object)
  | OOther.
Definition as_node (o : k8s_object) : option Node :=
  match o with ONode n => Some n | ODeletedFinalStateUnknown (ONode n) => Some n | _ => None end.
Definition as_podif (o : k8s_object) : option string :=
  match o with ONodePodIF n => Some n | ODeletedFinalStateUnknown (ONodePodIF n) => Some n | _ => None end.

(** [deleteInfo] and [deletePodIf] are the answers of the API server,
    [None] if there is no client.  The result of a failed conversion is an
    error in the log. *)
Definition nodeDeleted (cfg : NodeCfg) (deleteInfo deletePodIf : option (string → bool)) (obj : k8s_object)
    (s : NodeState) : NodeState :=
  if ChainedMode cfg then s
  else
    match as_node obj with
    | None => node_emit [UnexpectedObject] s
    | Some node =>
        let n := node_Name node in
        let s := node_emit [ClearApic (node_aciName cfg "node" n); ClearApic (node_aciName cfg "node-vmm" n)] s in
        let pools := nodeServiceIps s in
        let pools :=
          match nodeServiceMetaCache s !! n with
          | None => pools
          | Some existing =>
              mkPools (if (length (Ipv4 existing) =? 0)%nat then p4 pools else AddIp (p4 pools) (Ipv4 existing))
                      (if (length (Ipv6 existing) =? 0)%nat then p6 pools else AddIp (p6 pools) (Ipv6 existing))
          end in
        let s := set_service pools (delete n (nodeServiceMetaCache s)) s in
        let s := node_emit [UpdateServicesForNode n; SnatFullSync] s in
        let info_done :=
          match snatNodeInfoCache_ s !! n with
          | None => Some s
          | Some nodeinfokey =>
              let s := match deleteInfo with Some _ => node_emit [DeleteNodeInfoCR n] s | None => s end in
              if match deleteInfo with Some answer => negb (answer n) | None => false end then None
              else Some (node_emit [QueueNodeInfo nodeinfokey] (set_nodeinfo (delete n (snatNodeInfoCache_ s)) s))
          end in
        match info_done with
        | None => node_emit [DeleteNodeInfoCR n] s
        | Some s =>
            match as_podif obj with
            | None => node_emit [UnexpectedObject] s
            | Some np => match deletePodIf with Some _ => node_emit [DeleteNodePodIfCR np] s | None => s end
            end
        end
    end.

(** The informer's handlers and the full synchronisation. *)
Definition node_added (cfg : NodeCfg) (rnd : option (list Z)) (driver : option (option (gmap string Z)))
    (node : Node) (s : NodeState) : option (NodeState * Node) :=
  nodeChanged cfg rnd driver node (syncPodNet node s).

(** The nodes of the store, in its order, and the objects as they are left. *)
Fixpoint nodeFullSync (cfg : NodeCfg) (rnd : option (list Z)) (driver : option (option (gmap string Z)))
    (nodes : list Node) (s : NodeState) : option (NodeState * list Node) :=
  match nodes with
  | [] => Some (s, [])
  | node :: nodes =>
      '(s, node) ← node_added cfg rnd driver node s;
      '(s, nodes) ← nodeFullSync cfg rnd driver nodes s;
      Some (s, node :: nodes)
  end.

Definition nodeChangedByName (cfg : NodeCfg) (rnd : option (list Z)) (driver : option (option (gmap string Z)))
    (store : gmap string Node) (nodeName : string) (s : NodeState) : option (NodeState * gmap string Node) :=
  match store !! nodeName with
  | None => Some (s, store)
  | Some node => '(s, node) ← nodeChanged cfg rnd driver node s; Some (s, <[nodeName := node]> store)
  end.
