(* ===== verification/PodNetFacts.v ===== *)
(** * PodNetFacts: the ranges of the nodes and the pool stay apart

    Lemmas on src/pkg/controller/nodes.go: the text of an annotation gives the
    ranges back, and every operation keeps the addresses that each node was
    ever given ([G]) apart from those of the other nodes and from the pool. *)
From S2P Require Import Prelude GoBytes GoNet GoText GoText6 IpAlloc IpAllocFacts IpCache IpCacheFacts ApicTypes ApicBuild PodNet.

Open Scope Z_scope.

(** ** The text of an annotation *)

Lemma MarshalIP_ok ip : ok 16 ip → ∃ s, MarshalIP ip = Some s ∧ UnmarshalIP s = Some ip.
Proof.
  intros Hip. exists (IP_String ip). unfold MarshalIP, UnmarshalIP. pose proof Hip as [Hl _]. rewrite Hl. split; [done|].
  rewrite ParseIP_String by done. destruct (String.eqb_spec (IP_String ip) EmptyString) as [E|]; [|done].
  pose proof (ParseIP_String ip Hip) as H. rewrite E in H. vm_compute in H. discriminate H.
Qed.

Lemma MarshalRange_ok r :
  range_ok 16 r → ∃ p, MarshalRange r = Some p ∧ UnmarshalRange p = Some r.
Proof.
  intros (Hs&He&_). destruct (MarshalIP_ok _ Hs) as (a&Ea&Ua), (MarshalIP_ok _ He) as (b&Eb&Ub).
  exists (a, b). unfold MarshalRange, UnmarshalRange. rewrite Ea, Eb. cbn. rewrite Ua, Ub. cbn. by destruct r.
Qed.

Lemma mapM_roundtrip {A B} (f : A → option B) (g : B → option A) (P : A → Prop) l :
  (∀ x, P x → ∃ y, f x = Some y ∧ g y = Some x) → Forall P l →
  ∃ l', mapM f l = Some l' ∧ mapM g l' = Some l.
Proof.
  intros Hfg. induction 1 as [|x l Hx _ (l'&E&E')]; [by exists []|].
  destruct (Hfg x Hx) as (y&Ey&Ex). exists (y :: l'). cbn. rewrite Ey, E. cbn. by rewrite Ex, E'.
Qed.

(** Well-formed ranges of both families. *)
Definition ips_ok (v : NetIps) : Prop := sfl 16 (V4 v) ∧ sfl 16 (V6 v).

Lemma Marshal_roundtrip v : ips_ok v → ∃ t, Marshal v = Some t ∧ Unmarshal t = Some v.
Proof.
  intros [H4 H6].
  destruct (mapM_roundtrip MarshalRange UnmarshalRange (range_ok 16) (V4 v)) as (a&Ea&Ua); [apply MarshalRange_ok|apply H4|].
  destruct (mapM_roundtrip MarshalRange UnmarshalRange (range_ok 16) (V6 v)) as (b&Eb&Ub); [apply MarshalRange_ok|apply H6|].
  exists (NetText a b). unfold Marshal, Unmarshal. rewrite Ea, Eb. cbn. rewrite Ua, Ub. cbn. by destruct v.
Qed.

(** ** One family of addresses *)

Abbreviation grants := (string → Z → Prop).

(** The ranges [own] of the nodes, the pool and the configured ranges; [G]
    has the addresses that each node was ever given. *)
Record fam_ok (conf pool : list IpRange) (own : string → list IpRange) (G : grants) : Prop := {
  fam_conf : sfl 16 conf;
  fam_pool : sfl 16 pool;
  fam_own : ∀ n, sfl 16 (own n);
  fam_own_G : ∀ n x, members (own n) x → G n x;
  fam_apart : ∀ n m x, G n x → G m x → n = m;
  fam_G_pool : ∀ n x, G n x → ¬ members pool x;
  fam_pool_conf : ∀ x, members pool x → members conf x;
  fam_G_conf : ∀ n x, G n x → members conf x
}.

(** [G] with more addresses for [n]. *)
Definition grant (n : string) (P : Z → Prop) (G : grants) : grants :=
  λ m x, G m x ∨ m = n ∧ P x.

(** The value of a function at one name. *)
Definition upd {A} (n : string) (a : A) (f : string → A) : string → A :=
  λ m, if decide (m = n) then a else f m.

Lemma grant_l n P G m x : G m x → grant n P G m x.
Proof. by left. Qed.

Lemma fam_grant conf pool own G n fl P pool' :
  fam_ok conf pool own G → sfl 16 fl → sfl 16 pool' →
  (∀ x, members fl x → grant n P G n x) →
  (∀ m x, P x → G m x → m = n) → (∀ x, P x → members conf x) →
  (∀ x, members pool' x → members pool x ∧ ¬ P x) →
  fam_ok conf pool' (upd n fl own) (grant n P G).
Proof.
  intros [] Hfl Hp' HflG Hap HPc Hp. split.
  - done.
  - done.
  - intros m. unfold upd. by destruct (decide (m = n)).
  - intros m x. unfold upd. destruct (decide (m = n)) as [->|]; [apply HflG|]. intros Hx. left. auto.
  - intros a b x [Ha|[-> Ha]] [Hb|[-> Hb]]; [eauto|by apply (Hap a x)|symmetry; by apply (Hap b x)|done].
  - intros m x [Hx|[-> Hx]] Hm; apply Hp in Hm as [Hm1 Hm2]; [by eapply fam_G_pool0|done].
  - intros x Hx. apply fam_pool_conf0. by apply Hp.
  - intros m x [Hx|[-> Hx]]; eauto.
Qed.

Lemma merge_family_ok conf pool own G n existing :
  fam_ok (FreeList conf) (FreeList pool) own G → sfl 16 existing →
  (∀ m x, members existing x → members (FreeList conf) x → G m x → m = n) →
  let '(fl, pool') := merge_family conf pool [] existing in
  fam_ok (FreeList conf) (FreeList pool') (upd n fl own)
    (grant n (λ x, members existing x ∧ members (FreeList conf) x) G) ∧
  (∀ x, members fl x ↔ members existing x ∧ members (FreeList conf) x) ∧
  ∀ x, members (FreeList pool') x ↔ members (FreeList pool) x ∧ ¬ members existing x.
Proof.
  intros Hf Hex Hap. unfold merge_family. change (NewFromRanges []) with New.
  assert (sfl 16 (FreeList (AddRanges New existing))) as Hadd.
  { apply AddRanges_disjoint; [apply sfl_nil|done|]. intros x Hx. by apply members_nil in Hx. }
  destruct (AddRanges_ok 16 existing New) as [_ Ha]; [apply wfl_nil|apply Hex|].
  destruct (Intersect_ok 16 (AddRanges New existing) conf Hadd (fam_conf _ _ _ _ Hf)) as [Hi Him].
  destruct (RemoveRanges_ok 16 existing pool (fam_pool _ _ _ _ Hf) (proj1 Hex)) as [Hr Hrm].
  assert (∀ x, members (FreeList (Intersect (AddRanges New existing) conf)) x ↔
               members existing x ∧ members (FreeList conf) x) as Hmem.
  { intros x. rewrite <- (Him x), (Ha x). change (FreeList New) with (@nil IpRange). rewrite members_nil. tauto. }
  split_and!; [|exact Hmem|exact Hrm]. eapply fam_grant; [exact Hf|exact Hi|exact Hr| | | |].
  - intros x Hx%Hmem. by right.
  - intros m x [Hx1 Hx2] Hm. by eapply Hap.
  - tauto.
  - intros x [Hx1 Hx2]%Hrm. split; [done|]. tauto.
Qed.

Lemma chunk_ok pool chunkSize :
  sfl 16 (FreeList pool) → 0 <= chunkSize <= MaxInt64 →
  chunk_post 16 (members (FreeList pool)) (total (FreeList pool)) chunkSize (GetIpChunk pool chunkSize).
Proof.
  intros Hs Hc.
  pose proof (GetIpChunk_loop_ok 16 chunkSize (length (FreeList pool) + 2) pool New) as H.
  apply (chunk_post_proper _ (λ x, members (FreeList New) x ∨ members (FreeList pool) x)).
  { intros x. change (FreeList New) with (@nil IpRange). rewrite members_nil. tauto. }
  apply H; [lia|done|apply sfl_nil|intros r u Hr; by apply elem_of_nil in Hr|simpl; lia].
Qed.

(** A chunk goes to a node. *)
Lemma chunk_grant conf pool own G n chunkSize pool' r :
  fam_ok conf (FreeList pool) own G → 0 <= chunkSize <= MaxInt64 →
  GetIpChunk pool chunkSize = (pool', Some r) →
  let fl := FreeList (AddRanges (NewFromRanges (own n)) r) in
  fam_ok conf (FreeList pool') (upd n fl own) (grant n (members r) G) ∧
  (∀ x, members fl x ↔ members (own n) x ∨ members r x) ∧
  total fl = total (own n) + chunkSize ∧ total (FreeList pool) = total (FreeList pool') + chunkSize.
Proof.
  intros Hf Hc E fl. destruct (chunk_ok pool chunkSize (fam_pool _ _ _ _ Hf) Hc) as [Hp' H]. rewrite E in Hp', H.
  cbn [fst snd] in Hp', H. destruct H as (Hr&Ht&Hd&Hm).
  assert (∀ x, members r x → members (FreeList pool) x) as Hrp by (intros x Hx; apply Hm; by left).
  assert (disjoint (members (own n)) (members r)) as Hdis.
  { intros x Hx Hx'. apply (fam_G_pool _ _ _ _ Hf n x); [by eapply fam_own_G|auto]. }
  assert (sfl 16 fl) as Hfl by (apply AddRanges_disjoint; [apply (fam_own _ _ _ _ Hf)|done|done]).
  destruct (AddRanges_ok 16 r (NewFromRanges (own n))) as [_ Ha]; [apply sfl_wfl, (fam_own _ _ _ _ Hf)|apply Hr|].
  split_and!; [|exact Ha| |].
  - eapply fam_grant; [exact Hf|exact Hfl|exact Hp'| | | |].
    + intros x [Hx|Hx]%Ha; [left; by eapply fam_own_G|by right].
    + intros m x Hx Hg. exfalso. by apply (fam_G_pool _ _ _ _ Hf m x Hg), Hrp.
    + intros x Hx. by apply (fam_pool_conf _ _ _ _ Hf), Hrp.
    + intros x Hx. split; [apply Hm; by right|]. intros Hx'. by apply (Hd x).
  - rewrite <- Ht. apply (total_union 16); [apply (fam_own _ _ _ _ Hf)|done|done|done|exact Ha].
  - rewrite <- Ht, Z.add_comm. apply (total_union 16); [done|done|apply (fam_pool _ _ _ _ Hf)|done|done].
Qed.

Lemma fam_ext conf pool own own' G :
  (∀ n, own' n = own n) → fam_ok conf pool own G → fam_ok conf pool own' G.
Proof.
  intros E []. split; auto; intros n; rewrite E; auto.
Qed.

(** *** Asking for a chunk *)

(** [allocateIpChunk] on one family: the ranges of the node and the pool. *)
Definition fam_alloc (chunk pods : Z) (fl : list IpRange) (pool : IpAlloc) : bool * list IpRange * IpAlloc :=
  if int64 (GetSize (NewFromRanges fl) - Z.quot chunk 2) <? pods then
    match GetIpChunk pool chunk with
    | (pool', Some r) => (true, FreeList (AddRanges (NewFromRanges fl) r), pool')
    | (pool', None) => (false, fl, pool')
    end
  else (false, fl, pool).

(** The same where the family has addresses at all. *)
Definition fam_check (conf : IpAlloc) (chunk pods : Z) (fl : list IpRange) (pool : IpAlloc)
  : bool * list IpRange * IpAlloc :=
  if negb (Empty conf) then fam_alloc chunk pods fl pool else (false, fl, pool).

(** What a node has is enough: half a chunk more than its pods. *)
Definition enough (chunk pods : Z) (fl : list IpRange) : Prop :=
  pods <= int64 (GetSize (NewFromRanges fl) - Z.quot chunk 2).

Lemma fam_check_ok conf pool own G n chunk pods :
  fam_ok (FreeList conf) (FreeList pool) own G → 0 <= chunk <= MaxInt64 →
  let '(b, fl, pool') := fam_check conf chunk pods (own n) pool in
  (∃ P, fam_ok (FreeList conf) (FreeList pool') (upd n fl own) (grant n P G) ∧
        ∀ x, members fl x ↔ members (own n) x ∨ P x) ∧
  if b then total fl = total (own n) + chunk ∧ total (FreeList pool) = total (FreeList pool') + chunk
  else fl = own n ∧ total (FreeList pool') = total (FreeList pool) ∧
       (Empty conf = true ∨ enough chunk pods fl ∨ total (FreeList pool') < chunk).
Proof.
  intros Hf Hc. unfold fam_check.
  assert (Hsame : ∀ pool', sfl 16 (FreeList pool') → (∀ x, members (FreeList pool) x ↔ members (FreeList pool') x) →
    (∃ P, fam_ok (FreeList conf) (FreeList pool') (upd n (own n) own) (grant n P G) ∧
        ∀ x, members (own n) x ↔ members (own n) x ∨ P x) ∧ total (FreeList pool') = total (FreeList pool)).
  { intros pool' Hs Hm. split.
    - exists (λ _, False). split; [|intros; tauto]. eapply fam_grant; [exact Hf|apply (fam_own _ _ _ _ Hf)|done| |done|done|].
      + intros x Hx. left. by eapply fam_own_G.
      + intros x Hx%Hm. tauto.
    - pose proof (total_union 16 (FreeList pool) [] (FreeList pool')) as H. rewrite H; [simpl; lia|apply (fam_pool _ _ _ _ Hf)|apply sfl_nil|done| |].
      + intros x _ Hx. by apply members_nil in Hx.
      + intros x. rewrite <- Hm, members_nil. tauto. }
  destruct (Empty conf) eqn:Ee; cbn [negb].
  { destruct (Hsame pool (fam_pool _ _ _ _ Hf)) as [H1 H2]; [done|]. split; [done|]. split_and!; [done|done|by left]. }
  unfold fam_alloc. destruct (Z.ltb_spec (int64 (GetSize (NewFromRanges (own n)) - Z.quot chunk 2)) pods) as [Hlt|Hge].
  - pose proof (chunk_ok pool chunk (fam_pool _ _ _ _ Hf) Hc) as [Hp' Hpost].
    destruct (GetIpChunk pool chunk) as [pool' [r|]] eqn:E; cbn [fst snd] in Hp', Hpost.
    + destruct (chunk_grant _ _ _ _ n _ _ _ Hf Hc E) as (H1&H2&H3&H4). split; [by exists (members r)|done].
    + destruct Hpost as [Hlt' Hm]. destruct (Hsame pool' Hp' Hm) as [H1 H2]. split; [done|]. split_and!; [done|done|].
      right. right. lia.
  - destruct (Hsame pool (fam_pool _ _ _ _ Hf)) as [H1 H2]; [done|]. split; [done|]. split_and!; [done|done|].
    right. by left.
Qed.

(** ** The state *)

Definition podnet_of (s : NodeState) (n : string) : nodePodNetMeta :=
  default newNodePodNetMeta (nodePodNetCache s !! n).
Definition own4 (s : NodeState) (n : string) : list IpRange := V4 (podNetIps (podnet_of s n)).
Definition own6 (s : NodeState) (n : string) : list IpRange := V6 (podNetIps (podnet_of s n)).

(** The annotation that the controller wants a node to have. *)
Definition ann_ok (m : nodePodNetMeta) : Prop :=
  Unmarshal (podNetIpsAnnotation m) = Some (podNetIps m) ∨
  podNetIpsAnnotation m = Raw EmptyString ∧ podNetIps m = mkNetIps [] [].

Record pn_ok (s : NodeState) (G4 G6 : grants) : Prop := {
  pn_4 : fam_ok (FreeList (p4 (configuredPodNetworkIps s))) (FreeList (p4 (podNetworkIps s))) (own4 s) G4;
  pn_6 : fam_ok (FreeList (p6 (configuredPodNetworkIps s))) (FreeList (p6 (podNetworkIps s))) (own6 s) G6;
  pn_ann : ∀ n, ann_ok (podnet_of s n)
}.

Lemma podnet_of_set n m m' s : podnet_of (set_podnet n m s) m' = if decide (m' = n) then m else podnet_of s m'.
Proof.
  unfold podnet_of, set_podnet. cbn [nodePodNetCache]. destruct (decide (m' = n)) as [->|].
  - by rewrite lookup_insert_eq.
  - by rewrite lookup_insert_ne.
Qed.

Lemma recompute_ann m : ips_ok (podNetIps m) → ann_ok (recomputePodNetAnnotation m).
Proof.
  intros H. destruct (Marshal_roundtrip _ H) as (t&E&U). left. unfold recomputePodNetAnnotation. cbn. by rewrite E.
Qed.

Lemma new_ann_ok : ann_ok newNodePodNetMeta.
Proof. by right. Qed.

(** Two states that agree on what the pod networks use. *)
Definition same_podnet (s s' : NodeState) : Prop :=
  configuredPodNetworkIps s' = configuredPodNetworkIps s ∧ podNetworkIps s' = podNetworkIps s ∧
  ∀ n, podnet_of s' n = podnet_of s n.

Lemma same_podnet_ok s s' G4 G6 : same_podnet s s' → pn_ok s G4 G6 → pn_ok s' G4 G6.
Proof.
  intros (E1&E2&E3) []. split; rewrite ?E1, ?E2.
  - eapply fam_ext; [|done]. intros n. unfold own4. by rewrite E3.
  - eapply fam_ext; [|done]. intros n. unfold own6. by rewrite E3.
  - intros n. by rewrite E3.
Qed.

(** A new entry of the cache and a new pool, family by family. *)
Lemma pn_set s n m pools G4 G6 :
  fam_ok (FreeList (p4 (configuredPodNetworkIps s))) (FreeList (p4 pools)) (upd n (V4 (podNetIps m)) (own4 s)) G4 →
  fam_ok (FreeList (p6 (configuredPodNetworkIps s))) (FreeList (p6 pools)) (upd n (V6 (podNetIps m)) (own6 s)) G6 →
  (∀ k, ann_ok (podnet_of s k)) → ann_ok m →
  pn_ok (set_podnet n m (set_pool pools s)) G4 G6.
Proof.
  intros H4 H6 Ha Hm. split.
  - eapply fam_ext; [|exact H4]. intros k. unfold own4, upd. rewrite podnet_of_set. by destruct (decide (k = n)).
  - eapply fam_ext; [|exact H6]. intros k. unfold own6, upd. rewrite podnet_of_set. by destruct (decide (k = n)).
  - intros k. rewrite podnet_of_set. destruct (decide (k = n)); [done|apply Ha].
Qed.

(** ** Reading an annotation *)

(** What a text says of the ranges of node [n] fits what the others have. *)
Definition text_fits (s : NodeState) (G4 G6 : grants) (n : string) (t : text) : Prop :=
  ∀ v, Unmarshal t = Some v →
    ips_ok v ∧
    (∀ m x, members (V4 v) x → members (FreeList (p4 (configuredPodNetworkIps s))) x → G4 m x → m = n) ∧
    (∀ m x, members (V6 v) x → members (FreeList (p6 (configuredPodNetworkIps s))) x → G6 m x → m = n).

(** The addresses of one family that a text gives, within the configured ones. *)
Definition text4 (s : NodeState) (t : text) (x : Z) : Prop :=
  ∃ v, Unmarshal t = Some v ∧ members (V4 v) x ∧ members (FreeList (p4 (configuredPodNetworkIps s))) x.
Definition text6 (s : NodeState) (t : text) (x : Z) : Prop :=
  ∃ v, Unmarshal t = Some v ∧ members (V6 v) x ∧ members (FreeList (p6 (configuredPodNetworkIps s))) x.

Lemma fam_grant_iff conf pool own G n P Q :
  (∀ x, P x ↔ Q x) → fam_ok conf pool own (grant n P G) → fam_ok conf pool own (grant n Q G).
Proof.
  intros E []. assert (∀ m x, grant n P G m x ↔ grant n Q G m x) as E' by (intros; unfold grant; rewrite E; tauto).
  split; auto; intros *; rewrite <- ?E'; eauto.
Qed.

Lemma syncPodNet_ok s G4 G6 node t :
  pn_ok s G4 G6 → ann_PodNet node = Some t → text_fits s G4 G6 (node_Name node) t →
  pn_ok (syncPodNet node s) (grant (node_Name node) (text4 s t) G4) (grant (node_Name node) (text6 s t) G6) ∧
  (∀ x, members (own4 (syncPodNet node s) (node_Name node)) x ↔ text4 s t x) ∧
  (∀ x, members (own6 (syncPodNet node s) (node_Name node)) x ↔ text6 s t x) ∧
  (∀ m, m ≠ node_Name node → podnet_of (syncPodNet node s) m = podnet_of s m) ∧
  configuredPodNetworkIps (syncPodNet node s) = configuredPodNetworkIps s ∧
  (∀ x, members (FreeList (p4 (podNetworkIps (syncPodNet node s)))) x ↔
     members (FreeList (p4 (podNetworkIps s))) x ∧ ∀ v, Unmarshal t = Some v → ¬ members (V4 v) x) ∧
  (∀ x, members (FreeList (p6 (podNetworkIps (syncPodNet node s)))) x ↔
     members (FreeList (p6 (podNetworkIps s))) x ∧ ∀ v, Unmarshal t = Some v → ¬ members (V6 v) x).
Proof.
  intros [F4 F6 Ha] Et Hfit. unfold syncPodNet. rewrite Et. unfold mergePodNet.
  destruct (Unmarshal t) as [v|] eqn:Eu.
  - destruct (Hfit v Eu) as ([S4 S6]&D4&D6). cbn [newNodePodNetMeta podNetIps V4 V6 nodePods podNetIpsAnnotation].
    pose proof (merge_family_ok _ _ _ _ (node_Name node) (V4 v) F4 S4 D4) as M4.
    pose proof (merge_family_ok _ _ _ _ (node_Name node) (V6 v) F6 S6 D6) as M6.
    destruct (merge_family _ _ [] (V4 v)) as [v4 pool4]. destruct (merge_family _ _ [] (V6 v)) as [v6 pool6].
    destruct M4 as (M4&I4&Q4), M6 as (M6&I6&Q6).
    assert (∀ x, text4 s t x ↔ members (V4 v) x ∧ members (FreeList (p4 (configuredPodNetworkIps s))) x) as T4.
    { intros x. unfold text4. rewrite Eu. split; [intros (?&[= <-]&?); done|]. intros H. by exists v. }
    assert (∀ x, text6 s t x ↔ members (V6 v) x ∧ members (FreeList (p6 (configuredPodNetworkIps s))) x) as T6.
    { intros x. unfold text6. rewrite Eu. split; [intros (?&[= <-]&?); done|]. intros H. by exists v. }
    split_and!.
    + apply pn_set; cbn [podNetIps recomputePodNetAnnotation V4 V6 p4 p6].
      * eapply fam_grant_iff; [|exact M4]. intros x. by rewrite T4.
      * eapply fam_grant_iff; [|exact M6]. intros x. by rewrite T6.
      * exact Ha.
      * apply recompute_ann. pose proof (fam_own _ _ _ _ M4 (node_Name node)) as O4.
        pose proof (fam_own _ _ _ _ M6 (node_Name node)) as O6. unfold upd in O4, O6. by rewrite decide_True in O4, O6.
    + intros x. unfold own4. rewrite podnet_of_set, decide_True, T4 by done. apply I4.
    + intros x. unfold own6. rewrite podnet_of_set, decide_True, T6 by done. apply I6.
    + intros m Hm. rewrite podnet_of_set, decide_False by done. done.
    + done.
    + intros x. cbn. rewrite (Q4 x). split; intros [Hx Hv]; (split; [done|]); [by intros ? [= <-]|by apply Hv].
    + intros x. cbn. rewrite (Q6 x). split; intros [Hx Hv]; (split; [done|]); [by intros ? [= <-]|by apply Hv].
  - assert (∀ x, ¬ text4 s t x) as N4 by (intros x (?&?&?); congruence).
    assert (∀ x, ¬ text6 s t x) as N6 by (intros x (?&?&?); congruence).
    assert (s = set_pool (podNetworkIps s) s) as Es by (by destruct s).
    split_and!.
    + rewrite Es at 1. apply pn_set; [| |exact Ha|exact new_ann_ok].
      * eapply fam_grant; [exact F4|apply sfl_nil|apply (fam_pool _ _ _ _ F4)| | | |].
        { intros x Hx. by apply members_nil in Hx. } { intros m x []%N4. } { intros x []%N4. }
        intros x Hx. split; [done|apply N4].
      * eapply fam_grant; [exact F6|apply sfl_nil|apply (fam_pool _ _ _ _ F6)| | | |].
        { intros x Hx. by apply members_nil in Hx. } { intros m x []%N6. } { intros x []%N6. }
        intros x Hx. split; [done|apply N6].
    + intros x. unfold own4. rewrite podnet_of_set, decide_True by done. cbn. rewrite members_nil. specialize (N4 x). tauto.
    + intros x. unfold own6. rewrite podnet_of_set, decide_True by done. cbn. rewrite members_nil. specialize (N6 x). tauto.
    + intros m Hm. rewrite podnet_of_set, decide_False by done. done.
    + done.
    + intros x. split; [|tauto]. intros Hx. by split.
    + intros x. split; [|tauto]. intros Hx. by split.
Qed.

(** ** Checking a node *)

Definition with_pool4 (p : IpAlloc) (s : NodeState) : NodeState := set_pool (mkPools p (p6 (podNetworkIps s))) s.
Definition with_pool6 (p : IpAlloc) (s : NodeState) : NodeState := set_pool (mkPools (p4 (podNetworkIps s)) p) s.

Lemma with_pool_same s : with_pool4 (p4 (podNetworkIps s)) s = s ∧ with_pool6 (p6 (podNetworkIps s)) s = s.
Proof. destruct s as [? [? ?] ? ? ? ? ? ? ? ? ?]. done. Qed.

(** The pods of a node as a number. *)
Definition pods_of (m : nodePodNetMeta) : Z := Z.of_nat (base.size (nodePods m)).

Lemma check_family4 cfg m s :
  check_family cfg true m s =
  let '(b, fl, pool) := fam_check (p4 (configuredPodNetworkIps s)) (PodIpPoolChunkSize cfg) (pods_of m)
                          (V4 (podNetIps m)) (p4 (podNetworkIps s)) in
  (b, if b : bool then recomputePodNetAnnotation (mkPodNet (nodePods m) (mkNetIps fl (V6 (podNetIps m))) (podNetIpsAnnotation m))
      else m, with_pool4 pool s).
Proof.
  unfold check_family, fam_check, fam_alloc, allocateIpChunk, pods_of. destruct (with_pool_same s) as [Hs _].
  destruct (Empty _); cbn [negb]; [by rewrite Hs|]. destruct (_ <? _)%Z; [|by rewrite Hs].
  by destruct (GetIpChunk _ _) as [pool [r|]].
Qed.

Lemma check_family6 cfg m s :
  check_family cfg false m s =
  let '(b, fl, pool) := fam_check (p6 (configuredPodNetworkIps s)) (PodIpPoolChunkSize cfg) (pods_of m)
                          (V6 (podNetIps m)) (p6 (podNetworkIps s)) in
  (b, if b : bool then recomputePodNetAnnotation (mkPodNet (nodePods m) (mkNetIps (V4 (podNetIps m)) fl) (podNetIpsAnnotation m))
      else m, with_pool6 pool s).
Proof.
  unfold check_family, fam_check, fam_alloc, allocateIpChunk, pods_of. destruct (with_pool_same s) as [_ Hs].
  destruct (Empty _); cbn [negb]; [by rewrite Hs|]. destruct (_ <? _)%Z; [|by rewrite Hs].
  by destruct (GetIpChunk _ _) as [pool [r|]].
Qed.

(** What a check leaves of one family: the node has grown by a chunk, or it
    has enough, or there is no chunk left. *)
Definition checked (conf : IpAlloc) (chunk pods : Z) (b : bool) (fl fl' : list IpRange) (pool pool' : IpAlloc) : Prop :=
  if b then total fl' = total fl + chunk ∧ total (FreeList pool) = total (FreeList pool') + chunk
  else fl' = fl ∧ total (FreeList pool') = total (FreeList pool) ∧
       (Empty conf = true ∨ enough chunk pods fl' ∨ total (FreeList pool') < chunk).

Lemma checkNodePodNet_ok cfg s G4 G6 n :
  pn_ok s G4 G6 → 0 <= PodIpPoolChunkSize cfg <= MaxInt64 → is_Some (nodePodNetCache s !! n) →
  let s' := checkNodePodNet cfg n s in
  let pods := pods_of (podnet_of s n) in
  ∃ b4 b6 P4 P6,
    pn_ok s' (grant n P4 G4) (grant n P6 G6) ∧
    ((∀ x, members (own4 s' n) x ↔ members (own4 s n) x ∨ P4 x) ∧
     (∀ x, members (own6 s' n) x ↔ members (own6 s n) x ∨ P6 x)) ∧
    checked (p4 (configuredPodNetworkIps s)) (PodIpPoolChunkSize cfg) pods b4 (own4 s n) (own4 s' n)
      (p4 (podNetworkIps s)) (p4 (podNetworkIps s')) ∧
    checked (p6 (configuredPodNetworkIps s)) (PodIpPoolChunkSize cfg) pods b6 (own6 s n) (own6 s' n)
      (p6 (podNetworkIps s)) (p6 (podNetworkIps s')) ∧
    nodePods (podnet_of s' n) = nodePods (podnet_of s n) ∧ (b4 || b6 = false → podnet_of s' n = podnet_of s n) ∧
    (∀ m, m ≠ n → podnet_of s' m = podnet_of s m) ∧ is_Some (nodePodNetCache s' !! n) ∧
    configuredPodNetworkIps s' = configuredPodNetworkIps s ∧ nodeSyncEnabled s' = nodeSyncEnabled s ∧
    node_effects s' = (node_effects s ++ (if b4 || b6 then [PodNetworkChanged n] else []))%list.
Proof.
  intros [F4 F6 Ha] Hc [m Em]. cbn zeta.
  assert (podnet_of s n = m) as Epo by (unfold podnet_of; by rewrite Em). rewrite Epo.
  assert (own4 s n = V4 (podNetIps m)) as Eo4 by (unfold own4; by rewrite Epo).
  assert (own6 s n = V6 (podNetIps m)) as Eo6 by (unfold own6; by rewrite Epo).
  assert (Ham : ann_ok m) by (rewrite <- Epo; apply Ha).
  unfold checkNodePodNet. rewrite Em, check_family4.
  pose proof (fam_check_ok _ _ _ _ n (PodIpPoolChunkSize cfg) (pods_of m) F4 Hc) as C4. rewrite Eo4 in C4.
  destruct (fam_check _ _ _ (V4 _) _) as [[b4 fl4] q4]. destruct C4 as [(P4&W4&I4) C4].
  set (m1 := if b4 then _ else m). rewrite check_family6.
  assert (pods_of m1 = pods_of m ∧ nodePods m1 = nodePods m ∧ V6 (podNetIps m1) = V6 (podNetIps m) ∧ V4 (podNetIps m1) = fl4)
    as (E1&E1'&E2&E3).
  { unfold m1. destruct b4; [done|]. by destruct C4 as [-> _]. }
  rewrite E1, E2. change (configuredPodNetworkIps (with_pool4 q4 s)) with (configuredPodNetworkIps s).
  change (p6 (podNetworkIps (with_pool4 q4 s))) with (p6 (podNetworkIps s)).
  pose proof (fam_check_ok _ _ _ _ n (PodIpPoolChunkSize cfg) (pods_of m) F6 Hc) as C6. rewrite Eo6 in C6.
  destruct (fam_check _ _ _ (V6 _) _) as [[b6 fl6] q6]. destruct C6 as [(P6&W6&I6) C6].
  set (m2 := if b6 then _ else m1).
  assert (podNetIps m2 = mkNetIps fl4 fl6) as E4.
  { unfold m2. destruct b6; cbn; [by rewrite E3|]. destruct C6 as [-> _]. rewrite <- E2, <- E3. by destruct (podNetIps m1). }
  assert (nodePods m2 = nodePods m) as E5 by (unfold m2; destruct b6; cbn; done).
  assert (b4 || b6 = false → m2 = m) as E6 by (unfold m2, m1; by destruct b4, b6).
  set (s1 := set_podnet n m2 _).
  assert (s1 = set_podnet n m2 (set_pool (mkPools q4 q6) s)) as Es1 by done.
  assert (Hpn : pn_ok s1 (grant n P4 G4) (grant n P6 G6)).
  { rewrite Es1. apply pn_set; rewrite ?E4; cbn [V4 V6 p4 p6]; [done|done|done|].
    assert (ips_ok (mkNetIps fl4 fl6)) as Hi.
    { pose proof (fam_own _ _ _ _ W4 n) as O4. pose proof (fam_own _ _ _ _ W6 n) as O6. unfold upd in O4, O6.
      by rewrite decide_True in O4, O6. }
    unfold m2 in *. destruct b6.
    - apply recompute_ann. by rewrite <- E4 in Hi.
    - unfold m1 in *. destruct b4; [|done]. apply recompute_ann. by rewrite <- E4 in Hi. }
  assert (podnet_of s1 n = m2) as Ep1 by (unfold s1; by rewrite podnet_of_set, decide_True).
  assert (own4 s1 n = fl4 ∧ own6 s1 n = fl6) as [O4 O6] by (unfold own4, own6; by rewrite Ep1, E4).
  assert (∀ k, k ≠ n → podnet_of s1 k = podnet_of s k) as Hoth.
  { intros k Hk. unfold s1. by rewrite podnet_of_set, decide_False. }
  exists b4, b6, P4, P6.
  assert (∀ s2, s2 = s1 ∨ s2 = node_emit [PodNetworkChanged n] s1 → pn_ok s2 (grant n P4 G4) (grant n P6 G6) ∧
    (own4 s2 n = fl4 ∧ own6 s2 n = fl6) ∧ podnet_of s2 n = m2 ∧ (∀ k, k ≠ n → podnet_of s2 k = podnet_of s k) ∧
    is_Some (nodePodNetCache s2 !! n) ∧ podNetworkIps s2 = mkPools q4 q6) as Hs2.
  { intros s2 [->| ->]; (split_and!; [|done|done|done|done| |done]); try exact Hpn.
    - unfold s1. cbn [set_podnet nodePodNetCache]. by rewrite lookup_insert_eq.
    - eapply same_podnet_ok; [|exact Hpn]. done.
    - unfold s1. cbn [node_emit set_podnet nodePodNetCache]. by rewrite lookup_insert_eq. }
  destruct (b4 || b6) eqn:Eb.
  - destruct (Hs2 _ (or_intror eq_refl)) as (H1&[-> ->]&->&H4&H5&->). rewrite Eo4, Eo6. cbn [p4 p6].
    split_and!; auto.
  - destruct (Hs2 _ (or_introl eq_refl)) as (H1&[-> ->]&->&H4&H5&->). rewrite Eo4, Eo6. cbn [p4 p6].
    split_and!; auto. unfold s1. cbn. by rewrite app_nil_r.
Qed.

(** ** The handlers *)

(** A handler may give addresses away but takes none back, and touches no other
    node. *)
Definition more (G G' : grants) : Prop := ∀ n x, G n x → G' n x.
Lemma more_refl G : more G G.
Proof. by intros ? ?. Qed.
Lemma more_trans G1 G2 G3 : more G1 G2 → more G2 G3 → more G1 G3.
Proof. intros H1 H2 ? ? ?. auto. Qed.
#[export] Hint Resolve more_refl : core.

Record pn_step (n : string) (s s' : NodeState) : Prop := {
  st_conf : configuredPodNetworkIps s' = configuredPodNetworkIps s;
  st_others : ∀ m, m ≠ n → podnet_of s' m = podnet_of s m;
  st_ok : ∀ G4 G6, pn_ok s G4 G6 → ∃ G4' G6', more G4 G4' ∧ more G6 G6' ∧ pn_ok s' G4' G6'
}.

Lemma pn_step_same n s s' : same_podnet s s' → pn_step n s s'.
Proof.
  intros H. pose proof H as (E1&E2&E3). split; [done|intros; apply E3|]. intros G4 G6 Hp. exists G4, G6. split_and!; [done|done|].
  by eapply same_podnet_ok.
Qed.

Lemma pn_step_trans n s1 s2 s3 : pn_step n s1 s2 → pn_step n s2 s3 → pn_step n s1 s3.
Proof.
  intros [A1 A2 A3] [B1 B2 B3]. split; [congruence| |].
  - intros m Hm. rewrite B2, A2; done.
  - intros G4 G6 Hp. destruct (A3 _ _ Hp) as (H4&H6&M4&M6&Hp'). destruct (B3 _ _ Hp') as (I4&I6&N4&N6&Hp'').
    exists I4, I6. split_and!; [by eapply more_trans|by eapply more_trans|done].
Qed.

(** The pods of a node do not matter for the addresses. *)
Lemma pn_step_pods n pods s :
  pn_step n s (set_podnet n (mkPodNet pods (podNetIps (podnet_of s n)) (podNetIpsAnnotation (podnet_of s n))) s).
Proof.
  split; [done|intros m Hm; by rewrite podnet_of_set, decide_False|]. intros G4 G6 [F4 F6 Ha]. exists G4, G6. split_and!; [done|done|].
  split; [eapply fam_ext, F4|eapply fam_ext, F6|].
  - intros k. unfold own4. rewrite podnet_of_set. by destruct (decide (k = n)) as [->|].
  - intros k. unfold own6. rewrite podnet_of_set. by destruct (decide (k = n)) as [->|].
  - intros k. rewrite podnet_of_set. destruct (decide (k = n)) as [->|]; [|apply Ha]. apply (Ha n).
Qed.

Lemma pn_step_check cfg n s :
  0 <= PodIpPoolChunkSize cfg <= MaxInt64 → pn_step n s (checkNodePodNet cfg n s).
Proof.
  intros Hc. destruct (nodePodNetCache s !! n) as [m|] eqn:E.
  2:{ apply pn_step_same. unfold checkNodePodNet. by rewrite E. }
  assert (configuredPodNetworkIps (checkNodePodNet cfg n s) = configuredPodNetworkIps s ∧
    ∀ k, k ≠ n → podnet_of (checkNodePodNet cfg n s) k = podnet_of s k) as [H1 H2].
  { unfold checkNodePodNet. rewrite E, check_family4. destruct (fam_check _ _ _ (V4 _) _) as [[b4 fl4] q4].
    rewrite check_family6. destruct (fam_check _ _ _ (V6 _) _) as [[b6 fl6] q6].
    destruct (b4 || b6); (split; [done|]); intros k Hk.
    - unfold podnet_of, node_emit, set_podnet. cbn [nodePodNetCache]. by rewrite lookup_insert_ne.
    - by rewrite podnet_of_set, decide_False. }
  split; [done|done|]. intros G4 G6 Hp.
  destruct (checkNodePodNet_ok cfg s G4 G6 n Hp Hc) as (b4&b6&P4&P6&Hok&_); [by eexists|].
  exists (grant n P4 G4), (grant n P6 G6). split_and!; [intros ? ?; apply grant_l|intros ? ?; apply grant_l|done].
Qed.

Lemma podnet_of_default s n : default newNodePodNetMeta (nodePodNetCache s !! n) = podnet_of s n.
Proof. done. Qed.

Lemma pn_step_own n s : pn_step n s (set_podnet n (podnet_of s n) s).
Proof. destruct (podnet_of s n) as [pods ips ann] eqn:E. pose proof (pn_step_pods n pods s) as H. by rewrite E in H. Qed.

Lemma pn_step_add cfg n key s :
  0 <= PodIpPoolChunkSize cfg <= MaxInt64 → pn_step n s (addPodToNode cfg n key s).
Proof.
  intros Hc. unfold addPodToNode. rewrite podnet_of_default. destruct (bool_decide _); [apply pn_step_own|].
  eapply pn_step_trans; [apply pn_step_own|]. set (s1 := set_podnet n (podnet_of s n) s).
  assert (podnet_of s1 n = podnet_of s n) as E by (unfold s1; by rewrite podnet_of_set, decide_True).
  rewrite <- E. eapply pn_step_trans; [apply pn_step_pods|by apply pn_step_check].
Qed.

Lemma pn_step_remove cfg n key s :
  0 <= PodIpPoolChunkSize cfg <= MaxInt64 → pn_step n s (removePodFromNode cfg n key s).
Proof.
  intros Hc. unfold removePodFromNode. destruct (nodePodNetCache s !! n) as [m|] eqn:E; [|by apply pn_step_same].
  assert (podnet_of s n = m) as Em by (unfold podnet_of; by rewrite E). rewrite <- Em.
  eapply pn_step_trans; [apply pn_step_pods|by apply pn_step_check].
Qed.

(** *** A changed node *)

Lemma createServiceEndpoint_same cfg rnd existing ep mac n s b ep' s' :
  createServiceEndpoint cfg rnd existing ep mac n s = Some (b, ep', s') →
  same_podnet s s' ∧ nodeSyncEnabled s' = nodeSyncEnabled s.
Proof.
  unfold createServiceEndpoint. destruct (if _ && _ then _ else _) as [mac'|].
  - destruct (service_addr (Ipv4 ep) _ _) as [ip4 pool4], (service_addr (Ipv6 ep) _ _) as [ip6 pool6].
    destruct (_ && _); [by intros [= <- <- <-]|]. destruct (_ && _); [|by intros [= <- <- <-]].
    destruct (NewVnsRedirectHealthGroup _ _); [|done]. by intros [= <- <- <-].
  - by intros [= <- <- <-].
Qed.

Lemma node_service_same cfg rnd node s s' node' u :
  node_service cfg rnd node s = Some (s', node', u) →
  same_podnet s s' ∧ nodeSyncEnabled s' = nodeSyncEnabled s ∧ node_Name node' = node_Name node ∧
  ann_PodNet node' = ann_PodNet node.
Proof.
  unfold node_service. destruct (deviceMacForNode _ _) as [mac|]; [|by intros [= <- <- <-]].
  destruct (nodeSyncEnabled s) eqn:Es; [|by intros [= <- <- <-]].
  destruct (createServiceEndpoint _ _ _ _ _ _ _) as [[[b ep] s1]|] eqn:E; [|done].
  apply createServiceEndpoint_same in E as [H1 H2]. cbn [mbind option_bind]. intros [= H].
  rewrite Es in H2. destruct (MarshalEp ep) as [raw|]; [destruct (bool_decide _)|]; injection H as <- <- <-;
    (split_and!; [exact H1|exact H2|done|done]).
Qed.

Lemma node_podnet_step cfg node s s' node' u :
  0 <= PodIpPoolChunkSize cfg <= MaxInt64 → node_podnet cfg node s = (s', node', u) →
  pn_step (node_Name node) s s' ∧ node_Name node' = node_Name node ∧
  (ann_PodNet node' = ann_PodNet node ∨ ann_PodNet node' = Some (podNetIpsAnnotation (podnet_of s' (node_Name node)))) ∧
  nodeSyncEnabled s' = nodeSyncEnabled s ∧ (nodeSyncEnabled s = true → default (Raw EmptyString) (ann_PodNet node') = podNetIpsAnnotation (podnet_of s' (node_Name node))).
Proof.
  intros Hc. unfold node_podnet. set (s0 := match _ with Some _ => s | None => _ end).
  assert (pn_step (node_Name node) s s0 ∧ nodeSyncEnabled s0 = nodeSyncEnabled s) as [H0 Es0].
  { unfold s0. destruct (nodePodNetCache s !! node_Name node) as [m|] eqn:E; [split; [by apply pn_step_same|done]|].
    assert (newNodePodNetMeta = podnet_of s (node_Name node)) as -> by (unfold podnet_of; by rewrite E).
    split; [apply pn_step_own|done]. }
  rewrite Es0. destruct (nodeSyncEnabled s) eqn:Es.
  2:{ intros [= <- <- <-]. split_and!; [exact H0|done|by left|done|done]. }
  rewrite podnet_of_default. set (s1 := checkNodePodNet cfg (node_Name node) s0).
  assert (nodeSyncEnabled s1 = true) as Es1.
  { unfold s1, checkNodePodNet. destruct (nodePodNetCache s0 !! _); [|congruence].
    rewrite check_family4. destruct (fam_check _ _ _ (V4 _) _) as [[b4 fl4] q4].
    rewrite check_family6. destruct (fam_check _ _ _ (V6 _) _) as [[b6 fl6] q6]. by destruct (b4 || b6). }
  assert (pn_step (node_Name node) s s1) as Hstep by (eapply pn_step_trans; [exact H0|by apply pn_step_check]).
  destruct (bool_decide _) eqn:Eb; intros [= <- <- <-].
  - apply bool_decide_eq_true_1 in Eb. split_and!; auto.
  - split_and!; cbn; auto.
Qed.

Lemma getTunnelID_same cfg driver node s :
  same_podnet s (getTunnelID cfg driver node s).2 ∧ nodeSyncEnabled (getTunnelID cfg driver node s).2 = nodeSyncEnabled s.
Proof.
  unfold getTunnelID. destruct (String.eqb _ _); [done|]. destruct (String.eqb _ _); [done|].
  destruct (match tunnelGetter s with Some t => _ | None => _ end) as [t|]; [|done].
  destruct (nodeToTunnel t !! _); [done|]. destruct (_ <=? _); done.
Qed.

Lemma nodeChanged_step cfg rnd driver node s s' node' :
  0 <= PodIpPoolChunkSize cfg <= MaxInt64 → nodeChanged cfg rnd driver node s = Some (s', node') →
  pn_step (node_Name node) s s' ∧ node_Name node' = node_Name node ∧
  (ann_PodNet node' = ann_PodNet node ∨ ann_PodNet node' = Some (podNetIpsAnnotation (podnet_of s' (node_Name node)))) ∧
  nodeSyncEnabled s' = nodeSyncEnabled s ∧
  (nodeSyncEnabled s = true → ChainedMode cfg = false → default (Raw EmptyString) (ann_PodNet node') = podNetIpsAnnotation (podnet_of s' (node_Name node))).
Proof.
  intros Hc. unfold nodeChanged. destruct (ChainedMode cfg) eqn:Ech; [intros [= <- <-]; split_and!; [by apply pn_step_same|done|by left|done|done]|].
  destruct (node_service _ _ _ _) as [[[s1 node1] u1]|] eqn:E1; [|done]. cbn [mbind option_bind].
  apply node_service_same in E1 as (Sm1&Sy1&Na1&An1).
  destruct (node_podnet _ _ _) as [[s2 node2] u2] eqn:E2. apply node_podnet_step in E2 as (St2&Na2&An2&Sy2&An2'); [|done].
  rewrite Na1, An1, Sy1 in *.
  destruct (node_acipod _ _ _) as [node3 u3] eqn:E3.
  assert (node_Name node3 = node_Name node2 ∧ ann_PodNet node3 = ann_PodNet node2) as [Na3 An3].
  { unfold node_acipod in E3. destruct (_ && _); by injection E3 as <- <-. }
  unfold createNetPolForNode. destruct (apicNodeNetPol _ _ _) as [hpp|]; [|done]. cbn [mbind option_bind].
  unfold writeApicNode. rewrite Ech.
  set (s3 := node_emit _ s2). pose proof (getTunnelID_same cfg driver node3 s3) as [Sm4 Sy4].
  destruct (getTunnelID _ _ _ _) as [id s4]. cbn [snd] in Sm4, Sy4.
  destruct (NewVmmInjectedHost _ _ _ _) as [o|]; [|done]. cbn [mbind option_bind]. intros [= Es <-].
  assert (same_podnet s2 s' ∧ nodeSyncEnabled s' = nodeSyncEnabled s2) as [Sm Sy].
  { rewrite <- Es. destruct (_ || _); by split. }
  pose proof Sm as (_&_&Smo). rewrite Smo, An3, Na3, Sy. split_and!; [|done|done|congruence|auto].
  eapply pn_step_trans; [by apply pn_step_same|]. eapply pn_step_trans; [exact St2|]. by apply pn_step_same.
Qed.

Lemma nodeDeleted_same cfg di dp obj s : same_podnet s (nodeDeleted cfg di dp obj s) ∧
  nodeSyncEnabled (nodeDeleted cfg di dp obj s) = nodeSyncEnabled s.
Proof.
  unfold nodeDeleted. destruct (ChainedMode cfg); [done|]. destruct (as_node obj) as [node|]; [|done].
  repeat case_match; simplify_eq/=; done.
Qed.
