(* ===== verification/HostIpam.v ===== *)
(** * HostIpam: pod addresses on a host

    src/pkg/hostagent/ipam.go, and the parts of src/pkg/hostagent/setup.go and
    src/pkg/metadata/metadata.go that hand addresses to container interfaces
    and record them.  The agent of a node takes the ranges of the node's
    annotation into its cache of free addresses, gives every interface one
    address per family, and keeps the texts of the addresses in use in
    [usedIPs].  The record of a configured container is a file of the metadata
    directory ([cni_dir], by container) and an entry of [epMetadata].

    Creating the interface in the container's namespace is a parameter: the
    host side name and the MAC address, or an error.  Virtual functions of
    network cards, chained mode and the result for the runtime are left out. *)
From S2P Require Import Prelude GoBytes GoNet GoText IpAlloc IpCache PodNet.

Open Scope string_scope.

(** ** Data *)

Record ContainerIfaceIP := mkIfaceIP { if_Address : IPNet; if_Gateway : IP }.
Record ContainerIfaceMd := mkIface {
  HostVethName : string;
  if_Name : string;
  if_Mac : string;
  if_Sandbox : string;
  if_IPs : list ContainerIfaceIP
}.
Record ContainerMetadata := mkMd {
  md_Namespace : string;
  md_Pod : string;
  md_ContId : string;
  Ifaces : list ContainerIfaceMd
}.
Record cniNetConfig := mkNetConfig { nc_Subnet : IPNet; nc_Gateway : IP }.

Record HostAgent := mkAgent {
  NetConfig : option (list cniNetConfig);
  podIps : IpCache;
  usedIPs : gmap string string;
  podNetAnnotation : text;
  epMetadata : gmap string (gmap string ContainerMetadata);
  cni_dir : gmap string ContainerMetadata
}.

Definition set_ips (c : IpCache) (u : gmap string string) (a : HostAgent) : HostAgent :=
  mkAgent (NetConfig a) c u (podNetAnnotation a) (epMetadata a) (cni_dir a).
Definition set_ann (t : text) (a : HostAgent) : HostAgent :=
  mkAgent (NetConfig a) (podIps a) (usedIPs a) t (epMetadata a) (cni_dir a).
Definition set_md (e : gmap string (gmap string ContainerMetadata)) (d : gmap string ContainerMetadata) (a : HostAgent)
  : HostAgent := mkAgent (NetConfig a) (podIps a) (usedIPs a) (podNetAnnotation a) e d.

Definition ip_of (i : ContainerIfaceIP) : IP := net_IP (if_Address i).

(** ** Addresses in use *)

Definition makePodKey (ns name : string) : string := ns ++ "." ++ name.

Definition md_ips (md : ContainerMetadata) : list IP := flat_map (λ i, map ip_of (if_IPs i)) (Ifaces md).

Definition buildUsedIPs (a : HostAgent) : HostAgent :=
  set_ips (podIps a)
    (foldl (λ used md,
       foldl (λ used ip, <[IP_String ip := makePodKey (md_Namespace md) (md_Pod md)]> used) used (md_ips md))
       ∅ (flat_map (λ p, snd <$> map_to_list (snd p)) (map_to_list (epMetadata a)))) a.

Definition rebuildIpam (a : HostAgent) : HostAgent :=
  set_ips
    (foldl (λ c p, match ParseIP p.1 with Some ip => (IpCache.RemoveIp c ip).1 | None => c end)
       (podIps a) (map_to_list (usedIPs a))) (usedIPs a) a.

Definition updateIpamAnnotation (newPodNetAnnotation : text) (a : HostAgent) : HostAgent :=
  if bool_decide (podNetAnnotation a = newPodNetAnnotation) then a
  else
    let a := set_ann newPodNetAnnotation a in
    match Unmarshal newPodNetAnnotation with
    | None => a
    | Some newRanges =>
        rebuildIpam (set_ips (LoadRanges (LoadRanges NewIpCache (V4 newRanges)) (V6 newRanges)) (usedIPs a) a)
    end.

(** ** Giving and taking addresses *)

(** The gateway and the mask of the first subnet that has the address; a nil
    mask is empty. *)
Definition getIPMetadata (a : HostAgent) (ip : IP) : IP * list Z :=
  match List.find (λ n, Contains (nc_Subnet n) ip) (default [] (NetConfig a)) with
  | Some n => (nc_Gateway n, net_Mask (nc_Subnet n))
  | None => ([], [])
  end.

Definition makeIFaceIp (ip gw : IP) (mask : list Z) : ContainerIfaceIP := mkIfaceIP (mkNet ip mask) gw.

(** The loop's variables: the agent, the addresses of the interface and
    whether there was an error. *)
Record alloc_state := mkAlloc_ { al_agent : HostAgent; al_ips : list ContainerIfaceIP; al_err : bool }.

Definition allocIP (podKey : string) (isv4 : bool) (st : alloc_state) : bool * alloc_state :=
  let a := al_agent st in
  match AllocateIp (podIps a) isv4 with
  | (c, None) => (false, mkAlloc_ (set_ips c (usedIPs a) a) (al_ips st) true)
  | (c, Some ip) =>
      let '(gateway, mask) := getIPMetadata a ip in
      if (length mask =? 0)%nat then (false, mkAlloc_ (set_ips c (usedIPs a) a) (al_ips st) (al_err st))
      else
        (true, mkAlloc_ (set_ips c (<[IP_String ip := podKey]> (usedIPs a)) a)
                 (al_ips st ++ [makeIFaceIp ip gateway mask])%list (al_err st))
  end.

Fixpoint alloc_loop (podKey : string) (ncs : list cniNetConfig) (v4Allocated v6Allocated : bool) (st : alloc_state)
  : alloc_state :=
  match ncs with
  | [] => st
  | nc :: ncs =>
      let subnet := net_IP (nc_Subnet nc) in
      if (length subnet =? 0)%nat then alloc_loop podKey ncs v4Allocated v6Allocated st
      else if bool_decide (is_Some (To4 subnet)) && negb v4Allocated then
        let '(b, st) := allocIP podKey true st in alloc_loop podKey ncs b v6Allocated st
      else if bool_decide (is_Some (To16 subnet)) && negb v6Allocated then
        let '(b, st) := allocIP podKey false st in alloc_loop podKey ncs v4Allocated b st
      else alloc_loop podKey ncs v4Allocated v6Allocated st
  end.

(** One address goes back; an address that is neither nil nor of four or
    sixteen bytes stays. *)
Definition dealloc_ip (a : HostAgent) (ip : IP) : HostAgent :=
  if (length ip =? 0)%nat then a
  else if bool_decide (is_Some (To4 ip)) || bool_decide (is_Some (To16 ip)) then
    set_ips (DeallocateIp (podIps a) ip) (delete (IP_String ip) (usedIPs a)) a
  else a.

Definition deallocateIpsLocked (ips : list ContainerIfaceIP) (a : HostAgent) : HostAgent :=
  foldl dealloc_ip a (map ip_of ips).

(** The agent, the addresses of the interface and whether there was an
    error. *)
Definition allocateIps (ips : list ContainerIfaceIP) (podKey : string) (a : HostAgent)
  : HostAgent * list ContainerIfaceIP * bool :=
  let st := alloc_loop podKey (default [] (NetConfig a)) false false (mkAlloc_ a ips false) in
  if al_err st then (deallocateIpsLocked (al_ips st) (al_agent st), [], true)
  else (al_agent st, al_ips st, false).

Definition deallocateMdIps (md : ContainerMetadata) (a : HostAgent) : HostAgent :=
  match NetConfig a with
  | None => a
  | Some _ => foldl dealloc_ip a (md_ips md)
  end.

(** ** Configuring a container *)

Section Setup.
(** runSetupVeth: the host side name and the MAC address; runSetupNetwork
    succeeds; writing and removing a file of the metadata directory succeeds. *)
Context (runSetupVeth : ContainerIfaceMd → option IP → option (string * string)).
Context (runSetupNetwork : ContainerIfaceMd → bool).
Context (recordOk clearOk : string → bool).

Definition with_ips (i : ContainerIfaceMd) (ips : list ContainerIfaceIP) : ContainerIfaceMd :=
  mkIface (HostVethName i) (if_Name i) (if_Mac i) (if_Sandbox i) ips.
Definition with_veth (i : ContainerIfaceMd) (v : string * string) : ContainerIfaceMd :=
  mkIface v.1 (if_Name i) v.2 (if_Sandbox i) (if_IPs i).

Definition first_v4 (ips : list ContainerIfaceIP) : option IP :=
  ip_of <$> List.find (λ i, negb (length (ip_of i) =? 0)%nat && bool_decide (is_Some (To4 (ip_of i)))) ips.

(** One interface: the agent, and the interface unless there was an error. *)
Definition configure_iface (podKey : string) (i : ContainerIfaceMd) (a : HostAgent)
  : HostAgent * option ContainerIfaceMd :=
  let '(a, ips, err) :=
    if (length (if_IPs i) =? 0)%nat then allocateIps [] podKey a else (a, if_IPs i, false) in
  if err then (a, None)
  else
    let i := with_ips i ips in
    let v4_done :=
      match first_v4 ips with
      | Some ip => match runSetupVeth i (Some ip) with Some v => Some (with_veth i v) | None => None end
      | None => Some i
      end in
    match v4_done with
    | None => (a, None)
    | Some i =>
        let default_done :=
          if String.eqb (if_Mac i) EmptyString then
            match runSetupVeth i None with Some v => Some (with_veth i v) | None => None end
          else Some i in
        match default_done with
        | None => (deallocateIpsLocked ips a, None)
        | Some i =>
            if String.eqb (HostVethName i) EmptyString || String.eqb (if_Mac i) EmptyString || negb (runSetupNetwork i)
            then (deallocateIpsLocked ips a, None)
            else (a, Some i)
        end
    end.

Fixpoint configure_ifaces (podKey : string) (l : list ContainerIfaceMd) (a : HostAgent)
  : HostAgent * option (list ContainerIfaceMd) :=
  match l with
  | [] => (a, Some [])
  | i :: l =>
      match configure_iface podKey i a with
      | (a, None) => (a, None)
      | (a, Some i) =>
          match configure_ifaces podKey l a with
          | (a, None) => (a, None)
          | (a, Some l) => (a, Some (i :: l))
          end
      end
  end.

(** The file is read and removed; [false] is an error. *)
Definition cleanStatleMetadata (id : string) (a : HostAgent) : HostAgent * bool :=
  match cni_dir a !! id with
  | None => (a, false)
  | Some _ => if clearOk id then (set_md (epMetadata a) (delete id (cni_dir a)) a, true) else (a, false)
  end.

Definition clean_stale (podid : string) (a : HostAgent) (md : ContainerMetadata) : HostAgent :=
  match cleanStatleMetadata (md_ContId md) a with
  | (a, false) => a
  | (a, true) =>
      let a := deallocateMdIps md a in
      set_md (<[podid := delete (md_ContId md) (default ∅ (epMetadata a !! podid))]> (epMetadata a)) (cni_dir a) a
  end.

(** The entries of the pod's other containers. *)
Definition stale_of (podid cont : string) (a : HostAgent) : list ContainerMetadata :=
  omap (λ p, if String.eqb p.1 cont then None else Some p.2) (map_to_list (default ∅ (epMetadata a !! podid))).

(** The second component says whether there was no error. *)
Definition configureContainerIfaces (metadata : ContainerMetadata) (a : HostAgent) : HostAgent * bool :=
  let podKey := makePodKey (md_Namespace metadata) (md_Pod metadata) in
  let podid := md_Namespace metadata ++ "/" ++ md_Pod metadata in
  let cont := md_ContId metadata in
  if (length (Ifaces metadata) =? 0)%nat then (a, false)
  else
    match configure_ifaces podKey (Ifaces metadata) a with
    | (a, None) => (a, false)
    | (a, Some ifaces) =>
        let metadata := mkMd (md_Namespace metadata) (md_Pod metadata) cont ifaces in
        let a := foldl (clean_stale podid) a (stale_of podid cont a) in
        if recordOk cont then
          let a := set_md (epMetadata a) (<[cont := metadata]> (cni_dir a)) a in
          (set_md (<[podid := <[cont := metadata]> (default ∅ (epMetadata a !! podid))]> (epMetadata a)) (cni_dir a) a, true)
        else (a, false)
    end.

(** What follows the deallocation, the removal of the interface, does not touch
    addresses. *)
Definition unconfigureContainerIfaces (ns pod cont : string) (a : HostAgent) : HostAgent :=
  let podid := ns ++ "/" ++ pod in
  match epMetadata a !! podid with
  | None => a
  | Some mdmap =>
      match mdmap !! cont with
      | None => a
      | Some metadata =>
          let mdmap := delete (md_ContId metadata) mdmap in
          let e := if (size mdmap =? 0)%nat then delete podid (epMetadata a) else <[podid := mdmap]> (epMetadata a) in
          let a := set_md e (cni_dir a) a in
          match cni_dir a !! cont with
          | None => a
          | Some _ =>
              if clearOk cont then deallocateMdIps metadata (set_md (epMetadata a) (delete cont (cni_dir a)) a) else a
          end
      end
  end.
End Setup.

(** LoadMetadata at the start of the agent: every file of the directory. *)
Definition LoadMetadata (dir : gmap string ContainerMetadata) : gmap string (gmap string ContainerMetadata) :=
  foldl (λ e p,
    let md := snd p in
    let podId := md_Namespace md ++ "/" ++ md_Pod md in
    <[podId := <[md_ContId md := md]> (default ∅ (e !! podId))]> e) ∅ (map_to_list dir).

(** The start of the agent. *)
Definition Init (nc : option (list cniNetConfig)) (dir : gmap string ContainerMetadata) : HostAgent :=
  buildUsedIPs (mkAgent nc NewIpCache ∅ (Raw EmptyString) (LoadMetadata dir) dir).
