(* ===== verification/HostIpamFacts.v ===== *)
(** * HostIpamFacts: the addresses of a host

    Lemmas on src/pkg/hostagent/ipam.go and setup.go: free and used addresses
    stay apart, an interface gets addresses that were not in use, and the
    records of the containers never share an address. *)
From S2P Require Import Prelude GoBytes GoNet GoText GoText6 IpAlloc IpAllocFacts IpCache IpCacheFacts PodNet PodNetFacts HostIpam.

Open Scope string_scope.

(** ** Free and used addresses *)

Abbreviation free := (cache_free 16 IPv6len).

Definition is_used (a : HostAgent) (ip : IP) : Prop := is_Some (usedIPs a !! IP_String ip).

(** [G] has the addresses that the node was ever given. *)
Record agent_ok (G : IP → Prop) (a : HostAgent) : Prop := {
  ag_cache : cache_inv 16 IPv6len (podIps a);
  ag_free : ∀ ip, free (podIps a) ip → G ip;
  ag_used : ∀ k, is_Some (usedIPs a !! k) → ∃ ip, ok 16 ip ∧ k = IP_String ip ∧ G ip ∧ ¬ free (podIps a) ip
}.

Lemma free_ok c ip : free c ip → ok 16 ip.
Proof. intros [Hv _]. unfold cache_valid in Hv. by destruct (is_v4 ip). Qed.

Lemma valid_ok ip : ok 16 ip → cache_valid 16 IPv6len ip.
Proof. unfold cache_valid. by destruct (is_v4 ip). Qed.

Lemma used_spec G a ip : agent_ok G a → ok 16 ip → is_used a ip → G ip ∧ ¬ free (podIps a) ip.
Proof.
  intros Ha Hip Hu. destruct (ag_used _ _ Ha _ Hu) as (ip'&Hok&E&HG&Hf).
  apply IP_String_inj in E as <-; done.
Qed.

Lemma agent_ok_more (G G' : IP → Prop) a : (∀ ip, G ip → G' ip) → agent_ok G a → agent_ok G' a.
Proof.
  intros HG []. split; [done|auto|]. intros k (ip&?&?&?&?)%ag_used0. exists ip. auto.
Qed.

(** Everything else stays. *)
Definition frame (a a' : HostAgent) : Prop :=
  NetConfig a' = NetConfig a ∧ podNetAnnotation a' = podNetAnnotation a ∧ epMetadata a' = epMetadata a ∧
  cni_dir a' = cni_dir a.

Lemma frame_refl a : frame a a.
Proof. done. Qed.
Lemma frame_trans a b c : frame a b → frame b c → frame a c.
Proof. unfold frame. intros (?&?&?&?) (?&?&?&?). split_and!; congruence. Qed.
#[export] Hint Resolve frame_refl : core.

(** The addresses [ips] came into use. *)
Record took (a a' : HostAgent) (ips : list IP) : Prop := {
  tk_frame : frame a a';
  tk_nodup : NoDup ips;
  tk_ok : ∀ ip, ip ∈ ips → ok 16 ip ∧ ¬ is_used a ip;
  tk_used : ∀ k, is_Some (usedIPs a' !! k) ↔ is_Some (usedIPs a !! k) ∨ ∃ ip, ip ∈ ips ∧ k = IP_String ip
}.

Lemma took_nil a a' : frame a a' → (∀ k, is_Some (usedIPs a' !! k) ↔ is_Some (usedIPs a !! k)) → took a a' [].
Proof.
  intros Hf Hu. split; [done|constructor|intros ip Hip; by apply elem_of_nil in Hip|].
  intros k. rewrite Hu. split; [by left|]. intros [?|(ip&Hip&_)]; [done|by apply elem_of_nil in Hip].
Qed.

Lemma took_trans a b c ips ips' : took a b ips → took b c ips' → took a c (ips ++ ips')%list.
Proof.
  intros [F1 N1 O1 U1] [F2 N2 O2 U2].
  assert (∀ ip, ip ∈ ips → is_used b ip) as Hb by (intros ip Hip; unfold is_used; rewrite U1; eauto).
  split.
  - by eapply frame_trans.
  - apply NoDup_app. split_and!; [done| |done]. intros ip Hip Hip'. apply (proj2 (O2 ip Hip')), Hb, Hip.
  - intros ip [Hip|Hip]%elem_of_app; [auto|]. destruct (O2 ip Hip) as [? Hn]. split; [done|]. intros Hu.
    apply Hn. unfold is_used. rewrite U1. by left.
  - intros k. rewrite U2, U1. setoid_rewrite elem_of_app. naive_solver.
Qed.

Lemma took_keep a a' ips ip : took a a' ips → is_used a ip → is_used a' ip.
Proof. intros [_ _ _ U] Hu. unfold is_used. rewrite U. by left. Qed.

Lemma took_new a a' ips ip : took a a' ips → ip ∈ ips → is_used a' ip.
Proof. intros [_ _ _ U] Hu. unfold is_used. rewrite U. eauto. Qed.

(** The addresses [ips] went out of use. *)
Record gave (a a' : HostAgent) (ips : list IP) : Prop := {
  gv_frame : frame a a';
  gv_used : ∀ k, is_Some (usedIPs a' !! k) ↔ is_Some (usedIPs a !! k) ∧ ∀ ip, ip ∈ ips → k ≠ IP_String ip
}.

Lemma gave_keep a a' ips ip :
  gave a a' ips → (∀ x, x ∈ ips → ok 16 x) → ok 16 ip → ip ∉ ips → is_used a ip → is_used a' ip.
Proof.
  intros [_ U] Hok Hip Hn Hu. unfold is_used. rewrite U. split; [done|]. intros x Hx E. apply Hn.
  apply IP_String_inj in E as <-; auto.
Qed.

(** ** Taking an address *)

Lemma allocIP_ok G key b a ips err r st' :
  agent_ok G a → allocIP key b (mkAlloc_ a ips err) = (r, st') →
  agent_ok G (al_agent st') ∧
  ∃ new, al_ips st' = (ips ++ new)%list ∧ took a (al_agent st') (map ip_of new) ∧ (r = true ↔ new ≠ []).
Proof.
  intros [Hc Hf Hu]. unfold allocIP. cbn [al_agent al_ips al_err].
  destruct (AllocateIp (podIps a) b) as [c [ip|]] eqn:E.
  - destruct (cache_alloc_some _ _ _ _ _ _ Hc E) as (Hc'&_&Hfr&Hfr').
    assert (agent_ok G (set_ips c (usedIPs a) a)) as Hsame.
    { split; cbn; [done| |].
      - intros x [Hx _]%Hfr'. auto.
      - intros k (x&?&?&?&Hn)%Hu. exists x. split_and!; auto. rewrite Hfr'. tauto. }
    destruct (getIPMetadata a ip) as [gw mask]. destruct (length mask =? 0)%nat; intros [= <- <-]; cbn [al_agent al_ips].
    + split; [done|]. exists []. rewrite app_nil_r. split_and!; [done|by apply took_nil|]. split; [done|]. by intros [].
    + assert (ok 16 ip) as Hip by (by eapply free_ok).
      assert (¬ is_used a ip) as Hnu.
      { intros (x&Hx&Ex&_&Hn)%Hu. apply IP_String_inj in Ex as <-; auto. }
      split.
      * split; cbn; [done|intros x [Hx _]%Hfr'; auto|]. intros k Hk. rewrite lookup_insert_is_Some in Hk.
        destruct Hk as [<-|[Hne Hk]].
        -- exists ip. split_and!; auto. rewrite Hfr'. tauto.
        -- apply Hu in Hk as (x&?&?&?&Hn). exists x. split_and!; auto. rewrite Hfr'. tauto.
      * exists [makeIFaceIp ip gw mask]. split_and!; [done| |done]. cbn [map ip_of makeIFaceIp if_Address net_IP].
        change (ip_of (makeIFaceIp ip gw mask)) with ip. split; [done|apply NoDup_singleton| |].
        -- intros x ->%list_elem_of_singleton. done.
        -- intros k. cbn. rewrite lookup_insert_is_Some. setoid_rewrite list_elem_of_singleton.
           split; [intros [<-|[? ?]]; eauto|]. intros [Hk|(x&->&->)]; [|by left].
           destruct (decide (IP_String ip = k)); [by left|by right].
  - destruct (cache_alloc_none _ _ _ _ _ Hc E) as (Hc'&Hfr&_). intros [= <- <-]. cbn [al_agent al_ips]. split.
    + split; cbn; [done|intros x Hx%Hfr; auto|]. intros k (x&?&?&?&Hn)%Hu. exists x. split_and!; auto. by rewrite Hfr.
    + exists []. rewrite app_nil_r. split_and!; [done|by apply took_nil|]. split; [done|]. by intros [].
Qed.

Lemma alloc_loop_ok G key ncs v4 v6 st :
  agent_ok G (al_agent st) →
  agent_ok G (al_agent (alloc_loop key ncs v4 v6 st)) ∧
  ∃ new, al_ips (alloc_loop key ncs v4 v6 st) = (al_ips st ++ new)%list ∧
         took (al_agent st) (al_agent (alloc_loop key ncs v4 v6 st)) (map ip_of new).
Proof.
  revert v4 v6 st. induction ncs as [|nc ncs IH]; intros v4 v6 st Ha; cbn [alloc_loop].
  { split; [done|]. exists []. rewrite app_nil_r. split; [done|by apply took_nil]. }
  destruct (length _ =? 0)%nat; [by apply IH|].
  assert (∀ b r st1 w4 w6, allocIP key b st = (r, st1) →
    agent_ok G (al_agent (alloc_loop key ncs w4 w6 st1)) ∧
    ∃ new, al_ips (alloc_loop key ncs w4 w6 st1) = (al_ips st ++ new)%list ∧
         took (al_agent st) (al_agent (alloc_loop key ncs w4 w6 st1)) (map ip_of new)) as Hstep.
  { intros b r st1 w4 w6 E. destruct st as [a ips err]. apply (allocIP_ok G) in E as (Ha1&new1&E1&T1&_); [|done].
    destruct (IH w4 w6 st1 Ha1) as (Ha2&new2&E2&T2). split; [done|]. exists (new1 ++ new2)%list.
    cbn [al_ips al_agent] in *. split; [by rewrite E2, E1, <- (assoc_L (++)%list)|].
    rewrite map_app. by eapply took_trans. }
  destruct (_ && _).
  - destruct (allocIP key true st) as [r st1] eqn:E. by eapply Hstep.
  - destruct (_ && _); [|by apply IH]. destruct (allocIP key false st) as [r st1] eqn:E. by eapply Hstep.
Qed.

(** ** Giving addresses back *)

Lemma ok_length ip : ok 16 ip → (length ip =? 0)%nat = false ∧ bool_decide (is_Some (To16 ip)) = true.
Proof. intros [Hl _]. unfold To16. rewrite Hl. done. Qed.

Lemma dealloc_ip_ok G a ip :
  agent_ok G a → ok 16 ip → is_used a ip → agent_ok G (dealloc_ip a ip) ∧ gave a (dealloc_ip a ip) [ip].
Proof.
  intros Ha Hip Hus. destruct (used_spec _ _ _ Ha Hip Hus) as [HG Hn]. destruct Ha as [Hc Hf Hu].
  unfold dealloc_ip. destruct (ok_length ip Hip) as [-> ->]. rewrite orb_true_r.
  destruct (cache_dealloc 16 IPv6len eq_refl (podIps a) ip Hc (valid_ok ip Hip) Hn) as [Hc' Hfr]. split.
  - split; cbn; [done|intros x [Hx| ->]%Hfr; auto|]. intros k Hk. apply lookup_delete_is_Some in Hk as [Hne Hk].
    apply Hu in Hk as (x&?&->&?&?). exists x. split_and!; auto. rewrite Hfr. intros [?| ->]; [done|]. by apply Hne.
  - split; [done|]. intros k. cbn. rewrite lookup_delete_is_Some. setoid_rewrite list_elem_of_singleton. naive_solver.
Qed.

Lemma dealloc_all_ok G ips a :
  agent_ok G a → NoDup ips → (∀ ip, ip ∈ ips → ok 16 ip ∧ is_used a ip) →
  agent_ok G (foldl dealloc_ip a ips) ∧ gave a (foldl dealloc_ip a ips) ips.
Proof.
  revert a. induction ips as [|ip ips IH]; intros a Ha Hnd Hips; cbn [foldl].
  { split; [done|]. split; [done|]. intros k. split; [|tauto]. intros Hk. split; [done|]. intros x Hx. by apply elem_of_nil in Hx. }
  apply NoDup_cons in Hnd as [Hni Hnd]. destruct (Hips ip) as [Hok Hus]; [apply list_elem_of_here|].
  destruct (dealloc_ip_ok G a ip Ha Hok Hus) as [Ha1 G1]. destruct (IH (dealloc_ip a ip) Ha1 Hnd) as [Ha2 G2].
  - intros x Hx. destruct (Hips x) as [Hxo Hxu]; [by apply list_elem_of_further|]. split; [done|].
    eapply gave_keep; [exact G1| |done| |done].
    + intros y ->%list_elem_of_singleton. done.
    + intros ->%list_elem_of_singleton. done.
  - split; [done|]. destruct G1 as [F1 U1], G2 as [F2 U2]. split; [by eapply frame_trans|].
    intros k. rewrite U2, U1. setoid_rewrite list_elem_of_singleton. setoid_rewrite elem_of_cons. naive_solver.
Qed.

Lemma took_gave a b c ips : took a b ips → gave b c ips → took a c [].
Proof.
  intros [F1 N1 O1 U1] [F2 U2]. apply took_nil; [by eapply frame_trans|]. intros k. rewrite U2, U1. split.
  - intros [[?|(ip&Hip&->)] Hn]; [done|]. by destruct (Hn ip Hip).
  - intros Hk. split; [by left|]. intros ip Hip ->. by apply (proj2 (O1 ip Hip)).
Qed.

Lemma allocateIps_ok G key a a' ips err :
  agent_ok G a → allocateIps [] key a = (a', ips, err) →
  agent_ok G a' ∧ took a a' (map ip_of ips) ∧ (err = true → ips = []).
Proof.
  intros Ha. unfold allocateIps.
  destruct (alloc_loop_ok G key (default [] (NetConfig a)) false false (mkAlloc_ a [] false) Ha) as (Ha1&new&E&T).
  cbn [al_ips al_agent app] in E, T. set (st := alloc_loop _ _ _ _ _) in *. destruct (al_err st).
  - intros [= <- <- <-]. rewrite E. unfold deallocateIpsLocked. pose proof T as [_ N O _].
    destruct (dealloc_all_ok G (map ip_of new) (al_agent st) Ha1 N) as [Ha2 Gv].
    { intros ip Hip. split; [by apply O|by eapply took_new]. }
    split_and!; [done|by eapply took_gave|done].
  - intros [= <- <- <-]. rewrite E. split_and!; done.
Qed.

(** ** New ranges *)

(** Ranges of the two families, and the addresses they have. *)
Record ranges_in (G : IP → Prop) (v : NetIps) : Prop := {
  ri_ok : ips_ok v;
  ri_4 : ∀ ip, ok 16 ip → members (V4 v) (val ip) → is_v4 ip = true ∧ G ip;
  ri_6 : ∀ ip, ok 16 ip → members (V6 v) (val ip) → is_v4 ip = false ∧ G ip
}.

Lemma family_load rs b :
  sfl 16 rs → (∀ ip, ok 16 ip → members rs (val ip) → is_v4 ip = b) →
  Forall (load_ok 16) rs ∧
  StronglySorted (λ r1 r2, ∀ ip, in_range 16 r1 ip → ¬ in_range 16 r2 ip) rs ∧
  ∀ ip, (∃ r, r ∈ rs ∧ in_range 16 r ip) ↔ ok 16 ip ∧ members rs (val ip).
Proof.
  intros Hs Hfam. pose proof Hs as [Hr Hsort]. rewrite Forall_forall in Hr.
  assert (∀ r, r ∈ rs → is_v4 (Start r) = b ∧ is_v4 (End_ r) = b) as Hends.
  { intros r Hin. pose proof (Hr r Hin) as (H1&H2&H3).
    split; apply Hfam; auto; exists r; split; auto; unfold lo, hi in *; lia. }
  split_and!.
  - apply Forall_forall. intros r Hin. destruct (Hends r Hin) as [E1 E2]. unfold load_ok. rewrite E1, E2. split; [done|].
    destruct b; [by apply Hr|]. split; [by apply Hr|]. intros ip Hip Hb. apply Hfam; [done|]. by exists r.
  - clear Hfam Hends Hs Hr. induction Hsort as [|r rs Hsort IH Hall]; constructor; auto.
    rewrite Forall_forall in Hall |- *. intros r' Hin ip (_&_&?) (_&_&?). specialize (Hall r' Hin). lia.
  - intros ip. split.
    + intros (r&Hin&Hv&_&Hb). split; [|by exists r]. unfold cache_valid in Hv. by destruct (is_v4 ip).
    + intros [Hip (r&Hin&Hb)]. exists r. split; [done|]. split_and!; [by apply valid_ok| |done..|lia|lia].
      rewrite (proj1 (Hends r Hin)). apply Hfam; [done|by exists r].
Qed.

Lemma load_free v G :
  ranges_in G v →
  let c := LoadRanges (LoadRanges NewIpCache (V4 v)) (V6 v) in
  cache_inv 16 IPv6len c ∧
  ∀ ip, free c ip ↔ ok 16 ip ∧ (members (V4 v) (val ip) ∨ members (V6 v) (val ip)).
Proof.
  intros [[S4 S6] R4 R6]. cbn zeta.
  destruct (family_load (V4 v) true S4) as (L4&D4&I4); [intros; by apply R4|].
  destruct (family_load (V6 v) false S6) as (L6&D6&I6); [intros; by apply R6|].
  destruct (LoadRanges_ok 16 ltac:(by right) (V4 v) NewIpCache (NewIpCache_inv 16) L4 D4) as [C4 F4].
  { intros r ip _ _. apply NewIpCache_free. }
  assert (∀ ip, free (LoadRanges NewIpCache (V4 v)) ip ↔ ok 16 ip ∧ members (V4 v) (val ip)) as F4'.
  { intros ip. rewrite F4, I4. split; [|by right]. intros [Hn|?]; [by apply NewIpCache_free in Hn|done]. }
  destruct (LoadRanges_ok 16 ltac:(by right) (V6 v) _ C4 L6 D6) as [C6 F6].
  { intros r ip Hin Hr [Hip H4]%F4'. destruct (proj1 (I6 ip)) as [_ H6]; [by exists r|].
    destruct (R4 ip Hip H4), (R6 ip Hip H6). congruence. }
  split; [done|]. intros ip. rewrite F6, F4', I6. tauto.
Qed.

(** The keys of the used addresses are taken out of the cache. *)
Lemma remove_keys_ok (l : list (string * string)) c :
  cache_inv 16 IPv6len c → (∀ k p, (k, p) ∈ l → ∃ ip, ok 16 ip ∧ k = IP_String ip) →
  let c' := foldl (λ c p, match ParseIP p.1 with Some ip => (IpCache.RemoveIp c ip).1 | None => c end) c l in
  cache_inv 16 IPv6len c' ∧ ∀ ip, free c' ip ↔ free c ip ∧ ∀ k p, (k, p) ∈ l → k ≠ IP_String ip.
Proof.
  revert c. induction l as [|[k p] l IH]; intros c Hc Hl; cbn [foldl fst].
  { split; [done|]. intros ip. split; [|tauto]. intros Hf. split; [done|]. intros k p Hin. by apply elem_of_nil in Hin. }
  destruct (Hl k p) as (ip0&Hip0&->); [apply list_elem_of_here|]. rewrite ParseIP_String by done.
  pose proof (cache_RemoveIp 16 c ip0 Hc (valid_ok ip0 Hip0)) as H. destruct (IpCache.RemoveIp c ip0) as [c1 b]. cbn [fst].
  destruct H as (Hc1&Hf1&_). destruct (IH c1 Hc1) as [Hc2 Hf2].
  { intros k q Hin. eapply Hl, list_elem_of_further, Hin. }
  split; [done|]. intros ip. rewrite Hf2, Hf1. split.
  - intros [[H1 H2] H3]. split; [done|]. intros k q [[= -> ->]|Hin]%elem_of_cons; [|by eapply H3].
    intros E. apply H2. apply IP_String_inj in E as <-; [done|done|by eapply free_ok].
  - intros [H1 H2]. split_and!; [done| |].
    + intros ->. by eapply (H2 (IP_String ip0) p); [apply list_elem_of_here|].
    + intros k q Hin. by eapply H2, list_elem_of_further.
Qed.

Lemma updateIpamAnnotation_ok G a t :
  agent_ok G a → (∀ v, Unmarshal t = Some v → ranges_in G v) →
  agent_ok G (updateIpamAnnotation t a) ∧ usedIPs (updateIpamAnnotation t a) = usedIPs a ∧
  NetConfig (updateIpamAnnotation t a) = NetConfig a ∧ epMetadata (updateIpamAnnotation t a) = epMetadata a ∧
  cni_dir (updateIpamAnnotation t a) = cni_dir a ∧ podNetAnnotation (updateIpamAnnotation t a) = t.
Proof.
  intros Ha Ht. unfold updateIpamAnnotation. destruct (bool_decide _) eqn:Eb; [by apply bool_decide_eq_true_1 in Eb|].
  destruct (Unmarshal t) as [v|] eqn:E; [|split_and!; [|done..]; by destruct Ha].
  split_and!; [|done..]. destruct Ha as [_ _ Hu]. pose proof (Ht v eq_refl) as Hv. destruct (load_free v G Hv) as [Hc Hf].
  set (c := LoadRanges _ _) in *.
  destruct (remove_keys_ok (map_to_list (usedIPs a)) c Hc) as [Hc' Hf'].
  { intros k p Hin%elem_of_map_to_list. destruct (Hu k) as (ip&?&?&_); [by eexists|]. by exists ip. }
  split; cbn [rebuildIpam set_ips podIps usedIPs set_ann].
  - exact Hc'.
  - intros ip [[Hip [H4|H6]]%Hf _]%Hf'; [by apply (ri_4 _ _ Hv)|by apply (ri_6 _ _ Hv)].
  - intros k Hk. pose proof Hk as (ip&Hip&->&HG&_)%Hu. exists ip. split_and!; [done..|].
    intros [_ Hn]%Hf'. destruct Hk as [p Hp]. by eapply Hn; [by apply elem_of_map_to_list|].
Qed.

(** ** Records of containers *)

Definition podid_of (md : ContainerMetadata) : string := md_Namespace md ++ "/" ++ md_Pod md.

(** The files of the metadata directory and the entries in memory. *)
Record dir_ok (a : HostAgent) : Prop := {
  dr_cont : ∀ c md, cni_dir a !! c = Some md → md_ContId md = c;
  dr_nodup : ∀ c md, cni_dir a !! c = Some md → NoDup (md_ips md);
  dr_used : ∀ c md ip, cni_dir a !! c = Some md → ip ∈ md_ips md → ok 16 ip ∧ is_used a ip;
  dr_apart : ∀ c1 c2 md1 md2 ip, cni_dir a !! c1 = Some md1 → cni_dir a !! c2 = Some md2 →
    ip ∈ md_ips md1 → ip ∈ md_ips md2 → c1 = c2;
  dr_ep : ∀ podid m c md, epMetadata a !! podid = Some m → m !! c = Some md →
    cni_dir a !! c = Some md ∧ podid_of md = podid
}.

(** Addresses in use that no record has. *)
Definition spare (a : HostAgent) (ips : list IP) : Prop :=
  NoDup ips ∧ (∀ ip, ip ∈ ips → ok 16 ip ∧ is_used a ip) ∧
  ∀ c md ip, cni_dir a !! c = Some md → ip ∈ ips → ip ∉ md_ips md.

Lemma dir_ok_took a a' ips :
  took a a' ips → dir_ok a → dir_ok a' ∧ spare a' ips.
Proof.
  intros T [D1 D2 D3 D4 D5]. pose proof T as [(F1&F2&F3&F4) N O U]. split.
  - split; rewrite ?F3, ?F4; auto. intros c md ip Hc Hip. destruct (D3 c md ip Hc Hip). split; [done|by eapply took_keep].
  - split_and!; [done| |].
    + intros ip Hip. split; [by apply O|by eapply took_new].
    + rewrite F4. intros c md ip Hc Hip Hin. by apply (proj2 (O ip Hip)), (D3 c md ip Hc).
Qed.

Lemma spare_took a a' ips ips' : took a a' ips' → spare a ips → spare a' ips.
Proof.
  intros T (N&O&D). pose proof T as [(F1&F2&F3&F4) _ _ _]. split_and!; [done| |by rewrite F4].
  intros ip Hip. destruct (O ip Hip). split; [done|by eapply took_keep].
Qed.

(** A record is removed and its addresses go back. *)
Lemma release_ok G a c md ips e :
  agent_ok G a → dir_ok a → cni_dir a !! c = Some md → spare a ips →
  (∀ podid m k md', e !! podid = Some m → m !! k = Some md' →
     k ≠ c ∧ ∃ m0, epMetadata a !! podid = Some m0 ∧ m0 !! k = Some md') →
  let a' := deallocateMdIps md (set_md e (delete c (cni_dir a)) a) in
  agent_ok G a' ∧ dir_ok a' ∧ spare a' ips ∧ cni_dir a' = delete c (cni_dir a) ∧ epMetadata a' = e.
Proof.
  intros Ha D Hc (SN&SO&SD) He. cbn zeta. set (a1 := set_md e (delete c (cni_dir a)) a).
  assert (agent_ok G a1) as Ha1 by (by destruct Ha).
  assert (∀ ip, ip ∈ md_ips md → ok 16 ip ∧ is_used a1 ip) as Hmd by (intros ip Hip; by apply (dr_used _ D c md)).
  assert (∃ a', deallocateMdIps md a1 = a' ∧ agent_ok G a' ∧ frame a1 a' ∧
    (∀ ip, ok 16 ip → ip ∉ md_ips md → is_used a1 ip → is_used a' ip)) as (a'&->&Ha'&Fr&Hkeep).
  { unfold deallocateMdIps. destruct (NetConfig a1) as [nc|]; [|by exists a1].
    destruct (dealloc_all_ok G (md_ips md) a1 Ha1 (dr_nodup _ D c md Hc) Hmd) as [Ha2 Gv].
    exists (foldl dealloc_ip a1 (md_ips md)). split_and!; [done|done|by destruct Gv|].
    intros ip Hip Hn Hu. eapply gave_keep; [exact Gv| |done|done|done]. intros x Hx. by apply Hmd. }
  destruct Fr as (_&_&F3&F4). cbn [a1 set_md epMetadata cni_dir] in F3, F4.
  assert (∀ k md', cni_dir a' !! k = Some md' → k ≠ c ∧ cni_dir a !! k = Some md') as Hdir.
  { intros k md'. rewrite F4. intros [? ?]%lookup_delete_Some. done. }
  split_and!; [done| | |done|done].
  - split.
    + intros k md' [_ Hk]%Hdir. by apply (dr_cont _ D).
    + intros k md' [_ Hk]%Hdir. by apply (dr_nodup _ D k).
    + intros k md' ip [Hne Hk]%Hdir Hip. destruct (dr_used _ D k md' ip Hk Hip) as [Hok Hu]. split; [done|].
      apply Hkeep; [done| |done]. intros Hin. apply Hne. by apply (dr_apart _ D k c md' md ip).
    + intros k1 k2 m1 m2 ip [_ H1]%Hdir [_ H2]%Hdir. by apply (dr_apart _ D k1 k2 m1 m2 ip).
    + intros podid m k md'. rewrite F3, F4. intros Hp Hk. destruct (He podid m k md' Hp Hk) as (Hne&m0&Hp0&Hk0).
      destruct (dr_ep _ D podid m0 k md' Hp0 Hk0) as [H1 H2]. split; [|done]. by apply lookup_delete_Some.
  - split_and!; [done| |].
    + intros ip Hip. destruct (SO ip Hip) as [Hok Hu]. split; [done|]. apply Hkeep; [done| |done]. by apply (SD c md ip Hc).
    + intros k md' ip [_ Hk]%Hdir Hip. by apply (SD k md' ip Hk).
Qed.

Section Container.
Context (runSetupVeth : ContainerIfaceMd → option IP → option (string * string)).
Context (runSetupNetwork : ContainerIfaceMd → bool).
Context (recordOk clearOk : string → bool).
Context (G : IP → Prop).

Definition iface_ips (i : ContainerIfaceMd) : list IP := map ip_of (if_IPs i).

Lemma configure_iface_ok key i a a' res :
  agent_ok G a → if_IPs i = [] → configure_iface runSetupVeth runSetupNetwork key i a = (a', res) →
  agent_ok G a' ∧
  match res with Some i' => took a a' (iface_ips i') | None => ∃ ips, took a a' ips end.
Proof using Type.
  intros Ha Hi. unfold configure_iface. rewrite Hi. cbn [length Nat.eqb].
  destruct (allocateIps [] key a) as [[a1 ips] err] eqn:E. apply (allocateIps_ok G) in E as (Ha1&T&_); [|done].
  destruct err; [intros [= <- <-]; split; [done|by eexists]|].
  assert (agent_ok G (deallocateIpsLocked ips a1) ∧ ∃ l, took a (deallocateIpsLocked ips a1) l) as Hback.
  { unfold deallocateIpsLocked. pose proof T as [_ N O _]. destruct (dealloc_all_ok G (map ip_of ips) a1 Ha1 N) as [H1 H2].
    { intros ip Hip. split; [by apply O|by eapply took_new]. }
    split; [done|]. exists []. by eapply took_gave. }
  destruct (match first_v4 ips with Some _ => _ | None => _ end) as [i1|] eqn:E1; [|intros [= <- <-]; eauto].
  assert (if_IPs i1 = ips) as Hi1.
  { destruct (first_v4 ips); [|by injection E1 as <-]. destruct (runSetupVeth _ _); [|done]. by injection E1 as <-. }
  destruct (if String.eqb (if_Mac i1) EmptyString then _ else _) as [i2|] eqn:E2; [|intros [= <- <-]; done].
  assert (if_IPs i2 = ips) as Hi2.
  { destruct (String.eqb _ _); [|by injection E2 as <-]. destruct (runSetupVeth _ _); [|done]. by injection E2 as <-. }
  destruct (_ || _ || _); intros [= <- <-]; [done|]. split; [done|]. unfold iface_ips. by rewrite Hi2.
Qed.

Lemma configure_ifaces_ok key l a a' res :
  agent_ok G a → Forall (λ i, if_IPs i = []) l →
  configure_ifaces runSetupVeth runSetupNetwork key l a = (a', res) →
  agent_ok G a' ∧
  match res with Some l' => took a a' (flat_map iface_ips l') | None => ∃ ips, took a a' ips end.
Proof using Type.
  revert a a' res. induction l as [|i l IH]; intros a a' res Ha Hl; cbn [configure_ifaces].
  { intros [= <- <-]. split; [done|]. by apply took_nil. }
  apply Forall_cons in Hl as [Hi Hl].
  destruct (configure_iface _ _ key i a) as [a1 [i1|]] eqn:E1; apply configure_iface_ok in E1 as [Ha1 T1]; auto.
  2:{ intros [= <- <-]. done. }
  destruct (configure_ifaces _ _ key l a1) as [a2 [l2|]] eqn:E2; apply IH in E2 as [Ha2 T2]; auto; intros [= <- <-].
  - split; [done|]. cbn [flat_map]. by eapply took_trans.
  - split; [done|]. destruct T2 as [ips T2]. eexists. by eapply took_trans.
Qed.

Lemma md_ips_eq md : md_ips md = flat_map iface_ips (Ifaces md).
Proof using Type. done. Qed.

Lemma clean_stale_ok podid a md ips :
  agent_ok G a → dir_ok a → spare a ips → podid_of md = podid →
  (∀ md', cni_dir a !! md_ContId md = Some md' → md' = md) →
  let a' := clean_stale clearOk podid a md in
  agent_ok G a' ∧ dir_ok a' ∧ spare a' ips ∧ cni_dir a' ⊆ cni_dir a ∧
  (∀ c, c ≠ md_ContId md → cni_dir a' !! c = cni_dir a !! c).
Proof using Type.
  intros Ha D S Hp Hmd. cbn zeta. unfold clean_stale, cleanStatleMetadata.
  destruct (cni_dir a !! md_ContId md) as [md'|] eqn:E; [|done]. assert (md' = md) as -> by auto.
  destruct (clearOk (md_ContId md)); [|done]. set (c := md_ContId md) in *.
  set (a1 := set_md (epMetadata a) (delete c (cni_dir a)) a).
  set (e := <[podid := delete c (default ∅ (epMetadata a !! podid))]> (epMetadata a)).
  cbn beta iota zeta. set (a2 := deallocateMdIps md a1).
  assert (deallocateMdIps md (set_md e (delete c (cni_dir a)) a) =
    set_md (<[podid := delete c (default ∅ (epMetadata a2 !! podid))]> (epMetadata a2)) (cni_dir a2) a2) as <-.
  { unfold a2. assert (∀ l b, epMetadata b = epMetadata a → cni_dir b = delete c (cni_dir a) →
      foldl dealloc_ip (set_md e (delete c (cni_dir a)) b) l =
      let a2 := foldl dealloc_ip b l in set_md (<[podid := delete c (default ∅ (epMetadata a2 !! podid))]> (epMetadata a2)) (cni_dir a2) a2) as Hcomm.
    { induction l as [|ip l IHl]; intros b Eb1 Eb2; cbn [foldl]; [cbn; by rewrite Eb1, Eb2|].
      etrans; [|apply (IHl (dealloc_ip b ip))].
      - f_equal. unfold dealloc_ip. destruct (length ip =? 0)%nat; [done|]. by destruct (_ || _).
      - unfold dealloc_ip. destruct (length ip =? 0)%nat; [done|]. by destruct (_ || _).
      - unfold dealloc_ip. destruct (length ip =? 0)%nat; [done|]. by destruct (_ || _). }
    unfold deallocateMdIps. cbn [set_md NetConfig a1]. destruct (NetConfig a); [|done].
    exact (Hcomm (md_ips md) a1 eq_refl eq_refl). }
  destruct (release_ok G a c md ips e Ha D E S) as (H1&H2&H3&H4&H5).
  - intros q m k md'. unfold e. destruct (decide (q = podid)) as [->|Hq].
    + rewrite lookup_insert_eq. intros [= <-] [Hk Hm]%lookup_delete_Some. split; [done|].
      destruct (epMetadata a !! podid) as [m0|]; [|by destruct (lookup_empty_Some _ _ Hm)]. by exists m0.
    + rewrite lookup_insert_ne by done. intros Hq' Hk. split; [|by exists m]. intros ->.
      destruct (dr_ep _ D q m c md' Hq' Hk) as [Hc' Hpq]. apply Hq. congruence.
  - split_and!; [done|done|done| |]; rewrite H4; [apply delete_subseteq|]. intros k Hk. by rewrite lookup_delete_ne.
Qed.

Lemma clean_all_ok podid l a ips :
  agent_ok G a → dir_ok a → spare a ips →
  (∀ md, md ∈ l → podid_of md = podid ∧ ∀ md', cni_dir a !! md_ContId md = Some md' → md' = md) →
  let a' := foldl (clean_stale clearOk podid) a l in
  agent_ok G a' ∧ dir_ok a' ∧ spare a' ips ∧ cni_dir a' ⊆ cni_dir a ∧
  (∀ c, (∀ md, md ∈ l → md_ContId md ≠ c) → cni_dir a' !! c = cni_dir a !! c).
Proof using Type.
  revert a. induction l as [|md l IH]; intros a Ha D S Hl; cbn [foldl]; [done|].
  destruct (Hl md) as [Hp Hmd]; [apply list_elem_of_here|].
  destruct (clean_stale_ok podid a md ips Ha D S Hp Hmd) as (H1&H2&H3&H4&H5). cbn zeta in *.
  destruct (IH _ H1 H2 H3) as (I1&I2&I3&I4&I5).
  - intros md2 Hin. destruct (Hl md2) as [Hp2 Hmd2]; [by apply list_elem_of_further|]. split; [done|].
    intros md' Hk. apply Hmd2. by eapply lookup_weaken.
  - split_and!; [done|done|done|by etrans|]. intros c Hc. rewrite I5 by (intros; by apply Hc, list_elem_of_further).
    apply H5. intros ->. by eapply Hc; [apply list_elem_of_here|].
Qed.

Lemma stale_of_elem podid cont a md :
  dir_ok a → md ∈ stale_of podid cont a →
  podid_of md = podid ∧ cni_dir a !! md_ContId md = Some md ∧ md_ContId md ≠ cont.
Proof using Type.
  intros D. unfold stale_of. rewrite list_elem_of_omap. intros ([c md']&Hin&E).
  apply elem_of_map_to_list in Hin. cbn [fst snd] in E. destruct (String.eqb_spec c cont) as [|Hne]; [done|]. injection E as ->.
  destruct (epMetadata a !! podid) as [m|] eqn:Em; [|by destruct (lookup_empty_Some _ _ Hin)].
  destruct (dr_ep _ D podid m c md Em Hin) as [Hd Hp]. rewrite (dr_cont _ D c md Hd). done.
Qed.

(** A new record with addresses that no other record has. *)
Lemma record_ok a md ips :
  agent_ok G a → dir_ok a → spare a ips → md_ips md = ips →
  (∀ md', cni_dir a !! md_ContId md = Some md' → podid_of md' = podid_of md) →
  let a' := set_md (<[podid_of md := <[md_ContId md := md]> (default ∅ (epMetadata a !! podid_of md))]> (epMetadata a))
              (<[md_ContId md := md]> (cni_dir a)) a in
  agent_ok G a' ∧ dir_ok a'.
Proof using Type.
  intros Ha D (N&O&S) Eips Hpod. cbn zeta. split; [by destruct Ha|]. set (c := md_ContId md) in *.
  split; cbn [set_md cni_dir epMetadata].
  - intros k md'. destruct (decide (k = c)) as [->|]; [rewrite lookup_insert_eq; by intros [= <-]|].
    rewrite lookup_insert_ne by done. apply (dr_cont _ D).
  - intros k md'. destruct (decide (k = c)) as [->|]; [rewrite lookup_insert_eq; intros [= <-]; by rewrite Eips|].
    rewrite lookup_insert_ne by done. apply (dr_nodup _ D).
  - intros k md' ip. destruct (decide (k = c)) as [->|].
    + rewrite lookup_insert_eq. intros [= <-]. rewrite Eips. apply O.
    + rewrite lookup_insert_ne by done. apply (dr_used _ D).
  - intros k1 k2 m1 m2 ip. destruct (decide (k1 = c)) as [->|], (decide (k2 = c)) as [->|];
      rewrite ?lookup_insert_eq, ?lookup_insert_ne by done.
    + done.
    + intros [= <-] H2. rewrite Eips. intros Hi1 Hi2. by destruct (S k2 m2 ip H2 Hi1).
    + intros H1 [= <-]. rewrite Eips. intros Hi1 Hi2. by destruct (S k1 m1 ip H1 Hi2).
    + apply (dr_apart _ D).
  - intros podid m k md'. destruct (decide (podid = podid_of md)) as [->|Hp].
    + rewrite lookup_insert_eq. intros [= <-]. destruct (decide (k = c)) as [->|].
      * rewrite lookup_insert_eq. intros [= <-]. split; [apply lookup_insert_eq|done].
      * rewrite !lookup_insert_ne by done. destruct (epMetadata a !! podid_of md) as [m0|] eqn:E.
        -- intros Hk. by apply (dr_ep _ D (podid_of md) m0).
        -- intros Hk. by destruct (lookup_empty_Some _ _ Hk).
    + rewrite lookup_insert_ne by done. intros Hm Hk. destruct (dr_ep _ D podid m k md' Hm Hk) as [Hd Hq].
      split; [|done]. destruct (decide (k = c)) as [->|]; [|by rewrite lookup_insert_ne].
      exfalso. apply Hp. rewrite <- Hq. by apply Hpod.
Qed.

Lemma configureContainerIfaces_ok md a a' res :
  agent_ok G a → dir_ok a → Forall (λ i, if_IPs i = []) (Ifaces md) →
  (∀ md', cni_dir a !! md_ContId md = Some md' → podid_of md' = podid_of md) →
  configureContainerIfaces runSetupVeth runSetupNetwork recordOk clearOk md a = (a', res) →
  agent_ok G a' ∧ dir_ok a'.
Proof using Type.
  intros Ha D Hi Hpod. unfold configureContainerIfaces. destruct (length _ =? 0)%nat; [by intros [= <- <-]|].
  destruct (configure_ifaces _ _ _ _ a) as [a1 [l|]] eqn:E; apply configure_ifaces_ok in E as [Ha1 T]; auto.
  2:{ intros [= <- <-]. destruct T as [ips T]. split; [done|]. by apply (dir_ok_took a a1 ips T). }
  destruct (dir_ok_took a a1 _ T D) as [D1 S1]. fold (podid_of md). set (a2 := foldl _ a1 _).
  destruct (clean_all_ok (podid_of md) (stale_of (podid_of md) (md_ContId md) a1) a1 _ Ha1 D1 S1) as (Ha2&D2&S2&Hsub&_).
  { intros md2 (Hp&Hd&_)%stale_of_elem; [|done]. split; [done|]. intros md' Hd'. congruence. }
  fold a2 in Ha2, D2, S2, Hsub. destruct (recordOk (md_ContId md)); intros [= <- <-]; [|done].
  set (md1 := mkMd _ _ _ l). apply (record_ok a2 md1 (flat_map iface_ips l)); [done|done|done|done|].
  intros md' Hd. apply Hpod. destruct T as [(_&_&_&F) _ _ _]. rewrite <- F. by eapply lookup_weaken.
Qed.

Lemma unconfigureContainerIfaces_ok ns pod cont a :
  agent_ok G a → dir_ok a →
  agent_ok G (unconfigureContainerIfaces clearOk ns pod cont a) ∧ dir_ok (unconfigureContainerIfaces clearOk ns pod cont a).
Proof using Type.
  intros Ha D. unfold unconfigureContainerIfaces. set (podid := ns ++ "/" ++ pod).
  destruct (epMetadata a !! podid) as [m|] eqn:Em; [|done]. destruct (m !! cont) as [md|] eqn:Ec; [|done].
  destruct (dr_ep _ D podid m cont md Em Ec) as [Hd Hp]. rewrite (dr_cont _ D cont md Hd).
  set (e := if (size (delete cont m) =? 0)%nat then _ else _). cbn [set_md cni_dir epMetadata].
  assert (He : ∀ q m' k md', e !! q = Some m' → m' !! k = Some md' →
    k ≠ cont ∧ ∃ m0, epMetadata a !! q = Some m0 ∧ m0 !! k = Some md').
  { intros q m' k md' Hq Hk.
    assert (q = podid ∧ m' = delete cont m ∨ q ≠ podid ∧ epMetadata a !! q = Some m') as [[-> ->]|[Hne Hq']].
    { unfold e in Hq. destruct (size _ =? 0)%nat; [right; by apply lookup_delete_Some in Hq as [? ?]|].
      apply lookup_insert_Some in Hq as [[<- <-]|[? ?]]; auto. }
    - apply lookup_delete_Some in Hk as [? ?]. split; [done|]. by exists m.
    - split; [|by exists m']. intros ->. destruct (dr_ep _ D q m' cont md' Hq' Hk) as [Hd' Hp']. congruence. }
  rewrite Hd. destruct (clearOk cont).
  - assert (spare a []) as Hs.
    { split_and!; [constructor|intros ip Hip; by apply elem_of_nil in Hip|intros c md' ip _ Hip; by apply elem_of_nil in Hip]. }
    destruct (release_ok G a cont md [] e Ha D Hd Hs He) as (H1&H2&_). done.
  - split; [by destruct Ha|]. destruct D as [D1 D2 D3 D4 D5]. split; cbn; auto.
    intros q m' k md' Hq Hk. destruct (He q m' k md' Hq Hk) as (_&m0&Hm0&Hk0). by apply (D5 q m0).
Qed.
End Container.

(** ** The start of the agent *)

(** The records by pod, of the files that were read. *)
Lemma load_elem (l : list (string * ContainerMetadata)) (e0 : gmap string (gmap string ContainerMetadata)) :
  NoDup l.*1 → (∀ c md, (c, md) ∈ l → md_ContId md = c) →
  (∀ podid m c md, e0 !! podid = Some m → m !! c = Some md → c ∉ l.*1) →
  let e := foldl (λ e p, <[podid_of p.2 := <[md_ContId p.2 := p.2]> (default ∅ (e !! podid_of p.2))]> e) e0 l in
  ∀ podid c md, (∃ m, e !! podid = Some m ∧ m !! c = Some md) ↔
    (∃ m, e0 !! podid = Some m ∧ m !! c = Some md) ∨ (c, md) ∈ l ∧ podid_of md = podid.
Proof.
  revert e0. induction l as [|[c0 md0] l IH]; intros e0 Hnd Hc H0; cbn [foldl snd].
  { intros podid c md. split; [by left|]. intros [?|[Hin _]]; [done|by apply elem_of_nil in Hin]. }
  apply NoDup_cons in Hnd as [Hni Hnd]. assert (md_ContId md0 = c0) as E0 by (apply Hc, list_elem_of_here). rewrite E0.
  set (e1 := <[podid_of md0 := _]> e0).
  assert (∀ podid c md, (∃ m, e1 !! podid = Some m ∧ m !! c = Some md) ↔
    (∃ m, e0 !! podid = Some m ∧ m !! c = Some md) ∨ (c, md) = (c0, md0) ∧ podid_of md = podid) as H1.
  { intros podid c md. unfold e1. destruct (decide (podid = podid_of md0)) as [->|Hp].
    - rewrite lookup_insert_eq. split.
      + intros (m&[= <-]&Hm). destruct (decide (c = c0)) as [->|]; [rewrite lookup_insert_eq in Hm; injection Hm as <-; by right|].
        rewrite lookup_insert_ne in Hm by done. left.
        destruct (e0 !! podid_of md0) as [m0|]; [by exists m0|by destruct (lookup_empty_Some _ _ Hm)].
      + intros [(m&Hm&Hk)|[[= -> ->] _]]; eexists; (split; [done|]); [|apply lookup_insert_eq].
        rewrite Hm. cbn. rewrite lookup_insert_ne; [done|]. intros ->. eapply (H0 _ m c md Hm Hk). cbn. apply list_elem_of_here.
    - rewrite lookup_insert_ne by done. split; [by left|]. intros [?|[[= -> ->] E]]; [done|congruence]. }
  intros podid c md. cbn zeta. rewrite (IH e1 Hnd), H1.
  - rewrite elem_of_cons. tauto.
  - intros c' md' Hin. by apply Hc, list_elem_of_further.
  - intros q m c' md' Hq Hk Hin. destruct (proj1 (H1 q c' md')) as [(m0&Hm0&Hk0)|[[= -> ->] _]]; [by exists m| |done].
    eapply (H0 q m0 c' md' Hm0 Hk0). cbn. by apply list_elem_of_further.
Qed.

Lemma LoadMetadata_spec dir podid c md :
  (∀ c md, dir !! c = Some md → md_ContId md = c) →
  (∃ m, LoadMetadata dir !! podid = Some m ∧ m !! c = Some md) ↔ dir !! c = Some md ∧ podid_of md = podid.
Proof.
  intros Hc. unfold LoadMetadata. rewrite (load_elem (map_to_list dir) ∅).
  - rewrite elem_of_map_to_list. split; [|by right]. intros [(m&Hm&_)|?]; [by rewrite lookup_empty in Hm|done].
  - apply NoDup_fst_map_to_list.
  - intros c' md' Hin%elem_of_map_to_list. by apply Hc.
  - intros q m c' md' Hm. by rewrite lookup_empty in Hm.
Qed.

Lemma mark_ips (p : string) ips (u : gmap string string) k :
  is_Some (foldl (λ used ip, <[IP_String ip := p]> used) u ips !! k) ↔
  is_Some (u !! k) ∨ ∃ ip, ip ∈ ips ∧ k = IP_String ip.
Proof.
  revert u. induction ips as [|ip ips IH]; intros u; cbn [foldl].
  - split; [by left|]. intros [?|(ip&Hip&_)]; [done|by apply elem_of_nil in Hip].
  - rewrite IH, lookup_insert_is_Some'. setoid_rewrite elem_of_cons. naive_solver.
Qed.

Lemma mark_mds (mds : list ContainerMetadata) (u : gmap string string) k :
  is_Some (foldl (λ used md,
    foldl (λ used ip, <[IP_String ip := makePodKey (md_Namespace md) (md_Pod md)]> used) used (md_ips md)) u mds !! k) ↔
  is_Some (u !! k) ∨ ∃ md ip, md ∈ mds ∧ ip ∈ md_ips md ∧ k = IP_String ip.
Proof.
  revert u. induction mds as [|md mds IH]; intros u; cbn [foldl].
  - split; [by left|]. intros [?|(md&ip&Hmd&_)]; [done|by apply elem_of_nil in Hmd].
  - rewrite IH, mark_ips. setoid_rewrite elem_of_cons. naive_solver.
Qed.

Lemma buildUsedIPs_used a k :
  is_Some (usedIPs (buildUsedIPs a) !! k) ↔
  ∃ podid m c md ip, epMetadata a !! podid = Some m ∧ m !! c = Some md ∧ ip ∈ md_ips md ∧ k = IP_String ip.
Proof.
  unfold buildUsedIPs. cbn [set_ips usedIPs]. rewrite mark_mds, lookup_empty.
  assert (∀ md, md ∈ flat_map (λ p : string * gmap string ContainerMetadata, snd <$> map_to_list (snd p)) (map_to_list (epMetadata a)) ↔
    ∃ podid m c, epMetadata a !! podid = Some m ∧ m !! c = Some md) as Hin.
  { intros md. rewrite list_elem_of_In, in_flat_map. split.
    - intros ([podid m]&H1%list_elem_of_In&H2%list_elem_of_In). apply elem_of_map_to_list in H1.
      apply list_elem_of_fmap in H2 as ([c md']&->&H2%elem_of_map_to_list). by exists podid, m, c.
    - intros (podid&m&c&H1&H2). exists (podid, m). rewrite <- !list_elem_of_In, elem_of_map_to_list. split; [done|].
      apply list_elem_of_fmap. exists (c, md). by rewrite elem_of_map_to_list. }
  setoid_rewrite Hin. split.
  - intros [[? ?]|(md&ip&(podid&m&c&H1&H2)&H3&H4)]; [done|]. by exists podid, m, c, md, ip.
  - intros (podid&m&c&md&ip&H1&H2&H3&H4). right. exists md, ip. split_and!; [by exists podid, m, c|done|done].
Qed.

Lemma Init_ok G nc a :
  agent_ok G a → dir_ok a → agent_ok G (Init nc (cni_dir a)) ∧ dir_ok (Init nc (cni_dir a)).
Proof.
  intros Ha D. unfold Init. set (a0 := mkAgent _ _ _ _ _ _).
  assert (Hep : ∀ podid m c md, epMetadata a0 !! podid = Some m → m !! c = Some md →
    cni_dir a !! c = Some md ∧ podid_of md = podid).
  { intros podid m c md Hm Hk. apply LoadMetadata_spec; [apply (dr_cont _ D)|]. by exists m. }
  assert (Hused : ∀ c md ip, cni_dir a !! c = Some md → ip ∈ md_ips md → is_used (buildUsedIPs a0) ip).
  { intros c md ip Hc Hip. unfold is_used. rewrite buildUsedIPs_used.
    destruct (proj2 (LoadMetadata_spec (cni_dir a) (podid_of md) c md (dr_cont _ D))) as (m&Hm&Hk); [done|].
    by exists (podid_of md), m, c, md, ip. }
  split; split.
  - apply NewIpCache_inv.
  - intros ip Hf. by apply NewIpCache_free in Hf.
  - intros k. rewrite buildUsedIPs_used. intros (podid&m&c&md&ip&Hm&Hk&Hip&->). exists ip.
    destruct (Hep podid m c md Hm Hk) as [Hc _]. destruct (dr_used _ D c md ip Hc Hip) as [Hok Hu].
    destruct (used_spec G a ip Ha Hok Hu) as [HG _]. split_and!; [done|done|done|apply NewIpCache_free].
  - apply (dr_cont _ D).
  - apply (dr_nodup _ D).
  - intros c md ip Hc Hip. split; [by apply (dr_used _ D c md ip)|by eapply Hused].
  - apply (dr_apart _ D).
  - exact Hep.
Qed.
