(* ===== verification/PodNetSys.v ===== *)
(** * PodNetSys: the controller and the hosts together

    The controller (src/pkg/controller/nodes.go) gives ranges to the nodes and
    publishes them as annotations; the agents of the hosts
    (src/pkg/hostagent/ipam.go) take addresses for their containers from the
    ranges they have read.  A node object that reaches a handler, and an
    annotation that reaches an agent, may be any version that was ever
    published.  The invariant: every address was given to at most one node
    ([cluster_ok]). *)
From S2P Require Import Prelude GoBytes GoNet GoText GoText6 IpAlloc IpAllocFacts IpCache IpCacheFacts ApicTypes ApicBuild.
From S2P Require Import PodNet PodNetFacts HostIpam HostIpamFacts.

Open Scope Z_scope.

(** ** The configured pool *)

(** The 16-byte forms of IPv4 addresses. *)
Definition v4_mapped (x : Z) : Prop := x / 2 ^ 32 = 65535.

Definition apart (a b : IpRange) : Prop := hi a < lo b ∨ hi b < lo a.

(** Disjoint ranges of addresses as they are read from the configuration, none
    of the IPv6 ranges reaching into the mapped IPv4 addresses. *)
Record cfg_ok (cfg : NodeCfg) : Prop := {
  cf_chunk : 0 <= PodIpPoolChunkSize cfg <= MaxInt64;
  cf_ranges : Forall (range_ok 16) (PodIpPool cfg);
  cf_apart : StronglySorted apart (PodIpPool cfg);
  cf_family : Forall (λ r, is_v4 (Start r) = true ∧ is_v4 (End_ r) = true ∨
                           hi r < 65535 * 2 ^ 32 ∨ 65536 * 2 ^ 32 <= lo r) (PodIpPool cfg)
}.

#[export] Instance apart_dec : RelDecision apart.
Proof. intros a b. unfold apart. apply _. Defined.

Lemma is_v4_mapped ip : ok 16 ip → is_v4 ip = true ↔ v4_mapped (val ip).
Proof. intros Hip. rewrite (is_v4_16 ip Hip). unfold v4_mapped. by rewrite Z.eqb_eq. Qed.

Lemma is_v4_bool ip : is_v4 ip = bool_decide (is_Some (To4 ip)).
Proof. unfold is_v4. by destruct (To4 ip). Qed.

(** The pools that have been loaded: disjoint ranges, each in its family. *)
Record pools_ok (p : netIps) : Prop := {
  po_4 : sfl 16 (FreeList (p4 p));
  po_6 : sfl 16 (FreeList (p6 p));
  po_v4 : ∀ x, members (FreeList (p4 p)) x → v4_mapped x;
  po_v6 : ∀ x, members (FreeList (p6 p)) x → ¬ v4_mapped x
}.

Lemma add_apart fl r :
  sfl 16 (FreeList fl) → range_ok 16 r → (∀ x, members (FreeList fl) x → ¬ (lo r <= x <= hi r)) →
  sfl 16 (FreeList (AddRange fl (Start r) (End_ r))) ∧
  ∀ x, members (FreeList (AddRange fl (Start r) (End_ r))) x ↔ members (FreeList fl) x ∨ lo r <= x <= hi r.
Proof.
  intros Hs (H1&H2&H3) Hd. split.
  - apply AddRange_disjoint; auto. intros x Hx Hm. by apply (Hd x Hm).
  - apply (AddRange_ok 16); auto using sfl_wfl.
Qed.

Lemma loadIpRange_ok p r :
  pools_ok p → range_ok 16 r →
  (is_v4 (Start r) = true ∧ is_v4 (End_ r) = true ∨ hi r < 65535 * 2 ^ 32 ∨ 65536 * 2 ^ 32 <= lo r) →
  (∀ x, members (FreeList (p4 p)) x ∨ members (FreeList (p6 p)) x → ¬ (lo r <= x <= hi r)) →
  pools_ok (loadIpRange p r) ∧
  ∀ x, members (FreeList (p4 (loadIpRange p r))) x ∨ members (FreeList (p6 (loadIpRange p r))) x ↔
       (members (FreeList (p4 p)) x ∨ members (FreeList (p6 p)) x) ∨ lo r <= x <= hi r.
Proof.
  intros [S4 S6 F4 F6] Hr Hfam Hd. pose proof Hr as (H1&H2&H3). unfold loadIpRange. rewrite <- !is_v4_bool.
  destruct (is_v4 (Start r) && is_v4 (End_ r)) eqn:E.
  - apply andb_true_iff in E as [E1 E2]. apply is_v4_mapped in E1, E2; [|done..].
    destruct (add_apart (p4 p) r S4 Hr) as [S4' M4]; [intros x Hx; apply Hd; by left|].
    split; [|cbn; intros x; rewrite M4; tauto]. split; cbn; auto. intros x [Hx|Hx]%M4; [auto|].
    unfold v4_mapped, lo, hi in *. pose proof (Z.div_le_mono (val (Start r)) x (2 ^ 32)).
    pose proof (Z.div_le_mono x (val (End_ r)) (2 ^ 32)). lia.
  - rewrite (proj2 (ok_length _ H1)), (proj2 (ok_length _ H2)). cbn [andb].
    destruct (add_apart (p6 p) r S6 Hr) as [S6' M6]; [intros x Hx; apply Hd; by right|].
    split; [|cbn; intros x; rewrite M6; tauto]. split; cbn; auto. intros x [Hx|Hx]%M6; [auto|].
    destruct Hfam as [[E1 E2]|Hfam]; [by rewrite E1, E2 in E|]. unfold v4_mapped. intros Hm.
    pose proof (Z.div_mod x (2 ^ 32) ltac:(lia)). pose proof (Z.mod_pos_bound x (2 ^ 32) ltac:(lia)). lia.
Qed.

Lemma newNetIps_ok : pools_ok newNetIps.
Proof. split; cbn; auto with go; intros x; rewrite members_nil; tauto. Qed.

Lemma loadIpRanges_ok rs p :
  pools_ok p → Forall (range_ok 16) rs → StronglySorted apart rs →
  Forall (λ r, is_v4 (Start r) = true ∧ is_v4 (End_ r) = true ∨ hi r < 65535 * 2 ^ 32 ∨ 65536 * 2 ^ 32 <= lo r) rs →
  (∀ r x, r ∈ rs → members (FreeList (p4 p)) x ∨ members (FreeList (p6 p)) x → ¬ (lo r <= x <= hi r)) →
  pools_ok (loadIpRanges p rs).
Proof.
  unfold loadIpRanges. revert p. induction rs as [|r rs IH]; intros p Hp Hr Ha Hf Hd; cbn [foldl]; [done|].
  apply Forall_cons in Hr as [Hr Hrs]. apply Forall_cons in Hf as [Hf Hfs]. inversion Ha as [|?? Ha' Hall]; subst.
  destruct (loadIpRange_ok p r Hp Hr Hf) as [Hp' Hm]; [intros x; apply Hd, list_elem_of_here|].
  apply IH; [done|done|done|done|]. intros r' x Hin. rewrite Hm. intros [Hx|Hx] Hx'.
  - by apply (Hd r' x (list_elem_of_further _ _ _ Hin) Hx).
  - rewrite Forall_forall in Hall. destruct (Hall r' Hin); lia.
Qed.

Lemma AddAll_New fl : sfl 16 (FreeList fl) →
  sfl 16 (FreeList (AddAll New fl)) ∧ ∀ x, members (FreeList (AddAll New fl)) x ↔ members (FreeList fl) x.
Proof.
  intros Hs. unfold AddAll. split.
  - apply AddRanges_disjoint; [apply sfl_nil|done|]. intros x Hx. by apply members_nil in Hx.
  - intros x. destruct (AddRanges_ok 16 (FreeList fl) New) as [_ Ha]; [apply wfl_nil|apply Hs|].
    rewrite (Ha x). change (FreeList New) with (@nil IpRange). rewrite members_nil. tauto.
Qed.

Definition no_grants : grants := λ _ _, False.

Lemma initIpam_ok cfg :
  cfg_ok cfg →
  pools_ok (configuredPodNetworkIps (initIpam cfg)) ∧ pn_ok (initIpam cfg) no_grants no_grants.
Proof.
  intros [_ Hr Ha Hf].
  assert (pools_ok (loadIpRanges newNetIps (PodIpPool cfg))) as Hp.
  { apply loadIpRanges_ok; [apply newNetIps_ok|done..|]. intros r x _. cbn. rewrite members_nil. tauto. }
  split; [done|]. set (conf := loadIpRanges _ _) in *.
  assert (∀ fl, sfl 16 (FreeList fl) → fam_ok (FreeList fl) (FreeList (AddAll New fl)) (λ _, []) no_grants) as Hfam.
  { intros fl Hs. destruct (AddAll_New fl Hs) as [Hs' Hm]. split; [done|done|intros; apply sfl_nil| |done|done| |done].
    - intros n x Hx. by apply members_nil in Hx.
    - intros x. apply Hm. }
  split; cbn [initIpam configuredPodNetworkIps podNetworkIps p4 p6]; fold conf.
  - eapply fam_ext; [|apply Hfam, Hp]. intros n. unfold own4, podnet_of. cbn. by rewrite lookup_empty.
  - eapply fam_ext; [|apply Hfam, Hp]. intros n. unfold own6, podnet_of. cbn. by rewrite lookup_empty.
  - intros n. unfold podnet_of. cbn [initIpam nodePodNetCache]. rewrite lookup_empty. apply new_ann_ok.
Qed.

(** ** Annotations of a node *)

(** The ranges of a text were given to node [n]. *)
Definition text_in (G4 G6 : grants) (n : string) (t : text) : Prop :=
  ∀ v, Unmarshal t = Some v →
    ips_ok v ∧ (∀ x, members (V4 v) x → G4 n x) ∧ (∀ x, members (V6 v) x → G6 n x).

Lemma text_in_more G4 G6 G4' G6' n t : more G4 G4' → more G6 G6' → text_in G4 G6 n t → text_in G4' G6' n t.
Proof. intros M4 M6 H v E. destruct (H v E) as (H1&H2&H3). split_and!; [done|intros x ?; apply M4; auto|intros x ?; apply M6; auto]. Qed.

Lemma text_in_fits s G4 G6 n t : pn_ok s G4 G6 → text_in G4 G6 n t → text_fits s G4 G6 n t.
Proof.
  intros [F4 F6 _] H v E. destruct (H v E) as (H1&H2&H3). split_and!; [done| |].
  - intros m x Hx _ Hm. eapply (fam_apart _ _ _ _ F4); [exact Hm|by apply H2].
  - intros m x Hx _ Hm. eapply (fam_apart _ _ _ _ F6); [exact Hm|by apply H3].
Qed.

(** The annotation that the controller computes. *)
Lemma ann_in s G4 G6 n : pn_ok s G4 G6 → text_in G4 G6 n (podNetIpsAnnotation (podnet_of s n)).
Proof.
  intros [F4 F6 Ha] v E. destruct (Ha n) as [E'|[E' _]]; [|by rewrite E' in E].
  assert (v = podNetIps (podnet_of s n)) as -> by congruence.
  split_and!; [split; [apply (fam_own _ _ _ _ F4 n)|apply (fam_own _ _ _ _ F6 n)]| |].
  - apply (fam_own_G _ _ _ _ F4).
  - apply (fam_own_G _ _ _ _ F6).
Qed.

Definition ann_in_opt (G4 G6 : grants) (node : Node) : Prop :=
  ∀ t, ann_PodNet node = Some t → text_in G4 G6 (node_Name node) t.

Lemma syncPodNet_in s G4 G6 node :
  pn_ok s G4 G6 → ann_in_opt G4 G6 node →
  ∃ G4' G6', more G4 G4' ∧ more G6 G6' ∧ pn_ok (syncPodNet node s) G4' G6' ∧
    configuredPodNetworkIps (syncPodNet node s) = configuredPodNetworkIps s ∧
    nodeSyncEnabled (syncPodNet node s) = nodeSyncEnabled s.
Proof.
  intros Hp Hin. destruct (ann_PodNet node) as [t|] eqn:E.
  - destruct (syncPodNet_ok s G4 G6 node t Hp E (text_in_fits _ _ _ _ _ Hp (Hin t E))) as (H1&_&_&_&H2&_).
    do 2 eexists. split_and!; [| |exact H1|exact H2|]; [intros ? ?; apply grant_l..|].
    unfold syncPodNet. rewrite E. unfold mergePodNet. destruct (Unmarshal t); [|done].
    destruct (merge_family _ _ _ (V4 _)), (merge_family _ _ _ (V6 _)). done.
  - exists G4, G6. unfold syncPodNet. by rewrite E.
Qed.

(** What a handler of a node leaves. *)
Lemma nodeChanged_in cfg rnd driver node s s' node' G4 G6 :
  0 <= PodIpPoolChunkSize cfg <= MaxInt64 → pn_ok s G4 G6 → ann_in_opt G4 G6 node →
  nodeChanged cfg rnd driver node s = Some (s', node') →
  ∃ G4' G6', more G4 G4' ∧ more G6 G6' ∧ pn_ok s' G4' G6' ∧ ann_in_opt G4' G6' node' ∧
    configuredPodNetworkIps s' = configuredPodNetworkIps s ∧ nodeSyncEnabled s' = nodeSyncEnabled s ∧
    node_Name node' = node_Name node.
Proof.
  intros Hc Hp Hin E. apply nodeChanged_step in E as ([H1 H2 H3]&Hn&Hann&Hsync&_); [|done].
  destruct (H3 _ _ Hp) as (G4'&G6'&M4&M6&Hp'). exists G4', G6'. split_and!; [done|done|done| |done|done|done].
  intros t Et. rewrite Hn. destruct Hann as [Ha|Ha]; rewrite Ha in Et.
  - eapply text_in_more; [exact M4|exact M6|]. by apply Hin.
  - injection Et as <-. by apply (ann_in s').
Qed.

Lemma node_added_in cfg rnd driver node s s' node' G4 G6 :
  0 <= PodIpPoolChunkSize cfg <= MaxInt64 → pn_ok s G4 G6 → ann_in_opt G4 G6 node →
  node_added cfg rnd driver node s = Some (s', node') →
  ∃ G4' G6', more G4 G4' ∧ more G6 G6' ∧ pn_ok s' G4' G6' ∧ ann_in_opt G4' G6' node' ∧
    configuredPodNetworkIps s' = configuredPodNetworkIps s ∧ nodeSyncEnabled s' = nodeSyncEnabled s ∧
    node_Name node' = node_Name node.
Proof.
  intros Hc Hp Hin E. destruct (syncPodNet_in s G4 G6 node Hp Hin) as (A4&A6&M4&M6&Hp1&C1&S1).
  destruct (nodeChanged_in cfg rnd driver node _ s' node' A4 A6 Hc Hp1) as (B4&B6&N4&N6&Hp2&An&C2&S2&Na); [|done|].
  - intros t Et. eapply text_in_more; [exact M4|exact M6|by apply Hin].
  - exists B4, B6. split_and!; [by eapply more_trans|by eapply more_trans|done|done|congruence|congruence|done].
Qed.

(** ** The start of the controller *)

(** The informer adds the nodes before synchronisation is enabled; then all
    nodes are gone through again. *)
Definition startup (cfg : NodeCfg) (rnd : option (list Z)) (driver : option (option (gmap string Z)))
    (nodes : list Node) : option (NodeState * list Node) :=
  '(s, nodes) ← nodeFullSync cfg rnd driver nodes (initIpam cfg);
  nodeFullSync cfg rnd driver nodes (set_sync true s).

Lemma nodeChanged_nosync cfg rnd driver node s s' node' :
  nodeSyncEnabled s = false → nodeChanged cfg rnd driver node s = Some (s', node') →
  same_podnet s s' ∧ nodeSyncEnabled s' = false ∧ ann_PodNet node' = ann_PodNet node ∧ node_Name node' = node_Name node.
Proof.
  intros Hs. unfold nodeChanged. destruct (ChainedMode cfg) eqn:Ech; [by intros [= <- <-]|].
  destruct (node_service _ _ _ _) as [[[s1 node1] u1]|] eqn:E1; [|done]. cbn [mbind option_bind].
  apply node_service_same in E1 as (Sm1&Sy1&Na1&An1). rewrite Hs in Sy1.
  destruct (node_podnet _ _ _) as [[s2 node2] u2] eqn:E2.
  assert (same_podnet s1 s2 ∧ nodeSyncEnabled s2 = false ∧ node2 = node1) as (Sm2&Sy2&->).
  { unfold node_podnet in E2. destruct (nodePodNetCache s1 !! node_Name node1) as [m|] eqn:Em.
    - rewrite Sy1 in E2. by injection E2 as <- <- <-.
    - change (nodeSyncEnabled (set_podnet _ _ s1)) with (nodeSyncEnabled s1) in E2. rewrite Sy1 in E2.
      injection E2 as <- <- <-. split_and!; [|done|done]. split_and!; [done|done|]. intros n. rewrite podnet_of_set.
      destruct (decide (n = node_Name node1)) as [->|]; [|done]. unfold podnet_of. by rewrite Em. }
  destruct (node_acipod _ _ _) as [node3 u3] eqn:E3. unfold node_acipod in E3. rewrite Sy2, andb_false_r in E3. cbn in E3.
  injection E3 as <- <-. unfold createNetPolForNode. destruct (apicNodeNetPol _ _ _) as [hpp|]; [|done]. cbn [mbind option_bind].
  unfold writeApicNode. rewrite Ech.
  set (s3 := node_emit _ s2). pose proof (getTunnelID_same cfg driver node1 s3) as [Sm4 Sy4].
  destruct (getTunnelID _ _ _ _) as [id s4]. cbn [snd] in Sm4, Sy4.
  destruct (NewVmmInjectedHost _ _ _ _) as [o|]; [|done]. cbn [mbind option_bind]. intros [= Es <-].
  assert (same_podnet s2 s' ∧ nodeSyncEnabled s' = false) as [Sm Sy].
  { rewrite <- Es. destruct (_ || _); split; [exact Sm4|exact (eq_trans Sy4 Sy2)|exact Sm4|exact (eq_trans Sy4 Sy2)]. }
  split_and!; [|done|done|done]. destruct Sm1 as (?&?&A), Sm2 as (?&?&B), Sm as (?&?&C).
  split_and!; [congruence|congruence|]. intros n. by rewrite C, B, A.
Qed.

(** The annotations that the nodes have when the controller starts: ranges
    within the configured ones, disjoint for different nodes. *)
Record nodes_ok (conf : netIps) (nodes : list Node) : Prop := {
  no_names : NoDup (map node_Name nodes);
  no_conf : ∀ node t v, node ∈ nodes → ann_PodNet node = Some t → Unmarshal t = Some v →
    ips_ok v ∧ (∀ x, members (V4 v) x → members (FreeList (p4 conf)) x) ∧
    (∀ x, members (V6 v) x → members (FreeList (p6 conf)) x);
  no_apart : ∀ node1 node2 t1 t2 v1 v2, node1 ∈ nodes → node2 ∈ nodes → node_Name node1 ≠ node_Name node2 →
    ann_PodNet node1 = Some t1 → ann_PodNet node2 = Some t2 → Unmarshal t1 = Some v1 → Unmarshal t2 = Some v2 →
    disjoint (members (V4 v1)) (members (V4 v2)) ∧ disjoint (members (V6 v1)) (members (V6 v2))
}.

Lemma nodes_ok_cons conf node nodes : nodes_ok conf (node :: nodes) → nodes_ok conf nodes.
Proof.
  intros [H1 H2 H3]. split.
  - cbn [map] in H1. by apply NoDup_cons in H1 as [_ ?].
  - intros n t v Hin. apply H2. by apply list_elem_of_further.
  - intros n1 n2 t1 t2 v1 v2 Hi1 Hi2. apply H3; by apply list_elem_of_further.
Qed.

(** The ranges of a node are those of its annotation, and they left the pool. *)
Definition node_has (v : option NetIps) (x4 : Z → Prop) (x6 : Z → Prop) : Prop :=
  (∀ x, x4 x ↔ ∃ w, v = Some w ∧ members (V4 w) x) ∧ (∀ x, x6 x ↔ ∃ w, v = Some w ∧ members (V6 w) x).

Record pass_result (s s' : NodeState) (nodes : list Node) : Prop := {
  pr_others : ∀ m, m ∉ map node_Name nodes → podnet_of s' m = podnet_of s m;
  pr_own : ∀ node t, node ∈ nodes → ann_PodNet node = Some t →
    node_has (Unmarshal t) (members (own4 s' (node_Name node))) (members (own6 s' (node_Name node)));
  pr_none : ∀ node, node ∈ nodes → ann_PodNet node = None → podnet_of s' (node_Name node) = podnet_of s (node_Name node);
  pr_pool4 : ∀ x, members (FreeList (p4 (podNetworkIps s'))) x ↔ members (FreeList (p4 (podNetworkIps s))) x ∧
    ∀ node t v, node ∈ nodes → ann_PodNet node = Some t → Unmarshal t = Some v → ¬ members (V4 v) x;
  pr_pool6 : ∀ x, members (FreeList (p6 (podNetworkIps s'))) x ↔ members (FreeList (p6 (podNetworkIps s))) x ∧
    ∀ node t v, node ∈ nodes → ann_PodNet node = Some t → Unmarshal t = Some v → ¬ members (V6 v) x
}.

Lemma pass_result_nil s : pass_result s s [].
Proof.
  split; try done.
  - intros node t Hin. by apply elem_of_nil in Hin.
  - intros x. split; [|tauto]. intros Hx. split; [done|]. intros node t v Hin. by apply elem_of_nil in Hin.
  - intros x. split; [|tauto]. intros Hx. split; [done|]. intros node t v Hin. by apply elem_of_nil in Hin.
Qed.

(** One node, then the others. *)
Lemma pass_result_cons s s0 s1 s2 node nodes :
  node_Name node ∉ map node_Name nodes → pass_result s s0 [node] → same_podnet s0 s1 → pass_result s1 s2 nodes →
  pass_result s s2 (node :: nodes).
Proof.
  intros Hni [A1 A2 A3 A4 A6] (_&E2&E3) [B1 B2 B3 B4 B6]. rewrite E2 in B4, B6.
  assert (node_Name node ∉ map node_Name nodes) as Hni' by done.
  assert (podnet_of s2 (node_Name node) = podnet_of s0 (node_Name node)) as Eo by (by rewrite B1, E3).
  assert (∀ n', n' ∈ nodes → podnet_of s1 (node_Name n') = podnet_of s (node_Name n')) as Hoth.
  { intros n' Hin. rewrite E3. apply A1. cbn. rewrite list_elem_of_singleton. intros Heq. apply Hni.
    rewrite <- Heq. by apply list_elem_of_fmap_2. }
  split.
  - intros m Hm. cbn [map] in Hm. apply not_elem_of_cons in Hm as [Hm1 Hm2]. rewrite (B1 m Hm2), (E3 m). apply A1. cbn.
    by rewrite list_elem_of_singleton.
  - intros n' t [->|Hin]%elem_of_cons Et; [|by apply B2]. unfold own4, own6. rewrite Eo. apply (A2 node t); [|done].
    apply list_elem_of_here.
  - intros n' [->|Hin]%elem_of_cons Et; [rewrite Eo; apply A3; [apply list_elem_of_here|done]|].
    rewrite (B3 n' Hin Et). by apply Hoth.
  - intros x. rewrite B4, A4. setoid_rewrite elem_of_cons. setoid_rewrite elem_of_nil. naive_solver.
  - intros x. rewrite B6, A6. setoid_rewrite elem_of_cons. setoid_rewrite elem_of_nil. naive_solver.
Qed.

Lemma sync_result s node nodes t :
  ann_PodNet node = Some t → nodes_ok (configuredPodNetworkIps s) (node :: nodes) →
  (∀ x, members (own4 (syncPodNet node s) (node_Name node)) x ↔ text4 s t x) →
  (∀ x, members (own6 (syncPodNet node s) (node_Name node)) x ↔ text6 s t x) →
  (∀ m, m ≠ node_Name node → podnet_of (syncPodNet node s) m = podnet_of s m) →
  (∀ x, members (FreeList (p4 (podNetworkIps (syncPodNet node s)))) x ↔
     members (FreeList (p4 (podNetworkIps s))) x ∧ ∀ v, Unmarshal t = Some v → ¬ members (V4 v) x) →
  (∀ x, members (FreeList (p6 (podNetworkIps (syncPodNet node s)))) x ↔
     members (FreeList (p6 (podNetworkIps s))) x ∧ ∀ v, Unmarshal t = Some v → ¬ members (V6 v) x) →
  pass_result s (syncPodNet node s) [node].
Proof.
  intros Et Hn O4 O6 Oth P4 P6.
  assert (∀ v, Unmarshal t = Some v → (∀ x, members (V4 v) x → members (FreeList (p4 (configuredPodNetworkIps s))) x) ∧
    (∀ x, members (V6 v) x → members (FreeList (p6 (configuredPodNetworkIps s))) x)) as Hin.
  { intros v Ev. by destruct (no_conf _ _ Hn node t v (list_elem_of_here _ _) Et Ev) as (_&?&?). }
  split.
  - intros m. cbn [map]. rewrite list_elem_of_singleton. apply Oth.
  - intros n' t' ->%list_elem_of_singleton Et'. assert (t' = t) as -> by congruence. split; intros x.
    + rewrite O4. unfold text4. split; [intros (v&?&?&_); eauto|]. intros (v&Ev&Hx). exists v. split_and!; [done..|]. by apply (Hin v).
    + rewrite O6. unfold text6. split; [intros (v&?&?&_); eauto|]. intros (v&Ev&Hx). exists v. split_and!; [done..|]. by apply (Hin v).
  - intros n' ->%list_elem_of_singleton. congruence.
  - intros x. rewrite P4. split; intros [Hx Hv]; (split; [done|]).
    + intros n' t' v ->%list_elem_of_singleton Et'. assert (t' = t) as -> by congruence. apply Hv.
    + intros v. by apply (Hv node t v (list_elem_of_here _ _)).
  - intros x. rewrite P6. split; intros [Hx Hv]; (split; [done|]).
    + intros n' t' v ->%list_elem_of_singleton Et'. assert (t' = t) as -> by congruence. apply Hv.
    + intros v. by apply (Hv node t v (list_elem_of_here _ _)).
Qed.

(** The first pass: every node has what its annotation says. *)
Lemma first_pass cfg rnd driver nodes s s' nodes' G4 G6 :
  pn_ok s G4 G6 → nodeSyncEnabled s = false → nodes_ok (configuredPodNetworkIps s) nodes →
  (∀ node t v, node ∈ nodes → ann_PodNet node = Some t → Unmarshal t = Some v →
     (∀ m x, members (V4 v) x → ¬ G4 m x) ∧ (∀ m x, members (V6 v) x → ¬ G6 m x)) →
  nodeFullSync cfg rnd driver nodes s = Some (s', nodes') →
  ∃ G4' G6', more G4 G4' ∧ more G6 G6' ∧ pn_ok s' G4' G6' ∧ nodeSyncEnabled s' = false ∧
    configuredPodNetworkIps s' = configuredPodNetworkIps s ∧ Forall (ann_in_opt G4' G6') nodes ∧
    Forall2 (λ a b, node_Name b = node_Name a ∧ ann_PodNet b = ann_PodNet a) nodes nodes' ∧
    pass_result s s' nodes.
Proof.
  revert s s' nodes' G4 G6. induction nodes as [|node nodes IH]; intros s s' nodes' G4 G6 Hp Hs Hn Hfree; cbn [nodeFullSync].
  { intros [= <- <-]. exists G4, G6. split_and!; [done|done|done|done|done|constructor|constructor|apply pass_result_nil]. }
  destruct (node_added _ _ _ node s) as [[s1 node1]|] eqn:E1; [|done]. cbn [mbind option_bind].
  destruct (nodeFullSync _ _ _ nodes s1) as [[s2 nodes2]|] eqn:E2; [|done]. intros [= <- <-].
  assert (∃ A4 A6, more G4 A4 ∧ more G6 A6 ∧ pn_ok (syncPodNet node s) A4 A6 ∧ ann_in_opt A4 A6 node ∧
    (∀ m x, A4 m x → G4 m x ∨ m = node_Name node ∧ ∃ t v, ann_PodNet node = Some t ∧ Unmarshal t = Some v ∧ members (V4 v) x) ∧
    (∀ m x, A6 m x → G6 m x ∨ m = node_Name node ∧ ∃ t v, ann_PodNet node = Some t ∧ Unmarshal t = Some v ∧ members (V6 v) x) ∧
    configuredPodNetworkIps (syncPodNet node s) = configuredPodNetworkIps s ∧ nodeSyncEnabled (syncPodNet node s) = false ∧
    pass_result s (syncPodNet node s) [node])
    as (A4&A6&M4&M6&Hp1&An1&Fr4&Fr6&C1&S1&R1).
  { destruct (ann_PodNet node) as [t|] eqn:Et.
    - assert (text_fits s G4 G6 (node_Name node) t) as Hfit.
      { intros v Ev. destruct (no_conf _ _ Hn node t v (list_elem_of_here _ _) Et Ev) as (Hok&_).
        destruct (Hfree node t v (list_elem_of_here _ _) Et Ev) as [D4 D6]. split_and!; [done| |].
        - intros m x Hx _ Hm. by destruct (D4 m x Hx).
        - intros m x Hx _ Hm. by destruct (D6 m x Hx). }
      destruct (syncPodNet_ok s G4 G6 node t Hp Et Hfit) as (H1&O4&O6&Oth&H2&P4&P6).
      do 2 eexists. split_and!; [| |exact H1| | | |exact H2| |]; [intros ? ?; apply grant_l..| | | | |].
      + intros t' Et' v Ev. assert (t' = t) as -> by congruence.
        destruct (no_conf _ _ Hn node t v (list_elem_of_here _ _) Et Ev) as (Hok&I4&I6).
        split_and!; [done| |]; intros x Hx; right; (split; [done|]); exists v; auto.
      + intros m x [Hx|[-> (v&Ev&Hx&_)]]; [by left|]. right. split; [done|]. by exists t, v.
      + intros m x [Hx|[-> (v&Ev&Hx&_)]]; [by left|]. right. split; [done|]. by exists t, v.
      + unfold syncPodNet. rewrite Et. unfold mergePodNet. destruct (Unmarshal t); [|done].
        destruct (merge_family _ _ _ (V4 _)), (merge_family _ _ _ (V6 _)). done.
      + exact (sync_result s node nodes t Et Hn O4 O6 Oth P4 P6).
    - exists G4, G6. assert (syncPodNet node s = s) as -> by (unfold syncPodNet; by rewrite Et).
      split_and!; [done|done|done| | | |done|done|]; [|intros m x Hx; by left|intros m x Hx; by left|].
      + intros t Et'. congruence.
      + split; try done.
        * intros n' t ->%list_elem_of_singleton. congruence.
        * intros x. split; [|tauto]. intros Hx. split; [done|]. intros n' t v ->%list_elem_of_singleton. congruence.
        * intros x. split; [|tauto]. intros Hx. split; [done|]. intros n' t v ->%list_elem_of_singleton. congruence. }
  apply nodeChanged_nosync in E1 as (Sm&Sy&An&Na); [|done].
  destruct (IH s1 s2 nodes2 A4 A6) as (B4&B6&N4&N6&Hp2&Sy2&C2&F2&FF&R2).
  - by eapply same_podnet_ok.
  - done.
  - destruct Sm as (->&_&_). rewrite C1. by eapply nodes_ok_cons.
  - intros node2 t2 v2 Hin Et2 Ev2. pose proof (list_elem_of_further node2 node nodes Hin) as Hin'.
    destruct (Hfree node2 t2 v2 Hin' Et2 Ev2) as [D4 D6].
    assert (node_Name node ≠ node_Name node2) as Hne.
    { pose proof (no_names _ _ Hn) as Hnd. cbn [map] in Hnd. apply NoDup_cons in Hnd as [Hni _]. intros Heq. apply Hni.
      rewrite Heq. by apply list_elem_of_fmap_2. }
    split; intros m x Hx Hm.
    + apply Fr4 in Hm as [Hm|[-> (t&v&Et&Ev&Hv)]]; [by eapply D4|].
      destruct (no_apart _ _ Hn node node2 t t2 v v2 (list_elem_of_here _ _) Hin' Hne Et Et2 Ev Ev2) as [Da _]. by eapply Da.
    + apply Fr6 in Hm as [Hm|[-> (t&v&Et&Ev&Hv)]]; [by eapply D6|].
      destruct (no_apart _ _ Hn node node2 t t2 v v2 (list_elem_of_here _ _) Hin' Hne Et Et2 Ev Ev2) as [_ Da]. by eapply Da.
  - exact E2.
  - exists B4, B6. split_and!; [by eapply more_trans|by eapply more_trans|done|done| | | |].
    + destruct Sm as (Sm&_&_). congruence.
    + constructor; [|done]. intros t Et. eapply text_in_more; [exact N4|exact N6|by apply An1].
    + constructor; [done|done].
    + eapply pass_result_cons; [|exact R1|exact Sm|exact R2].
      pose proof (no_names _ _ Hn) as Hnd. cbn [map] in Hnd. by apply NoDup_cons in Hnd as [Hni _].
Qed.

(** The second pass. *)
Lemma second_pass cfg rnd driver nodes s s' nodes' G4 G6 :
  0 <= PodIpPoolChunkSize cfg <= MaxInt64 → pn_ok s G4 G6 → Forall (ann_in_opt G4 G6) nodes →
  nodeFullSync cfg rnd driver nodes s = Some (s', nodes') →
  ∃ G4' G6', more G4 G4' ∧ more G6 G6' ∧ pn_ok s' G4' G6' ∧ Forall (ann_in_opt G4' G6') nodes' ∧
    configuredPodNetworkIps s' = configuredPodNetworkIps s ∧ map node_Name nodes' = map node_Name nodes.
Proof.
  intros Hc. revert s s' nodes' G4 G6. induction nodes as [|node nodes IH]; intros s s' nodes' G4 G6 Hp Hn; cbn [nodeFullSync].
  { intros [= <- <-]. exists G4, G6. split_and!; done. }
  apply Forall_cons in Hn as [H1 Hn].
  destruct (node_added _ _ _ node s) as [[s1 node1]|] eqn:E1; [|done]. cbn [mbind option_bind].
  destruct (nodeFullSync _ _ _ nodes s1) as [[s2 nodes2]|] eqn:E2; [|done]. intros [= <- <-].
  eapply node_added_in in E1 as (A4&A6&M4&M6&Hp1&An&C1&_&Na); [|done|done|done].
  eapply IH in E2 as (B4&B6&N4&N6&Hp2&Fn&C2&Nm); [|done|].
  - exists B4, B6. split_and!; [by eapply more_trans|by eapply more_trans|done| |congruence|cbn; congruence].
    constructor; [|done]. intros t Et. eapply text_in_more; [exact N4|exact N6|by apply An].
  - eapply Forall_impl; [exact Hn|]. intros n Hin t Et. eapply text_in_more; [exact M4|exact M6|by apply Hin].
Qed.

(** ** The cluster *)

Record Cluster := mkCluster {
  ctl : NodeState;
  published : gmap string (list text);
  hosts : gmap string HostAgent
}.

(** The texts that were ever published for a node. *)
Definition texts (c : Cluster) (n : string) : list text := default [] (published c !! n).

Definition publish (node : Node) (p : gmap string (list text)) : gmap string (list text) :=
  match ann_PodNet node with
  | None => p
  | Some t => <[node_Name node := t :: default [] (p !! node_Name node)]> p
  end.

(** A version of a node object: its annotation was published at some time. *)
Definition version (c : Cluster) (node : Node) : Prop :=
  ∀ t, ann_PodNet node = Some t → t ∈ texts c (node_Name node).

Section Cluster.
Context (cfg : NodeCfg).

Inductive cluster_step : Cluster → Cluster → Prop :=
  | step_added c rnd driver node s' node' :
      version c node → node_added cfg rnd driver node (ctl c) = Some (s', node') →
      cluster_step c (mkCluster s' (publish node' (published c)) (hosts c))
  | step_changed c rnd driver node s' node' :
      version c node → nodeChanged cfg rnd driver node (ctl c) = Some (s', node') →
      cluster_step c (mkCluster s' (publish node' (published c)) (hosts c))
  | step_deleted c di dp obj :
      cluster_step c (mkCluster (nodeDeleted cfg di dp obj (ctl c)) (published c) (hosts c))
  | step_pod_added c n key :
      cluster_step c (mkCluster (addPodToNode cfg n key (ctl c)) (published c) (hosts c))
  | step_pod_removed c n key :
      cluster_step c (mkCluster (removePodFromNode cfg n key (ctl c)) (published c) (hosts c))
  | step_other c s' :
      same_podnet (ctl c) s' → cluster_step c (mkCluster s' (published c) (hosts c))
  | step_host_ranges c n a t :
      hosts c !! n = Some a → t ∈ texts c n →
      cluster_step c (mkCluster (ctl c) (published c) (<[n := updateIpamAnnotation t a]> (hosts c)))
  | step_configure c n a veth network recordOk clearOk md a' res :
      hosts c !! n = Some a → Forall (λ i, if_IPs i = []) (Ifaces md) →
      (∀ md', cni_dir a !! md_ContId md = Some md' → podid_of md' = podid_of md) →
      configureContainerIfaces veth network recordOk clearOk md a = (a', res) →
      cluster_step c (mkCluster (ctl c) (published c) (<[n := a']> (hosts c)))
  | step_unconfigure c n a clearOk ns pod cont :
      hosts c !! n = Some a →
      cluster_step c (mkCluster (ctl c) (published c)
        (<[n := unconfigureContainerIfaces clearOk ns pod cont a]> (hosts c)))
  | step_host_restart c n a nc :
      hosts c !! n = Some a →
      cluster_step c (mkCluster (ctl c) (published c) (<[n := Init nc (cni_dir a)]> (hosts c))).

(** The addresses that node [n] was given. *)
Definition granted (G4 G6 : grants) (n : string) (ip : IP) : Prop :=
  if is_v4 ip then G4 n (val ip) else G6 n (val ip).

Definition cluster_ok (c : Cluster) : Prop :=
  (configuredPodNetworkIps (ctl c) = configuredPodNetworkIps (initIpam cfg) ∧
   pools_ok (configuredPodNetworkIps (ctl c))) ∧
  ∃ G4 G6, pn_ok (ctl c) G4 G6 ∧ (∀ n t, t ∈ texts c n → text_in G4 G6 n t) ∧
    ∀ n a, hosts c !! n = Some a → agent_ok (granted G4 G6 n) a ∧ dir_ok a.

Lemma granted_more G4 G6 G4' G6' n ip :
  more G4 G4' → more G6 G6' → granted G4 G6 n ip → granted G4' G6' n ip.
Proof using Type. intros M4 M6. unfold granted. destruct (is_v4 ip); auto. Qed.

Lemma texts_publish c s h node n t :
  t ∈ texts (mkCluster s (publish node (published c)) h) n →
  t ∈ texts c n ∨ n = node_Name node ∧ ann_PodNet node = Some t.
Proof using Type.
  unfold texts, publish. cbn [published]. destruct (ann_PodNet node) as [t'|] eqn:E; [|by left].
  destruct (decide (n = node_Name node)) as [->|].
  - rewrite lookup_insert_eq. cbn [default]. unfold id. intros [->|Hin]%elem_of_cons; [by right|by left].
  - rewrite lookup_insert_ne by done. by left.
Qed.

(** The controller moves on. *)
Lemma pn_step_cluster c n s' :
  cluster_ok c → pn_step n (ctl c) s' → cluster_ok (mkCluster s' (published c) (hosts c)).
Proof using Type.
  intros (Hc&G4&G6&Hp&Ht&Hh) [E _ H]. destruct (H G4 G6 Hp) as (G4'&G6'&M4&M6&Hp').
  split; [cbn [ctl]; by rewrite E|]. exists G4', G6'. split_and!; [done| |].
  - intros m t Hin. eapply text_in_more; [done|done|by apply Ht].
  - intros m a Ha. destruct (Hh m a Ha) as [H1 H2]. split; [|done]. eapply agent_ok_more, H1. intros ip. by apply granted_more.
Qed.

(** A host moves on. *)
Lemma host_step_ok c n a a' :
  cluster_ok c → hosts c !! n = Some a →
  (∀ G, agent_ok G a → dir_ok a → (∀ t v, t ∈ texts c n → Unmarshal t = Some v → ranges_in G v) → agent_ok G a' ∧ dir_ok a') →
  cluster_ok (mkCluster (ctl c) (published c) (<[n := a']> (hosts c))).
Proof using Type.
  intros (Hc&G4&G6&Hp&Ht&Hh) Ha H. split; [done|]. exists G4, G6. split_and!; [done|done|].
  intros m b. cbn [hosts]. destruct (decide (m = n)) as [->|]; [|rewrite lookup_insert_ne by done; apply Hh].
  rewrite lookup_insert_eq. intros [= <-]. destruct (Hh n a Ha) as [H1 H2]. apply H; [done|done|].
  intros t v Hin Ev. destruct (Ht n t Hin v Ev) as (Hok&I4&I6). destruct Hp as [F4 F6 _]. split; [done| |].
  - intros ip Hip Hm. pose proof (I4 _ Hm) as HG. assert (is_v4 ip = true) as E.
    { apply is_v4_mapped; [done|]. apply (po_v4 _ (proj2 Hc)). by eapply (fam_G_conf _ _ _ _ F4). }
    split; [done|]. unfold granted. by rewrite E.
  - intros ip Hip Hm. pose proof (I6 _ Hm) as HG. assert (is_v4 ip = false) as E.
    { apply not_true_iff_false. rewrite is_v4_mapped by done. apply (po_v6 _ (proj2 Hc)). by eapply (fam_G_conf _ _ _ _ F6). }
    split; [done|]. unfold granted. by rewrite E.
Qed.

Lemma cluster_step_ok c c' : cfg_ok cfg → cluster_ok c → cluster_step c c' → cluster_ok c'.
Proof using Type.
  intros [Hch _ _ _] Hok. destruct 1 as [c rnd driver node s' node' Hv E|c rnd driver node s' node' Hv E|c di dp obj|c n key|c n key|
    c s' Hs|c n a t Ha Ht|c n a veth network rec clr md a' res Ha Hi Hpod E|c n a clr ns pod cont Ha|c n a nc Ha].
  - pose proof Hok as (Hc&G4&G6&Hp&Ht&Hh).
    assert (ann_in_opt G4 G6 node) as Hin by (intros t Et; by apply Ht, Hv).
    destruct (node_added_in _ _ _ _ _ _ _ _ _ Hch Hp Hin E) as (A4&A6&M4&M6&Hp'&An&C1&_&Na).
    split; [cbn [ctl]; by rewrite C1|]. exists A4, A6. split_and!; [done| |].
    + intros n t [Hin'|[-> Et]]%texts_publish; [eapply text_in_more; [done|done|by apply Ht]|by apply An].
    + intros n a Ha. destruct (Hh n a Ha) as [H1 H2]. split; [|done]. eapply agent_ok_more, H1. intros ip. by apply granted_more.
  - pose proof Hok as (Hc&G4&G6&Hp&Ht&Hh).
    assert (ann_in_opt G4 G6 node) as Hin by (intros t Et; by apply Ht, Hv).
    destruct (nodeChanged_in _ _ _ _ _ _ _ _ _ Hch Hp Hin E) as (A4&A6&M4&M6&Hp'&An&C1&_&Na).
    split; [cbn [ctl]; by rewrite C1|]. exists A4, A6. split_and!; [done| |].
    + intros n t [Hin'|[-> Et]]%texts_publish; [eapply text_in_more; [done|done|by apply Ht]|by apply An].
    + intros n a Ha. destruct (Hh n a Ha) as [H1 H2]. split; [|done]. eapply agent_ok_more, H1. intros ip. by apply granted_more.
  - eapply (pn_step_cluster c EmptyString); [done|]. apply pn_step_same, nodeDeleted_same.
  - eapply (pn_step_cluster c n); [done|by apply pn_step_add].
  - eapply (pn_step_cluster c n); [done|by apply pn_step_remove].
  - eapply (pn_step_cluster c EmptyString); [done|by apply pn_step_same].
  - eapply host_step_ok; [done|exact Ha|]. intros G H1 H2 Hr.
    destruct (updateIpamAnnotation_ok G a t H1) as (U1&U2&U3&U4&U5&U6); [intros v Ev; by eapply Hr|].
    split; [done|]. destruct H2 as [D1 D2 D3 D4 D5]. unfold is_used in D3.
    split; rewrite ?U4, ?U5; auto. unfold is_used. by rewrite U2.
  - eapply host_step_ok; [done|exact Ha|]. intros G H1 H2 _. by eapply configureContainerIfaces_ok.
  - eapply host_step_ok; [done|exact Ha|]. intros G H1 H2 _. by apply unconfigureContainerIfaces_ok.
  - eapply host_step_ok; [done|exact Ha|]. intros G H1 H2 _. by apply Init_ok.
Qed.

(** ** The start *)

(** The address is in the ranges of the node's annotation. *)
Definition in_annotation (nodes : list Node) (n : string) (ip : IP) : Prop :=
  ∃ node t v, node ∈ nodes ∧ node_Name node = n ∧ ann_PodNet node = Some t ∧ Unmarshal t = Some v ∧
    members (if is_v4 ip then V4 v else V6 v) (val ip).

(** The agents that already run hold addresses of their node's annotation. *)
Definition hosts_ok (nodes : list Node) (hs : gmap string HostAgent) : Prop :=
  ∀ n a, hs !! n = Some a → agent_ok (in_annotation nodes n) a ∧ dir_ok a.

Definition cluster_start (nodes : list Node) (hs : gmap string HostAgent) (c : Cluster) : Prop :=
  nodes_ok (configuredPodNetworkIps (initIpam cfg)) nodes ∧ hosts_ok nodes hs ∧
  ∃ rnd driver s nodes', startup cfg rnd driver nodes = Some (s, nodes') ∧
    c = mkCluster s (foldr publish ∅ (nodes' ++ nodes)) hs.

Definition cluster_reach (nodes : list Node) (hs : gmap string HostAgent) (c : Cluster) : Prop :=
  ∃ c0, cluster_start nodes hs c0 ∧ rtc cluster_step c0 c.

Lemma texts_fold s nodes h n t :
  t ∈ texts (mkCluster s (foldr publish ∅ nodes) h) n → ∃ node, node ∈ nodes ∧ node_Name node = n ∧ ann_PodNet node = Some t.
Proof using Type.
  induction nodes as [|node nodes IH].
  - unfold texts. cbn [foldr published]. rewrite lookup_empty. intros Hin. by apply elem_of_nil in Hin.
  - cbn [foldr]. intros [Hin|[-> Et]]%(texts_publish (mkCluster s (foldr publish ∅ nodes) h)).
    + destruct (IH Hin) as (node'&?&?&?). exists node'. split_and!; [by apply list_elem_of_further|done|done].
    + exists node. split_and!; [apply list_elem_of_here|done|done].
Qed.

Lemma cluster_start_ok nodes hs c : cfg_ok cfg → cluster_start nodes hs c → cluster_ok c.
Proof using Type.
  intros Hcfg (Hn&Hh&rnd&driver&s&nodes'&E&->). destruct (initIpam_ok cfg Hcfg) as [Hpool Hp0]. unfold startup in E.
  destruct (nodeFullSync cfg rnd driver nodes (initIpam cfg)) as [[s1 nodes1]|] eqn:E1; [|done]. cbn [mbind option_bind] in E.
  eapply first_pass in E1 as (A4&A6&M4&M6&Hp1&_&C1&An&F2&_); [|exact Hp0|done|done|intros; split; intros ? ? _ []].
  eapply (second_pass _ _ _ _ _ _ _ A4 A6) in E as (B4&B6&N4&N6&Hp2&An2&C2&Nm); [|by destruct Hcfg|by eapply (same_podnet_ok s1)|].
  2:{ rewrite Forall_forall in An |- *. intros b Hb. apply list_elem_of_lookup in Hb as [i Hi].
      destruct (Forall2_lookup_r _ _ _ _ _ F2 Hi) as (a&Ha&Hna&Haa). intros t Et. rewrite Hna. apply An; [|congruence].
      by eapply list_elem_of_lookup_2. }
  rewrite Forall_forall in An, An2.
  split; [cbn [ctl]; rewrite C2; cbn [set_sync configuredPodNetworkIps]; rewrite C1; done|]. exists B4, B6. split_and!; [done| |].
  - intros n t (node&Hin&<-&Et)%texts_fold. apply elem_of_app in Hin as [Hin|Hin]; [by apply An2|].
    eapply text_in_more; [done|done|by apply An].
  - intros n a Ha. destruct (Hh n a Ha) as [H1 H2]. split; [|done]. eapply agent_ok_more, H1.
    intros ip (node&t&v&Hin&<-&Et&Ev&Hm). destruct (An node Hin t Et v Ev) as (_&I4&I6).
    unfold granted. destruct (is_v4 ip); [by apply N4, I4|by apply N6, I6].
Qed.

Lemma cluster_reach_ok nodes hs c : cfg_ok cfg → cluster_reach nodes hs c → cluster_ok c.
Proof using Type.
  intros Hcfg (c0&Hs&Hr). pose proof (cluster_start_ok _ _ _ Hcfg Hs) as H0. clear Hs.
  induction Hr as [c|c1 c2 c3 Hstep _ IH]; [done|]. apply IH. by eapply cluster_step_ok.
Qed.
End Cluster.
