(* ===== verification/PodNetProps.v ===== *)
(** * PodNetProps: what holds of pod networks

    The statements about src/pkg/controller/nodes.go and
    src/pkg/hostagent/ipam.go, with a cluster of two nodes as the example. *)
From S2P Require Import Prelude GoBytes GoNet GoText GoText6 IpAlloc IpAllocFacts IpCache IpCacheFacts ApicTypes ApicBuild.
From S2P Require Import PodNet PodNetFacts HostIpam HostIpamFacts PodNetSys.
From S2P Require Import ApicMetadata.

Open Scope Z_scope.

(** ** An example: two nodes, a container on each *)

Definition ip16 (d : Z) : IP := (v4InV6Prefix ++ [10; 1; 0; d])%list.

Definition demo_cfg : NodeCfg :=
  mkNodeCfg false "kube" "kube" "common" "dom" "ctl" "Kubernetes" "5.2" 0 false lbTypeAci 16 4001 4
    [mkRange (ip16 2) (ip16 20)] [].

Definition demo_node (n : string) : Node := mkNode n None None EmptyString [] EmptyString EmptyString.
Definition demo_nodes : list Node := [demo_node "n1"; demo_node "n2"].

Definition demo_net : cniNetConfig := mkNetConfig (mkNet (ip16 0) (replicate 15 255 ++ [0])%list) (ip16 1).
Definition demo_agent : HostAgent := Init (Some [demo_net]) ∅.
Definition demo_hosts : gmap string HostAgent := <["n1" := demo_agent]> (<["n2" := demo_agent]> ∅).

Definition demo_md (pod : string) : ContainerMetadata :=
  mkMd "ns" pod pod [mkIface EmptyString "eth0" EmptyString "sandbox" []].
Definition demo_veth (i : ContainerIfaceMd) (ip : option IP) : option (string * string) := Some ("veth", "mac")%string.

(** The ranges reach the agent of a node, which configures a container. *)
Definition demo_host (c : Cluster) (n pod : string) : option Cluster :=
  a ← hosts c !! n;
  t ← head (texts c n);
  let c := mkCluster (ctl c) (published c) (<[n := updateIpamAnnotation t a]> (hosts c)) in
  a ← hosts c !! n;
  let '(a, _) := configureContainerIfaces demo_veth (λ _, true) (λ _, true) (λ _, true) (demo_md pod) a in
  Some (mkCluster (ctl c) (published c) (<[n := a]> (hosts c))).

(** A pod comes to each node, whose object is written with the new ranges. *)
Definition demo_pod (c : Cluster) (n pod : string) : option Cluster :=
  let c := mkCluster (addPodToNode demo_cfg n pod (ctl c)) (published c) (hosts c) in
  '(s, node) ← nodeChanged demo_cfg None None (demo_node n) (ctl c);
  Some (mkCluster s (publish node (published c)) (hosts c)).

Definition demo : option Cluster :=
  '(s, nodes) ← startup demo_cfg None None demo_nodes;
  let c := mkCluster s (foldr publish ∅ (nodes ++ demo_nodes)) demo_hosts in
  c ← demo_pod c "n1" "p1"; c ← demo_pod c "n2" "p2";
  c ← demo_host c "n1" "p1"; demo_host c "n2" "p2".

Lemma demo_cfg_ok : cfg_ok demo_cfg.
Proof. split; [vm_compute; split; discriminate|decide_now..]. Qed.

Lemma empty_agent_ok G nc : agent_ok G (Init nc ∅) ∧ dir_ok (Init nc ∅).
Proof.
  assert (usedIPs (Init nc ∅) = ∅) as Eu by reflexivity. assert (epMetadata (Init nc ∅) = ∅) as Ee by reflexivity.
  assert (cni_dir (Init nc ∅) = ∅) as Ed by reflexivity.
  split; split; rewrite ?Eu, ?Ee, ?Ed.
  - apply NewIpCache_inv.
  - intros ip Hf. by apply NewIpCache_free in Hf.
  - intros k [v Hv]. by rewrite lookup_empty in Hv.
  - intros c md Hc. by rewrite lookup_empty in Hc.
  - intros c md Hc. by rewrite lookup_empty in Hc.
  - intros c md ip Hc. by rewrite lookup_empty in Hc.
  - intros c1 c2 md1 md2 ip Hc. by rewrite lookup_empty in Hc.
  - intros podid m c md Hm. by rewrite lookup_empty in Hm.
Qed.

Lemma demo_nodes_ok conf : nodes_ok conf demo_nodes.
Proof.
  assert (∀ node, node ∈ demo_nodes → ann_PodNet node = None) as Hnone.
  { intros node [->|[->|Hn]%elem_of_cons]%elem_of_cons; [reflexivity|reflexivity|by apply elem_of_nil in Hn]. }
  split; [decide_now| |].
  - intros node t v Hin. rewrite (Hnone node Hin). discriminate.
  - intros node1 node2 t1 t2 v1 v2 Hin. rewrite (Hnone node1 Hin). discriminate.
Qed.

Lemma demo_hosts_ok : hosts_ok demo_nodes demo_hosts.
Proof.
  intros n a Ha. unfold demo_hosts in Ha. apply lookup_insert_Some in Ha as [[_ <-]|[_ Ha]]; [apply empty_agent_ok|].
  apply lookup_insert_Some in Ha as [[_ <-]|[_ Ha]]; [apply empty_agent_ok|by rewrite lookup_empty in Ha].
Qed.

Lemma demo_start s nodes :
  startup demo_cfg None None demo_nodes = Some (s, nodes) →
  cluster_start demo_cfg demo_nodes demo_hosts (mkCluster s (foldr publish ∅ (nodes ++ demo_nodes)) demo_hosts).
Proof.
  intros E. refine (conj (demo_nodes_ok _) (conj demo_hosts_ok _)). exists None, None, s, nodes. exact (conj E eq_refl).
Qed.

Lemma demo_host_steps c n pod c' :
  (∀ a md', hosts c !! n = Some a → cni_dir a !! pod = Some md' → podid_of md' = podid_of (demo_md pod)) →
  demo_host c n pod = Some c' → rtc (cluster_step demo_cfg) c c'.
Proof.
  intros Hpod. unfold demo_host. destruct (hosts c !! n) as [a|] eqn:Ea; [|done]. cbn [mbind option_bind].
  destruct (head (texts c n)) as [t|] eqn:Et; [|done]. cbn [mbind option_bind hosts ctl published]. rewrite lookup_insert_eq.
  cbn [mbind option_bind].
  destruct (configureContainerIfaces demo_veth (λ _, true) (λ _, true) (λ _, true) (demo_md pod) (updateIpamAnnotation t a))
    as [a' res] eqn:E. intros [= <-].
  eapply rtc_l; [eapply (step_host_ranges _ c n a t Ea); by apply head_Some_elem_of|].
  eapply rtc_l; [|apply rtc_refl].
  refine (step_configure demo_cfg (mkCluster (ctl c) (published c) (<[n := updateIpamAnnotation t a]> (hosts c))) n
            (updateIpamAnnotation t a) demo_veth (λ _, true) (λ _, true) (λ _, true) (demo_md pod) a' res
            (lookup_insert_eq _ _ _) _ _ E); [repeat constructor|].
  intros md' Hc. apply (Hpod a); [done|]. unfold updateIpamAnnotation in Hc. destruct (bool_decide _); [done|].
  by destruct (Unmarshal t).
Qed.

Lemma demo_pod_steps c n pod c' : demo_pod c n pod = Some c' → rtc (cluster_step demo_cfg) c c'.
Proof.
  unfold demo_pod. cbn [ctl published hosts]. destruct (nodeChanged _ _ _ _ _) as [[s node]|] eqn:E; [|done].
  cbn [mbind option_bind]. intros [= <-]. eapply rtc_l; [apply (step_pod_added _ c n pod)|].
  eapply rtc_l; [|apply rtc_refl].
  eapply (step_changed _ (mkCluster (addPodToNode demo_cfg n pod (ctl c)) (published c) (hosts c))); [|exact E]. done.
Qed.

Lemma demo_reach c : demo = Some c → cluster_reach demo_cfg demo_nodes demo_hosts c.
Proof.
  unfold demo. destruct (startup demo_cfg None None demo_nodes) as [[s nodes]|] eqn:E; [|done]. cbn [mbind option_bind].
  apply demo_start in E. set (c0 := mkCluster s _ demo_hosts) in *.
  destruct (demo_pod c0 "n1" "p1") as [c1|] eqn:E1; [|done]. cbn [mbind option_bind].
  destruct (demo_pod c1 "n2" "p2") as [c2|] eqn:E2; [|done]. cbn [mbind option_bind].
  destruct (demo_host c2 "n1" "p1") as [c3|] eqn:E3; [|done]. cbn [mbind option_bind]. intros E4.
  assert (hosts c1 = hosts c0 ∧ hosts c2 = hosts c1) as [H1 H2].
  { unfold demo_pod in E1, E2. cbn [ctl published hosts] in E1, E2.
    destruct (nodeChanged _ _ _ _ (addPodToNode _ _ _ (ctl c0))) as [[s1 n1]|]; [|done].
    destruct (nodeChanged _ _ _ _ (addPodToNode _ _ _ (ctl c1))) as [[s2 n2]|]; [|done].
    cbn [mbind option_bind] in E1, E2. injection E1 as <-. injection E2 as <-. done. }
  assert (hosts c2 !! "n1"%string = Some demo_agent ∧ hosts c2 !! "n2"%string = Some demo_agent) as [A1 A2].
  { rewrite H2, H1. split; reflexivity. }
  assert (hosts c3 !! "n2"%string = Some demo_agent) as A3.
  { unfold demo_host in E3. rewrite A1 in E3. cbn [mbind option_bind] in E3.
    destruct (head (texts c2 "n1")) as [t|]; [|done]. cbn [mbind option_bind hosts ctl published] in E3.
    rewrite lookup_insert_eq in E3. cbn [mbind option_bind] in E3.
    destruct (configureContainerIfaces _ _ _ _ (demo_md "p1") (updateIpamAnnotation t demo_agent)) as [a' res].
    injection E3 as <-. cbn [hosts]. rewrite !lookup_insert_ne by done. exact A2. }
  exists c0. split; [exact E|].
  etrans; [eapply demo_pod_steps, E1|]. etrans; [eapply demo_pod_steps, E2|].
  etrans; [eapply demo_host_steps, E3|eapply demo_host_steps, E4].
  - intros a md' Ha. rewrite A1 in Ha. injection Ha as <-. intros Hc. change (cni_dir demo_agent) with (∅ : gmap string ContainerMetadata) in Hc. by rewrite lookup_empty in Hc.
  - intros a md' Ha. rewrite A3 in Ha. injection Ha as <-. intros Hc. change (cni_dir demo_agent) with (∅ : gmap string ContainerMetadata) in Hc. by rewrite lookup_empty in Hc.
Qed.

(** ** Addresses *)

(** The container of the pod holds the address on the node. *)
Definition holds (c : Cluster) (n podid cont : string) (ip : IP) : Prop :=
  ∃ a m md, hosts c !! n = Some a ∧ epMetadata a !! podid = Some m ∧ m !! cont = Some md ∧ ip ∈ md_ips md.

(** C2: in every state that the controller and the agents of the hosts reach,
    whatever versions of the node objects they see, two containers that hold
    the same address are the same container on the same node, and the address
    is one of the configured pool. *)
Theorem podnet_unique_addresses cfg nodes hs c n1 n2 pod1 pod2 cont1 cont2 ip :
  cfg_ok cfg → cluster_reach cfg nodes hs c →
  holds c n1 pod1 cont1 ip → holds c n2 pod2 cont2 ip →
  n1 = n2 ∧ pod1 = pod2 ∧ cont1 = cont2 ∧
  (members (FreeList (p4 (configuredPodNetworkIps (initIpam cfg)))) (val ip) ∨
   members (FreeList (p6 (configuredPodNetworkIps (initIpam cfg)))) (val ip)).
Proof.
  intros Hcfg Hr (a1&m1&md1&Ha1&Hm1&Hk1&Hi1) (a2&m2&md2&Ha2&Hm2&Hk2&Hi2).
  destruct (cluster_reach_ok _ _ _ _ Hcfg Hr) as ([Hconf _]&G4&G6&[F4 F6 _]&_&Hh).
  destruct (Hh _ _ Ha1) as [O1 D1], (Hh _ _ Ha2) as [O2 D2].
  destruct (dr_ep _ D1 _ _ _ _ Hm1 Hk1) as [C1 P1], (dr_ep _ D2 _ _ _ _ Hm2 Hk2) as [C2 P2].
  destruct (dr_used _ D1 _ _ _ C1 Hi1) as [Hip U1], (dr_used _ D2 _ _ _ C2 Hi2) as [_ U2].
  destruct (used_spec _ _ _ O1 Hip U1) as [G1 _], (used_spec _ _ _ O2 Hip U2) as [G2 _]. unfold granted in G1, G2.
  assert (n1 = n2) as ->.
  { destruct (is_v4 ip); [by eapply (fam_apart _ _ _ _ F4)|by eapply (fam_apart _ _ _ _ F6)]. }
  assert (a1 = a2) as -> by congruence.
  assert (cont1 = cont2) as -> by (by eapply (dr_apart _ D2)).
  assert (md1 = md2) as -> by congruence. rewrite <- Hconf. split_and!; [done|congruence|done|].
  destruct (is_v4 ip); [left; by eapply (fam_G_conf _ _ _ _ F4)|right; by eapply (fam_G_conf _ _ _ _ F6)].
Qed.

Lemma podnet_unique_addresses_witness :
  ∃ c ip1 ip2, demo = Some c ∧ holds c "n1" "ns/p1" "p1" ip1 ∧ holds c "n2" "ns/p2" "p2" ip2 ∧ ip1 ≠ ip2.
Proof.
  assert (is_Some demo) as [c E] by (apply (bool_decide_eq_true_1 _); vm_compute; reflexivity).
  assert ((c ← demo; a ← hosts c !! "n1"%string; m ← epMetadata a !! "ns/p1"%string; md ← m !! "p1"%string; Some (md_ips md)) = Some [ip16 2])
    as H1 by (vm_compute; reflexivity).
  assert ((c ← demo; a ← hosts c !! "n2"%string; m ← epMetadata a !! "ns/p2"%string; md ← m !! "p2"%string; Some (md_ips md)) = Some [ip16 6])
    as H2 by (vm_compute; reflexivity).
  rewrite E in H1, H2. cbn [mbind option_bind] in H1, H2.
  assert (holds c "n1" "ns/p1" "p1" (ip16 2)) as A1.
  { destruct (hosts c !! "n1"%string) as [a|] eqn:Ea; [|discriminate H1]. cbn [mbind option_bind] in H1.
    destruct (epMetadata a !! "ns/p1"%string) as [m|] eqn:Em; [|discriminate H1]. cbn [mbind option_bind] in H1.
    destruct (m !! "p1"%string) as [md|] eqn:Ed; [|discriminate H1]. cbn [mbind option_bind] in H1. injection H1 as H1.
    exists a, m, md. rewrite H1. refine (conj Ea (conj Em (conj Ed _))). apply list_elem_of_here. }
  assert (holds c "n2" "ns/p2" "p2" (ip16 6)) as A2.
  { destruct (hosts c !! "n2"%string) as [a|] eqn:Ea; [|discriminate H2]. cbn [mbind option_bind] in H2.
    destruct (epMetadata a !! "ns/p2"%string) as [m|] eqn:Em; [|discriminate H2]. cbn [mbind option_bind] in H2.
    destruct (m !! "p2"%string) as [md|] eqn:Ed; [|discriminate H2]. cbn [mbind option_bind] in H2. injection H2 as H2.
    exists a, m, md. rewrite H2. refine (conj Ea (conj Em (conj Ed _))). apply list_elem_of_here. }
  exists c, (ip16 2), (ip16 6). refine (conj E (conj A1 (conj A2 _))). intros Heq. rewrite Heq in A1.
  destruct (podnet_unique_addresses demo_cfg demo_nodes demo_hosts c "n1" "n2" "ns/p1" "ns/p2" "p1" "p2" (ip16 6)
    demo_cfg_ok (demo_reach c E) A1 A2) as [Hn _]. discriminate Hn.
Defined.

(** In every state that is reached, the ranges of different nodes have no
    address in common, neither do the ranges of a node and the pool, all lie
    within the configured ranges, and what was ever published for a node does
    not meet what was ever published for another one. *)
Theorem podnet_ranges_apart cfg nodes hs c :
  cfg_ok cfg → cluster_reach cfg nodes hs c →
  let s := ctl c in
  let conf := configuredPodNetworkIps (initIpam cfg) in
  (∀ n m, n ≠ m → disjoint (members (own4 s n)) (members (own4 s m)) ∧ disjoint (members (own6 s n)) (members (own6 s m))) ∧
  (∀ n x, (members (own4 s n) x → ¬ members (FreeList (p4 (podNetworkIps s))) x ∧ members (FreeList (p4 conf)) x) ∧
          (members (own6 s n) x → ¬ members (FreeList (p6 (podNetworkIps s))) x ∧ members (FreeList (p6 conf)) x)) ∧
  (∀ n m t u v w, n ≠ m → t ∈ texts c n → u ∈ texts c m → Unmarshal t = Some v → Unmarshal u = Some w →
     disjoint (members (V4 v)) (members (V4 w)) ∧ disjoint (members (V6 v)) (members (V6 w))).
Proof.
  intros Hcfg Hr. destruct (cluster_reach_ok _ _ _ _ Hcfg Hr) as ([Hconf _]&G4&G6&[F4 F6 _]&Ht&_).
  cbn zeta. rewrite <- Hconf. split_and!.
  - intros n m Hnm. split; intros x H1 H2; apply Hnm.
    + eapply (fam_apart _ _ _ _ F4); by eapply fam_own_G.
    + eapply (fam_apart _ _ _ _ F6); by eapply fam_own_G.
  - intros n x. split; intros Hx.
    + pose proof (fam_own_G _ _ _ _ F4 n x Hx) as HG. split; [by eapply (fam_G_pool _ _ _ _ F4)|by eapply (fam_G_conf _ _ _ _ F4)].
    + pose proof (fam_own_G _ _ _ _ F6 n x Hx) as HG. split; [by eapply (fam_G_pool _ _ _ _ F6)|by eapply (fam_G_conf _ _ _ _ F6)].
  - intros n m t u v w Hnm Hin Hin' Ev Ew. destruct (Ht n t Hin v Ev) as (_&I4&I6), (Ht m u Hin' w Ew) as (_&J4&J6).
    split; intros x H1 H2; apply Hnm.
    + eapply (fam_apart _ _ _ _ F4); eauto.
    + eapply (fam_apart _ _ _ _ F6); eauto.
Qed.

Lemma podnet_ranges_apart_witness :
  ∃ c, demo = Some c ∧ members (own4 (ctl c) "n1") (val (ip16 2)) ∧ ¬ members (own4 (ctl c) "n2") (val (ip16 2)).
Proof.
  assert (is_Some demo) as [c E] by (apply (bool_decide_eq_true_1 _); vm_compute; reflexivity).
  assert ((c ← demo; Some (bool_decide (members (own4 (ctl c) "n1") (val (ip16 2))))) = Some true) as H1 by (vm_compute; reflexivity).
  rewrite E in H1. cbn [mbind option_bind] in H1. injection H1 as H1. apply bool_decide_eq_true_1 in H1.
  exists c. refine (conj E (conj H1 _)).
  destruct (podnet_ranges_apart demo_cfg demo_nodes demo_hosts c demo_cfg_ok (demo_reach c E)) as [Hd _].
  destruct (Hd "n1"%string "n2"%string ltac:(discriminate)) as [Hd4 _]. exact (Hd4 _ H1).
Defined.

(** ** Enough addresses *)

(** For each family with configured addresses: the node has half a chunk more
    addresses than pods, or the pool has no chunk left. *)
Definition settled (cfg : NodeCfg) (s : NodeState) (n : string) : Prop :=
  let pods := pods_of (podnet_of s n) in
  let chunk := PodIpPoolChunkSize cfg in
  (Empty (p4 (configuredPodNetworkIps s)) = true ∨ enough chunk pods (own4 s n) ∨
   total (FreeList (p4 (podNetworkIps s))) < chunk) ∧
  (Empty (p6 (configuredPodNetworkIps s)) = true ∨ enough chunk pods (own6 s n) ∨
   total (FreeList (p6 (podNetworkIps s))) < chunk).

Definition pool_size (s : NodeState) : Z :=
  total (FreeList (p4 (podNetworkIps s))) + total (FreeList (p6 (podNetworkIps s))).

Lemma pool_size_nonneg s G4 G6 : pn_ok s G4 G6 → 0 <= pool_size s.
Proof.
  intros [F4 F6 _]. unfold pool_size.
  pose proof (total_nonneg 16 _ (proj1 (fam_pool _ _ _ _ F4))). pose proof (total_nonneg 16 _ (proj1 (fam_pool _ _ _ _ F6))). lia.
Qed.

Lemma settle cfg n (f : nat) s G4 G6 :
  0 < PodIpPoolChunkSize cfg <= MaxInt64 → pn_ok s G4 G6 → is_Some (nodePodNetCache s !! n) →
  pool_size s <= Z.of_nat f →
  ∃ k, let s' := Nat.iter (S k) (checkNodePodNet cfg n) s in
    Z.of_nat k * PodIpPoolChunkSize cfg <= pool_size s ∧ settled cfg s' n ∧
    node_effects s' = (node_effects s ++ replicate k (PodNetworkChanged n))%list.
Proof.
  intros Hc. revert s G4 G6. induction f as [|f IH]; intros s G4 G6 Hp Hn Hf;
    (destruct (checkNodePodNet_ok cfg s G4 G6 n Hp) as (b4&b6&P4&P6&Hp'&_&K4&K6&Epods&Esame&_&Hn'&Econf&_&Eeff); [lia|done|]);
    set (s1 := checkNodePodNet cfg n s) in *; pose proof (pool_size_nonneg s1 _ _ Hp') as Hnn;
    (assert (if b4 || b6 then pool_size s1 + PodIpPoolChunkSize cfg <= pool_size s else settled cfg s1 n) as Hstep;
     [unfold checked in K4, K6; unfold pool_size, settled; rewrite Econf; unfold pods_of in *; rewrite Epods;
      destruct b4, b6; cbn [orb]; [lia|lia|lia|]; destruct K4 as (_&_&K4), K6 as (_&_&K6); split; assumption|]);
    destruct (b4 || b6) eqn:Eb.
  - lia.
  - exists 0%nat. cbn [Nat.iter nat_rect replicate]. fold s1. split_and!; [pose proof (pool_size_nonneg s _ _ Hp); lia|done|done].
  - destruct (IH s1 _ _ Hp' Hn') as (k&H1&H2&H3); [lia|]. exists (S k). cbn zeta in *.
    rewrite (Nat.iter_succ_r (S k)). fold s1. split_and!; [lia|done|]. rewrite H3, Eeff, <- (assoc_L (++)%list). done.
  - exists 0%nat. cbn [Nat.iter nat_rect replicate]. fold s1. split_and!; [pose proof (pool_size_nonneg s _ _ Hp); lia|done|done].
Qed.

(** C35: each check of a node that gives it a chunk asks for a further one
    (NodePodNetworkChanged, which ends in nodeChanged and so in
    checkNodePodNet).  The chain ends: after at most as many rounds as the pool
    has chunks, the node has half a chunk of addresses more than pods, in each
    configured family, or the pool has no chunk left; that last check asks for
    nothing. *)
Theorem podnet_settles cfg nodes hs c n :
  cfg_ok cfg → 0 < PodIpPoolChunkSize cfg → cluster_reach cfg nodes hs c → is_Some (nodePodNetCache (ctl c) !! n) →
  ∃ k, let s' := Nat.iter (S k) (checkNodePodNet cfg n) (ctl c) in
    Z.of_nat k * PodIpPoolChunkSize cfg <= pool_size (ctl c) ∧ settled cfg s' n ∧
    node_effects s' = (node_effects (ctl c) ++ replicate k (PodNetworkChanged n))%list.
Proof.
  intros Hcfg Hpos Hr Hn. destruct (cluster_reach_ok _ _ _ _ Hcfg Hr) as (_&G4&G6&Hp&_&_).
  destruct Hcfg as [Hc _ _ _]. pose proof (pool_size_nonneg _ _ _ Hp).
  apply (settle cfg n (Z.to_nat (pool_size (ctl c))) (ctl c) G4 G6); [lia|done|done|lia].
Qed.

Lemma podnet_settles_witness :
  ∃ c k, demo = Some c ∧ settled demo_cfg (Nat.iter (S k) (checkNodePodNet demo_cfg "n1") (ctl c)) "n1".
Proof.
  assert (is_Some demo) as [c E] by (apply (bool_decide_eq_true_1 _); vm_compute; reflexivity).
  assert ((c ← demo; Some (bool_decide (is_Some (nodePodNetCache (ctl c) !! "n1"%string)))) = Some true) as H1 by (vm_compute; reflexivity).
  rewrite E in H1. cbn [mbind option_bind] in H1. injection H1 as H1. apply bool_decide_eq_true_1 in H1.
  destruct (podnet_settles demo_cfg demo_nodes demo_hosts c "n1" demo_cfg_ok ltac:(reflexivity) (demo_reach c E) H1) as (k&_&H&_).
  exists c, k. exact (conj E H).
Defined.

(** ** Restart *)

(** The annotations of the nodes are the ones that the controller wants, and
    every node that has ranges is among them. *)
Record persisted (s : NodeState) (nodes : list Node) : Prop := {
  ps_names : NoDup (map node_Name nodes);
  ps_ann : ∀ node, node ∈ nodes → default (Raw EmptyString) (ann_PodNet node) = podNetIpsAnnotation (podnet_of s (node_Name node));
  ps_all : ∀ n, podNetIps (podnet_of s n) ≠ mkNetIps [] [] → n ∈ map node_Name nodes
}.

(** A persisted annotation is read as the ranges of the node. *)
Lemma persisted_text s G4 G6 nodes node t v :
  pn_ok s G4 G6 → persisted s nodes → node ∈ nodes → ann_PodNet node = Some t → Unmarshal t = Some v →
  v = podNetIps (podnet_of s (node_Name node)).
Proof.
  intros Hp Hper Hin Et Ev. pose proof (ps_ann _ _ Hper node Hin) as Ha. rewrite Et in Ha. cbn [default] in Ha. unfold id in Ha.
  destruct (pn_ann _ _ _ Hp (node_Name node)) as [E|[E _]]; [rewrite <- Ha in E; congruence|]. rewrite <- Ha in E. rewrite E in Ev. discriminate Ev.
Qed.

Lemma persisted_nodes_ok s G4 G6 nodes :
  pn_ok s G4 G6 → persisted s nodes → nodes_ok (configuredPodNetworkIps s) nodes.
Proof.
  intros Hp Hper. pose proof Hp as [F4 F6 _]. split; [apply Hper| |].
  - intros node t v Hin Et Ev. rewrite (persisted_text s G4 G6 nodes node t v) by done.
    split_and!; [split; [apply (fam_own _ _ _ _ F4)|apply (fam_own _ _ _ _ F6)]| |]; intros x Hx.
    + eapply (fam_G_conf _ _ _ _ F4), (fam_own_G _ _ _ _ F4), Hx.
    + eapply (fam_G_conf _ _ _ _ F6), (fam_own_G _ _ _ _ F6), Hx.
  - intros n1 n2 t1 t2 v1 v2 H1 H2 Hne E1 E2 U1 U2.
    rewrite (persisted_text s G4 G6 nodes n1 t1 v1), (persisted_text s G4 G6 nodes n2 t2 v2) by done.
    split; intros x Hx Hx'; apply Hne.
    + eapply (fam_apart _ _ _ _ F4); by eapply (fam_own_G _ _ _ _ F4).
    + eapply (fam_apart _ _ _ _ F6); by eapply (fam_own_G _ _ _ _ F6).
Qed.

(** C36: when the controller restarts and the nodes have the annotations that it
    had computed, adding the nodes restores the ranges of every node, and the
    pool is what the nodes do not have of the configured ranges. *)
Theorem podnet_restart cfg nodes0 hs c nodes rnd driver s' nodes' :
  cfg_ok cfg → cluster_reach cfg nodes0 hs c → persisted (ctl c) nodes →
  nodeFullSync cfg rnd driver nodes (initIpam cfg) = Some (s', nodes') →
  (∀ n x, (members (own4 s' n) x ↔ members (own4 (ctl c) n) x) ∧ (members (own6 s' n) x ↔ members (own6 (ctl c) n) x)) ∧
  (∀ x, members (FreeList (p4 (podNetworkIps s'))) x ↔
     members (FreeList (p4 (configuredPodNetworkIps (initIpam cfg)))) x ∧ ∀ n, ¬ members (own4 (ctl c) n) x) ∧
  (∀ x, members (FreeList (p6 (podNetworkIps s'))) x ↔
     members (FreeList (p6 (configuredPodNetworkIps (initIpam cfg)))) x ∧ ∀ n, ¬ members (own6 (ctl c) n) x).
Proof.
  intros Hcfg Hr Hper E. destruct (cluster_reach_ok _ _ _ _ Hcfg Hr) as ([Hconf _]&G4&G6&Hp&_&_).
  destruct (initIpam_ok cfg Hcfg) as [[S4 S6 _ _] Hp0].
  pose proof (persisted_nodes_ok _ _ _ _ Hp Hper) as Hno. rewrite Hconf in Hno.
  eapply first_pass in E as (_&_&_&_&_&_&_&_&_&[R1 R2 R3 R4 R6]); [|exact Hp0|done|done|intros; split; intros ? ? _ []].
  assert (Hinit : ∀ n, podnet_of (initIpam cfg) n = newNodePodNetMeta) by (intros n; unfold podnet_of; cbn [initIpam nodePodNetCache]; by rewrite lookup_empty).
  assert (Hnone : ∀ n, podNetIps (podnet_of (ctl c) n) = mkNetIps [] [] ∨ ∃ node, node ∈ nodes ∧ node_Name node = n ∧
    ∃ t, ann_PodNet node = Some t ∧ Unmarshal t = Some (podNetIps (podnet_of (ctl c) n))).
  { intros n. destruct (pn_ann _ _ _ Hp n) as [Ea|[_ Ei]]; [|by left].
    destruct (decide (podNetIps (podnet_of (ctl c) n) = mkNetIps [] [])) as [|Hne]; [by left|right].
    apply (ps_all _ _ Hper) in Hne. apply list_elem_of_fmap in Hne as (node&->&Hin). exists node. split_and!; [done|done|].
    pose proof (ps_ann _ _ Hper node Hin) as Ha. destruct (ann_PodNet node) as [t|]; cbn [default] in Ha; unfold id in Ha.
    - exists t. by rewrite Ha.
    - exfalso. revert Ea. rewrite <- Ha. discriminate. }
  assert (Htext : ∀ node t v, node ∈ nodes → ann_PodNet node = Some t → Unmarshal t = Some v →
    v = podNetIps (podnet_of (ctl c) (node_Name node))) by (intros; by eapply persisted_text).
  assert (Hback : ∀ n x, (members (own4 s' n) x ↔ members (own4 (ctl c) n) x) ∧ (members (own6 s' n) x ↔ members (own6 (ctl c) n) x)).
  { intros n x. destruct (Hnone n) as [Ei|(node&Hin&<-&t&Et&Eu)].
    - unfold own4 at 2, own6 at 2. rewrite Ei. cbn [V4 V6].
      destruct (decide (n ∈ map node_Name nodes)) as [Hn|Hn].
      + apply list_elem_of_fmap in Hn as (node&->&Hin). destruct (ann_PodNet node) as [t|] eqn:Et.
        * destruct (R2 node t Hin Et) as [O4 O6]. rewrite O4, O6, !members_nil.
          split; (split; [|done]); intros (v&Ev&Hx); rewrite (Htext node t v Hin Et Ev), Ei in Hx; by apply members_nil in Hx.
        * unfold own4, own6. rewrite (R3 node Hin Et), Hinit. done.
      + unfold own4, own6. rewrite (R1 n Hn), Hinit. done.
    - destruct (R2 node t Hin Et) as [O4 O6]. rewrite O4, O6, Eu. unfold own4, own6.
      split; (split; [intros (v&[= <-]&Hx); done|]); intros Hx; by eexists. }
  split; [exact Hback|]. destruct (AddAll_New _ S4) as [_ M4], (AddAll_New _ S6) as [_ M6].
  split; intros x.
  - rewrite R4. change (podNetworkIps (initIpam cfg)) with
      (mkPools (AddAll New (p4 (configuredPodNetworkIps (initIpam cfg)))) (AddAll New (p6 (configuredPodNetworkIps (initIpam cfg))))).
    cbn [p4]. rewrite M4. split; intros [Hx Hv]; (split; [done|]).
    + intros n Hm. destruct (Hnone n) as [Ei|(node&Hin&<-&t&Et&Eu)]; [unfold own4 in Hm; rewrite Ei in Hm; by apply members_nil in Hm|].
      by eapply (Hv node t _ Hin Et Eu).
    + intros node t v Hin Et Ev Hm. rewrite (Htext node t v Hin Et Ev) in Hm. by apply (Hv (node_Name node)).
  - rewrite R6. change (podNetworkIps (initIpam cfg)) with
      (mkPools (AddAll New (p4 (configuredPodNetworkIps (initIpam cfg)))) (AddAll New (p6 (configuredPodNetworkIps (initIpam cfg))))).
    cbn [p6]. rewrite M6. split; intros [Hx Hv]; (split; [done|]).
    + intros n Hm. destruct (Hnone n) as [Ei|(node&Hin&<-&t&Et&Eu)]; [unfold own6 in Hm; rewrite Ei in Hm; by apply members_nil in Hm|].
      by eapply (Hv node t _ Hin Et Eu).
    + intros node t v Hin Et Ev Hm. rewrite (Htext node t v Hin Et Ev) in Hm. by apply (Hv (node_Name node)).
Qed.

Definition demo_persisted (c : Cluster) : list Node :=
  map (λ n, mkNode n (Some (podNetIpsAnnotation (podnet_of (ctl c) n))) None EmptyString [] EmptyString EmptyString) ["n1"; "n2"]%string.

Lemma demo_persisted_ok c :
  bool_decide (dom (nodePodNetCache (ctl c)) ⊆ ({["n1"; "n2"]}%string : gset string)) = true → persisted (ctl c) (demo_persisted c).
Proof.
  intros Hd%bool_decide_eq_true_1. assert (map node_Name (demo_persisted c) = ["n1"; "n2"]%string) as En by reflexivity.
  split; rewrite ?En.
  - decide_now.
  - intros node Hin. unfold demo_persisted in Hin. apply list_elem_of_fmap in Hin as (n&->&_). reflexivity.
  - intros n Hn. destruct (nodePodNetCache (ctl c) !! n) as [m|] eqn:E.
    + assert (n ∈ ({["n1"; "n2"]}%string : gset string)) as Hin by (apply Hd, elem_of_dom; by eexists). set_solver.
    + exfalso. apply Hn. unfold podnet_of. rewrite E. reflexivity.
Qed.

Lemma podnet_restart_witness :
  ∃ c s' nodes', demo = Some c ∧ nodeFullSync demo_cfg None None (demo_persisted c) (initIpam demo_cfg) = Some (s', nodes') ∧
    members (own4 s' "n2") (val (ip16 6)).
Proof.
  assert (is_Some demo) as [c E] by (apply (bool_decide_eq_true_1 _); vm_compute; reflexivity).
  assert ((c ← demo; Some (bool_decide (dom (nodePodNetCache (ctl c)) ⊆ ({["n1"; "n2"]}%string : gset string)),
                          bool_decide (members (own4 (ctl c) "n2") (val (ip16 6))),
                          bool_decide (is_Some (nodeFullSync demo_cfg None None (demo_persisted c) (initIpam demo_cfg)))))
          = Some (true, true, true)) as H by (vm_compute; reflexivity).
  rewrite E in H. cbn [mbind option_bind] in H. injection H as H1 H2 H3.
  apply bool_decide_eq_true_1 in H2, H3. destruct H3 as [[s' nodes'] E'].
  exists c, s', nodes'. refine (conj E (conj E' _)).
  destruct (podnet_restart demo_cfg demo_nodes demo_hosts c (demo_persisted c) None None s' nodes' demo_cfg_ok (demo_reach c E)
    (demo_persisted_ok c H1) E') as [Hown _].
  apply (proj1 (Hown "n2"%string (val (ip16 6)))). exact H2.
Defined.

(** ** Behaviour of pod networks that the code does not intend *)

(** Evaluations of src/pkg/hostagent/ipam.go, src/pkg/hostagent/setup.go and
    src/pkg/controller/nodes.go on small inputs, and facts on nodeDeleted. *)

Definition demo_ranges (nc : list cniNetConfig) : HostAgent :=
  updateIpamAnnotation (NetText [("10.1.0.2", "10.1.0.5")]%string []) (Init (Some nc) ∅).
Definition other_net : cniNetConfig :=
  mkNetConfig (mkNet (v4InV6Prefix ++ [10; 9; 0; 0])%list (replicate 15 255 ++ [0])%list) (v4InV6Prefix ++ [10; 9; 0; 1])%list.

(** With one IPv4 subnet an interface gets an address; with a second IPv4 subnet
    the second round takes the branch for IPv6, whose pool is empty, and the
    whole allocation fails. *)
Example second_v4_subnet_fails :
  map ip_of (allocateIps [] "ns.p" (demo_ranges [demo_net])).1.2 = [ip16 2] ∧
  (allocateIps [] "ns.p" (demo_ranges [demo_net])).2 = false ∧
  allocateIps [] "ns.p" (demo_ranges [demo_net; other_net]) =
    ((allocateIps [] "ns.p" (demo_ranges [demo_net; other_net])).1.1, [], true).
Proof. vm_compute. split_and!; reflexivity. Qed.

(** Where no subnet has the address, it leaves the free addresses, is not in
    use, and the interface gets none, without an error. *)
Example address_without_subnet_lost :
  let '(a, ips, err) := allocateIps [] "ns.p" (demo_ranges [other_net]) in
  ips = [] ∧ err = false ∧ usedIPs a = ∅ ∧
  CombineV4 (podIps (demo_ranges [other_net])) = [mkRange (ip16 2) (ip16 5)] ∧ CombineV4 (podIps a) = [mkRange (ip16 3) (ip16 5)].
Proof. vm_compute. split_and!; reflexivity. Qed.

(** When the interface cannot be created, configuring fails and the address
    stays in use although no container has it. *)
Example veth_failure_leaks_address :
  let '(a, done) := configureContainerIfaces (λ _ _, None) (λ _, true) (λ _, true) (λ _, true) (demo_md "p1") (demo_ranges [demo_net]) in
  done = false ∧ cni_dir a = ∅ ∧ epMetadata a = ∅ ∧ usedIPs a !! "10.1.0.2"%string = Some "ns.p1"%string ∧
  CombineV4 (podIps a) = [mkRange (ip16 3) (ip16 5)].
Proof. vm_compute. split_and!; reflexivity. Qed.

(** A deleted node keeps its pods and its ranges; none of them goes back to the
    pool. *)
Lemma deleted_node_keeps_ranges cfg di dp obj s :
  podNetworkIps (nodeDeleted cfg di dp obj s) = podNetworkIps s ∧
  ∀ n, podnet_of (nodeDeleted cfg di dp obj s) n = podnet_of s n.
Proof. destruct (nodeDeleted_same cfg di dp obj s) as [(_&H1&H2) _]. done. Qed.

(** Whatever object a delete event carries, the NodePodIF resource of the node
    is not deleted: an object that is a node is not a NodePodIF. *)
Lemma nodepodif_never_deleted cfg di dp obj s np :
  DeleteNodePodIfCR np ∈ node_effects (nodeDeleted cfg di dp obj s) → DeleteNodePodIfCR np ∈ node_effects s.
Proof.
  unfold nodeDeleted. destruct (ChainedMode cfg); [done|].
  assert (∀ l e, (∀ x, x ∈ l → x ≠ DeleteNodePodIfCR np) → DeleteNodePodIfCR np ∈ (e ++ l)%list → DeleteNodePodIfCR np ∈ e) as Happ.
  { intros l e Hl [?|Hin]%elem_of_app; [done|]. by destruct (Hl _ Hin). }
  assert (as_node obj ≠ None → as_podif obj = None) as Hcast by (by destruct obj as [| |[]|]).
  destruct (as_node obj) as [node|].
  - rewrite Hcast by done. repeat case_match; simplify_eq/=; intros Hin;
      repeat (apply Happ in Hin; [|set_solver]); done.
  - cbn. apply Happ. set_solver.
Qed.

(** ** Service addresses and tunnels of nodes *)

(** Lemmas on createServiceEndpoint, nodeDeleted and getTunnelID of
    src/pkg/controller/nodes.go: two nodes never have the same service address
    or the same tunnel. *)

(** ** One family of service addresses *)

(** The pool, and the addresses [addr] of the nodes; an empty one is none. *)
Record svc_fam (pool : IpAlloc) (addr : string → IP) : Prop := {
  sv_pool : sfl 16 (FreeList pool);
  sv_addr : ∀ n, addr n ≠ [] → ok 16 (addr n) ∧ ¬ members (FreeList pool) (val (addr n));
  sv_apart : ∀ n m, addr n ≠ [] → addr n = addr m → n = m
}.

Lemma svc_ext pool addr addr' : (∀ n, addr' n = addr n) → svc_fam pool addr → svc_fam pool addr'.
Proof.
  intros E [S1 S2 S3]. split; [done| |].
  - intros n. rewrite E. apply S2.
  - intros n m. rewrite !E. apply S3.
Qed.

(** A node gets an address that was in the pool. *)
Lemma svc_take pool pool' addr n ip :
  svc_fam pool addr → sfl 16 (FreeList pool') → ok 16 ip → members (FreeList pool) (val ip) →
  (∀ x, members (FreeList pool') x ↔ members (FreeList pool) x ∧ x ≠ val ip) →
  svc_fam pool' (upd n ip addr).
Proof.
  intros [S1 S2 S3] Hs Hip Hin Hm.
  assert (∀ m, addr m ≠ [] → addr m ≠ ip) as Hne.
  { intros m Hn E. destruct (S2 m Hn) as [_ Hnot]. apply Hnot. by rewrite E. }
  split; [done| |].
  - intros m. unfold upd. destruct (decide (m = n)).
    + intros _. split; [done|]. rewrite Hm. tauto.
    + intros Hn. destruct (S2 m Hn) as [? ?]. split; [done|]. rewrite Hm. tauto.
  - intros a b. unfold upd. destruct (decide (a = n)) as [->|], (decide (b = n)) as [->|]; [done| | |by apply S3].
    + intros Hn E. exfalso. apply (Hne b); [by rewrite <- E|done].
    + intros Hn E. by destruct (Hne a Hn).
Qed.

Lemma svc_same_pool pool pool' addr :
  svc_fam pool addr → sfl 16 (FreeList pool') → (∀ x, members (FreeList pool') x → members (FreeList pool) x) →
  svc_fam pool' addr.
Proof.
  intros [S1 S2 S3] Hs Hm. split; [done| |done]. intros n Hn. destruct (S2 n Hn) as [? Hnot]. split; [done|]. auto.
Qed.

Lemma length0 {A} (l : list A) : (length l =? 0)%nat = true ↔ l = [].
Proof. by destruct l. Qed.

Lemma service_addr_ok pool addr n existing :
  svc_fam pool addr → (existing = [] ∨ ok 16 existing) →
  let '(ip, pool') := service_addr (addr n) existing pool in
  svc_fam pool' (upd n ip addr) ∧ (addr n ≠ [] → ip = addr n) ∧ (ip = [] → FreeList pool' = [] ∧ ∀ x, ¬ members (FreeList pool) x).
Proof.
  intros Hf Hex. unfold service_addr.
  assert (∀ p, svc_fam p addr → svc_fam p (upd n (addr n) addr)) as Hsame.
  { intros p Hp. eapply svc_ext, Hp. intros m. unfold upd. by destruct (decide (m = n)) as [->|]. }
  destruct (length (addr n) =? 0)%nat eqn:E0; cbn [andb].
  2:{ rewrite E0. split_and!; [by apply Hsame|done|]. intros E. rewrite E in E0. discriminate E0. }
  assert (addr n = []) as En by (by apply length0).
  assert (Hget : ∀ p, svc_fam p addr → (∀ x, members (FreeList pool) x → members (FreeList p) x) →
    let '(ip, pool') := let '(q, res) := GetIp p in (default [] res, q) in
    svc_fam pool' (upd n ip addr) ∧ (addr n ≠ [] → ip = addr n) ∧ (ip = [] → FreeList pool' = [] ∧ ∀ x, ¬ members (FreeList pool) x)).
  { intros p Hp Hsub. pose proof (GetIp_ok 16 p (sv_pool _ _ Hp)) as G. destruct (GetIp p) as [q [ip|]]; cbn.
    - destruct G as (Hok&Hin&_&Hs&Hm). split_and!; [by eapply svc_take|by rewrite En|]. intros ->. by destruct Hok.
    - destruct G as [G ->]. split_and!; [rewrite <- En; by apply Hsame|by rewrite En|]. intros _. split; [done|].
      intros x Hx%Hsub. rewrite G in Hx. by apply members_nil in Hx. }
  destruct (length existing =? 0)%nat eqn:Ee; cbn [negb].
  { rewrite E0. by apply Hget. }
  destruct Hex as [->|Hex]; [discriminate Ee|].
  pose proof (RemoveIp_one 16 pool existing (sv_pool _ _ Hf) Hex) as Hr. destruct (IpAlloc.RemoveIp pool existing) as [p found].
  destruct Hr as (Hs&Hm&Hfound). destruct found.
  - rewrite Ee. split_and!; [|by rewrite En|].
    + eapply svc_take; [exact Hf|done|done|by apply Hfound|done].
    + intros ->. discriminate Ee.
  - rewrite E0. apply Hget.
    + eapply svc_same_pool; [exact Hf|done|]. intros x [Hx _]%Hm. done.
    + intros x Hx. apply Hm. split; [done|]. intros ->. assert (false = true) by (by apply Hfound). done.
Qed.

(** The address of a deleted node goes back. *)
Lemma svc_release pool addr n :
  svc_fam pool addr →
  svc_fam (if (length (addr n) =? 0)%nat then pool else AddIp pool (addr n)) (upd n [] addr).
Proof.
  intros [S1 S2 S3]. destruct (length (addr n) =? 0)%nat eqn:E.
  - apply length0 in E. split; [done| |].
    + intros m. unfold upd. destruct (decide (m = n)); [done|apply S2].
    + intros a b. unfold upd. destruct (decide (a = n)) as [->|]; [done|]. destruct (decide (b = n)) as [->|]; [done|apply S3].
  - assert (addr n ≠ []) as Hn by (intros En; rewrite En in E; discriminate E). destruct (S2 n Hn) as [Hok Hnot].
    unfold AddIp. destruct (AddRange_ok 16 pool (addr n) (addr n)) as [_ Hm]; [by apply sfl_wfl|done|done|].
    split.
    + apply AddRange_disjoint; [done|done|done|]. intros x Hx. by assert (x = val (addr n)) as -> by lia.
    + intros m. unfold upd. destruct (decide (m = n)) as [|Hmn]; [done|]. intros Hm0. destruct (S2 m Hm0) as [Hokm Hnotm].
      split; [done|]. rewrite Hm. intros [?|Hb]; [done|]. apply Hmn. symmetry. apply S3; [done|].
      apply (val_inj 16); [done|done|lia].
    + intros a b. unfold upd. destruct (decide (a = n)) as [->|]; [done|]. destruct (decide (b = n)) as [->|]; [done|apply S3].
Qed.

(** ** The state *)

Definition svc_of (s : NodeState) (n : string) : ServiceEndpoint := default emptyEp (nodeServiceMetaCache s !! n).
Definition svc4 (s : NodeState) (n : string) : IP := Ipv4 (svc_of s n).
Definition svc6 (s : NodeState) (n : string) : IP := Ipv6 (svc_of s n).

Definition svc_ok (s : NodeState) : Prop :=
  svc_fam (p4 (nodeServiceIps s)) (svc4 s) ∧ svc_fam (p6 (nodeServiceIps s)) (svc6 s).

Definition same_svc (s s' : NodeState) : Prop :=
  nodeServiceIps s' = nodeServiceIps s ∧ nodeServiceMetaCache s' = nodeServiceMetaCache s.

Lemma same_svc_ok s s' : same_svc s s' → svc_ok s → svc_ok s'.
Proof. intros [E1 E2]. unfold svc_ok, svc4, svc6, svc_of. by rewrite E1, E2. Qed.

Lemma same_svc_trans s1 s2 s3 : same_svc s1 s2 → same_svc s2 s3 → same_svc s1 s3.
Proof. intros [? ?] [? ?]. split; congruence. Qed.

Lemma UnmarshalIP_ok t ip : UnmarshalIP t = Some ip → ip = [] ∨ ok 16 ip.
Proof. unfold UnmarshalIP. destruct (String.eqb _ _); [intros [= <-]; by left|]. intros H%ParseIP_ok. by right. Qed.

Lemma UnmarshalEp_ok t : (Ipv4 (UnmarshalEp t) = [] ∨ ok 16 (Ipv4 (UnmarshalEp t))) ∧ (Ipv6 (UnmarshalEp t) = [] ∨ ok 16 (Ipv6 (UnmarshalEp t))).
Proof.
  destruct t as [s|a b|mac a b]; cbn [UnmarshalEp]; [split; by left|split; by left|].
  destruct (UnmarshalIP a) as [ip4|] eqn:E; [|split; by left]. cbn [Ipv4 Ipv6]. split; [by eapply UnmarshalIP_ok|].
  destruct (UnmarshalIP b) as [ip6|] eqn:E6; [by eapply UnmarshalIP_ok|by left].
Qed.

(** The endpoint of one node is made. *)
Lemma createServiceEndpoint_svc cfg rnd existing mac n s b ep' s' :
  svc_ok s → (Ipv4 existing = [] ∨ ok 16 (Ipv4 existing)) → (Ipv6 existing = [] ∨ ok 16 (Ipv6 existing)) →
  createServiceEndpoint cfg rnd existing (svc_of s n) mac n s = Some (b, ep', s') →
  nodeServiceMetaCache s' = nodeServiceMetaCache s ∧
  svc_ok (set_service (nodeServiceIps s') (<[n := ep']> (nodeServiceMetaCache s')) s') ∧
  (b = true → Ipv4 ep' ≠ [] ∨ Ipv6 ep' ≠ []).
Proof.
  intros [F4 F6] X4 X6. unfold createServiceEndpoint.
  assert (Hset : ∀ s1 ep1 q4 q6, svc_fam q4 (upd n (Ipv4 ep1) (svc4 s)) → svc_fam q6 (upd n (Ipv6 ep1) (svc6 s)) →
    nodeServiceIps s1 = mkPools q4 q6 → nodeServiceMetaCache s1 = nodeServiceMetaCache s →
    svc_ok (set_service (nodeServiceIps s1) (<[n := ep1]> (nodeServiceMetaCache s1)) s1)).
  { intros s1 ep1 q4 q6 H4 H6 E1 E2. unfold svc_ok. cbn [set_service nodeServiceIps]. rewrite E1. cbn [p4 p6].
    split; [eapply svc_ext, H4|eapply svc_ext, H6]; intros m; unfold svc4, svc6, svc_of, upd;
      cbn [set_service nodeServiceMetaCache]; rewrite E2; (destruct (decide (m = n)) as [->|]; [by rewrite lookup_insert_eq|by rewrite lookup_insert_ne]). }
  destruct (if _ && _ then _ else _) as [mac'|].
  - pose proof (service_addr_ok _ _ n _ F4 X4) as A4. pose proof (service_addr_ok _ _ n _ F6 X6) as A6.
    change (svc4 s n) with (Ipv4 (svc_of s n)) in A4. change (svc6 s n) with (Ipv6 (svc_of s n)) in A6.
    destruct (service_addr (Ipv4 (svc_of s n)) _ _) as [ip4 pool4], (service_addr (Ipv6 (svc_of s n)) _ _) as [ip6 pool6].
    destruct A4 as (A4&_), A6 as (A6&_). cbn [Ipv4 Ipv6 HealthGroupDn].
    destruct ((length ip4 =? 0)%nat && (length ip6 =? 0)%nat) eqn:Eb.
    { intros [= <- <- <-]. split_and!; [done|by eapply Hset|done]. }
    assert (ip4 ≠ [] ∨ ip6 ≠ []) as Hne.
    { apply andb_false_iff in Eb as [Eb|Eb]; [left|right]; intros ->; discriminate Eb. }
    clear Eb. destruct (_ && _); [|intros [= <- <- <-]; split_and!; [done|by eapply Hset|done]].
    destruct (NewVnsRedirectHealthGroup _ _) as [o|]; [|done]. cbn [mbind option_bind].
    intros [= <- <- <-]. split_and!; [done|by eapply Hset|done].
  - intros [= <- <- <-]. split_and!; [done| |done]. apply (Hset s (svc_of s n) (p4 (nodeServiceIps s)) (p6 (nodeServiceIps s))).
    + eapply svc_ext, F4. intros m. unfold upd, svc4. by destruct (decide (m = n)) as [->|].
    + eapply svc_ext, F6. intros m. unfold upd, svc6. by destruct (decide (m = n)) as [->|].
    + by destruct (nodeServiceIps s).
    + done.
Qed.

(** ** The handlers *)

Lemma node_service_svc cfg rnd node s s' node' u :
  svc_ok s → node_service cfg rnd node s = Some (s', node', u) → svc_ok s'.
Proof.
  intros Hok. unfold node_service. destruct (deviceMacForNode _ _) as [mac|]; [|by intros [= <- <- <-]].
  destruct (nodeSyncEnabled s); [|by intros [= <- <- <-]]. fold (svc_of s (node_Name node)).
  set (existing := default emptyEp (UnmarshalEp <$> ann_ServiceEp node)).
  assert ((Ipv4 existing = [] ∨ ok 16 (Ipv4 existing)) ∧ (Ipv6 existing = [] ∨ ok 16 (Ipv6 existing))) as [X4 X6].
  { unfold existing. destruct (ann_ServiceEp node) as [t|]; [apply UnmarshalEp_ok|]. split; by left. }
  destruct (createServiceEndpoint _ _ _ _ _ _ _) as [[[b ep] s1]|] eqn:E; [|done]. cbn [mbind option_bind].
  apply createServiceEndpoint_svc in E as (_&Hok'&_); [|done..]. intros [= H].
  destruct (MarshalEp ep) as [raw|]; [destruct (bool_decide _)|]; injection H as <- <- <-; [exact Hok'| |exact Hok'].
  eapply same_svc_ok, Hok'. done.
Qed.

Lemma check_svc cfg n s : same_svc s (checkNodePodNet cfg n s).
Proof.
  unfold checkNodePodNet. destruct (nodePodNetCache s !! n) as [m|]; [|done].
  rewrite check_family4. destruct (fam_check _ _ _ (V4 _) _) as [[b4 fl4] q4].
  rewrite check_family6. destruct (fam_check _ _ _ (V6 _) _) as [[b6 fl6] q6]. by destruct (b4 || b6).
Qed.

Lemma getTunnelID_svc cfg driver node s : same_svc s (getTunnelID cfg driver node s).2.
Proof.
  unfold getTunnelID. destruct (String.eqb _ _); [done|]. destruct (String.eqb _ _); [done|].
  destruct (match tunnelGetter s with Some t => _ | None => _ end) as [t|]; [|done].
  destruct (nodeToTunnel t !! _); [done|]. destruct (_ <=? _); done.
Qed.

Lemma nodeChanged_svc cfg rnd driver node s s' node' :
  svc_ok s → nodeChanged cfg rnd driver node s = Some (s', node') → svc_ok s'.
Proof.
  intros Hok. unfold nodeChanged. destruct (ChainedMode cfg) eqn:Ech; [by intros [= <- <-]|].
  destruct (node_service _ _ _ _) as [[[s1 node1] u1]|] eqn:E1; [|done]. cbn [mbind option_bind].
  apply node_service_svc in E1; [|done].
  destruct (node_podnet _ _ _) as [[s2 node2] u2] eqn:E2.
  assert (same_svc s1 s2) as Sm2.
  { unfold node_podnet in E2. set (s0 := match _ with Some _ => s1 | None => _ end) in E2.
    assert (same_svc s1 s0) as H0 by (unfold s0; by destruct (nodePodNetCache s1 !! _)).
    destruct (nodeSyncEnabled s0); [|by injection E2 as <- <- <-].
    destruct (bool_decide _); injection E2 as <- <- <-; (eapply same_svc_trans; [exact H0|apply check_svc]). }
  destruct (node_acipod _ _ _) as [node3 u3]. unfold createNetPolForNode.
  destruct (apicNodeNetPol _ _ _) as [hpp|]; [|done]. cbn [mbind option_bind]. unfold writeApicNode. rewrite Ech.
  set (s3 := node_emit _ s2). pose proof (getTunnelID_svc cfg driver node3 s3) as Sm4.
  destruct (getTunnelID _ _ _ _) as [id s4]. cbn [snd] in Sm4.
  destruct (NewVmmInjectedHost _ _ _ _) as [o|]; [|done]. cbn [mbind option_bind]. intros [= Es <-].
  eapply same_svc_ok, E1. eapply same_svc_trans; [exact Sm2|]. rewrite <- Es. destruct (_ || _); exact Sm4.
Qed.

Lemma nodeDeleted_svc cfg di dp obj s : svc_ok s → svc_ok (nodeDeleted cfg di dp obj s).
Proof.
  intros Hok. unfold nodeDeleted. destruct (ChainedMode cfg); [done|]. destruct (as_node obj) as [node|]; [|done].
  set (n := node_Name node). cbn zeta. set (s0 := node_emit _ s).
  set (pools := match nodeServiceMetaCache s0 !! n with None => _ | Some _ => _ end).
  set (s1 := set_service pools (delete n (nodeServiceMetaCache s0)) s0).
  assert (svc_ok s1) as H1.
  { destruct Hok as [F4 F6]. pose proof (svc_release _ _ n F4) as R4. pose proof (svc_release _ _ n F6) as R6.
    assert (∀ m, svc_of s1 m = if decide (m = n) then emptyEp else svc_of s m) as Eo.
    { intros m. unfold svc_of, s1. cbn [set_service nodeServiceMetaCache s0 node_emit]. destruct (decide (m = n)) as [->|].
      - by rewrite lookup_delete_eq.
      - by rewrite lookup_delete_ne. }
    assert (p4 pools = (if (length (svc4 s n) =? 0)%nat then p4 (nodeServiceIps s) else AddIp (p4 (nodeServiceIps s)) (svc4 s n)) ∧
      p6 pools = (if (length (svc6 s n) =? 0)%nat then p6 (nodeServiceIps s) else AddIp (p6 (nodeServiceIps s)) (svc6 s n))) as [P4 P6].
    { unfold pools, svc4, svc6, svc_of. cbn [s0 node_emit nodeServiceMetaCache nodeServiceIps].
      destruct (nodeServiceMetaCache s !! n) as [ep|]; done. }
    split; cbn [s1 set_service nodeServiceIps].
    - rewrite P4. eapply svc_ext, R4. intros m. unfold svc4, upd. rewrite Eo. by destruct (decide (m = n)).
    - rewrite P6. eapply svc_ext, R6. intros m. unfold svc6, upd. rewrite Eo. by destruct (decide (m = n)). }
  repeat case_match; simplify_eq/=; (eapply same_svc_ok, H1; done).
Qed.

(** ** Reachable states *)

Inductive node_step (cfg : NodeCfg) : NodeState → NodeState → Prop :=
  | ns_changed s rnd driver node s' node' :
      nodeChanged cfg rnd driver node s = Some (s', node') → node_step cfg s s'
  | ns_deleted s di dp obj : node_step cfg s (nodeDeleted cfg di dp obj s)
  | ns_other s s' : same_svc s s' → node_step cfg s s'.

(** The configured service addresses are disjoint ranges. *)
Definition svc_cfg (cfg : NodeCfg) : Prop :=
  Forall (range_ok 16) (NodeServiceIpPool cfg) ∧ StronglySorted apart (NodeServiceIpPool cfg) ∧
  Forall (λ r, is_v4 (Start r) = true ∧ is_v4 (End_ r) = true ∨ hi r < 65535 * 2 ^ 32 ∨ 65536 * 2 ^ 32 <= lo r) (NodeServiceIpPool cfg).

Lemma initIpam_svc cfg : svc_cfg cfg → svc_ok (initIpam cfg).
Proof.
  intros (H1&H2&H3). destruct (loadIpRanges_ok (NodeServiceIpPool cfg) newNetIps newNetIps_ok H1 H2 H3) as [S4 S6 _ _].
  { intros r x _. cbn. rewrite members_nil. tauto. }
  assert (∀ n, svc_of (initIpam cfg) n = emptyEp) as E by (intros n; unfold svc_of; cbn [initIpam nodeServiceMetaCache]; by rewrite lookup_empty).
  split; (split; [done| |]); intros n; unfold svc4, svc6; rewrite !E; done.
Qed.

Lemma node_reach_svc cfg s : svc_cfg cfg → rtc (node_step cfg) (initIpam cfg) s → svc_ok s.
Proof.
  intros Hc Hr. pose proof (initIpam_svc cfg Hc) as H0. induction Hr as [s|s1 s2 s3 Hs _ IH]; [done|]. apply IH.
  destruct Hs as [s rnd driver node s' node' E|s di dp obj|s s' Hs]; [by eapply nodeChanged_svc|by apply nodeDeleted_svc|by eapply same_svc_ok].
Qed.

(** Whatever order nodes come, change and go in, and whatever service
    endpoint their annotations claim, two nodes never have the same service
    address, and an address that a node has is not in the pool. *)
Theorem node_service_unique cfg s n m :
  svc_cfg cfg → rtc (node_step cfg) (initIpam cfg) s →
  (svc4 s n ≠ [] → ¬ members (FreeList (p4 (nodeServiceIps s))) (val (svc4 s n)) ∧ (svc4 s n = svc4 s m → n = m)) ∧
  (svc6 s n ≠ [] → ¬ members (FreeList (p6 (nodeServiceIps s))) (val (svc6 s n)) ∧ (svc6 s n = svc6 s m → n = m)).
Proof.
  intros Hc Hr. destruct (node_reach_svc cfg s Hc Hr) as [F4 F6]. split; intros Hn.
  - split; [by apply (sv_addr _ _ F4)|by apply (sv_apart _ _ F4)].
  - split; [by apply (sv_addr _ _ F6)|by apply (sv_apart _ _ F6)].
Qed.

(** *** An example: two nodes whose annotations claim the same address *)

Definition svc_ip (d : Z) : IP := (v4InV6Prefix ++ [10; 2; 0; d])%list.
Definition svc_demo_cfg : NodeCfg :=
  mkNodeCfg false "kube" "kube" "common" "dom" "ctl" "Kubernetes" "5.2" 0 false lbTypeAci 16 4001 4
    [] [mkRange (svc_ip 1) (svc_ip 5)].
Definition svc_device : ApicObject := Obj "opflexODev" EmptyString {["mac"%string := AStr "02:00:00:00:00:01"]} [].
Definition svc_demo_start : NodeState :=
  let s := initIpam svc_demo_cfg in
  mkNodeState (configuredPodNetworkIps s) (podNetworkIps s) (nodePodNetCache s) (nodeServiceIps s) (nodeServiceMetaCache s)
    {["n1"%string := [svc_device]; "n2"%string := [svc_device]]} (nodeACIPod s) (snatNodeInfoCache_ s) true (tunnelGetter s) (node_effects s).
Definition svc_demo_node (n : string) : Node :=
  mkNode n None (Some (EpText "02:00:00:00:00:01" "10.2.0.3" EmptyString)) EmptyString [] EmptyString EmptyString.
Definition svc_demo : option NodeState :=
  '(s, _) ← nodeChanged svc_demo_cfg None None (svc_demo_node "n1") svc_demo_start;
  '(s, _) ← nodeChanged svc_demo_cfg None None (svc_demo_node "n2") s;
  Some s.

Lemma svc_demo_reach s : svc_demo = Some s → rtc (node_step svc_demo_cfg) (initIpam svc_demo_cfg) s.
Proof.
  unfold svc_demo. destruct (nodeChanged _ _ _ _ svc_demo_start) as [[s1 nd1]|] eqn:E1; [|discriminate]. cbn [mbind option_bind].
  destruct (nodeChanged _ _ _ _ s1) as [[s2 nd2]|] eqn:E2; [|discriminate]. cbn [mbind option_bind]. intros [= <-].
  eapply rtc_l; [apply (ns_other _ _ svc_demo_start); split; reflexivity|].
  eapply rtc_l; [eapply ns_changed, E1|]. eapply rtc_l; [eapply ns_changed, E2|]. apply rtc_refl.
Qed.

Lemma node_service_unique_witness :
  ∃ s, svc_demo = Some s ∧ svc4 s "n1" = svc_ip 3 ∧ svc4 s "n1" ≠ svc4 s "n2" ∧
    ¬ members (FreeList (p4 (nodeServiceIps s))) (val (svc_ip 3)).
Proof.
  assert (is_Some svc_demo) as [s E] by (apply (bool_decide_eq_true_1 _); vm_compute; reflexivity).
  assert ((s ← svc_demo; Some (svc4 s "n1")) = Some (svc_ip 3)) as H by (vm_compute; reflexivity).
  rewrite E in H. cbn [mbind option_bind] in H. injection H as H.
  assert (svc_cfg svc_demo_cfg) as Hc by (split_and!; decide_now).
  destruct (node_service_unique svc_demo_cfg s "n1" "n2" Hc (svc_demo_reach s E)) as [H4 _].
  destruct H4 as [Hnot Hne]; [rewrite H; discriminate|].
  exists s. refine (conj E (conj H (conj _ _))).
  - intros Heq. discriminate (Hne Heq).
  - rewrite H in Hnot. exact Hnot.
Defined.

(** ** Tunnels *)

(** Different nodes have different identifiers, all below the next one. *)
Definition tunnels_ok (t : tunnelState) : Prop :=
  (∀ a b i, nodeToTunnel t !! a = Some i → nodeToTunnel t !! b = Some i → a = b) ∧
  (∀ a i, nodeToTunnel t !! a = Some i → 0 <= i < nextID t) ∧ 0 <= nextID t < 2 ^ 62.

(** What the state driver reads: distinct identifiers in the range that the
    controller gives out. *)
Definition driver_ok (driver : option (option (gmap string Z))) : Prop :=
  ∀ ids, driver = Some (Some ids) →
    (∀ a b i, ids !! a = Some i → ids !! b = Some i → a = b) ∧ (∀ a i, ids !! a = Some i → 0 <= i < 2 ^ 61).

Lemma tunnel_max (ids : gmap string Z) :
  let m := map_fold (λ _ v m, if (v <? m)%Z then m else v) 0 ids in
  0 <= m ∧ (∀ a i, ids !! a = Some i → i <= m) ∧ (m = 0 ∨ ∃ a, ids !! a = Some m).
Proof.
  cbn zeta. apply (map_fold_weak_ind (λ m ids, 0 <= m ∧ (∀ a i, ids !! a = Some i → i <= m) ∧ (m = 0 ∨ ∃ a, ids !! a = Some m))).
  - split_and!; [lia| |by left]. intros a i Ha. by rewrite lookup_empty in Ha.
  - intros a v ids' m Ha (H0&H1&H2). destruct (Z.ltb_spec v m).
    + split_and!; [lia| |].
      * intros b i [[<- <-]|[? Hb]]%lookup_insert_Some; [lia|eauto].
      * destruct H2 as [|[b Hb]]; [by left|]. right. exists b. rewrite lookup_insert_ne; [done|]. intros ->. congruence.
    + split_and!; [lia| |].
      * intros b i [[<- <-]|[? Hb]]%lookup_insert_Some; [lia|]. apply H1 in Hb. lia.
      * right. exists a. by rewrite lookup_insert_eq.
Qed.

Lemma initTunnels_ok driver t : driver_ok driver → initTunnels driver = Some t → tunnels_ok t.
Proof.
  intros Hd. unfold initTunnels. destruct driver as [[ids|]|]; [| |done]; cbn [mbind option_bind]; intros [= <-].
  - destruct (Hd ids eq_refl) as [Hinj Hb]. destruct (tunnel_max ids) as (H0&H1&H2). set (m := map_fold _ _ _) in *.
    assert (m < 2 ^ 61) as Hm by (destruct H2 as [->|[a Ha]]; [lia|apply Hb in Ha; lia]).
    unfold tunnels_ok. cbn [nodeToTunnel nextID]. unfold tunnelIDIncr. rewrite int64_id by (unfold MaxInt64; lia).
    split_and!; [exact Hinj| |lia|lia]. intros a i Ha. specialize (H1 a i Ha). specialize (Hb a i Ha). lia.
  - split_and!; cbn; try lia; intros *; rewrite lookup_empty; done.
Qed.

Definition tunnel_state_ok (s : NodeState) : Prop := ∀ t, tunnelGetter s = Some t → tunnels_ok t.

(** Asking for the tunnel of a node keeps the identifiers of the nodes
    different and gives the node, unless there is none left, the identifier
    that is recorded for its address, below twice the number of tunnels if it
    is new; identifiers that were given before stay. *)
Theorem node_tunnels cfg driver node s :
  driver_ok driver → tunnel_state_ok s → 0 <= MaxCSRTunnels cfg < 2 ^ 60 → 0 <= CSRTunnelIDBase cfg < 2 ^ 60 →
  let '(id, s') := getTunnelID cfg driver node s in
  tunnel_state_ok s' ∧
  (∀ t a i, tunnelGetter s = Some t → nodeToTunnel t !! a = Some i → ∃ t', tunnelGetter s' = Some t' ∧ nodeToTunnel t' !! a = Some i) ∧
  (id = 0 ∨ ∃ t' i, tunnelGetter s' = Some t' ∧ nodeToTunnel t' !! getNodeIP node "InternalIP" = Some i ∧
     id = i + CSRTunnelIDBase cfg ∧
     (i < 2 * MaxCSRTunnels cfg ∨ nodeToTunnel <$> (match tunnelGetter s with Some t => Some t | None => initTunnels driver end) = Some (nodeToTunnel t'))).
Proof.
  intros Hd Hs Hm Hb. unfold getTunnelID. destruct (String.eqb _ _); [split_and!; [done|eauto|by left]|].
  destruct (String.eqb _ _); [split_and!; [done|eauto|by left]|].
  destruct (match tunnelGetter s with Some t => Some t | None => initTunnels driver end) as [t|] eqn:Et;
    [|split_and!; [done|eauto|by left]].
  assert (tunnels_ok t) as (T1&T2&T3).
  { destruct (tunnelGetter s) as [t0|] eqn:Eg; [injection Et as <-; by apply Hs|by eapply initTunnels_ok]. }
  assert (∀ t0 a i, tunnelGetter s = Some t0 → nodeToTunnel t0 !! a = Some i → nodeToTunnel t !! a = Some i) as Hkeep.
  { intros t0 a i E0. rewrite E0 in Et. by injection Et as ->. }
  set (nodeIP := getNodeIP node "InternalIP").
  destruct (nodeToTunnel t !! nodeIP) as [i|] eqn:Ei.
  - split_and!.
    + intros t' [= <-]. done.
    + intros t0 a j E0 Ha. exists t. split; [done|]. by eapply Hkeep.
    + right. exists t, i. split_and!; [done|done| |by right]. apply int64_id. specialize (T2 _ _ Ei). unfold MaxInt64. lia.
  - rewrite int64_id by (unfold MaxInt64, tunnelIDIncr; lia). unfold tunnelIDIncr.
    destruct (Z.leb_spec (MaxCSRTunnels cfg * 2) (nextID t)) as [Hfull|Hfree].
    + split_and!; [intros t' [= <-]; done| |by left]. intros t0 a j E0 Ha. exists t. split; [done|]. by eapply Hkeep.
    + set (t' := mkTunnels _ _). assert (nextID t' = nextID t + 2) as En by (cbn; apply int64_id; unfold MaxInt64; lia).
      split_and!.
      * intros t'' [= <-]. unfold tunnels_ok. rewrite En. cbn [t' nodeToTunnel]. split_and!; [| |lia|lia].
        -- intros a b j [[<- <-]|[Hna Ha]]%lookup_insert_Some [[<- Hj]|[Hnb Hb']]%lookup_insert_Some; [done| | |by eapply T1].
           ++ specialize (T2 _ _ Hb'). lia.
           ++ subst j. specialize (T2 _ _ Ha). lia.
        -- intros a j [[<- <-]|[Hna Ha]]%lookup_insert_Some; [lia|]. specialize (T2 _ _ Ha). lia.
      * intros t0 a j E0 Ha. exists t'. split; [done|]. cbn. pose proof (Hkeep t0 a j E0 Ha) as Ha'. rewrite lookup_insert_ne; [done|].
        intros <-. congruence.
      * right. exists t', (nextID t). split_and!; [done|apply lookup_insert_eq| |left; lia]. apply int64_id. unfold MaxInt64. lia.
Qed.

Definition tunnel_cfg : NodeCfg :=
  mkNodeCfg false "kube" "kube" "common" "dom" "ctl" "Kubernetes" "5.2" 0 false "csr" 16 4001 4 [] [].
Definition tunnel_node (n ip : string) : Node := mkNode n None None EmptyString [("InternalIP", ip)]%string EmptyString EmptyString.

Lemma node_tunnels_witness :
  let s := (getTunnelID tunnel_cfg (Some None) (tunnel_node "n1" "1.1.1.1") (initIpam tunnel_cfg)).2 in
  (getTunnelID tunnel_cfg (Some None) (tunnel_node "n2" "1.1.1.2") s).1 = 4003 ∧
  tunnel_state_ok (getTunnelID tunnel_cfg (Some None) (tunnel_node "n2" "1.1.1.2") s).2.
Proof.
  cbn zeta. assert (driver_ok (Some None)) as Hd by (intros ids [=]).
  assert (tunnel_state_ok (getTunnelID tunnel_cfg (Some None) (tunnel_node "n1" "1.1.1.1") (initIpam tunnel_cfg)).2) as H1.
  { pose proof (node_tunnels tunnel_cfg (Some None) (tunnel_node "n1" "1.1.1.1") (initIpam tunnel_cfg) Hd) as H.
    destruct (getTunnelID _ _ _ _) as [id s]. apply H; [intros t [=]|cbn; lia|cbn; lia]. }
  split; [vm_compute; reflexivity|].
  pose proof (node_tunnels tunnel_cfg (Some None) (tunnel_node "n2" "1.1.1.2") _ Hd H1) as H.
  destruct (getTunnelID _ _ (tunnel_node "n2" "1.1.1.2") _) as [id s]. apply H; cbn; lia.
Defined.
