(* ===== verification/SvcTypes.v ===== *)
(** * SvcTypes: services, endpoints and the configuration that services.go reads

    The fields of Kubernetes services, endpoints and endpoint slices that
    src/pkg/controller/services.go uses, its configuration, and what it uses of
    package time.  A pointer is an [option]; an address is its byte list and
    the nil address is the empty list. *)
From S2P Require Import Prelude GoBytes GoNet GoText IpAlloc ApicMetadata ApicTypes K8s AciNames.

Open Scope string_scope.

(** ** Objects *)

Record ObjectReference := mkRef { ref_Kind : string; ref_Namespace : string; ref_Name : string }.

Record LbIngress := mkIngress { ing_IP : string; ing_Hostname : string }.

(** metav1.Condition; the time of the transition is only written. *)
Record Condition := mkCond {
  cond_Type : string;
  cond_Status : bool;
  cond_Reason : string;
  cond_Message : string
}.

Record SvcPort := mkPortSpec {
  port_Protocol : string;
  port_Port : Z;
  port_TargetPort : IntOrString;
  port_NodePort : Z
}.

Record SvcObj := mkSvcObj {
  so_Namespace : string;
  so_Name : string;
  so_UID : string;
  so_Annotations : gmap string string;
  so_Labels : gmap string string;
  so_Type : string;
  so_ClusterIP : string;
  so_ClusterIPs : list string;
  so_LoadBalancerIP : string;
  so_Ports : list SvcPort;
  so_Ingress : list LbIngress;
  so_Conditions : list Condition
}.

Record EndpointAddress := mkEpAddr {
  addr_IP : string;
  addr_NodeName : option string;
  addr_TargetRef : option ObjectReference
}.

Record Subset := mkEpSubset { sub_Addresses : list EndpointAddress; sub_NotReady : list EndpointAddress }.
Record Endpoints := mkEndpoints { eps_Namespace : string; eps_Name : string; eps_Subsets : list Subset }.

Record Endpoint := mkEndpoint {
  ep_Addresses : list string;
  ep_Ready : option bool;
  ep_Terminating : option bool;
  ep_NodeName : option string;
  ep_TargetRef : option ObjectReference
}.
Record EpSlice := mkEpSlice {
  sl_Namespace : string;
  sl_Labels : gmap string string;
  sl_Endpoints : list Endpoint
}.

#[export] Instance ObjectReference_eq_dec : EqDecision ObjectReference.
Proof. solve_decision. Defined.
#[export] Instance LbIngress_eq_dec : EqDecision LbIngress.
Proof. solve_decision. Defined.
#[export] Instance Condition_eq_dec : EqDecision Condition.
Proof. solve_decision. Defined.
#[export] Instance EndpointAddress_eq_dec : EqDecision EndpointAddress.
Proof. solve_decision. Defined.
#[export] Instance Subset_eq_dec : EqDecision Subset.
Proof. solve_decision. Defined.
#[export] Instance Endpoint_eq_dec : EqDecision Endpoint.
Proof. solve_decision. Defined.

(** cache.MetaNamespaceKeyFunc, which does not fail on these objects. *)
Definition MetaKey (ns name : string) : string :=
  if String.eqb ns EmptyString then name else ns ++ "/" ++ name.
Definition so_key (s : SvcObj) : string := MetaKey (so_Namespace s) (so_Name s).
Definition eps_key (e : Endpoints) : string := MetaKey (eps_Namespace e) (eps_Name e).

Definition set_lb_ingress (l : list LbIngress) (s : SvcObj) : SvcObj :=
  mkSvcObj (so_Namespace s) (so_Name s) (so_UID s) (so_Annotations s) (so_Labels s) (so_Type s) (so_ClusterIP s)
    (so_ClusterIPs s) (so_LoadBalancerIP s) (so_Ports s) l (so_Conditions s).
Definition set_conditions (l : list Condition) (s : SvcObj) : SvcObj :=
  mkSvcObj (so_Namespace s) (so_Name s) (so_UID s) (so_Annotations s) (so_Labels s) (so_Type s) (so_ClusterIP s)
    (so_ClusterIPs s) (so_LoadBalancerIP s) (so_Ports s) (so_Ingress s) l.

(** ** Configuration *)

Record SvcDelay := mkDelay { dly_Delay : Z; dly_Name : string; dly_Namespace : string }.

Record SvcCfg := mkSvcCfg {
  AciPrefix : string;
  AciVrfTenant : string;
  AciVrf : string;
  AciL3Out : string;
  AciExtNetworks : list string;
  AciVmmDomain : string;
  AciVmmController : string;
  AciVmmDomainType : string;
  AciServicePhysDom : string;
  AciServiceEncap : string;
  AciServiceMonitorInterval : Z;
  AciPbrTrackingNonSnat : bool;
  NodeServiceSubnets : list string;
  AciMultipod : bool;
  OpflexDeviceDeleteTimeout : Z;
  OpflexDeviceReconnectWaitTimeout : Z;
  LBType : string;
  ChainedMode : bool;
  AllocateServiceIps : bool;
  MaxSvcGraphNodes : Z;
  SnatSvcContractScope : string;
  SnatDefaultPortRangeStart : Z;
  SnatDefaultPortRangeEnd : Z;
  AddDelay : Z;
  AddDelay_Services : list SvcDelay;
  NoWaitForServiceEpReadiness : bool;
  EnableVmmInjectedLabels : bool;
  Flavor : string;
  ApicHosts : list string;
  ApicVersion : string;
  SnatPbrFltrChain : bool;
  ServiceIpPool : list IpRange;
  StaticServiceIpPool : list IpRange
}.

Definition svc_aciName (cfg : SvcCfg) (ktype key : string) : string := AciNameForKey (AciPrefix cfg) ktype key.

(** K8sEnvironment. *)
Definition is_openshift (cfg : SvcCfg) : bool := String.eqb (ToLower (AciVmmDomainType cfg)) "openshift".
Definition OpFlexDeviceType (cfg : SvcCfg) : string := if is_openshift cfg then "openshift" else "k8s".
Definition svc_vmmProvider (cfg : SvcCfg) : string := if is_openshift cfg then "OpenShift" else "Kubernetes".
Definition ServiceBd : string := "kubernetes-service".

(** ** Outcomes *)

(** What a call comes to: it panics, it blocks on a mutex for ever, or it
    returns. *)
Inductive outcome (A : Type) := Panics | Blocks | Returns (a : A).
Arguments Panics {A}.
Arguments Blocks {A}.
Arguments Returns {A} a.

#[export] Instance outcome_ret : MRet outcome := λ A a, Returns a.
#[export] Instance outcome_bind : MBind outcome := λ A B f m,
  match m with Panics => Panics | Blocks => Blocks | Returns a => f a end.

(** A constructor of an object: [None] is a panic. *)
Definition build {A} (r : option A) : outcome A := match r with Some a => Returns a | None => Panics end.

(** Lock and Unlock of a mutex: a goroutine that locks it twice waits for ever,
    and unlocking a free one is a fatal error. *)
Definition Mutex_Lock (locked : bool) : outcome bool := if locked then Blocks else Returns true.
Definition Mutex_Unlock (locked : bool) : outcome bool := if locked then Returns false else Panics.

(** A loop over a list whose body is a call. *)
Fixpoint foldO {A B} (f : A → B → outcome A) (a : A) (l : list B) : outcome A :=
  match l with
  | [] => Returns a
  | b :: l => a ← f a b; foldO f a l
  end.

(** What holds of the result if there is one. *)
Definition post {A} (r : outcome A) (Q : A → Prop) : Prop := ∀ a, r = Returns a → Q a.

Lemma post_ret {A} (a : A) (Q : A → Prop) : Q a → post (Returns a) Q.
Proof. by intros H a' [= <-]. Qed.

Lemma post_bind {A B} (m : outcome A) (f : A → outcome B) (Q : B → Prop) :
  post m (λ a, post (f a) Q) → post (m ≫= f) Q.
Proof. destruct m as [| |a]; [done..|]. intros H b. by apply (H a). Qed.

Lemma foldO_post {A B} (I : A → Prop) (f : A → B → outcome A) l a :
  I a → (∀ a b, b ∈ l → I a → post (f a b) I) → post (foldO f a l) I.
Proof.
  revert a. induction l as [|b l IH]; intros a Ha Hf; cbn [foldO]; [by apply post_ret|].
  apply post_bind. intros a' E. apply IH; [|intros x y Hy; apply Hf; by right].
  exact (Hf a b (list_elem_of_here _ _) Ha a' E).
Qed.

(** ** Strings *)

(** strings.Contains. *)
Definition Contains (s sub : string) : bool := bool_decide (is_Some (String.index 0 sub s)).

(** strings.Trim with a set of characters. *)
Definition in_cutset (cutset : string) (c : ascii) : bool := negb (none (Ascii.eqb c) cutset).
Fixpoint TrimLeft (s cutset : string) : string :=
  match s with
  | EmptyString => EmptyString
  | String c s' => if in_cutset cutset c then TrimLeft s' cutset else s
  end.
Fixpoint TrimRight (s cutset : string) : string :=
  match s with
  | EmptyString => EmptyString
  | String c s' =>
      match TrimRight s' cutset with
      | EmptyString => if in_cutset cutset c then EmptyString else String c EmptyString
      | r => String c r
      end
  end.
Definition Trim (s cutset : string) : string := TrimRight (TrimLeft s cutset) cutset.

(** ** Time *)

(** Instants are counted in nanoseconds since 1970; the zero time of Go is
    [None] where it matters. *)
Definition Second : Z := 1000000000.

Definition pad (w : nat) (n : Z) : string :=
  let s := Itoa n in
  concat_str (replicate (w - String.length s) "0") ++ s.

(** Days since 1970 as a date of the Gregorian calendar and back. *)
Definition civil_of_days (days : Z) : Z * Z * Z :=
  (let z := days + 719468 in
   let era := z / 146097 in
   let doe := z mod 146097 in
   let yoe := (doe - doe / 1460 + doe / 36524 - doe / 146096) / 365 in
   let doy := doe - (365 * yoe + yoe / 4 - yoe / 100) in
   let mp := (5 * doy + 2) / 153 in
   let d := doy - (153 * mp + 2) / 5 + 1 in
   let m := if mp <? 10 then mp + 3 else mp - 9 in
   let y := yoe + era * 400 in
   (if m <=? 2 then y + 1 else y, m, d))%Z.
Definition days_of_civil (y m d : Z) : Z :=
  (let y := if m <=? 2 then y - 1 else y in
   let era := y / 400 in
   let yoe := y mod 400 in
   let mp := if 2 <? m then m - 3 else m + 9 in
   let doy := (153 * mp + 2) / 5 + d - 1 in
   let doe := yoe * 365 + yoe / 4 - yoe / 100 + doy in
   era * 146097 + doe - 719468)%Z.

(** Time.Format and time.Parse with the layout RFC3339, in UTC. *)
Definition Format_RFC3339 (t : Z) : string :=
  let secs := (t / Second)%Z in
  let '(y, m, d) := civil_of_days (secs / 86400) in
  let s := (secs mod 86400)%Z in
  pad 4 y ++ "-" ++ pad 2 m ++ "-" ++ pad 2 d ++ "T" ++
  pad 2 (s / 3600) ++ ":" ++ pad 2 (s / 60 mod 60) ++ ":" ++ pad 2 (s mod 60) ++ "Z".

Definition fixed (w : nat) (lo hi : Z) (s : string) : option Z :=
  if (String.length s =? w)%nat then n ← digits 0 s; if ((lo <=? n) && (n <=? hi))%Z then Some n else None else None.
Definition Parse_RFC3339 (s : string) : option Z :=
  y ← fixed 4 0 9999 (String.substring 0 4 s);
  m ← fixed 2 1 12 (String.substring 5 2 s);
  d ← fixed 2 1 31 (String.substring 8 2 s);
  h ← fixed 2 0 23 (String.substring 11 2 s);
  mi ← fixed 2 0 59 (String.substring 14 2 s);
  sec ← fixed 2 0 59 (String.substring 17 2 s);
  let days := days_of_civil y m d in
  if String.eqb (String.substring 4 1 s ++ String.substring 7 1 s ++ String.substring 10 1 s ++ String.substring 13 1 s ++ String.substring 16 1 s
                   ++ String.substring 19 (String.length s) s) "--T::Z"
     && bool_decide (civil_of_days days = (y, m, d))
  then Some ((days * 86400 + h * 3600 + mi * 60 + sec) * Second)%Z else None.

Example format_leap_day : Format_RFC3339 (1709210096 * Second) = "2024-02-29T12:34:56Z".
Proof. vm_compute. reflexivity. Qed.
Example parse_leap_day : Parse_RFC3339 "2024-02-29T12:34:56Z" = Some (1709210096 * Second)%Z.
Proof. vm_compute. reflexivity. Qed.
Example parse_no_such_day : Parse_RFC3339 "2023-02-29T12:34:56Z" = None.
Proof. vm_compute. reflexivity. Qed.
