(* ===== verification/OpflexDev.v ===== *)
(** * OpflexDev: the OpFlex devices of the nodes

    The part of src/pkg/controller/services.go that follows the opflexODev
    objects of the APIC: for every node the list of its devices, the newest at
    the end, from which the fabric path and the MAC address of the node are
    read; the device cluster and the service graph written for them; and the
    clean-up that a timer runs.  The list of a node is a slice that only this
    code holds, so it is a value here; the objects in it are changed through
    SetAttr, and when a slice holds an object twice the copies differ at most
    in "prevState", which decides only about logging.

    [now] is the time of the call in nanoseconds.  The order of a loop over a
    map is that of [map_to_list]; it shows only in the order of the effects. *)
From S2P Require Import Prelude GoBytes GoNet GoText IpAlloc ApicMetadata ApicTypes ApicBuild K8s AciNames SvcTypes.

Open Scope string_scope.

(** ** State *)

Record aciPodAnnot := mkAciPod { aciPod : string; disconnectTime : option Z }.
#[export] Instance aciPodAnnot_eq_dec : EqDecision aciPodAnnot.
Proof. solve_decision. Defined.
Definition no_annot : aciPodAnnot := mkAciPod EmptyString None.

Abbreviation devices := (gmap string ApicSlice).

Record DevState := mkDevState {
  nodeOpflexDevice : devices;
  nodeACIPod : gmap string aciPodAnnot
}.

Inductive svc_effect :=
  | SvcWrite (key : string) (objs : ApicSlice)
  | SvcClear (key : string)
  | NodeServiceChanged (node : string)
  | NodeAnnotationChanged (node : string)
  | ErspanSync
  | QueueService (key : string)
  | QueueNetPolicy (key : string)
  | UpdateServiceStatus (service : SvcObj).

(** ** The device in use *)

Definition is_connected (d : ApicObject) : bool := String.eqb (GetAttrStr d "state") "connected".

Definition getActiveFabricPathDn (devs : ApicSlice) : string :=
  match List.find is_connected (rev devs) with
  | Some device => GetAttrStr device "fabricPathDn"
  | None => EmptyString
  end.

Definition setDeleteFlagForOldDevices (now : Z) (fabricPathDn : string) (devs : ApicSlice) : ApicSlice :=
  map (λ device,
    if negb (String.eqb (GetAttrStr device "fabricPathDn") fabricPathDn) then
      SetAttr (SetAttr device "delete" (AStr "true")) "deleteTime" (AStr (Format_RFC3339 now))
    else device) devs.

(** The loop of [fabricPathForNode] over the devices, the last one first: the
    path of the first connected device, and the devices seen with their state
    recorded. *)
Fixpoint path_scan (devs : ApicSlice) : ApicSlice * option string :=
  match devs with
  | [] => ([], None)
  | device :: devs =>
      let state := GetAttrStr device "state" in
      if String.eqb state "connected" then
        let device :=
          if negb (String.eqb state (GetAttrStr device "prevState")) then SetAttr device "prevState" (AStr state)
          else device in
        (device :: devs, Some (GetAttrStr device "fabricPathDn"))
      else
        let '(devs, res) := path_scan devs in
        (SetAttr device "prevState" (AStr state) :: devs, res)
  end.

Definition fabricPathForNode (now : Z) (devs : ApicSlice) : ApicSlice * option string :=
  let '(scanned, res) := path_scan (rev devs) in
  match res with
  | Some fabricPathDn => (setDeleteFlagForOldDevices now fabricPathDn (rev scanned), Some fabricPathDn)
  | None =>
      match scanned with
      | [] => ([], None)
      | newest :: _ => (rev scanned, Some (GetAttrStr newest "fabricPathDn"))
      end
  end.

Definition deviceMacForNode (devs : ApicSlice) : option string :=
  match rev devs with
  | [] => None
  | device :: _ => Some (GetAttrStr device "mac")
  end.

(** ** Device cluster and service graph *)

(** One node: its concrete device, and the reference to its interface. *)
Definition add_cdev (dcDn lifDn : string) (nodeMap : gmap string string) (node : string) (acc : ApicObject * ApicObject)
  : option (ApicObject * ApicObject) :=
  let '(dc, lif) := acc in
  match nodeMap !! node with
  | None => Some (dc, lif)
  | Some path =>
      cdev ← NewVnsCDev dcDn node;
      cif ← NewVnsCif (GetDn cdev) "interface";
      att ← NewVnsRsCIfPathAtt (GetDn cif) path;
      let cif := AddChild cif att in
      let cdev := AddChild cdev cif in
      ref ← NewVnsRsCIfAttN lifDn (GetDn cif);
      Some (AddChild dc cdev, AddChild lif ref)
  end.

Definition apicDeviceCluster (name vrfTenant physDom encap : string) (nodes : list string)
    (nodeMap : gmap string string) : option (ApicObject * string) :=
  dc ← NewVnsLDevVip vrfTenant name;
  let dc := SetAttr dc "managed" (AStr "no") in
  let dcDn := GetDn dc in
  dom ← NewVnsRsALDevToPhysDomP dcDn ("uni/phys-" ++ physDom);
  let dc := AddChild dc dom in
  lif ← NewVnsLIf dcDn "interface";
  let lif := SetAttr lif "encap" (AStr encap) in
  let lifDn := GetDn lif in
  '(dc, lif) ← foldl (λ acc node, acc ≫= add_cdev dcDn lifDn nodeMap node) (Some (dc, lif)) nodes;
  Some (AddChild dc lif, dcDn).

(** A terminal node of the graph, and the DN of its connector. *)
Definition term_node (new : option ApicObject) : option (ApicObject * string) :=
  tn ← new;
  let tnDn := GetDn tn in
  term ← NewVnsAbsTermConn tnDn;
  inT ← NewVnsInTerm tnDn;
  outT ← NewVnsOutTerm tnDn;
  Some (AddChild (AddChild (AddChild tn term) inT) outT, GetDn term).

Definition graph_connection (sgDn name funcDn termDn : string) : option ApicObject :=
  ac ← NewVnsAbsConnection sgDn name;
  let ac := SetAttr ac "connDir" (AStr "provider") in
  let acDn := GetDn ac in
  c1 ← NewVnsRsAbsConnectionConns acDn funcDn;
  c2 ← NewVnsRsAbsConnectionConns acDn termDn;
  Some (AddChild (AddChild ac c1) c2).

Definition apicServiceGraph (name tenantName dcDn : string) : option ApicObject :=
  sg ← NewVnsAbsGraph tenantName name;
  let sgDn := GetDn sg in
  an ← NewVnsAbsNode sgDn "loadbalancer";
  let an := SetAttr (SetAttr an "managed" (AStr "no")) "routingMode" (AStr "Redirect") in
  let anDn := GetDn an in
  cons ← NewVnsAbsFuncConn anDn "consumer";
  prov ← NewVnsAbsFuncConn anDn "provider";
  dev ← NewVnsRsNodeToLDev anDn dcDn;
  let sg := AddChild sg (AddChild (AddChild (AddChild an cons) prov) dev) in
  '(tnc, cTermDn) ← term_node (NewVnsAbsTermNodeCon sgDn "T1");
  let sg := AddChild sg tnc in
  '(tnp, pTermDn) ← term_node (NewVnsAbsTermNodeProv sgDn "T2");
  let sg := AddChild sg tnp in
  acc ← graph_connection sgDn "C1" (GetDn cons) cTermDn;
  let sg := AddChild sg acc in
  acp ← graph_connection sgDn "C2" (GetDn prov) pTermDn;
  Some (AddChild sg acp).

(** The devices after the paths of all nodes were read, and the paths. *)
Definition device_paths (now : Z) (devs : devices) : devices * gmap string string :=
  let r := fabricPathForNode now <$> devs in (fst <$> r, omap snd r).

Definition updateDeviceCluster (cfg : SvcCfg) (now : Z) (s : DevState) : option (DevState * list svc_effect) :=
  let '(devs, nodeMap) := device_paths now (nodeOpflexDevice s) in
  let nodes := sort_strs (map_to_list nodeMap).*1 in
  let name := svc_aciName cfg "svc" "global" in
  '(dc, dcDn) ← apicDeviceCluster name (AciVrfTenant cfg) (AciServicePhysDom cfg) (AciServiceEncap cfg) nodes nodeMap;
  sg ← apicServiceGraph name (AciVrfTenant cfg) dcDn;
  Some (mkDevState devs (nodeACIPod s), [SvcWrite name [dc; sg]]).

(** ** Updates of devices *)

Definition is_ours (cfg : SvcCfg) (obj : ApicObject) : bool :=
  String.eqb (GetAttrStr obj "devType") (OpFlexDeviceType cfg)
  && String.eqb (GetAttrStr obj "domName") (AciVmmDomain cfg)
  && String.eqb (GetAttrStr obj "ctrlrName") (AciVmmController cfg).

Definition same_dn (a b : ApicObject) : bool := String.eqb (GetDn a) (GetDn b).

Definition disconnect (obj : ApicObject) (devs : ApicSlice) : ApicSlice :=
  map (λ device, if same_dn device obj then SetAttr device "state" (AStr "disconnected") else device) devs.

Definition dev_changed (device obj : ApicObject) : bool :=
  negb (String.eqb (GetAttrStr device "mac") (GetAttrStr obj "mac"))
  || negb (String.eqb (GetAttrStr device "fabricPathDn") (GetAttrStr obj "fabricPathDn"))
  || negb (String.eqb (GetAttrStr device "state") (GetAttrStr obj "state")).

(** The inner loop of [opflexDeviceChanged] on the devices of one node, from
    the devices [pre] that it has passed: the result says whether the device
    was found and the new list if the loop was left with one. *)
Fixpoint change_scan (here : bool) (obj : ApicObject) (found : bool) (pre devs : ApicSlice)
  : bool * option ApicSlice :=
  match devs with
  | [] => (found, None)
  | device :: devs =>
      if negb (same_dn device obj) then change_scan here obj found (pre ++ [device])%list devs
      else if negb here then (true, Some (pre ++ devs)%list)
      else if dev_changed device obj then (true, Some (pre ++ devs ++ [obj])%list)
      else change_scan here obj true (pre ++ [device])%list devs
  end.

(** The new devices of a node, if there is something to update. *)
Definition change_node (obj : ApicObject) (node : string) (devs : ApicSlice) : option ApicSlice :=
  let here := String.eqb (GetAttrStr obj "hostName") node in
  match change_scan here obj false [] devs with
  | (_, Some devs') => Some devs'
  | (found, None) => if negb found && here then Some (devs ++ [obj])%list else None
  end.

Definition opflexDeviceChanged (cfg : SvcCfg) (now : Z) (obj : ApicObject) (s : DevState)
  : option (DevState * list svc_effect) :=
  if is_ours cfg obj then
    let host := GetAttrStr obj "hostName" in
    let devs := nodeOpflexDevice s in
    if String.eqb (GetAttrStr obj "state") "disconnected" then
      updateDeviceCluster cfg now (mkDevState (alter (disconnect obj) host devs) (nodeACIPod s))
    else
      let changes := map_imap (change_node obj) devs in
      let nodefound := bool_decide (is_Some (devs !! host)) in
      let devs := changes ∪ devs in
      let devs := if nodefound then devs else <[host := [obj]]> devs in
      let nodeUpdates := ((map_to_list changes).*1 ++ (if nodefound then [] else [host]))%list in
      '(s, written) ← updateDeviceCluster cfg now (mkDevState devs (nodeACIPod s));
      Some (s, (flat_map (λ node, [NodeServiceChanged node; ErspanSync]) nodeUpdates ++ written)%list)
  else Some (s, []).

Definition postOpflexDeviceDelete (cfg : SvcCfg) (now : Z) (nodes : list string) (s : DevState)
  : option (DevState * list svc_effect) :=
  '(s, written) ← updateDeviceCluster cfg now s;
  Some (s, (written ++ flat_map (λ node, [NodeServiceChanged node; ErspanSync]) nodes)%list).

(** The list without the first device of that DN, if there is one. *)
Fixpoint delete_dn (dn : string) (devs : ApicSlice) : option ApicSlice :=
  match devs with
  | [] => None
  | device :: devs =>
      if String.eqb (GetDn device) dn then Some devs
      else devs ← delete_dn dn devs; Some (device :: devs)
  end.

Definition opflexDeviceDeleted (cfg : SvcCfg) (now : Z) (dn : string) (s : DevState)
  : option (DevState * list svc_effect) :=
  let changes := omap (delete_dn dn) (nodeOpflexDevice s) in
  let devs := filter (λ nd, nd.2 ≠ []) (changes ∪ nodeOpflexDevice s) in
  let s := mkDevState devs (nodeACIPod s) in
  if bool_decide (changes = ∅) then Some (s, [])
  else postOpflexDeviceDelete cfg now (map_to_list changes).*1 s.

(** ** Cleaning up *)

(** reflect.DeepEqual of an index and an object: the types differ. *)
Definition DeepEqual_index (i : nat) (device : ApicObject) : bool := false.

(** The loop runs over the indexes of [delDevices]. *)
Definition deleteDevicesFromList (delDevices devs : ApicSlice) : ApicSlice :=
  flat_map (λ delDev, List.filter (λ device, negb (DeepEqual_index delDev device)) devs) (seq 0 (length delDevices)).

Section CleanUp.
(** The APIC's answer to a query: the objects, or an error. *)
Variable GetApicResponse : string → option ApicSlice.

Definition getAciPodSubnet (pod : string) : option string :=
  match split_on "-" pod with
  | _ :: podid :: _ =>
      imdata ← GetApicResponse ("/api/node/mo/uni/controller/setuppol/setupp-" ++ podid ++ ".json?query-target=self");
      Some (foldl (λ subnet obj,
        match Attributes obj !! "tepPool" with Some (AStr tepPool) => tepPool | _ => subnet end) EmptyString imdata)
  | _ => None
  end.

Definition createAciPodAnnotation (cfg : SvcCfg) (now : Z) (annots : gmap string aciPodAnnot)
    (fabricPathDn node : string) : option aciPodAnnot :=
  let annot := default no_annot (annots !! node) in
  if String.eqb fabricPathDn EmptyString then
    match disconnectTime annot with
    | None => Some (mkAciPod (aciPod annot) (Some now))
    | Some t =>
        if (OpflexDeviceReconnectWaitTimeout cfg * Second <? now - t)%Z
        then Some (mkAciPod "none" (Some t)) else Some annot
    end
  else
    match split_on "/" fabricPathDn with
    | _ :: pod :: _ =>
        if negb (Contains (aciPod annot) pod) then
          subnet ← getAciPodSubnet pod; Some (mkAciPod (pod ++ "-" ++ subnet) None)
        else Some (mkAciPod (aciPod annot) None)
    | _ => None
    end.

(** The devices of a node that are marked and old enough. *)
Definition expired (cfg : SvcCfg) (now : Z) (fabricPathDn : string) (device : ApicObject) : bool :=
  String.eqb (GetAttrStr device "delete") "true"
  && negb (String.eqb (GetAttrStr device "fabricPathDn") fabricPathDn)
  && match Parse_RFC3339 (GetAttrStr device "deleteTime") with
     | Some deleteTime => (OpflexDeviceDeleteTimeout cfg <=? now - deleteTime)%Z
     | None => false
     end.

(** The new devices of a node, if some are to be deleted. *)
Definition clean_node (cfg : SvcCfg) (now : Z) (devs : ApicSlice) : option ApicSlice :=
  let fabricPathDn := getActiveFabricPathDn devs in
  if String.eqb fabricPathDn EmptyString then None
  else
    let delDevices := List.filter (expired cfg now fabricPathDn) devs in
    if (0 <? length delDevices)%nat then Some (deleteDevicesFromList delDevices devs) else None.

(** The new annotation of a node, if it differs. *)
Definition annotate_node (cfg : SvcCfg) (now : Z) (annots : gmap string aciPodAnnot) (node : string) (devs : ApicSlice)
  : option aciPodAnnot :=
  annot ← createAciPodAnnotation cfg now annots (getActiveFabricPathDn devs) node;
  if bool_decide (annot = default no_annot (annots !! node)) then None else Some annot.

Definition deleteOldOpflexDevices (cfg : SvcCfg) (now : Z) (syncDone : bool) (s : DevState)
  : option (DevState * list svc_effect) :=
  let devs := nodeOpflexDevice s in
  let annots := if AciMultipod cfg && syncDone then map_imap (annotate_node cfg now (nodeACIPod s)) devs else ∅ in
  let changes := omap (clean_node cfg now) devs in
  let devs := filter (λ nd, nd.2 = [] → changes !! nd.1 = None) (changes ∪ devs) in
  let s := mkDevState devs (annots ∪ nodeACIPod s) in
  if negb (bool_decide (changes = ∅)) then postOpflexDeviceDelete cfg now (map_to_list changes).*1 s
  else Some (s, NodeAnnotationChanged <$> (map_to_list annots).*1).
End CleanUp.
