(* ===== verification/OpflexProps.v ===== *)
(** * OpflexProps: the invariant of the OpFlex devices

    Every device is listed once, under the node that it names as its host. *)
From S2P Require Import Prelude GoBytes GoNet GoText IpAlloc ApicMetadata ApicTypes ApicBuild ApicTypesFacts K8s AciNames SvcTypes OpflexDev.

Open Scope string_scope.

(** ** Attributes *)

(** The attributes that the controller itself writes into a device. *)
Definition own_attrs : list string := ["state"; "prevState"; "delete"; "deleteTime"].

(** The same device up to the controller's own attributes. *)
Definition same_dev (d d' : ApicObject) : Prop :=
  GetDn d' = GetDn d ∧ ∀ k, k ∉ own_attrs → GetAttrStr d' k = GetAttrStr d k.
Definition same_devs : ApicSlice → ApicSlice → Prop := Forall2 same_dev.

Lemma same_dev_refl d : same_dev d d.
Proof. done. Qed.

Lemma same_dev_trans d1 d2 d3 : same_dev d1 d2 → same_dev d2 d3 → same_dev d1 d3.
Proof. intros [E1 F1] [E2 F2]. split; [congruence|]. intros k Hk. rewrite F2, F1; done. Qed.

Lemma same_dev_set d k v : k ∈ own_attrs → same_dev d (SetAttr d k v).
Proof.
  intros Hk. split.
  - apply SetAttr_dn. intros ->. by apply (bool_decide_eq_true_2 _) in Hk; vm_compute in Hk.
  - intros k' Hk'. apply SetAttr_other. by intros ->.
Qed.

Lemma own_state : "state" ∈ own_attrs. Proof. by apply (bool_decide_unpack _). Qed.
Lemma own_prev : "prevState" ∈ own_attrs. Proof. by apply (bool_decide_unpack _). Qed.
Lemma own_delete : "delete" ∈ own_attrs. Proof. by apply (bool_decide_unpack _). Qed.
Lemma own_time : "deleteTime" ∈ own_attrs. Proof. by apply (bool_decide_unpack _). Qed.
#[export] Hint Resolve same_dev_refl same_dev_set own_state own_prev own_delete own_time : go.

Lemma same_devs_map (f : ApicObject → ApicObject) l : (∀ d, same_dev d (f d)) → same_devs l (map f l).
Proof. intros Hf. induction l as [|d l IH]; [constructor|]. by constructor. Qed.

Lemma same_devs_refl l : same_devs l l.
Proof. induction l; constructor; auto with go. Qed.

Lemma same_devs_trans l1 l2 l3 : same_devs l1 l2 → same_devs l2 l3 → same_devs l1 l3.
Proof.
  intros H. revert l3. induction H as [|d1 d2 l1 l2 H1 H IH]; intros l3 H'; inversion H'; subst; constructor.
  - by eapply same_dev_trans.
  - by apply IH.
Qed.

Lemma same_devs_rev l l' : same_devs l l' → same_devs (rev l) (rev l').
Proof. induction 1; [constructor|]. cbn. apply Forall2_app; [done|]. constructor; [done|constructor]. Qed.

Lemma disconnect_same obj l : same_devs l (disconnect obj l).
Proof. apply same_devs_map. intros d. destruct (same_dn d obj); auto with go. Qed.

Lemma flag_same now p l : same_devs l (setDeleteFlagForOldDevices now p l).
Proof.
  apply same_devs_map. intros d. destruct (negb _); [|apply same_dev_refl].
  eapply same_dev_trans; apply same_dev_set; auto with go.
Qed.

Lemma path_scan_same l : same_devs l (path_scan l).1.
Proof.
  induction l as [|d l IH]; simpl; [constructor|]. destruct (String.eqb _ _) eqn:E.
  - constructor; [|apply same_devs_refl]. destruct (negb _); auto with go.
  - destruct (path_scan l) as [l' res]. constructor; auto with go.
Qed.

Lemma fabricPath_same now l : same_devs l (fabricPathForNode now l).1.
Proof.
  unfold fabricPathForNode. pose proof (path_scan_same (rev l)) as H. destruct (path_scan (rev l)) as [l' res]. simpl in H.
  apply same_devs_rev in H. rewrite rev_involutive in H.
  destruct res as [p|]; simpl.
  - eapply same_devs_trans; [exact H|apply flag_same].
  - destruct l' as [|d l']; [|done]. simpl in *. inversion H. constructor.
Qed.

(** ** The invariant *)

Definition dev_ok (cfg : SvcCfg) (n : string) (l : ApicSlice) : Prop :=
  Forall (λ d, GetAttrStr d "hostName" = n ∧ is_ours cfg d = true) l ∧ NoDup (GetDn <$> l).

Record devs_ok (cfg : SvcCfg) (devs : devices) : Prop := {
  devs_nodes : ∀ n l, devs !! n = Some l → dev_ok cfg n l;
  devs_apart : ∀ n m l l' dn, devs !! n = Some l → devs !! m = Some l' → dn ∈ (GetDn <$> l) → dn ∈ (GetDn <$> l') → n = m
}.

Lemma same_devs_dns l l' : same_devs l l' → GetDn <$> l' = GetDn <$> l.
Proof. induction 1 as [|d d' l l' [H _] _ IH]; [done|]. cbn. by rewrite H, IH. Qed.

Lemma same_dev_ours cfg d d' : same_dev d d' → is_ours cfg d' = is_ours cfg d.
Proof.
  intros [_ H]. unfold is_ours. rewrite !H; [done| | |]; apply (bool_decide_unpack _); vm_compute; exact I.
Qed.

Lemma dev_ok_same cfg n l l' : same_devs l l' → dev_ok cfg n l → dev_ok cfg n l'.
Proof.
  intros Hs [Hf Hd]. split; [|by rewrite (same_devs_dns _ _ Hs)].
  clear Hd. induction Hs as [|d d' l l' H _ IH]; [constructor|]. apply Forall_cons in Hf as [[Hh Ho] Hf].
  apply Forall_cons. split; [|by apply IH]. rewrite (same_dev_ours cfg _ _ H). split; [|done].
  destruct H as [_ H]. rewrite H; [done|]. apply (bool_decide_unpack _). vm_compute. exact I.
Qed.

(** Lists that change only in the controller's own attributes, node by node. *)
Lemma devs_ok_same cfg (devs devs' : devices) :
  devs_ok cfg devs → (∀ n l', devs' !! n = Some l' → ∃ l, devs !! n = Some l ∧ same_devs l l') → devs_ok cfg devs'.
Proof.
  intros [H1 H2] Hs. split.
  - intros n l' Hn. destruct (Hs n l' Hn) as (l&Hl&Hsd). apply (dev_ok_same _ _ _ _ Hsd), (H1 _ _ Hl).
  - intros n m l l' dn Hn Hm Hd Hd'. destruct (Hs _ _ Hn) as (k&Hk&Hsk), (Hs _ _ Hm) as (k'&Hk'&Hsk').
    rewrite (same_devs_dns _ _ Hsk) in Hd. rewrite (same_devs_dns _ _ Hsk') in Hd'. by eapply H2.
Qed.

Lemma device_paths_ok cfg now devs : devs_ok cfg devs → devs_ok cfg (device_paths now devs).1.
Proof.
  intros H. apply (devs_ok_same _ _ _ H). intros n l' Hn. unfold device_paths in Hn. simpl in Hn.
  rewrite !lookup_fmap in Hn. destruct (devs !! n) as [l|]; [|done]. simpl in Hn. injection Hn as <-.
  exists l. split; [done|apply fabricPath_same].
Qed.

(** ** Changes *)

Definition without (dn : string) (l : ApicSlice) : ApicSlice := List.filter (λ d, negb (String.eqb (GetDn d) dn)) l.

Lemma without_elem dn l d : d ∈ without dn l ↔ d ∈ l ∧ GetDn d ≠ dn.
Proof.
  unfold without. rewrite !list_elem_of_In, List.filter_In. rewrite negb_true_iff, String.eqb_neq. done.
Qed.

Lemma without_id dn l : dn ∉ (GetDn <$> l) → without dn l = l.
Proof.
  intros H. induction l as [|d l IH]; [done|]. rewrite fmap_cons, not_elem_of_cons in H. destruct H as [Hd H].
  cbn [without List.filter]. apply not_eq_sym in Hd. apply String.eqb_neq in Hd. rewrite Hd. simpl. f_equal. by apply IH.
Qed.

Lemma without_dns dn l : GetDn <$> without dn l = List.filter (λ x, negb (String.eqb x dn)) (GetDn <$> l).
Proof.
  induction l as [|d l IH]; [done|]. cbn. unfold without in *. destruct (negb _); cbn; [f_equal|]; exact IH.
Qed.

Lemma without_NoDup dn l : NoDup (GetDn <$> l) → NoDup (GetDn <$> without dn l).
Proof. rewrite without_dns, !NoDup_ListNoDup. apply List.NoDup_filter. Qed.

Lemma without_not dn l : dn ∉ (GetDn <$> without dn l).
Proof. rewrite list_elem_of_fmap. intros (d&->&Hd). apply without_elem in Hd as [_ Hd]. done. Qed.

(** The device of that DN in a list. *)
Definition dev_of (dn : string) (l : ApicSlice) : option ApicObject := List.find (λ d, String.eqb (GetDn d) dn) l.

Lemma dev_of_none dn l : dev_of dn l = None ↔ dn ∉ (GetDn <$> l).
Proof.
  unfold dev_of. induction l as [|d l IH]; simpl; [rewrite elem_of_nil; tauto|].
  rewrite not_elem_of_cons, <- IH. destruct (String.eqb_spec (GetDn d) dn) as [->|H]; [|split; [intros ?; split; [congruence|done]|tauto]].
  split; [done|]. intros [? _]. done.
Qed.

Lemma change_scan_spec here obj found pre l :
  NoDup (GetDn <$> l) →
  change_scan here obj found pre l =
  match dev_of (GetDn obj) l with
  | None => (found, None)
  | Some d =>
      if negb here then (true, Some (pre ++ without (GetDn obj) l))
      else if dev_changed d obj then (true, Some (pre ++ without (GetDn obj) l ++ [obj]))
      else (true, None)
  end%list.
Proof.
  revert found pre. induction l as [|d l IH]; intros found pre Hnd; [done|].
  rewrite fmap_cons in Hnd. apply NoDup_cons in Hnd as [Hd Hnd]. cbn [change_scan]. unfold same_dn, dev_of. cbn [List.find].
  unfold without. cbn [List.filter]. destruct (String.eqb_spec (GetDn d) (GetDn obj)) as [E|Hne]; cbn [negb].
  - rewrite E in Hd. fold (without (GetDn obj) l). rewrite (without_id _ _ Hd).
    destruct here; [|done]. destruct (dev_changed d obj); [done|]. cbn [negb].
    rewrite IH by done. apply dev_of_none in Hd. by rewrite Hd.
  - rewrite IH by done. fold (dev_of (GetDn obj) l). destruct (dev_of _ l) as [d'|]; [|done].
    fold (without (GetDn obj) l). destruct here; [|cbn; by rewrite <- app_assoc]. cbn.
    destruct (dev_changed d' obj); [|done]. by rewrite <- !app_assoc.
Qed.

(** What an update leaves of the list of a node. *)
Definition after_change (obj : ApicObject) (n : string) (l : ApicSlice) : ApicSlice := default l (change_node obj n l).

(** The update does not concern a device that the list has as it is. *)
Definition known (obj : ApicObject) (l : ApicSlice) : bool :=
  match dev_of (GetDn obj) l with Some d => negb (dev_changed d obj) | None => false end.

Lemma after_change_spec obj n l :
  NoDup (GetDn <$> l) →
  after_change obj n l =
  (if negb (String.eqb (GetAttrStr obj "hostName") n) then without (GetDn obj) l
   else if known obj l then l else without (GetDn obj) l ++ [obj])%list.
Proof.
  intros Hnd. unfold after_change, change_node. rewrite change_scan_spec by done. unfold known.
  destruct (dev_of _ l) as [d|] eqn:E.
  - destruct (String.eqb _ n); cbn; [|done]. by destruct (dev_changed d obj).
  - apply dev_of_none in E. rewrite (without_id _ _ E). by destruct (String.eqb _ n).
Qed.

Lemma after_change_dns obj n l dn :
  NoDup (GetDn <$> l) → dn ∈ (GetDn <$> after_change obj n l) →
  dn ∈ (GetDn <$> l) ∧ (dn = GetDn obj → n = GetAttrStr obj "hostName") ∨
  dn = GetDn obj ∧ n = GetAttrStr obj "hostName".
Proof.
  intros Hnd. rewrite after_change_spec by done. destruct (String.eqb_spec (GetAttrStr obj "hostName") n) as [<-|Hne]; cbn [negb].
  - destruct (known obj l); [by left|]. rewrite fmap_app, elem_of_app. intros [H|H].
    + left. split; [|done]. rewrite list_elem_of_fmap in *. destruct H as (d&->&Hd). apply without_elem in Hd. naive_solver.
    + right. apply list_elem_of_singleton in H. done.
  - intros H. left. split; [|intros ->; by apply without_not in H].
    rewrite list_elem_of_fmap in *. destruct H as (d&->&Hd). apply without_elem in Hd. naive_solver.
Qed.

Lemma after_change_ok cfg obj n l : is_ours cfg obj = true → dev_ok cfg n l → dev_ok cfg n (after_change obj n l).
Proof.
  intros Ho [Hf Hnd]. rewrite after_change_spec by done.
  assert (dev_ok cfg n (without (GetDn obj) l)) as [Hf' Hnd'].
  { split; [|by apply without_NoDup]. rewrite Forall_forall in *. intros d [Hd _]%without_elem. by apply Hf. }
  destruct (String.eqb_spec (GetAttrStr obj "hostName") n) as [<-|Hne]; cbn [negb]; [|done].
  destruct (known obj l); [done|]. split.
  - apply Forall_app. split; [done|]. by apply Forall_singleton.
  - rewrite fmap_app. apply NoDup_app. split; [done|]. split; [|apply NoDup_singleton].
    intros x Hx Hx'. apply list_elem_of_singleton in Hx'. subst x. by apply without_not in Hx.
Qed.

(** The devices after an update of [obj], before the paths are read. *)
Definition changed_devs (obj : ApicObject) (devs : devices) : devices :=
  let devs' := map_imap (change_node obj) devs ∪ devs in
  if bool_decide (is_Some (devs !! GetAttrStr obj "hostName")) then devs'
  else <[GetAttrStr obj "hostName" := [obj]]> devs'.

Lemma changed_devs_lookup obj devs n :
  changed_devs obj devs !! n =
  match devs !! n with
  | Some l => Some (after_change obj n l)
  | None => if String.eqb (GetAttrStr obj "hostName") n then Some [obj] else None
  end.
Proof.
  unfold changed_devs. set (host := GetAttrStr obj "hostName").
  assert ((map_imap (change_node obj) devs ∪ devs) !! n = after_change obj n <$> devs !! n) as E.
  { rewrite lookup_union, map_lookup_imap. unfold after_change. destruct (devs !! n) as [l|]; [|done]. cbn.
    by destruct (change_node obj n l). }
  case_bool_decide as Hh.
  - rewrite E. destruct (devs !! n) eqn:En; [done|]. cbn. destruct (String.eqb_spec host n) as [<-|]; [|done].
    rewrite En in Hh. by destruct Hh.
  - destruct (String.eqb_spec host n) as [<-|Hne].
    + rewrite lookup_insert_eq. destruct (devs !! host) eqn:En; [|done]. by destruct Hh.
    + rewrite lookup_insert_ne, E by done. by destruct (devs !! n).
Qed.

Lemma changed_devs_ok cfg obj devs : is_ours cfg obj = true → devs_ok cfg devs → devs_ok cfg (changed_devs obj devs).
Proof.
  intros Ho [H1 H2].
  assert (∀ n l dn, changed_devs obj devs !! n = Some l → dn ∈ (GetDn <$> l) →
    (∃ l0, devs !! n = Some l0 ∧ dn ∈ (GetDn <$> l0)) ∧ (dn = GetDn obj → n = GetAttrStr obj "hostName") ∨
    dn = GetDn obj ∧ n = GetAttrStr obj "hostName") as Hcase.
  { intros n l dn. rewrite changed_devs_lookup. destruct (devs !! n) as [l0|] eqn:En.
    - intros [= <-] Hd. apply after_change_dns in Hd; [|apply (H1 _ _ En)]. naive_solver.
    - destruct (String.eqb_spec (GetAttrStr obj "hostName") n) as [<-|]; [|done]. intros [= <-] Hd.
      apply list_elem_of_singleton in Hd. by right. }
  split.
  - intros n l. rewrite changed_devs_lookup. destruct (devs !! n) as [l0|] eqn:En.
    + intros [= <-]. by apply after_change_ok, H1.
    + destruct (String.eqb_spec (GetAttrStr obj "hostName") n) as [<-|]; [|done]. intros [= <-].
      split; [by apply Forall_singleton|apply NoDup_singleton].
  - intros n m l l' dn Hn Hm Hd Hd'. apply (Hcase _ _ _ Hn) in Hd. apply (Hcase _ _ _ Hm) in Hd'.
    destruct Hd as [[(l0&Hl0&Hd0) Hh]|[-> ->]], Hd' as [[(l1&Hl1&Hd1) Hh']|[E ->]]; [by eapply H2|by apply Hh|symmetry; by apply Hh'|done].
Qed.

(** ** Deletions *)

Lemma delete_dn_spec dn l :
  NoDup (GetDn <$> l) → delete_dn dn l = match dev_of dn l with Some _ => Some (without dn l) | None => None end.
Proof.
  induction l as [|d l IH]; intros Hnd; [done|]. rewrite fmap_cons in Hnd. apply NoDup_cons in Hnd as [Hd Hnd].
  cbn [delete_dn]. unfold dev_of, without. cbn [List.find List.filter].
  destruct (String.eqb_spec (GetDn d) dn) as [E|Hne]; cbn [negb].
  - subst dn. fold (without (GetDn d) l). by rewrite without_id.
  - rewrite IH by done. fold (dev_of dn l). by destruct (dev_of dn l).
Qed.

(** The devices after the deletion of a DN, before the paths are read. *)
Definition deleted_devs (dn : string) (devs : devices) : devices :=
  filter (λ nd, nd.2 ≠ []) (omap (delete_dn dn) devs ∪ devs).

Lemma deleted_devs_lookup cfg dn devs n l :
  devs_ok cfg devs → deleted_devs dn devs !! n = Some l → ∃ l0, devs !! n = Some l0 ∧ l = without dn l0 ∧ l ≠ [].
Proof.
  intros [H1 _]. unfold deleted_devs. rewrite map_lookup_filter_Some. intros [Hl Hne]. cbn in Hne.
  rewrite lookup_union, lookup_omap in Hl. destruct (devs !! n) as [l0|] eqn:En; [|done]. cbn in Hl.
  exists l0. split; [done|]. split; [|done]. rewrite delete_dn_spec in Hl by apply (H1 _ _ En).
  destruct (dev_of dn l0) eqn:Ed; injection Hl as <-; [done|]. apply dev_of_none in Ed. by rewrite without_id.
Qed.

Lemma deleted_devs_ok cfg dn devs : devs_ok cfg devs → devs_ok cfg (deleted_devs dn devs).
Proof.
  intros Hok. pose proof Hok as [H1 H2]. split.
  - intros n l Hn. destruct (deleted_devs_lookup _ _ _ _ _ Hok Hn) as (l0&Hl0&->&_). destruct (H1 _ _ Hl0) as [Hf Hnd].
    split; [|by apply without_NoDup]. rewrite Forall_forall in *. intros d [Hd _]%without_elem. by apply Hf.
  - intros n m l l' x Hn Hm Hx Hx'.
    destruct (deleted_devs_lookup _ _ _ _ _ Hok Hn) as (l0&Hl0&->&_), (deleted_devs_lookup _ _ _ _ _ Hok Hm) as (l1&Hl1&->&_).
    eapply (H2 n m l0 l1 x); [done..| |].
    + rewrite list_elem_of_fmap in *. destruct Hx as (d&->&[Hd _]%without_elem). eauto.
    + rewrite list_elem_of_fmap in *. destruct Hx' as (d&->&[Hd _]%without_elem). eauto.
Qed.

(** ** The path of a node *)

(** The path of the newest connected device, or of the newest device. *)
Definition node_path (l : ApicSlice) : option string :=
  match List.find is_connected (rev l) with
  | Some d => Some (GetAttrStr d "fabricPathDn")
  | None => match rev l with d :: _ => Some (GetAttrStr d "fabricPathDn") | [] => None end
  end.

Lemma path_scan_path l : (path_scan l).2 = (λ d, GetAttrStr d "fabricPathDn") <$> List.find is_connected l.
Proof.
  induction l as [|d l IH]; [done|]. cbn [path_scan List.find]. unfold is_connected at 1.
  destruct (String.eqb (GetAttrStr d "state") "connected"); [|destruct (path_scan l); exact IH].
  cbn. destruct (negb _); [|done]. by autorewrite with apicobj.
Qed.

Lemma fabricPath_path now l : (fabricPathForNode now l).2 = node_path l.
Proof.
  unfold fabricPathForNode, node_path. pose proof (path_scan_path (rev l)) as H.
  pose proof (path_scan_same (rev l)) as Hs. destruct (path_scan (rev l)) as [l' res]. simpl in H, Hs. subst res.
  destruct (List.find is_connected (rev l)); [done|]. cbn [fmap option_fmap option_map].
  destruct Hs as [|d d' k k' [_ Hd] _]; [done|]. cbn. rewrite Hd; [done|].
  apply (bool_decide_unpack _). vm_compute. exact I.
Qed.

Lemma device_paths_lookup now devs n : (device_paths now devs).2 !! n = devs !! n ≫= node_path.
Proof.
  unfold device_paths. simpl. rewrite lookup_omap, lookup_fmap. destruct (devs !! n) as [l|]; [|done]. cbn.
  apply fabricPath_path.
Qed.

(** ** The device cluster *)

(** The paths that a device cluster describes: a concrete device per node with
    the path its interface is attached to. *)
Definition cdev_paths (c : ApicObject) : list (string * string) :=
  if String.eqb (class c) "vnsCDev" then
    flat_map (λ cif, map (λ att, (GetAttrStr c "name", GetAttrStr att "tDn")) (Children cif)) (Children c)
  else [].
Definition cluster_paths (dc : ApicObject) : list (string * string) := flat_map cdev_paths (Children dc).

Lemma add_cdev_ok dcDn lifDn nodeMap n dc lif :
  ∃ dc' lif', add_cdev dcDn lifDn nodeMap n (dc, lif) = Some (dc', lif') ∧
    cluster_paths dc' = (cluster_paths dc ++ option_list (pair n <$> nodeMap !! n))%list ∧
    class lif' = class lif ∧ GetDn dc' = GetDn dc.
Proof.
  unfold add_cdev. destruct (nodeMap !! n) as [path|]; [|exists dc, lif; cbn; by rewrite app_nil_r].
  unfold NewVnsCDev. run_constructor. unfold NewVnsCif. run_constructor. unfold NewVnsRsCIfPathAtt. run_constructor.
  unfold NewVnsRsCIfAttN. run_constructor. eexists _, _. split; [reflexivity|]. autorewrite with apicobj. split; [|done].
  unfold cluster_paths. autorewrite with apicobj. by rewrite flat_map_app.
Qed.

Lemma cluster_fold dcDn lifDn nodeMap nodes dc lif :
  ∃ dc' lif', foldl (λ acc node, acc ≫= add_cdev dcDn lifDn nodeMap node) (Some (dc, lif)) nodes = Some (dc', lif') ∧
    cluster_paths dc' = (cluster_paths dc ++ omap (λ n, pair n <$> nodeMap !! n) nodes)%list ∧
    class lif' = class lif ∧ GetDn dc' = GetDn dc.
Proof.
  revert dc lif. induction nodes as [|n nodes IH]; intros dc lif.
  - exists dc, lif. cbn. by rewrite app_nil_r.
  - cbn [foldl mbind option_bind]. destruct (add_cdev_ok dcDn lifDn nodeMap n dc lif) as (dc1&lif1&->&V1&C1&D1).
    destruct (IH dc1 lif1) as (dc2&lif2&E&V2&C2&D2). exists dc2, lif2. split; [exact E|].
    rewrite V2, V1, C2, C1, D2, D1, <- app_assoc. split; [|done]. f_equal. cbn [omap list_omap].
    by destruct (nodeMap !! n).
Qed.

Lemma NewVnsLDevVip_made tenant name :
  made "vnsLDevVip" ("uni/tn-" ++ tenant ++ "/lDevVip-" ++ name) [("name", name)] (NewVnsLDevVip tenant name).
Proof. made_by NewVnsLDevVip. Qed.
Lemma NewVnsRsALDevToPhysDomP_made p d :
  made "vnsRsALDevToPhysDomP" (p ++ "/rsALDevToPhysDomP") [("tDn", d)] (NewVnsRsALDevToPhysDomP p d).
Proof. made_by NewVnsRsALDevToPhysDomP. Qed.
Lemma NewVnsLIf_made p name : made "vnsLIf" (p ++ "/lIf-" ++ name) [("name", name)] (NewVnsLIf p name).
Proof. made_by NewVnsLIf. Qed.

Lemma apicDeviceCluster_ok name tenant physDom encap nodes nodeMap :
  ∃ dc, apicDeviceCluster name tenant physDom encap nodes nodeMap = Some (dc, "uni/tn-" ++ tenant ++ "/lDevVip-" ++ name) ∧
    GetDn dc = "uni/tn-" ++ tenant ++ "/lDevVip-" ++ name ∧
    cluster_paths dc = omap (λ n, pair n <$> nodeMap !! n) nodes.
Proof.
  unfold apicDeviceCluster. destruct (NewVnsLDevVip_made tenant name) as (dc0&->&C0&D0&H0&_). cbn [mbind option_bind].
  autorewrite with apicobj. rewrite D0. set (dn := "uni/tn-" ++ tenant ++ "/lDevVip-" ++ name) in *.
  destruct (NewVnsRsALDevToPhysDomP_made dn ("uni/phys-" ++ physDom)) as (dom&->&C1&_). cbn [mbind option_bind].
  destruct (NewVnsLIf_made dn "interface") as (lif0&->&C2&_). cbn [mbind option_bind].
  set (dc1 := AddChild (SetAttr dc0 "managed" (AStr "no")) dom). set (lif1 := SetAttr lif0 "encap" (AStr encap)).
  destruct (cluster_fold dn (GetDn lif1) nodeMap nodes dc1 lif1) as (dc&lif&->&V&C&D). cbn [mbind option_bind].
  exists (AddChild dc lif). split; [done|]. autorewrite with apicobj. split.
  - rewrite D. unfold dc1. by autorewrite with apicobj.
  - unfold cluster_paths in *. autorewrite with apicobj. rewrite flat_map_app, V. unfold dc1, lif1 in *.
    autorewrite with apicobj in *. rewrite H0. cbn [flat_map app]. unfold cdev_paths. rewrite C1, C, C2. apply app_nil_r.
Qed.

Lemma apicServiceGraph_ok name tenant dcDn : ∃ sg, apicServiceGraph name tenant dcDn = Some sg.
Proof. unfold apicServiceGraph, term_node, graph_connection. repeat (next_obj; try case_match). eauto. Qed.

(** The paths of a state, sorted by node. *)
Definition state_paths (devs : devices) : gmap string string := omap node_path devs.

Lemma device_paths_state now devs : (device_paths now devs).2 = state_paths devs.
Proof. apply map_eq. intros n. rewrite device_paths_lookup. unfold state_paths. by rewrite lookup_omap. Qed.

(** The cluster is always written, with the path of every node that has a
    device. *)
Lemma updateDeviceCluster_ok cfg now s :
  ∃ dc sg, updateDeviceCluster cfg now s =
      Some (mkDevState (device_paths now (nodeOpflexDevice s)).1 (nodeACIPod s),
            [SvcWrite (svc_aciName cfg "svc" "global") [dc; sg]]) ∧
    NoDup (cluster_paths dc).*1 ∧
    ∀ n p, (n, p) ∈ cluster_paths dc ↔ nodeOpflexDevice s !! n ≫= node_path = Some p.
Proof.
  unfold updateDeviceCluster. rewrite (surjective_pairing (device_paths now (nodeOpflexDevice s))).
  rewrite device_paths_state. set (m := state_paths _). set (nodes := sort_strs _). set (name := svc_aciName _ _ _).
  destruct (apicDeviceCluster_ok name (AciVrfTenant cfg) (AciServicePhysDom cfg) (AciServiceEncap cfg) nodes m) as (dc&->&_&V).
  cbn [mbind option_bind]. destruct (apicServiceGraph_ok name (AciVrfTenant cfg) ("uni/tn-" ++ AciVrfTenant cfg ++ "/lDevVip-" ++ name)) as [sg ->].
  cbn [mbind option_bind]. exists dc, sg. split; [done|].
  assert (NoDup nodes) as Hnd. { unfold nodes, sort_strs. rewrite merge_sort_Permutation. apply NoDup_fst_map_to_list. }
  assert (∀ n p, (n, p) ∈ cluster_paths dc ↔ m !! n = Some p) as Hel.
  { intros n p. rewrite V, list_elem_of_omap. split.
    - intros (x&_&E). destruct (m !! x) eqn:Ex; [|done]. cbn in E. by injection E as -> ->.
    - intros E. exists n. rewrite E. split; [|done]. unfold nodes, sort_strs. rewrite merge_sort_Permutation.
      apply list_elem_of_fmap. exists (n, p). split; [done|]. by apply elem_of_map_to_list. }
  split; [|intros n p; rewrite Hel; unfold m, state_paths; by rewrite lookup_omap].
  rewrite V. clear V Hel. induction nodes as [|n l IH] in Hnd |- *; [constructor|]. apply NoDup_cons in Hnd as [Hn Hnd].
  cbn [omap list_omap]. destruct (m !! n) as [p|]; [|by apply IH]. cbn. constructor; [|by apply IH].
  rewrite list_elem_of_fmap. intros ([x q]&->&Hx). apply list_elem_of_omap in Hx as (y&Hy&E).
  destruct (m !! y); [|done]. cbn in E. injection E as -> _. done.
Qed.

(** ** Steps *)

(** The devices that are marked and old enough are not removed: the list is
    repeated as often as there are such devices. *)
Lemma cleanup_repeats_devices cfg now devs l :
  clean_node cfg now devs = Some l →
  ∃ k, (0 < k)%nat ∧ k = length (List.filter (expired cfg now (getActiveFabricPathDn devs)) devs) ∧ l = concat (replicate k devs).
Proof.
  unfold clean_node. destruct (String.eqb _ _); [done|]. set (del := List.filter _ devs).
  destruct (Nat.ltb_spec 0 (length del)) as [Hlt|]; [|done]. intros [= <-].
  exists (length del). split; [done|]. split; [done|]. unfold deleteDevicesFromList.
  assert (∀ i, List.filter (λ device, negb (DeepEqual_index i device)) devs = devs) as Hf.
  { intros i. clear. induction devs as [|d devs IH]; [done|]. cbn. f_equal. exact IH. }
  generalize 0%nat. clear Hlt. induction (length del) as [|k IH]; intros i; [done|]. cbn [seq flat_map replicate concat].
  by rewrite IH, Hf.
Qed.

(** The clean-up finds at most one device to delete at each node. *)
Definition one_expired (cfg : SvcCfg) (now : Z) (devs : devices) : Prop :=
  ∀ n l, devs !! n = Some l → (length (List.filter (expired cfg now (getActiveFabricPathDn l)) l) <= 1)%nat.

(** Updates and deletions of devices, the reading of paths, which records
    states in the list, and the timer that cleans up, as long as it does not
    repeat a list ([cleanup_doubles_list] below). *)
Inductive dev_step (cfg : SvcCfg) : DevState → DevState → Prop :=
  | dev_changed_step now obj s s' e : opflexDeviceChanged cfg now obj s = Some (s', e) → dev_step cfg s s'
  | dev_deleted_step now dn s s' e : opflexDeviceDeleted cfg now dn s = Some (s', e) → dev_step cfg s s'
  | dev_read_step now n s :
      dev_step cfg s (mkDevState (alter (λ l, (fabricPathForNode now l).1) n (nodeOpflexDevice s)) (nodeACIPod s))
  | dev_cleanup_step now getAciPodSubnet syncDone s s' e :
      one_expired cfg now (nodeOpflexDevice s) → deleteOldOpflexDevices getAciPodSubnet cfg now syncDone s = Some (s', e) → dev_step cfg s s'.

Lemma opflexDeviceChanged_eq cfg now obj s :
  is_ours cfg obj = true → GetAttrStr obj "state" ≠ "disconnected" →
  ∃ e0, opflexDeviceChanged cfg now obj s =
    '(s', written) ← updateDeviceCluster cfg now (mkDevState (changed_devs obj (nodeOpflexDevice s)) (nodeACIPod s));
    Some (s', (e0 ++ written)%list).
Proof. intros Ho Hs. unfold opflexDeviceChanged. rewrite Ho. apply String.eqb_neq in Hs. rewrite Hs. cbn zeta. by eexists. Qed.

Lemma cluster_step cfg now s s' e :
  updateDeviceCluster cfg now s = Some (s', e) → devs_ok cfg (nodeOpflexDevice s) → devs_ok cfg (nodeOpflexDevice s').
Proof.
  intros E H. destruct (updateDeviceCluster_ok cfg now s) as (dc&sg&E'&_). rewrite E in E'. injection E' as -> ->.
  by apply device_paths_ok.
Qed.

(** Such a clean-up leaves every list as it is, or removes the node. *)
Lemma cleanup_same cfg now (devs : devices) n l :
  one_expired cfg now devs → (omap (clean_node cfg now) devs ∪ devs) !! n = Some l → devs !! n = Some l.
Proof.
  intros Hone. rewrite lookup_union_Some_raw, lookup_omap. destruct (devs !! n) as [l0|] eqn:E; simpl.
  - intros [H|[_ H]]; [|done]. apply cleanup_repeats_devices in H as (k&Hk&->&->). specialize (Hone n l0 E).
    replace (length _) with 1%nat by lia. simpl. by rewrite app_nil_r.
  - intros [H|[_ H]]; discriminate.
Qed.

Lemma dev_step_ok cfg s s' : dev_step cfg s s' → devs_ok cfg (nodeOpflexDevice s) → devs_ok cfg (nodeOpflexDevice s').
Proof.
  intros Hstep Hok. destruct Hstep as [now obj s s' e E|now dn s s' e E|now n s|now sub syncDone s s' e Hone E].
  - unfold opflexDeviceChanged in E. destruct (is_ours cfg obj) eqn:Ho; [|by injection E as <- <-].
    destruct (String.eqb _ "disconnected").
    + eapply cluster_step; [exact E|]. apply (devs_ok_same _ _ _ Hok). intros n l'. cbn.
      destruct (decide (n = GetAttrStr obj "hostName")) as [->|Hne].
      * rewrite lookup_alter_eq. destruct (nodeOpflexDevice s !! _) as [l|]; [|done]. intros [= <-].
        exists l. split; [done|apply disconnect_same].
      * rewrite lookup_alter_ne by done. intros Hl. exists l'. split; [done|apply same_devs_refl].
    + cbn zeta in E. destruct (updateDeviceCluster _ _ _) as [[s1 w]|] eqn:E1; [|done]. cbn in E. injection E as <- _.
      eapply cluster_step; [exact E1|]. by apply changed_devs_ok.
  - unfold opflexDeviceDeleted in E. cbn zeta in E. pose proof (deleted_devs_ok cfg dn _ Hok) as Hd.
    case_bool_decide; [by injection E as <- _|]. unfold postOpflexDeviceDelete in E.
    destruct (updateDeviceCluster _ _ _) as [[s1 w]|] eqn:E1; [|done]. cbn in E. injection E as <- _.
    by eapply cluster_step.
  - apply (devs_ok_same _ _ _ Hok). intros m l'. cbn. destruct (decide (m = n)) as [->|Hne].
    + rewrite lookup_alter_eq. destruct (nodeOpflexDevice s !! n) as [l|]; [|done]. intros [= <-].
      exists l. split; [done|apply fabricPath_same].
    + rewrite lookup_alter_ne by done. intros Hl. exists l'. split; [done|apply same_devs_refl].
  - unfold deleteOldOpflexDevices in E. cbv zeta in E. set (devs := filter _ _) in E.
    assert (devs_ok cfg devs) as Hd.
    { apply (devs_ok_same _ _ _ Hok). intros n l' Hn. exists l'. split; [|apply same_devs_refl].
      apply map_lookup_filter_Some in Hn as [Hn _]. by eapply cleanup_same. }
    destruct (negb _); [|by injection E as <- _]. unfold postOpflexDeviceDelete in E.
    destruct (updateDeviceCluster _ _ _) as [[s1 w]|] eqn:E1; [|done]. cbn in E. injection E as <- _.
    by eapply cluster_step.
Qed.

Definition no_devices : DevState := mkDevState ∅ ∅.

Lemma dev_reach_ok cfg s : rtc (dev_step cfg) no_devices s → devs_ok cfg (nodeOpflexDevice s).
Proof.
  intros H. assert (devs_ok cfg (nodeOpflexDevice no_devices)) as H0.
  { split; [intros n l E|intros n m l l' dn E]; unfold no_devices in E; cbn [nodeOpflexDevice] in E; by rewrite lookup_empty in E. }
  induction H as [|s1 s2 s3 Hs _ IH]; [done|]. apply IH. by eapply dev_step_ok.
Qed.

(** The node of an update is among those whose services are updated. *)
Lemma updates_host cfg now obj s s' w :
  is_ours cfg obj = true → GetAttrStr obj "state" ≠ "disconnected" →
  updateDeviceCluster cfg now (mkDevState (changed_devs obj (nodeOpflexDevice s)) (nodeACIPod s)) = Some (s', w) →
  known obj (default [] (nodeOpflexDevice s !! GetAttrStr obj "hostName")) = false →
  devs_ok cfg (nodeOpflexDevice s) →
  ∃ e, opflexDeviceChanged cfg now obj s = Some (s', (e ++ w)%list) ∧ NodeServiceChanged (GetAttrStr obj "hostName") ∈ e.
Proof.
  intros Ho Hs E Hkn [H1 _]. unfold opflexDeviceChanged. rewrite Ho. apply String.eqb_neq in Hs. rewrite Hs. cbn zeta.
  fold (changed_devs obj (nodeOpflexDevice s)). rewrite E. cbn [mbind option_bind]. eexists. split; [reflexivity|].
  rewrite list_elem_of_In, in_flat_map. exists (GetAttrStr obj "hostName"). split; [|by left].
  rewrite <- list_elem_of_In. apply elem_of_app. case_bool_decide as Hh; [left|right; by apply list_elem_of_singleton].
  destruct Hh as [l El]. rewrite El in Hkn. cbn in Hkn. destruct (H1 _ _ El) as [_ Hnd].
  apply list_elem_of_fmap. assert (∃ l', change_node obj (GetAttrStr obj "hostName") l = Some l') as [l' E'].
  { unfold change_node. rewrite change_scan_spec, String.eqb_refl by done. unfold known in Hkn. cbn [negb].
    destruct (dev_of _ l) as [d|]; [|by eexists]. apply negb_false_iff in Hkn. rewrite Hkn. by eexists. }
  exists (GetAttrStr obj "hostName", l'). split; [done|]. apply elem_of_map_to_list. by rewrite map_lookup_imap, El.
Qed.

(** ** What holds of the OpFlex devices *)

(** ** A small cluster *)

Definition dev_cfg : SvcCfg :=
  mkSvcCfg "kube" "common" "vrf1" "out1" ["net1"] "dom" "ctl" "kubernetes" "phys" "vlan-4003" 0 false ["10.5.0.1/24"]
    false (1800 * Second) 5 "aci-nlb" false true 32 "global" 5000 65000 0 [] false false "k8s" ["apic1"] "5.2" false [] [].

Definition odev (dn host mac path state : string) : ApicObject :=
  Obj "opflexODev" EmptyString
    (list_to_map [("dn", AStr dn); ("devType", AStr "k8s"); ("domName", AStr "dom"); ("ctrlrName", AStr "ctl");
       ("hostName", AStr host); ("mac", AStr mac); ("fabricPathDn", AStr path); ("state", AStr state)]) [].

Definition old_dev : ApicObject := odev "dev-1" "node1" "00:00:00:00:00:01" "paths-101" "connected".
Definition new_dev : ApicObject := odev "dev-2" "node1" "00:00:00:00:00:02" "paths-102" "connected".

Definition one_device : DevState :=
  match opflexDeviceChanged dev_cfg 0 old_dev no_devices with Some (s, _) => s | None => no_devices end.

Lemma one_device_reach : rtc (dev_step dev_cfg) no_devices one_device.
Proof.
  eapply rtc_once. unfold one_device. destruct (opflexDeviceChanged dev_cfg 0 old_dev no_devices) as [[s e]|] eqn:E.
  - by eapply dev_changed_step.
  - destruct (updateDeviceCluster_ok dev_cfg 0 (mkDevState (changed_devs old_dev ∅) ∅)) as (dc&sg&E'&_).
    destruct (opflexDeviceChanged_eq dev_cfg 0 old_dev no_devices) as [e0 E0]; [reflexivity|discriminate|].
    cbn [no_devices nodeOpflexDevice nodeACIPod] in E0. rewrite E' in E0. rewrite E0 in E. discriminate E.
Qed.

(** ** Properties *)

(** In every state that updates, deletions and reads of devices and clean-ups that find at most one device to delete per node lead to, each device is listed under the node that it names as its host and under no other node, at most once, and every listed device is one of this cluster's domain. *)
Theorem opflex_devices_unique cfg s n l :
  rtc (dev_step cfg) no_devices s → nodeOpflexDevice s !! n = Some l →
  NoDup (GetDn <$> l) ∧ (∀ d, d ∈ l → GetAttrStr d "hostName" = n ∧ is_ours cfg d = true) ∧
  ∀ m l' d d', nodeOpflexDevice s !! m = Some l' → d ∈ l → d' ∈ l' → GetDn d = GetDn d' → m = n.
Proof.
  intros Hr Hn. destruct (dev_reach_ok cfg s Hr) as [H1 H2]. destruct (H1 _ _ Hn) as [Hf Hnd].
  split; [done|]. split; [by rewrite Forall_forall in Hf|]. intros m l' d d' Hm Hd Hd' E.
  apply (H2 m n l' l (GetDn d) Hm Hn); [rewrite E|]; by apply list_elem_of_fmap_2.
Qed.

Lemma opflex_devices_unique_witness :
  ∃ l, nodeOpflexDevice one_device !! "node1" = Some l ∧ NoDup (GetDn <$> l).
Proof.
  assert (is_Some (nodeOpflexDevice one_device !! "node1")) as [l E] by (apply (bool_decide_eq_true_1 _); vm_compute; reflexivity).
  exists l. split; [exact E|]. exact (proj1 (opflex_devices_unique dev_cfg one_device "node1" l one_device_reach E)).
Defined.

(** C12: In every state that updates and deletions of devices, reads of paths and clean-ups that find at most one device to delete per node lead to, a connected device of this cluster's domain that is new or reports another MAC address, path or state becomes the device of the node it names: the device cluster that is written has the device's path for that node, the node's MAC address is the device's, its services are updated, and no other node has the device any more. *)
Theorem opflex_newest_device cfg now obj s :
  rtc (dev_step cfg) no_devices s → is_ours cfg obj = true → GetAttrStr obj "state" = "connected" →
  known obj (default [] (nodeOpflexDevice s !! GetAttrStr obj "hostName")) = false →
  ∃ s' e dc sg l, opflexDeviceChanged cfg now obj s = Some (s', (e ++ [SvcWrite (svc_aciName cfg "svc" "global") [dc; sg]])%list) ∧
    NodeServiceChanged (GetAttrStr obj "hostName") ∈ e ∧
    (∀ p, (GetAttrStr obj "hostName", p) ∈ cluster_paths dc ↔ p = GetAttrStr obj "fabricPathDn") ∧
    nodeOpflexDevice s' !! GetAttrStr obj "hostName" = Some l ∧ deviceMacForNode l = Some (GetAttrStr obj "mac") ∧
    ∀ m l' d, m ≠ GetAttrStr obj "hostName" → nodeOpflexDevice s' !! m = Some l' → d ∈ l' → GetDn d ≠ GetDn obj.
Proof.
  intros Hr Ho Hst Hkn. pose proof (dev_reach_ok cfg s Hr) as Hok.
  set (host := GetAttrStr obj "hostName") in *. set (s1 := mkDevState (changed_devs obj (nodeOpflexDevice s)) (nodeACIPod s)).
  destruct (updateDeviceCluster_ok cfg now s1) as (dc&sg&E&_&Hp).
  (* the devices of the host before the paths are read *)
  assert (∃ l0, changed_devs obj (nodeOpflexDevice s) !! host = Some (l0 ++ [obj])%list) as [l0 E1].
  { rewrite changed_devs_lookup. destruct (nodeOpflexDevice s !! host) as [l|] eqn:El.
    - cbn in Hkn. destruct Hok as [H1 _]. destruct (H1 _ _ El) as [_ Hnd]. rewrite after_change_spec by done.
      fold host. rewrite String.eqb_refl, Hkn. cbn [negb]. by eexists.
    - fold host. rewrite String.eqb_refl. by exists []. }
  assert (node_path (l0 ++ [obj]) = Some (GetAttrStr obj "fabricPathDn")) as Ep.
  { unfold node_path. rewrite rev_app_distr. cbn [rev app List.find]. unfold is_connected. by rewrite Hst. }
  pose proof (fabricPath_same now (l0 ++ [obj])) as Hs.
  apply same_devs_rev in Hs. rewrite rev_app_distr in Hs. cbn [rev app] in Hs. inversion Hs as [|d d' k k' [_ Hd] _ Ek Ek']; subst d k.
  destruct (updates_host cfg now obj s (mkDevState (device_paths now (nodeOpflexDevice s1)).1 (nodeACIPod s1)) [SvcWrite (svc_aciName cfg "svc" "global") [dc; sg]] Ho) as (e&Ec&He);
    [by rewrite Hst|exact E|exact Hkn|exact Hok|].
  eexists _, e, dc, sg, _. split; [exact Ec|]. split; [exact He|]. split.
  { intros p. rewrite Hp. cbn [s1 nodeOpflexDevice]. rewrite E1. cbn [mbind option_bind]. rewrite Ep. split; congruence. }
  cbn [nodeOpflexDevice]. split; [|split].
  - unfold device_paths. cbn [fst s1 nodeOpflexDevice]. rewrite !lookup_fmap, E1. reflexivity.
  - unfold deviceMacForNode. rewrite <- Ek'. rewrite Hd; [done|]. apply (bool_decide_unpack _). vm_compute. exact I.
  - intros m l' d Hm Hl Hin Edn. assert (devs_ok cfg (device_paths now (nodeOpflexDevice s1)).1) as [_ H2]
      by (apply device_paths_ok, changed_devs_ok; done).
    unfold device_paths in Hl. cbn [fst s1 nodeOpflexDevice] in Hl. rewrite !lookup_fmap, changed_devs_lookup in Hl.
    destruct (nodeOpflexDevice s !! m) as [lm|] eqn:Em; cbn in Hl.
    + injection Hl as <-. pose proof (same_devs_dns _ _ (fabricPath_same now (after_change obj m lm))) as Ed.
      assert (GetDn obj ∈ (GetDn <$> after_change obj m lm)) as Hin'. { rewrite <- Ed, <- Edn. by apply list_elem_of_fmap_2. }
      destruct Hok as [H1 _]. apply after_change_dns in Hin'; [|apply (H1 _ _ Em)]. destruct Hin' as [[_ Hx]|[_ Hx]]; [destruct (Hm (Hx eq_refl))|exact (Hm Hx)].
    + fold host in Hl. apply not_eq_sym, String.eqb_neq in Hm. rewrite Hm in Hl. discriminate Hl.
Qed.

Lemma opflex_newest_device_witness :
  known new_dev (default [] (nodeOpflexDevice one_device !! "node1")) = false ∧
  ∃ s' e dc sg, opflexDeviceChanged dev_cfg 60 new_dev one_device =
      Some (s', (e ++ [SvcWrite (svc_aciName dev_cfg "svc" "global") [dc; sg]])%list) ∧
    ("node1", "paths-102") ∈ cluster_paths dc.
Proof.
  assert (known new_dev (default [] (nodeOpflexDevice one_device !! "node1")) = false) as Hk by (vm_compute; reflexivity).
  split; [exact Hk|].
  destruct (opflex_newest_device dev_cfg 60 new_dev one_device one_device_reach eq_refl eq_refl Hk)
    as (s'&e&dc&sg&l&E&_&Hp&_).
  exists s', e, dc, sg. split; [exact E|]. exact (proj2 (Hp "paths-102") eq_refl).
Defined.

(** ** The clean-up *)

Definition marked (d : ApicObject) : ApicObject :=
  SetAttr (SetAttr d "delete" (AStr "true")) "deleteTime" (AStr (Format_RFC3339 0)).

(** Two old devices: after the clean-up every device is listed twice. *)
Lemma cleanup_doubles_list :
  let devs := [marked old_dev; marked (odev "dev-0" "node1" "00:00:00:00:00:03" "paths-103" "connected"); new_dev] in
  clean_node dev_cfg (3600 * Second) devs = Some (devs ++ devs)%list.
Proof. vm_compute. reflexivity. Qed.

(** A device that moves away is then still listed under its old node. *)
Lemma doubled_device_stays :
  let devs := [marked old_dev; marked (odev "dev-0" "node1" "00:00:00:00:00:03" "paths-103" "connected"); new_dev] in
  let moved := odev "dev-2" "node2" "00:00:00:00:00:02" "paths-102" "connected" in
  ∃ l, clean_node dev_cfg (3600 * Second) devs = Some l ∧
    "dev-2" ∈ GetDn <$> default [] (changed_devs moved {["node1" := l]} !! "node1").
Proof. eexists. split; [vm_compute; reflexivity|]. apply (bool_decide_unpack _). vm_compute. exact I. Qed.
