(* ===== verification/SvcGraph.v ===== *)
(** * SvcGraph: the APIC objects of services

    The functions of src/pkg/controller/services.go that build the objects of
    the service graph: the static bridge domain, redirect policies, external
    networks, contracts, filters and device contexts.  A constructor that
    panicked would be [None]. *)
From S2P Require Import Prelude GoBytes GoNet GoText IpAlloc ApicMetadata ApicTypes ApicBuild K8s AciNames.
From S2P Require Import PodNet SvcTypes OpflexDev.

Open Scope string_scope.

Definition add_children (o : ApicObject) (cs : list (option ApicObject)) : option ApicObject :=
  foldl (λ o c, o ← o; c ← c; Some (AddChild o c)) (Some o) cs.

(** ** Static objects *)

Definition staticMonPolName (cfg : SvcCfg) : string := svc_aciName cfg "monPol" ServiceBd.

Definition staticMonPolDn (cfg : SvcCfg) : string :=
  if (0 <? AciServiceMonitorInterval cfg)%Z
  then "uni/tn-" ++ AciVrfTenant cfg ++ "/ipslaMonitoringPol-" ++ staticMonPolName cfg
  else EmptyString.

Definition staticServiceObjs (cfg : SvcCfg) : option ApicSlice :=
  let bdName := svc_aciName cfg "bd" ServiceBd in
  bd ← NewFvBD (AciVrfTenant cfg) bdName;
  let bd := SetAttr (SetAttr (SetAttr bd "arpFlood" (AStr "yes")) "ipLearning" (AStr "no"))
              "unkMacUcastAct" (AStr "flood") in
  let bdn := GetDn bd in
  bd ← add_children bd [NewRsBdToOut bdn (AciL3Out cfg); NewRsCtx bdn (AciVrf cfg)];
  bd ← add_children bd (map (NewFvSubnet bdn) (NodeServiceSubnets cfg));
  if (0 <? AciServiceMonitorInterval cfg)%Z then
    monPol ← NewFvIPSLAMonitoringPol (AciVrfTenant cfg) (staticMonPolName cfg);
    Some [bd; SetAttr monPol "slaFrequency" (AStr (Itoa (AciServiceMonitorInterval cfg)))]
  else Some [bd].

Definition initStaticServiceObjs (cfg : SvcCfg) : option (list svc_effect) :=
  objs ← staticServiceObjs cfg; Some [SvcWrite (AciPrefix cfg ++ "_service_static") objs].

(** ** Redirect policies *)

Definition apicRedirectDst (rpDn ip mac descr healthGroupDn : string) (enablePbrTracking : bool) : option ApicObject :=
  dst ← NewVnsRedirectDest rpDn ip mac;
  let dst := SetAttr dst "descr" (AStr descr) in
  if negb (String.eqb healthGroupDn EmptyString) && enablePbrTracking then
    h ← NewVnsRsRedirectHealthGroup (GetDn dst) healthGroupDn; Some (AddChild dst h)
  else Some dst.

(** The destination for one address of a node; a nil address has none. *)
Definition redirect_dst (rpDn node : string) (ep : ServiceEndpoint) (tracking : bool) (ip : IP)
  : list (option ApicObject) :=
  if (length ip =? 0)%nat then []
  else [apicRedirectDst rpDn (IP_String ip) (Mac ep) node (HealthGroupDn ep) tracking].

(** The loop over the nodes with the index mutex: a node without an endpoint
    leaves the mutex locked, and then the next round blocks. *)
Fixpoint redirect_nodes (rpDn : string) (nodes : list string) (nodeMap : gmap string ServiceEndpoint)
    (tracking locked : bool) (rp : ApicObject) : outcome (ApicObject * bool) :=
  match nodes with
  | [] => Returns (rp, locked)
  | node :: nodes =>
      if locked then Blocks
      else
        match nodeMap !! node with
        | None => redirect_nodes rpDn nodes nodeMap tracking true rp
        | Some ep =>
            rp ← build (add_children rp (redirect_dst rpDn node ep tracking (Ipv4 ep)));
            rp ← build (add_children rp (redirect_dst rpDn node ep tracking (Ipv6 ep)));
            redirect_nodes rpDn nodes nodeMap tracking false rp
        end
  end.

(** The result is the policy, its DN and whether the mutex is left locked. *)
Definition apicRedirectPol (name tenantName : string) (nodes : list string) (nodeMap : gmap string ServiceEndpoint)
    (monPolDn : string) (enablePbrTracking : bool) : outcome (ApicObject * string * bool) :=
  rp ← build (NewVnsSvcRedirectPol tenantName name);
  let rp := SetAttr rp "thresholdDownAction" (AStr "deny") in
  let rpDn := GetDn rp in
  '(rp, locked) ← redirect_nodes rpDn nodes nodeMap enablePbrTracking false rp;
  if negb (String.eqb monPolDn EmptyString) && enablePbrTracking then
    m ← build (NewVnsRsIPSLAMonitoringPol rpDn monPolDn); Returns (AddChild rp m, rpDn, locked)
  else Returns (rp, rpDn, locked).

(** ** External networks *)

Definition apicExtNetCreate (enDn ingress : string) (ipv4 cidr sharedSec : bool) : option ApicObject :=
  let ingress := if cidr then ingress else if ipv4 then ingress ++ "/32" else ingress ++ "/128" in
  subnet ← NewL3extSubnet enDn ingress;
  Some (if sharedSec then SetAttr subnet "scope" (AStr "import-security,shared-security") else subnet).

(** The address that net.ParseCIDR returns. *)
Definition ParseCIDR_IP (s : string) : option IP :=
  _ ← ParseCIDR s; '(addr, _) ← cut "/" s; ParseIP addr.

Definition is_To4 (ip : IP) : bool := bool_decide (is_Some (To4 ip)).
Definition is_To16 (ip : IP) : bool := bool_decide (is_Some (To16 ip)).

Definition ext_subnet (enDn : string) (sharedSecurity : bool) (ingress : string) : list (option ApicObject) :=
  let '(ip, cidr) := match ParseCIDR_IP ingress with Some ip => (Some ip, true) | None => (ParseIP ingress, false) end in
  match ip with
  | Some ip =>
      if is_To4 ip then [apicExtNetCreate enDn ingress true cidr sharedSecurity]
      else if is_To16 ip then [apicExtNetCreate enDn ingress false cidr sharedSecurity]
      else []
  | None => []
  end.

Definition apicExtNet (name tenantName l3Out : string) (ingresses : list string) (sharedSecurity snat : bool)
  : option ApicObject :=
  en ← NewL3extInstP tenantName l3Out name;
  let enDn := GetDn en in
  rs ← (if snat then NewFvRsCons enDn name else NewFvRsProv enDn name);
  add_children (AddChild en rs) (flat_map (ext_subnet enDn sharedSecurity) ingresses).

Definition ext_net_dn (tenantName l3Out net : string) : string :=
  "uni/tn-" ++ tenantName ++ "/out-" ++ l3Out ++ "/instP-" ++ net.
Definition apicExtNetCons (conName tenantName l3Out net : string) : option ApicObject :=
  NewFvRsCons (ext_net_dn tenantName l3Out net) conName.
Definition apicExtNetProv (conName tenantName l3Out net : string) : option ApicObject :=
  NewFvRsProv (ext_net_dn tenantName l3Out net) conName.

(** ** Contracts *)

Definition validScope (scope : string) : bool := bool_decide (scope ∈ [EmptyString; "context"; "tenant"; "global"]).

Definition apicContract (conName tenantName graphName scopeName : string) (isSnatPbrFltrChain customSGAnnot : bool)
  : option ApicObject :=
  con ← NewVzBrCP tenantName conName;
  let con := if negb (String.eqb scopeName EmptyString) && negb (String.eqb scopeName "context")
             then SetAttr con "scope" (AStr scopeName) else con in
  cs ← NewVzSubj (GetDn con) "loadbalancedservice";
  let csDn := GetDn cs in
  cs ← (if isSnatPbrFltrChain then
          let cs := SetAttr cs "revFltPorts" (AStr "no") in
          inTerm ← NewVzInTerm csDn;
          outTerm ← NewVzOutTerm csDn;
          inTerm ← add_children inTerm [NewVzRsInTermGraphAtt (GetDn inTerm) graphName;
                                        NewVzRsFiltAtt (GetDn inTerm) (conName ++ "_fromCons-toProv")];
          outTerm ← add_children outTerm [NewVzRsOutTermGraphAtt (GetDn outTerm) graphName;
                                          NewVzRsFiltAtt (GetDn outTerm) (conName ++ "_fromProv-toCons")];
          Some (AddChild (AddChild cs inTerm) outTerm)
        else add_children cs [NewVzRsSubjGraphAtt csDn graphName customSGAnnot; NewVzRsSubjFiltAtt csDn conName]);
  Some (AddChild con cs).

(** ** Device contexts *)

Definition lif_ctx (ccDn lifDn bdDn rpDnBase : string) (isSnatPbrFltrChain : bool) (ctxConn : string)
  : option ApicObject :=
  lifCtx ← NewVnsLIfCtx ccDn ctxConn;
  let rpDn := if isSnatPbrFltrChain
              then rpDnBase ++ (if String.eqb ctxConn "consumer" then "_Cons" else "_Prov") else rpDnBase in
  let lifCtxDn := GetDn lifCtx in
  add_children lifCtx [NewVnsRsLIfCtxToSvcRedirectPol lifCtxDn rpDn; NewVnsRsLIfCtxToBD lifCtxDn bdDn;
                       NewVnsRsLIfCtxToLIf lifCtxDn lifDn].

Definition apicDevCtx (name tenantName graphName deviceName bdName rpDn : string) (isSnatPbrFltrChain : bool)
  : option ApicObject :=
  cc ← NewVnsLDevCtx tenantName name graphName "loadbalancer";
  let ccDn := GetDn cc in
  let graphDn := "uni/tn-" ++ tenantName ++ "/lDevVip-" ++ deviceName in
  let lifDn := graphDn ++ "/lIf-" ++ "interface" in
  let bdDn := "uni/tn-" ++ tenantName ++ "/BD-" ++ bdName in
  add_children cc (NewVnsRsLDevCtxToLDev ccDn graphDn
                   :: map (lif_ctx ccDn lifDn bdDn rpDn isSnatPbrFltrChain) ["consumer"; "provider"]).

(** ** Filters *)

Definition getProtocolStr (proto : string) : string :=
  if String.eqb proto ProtocolUDP then "udp"
  else if String.eqb proto ProtocolTCP then "tcp"
  else if String.eqb proto ProtocolSCTP then "sctp"
  else "tcp".

Definition apicFilterEntry (filterDn count p_start p_end protocol stateful : string) (snat outTerm : bool)
  : option ApicObject :=
  fe ← NewVzEntry filterDn count;
  let fe := SetAttr (SetAttr fe "etherT" (AStr "ip")) "prot" (AStr protocol) in
  let fe :=
    if snat then
      if outTerm then
        let fe := if String.eqb protocol "tcp" then SetAttr fe "tcpRules" (AStr "est") else fe in
        SetAttr (SetAttr fe "dFromPort" (AStr p_start)) "dToPort" (AStr p_end)
      else SetAttr (SetAttr fe "sFromPort" (AStr p_start)) "sToPort" (AStr p_end)
    else SetAttr (SetAttr fe "dFromPort" (AStr p_start)) "dToPort" (AStr p_end) in
  Some (SetAttr fe "stateful" (AStr stateful)).

Definition portRangeSnat : Type := Z * Z.

Definition apicFilter (name tenantName : string) (portSpec : list SvcPort) (snat : bool) (snatRange : portRangeSnat)
  : option ApicObject :=
  filter ← NewVzFilter tenantName name;
  let filterDn := GetDn filter in
  let port_entry i port :=
    let pstr := Itoa (port_Port port) in
    apicFilterEntry filterDn (Itoa (Z.of_nat i)) pstr pstr (getProtocolStr (port_Protocol port)) "no" false false in
  filter ← add_children filter (imap port_entry portSpec);
  if snat then
    let i := (length portSpec - 1)%nat in
    let p_start := Itoa snatRange.1 in
    let p_end := Itoa snatRange.2 in
    add_children filter [apicFilterEntry filterDn (Itoa (Z.of_nat (i + 1))) p_start p_end "tcp" "no" false false;
                         apicFilterEntry filterDn (Itoa (Z.of_nat (i + 2))) p_start p_end "udp" "no" false false]
  else Some filter.

Definition apicFilterSnat (name tenantName : string) (range : portRangeSnat) (outTerm : bool) : option ApicObject :=
  filter ← NewVzFilter tenantName name;
  let filterDn := GetDn filter in
  let p_start := Itoa range.1 in
  let p_end := Itoa range.2 in
  add_children filter [apicFilterEntry filterDn "0" p_start p_end "tcp" "no" true outTerm;
                       apicFilterEntry filterDn "1" p_start p_end "udp" "no" true outTerm].
