(* ===== verification/SvcNodes.v ===== *)
(** * SvcNodes: the nodes behind a service and the objects written for it

    src/pkg/controller/services.go: from the endpoints or endpoint slices of a
    service to the nodes that serve it (GetnodesMetadata of both
    implementations of ServiceEndPointType), the objects of the service graph
    written for them, and the injected service object.  The stores of the
    informers are the fields of [SvcEnv]; which implementation is in use is
    [useSlices]. *)
From S2P Require Import Prelude GoBytes GoNet GoText IpAlloc ApicMetadata ApicTypes ApicBuild K8s AciNames.
From S2P Require Import PodNet SvcTypes OpflexDev SvcGraph.

Open Scope string_scope.

Record DelayedEpSlice := mkDelayed {
  ServiceKey : string;
  OldEpSlice : EpSlice;
  NewEpSlice : EpSlice;
  DelayedTime : Z
}.

Record SvcEnv := mkSvcEnv {
  useSlices : bool;
  endpointsIndexer : gmap string Endpoints;
  endpointSliceIndexer : list EpSlice;
  nodeIndexer : list string;
  namespaceIndexer : gset string;
  GetApicResponse : string → option ApicSlice;
  LookupHost : string → option (list string);
  statusAccepted : SvcObj → bool
}.

Abbreviation node_map := (gmap string ServiceEndpoint).

(** ** Endpoint slices *)

Definition LabelServiceName : string := "kubernetes.io/service-name".

Definition getServiceKey (slice : EpSlice) : option string :=
  serviceName ← sl_Labels slice !! LabelServiceName; Some (sl_Namespace slice ++ "/" ++ serviceName).

Definition getServiceNameAndNs (slice : EpSlice) : option (string * string) :=
  serviceName ← sl_Labels slice !! LabelServiceName; Some (serviceName, sl_Namespace slice).

Definition getEndpointSliceEpIps (endpoint : Endpoint) : gset string := list_to_set (ep_Addresses endpoint).

(** cache.ListAllByNamespace with the selector of the service's name. *)
Definition slices_of (env : SvcEnv) (service : SvcObj) : list EpSlice :=
  List.filter (λ sl, (String.eqb (so_Namespace service) EmptyString || String.eqb (sl_Namespace sl) (so_Namespace service))
                     && bool_decide (sl_Labels sl !! LabelServiceName = Some (so_Name service)))
    (endpointSliceIndexer env).

(** ** The nodes of a service *)

(** The devices (whose paths are read) and the nodes found so far. *)
Abbreviation map_acc := (devices * node_map)%type.

Definition setNodeMap (now : Z) (nodes : node_map) (nodeName : string) (acc : map_acc) : map_acc :=
  let '(devs, nodeMap) := acc in
  match nodes !! nodeName with
  | None => acc
  | Some ep =>
      match devs !! nodeName with
      | None => acc
      | Some l =>
          let '(l, path) := fabricPathForNode now l in
          (<[nodeName := l]> devs, match path with Some _ => <[nodeName := ep]> nodeMap | None => nodeMap end)
      end
  end.

Definition isDelayedEndpoint (delayed : list DelayedEpSlice) (endpoint : Endpoint) (svckey : string) : bool :=
  let endpointips := getEndpointSliceEpIps endpoint in
  existsb (λ d,
    String.eqb (ServiceKey d) svckey &&
    let same := List.filter (λ ep, bool_decide (endpointips = getEndpointSliceEpIps ep)) (sl_Endpoints (OldEpSlice d)) in
    existsb (λ ep, bool_decide (ep_Ready ep = Some false)) same || bool_decide (same = [])) delayed.

(** The endpoint counts: it is ready, or readiness is not waited for. *)
Definition counts (cfg : SvcCfg) (endpoint : Endpoint) : bool :=
  NoWaitForServiceEpReadiness cfg || bool_decide (ep_Ready endpoint = Some true).

Definition setNodeMapDelay (cfg : SvcCfg) (now : Z) (nodes : node_map) (delayed : list DelayedEpSlice)
    (service : SvcObj) (endpoint : Endpoint) (acc : map_acc) : map_acc :=
  if counts cfg endpoint then
    match ep_NodeName endpoint with
    | Some nodeName =>
        if negb (String.eqb nodeName EmptyString) && negb (isDelayedEndpoint delayed endpoint (so_key service))
        then setNodeMap now nodes nodeName acc else acc
    | None => acc
    end
  else acc.

(** serviceEndpointSlice.GetnodesMetadata on one endpoint. *)
Definition slice_endpoint (cfg : SvcCfg) (now : Z) (nodes : node_map) (delayed : list DelayedEpSlice)
    (service : SvcObj) (acc : map_acc) (endpoint : Endpoint) : map_acc :=
  if (0 <? AddDelay cfg)%Z then setNodeMapDelay cfg now nodes delayed service endpoint acc
  else if counts cfg endpoint then
    match ep_NodeName endpoint with
    | Some nodeName => if negb (String.eqb nodeName EmptyString) then setNodeMap now nodes nodeName acc else acc
    | None => acc
    end
  else acc.

Definition GetnodesMetadata (cfg : SvcCfg) (env : SvcEnv) (now : Z) (nodes : node_map) (delayed : list DelayedEpSlice)
    (key : string) (service : SvcObj) (devs : devices) : map_acc :=
  if useSlices env then
    foldl (slice_endpoint cfg now nodes delayed service) (devs, ∅) (flat_map sl_Endpoints (slices_of env service))
  else
    match endpointsIndexer env !! key with
    | None => (devs, ∅)
    | Some endpoints =>
        foldl (λ acc nodeName, setNodeMap now nodes nodeName acc) (devs, ∅)
          (omap addr_NodeName (flat_map sub_Addresses (eps_Subsets endpoints)))
    end.

(** ** The service graph of a service *)

(** The last graph that the subject of the contract is attached to. *)
Definition getGraphNameFromContract (env : SvcEnv) (name tenantName : string) : option string :=
  imdata ← GetApicResponse env ("/api/node/mo/uni/tn-" ++ tenantName ++ "/brc-" ++ name ++ ".json?query-target=subtree");
  Some (foldl (λ graphName obj,
    if String.eqb (class obj) "vzRsSubjGraphAtt" then
      match Attributes obj !! "tnVnsAbsGraphName" with Some (AStr g) => g | _ => graphName end
    else graphName) EmptyString imdata).

Definition ServiceContractScopeAnnotation : string := "opflex.cisco.com/ext_service_contract_scope".
Definition ServiceGraphNameAnnotation : string := "opflex.cisco.com/service-graph-name".
Definition DefaultServiceContractScope : string := "context".

(** The scope of the contract; [None] is the error. *)
Definition contract_scope (service : SvcObj) : option string :=
  match so_Annotations service !! ServiceContractScopeAnnotation with
  | Some scopeVal => let norm := ToLower scopeVal in if validScope norm then Some norm else None
  | None => Some DefaultServiceContractScope
  end.

(** The objects, and whether the index mutex is left locked. *)
Definition graph_objs (cfg : SvcCfg) (name graphName deviceName conScope : string) (customSG snat : bool)
    (service : SvcObj) (nodes : list string) (nodeMap : node_map) : outcome (ApicSlice * bool) :=
  let tenant := AciVrfTenant cfg in
  '(rp, rpDn, locked) ← apicRedirectPol name tenant nodes nodeMap (staticMonPolDn cfg) (AciPbrTrackingNonSnat cfg);
  en ← build (apicExtNet name tenant (AciL3Out cfg) (ing_IP <$> so_Ingress service) (String.eqb conScope "global") false);
  con ← build (apicContract name tenant graphName conScope false customSG);
  cons ← build (mapM (apicExtNetCons name tenant (AciL3Out cfg)) (AciExtNetworks cfg));
  filter ← build (apicFilter name tenant (so_Ports service) snat (SnatDefaultPortRangeStart cfg, SnatDefaultPortRangeEnd cfg));
  ctx ← build (apicDevCtx name tenant graphName deviceName (svc_aciName cfg "bd" ServiceBd) rpDn false);
  Returns ([rp; en; con] ++ cons ++ [filter; ctx], locked)%list.

Definition sorted_nodes (nodeMap : node_map) : list string := sort_strs (map_to_list nodeMap).*1.

(** The result is the devices, whether there is an error, the effects, and
    whether the index mutex is left locked. *)
Definition updateServiceDeviceInstance (cfg : SvcCfg) (env : SvcEnv) (now : Z) (nodes : node_map)
    (delayed : list DelayedEpSlice) (snatServices : gset string) (key : string) (service : SvcObj) (devs : devices)
  : outcome (devices * bool * list svc_effect * bool) :=
  let '(devs, nodeMap) := GetnodesMetadata cfg env now nodes delayed key service devs in
  let name := svc_aciName cfg "svc" key in
  match contract_scope service with
  | None => Returns (devs, true, [], false)
  | Some conScope =>
      let global := svc_aciName cfg "svc" "global" in
      let customSG := bool_decide (is_Some (so_Annotations service !! ServiceGraphNameAnnotation)) in
      let graphName := if customSG then default global (getGraphNameFromContract env name (AciVrfTenant cfg)) else global in
      if (0 <? length (sorted_nodes nodeMap))%nat then
        '(objs, locked) ← graph_objs cfg name graphName global conScope customSG (bool_decide (key ∈ snatServices)) service
                            (sorted_nodes nodeMap) nodeMap;
        Returns (devs, false, [SvcWrite name objs], locked)
      else Returns (devs, false, [SvcWrite name []], false)
  end.

(** ** The service graph of source NAT *)

(** strings.TrimSuffix. *)
Definition TrimSuffixStr (s suffix : string) : string :=
  let n := (String.length s - String.length suffix)%nat in
  if (String.length suffix <=? String.length s)%nat && String.eqb (String.substring n (String.length suffix) s) suffix
  then String.substring 0 n s else s.

Fixpoint snat_nodes (now : Z) (nodes : node_map) (limit : Z) (names : list string) (acc : map_acc) : map_acc :=
  match names with
  | [] => acc
  | name :: names =>
      if (limit =? 0)%Z then acc else snat_nodes now nodes (limit - 1) names (setNodeMap now nodes name acc)
  end.

(** The policies, the DN that the device context refers to, and the mutex. *)
Definition snat_redirect (cfg : SvcCfg) (name : string) (nodes : list string) (nodeMap : node_map)
  : outcome (ApicSlice * string * bool) :=
  let pol n := apicRedirectPol n (AciVrfTenant cfg) nodes nodeMap (staticMonPolDn cfg) true in
  if SnatPbrFltrChain cfg then
    '(rpCons, rpDnCons, locked) ← pol (name ++ "_Cons");
    if (locked : bool) then Blocks
    else
      '(rpProv, _, locked) ← pol (name ++ "_Prov");
      Returns ([rpCons; rpProv], TrimSuffixStr rpDnCons "_Cons", locked)
  else
    '(rp, rpDn, locked) ← pol name;
    Returns ([rp], rpDn, locked).

Definition snat_filters (cfg : SvcCfg) (name : string) : option ApicSlice :=
  let range := (SnatDefaultPortRangeStart cfg, SnatDefaultPortRangeEnd cfg) in
  if SnatPbrFltrChain cfg then
    mapM id [apicFilterSnat (name ++ "_fromCons-toProv") (AciVrfTenant cfg) range false;
             apicFilterSnat (name ++ "_fromProv-toCons") (AciVrfTenant cfg) range true]
  else mapM id [apicFilterSnat name (AciVrfTenant cfg) range false].

Definition snat_objs (cfg : SvcCfg) (name graphName : string) (snatIps : list (list string))
    (nodes : list string) (nodeMap : node_map) : outcome (ApicSlice * bool) :=
  let tenant := AciVrfTenant cfg in
  '(rps, rpDn, locked) ← snat_redirect cfg name nodes nodeMap;
  en ← build (apicExtNet name tenant (AciL3Out cfg) (concat snatIps) true true);
  con ← build (apicContract name tenant graphName (SnatSvcContractScope cfg) (SnatPbrFltrChain cfg) false);
  prov ← build (mapM (apicExtNetProv name tenant (AciL3Out cfg)) (AciExtNetworks cfg));
  filters ← build (snat_filters cfg name);
  ctx ← build (apicDevCtx name tenant graphName graphName (svc_aciName cfg "bd" ServiceBd) rpDn (SnatPbrFltrChain cfg));
  Returns (rps ++ [en; con] ++ prov ++ filters ++ [ctx], locked)%list.

(** [snatIps] are the addresses of the cached policies. *)
Definition updateServiceDeviceInstanceSnat (cfg : SvcCfg) (env : SvcEnv) (now : Z) (nodes : node_map)
    (snatIps : list (list string)) (key : string) (devs : devices) : outcome (devices * list svc_effect * bool) :=
  if bool_decide (nodes = ∅) then Returns (devs, [], false)
  else
    let '(devs, nodeMap) := snat_nodes now nodes (MaxSvcGraphNodes cfg) (nodeIndexer env) (devs, ∅) in
    let name := svc_aciName cfg "snat" key in
    let graphName := svc_aciName cfg "svc" "global" in
    if (0 <? length (sorted_nodes nodeMap))%nat then
      '(objs, locked) ← snat_objs cfg name graphName snatIps (sorted_nodes nodeMap) nodeMap;
      Returns (devs, [SvcWrite name objs], locked)
    else Returns (devs, [SvcWrite name []], false).

(** ** The injected service object *)

Definition is_pod_ref (r : option ObjectReference) : option string :=
  match r with Some r => if String.eqb (ref_Kind r) "Pod" then Some (ref_Name r) else None | None => None end.

(** The object with its endpoints, or [None] if it is not to be written. *)
Definition SetServiceApicObject (env : SvcEnv) (aobj : ApicObject) (service : SvcObj) : option (option ApicObject) :=
  if useSlices env then
    let eps := omap (λ e, is_pod_ref (ep_TargetRef e)) (flat_map sl_Endpoints (slices_of env service)) in
    aobj ← add_children aobj (map (NewVmmInjectedSvcEp (GetDn aobj)) (elements (list_to_set eps : gset string)));
    Some (if (length eps =? 0)%nat then None else Some aobj)
  else
    let eps := match endpointsIndexer env !! so_key service with
               | None => []
               | Some e => omap (λ a, is_pod_ref (addr_TargetRef a)) (flat_map sub_Addresses (eps_Subsets e))
               end in
    aobj ← add_children aobj (map (NewVmmInjectedSvcEp (GetDn aobj)) eps); Some (Some aobj).

Definition set_if (b : bool) (k v : string) (o : ApicObject) : ApicObject := if b then SetAttr o k (AStr v) else o.
Definition has_ip (i : LbIngress) : bool :=
  negb (String.eqb (ing_IP i) EmptyString) && negb (String.eqb (ing_IP i) "0.0.0.0").

Definition lb_ip (env : SvcEnv) (service : SvcObj) (o : ApicObject) : ApicObject :=
  match so_Ingress service with
  | [] => o
  | ingress :: _ =>
      if has_ip ingress then SetAttr o "lbIp" (AStr (ing_IP ingress))
      else if negb (String.eqb (ing_Hostname ingress) EmptyString) then
        match LookupHost env (ing_Hostname ingress) with
        | Some (ip :: _) => SetAttr o "lbIp" (AStr ip)
        | _ => o
        end
      else o
  end.

Definition service_type (service : SvcObj) : string :=
  let t := so_Type service in
  if String.eqb t "ClusterIP" then "clusterIp"
  else if String.eqb t "NodePort" then "nodePort"
  else if String.eqb t "LoadBalancer" then "loadBalancer"
  else if String.eqb t "ExternalName" then "externalName"
  else EmptyString.

Definition dns_name (cfg : SvcCfg) (service : SvcObj) (o : ApicObject) : ApicObject :=
  let setApicSvcDnsName := negb (length (ApicHosts cfg) =? 0)%nat && String.leb "5.1" (ApicVersion cfg) in
  if setApicSvcDnsName || String.eqb (Flavor cfg) "k8s-overlay" then
    let dnsName := so_Name service ++ "." ++ so_Namespace service ++ ".svc.cluster.local" in
    let o := foldl (λ o ingress,
      if negb (String.eqb (ing_Hostname ingress) EmptyString) then SetAttr o "dnsName" (AStr (ing_Hostname ingress))
      else set_if (has_ip ingress) "dnsName" dnsName o) o (so_Ingress service) in
    set_if (bool_decide (service_type service ∈ ["clusterIp"; "nodePort"; "externalName"])) "dnsName" dnsName o
  else o.

Definition svc_port (aobjDn : string) (port : SvcPort) : option ApicObject :=
  p ← NewVmmInjectedSvcPort aobjDn (Itoa (port_Port port)) (getProtocolStr (port_Protocol port))
        (IntOrString_String (port_TargetPort port));
  Some (SetAttr p "nodePort" (AStr (Itoa (port_NodePort port)))).

Definition svc_labels (cfg : SvcCfg) (dn : string) (service : SvcObj) : list (option ApicObject) :=
  if EnableVmmInjectedLabels cfg && String.leb "5.2" (ApicVersion cfg) then
    map (λ kv, NewVmmInjectedLabel dn (svc_aciName cfg "label" kv.1) kv.2) (map_to_list (so_Labels service))
  else [].

Definition writeApicSvc (cfg : SvcCfg) (env : SvcEnv) (key : string) (service : SvcObj) : option (list svc_effect) :=
  if ChainedMode cfg then Some []
  else
    aobj ← NewVmmInjectedSvc (svc_vmmProvider cfg) (AciVmmDomain cfg) (AciVmmController cfg) (so_Namespace service) (so_Name service);
    let aobjDn := GetDn aobj in
    let aobj := SetAttr aobj "guid" (AStr (so_UID service)) in
    if bool_decide (so_Namespace service ∈ namespaceIndexer env) then
      written ← SetServiceApicObject env aobj service;
      match written with
      | None => Some []
      | Some aobj =>
          let aobj := lb_ip env service aobj in
          let aobj := set_if (negb (String.eqb (so_ClusterIP service) EmptyString) &&
                              negb (String.eqb (so_ClusterIP service) "None")) "clusterIp" (so_ClusterIP service) aobj in
          let t := service_type service in
          let aobj := set_if (negb (String.eqb t EmptyString)) "type" t aobj in
          let aobj := dns_name cfg service aobj in
          aobj ← add_children aobj (map (svc_port aobjDn) (so_Ports service));
          aobj ← add_children aobj (svc_labels cfg (GetDn aobj) service);
          Some [SvcWrite (svc_aciName cfg "service-vmm" key) [aobj]]
      end
    else Some [].
