(* ===== verification/SvcIps.v ===== *)
(** * SvcIps: addresses of load balancer services

    The allocation of addresses in src/pkg/controller/services.go.  A service
    holds addresses of the dynamic pool ([ingressIps]) and addresses of the
    static pool that it asked for ([staticIngressIps]).  The service object is
    the one of the informer's store and the handler writes the status into it
    before it sends it to the API server, so the object is returned.

    A nil address is the empty list, and net.IP.Equal and reflect.DeepEqual
    agree on the addresses here, which all have 16 bytes. *)
From S2P Require Import Prelude GoBytes GoNet GoText IpAlloc IpCache ApicMetadata ApicTypes K8s AciNames NetPolIndex.
From S2P Require Import PodNet SvcTypes OpflexDev SvcGraph SvcNodes.

Open Scope string_scope.

Record serviceMeta := mkMeta {
  requestedIps : list IP;
  ingressIps : list IP;
  staticIngressIps : list IP
}.

Record IpState := mkIpState {
  serviceIps : IpCache;
  staticServiceIps : netIps;
  serviceMetaCache : gmap string serviceMeta
}.

Definition set_cache (c : IpCache) (s : IpState) : IpState := mkIpState c (staticServiceIps s) (serviceMetaCache s).
Definition set_static (p : netIps) (s : IpState) : IpState := mkIpState (serviceIps s) p (serviceMetaCache s).
Definition set_meta (key : string) (m : serviceMeta) (s : IpState) : IpState :=
  mkIpState (serviceIps s) (staticServiceIps s) (<[key := m]> (serviceMetaCache s)).
Definition drop_meta (key : string) (s : IpState) : IpState :=
  mkIpState (serviceIps s) (staticServiceIps s) (delete key (serviceMetaCache s)).

(** initIpam of config.go, for the pools of services. *)
Definition initServiceIps (cfg : SvcCfg) : IpState :=
  mkIpState (LoadRanges NewIpCache (ServiceIpPool cfg)) (loadIpRanges newNetIps (StaticServiceIpPool cfg)) ∅.

(** ** Returning addresses *)

Definition returnServiceIp (c : IpCache) (ip : IP) : IpCache :=
  if is_To4 ip then DeallocateIp c ip else if is_To16 ip then DeallocateIp c ip else c.
Definition returnServiceIps (ips : list IP) (s : IpState) : IpState :=
  set_cache (foldl returnServiceIp (serviceIps s) ips) s.

Definition returnIp (pool : netIps) (ip : IP) : netIps :=
  if is_To4 ip then mkPools (AddIp (p4 pool) ip) (p6 pool)
  else if is_To16 ip then mkPools (p4 pool) (AddIp (p6 pool) ip)
  else pool.
Definition returnIps (pool : netIps) (ips : list IP) : netIps := foldl returnIp pool ips.
Definition returnStatic (ips : list IP) (s : IpState) : IpState := set_static (returnIps (staticServiceIps s) ips) s.

Definition returnUnusedStaticIngressIps (static requested : list IP) (s : IpState) : IpState :=
  foldl (λ s staticIp,
    if existsb (λ reqIp, IP_Equal reqIp staticIp) requested then s else returnStatic [staticIp] s) s static.

Fixpoint remove_equal (ip : IP) (l : list IP) : list IP :=
  match l with
  | [] => []
  | v :: l => if IP_Equal v ip then l else v :: remove_equal ip l
  end.
Definition removeIpFromIngressIPList (l : list IP) (ip : IP) (s : IpState) : list IP * IpState :=
  (remove_equal ip l, returnServiceIps [ip] s).

(** ** Taking addresses *)

(** RemoveIp on the first pool of the cache, cont.serviceIps.GetV4IpCache()[0]
    or GetV6IpCache()[0]; without a pool the index is out of range. *)
Definition take_dynamic (v4 : bool) (ip : IP) (s : IpState) : outcome (bool * IpState) :=
  let c := serviceIps s in
  match (if v4 then cacheIpsV4 c else cacheIpsV6 c) with
  | [] => Panics
  | pool :: lists =>
      let '(ipa, found) := IpAlloc.RemoveIp pool ip in
      let lists := ipa :: lists in
      Returns (found, set_cache (if v4 then mkCache lists (cacheIpsV6 c) else mkCache (cacheIpsV4 c) lists) s)
  end.

Definition take_static (v4 : bool) (ip : IP) (s : IpState) : bool * IpState :=
  let p := staticServiceIps s in
  let '(ipa, found) := IpAlloc.RemoveIp (if v4 then p4 p else p6 p) ip in
  (found, set_static (if v4 then mkPools ipa (p6 p) else mkPools (p4 p) ipa) s).

(** An address of the status of a service that is seen for the first time. *)
Definition adopt_family (v4 : bool) (meta : serviceMeta) (s : IpState) (ip : IP) : outcome (serviceMeta * IpState) :=
  '(found, s) ← take_dynamic v4 ip s;
  if (found : bool) then Returns (mkMeta (requestedIps meta) (ingressIps meta ++ [ip]) (staticIngressIps meta), s)
  else
    let '(found, s) := take_static v4 ip s in
    Returns (if found then (mkMeta (requestedIps meta) (ingressIps meta) (staticIngressIps meta ++ [ip]), s) else (meta, s)).

Definition adopt_ip (acc : serviceMeta * IpState) (ip : IP) : outcome (serviceMeta * IpState) :=
  let '(meta, s) := acc in
  if is_To4 ip then adopt_family true meta s ip
  else if is_To16 ip then adopt_family false meta s ip
  else Returns acc.

Definition no_meta : serviceMeta := mkMeta [] [] [].

(** The entry of the service, made from its status if there is none. *)
Definition find_meta (key : string) (service : SvcObj) (s : IpState) : outcome (serviceMeta * IpState) :=
  match serviceMetaCache s !! key with
  | Some meta => Returns (meta, s)
  | None =>
      '(meta, s) ← foldO adopt_ip (no_meta, s) (omap (λ i, ParseIP (ing_IP i)) (so_Ingress service));
      Returns (meta, set_meta key meta s)
  end.

(** ** Requested addresses *)

Definition LbIpAnnotation : string := "opflex.cisco.com/lb-ipam-ips".

(** The IPv4 and the IPv6 address of an annotation; [None] if it is not valid. *)
Fixpoint validateRequestedIps (ipv4 ipv6 : IP) (lbIpList : list string) : option (IP * IP) :=
  match lbIpList with
  | [] => Some (ipv4, ipv6)
  | lbIp :: l =>
      match ParseIP lbIp with
      | None => validateRequestedIps ipv4 ipv6 l
      | Some ip =>
          if is_To4 ip then if (length ipv4 =? 0)%nat then validateRequestedIps ip ipv6 l else None
          else if is_To16 ip then if (length ipv6 =? 0)%nat then validateRequestedIps ipv4 ip l else None
          else validateRequestedIps ipv4 ipv6 l
      end
  end.

Definition non_nil (ip : IP) : list IP := if (length ip =? 0)%nat then [] else [ip].

(** The addresses that a service asks for; [None] if its annotation is not
    valid. *)
Definition requested (service : SvcObj) : option (list IP) :=
  match so_Annotations service !! LbIpAnnotation with
  | Some lbIps => '(ipv4, ipv6) ← validateRequestedIps [] [] (split_on "," lbIps); Some (non_nil ipv4 ++ non_nil ipv6)%list
  | None => Some (option_list (ParseIP (so_LoadBalancerIP service)))
  end.

(** The service has the address already, or it is taken from the static pool. *)
Definition request_ip (static : list IP) (acc : list IP * IpState) (ip : IP) : list IP * IpState :=
  let '(got, s) := acc in
  if bool_decide (ip ∈ static) then ((got ++ [ip])%list, s)
  else
    let '(found, s) := if is_To4 ip then take_static true ip s else (false, s) in
    let '(found, s) :=
      if found then (true, s) else if is_To16 ip then take_static false ip s else (false, s) in
    (if found then (got ++ [ip])%list else got, s).

(** The entry and the pools after the requests were looked at. *)
Definition apply_requests (reqs : list IP) (meta : serviceMeta) (s : IpState) : serviceMeta * IpState :=
  if (0 <? length reqs)%nat then
    let '(got, s) := foldl (request_ip (staticIngressIps meta)) ([], s) reqs in
    let s := returnUnusedStaticIngressIps (staticIngressIps meta) got s in
    let s := returnServiceIps (ingressIps meta) s in
    (mkMeta got [] got, s)
  else if (0 <? length (requestedIps meta))%nat then
    (mkMeta [] (ingressIps meta) [], returnStatic (staticIngressIps meta) s)
  else (meta, s).

(** ** Families *)

(** The last address of each family. *)
Definition last_ips (ips : list IP) : IP * IP :=
  foldl (λ '(v4, v6) ip, if is_To4 ip then (ip, v6) else if is_To16 ip then (v4, ip) else (v4, v6)) ([], []) ips.

(** The cluster addresses: the first address counts as IPv4 if it is one, and
    any further address as the other one. *)
Definition cluster_ips (service : SvcObj) : IP * IP :=
  foldl (λ '(v4, v6) ip,
    if is_To4 ip && (length v4 =? 0)%nat then (ip, v6)
    else if is_To16 ip && (length v6 =? 0)%nat then (v4, ip)
    else (v4, v6)) ([], []) (omap ParseIP (so_ClusterIP service :: so_ClusterIPs service)).

Definition nil_ip (ip : IP) : bool := (length ip =? 0)%nat.

(** One family: allocate an address if the cluster has one and the service has
    none, or return the one of a family that the cluster does not have. *)
Definition fit_family (v4 : bool) (cluster ip : IP) (reqs : list IP) (ips : list IP) (s : IpState)
  : IP * list IP * IpState :=
  if negb (nil_ip cluster) && nil_ip ip then
    if (length reqs <? 1)%nat then
      let '(c, res) := AllocateIp (serviceIps s) v4 in
      let s := set_cache c s in
      match res with
      | Some ip => (ip, (ips ++ [ip])%list, s)
      | None => ([], ips, s)
      end
    else (ip, ips, s)
  else if nil_ip cluster && negb (nil_ip ip) then
    let '(ips, s) := removeIpFromIngressIPList ips ip s in (ip, ips, s)
  else (ip, ips, s).

(** ** Status *)

Definition conditionType : string := "LbIpamAllocation".

(** The loop writes every kept condition to index 0, which it never moves, and
    the result is the empty prefix. *)
Definition removeAllConditions (conditions : list Condition) (ctype : string) : list Condition :=
  let i := 0%nat in
  let conditions := foldl (λ cs cond, if negb (String.eqb (cond_Type cond) ctype) then <[i := cond]> cs else cs)
                      conditions conditions in
  take i conditions.

(** The object with the condition, whether the update failed, and the request. *)
Definition updateServiceCondition (env : SvcEnv) (service : SvcObj) (success : bool) (reason message : string)
  : SvcObj * bool * list svc_effect :=
  let condition := mkCond conditionType success reason (if success then EmptyString else message) in
  if bool_decide (condition ∈ so_Conditions service) then (service, false, [])
  else
    let service := set_conditions (removeAllConditions (so_Conditions service) conditionType ++ [condition])%list service in
    (service, negb (statusAccepted env service), [UpdateServiceStatus service]).

(** ** The handler *)

Record alloc_result := mkAlloc {
  ar_requeue : bool;
  ar_service : SvcObj;
  ar_state : IpState;
  ar_effects : list svc_effect;
  ar_locked : bool
}.

(** The result of a path that ends with Unlock and a return. *)
Definition unlock_return (locked requeue : bool) (service : SvcObj) (s : IpState) (e : list svc_effect)
  : outcome alloc_result :=
  locked ← Mutex_Unlock locked; Returns (mkAlloc requeue service s e locked).

(** What follows once the addresses are settled: the status and the condition. *)
Definition publish (env : SvcEnv) (locked : bool) (service : SvcObj) (reqs ips : list IP) (s : IpState) : alloc_result :=
  let newIngress := (λ ip, mkIngress (IP_String ip) EmptyString) <$> ips in
  let changed := negb (bool_decide (newIngress = so_Ingress service)) in
  let service := if changed then set_lb_ingress newIngress service else service in
  let e1 := if changed then [UpdateServiceStatus service] else [] in
  if changed && negb (statusAccepted env service) then mkAlloc true service s e1 locked
  else
    let fewer := (0 <? length reqs)%nat && negb (length reqs =? length ips)%nat in
    let '(service, failed, e2) :=
      if fewer then updateServiceCondition env service false "OneIpNotAllocatable" "One of the requested Ips is not allocatable"
      else updateServiceCondition env service true "Success" EmptyString in
    mkAlloc failed service s (e1 ++ e2)%list locked.

(** [locked] is the index mutex, which the handler takes and which every path
    gives back; the status is sent without it. *)
Definition allocateServiceIps (env : SvcEnv) (syncEnabled locked : bool) (key : string) (service : SvcObj) (s : IpState)
  : outcome alloc_result :=
  locked ← Mutex_Lock locked;
  '(meta, s) ← find_meta key service s;
  if negb syncEnabled then unlock_return locked false service s []
  else
    match requested service with
    | None =>
        let s := returnServiceIps (ingressIps meta) s in
        let '(service, failed, e) :=
          updateServiceCondition env service false "InvalidAnnotation" "Invalid Loadbalancer IP annotation" in
        if (failed : bool) then unlock_return locked true service s e
        else unlock_return locked false service s e
    | Some reqs =>
        let '(meta, s) := apply_requests reqs meta s in
        if (0 <? length reqs)%nat && (length (requestedIps meta) <? 1)%nat then
          let s := set_meta key meta s in
          let '(service, failed, e) :=
            updateServiceCondition env service false "RequestedIpsNotAllocatable"
              "The requested ips for loadbalancer service are not available or not in extern static range" in
          if (failed : bool) then unlock_return locked true service s e
          else unlock_return locked false service s e
        else
          let ips := (ingressIps meta ++ staticIngressIps meta)%list in
          let '(ipv4, ipv6) := last_ips ips in
          let '(clusterIPv4, clusterIPv6) := cluster_ips service in
          let '(ipv4, ips, s) := fit_family true clusterIPv4 ipv4 reqs ips s in
          let '(ipv6, ips, s) := fit_family false clusterIPv6 ipv6 reqs ips s in
          let s := set_meta key (mkMeta (requestedIps meta) ips (staticIngressIps meta)) s in
          if nil_ip ipv4 && nil_ip ipv6 then unlock_return locked true service s []
          else
            locked ← Mutex_Unlock locked;
            Returns (publish env locked service reqs ips s)
    end.

(** The addresses of a service that is gone or no load balancer. *)
Definition clear_meta (key : string) (s : IpState) : IpState :=
  match serviceMetaCache s !! key with
  | Some meta => drop_meta key (returnStatic (staticIngressIps meta) (returnServiceIps (ingressIps meta) s))
  | None => s
  end.

Definition clearLbService (cfg : SvcCfg) (locked : bool) (key : string) (s : IpState)
  : outcome (IpState * list svc_effect * bool) :=
  locked ← Mutex_Lock locked;
  let s := clear_meta key s in
  locked ← Mutex_Unlock locked;
  Returns (s, [SvcClear (svc_aciName cfg "svc" key)], locked).
