(* ===== verification/Services.v ===== *)
(** * Services: the handlers of services and endpoints

    src/pkg/controller/services.go, composed: the events of services,
    endpoints and endpoint slices with the tables of the network policies that
    they change and the policies that they queue, the delayed endpoint slices,
    and the update and removal of a service that the service queue runs.

    The index mutex is in the state: [lock] takes it or blocks, [unlock] gives
    it back, at the places where the code does.
    The service object that a handler gets is the one in the informer's store,
    so what it writes into the object shows in [serviceIndexer]. *)
From S2P Require Import Prelude GoBytes GoNet GoText IpAlloc IpCache ApicMetadata ApicTypes ApicBuild PodIndex K8s AciNames.
From S2P Require Import NetPol NetPolIndex NetPolAugment NetPolCtl.
From S2P Require Import PodNet SvcTypes OpflexDev SvcGraph SvcNodes SvcIps.

Open Scope string_scope.

#[export] Instance targetPort_eq_dec : EqDecision targetPort.
Proof. solve_decision. Defined.

Record SvcState := mkSvcState {
  ss_np : NpState;
  ss_ips : IpState;
  ss_dev : DevState;
  nodeServiceMetaCache : node_map;
  serviceIndexer : gmap string SvcObj;
  serviceSyncEnabled : bool;
  snatServices : gset string;
  delayedEpSlices : list DelayedEpSlice;
  mutexLocked : bool;
  ss_effects : list svc_effect
}.

Definition set_np (n : NpState) (s : SvcState) : SvcState :=
  mkSvcState n (ss_ips s) (ss_dev s) (nodeServiceMetaCache s) (serviceIndexer s) (serviceSyncEnabled s) (snatServices s)
    (delayedEpSlices s) (mutexLocked s) (ss_effects s).
Definition set_ips (i : IpState) (s : SvcState) : SvcState :=
  mkSvcState (ss_np s) i (ss_dev s) (nodeServiceMetaCache s) (serviceIndexer s) (serviceSyncEnabled s) (snatServices s)
    (delayedEpSlices s) (mutexLocked s) (ss_effects s).
Definition set_devs (d : devices) (s : SvcState) : SvcState :=
  mkSvcState (ss_np s) (ss_ips s) (mkDevState d (nodeACIPod (ss_dev s))) (nodeServiceMetaCache s) (serviceIndexer s)
    (serviceSyncEnabled s) (snatServices s) (delayedEpSlices s) (mutexLocked s) (ss_effects s).
Definition set_services (m : gmap string SvcObj) (s : SvcState) : SvcState :=
  mkSvcState (ss_np s) (ss_ips s) (ss_dev s) (nodeServiceMetaCache s) m (serviceSyncEnabled s) (snatServices s)
    (delayedEpSlices s) (mutexLocked s) (ss_effects s).
Definition set_snat (m : gset string) (s : SvcState) : SvcState :=
  mkSvcState (ss_np s) (ss_ips s) (ss_dev s) (nodeServiceMetaCache s) (serviceIndexer s) (serviceSyncEnabled s) m
    (delayedEpSlices s) (mutexLocked s) (ss_effects s).
Definition set_delayed (l : list DelayedEpSlice) (s : SvcState) : SvcState :=
  mkSvcState (ss_np s) (ss_ips s) (ss_dev s) (nodeServiceMetaCache s) (serviceIndexer s) (serviceSyncEnabled s)
    (snatServices s) l (mutexLocked s) (ss_effects s).
Definition set_mutex (b : bool) (s : SvcState) : SvcState :=
  mkSvcState (ss_np s) (ss_ips s) (ss_dev s) (nodeServiceMetaCache s) (serviceIndexer s) (serviceSyncEnabled s)
    (snatServices s) (delayedEpSlices s) b (ss_effects s).
Definition svc_emit (l : list svc_effect) (s : SvcState) : SvcState :=
  mkSvcState (ss_np s) (ss_ips s) (ss_dev s) (nodeServiceMetaCache s) (serviceIndexer s) (serviceSyncEnabled s)
    (snatServices s) (delayedEpSlices s) (mutexLocked s) (ss_effects s ++ l)%list.

Definition lock (s : SvcState) : outcome SvcState := l ← Mutex_Lock (mutexLocked s); Returns (set_mutex l s).
Definition unlock (s : SvcState) : outcome SvcState := l ← Mutex_Unlock (mutexLocked s); Returns (set_mutex l s).

Definition set_endpoint_ips (f : ip_index → ip_index) (n : NpState) : NpState :=
  mkNpState (netPolPods n) (netPolIngressPods n) (netPolEgressPods n) (netPolSubnetIndex n) (f (endpointsIpIndex n))
    (targetPortIndex n) (nmPortNp n) (ctrPortNameCache n) (hppRef n) (effects n).

Definition queueServiceUpdateByKey (key : string) (s : SvcState) : SvcState := svc_emit [QueueService key] s.
Definition queueServiceUpdate (service : SvcObj) (s : SvcState) : SvcState := queueServiceUpdateByKey (so_key service) s.

(** Queue the network policies that [queueIPNetPolUpdates] and
    [queuePortNetPolUpdates] name. *)
Definition queue_ip_policies (ips : gset string) (s : SvcState) : SvcState :=
  set_np (emit (QueueNetPol <$> elements (queueIPNetPolUpdates (netPolSubnetIndex (ss_np s)) ips)) (ss_np s)) s.
Definition queue_port_policies (ports : gmap string targetPort) (s : SvcState) : SvcState :=
  set_np (emit (QueueNetPol <$> elements (queuePortNetPolUpdates (targetPortIndex (ss_np s)) ports)) (ss_np s)) s.

Definition update_ip_index (oldIps newIps : gset string) (key : string) (s : SvcState) : SvcState :=
  set_np (set_endpoint_ips (λ idx, updateIpIndex idx oldIps newIps key) (ss_np s)) s.
Definition update_port_index (key : string) (oldPorts newPorts : gmap string targetPort) (s : SvcState) : SvcState :=
  set_np (set_ports (updateTargetPortIndex true key oldPorts newPorts) (ss_np s)) s.

Section Handlers.
Context (cfg : SvcCfg) (env : SvcEnv) (inf : Informers).

(** ** Policies of the pods behind an endpoint *)

Fixpoint matching_named (podkey : string) (keys : list string) : outcome (list string) :=
  match keys with
  | [] => Returns []
  | key :: keys =>
      b ← build (checkPodNmpMatchesNp inf key podkey);
      rest ← matching_named podkey keys;
      Returns (if (b : bool) then key :: rest else rest)
  end.

Definition queueMatchingNamedNp (served : gset string) (podkey : string) (s : SvcState) : outcome SvcState :=
  s ← lock s;
  keys ← matching_named podkey (elements (nmPortNp (ss_np s) ∖ served));
  unlock (set_np (emit (QueueNetPol <$> keys) (ss_np s)) s).

(** The policies of one pod; [record] says whether they count as served. *)
Definition queue_pod_policies (record : bool) (podkey : string) (s : SvcState) : outcome SvcState :=
  let npkeys := GetObjForPod (netPolEgressPods (ss_np s)) podkey in
  let s := set_np (emit (QueueNetPol <$> elements npkeys) (ss_np s)) s in
  queueMatchingNamedNp (if record then npkeys else ∅) podkey s.

(** The pod that a reference names. *)
Definition pod_ref (r : option ObjectReference) : option string :=
  r ← r;
  if String.eqb (ref_Kind r) "Pod" && negb (String.eqb (ref_Namespace r) EmptyString)
     && negb (String.eqb (ref_Name r) EmptyString)
  then Some (ref_Namespace r ++ "/" ++ ref_Name r) else None.

Definition for_pods (record : bool) (podkeys : list string) (s : SvcState) : outcome SvcState :=
  foldl (λ s podkey, s ≫= queue_pod_policies record podkey) (Returns s) podkeys.

Definition queueNetPolForEpAddrs (addrs : list EndpointAddress) : SvcState → outcome SvcState :=
  for_pods true (omap (λ a, pod_ref (addr_TargetRef a)) addrs).

Definition queueEndpointsNetPolUpdates (endpoints : Endpoints) (s : SvcState) : outcome SvcState :=
  foldl (λ s subset, s ← s; s ← queueNetPolForEpAddrs (sub_Addresses subset) s; queueNetPolForEpAddrs (sub_NotReady subset) s)
    (Returns s) (eps_Subsets endpoints).

Definition queueEndpointSliceNetPolUpdates (slice : EpSlice) : SvcState → outcome SvcState :=
  for_pods false (omap (λ e, if bool_decide (ep_Ready e = Some false) then None else pod_ref (ep_TargetRef e))
                    (sl_Endpoints slice)).

(** ** Endpoints *)

Definition getEndpointsIps (endpoints : Endpoints) : gset string :=
  list_to_set (flat_map (λ sub, addr_IP <$> sub_Addresses sub ++ sub_NotReady sub) (eps_Subsets endpoints))%list.

Definition endpointsAdded (endpoints : Endpoints) (s : SvcState) : outcome SvcState :=
  let ips := getEndpointsIps endpoints in
  s ← lock s;
  s ← unlock (queue_ip_policies ips (update_ip_index ∅ ips (eps_key endpoints) s));
  s ← queueEndpointsNetPolUpdates endpoints s;
  Returns (queueServiceUpdateByKey (eps_key endpoints) s).

Definition endpointsDeleted (endpoints : Endpoints) (s : SvcState) : outcome SvcState :=
  let ips := getEndpointsIps endpoints in
  s ← lock s;
  s ← unlock (queue_ip_policies ips (update_ip_index ips ∅ (eps_key endpoints) s));
  s ← queueEndpointsNetPolUpdates endpoints s;
  Returns (queueServiceUpdateByKey (eps_key endpoints) s).

(** The tables after a change of the addresses of a service. *)
Definition change_ips (oldIps newIps : gset string) (key : string) (s : SvcState) : outcome SvcState :=
  if bool_decide (oldIps = newIps) then Returns s
  else
    s ← lock s;
    unlock (queue_ip_policies newIps (update_ip_index oldIps newIps key (queue_ip_policies oldIps s))).

Definition endpointsUpdated (oldendpoints newendpoints : Endpoints) (s : SvcState) : outcome SvcState :=
  s ← change_ips (getEndpointsIps oldendpoints) (getEndpointsIps newendpoints) (eps_key newendpoints) s;
  s ← (if bool_decide (eps_Subsets oldendpoints = eps_Subsets newendpoints) then Returns s
       else s ← queueEndpointsNetPolUpdates oldendpoints s; queueEndpointsNetPolUpdates newendpoints s);
  Returns (queueServiceUpdateByKey (eps_key newendpoints) s).

(** ** Endpoint slices *)

Definition getEndpointSliceIps (slice : EpSlice) : gset string := list_to_set (flat_map ep_Addresses (sl_Endpoints slice)).

Definition endpointSliceAdded (slice : EpSlice) (s : SvcState) : outcome SvcState :=
  match getServiceKey slice with
  | None => Returns s
  | Some key =>
      let ips := getEndpointSliceIps slice in
      s ← lock s;
      s ← unlock (queue_ip_policies ips (update_ip_index ∅ ips key s));
      s ← queueEndpointSliceNetPolUpdates slice s;
      Returns (queueServiceUpdateByKey key s)
  end.

Definition endpointSliceDeleted (slice : EpSlice) (s : SvcState) : outcome SvcState :=
  match getServiceKey slice with
  | None => Returns s
  | Some key =>
      let ips := getEndpointSliceIps slice in
      s ← lock s;
      s ← unlock (queue_ip_policies ips (update_ip_index ips ∅ key s));
      s ← queueEndpointSliceNetPolUpdates slice s;
      Returns (queueServiceUpdateByKey key s)
  end.

Definition doendpointSliceUpdated (oldslice newslice : EpSlice) (s : SvcState) : outcome SvcState :=
  match getServiceKey newslice with
  | None => Returns s
  | Some key =>
      s ← change_ips (getEndpointSliceIps oldslice) (getEndpointSliceIps newslice) key s;
      s ← (if bool_decide (sl_Endpoints oldslice = sl_Endpoints newslice) then Returns s
           else s ← queueEndpointSliceNetPolUpdates oldslice s; queueEndpointSliceNetPolUpdates newslice s);
      Returns (queueServiceUpdateByKey key s)
  end.

(** ** Delayed endpoint slices *)

Definition notReadyEndpointPresent (slice : EpSlice) : bool :=
  existsb (λ e, bool_decide (ep_Ready e = Some false) && negb (bool_decide (ep_Terminating e = Some true)))
    (sl_Endpoints slice).

Definition svcInAddDelayList (name ns : string) : option Z :=
  dly_Delay <$> List.find (λ svc, String.eqb (dly_Name svc) name && String.eqb (dly_Namespace svc) ns) (AddDelay_Services cfg).

(** An endpoint was ready and the first one with its addresses now is not. *)
Definition lost_ready (newslice : EpSlice) (e : Endpoint) : bool :=
  match List.find (λ n, bool_decide (getEndpointSliceEpIps e = getEndpointSliceEpIps n)) (sl_Endpoints newslice) with
  | Some n => bool_decide (ep_Ready e = Some true) && bool_decide (ep_Ready n = Some false)
  | None => false
  end.

Definition isDeleteEndpointSlice (oldslice newslice : EpSlice) : bool :=
  (length (sl_Endpoints newslice) <? length (sl_Endpoints oldslice))%nat
  || existsb (λ e, bool_decide (ep_Terminating e = Some true)) (sl_Endpoints newslice)
  || existsb (lost_ready newslice) (sl_Endpoints oldslice).

Definition doendpointSliceUpdatedDelay (now : Z) (oldslice newslice : EpSlice) (s : SvcState) : outcome SvcState :=
  match getServiceNameAndNs newslice, getServiceKey newslice with
  | Some (svc, ns), Some svckey =>
      let listed := svcInAddDelayList svc ns in
      let svcDelay := default 0%Z listed in
      let delay := if (0 <? svcDelay)%Z then svcDelay else AddDelay cfg in
      if bool_decide (is_Some listed) && (0 <? delay)%Z then
        s ← lock s;
        s ← unlock (set_delayed (delayedEpSlices s ++ [mkDelayed svckey oldslice newslice (now + delay * Second)])%list s);
        if isDeleteEndpointSlice oldslice newslice then doendpointSliceUpdated oldslice newslice s else Returns s
      else doendpointSliceUpdated oldslice newslice s
  | _, _ => Returns s
  end.

Definition endpointSliceUpdated (now : Z) (oldslice newslice : EpSlice) (s : SvcState) : outcome SvcState :=
  if (0 <? AddDelay cfg)%Z then doendpointSliceUpdatedDelay now oldslice newslice s
  else doendpointSliceUpdated oldslice newslice s.

(** The loop over the delayed slices: what stays and what is due.  Removing the
    entry at the index moves the next one to it, and the index advances. *)
Fixpoint delayed_scan (now : Z) (l : list DelayedEpSlice) : list DelayedEpSlice * list DelayedEpSlice :=
  match l with
  | [] => ([], [])
  | d :: l =>
      if (DelayedTime d <? now)%Z then
        match l with
        | [] => ([], [d])
        | skipped :: l => let '(kept, due) := delayed_scan now l in (skipped :: kept, d :: due)
        end
      else let '(kept, due) := delayed_scan now l in (d :: kept, due)
  end.

Definition processDelayedEpSlices (now : Z) (s : SvcState) : outcome SvcState :=
  s ← lock s;
  let '(kept, due) := delayed_scan now (delayedEpSlices s) in
  s ← unlock (set_delayed kept s);
  foldl (λ s d,
    s ← s;
    if notReadyEndpointPresent (NewEpSlice d) then Returns s
    else doendpointSliceUpdated (OldEpSlice d) (NewEpSlice d) s) (Returns s) due.

(** ** Services *)

Definition to_service (s : SvcObj) : Service :=
  mkSvc (so_Namespace s) (so_Name s) (so_ClusterIP s)
    ((λ p, mkSvcPort EmptyString (port_Protocol p) (port_Port p) (port_TargetPort p)) <$> so_Ports s)
    (ing_IP <$> so_Ingress s).

Definition serviceAdded (service : SvcObj) (s : SvcState) : outcome SvcState :=
  let key := so_key service in
  let ports := getServiceTargetPorts (to_service service) in
  s ← lock s;
  s ← unlock (update_port_index key ∅ ports (queue_port_policies ports s));
  Returns (queueServiceUpdateByKey key s).

Definition serviceUpdated (oldservice newservice : SvcObj) (s : SvcState) : outcome SvcState :=
  let key := so_key newservice in
  let oldPorts := getServiceTargetPorts (to_service oldservice) in
  let newPorts := getServiceTargetPorts (to_service newservice) in
  s ← (if bool_decide (oldPorts = newPorts) then Returns s
       else
         s ← lock s;
         unlock (queue_port_policies newPorts (update_port_index key oldPorts newPorts (queue_port_policies oldPorts s))));
  Returns (queueServiceUpdateByKey key s).

Definition serviceDeleted (service : SvcObj) (s : SvcState) : outcome SvcState :=
  let key := so_key service in
  let ports := getServiceTargetPorts (to_service service) in
  s ← lock s;
  let s := queue_port_policies ports (update_port_index key ports ∅ s) in
  s ← unlock (set_snat (snatServices s ∖ {[key]}) s);
  Returns (queueServiceUpdateByKey ("DELETED_" ++ key) s).

Definition serviceFullSync (s : SvcState) : SvcState :=
  foldl (λ s service, queueServiceUpdate service s) s (map_to_list (serviceIndexer s)).*2.

(** UpdateServicesForNode of both implementations: services with an endpoint
    on the node. *)
Definition updateServicesForNode (nodename : string) (s : SvcState) : SvcState :=
  if useSlices env then
    let keys := omap (λ sl,
      if existsb (λ e, bool_decide (ep_NodeName e = Some nodename)) (sl_Endpoints sl) then getServiceKey sl else None)
      (endpointSliceIndexer env) in
    svc_emit (QueueService <$> remove_dups keys) s
  else
    let eps := List.filter (λ e,
      existsb (λ a, bool_decide (addr_NodeName a = Some nodename)) (flat_map sub_Addresses (eps_Subsets e)))
      (map_to_list (endpointsIndexer env)).*2 in
    svc_emit ((λ e, QueueService (eps_key e)) <$> eps) s.

(** ** The service queue *)

Definition clear_service (key : string) (s : SvcState) : outcome SvcState :=
  '(i, e, locked) ← clearLbService cfg (mutexLocked s) key (ss_ips s);
  Returns (svc_emit e (set_mutex locked (set_ips i s))).

(** The result says whether the key is queued again. *)
Definition handleServiceDelete (key : string) (s : SvcState) : outcome (bool * SvcState) :=
  if ChainedMode cfg then Returns (false, s)
  else
    s ← clear_service key s;
    Returns (false, svc_emit [SvcClear (svc_aciName cfg "service-vmm" key)] s).

(** The addresses of a load balancer; the object in the store is written to. *)
Definition allocate_ips (key : string) (service : SvcObj) (s : SvcState) : outcome (bool * SvcObj * SvcState) :=
  if AllocateServiceIps cfg then
    r ← allocateServiceIps env (serviceSyncEnabled s) (mutexLocked s) key service (ss_ips s);
    let s := set_mutex (ar_locked r) (set_services (<[key := ar_service r]> (serviceIndexer s)) (set_ips (ar_state r) s)) in
    Returns (ar_requeue r, ar_service r, svc_emit (ar_effects r) s)
  else Returns (false, service, s).

(** The service graph; the result says whether there is an error. *)
Definition update_graph (now : Z) (key : string) (service : SvcObj) (s : SvcState) : outcome (bool * SvcState) :=
  s ← lock s;
  if serviceSyncEnabled s then
    s ← unlock s;
    '(devs, err, e, locked) ← updateServiceDeviceInstance cfg env now (nodeServiceMetaCache s) (delayedEpSlices s)
                                (snatServices s) key service (nodeOpflexDevice (ss_dev s));
    Returns (err, svc_emit e (set_mutex locked (set_devs devs s)))
  else
    s ← unlock s;
    Returns (false, s).

Definition lbTypeAci : string := "aci-nlb".

Definition handleServiceUpdate (now : Z) (service : SvcObj) (s : SvcState) : outcome (bool * SvcState) :=
  let key := so_key service in
  if ChainedMode cfg then Returns (false, s)
  else
    let finish requeue service s := e ← build (writeApicSvc cfg env key service); Returns (requeue, svc_emit e s) in
    if String.eqb (LBType cfg) lbTypeAci then
      if String.eqb (so_Type service) "LoadBalancer" then
        '(requeue, service, s) ← allocate_ips key service s;
        '(err, s) ← update_graph now key service s;
        if (err : bool) then Returns (true, s) else finish requeue service s
      else s ← clear_service key s; finish false service s
    else finish false service s.

(** One item of the service queue, by processQueue of controller.go: the key of
    a removed service carries a prefix, which is cut off with strings.Trim. *)
Definition process_service (now : Z) (key : string) (s : SvcState) : outcome (bool * SvcState) :=
  if String.prefix "DELETED_" key then handleServiceDelete (Trim key "DELETED_") s
  else
    match serviceIndexer s !! key with
    | Some service => handleServiceUpdate now service s
    | None => Returns (false, s)
    end.
End Handlers.
