(* ===== verification/SvcIpsFacts.v ===== *)
(** * SvcIpsFacts: who holds which service address

    A pool and the lists of addresses that the services hold: nothing that is
    held is free, and no two services hold the same address.  The invariant is
    stated once for any pool and used for the static and the dynamic one. *)
From S2P Require Import Prelude GoBytes GoNet GoText GoText6 IpAlloc IpAllocFacts IpCache IpCacheFacts ApicMetadata ApicTypes K8s AciNames.
From S2P Require Import NetPolIndex PodNet PodNetFacts PodNetSys SvcTypes OpflexDev SvcGraph SvcNodes SvcIps.

Open Scope Z_scope.

(** ** Holdings *)

Section Holdings.
Context {P : Type} (pool_ok : P → Prop) (free : P → IP → Prop) (proj : serviceMeta → list IP).

Abbreviation metas := (gmap string serviceMeta).

(** Service [k] holds [l], the others what their entries say. *)
Definition held (m : metas) (k : string) (l : list IP) (k' : string) (ip : IP) : Prop :=
  if decide (k' = k) then ip ∈ l else ∃ e, m !! k' = Some e ∧ ip ∈ proj e.

Record at_ok (p : P) (m : metas) (k : string) (l : list IP) : Prop := {
  at_pool : pool_ok p;
  at_busy : ∀ k' ip, held m k l k' ip → ok 16 ip ∧ ¬ free p ip;
  at_one : ∀ k1 k2 ip, held m k l k1 ip → held m k l k2 ip → k1 = k2;
  at_nodup : NoDup l;
  at_others : ∀ k' e, k' ≠ k → m !! k' = Some e → NoDup (proj e)
}.

(** The invariant of a state. *)
Record all_ok (p : P) (m : metas) : Prop := {
  all_pool : pool_ok p;
  all_busy : ∀ k e ip, m !! k = Some e → ip ∈ proj e → ok 16 ip ∧ ¬ free p ip;
  all_one : ∀ k1 k2 e1 e2 ip, m !! k1 = Some e1 → m !! k2 = Some e2 → ip ∈ proj e1 → ip ∈ proj e2 → k1 = k2;
  all_nodup : ∀ k e, m !! k = Some e → NoDup (proj e)
}.

Lemma held_here m k l ip : ip ∈ l → held m k l k ip.
Proof using Type. intros H. unfold held. by rewrite decide_True. Qed.

Lemma all_at p m k : all_ok p m → at_ok p m k (default [] (proj <$> m !! k)).
Proof using Type.
  intros [A1 A2 A3 A4].
  assert (∀ k' ip, held m k (default [] (proj <$> m !! k)) k' ip → ∃ e, m !! k' = Some e ∧ ip ∈ proj e) as Hh.
  { intros k' ip. unfold held. destruct (decide (k' = k)) as [->|]; [|done]. destruct (m !! k) as [e|]; cbn; [eauto|].
    intros H. by apply elem_of_nil in H. }
  split; [done| | | |intros; eapply A4; eauto].
  - intros k' ip (e&He&Hip)%Hh. by eapply A2.
  - intros k1 k2 ip (e1&H1&I1)%Hh (e2&H2&I2)%Hh. by eapply A3.
  - destruct (m !! k) as [e|] eqn:E; cbn; [by eapply A4|constructor].
Qed.

Lemma at_all p m k l e : at_ok p m k l → proj e = l → all_ok p (<[k := e]> m).
Proof using Type.
  intros [A1 A2 A3 A4 A5] El.
  assert (∀ k' e' ip, <[k := e]> m !! k' = Some e' → ip ∈ proj e' → held m k l k' ip) as Hh.
  { intros k' e' ip. unfold held. destruct (decide (k' = k)) as [->|Hne].
    - rewrite lookup_insert_eq. intros [= <-]. by rewrite El.
    - rewrite lookup_insert_ne by done. eauto. }
  split; [done| | |].
  - intros k' e' ip H1 H2. eapply A2, Hh; eauto.
  - intros k1 k2 e1 e2 ip H1 H2 I1 I2. eapply A3; eapply Hh; eauto.
  - intros k' e'. destruct (decide (k' = k)) as [->|Hne].
    + rewrite lookup_insert_eq. intros [= <-]. by rewrite El.
    + rewrite lookup_insert_ne by done. by apply A5.
Qed.

Lemma at_drop p m k l : at_ok p m k l → all_ok p (delete k m).
Proof using Type.
  intros [A1 A2 A3 A4 A5].
  assert (∀ k' e', delete k m !! k' = Some e' → k' ≠ k ∧ m !! k' = Some e') as Hd.
  { intros k' e' H. apply lookup_delete_Some in H as [? ?]. done. }
  assert (∀ k' e' ip, delete k m !! k' = Some e' → ip ∈ proj e' → held m k l k' ip) as Hh.
  { intros k' e' ip [Hne H]%Hd Hip. unfold held. rewrite decide_False by done. eauto. }
  split; [done| | |].
  - intros k' e' ip H1 H2. eapply A2, Hh; eauto.
  - intros k1 k2 e1 e2 ip H1 H2 I1 I2. eapply A3; eapply Hh; eauto.
  - intros k' e' [Hne H]%Hd. by eapply A5.
Qed.

Lemma at_subset p m k l l' : at_ok p m k l → NoDup l' → (∀ ip, ip ∈ l' → ip ∈ l) → at_ok p m k l'.
Proof using Type.
  intros [A1 A2 A3 A4 A5] Hnd Hsub.
  assert (∀ k' ip, held m k l' k' ip → held m k l k' ip) as Hh.
  { intros k' ip. unfold held. destruct (decide (k' = k)); auto. }
  split; eauto.
Qed.

(** Other entries do not matter for the entry in question. *)
Lemma at_insert p m k l e : at_ok p m k l → at_ok p (<[k := e]> m) k l.
Proof using Type.
  intros [A1 A2 A3 A4 A5].
  assert (∀ k' ip, held (<[k := e]> m) k l k' ip → held m k l k' ip) as Hh.
  { intros k' ip. unfold held. destruct (decide (k' = k)) as [|Hne]; [done|]. by rewrite lookup_insert_ne. }
  split; eauto. intros k' e' Hne. rewrite lookup_insert_ne by done. by apply A5.
Qed.

Lemma at_take p p' m k l ip :
  at_ok p m k l → pool_ok p' → ok 16 ip → free p ip → (∀ x, free p' x ↔ free p x ∧ x ≠ ip) → at_ok p' m k (l ++ [ip])%list.
Proof using Type.
  intros [A1 A2 A3 A4 A5] Hp Hok Hfr Hf.
  assert (∀ k' x, held m k (l ++ [ip])%list k' x → held m k l k' x ∨ k' = k ∧ x = ip) as Hh.
  { intros k' x. unfold held. destruct (decide (k' = k)); [|by left]. rewrite elem_of_app, list_elem_of_singleton. tauto. }
  split; [done| | | |done].
  - intros k' x [H|[_ ->]]%Hh; [|split; [done|rewrite Hf; tauto]]. destruct (A2 _ _ H) as [? Hn]. split; [done|]. rewrite Hf. tauto.
  - intros k1 k2 x [H1|[E1 X1]]%Hh [H2|[E2 X2]]%Hh; [by eapply A3| | |congruence]; subst x.
    + by destruct (A2 _ _ H1).
    + by destruct (A2 _ _ H2).
  - apply NoDup_app. split; [done|]. split; [|apply NoDup_singleton]. intros x Hx Hx'. apply list_elem_of_singleton in Hx'. subst x.
    by destruct (A2 k ip (held_here m k l ip Hx)).
Qed.

Lemma at_same p p' m k l : at_ok p m k l → pool_ok p' → (∀ x, free p' x → free p x) → at_ok p' m k l.
Proof using Type. intros [A1 A2 A3 A4 A5] Hp Hf. split; [done| |done..]. intros k' x H. destruct (A2 _ _ H). eauto. Qed.

Lemma at_give p p' m k l l' ip :
  at_ok p m k l → ip ∈ l → NoDup l' → (∀ x, x ∈ l' → x ∈ l ∧ x ≠ ip) →
  pool_ok p' → (∀ x, free p' x ↔ free p x ∨ x = ip) → at_ok p' m k l'.
Proof using Type.
  intros [A1 A2 A3 A4 A5] Hin Hnd Hsub Hp Hf.
  assert (∀ k' x, held m k l' k' x → held m k l k' x ∧ x ≠ ip) as Hh.
  { intros k' x H. assert (held m k l k' x) as Hl.
    { unfold held in *. destruct (decide (k' = k)); [|done]. by apply Hsub. }
    split; [done|]. intros ->. pose proof (A3 _ _ _ Hl (held_here m k l ip Hin)) as ->.
    unfold held in H. rewrite decide_True in H by done. apply Hsub in H as [_ H]. done. }
  split; [done| | |done|done].
  - intros k' x [H Hne]%Hh. destruct (A2 _ _ H) as [? Hn]. split; [done|]. rewrite Hf. naive_solver.
  - intros k1 k2 x [H1 _]%Hh [H2 _]%Hh. by eapply A3.
Qed.

(** Giving a whole list back. *)
Lemma at_give_list (give : P → IP → P) p m k l :
  (∀ p ip, pool_ok p → ok 16 ip → ¬ free p ip → pool_ok (give p ip) ∧ ∀ x, free (give p ip) x ↔ free p x ∨ x = ip) →
  at_ok p m k l → at_ok (foldl give p l) m k [].
Proof using Type.
  intros Hg. revert p. induction l as [|ip l IH]; intros p A; [done|]. cbn [foldl]. apply IH.
  destruct (at_busy _ _ _ _ A k ip) as [Hok Hn]; [apply held_here, list_elem_of_here|].
  destruct (Hg p ip (at_pool _ _ _ _ A) Hok Hn) as [Hp Hf].
  pose proof (at_nodup _ _ _ _ A) as [Hnin Hnd]%NoDup_cons.
  eapply at_give; [exact A|apply list_elem_of_here|done| |exact Hp|exact Hf].
  intros x Hx. split; [by apply list_elem_of_further|]. by intros ->.
Qed.
End Holdings.

(** ** The static pool *)

Definition sfree (p : netIps) (ip : IP) : Prop :=
  ok 16 ip ∧ members (FreeList (if is_v4 ip then p4 p else p6 p)) (val ip).

Lemma is_To4_v4 ip : is_To4 ip = is_v4 ip.
Proof. unfold is_To4, is_v4. by destruct (To4 ip). Qed.
Lemma is_To16_ok ip : ok 16 ip → is_To16 ip = true.
Proof. intros [H _]. unfold is_To16, To16. rewrite H. done. Qed.

Lemma take_static_ok v4 ip s :
  pools_ok (staticServiceIps s) → ok 16 ip →
  let '(found, s') := take_static v4 ip s in
  serviceIps s' = serviceIps s ∧ serviceMetaCache s' = serviceMetaCache s ∧ pools_ok (staticServiceIps s') ∧
  if (found : bool) then sfree (staticServiceIps s) ip ∧ ∀ x, sfree (staticServiceIps s') x ↔ sfree (staticServiceIps s) x ∧ x ≠ ip
  else (∀ x, sfree (staticServiceIps s') x → sfree (staticServiceIps s) x) ∧ (is_v4 ip = v4 → ¬ sfree (staticServiceIps s) ip).
Proof.
  intros [S4 S6 F4 F6] Hok. unfold take_static. set (p := staticServiceIps s) in *.
  assert (sfl 16 (FreeList (if v4 then p4 p else p6 p))) as Hs by (by destruct v4).
  pose proof (RemoveIp_one 16 _ ip Hs Hok) as H. destruct (IpAlloc.RemoveIp _ ip) as [q found]. destruct H as (H1&H2&H3).
  cbn [set_static staticServiceIps serviceIps serviceMetaCache]. split; [done|]. split; [done|].
  set (p' := if v4 then mkPools q (p6 p) else mkPools (p4 p) q).
  assert (pools_ok p') as Hp'.
  { unfold p'. destruct v4; split; cbn; try done; intros x Hx; [apply F4|apply F6]; by apply H2. }
  split; [done|].
  assert (∀ x, sfree p' x ↔ sfree p x ∧ (is_v4 x = v4 → x ≠ ip)) as Hf.
  { intros x. unfold sfree, p'. destruct v4; destruct (is_v4 x) eqn:Ex; cbn [p4 p6]; rewrite ?H2;
      (split; [intros [Hx Hm]|intros [[Hx Hm] Hn]]);
      try (split; [by split|done]); try (split; [done|]; try done);
      try (destruct Hm as [Hm Hv]; split; [by split|]; intros _ ->; done);
      try (split; [done|]; intros Hv; apply Hn; [done|]; by apply (val_inj 16)). }
  destruct found.
  - assert (members (FreeList (if v4 then p4 p else p6 p)) (val ip)) as Hm by (by apply H3).
    assert (is_v4 ip = v4) as Ev.
    { destruct v4; [apply F4 in Hm; by apply is_v4_mapped|apply F6 in Hm].
      destruct (is_v4 ip) eqn:E; [|done]. exfalso. apply Hm. by apply is_v4_mapped. }
    split; [split; [done|]; by rewrite Ev; destruct v4|]. intros x. rewrite Hf. split; [|tauto].
    intros [Hx Hn]. split; [done|]. intros ->. by apply Hn.
  - split; [intros x Hx%Hf; tauto|]. intros Ev [_ Hm]. rewrite Ev in Hm. assert (false = true) by (apply H3; by destruct v4). done.
Qed.

Lemma returnIp_ok p ip :
  pools_ok p → ok 16 ip → ¬ sfree p ip → pools_ok (returnIp p ip) ∧ ∀ x, sfree (returnIp p ip) x ↔ sfree p x ∨ x = ip.
Proof.
  intros [S4 S6 F4 F6] Hok Hn. unfold returnIp. rewrite is_To4_v4, is_To16_ok by done.
  assert (∀ a, sfl 16 (FreeList a) → ¬ members (FreeList a) (val ip) →
    sfl 16 (FreeList (AddIp a ip)) ∧ ∀ x, members (FreeList (AddIp a ip)) x ↔ members (FreeList a) x ∨ x = val ip) as Hadd.
  { intros a Ha Hna. unfold AddIp. destruct (AddRange_ok 16 a ip ip) as [_ Hm]; [by apply sfl_wfl|done|done|]. split.
    - apply AddRange_disjoint; [done..|]. intros x Hx. by assert (x = val ip) as -> by lia.
    - intros x. rewrite Hm. assert (val ip <= x <= val ip ↔ x = val ip) as -> by lia. done. }
  assert (∀ x, ok 16 x → val x = val ip ↔ x = ip) as Hinj.
  { intros x Hx. split; [|by intros ->]. by apply (val_inj 16). }
  destruct (is_v4 ip) eqn:Ev.
  - destruct (Hadd (p4 p) S4) as [Hs Hm]; [intros Hm; apply Hn; split; [done|by rewrite Ev]|]. split.
    + split; cbn; try done. intros x [Hx| ->]%Hm; [by apply F4|]. by apply is_v4_mapped.
    + intros x. unfold sfree. cbn [p4 p6]. destruct (is_v4 x) eqn:Ex.
      * rewrite Hm. split; [intros [Hx [?|E]]; [by left|right; by apply Hinj]|intros [[? ?]| ->]; [auto|split; auto]].
      * split; [by left|]. intros [?| ->]; [done|]. congruence.
  - destruct (Hadd (p6 p) S6) as [Hs Hm]; [intros Hm; apply Hn; split; [done|by rewrite Ev]|]. split.
    + split; cbn; try done. intros x [Hx| ->]%Hm; [by apply F6|]. intros Hv. apply is_v4_mapped in Hv; [|done]. congruence.
    + intros x. unfold sfree. cbn [p4 p6]. destruct (is_v4 x) eqn:Ex.
      * split; [by left|]. intros [?| ->]; [done|]. congruence.
      * rewrite Hm. split; [intros [Hx [?|E]]; [by left|right; by apply Hinj]|intros [[? ?]| ->]; [auto|split; auto]].
Qed.

(** ** The static addresses of services *)

(** Every handler keeps the invariant of the static pool: an address that a
    service has in [staticIngressIps] is not free and belongs to no other
    service. *)

Abbreviation static_at s k l := (at_ok pools_ok sfree staticIngressIps (staticServiceIps s) (serviceMetaCache s) k l).
Abbreviation static_all s := (all_ok pools_ok sfree staticIngressIps (staticServiceIps s) (serviceMetaCache s)).

Lemma static_take v4 k l ip s :
  static_at s k l → ok 16 ip →
  let '(found, s') := take_static v4 ip s in
  static_at s' k (if (found : bool) then l ++ [ip] else l)%list ∧ serviceMetaCache s' = serviceMetaCache s ∧
  (found = true → ip ∉ l).
Proof.
  intros A Hok. pose proof (take_static_ok v4 ip s (at_pool _ _ _ _ _ _ _ A) Hok) as H.
  destruct (take_static v4 ip s) as [found s']. destruct H as (_&Em&Hp&H). rewrite Em. destruct found.
  - destruct H as [Hf Hx]. split; [by eapply at_take|]. split; [done|]. intros _ Hin.
    by destruct (at_busy _ _ _ _ _ _ _ A k ip) as [_ Hn]; [apply held_here|].
  - destruct H as [Hx _]. split; [by eapply at_same|done].
Qed.

Lemma static_return_list k l s : static_at s k l → static_at (returnStatic l s) k [].
Proof. intros A. apply (at_give_list pools_ok sfree staticIngressIps returnIp); [apply returnIp_ok|done]. Qed.

(** ** The first sight of a service *)

Lemma adopt_static k meta s ip :
  static_at s k (staticIngressIps meta) → ok 16 ip →
  post (adopt_ip (meta, s) ip) (λ '(meta', s'),
    static_at s' k (staticIngressIps meta') ∧ serviceMetaCache s' = serviceMetaCache s).
Proof.
  intros A Hok. unfold adopt_ip. rewrite is_To16_ok by done.
  match goal with |- post _ ?Q => assert (∀ v4, post (adopt_family v4 meta s ip) Q) as H; [|by destruct (is_To4 ip)] end.
  intros v4. apply post_bind. unfold take_dynamic. destruct (if v4 then _ else _) as [|pool lists]; [done|].
  destruct (IpAlloc.RemoveIp _ ip) as [ipa found]. apply post_ret. destruct found; [by apply post_ret|].
  match goal with |- context [take_static v4 ip ?t] => set (s1 := t) end.
  assert (static_at s1 k (staticIngressIps meta)) as A1 by exact A. pose proof (static_take v4 k _ ip s1 A1 Hok) as H.
  destruct (take_static v4 ip s1) as [found s2]. destruct H as (H&E&_). apply post_ret. by destruct found.
Qed.

Lemma adopt_all_static k ips meta s :
  static_at s k (staticIngressIps meta) → Forall (ok 16) ips →
  post (foldO adopt_ip (meta, s) ips) (λ '(meta', s'),
    static_at s' k (staticIngressIps meta') ∧ serviceMetaCache s' = serviceMetaCache s).
Proof.
  intros A Hf. rewrite Forall_forall in Hf. apply foldO_post; [by split|]. intros [m1 s1] ip Hip [A1 E1] [m2 s2] E.
  destruct (adopt_static k m1 s1 ip A1 (Hf ip Hip) _ E) as [A2 E2]. split; [done|congruence].
Qed.

Lemma parsed_ok {A} (f : A → string) l : Forall (ok 16) (omap (λ i, ParseIP (f i)) l).
Proof. apply Forall_forall. intros ip (i&_&E)%list_elem_of_omap. by apply ParseIP_ok in E. Qed.

Lemma find_meta_static k service s :
  static_all s → post (find_meta k service s) (λ '(meta, s'),
    static_at s' k (staticIngressIps meta) ∧ serviceMetaCache s' !! k = Some meta).
Proof.
  intros A. pose proof (all_at _ _ _ _ _ k A) as A'. unfold find_meta.
  destruct (serviceMetaCache s !! k) as [meta|] eqn:E; [by apply post_ret|]. cbn in A'. apply post_bind. intros [meta s1] Ef.
  destruct (adopt_all_static k (omap (λ i, ParseIP (ing_IP i)) (so_Ingress service)) no_meta s A' (parsed_ok ing_IP _) _ Ef) as [A1 E1].
  apply post_ret. cbn [set_meta serviceMetaCache staticServiceIps]. split; [by apply at_insert|]. by rewrite lookup_insert_eq.
Qed.

(** The entry in the table is the one at hand. *)
Lemma static_at_all s k meta : static_at s k (staticIngressIps meta) → serviceMetaCache s !! k = Some meta → static_all s.
Proof. intros A E. pose proof (at_all _ _ _ _ _ _ _ meta A eq_refl) as H. by rewrite insert_id in H. Qed.

(** ** Requests *)

(** After some requests the service holds its static addresses and those it
    got; the table is still [m]. *)
Definition holding (k : string) (st got : list IP) (m : gmap string serviceMeta) (s : IpState) : Prop :=
  serviceMetaCache s = m ∧ ∃ l, static_at s k l ∧ (∀ ip, ip ∈ st → ip ∈ l) ∧ (∀ ip, ip ∈ got → ip ∈ l).

Lemma holding_take v4 k st got m s ip :
  holding k st got m s → ok 16 ip →
  let '(found, s') := take_static v4 ip s in holding k st (if (found : bool) then got ++ [ip] else got)%list m s'.
Proof.
  intros (Em&l&A&Hst&Hgot) Hip. pose proof (static_take v4 k l ip s A Hip) as H. destruct (take_static v4 ip s) as [found s'].
  destruct H as (H&E&_). split; [by rewrite E|]. destruct found; [|by exists l].
  exists (l ++ [ip])%list. split; [done|]. split.
  - intros x Hx. apply elem_of_app. left. auto.
  - intros x. rewrite !elem_of_app. intros [Hx|Hx]; [left; auto|by right].
Qed.

Lemma holding_request k st got m s ip :
  holding k st got m s → ok 16 ip →
  let '(got', s') := request_ip st (got, s) ip in
  holding k st got' m s' ∧ (got' = got ∨ got' = (got ++ [ip])%list).
Proof.
  intros Hh Hip. unfold request_ip. rewrite is_To16_ok by done. case_bool_decide as Hin.
  { split; [|by right]. destruct Hh as (Em&l&A&Hst&Hgot). split; [done|]. exists l. split_and!; [done|done|].
    intros x [Hx|Hx]%elem_of_app; [auto|]. apply list_elem_of_singleton in Hx as ->. auto. }
  assert (Hsix : ∀ s0, holding k st got m s0 →
    let '(got', s') := let '(found, s) := take_static false ip s0 in (if found then (got ++ [ip])%list else got, s) in
    holding k st got' m s' ∧ (got' = got ∨ got' = (got ++ [ip])%list)).
  { intros s0 H0. pose proof (holding_take false k st got m s0 ip H0 Hip) as H. destruct (take_static false ip s0) as [found s1].
    split; [by destruct found|]. destruct found; auto. }
  destruct (is_To4 ip); [|by apply Hsix].
  pose proof (holding_take true k st got m s ip Hh Hip) as H. destruct (take_static true ip s) as [[|] s1]; [|by apply Hsix].
  split; [done|by right].
Qed.

Lemma holding_requests k st got ips m s :
  holding k st got m s → Forall (ok 16) ips → NoDup (got ++ ips)%list →
  let '(got', s') := foldl (request_ip st) (got, s) ips in holding k st got' m s' ∧ NoDup got'.
Proof.
  revert got s. induction ips as [|ip ips IH]; intros got s Hh Hf Hnd; [by rewrite app_nil_r in Hnd|].
  apply Forall_cons in Hf as [Hip Hf]. cbn [foldl].
  pose proof (holding_request k st got m s ip Hh Hip) as H. destruct (request_ip st (got, s) ip) as [got1 s1].
  destruct H as [H1 Hg]. apply IH; [done|done|]. destruct Hg as [->| ->]; [|by rewrite <- app_assoc].
  apply NoDup_app in Hnd as (N1&N2&[_ N3]%NoDup_cons). apply NoDup_app. split_and!; [done| |done].
  intros x Hx Hx'. apply (N2 x Hx). by apply list_elem_of_further.
Qed.

Lemma IP_Equal_16 a b : ok 16 a → ok 16 b → IP_Equal a b = bool_decide (a = b).
Proof. intros [Ha _] [Hb _]. unfold IP_Equal. by rewrite Ha, Hb. Qed.

Lemma existsb_Equal ip l : ok 16 ip → Forall (ok 16) l → existsb (λ r, IP_Equal r ip) l = bool_decide (ip ∈ l).
Proof.
  intros Hip. induction l as [|x l IH]; intros Hf; cbn [existsb].
  - symmetry. apply bool_decide_eq_false. apply not_elem_of_nil.
  - apply Forall_cons in Hf as [Hx Hf]. rewrite IH, IP_Equal_16 by done. apply Bool.eq_iff_eq_true.
    rewrite orb_true_iff, !bool_decide_eq_true, elem_of_cons. naive_solver.
Qed.

(** What is held and not asked for goes back. *)
Lemma return_unused_static k st got s l :
  static_at s k l → NoDup got → NoDup st → (∀ ip, ip ∈ st → ip ∉ got → ip ∈ l) → (∀ ip, ip ∈ got → ip ∈ l) →
  let s' := returnUnusedStaticIngressIps st got s in
  static_at s' k got ∧ serviceMetaCache s' = serviceMetaCache s ∧ serviceIps s' = serviceIps s.
Proof.
  intros A Hnd. unfold returnUnusedStaticIngressIps. revert s l A. induction st as [|ip st IH]; intros s l A Hst Hl Hgot; cbn.
  { split; [|done]. by eapply at_subset. }
  apply NoDup_cons in Hst as [Hnin Hst].
  assert (Forall (ok 16) got) as Hf.
  { apply Forall_forall. intros x Hx. apply (at_busy _ _ _ _ _ _ _ A k), held_here. auto. }
  destruct (decide (ip ∈ got)) as [Hin|Hout].
  - rewrite existsb_Equal; [|by eapply Forall_forall in Hf|done]. rewrite bool_decide_true by done.
    apply (IH s l); [done|done| |done]. intros x Hx. apply Hl. by apply list_elem_of_further.
  - assert (ip ∈ l) as Hipl by (apply Hl; [apply list_elem_of_here|done]).
    destruct (at_busy _ _ _ _ _ _ _ A k ip) as [Hok Hnf]; [by apply held_here|].
    rewrite existsb_Equal by done. rewrite bool_decide_false by done.
    destruct (returnIp_ok (staticServiceIps s) ip (at_pool _ _ _ _ _ _ _ A) Hok Hnf) as [Hp Hfr].
    apply (IH (returnStatic [ip] s) (List.filter (λ x, negb (bool_decide (x = ip))) l)); [|done| |].
    + eapply (at_give _ _ _ _ _ _ _ l _ ip); [exact A|done| | |exact Hp|exact Hfr].
      * apply NoDup_ListNoDup, List.NoDup_filter, NoDup_ListNoDup. apply A.
      * intros x. rewrite list_elem_of_In, List.filter_In, negb_true_iff, bool_decide_eq_false, <- list_elem_of_In. done.
    + intros x Hx Hg. rewrite list_elem_of_In, List.filter_In, negb_true_iff, bool_decide_eq_false, <- list_elem_of_In.
      split; [apply Hl; [by apply list_elem_of_further|done]|]. by intros ->.
    + intros x Hg. rewrite list_elem_of_In, List.filter_In, negb_true_iff, bool_decide_eq_false, <- list_elem_of_In.
      split; [by apply Hgot|]. by intros ->.
Qed.

Lemma apply_requests_static k reqs meta s :
  static_at s k (staticIngressIps meta) → Forall (ok 16) reqs → NoDup reqs →
  let '(meta', s') := apply_requests reqs meta s in
  static_at s' k (staticIngressIps meta') ∧ serviceMetaCache s' = serviceMetaCache s.
Proof.
  intros A Hf Hnd. unfold apply_requests. destruct (0 <? length reqs)%nat.
  - assert (holding k (staticIngressIps meta) [] (serviceMetaCache s) s) as Hh.
    { split; [done|]. exists (staticIngressIps meta). split_and!; [done|done|]. intros x Hx. by apply elem_of_nil in Hx. }
    pose proof (holding_requests k _ [] reqs _ s Hh Hf Hnd) as H. destruct (foldl _ ([], s) reqs) as [got s1].
    destruct H as [(E1&l&A1&Hst&Hgot) Hg].
    pose proof (return_unused_static k (staticIngressIps meta) got s1 l A1 Hg (at_nodup _ _ _ _ _ _ _ A) (λ ip H _, Hst ip H) Hgot) as H.
    cbn zeta in H. destruct H as (A2&E2&_). cbn [staticIngressIps]. split; [exact A2|]. cbn. by rewrite E2.
  - destruct (0 <? length (requestedIps meta))%nat; [|done]. split; [|done]. cbn. by apply static_return_list.
Qed.

Lemma validate_ok ipv4 ipv6 l a b :
  (ipv4 = [] ∨ ok 16 ipv4 ∧ is_v4 ipv4 = true) → (ipv6 = [] ∨ ok 16 ipv6 ∧ is_v4 ipv6 = false) →
  validateRequestedIps ipv4 ipv6 l = Some (a, b) →
  (a = [] ∨ ok 16 a ∧ is_v4 a = true) ∧ (b = [] ∨ ok 16 b ∧ is_v4 b = false).
Proof.
  revert ipv4 ipv6. induction l as [|s l IH]; intros ipv4 ipv6 H4 H6; cbn; [by intros [= <- <-]|].
  destruct (ParseIP s) as [ip|] eqn:E; [|by apply IH]. apply ParseIP_ok in E. rewrite is_To16_ok by done.
  rewrite is_To4_v4. destruct (is_v4 ip) eqn:Ev.
  - destruct (length ipv4 =? 0)%nat; [|done]. apply IH; [by right|done].
  - destruct (length ipv6 =? 0)%nat; [|done]. apply IH; [done|by right].
Qed.

Lemma requested_ok service reqs : requested service = Some reqs → Forall (ok 16) reqs ∧ NoDup reqs.
Proof.
  unfold requested. destruct (so_Annotations service !! LbIpAnnotation) as [t|].
  - destruct (validateRequestedIps [] [] _) as [[a b]|] eqn:E; [|done]. cbn [mbind option_bind]. intros [= <-].
    apply validate_ok in E as [Ha Hb]; [|by left|by left]. unfold non_nil.
    destruct Ha as [->|[Ha Va]], Hb as [->|[Hb Vb]]; cbn [length Nat.eqb app].
    + split; constructor.
    + destruct b as [|x b]; [by destruct Hb|]. cbn. split; [by apply Forall_singleton|apply NoDup_singleton].
    + destruct a as [|x a]; [by destruct Ha|]. cbn. split; [by apply Forall_singleton|apply NoDup_singleton].
    + destruct a as [|x a], b as [|y b]; [by destruct Ha|by destruct Ha|by destruct Hb|]. cbn. split; [apply Forall_cons; split; [done|by apply Forall_singleton]|].
      apply NoDup_cons. split; [|apply NoDup_singleton]. intros H%list_elem_of_singleton. rewrite H in Va. congruence.
  - intros [= <-]. destruct (ParseIP (so_LoadBalancerIP service)) as [ip|] eqn:E; cbn; [|split; constructor].
    apply ParseIP_ok in E. split; [by apply Forall_singleton|apply NoDup_singleton].
Qed.

(** ** The handlers *)

Lemma fit_family_static v4 cl ip reqs ips s :
  let '(_, _, s') := fit_family v4 cl ip reqs ips s in
  staticServiceIps s' = staticServiceIps s ∧ serviceMetaCache s' = serviceMetaCache s.
Proof.
  unfold fit_family, removeIpFromIngressIPList. destruct (negb _ && nil_ip ip).
  - destruct (length reqs <? 1)%nat; [|done]. destruct (AllocateIp _ v4) as [c [x|]]; done.
  - by destruct (nil_ip cl && _).
Qed.

Lemma publish_state env locked service reqs ips s :
  ar_state (publish env locked service reqs ips s) = s ∧ ar_locked (publish env locked service reqs ips s) = locked.
Proof.
  unfold publish. cbv zeta. destruct (_ && negb (statusAccepted env _)); [done|].
  destruct (_ && negb (_ =? _)%nat); by destruct (updateServiceCondition _ _ _ _ _) as [[? ?] ?].
Qed.

Lemma unlock_return_post locked b sv s e (Q : IpState → Prop) :
  Q s → post (unlock_return locked b sv s e) (λ r, Q (ar_state r)).
Proof. intros H. unfold unlock_return. destruct locked; [by apply post_ret|done]. Qed.

Lemma allocateServiceIps_static env sync locked k service s :
  static_all s → post (allocateServiceIps env sync locked k service s) (λ r, static_all (ar_state r)).
Proof.
  intros A. apply post_bind. intros l _. apply post_bind. intros [meta s1] Ef.
  destruct (find_meta_static k service s A _ Ef) as [A1 E1]. clear Ef.
  pose proof (static_at_all s1 k meta A1 E1) as A1'. destruct sync; cbn [negb]; [|by apply (unlock_return_post _ _ _ _ _ (λ s, static_all s))].
  destruct (requested service) as [reqs|] eqn:Er;
    [|destruct (updateServiceCondition _ _ _ _ _) as [[? []] ?]; by apply (unlock_return_post _ _ _ _ _ (λ s, static_all s))].
  apply requested_ok in Er as [Hf Hnd]. pose proof (apply_requests_static k reqs meta s1 A1 Hf Hnd) as H.
  destruct (apply_requests reqs meta s1) as [meta2 s2]. destruct H as [A2 E2]. rewrite E2 in A2.
  destruct (_ && _).
  { assert (static_all (set_meta k meta2 s2)) as A3 by (cbn; rewrite E2; by eapply at_all).
    destruct (updateServiceCondition _ _ _ _ _) as [[? []] ?]; by apply (unlock_return_post _ _ _ _ _ (λ s, static_all s)). }
  destruct (last_ips _) as [ipv4 ipv6]. destruct (cluster_ips service) as [c4 c6].
  pose proof (fit_family_static true c4 ipv4 reqs (ingressIps meta2 ++ staticIngressIps meta2) s2) as F4.
  destruct (fit_family true c4 ipv4 reqs _ s2) as [[x4 l4] s3]. destruct F4 as [F4 G4].
  pose proof (fit_family_static false c6 ipv6 reqs l4 s3) as F6.
  destruct (fit_family false c6 ipv6 reqs l4 s3) as [[x6 l6] s4]. destruct F6 as [F6 G6].
  assert (static_all (set_meta k (mkMeta (requestedIps meta2) l6 (staticIngressIps meta2)) s4)) as A4.
  { cbn. rewrite G6, G4, F6, F4, E2. by eapply at_all. }
  destruct (nil_ip x4 && nil_ip x6); [by apply (unlock_return_post _ _ _ _ _ (λ s, static_all s))|].
  apply post_bind. intros l' _. apply post_ret. by rewrite (proj1 (publish_state _ _ _ _ _ _)).
Qed.

Lemma clear_meta_static k s : static_all s → static_all (clear_meta k s).
Proof.
  intros A. unfold clear_meta. destruct (serviceMetaCache s !! k) as [meta|] eqn:E; [|done].
  pose proof (all_at _ _ _ _ _ k A) as A1. rewrite E in A1. cbn in A1.
  eapply at_drop. exact (static_return_list k (staticIngressIps meta) (returnServiceIps (ingressIps meta) s) A1).
Qed.

(** Steps of the handlers on the addresses. *)
Inductive ip_step (cfg : SvcCfg) : IpState → IpState → Prop :=
  | ip_alloc env sync locked k service s r :
      allocateServiceIps env sync locked k service s = Returns r → ip_step cfg s (ar_state r)
  | ip_clear locked k s s' e locked' :
      clearLbService cfg locked k s = Returns (s', e, locked') → ip_step cfg s s'.

Lemma clearLbService_meta cfg locked k s s' e locked' :
  clearLbService cfg locked k s = Returns (s', e, locked') → s' = clear_meta k s ∧ locked' = false.
Proof. unfold clearLbService. destruct locked; [discriminate|]. cbn. by intros [= <- _ <-]. Qed.

(** The configured ranges of a pool: readable, apart and of one family each. *)
Definition ranges_fine (rs : list IpRange) : Prop :=
  Forall (range_ok 16) rs ∧ StronglySorted apart rs ∧
  Forall (λ r, is_v4 (Start r) = true ∧ is_v4 (End_ r) = true ∨ hi r < 65535 * 2 ^ 32 ∨ 65536 * 2 ^ 32 <= lo r) rs.

Lemma init_static cfg : ranges_fine (StaticServiceIpPool cfg) → static_all (initServiceIps cfg).
Proof.
  intros (H1&H2&H3). split.
  - apply loadIpRanges_ok; [apply newNetIps_ok|done..|]. intros r x _. cbn. rewrite members_nil. tauto.
  - intros k e ip H. cbn in H. by rewrite lookup_empty in H.
  - intros k1 k2 e1 e2 ip H. cbn in H. by rewrite lookup_empty in H.
  - intros k e H. cbn in H. by rewrite lookup_empty in H.
Qed.

Lemma static_reach cfg s :
  ranges_fine (StaticServiceIpPool cfg) → rtc (ip_step cfg) (initServiceIps cfg) s → static_all s.
Proof.
  intros Hc Hr. pose proof (init_static cfg Hc) as H0. induction Hr as [|s1 s2 s3 Hs _ IH]; [done|]. apply IH.
  destruct Hs as [env sync locked k service s1 r E|locked k s1 s2 e locked' [-> _]%clearLbService_meta];
    [by eapply allocateServiceIps_static|by apply clear_meta_static].
Qed.
