(* ===== verification/SvcDynamic.v ===== *)
(** * SvcDynamic: the dynamic addresses of services

    Without a static pool, and as long as no service carries an annotation
    that is not valid, the handlers keep the invariant of the dynamic pool: an
    address of a service is not free and belongs to no other service. *)
From S2P Require Import Prelude GoBytes GoNet GoText GoText6 IpAlloc IpAllocFacts IpCache IpCacheFacts ApicMetadata ApicTypes K8s AciNames.
From S2P Require Import NetPolIndex PodNet PodNetFacts PodNetSys SvcTypes OpflexDev SvcGraph SvcNodes SvcIps SvcIpsFacts.

Open Scope Z_scope.

Abbreviation dfree := (cache_free 16 16).
Abbreviation dyn_at s k l := (at_ok (cache_inv 16 16) dfree ingressIps (serviceIps s) (serviceMetaCache s) k l).
Abbreviation dyn_all s := (all_ok (cache_inv 16 16) dfree ingressIps (serviceIps s) (serviceMetaCache s)).

Lemma cache_valid_16 ip : cache_valid 16 16 ip ↔ ok 16 ip.
Proof. unfold cache_valid. by destruct (is_v4 ip). Qed.

(** ** The pool *)

Lemma take_first_ok v4 lists ip :
  family_inv 16 v4 lists → ok 16 ip →
  let '(ipa, found) := IpAlloc.RemoveIp (lists !!! 0%nat) ip in
  family_inv 16 v4 (<[0%nat := ipa]> lists) ∧
  if (found : bool) then family_free lists (val ip) ∧ ∀ x, family_free (<[0%nat := ipa]> lists) x ↔ family_free lists x ∧ x ≠ val ip
  else ∀ x, family_free (<[0%nat := ipa]> lists) x → family_free lists x.
Proof.
  intros (a&b&->&Ha&Hb&Hd&Hv) Hok. cbn [lookup_total list_lookup_total]. cbn.
  pose proof (RemoveIp_one 16 a ip Ha Hok) as H. destruct (IpAlloc.RemoveIp a ip) as [ipa found]. destruct H as (H1&H2&H3). split.
  - exists ipa, b. split_and!; [done|done|done| |].
    + intros x [Hx _]%H2 Hx'. by apply (Hd x).
    + intros y Hy [[Hm _]%H2|Hm]; [apply Hv; auto|apply Hv; auto].
  - destruct found.
    + assert (members (FreeList a) (val ip)) as Hm by (by apply H3). split; [apply family_free_pair; by left|].
      intros x. rewrite !family_free_pair, H2. split; [|tauto]. intros [[? ?]|Hx]; [auto|]. split; [auto|].
      intros ->. by apply (Hd (val ip)).
    + intros x. rewrite !family_free_pair, H2. tauto.
Qed.

Lemma take_dynamic_ok v4 ip s :
  cache_inv 16 16 (serviceIps s) → ok 16 ip → is_v4 ip = v4 →
  post (take_dynamic v4 ip s) (λ '(found, s'),
    staticServiceIps s' = staticServiceIps s ∧ serviceMetaCache s' = serviceMetaCache s ∧ cache_inv 16 16 (serviceIps s') ∧
    if (found : bool) then dfree (serviceIps s) ip ∧ ∀ x, dfree (serviceIps s') x ↔ dfree (serviceIps s) x ∧ x ≠ ip
    else ∀ x, dfree (serviceIps s') x → dfree (serviceIps s) x).
Proof.
  intros [H4 H6] Hok Hv. unfold take_dynamic. set (c := serviceIps s) in *.
  assert (family_inv 16 v4 (if v4 then cacheIpsV4 c else cacheIpsV6 c)) as Hi by (by destruct v4).
  pose proof (take_first_ok v4 _ ip Hi Hok) as H. destruct (if v4 then cacheIpsV4 c else cacheIpsV6 c) as [|pool lists] eqn:El; [done|].
  cbn [lookup_total list_lookup_total] in H. cbn in H.
  destruct (IpAlloc.RemoveIp pool ip) as [ipa found]. destruct H as [Hi' H]. rewrite <- El in H. apply post_ret.
  cbn [set_cache serviceIps staticServiceIps serviceMetaCache]. split; [done|]. split; [done|].
  split; [destruct v4; by split|].
  assert (∀ x, ok 16 x → is_v4 x = v4 → val x ≠ val ip ↔ x ≠ ip) as Hinj.
  { intros x Hx Ex. split; [by intros ? ->|]. intros Hn E. apply Hn. by apply (val_inj 16). }
  destruct found.
  - destruct H as [Hf Hx]. unfold dfree. rewrite Hv. split; [split; [by apply cache_valid_16|by destruct v4]|].
    intros x. rewrite !cache_valid_16. destruct v4, (is_v4 x) eqn:Ex; cbn [cacheIpsV4 cacheIpsV6]; rewrite ?Hx.
    + split; [intros (?&?&?)|intros ((?&?)&?)]; split_and!; try done; by apply Hinj.
    + split; [intros (?&?)|intros ((?&?)&?)]; split_and!; try done. intros ->. congruence.
    + split; [intros (?&?)|intros ((?&?)&?)]; split_and!; try done. intros ->. congruence.
    + split; [intros (?&?&?)|intros ((?&?)&?)]; split_and!; try done; by apply Hinj.
  - intros x. unfold dfree. intros [Hx1 Hx2]. split; [done|]. destruct v4, (is_v4 x); cbn [cacheIpsV4 cacheIpsV6] in Hx2; auto.
Qed.

Lemma returnServiceIp_ok c ip :
  cache_inv 16 16 c → ok 16 ip → ¬ dfree c ip →
  cache_inv 16 16 (returnServiceIp c ip) ∧ ∀ x, dfree (returnServiceIp c ip) x ↔ dfree c x ∨ x = ip.
Proof.
  intros Hc Hok Hn. unfold returnServiceIp. rewrite is_To16_ok by done.
  assert ((if is_To4 ip then DeallocateIp c ip else DeallocateIp c ip) = DeallocateIp c ip) as -> by (by destruct (is_To4 ip)).
  apply cache_dealloc; [done|done|by apply cache_valid_16|done].
Qed.

Lemma dyn_return_list k l s : dyn_at s k l → dyn_at (returnServiceIps l s) k [].
Proof. intros A. apply (at_give_list (cache_inv 16 16) dfree ingressIps returnServiceIp); [apply returnServiceIp_ok|done]. Qed.

(** ** Without static addresses *)

Definition no_static (s : IpState) : Prop := pools_ok (staticServiceIps s) ∧ ∀ x, ¬ sfree (staticServiceIps s) x.
Definition plain_meta (m : serviceMeta) : Prop := staticIngressIps m = [] ∧ requestedIps m = [].
Definition plain (s : IpState) : Prop := no_static s ∧ ∀ k m, serviceMetaCache s !! k = Some m → plain_meta m.

Lemma take_static_none v4 ip s :
  no_static s → ok 16 ip →
  let '(found, s') := take_static v4 ip s in
  found = false ∧ no_static s' ∧ serviceIps s' = serviceIps s ∧ serviceMetaCache s' = serviceMetaCache s.
Proof.
  intros [Hp Hn] Hok. pose proof (take_static_ok v4 ip s Hp Hok) as H. destruct (take_static v4 ip s) as [found s'].
  destruct H as (E1&E2&Hp'&H). destruct found; [by destruct H as [H _]; apply Hn in H|].
  destruct H as [H _]. split_and!; [done| |done|done]. split; [done|]. intros x Hx. by apply (Hn x), H.
Qed.

Lemma adopt_dyn k meta s ip :
  dyn_at s k (ingressIps meta) → no_static s → plain_meta meta → ok 16 ip →
  post (adopt_ip (meta, s) ip) (λ '(meta', s'),
    dyn_at s' k (ingressIps meta') ∧ no_static s' ∧ plain_meta meta' ∧ serviceMetaCache s' = serviceMetaCache s).
Proof.
  intros A Hn Hpl Hok. unfold adopt_ip. rewrite is_To16_ok, is_To4_v4 by done.
  match goal with |- post _ ?Q => set (R := Q) end.
  assert (∀ v4, is_v4 ip = v4 → post (adopt_family v4 meta s ip) R) as H.
  { intros v4 Ev. apply post_bind. intros [found s1] Et.
    destruct (take_dynamic_ok v4 ip s (at_pool _ _ _ _ _ _ _ A) Hok Ev _ Et) as (E1&E2&Hc&H). clear Et.
    assert (no_static s1) as Hn1 by (unfold no_static; by rewrite E1). destruct found.
    - destruct H as [Hf Hx]. apply post_ret. unfold R. rewrite E2. split_and!; [by eapply at_take|done|by destruct Hpl|done].
    - pose proof (take_static_none v4 ip s1 Hn1 Hok) as H0. destruct (take_static v4 ip s1) as [found s2].
      destruct H0 as (->&Hn2&E3&E4). apply post_ret. unfold R. rewrite E4, E3, E2. split_and!; [by eapply at_same|done|done|done]. }
  destruct (is_v4 ip) eqn:Ev; [by apply (H true)|by apply (H false)].
Qed.

Lemma adopt_all_dyn k ips meta s :
  dyn_at s k (ingressIps meta) → no_static s → plain_meta meta → Forall (ok 16) ips →
  post (foldO adopt_ip (meta, s) ips) (λ '(meta', s'),
    dyn_at s' k (ingressIps meta') ∧ no_static s' ∧ plain_meta meta' ∧ serviceMetaCache s' = serviceMetaCache s).
Proof.
  intros A Hn Hpl Hf. rewrite Forall_forall in Hf. apply foldO_post; [by split_and!|].
  intros [m1 s1] ip Hip (A1&Hn1&Hpl1&E1) [m2 s2] E.
  destruct (adopt_dyn k m1 s1 ip A1 Hn1 Hpl1 (Hf ip Hip) _ E) as (A2&Hn2&Hpl2&E2). split_and!; [done..|congruence].
Qed.

Lemma plain_insert s s' k m :
  plain s → no_static s' → plain_meta m → serviceMetaCache s' = serviceMetaCache s → plain (set_meta k m s').
Proof.
  intros [_ Hp] Hn Hm E. split; [done|]. intros k' m'. cbn. rewrite E. destruct (decide (k' = k)) as [->|Hne].
  - rewrite lookup_insert_eq. by intros [= <-].
  - rewrite lookup_insert_ne by done. by apply Hp.
Qed.

Lemma find_meta_dyn k service s :
  dyn_all s → plain s → post (find_meta k service s) (λ '(meta, s'),
    dyn_at s' k (ingressIps meta) ∧ serviceMetaCache s' !! k = Some meta ∧ plain s' ∧ plain_meta meta).
Proof.
  intros A Hp. pose proof (all_at _ _ _ _ _ k A) as A'. unfold find_meta.
  destruct (serviceMetaCache s !! k) as [meta|] eqn:E.
  { apply post_ret. split_and!; [done|done|done|]. destruct Hp as [_ Hp]. by eapply Hp. }
  cbn in A'. apply post_bind. intros [meta s1] Ef.
  destruct (adopt_all_dyn k (omap (λ i, ParseIP (ing_IP i)) (so_Ingress service)) no_meta s A' (proj1 Hp)
    (conj eq_refl eq_refl) (parsed_ok ing_IP _) _ Ef) as (A1&Hn1&Hpl&E1). apply post_ret.
  split_and!; [by apply at_insert|cbn; by rewrite lookup_insert_eq|by eapply plain_insert|done].
Qed.

(** ** Requests *)

Lemma request_none reqs s :
  no_static s → Forall (ok 16) reqs →
  let '(got, s') := foldl (request_ip []) ([], s) reqs in
  got = [] ∧ no_static s' ∧ serviceIps s' = serviceIps s ∧ serviceMetaCache s' = serviceMetaCache s.
Proof.
  revert s. induction reqs as [|ip reqs IH]; intros s Hn Hf; [done|]. apply Forall_cons in Hf as [Hip Hf]. cbn [foldl].
  assert (∃ s', request_ip [] ([], s) ip = ([], s') ∧ no_static s' ∧ serviceIps s' = serviceIps s ∧
    serviceMetaCache s' = serviceMetaCache s) as (s1&->&Hn1&E1&E2).
  { unfold request_ip. rewrite is_To16_ok by done. rewrite bool_decide_false by apply not_elem_of_nil.
    assert (∀ v4 s0, no_static s0 → serviceIps s0 = serviceIps s → serviceMetaCache s0 = serviceMetaCache s →
      ∃ s1, take_static v4 ip s0 = (false, s1) ∧ no_static s1 ∧ serviceIps s1 = serviceIps s ∧ serviceMetaCache s1 = serviceMetaCache s) as Ht.
    { intros v4 s0 H0 E1 E2. pose proof (take_static_none v4 ip s0 H0 Hip) as H. destruct (take_static v4 ip s0) as [f s1].
      destruct H as (->&?&E3&E4). exists s1. by rewrite E3, E4. }
    destruct (is_To4 ip).
    - destruct (Ht true s Hn eq_refl eq_refl) as (s1&->&H1&E1&E2). destruct (Ht false s1 H1 E1 E2) as (s2&->&?). by exists s2.
    - destruct (Ht false s Hn eq_refl eq_refl) as (s2&->&?). by exists s2. }
  specialize (IH s1 Hn1 Hf). destruct (foldl _ ([], s1) reqs) as [got s2]. by rewrite <- E1, <- E2.
Qed.

Lemma apply_requests_dyn k reqs meta s :
  dyn_at s k (ingressIps meta) → no_static s → plain_meta meta → Forall (ok 16) reqs →
  let '(meta', s') := apply_requests reqs meta s in
  dyn_at s' k (ingressIps meta') ∧ no_static s' ∧ plain_meta meta' ∧ serviceMetaCache s' = serviceMetaCache s.
Proof.
  intros A Hn [Hst Hrq] Hf. unfold apply_requests. rewrite Hst, Hrq. destruct (0 <? length reqs)%nat; [|done].
  pose proof (request_none reqs s Hn Hf) as H. destruct (foldl _ ([], s) reqs) as [got s1]. destruct H as (->&Hn1&E1&E2).
  cbn. split_and!; [|done|done|done]. apply dyn_return_list. cbn. by rewrite E1, E2.
Qed.

(** ** Families *)

Lemma last_ips_ok ips :
  Forall (ok 16) ips → let '(a, b) := last_ips ips in
  (a = [] ∨ a ∈ ips ∧ is_v4 a = true) ∧ (b = [] ∨ b ∈ ips ∧ is_v4 b = false).
Proof.
  intros Hf. unfold last_ips.
  assert (∀ l a b, Forall (ok 16) l → (∀ x, x ∈ l → x ∈ ips) →
    (a = [] ∨ a ∈ ips ∧ is_v4 a = true) → (b = [] ∨ b ∈ ips ∧ is_v4 b = false) →
    let '(a, b) := foldl (λ '(v4, v6) ip, if is_To4 ip then (ip, v6) else if is_To16 ip then (v4, ip) else (v4, v6)) (a, b) l in
    (a = [] ∨ a ∈ ips ∧ is_v4 a = true) ∧ (b = [] ∨ b ∈ ips ∧ is_v4 b = false)) as H.
  { intros l. induction l as [|ip l IH]; intros a b Hl Hin Ha Hb; [done|]. apply Forall_cons in Hl as [Hip Hl]. cbn [foldl].
    rewrite is_To4_v4, is_To16_ok by done. assert (ip ∈ ips) by (apply Hin, list_elem_of_here).
    assert (∀ x, x ∈ l → x ∈ ips) as Hin' by (intros x Hx; by apply Hin, list_elem_of_further).
    destruct (is_v4 ip) eqn:Ev; apply IH; auto. }
  apply H; auto.
Qed.

Lemma remove_equal_elem ip l :
  Forall (ok 16) l → NoDup l → ok 16 ip → NoDup (remove_equal ip l) ∧ ∀ x, x ∈ remove_equal ip l ↔ x ∈ l ∧ x ≠ ip.
Proof.
  intros Hf Hnd Hip. induction l as [|v l IH]; cbn [remove_equal].
  { split; [constructor|]. intros x. split; [intros H; by apply elem_of_nil in H|intros [H _]; by apply elem_of_nil in H]. }
  apply Forall_cons in Hf as [Hv Hf]. apply NoDup_cons in Hnd as [Hnin Hnd]. rewrite IP_Equal_16 by done. case_bool_decide as E.
  - subst v. split; [done|]. intros x. rewrite elem_of_cons. split; [|naive_solver]. intros Hx. split; [auto|]. by intros ->.
  - destruct (IH Hf Hnd) as [N1 N2]. split.
    + apply NoDup_cons. split; [|done]. by intros [? _]%N2.
    + intros x. rewrite !elem_of_cons, N2. naive_solver.
Qed.

Lemma fit_family_dyn k v4 cl ip ips s :
  dyn_at s k ips → (ip = [] ∨ ip ∈ ips) →
  let '(_, ips', s') := fit_family v4 cl ip [] ips s in
  dyn_at s' k ips' ∧ ∀ x, x ∈ ips → x ≠ ip → x ∈ ips'.
Proof.
  intros A Hip. unfold fit_family. destruct (negb (nil_ip cl) && nil_ip ip).
  - cbn [length Nat.ltb Nat.leb]. destruct (AllocateIp (serviceIps s) v4) as [c [x|]] eqn:E.
    + destruct (cache_alloc_some _ _ _ _ _ _ (at_pool _ _ _ _ _ _ _ A) E) as (Hc&_&Hf&Hx).
      split; [|intros y Hy _; apply elem_of_app; by left]. eapply at_take; [exact A|done| |done|done].
      by destruct Hf as [Hf _]; apply cache_valid_16.
    + destruct (cache_alloc_none _ _ _ _ _ (at_pool _ _ _ _ _ _ _ A) E) as (Hc&Hx&_). split; [|done].
      eapply at_same; [exact A|done|]. intros y. apply Hx.
  - destruct (nil_ip cl && negb (nil_ip ip)) eqn:En; [|done]. apply andb_true_iff in En as [_ En].
    destruct Hip as [->|Hin]; [done|]. unfold removeIpFromIngressIPList.
    assert (Forall (ok 16) ips) as Hf.
    { apply Forall_forall. intros x Hx. apply (at_busy _ _ _ _ _ _ _ A k), held_here. done. }
    destruct (at_busy _ _ _ _ _ _ _ A k ip) as [Hok Hn]; [by apply held_here|].
    destruct (remove_equal_elem ip ips Hf (at_nodup _ _ _ _ _ _ _ A) Hok) as [N1 N2].
    destruct (returnServiceIp_ok (serviceIps s) ip (at_pool _ _ _ _ _ _ _ A) Hok Hn) as [Hc Hx]. split.
    + eapply (at_give _ _ _ _ _ _ _ ips _ ip); [exact A|done|done| |exact Hc|exact Hx]. intros x. apply N2.
    + intros x H1 H2. by apply N2.
Qed.

(** ** The handlers *)

Lemma no_static_same s s' : staticServiceIps s' = staticServiceIps s → no_static s → no_static s'.
Proof. intros E. unfold no_static. by rewrite E. Qed.

Definition dyn_good (s : IpState) : Prop := dyn_all s ∧ plain s.

Lemma allocateServiceIps_dyn env sync locked k service s :
  dyn_all s → plain s → is_Some (requested service) →
  post (allocateServiceIps env sync locked k service s) (λ r, dyn_good (ar_state r)).
Proof.
  intros A Hp [reqs Er]. apply post_bind. intros l _. apply post_bind. intros [meta s1] Ef.
  destruct (find_meta_dyn k service s A Hp _ Ef) as (A1&E1&Hp1&Hpl). clear Ef.
  assert (dyn_all s1) as A1'.
  { pose proof (at_all _ _ _ _ _ _ _ meta A1 eq_refl) as H. by rewrite insert_id in H. }
  destruct sync; cbn [negb]; [|by apply (unlock_return_post _ _ _ _ _ dyn_good)]. rewrite Er. apply requested_ok in Er as [Hf Hnd].
  pose proof (apply_requests_dyn k reqs meta s1 A1 (proj1 Hp1) Hpl Hf) as H.
  destruct (apply_requests reqs meta s1) as [meta2 s2]. destruct H as (A2&Hn2&[Hst2 Hrq2]&E2). rewrite E2 in A2.
  assert (∀ m s3, ingressIps m = ingressIps meta2 → plain_meta m → s3 = s2 → dyn_all (set_meta k m s3) ∧ plain (set_meta k m s3)) as Hset.
  { intros m s3 Em Hm ->. split; [cbn; rewrite E2; by eapply at_all|by eapply plain_insert]. }
  rewrite Hrq2, Hst2. cbn [length]. destruct reqs as [|r reqs]; cbn [length Nat.ltb Nat.leb andb].
  2:{ destruct (updateServiceCondition _ _ _ _ _) as [[? []] ?]; apply (unlock_return_post _ _ _ _ _ dyn_good); by apply Hset. }
  rewrite app_nil_r. assert (Forall (ok 16) (ingressIps meta2)) as Hok.
  { apply Forall_forall. intros x Hx. apply (at_busy _ _ _ _ _ _ _ A2 k), held_here. done. }
  pose proof (last_ips_ok _ Hok) as Hl. destruct (last_ips (ingressIps meta2)) as [ipv4 ipv6]. destruct Hl as [H4 H6].
  destruct (cluster_ips service) as [c4 c6]. rewrite <- E2 in A2.
  pose proof (fit_family_static true c4 ipv4 [] (ingressIps meta2) s2) as F4.
  pose proof (fit_family_dyn k true c4 ipv4 (ingressIps meta2) s2 A2 ltac:(naive_solver)) as D4.
  destruct (fit_family true c4 ipv4 [] _ s2) as [[x4 l4] s3]. destruct F4 as [F4 G4]. destruct D4 as [A3 K3].
  assert (ipv6 = [] ∨ ipv6 ∈ l4) as H6'.
  { destruct H6 as [?|[Hin V6]]; [by left|]. right. apply K3; [done|]. intros ->. destruct H4 as [->|[_ V4]]; [|congruence].
    rewrite Forall_forall in Hok. by destruct (Hok _ Hin). }
  pose proof (fit_family_static false c6 ipv6 [] l4 s3) as F6.
  pose proof (fit_family_dyn k false c6 ipv6 l4 s3 A3 H6') as D6.
  destruct (fit_family false c6 ipv6 [] l4 s3) as [[x6 l6] s4]. destruct F6 as [F6 G6]. destruct D6 as [A4 _].
  assert (dyn_all (set_meta k (mkMeta [] l6 []) s4) ∧ plain (set_meta k (mkMeta [] l6 []) s4)) as HF.
  { split; [by eapply at_all|]. eapply plain_insert; [exact Hp1| |done|by rewrite G6, G4, E2].
    eapply no_static_same; [|exact Hn2]. by rewrite F6, F4. }
  destruct (nil_ip x4 && nil_ip x6); [by apply (unlock_return_post _ _ _ _ _ dyn_good)|]. cbn zeta.
  apply post_bind. intros l' _. apply post_ret. by rewrite (proj1 (publish_state _ _ _ _ _ _)).
Qed.

Lemma clear_meta_dyn k s : dyn_all s → plain s → dyn_good (clear_meta k s).
Proof.
  intros A Hp. unfold dyn_good, clear_meta. destruct (serviceMetaCache s !! k) as [meta|] eqn:E; [|done].
  pose proof (all_at _ _ _ _ _ k A) as A1. rewrite E in A1. cbn in A1. destruct Hp as [Hn Hp]. destruct (Hp _ _ E) as [Hst _].
  split.
  - eapply at_drop. exact (dyn_return_list k (ingressIps meta) s A1).
  - rewrite Hst. split; [done|]. intros k' m'. cbn. rewrite lookup_delete_Some. intros [_ H]. by eapply Hp.
Qed.

(** Steps in which no annotation is refused. *)
Inductive valid_step (cfg : SvcCfg) : IpState → IpState → Prop :=
  | valid_alloc env sync locked k service s r :
      is_Some (requested service) → allocateServiceIps env sync locked k service s = Returns r → valid_step cfg s (ar_state r)
  | valid_clear locked k s s' e locked' :
      clearLbService cfg locked k s = Returns (s', e, locked') → valid_step cfg s s'.

(** The configured ranges of the dynamic pool. *)
Definition pool_fine (rs : list IpRange) : Prop :=
  Forall (load_ok 16) rs ∧ StronglySorted (λ r1 r2, ∀ ip, in_range 16 r1 ip → ¬ in_range 16 r2 ip) rs.

Lemma init_dyn cfg :
  pool_fine (ServiceIpPool cfg) → StaticServiceIpPool cfg = [] → dyn_all (initServiceIps cfg) ∧ plain (initServiceIps cfg).
Proof.
  intros [H1 H2] Es. unfold initServiceIps. rewrite Es. cbn [loadIpRanges foldl].
  destruct (LoadRanges_ok 16 ltac:(by right) (ServiceIpPool cfg) NewIpCache) as [Hc _]; [apply NewIpCache_inv|done|done| |].
  { intros r ip _ _. apply NewIpCache_free. }
  split; [split|split].
  - exact Hc.
  - intros k e ip H. cbn in H. by rewrite lookup_empty in H.
  - intros k1 k2 e1 e2 ip H. cbn in H. by rewrite lookup_empty in H.
  - intros k e H. cbn in H. by rewrite lookup_empty in H.
  - split; [apply newNetIps_ok|]. intros x [_ Hx]. cbn in Hx. destruct (is_v4 x); by apply members_nil in Hx.
  - intros k e H. cbn in H. by rewrite lookup_empty in H.
Qed.

Lemma dyn_reach cfg s :
  pool_fine (ServiceIpPool cfg) → StaticServiceIpPool cfg = [] → rtc (valid_step cfg) (initServiceIps cfg) s → dyn_all s.
Proof.
  intros Hc Hs Hr. destruct (init_dyn cfg Hc Hs) as [H0 P0].
  assert (dyn_all s ∧ plain s) as [? _]; [|done].
  induction Hr as [|s1 s2 s3 Hst _ IH]; [done|]. destruct Hst as [env sync locked k service s1 r Hreq E|locked k s1 s2 e locked' [-> _]%clearLbService_meta].
  - destruct (allocateServiceIps_dyn env sync locked k service s1 H0 P0 Hreq _ E) as [A B]. exact (IH A B).
  - destruct (clear_meta_dyn k s1 H0 P0) as [A B]. exact (IH A B).
Qed.
