(* ===== verification/SvcGraphFacts.v ===== *)
(** * SvcGraphFacts: the objects of the service graph

    Every builder of SvcGraph and OpflexDev gives a typed tree; the
    destinations of a redirect policy and the entries of a filter are read
    back. *)
From S2P Require Import Prelude GoBytes GoNet GoText IpAlloc ApicMetadata ApicTypes ApicBuild ApicTypesFacts K8s AciNames.
From S2P Require Import PodNet SvcTypes OpflexDev OpflexProps SvcGraph SvcNodes.

Open Scope string_scope.

(** ** Adding children *)

Definition with_children (o : ApicObject) (l : ApicSlice) : ApicObject :=
  let 'Obj c h a ch := o in Obj c h a (ch ++ l)%list.

Lemma add_children_eq o cs : add_children o cs = with_children o <$> mapM id cs.
Proof.
  assert (∀ cs, foldl (λ o c, o ← o; c ← c; Some (AddChild o c)) None cs = None) as HN by (induction cs0; done).
  unfold add_children. revert o. induction cs as [|c cs IH]; intros o.
  - destruct o as [cl h a ch]. cbn. by rewrite app_nil_r.
  - cbn [foldl mapM]. cbn [mbind option_bind]. destruct c as [c|]; cbn [id mbind option_bind]; [|apply HN].
    rewrite IH. destruct (mapM id cs) as [l|]; [|done]. destruct o as [cl h a ch]. cbn. by rewrite <- app_assoc.
Qed.

Lemma with_children_class o l : class (with_children o l) = class o.
Proof. by destruct o. Qed.
Lemma with_children_dn o l : GetDn (with_children o l) = GetDn o.
Proof. by destruct o. Qed.
Lemma with_children_attrs o l k : GetAttrStr (with_children o l) k = GetAttrStr o k.
Proof. by destruct o. Qed.
Lemma with_children_children o l : Children (with_children o l) = (Children o ++ l)%list.
Proof. by destruct o. Qed.
#[export] Hint Rewrite with_children_class with_children_dn with_children_attrs with_children_children : apicobj.

(** Children that are typed trees below the object. *)
Definition kid (o : ApicObject) (r : option ApicObject) : Prop :=
  ∃ cl, child_of (class o) cl = true ∧ tree_under cl (GetDn o) r.

Lemma add_children_typed o cs :
  typed o → Forall (kid o) cs →
  ∃ o', add_children o cs = Some o' ∧ typed o' ∧ class o' = class o ∧ GetDn o' = GetDn o.
Proof.
  unfold add_children. revert o. induction cs as [|c cs IH]; intros o Ht Hf; cbn [foldl]; [by exists o|].
  apply Forall_cons in Hf as [(cl&Hcl&Hc) Hf]. destruct (typed_add o (GetDn o) cl c Ht eq_refl Hcl Hc) as (c'&->&Ht').
  cbn [mbind option_bind]. destruct (IH (AddChild o c') Ht') as (o'&E&To&Co&Do).
  - eapply Forall_impl; [exact Hf|]. intros r (cl'&H). exists cl'. by rewrite class_AddChild, AddChild_dn.
  - exists o'. rewrite class_AddChild in Co. rewrite AddChild_dn in Do. exact (conj E (conj To (conj Co Do))).
Qed.

Lemma kid_intro o cl p r : class o = cl → GetDn o = p → (∃ c, child_of cl c = true ∧ tree_under c p r) → kid o r.
Proof. intros <- <- H. exact H. Qed.

(** ** Redirect policies *)

Lemma apicRedirectDst_tree p ip mac descr hg tr : tree_under "vnsRedirectDest" p (apicRedirectDst p ip mac descr hg tr).
Proof.
  unfold apicRedirectDst. assert (tree_under "vnsRedirectDest" p (NewVnsRedirectDest p ip mac)) as (o&->&C&T&D) by plain_under.
  cbn [mbind option_bind]. apply (typed_SetAttr _ "descr" (AStr descr)) in T; [|done].
  destruct (negb _ && tr); [|exists (SetAttr o "descr" (AStr descr)); autorewrite with apicobj; done].
  destruct (typed_add (SetAttr o "descr" (AStr descr)) (GetDn (SetAttr o "descr" (AStr descr))) "vnsRsRedirectHealthGroup"
    (NewVnsRsRedirectHealthGroup (GetDn (SetAttr o "descr" (AStr descr))) hg) T eq_refl) as (c&->&T').
  - rewrite class_SetAttr, C. child_class.
  - plain_under.
  - cbn [mbind option_bind]. eexists. split; [reflexivity|]. autorewrite with apicobj. done.
Qed.

Lemma redirect_dst_kids o rpDn n ep tr ip :
  class o = "vnsSvcRedirectPol" → GetDn o = rpDn → Forall (kid o) (redirect_dst rpDn n ep tr ip).
Proof.
  intros C D. unfold redirect_dst. destruct (length ip =? 0)%nat; [constructor|]. apply Forall_singleton.
  eapply kid_intro; [exact C|exact D|]. exists "vnsRedirectDest". split; [child_class|apply apicRedirectDst_tree].
Qed.

(** Node by node: the loop returns with the mutex free and a typed policy. *)
Lemma redirect_nodes_typed rpDn nodes nodeMap tr rp :
  typed rp → class rp = "vnsSvcRedirectPol" → GetDn rp = rpDn → Forall (λ n, is_Some (nodeMap !! n)) nodes →
  ∃ rp', redirect_nodes rpDn nodes nodeMap tr false rp = Returns (rp', false) ∧
    typed rp' ∧ class rp' = "vnsSvcRedirectPol" ∧ GetDn rp' = rpDn.
Proof.
  revert rp. induction nodes as [|n nodes IH]; intros rp T C D Hf; cbn [redirect_nodes]; [by exists rp|].
  apply Forall_cons in Hf as [[ep E] Hf]. rewrite E.
  destruct (add_children_typed rp (redirect_dst rpDn n ep tr (Ipv4 ep)) T) as (rp1&->&T1&C1&D1); [by apply redirect_dst_kids|].
  cbn [build mbind outcome_bind].
  destruct (add_children_typed rp1 (redirect_dst rpDn n ep tr (Ipv6 ep)) T1) as (rp2&->&T2&C2&D2); [apply redirect_dst_kids; congruence|].
  cbn [build mbind outcome_bind]. apply IH; [done|congruence|congruence|done].
Qed.

Lemma apicRedirectPol_typed name tenant nodes nodeMap mon tr :
  Forall (λ n, is_Some (nodeMap !! n)) nodes →
  ∃ rp rpDn, apicRedirectPol name tenant nodes nodeMap mon tr = Returns (rp, rpDn, false) ∧ typed rp ∧ class rp = "vnsSvcRedirectPol".
Proof.
  intros Hf. unfold apicRedirectPol.
  assert (tree "vnsSvcRedirectPol" (NewVnsSvcRedirectPol tenant name)) as (o&->&C&T) by plain_tree.
  cbn [build mbind outcome_bind]. set (rp := SetAttr o _ _).
  assert (typed rp) as T1 by (by apply typed_SetAttr).
  destruct (redirect_nodes_typed (GetDn rp) nodes nodeMap tr rp T1) as (rp'&->&T2&C2&D2); [unfold rp; by rewrite class_SetAttr|done|done|].
  cbn [mbind outcome_bind]. destruct (negb _ && tr); [|by eauto 10].
  destruct (typed_add rp' (GetDn rp) "vnsRsIPSLAMonitoringPol" (NewVnsRsIPSLAMonitoringPol (GetDn rp) mon) T2 D2) as (c&->&T3).
  - rewrite C2. child_class.
  - plain_under.
  - cbn [build mbind outcome_bind]. eexists _, _. split; [reflexivity|]. rewrite class_AddChild. done.
Qed.

(** ** External networks, contracts, contexts and filters *)

(** A constructor call that fills an object made by [new]. *)
Lemma tree_add_children cl cs o : typed o → class o = cl → Forall (kid o) cs → tree cl (add_children o cs).
Proof. intros T C Hf. destruct (add_children_typed o cs T Hf) as (o'&->&T'&C'&_). exists o'. by rewrite C'. Qed.

Lemma ext_subnet_kids o d sh ing : class o = "l3extInstP" → GetDn o = d → Forall (kid o) (ext_subnet d sh ing).
Proof.
  intros C D. assert (∀ v4 cidr, Forall (kid o) [apicExtNetCreate d ing v4 cidr sh]) as H.
  { intros v4 cidr. apply Forall_singleton. eapply kid_intro; [exact C|exact D|]. exists "l3extSubnet". split; [child_class|].
    unfold apicExtNetCreate. set (t := if cidr then ing else _).
    assert (tree_under "l3extSubnet" d (NewL3extSubnet d t)) as (s&->&Cs&Ts&Ds) by plain_under.
    cbn [mbind option_bind]. eexists. split; [reflexivity|]. destruct sh; [|done]. autorewrite with apicobj. split_and!; auto with go. }
  unfold ext_subnet. destruct (match ParseCIDR_IP ing with Some _ => _ | None => _ end) as [[ip|] cidr]; [|constructor].
  destruct (is_To4 ip); [apply H|]. destruct (is_To16 ip); [apply H|constructor].
Qed.

Lemma apicExtNet_tree name tenant l3 ings sh snat : tree "l3extInstP" (apicExtNet name tenant l3 ings sh snat).
Proof.
  unfold apicExtNet. assert (tree "l3extInstP" (NewL3extInstP tenant l3 name)) as (en&->&C&T) by plain_tree.
  cbn [mbind option_bind].
  assert (∃ rs, (if snat then NewFvRsCons (GetDn en) name else NewFvRsProv (GetDn en) name) = Some rs ∧ typed (AddChild en rs)) as (rs&->&T1).
  { destruct snat; (eapply typed_add; [exact T|reflexivity| |plain_under]); rewrite C; child_class. }
  cbn [mbind option_bind]. apply tree_add_children; [done|by rewrite class_AddChild|].
  apply Forall_forall. intros r (ing&Hing&Hr)%list_elem_of_In%in_flat_map. apply list_elem_of_In in Hr.
  revert r Hr. apply Forall_forall, ext_subnet_kids; [by rewrite class_AddChild|by rewrite AddChild_dn].
Qed.

(** Kids made by plain constructors below the object. *)
Ltac plain_kid C D := eapply kid_intro; [exact C|exact D|]; eexists; split; [|plain_under]; child_class.
Ltac plain_kids C D := repeat (apply Forall_cons; split; [plain_kid C D|]); apply Forall_nil_2.

Lemma apicContract_tree con tenant g scope chain custom : tree "vzBrCP" (apicContract con tenant g scope chain custom).
Proof.
  unfold apicContract. assert (tree "vzBrCP" (NewVzBrCP tenant con)) as (o&->&C&T) by plain_tree. cbn [mbind option_bind].
  match goal with |- context [if ?b then SetAttr o ?k ?v else o] => set (o1 := if b then SetAttr o k v else o) end.
  assert (typed o1 ∧ class o1 = "vzBrCP") as [T1 C1] by (unfold o1; destruct (_ && _); rewrite ?class_SetAttr; auto with go).
  assert (tree_under "vzSubj" (GetDn o1) (NewVzSubj (GetDn o1) "loadbalancedservice")) as (cs&->&Cc&Tc&Dc) by plain_under.
  cbn [mbind option_bind].
  match goal with |- context [?t ≫= _] => assert (∃ cs', t = Some cs' ∧ typed cs' ∧ class cs' = "vzSubj" ∧ GetDn cs' = GetDn cs) as (cs'&->&T2&C2&D2) end.
  { destruct chain.
    - assert (tree_under "vzInTerm" (GetDn cs) (NewVzInTerm (GetDn cs))) as (it&->&Ci&Ti&Di) by plain_under. cbn [mbind option_bind].
      assert (tree_under "vzOutTerm" (GetDn cs) (NewVzOutTerm (GetDn cs))) as (ot&->&Cot&To&Do) by plain_under. cbn [mbind option_bind].
      destruct (add_children_typed it [NewVzRsInTermGraphAtt (GetDn it) g; NewVzRsFiltAtt (GetDn it) (con ++ "_fromCons-toProv")] Ti)
        as (it'&->&Ti'&Ci'&Di'); [plain_kids Ci (eq_refl (GetDn it))|]. cbn [mbind option_bind].
      destruct (add_children_typed ot [NewVzRsOutTermGraphAtt (GetDn ot) g; NewVzRsFiltAtt (GetDn ot) (con ++ "_fromProv-toCons")] To)
        as (ot'&->&To'&Co'&Do'); [plain_kids Cot (eq_refl (GetDn ot))|]. cbn [mbind option_bind].
      eexists. split; [reflexivity|]. autorewrite with apicobj. split_and!; [|done|done].
      apply typed_AddChild; [apply typed_AddChild; [by apply typed_SetAttr|done| |]|done| |]; autorewrite with apicobj;
        rewrite ?Ci', ?Ci, ?Co', ?Cot, ?Cc, ?Di', ?Do'; first [child_class|done].
    - destruct (add_children_typed cs [NewVzRsSubjGraphAtt (GetDn cs) g custom; NewVzRsSubjFiltAtt (GetDn cs) con] Tc)
        as (cs'&->&?&Cx&?); [plain_kids Cc (eq_refl (GetDn cs))|]. exists cs'. by rewrite Cx. }
  cbn [mbind option_bind]. eexists. split; [reflexivity|]. rewrite class_AddChild. split; [done|].
  apply typed_AddChild; [done|done|rewrite C1, C2; child_class|by rewrite D2].
Qed.

Lemma lif_ctx_tree cc lif bd rp chain conn : tree_under "vnsLIfCtx" cc (lif_ctx cc lif bd rp chain conn).
Proof.
  unfold lif_ctx. assert (tree_under "vnsLIfCtx" cc (NewVnsLIfCtx cc conn)) as (o&->&C&T&D) by plain_under. cbn [mbind option_bind].
  set (rpDn := if chain then _ else rp).
  destruct (add_children_typed o [NewVnsRsLIfCtxToSvcRedirectPol (GetDn o) rpDn; NewVnsRsLIfCtxToBD (GetDn o) bd; NewVnsRsLIfCtxToLIf (GetDn o) lif] T)
    as (o'&->&T'&C'&D'); [plain_kids C (eq_refl (GetDn o))|].
  exists o'. by rewrite C', D'.
Qed.

Lemma apicDevCtx_tree name tenant g dev bd rp chain : tree "vnsLDevCtx" (apicDevCtx name tenant g dev bd rp chain).
Proof.
  unfold apicDevCtx. assert (tree "vnsLDevCtx" (NewVnsLDevCtx tenant name g "loadbalancer")) as (o&->&C&T) by plain_tree.
  cbn [mbind option_bind]. apply tree_add_children; [done|done|]. apply Forall_cons. split; [plain_kid C (eq_refl (GetDn o))|].
  assert (∀ conn, kid o (lif_ctx (GetDn o) (("uni/tn-" ++ tenant ++ "/lDevVip-" ++ dev) ++ "/lIf-" ++ "interface")
    ("uni/tn-" ++ tenant ++ "/BD-" ++ bd) rp chain conn)) as H.
  { intros conn. eapply kid_intro; [exact C|reflexivity|]. exists "vnsLIfCtx". split; [child_class|apply lif_ctx_tree]. }
  apply Forall_cons; split; [apply H|]. apply Forall_cons; split; [apply H|]. apply Forall_nil_2.
Qed.

Lemma apicFilterEntry_tree f n a b prot st snat out : tree_under "vzEntry" f (apicFilterEntry f n a b prot st snat out).
Proof.
  unfold apicFilterEntry. assert (tree_under "vzEntry" f (NewVzEntry f n)) as (o&->&C&T&D) by plain_under. cbn [mbind option_bind].
  eexists. split; [reflexivity|]. destruct snat, out, (String.eqb prot "tcp"); autorewrite with apicobj; split_and!; auto 8 with go.
Qed.

Lemma entry_kid o f n a b prot st snat out :
  class o = "vzFilter" → GetDn o = f → kid o (apicFilterEntry f n a b prot st snat out).
Proof. intros C D. eapply kid_intro; [exact C|exact D|]. exists "vzEntry". split; [child_class|apply apicFilterEntry_tree]. Qed.

Lemma apicFilter_tree name tenant ports snat r : tree "vzFilter" (apicFilter name tenant ports snat r).
Proof.
  unfold apicFilter. assert (tree "vzFilter" (NewVzFilter tenant name)) as (o&->&C&T) by plain_tree. cbn [mbind option_bind].
  match goal with |- context [add_children o ?cs] => destruct (add_children_typed o cs T) as (o1&->&T1&C1&D1) end.
  { apply Forall_forall. intros x Hx. apply elem_of_lookup_imap in Hx as (i&p&->&_). by apply entry_kid. }
  cbn [mbind option_bind]. rewrite C in C1. destruct snat; [|by exists o1]. apply tree_add_children; [done|done|].
  apply Forall_cons; split; [by apply entry_kid|]. apply Forall_cons; split; [by apply entry_kid|]. apply Forall_nil_2.
Qed.

Lemma apicFilterSnat_tree name tenant r out : tree "vzFilter" (apicFilterSnat name tenant r out).
Proof.
  unfold apicFilterSnat. assert (tree "vzFilter" (NewVzFilter tenant name)) as (o&->&C&T) by plain_tree. cbn [mbind option_bind].
  apply tree_add_children; [done|done|].
  apply Forall_cons; split; [by apply entry_kid|]. apply Forall_cons; split; [by apply entry_kid|]. apply Forall_nil_2.
Qed.

(** ** Device cluster, service graph, static objects *)

Definition dev_pair (dcDn lifDn : string) (acc : ApicObject * ApicObject) : Prop :=
  typed acc.1 ∧ class acc.1 = "vnsLDevVip" ∧ GetDn acc.1 = dcDn ∧ typed acc.2 ∧ class acc.2 = "vnsLIf" ∧ GetDn acc.2 = lifDn.

Lemma add_cdev_typed dcDn lifDn m n acc :
  dev_pair dcDn lifDn acc → ∃ acc', add_cdev dcDn lifDn m n acc = Some acc' ∧ dev_pair dcDn lifDn acc'.
Proof.
  destruct acc as [dc lif]. intros (T1&C1&D1&T2&C2&D2). cbn in *. destruct (m !! n) as [path|]; [|by eexists].
  assert (tree_under "vnsCDev" dcDn (NewVnsCDev dcDn n)) as (cd&->&Cc&Tc&Dc) by plain_under. cbn [mbind option_bind].
  assert (tree_under "vnsCIf" (GetDn cd) (NewVnsCif (GetDn cd) "interface")) as (ci&->&Ci&Ti&Di) by plain_under. cbn [mbind option_bind].
  edestruct (typed_add ci (GetDn ci) "vnsRsCIfPathAtt" (NewVnsRsCIfPathAtt (GetDn ci) path) Ti eq_refl) as (at_&->&Ti');
    [rewrite Ci; child_class|plain_under|]. cbn [mbind option_bind].
  assert (tree_under "vnsRsCIfAttN" lifDn (NewVnsRsCIfAttN lifDn (GetDn (AddChild ci at_)))) as (rf&->&Cr&Tr&Dr) by plain_under.
  cbn [mbind option_bind]. eexists. split; [reflexivity|]. unfold dev_pair. cbn [fst snd]. autorewrite with apicobj.
  split_and!; [|done|done| |done|done].
  - apply typed_AddChild; [done| |autorewrite with apicobj; rewrite C1, Cc; child_class|autorewrite with apicobj; by rewrite D1].
    apply typed_AddChild; [done|done|autorewrite with apicobj; rewrite Cc, Ci; child_class|by autorewrite with apicobj].
  - apply typed_AddChild; [done|done|rewrite C2, Cr; child_class|by rewrite D2].
Qed.

Lemma cluster_typed dcDn lifDn m nodes acc :
  dev_pair dcDn lifDn acc → ∃ acc', foldl (λ a n, a ≫= add_cdev dcDn lifDn m n) (Some acc) nodes = Some acc' ∧ dev_pair dcDn lifDn acc'.
Proof.
  revert acc. induction nodes as [|n nodes IH]; intros acc H; [by exists acc|]. cbn [foldl mbind option_bind].
  destruct (add_cdev_typed dcDn lifDn m n acc H) as (acc1&->&H1). by apply IH.
Qed.

Lemma apicDeviceCluster_typed name tenant dom encap nodes m :
  ∃ dc d, apicDeviceCluster name tenant dom encap nodes m = Some (dc, d) ∧ typed dc ∧ class dc = "vnsLDevVip".
Proof.
  unfold apicDeviceCluster. assert (tree "vnsLDevVip" (NewVnsLDevVip tenant name)) as (o&->&C&T) by plain_tree. cbn [mbind option_bind].
  set (o1 := SetAttr o _ _). assert (typed o1) as T1 by (by apply typed_SetAttr). assert (class o1 = "vnsLDevVip") as C1 by (unfold o1; by rewrite class_SetAttr).
  destruct (typed_add o1 (GetDn o1) "vnsRsALDevToPhysDomP" (NewVnsRsALDevToPhysDomP (GetDn o1) ("uni/phys-" ++ dom)) T1 eq_refl) as (pd&->&T2);
    [rewrite C1; child_class|plain_under|]. cbn [mbind option_bind].
  assert (tree_under "vnsLIf" (GetDn o1) (NewVnsLIf (GetDn o1) "interface")) as (lif&->&Cl&Tl&Dl) by plain_under. cbn [mbind option_bind].
  set (lif1 := SetAttr lif _ _).
  destruct (cluster_typed (GetDn o1) (GetDn lif1) m nodes (AddChild o1 pd, lif1)) as ([dc l]&->&H1&H2&H3&H4&H5&H6).
  { unfold dev_pair, lif1. cbn [fst snd]. autorewrite with apicobj. split_and!; auto with go. }
  cbn [mbind option_bind fst snd] in *. eexists _, _. split; [reflexivity|]. rewrite class_AddChild. split; [|done].
  apply typed_AddChild; [done|done|rewrite H2, H5; child_class|]. rewrite H6, H3. unfold lif1. by autorewrite with apicobj.
Qed.

Lemma term_node_typed cl p new :
  tree_under cl p new → child_of cl "vnsAbsTermConn" = true → child_of cl "vnsInTerm" = true → child_of cl "vnsOutTerm" = true →
  ∃ o d, term_node new = Some (o, d) ∧ typed o ∧ class o = cl ∧ ∃ rn, GetDn o = p ++ "/" ++ rn.
Proof.
  intros (o&->&C&T&D) H1 H2 H3. unfold term_node. cbn [mbind option_bind].
  edestruct (typed_add o (GetDn o) "vnsAbsTermConn" (NewVnsAbsTermConn (GetDn o)) T eq_refl) as (c1&->&T1); [by rewrite C|plain_under|]. cbn [mbind option_bind].
  edestruct (typed_add (AddChild o c1) (GetDn o) "vnsInTerm" (NewVnsInTerm (GetDn o)) T1) as (c2&->&T2); [by autorewrite with apicobj|by rewrite class_AddChild, C|plain_under|]. cbn [mbind option_bind].
  edestruct (typed_add (AddChild (AddChild o c1) c2) (GetDn o) "vnsOutTerm" (NewVnsOutTerm (GetDn o)) T2) as (c3&->&T3);
    [by autorewrite with apicobj|by rewrite !class_AddChild, C|plain_under|]. cbn [mbind option_bind].
  eexists _, _. split; [reflexivity|]. autorewrite with apicobj.
  exact (conj T3 (conj C D)).
Qed.

Lemma graph_connection_tree sg name f t : tree_under "vnsAbsConnection" sg (graph_connection sg name f t).
Proof.
  unfold graph_connection. assert (tree_under "vnsAbsConnection" sg (NewVnsAbsConnection sg name)) as (o&->&C&T&D) by plain_under. cbn [mbind option_bind].
  set (o1 := SetAttr o _ _). assert (typed o1) as T1 by (by apply typed_SetAttr).
  assert (class o1 = "vnsAbsConnection") as C1 by (unfold o1; by rewrite class_SetAttr).
  edestruct (typed_add o1 (GetDn o1) "vnsRsAbsConnectionConns" (NewVnsRsAbsConnectionConns (GetDn o1) f) T1 eq_refl) as (c1&->&T2); [rewrite C1; child_class|plain_under|]. cbn [mbind option_bind].
  edestruct (typed_add (AddChild o1 c1) (GetDn o1) "vnsRsAbsConnectionConns" (NewVnsRsAbsConnectionConns (GetDn o1) t) T2) as (c2&->&T3);
    [by autorewrite with apicobj|rewrite class_AddChild, C1; child_class|plain_under|]. cbn [mbind option_bind].
  eexists. split; [reflexivity|]. autorewrite with apicobj. rewrite C1. split_and!; [done|done|]. unfold o1. by autorewrite with apicobj.
Qed.

Lemma apicServiceGraph_tree name tenant dcDn : tree "vnsAbsGraph" (apicServiceGraph name tenant dcDn).
Proof.
  unfold apicServiceGraph. assert (tree "vnsAbsGraph" (NewVnsAbsGraph tenant name)) as (sg&->&C&T) by plain_tree. cbn [mbind option_bind].
  assert (tree_under "vnsAbsNode" (GetDn sg) (NewVnsAbsNode (GetDn sg) "loadbalancer")) as (an&->&Ca&Ta&Da) by plain_under. cbn [mbind option_bind].
  set (an1 := SetAttr (SetAttr an _ _) _ _). assert (typed an1) as T1 by (unfold an1; auto with go).
  assert (class an1 = "vnsAbsNode") as C1 by (unfold an1; by rewrite !class_SetAttr). assert (GetDn an1 = GetDn an) as D1 by (unfold an1; by autorewrite with apicobj).
  edestruct (typed_add an1 (GetDn an1) "vnsAbsFuncConn" (NewVnsAbsFuncConn (GetDn an1) "consumer") T1 eq_refl) as (c1&->&T2); [rewrite C1; child_class|plain_under|]. cbn [mbind option_bind].
  edestruct (typed_add (AddChild an1 c1) (GetDn an1) "vnsAbsFuncConn" (NewVnsAbsFuncConn (GetDn an1) "provider") T2) as (c2&->&T3);
    [by autorewrite with apicobj|rewrite class_AddChild, C1; child_class|plain_under|]. cbn [mbind option_bind].
  edestruct (typed_add (AddChild (AddChild an1 c1) c2) (GetDn an1) "vnsRsNodeToLDev" (NewVnsRsNodeToLDev (GetDn an1) dcDn) T3) as (c3&->&T4);
    [by autorewrite with apicobj|rewrite !class_AddChild, C1; child_class|plain_under|]. cbn [mbind option_bind].
  set (an2 := AddChild (AddChild (AddChild an1 c1) c2) c3) in *.
  assert (class an2 = "vnsAbsNode") as C2 by (unfold an2; by rewrite !class_AddChild).
  assert (GetDn an2 = GetDn an) as D2 by (unfold an2; by autorewrite with apicobj).
  edestruct (term_node_typed "vnsAbsTermNodeCon" (GetDn sg) (NewVnsAbsTermNodeCon (GetDn sg) "T1")) as (t1&d1&->&Tt1&Ct1&Dt1); [plain_under|child_class|child_class|child_class|]. cbn [mbind option_bind].
  edestruct (term_node_typed "vnsAbsTermNodeProv" (GetDn sg) (NewVnsAbsTermNodeProv (GetDn sg) "T2")) as (t2&d2&->&Tt2&Ct2&Dt2); [plain_under|child_class|child_class|child_class|]. cbn [mbind option_bind].
  destruct (graph_connection_tree (GetDn sg) "C1" (GetDn c1) d1) as (g1&->&Cg1&Tg1&Dg1). cbn [mbind option_bind].
  destruct (graph_connection_tree (GetDn sg) "C2" (GetDn c2) d2) as (g2&->&Cg2&Tg2&Dg2). cbn [mbind option_bind].
  eexists. split; [reflexivity|]. rewrite !class_AddChild. split; [done|].
  assert (∀ o x cl, typed o → class o = "vnsAbsGraph" → GetDn o = GetDn sg → typed x → class x = cl → child_of "vnsAbsGraph" cl = true →
    (∃ rn, GetDn x = GetDn sg ++ "/" ++ rn) → typed (AddChild o x)) as Hadd.
  { intros o x cl To Co Do Tx Cx Hx Dx. apply typed_AddChild; [done|done|by rewrite Co, Cx|by rewrite Do]. }
  eapply Hadd; [|by rewrite !class_AddChild|by autorewrite with apicobj|exact Tg2|exact Cg2|child_class|done].
  eapply Hadd; [|by rewrite !class_AddChild|by autorewrite with apicobj|exact Tg1|exact Cg1|child_class|done].
  eapply Hadd; [|by rewrite !class_AddChild|by autorewrite with apicobj|exact Tt2|exact Ct2|child_class|done].
  eapply Hadd; [|by rewrite !class_AddChild|by autorewrite with apicobj|exact Tt1|exact Ct1|child_class|done].
  eapply Hadd; [done|done|done|exact T4|exact C2|child_class|by rewrite D2].
Qed.

Lemma staticServiceObjs_typed cfg : ∃ objs, staticServiceObjs cfg = Some objs ∧ Forall typed objs.
Proof.
  unfold staticServiceObjs. cbv zeta. set (name := svc_aciName cfg "bd" ServiceBd).
  assert (tree "fvBD" (NewFvBD (AciVrfTenant cfg) name)) as (bd&->&C&T) by plain_tree. cbn [mbind option_bind].
  set (b1 := SetAttr (SetAttr (SetAttr bd _ _) _ _) _ _). assert (typed b1) as T1 by (unfold b1; auto with go).
  assert (class b1 = "fvBD") as C1 by (unfold b1; by rewrite !class_SetAttr).
  destruct (add_children_typed b1 [NewRsBdToOut (GetDn b1) (AciL3Out cfg); NewRsCtx (GetDn b1) (AciVrf cfg)] T1) as (b2&->&T2&C2&D2);
    [plain_kids C1 (eq_refl (GetDn b1))|]. cbn [mbind option_bind]. rewrite C1 in C2.
  destruct (add_children_typed b2 (map (NewFvSubnet (GetDn b1)) (NodeServiceSubnets cfg)) T2) as (b3&->&T3&_).
  { apply Forall_forall. intros r (x&->&_)%list_elem_of_fmap. plain_kid C2 D2. }
  cbn [mbind option_bind]. destruct (_ <? _)%Z; [|eexists; split; [reflexivity|]; by apply Forall_singleton].
  assert (tree "fvIPSLAMonitoringPol" (NewFvIPSLAMonitoringPol (AciVrfTenant cfg) (staticMonPolName cfg))) as (mp&->&_&Tm) by plain_tree.
  cbn [mbind option_bind]. eexists. split; [reflexivity|]. apply Forall_cons. split; [done|]. apply Forall_singleton. auto with go.
Qed.

(** ** Which nodes serve a service, and what is written for them *)

(** ** The nodes *)

(** The node that an endpoint of a slice stands for, if it counts. *)
Definition chosen (cfg : SvcCfg) (delayed : list DelayedEpSlice) (service : SvcObj) (e : Endpoint) : option string :=
  if (NoWaitForServiceEpReadiness cfg || bool_decide (ep_Ready e = Some true)) && negb ((0 <? AddDelay cfg)%Z && isDelayedEndpoint delayed e (so_key service)) then
    match ep_NodeName e with Some n => if String.eqb n EmptyString then None else Some n | None => None end
  else None.

(** The nodes that the endpoints of a service name. *)
Definition serving (cfg : SvcCfg) (env : SvcEnv) (delayed : list DelayedEpSlice) (key : string) (service : SvcObj) : list string :=
  if useSlices env then omap (chosen cfg delayed service) (flat_map sl_Endpoints (slices_of env service))
  else match endpointsIndexer env !! key with
       | None => []
       | Some e => omap addr_NodeName (flat_map sub_Addresses (eps_Subsets e))
       end.

Lemma slice_endpoint_eq cfg now nodes delayed service acc e :
  slice_endpoint cfg now nodes delayed service acc e =
  match chosen cfg delayed service e with Some n => setNodeMap now nodes n acc | None => acc end.
Proof.
  unfold slice_endpoint, setNodeMapDelay, chosen. change (NoWaitForServiceEpReadiness cfg || bool_decide (ep_Ready e = Some true)) with (counts cfg e). destruct (0 <? AddDelay cfg)%Z; cbn [andb].
  - destruct (counts cfg e); cbn [andb]; [|done]. destruct (ep_NodeName e) as [n|]; [|by destruct (negb _)].
    destruct (String.eqb n EmptyString), (isDelayedEndpoint _ _ _); done.
  - destruct (counts cfg e); cbn [andb negb]; [|done]. destruct (ep_NodeName e) as [n|]; [|done]. by destruct (String.eqb n _).
Qed.

Lemma GetnodesMetadata_eq cfg env now nodes delayed key service devs :
  GetnodesMetadata cfg env now nodes delayed key service devs =
  foldl (λ acc n, setNodeMap now nodes n acc) (devs, ∅) (serving cfg env delayed key service).
Proof.
  unfold GetnodesMetadata, serving. destruct (useSlices env); [|by destruct (endpointsIndexer env !! key)].
  generalize (devs, ∅ : node_map). induction (flat_map sl_Endpoints (slices_of env service)) as [|e l IH]; intros acc; [done|].
  cbn [foldl omap list_omap]. rewrite slice_endpoint_eq. destruct (chosen cfg delayed service e); apply IH.
Qed.

(** The node has a device, and so a path. *)
Definition has_device (devs : devices) (n : string) : Prop := default [] (devs !! n) ≠ [].

Lemma fabricPath_some now l : (fabricPathForNode now l).1 ≠ [] ↔ l ≠ [].
Proof.
  pose proof (fabricPath_same now l) as H. inversion H; [done|]. split; done.
Qed.

Lemma node_path_none l : node_path l = None ↔ l = [].
Proof.
  unfold node_path. split; [|by intros ->]. destruct (List.find _ _); [done|]. destruct (rev l) eqn:E; [|done].
  intros _. apply (f_equal (@rev _)) in E. by rewrite rev_involutive in E.
Qed.

Lemma setNodeMap_spec now nodes n devs m :
  let '(devs', m') := setNodeMap now nodes n (devs, m) in
  (∀ x, has_device devs' x ↔ has_device devs x) ∧
  ∀ x ep, m' !! x = Some ep ↔ m !! x = Some ep ∧ ¬ (x = n ∧ has_device devs n ∧ is_Some (nodes !! n)) ∨
                            x = n ∧ has_device devs n ∧ nodes !! n = Some ep.
Proof.
  unfold setNodeMap. destruct (nodes !! n) as [e|] eqn:En.
  2:{ split; [done|]. intros x ep. split; [|naive_solver]. intros H. left. split; [done|]. intros (_&_&[? ?]). done. }
  unfold has_device at 3 4. destruct (devs !! n) as [l|] eqn:El; cbn [default].
  2:{ split; [done|]. intros x ep. naive_solver. }
  pose proof (fabricPath_some now l) as Hs. pose proof (fabricPath_path now l) as Hp.
  destruct (fabricPathForNode now l) as [l' path]. cbn [fst snd] in Hs, Hp. split.
  - intros x. unfold has_device. destruct (decide (x = n)) as [->|Hne].
    + rewrite lookup_insert_eq, El. cbn. tauto.
    + by rewrite lookup_insert_ne.
  - intros x ep. subst path. destruct (node_path l) as [p|] eqn:Ep.
    + assert (l ≠ []) as Hl by (intros H; apply node_path_none in H; congruence).
      destruct (decide (x = n)) as [->|Hne]; [rewrite lookup_insert_eq|rewrite lookup_insert_ne by done]; naive_solver.
    + apply node_path_none in Ep. naive_solver.
Qed.

Lemma nodes_fold_spec now nodes names devs m :
  let '(devs', m') := foldl (λ acc n, setNodeMap now nodes n acc) (devs, m) names in
  (∀ x, has_device devs' x ↔ has_device devs x) ∧
  ∀ x ep, m' !! x = Some ep ↔ m !! x = Some ep ∧ ¬ (x ∈ names ∧ has_device devs x ∧ is_Some (nodes !! x)) ∨
                            x ∈ names ∧ has_device devs x ∧ nodes !! x = Some ep.
Proof.
  revert devs m. induction names as [|n names IH]; intros devs m; cbn [foldl].
  { split; [done|]. intros x ep. rewrite elem_of_nil. tauto. }
  pose proof (setNodeMap_spec now nodes n devs m) as H. destruct (setNodeMap now nodes n (devs, m)) as [d1 m1]. destruct H as [Hd Hm].
  specialize (IH d1 m1). destruct (foldl _ (d1, m1) names) as [d2 m2]. destruct IH as [Hd2 Hm2].
  split; [intros x; by rewrite Hd2|]. intros x ep. rewrite Hm2, Hm, Hd, elem_of_cons.
  destruct (decide (x = n)) as [->|Hne]; [|naive_solver].
  destruct (nodes !! n) as [e|]; destruct (decide (n ∈ names)); naive_solver.
Qed.

Lemma GetnodesMetadata_spec cfg env now nodes delayed key service devs x ep :
  (GetnodesMetadata cfg env now nodes delayed key service devs).2 !! x = Some ep ↔
  x ∈ serving cfg env delayed key service ∧ has_device devs x ∧ nodes !! x = Some ep.
Proof.
  rewrite GetnodesMetadata_eq. pose proof (nodes_fold_spec now nodes (serving cfg env delayed key service) devs ∅) as H.
  destruct (foldl _ _ _) as [d m]. destruct H as [_ H]. cbn [snd]. rewrite H, lookup_empty. naive_solver.
Qed.

Lemma sorted_nodes_elem (m : node_map) n : n ∈ sorted_nodes m ↔ is_Some (m !! n).
Proof.
  unfold sorted_nodes, sort_strs. rewrite merge_sort_Permutation, list_elem_of_fmap. split.
  - intros ([x ep]&->&H). apply elem_of_map_to_list in H. by exists ep.
  - intros [ep H]. exists (n, ep). split; [done|]. by apply elem_of_map_to_list.
Qed.

Lemma sorted_nodes_all (m : node_map) : Forall (λ n, is_Some (m !! n)) (sorted_nodes m).
Proof. apply Forall_forall. intros n Hn. by apply sorted_nodes_elem. Qed.

(** ** Destinations *)

(** The destinations of a redirect policy: address, MAC address, node. *)
Definition dest (c : ApicObject) : string * string * string := (GetAttrStr c "ip", GetAttrStr c "mac", GetAttrStr c "descr").
Definition dests (rp : ApicObject) : list (string * string * string) :=
  dest <$> List.filter (λ c, String.eqb (class c) "vnsRedirectDest") (Children rp).

Definition node_dests (n : string) (ep : ServiceEndpoint) : list (string * string * string) :=
  (λ ip, (IP_String ip, Mac ep, n)) <$> List.filter (λ ip, negb (length ip =? 0)%nat) [Ipv4 ep; Ipv6 ep].

Lemma apicRedirectDst_dest p ip mac n hg tr :
  ∃ o, apicRedirectDst p ip mac n hg tr = Some o ∧ class o = "vnsRedirectDest" ∧ dest o = (ip, mac, n).
Proof.
  unfold apicRedirectDst, NewVnsRedirectDest. run_constructor. destruct (negb _ && tr).
  - unfold NewVnsRsRedirectHealthGroup. run_constructor. eexists. split; [reflexivity|]. unfold dest. by autorewrite with apicobj.
  - eexists. split; [reflexivity|]. unfold dest. by autorewrite with apicobj.
Qed.

Lemma redirect_dst_dests rp rpDn n ep tr ip rp' :
  add_children rp (redirect_dst rpDn n ep tr ip) = Some rp' →
  dests rp' = (dests rp ++ ((λ ip, (IP_String ip, Mac ep, n)) <$> List.filter (λ ip, negb (length ip =? 0)%nat) [ip]))%list.
Proof.
  unfold redirect_dst. cbn [List.filter]. destruct (length ip =? 0)%nat; cbn [negb].
  - intros [= <-]. cbn. by rewrite app_nil_r.
  - destruct (apicRedirectDst_dest rpDn (IP_String ip) (Mac ep) n (HealthGroupDn ep) tr) as (o&->&C&D).
    intros [= <-]. unfold dests. rewrite AddChild_children, List.filter_app, fmap_app. f_equal. cbn [List.filter]. rewrite C. cbn. by rewrite D.
Qed.

Lemma redirect_nodes_dests rpDn nodes nodeMap tr rp rp' b :
  redirect_nodes rpDn nodes nodeMap tr false rp = Returns (rp', b) → Forall (λ n, is_Some (nodeMap !! n)) nodes →
  dests rp' = (dests rp ++ flat_map (λ n, match nodeMap !! n with Some ep => node_dests n ep | None => [] end) nodes)%list.
Proof.
  revert rp. induction nodes as [|n nodes IH]; intros rp; cbn [redirect_nodes flat_map].
  { intros [= <- _] _. by rewrite app_nil_r. }
  intros E Hf. apply Forall_cons in Hf as [[ep En] Hf]. rewrite En in *.
  destruct (add_children rp (redirect_dst rpDn n ep tr (Ipv4 ep))) as [rp1|] eqn:E1; [|discriminate E]. cbn [build mbind outcome_bind] in E.
  destruct (add_children rp1 (redirect_dst rpDn n ep tr (Ipv6 ep))) as [rp2|] eqn:E2; [|discriminate E]. cbn [build mbind outcome_bind] in E.
  apply redirect_dst_dests in E1, E2. apply IH in E; [|done]. rewrite E, E2, E1. unfold node_dests.
  change [Ipv4 ep; Ipv6 ep] with ([Ipv4 ep] ++ [Ipv6 ep])%list. by rewrite List.filter_app, fmap_app, !app_assoc.
Qed.

Lemma Returns_inj3 {A B C} (a a' : A) (b b' : B) (c c' : C) : Returns (a, b, c) = Returns (a', b', c') → a = a'.
Proof. by intros [= -> -> ->]. Qed.

Lemma apicRedirectPol_dests name tenant nodes nodeMap mon tr rp d b :
  apicRedirectPol name tenant nodes nodeMap mon tr = Returns (rp, d, b) → Forall (λ n, is_Some (nodeMap !! n)) nodes →
  dests rp = flat_map (λ n, match nodeMap !! n with Some ep => node_dests n ep | None => [] end) nodes.
Proof.
  unfold apicRedirectPol, NewVnsSvcRedirectPol. run_constructor. cbn [build mbind outcome_bind].
  match goal with |- context [redirect_nodes ?d0 _ _ _ _ ?r0] => set (rp0 := r0) end.
  intros E Hf. destruct (redirect_nodes (GetDn rp0) nodes nodeMap tr false rp0) as [| |[rp1 l1]] eqn:E1; [discriminate E|discriminate E|].
  apply redirect_nodes_dests in E1; [|done]. cbn [mbind outcome_bind] in E. change (dests rp0) with (@nil (string * string * string)) in E1.
  destruct (negb _ && tr); [|apply Returns_inj3 in E as <-; exact E1]. unfold NewVnsRsIPSLAMonitoringPol in E. revert E. run_constructor.
  cbn [build mbind outcome_bind]. intros <-%Returns_inj3. unfold dests in *. rewrite AddChild_children, List.filter_app, fmap_app, E1.
  cbn [List.filter]. autorewrite with apicobj. cbn. by rewrite app_nil_r.
Qed.
