(* ===== verification/SvcWritten.v ===== *)
(** * SvcWritten: the objects that the handlers of services write

    The service graph of a service, the one of source NAT, the device cluster
    and the injected service are built without a panic, with the index mutex
    free at the end, and are typed trees. *)
From S2P Require Import Prelude GoBytes GoNet GoText IpAlloc ApicMetadata ApicTypes ApicBuild ApicTypesFacts K8s AciNames.
From S2P Require Import PodNet SvcTypes OpflexDev OpflexProps SvcGraph SvcNodes SvcGraphFacts.

Open Scope string_scope.

(** Every object that the effects write is a typed tree. *)
Definition effect_typed (e : svc_effect) : Prop := match e with SvcWrite _ objs => Forall typed objs | _ => True end.
Definition effects_typed : list svc_effect → Prop := Forall effect_typed.

(** ** Lists of constructor calls *)

Lemma mapM_trees {A} (f : A → option ApicObject) l :
  (∀ a, ∃ cl, tree cl (f a)) → ∃ os, mapM f l = Some os ∧ Forall typed os.
Proof.
  intros H. induction l as [|a l (os&E&T)]; [by exists []|]. destruct (H a) as (cl&o&Eo&_&To).
  exists (o :: os). split; [|by constructor]. cbn [mapM]. cbn. by rewrite Eo, E.
Qed.

Lemma apicExtNetCons_tree c t l n : tree "fvRsCons" (apicExtNetCons c t l n).
Proof. unfold apicExtNetCons. plain_tree. Qed.
Lemma apicExtNetProv_tree c t l n : tree "fvRsProv" (apicExtNetProv c t l n).
Proof. unfold apicExtNetProv. plain_tree. Qed.

(** ** The graph of a service *)

Lemma graph_objs_typed cfg name g dev scope custom snat service nodes nodeMap :
  Forall (λ n, is_Some (nodeMap !! n)) nodes →
  ∃ rp rest d, graph_objs cfg name g dev scope custom snat service nodes nodeMap = Returns (rp :: rest, false) ∧
    Forall typed (rp :: rest) ∧
    apicRedirectPol name (AciVrfTenant cfg) nodes nodeMap (staticMonPolDn cfg) (AciPbrTrackingNonSnat cfg) = Returns (rp, d, false) ∧
    ∃ flt, flt ∈ rest ∧
      apicFilter name (AciVrfTenant cfg) (so_Ports service) snat (SnatDefaultPortRangeStart cfg, SnatDefaultPortRangeEnd cfg) = Some flt.
Proof.
  intros Hf. unfold graph_objs.
  destruct (apicRedirectPol_typed name (AciVrfTenant cfg) nodes nodeMap (staticMonPolDn cfg) (AciPbrTrackingNonSnat cfg) Hf) as (rp&d&E&Trp&_).
  rewrite E. cbn [mbind outcome_bind].
  destruct (apicExtNet_tree name (AciVrfTenant cfg) (AciL3Out cfg) (ing_IP <$> so_Ingress service) (String.eqb scope "global") false) as (en&->&_&Ten).
  cbn [build mbind outcome_bind]. destruct (apicContract_tree name (AciVrfTenant cfg) g scope false custom) as (con&->&_&Tcon).
  cbn [build mbind outcome_bind]. destruct (mapM_trees (apicExtNetCons name (AciVrfTenant cfg) (AciL3Out cfg)) (AciExtNetworks cfg)) as (cs&->&Tcs).
  { intros n. exists "fvRsCons". apply apicExtNetCons_tree. }
  cbn [build mbind outcome_bind].
  destruct (apicFilter_tree name (AciVrfTenant cfg) (so_Ports service) snat (SnatDefaultPortRangeStart cfg, SnatDefaultPortRangeEnd cfg)) as (fl&->&_&Tfl).
  cbn [build mbind outcome_bind].
  destruct (apicDevCtx_tree name (AciVrfTenant cfg) g dev (svc_aciName cfg "bd" ServiceBd) d false) as (ctx&->&_&Tctx).
  cbn [build mbind outcome_bind]. exists rp, ([en; con] ++ cs ++ [fl; ctx])%list, d. split; [reflexivity|]. split.
  - apply Forall_cons; split; [done|]. cbn [app]. apply Forall_cons; split; [done|]. apply Forall_cons; split; [done|].
    apply Forall_app; split; [done|]. apply Forall_cons; split; [done|]. by apply Forall_singleton.
  - split; [done|]. exists fl. split; [|reflexivity]. rewrite !elem_of_app. right. right. apply list_elem_of_here.
Qed.

Lemma updateServiceDeviceInstance_returns cfg env now nodes delayed snat key service devs :
  ∃ devs' err e, updateServiceDeviceInstance cfg env now nodes delayed snat key service devs = Returns (devs', err, e, false) ∧
    effects_typed e ∧ (err = true ↔ contract_scope service = None).
Proof.
  unfold updateServiceDeviceInstance. destruct (GetnodesMetadata cfg env now nodes delayed key service devs) as [devs' nodeMap].
  destruct (contract_scope service) as [scope|]; [|by eexists _, _, _; repeat split; constructor]. cbv zeta.
  destruct (0 <? length (sorted_nodes nodeMap))%nat.
  - match goal with |- context [graph_objs ?a ?b ?c ?d ?e ?f ?g ?h ?i ?j] =>
      destruct (graph_objs_typed a b c d e f g h i j (sorted_nodes_all nodeMap)) as (rp&rest&dn&E&T&_) end.
    rewrite E. cbn [mbind outcome_bind]. eexists _, _, _. split; [reflexivity|]. split; [apply Forall_singleton; exact T|split; discriminate].
  - eexists _, _, _. split; [reflexivity|]. split; [apply Forall_singleton, Forall_nil_2|done].
Qed.

(** ** The graph of source NAT *)

Lemma snat_redirect_typed cfg name nodes nodeMap :
  Forall (λ n, is_Some (nodeMap !! n)) nodes →
  ∃ rps d, snat_redirect cfg name nodes nodeMap = Returns (rps, d, false) ∧ Forall typed rps.
Proof.
  intros Hf. unfold snat_redirect. destruct (SnatPbrFltrChain cfg).
  - destruct (apicRedirectPol_typed (name ++ "_Cons") (AciVrfTenant cfg) nodes nodeMap (staticMonPolDn cfg) true Hf) as (r1&d1&->&T1&_).
    cbn [mbind outcome_bind].
    destruct (apicRedirectPol_typed (name ++ "_Prov") (AciVrfTenant cfg) nodes nodeMap (staticMonPolDn cfg) true Hf) as (r2&d2&->&T2&_).
    cbn [mbind outcome_bind]. eexists _, _. split; [reflexivity|]. apply Forall_cons; split; [done|by apply Forall_singleton].
  - destruct (apicRedirectPol_typed name (AciVrfTenant cfg) nodes nodeMap (staticMonPolDn cfg) true Hf) as (r1&d1&->&T1&_).
    cbn [mbind outcome_bind]. eexists _, _. split; [reflexivity|by apply Forall_singleton].
Qed.

Lemma snat_filters_typed cfg name : ∃ fs, snat_filters cfg name = Some fs ∧ Forall typed fs.
Proof.
  unfold snat_filters. set (r := (SnatDefaultPortRangeStart cfg, SnatDefaultPortRangeEnd cfg)). destruct (SnatPbrFltrChain cfg).
  - destruct (apicFilterSnat_tree (name ++ "_fromCons-toProv") (AciVrfTenant cfg) r false) as (f1&->&_&T1).
    destruct (apicFilterSnat_tree (name ++ "_fromProv-toCons") (AciVrfTenant cfg) r true) as (f2&->&_&T2).
    exists [f1; f2]. split; [reflexivity|]. apply Forall_cons; split; [done|by apply Forall_singleton].
  - destruct (apicFilterSnat_tree name (AciVrfTenant cfg) r false) as (f1&->&_&T1).
    exists [f1]. split; [reflexivity|by apply Forall_singleton].
Qed.

Lemma snat_objs_typed cfg name g ips nodes nodeMap :
  Forall (λ n, is_Some (nodeMap !! n)) nodes →
  ∃ objs, snat_objs cfg name g ips nodes nodeMap = Returns (objs, false) ∧ Forall typed objs.
Proof.
  intros Hf. unfold snat_objs. destruct (snat_redirect_typed cfg name nodes nodeMap Hf) as (rps&d&->&Trp). cbn [mbind outcome_bind].
  destruct (apicExtNet_tree name (AciVrfTenant cfg) (AciL3Out cfg) (concat ips) true true) as (en&->&_&Ten). cbn [build mbind outcome_bind].
  destruct (apicContract_tree name (AciVrfTenant cfg) g (SnatSvcContractScope cfg) (SnatPbrFltrChain cfg) false) as (con&->&_&Tcon).
  cbn [build mbind outcome_bind]. destruct (mapM_trees (apicExtNetProv name (AciVrfTenant cfg) (AciL3Out cfg)) (AciExtNetworks cfg)) as (ps&->&Tps).
  { intros n. exists "fvRsProv". apply apicExtNetProv_tree. }
  cbn [build mbind outcome_bind]. destruct (snat_filters_typed cfg name) as (fs&->&Tfs). cbn [build mbind outcome_bind].
  destruct (apicDevCtx_tree name (AciVrfTenant cfg) g g (svc_aciName cfg "bd" ServiceBd) d (SnatPbrFltrChain cfg)) as (ctx&->&_&Tctx).
  cbn [build mbind outcome_bind]. eexists. split; [reflexivity|].
  apply Forall_app; split; [done|]. apply Forall_cons; split; [done|]. apply Forall_cons; split; [done|].
  apply Forall_app; split; [done|]. apply Forall_app; split; [done|]. by apply Forall_singleton.
Qed.

Lemma updateServiceDeviceInstanceSnat_returns cfg env now nodes ips key devs :
  ∃ devs' e, updateServiceDeviceInstanceSnat cfg env now nodes ips key devs = Returns (devs', e, false) ∧ effects_typed e.
Proof.
  unfold updateServiceDeviceInstanceSnat. destruct (bool_decide (nodes = ∅)); [by eexists _, _; repeat split; constructor|].
  destruct (snat_nodes now nodes (MaxSvcGraphNodes cfg) (nodeIndexer env) (devs, ∅)) as [devs' nodeMap]. cbv zeta.
  destruct (0 <? length (sorted_nodes nodeMap))%nat.
  - destruct (snat_objs_typed cfg (svc_aciName cfg "snat" key) (svc_aciName cfg "svc" "global") ips _ nodeMap (sorted_nodes_all nodeMap)) as (objs&->&T).
    cbn [mbind outcome_bind]. eexists _, _. split; [reflexivity|by apply Forall_singleton].
  - eexists _, _. split; [reflexivity|apply Forall_singleton, Forall_nil_2].
Qed.

(** ** The injected service *)

(** Attributes other than the DN were set. *)
Definition dressed (o o' : ApicObject) : Prop := class o' = class o ∧ GetDn o' = GetDn o ∧ (typed o → typed o').

Lemma dressed_refl o : dressed o o.
Proof. done. Qed.
Lemma dressed_trans o1 o2 o3 : dressed o1 o2 → dressed o2 o3 → dressed o1 o3.
Proof. intros (C1&D1&T1) (C2&D2&T2). split_and!; [congruence|congruence|auto]. Qed.
Lemma dressed_set o k v : k ≠ "dn" → dressed o (SetAttr o k v).
Proof. intros Hk. split_and!; [apply class_SetAttr|by apply SetAttr_dn|by apply typed_SetAttr]. Qed.
Lemma dressed_if b o k v : k ≠ "dn" → dressed o (set_if b k v o).
Proof. intros Hk. destruct b; [by apply dressed_set|apply dressed_refl]. Qed.
Lemma dressed_fold {A} (f : ApicObject → A → ApicObject) l o : (∀ o a, dressed o (f o a)) → dressed o (foldl f o l).
Proof.
  intros H. revert o. induction l as [|a l IH]; intros o; [apply dressed_refl|]. eapply dressed_trans; [apply H|apply IH].
Qed.
#[export] Hint Resolve dressed_refl dressed_set dressed_if : go.

Lemma lb_ip_dressed env service o : dressed o (lb_ip env service o).
Proof.
  unfold lb_ip. destruct (so_Ingress service) as [|i l]; [apply dressed_refl|]. destruct (has_ip i); [by apply dressed_set|].
  destruct (negb _); [|apply dressed_refl]. destruct (LookupHost env (ing_Hostname i)) as [[|ip ips]|]; [apply dressed_refl|by apply dressed_set|apply dressed_refl].
Qed.

Lemma dns_name_dressed cfg service o : dressed o (dns_name cfg service o).
Proof.
  unfold dns_name. destruct (_ || _); [|apply dressed_refl]. eapply dressed_trans; [|by apply dressed_if].
  apply dressed_fold. intros o' i. destruct (negb _); [by apply dressed_set|by apply dressed_if].
Qed.

Lemma SetServiceApicObject_typed env o service :
  typed o → class o = "vmmInjectedSvc" →
  ∃ r, SetServiceApicObject env o service = Some r ∧ ∀ o', r = Some o' → typed o' ∧ class o' = "vmmInjectedSvc" ∧ GetDn o' = GetDn o.
Proof.
  intros T C. assert (∀ eps, ∃ o', add_children o (map (NewVmmInjectedSvcEp (GetDn o)) eps) = Some o' ∧ typed o' ∧ class o' = class o ∧ GetDn o' = GetDn o) as H.
  { intros eps. apply add_children_typed; [done|]. apply Forall_forall. intros r (n&->&_)%list_elem_of_fmap. plain_kid C (eq_refl (GetDn o)). }
  unfold SetServiceApicObject. rewrite C in H. destruct (useSlices env).
  - match goal with |- context [elements ?x] => destruct (H (elements x)) as (o'&->&T'&C'&D') end. cbn [mbind option_bind].
    eexists. split; [reflexivity|]. intros o''. destruct (_ =? _)%nat; [done|]. intros E. injection E as <-. done.
  - match goal with |- context [map _ ?x] => destruct (H x) as (o'&->&T'&C'&D') end. cbn [mbind option_bind].
    eexists. split; [reflexivity|]. intros o'' E. injection E as <-. done.
Qed.

Lemma svc_port_tree dn p : tree_under "vmmInjectedSvcPort" dn (svc_port dn p).
Proof.
  unfold svc_port.
  assert (tree_under "vmmInjectedSvcPort" dn (NewVmmInjectedSvcPort dn (Itoa (port_Port p)) (getProtocolStr (port_Protocol p)) (IntOrString_String (port_TargetPort p))))
    as (o&->&C&T&D) by plain_under.
  cbn [mbind option_bind]. eexists. split; [reflexivity|]. autorewrite with apicobj. split_and!; [done|by apply typed_SetAttr|done].
Qed.

Lemma add_children_total o cs : Forall is_Some cs → is_Some (add_children o cs).
Proof. intros H. rewrite add_children_eq. apply fmap_is_Some, mapM_is_Some_2. eapply Forall_impl; [exact H|done]. Qed.

Lemma NewVmmInjectedLabel_some d n v : is_Some (NewVmmInjectedLabel d n v).
Proof. assert (tree "vmmInjectedLabel" (NewVmmInjectedLabel d n v)) as (o&->&_) by plain_tree. by eexists. Qed.

(** The injected service is built, and it is typed unless labels are added:
    those are children only once the metadata is extended at run time. *)
Lemma writeApicSvc_typed cfg env key service :
  ∃ e, writeApicSvc cfg env key service = Some e ∧ (EnableVmmInjectedLabels cfg = false → effects_typed e).
Proof.
  unfold writeApicSvc. destruct (ChainedMode cfg); [eexists; split; [reflexivity|constructor]|]. cbv zeta.
  assert (tree "vmmInjectedSvc" (NewVmmInjectedSvc (svc_vmmProvider cfg) (AciVmmDomain cfg) (AciVmmController cfg) (so_Namespace service) (so_Name service)))
    as (o&->&C&T) by plain_tree.
  cbn [mbind option_bind]. destruct (bool_decide (so_Namespace service ∈ namespaceIndexer env)); [|eexists; split; [reflexivity|constructor]].
  destruct (SetServiceApicObject_typed env (SetAttr o "guid" (AStr (so_UID service))) service) as (r&->&Hr);
    [by apply typed_SetAttr|by rewrite class_SetAttr|]. cbn [mbind option_bind].
  destruct r as [o1|]; [|eexists; split; [reflexivity|constructor]]. destruct (Hr o1 eq_refl) as (T1&C1&D1). rewrite SetAttr_dn in D1 by done.
  match goal with |- context [add_children ?x (map _ (so_Ports service))] => assert (dressed o1 x) as (C2&D2&T2); [|set (o2 := x) in *] end.
  { eapply dressed_trans; [|apply dns_name_dressed]. eapply dressed_trans; [|by apply dressed_if]. eapply dressed_trans; [|by apply dressed_if]. apply lb_ip_dressed. }
  clearbody o2. rewrite C1 in C2. destruct (add_children_typed o2 (map (svc_port (GetDn o)) (so_Ports service)) (T2 T1)) as (o3&->&T3&C3&D3).
  { apply Forall_forall. intros x (p&->&_)%list_elem_of_fmap. eapply kid_intro; [exact C2|rewrite D2, D1; reflexivity|].
    exists "vmmInjectedSvcPort". split; [child_class|apply svc_port_tree]. }
  cbn [mbind option_bind]. destruct (add_children_total o3 (svc_labels cfg (GetDn o3) service)) as [o4 E4].
  { unfold svc_labels. destruct (_ && _); [|constructor]. apply Forall_forall. intros x (kv&->&_)%list_elem_of_fmap. apply NewVmmInjectedLabel_some. }
  rewrite E4. cbn [mbind option_bind]. eexists. split; [reflexivity|]. intros Hl. apply Forall_singleton. unfold svc_labels in E4. rewrite Hl in E4.
  cbn in E4. injection E4 as <-. by apply Forall_singleton.
Qed.

(** ** The traffic that the filter of a service permits *)

(** An entry that matches the destination port of a packet. *)
Definition entry_permits (c : ApicObject) (proto : string) (port : Z) : Prop :=
  ∃ lo hi, class c = "vzEntry" ∧ GetAttrStr c "etherT" = "ip" ∧ GetAttrStr c "prot" = proto ∧
    GetAttrStr c "dFromPort" = Itoa lo ∧ GetAttrStr c "dToPort" = Itoa hi ∧ (lo <= port <= hi)%Z.
Definition filter_permits (flt : ApicObject) (proto : string) (port : Z) : Prop :=
  ∃ c, c ∈ Children flt ∧ entry_permits c proto port.

(** What a service asks for: its own ports and, if it also serves source NAT,
    the ports of the SNAT range. *)
Definition service_permits (ports : list SvcPort) (snat : bool) (range : portRangeSnat) (proto : string) (port : Z) : Prop :=
  (∃ p, p ∈ ports ∧ getProtocolStr (port_Protocol p) = proto ∧ port_Port p = port) ∨
  snat = true ∧ (proto = "tcp" ∨ proto = "udp") ∧ (range.1 <= port <= range.2)%Z.

(** An entry with name, protocol and range of destination ports. *)
Definition entry_like (f : string) (c : ApicObject) (n : Z) (prot : string) (lo hi : Z) : Prop :=
  class c = "vzEntry" ∧ GetDn c = f ++ "/e-" ++ Itoa n ∧ GetAttrStr c "etherT" = "ip" ∧ GetAttrStr c "prot" = prot ∧
  GetAttrStr c "dFromPort" = Itoa lo ∧ GetAttrStr c "dToPort" = Itoa hi.

Lemma apicFilterEntry_like f n prot lo hi :
  ∃ c, apicFilterEntry f (Itoa n) (Itoa lo) (Itoa hi) prot "no" false false = Some c ∧ entry_like f c n prot lo hi.
Proof.
  unfold apicFilterEntry, NewVzEntry. run_constructor. eexists. split; [reflexivity|]. unfold entry_like. autorewrite with apicobj.
  split_and!; [done| |done|done|done|done]. apply SetAttr_dn_eq. intros H. destruct f; discriminate H.
Qed.

Lemma entry_permits_iff f c n prot lo hi proto port :
  entry_like f c n prot lo hi → entry_permits c proto port ↔ prot = proto ∧ (lo <= port <= hi)%Z.
Proof.
  intros (C&_&E&P&L&H). split.
  - intros (lo'&hi'&_&_&Hp&Hl&Hh&Hr). rewrite L in Hl. rewrite H in Hh. apply (inj pretty) in Hl as <-, Hh as <-. by rewrite P in Hp.
  - intros [<- Hr]. exists lo, hi. done.
Qed.

(** The entries of the ports, in order. *)
Definition port_like (f : string) (k : nat) (i : nat) (p : SvcPort) (c : ApicObject) : Prop :=
  entry_like f c (Z.of_nat (k + i)) (getProtocolStr (port_Protocol p)) (port_Port p) (port_Port p).

Lemma port_entries f k ports :
  ∃ cs, mapM id (imap (λ i p, apicFilterEntry f (Itoa (Z.of_nat (k + i))) (Itoa (port_Port p)) (Itoa (port_Port p))
                                (getProtocolStr (port_Protocol p)) "no" false false) ports) = Some cs ∧
    length cs = length ports ∧ ∀ i p c, ports !! i = Some p → cs !! i = Some c → port_like f k i p c.
Proof.
  revert k. induction ports as [|p ports IH]; intros k; [by exists []|]. destruct (IH (S k)) as (cs&E&L&H).
  destruct (apicFilterEntry_like f (Z.of_nat (k + 0)) (getProtocolStr (port_Protocol p)) (port_Port p) (port_Port p)) as (c&Ec&Hc).
  exists (c :: cs). split; [|split; [cbn; by rewrite L|]].
  - apply mapM_Some. cbn [imap]. constructor; [exact Ec|]. apply mapM_Some in E. erewrite imap_ext; [exact E|].
    intros i x _. cbn. by replace (k + S i)%nat with (S (k + i)) by lia.
  - intros [|i] q d; cbn; [by intros [= <-] [= <-]|]. intros Hq Hd. specialize (H i q d Hq Hd). unfold port_like in *.
    by replace (k + S i)%nat with (S k + i)%nat by lia.
Qed.

Lemma entry_dn_inj f n m : f ++ "/e-" ++ Itoa n = f ++ "/e-" ++ Itoa m → n = m.
Proof. intros H. apply (inj (String.append f)), (inj (String.append "/e-")) in H. by apply (inj pretty) in H. Qed.

(** The filter: the entries of the ports, and two more for source NAT. *)
Lemma apicFilter_entries name tenant ports snat range :
  ∃ flt f cs ss, apicFilter name tenant ports snat range = Some flt ∧ Children flt = (cs ++ ss)%list ∧
    length cs = length ports ∧ (∀ i p c, ports !! i = Some p → cs !! i = Some c → port_like f 0 i p c) ∧
    if snat then ∃ c1 c2, ss = [c1; c2] ∧ entry_like f c1 (Z.of_nat (length ports - 1 + 1)) "tcp" range.1 range.2 ∧
                          entry_like f c2 (Z.of_nat (length ports - 1 + 2)) "udp" range.1 range.2
    else ss = [].
Proof.
  unfold apicFilter, NewVzFilter. run_constructor.
  match goal with |- context [GetDn ?x] => set (flt := x) end.
  destruct (port_entries (GetDn flt) 0 ports) as (cs&E&L&H). rewrite add_children_eq. cbn [Nat.add] in E. rewrite E. cbn [fmap option_fmap option_map mbind option_bind].
  assert (Children (with_children flt cs) = cs) as Hc by (unfold flt; by autorewrite with apicobj).
  destruct snat.
  - destruct (apicFilterEntry_like (GetDn flt) (Z.of_nat (length ports - 1 + 1)) "tcp" range.1 range.2) as (c1&E1&H1).
    destruct (apicFilterEntry_like (GetDn flt) (Z.of_nat (length ports - 1 + 2)) "udp" range.1 range.2) as (c2&E2&H2).
    rewrite E1, E2, add_children_eq. cbn [mapM id mbind option_bind fmap option_fmap option_map mret option_ret].
    exists (with_children (with_children flt cs) [c1; c2]), (GetDn flt), cs, [c1; c2]. split; [reflexivity|].
    split; [by rewrite with_children_children, Hc|]. eauto 10.
  - exists (with_children flt cs), (GetDn flt), cs, []. split; [reflexivity|]. split; [by rewrite Hc, app_nil_r|]. done.
Qed.

Lemma port_lists_elem f ports cs c :
  length cs = length ports → (∀ i p c, ports !! i = Some p → cs !! i = Some c → port_like f 0 i p c) →
  c ∈ cs → ∃ i p, ports !! i = Some p ∧ cs !! i = Some c ∧ port_like f 0 i p c.
Proof.
  intros L H [i Hi]%list_elem_of_lookup_1. destruct (lookup_lt_is_Some_2 ports i) as [p Hp].
  { rewrite <- L. by eapply lookup_lt_Some. }
  exists i, p. split_and!; [done|done|by eapply H].
Qed.

Lemma port_entries_permit f ports cs proto port :
  length cs = length ports → (∀ i p c, ports !! i = Some p → cs !! i = Some c → port_like f 0 i p c) →
  (∃ c, c ∈ cs ∧ entry_permits c proto port) ↔ ∃ p, p ∈ ports ∧ getProtocolStr (port_Protocol p) = proto ∧ port_Port p = port.
Proof.
  intros L H. split.
  - intros (c&Hc&He). destruct (port_lists_elem f ports cs c L H Hc) as (i&p&Hp&_&Hl).
    apply (entry_permits_iff _ _ _ _ _ _ _ _ Hl) in He as [He Hr]. exists p. split; [by eapply list_elem_of_lookup_2|]. split; [done|lia].
  - intros (p&[i Hp]%list_elem_of_lookup_1&Hpr&Hpo). destruct (lookup_lt_is_Some_2 cs i) as [c Hc].
    { rewrite L. by eapply lookup_lt_Some. }
    exists c. split; [by eapply list_elem_of_lookup_2|]. apply (entry_permits_iff _ _ _ _ _ _ _ _ (H i p c Hp Hc)). split; [done|lia].
Qed.

Lemma port_entries_dns f ports cs :
  length cs = length ports → (∀ i p c, ports !! i = Some p → cs !! i = Some c → port_like f 0 i p c) →
  GetDn <$> cs = (λ i, f ++ "/e-" ++ Itoa (Z.of_nat i)) <$> seq 0 (length ports).
Proof.
  intros L H. apply list_eq. intros i. rewrite !list_lookup_fmap. destruct (cs !! i) as [c|] eqn:Hc.
  - assert (i < length ports)%nat as Hi by (rewrite <- L; by eapply lookup_lt_Some).
    destruct (lookup_lt_is_Some_2 ports i Hi) as [p Hp]. rewrite lookup_seq_lt by done. cbn. f_equal. by destruct (H i p c Hp Hc) as (_&->&_).
  - apply lookup_ge_None in Hc. rewrite lookup_seq_ge by lia. done.
Qed.

(** C13: The filter that is built for a service permits a packet exactly if the service has a port of the packet's protocol and number or, for a service that also serves source NAT, the packet is TCP or UDP to a port of the SNAT range; and no two entries have the same DN. *)
Theorem svc_filter_ports name tenant ports snat range :
  ∃ flt, apicFilter name tenant ports snat range = Some flt ∧
    (∀ proto port, filter_permits flt proto port ↔ service_permits ports snat range proto port) ∧
    NoDup (GetDn <$> Children flt).
Proof.
  destruct (apicFilter_entries name tenant ports snat range) as (flt&f&cs&ss&E&Hc&L&H&Hs). exists flt. split; [done|].
  assert (NoDup (GetDn <$> cs)) as Hn.
  { rewrite (port_entries_dns f ports cs L H). apply NoDup_fmap_2; [|apply NoDup_seq]. intros i j Hij. apply entry_dn_inj in Hij. lia. }
  pose proof (port_entries_permit f ports cs) as Hp. split.
  - intros proto port. unfold filter_permits, service_permits. rewrite Hc. destruct snat.
    + destruct Hs as (c1&c2&->&H1&H2). rewrite <- (Hp proto port L H). setoid_rewrite elem_of_app. split.
      * intros (c&[Hin|Hin]&He); [left; exists c; exact (conj Hin He)|]. right. split; [done|].
        apply elem_of_cons in Hin as [->|Hin]; [apply (entry_permits_iff _ _ _ _ _ _ _ _ H1) in He as [<- ?]; auto|].
        apply list_elem_of_singleton in Hin as ->. apply (entry_permits_iff _ _ _ _ _ _ _ _ H2) in He as [<- ?]. auto.
      * intros [(c&Hin&He)|(_&[->| ->]&Hr)]; [exists c; split; [by left|exact He]|exists c1|exists c2].
        -- split; [right; apply list_elem_of_here|]. apply (entry_permits_iff _ _ _ _ _ _ _ _ H1). exact (conj eq_refl Hr).
        -- split; [right; apply list_elem_of_further, list_elem_of_here|]. apply (entry_permits_iff _ _ _ _ _ _ _ _ H2). exact (conj eq_refl Hr).
    + subst ss. rewrite app_nil_r, (Hp proto port L H). split; [by left|]. intros [?|[? _]]; done.
  - rewrite Hc, fmap_app. destruct snat; [|subst ss; by rewrite app_nil_r]. destruct Hs as (c1&c2&->&(_&D1&_)&(_&D2&_)). cbn [fmap list_fmap].
    rewrite D1, D2. apply NoDup_app. split; [done|]. rewrite (port_entries_dns f ports cs L H). split.
    + intros d (i&->&Hi%elem_of_seq)%list_elem_of_fmap Hd.
      apply elem_of_cons in Hd as [Hd|Hd%list_elem_of_singleton]; apply entry_dn_inj in Hd; lia.
    + apply NoDup_cons. split; [|apply NoDup_singleton]. intros Hd%list_elem_of_singleton%entry_dn_inj. lia.
Qed.
