(* ===== verification/SvcRuns.v ===== *)
(** * SvcRuns: runs of the service queue

    Every item of the service queue is processed to its end: the handlers
    neither panic nor block, and leave the index mutex free. *)
From S2P Require Import Prelude GoBytes GoNet GoText IpAlloc IpCache ApicMetadata ApicTypes ApicBuild ApicTypesFacts PodIndex K8s AciNames.
From S2P Require Import NetPol NetPolIndex NetPolAugment NetPolCtl.
From S2P Require Import PodNet SvcTypes OpflexDev OpflexProps SvcGraph SvcNodes SvcIps Services SvcIpsFacts SvcGraphFacts SvcWritten.

Open Scope string_scope.

(** ** The two pools of each family *)

(** The handlers index the pools of the cache; there are always two of each
    family. *)
Definition two_pools (s : IpState) : Prop :=
  length (cacheIpsV4 (serviceIps s)) = 2%nat ∧ length (cacheIpsV6 (serviceIps s)) = 2%nat.

Lemma two_pools_same s s' : serviceIps s' = serviceIps s → two_pools s → two_pools s'.
Proof. intros E. unfold two_pools. by rewrite E. Qed.

Lemma init_two_pools cfg : two_pools (initServiceIps cfg).
Proof.
  unfold two_pools, initServiceIps, LoadRanges. cbn [serviceIps].
  assert (∀ rs c, length (cacheIpsV4 c) = 2%nat ∧ length (cacheIpsV6 c) = 2%nat →
    length (cacheIpsV4 (fold_left LoadRange rs c)) = 2%nat ∧ length (cacheIpsV6 (fold_left LoadRange rs c)) = 2%nat) as H; [|by apply H].
  induction rs as [|r rs IH]; intros c Hc; [done|]. cbn [fold_left]. apply IH. unfold LoadRange, add_first.
  repeat case_match; cbn [cacheIpsV4 cacheIpsV6]; rewrite ?length_insert; done.
Qed.

Lemma returnServiceIps_two ips s : two_pools s → two_pools (returnServiceIps ips s).
Proof.
  unfold two_pools, returnServiceIps. cbn [set_cache serviceIps]. generalize (serviceIps s) as c.
  induction ips as [|ip ips IH]; intros c Hc; [done|]. cbn [foldl]. apply IH. unfold returnServiceIp, DeallocateIp, add_last.
  repeat case_match; cbn [cacheIpsV4 cacheIpsV6]; rewrite ?length_insert; done.
Qed.

Lemma AllocateIp_two c v4 :
  length (cacheIpsV4 c) = 2%nat ∧ length (cacheIpsV6 c) = 2%nat →
  length (cacheIpsV4 (AllocateIp c v4).1) = 2%nat ∧ length (cacheIpsV6 (AllocateIp c v4).1) = 2%nat.
Proof.
  intros [H4 H6]. assert (∀ l, length l = 2%nat → length (allocate l).1 = 2%nat) as Ha.
  { intros l Hl. unfold allocate. destruct (_ && _); [done|]. destruct (GetIp _) as [ipa res]. cbn [fst]. rewrite length_insert.
    destruct (Empty _); [|done]. rewrite length_app, length_drop, Hl. done. }
  unfold AllocateIp. destruct v4; [pose proof (Ha _ H4) as H|pose proof (Ha _ H6) as H];
    destruct (allocate _) as [l res]; by split.
Qed.

Lemma fit_family_two v4 cl ip reqs ips s : two_pools s → two_pools (fit_family v4 cl ip reqs ips s).2.
Proof.
  intros H. unfold fit_family. destruct (_ && _).
  - destruct (_ <? _)%nat; [|done]. pose proof (AllocateIp_two (serviceIps s) v4 H) as H'.
    by destruct (AllocateIp (serviceIps s) v4) as [c [x|]].
  - destruct (_ && _); [|done]. by apply returnServiceIps_two.
Qed.

Lemma take_dynamic_two v4 ip s : two_pools s → ∃ b s', take_dynamic v4 ip s = Returns (b, s') ∧ two_pools s'.
Proof.
  intros H. destruct H as [H4 H6]. unfold take_dynamic.
  destruct v4; [destruct (cacheIpsV4 _) as [|a l] eqn:E|destruct (cacheIpsV6 _) as [|a l] eqn:E]; try (cbn in *; lia);
    destruct (IpAlloc.RemoveIp a ip) as [ipa found]; (eexists _, _; split; [reflexivity|]); by split.
Qed.

Lemma adopt_ip_two meta s ip : two_pools s → ∃ m s', adopt_ip (meta, s) ip = Returns (m, s') ∧ two_pools s'.
Proof.
  intros H. assert (∀ v4, ∃ m s', adopt_family v4 meta s ip = Returns (m, s') ∧ two_pools s') as Hf.
  { intros v4. unfold adopt_family. destruct (take_dynamic_two v4 ip s H) as (b&s1&->&H1). cbn [mbind outcome_bind].
    destruct b; [by eexists _, _|]. unfold take_static. destruct (IpAlloc.RemoveIp _ ip) as [ipa found]. destruct found; by eexists _, _. }
  unfold adopt_ip. destruct (is_To4 ip), (is_To16 ip); try apply Hf. by eexists _, _.
Qed.

Lemma find_meta_two key service s : two_pools s → ∃ m s', find_meta key service s = Returns (m, s') ∧ two_pools s'.
Proof.
  intros H. unfold find_meta. destruct (serviceMetaCache s !! key) as [m|]; [by eexists _, _|].
  assert (∀ l m s, two_pools s → ∃ m' s', foldO adopt_ip (m, s) l = Returns (m', s') ∧ two_pools s') as Hl.
  { clear. induction l as [|ip l IH]; intros m s H; [by eexists _, _|]. cbn [foldO].
    destruct (adopt_ip_two m s ip H) as (m1&s1&->&H1). cbn [mbind outcome_bind]. by apply IH. }
  destruct (Hl (omap (λ i, ParseIP (ing_IP i)) (so_Ingress service)) no_meta s H) as (m'&s'&->&H'). by eexists _, _.
Qed.

Lemma request_ip_pools static acc ip : serviceIps (request_ip static acc ip).2 = serviceIps acc.2.
Proof.
  destruct acc as [got s]. unfold request_ip, take_static. destruct (bool_decide _); [done|].
  repeat (case_match; simplify_eq; try done).
Qed.

Lemma returnUnused_pools static got s : serviceIps (returnUnusedStaticIngressIps static got s) = serviceIps s.
Proof.
  unfold returnUnusedStaticIngressIps. revert s. induction static as [|ip static IH]; intros s; [done|]. cbn [foldl]. rewrite IH.
  by destruct (existsb _ _).
Qed.

Lemma apply_requests_two reqs meta s : two_pools s → two_pools (apply_requests reqs meta s).2.
Proof.
  intros H. unfold apply_requests. destruct (0 <? length reqs)%nat.
  - assert (∀ l acc, serviceIps (foldl (request_ip (staticIngressIps meta)) acc l).2 = serviceIps acc.2) as Hl.
    { induction l as [|ip l IH]; intros acc; [done|]. cbn [foldl]. by rewrite IH, request_ip_pools. }
    specialize (Hl reqs ([], s)). destruct (foldl _ _ reqs) as [got s1]. cbn [snd] in *. apply returnServiceIps_two.
    eapply two_pools_same; [|exact H]. by rewrite returnUnused_pools.
  - by destruct (0 <? length (requestedIps meta))%nat.
Qed.

(** The handler returns on every path, and on each the mutex is free. *)
Lemma allocateServiceIps_two env sync key service s :
  two_pools s → ∃ r, allocateServiceIps env sync false key service s = Returns r ∧ ar_locked r = false ∧ two_pools (ar_state r).
Proof.
  intros H. unfold allocateServiceIps, unlock_return. cbn [Mutex_Lock mbind outcome_bind].
  destruct (find_meta_two key service s H) as (meta&s1&->&H1). cbn [mbind outcome_bind]. destruct sync; cbn [negb]; [|by eexists].
  destruct (requested service) as [reqs|]; cbn [Mutex_Unlock mbind outcome_bind].
  2:{ pose proof (returnServiceIps_two (ingressIps meta) s1 H1) as H2.
      destruct (updateServiceCondition _ _ _ _ _) as [[? []] ?]; by eexists. }
  pose proof (apply_requests_two reqs meta s1 H1) as H2. destruct (apply_requests reqs meta s1) as [meta2 s2]. cbn [snd] in H2.
  destruct (_ && _); [destruct (updateServiceCondition _ _ _ _ _) as [[? []] ?]; by eexists|].
  destruct (last_ips _) as [ipv4 ipv6]. destruct (cluster_ips service) as [c4 c6].
  pose proof (fit_family_two true c4 ipv4 reqs (ingressIps meta2 ++ staticIngressIps meta2) s2 H2) as H3.
  destruct (fit_family true c4 ipv4 reqs _ s2) as [[x4 l4] s3]. cbn [snd] in H3.
  pose proof (fit_family_two false c6 ipv6 reqs l4 s3 H3) as H4.
  destruct (fit_family false c6 ipv6 reqs l4 s3) as [[x6 l6] s4]. cbn [snd] in H4. destruct (_ && _); [by eexists|].
  eexists. split; [reflexivity|]. match goal with |- context [publish ?a ?b ?c ?d ?e ?f] => destruct (publish_state a b c d e f) as [-> ->] end.
  by split.
Qed.

Lemma clearLbService_two cfg key s :
  two_pools s → ∃ s' e, clearLbService cfg false key s = Returns (s', e, false) ∧ two_pools s'.
Proof.
  intros H. eexists _, _. split; [reflexivity|]. unfold clear_meta. destruct (serviceMetaCache s !! key) as [meta|]; [|done].
  exact (returnServiceIps_two (ingressIps meta) s H).
Qed.

(** ** Items of the queue *)

Section Runs.
Context (cfg : SvcCfg) (env : SvcEnv).

(** What the handlers of services do not touch. *)
Definition same_tables (s s' : SvcState) : Prop :=
  ss_np s' = ss_np s ∧ nodeServiceMetaCache s' = nodeServiceMetaCache s ∧ delayedEpSlices s' = delayedEpSlices s ∧
  snatServices s' = snatServices s ∧ serviceSyncEnabled s' = serviceSyncEnabled s.

Lemma same_tables_refl s : same_tables s s.
Proof. done. Qed.
Lemma same_tables_trans s1 s2 s3 : same_tables s1 s2 → same_tables s2 s3 → same_tables s1 s3.
Proof. intros (A1&A2&A3&A4&A5) (B1&B2&B3&B4&B5). split_and!; congruence. Qed.

(** Ready for the next item: the mutex is free and the pools are there. *)
Definition ready (s : SvcState) : Prop := mutexLocked s = false ∧ two_pools (ss_ips s).

(** The handler returns, and the state is ready again. *)
Definition ends {A} (s : SvcState) (r : outcome (A * SvcState)) : Prop :=
  ∃ a s', r = Returns (a, s') ∧ ready s' ∧ same_tables s s'.

Lemma ends_ret {A} (a : A) s s' : ready s' → same_tables s s' → ends s (Returns (a, s')).
Proof. intros H1 H2. by exists a, s'. Qed.

Lemma ends_later {A} s s' (r : outcome (A * SvcState)) : same_tables s s' → ends s' r → ends s r.
Proof. intros H (a&s2&->&Hm&Hs). exists a, s2. split_and!; [done|done|by eapply same_tables_trans]. Qed.

Lemma clear_service_ends key s : ready s →
  ∃ s', clear_service cfg key s = Returns s' ∧ ready s' ∧ same_tables s s'.
Proof.
  intros [Hm Hp]. unfold clear_service. rewrite Hm. destruct (clearLbService_two cfg key (ss_ips s) Hp) as (i&e&->&Hi).
  cbn [mbind outcome_bind]. eexists. split; [reflexivity|]. by split_and!.
Qed.

Lemma allocate_ips_ends key service s : ready s →
  ends s (allocate_ips cfg env key service s).
Proof.
  intros [Hm Hp]. unfold allocate_ips. destruct (AllocateServiceIps cfg); [|by apply ends_ret]. rewrite Hm.
  destruct (allocateServiceIps_two env (serviceSyncEnabled s) key service (ss_ips s) Hp) as (r&->&Hl&Hr).
  cbn [mbind outcome_bind]. by apply ends_ret.
Qed.

Lemma update_graph_ends now key service s : ready s → ends s (update_graph cfg env now key service s).
Proof.
  intros [Hm Hp]. unfold update_graph, lock, unlock. rewrite Hm. cbn [Mutex_Lock Mutex_Unlock mbind outcome_bind mutexLocked set_mutex serviceSyncEnabled].
  destruct (serviceSyncEnabled s); cbn [mbind outcome_bind mutexLocked set_mutex Mutex_Unlock]; [|by apply ends_ret].
  match goal with |- context [updateServiceDeviceInstance ?a ?b ?c ?d ?e ?f ?g ?h ?i] =>
    destruct (updateServiceDeviceInstance_returns a b c d e f g h i) as (devs&err&ef&->&_) end.
  cbn [mbind outcome_bind]. by apply ends_ret.
Qed.

Lemma handleServiceUpdate_ends now service s : ready s → ends s (handleServiceUpdate cfg env now service s).
Proof.
  intros Hm. unfold handleServiceUpdate. destruct (ChainedMode cfg); [by apply ends_ret|].
  assert (∀ b sv s', ready s' → ends s' (e ← build (writeApicSvc cfg env (so_key service) sv); Returns (b : bool, svc_emit e s'))) as Hw.
  { intros b sv s' Hs. destruct (writeApicSvc_typed cfg env (so_key service) sv) as (e&->&_). by apply ends_ret. }
  destruct (String.eqb (LBType cfg) lbTypeAci); [|by apply Hw]. destruct (String.eqb (so_Type service) "LoadBalancer").
  - destruct (allocate_ips_ends (so_key service) service s Hm) as ([rq sv]&s1&->&H1&S1). cbn [mbind outcome_bind].
    destruct (update_graph_ends now (so_key service) sv s1 H1) as (err&s2&->&H2&S2). cbn [mbind outcome_bind].
    eapply ends_later; [exact S1|]. eapply ends_later; [exact S2|]. destruct err; [by apply ends_ret|by apply Hw].
  - destruct (clear_service_ends (so_key service) s Hm) as (s1&->&H1&S1). cbn [mbind outcome_bind].
    eapply ends_later; [exact S1|by apply Hw].
Qed.

Lemma handleServiceDelete_ends key s : ready s → ends s (handleServiceDelete cfg key s).
Proof.
  intros Hm. unfold handleServiceDelete. destruct (ChainedMode cfg); [by apply ends_ret|].
  destruct (clear_service_ends key s Hm) as (s1&->&H1&S1). cbn [mbind outcome_bind]. by eapply ends_later, ends_ret.
Qed.

Lemma process_service_ends now key s : ready s → ends s (process_service cfg env now key s).
Proof.
  intros Hm. unfold process_service. destruct (String.prefix "DELETED_" key); [by apply handleServiceDelete_ends|].
  destruct (serviceIndexer s !! key); [by apply handleServiceUpdate_ends|by apply ends_ret].
Qed.

(** Items of the queue one after the other; the keys that are queued again. *)
Fixpoint run_queue (items : list (Z * string)) (s : SvcState) : outcome (list string * SvcState) :=
  match items with
  | [] => Returns ([], s)
  | (now, key) :: items =>
      '(again, s) ← process_service cfg env now key s;
      '(keys, s) ← run_queue items s;
      Returns (if (again : bool) then key :: keys else keys, s)
  end.

Lemma run_queue_ends items s : ready s → ends s (run_queue items s).
Proof.
  revert s. induction items as [|[now key] items IH]; intros s Hm; cbn [run_queue]; [by apply ends_ret|].
  destruct (process_service_ends now key s Hm) as (again&s1&->&H1&S1). cbn [mbind outcome_bind].
  destruct (IH s1 H1) as (keys&s2&->&H2&S2). cbn [mbind outcome_bind].
  eapply ends_later; [exact S1|]. eapply ends_later; [exact S2|]. by apply ends_ret.
Qed.
End Runs.

(** ** Addresses during a run *)

(** The addresses after an item: as before, or after one of the two operations
    on them. *)
Lemma process_ips cfg env now key s b s' :
  process_service cfg env now key s = Returns (b, s') →
  ss_ips s' = ss_ips s ∨
  (∃ sync locked k service r, serviceIndexer s !! key = Some service ∧
     allocateServiceIps env sync locked k service (ss_ips s) = Returns r ∧ ss_ips s' = ar_state r) ∨
  ∃ locked k e locked', clearLbService cfg locked k (ss_ips s) = Returns (ss_ips s', e, locked').
Proof.
  assert (∀ k s s', clear_service cfg k s = Returns s' →
    ∃ locked k e locked', clearLbService cfg locked k (ss_ips s) = Returns (ss_ips s', e, locked')) as Hc.
  { intros k s0 s1. unfold clear_service. destruct (clearLbService cfg (mutexLocked s0) k (ss_ips s0)) as [| |[[i e] l]] eqn:E; [discriminate..|].
    cbn [mbind outcome_bind]. intros [= <-]. eexists _, _, _, _. exact E. }
  assert (∀ k sv a s0 s1, (e ← build (writeApicSvc cfg env k sv); Returns (a : bool, svc_emit e s0)) = Returns (b, s1) → ss_ips s1 = ss_ips s0) as Hw.
  { intros k sv a s0 s1. destruct (writeApicSvc cfg env k sv) as [e|]; [|discriminate]. cbn [build mbind outcome_bind]. by intros [= _ <-]. }
  assert (∀ k sv s0 err s1, update_graph cfg env now k sv s0 = Returns (err, s1) → ss_ips s1 = ss_ips s0) as Hg.
  { intros k sv s0 err s1. unfold update_graph, lock, unlock. destruct (mutexLocked s0); [discriminate|].
    cbn [Mutex_Lock Mutex_Unlock mbind outcome_bind mutexLocked set_mutex serviceSyncEnabled].
    destruct (serviceSyncEnabled s0); cbn [mbind outcome_bind mutexLocked set_mutex Mutex_Unlock]; [|by intros [= _ <-]]. destruct (updateServiceDeviceInstance _ _ _ _ _ _ _ _ _) as [| |[[[d er] ef] lk]]; [discriminate|discriminate|].
    cbn [mbind outcome_bind]. by intros [= _ <-]. }
  unfold process_service. destruct (String.prefix "DELETED_" key).
  { unfold handleServiceDelete. destruct (ChainedMode cfg); [intros [= _ <-]; by left|]. destruct (clear_service cfg _ s) as [| |s1] eqn:E; [discriminate|discriminate|].
    cbn [mbind outcome_bind]. intros [= _ <-]. right. right. exact (Hc _ _ _ E). }
  destruct (serviceIndexer s !! key) as [service|] eqn:Es; [|intros [= _ <-]; by left].
  unfold handleServiceUpdate. destruct (ChainedMode cfg); [intros [= _ <-]; by left|].
  destruct (String.eqb (LBType cfg) lbTypeAci); [|intros H; apply Hw in H; by left].
  destruct (String.eqb (so_Type service) "LoadBalancer").
  - destruct (allocate_ips cfg env (so_key service) service s) as [| |[[rq sv] s1]] eqn:E; [discriminate|discriminate|]. cbn [mbind outcome_bind].
    destruct (update_graph cfg env now (so_key service) sv s1) as [| |[err s2]] eqn:Eg; [discriminate|discriminate|]. cbn [mbind outcome_bind]. apply Hg in Eg.
    intros Hf. assert (ss_ips s' = ss_ips s1) as -> by (destruct err; [injection Hf as _ <-; done|apply Hw in Hf; congruence]). clear Hf Eg.
    revert E. unfold allocate_ips. destruct (AllocateServiceIps cfg); [|intros [= _ _ <-]; by left].
    destruct (allocateServiceIps _ _ _ _ _ _) as [| |r] eqn:Er; [discriminate..|].
    cbn [mbind outcome_bind]. intros [= _ _ <-]. right. left. eexists _, _, _, service, r. split; [done|]. split; [exact Er|reflexivity].
  - destruct (clear_service cfg (so_key service) s) as [| |s1] eqn:E; [discriminate|discriminate|]. cbn [mbind outcome_bind]. intros H. apply Hw in H.
    right. right. rewrite H. exact (Hc _ _ _ E).
Qed.

(** Runs of the controller as the addresses see them: items of the service
    queue whose services are of the kind [P], and events that change the stores
    and tables but not the addresses. *)
Inductive svc_step (cfg : SvcCfg) (P : SvcObj → Prop) : SvcState → SvcState → Prop :=
  | svc_item env now key again s s' :
      (∀ service, serviceIndexer s !! key = Some service → P service) →
      process_service cfg env now key s = Returns (again, s') → svc_step cfg P s s'
  | svc_event s s' : ss_ips s' = ss_ips s → svc_step cfg P s s'.

(** A relation on addresses that both operations are steps of. *)
Lemma svc_steps_ips cfg (P : SvcObj → Prop) (R : IpState → IpState → Prop) s s' :
  (∀ env sync locked k service i r, P service → allocateServiceIps env sync locked k service i = Returns r → R i (ar_state r)) →
  (∀ locked k i i' e locked', clearLbService cfg locked k i = Returns (i', e, locked') → R i i') →
  rtc (svc_step cfg P) s s' → rtc R (ss_ips s) (ss_ips s').
Proof.
  intros HA HC Hr. induction Hr as [s|s1 s2 s3 Hs _ IH]; [apply rtc_refl|].
  destruct Hs as [env now key again s1 s2 HP E|s1 s2 E]; [|by rewrite E in IH].
  apply process_ips in E as [E|[(sync&locked&k&service&r&Hs&Er&E)|(locked&k&e&locked'&E)]]; [by rewrite E in IH| |];
    (eapply rtc_l; [|exact IH]); [|by eapply HC]. rewrite E. eapply HA; [apply HP, Hs|exact Er].
Qed.

(** In every state that the controller reaches the pools are there. *)
Lemma reach_two_pools cfg P s0 s :
  ss_ips s0 = initServiceIps cfg → rtc (svc_step cfg P) s0 s → two_pools (ss_ips s).
Proof.
  intros E0 Hr. assert (rtc (λ i i', two_pools i → two_pools i') (ss_ips s0) (ss_ips s)) as H.
  { eapply svc_steps_ips; [| |exact Hr].
    - intros env sync [] k service i r _ E Hi; [discriminate E|].
      destruct (allocateServiceIps_two env sync k service i Hi) as (r'&E'&_&H). rewrite E in E'. by injection E' as <-.
    - intros [] k i i' e l E Hi; [discriminate E|]. destruct (clearLbService_two cfg k i Hi) as (i2&e2&E'&H).
      rewrite E in E'. by injection E' as <- _. }
  revert H. rewrite E0. generalize (init_two_pools cfg). generalize (initServiceIps cfg). intros i Hi H. induction H; auto.
Qed.

(** ** Delayed endpoint slices are processed *)

(** The loop of processDelayedEpSlices skips the entry after one that it
    removes, so one round does not clear the list; repeated rounds do. *)

Section Delayed.
Context (inf : Informers).

(** Every port of an egress rule of a stored policy has a number or a name. *)
Definition named_ports_checked : Prop :=
  ∀ key np, objs (inf_stores inf) !! key = Some np → Forall (λ p, is_Some (Port p)) (flat_map rule_Ports (np_Egress np)).

Lemma checkPodNmpMatchesNp_total key podkey : named_ports_checked → is_Some (checkPodNmpMatchesNp inf key podkey).
Proof.
  intros Hc. unfold checkPodNmpMatchesNp. destruct (pods (inf_stores inf) !! podkey) as [pod|]; [|by eexists].
  destruct (objs (inf_stores inf) !! key) as [np|] eqn:E; [|by eexists]. specialize (Hc key np E).
  induction Hc as [|p ps [v Hp] _ IH]; cbn [named_ports_match]; [by eexists|]. rewrite Hp. cbn [mbind option_bind].
  destruct v; [done|]. case_bool_decide; [by eexists|done].
Qed.

(** Handlers that return, keep the mutex free, the delayed slices and the
    addresses as they are, and only add effects. *)
Definition adds (s : SvcState) (r : outcome SvcState) (e : list svc_effect) : Prop :=
  ∃ s', r = Returns s' ∧ mutexLocked s' = false ∧ delayedEpSlices s' = delayedEpSlices s ∧
    ss_ips s' = ss_ips s ∧ ss_effects s' = (ss_effects s ++ e)%list.

Lemma adds_ret s s' e :
  mutexLocked s' = false → delayedEpSlices s' = delayedEpSlices s → ss_ips s' = ss_ips s →
  ss_effects s' = (ss_effects s ++ e)%list → adds s (Returns s') e.
Proof. intros. by exists s'. Qed.

Lemma adds_bind s r e1 k e2 :
  adds s r e1 → (∀ s', mutexLocked s' = false → adds s' (k s') e2) → adds s (r ≫= k) (e1 ++ e2)%list.
Proof.
  intros (s1&->&H1&D1&I1&E1) Hk. destruct (Hk s1 H1) as (s2&E&H2&D2&I2&E2). exists s2. split_and!; [exact E|done|congruence|congruence|].
  by rewrite E2, E1, <- app_assoc.
Qed.

Lemma adds_nil s r k : adds s r [] → (∀ s', mutexLocked s' = false → adds s' (k s') []) → adds s (r ≫= k) [].
Proof. intros H1 H2. exact (adds_bind s r [] k [] H1 H2). Qed.

Lemma matching_named_total podkey keys : named_ports_checked → ∃ l, matching_named inf podkey keys = Returns l.
Proof.
  intros Hc. induction keys as [|key keys [l IH]]; cbn [matching_named]; [by eexists|].
  destruct (checkPodNmpMatchesNp_total key podkey Hc) as [b ->]. cbn [build mbind outcome_bind]. rewrite IH. by eexists.
Qed.

Lemma queue_pod_policies_adds record podkey s :
  named_ports_checked → mutexLocked s = false → adds s (queue_pod_policies inf record podkey s) [].
Proof.
  intros Hc Hm. unfold queue_pod_policies, queueMatchingNamedNp, lock, unlock. cbn [mutexLocked set_np]. rewrite Hm. cbn [Mutex_Lock mbind outcome_bind].
  match goal with |- context [matching_named inf podkey ?keys] => destruct (matching_named_total podkey keys Hc) as [l ->] end.
  cbn. apply adds_ret; [done|done|done|]. by rewrite app_nil_r.
Qed.

Lemma for_pods_adds record keys s : named_ports_checked → mutexLocked s = false → adds s (for_pods inf record keys s) [].
Proof.
  intros Hc Hm. unfold for_pods. assert (adds s (Returns s) []) as H by (apply adds_ret; [done|done|done|by rewrite app_nil_r]).
  revert H. generalize (Returns s) as r. induction keys as [|key keys IH]; intros r H; [done|]. cbn [foldl]. apply IH.
  apply adds_nil; [done|]. intros s' H'. by apply queue_pod_policies_adds.
Qed.

Lemma change_ips_adds o n key s : mutexLocked s = false → adds s (change_ips o n key s) [].
Proof.
  intros Hm. unfold change_ips. destruct (bool_decide (o = n)); [apply adds_ret; [done|done|done|by rewrite app_nil_r]|].
  unfold lock, unlock. rewrite Hm. cbn. apply adds_ret; [done|done|done|]. by rewrite app_nil_r.
Qed.

Lemma doendpointSliceUpdated_adds o n s :
  named_ports_checked → mutexLocked s = false →
  adds s (doendpointSliceUpdated inf o n s) (match getServiceKey n with Some key => [QueueService key] | None => [] end).
Proof.
  intros Hc Hm. unfold doendpointSliceUpdated. destruct (getServiceKey n) as [key|]; [|apply adds_ret; [done|done|done|by rewrite app_nil_r]].
  apply (adds_bind _ _ []); [by apply change_ips_adds|]. intros s1 H1. apply (adds_bind _ _ []).
  - destruct (bool_decide _); [apply adds_ret; [done|done|done|by rewrite app_nil_r]|]. apply adds_nil; [by apply for_pods_adds|].
    intros s2 H2. by apply for_pods_adds.
  - intros s2 H2. by apply adds_ret.
Qed.

(** ** Rounds *)

(** The key that processing a due slice queues. *)
Definition due_key (d : DelayedEpSlice) : option string :=
  if notReadyEndpointPresent (NewEpSlice d) then None else getServiceKey (NewEpSlice d).

Lemma due_adds due s :
  named_ports_checked → mutexLocked s = false →
  adds s (foldl (λ s d, s ← s; if notReadyEndpointPresent (NewEpSlice d) then Returns s
                          else doendpointSliceUpdated inf (OldEpSlice d) (NewEpSlice d) s) (Returns s) due)
    (QueueService <$> omap due_key due).
Proof.
  intros Hc. revert s. induction due as [|d due IH]; intros s Hm; cbn [foldl omap list_omap]; [apply adds_ret; [done|done|done|by rewrite app_nil_r]|].
  cbn [mbind outcome_bind]. unfold due_key at 1. destruct (notReadyEndpointPresent (NewEpSlice d)); [by apply IH|].
  destruct (doendpointSliceUpdated_adds (OldEpSlice d) (NewEpSlice d) s Hc Hm) as (s1&->&H1&D1&I1&E1).
  destruct (IH s1 H1) as (s2&E&H2&D2&I2&E2). exists s2. split_and!; [exact E|done|congruence|congruence|]. rewrite E2, E1, <- app_assoc.
  by destruct (getServiceKey (NewEpSlice d)).
Qed.

Lemma delayed_scan_perm now l : let '(kept, due) := delayed_scan now l in l ≡ₚ (kept ++ due)%list.
Proof.
  assert (∀ n l, (length l <= n)%nat → let '(kept, due) := delayed_scan now l in l ≡ₚ (kept ++ due)%list) as H; [|by eapply H].
  clear l. induction n as [|n IH]; intros l Hl; destruct l as [|d l]; [cbn; constructor|cbn in Hl; lia|cbn; constructor|]. cbn [delayed_scan].
  destruct (DelayedTime d <? now)%Z.
  - destruct l as [|x l]; [reflexivity|]. cbn in Hl. specialize (IH l ltac:(lia)). destruct (delayed_scan now l) as [kept due].
    rewrite IH. cbn. rewrite <- Permutation_middle. apply perm_swap.
  - cbn in Hl. specialize (IH l ltac:(lia)). destruct (delayed_scan now l) as [kept due]. by rewrite IH.
Qed.

Lemma delayed_scan_shrinks now l :
  Forall (λ d, (DelayedTime d < now)%Z) l → l ≠ [] → (length (delayed_scan now l).1 < length l)%nat.
Proof.
  intros Hf Hn. pose proof (delayed_scan_perm now l) as H. destruct (delayed_scan now l) as [kept due] eqn:E. apply Permutation_length in H.
  rewrite length_app in H. cbn [fst]. destruct due as [|d due]; [|cbn in H; lia]. exfalso. destruct l as [|x l]; [done|].
  apply Forall_cons in Hf as [Hx _]. cbn [delayed_scan] in E. apply Z.ltb_lt in Hx. rewrite Hx in E.
  destruct l as [|y l]; [discriminate E|]. destruct (delayed_scan now l) as [k0 d0]. discriminate E.
Qed.

(** The rounds of the timer. *)
Fixpoint delayed_rounds (nows : list Z) (s : SvcState) : outcome SvcState :=
  match nows with
  | [] => Returns s
  | now :: nows => s ← processDelayedEpSlices inf now s; delayed_rounds nows s
  end.

Lemma round_adds now s :
  named_ports_checked → mutexLocked s = false →
  ∃ s', processDelayedEpSlices inf now s = Returns s' ∧ mutexLocked s' = false ∧
    delayedEpSlices s' = (delayed_scan now (delayedEpSlices s)).1 ∧ ss_ips s' = ss_ips s ∧
    ss_effects s' = (ss_effects s ++ (QueueService <$> omap due_key (delayed_scan now (delayedEpSlices s)).2))%list.
Proof.
  intros Hc Hm. unfold processDelayedEpSlices, lock, unlock. rewrite Hm. cbn [Mutex_Lock mbind outcome_bind delayedEpSlices set_mutex].
  destruct (delayed_scan now (delayedEpSlices s)) as [kept due]. cbn [fst snd mutexLocked set_delayed set_mutex Mutex_Unlock mbind outcome_bind].
  destruct (due_adds due (set_mutex false (set_delayed kept (set_mutex true s))) Hc eq_refl) as (s'&E&H1&D1&I1&E1). exists s'. split_and!; [exact E|done|exact D1|exact I1|exact E1].
Qed.

Lemma rounds_clear nows s :
  named_ports_checked → mutexLocked s = false → (length (delayedEpSlices s) <= length nows)%nat →
  Forall (λ now, Forall (λ d, (DelayedTime d < now)%Z) (delayedEpSlices s)) nows →
  ∃ s' e, delayed_rounds nows s = Returns s' ∧ mutexLocked s' = false ∧ delayedEpSlices s' = [] ∧ ss_effects s' = (ss_effects s ++ e)%list ∧
    ∀ d key, d ∈ delayedEpSlices s → due_key d = Some key → QueueService key ∈ e.
Proof.
  intros Hc. revert s. induction nows as [|now nows IH]; intros s Hm Hl Hf; cbn [delayed_rounds].
  { exists s, []. cbn in Hl. destruct (delayedEpSlices s) eqn:E; [|cbn in Hl; lia]. split_and!; [done|done|done|by rewrite app_nil_r|].
    intros d key Hd. by apply elem_of_nil in Hd. }
  destruct (round_adds now s Hc Hm) as (s1&->&H1&D1&_&E1). cbn [mbind outcome_bind]. apply Forall_cons in Hf as [Hn Hf].
  pose proof (delayed_scan_perm now (delayedEpSlices s)) as Hp. pose proof (delayed_scan_shrinks now _ Hn) as Hs.
  destruct (delayed_scan now (delayedEpSlices s)) as [kept due]. cbn [fst snd] in *.
  destruct (IH s1 H1) as (s2&e&E&H2&D2&E2&Hq).
  - rewrite D1. cbn in Hl. destruct (decide (delayedEpSlices s = [])) as [E0|E0]; [|specialize (Hs E0); lia].
    rewrite E0 in Hp. apply Permutation_nil_l, eq_sym, app_eq_nil in Hp as [-> _]. cbn. lia.
  - eapply Forall_impl; [exact Hf|]. intros t Ht. rewrite D1. apply (Permutation_Forall Hp) in Ht. by apply Forall_app in Ht as [? _].
  - exists s2, ((QueueService <$> omap due_key due) ++ e)%list. split_and!; [exact E|done|done|by rewrite E2, E1, <- app_assoc|].
    intros d key Hd Hk. rewrite Hp in Hd. apply elem_of_app in Hd as [Hd|Hd]; apply elem_of_app; [right; apply (Hq d); [by rewrite D1|done]|left].
    apply list_elem_of_fmap_2. apply list_elem_of_omap. by exists d.
Qed.

(** ** Notifications between the items *)

(** The notifications of the informers and the timer. *)
Inductive svc_note :=
  | NServiceAdded (service : SvcObj)
  | NServiceUpdated (oldservice newservice : SvcObj)
  | NServiceDeleted (service : SvcObj)
  | NEndpointsAdded (endpoints : Endpoints)
  | NEndpointsUpdated (oldendpoints newendpoints : Endpoints)
  | NEndpointsDeleted (endpoints : Endpoints)
  | NSliceAdded (slice : EpSlice)
  | NSliceUpdated (now : Z) (oldslice newslice : EpSlice)
  | NSliceDeleted (slice : EpSlice)
  | NDelayed (now : Z).

Definition handle_note (cfg : SvcCfg) (n : svc_note) (s : SvcState) : outcome SvcState :=
  match n with
  | NServiceAdded sv => serviceAdded sv s
  | NServiceUpdated o n => serviceUpdated o n s
  | NServiceDeleted sv => serviceDeleted sv s
  | NEndpointsAdded e => endpointsAdded inf e s
  | NEndpointsUpdated o n => endpointsUpdated inf o n s
  | NEndpointsDeleted e => endpointsDeleted inf e s
  | NSliceAdded sl => endpointSliceAdded inf sl s
  | NSliceUpdated now o n => endpointSliceUpdated cfg inf now o n s
  | NSliceDeleted sl => endpointSliceDeleted inf sl s
  | NDelayed now => processDelayedEpSlices inf now s
  end.

(** The handler returns, the mutex is free and the addresses are as before. *)
Definition calm (s : SvcState) (r : outcome SvcState) : Prop :=
  ∃ s', r = Returns s' ∧ mutexLocked s' = false ∧ ss_ips s' = ss_ips s.

Lemma calm_ret s s' : mutexLocked s' = false → ss_ips s' = ss_ips s → calm s (Returns s').
Proof. intros. by exists s'. Qed.

Lemma adds_calm s r e : adds s r e → calm s r.
Proof. intros (s'&->&H&_&I&_). by apply calm_ret. Qed.

Lemma calm_bind s r k : calm s r → (∀ s', mutexLocked s' = false → calm s' (k s')) → calm s (r ≫= k).
Proof.
  intros (s1&->&H1&I1) Hk. destruct (Hk s1 H1) as (s2&E&H2&I2). exists s2. split_and!; [exact E|done|congruence].
Qed.

(** A part of a handler between Lock and Unlock that keeps the mutex. *)
Lemma calm_locked s f k :
  mutexLocked s = false → mutexLocked (f (set_mutex true s)) = true → ss_ips (f (set_mutex true s)) = ss_ips s →
  (∀ s', mutexLocked s' = false → calm s' (k s')) → calm s (s ← lock s; s ← unlock (f s); k s).
Proof.
  intros Hm Hf Hi Hk. unfold lock, unlock. rewrite Hm. cbn [Mutex_Lock mbind outcome_bind]. rewrite Hf.
  cbn [Mutex_Unlock mbind outcome_bind]. destruct (Hk (set_mutex false (f (set_mutex true s))) eq_refl) as (s2&E&H2&I2).
  exists s2. split_and!; [exact E|done|]. by rewrite I2.
Qed.

Lemma endpoints_policies_calm e s : named_ports_checked → mutexLocked s = false → calm s (queueEndpointsNetPolUpdates inf e s).
Proof.
  intros Hc Hm. unfold queueEndpointsNetPolUpdates. assert (calm s (Returns s)) as H by (by apply calm_ret). revert H.
  generalize (Returns s) as r. induction (eps_Subsets e) as [|sub subs IH]; intros r H; [done|]. cbn [foldl]. apply IH.
  apply calm_bind; [done|]. intros s1 H1. apply calm_bind; [by eapply adds_calm, for_pods_adds|]. intros s2 H2. by eapply adds_calm, for_pods_adds.
Qed.

Lemma doendpointSliceUpdatedDelay_calm cfg now o n s :
  named_ports_checked → mutexLocked s = false → calm s (doendpointSliceUpdatedDelay cfg inf now o n s).
Proof.
  intros Hc Hm. unfold doendpointSliceUpdatedDelay. destruct (getServiceNameAndNs n) as [[svc ns]|]; [|by apply calm_ret].
  destruct (getServiceKey n); [|by apply calm_ret]. destruct (_ && _); [|by eapply adds_calm, doendpointSliceUpdated_adds].
  match goal with |- context [set_delayed] => apply (calm_locked s (λ s, set_delayed (delayedEpSlices s ++ _)%list s)); [done..|] end.
  intros s1 H1. destruct (isDeleteEndpointSlice o n); [by eapply adds_calm, doendpointSliceUpdated_adds|by apply calm_ret].
Qed.

Lemma handle_note_calm cfg n s : named_ports_checked → mutexLocked s = false → calm s (handle_note cfg n s).
Proof.
  intros Hc Hm. destruct n as [sv|o n|sv|e|o n|e|sl|now o n|sl|now]; cbn [handle_note].
  - apply (calm_locked s (λ s, update_port_index _ ∅ _ (queue_port_policies _ s))); [done..|]. intros s1 H1. by apply calm_ret.
  - apply calm_bind; [|intros s1 H1; by apply calm_ret]. destruct (bool_decide _); [by apply calm_ret|].
    unfold lock, unlock. rewrite Hm. by apply calm_ret.
  - unfold serviceDeleted. apply (calm_locked s (λ s, set_snat (snatServices s ∖ _) (queue_port_policies _ (update_port_index _ _ ∅ s)))); [done..|].
    intros s1 H1. by apply calm_ret.
  - unfold endpointsAdded. apply (calm_locked s (λ s, queue_ip_policies _ (update_ip_index ∅ _ _ s))); [done..|]. intros s1 H1.
    apply calm_bind; [by apply endpoints_policies_calm|]. intros s2 H2. by apply calm_ret.
  - apply calm_bind; [by eapply adds_calm, change_ips_adds|]. intros s1 H1. apply calm_bind; [|intros s2 H2; by apply calm_ret].
    destruct (bool_decide _); [by apply calm_ret|]. apply calm_bind; [by apply endpoints_policies_calm|]. intros s2 H2. by apply endpoints_policies_calm.
  - unfold endpointsDeleted. apply (calm_locked s (λ s, queue_ip_policies _ (update_ip_index _ ∅ _ s))); [done..|]. intros s1 H1.
    apply calm_bind; [by apply endpoints_policies_calm|]. intros s2 H2. by apply calm_ret.
  - unfold endpointSliceAdded. destruct (getServiceKey sl); [|by apply calm_ret].
    apply (calm_locked s (λ s, queue_ip_policies _ (update_ip_index ∅ _ _ s))); [done..|]. intros s1 H1.
    apply calm_bind; [by eapply adds_calm, for_pods_adds|]. intros s2 H2. by apply calm_ret.
  - unfold endpointSliceUpdated. destruct (_ <? _)%Z; [by apply doendpointSliceUpdatedDelay_calm|by eapply adds_calm, doendpointSliceUpdated_adds].
  - unfold endpointSliceDeleted. destruct (getServiceKey sl); [|by apply calm_ret].
    apply (calm_locked s (λ s, queue_ip_policies _ (update_ip_index _ ∅ _ s))); [done..|]. intros s1 H1.
    apply calm_bind; [by eapply adds_calm, for_pods_adds|]. intros s2 H2. by apply calm_ret.
  - destruct (round_adds now s Hc Hm) as (s'&->&H&_&I&_). by apply calm_ret.
Qed.

(** Items of the queue and notifications, one after the other; [stores] is what
    the informers have at that time. *)
Inductive svc_work :=
  | WItem (now : Z) (key : string) (stores : gmap string SvcObj)
  | WNote (n : svc_note).

Fixpoint run_work (cfg : SvcCfg) (env : SvcEnv) (ws : list svc_work) (s : SvcState) : outcome (list string * SvcState) :=
  match ws with
  | [] => Returns ([], s)
  | WItem now key stores :: ws =>
      '(again, s) ← process_service cfg env now key (set_services stores s);
      '(keys, s) ← run_work cfg env ws s;
      Returns (if (again : bool) then key :: keys else keys, s)
  | WNote n :: ws => s ← handle_note cfg n s; run_work cfg env ws s
  end.

Lemma run_work_ready cfg env ws s :
  named_ports_checked → ready s → ∃ keys s', run_work cfg env ws s = Returns (keys, s') ∧ ready s'.
Proof.
  intros Hc. revert s. induction ws as [|[now key stores|n] ws IH]; intros s Hr; cbn [run_work]; [by eexists _, _| |].
  - assert (ready (set_services stores s)) as Hr0 by (by destruct Hr).
    destruct (process_service_ends cfg env now key _ Hr0) as (again&s1&->&H1&_). cbn [mbind outcome_bind].
    destruct (IH s1 H1) as (keys&s2&->&H2). by eexists _, _.
  - destruct Hr as [Hm Hp]. destruct (handle_note_calm cfg n s Hc Hm) as (s1&->&H1&I1). cbn [mbind outcome_bind].
    apply IH. split; [done|]. by rewrite I1.
Qed.
End Delayed.
