(* ===== verification/SvcProps.v ===== *)
(** * SvcProps: what holds of load balancer services *)
From S2P Require Import Prelude GoBytes GoNet GoText GoText6 IpAlloc IpAllocFacts IpCache IpCacheFacts ApicMetadata ApicTypes ApicBuild ApicTypesFacts PodIndex K8s AciNames.
From S2P Require Import NetPol NetPolIndex NetPolAugment NetPolCtl PodNet PodNetSys.
From S2P Require Import SvcTypes OpflexDev OpflexProps SvcGraph SvcNodes SvcIps Services.
From S2P Require Import SvcIpsFacts SvcDynamic SvcGraphFacts SvcWritten SvcRuns.

Open Scope string_scope.

(** ** A small cluster *)

Definition lb_ip4 (d : Z) : IP := (v4InV6Prefix ++ [10; 3; 0; d])%list.

Definition lb_cfg (dynamic static : list IpRange) : SvcCfg :=
  mkSvcCfg "kube" "common" "vrf1" "out1" ["net1"] "dom" "ctl" "kubernetes" "phys" "vlan-4003" 0 false ["10.5.0.1/24"]
    false (1800 * Second) 5 "aci-nlb" false true 32 "global" 5000 65000 5 [mkDelay 5 "web" "ns"] false false "k8s" ["apic1"] "5.2" false
    dynamic static.

Definition lb_svc (name lbip : string) (annots : gmap string string) (ingress : list LbIngress) : SvcObj :=
  mkSvcObj "ns" name "uid" annots ∅ "LoadBalancer" "10.96.0.10" ["10.96.0.10"] lbip
    [mkPortSpec "TCP" 80 (IntVal 8080) 30080] ingress [].

Definition web_slice (node : string) : EpSlice :=
  mkEpSlice "ns" {[LabelServiceName := "web"]}
    [mkEndpoint ["10.1.0.2"] (Some true) None (Some node) (Some (mkRef "Pod" "ns" "web-1"))].

Definition lb_env : SvcEnv :=
  mkSvcEnv true ∅ [web_slice "node1"] ["node1"] {["ns"]} (λ _, None) (λ _, None) (λ _, true).

Definition lb_ep : ServiceEndpoint := mkSvcEp EmptyString "02:00:00:00:00:01" (lb_ip4 1) [].

Definition lb_start (cfg : SvcCfg) (services : gmap string SvcObj) (delayed : list DelayedEpSlice) : SvcState :=
  mkSvcState initial_np (initServiceIps cfg) one_device {["node1" := lb_ep]} services true ∅ delayed false [].

Definition no_policies : Informers := mkInformers (mkStores ∅ ∅ ∅) ∅ (FromSlices ∅).

(** Two services that the queue gets one after the other. *)
Definition two_services (cfg : SvcCfg) (a b : SvcObj) : outcome (bool * SvcState) :=
  '(_, s) ← process_service cfg lb_env 0 (so_key a) (set_services {[so_key a := a]} (lb_start cfg ∅ []));
  process_service cfg lb_env 1 (so_key b) (set_services {[so_key b := b]} s).

Lemma two_services_reach cfg (P : SvcObj → Prop) a b again s :
  P a → P b → two_services cfg a b = Returns (again, s) → rtc (svc_step cfg P) (lb_start cfg ∅ []) s.
Proof.
  intros Ha Hb. unfold two_services. destruct (process_service _ _ _ _ _) as [| |[g s1]] eqn:E1; [discriminate|discriminate|].
  cbn [mbind outcome_bind]. intros E2.
  assert (∀ k sv m, ({[so_key m := m]} : gmap string SvcObj) !! k = Some sv → sv = m) as Hk by (intros k sv m [_ ->]%lookup_singleton_Some; done).
  apply (rtc_l _ _ (set_services {[so_key a := a]} (lb_start cfg ∅ []))); [by apply svc_event|].
  eapply rtc_l; [eapply svc_item; [|exact E1]; by intros sv ->%Hk|].
  apply (rtc_l _ _ (set_services {[so_key b := b]} s1)); [by apply svc_event|].
  eapply rtc_once, svc_item; [|exact E2]. by intros sv ->%Hk.
Qed.

(** The addresses of a service in the end. *)
Definition addresses (key : string) (r : outcome (bool * SvcState)) : option (list IP * list IP) :=
  match r with
  | Returns (_, s) => m ← serviceMetaCache (ss_ips s) !! key; Some (ingressIps m, staticIngressIps m)
  | _ => None
  end.

Lemma addresses_of key r d st :
  addresses key r = Some (d, st) →
  ∃ b s m, r = Returns (b, s) ∧ serviceMetaCache (ss_ips s) !! key = Some m ∧ ingressIps m = d ∧ staticIngressIps m = st.
Proof.
  unfold addresses. destruct r as [| |[b s]]; [discriminate|discriminate|]. destruct (serviceMetaCache (ss_ips s) !! key) as [m|] eqn:E; [|discriminate].
  cbn. intros [= <- <-]. by exists b, s, m.
Qed.

(** ** Addresses *)

(** C8: The bookkeeping of static addresses.  If the configured static ranges are readable, apart and of one family each, then in every state that any sequence of items of the service queue leads to, each address that is recorded for a service as static (the field staticIngressIps) is taken out of the static pool, is recorded so for that service only, and once.  Nothing is said of addresses that are only in the field ingressIps: a service whose request for a static address was taken back keeps the address there although it is free again ([dropped_request_keeps_address]). *)
Theorem svc_static_unique cfg s0 s :
  ranges_fine (StaticServiceIpPool cfg) → ss_ips s0 = initServiceIps cfg → rtc (svc_step cfg (λ _, True)) s0 s →
  ∀ k1 m1 ip, serviceMetaCache (ss_ips s) !! k1 = Some m1 → ip ∈ staticIngressIps m1 →
    ¬ sfree (staticServiceIps (ss_ips s)) ip ∧ NoDup (staticIngressIps m1) ∧
    ∀ k2 m2, serviceMetaCache (ss_ips s) !! k2 = Some m2 → ip ∈ staticIngressIps m2 → k2 = k1.
Proof.
  intros Hc E0 Hr k1 m1 ip H1 Hi.
  destruct (static_reach cfg (ss_ips s) Hc) as [_ B O N].
  { rewrite <- E0. eapply svc_steps_ips; [|intros; by eapply ip_clear|exact Hr]. intros; by eapply ip_alloc. }
  split; [by eapply B|]. split; [by eapply N|]. intros k2 m2 H2 Hi2. exact (O k2 k1 m2 m1 ip H2 H1 Hi2 Hi).
Qed.

Definition static_cfg : SvcCfg := lb_cfg [] [mkRange (lb_ip4 1) (lb_ip4 9)].
Definition static_run : outcome (bool * SvcState) :=
  two_services static_cfg (lb_svc "a" "10.3.0.5" ∅ []) (lb_svc "b" "10.3.0.6" ∅ []).

Lemma svc_static_unique_witness :
  ∃ s m, serviceMetaCache (ss_ips s) !! "ns/a" = Some m ∧ staticIngressIps m = [lb_ip4 5] ∧
    ¬ sfree (staticServiceIps (ss_ips s)) (lb_ip4 5) ∧
    ∀ m2, serviceMetaCache (ss_ips s) !! "ns/b" = Some m2 → lb_ip4 5 ∉ staticIngressIps m2.
Proof.
  destruct (addresses_of "ns/a" static_run [lb_ip4 5] [lb_ip4 5] ltac:(vm_compute; reflexivity)) as (b&s&m&E&Hm&_&Hst).
  assert (ranges_fine (StaticServiceIpPool static_cfg)) as Hc by (split_and!; decide_now).
  pose proof (svc_static_unique static_cfg (lb_start static_cfg ∅ []) s Hc eq_refl (two_services_reach _ (λ _, True) _ _ b s I I E)
    "ns/a" m (lb_ip4 5) Hm ltac:(rewrite Hst; apply list_elem_of_here)) as (Hf&_&Hu).
  exists s, m. refine (conj Hm (conj Hst (conj Hf _))). intros m2 Hm2 Hin. discriminate (Hu _ _ Hm2 Hin).
Defined.


Definition dynamic_cfg : SvcCfg := lb_cfg [mkRange (lb_ip4 1) (lb_ip4 9)] [].



(** ** The service graph *)

(** The node serves the service: one of its endpoints that count is there, the
    node has a device, and it has a service endpoint. *)
Definition live (cfg : SvcCfg) (env : SvcEnv) (nodes : node_map) (delayed : list DelayedEpSlice) (key : string)
    (service : SvcObj) (devs : devices) (n : string) (ep : ServiceEndpoint) : Prop :=
  n ∈ serving cfg env delayed key service ∧ has_device devs n ∧ nodes !! n = Some ep.

Lemma sorted_nodes_length (m : node_map) : (0 <? length (sorted_nodes m))%nat = true ↔ ∃ n ep, m !! n = Some ep.
Proof.
  rewrite Nat.ltb_lt. split.
  - intros H. destruct (sorted_nodes m) as [|n l] eqn:E; [cbn in H; lia|].
    destruct (proj1 (sorted_nodes_elem m n)) as [ep Hep]; [rewrite E; apply list_elem_of_here|]. by exists n, ep.
  - intros (n&ep&H). destruct (sorted_nodes m) as [|x l] eqn:E; [|cbn; lia].
    assert (n ∈ sorted_nodes m) as Hn by (apply sorted_nodes_elem; by exists ep). rewrite E in Hn. by apply elem_of_nil in Hn.
Qed.

Lemma node_dests_elem (m : node_map) d :
  d ∈ flat_map (λ n, match m !! n with Some ep => node_dests n ep | None => [] end) (sorted_nodes m) ↔
  ∃ n ep, m !! n = Some ep ∧ d ∈ node_dests n ep.
Proof.
  rewrite list_elem_of_In, in_flat_map. setoid_rewrite <- list_elem_of_In. split.
  - intros (n&Hn&Hd). destruct (m !! n) as [ep|] eqn:E; [eauto|by apply elem_of_nil in Hd].
  - intros (n&ep&E&Hd). exists n. rewrite E. split; [|done]. apply sorted_nodes_elem. by exists ep.
Qed.

(** C7: The update of the service graph returns with the index mutex free. If the annotated contract scope is not valid it reports an error and writes nothing; else it writes the objects of the service: none if no node serves it, and else a redirect policy whose destinations are exactly the addresses of the nodes that serve it (a ready endpoint that is not delayed is on the node, the node has a device and a service endpoint), with the nodes' MAC addresses. *)
Theorem svc_redirect_policy cfg env now nodes delayed snat key service devs :
  ∃ devs' err e, updateServiceDeviceInstance cfg env now nodes delayed snat key service devs = Returns (devs', err, e, false) ∧
  match contract_scope service with
  | None => err = true ∧ e = []
  | Some _ => err = false ∧ ∃ objs, e = [SvcWrite (svc_aciName cfg "svc" key) objs] ∧
      let serves := live cfg env nodes delayed key service devs in
      ((∀ n ep, ¬ serves n ep) → objs = []) ∧
      ((∃ n ep, serves n ep) → ∃ rp rest, objs = rp :: rest ∧ class rp = "vnsSvcRedirectPol" ∧
        ∀ d, d ∈ dests rp ↔ ∃ n ep, serves n ep ∧ d ∈ node_dests n ep)
  end.
Proof.
  pose proof (GetnodesMetadata_spec cfg env now nodes delayed key service devs) as Hs. unfold updateServiceDeviceInstance.
  destruct (GetnodesMetadata cfg env now nodes delayed key service devs) as [devs' m]. cbn [snd] in Hs.
  destruct (contract_scope service) as [scope|]; [|eexists _, _, _; split; [reflexivity|done]]. cbv zeta.
  destruct (0 <? length (sorted_nodes m))%nat eqn:El.
  - match goal with |- context [graph_objs ?a ?b ?c ?d ?e ?f ?g ?h ?i ?j] =>
      destruct (graph_objs_typed a b c d e f g h i j (sorted_nodes_all m)) as (rp&rest&dn&E&_&Erp&_) end.
    rewrite E. cbn [mbind outcome_bind]. eexists _, _, _. split; [reflexivity|]. split; [done|]. exists (rp :: rest). split; [done|]. split.
    + intros Hno. apply sorted_nodes_length in El as (n&ep&H). apply Hs in H. destruct (Hno n ep H).
    + intros _. exists rp, rest. split; [done|].
      destruct (apicRedirectPol_typed (svc_aciName cfg "svc" key) (AciVrfTenant cfg) _ m (staticMonPolDn cfg) (AciPbrTrackingNonSnat cfg)
        (sorted_nodes_all m)) as (rp'&d'&E'&_&C). assert (rp' = rp) as -> by (apply (Returns_inj3 _ _ _ _ _ _ (eq_trans (eq_sym E') Erp))).
      split; [done|]. intros d. rewrite (apicRedirectPol_dests _ _ _ _ _ _ _ _ _ Erp (sorted_nodes_all m)), node_dests_elem.
      unfold live. by setoid_rewrite Hs.
  - eexists _, _, _. split; [reflexivity|]. split; [done|]. exists []. split; [done|]. split; [done|]. intros (n&ep&H).
    apply Hs in H. assert ((0 <? length (sorted_nodes m))%nat = true) as Ht by (apply sorted_nodes_length; eauto). congruence.
Qed.

(** C20: The objects that are written for services are typed trees, in which each class has metadata with all its compared attributes set, each child is of a class that the metadata lists below its parent's class and has a DN that extends its parent's: the static bridge domain, the device cluster with the global graph, the graph of a service and the one of source NAT always, and the injected service if no labels are injected (EnableVmmInjectedLabels is off; with it, children for labels are added that the metadata does not list).  The writing itself completes in all these cases, with labels too. *)
Theorem svc_objects_typed cfg env now s nodes delayed snat snatIps key service :
  (∃ e, initStaticServiceObjs cfg = Some e ∧ effects_typed e) ∧
  (∃ s' e, updateDeviceCluster cfg now s = Some (s', e) ∧ effects_typed e) ∧
  (∃ d err e, updateServiceDeviceInstance cfg env now nodes delayed snat key service (nodeOpflexDevice s) = Returns (d, err, e, false) ∧ effects_typed e) ∧
  (∃ d e, updateServiceDeviceInstanceSnat cfg env now nodes snatIps key (nodeOpflexDevice s) = Returns (d, e, false) ∧ effects_typed e) ∧
  ∃ e, writeApicSvc cfg env key service = Some e ∧ (EnableVmmInjectedLabels cfg = false → effects_typed e).
Proof.
  split; [|split; [|split; [|split]]].
  - unfold initStaticServiceObjs. destruct (staticServiceObjs_typed cfg) as (objs&->&T). cbn [mbind option_bind]. eexists. split; [reflexivity|]. by apply Forall_singleton.
  - unfold updateDeviceCluster. destruct (device_paths now (nodeOpflexDevice s)) as [devs m]. cbv zeta.
    destruct (apicDeviceCluster_typed (svc_aciName cfg "svc" "global") (AciVrfTenant cfg) (AciServicePhysDom cfg) (AciServiceEncap cfg)
      (sort_strs (map_to_list m).*1) m) as (dc&d&->&Tdc&_). cbn [mbind option_bind].
    destruct (apicServiceGraph_tree (svc_aciName cfg "svc" "global") (AciVrfTenant cfg) d) as (sg&->&_&Tsg). cbn [mbind option_bind].
    eexists _, _. split; [reflexivity|]. apply Forall_singleton. apply Forall_cons. split; [done|by apply Forall_singleton].
  - destruct (updateServiceDeviceInstance_returns cfg env now nodes delayed snat key service (nodeOpflexDevice s)) as (d&err&e&E&T&_).
    exists d, err, e. exact (conj E T).
  - destruct (updateServiceDeviceInstanceSnat_returns cfg env now nodes snatIps key (nodeOpflexDevice s)) as (d&e&E&T). exists d, e. exact (conj E T).
  - apply writeApicSvc_typed.
Qed.

(** ** The service queue *)



(** Endpoint slices whose update was delayed are all processed: if at every round of the timer all of them are due, then after as many rounds as there are delayed slices none is left, and every service whose slice has no unready endpoint was queued, although a round skips the slice after each that it takes. *)
Theorem svc_delayed_processed inf nows s :
  named_ports_checked inf → mutexLocked s = false → (length (delayedEpSlices s) <= length nows)%nat →
  Forall (λ now, Forall (λ d, (DelayedTime d < now)%Z) (delayedEpSlices s)) nows →
  ∃ s' e, delayed_rounds inf nows s = Returns s' ∧ mutexLocked s' = false ∧ delayedEpSlices s' = [] ∧
    ss_effects s' = (ss_effects s ++ e)%list ∧
    ∀ d key, d ∈ delayedEpSlices s → notReadyEndpointPresent (NewEpSlice d) = false → getServiceKey (NewEpSlice d) = Some key →
      QueueService key ∈ e.
Proof.
  intros Hc Hm Hl Hf. destruct (rounds_clear inf nows s Hc Hm Hl Hf) as (s'&e&E&H1&H2&H3&H4). exists s', e.
  split_and!; [done|done|done|done|]. intros d key Hd Hn Hk. apply (H4 d key Hd). unfold due_key. by rewrite Hn.
Qed.

Definition delayed_demo : SvcState :=
  lb_start dynamic_cfg ∅ [mkDelayed "ns/web" (web_slice "node1") (web_slice "node2") 5; mkDelayed "ns/web" (web_slice "node2") (web_slice "node1") 6].

Lemma svc_delayed_processed_witness :
  ∃ s' e, delayed_rounds no_policies [10; 11]%Z delayed_demo = Returns s' ∧ delayedEpSlices s' = [] ∧ QueueService "ns/web" ∈ e ∧ ss_effects s' = e.
Proof.
  destruct (svc_delayed_processed no_policies [10; 11]%Z delayed_demo) as (s'&e&E&_&H2&H3&H4).
  - intros key np H. discriminate H.
  - reflexivity.
  - cbn. lia.
  - repeat (apply Forall_cons; split; [|]); try apply Forall_nil_2; cbn; lia.
  - exists s', e. refine (conj E (conj H2 (conj _ H3))).
    eapply (H4 (mkDelayed "ns/web" (web_slice "node1") (web_slice "node2") 5)); [apply list_elem_of_here|reflexivity|reflexivity].
Defined.

(** ** Keys of removed services *)

Lemma TrimRight_none s cut : none (in_cutset cut) s = true → TrimRight s cut = s.
Proof.
  induction s as [|c s IH]; [done|]. cbn [none TrimRight]. intros [Hc Hs]%andb_prop. apply negb_true_iff in Hc.
  rewrite IH by done. destruct s; [by rewrite Hc|done].
Qed.

Lemma TrimLeft_none s cut : none (in_cutset cut) s = true → TrimLeft s cut = s.
Proof. destruct s as [|c s]; [done|]. cbn [none TrimLeft]. intros [Hc _]%andb_prop. apply negb_true_iff in Hc. by rewrite Hc. Qed.

Lemma Trim_deleted key : none (in_cutset "DELETED_") key = true → Trim ("DELETED_" ++ key) "DELETED_" = key.
Proof.
  intros H. unfold Trim. assert (TrimLeft ("DELETED_" ++ key) "DELETED_" = TrimLeft key "DELETED_") as -> by reflexivity.
  by rewrite TrimLeft_none, TrimRight_none.
Qed.

Lemma prefix_deleted_none key : none (in_cutset "DELETED_") key = true → String.prefix "DELETED_" key = false.
Proof.
  destruct key as [|c key]; [done|]. cbn [none]. intros [Hc _]%andb_prop. apply negb_true_iff in Hc. cbn [String.prefix].
  destruct (Ascii.ascii_dec "D" c) as [<-|]; [discriminate Hc|done].
Qed.

(** For a key without capital letters D, E, L, T and underscores, as all keys of Kubernetes objects are, the item that the removal of a service queues is processed as the removal of that service, and the item that an update queues as its update: the prefix that marks removed services is put on and cut off without changing the key. *)
Theorem svc_delete_key cfg env now service s :
  none (in_cutset "DELETED_") (so_key service) = true → mutexLocked s = false →
  ∃ s', serviceDeleted service s = Returns s' ∧ ss_effects s' = (ss_effects s ++ [QueueService ("DELETED_" ++ so_key service)])%list ∧
    process_service cfg env now ("DELETED_" ++ so_key service) s' = handleServiceDelete cfg (so_key service) s' ∧
    process_service cfg env now (so_key service) s' =
      match serviceIndexer s' !! so_key service with Some sv => handleServiceUpdate cfg env now sv s' | None => Returns (false, s') end.
Proof.
  intros Hk Hm. unfold serviceDeleted, lock, unlock. rewrite Hm. cbn. eexists. split; [reflexivity|]. split; [done|]. split.
  - unfold process_service. assert (String.prefix "DELETED_" ("DELETED_" ++ so_key service) = true) as -> by (cbn; by destruct (so_key service)).
    by rewrite Trim_deleted.
  - unfold process_service. by rewrite prefix_deleted_none.
Qed.

Lemma svc_delete_key_witness :
  ∃ s', serviceDeleted (lb_svc "web" EmptyString ∅ []) (lb_start dynamic_cfg ∅ []) = Returns s' ∧
    process_service dynamic_cfg lb_env 0 "DELETED_ns/web" s' = handleServiceDelete dynamic_cfg "ns/web" s'.
Proof.
  destruct (svc_delete_key dynamic_cfg lb_env 0 (lb_svc "web" EmptyString ∅ []) (lb_start dynamic_cfg ∅ []) eq_refl eq_refl) as (s'&E&_&H&_).
  exists s'. exact (conj E H).
Defined.

(** ** Where the handlers of services do not do what they mean to *)

(** Each lemma runs the handlers of Services on a small cluster. *)

(** Run the queue on the services of the store that is given with each key. *)
Definition run_with (cfg : SvcCfg) (items : list (string * SvcObj)) : outcome SvcState :=
  foldl (λ r item, s ← r;
           '(_, s) ← process_service cfg lb_env 0 item.1 (set_services {[item.1 := item.2]} s); Returns s)
    (Returns (lb_start cfg ∅ [])) items.

(** The addresses that the service's entry lists for its status. *)
Definition status_ips (key : string) (r : outcome SvcState) : list IP :=
  match r with Returns s => default [] (ingressIps <$> serviceMetaCache (ss_ips s) !! key) | _ => [] end.

Definition both_pools : SvcCfg := lb_cfg [mkRange (lb_ip4 1) (lb_ip4 1)] [mkRange (lb_ip4 20) (lb_ip4 29)].

(** ** Addresses given away twice *)

(** A service with a requested address is updated twice: the address goes to
    the dynamic pool, and another service gets it. *)
Lemma static_address_leaks :
  let a := lb_svc "a" "10.3.0.20" ∅ [] in
  let r := run_with both_pools [("ns/a", a); ("ns/a", a); ("ns/b", lb_svc "b" EmptyString ∅ []); ("ns/c", lb_svc "c" EmptyString ∅ [])] in
  status_ips "ns/a" r = [lb_ip4 20] ∧ status_ips "ns/c" r = [lb_ip4 20].
Proof. vm_compute. split; reflexivity. Qed.

(** The request is taken back: the service keeps the address, which is free
    again, and another service gets it. *)
Lemma dropped_request_keeps_address :
  let r := run_with both_pools [("ns/a", lb_svc "a" "10.3.0.20" ∅ []); ("ns/a", lb_svc "a" EmptyString ∅ []); ("ns/b", lb_svc "b" "10.3.0.20" ∅ [])] in
  status_ips "ns/a" r = [lb_ip4 20] ∧ status_ips "ns/b" r = [lb_ip4 20].
Proof. vm_compute. split; reflexivity. Qed.

(** An annotation that is not valid: the service's address is returned but kept
    in its entry, and another service gets it. *)
Lemma invalid_annotation_frees_address :
  let bad := lb_svc "a" EmptyString {[LbIpAnnotation := "10.3.0.1,10.3.0.2"]} [] in
  let r := run_with both_pools [("ns/a", lb_svc "a" EmptyString ∅ []); ("ns/a", bad); ("ns/b", lb_svc "b" EmptyString ∅ [])] in
  status_ips "ns/a" r = [lb_ip4 1] ∧ status_ips "ns/b" r = [lb_ip4 1].
Proof. vm_compute. split; reflexivity. Qed.

(** ** Families *)

(** The cluster address of a service is also the first of its list, and the
    second occurrence counts as an IPv6 address. *)
Lemma cluster_address_counted_twice s ip :
  so_ClusterIPs s = [so_ClusterIP s] → ParseIP (so_ClusterIP s) = Some ip → is_To4 ip = true → length ip = 16%nat → cluster_ips s = (ip, ip).
Proof.
  intros El Ep H4 Hl. assert (is_To16 ip = true) as H16 by (unfold is_To16, To16; by rewrite Hl).
  unfold cluster_ips. rewrite El. cbn [omap list_omap]. rewrite Ep. cbn [foldl]. rewrite H4. cbn [length Nat.eqb andb]. rewrite H4, H16.
  destruct ip; [discriminate Hl|reflexivity].
Qed.

Definition v6 (d : Z) : IP := [253; 0; 0; 0; 0; 0; 0; 0; 0; 0; 0; 0; 0; 0; 0; d].

(** So a service with only an IPv4 cluster address gets an IPv6 address too. *)
Lemma ipv4_service_gets_ipv6 :
  status_ips "ns/a" (run_with (lb_cfg [mkRange (lb_ip4 1) (lb_ip4 9); mkRange (v6 1) (v6 9)] []) [("ns/a", lb_svc "a" EmptyString ∅ [])]) = [lb_ip4 1; v6 1].
Proof. vm_compute. reflexivity. Qed.

(** ** Status *)

(** Conditions of every type are removed. *)
Lemma removeAllConditions_empties cs ctype : removeAllConditions cs ctype = [].
Proof. reflexivity. Qed.

(** A service that had an address before, when the API server refuses its new
    status: the object of the store carries the status already, and the next
    update sends nothing. *)
Definition refusing : SvcEnv :=
  mkSvcEnv true ∅ [web_slice "node1"] ["node1"] {["ns"]} (λ _, None) (λ _, None) (λ _, false).

Definition settled : SvcObj := set_conditions [mkCond conditionType true "Success" EmptyString] (lb_svc "a" EmptyString ∅ []).

Definition status_updates (l : list svc_effect) : nat :=
  length (List.filter (λ e, match e with UpdateServiceStatus _ => true | _ => false end) l).

Lemma refused_status_not_sent_again :
  match process_service dynamic_cfg refusing 0 "ns/a" (lb_start dynamic_cfg {["ns/a" := settled]} []) with
  | Returns (again, s) =>
      again = true ∧ status_updates (ss_effects s) = 1%nat ∧
      match process_service dynamic_cfg lb_env 1 "ns/a" s with
      | Returns (again, s') => again = false ∧ status_updates (ss_effects s') = 1%nat
      | _ => False
      end
  | _ => False
  end.
Proof. vm_compute. split_and!; reflexivity. Qed.

(** ** Delayed endpoint slices *)

Definition unready_slice : EpSlice :=
  mkEpSlice "ns" {[LabelServiceName := "web"]} [mkEndpoint ["10.1.0.9"] (Some false) None (Some "node1") None].

(** A delayed slice with an endpoint that is not ready is dropped: its address
    does not enter the index. *)
Lemma unready_slice_dropped :
  match processDelayedEpSlices no_policies 10 (lb_start dynamic_cfg ∅ [mkDelayed "ns/web" (web_slice "node1") unready_slice 5]) with
  | Returns s => delayedEpSlices s = [] ∧ ss_effects s = [] ∧ endpointsIpIndex (ss_np s) = ∅
  | _ => False
  end.
Proof. vm_compute. split_and!; reflexivity. Qed.

(** One round leaves every second of the slices that are due. *)
Lemma round_skips_slices :
  let d t := mkDelayed "ns/web" (web_slice "node1") (web_slice "node2") t in
  match processDelayedEpSlices no_policies 10 (lb_start dynamic_cfg ∅ [d 1; d 2; d 3; d 4]) with
  | Returns s => delayedEpSlices s = [d 2; d 4]
  | _ => False
  end.
Proof. vm_compute. reflexivity. Qed.

(** ** The injected service *)

(** With slices, a service without endpoints is not written, so what was
    written for it before stays. *)
Lemma injected_service_stays :
  let env := mkSvcEnv true ∅ [] ["node1"] {["ns"]} (λ _, None) (λ _, None) (λ _, true) in
  writeApicSvc dynamic_cfg env "ns/web" (lb_svc "web" EmptyString ∅ []) = Some [].
Proof. vm_compute. reflexivity. Qed.
