(* ===== verification/HostSvc.v ===== *)
(** * HostSvc: services on a host

    src/pkg/hostagent/services.go: from the services and endpoints of the
    informers to the descriptions of services that the agent keeps for the
    OpFlex agent ([opflexServices]), the files that it writes for them, and the
    tables between services and the pods behind them.

    A panic is [None].  The order in which Go walks the set of cluster
    addresses is the parameter [order].  The labels of a service become the
    attributes of its description, in the map that the informer's store holds,
    so the store is part of the state.  The text of a file is the description
    that it was marshalled from, or any other text; json.MarshalIndent does not
    fail on these types and DeepCopyObj is the identity on them.  Next hops
    grouped under two fixed keys of a map are two lists. *)
From S2P Require Import Prelude GoBytes GoNet GoText IpAlloc ApicMetadata ApicTypes K8s AciNames.
From S2P Require Import PodNet SvcTypes OpflexDev SvcGraph.

Open Scope string_scope.

(** ** Objects of the informers *)

Record HPort := mkHPort { hp_Name : string; hp_Protocol : string; hp_Port : Z; hp_NodePort : Z }.

(** SessionAffinityConfig: the timeout of the client address, if both are set. *)
Record HSvc := mkHSvc {
  hs_Namespace : string;
  hs_Name : string;
  hs_UID : string;
  hs_Labels : option (gmap string string);
  hs_Annotations : gmap string string;
  hs_Type : string;
  hs_ClusterIP : string;
  hs_ClusterIPs : list string;
  hs_Ports : list HPort;
  hs_Ingress : list string;
  hs_SessionAffinity : string;
  hs_SessionAffinityConfig : option (option Z)
}.

Record HAddr := mkHAddr { ha_IP : string; ha_NodeName : option string }.
Record HEpPort := mkHEpPort { he_Name : string; he_Protocol : string; he_Port : Z }.
Record HSubset := mkHSubset { hsub_Addresses : list HAddr; hsub_Ports : list HEpPort }.

Record HSlicePort := mkHSlicePort { hsp_Name : option string; hsp_Protocol : option string; hsp_Port : option Z }.
Record HEndpoint := mkHEndpoint {
  hep_Addresses : list string;
  hep_NodeName : option string;
  hep_Ready : option bool;
  hep_Hints : option (list string)
}.
Record HSlice := mkHSlice {
  hsl_Namespace : string;
  hsl_Labels : gmap string string;
  hsl_Endpoints : list HEndpoint;
  hsl_Ports : list HSlicePort
}.

Record HPod := mkHPod { hpod_Node : string; hpod_UID : string }.

Definition hs_key (s : HSvc) : string := MetaKey (hs_Namespace s) (hs_Name s).

(** ** Descriptions *)

Definition uint16 (z : Z) : Z := z mod 65536.

Record opflexServiceMapping := mkMapping {
  ServiceIp : string;
  ServiceProto : string;
  ServicePort : Z;
  NextHopIps : list string;
  NextHopPort : Z;
  Conntrack : bool;
  NodePort : Z;
  SessionAffinity : Z
}.

Record opflexService := mkOpflexService {
  Uuid : string;
  DomainPolicySpace : string;
  DomainName : string;
  ServiceMode : string;
  ServiceMac : string;
  InterfaceName : string;
  InterfaceIp : string;
  InterfaceVlan : Z;
  ServiceType : string;
  ServiceMappings : list opflexServiceMapping;
  as_Attributes : gmap string string
}.

#[export] Instance opflexServiceMapping_eq_dec : EqDecision opflexServiceMapping.
Proof. solve_decision. Defined.
#[export] Instance opflexService_eq_dec : EqDecision opflexService.
Proof. solve_decision. Defined.

Inductive FileText := AsFile (as_ : opflexService) | OtherText (s : string).
#[export] Instance FileText_eq_dec : EqDecision FileText.
Proof. solve_decision. Defined.

(** ** Configuration, informers, state *)

Record HostCfg := mkHostCfg {
  hc_AciVrfTenant : string;
  hc_AciVrf : string;
  hc_AciVmmDomainType : string;
  hc_Flavor : string;
  hc_InstallerProvlbIp : string;
  hc_NodeName : string;
  hc_UplinkIface : string;
  hc_UplinkMacAdress : string;
  hc_ServiceVlan : Z;
  ocServices : list (string * string)
}.

(** Which implementation of ServiceEndPointType is in use. *)
Inductive HSource :=
  | HEndpoints (eps : gmap string (list HSubset))
  | HSlices (slices : list HSlice).

Record HostEnv := mkHostEnv {
  he_source : HSource;
  he_node : option (gmap string string);
  he_pods : gmap string HPod;
  podIpToName : gmap string string;
  serviceEp : ServiceEndpoint;
  infraIngressIp : string;
  order : gset string → list string;
  dirReadable : bool;
  fileWritable : string → bool
}.

Inductive host_effect :=
  | ScheduleSyncServices
  | ScheduleSyncEps
  | SnatObjectUpdate (key : string)
  | SnatObjectDelete (key : string).

Record HostState := mkHostState {
  serviceStore : gmap string HSvc;
  opflexServices : gmap string opflexService;
  servicetoPodUids : gmap string (gset string);
  podtoServiceUids : gmap string (gmap string (list string));
  serviceDir : gmap string FileText;
  host_effects : list host_effect
}.

Definition set_store (m : gmap string HSvc) (s : HostState) : HostState :=
  mkHostState m (opflexServices s) (servicetoPodUids s) (podtoServiceUids s) (serviceDir s) (host_effects s).
Definition set_opflex (m : gmap string opflexService) (s : HostState) : HostState :=
  mkHostState (serviceStore s) m (servicetoPodUids s) (podtoServiceUids s) (serviceDir s) (host_effects s).
Definition set_uids (sp : gmap string (gset string)) (ps : gmap string (gmap string (list string))) (s : HostState) : HostState :=
  mkHostState (serviceStore s) (opflexServices s) sp ps (serviceDir s) (host_effects s).
Definition set_dir (d : gmap string FileText) (s : HostState) : HostState :=
  mkHostState (serviceStore s) (opflexServices s) (servicetoPodUids s) (podtoServiceUids s) d (host_effects s).
Definition host_emit (l : list host_effect) (s : HostState) : HostState :=
  mkHostState (serviceStore s) (opflexServices s) (servicetoPodUids s) (podtoServiceUids s) (serviceDir s) (host_effects s ++ l)%list.

Section Host.
Context (cfg : HostCfg) (env : HostEnv).

(** ** Mappings *)

Definition DefaultSessionAffinityTimer : Z := 10800.
Definition TempSessionAffinityTimer : Z := 1.

Definition getSessionAffinity (as_ : HSvc) : Z :=
  match hs_SessionAffinityConfig as_ with
  | Some config =>
      if String.eqb (hs_SessionAffinity as_) "ClientIP" then default DefaultSessionAffinityTimer config
      else TempSessionAffinityTimer
  | None => TempSessionAffinityTimer
  end.

(** The set of cluster addresses, as the loop walks it. *)
Definition cluster_list (as_ : HSvc) : list string := order env (list_to_set (hs_ClusterIP as_ :: hs_ClusterIPs as_)).

(** Whether the address of a pod is an IPv4 address, if both addresses can be
    read and are of one family. *)
Definition pod_family (clusterIP podIP : string) : option bool :=
  c ← ParseIP clusterIP; p ← ParseIP podIP;
  if Bool.eqb (is_To4 c) (is_To4 p) then Some (is_To4 p) else None.

(** The first address of the status of the pods' family; an address that
    cannot be read is nil, which is no IPv4 address. *)
Definition external_ip (as_ : HSvc) (pod4 : bool) : string :=
  if String.eqb (hs_Type as_) "LoadBalancer" then
    default EmptyString
      (List.find (λ ip, Bool.eqb (match ParseIP ip with Some lb => is_To4 lb | None => false end) pod4) (hs_Ingress as_))
  else EmptyString.

Definition mapping (as_ : HSvc) (external : bool) (sp : HPort) (clusterIP : string) (pod4 : bool) (port : Z) (hops : list string)
  : opflexServiceMapping :=
  mkMapping (if external then external_ip as_ pod4 else clusterIP) (ToLower (hp_Protocol sp)) (uint16 (hp_Port sp)) hops (uint16 port)
    true (uint16 (hp_NodePort sp)) (getSessionAffinity as_).

Definition valid_mapping (m : opflexServiceMapping) : bool :=
  negb (String.eqb (ServiceIp m) EmptyString) && negb (length (NextHopIps m) =? 0)%nat.

Definition on_this_node (nodeName : option string) : bool := bool_decide (nodeName = Some (hc_NodeName cfg)).

(** The mappings of one subset of endpoints for one cluster address. *)
Definition subset_mappings (as_ : HSvc) (external : bool) (sp : HPort) (clusterIP : string) (e : HSubset) : list opflexServiceMapping :=
  match hsub_Addresses e with
  | [] => []
  | a0 :: _ =>
      match pod_family clusterIP (ha_IP a0) with
      | None => []
      | Some pod4 =>
          let hops := ha_IP <$> List.filter (λ a, negb external || on_this_node (ha_NodeName a)) (hsub_Addresses e) in
          (λ p, mapping as_ external sp clusterIP pod4 (he_Port p) hops) <$>
            List.filter (λ p, String.eqb (he_Protocol p) (hp_Protocol sp) && String.eqb (he_Name p) (hp_Name sp)) (hsub_Ports e)
      end
  end.

Definition hints_enabled (as_ : HSvc) : bool :=
  bool_decide (hs_Annotations as_ !! "service.kubernetes.io/topology-aware-routing" = Some "auto")
  || bool_decide (hs_Annotations as_ !! "service.kubernetes.io/topology-aware-hints" = Some "auto").

(** The next hops of one address: the ones for the node's zone and the others. *)
Definition hop (as_ : HSvc) (external : bool) (e : HEndpoint) (a : string) : list string * list string :=
  if negb external || on_this_node (hep_NodeName e) then
    match he_node env with
    | None => ([], [])
    | Some labels =>
        match labels !! "kubernetes.io/zone", hep_Hints e with
        | Some zone, Some zones =>
            if negb external && hints_enabled as_ then ((λ _, a) <$> List.filter (String.eqb zone) zones, []) else ([], [a])
        | _, _ => ([], [a])
        end
    end
  else ([], []).

Definition slice_hops (as_ : HSvc) (external : bool) (slice : HSlice) : list string :=
  let hops := flat_map (λ e, hop as_ external e <$> hep_Addresses e) (hsl_Endpoints slice) in
  let hinted := flat_map fst hops in
  if (0 <? length hinted)%nat then hinted else flat_map snd hops.

Definition slice_port_matches (sp : HPort) (p : HSlicePort) : bool :=
  match hsp_Protocol p with Some proto => String.eqb proto (hp_Protocol sp) | None => true end
  && match hsp_Name p with Some name => String.eqb name (hp_Name sp) | None => true end.

(** A port without a number is dereferenced. *)
Definition slice_mappings (as_ : HSvc) (external : bool) (sp : HPort) (clusterIP : string) (slice : HSlice)
  : option (list opflexServiceMapping) :=
  match hsl_Endpoints slice with
  | e0 :: _ =>
      match hep_Addresses e0 with
      | a0 :: _ =>
          match pod_family clusterIP a0 with
          | None => Some []
          | Some pod4 =>
              mapM (λ p, port ← hsp_Port p; Some (mapping as_ external sp clusterIP pod4 port (slice_hops as_ external slice)))
                (List.filter (slice_port_matches sp) (hsl_Ports slice))
          end
      | [] => Some []
      end
  | [] => Some []
  end.

(** cache.ListAllByNamespace with the selector of the service's name. *)
Definition host_slices (slices : list HSlice) (as_ : HSvc) : list HSlice :=
  List.filter (λ sl, (String.eqb (hs_Namespace as_) EmptyString || String.eqb (hsl_Namespace sl) (hs_Namespace as_))
                     && bool_decide (hsl_Labels sl !! "kubernetes.io/service-name" = Some (hs_Name as_))) slices.

(** The mappings that a port adds; whether one of them is valid is the result
    of the source. *)
Definition SetOpflexService (as_ : HSvc) (external : bool) (key : string) (sp : HPort) : option (list opflexServiceMapping) :=
  match he_source env with
  | HEndpoints eps =>
      match eps !! key with
      | None => Some []
      | Some subsets => Some (flat_map (λ ip, flat_map (subset_mappings as_ external sp ip) subsets) (cluster_list as_))
      end
  | HSlices slices =>
      l ← mapM (λ ip, mapM (slice_mappings as_ external sp ip) (host_slices slices as_)) (cluster_list as_);
      Some (concat (concat l))
  end.

(** ** Services of OpenShift *)

Definition Version : list string :=
  ["openshift-4.6-baremetal"; "openshift-4.7-baremetal"; "openshift-4.8-baremetal"; "openshift-4.9-baremetal";
   "openshift-4.10-baremetal"; "openshift-4.11-baremetal"; "openshift-4.12-baremetal"; "openshift-4.13-baremetal";
   "openshift-4.4-esx"; "openshift-4.5-esx"; "openshift-4.6-esx"; "openshift-4.7-esx"; "openshift-4.8-esx";
   "openshift-4.9-esx"; "openshift-4.10-esx"; "openshift-4.11-esx"; "openshift-4.12-esx"; "openshift-4.13-esx"].

(** [infraIngressIp] is the ingress address of the cluster's platform, empty if
    it cannot be read or the platform is not OpenStack. *)
Definition getInfrastucreIp (serviceName : string) : string :=
  let ip := if bool_decide (hc_Flavor cfg ∈ Version) then hc_InstallerProvlbIp cfg else infraIngressIp env in
  if String.eqb serviceName "router-internal-default" then ip else EmptyString.

Definition oc_service (as_ : HSvc) (ofas : opflexService) (ip : string) : opflexService :=
  mkOpflexService (hs_UID as_ ++ "-" ++ hs_Name as_) (hc_AciVrfTenant cfg) (hc_AciVrf cfg) "loadbalancer" EmptyString EmptyString
    EmptyString 0 (ServiceType ofas)
    ((λ m, mkMapping ip (ServiceProto m) (ServicePort m) (NextHopIps m) (NextHopPort m) (Conntrack m) (NodePort m) (SessionAffinity m))
       <$> ServiceMappings ofas)
    (as_Attributes ofas).

Definition setOpenShfitService (as_ : HSvc) (external : bool) (ofas : opflexService) (m : gmap string opflexService)
  : gmap string opflexService :=
  if String.eqb (hc_AciVmmDomainType cfg) "OpenShift" && negb external then
    foldl (λ m v,
      if String.eqb v.2 (hs_Namespace as_) && String.eqb v.1 (hs_Name as_) then
        let ip := getInfrastucreIp (hs_Name as_) in
        if String.eqb ip EmptyString then m else let ocas := oc_service as_ ofas ip in <[Uuid ocas := ocas]> m
      else m) m (ocServices cfg)
  else m.

(** ** One service *)

Definition host_service_type (t : string) : string :=
  if String.eqb t "ClusterIP" then "clusterIp"
  else if String.eqb t "NodePort" then "nodePort"
  else if String.eqb t "LoadBalancer" then "loadBalancer"
  else if String.eqb t "ExternalName" then "externalName"
  else EmptyString.

(** The uplink and the service endpoint that an external service needs. *)
Definition uplink_ready : bool :=
  negb (String.eqb (hc_UplinkIface cfg) EmptyString) && negb (length (Ipv4 (serviceEp env)) =? 0)%nat
  && negb (String.eqb (Mac (serviceEp env)) EmptyString).

Definition new_ofas (external : bool) (as_ : HSvc) (mappings : list opflexServiceMapping) (attrs : gmap string string) : opflexService :=
  if external then
    mkOpflexService (hs_UID as_ ++ "-external") (hc_AciVrfTenant cfg) (hc_AciVrf cfg) "loadbalancer" (hc_UplinkMacAdress cfg)
      (hc_UplinkIface cfg) (IP_String (Ipv4 (serviceEp env))) (uint16 (hc_ServiceVlan cfg)) (host_service_type (hs_Type as_)) mappings attrs
  else
    mkOpflexService (hs_UID as_) (hc_AciVrfTenant cfg) (hc_AciVrf cfg) "loadbalancer" EmptyString EmptyString EmptyString 0
      (host_service_type (hs_Type as_)) mappings attrs.

Definition service_attrs (as_ : HSvc) : gmap string string :=
  <["service-name" := hs_Namespace as_ ++ "_" ++ hs_Name as_]>
    (<["name" := hs_Name as_]> (<["namespace" := hs_Namespace as_]> (default ∅ (hs_Labels as_)))).

(** The labels are the map that the attributes were put into, if there is one. *)
Definition with_labels (as_ : HSvc) : HSvc :=
  mkHSvc (hs_Namespace as_) (hs_Name as_) (hs_UID as_) ((λ _, service_attrs as_) <$> hs_Labels as_) (hs_Annotations as_) (hs_Type as_)
    (hs_ClusterIP as_) (hs_ClusterIPs as_) (hs_Ports as_) (hs_Ingress as_) (hs_SessionAffinity as_) (hs_SessionAffinityConfig as_).

(** All mappings, and whether the last port has a valid one. *)
Fixpoint port_mappings (as_ : HSvc) (external : bool) (key : string) (ports : list HPort) (acc : list opflexServiceMapping) (valid : bool)
  : option (list opflexServiceMapping * bool) :=
  match ports with
  | [] => Some (acc, valid)
  | sp :: ports =>
      l ← SetOpflexService as_ external key sp;
      port_mappings as_ external key ports (acc ++ l)%list (existsb valid_mapping l)
  end.

(** The result says whether the files are to be written. *)
Definition updateServiceDesc (external : bool) (key : string) (as_ : HSvc) (s : HostState) : option (bool * HostState) :=
  if String.eqb (hs_ClusterIP as_) "None" then Some (true, s)
  else if external && negb uplink_ready then Some (false, s)
  else
    '(mappings, hasValidMapping) ← port_mappings as_ external key (hs_Ports as_) [] false;
    let ofas := new_ofas external as_ mappings (service_attrs as_) in
    let s := set_store (<[key := with_labels as_]> (serviceStore s)) s in
    let existing := opflexServices s !! Uuid ofas in
    if (hasValidMapping : bool) then
      Some (true,
            if bool_decide (existing = Some ofas) then s
            else set_opflex (setOpenShfitService as_ external ofas (<[Uuid ofas := ofas]> (opflexServices s))) s)
    else
      Some (match existing with
            | Some _ => (true, set_opflex (delete (Uuid ofas) (opflexServices s)) s)
            | None => (false, s)
            end).

(** ** Services and pods *)

Definition getPodKeysFromSm (sm : list opflexServiceMapping) : list string :=
  match sm with
  | [] => []
  | m :: _ => omap (λ ip, podIpToName env !! ip) (NextHopIps m)
  end.

Definition drop_service (suid : string) (poduid : string) (ps : gmap string (gmap string (list string)))
  : gmap string (gmap string (list string)) :=
  match ps !! poduid with
  | Some m => let m := delete suid m in if bool_decide (m = ∅) then delete poduid ps else <[poduid := m]> ps
  | None => ps
  end.

Definition deleteServIpFromEp (suid : string) (s : HostState) : HostState :=
  match servicetoPodUids s !! suid with
  | None => s
  | Some uids =>
      set_uids (delete suid (servicetoPodUids s)) (foldl (λ ps id, drop_service suid id ps) (podtoServiceUids s) (elements uids)) s
  end.

(** The pods of this node behind the service. *)
Definition current_pods (sm : list opflexServiceMapping) : list string :=
  omap (λ key, pod ← he_pods env !! key; if String.eqb (hc_NodeName cfg) (hpod_Node pod) then Some (hpod_UID pod) else None)
    (getPodKeysFromSm sm).

Definition add_service (suid : string) (ips : list string) (poduid : string)
    (t : gmap string (gset string) * gmap string (gmap string (list string)))
  : gmap string (gset string) * gmap string (gmap string (list string)) :=
  (<[suid := {[poduid]} ∪ default ∅ (t.1 !! suid)]> t.1,
   <[poduid := <[suid := ips]> (default ∅ (t.2 !! poduid))]> t.2).

Definition updateEpFileWithClusterIp (as_ : HSvc) (s : HostState) : HostState :=
  let suid := hs_UID as_ in
  match opflexServices s !! suid with
  | None => deleteServIpFromEp suid s
  | Some ofas =>
      if String.eqb (hs_ClusterIP as_) "None" then s
      else
        let current := current_pods (ServiceMappings ofas) in
        let '(sp, ps) := foldl (λ t id, add_service suid (cluster_list as_) id t) (servicetoPodUids s, podtoServiceUids s) current in
        let stale := List.filter (λ id, negb (bool_decide (id ∈ current))) (elements (default ∅ (sp !! suid))) in
        set_uids (match sp !! suid with Some ids => <[suid := ids ∖ list_to_set stale]> sp | None => sp end)
          (foldl (λ ps id, drop_service suid id ps) ps stale) s
  end.

Definition getServiceIPs (poduid : string) (s : HostState) : list string :=
  match podtoServiceUids s !! poduid with
  | Some v => concat (map_to_list v).*2
  | None => []
  end.

(** ** Events *)

Definition doUpdateService (key : string) (s : HostState) : option HostState :=
  match serviceStore s !! key with
  | None => Some s
  | Some as_ =>
      '(sync1, s) ← updateServiceDesc false key as_ s;
      let as_ := default as_ (serviceStore s !! key) in
      '(sync2, s) ← updateServiceDesc true key as_ s;
      if sync2 || sync1
      then Some (host_emit [ScheduleSyncEps] (updateEpFileWithClusterIp as_ (host_emit [ScheduleSyncServices] s)))
      else Some s
  end.

Definition endpointsChanged (namespace name : string) (s : HostState) : option HostState := doUpdateService (MetaKey namespace name) s.

Definition endpointSliceChanged (slice : HSlice) (s : HostState) : option HostState :=
  match hsl_Labels slice !! "kubernetes.io/service-name" with
  | Some name => doUpdateService (hsl_Namespace slice ++ "/" ++ name) s
  | None => Some s
  end.

Definition serviceChanged (as_ : HSvc) (s : HostState) : option HostState :=
  s ← doUpdateService (hs_key as_) s; Some (host_emit [SnatObjectUpdate (hs_key as_)] s).

(** What the informer hands over for a deletion. *)
Inductive deleted_service := DeletedService (as_ : HSvc) | DeletedUnknown (as_ : option HSvc) | DeletedOther.

Definition serviceDeleted (obj : deleted_service) (s : HostState) : HostState :=
  match match obj with DeletedService a => Some a | DeletedUnknown a => a | DeletedOther => None end with
  | None => s
  | Some as_ =>
      let u := hs_UID as_ in
      let s :=
        match opflexServices s !! u with
        | None => s
        | Some _ =>
            let m := delete (u ++ "-external") (delete u (opflexServices s)) in
            let m := foldl (λ m v, if String.eqb v.1 (hs_Name as_) && String.eqb v.2 (hs_Namespace as_)
                                   then delete (u ++ "-" ++ v.1) m else m) m (ocServices cfg) in
            host_emit [ScheduleSyncEps] (deleteServIpFromEp u (host_emit [ScheduleSyncServices] (set_opflex m s)))
        end in
      host_emit [SnatObjectDelete (hs_key as_)] s
  end.

Definition updateAllServices (s : HostState) : option HostState :=
  foldl (λ s key, s ← s; doUpdateService key s) (Some s) (map_to_list (serviceStore s)).*1.

(** ** Files *)

Definition cut_suffix (suffix s : string) : option string :=
  let n := (String.length s - String.length suffix)%nat in
  if (String.length suffix <=? String.length s)%nat && String.eqb (String.substring n (String.length suffix) s) suffix
  then Some (String.substring 0 n s) else None.

(** The identifier that a file name carries. *)
Definition file_uuid (name : string) : option string :=
  match cut_suffix ".as" name with Some u => Some u | None => cut_suffix ".service" name end.

(** Writing fails for a file that is not writable. *)
Definition writeAs (name : string) (as_ : opflexService) (dir : gmap string FileText) : gmap string FileText :=
  if bool_decide (dir !! name = Some (AsFile as_)) then dir
  else if fileWritable env name then <[name := AsFile as_]> dir else dir.

Definition sync_file (services : gmap string opflexService) (acc : gmap string FileText * gset string) (name : string)
  : gmap string FileText * gset string :=
  let '(dir, seen) := acc in
  match file_uuid name with
  | None => acc
  | Some uuid =>
      match services !! uuid with
      | Some existing => (writeAs name existing dir, {[uuid]} ∪ seen)
      | None => (if fileWritable env name then delete name dir else dir, seen)
      end
  end.

(** The result says whether the synchronisation is to be repeated. *)
Definition syncServices (syncEnabled : bool) (s : HostState) : bool * HostState :=
  if negb syncEnabled then (false, s)
  else if negb (dirReadable env) then (true, s)
  else
    let services := opflexServices s in
    let '(dir, seen) := foldl (sync_file services) (serviceDir s, ∅) (map_to_list (serviceDir s)).*1 in
    let dir := foldl (λ dir as_, if bool_decide (Uuid as_ ∈ seen) then dir else writeAs (Uuid as_ ++ ".service") as_ dir)
                 dir (map_to_list services).*2 in
    (false, set_dir dir s).
End Host.
