(* ===== verification/HostSvcProps.v ===== *)
(** * HostSvcProps: the tables and files of the services on a host *)
From S2P Require Import Prelude GoBytes GoNet GoText IpAlloc ApicMetadata ApicTypes K8s AciNames.
From S2P Require Import PodNet SvcTypes OpflexDev SvcGraph HostSvc.

Open Scope string_scope.

Abbreviation sp_table := (gmap string (gset string)).
Abbreviation ps_table := (gmap string (gmap string (list string))).

(** ** Services and pods *)

(** The two tables read as relations. *)
Definition in_sp (sp : sp_table) (suid pod : string) : Prop := pod ∈ (default ∅ (sp !! suid) : gset string).
Definition ps_ips (ps : ps_table) (pod suid : string) : option (list string) := m ← ps !! pod; m !! suid.
Definition in_ps (ps : ps_table) (pod suid : string) : Prop := is_Some (ps_ips ps pod suid).
Definition no_empty (ps : ps_table) : Prop := ∀ pod m, ps !! pod = Some m → m ≠ ∅.

Lemma ps_drop suid p ps pod x :
  ps_ips (drop_service suid p ps) pod x = if decide (pod = p ∧ x = suid) then None else ps_ips ps pod x.
Proof.
  unfold drop_service, ps_ips. destruct (ps !! p) as [m|] eqn:E.
  - cbv zeta. destruct (decide (pod = p)) as [->|Hp].
    + rewrite E. cbn. transitivity ((delete suid m) !! x).
      * destruct (bool_decide_reflect (delete suid m = ∅)) as [He|He]; [rewrite lookup_delete_eq, He; cbn; by rewrite lookup_empty|by rewrite lookup_insert_eq].
      * destruct (decide (x = suid)) as [->|Hx]; [rewrite lookup_delete_eq, decide_True by done; done|].
        rewrite lookup_delete_ne, decide_False by naive_solver. done.
    + rewrite decide_False by naive_solver. destruct (bool_decide (delete suid m = ∅)); [by rewrite lookup_delete_ne|by rewrite lookup_insert_ne].
  - destruct (decide (pod = p ∧ x = suid)) as [[-> ->]|]; [by rewrite E|done].
Qed.

Lemma ps_drop_all suid l ps pod x :
  ps_ips (foldl (λ ps id, drop_service suid id ps) ps l) pod x = if decide (pod ∈ l ∧ x = suid) then None else ps_ips ps pod x.
Proof.
  revert ps. induction l as [|p l IH]; intros ps; cbn [foldl].
  - rewrite decide_False; [done|]. intros [H _]. by apply elem_of_nil in H.
  - rewrite IH, ps_drop. destruct (decide (pod ∈ l ∧ x = suid)) as [[H1 H2]|H].
    + rewrite decide_True; [done|]. split; [by apply list_elem_of_further|done].
    + destruct (decide (pod = p ∧ x = suid)) as [[-> ->]|H'].
      * rewrite decide_True; [done|]. split; [apply list_elem_of_here|done].
      * rewrite decide_False; [done|]. intros [[->|Hl]%elem_of_cons ->]; naive_solver.
Qed.

Lemma drop_no_empty suid p ps : no_empty ps → no_empty (drop_service suid p ps).
Proof.
  intros H pod m. unfold drop_service. destruct (ps !! p) as [m0|] eqn:E; [|apply H]. cbv zeta.
  case_bool_decide as He; [intros [_ Hl]%lookup_delete_Some; by eapply H|].
  destruct (decide (pod = p)) as [->|Hp]; [rewrite lookup_insert_eq; by intros [= <-]|rewrite lookup_insert_ne by done; apply H].
Qed.

Lemma drop_all_no_empty suid l ps : no_empty ps → no_empty (foldl (λ ps id, drop_service suid id ps) ps l).
Proof. revert ps. induction l as [|p l IH]; intros ps H; [done|]. by apply IH, drop_no_empty. Qed.

Lemma sp_add suid ips id t x pod :
  in_sp (add_service suid ips id t).1 x pod ↔ in_sp t.1 x pod ∨ x = suid ∧ pod = id.
Proof.
  unfold add_service, in_sp. cbn [fst]. destruct (decide (x = suid)) as [->|Hx].
  - rewrite lookup_insert_eq. cbn. set_solver.
  - rewrite lookup_insert_ne by done. naive_solver.
Qed.

Lemma ps_add suid ips id t pod x :
  ps_ips (add_service suid ips id t).2 pod x = if decide (pod = id ∧ x = suid) then Some ips else ps_ips t.2 pod x.
Proof.
  unfold add_service, ps_ips. cbn [snd]. destruct (decide (pod = id)) as [->|Hp].
  - rewrite lookup_insert_eq. cbn. destruct (decide (x = suid)) as [->|Hx].
    + rewrite lookup_insert_eq, decide_True by done. done.
    + rewrite lookup_insert_ne, decide_False by naive_solver. destruct (t.2 !! id); cbn; [done|by rewrite lookup_empty].
  - rewrite lookup_insert_ne, decide_False by naive_solver. done.
Qed.

Lemma add_all suid ips l t x pod :
  let t' := foldl (λ t id, add_service suid ips id t) t l in
  (in_sp t'.1 x pod ↔ in_sp t.1 x pod ∨ x = suid ∧ pod ∈ l) ∧
  ps_ips t'.2 pod x = if decide (pod ∈ l ∧ x = suid) then Some ips else ps_ips t.2 pod x.
Proof.
  cbv zeta. revert t. induction l as [|id l IH]; intros t; cbn [foldl].
  - rewrite decide_False; [|intros [H _]; by apply elem_of_nil in H]. rewrite elem_of_nil. tauto.
  - destruct (IH (add_service suid ips id t)) as [IH1 IH2]. split; [rewrite IH1, sp_add, elem_of_cons; tauto|]. rewrite IH2, ps_add.
    pose proof (elem_of_cons l pod id) as Hc.
    destruct (decide (pod ∈ l ∧ x = suid)) as [[H1 H2]|H]; [by rewrite decide_True by tauto|].
    destruct (decide (pod = id ∧ x = suid)) as [[H1 H2]|H']; [by rewrite decide_True by tauto|by rewrite decide_False by tauto].
Qed.

Lemma add_all_no_empty suid ips l t : no_empty t.2 → no_empty (foldl (λ t id, add_service suid ips id t) t l).2.
Proof.
  revert t. induction l as [|id l IH]; intros t H; [done|]. cbn [foldl]. apply IH. intros pod m. cbn [add_service snd].
  destruct (decide (pod = id)) as [->|Hp]; [rewrite lookup_insert_eq; intros [= <-]; apply insert_non_empty|rewrite lookup_insert_ne by done; apply H].
Qed.

(** The tables say the same, and no entry of a pod is empty. *)
Definition linked (s : HostState) : Prop :=
  (∀ suid pod, in_sp (servicetoPodUids s) suid pod ↔ in_ps (podtoServiceUids s) pod suid) ∧ no_empty (podtoServiceUids s).

Lemma deleteServIpFromEp_spec suid s :
  (∀ x pod, in_sp (servicetoPodUids (deleteServIpFromEp suid s)) x pod ↔ x ≠ suid ∧ in_sp (servicetoPodUids s) x pod) ∧
  (linked s → ∀ x pod, ps_ips (podtoServiceUids (deleteServIpFromEp suid s)) pod x = if decide (x = suid) then None else ps_ips (podtoServiceUids s) pod x).
Proof.
  unfold deleteServIpFromEp. destruct (servicetoPodUids s !! suid) as [uids|] eqn:E; cbn [set_uids servicetoPodUids podtoServiceUids]; split.
  - intros x pod. unfold in_sp. destruct (decide (x = suid)) as [->|Hx]; [rewrite lookup_delete_eq; cbn; set_solver|].
    rewrite lookup_delete_ne by done. naive_solver.
  - intros [Hl _] x pod. rewrite ps_drop_all. destruct (decide (x = suid)) as [->|Hx].
    + destruct (decide (pod ∈ elements uids ∧ suid = suid)) as [|Hn]; [done|].
      specialize (Hl suid pod). unfold in_sp in Hl. rewrite E in Hl. cbn in Hl. destruct (ps_ips (podtoServiceUids s) pod suid) eqn:Ep; [|done].
      exfalso. apply Hn. split; [|done]. apply elem_of_elements, Hl. unfold in_ps. rewrite Ep. by eexists.
    + rewrite decide_False by naive_solver. done.
  - intros x pod. unfold in_sp. destruct (decide (x = suid)) as [->|Hx]; [rewrite E; cbn; set_solver|naive_solver].
  - intros [Hl _] x pod. destruct (decide (x = suid)) as [->|Hx]; [|done]. specialize (Hl suid pod). unfold in_sp in Hl. rewrite E in Hl. cbn in Hl.
    destruct (ps_ips (podtoServiceUids s) pod suid) eqn:Ep; [|done]. exfalso. assert (in_ps (podtoServiceUids s) pod suid) as H by (unfold in_ps; rewrite Ep; by eexists).
    apply Hl in H. set_solver.
Qed.

Lemma deleteServIpFromEp_linked suid s : linked s → linked (deleteServIpFromEp suid s).
Proof.
  intros Hl. destruct (deleteServIpFromEp_spec suid s) as [H1 H2]. specialize (H2 Hl). split.
  - intros x pod. rewrite H1. unfold in_ps. rewrite H2. destruct Hl as [Hl _]. specialize (Hl x pod). unfold in_ps in Hl.
    destruct (decide (x = suid)) as [->|Hx]; [split; [naive_solver|intros [? ?]; done]|naive_solver].
  - unfold deleteServIpFromEp. destruct (servicetoPodUids s !! suid); [apply drop_all_no_empty|]; apply Hl.
Qed.

(** What the reconciliation leaves: for the service exactly the pods found now. *)
Lemma updateEp_spec cfg env as_ s ofas :
  opflexServices s !! hs_UID as_ = Some ofas → hs_ClusterIP as_ ≠ "None" → linked s →
  let s' := updateEpFileWithClusterIp cfg env as_ s in
  let current := current_pods cfg env (ServiceMappings ofas) in
  (∀ x pod, in_sp (servicetoPodUids s') x pod ↔ if decide (x = hs_UID as_) then pod ∈ current else in_sp (servicetoPodUids s) x pod) ∧
  (∀ x pod, ps_ips (podtoServiceUids s') pod x =
    if decide (x = hs_UID as_) then (if decide (pod ∈ current) then Some (cluster_list env as_) else None) else ps_ips (podtoServiceUids s) pod x) ∧
  no_empty (podtoServiceUids s').
Proof.
  intros Eo Hc Hl. cbv zeta. unfold updateEpFileWithClusterIp. rewrite Eo. apply String.eqb_neq in Hc. rewrite Hc. cbv zeta.
  set (suid := hs_UID as_). set (current := current_pods cfg env (ServiceMappings ofas)).
  pose proof (add_all suid (cluster_list env as_) current (servicetoPodUids s, podtoServiceUids s)) as Ha. cbv zeta in Ha.
  pose proof (add_all_no_empty suid (cluster_list env as_) current (servicetoPodUids s, podtoServiceUids s) (proj2 Hl)) as Hn.
  destruct (foldl (λ t id, add_service suid (cluster_list env as_) id t) (servicetoPodUids s, podtoServiceUids s) current) as [sp ps]. cbn [fst snd] in Ha, Hn.
  set (stale := List.filter (λ id, negb (bool_decide (id ∈ current))) (elements (default ∅ (sp !! suid)))).
  assert (∀ pod, pod ∈ stale ↔ in_sp sp suid pod ∧ pod ∉ current) as Hst.
  { intros pod. unfold stale. rewrite list_elem_of_In, filter_In, <- list_elem_of_In, elem_of_elements, negb_true_iff, bool_decide_eq_false. done. }
  cbn [set_uids servicetoPodUids podtoServiceUids]. split; [|split].
  - intros x pod. destruct (Ha x pod) as [Hs _]. assert (in_sp (match sp !! suid with Some ids => <[suid := ids ∖ list_to_set stale]> sp | None => sp end) x pod ↔
      in_sp sp x pod ∧ ¬ (x = suid ∧ pod ∈ stale)) as Hsp.
    { destruct (sp !! suid) as [ids|] eqn:E.
      - unfold in_sp. destruct (decide (x = suid)) as [->|Hx]; [rewrite lookup_insert_eq, E; cbn; set_solver|rewrite lookup_insert_ne by done; naive_solver].
      - split; [|naive_solver]. intros H. split; [done|]. intros [-> H']. apply Hst in H' as [H' _]. unfold in_sp in H'. rewrite E in H'. cbn in H'. set_solver. }
    rewrite Hsp. destruct (decide (x = suid)) as [->|Hx]; [|rewrite Hs; naive_solver]. rewrite Hst. destruct (decide (pod ∈ current)); [|naive_solver].
    rewrite Hs. naive_solver.
  - intros x pod. rewrite ps_drop_all. destruct (Ha x pod) as [Hs ->]. destruct (decide (x = suid)) as [->|Hx].
    + destruct (decide (pod ∈ current)) as [Hin|Hin].
      * rewrite decide_False by (intros [H%Hst _]; naive_solver). by rewrite decide_True by done.
      * destruct (decide (pod ∈ stale ∧ suid = suid)) as [|Hns]; [done|]. rewrite decide_False by naive_solver.
        destruct (ps_ips (podtoServiceUids s) pod suid) eqn:Ep; [|done]. exfalso. apply Hns. split; [|done]. apply Hst. split; [|done].
        apply Hs. left. apply Hl. unfold in_ps. rewrite Ep. by eexists.
    + rewrite !decide_False by naive_solver. done.
  - apply drop_all_no_empty, Hn.
Qed.

Lemma updateEp_linked cfg env as_ s : linked s → linked (updateEpFileWithClusterIp cfg env as_ s).
Proof.
  intros Hl. destruct (opflexServices s !! hs_UID as_) as [ofas|] eqn:Eo.
  - destruct (decide (hs_ClusterIP as_ = "None")) as [Hc|Hc].
    { unfold updateEpFileWithClusterIp. rewrite Eo, Hc. done. }
    destruct (updateEp_spec cfg env as_ s ofas Eo Hc Hl) as (H1&H2&H3). split; [|done].
    intros x pod. rewrite H1. unfold in_ps. rewrite H2. destruct (decide (x = hs_UID as_)); [|apply Hl].
    destruct (decide (pod ∈ current_pods cfg env (ServiceMappings ofas))); split; [by eexists|done|done|intros [? ?]; done].
  - unfold updateEpFileWithClusterIp. rewrite Eo. by apply deleteServIpFromEp_linked.
Qed.

(** ** Runs *)

Definition keyed (m : gmap string opflexService) : Prop := ∀ u as_, m !! u = Some as_ → Uuid as_ = u.

Lemma keyed_insert m as_ : keyed m → keyed (<[Uuid as_ := as_]> m).
Proof. intros H u x. destruct (decide (u = Uuid as_)) as [->|]; [rewrite lookup_insert_eq; by intros [= <-]|rewrite lookup_insert_ne by done; apply H]. Qed.
Lemma keyed_delete m u : keyed m → keyed (delete u m).
Proof. intros H v x [_ Hx]%lookup_delete_Some. by apply H. Qed.
#[export] Hint Resolve keyed_insert keyed_delete : go.

Lemma setOpenShfit_keyed cfg env as_ external ofas m : keyed m → keyed (setOpenShfitService cfg env as_ external ofas m).
Proof.
  intros H. unfold setOpenShfitService. destruct (_ && negb external); [|done]. revert m H. induction (ocServices cfg) as [|v l IH]; intros m H; [done|].
  cbn [foldl]. apply IH. destruct (_ && _); [|done]. destruct (String.eqb _ _); [done|]. by apply keyed_insert.
Qed.

(** The description that an update stores or removes; the tables of pods are
    left alone. *)
Definition host_ok (s : HostState) : Prop := linked s ∧ keyed (opflexServices s).

Lemma updateServiceDesc_ok cfg env external key as_ s b s' :
  updateServiceDesc cfg env external key as_ s = Some (b, s') → host_ok s →
  host_ok s' ∧ servicetoPodUids s' = servicetoPodUids s ∧ podtoServiceUids s' = podtoServiceUids s.
Proof.
  unfold updateServiceDesc. intros E [Hl Hk]. destruct (String.eqb _ _); [by injection E as _ <-|].
  destruct (external && _); [by injection E as _ <-|].
  destruct (port_mappings cfg env as_ external key (hs_Ports as_) [] false) as [[maps valid]|]; [|discriminate E]. cbn [mbind option_bind] in E.
  destruct valid.
  - destruct (bool_decide _); injection E as _ <-; [by repeat split; try apply Hl|]. split; [|done]. split; [exact Hl|].
    cbn [set_opflex opflexServices set_store]. apply setOpenShfit_keyed. by apply keyed_insert.
  - destruct (opflexServices _ !! _); injection E as _ <-; (split; [|done]); (split; [exact Hl|]); cbn; auto with go.
Qed.

Lemma doUpdateService_ok cfg env key s s' : doUpdateService cfg env key s = Some s' → host_ok s → host_ok s'.
Proof.
  unfold doUpdateService. intros E H. destruct (serviceStore s !! key) as [as_|]; [|by injection E as <-].
  destruct (updateServiceDesc cfg env false key as_ s) as [[b1 s1]|] eqn:E1; [|discriminate E]. cbn [mbind option_bind] in E.
  destruct (updateServiceDesc cfg env true key (default as_ (serviceStore s1 !! key)) s1) as [[b2 s2]|] eqn:E2; [|discriminate E]. cbn [mbind option_bind] in E.
  apply updateServiceDesc_ok in E1 as [H1 _]; [|done]. apply updateServiceDesc_ok in E2 as [[L2 K2] _]; [|done].
  destruct (b2 || b1); injection E as <-; [|done].
  set (sv := default as_ (serviceStore s1 !! key)).
  assert (linked (updateEpFileWithClusterIp cfg env sv (host_emit [ScheduleSyncServices] s2))) as HL by (by apply updateEp_linked).
  split; [exact HL|]. cbn. unfold updateEpFileWithClusterIp, deleteServIpFromEp. cbn [opflexServices host_emit].
  destruct (opflexServices s2 !! hs_UID sv) as [o|].
  - destruct (String.eqb _ _); [done|]. cbv zeta. destruct (foldl _ _ _) as [sp ps]. done.
  - cbn [servicetoPodUids host_emit]. destruct (servicetoPodUids s2 !! hs_UID sv); exact K2.
Qed.

Lemma serviceDeleted_ok cfg obj s : host_ok s → host_ok (serviceDeleted cfg obj s).
Proof.
  intros [Hl Hk]. unfold serviceDeleted. destruct (match obj with DeletedService a => Some a | _ => _ end) as [as_|]; [|done]. cbv zeta.
  destruct (opflexServices s !! hs_UID as_) as [o|]; [|done].
  set (m := foldl _ _ (ocServices cfg)). assert (keyed m) as Hm.
  { unfold m. assert (keyed (delete (hs_UID as_ ++ "-external") (delete (hs_UID as_) (opflexServices s)))) as H by auto with go.
    revert H. generalize (delete (hs_UID as_ ++ "-external") (delete (hs_UID as_) (opflexServices s))).
    induction (ocServices cfg) as [|v l IH]; intros m0 H0; [done|]. cbn [foldl]. apply IH. destruct (_ && _); auto with go. }
  assert (linked (deleteServIpFromEp (hs_UID as_) (host_emit [ScheduleSyncServices] (set_opflex m s)))) as H by (apply deleteServIpFromEp_linked; exact Hl).
  split; [exact H|]. unfold deleteServIpFromEp. cbn. by destruct (servicetoPodUids s !! hs_UID as_).
Qed.

(** ** Files *)

Lemma substring_skip u t k n : String.substring (String.length u + k) n (u ++ t) = String.substring k n t.
Proof. induction u as [|c u IH]; [done|]. cbn. exact IH. Qed.

Lemma substring_keep u t : String.substring 0 (String.length u) (u ++ t) = u.
Proof. induction u as [|c u IH]; [by destruct t|]. exact (f_equal (String c) IH). Qed.

Lemma length_append u t : String.length (u ++ t) = (String.length u + String.length t)%nat.
Proof. induction u as [|c u IH]; [done|]. exact (f_equal S IH). Qed.

Lemma file_uuid_service u : file_uuid (u ++ ".service") = Some u.
Proof.
  unfold file_uuid, cut_suffix. rewrite !length_append. cbn [String.length].
  assert ((3 <=? String.length u + 8)%nat = true) as -> by (apply Nat.leb_le; lia).
  assert ((8 <=? String.length u + 8)%nat = true) as -> by (apply Nat.leb_le; lia).
  replace (String.length u + 8 - 3)%nat with (String.length u + 5)%nat by lia. rewrite substring_skip.
  replace (String.length u + 8 - 8)%nat with (String.length u + 0)%nat by lia. rewrite substring_skip. cbn [String.substring String.eqb Ascii.eqb andb Bool.eqb].
  rewrite Nat.add_0_r, substring_keep. done.
Qed.

Section Sync.
Context (env : HostEnv) (services : gmap string opflexService).
Context (Hw : ∀ name, fileWritable env name = true).

Lemma writeAs_eq name as_ dir : writeAs env name as_ dir = <[name := AsFile as_]> dir.
Proof using Hw.
  unfold writeAs. case_bool_decide as E; [by rewrite insert_id|]. by rewrite Hw.
Qed.

(** A file after the first loop passed it. *)
Definition settled_file (dir : gmap string FileText) (name : string) : option FileText :=
  match file_uuid name with
  | None => dir !! name
  | Some u => AsFile <$> services !! u
  end.

Lemma sync_files names dir seen :
  NoDup names →
  let '(dir', seen') := foldl (sync_file env services) (dir, seen) names in
  (∀ name, dir' !! name = if decide (name ∈ names) then settled_file dir name else dir !! name) ∧
  ∀ u, u ∈ seen' ↔ u ∈ seen ∨ (is_Some (services !! u) ∧ ∃ name, name ∈ names ∧ file_uuid name = Some u).
Proof using Hw.
  intros Hn. revert dir seen. induction Hn as [|name names Hnot Hn IH]; intros dir seen; cbn [foldl].
  { split; [intros name; by rewrite decide_False by (intros H; by apply elem_of_nil in H)|]. intros u. split; [by left|].
    intros [?|(_&name&H&_)]; [done|by apply elem_of_nil in H]. }
  assert (∃ dir1 seen1, sync_file env services (dir, seen) name = (dir1, seen1) ∧
    (∀ x, dir1 !! x = if decide (x = name) then settled_file dir name else dir !! x) ∧
    (∀ u, u ∈ seen1 ↔ u ∈ seen ∨ is_Some (services !! u) ∧ file_uuid name = Some u)) as (dir1&seen1&->&Hd&Hs).
  { unfold sync_file, settled_file. destruct (file_uuid name) as [u|] eqn:Eu.
    - destruct (services !! u) as [e|] eqn:Es.
      + eexists _, _. split; [reflexivity|]. rewrite writeAs_eq. split.
        * intros x. destruct (decide (x = name)) as [->|]; [by rewrite lookup_insert_eq|by rewrite lookup_insert_ne].
        * intros v. rewrite elem_of_union, elem_of_singleton. split; [|naive_solver]. intros [->|?]; [right; split; [by eexists|done]|by left].
      + rewrite Hw. eexists _, _. split; [reflexivity|]. split.
        * intros x. destruct (decide (x = name)) as [->|]; [by rewrite lookup_delete_eq|by rewrite lookup_delete_ne].
        * intros v. split; [by left|]. intros [?|[[? H] [= <-]]]; [done|]. congruence.
    - eexists _, _. split; [reflexivity|]. split.
      + intros x. by destruct (decide (x = name)) as [->|].
      + naive_solver. }
  specialize (IH dir1 seen1). destruct (foldl (sync_file env services) (dir1, seen1) names) as [dir2 seen2]. destruct IH as [IHd IHs]. split.
  - intros x. rewrite IHd. destruct (decide (x ∈ names)) as [Hin|Hin].
    + rewrite (decide_True (P := x ∈ name :: names)) by (by apply list_elem_of_further). unfold settled_file. rewrite Hd.
      destruct (decide (x = name)) as [->|]; [done|]. by destruct (file_uuid x).
    + rewrite Hd. destruct (decide (x = name)) as [->|Hx].
      * rewrite (decide_True (P := name ∈ name :: names)) by apply list_elem_of_here. done.
      * rewrite decide_False; [done|]. intros [?|?]%elem_of_cons; done.
  - intros u. rewrite IHs, Hs. setoid_rewrite elem_of_cons. naive_solver.
Qed.

Lemma add_files (l : list opflexService) (seen : gset string) dir :
  NoDup (Uuid <$> l) →
  let dir' := foldl (λ dir as_, if bool_decide (Uuid as_ ∈ seen) then dir else writeAs env (Uuid as_ ++ ".service") as_ dir) dir l in
  (∀ as_, as_ ∈ l → Uuid as_ ∉ seen → dir' !! (Uuid as_ ++ ".service") = Some (AsFile as_)) ∧
  ∀ name, (∀ as_, as_ ∈ l → Uuid as_ ∉ seen → name ≠ Uuid as_ ++ ".service") → dir' !! name = dir !! name.
Proof using Hw.
  cbv zeta. revert dir. induction l as [|a l IH]; intros dir Hn; cbn [foldl].
  { split; [intros as_ H; by apply elem_of_nil in H|done]. }
  cbn [fmap list_fmap] in Hn. apply NoDup_cons in Hn as [Hnot Hn].
  set (dir1 := if bool_decide (Uuid a ∈ seen) then dir else writeAs env (Uuid a ++ ".service") a dir).
  destruct (IH dir1 Hn) as [IH1 IH2]. split.
  - intros as_ [->|Hin]%elem_of_cons Hs; [|by apply IH1]. rewrite IH2.
    + unfold dir1. rewrite bool_decide_false by done. rewrite writeAs_eq. by rewrite lookup_insert_eq.
    + intros b Hb _ Heq. apply (f_equal file_uuid) in Heq. rewrite !file_uuid_service in Heq. injection Heq as Heq. apply Hnot. rewrite Heq. by apply list_elem_of_fmap_2.
  - intros name Hname. rewrite IH2.
    + unfold dir1. case_bool_decide as Hs; [done|]. rewrite writeAs_eq. rewrite lookup_insert_ne; [done|]. intros <-. by apply (Hname a); [apply list_elem_of_here|done|].
    + intros b Hb. apply Hname. by apply list_elem_of_further.
Qed.
End Sync.

(** ** Both kinds of endpoints *)

(** The slice that carries the endpoints of a subset. *)
Definition to_slice (as_ : HSvc) (e : HSubset) : HSlice :=
  mkHSlice (hs_Namespace as_) {["kubernetes.io/service-name" := hs_Name as_]}
    ((λ a, mkHEndpoint [ha_IP a] (ha_NodeName a) (Some true) None) <$> hsub_Addresses e)
    ((λ p, mkHSlicePort (Some (he_Name p)) (Some (he_Protocol p)) (Some (he_Port p))) <$> hsub_Ports e).

Definition with_source (src : HSource) (env : HostEnv) : HostEnv :=
  mkHostEnv src (he_node env) (he_pods env) (podIpToName env) (serviceEp env) (infraIngressIp env) (order env) (dirReadable env) (fileWritable env).

Lemma to_slice_hops cfg env as_ external e :
  is_Some (he_node env) →
  slice_hops cfg env as_ external (to_slice as_ e) = ha_IP <$> List.filter (λ a, negb external || on_this_node cfg (ha_NodeName a)) (hsub_Addresses e).
Proof.
  intros [labels El]. unfold slice_hops. cbn [to_slice hsl_Endpoints].
  match goal with |- context [flat_map fst ?x] => set (hops := x) end.
  assert (∀ a, hop cfg env as_ external (mkHEndpoint [ha_IP a] (ha_NodeName a) (Some true) None) (ha_IP a) =
    ([], if negb external || on_this_node cfg (ha_NodeName a) then [ha_IP a] else [])) as Hh.
  { intros a. unfold hop. cbn [hep_NodeName hep_Hints]. rewrite El. destruct (negb external || _); [|done]. by destruct (labels !! "kubernetes.io/zone"). }
  assert (flat_map fst hops = [] ∧ flat_map snd hops = ha_IP <$> List.filter (λ a, negb external || on_this_node cfg (ha_NodeName a)) (hsub_Addresses e)) as [-> ->]; [|done].
  unfold hops. clear hops. induction (hsub_Addresses e) as [|a l [IH1 IH2]]; [done|]. cbn [fmap list_fmap flat_map hep_Addresses app]. rewrite Hh.
  cbn [flat_map fst snd app]. split; [exact IH1|]. cbn [List.filter]. destruct (negb external || _); cbn [app fmap list_fmap]; [f_equal|]; exact IH2.
Qed.

Lemma to_slice_mappings cfg env as_ external sp ip e :
  is_Some (he_node env) → slice_mappings cfg env as_ external sp ip (to_slice as_ e) = Some (subset_mappings cfg as_ external sp ip e).
Proof.
  intros Hn. unfold slice_mappings, subset_mappings. rewrite to_slice_hops by done. cbn [to_slice hsl_Endpoints hsl_Ports].
  destruct (hsub_Addresses e) as [|a0 l]; [done|]. cbn [fmap list_fmap hep_Addresses]. destruct (pod_family ip (ha_IP a0)) as [pod4|]; [|done].
  generalize (ha_IP <$> List.filter (λ a, negb external || on_this_node cfg (ha_NodeName a)) (a0 :: l)). intros hops.
  apply mapM_Some. induction (hsub_Ports e) as [|p ps IH]; [constructor|]. cbn [fmap list_fmap List.filter]. unfold slice_port_matches at 1.
  cbn [hsp_Protocol hsp_Name]. destruct (_ && _); [|exact IH]. cbn [fmap list_fmap]. constructor; [reflexivity|exact IH].
Qed.

Lemma mapM_total {A B} (f : A → option B) (g : A → B) l : (∀ a, a ∈ l → f a = Some (g a)) → mapM f l = Some (g <$> l).
Proof.
  intros H. apply mapM_Some. induction l as [|a l IH]; constructor; [apply H, list_elem_of_here|]. apply IH. intros b Hb. by apply H, list_elem_of_further.
Qed.

Lemma concat_fmap {A B} (f : A → list B) l : concat (f <$> l) = flat_map f l.
Proof. induction l as [|a l IH]; [done|]. cbn. by rewrite <- IH. Qed.

Lemma host_slices_all as_ subsets : host_slices (to_slice as_ <$> subsets) as_ = to_slice as_ <$> subsets.
Proof.
  unfold host_slices. induction subsets as [|e l IH]; [done|]. cbn [fmap list_fmap List.filter to_slice hsl_Namespace hsl_Labels].
  rewrite String.eqb_refl, orb_true_r, bool_decide_true by (by rewrite lookup_singleton_eq). cbn [andb]. by f_equal.
Qed.

Lemma concat_flat {A B} (f : A → list (list B)) l : concat (flat_map f l) = flat_map (λ a, concat (f a)) l.
Proof. induction l as [|a l IH]; [done|]. cbn [flat_map]. by rewrite concat_app, IH. Qed.

(** ** Next hops *)

Lemma subset_hops_local cfg as_ sp ip e m h :
  m ∈ subset_mappings cfg as_ true sp ip e → h ∈ NextHopIps m → ∃ a, a ∈ hsub_Addresses e ∧ ha_IP a = h ∧ ha_NodeName a = Some (hc_NodeName cfg).
Proof.
  unfold subset_mappings. destruct (hsub_Addresses e) as [|a0 l] eqn:E; [intros H; by apply elem_of_nil in H|]. rewrite <- E. clear E.
  destruct (pod_family ip (ha_IP a0)); [|intros H; by apply elem_of_nil in H]. intros (p&->&_)%list_elem_of_fmap. cbn [mapping NextHopIps].
  intros (a&->&Ha)%list_elem_of_fmap. apply list_elem_of_In, filter_In in Ha as [Ha Hn]. apply list_elem_of_In in Ha.
  cbn in Hn. apply bool_decide_eq_true in Hn. by exists a.
Qed.

Lemma hop_external cfg env as_ e a x : x ∈ ((hop cfg env as_ true e a).1 ++ (hop cfg env as_ true e a).2)%list → x = a ∧ hep_NodeName e = Some (hc_NodeName cfg).
Proof.
  unfold hop. cbn [negb orb andb]. unfold on_this_node. case_bool_decide as Hn; [|intros H; by apply elem_of_nil in H].
  destruct (he_node env) as [labels|]; [|intros H; by apply elem_of_nil in H]. intros Hx. split; [|done].
  destruct (labels !! _), (hep_Hints e); by apply list_elem_of_singleton in Hx.
Qed.

Lemma slice_hops_local cfg env as_ slice h :
  h ∈ slice_hops cfg env as_ true slice → ∃ e, e ∈ hsl_Endpoints slice ∧ h ∈ hep_Addresses e ∧ hep_NodeName e = Some (hc_NodeName cfg).
Proof.
  unfold slice_hops. cbv zeta. intros H.
  assert (∃ e a, e ∈ hsl_Endpoints slice ∧ a ∈ hep_Addresses e ∧ h ∈ ((hop cfg env as_ true e a).1 ++ (hop cfg env as_ true e a).2)%list) as (e&a&He&Ha&Hh).
  { assert (∀ P : list string * list string → list string, h ∈ flat_map P (flat_map (λ e, hop cfg env as_ true e <$> hep_Addresses e) (hsl_Endpoints slice)) →
      ∃ e a, e ∈ hsl_Endpoints slice ∧ a ∈ hep_Addresses e ∧ h ∈ P (hop cfg env as_ true e a)) as Hf.
    { intros P Hp. apply list_elem_of_In, in_flat_map in Hp as (x&Hx&Hp). apply in_flat_map in Hx as (e&He&Hx). apply list_elem_of_In in Hx, He, Hp.
      apply list_elem_of_fmap in Hx as (a&->&Ha). by exists e, a. }
    destruct (_ <? _)%nat; apply Hf in H as (e&a&He&Ha&Hh); exists e, a; (split; [done|]; split; [done|]); apply elem_of_app; auto. }
  apply hop_external in Hh as [-> Hn]. by exists e.
Qed.

Lemma slice_mappings_hops cfg env as_ external sp ip slice l m :
  slice_mappings cfg env as_ external sp ip slice = Some l → m ∈ l → NextHopIps m = slice_hops cfg env as_ external slice.
Proof.
  unfold slice_mappings. intros E Hm. assert (l = [] → False) as Hne by (intros ->; by apply elem_of_nil in Hm).
  destruct (hsl_Endpoints slice) as [|e0 es]; [injection E as <-; done|]. destruct (hep_Addresses e0) as [|a0 as0]; [injection E as <-; done|].
  destruct (pod_family ip a0); [|injection E as <-; done]. apply mapM_Some in E.
  apply list_elem_of_lookup_1 in Hm as [i Hm]. eapply Forall2_lookup_r in E as (p&_&Ep); [|exact Hm].
  destruct (hsp_Port p); [|discriminate Ep]. cbn in Ep. by injection Ep as <-.
Qed.

(** ** What holds of the services on a host *)

(** The tables between services and pods, the files of the OpFlex agent, and
    the mappings of both kinds of endpoints; and, at the end, four behaviours
    that do not do what the code means to. *)

(** ** Runs *)

(** Events of the agent, with informers and files as they are at the time; the
    service of source NAT is put into the same table by other code. *)
Inductive host_step (cfg : HostCfg) : HostState → HostState → Prop :=
  | h_update env key s s' : doUpdateService cfg env key s = Some s' → host_step cfg s s'
  | h_deleted obj s : host_step cfg s (serviceDeleted cfg obj s)
  | h_sync env enabled s : host_step cfg s (syncServices env enabled s).2
  | h_store m s : host_step cfg s (set_store m s)
  | h_snat as_ s : host_step cfg s (set_opflex (<[Uuid as_ := as_]> (opflexServices s)) s)
  | h_snat_gone u s : host_step cfg s (set_opflex (delete u (opflexServices s)) s).

Definition host_start (store : gmap string HSvc) (dir : gmap string FileText) : HostState := mkHostState store ∅ ∅ ∅ dir [].

Lemma syncServices_same env enabled s :
  let s' := (syncServices env enabled s).2 in
  servicetoPodUids s' = servicetoPodUids s ∧ podtoServiceUids s' = podtoServiceUids s ∧ opflexServices s' = opflexServices s.
Proof.
  unfold syncServices. destruct (negb enabled); [done|]. destruct (negb (dirReadable env)); [done|]. cbv zeta.
  by destruct (foldl (sync_file env (opflexServices s)) _ _) as [dir seen].
Qed.

Lemma hsvc_step_ok cfg s s' : host_step cfg s s' → host_ok s → host_ok s'.
Proof.
  intros Hs [Hl Hk]. destruct Hs as [env key s s' E|obj s|env enabled s|m s|as_ s|u s].
  - by eapply doUpdateService_ok.
  - by apply serviceDeleted_ok.
  - destruct (syncServices_same env enabled s) as (E1&E2&E3). unfold host_ok, linked. rewrite E1, E2, E3. done.
  - done.
  - split; [exact Hl|]. by apply keyed_insert.
  - split; [exact Hl|]. by apply keyed_delete.
Qed.

Lemma host_start_ok store dir : host_ok (host_start store dir).
Proof.
  split; [split|].
  - intros suid pod. unfold in_sp, in_ps, ps_ips. cbn [host_start servicetoPodUids podtoServiceUids]. rewrite !lookup_empty. cbn. split; [set_solver|intros [? ?]; done].
  - intros pod m. cbn. by rewrite lookup_empty.
  - intros u as_. cbn. by rewrite lookup_empty.
Qed.

Lemma host_reach_ok cfg store dir s : rtc (host_step cfg) (host_start store dir) s → host_ok s.
Proof.
  intros Hr. pose proof (host_start_ok store dir) as H0. induction Hr as [s|s1 s2 s3 Hs _ IH]; [done|]. apply IH. by eapply hsvc_step_ok.
Qed.

(** ** A small host *)

Definition host_cfg : HostCfg :=
  mkHostCfg "common" "vrf1" "OpenShift" "openshift-4.12-baremetal" "10.0.0.7" "node1" "bond0" "02:00:00:00:00:09" 4003
    [("router-internal-default", "openshift-ingress")].

Definition web_subset (ip : string) : HSubset := mkHSubset [mkHAddr ip (Some "node1")] [mkHEpPort "http" "TCP" 8080].

Definition host_env (src : HSource) : HostEnv :=
  mkHostEnv src (Some ∅) {["ns/web-1" := mkHPod "node1" "pod-uid"]} {["10.1.0.2" := "ns/web-1"]}
    (mkSvcEp EmptyString "02:00:00:00:00:01" (v4InV6Prefix ++ [10; 2; 0; 1])%list []) EmptyString elements true (λ _, true).

Definition http : HPort := mkHPort "http" "TCP" 80 30080.
Definition web : HSvc :=
  mkHSvc "ns" "web" "uid-1" None ∅ "LoadBalancer" "10.96.0.10" ["10.96.0.10"] [http] ["10.3.0.1"] "None" None.

Definition web_env : HostEnv := host_env (HEndpoints {["ns/web" := [web_subset "10.1.0.2"]]}).
Definition web_start : HostState :=
  host_start {["ns/web" := web]} (list_to_map [("old.service", OtherText "stale"); ("uid-1.as", OtherText "stale"); ("notes", OtherText "mine")]).
Definition web_host : option HostState := doUpdateService host_cfg web_env "ns/web" web_start.

Lemma web_host_reach s : web_host = Some s → rtc (host_step host_cfg) web_start s.
Proof. intros E. eapply rtc_once. eapply h_update. exact E. Qed.

(** ** The tables *)

(** C25: In every state that updates, deletions and synchronisations lead to, a pod is listed for a service exactly if the service is listed for the pod, no pod has an empty entry, and every description is stored under its own identifier. *)
Theorem host_tables_linked cfg store dir s :
  rtc (host_step cfg) (host_start store dir) s →
  (∀ suid pod, in_sp (servicetoPodUids s) suid pod ↔ in_ps (podtoServiceUids s) pod suid) ∧
  no_empty (podtoServiceUids s) ∧ keyed (opflexServices s).
Proof. intros Hr. destruct (host_reach_ok cfg store dir s Hr) as [[H1 H2] H3]. done. Qed.

Lemma host_tables_linked_witness :
  ∃ s, web_host = Some s ∧ in_sp (servicetoPodUids s) "uid-1" "pod-uid" ∧ in_ps (podtoServiceUids s) "pod-uid" "uid-1".
Proof.
  assert (is_Some web_host) as [s E] by (apply (bool_decide_eq_true_1 _); vm_compute; reflexivity).
  assert ((s ← web_host; Some (bool_decide ("pod-uid" ∈ (default ∅ (servicetoPodUids s !! "uid-1") : gset string)))) = Some true) as H by (vm_compute; reflexivity).
  rewrite E in H. cbn [mbind option_bind] in H. injection H as H. apply bool_decide_eq_true in H.
  exists s. refine (conj E (conj H _)). exact (proj1 (proj1 (host_tables_linked host_cfg _ _ s (web_host_reach s E)) "uid-1" "pod-uid") H).
Defined.

Lemma append_longer u c t : u ++ String c t ≠ u.
Proof. intros H. apply (f_equal String.length) in H. rewrite length_append in H. cbn in H. lia. Qed.

(** The description of the service after its update comes from the internal
    part, which asks for a synchronisation. *)
Lemma update_internal cfg env key as_ s b s' ofas :
  updateServiceDesc cfg env false key as_ s = Some (b, s') → hs_ClusterIP as_ ≠ "None" → opflexServices s' !! hs_UID as_ = Some ofas → b = true.
Proof.
  unfold updateServiceDesc. intros E Hc Ho. apply String.eqb_neq in Hc. rewrite Hc in E. cbn [andb] in E.
  destruct (port_mappings cfg env as_ false key (hs_Ports as_) [] false) as [[maps valid]|]; [|discriminate E]. cbn [mbind option_bind] in E.
  destruct valid; [by injection E as <- _|]. destruct (opflexServices _ !! Uuid _) eqn:Ex; [by injection E as <- _|].
  injection E as _ <-. cbn in Ho, Ex. congruence.
Qed.

Lemma update_external cfg env key as_ s b s' :
  updateServiceDesc cfg env true key as_ s = Some (b, s') → opflexServices s' !! hs_UID as_ = opflexServices s !! hs_UID as_.
Proof.
  unfold updateServiceDesc. intros E. destruct (String.eqb _ _); [by injection E as _ <-|]. destruct (true && _); [by injection E as _ <-|].
  destruct (port_mappings cfg env as_ true key (hs_Ports as_) [] false) as [[maps valid]|]; [|discriminate E]. cbn [mbind option_bind] in E.
  pose proof (append_longer (hs_UID as_) "-" "external") as Hne. destruct valid.
  - destruct (bool_decide _); injection E as _ <-; [done|]. cbn [set_opflex opflexServices set_store]. unfold setOpenShfitService. rewrite andb_false_r.
    cbn [new_ofas Uuid]. by rewrite lookup_insert_ne.
  - destruct (opflexServices _ !! Uuid _); injection E as _ <-; [|done]. cbn. by rewrite lookup_delete_ne.
Qed.

Lemma update_store cfg env external key as_ s b s' :
  updateServiceDesc cfg env external key as_ s = Some (b, s') → serviceStore s' !! key = serviceStore s !! key ∨ serviceStore s' !! key = Some (with_labels as_).
Proof.
  unfold updateServiceDesc. intros E. destruct (String.eqb _ _); [injection E as _ <-; by left|]. destruct (external && _); [injection E as _ <-; by left|].
  destruct (port_mappings _ _ _ _ _ _ _ _) as [[maps valid]|]; [|discriminate E]. cbn [mbind option_bind] in E. right.
  destruct valid; [destruct (bool_decide _)|destruct (opflexServices _ !! _)]; injection E as _ <-; cbn; by rewrite lookup_insert_eq.
Qed.

(** After the update of a service that gets a description, the pods listed for it are exactly the pods of this node among the next hops of its first mapping; the service addresses of those pods include the cluster addresses of the service, no other pod has an entry for it, and the entries of other services are unchanged. *)
Theorem host_update_pods cfg store dir env key as_ s s' ofas :
  rtc (host_step cfg) (host_start store dir) s → serviceStore s !! key = Some as_ → hs_ClusterIP as_ ≠ "None" →
  doUpdateService cfg env key s = Some s' → opflexServices s' !! hs_UID as_ = Some ofas →
  let current := current_pods cfg env (ServiceMappings ofas) in
  (∀ pod, in_sp (servicetoPodUids s') (hs_UID as_) pod ↔ pod ∈ current) ∧
  (∀ pod ip, pod ∈ current → ip ∈ cluster_list env as_ → ip ∈ getServiceIPs pod s') ∧
  (∀ pod, in_ps (podtoServiceUids s') pod (hs_UID as_) ↔ pod ∈ current) ∧
  ∀ x pod, x ≠ hs_UID as_ → ps_ips (podtoServiceUids s') pod x = ps_ips (podtoServiceUids s) pod x.
Proof.
  intros Hr Hst Hc E Ho. pose proof (host_reach_ok cfg store dir s Hr) as Hok. cbv zeta.
  unfold doUpdateService in E. rewrite Hst in E.
  destruct (updateServiceDesc cfg env false key as_ s) as [[b1 s1]|] eqn:E1; [|discriminate E]. cbn [mbind option_bind] in E.
  set (as1 := default as_ (serviceStore s1 !! key)) in E.
  assert (hs_UID as1 = hs_UID as_ ∧ hs_ClusterIP as1 = hs_ClusterIP as_ ∧ hs_ClusterIPs as1 = hs_ClusterIPs as_) as (EU&EC&ECs).
  { unfold as1. apply update_store in E1 as [->| ->]; [by rewrite Hst|done]. }
  destruct (updateServiceDesc cfg env true key as1 s1) as [[b2 s2]|] eqn:E2; [|discriminate E]. cbn [mbind option_bind] in E.
  destruct (updateServiceDesc_ok _ _ _ _ _ _ _ _ E1 Hok) as (H1&Sp1&Ps1). destruct (updateServiceDesc_ok _ _ _ _ _ _ _ _ E2 H1) as ([L2 _]&Sp2&Ps2).
  pose proof (update_external _ _ _ _ _ _ _ E2) as Ex. rewrite EU in Ex.
  assert (opflexServices s' = opflexServices s2) as Eo.
  { destruct (b2 || b1); injection E as <-; [|done]. cbn. unfold updateEpFileWithClusterIp, deleteServIpFromEp. cbn [opflexServices host_emit].
    destruct (opflexServices s2 !! hs_UID as1) as [o|]; [destruct (String.eqb _ _); [done|]; cbv zeta; by destruct (foldl _ _ _) as [sp ps]|].
    cbn [servicetoPodUids host_emit]. by destruct (servicetoPodUids s2 !! hs_UID as1). }
  rewrite Eo in Ho. assert (b1 = true) as -> by (eapply update_internal; [exact E1|exact Hc|by rewrite <- Ex]). rewrite orb_true_r in E. injection E as <-.
  cbn [host_emit servicetoPodUids podtoServiceUids]. set (s3 := host_emit [ScheduleSyncServices] s2).
  assert (cluster_list env as1 = cluster_list env as_) as Ecl by (unfold cluster_list; by rewrite EC, ECs).
  destruct (updateEp_spec cfg env as1 s3 ofas) as (A1&A2&_); [by rewrite EU|by rewrite EC|exact L2|]. rewrite EU, Ecl in *.
  split; [|split; [|split]].
  - intros pod. rewrite A1. by rewrite decide_True by done.
  - intros pod ip Hp Hi. specialize (A2 (hs_UID as_) pod). rewrite !decide_True in A2 by done. unfold ps_ips in A2. unfold getServiceIPs.
    cbn [host_emit podtoServiceUids]. destruct (podtoServiceUids _ !! pod) as [m|]; [|discriminate A2]. cbn in A2.
    apply list_elem_of_In, in_concat. exists (cluster_list env as_). rewrite <- !list_elem_of_In. split; [|done].
    apply list_elem_of_fmap. exists (hs_UID as_, cluster_list env as_). split; [done|]. by apply elem_of_map_to_list.
  - intros pod. unfold in_ps. rewrite A2, decide_True by done. destruct (decide (pod ∈ _)); split; [done|by eexists|intros [? ?]; done|done].
  - intros x pod Hx. rewrite A2, decide_False by done. unfold s3. cbn [host_emit podtoServiceUids]. by rewrite Ps2, Ps1.
Qed.

Lemma host_update_pods_witness :
  ∃ s ofas, web_host = Some s ∧ opflexServices s !! "uid-1" = Some ofas ∧ "10.96.0.10" ∈ getServiceIPs "pod-uid" s.
Proof.
  assert (is_Some web_host) as [s E] by (apply (bool_decide_eq_true_1 _); vm_compute; reflexivity).
  assert (is_Some (s ← web_host; o ← opflexServices s !! "uid-1"; Some (current_pods host_cfg web_env (ServiceMappings o)))) as [l H]
    by (apply (bool_decide_eq_true_1 _); vm_compute; reflexivity).
  assert ((s ← web_host; o ← opflexServices s !! "uid-1"; Some (current_pods host_cfg web_env (ServiceMappings o))) = Some ["pod-uid"]) as H' by (vm_compute; reflexivity).
  clear H l. rewrite E in H'. cbn [mbind option_bind] in H'. destruct (opflexServices s !! "uid-1") as [o|] eqn:Eo; [|discriminate H'].
  cbn [mbind option_bind] in H'. injection H' as H'.
  destruct (host_update_pods host_cfg {["ns/web" := web]} (serviceDir web_start) web_env "ns/web" web web_start s o) as (_&Hip&_).
  - apply rtc_refl.
  - reflexivity.
  - discriminate.
  - exact E.
  - exact Eo.
  - exists s, o. refine (conj E (conj Eo _)). apply Hip; [rewrite H'; apply list_elem_of_here|]. apply (bool_decide_unpack _). vm_compute. exact I.
Defined.

(** ** The files *)

(** The files of a directory are those of the descriptions. *)
Definition files_match (services : gmap string opflexService) (dir dir' : gmap string FileText) : Prop :=
  (∀ name u, file_uuid name = Some u → ∀ txt, dir' !! name = Some txt → ∃ as_, services !! u = Some as_ ∧ txt = AsFile as_) ∧
  (∀ u as_, services !! u = Some as_ → ∃ name, file_uuid name = Some u ∧ dir' !! name = Some (AsFile as_)) ∧
  ∀ name, file_uuid name = None → dir' !! name = dir !! name.

(** The directory in the end: where the second loop writes, and where not. *)
Lemma sync_dir env s :
  keyed (opflexServices s) → dirReadable env = true → (∀ name, fileWritable env name = true) →
  ∃ s', syncServices env true s = (false, s') ∧
  let fresh u := ∀ name, is_Some (serviceDir s !! name) → file_uuid name ≠ Some u in
  (∀ u as_, opflexServices s !! u = Some as_ → fresh u → serviceDir s' !! (u ++ ".service") = Some (AsFile as_)) ∧
  ∀ name, (∀ u, is_Some (opflexServices s !! u) → fresh u → name ≠ u ++ ".service") →
    serviceDir s' !! name = if decide (is_Some (serviceDir s !! name)) then settled_file (opflexServices s) (serviceDir s) name else None.
Proof.
  intros Hk Hd Hw. unfold syncServices. rewrite Hd. cbn [negb]. cbv zeta. set (services := opflexServices s) in *.
  pose proof (sync_files env services Hw (map_to_list (serviceDir s)).*1 (serviceDir s) ∅ (NoDup_fst_map_to_list _)) as Hf.
  destruct (foldl (sync_file env services) (serviceDir s, ∅) (map_to_list (serviceDir s)).*1) as [dir1 seen]. destruct Hf as [Hdir Hseen].
  assert (∀ name, name ∈ (map_to_list (serviceDir s)).*1 ↔ is_Some (serviceDir s !! name)) as Hin.
  { intros name. rewrite list_elem_of_fmap. split; [intros ([n t]&->&H%elem_of_map_to_list); by exists t|].
    intros [t H]. exists (name, t). split; [done|by apply elem_of_map_to_list]. }
  assert (∀ u, is_Some (services !! u) → u ∉ seen ↔ ∀ name, is_Some (serviceDir s !! name) → file_uuid name ≠ Some u) as Hfresh.
  { intros u Hu. rewrite Hseen. setoid_rewrite Hin. set_solver. }
  assert (∀ as_, as_ ∈ (map_to_list services).*2 ↔ services !! Uuid as_ = Some as_) as Hsv.
  { intros as_. rewrite list_elem_of_fmap. split; [intros ([u a]&->&H%elem_of_map_to_list); cbn; by rewrite (Hk _ _ H)|].
    intros H. exists (Uuid as_, as_). split; [done|by apply elem_of_map_to_list]. }
  assert (NoDup (Uuid <$> (map_to_list services).*2)) as Hnd.
  { assert (Uuid <$> (map_to_list services).*2 = (map_to_list services).*1) as ->; [|apply NoDup_fst_map_to_list].
    rewrite <- list_fmap_compose. apply list_fmap_ext. intros i [u a] Hi. cbn. apply Hk. apply elem_of_map_to_list. by eapply list_elem_of_lookup_2. }
  destruct (add_files env Hw (map_to_list services).*2 seen dir1 Hnd) as [Ha1 Ha2].
  eexists. split; [reflexivity|]. cbn [set_dir serviceDir]. split.
  - intros u as_ Has Hu. assert (Uuid as_ = u) as <- by (by apply Hk). apply Ha1; [by apply Hsv|]. apply Hfresh; [by eexists|done].
  - intros name H. rewrite Ha2.
    + rewrite Hdir. destruct (decide (is_Some (serviceDir s !! name))) as [Hs|Hs].
      * by rewrite decide_True by (by apply Hin).
      * rewrite decide_False by (by rewrite Hin). by apply eq_None_not_Some.
    + intros as_ Has%Hsv Hns. apply H; [by eexists|]. apply Hfresh; [by eexists|done].
Qed.

(** C14: A synchronisation with a directory that can be read and written leaves exactly the files of the descriptions: every service file belongs to a description and has its text, every description has a file, and files with other names are left alone. *)
Theorem host_files_synced cfg store dir env s :
  rtc (host_step cfg) (host_start store dir) s → dirReadable env = true → (∀ name, fileWritable env name = true) →
  ∃ s', syncServices env true s = (false, s') ∧ files_match (opflexServices s) (serviceDir s) (serviceDir s').
Proof.
  intros Hr Hd Hw. destruct (host_reach_ok cfg store dir s Hr) as [_ Hk]. destruct (sync_dir env s Hk Hd Hw) as (s'&E&H1&H2). exists s'. split; [exact E|].
  split; [|split].
  - intros name u Hu txt Htxt. destruct (decide (serviceDir s' !! name = if decide (is_Some (serviceDir s !! name)) then settled_file (opflexServices s) (serviceDir s) name else None)) as [Heq|Hno].
    + rewrite Heq in Htxt. destruct (decide _); [|discriminate Htxt]. unfold settled_file in Htxt. rewrite Hu in Htxt.
      destruct (opflexServices s !! u) as [as_|]; [|discriminate Htxt]. injection Htxt as <-. by exists as_.
    + destruct (opflexServices s !! u) as [as_|] eqn:Has.
      * exists as_. split; [done|]. destruct (decide (name = u ++ ".service")) as [->|Hne].
        -- rewrite H1 with (as_ := as_) in Htxt; [by injection Htxt as <-|done|]. intros n Hn Hnu. apply Hno. apply H2.
           intros v _ Hv Heq. apply (f_equal file_uuid) in Heq. rewrite !file_uuid_service in Heq. injection Heq as <-. destruct (Hv n Hn Hnu).
        -- exfalso. apply Hno, H2. intros v _ _ ->. rewrite file_uuid_service in Hu. by injection Hu as ->.
      * exfalso. apply Hno, H2. intros v [b Hb] _ ->. rewrite file_uuid_service in Hu. injection Hu as ->. congruence.
  - intros u as_ Has.
    destruct (decide (Exists (λ name, file_uuid name = Some u) (map_to_list (serviceDir s)).*1)) as [Hex|Hex].
    + apply Exists_exists in Hex as (name&Hname&Hu). exists name. split; [done|].
      apply list_elem_of_fmap in Hname as ([n t]&->&Ht%elem_of_map_to_list). cbn [fst] in *. rewrite H2.
      * rewrite decide_True by (by eexists). unfold settled_file. by rewrite Hu, Has.
      * intros v _ Hv ->. apply (Hv (v ++ ".service")); [by eexists|apply file_uuid_service].
    + exists (u ++ ".service"). split; [apply file_uuid_service|]. apply H1; [done|]. intros name [t Ht] Hu. apply Hex, Exists_exists.
      exists name. split; [|done]. apply list_elem_of_fmap. exists (name, t). split; [done|by apply elem_of_map_to_list].
  - intros name Hn. rewrite H2; [|intros u _ _ ->; by rewrite file_uuid_service in Hn].
    unfold settled_file. rewrite Hn. destruct (decide _) as [|Hs]; [done|]. symmetry. by apply eq_None_not_Some.
Qed.

Lemma host_files_synced_witness :
  ∃ s s', web_host = Some s ∧ syncServices web_env true s = (false, s') ∧ serviceDir s' !! "notes" = Some (OtherText "mine") ∧
    ∀ txt, serviceDir s' !! "old.service" ≠ Some txt.
Proof.
  assert (is_Some web_host) as [s E] by (apply (bool_decide_eq_true_1 _); vm_compute; reflexivity).
  assert ((s ← web_host; Some (opflexServices s !! "old")) = Some None) as H by (vm_compute; reflexivity).
  assert ((s ← web_host; serviceDir s !! "notes") = Some (OtherText "mine")) as Hn by (vm_compute; reflexivity).
  rewrite E in H, Hn. cbn [mbind option_bind] in H, Hn. injection H as H.
  destruct (host_files_synced host_cfg _ _ web_env s (web_host_reach s E) eq_refl (λ _, eq_refl)) as (s'&E'&H1&_&H3).
  exists s, s'. refine (conj E (conj E' (conj _ _))).
  - rewrite (H3 "notes" eq_refl). exact Hn.
  - intros txt Htxt. destruct (H1 "old.service" "old" eq_refl txt Htxt) as (as_&Has&_). rewrite H in Has. discriminate Has.
Defined.

(** ** Mappings *)

(** C26: Both implementations of the service endpoints agree: for any subsets of endpoints, the mappings computed from the endpoints object are those computed from slices that carry the same addresses and ports, for internal and external services, when the node of the agent is known. *)
Theorem host_sources_agree cfg env as_ external key sp subsets :
  is_Some (he_node env) →
  SetOpflexService cfg (with_source (HEndpoints {[key := subsets]}) env) as_ external key sp =
  SetOpflexService cfg (with_source (HSlices (to_slice as_ <$> subsets)) env) as_ external key sp.
Proof.
  intros Hn. unfold SetOpflexService. cbn [with_source he_source]. rewrite lookup_singleton_eq, host_slices_all.
  set (env' := with_source (HSlices (to_slice as_ <$> subsets)) env).
  change (cluster_list (with_source (HEndpoints {[key := subsets]}) env) as_) with (cluster_list env' as_).
  rewrite (mapM_total _ (λ ip, subset_mappings cfg as_ external sp ip <$> subsets)).
  - cbn [mbind option_bind]. rewrite concat_fmap, concat_flat. f_equal. apply flat_map_ext. intros ip. by rewrite concat_fmap.
  - intros ip _. apply mapM_Some. clear -Hn. induction subsets as [|e l IH]; cbn; constructor; [|exact IH].
    apply to_slice_mappings. exact Hn.
Qed.

Lemma host_sources_agree_witness :
  SetOpflexService host_cfg (with_source (HEndpoints {["ns/web" := [web_subset "10.1.0.2"]]}) web_env) web true "ns/web" http =
  SetOpflexService host_cfg (with_source (HSlices [to_slice web (web_subset "10.1.0.2")]) web_env) web true "ns/web" http.
Proof. apply (host_sources_agree host_cfg web_env web true "ns/web" http [web_subset "10.1.0.2"]). exists ∅. reflexivity. Defined.

(** An endpoint of the source with this address that is on the node. *)
Definition local_endpoint (src : HSource) (node ip : string) : Prop :=
  match src with
  | HEndpoints eps => ∃ key subsets e a, eps !! key = Some subsets ∧ e ∈ subsets ∧ a ∈ hsub_Addresses e ∧ ha_IP a = ip ∧ ha_NodeName a = Some node
  | HSlices slices => ∃ sl e, sl ∈ slices ∧ e ∈ hsl_Endpoints sl ∧ ip ∈ hep_Addresses e ∧ hep_NodeName e = Some node
  end.

Lemma external_hops_local cfg env as_ key sp l m h :
  SetOpflexService cfg env as_ true key sp = Some l → m ∈ l → h ∈ NextHopIps m → local_endpoint (he_source env) (hc_NodeName cfg) h.
Proof.
  unfold SetOpflexService, local_endpoint. destruct (he_source env) as [eps|slices].
  - destruct (eps !! key) as [subsets|] eqn:E; intros [= <-] Hm Hh; [|by apply elem_of_nil in Hm].
    apply list_elem_of_In, in_flat_map in Hm as (ip&_&Hm). apply in_flat_map in Hm as (e&He&Hm). apply list_elem_of_In in He, Hm.
    destruct (subset_hops_local cfg as_ sp ip e m h Hm Hh) as (a&Ha&E1&E2). by exists key, subsets, e, a.
  - destruct (mapM _ (cluster_list env as_)) as [ll|] eqn:E; [|discriminate]. cbn [mbind option_bind]. intros [= <-] Hm Hh.
    apply list_elem_of_In, in_concat in Hm as (l1&Hl1&Hm). apply in_concat in Hl1 as (l2&Hl2&Hl1). apply list_elem_of_In in Hm, Hl1, Hl2.
    apply mapM_Some in E. apply list_elem_of_lookup_1 in Hl2 as [i Hi]. eapply Forall2_lookup_r in E as (ip&_&E); [|exact Hi].
    apply mapM_Some in E. apply list_elem_of_lookup_1 in Hl1 as [j Hj]. eapply Forall2_lookup_r in E as (sl&Hsl&E); [|exact Hj].
    rewrite (slice_mappings_hops _ _ _ _ _ _ _ _ _ E Hm) in Hh. destruct (slice_hops_local cfg env as_ sl h Hh) as (e&He&Ha&Hn).
    exists sl, e. split_and!; [|done|done|done]. apply list_elem_of_lookup_2 in Hsl. unfold host_slices in Hsl.
    apply list_elem_of_In, filter_In in Hsl as [Hsl _]. by apply list_elem_of_In.
Qed.

Lemma port_mappings_all cfg env as_ external key ports acc valid l b (P : opflexServiceMapping → Prop) :
  port_mappings cfg env as_ external key ports acc valid = Some (l, b) → (∀ m, m ∈ acc → P m) →
  (∀ sp l m, SetOpflexService cfg env as_ external key sp = Some l → m ∈ l → P m) → ∀ m, m ∈ l → P m.
Proof.
  revert acc valid. induction ports as [|sp ports IH]; intros acc valid E Ha Hp; cbn [port_mappings] in E; [by injection E as <- _|].
  destruct (SetOpflexService cfg env as_ external key sp) as [l1|] eqn:E1; [|discriminate E]. cbn [mbind option_bind] in E.
  eapply IH; [exact E| |exact Hp]. intros m [Hm|Hm]%elem_of_app; [by apply Ha|by eapply Hp].
Qed.

(** The external description of a service that an update stores sends traffic only to pods on this node: each next hop of each of its mappings is the address of an endpoint of the source that is on the node of the agent, and the interface is the uplink with the service endpoint's address. *)
Theorem host_external_local cfg env key as_ s s' ofas :
  updateServiceDesc cfg env true key as_ s = Some (true, s') → hs_ClusterIP as_ ≠ "None" →
  opflexServices s' !! (hs_UID as_ ++ "-external") = Some ofas → opflexServices s !! (hs_UID as_ ++ "-external") ≠ Some ofas →
  InterfaceName ofas = hc_UplinkIface cfg ∧ InterfaceIp ofas = IP_String (Ipv4 (serviceEp env)) ∧
  ∀ m h, m ∈ ServiceMappings ofas → h ∈ NextHopIps m → local_endpoint (he_source env) (hc_NodeName cfg) h.
Proof.
  unfold updateServiceDesc. intros E Hc Ho Hne. apply String.eqb_neq in Hc. rewrite Hc in E. destruct (true && _); [discriminate E|].
  destruct (port_mappings cfg env as_ true key (hs_Ports as_) [] false) as [[maps valid]|] eqn:Ep; [|discriminate E]. cbn [mbind option_bind] in E.
  destruct valid.
  - destruct (bool_decide _); injection E as <-; [cbn in Ho; congruence|]. cbn [set_opflex opflexServices set_store] in Ho.
    unfold setOpenShfitService in Ho. rewrite andb_false_r in Ho. cbn [new_ofas Uuid] in Ho. rewrite lookup_insert_eq in Ho. injection Ho as <-.
    cbn [InterfaceName InterfaceIp ServiceMappings]. split; [done|]. split; [done|]. intros m h Hm.
    revert m Hm h. eapply (port_mappings_all _ _ _ _ _ _ _ _ _ _ (λ m, ∀ h, h ∈ NextHopIps m → local_endpoint (he_source env) (hc_NodeName cfg) h)); [exact Ep| |].
    + intros m H. by apply elem_of_nil in H.
    + intros sp l m El Hm h Hh. by eapply external_hops_local.
  - destruct (opflexServices _ !! Uuid _); [|discriminate E]. injection E as <-. cbn in Ho. by rewrite lookup_delete_eq in Ho.
Qed.

Lemma host_external_local_witness :
  ∃ s' ofas, updateServiceDesc host_cfg web_env true "ns/web" web web_start = Some (true, s') ∧
    opflexServices s' !! "uid-1-external" = Some ofas ∧ InterfaceName ofas = "bond0".
Proof.
  assert ((r ← updateServiceDesc host_cfg web_env true "ns/web" web web_start; Some (r.1, bool_decide (is_Some (opflexServices r.2 !! "uid-1-external")))) = Some (true, true)) as H
    by (vm_compute; reflexivity).
  destruct (updateServiceDesc host_cfg web_env true "ns/web" web web_start) as [[b s']|] eqn:E; [|discriminate H]. cbn [mbind option_bind fst snd] in H.
  injection H as Hb H. apply bool_decide_eq_true in H as [ofas Ho]. subst b.
  destruct (host_external_local host_cfg web_env "ns/web" web web_start s' ofas E) as (H1&_); [discriminate|exact Ho|discriminate|].
  exists s', ofas. exact (conj eq_refl (conj Ho H1)).
Defined.

(** ** Findings *)

(** Only the last port decides: a service whose last port has no endpoints has
    no description, although its first port has some. *)
Lemma last_port_decides :
  let two := mkHSvc "ns" "web" "uid-1" None ∅ "ClusterIP" "10.96.0.10" ["10.96.0.10"] [http; mkHPort "metrics" "TCP" 9090 0] [] "None" None in
  existsb valid_mapping (default [] (SetOpflexService host_cfg web_env two false "ns/web" http)) = true ∧
  (s ← doUpdateService host_cfg web_env "ns/web" (host_start {["ns/web" := two]} ∅); Some (bool_decide (opflexServices s = ∅))) = Some true.
Proof. vm_compute. split; reflexivity. Qed.

(** With slices, endpoints that are not ready are next hops too. *)
Lemma unready_endpoint_is_hop :
  let slice := mkHSlice "ns" {["kubernetes.io/service-name" := "web"]} [mkHEndpoint ["10.1.0.2"] (Some "node1") (Some false) None]
                 [mkHSlicePort (Some "http") (Some "TCP") (Some 8080)] in
  option_map (map NextHopIps) (SetOpflexService host_cfg (host_env (HSlices [slice])) web false "ns/web" http) = Some [["10.1.0.2"]].
Proof. vm_compute. reflexivity. Qed.

(** The extra description of an OpenShift service outlives the service when it
    lost its endpoints before. *)
Definition router : HSvc :=
  mkHSvc "openshift-ingress" "router-internal-default" "uid-2" None ∅ "ClusterIP" "10.96.0.11" ["10.96.0.11"] [http] [] "None" None.

Lemma openshift_description_stays :
  let key := "openshift-ingress/router-internal-default" in
  let gone := host_env (HEndpoints ∅) in
  (s ← doUpdateService host_cfg (host_env (HEndpoints {[key := [web_subset "10.1.0.2"]]})) key (host_start {[key := router]} ∅);
   s ← doUpdateService host_cfg gone key s;
   let s := serviceDeleted host_cfg (DeletedService router) s in
   Some (map_to_list (opflexServices s)).*1) = Some ["uid-2-router-internal-default"].
Proof. vm_compute. reflexivity. Qed.

(** Only the first mapping is looked at for the pods of a service: a pod that is
    only in the second subset does not get the cluster address. *)
Lemma second_subset_not_tracked :
  let env := host_env (HEndpoints {["ns/web" := [mkHSubset [mkHAddr "10.1.0.9" (Some "node2")] [mkHEpPort "http" "TCP" 8081]; web_subset "10.1.0.2"]]}) in
  (s ← doUpdateService host_cfg env "ns/web" (host_start {["ns/web" := web]} ∅); Some (getServiceIPs "pod-uid" s)) = Some [].
Proof. vm_compute. reflexivity. Qed.
