(* ===== verification/HostSnat.v ===== *)
(** * HostSnat: source NAT on a host

    src/pkg/hostagent/snats.go, snatlocalinfo.go and nodeinfo.go, and the
    table of labels in agent.go.  The agent keeps, for every pod of the node,
    which policies apply to it and through which resource
    ([opflexSnatLocalInfos]), the pods of every policy ([snatPods]), and the
    port ranges that the controller gave to the nodes
    ([opflexSnatGlobalInfos]).  From them come the identifiers of source NAT
    addresses in the endpoint files ([PlcyUuids]) and the files of the
    addresses.

    A panic is [None].  The stores of the informers, the index of deployments
    and the answers of the API server are parameters.  Loops over Go maps take
    the order of the model's maps.  The policy that a handler gets is the
    object that the cache then holds; sorting its destinations sorts the
    cached ones.  sort.Slice is an insertion sort up to twelve elements; the
    sort of longer slices is the parameter [pdqsort]. *)
From S2P Require Import Prelude GoBytes GoNet GoText IpAlloc PodIndex K8s Snat SvcTypes PodNet OpflexDev SvcGraph HostSvc.

Open Scope string_scope.

(** ** Objects of the informers *)

Record HostPod := mkHostPod {
  po_Namespace : string;
  po_Name : string;
  po_UID : string;
  po_Labels : option labels;
  po_Annotations : gmap string string;
  po_NodeName : string;
  po_HostNetwork : bool;
  po_Phase : string;
  po_PodIP : string;
  po_PodIPs : list string
}.

Record Deployment := mkDeployment {
  dep_Namespace : string;
  dep_Name : string;
  dep_UID : string;
  dep_Labels : labels;
  dep_Annotations : gmap string string;
  dep_Selector : option LabelSelector
}.

Record NsObj := mkNsObj {
  nso_Name : string;
  nso_UID : string;
  nso_Labels : labels;
  nso_Annotations : gmap string string
}.

Record SnatSvc := mkSnatSvc {
  ss_Namespace : string;
  ss_UID : string;
  ss_Labels : labels;
  ss_Selector : option labels
}.

(** A policy; [pol_Version] stands for the fields that no handler reads. *)
Record HSnatPolicy := mkPol {
  pol_Name : string;
  pol_SnatIp : list string;
  pol_DestIp : list string;
  pol_Labels : option labels;
  pol_Namespace : string;
  pol_State : string;
  pol_Version : string
}.

#[export] Instance HSnatPolicy_eq_dec : EqDecision HSnatPolicy.
Proof. solve_decision. Defined.

(** The objects that a policy can select, and what is none of them. *)
Inductive SnatObj := ObjPod (p : HostPod) | ObjDep (d : Deployment) | ObjSvc (s : SnatSvc) | ObjNs (n : NsObj) | ObjOther.

Definition POD : Z := 1.
Definition SERVICE : Z := 2.
Definition DEPLOYMENT : Z := 4.
Definition NAMESPACE : Z := 8.
Definition CLUSTER : Z := 16.

Definition getResourceType (obj : SnatObj) : Z :=
  match obj with
  | ObjPod _ => POD | ObjDep _ => DEPLOYMENT | ObjSvc _ => SERVICE | ObjNs _ => NAMESPACE | ObjOther => 0
  end.

(** Namespace, identifier and labels, through meta.Accessor. *)
Definition obj_meta (obj : SnatObj) : option (string * string * labels) :=
  match obj with
  | ObjPod p => Some (po_Namespace p, po_UID p, default ∅ (po_Labels p))
  | ObjDep d => Some (dep_Namespace d, dep_UID d, dep_Labels d)
  | ObjSvc s => Some (ss_Namespace s, ss_UID s, ss_Labels s)
  | ObjNs n => Some (EmptyString, nso_UID n, nso_Labels n)
  | ObjOther => None
  end.

Definition MetaNamespaceUIDFunc (obj : SnatObj) : option string :=
  '(ns, uid, _) ← obj_meta obj;
  Some (if String.eqb ns EmptyString then uid else ns ++ "/" ++ uid).

(** ** State *)

Record LocalInfo := mkLocalInfo {
  Existing : bool;
  Snatpolicies : gmap Z (list string);
  PlcyUuids : list string
}.

(** One entry of the list of other nodes in a file. *)
Record RemoteInfo := mkRemote { ri_Mac : string; ri_PortRange : list PortRange }.

Record OpflexSnatIp := mkSnatIp {
  os_Uuid : string;
  os_InterfaceName : string;
  os_SnatIp : string;
  os_InterfaceMac : string;
  os_Local : bool;
  os_DestIpAddress : list string;
  os_PortRange : list PortRange;
  os_InterfaceVlan : Z;
  os_Zone : Z;
  os_Remote : list RemoteInfo
}.

#[export] Instance RemoteInfo_eq_dec : EqDecision RemoteInfo.
Proof. solve_decision. Defined.
#[export] Instance OpflexSnatIp_eq_dec : EqDecision OpflexSnatIp.
Proof. solve_decision. Defined.
#[export] Instance LocalInfo_eq_dec : EqDecision LocalInfo.
Proof. solve_decision. Defined.

Inductive SnatText := SnatFile (s : OpflexSnatIp) | SnatOther (s : string).
#[export] Instance SnatText_eq_dec : EqDecision SnatText.
Proof. solve_decision. Defined.

Inductive hsnat_effect := SyncEps | SyncSnats | SyncNodeInfo | SyncLocalInfo.

(** [hsn_services]: the services of the agent, among which is one for source
    NAT. *)
Record HSnat := mkHSnat {
  snatPolicyCache : gmap string HSnatPolicy;
  opflexSnatGlobalInfos : gmap string (list GlobalInfo);
  opflexSnatLocalInfos : gmap string LocalInfo;
  snatPods : gmap string (gmap string Z);
  snatPolicyLabels : gmap string (gmap string Z);
  snatDir : gmap string SnatText;
  hsn_services : HostState;
  hsn_effects : list hsnat_effect
}.

Definition set_cache (m : gmap string HSnatPolicy) (s : HSnat) : HSnat :=
  mkHSnat m (opflexSnatGlobalInfos s) (opflexSnatLocalInfos s) (snatPods s) (snatPolicyLabels s) (snatDir s) (hsn_services s) (hsn_effects s).
Definition set_globals (m : gmap string (list GlobalInfo)) (s : HSnat) : HSnat :=
  mkHSnat (snatPolicyCache s) m (opflexSnatLocalInfos s) (snatPods s) (snatPolicyLabels s) (snatDir s) (hsn_services s) (hsn_effects s).
Definition set_locals (m : gmap string LocalInfo) (s : HSnat) : HSnat :=
  mkHSnat (snatPolicyCache s) (opflexSnatGlobalInfos s) m (snatPods s) (snatPolicyLabels s) (snatDir s) (hsn_services s) (hsn_effects s).
Definition set_pods (m : gmap string (gmap string Z)) (s : HSnat) : HSnat :=
  mkHSnat (snatPolicyCache s) (opflexSnatGlobalInfos s) (opflexSnatLocalInfos s) m (snatPolicyLabels s) (snatDir s) (hsn_services s) (hsn_effects s).
Definition set_plabels (m : gmap string (gmap string Z)) (s : HSnat) : HSnat :=
  mkHSnat (snatPolicyCache s) (opflexSnatGlobalInfos s) (opflexSnatLocalInfos s) (snatPods s) m (snatDir s) (hsn_services s) (hsn_effects s).
Definition set_snatdir (d : gmap string SnatText) (s : HSnat) : HSnat :=
  mkHSnat (snatPolicyCache s) (opflexSnatGlobalInfos s) (opflexSnatLocalInfos s) (snatPods s) (snatPolicyLabels s) d (hsn_services s) (hsn_effects s).
Definition set_services (h : HostState) (s : HSnat) : HSnat :=
  mkHSnat (snatPolicyCache s) (opflexSnatGlobalInfos s) (opflexSnatLocalInfos s) (snatPods s) (snatPolicyLabels s) (snatDir s) h (hsn_effects s).
Definition hsn_emit (l : list hsnat_effect) (s : HSnat) : HSnat :=
  mkHSnat (snatPolicyCache s) (opflexSnatGlobalInfos s) (opflexSnatLocalInfos s) (snatPods s) (snatPolicyLabels s) (snatDir s) (hsn_services s)
    (hsn_effects s ++ l)%list.

(** The stores of the informers; the pods that have endpoints; the zone of the
    configuration. *)
Record SnatEnv := mkSnatEnv {
  sn_pods : gmap string HostPod;
  sn_deps : gmap string Deployment;
  sn_namespaces : gmap string NsObj;
  sn_services : gmap string SnatSvc;
  sn_depPods : PodSelectorIndex (Selector := Selector);
  sn_eps : list string;
  sn_zone : Z;
  sn_host : HostEnv
}.

(** ** Order of destinations *)

Section Sort.
Context {A : Type} (less : A → A → option bool).

(** One element moves to the left past the elements it is less than; the
    sorted part is kept reversed. *)
Fixpoint move_left (x : A) (sorted : list A) : option (list A) :=
  match sorted with
  | [] => Some [x]
  | y :: ys =>
      b ← less x y;
      if (b : bool) then r ← move_left x ys; Some (y :: r) else Some (x :: y :: ys)
  end.

Fixpoint insertionSort (sorted l : list A) : option (list A) :=
  match l with
  | [] => Some (rev sorted)
  | x :: l => sorted ← move_left x sorted; insertionSort sorted l
  end.
End Sort.

Definition maxInsertion : nat := 12.

Section Snats.
Context (pdqsort : (string → string → option bool) → list string → option (list string)).
Context (cfg : HostCfg).

Definition sort_Slice (less : string → string → option bool) (l : list string) : option (list string) :=
  if (length l <=? maxInsertion)%nat then insertionSort less [] l else pdqsort less l.

(** net.ParseCIDR: the address and the network. *)
Definition ParseCIDR_addr (s : string) : option (IP * IPNet) :=
  '(addr, _) ← cut "/" s;
  '(_, ip) ← ParseAddr addr;
  n ← ParseCIDR s;
  Some (ip, n).

Definition IP_Equal (a b : IP) : bool := bool_decide (default a (To4 a) = default b (To4 b)).

(** A nil network that is asked is a panic. *)
Definition compareIps (ipa ipb : string) : option bool :=
  ipnetA ← ParseCIDR ipa;
  match ParseCIDR_addr ipb with
  | None => Some (negb (GoNet.Contains ipnetA []))
  | Some (ipB, ipnetB) =>
      Some (if GoNet.Contains ipnetA ipB then
              IP_Equal (net_IP ipnetA) (net_IP ipnetB) && is_gt (Compare (net_Mask ipnetA) (net_Mask ipnetB))
            else true)
  end.

Definition with_mask (a : string) : string :=
  match ParseIP a with Some ip => if is_To4 ip then a ++ "/32" else a | None => a end.

Definition less_dest (a b : string) : option bool := compareIps (with_mask a) (with_mask b).

Definition setDestIp (destIp : list string) : option (list string) :=
  match destIp with [] => Some [] | _ => sort_Slice less_dest destIp end.

Definition with_dest (p : HSnatPolicy) (d : list string) : HSnatPolicy :=
  mkPol (pol_Name p) (pol_SnatIp p) d (pol_Labels p) (pol_Namespace p) (pol_State p) (pol_Version p).

(** All pairs are compared. *)
Definition compare (cache : gmap string HSnatPolicy) (plcy1 plcy2 : string) : option bool :=
  p1 ← cache !! plcy1;
  match pol_DestIp p1 with
  | [] => Some false
  | d1 =>
      p2 ← cache !! plcy2;
      l ← mapM (λ a, mapM (less_dest a) (pol_DestIp p2)) d1;
      Some (existsb id (concat l))
  end.

(** ** The policies of a pod *)

Definition resources : list Z := [POD; SERVICE; DEPLOYMENT; NAMESPACE; CLUSTER].

Fixpoint dedup (seen : gset string) (l : list string) : list string :=
  match l with
  | [] => []
  | x :: l => if bool_decide (x ∈ seen) then dedup seen l else x :: dedup ({[x]} ∪ seen) l
  end.

Definition policy_stack (cache : gmap string HSnatPolicy) (li : LocalInfo) : option (list string) :=
  l ← mapM (λ i, match Snatpolicies li !! i with
                 | Some policies => sort_Slice (compare cache) (dedup ∅ policies)
                 | None => Some []
                 end) resources;
  Some (concat l).

(** The identifiers up to the first policy without destinations. *)
Fixpoint stack_uuids (cache : gmap string HSnatPolicy) (ginfos : list GlobalInfo) (stack : list string) : option (list string) :=
  match stack with
  | [] => Some []
  | name :: stack =>
      let uids := SnatIpUid <$> List.filter (λ v, String.eqb (gi_SnatPolicyName v) name) ginfos in
      p ← cache !! name;
      match pol_DestIp p with
      | [] => Some uids
      | _ => rest ← stack_uuids cache ginfos stack; Some (uids ++ rest)%list
      end
  end.

Definition node_infos (s : HSnat) : list GlobalInfo := default [] (opflexSnatGlobalInfos s !! hc_NodeName cfg).

(** One pod; the result says whether the endpoint files are to be written. *)
Definition updateEpFile (uid : string) (s : HSnat) : option (HSnat * bool) :=
  match opflexSnatLocalInfos s !! uid with
  | None => Some (s, false)
  | Some localinfo =>
      policystack ← policy_stack (snatPolicyCache s) localinfo;
      uids ← stack_uuids (snatPolicyCache s) (node_infos s) policystack;
      if bool_decide (PlcyUuids localinfo = uids) then Some (s, false)
      else
        let locals :=
          match uids with
          | [] => delete uid (opflexSnatLocalInfos s)
          | _ => <[uid := mkLocalInfo false (Snatpolicies localinfo) uids]> (opflexSnatLocalInfos s)
          end in
        Some (set_locals locals s, true)
  end.

Fixpoint updateEpFiles_loop (poduids : list string) (s : HSnat) (syncEp : bool) : option (HSnat * bool) :=
  match poduids with
  | [] => Some (s, syncEp)
  | uid :: poduids => '(s, b) ← updateEpFile uid s; updateEpFiles_loop poduids s (syncEp || b)
  end.

Definition updateEpFiles (poduids : list string) (s : HSnat) : option HSnat :=
  '(s, syncEp) ← updateEpFiles_loop poduids s false;
  Some (hsn_emit [SyncLocalInfo] (if (syncEp : bool) then hsn_emit [SyncEps] s else s)).

(** ** Applying and removing a policy *)

Definition add_policy (res : Z) (name : string) (pols : gmap Z (list string)) : gmap Z (list string) :=
  <[res := (default [] (pols !! res) ++ [name])%list]> pols.

Definition mark_pod (name uid : string) (res : Z) (s : HSnat) : HSnat :=
  let pods := default ∅ (snatPods s !! name) in
  set_pods (<[name := <[uid := Z.lor (default 0 (pods !! uid)) res]> pods]> (snatPods s)) s.

Definition apply_to_pod (res : Z) (name : string) (s : HSnat) (uid : string) : HSnat :=
  match opflexSnatLocalInfos s !! uid with
  | None => mark_pod name uid res (set_locals (<[uid := mkLocalInfo false {[res := [name]]} []]> (opflexSnatLocalInfos s)) s)
  | Some li =>
      if bool_decide (name ∈ default [] (Snatpolicies li !! res)) then s
      else mark_pod name uid res
             (set_locals (<[uid := mkLocalInfo (Existing li) (add_policy res name (Snatpolicies li)) (PlcyUuids li)]> (opflexSnatLocalInfos s)) s)
  end.

Definition applyPolicy (poduids : list string) (res : Z) (snatPolicyName : string) (s : HSnat) : option HSnat :=
  match poduids with
  | [] => Some s
  | _ =>
      let nodeUpdate := negb (bool_decide (is_Some (snatPods s !! snatPolicyName))) in
      let s := if nodeUpdate then set_pods (<[snatPolicyName := ∅]> (snatPods s)) s else s in
      let s := foldl (apply_to_pod res snatPolicyName) s poduids in
      if nodeUpdate then Some (hsn_emit [SyncNodeInfo] s) else updateEpFiles poduids s
  end.

(** The powers of two that the loop visits; a resource is below 64. *)
Fixpoint visit_bits (fuel : nat) (i j res : Z) : list Z :=
  match fuel with
  | O => []
  | S fuel => if (i <? res)%Z then let i := Z.shiftl 1 j in i :: visit_bits fuel i (j + 1) res else []
  end.

Definition drop_policy (i res : Z) (plcyname : string) (li : LocalInfo) : LocalInfo :=
  let pols := alter (List.filter (λ n, negb (String.eqb plcyname n))) i (Snatpolicies li) in
  let pols := match pols !! res with Some (_ :: _) => pols | _ => delete res pols end in
  mkLocalInfo (Existing li) pols (PlcyUuids li).

Definition clear_bits (poduid : string) (res : Z) (plcyname : string) (pods : gmap string (gmap string Z)) : gmap string (gmap string Z) :=
  match pods !! plcyname with
  | None => pods
  | Some v =>
      match v !! poduid with
      | None => pods
      | Some bits =>
          let bits := Z.land bits (Z.lnot res) in
          if (bits =? 0)%Z then
            let v := delete poduid v in if bool_decide (v = ∅) then delete plcyname pods else <[plcyname := v]> pods
          else <[plcyname := <[poduid := bits]> v]> pods
      end
  end.

Definition delete_step (poduid : string) (res : Z) (plcyname : string) (s : HSnat) (i : Z) : HSnat :=
  if (Z.land i res =? i)%Z then
    set_pods (clear_bits poduid res plcyname (snatPods s))
      (set_locals (alter (drop_policy i res plcyname) poduid (opflexSnatLocalInfos s)) s)
  else s.

Definition deleteSnatLocalInfo (poduid : string) (res : Z) (plcyname : string) (s : HSnat) : HSnat :=
  match opflexSnatLocalInfos s !! poduid with
  | None => s
  | Some _ => foldl (delete_step poduid res plcyname) s (visit_bits 64 0 0 res)
  end.

(** ** Labels of objects *)

(** Writing to the map of a key that is not there is a panic. *)
Definition WriteSnatPolicyLabel (key policy : string) (res : Z) (s : HSnat) : option HSnat :=
  m ← snatPolicyLabels s !! key;
  Some (set_plabels (<[key := <[policy := res]> m]> (snatPolicyLabels s)) s).

Definition WriteNewSnatPolicyLabel (key : string) (s : HSnat) : HSnat := set_plabels (<[key := ∅]> (snatPolicyLabels s)) s.

Definition DeleteSnatPolicyLabelEntry (key policy : string) (s : HSnat) : HSnat :=
  set_plabels (alter (delete policy) key (snatPolicyLabels s)) s.

Definition DeleteSnatPolicyLabel (key : string) (s : HSnat) : HSnat := set_plabels (delete key (snatPolicyLabels s)) s.

Definition DeleteMatchingSnatPolicyLabel (policy : string) (s : HSnat) : HSnat :=
  set_plabels (delete policy <$> snatPolicyLabels s) s.

Definition write_if_present (key policy : string) (res : Z) (s : HSnat) : option HSnat :=
  if bool_decide (is_Some (snatPolicyLabels s !! key)) then WriteSnatPolicyLabel key policy res s else Some s.

(** ** Objects that a policy selects *)

Section Informers.
Context (env : SnatEnv).

Definition on_node (p : HostPod) : bool := String.eqb (po_NodeName p) (hc_NodeName cfg).
Definition pod_labels_of (p : HostPod) : labels := default ∅ (po_Labels p).

(** cache.ListAllByNamespace on the pods. *)
Definition pods_by_namespace (ns : string) (sel : Selector) : list HostPod :=
  List.filter (λ p, (String.eqb ns EmptyString || String.eqb (po_Namespace p) ns) && Selector_Matches sel (pod_labels_of p))
    (map_to_list (sn_pods env)).*2.

Definition node_uids (pods : list HostPod) : list string := po_UID <$> List.filter on_node pods.

Definition MatchLabels (policylabels reslabels : labels) : bool :=
  forallb (λ kv, bool_decide (reslabels !! kv.1 = Some kv.2)) (map_to_list policylabels).

Definition pol_labels (p : HSnatPolicy) : labels := default ∅ (pol_Labels p).

(** The selector is the zero value. *)
Definition cluster_policy (p : HSnatPolicy) : bool := bool_decide (pol_Labels p = None) && String.eqb (pol_Namespace p) EmptyString.

Definition isPolicyNameSpaceMatches (cache : gmap string HSnatPolicy) (policyName namespace : string) : bool :=
  match cache !! policyName with
  | Some policy => String.eqb (pol_Namespace policy) EmptyString || String.eqb (pol_Namespace policy) namespace
  | None => false
  end.

(** The pods of an object, and the resource, which a pod leaves unset. *)
Definition getPodsMatchingObject (cache : gmap string HSnatPolicy) (obj : SnatObj) (policyname : string) : list string * Z :=
  match obj_meta obj with
  | None => ([], 0%Z)
  | Some (ns, _, _) =>
      if isPolicyNameSpaceMatches cache policyname ns then
        match obj with
        | ObjPod p => ([po_UID p], 0%Z)
        | ObjDep d =>
            (po_UID <$> omap (λ podkey, sn_pods env !! podkey)
               (elements (GetPodForObj (sn_depPods env) (MetaNamespaceKey (dep_Namespace d) (dep_Name d)))), DEPLOYMENT)
        | ObjSvc s => (node_uids (pods_by_namespace (ss_Namespace s) (SelectorFromSet (default ∅ (ss_Selector s)))), SERVICE)
        | ObjNs n => (node_uids (pods_by_namespace (nso_Name n) Everything), NAMESPACE)
        | ObjOther => ([], 0%Z)
        end
      else ([], 0%Z)
  end.

Definition getMatchingServices (namespace : string) (label : labels) : list SnatSvc :=
  List.filter (λ s, (String.eqb namespace EmptyString || String.eqb (ss_Namespace s) namespace) &&
                    match ss_Selector s with
                    | Some sel => Selector_Matches (SelectorFromSet sel) label
                    | None => false
                    end) (map_to_list (sn_services env)).*2.

(** The service of a pod or deployment that the labels of the policy match. *)
Definition through_service (item : HSnatPolicy) (namespace : string) (label : labels) : list Z :=
  if existsb (λ s, MatchLabels (pol_labels item) (ss_Labels s)) (getMatchingServices namespace label) then [SERVICE] else [].

Definition through_namespace (item : HSnatPolicy) (namespace : string) : list Z :=
  match sn_namespaces env !! namespace with
  | Some n => if MatchLabels (pol_labels item) (nso_Labels n) then [NAMESPACE] else []
  | None => []
  end.

(** A deployment for every one that matches. *)
Definition through_deployments (item : HSnatPolicy) (podKey : string) : list Z :=
  omap (λ dpkey, d ← sn_deps env !! dpkey; if MatchLabels (pol_labels item) (dep_Labels d) then Some DEPLOYMENT else None)
    (elements (GetObjForPod (sn_depPods env) podKey)).

Definition through_pods (item : HSnatPolicy) (d : Deployment) : list Z :=
  match dep_Selector d with
  | None => []
  | Some sel =>
      match LabelSelectorAsSelector (Some sel) with
      | None => []
      | Some sel =>
          if existsb (λ po, MatchLabels (pol_labels item) (pod_labels_of po)) (pods_by_namespace (dep_Namespace d) sel) then [POD] else []
      end
  end.

(** The resources through which a policy selects an object. *)
Definition match_item (obj : SnatObj) (namespace : string) (label : labels) (item : HSnatPolicy) : list Z :=
  let res := getResourceType obj in
  let empty := bool_decide (pol_labels item = ∅) in
  let any_ip := (length (pol_SnatIp item) =? 0)%nat in
  if cluster_policy item then [CLUSTER]
  else if empty && String.eqb (pol_Namespace item) namespace then
    match obj with
    | ObjSvc _ => if any_ip then [SERVICE] else []
    | _ => if any_ip then [] else [NAMESPACE]
    end
  else if String.eqb (pol_Namespace item) EmptyString || String.eqb (pol_Namespace item) namespace then
    ((if MatchLabels (pol_labels item) label then [res] else []) ++
     match obj with
     | ObjPod p =>
         if any_ip then through_service item namespace label
         else through_deployments item (MetaNamespaceKey (po_Namespace p) (po_Name p)) ++ through_namespace item namespace
     | ObjDep d =>
         if any_ip then through_service item namespace label
         else through_pods item d ++ through_namespace item namespace
     | _ => []
     end)%list
  else [].

Definition getMatchingSnatPolicy (cache : gmap string HSnatPolicy) (obj : SnatObj) : gmap string (list Z) :=
  match obj_meta obj with
  | None => ∅
  | Some (namespace, _, label) =>
      omap (λ item, match match_item obj namespace label item with [] => None | l => Some l end) cache
  end.

(** ** Objects change *)

Definition isPresentInOpflexSnatLocalInfos (poduids : list string) (res : Z) (name : string) (s : HSnat) : bool :=
  forallb (λ uid, match opflexSnatLocalInfos s !! uid ≫= λ li, Snatpolicies li !! res with
                  | Some policies => bool_decide (name ∈ policies)
                  | None => false
                  end) poduids.

Definition delete_pod_entry (name uid : string) (s : HSnat) : HSnat := set_pods (alter (delete uid) name (snatPods s)) s.

(** One policy of an object that is gone. *)
Definition forget_policy (obj : SnatObj) (acc : HSnat * list string) (nr : string * list Z) : HSnat * list string :=
  let '(s, podidlist) := acc in
  let '(name, rs) := nr in
  let '(poduids, _) := getPodsMatchingObject (snatPolicyCache s) obj name in
  let s := foldl (λ s uid,
    match obj with
    | ObjSvc _ => foldl (λ s res, deleteSnatLocalInfo uid res name s) s rs
    | _ => delete_pod_entry name uid (set_locals (delete uid (opflexSnatLocalInfos s)) s)
    end) s poduids in
  (s, (podidlist ++ poduids)%list).

(** The policies that are still listed for a pod. *)
Definition forget_pod (uid : string) (s : HSnat) : HSnat * bool :=
  match opflexSnatLocalInfos s !! uid with
  | None => (s, false)
  | Some localinfo =>
      let s := foldl (λ s name, delete_pod_entry name uid s) s (concat (map_to_list (Snatpolicies localinfo)).*2) in
      (set_locals (delete uid (opflexSnatLocalInfos s)) s, true)
  end.

Definition handleObjectDeleteForSnat (obj : SnatObj) (s : HSnat) : option HSnat :=
  match MetaNamespaceUIDFunc obj with
  | None => Some s
  | Some objKey =>
      let plcynames := map_to_list (getMatchingSnatPolicy (snatPolicyCache s) obj) in
      let '(s, podidlist) := foldl (forget_policy obj) (s, []) plcynames in
      let sync := negb (length plcynames =? 0)%nat in
      let s := DeleteSnatPolicyLabel objKey s in
      let '(s, had) := match obj with ObjPod p => forget_pod (po_UID p) s | _ => (s, false) end in
      if sync || had then
        let s := hsn_emit [SyncNodeInfo] s in
        match obj with
        | ObjSvc _ => updateEpFiles podidlist s
        | _ => Some (hsn_emit [SyncEps; SyncLocalInfo] s)
        end
      else Some s
  end.

(** Apply a policy to the pods of the object, once per resource. *)
Fixpoint apply_resources (label : bool) (obj : SnatObj) (objKey name : string) (rs : list Z) (s : HSnat) (sync : bool) : option (HSnat * bool) :=
  match rs with
  | [] => Some (s, sync)
  | res :: rs =>
      let '(poduids, _) := getPodsMatchingObject (snatPolicyCache s) obj name in
      s ← applyPolicy poduids res name s;
      s ← (if label then WriteSnatPolicyLabel objKey name res s else Some s);
      apply_resources label obj objKey name rs s (sync || negb (length poduids =? 0)%nat)
  end.

Fixpoint apply_matching (obj : SnatObj) (objKey : string) (l : list (string * list Z)) (s : HSnat) (sync : bool) : option (HSnat * bool) :=
  match l with
  | [] => Some (s, sync)
  | (name, rs) :: l =>
      policy ← snatPolicyCache s !! name;
      '(s, sync) ← apply_resources (negb (bool_decide (pol_labels policy = ∅))) obj objKey name rs s sync;
      apply_matching obj objKey l s sync
  end.

(** The policies that the object is labelled with: those that do not match any
    more are removed from its pods. *)
Definition check_labelled (obj : SnatObj) (objKey : string) (matchnames : gmap string (list Z))
    (acc : HSnat * list string * gset string) (nr : string * Z) : HSnat * list string * gset string :=
  let '(s, delpodlist, seen) := acc in
  let '(name, res) := nr in
  let '(poduids, _) := getPodsMatchingObject (snatPolicyCache s) obj name in
  match matchnames !! name with
  | None =>
      let s := foldl (λ s uid, deleteSnatLocalInfo uid res name s) s poduids in
      (DeleteSnatPolicyLabelEntry objKey name s, (delpodlist ++ poduids)%list, {[name]} ∪ seen)
  | Some _ => if isPresentInOpflexSnatLocalInfos poduids res name s then (s, delpodlist, {[name]} ∪ seen) else acc
  end.

Fixpoint apply_new (obj : SnatObj) (objKey : string) (seen : gset string) (l : list (string * list Z)) (s : HSnat) (sync : bool) : option (HSnat * bool) :=
  match l with
  | [] => Some (s, sync)
  | (name, rs) :: l =>
      if bool_decide (name ∈ seen) then apply_new obj objKey seen l s sync
      else
        '(s, _) ← apply_resources true obj objKey name rs s sync;
        apply_new obj objKey seen l s (sync || negb (length rs =? 0)%nat)
  end.

Definition succeeded (obj : SnatObj) : bool := match obj with ObjPod p => String.eqb (po_Phase p) "Succeeded" | _ => false end.

Definition handleObjectUpdateForSnat (obj : SnatObj) (s : HSnat) : option HSnat :=
  if succeeded obj then handleObjectDeleteForSnat obj s
  else
    match MetaNamespaceUIDFunc obj with
    | None => Some s
    | Some objKey =>
        let found := snatPolicyLabels s !! objKey in
        let s := match found with Some _ => s | None => WriteNewSnatPolicyLabel objKey s end in
        let plcynames := map_to_list (default ∅ found) in
        let matchnames := getMatchingSnatPolicy (snatPolicyCache s) obj in
        '(s, sync) ←
          match plcynames with
          | [] => apply_matching obj objKey (map_to_list matchnames) s false
          | _ =>
              let '(s, delpodlist, seen) := foldl (check_labelled obj objKey matchnames) (s, [], ∅) plcynames in
              s ← match delpodlist with [] => Some s | _ => updateEpFiles delpodlist s end;
              apply_new obj objKey seen (map_to_list matchnames) s (negb (length delpodlist =? 0)%nat)
          end;
        Some (if (sync : bool) then hsn_emit [SyncNodeInfo] s else s)
    end.

(** ** Policies change *)

Definition updateSnatPolicyLabels (obj : SnatObj) (policyname : string) (s : HSnat) : option (HSnat * list string) :=
  let '(uids, res) := getPodsMatchingObject (snatPolicyCache s) obj policyname in
  match uids, MetaNamespaceUIDFunc obj with
  | _ :: _, Some key => s ← write_if_present key policyname res s; Some (s, uids)
  | _, _ => Some (s, uids)
  end.

Fixpoint label_all (objs : list SnatObj) (policyname : string) (s : HSnat) (acc : list string) : option (HSnat * list string) :=
  match objs with
  | [] => Some (s, acc)
  | obj :: objs => '(s, uids) ← updateSnatPolicyLabels obj policyname s; label_all objs policyname s (acc ++ uids)%list
  end.

(** The pods, the pods of deployments and the pods of namespaces that the
    labels match; the namespace of the selector is not looked at here. *)
Definition getPodUidsMatchingLabel (label : labels) (policyname : string) (s : HSnat)
  : option (HSnat * (list string * list string * list string)) :=
  let sel := SelectorFromSet label in
  '(s, poduids) ← label_all (ObjPod <$> List.filter (λ p, Selector_Matches sel (pod_labels_of p) && on_node p) (map_to_list (sn_pods env)).*2)
                    policyname s [];
  '(s, deppoduids) ← label_all (ObjDep <$> List.filter (λ d, Selector_Matches sel (dep_Labels d)) (map_to_list (sn_deps env)).*2) policyname s [];
  '(s, nspoduids) ← label_all (ObjNs <$> List.filter (λ n, Selector_Matches sel (nso_Labels n)) (map_to_list (sn_namespaces env)).*2) policyname s [];
  Some (s, (poduids, deppoduids, nspoduids)).

(** The pods of the services of a policy without addresses of its own. *)
Fixpoint service_uids (policy : HSnatPolicy) (services : list SnatSvc) (s : HSnat) (acc : list string) : option (HSnat * list string) :=
  match services with
  | [] => Some (s, acc)
  | service :: services =>
      let '(uids, _) := getPodsMatchingObject (snatPolicyCache s) (ObjSvc service) (pol_Name policy) in
      s ← match MetaNamespaceUIDFunc (ObjSvc service) with
          | Some key => if bool_decide (pol_labels policy = ∅) then Some s else write_if_present key (pol_Name policy) SERVICE s
          | None => Some s
          end;
      service_uids policy services s (acc ++ uids)%list
  end.

Definition getPodUidsSucceeded : list string :=
  flat_map (λ n, po_UID <$> List.filter (λ p, on_node p && String.eqb (po_Phase p) "Succeeded") (pods_by_namespace (nso_Name n) Everything))
    (map_to_list (sn_namespaces env)).*2.

Definition difference (a b : list string) : list string := List.filter (λ x, negb (bool_decide (x ∈ b))) a.

(** The targets of a policy by resource. *)
Definition policy_targets (policy : HSnatPolicy) (s : HSnat) : option (HSnat * list (Z * list string)) :=
  match pol_SnatIp policy with
  | [] =>
      '(s, uids) ← service_uids policy
                     (List.filter (λ sv, Selector_Matches (SelectorFromSet (pol_labels policy)) (ss_Labels sv)) (map_to_list (sn_services env)).*2) s [];
      Some (s, [(SERVICE, uids)])
  | _ =>
      if cluster_policy policy then Some (s, [(CLUSTER, sn_eps env)])
      else if bool_decide (pol_labels policy = ∅) then
        Some (s, [(NAMESPACE, node_uids (pods_by_namespace (pol_Namespace policy) Everything))])
      else
        '(s, (poduids, deppoduids, nspoduids)) ← getPodUidsMatchingLabel (pol_labels policy) (pol_Name policy) s;
        Some (s, [(POD, poduids); (DEPLOYMENT, deppoduids); (NAMESPACE, nspoduids)])
  end.

Fixpoint apply_targets (name : string) (targets : list (Z * list string)) (s : HSnat) : option HSnat :=
  match targets with
  | [] => Some s
  | (res, poduids) :: targets =>
      s ← applyPolicy (difference poduids getPodUidsSucceeded) res name s;
      apply_targets name targets s
  end.

Definition handleSnatUpdate (policy : HSnatPolicy) (s : HSnat) : option HSnat :=
  '(s, targets) ← policy_targets policy s;
  apply_targets (pol_Name policy) targets s.

(** The policy goes into the cache with its destinations in order. *)
Definition cache_policy (policy : HSnatPolicy) (s : HSnat) : option (HSnatPolicy * HSnat) :=
  d ← setDestIp (pol_DestIp policy);
  let policy := with_dest policy d in
  Some (policy, set_cache (<[pol_Name policy := policy]> (snatPolicyCache s)) s).

Definition snatPolicyAdded (policyinfo : HSnatPolicy) (s : HSnat) : option HSnat :=
  if negb (String.eqb (pol_State policyinfo) Ready) then Some s
  else '(policyinfo, s) ← cache_policy policyinfo s; handleSnatUpdate policyinfo s.

Definition policy_pods (name : string) (s : HSnat) : list (string * Z) := map_to_list (default ∅ (snatPods s !! name)).

Definition remove_pods (name : string) (pods : list (string * Z)) (s : HSnat) : HSnat :=
  foldl (λ s ur, deleteSnatLocalInfo ur.1 ur.2 name s) s pods.

Definition snatPolicyUpdated (oldpolicyinfo newpolicyinfo : HSnatPolicy) (s : HSnat) : option HSnat :=
  if bool_decide (oldpolicyinfo = newpolicyinfo) then Some s
  else if negb (String.eqb (pol_State newpolicyinfo) Ready) then Some s
  else
    '(newpolicyinfo, s) ← cache_policy newpolicyinfo s;
    let name := pol_Name newpolicyinfo in
    if negb (String.eqb (pol_State newpolicyinfo) (pol_State oldpolicyinfo)) then handleSnatUpdate newpolicyinfo s
    else if negb (bool_decide (pol_Labels oldpolicyinfo = pol_Labels newpolicyinfo)
                  && String.eqb (pol_Namespace oldpolicyinfo) (pol_Namespace newpolicyinfo)) then
      let pods := policy_pods name s in
      s ← updateEpFiles pods.*1 (remove_pods name pods s);
      s ← handleSnatUpdate newpolicyinfo s;
      let matchingpods := (policy_pods name s).*1 in
      if negb (length pods =? 0)%nat && (length matchingpods =? 0)%nat then Some (hsn_emit [SyncNodeInfo] s)
      else updateEpFiles matchingpods s
    else if negb (bool_decide (pol_DestIp oldpolicyinfo = pol_DestIp newpolicyinfo)) then
      s ← updateEpFiles (policy_pods name s).*1 s; Some (hsn_emit [SyncSnats] s)
    else Some s.

Definition deletePolicy (policy : HSnatPolicy) (s : HSnat) : option HSnat :=
  let name := pol_Name policy in
  match snatPods s !! name with
  | None => Some s
  | Some _ =>
      let pods := policy_pods name s in
      s ← updateEpFiles pods.*1 (remove_pods name pods s);
      Some (DeleteMatchingSnatPolicyLabel name (hsn_emit [SyncNodeInfo] (set_pods (delete name (snatPods s)) s)))
  end.

(** A deletion hands over the policy, or nothing that holds one. *)
Definition snatPolicyDeleted (obj : option HSnatPolicy) (s : HSnat) : option HSnat :=
  match obj with
  | None => Some s
  | Some policyinfo =>
      s ← deletePolicy policyinfo s;
      Some (set_cache (delete (pol_Name policyinfo) (snatPolicyCache s)) s)
  end.

(** ** The port ranges of the nodes *)

(** The first range of every entry; an entry without one is a panic. *)
Definition host_infos (val : list GlobalInfo) : option (list GlobalInfo) :=
  mapM (λ v, r ← head (PortRanges v); Some (mkGlobalInfo (MacAddress v) [r] (gi_SnatIp v) (SnatIpUid v) (gi_SnatPolicyName v))) val.

(** The table, whether an entry changed and whether that of this node did. *)
Fixpoint merge_infos (l : list (string * list GlobalInfo)) (t : gmap string (list GlobalInfo)) (sync own : bool)
  : option (gmap string (list GlobalInfo) * bool * bool) :=
  match l with
  | [] => Some (t, sync, own)
  | (nodename, val) :: l =>
      new ← host_infos val;
      if bool_decide (t !! nodename = Some new) then merge_infos l t sync own
      else merge_infos l (<[nodename := new]> t) true (own || String.eqb nodename (hc_NodeName cfg))
  end.

Definition SnatService : string := "snat-external".

Definition snat_service : opflexService :=
  mkOpflexService SnatService (hc_AciVrfTenant cfg) (hc_AciVrf cfg) "loadbalancer" (hc_UplinkMacAdress cfg) (hc_UplinkIface cfg)
    (match Ipv4 (serviceEp (sn_host env)) with [] => "<nil>" | ip => IP_String ip end) (uint16 (hc_ServiceVlan cfg)) EmptyString
    [mkMapping EmptyString EmptyString 0 [] 0 true 0 0] ∅.

(** The service for source NAT and its file. *)
Definition update_snat_service (any : bool) (h : HostState) : HostState :=
  let name := SnatService ++ ".service" in
  if any then
    let h := set_opflex (<[SnatService := snat_service]> (opflexServices h)) h in
    match serviceDir h !! name with
    | Some _ => h
    | None => set_dir (writeAs (sn_host env) name snat_service (serviceDir h)) h
    end
  else
    let h := set_opflex (delete SnatService (opflexServices h)) h in
    if fileWritable (sn_host env) name then set_dir (delete name (serviceDir h)) h else h.

Definition snaGlobalInfoChanged (globalInfo : gmap string (list GlobalInfo)) (s : HSnat) : option HSnat :=
  let old := opflexSnatGlobalInfos s in
  let shrunk := (size globalInfo <? size old)%nat in
  let kept := if shrunk then filter (λ kv, is_Some (globalInfo !! kv.1)) old else old in
  '(t, syncSnat, updateLocalInfo) ← merge_infos (map_to_list globalInfo) kept (negb (bool_decide (kept = old))) false;
  let s := set_globals t s in
  let s := set_services (update_snat_service (negb (bool_decide (t = ∅))) (hsn_services s)) s in
  let s := if (syncSnat : bool) then hsn_emit [SyncSnats] s else s in
  if (updateLocalInfo : bool) then
    updateEpFiles (flat_map (λ v, (policy_pods (gi_SnatPolicyName v) s).*1) (node_infos s)) s
  else Some s.

(** [snatobj]: what the store has for the key of the object. *)
Definition snatGlobalInfoUpdate (snatobj : option (gmap string (list GlobalInfo))) (s : HSnat) : option HSnat :=
  match snatobj with None => Some s | Some g => snaGlobalInfoChanged g s end.

Definition snatGlobalInfoDelete (globalInfo : gmap string (list GlobalInfo)) (s : HSnat) : HSnat :=
  set_globals (filter (λ kv, globalInfo !! kv.1 = None) (opflexSnatGlobalInfos s)) s.

(** ** Files *)

Definition remote_infos (t : gmap string (list GlobalInfo)) (ip : string) : list RemoteInfo :=
  flat_map (λ nv : string * list GlobalInfo,
    if String.eqb nv.1 (hc_NodeName cfg) then []
    else (λ g, mkRemote (MacAddress g) (PortRanges g)) <$> List.filter (λ g, String.eqb (gi_SnatIp g) ip) nv.2) (map_to_list t).

(** The last entry of this node for an address counts. *)
Definition local_range (t : gmap string (list GlobalInfo)) (ip : string) : option (list PortRange) :=
  PortRanges <$> last (List.filter (λ g, String.eqb (gi_SnatIp g) ip) (default [] (t !! hc_NodeName cfg))).

Definition snat_ip (s : HSnat) (g : GlobalInfo) : OpflexSnatIp :=
  let t := opflexSnatGlobalInfos s in
  let ip := gi_SnatIp g in
  let local := local_range t ip in
  let dest :=
    match local, snatPolicyCache s !! gi_SnatPolicyName g with
    | Some _, Some p => match pol_DestIp p with [] => ["0.0.0.0/0"] | d => d end
    | _, _ => []
    end in
  mkSnatIp (SnatIpUid g) (hc_UplinkIface cfg) ip (hc_UplinkMacAdress cfg) (bool_decide (is_Some local)) dest (default [] local)
    (hc_ServiceVlan cfg) (sn_zone env) (remote_infos t ip).

Definition opflexSnatIps (s : HSnat) : gmap string OpflexSnatIp :=
  foldl (λ m g, <[SnatIpUid g := snat_ip s g]> m) ∅ (concat (map_to_list (opflexSnatGlobalInfos s)).*2).

Definition writeSnat (name : string) (v : OpflexSnatIp) (dir : gmap string SnatText) : gmap string SnatText :=
  if bool_decide (dir !! name = Some (SnatFile v)) then dir
  else if fileWritable (sn_host env) name then <[name := SnatFile v]> dir else dir.

Definition snat_file (ips : gmap string OpflexSnatIp) (acc : gmap string SnatText * gset string) (name : string)
  : gmap string SnatText * gset string :=
  let '(dir, seen) := acc in
  match cut_suffix ".snat" name with
  | None => acc
  | Some uuid =>
      match ips !! uuid with
      | Some existing => (writeSnat name existing dir, {[uuid]} ∪ seen)
      | None => (if fileWritable (sn_host env) name then delete name dir else dir, seen)
      end
  end.

Definition syncSnat (syncEnabled : bool) (s : HSnat) : bool * HSnat :=
  if negb syncEnabled then (false, s)
  else if negb (dirReadable (sn_host env)) then (true, s)
  else
    let ips := opflexSnatIps s in
    let '(dir, seen) := foldl (snat_file ips) (snatDir s, ∅) (map_to_list (snatDir s)).*1 in
    let dir := foldl (λ dir v, if bool_decide (os_Uuid v ∈ seen) then dir else writeSnat (os_Uuid v ++ ".snat") v dir) dir (map_to_list ips).*2 in
    (false, set_snatdir dir s).

(** ** Custom resources of the node *)

(** The answer to reading a resource. *)
Inductive answer (A : Type) := NotFound | Failure | Found (a : A).
Arguments NotFound {A}.
Arguments Failure {A}.
Arguments Found {A}.

(** The names that are written, if any; the result is success. *)
Definition InformNodeInfo (client : bool) (reply : answer (gset string)) (write_fails : bool) (names : gset string) (s : HSnat)
  : option (HSnat * option (gset string) * bool) :=
  if negb client then Some (s, None, true)
  else
    match reply with
    | NotFound => Some (s, Some names, negb write_fails)
    | Failure => Some (s, None, false)
    | Found old =>
        if bool_decide (old = names) then
          s ← updateEpFiles (flat_map (λ name, (policy_pods name s).*1) (elements names)) s; Some (s, None, true)
        else Some (s, Some names, negb write_fails)
    end.

Definition snat_policy_names (s : HSnat) : gset string :=
  dom (filter (λ kv, kv.2 ≠ (∅ : gmap string Z)) (snatPods s)).

Definition syncSnatNodeInfo (syncEnabled client : bool) (reply : answer (gset string)) (write_fails : bool) (s : HSnat)
  : option (HSnat * option (gset string) * bool) :=
  if negb syncEnabled then Some (s, None, false)
  else '(s, w, ok) ← InformNodeInfo client reply write_fails (snat_policy_names s) s; Some (s, w, negb ok).

(** One entry of the resource with the policies of a pod. *)
Record LocalPolicy := mkLocalPolicy { lp_Name : string; lp_SnatIp : string; lp_DestIp : list string }.
Record PodLocalInfo := mkPodLocalInfo { pli_PodName : string; pli_PodNamespace : string; pli_PodUid : string; pli_SnatPolicies : list LocalPolicy }.
#[export] Instance LocalPolicy_eq_dec : EqDecision LocalPolicy.
Proof using. clear. solve_decision. Defined.
#[export] Instance PodLocalInfo_eq_dec : EqDecision PodLocalInfo.
Proof using. clear. solve_decision. Defined.

Definition local_policy (s : HSnat) (g : GlobalInfo) : LocalPolicy :=
  mkLocalPolicy (gi_SnatPolicyName g) (gi_SnatIp g)
    (match snatPolicyCache s !! gi_SnatPolicyName g with
     | Some p => match pol_DestIp p with [] => ["0.0.0.0/0"] | d => d end
     | None => []
     end).

Definition policies_by_uid (s : HSnat) (ginfos : list GlobalInfo) : gmap string LocalPolicy :=
  foldl (λ m g, <[SnatIpUid g := local_policy s g]> m) ∅ ginfos.

Definition pod_local_info (podUidToName : gmap string string) (m : gmap string LocalPolicy) (uv : string * LocalInfo) : option PodLocalInfo :=
  let '(uid, v) := uv in
  match omap (λ u, m !! u) (PlcyUuids v) with
  | [] => None
  | policies =>
      let pod := sn_pods env !! default EmptyString (podUidToName !! uid) in
      Some (mkPodLocalInfo (from_option po_Name EmptyString pod) (from_option po_Namespace EmptyString pod) uid policies)
  end.

(** What is done to the resource. *)
Inductive cr_write := CrNone | CrDelete | CrWrite (infos : list PodLocalInfo).

Definition deleteLocalInfoCr (exists_ write_fails : bool) : cr_write * bool :=
  if exists_ then (CrDelete, write_fails) else (CrNone, false).

Definition UpdateLocalInfoCr (client : bool) (podUidToName : gmap string string) (reply : answer (list PodLocalInfo)) (write_fails : bool)
    (s : HSnat) : cr_write * bool :=
  if negb client then (CrNone, false)
  else
    match opflexSnatGlobalInfos s !! hc_NodeName cfg with
    | None => deleteLocalInfoCr (match reply with Found _ => true | _ => false end) write_fails
    | Some ginfos =>
        let infos := omap (pod_local_info podUidToName (policies_by_uid s ginfos)) (map_to_list (opflexSnatLocalInfos s)) in
        match reply with
        | NotFound => (CrWrite infos, write_fails)
        | Failure => (CrNone, true)
        | Found old => if bool_decide (old = infos) then (CrNone, false) else (CrWrite infos, write_fails)
        end
    end.

(** At the start: the pods of the resource keep the identifiers of their
    endpoint files. *)
Definition populateSnatLocalInfos (infos : list PodLocalInfo) (s : HSnat) : HSnat :=
  foldl (λ s li, if String.eqb (pli_PodUid li) EmptyString then s
                 else set_locals (<[pli_PodUid li := mkLocalInfo true ∅ []]> (opflexSnatLocalInfos s)) s) s infos.

(** The identifiers for the endpoint file of a pod; [current] are those of the
    file as it is, if it can be read. *)
Definition getSnatUuids (poduuid : string) (current : option (list string)) (s : HSnat) : list string :=
  match opflexSnatLocalInfos s !! poduuid with
  | None => []
  | Some val =>
      match Existing val, current with
      | true, Some uuids => uuids
      | _, _ => PlcyUuids val
      end
  end.
End Informers.
End Snats.
