(* ===== verification/HostSnatFacts.v ===== *)
(** * HostSnatFacts: the tables of source NAT on a host

    [listed] reads the local infos as a relation between pods, resources and
    policies, [podbits] the pods of the policies as bit sets.  The invariant
    [hsn_ok]: what is listed has its bit and a cached policy. *)
From S2P Require Import Prelude GoBytes GoNet GoText IpAlloc PodIndex K8s Snat SvcTypes PodNet OpflexDev SvcGraph HostSvc HostSnat.

Open Scope string_scope.

(** ** Sorting *)

Section SortFacts.
Context {A : Type} (less : A → A → option bool).

Lemma move_left_total x l :
  (∀ y, y ∈ l → is_Some (less x y)) → ∃ r, move_left less x l = Some r ∧ r ≡ₚ x :: l.
Proof.
  induction l as [|y l IH]; intros H; simpl; [by exists [x]|].
  destruct (H y) as [b Hb]; [left|]. rewrite Hb. simpl. destruct b; [|by eexists].
  destruct IH as (r&Er&Hr); [intros z Hz; apply H; by right|]. rewrite Er. simpl. eexists. split; [done|].
  rewrite Hr. apply Permutation_swap.
Qed.

Lemma insertionSort_total l acc :
  (∀ x y, x ∈ (acc ++ l)%list → y ∈ (acc ++ l)%list → is_Some (less x y)) → ∃ r, insertionSort less acc l = Some r ∧ r ≡ₚ (acc ++ l)%list.
Proof.
  revert acc. induction l as [|x l IH]; intros acc H; simpl.
  - exists (rev acc). split; [done|]. rewrite app_nil_r. symmetry. apply Permutation_rev.
  - destruct (move_left_total x acc) as (r&Er&Hr).
    { intros y Hy. apply H; apply elem_of_app; [right; left|by left]. }
    rewrite Er. simpl. assert (Hp : (r ++ l)%list ≡ₚ (acc ++ x :: l)%list) by (rewrite Hr; apply Permutation_middle).
    destruct (IH r) as (r'&Er'&Hr').
    { intros a b Ha Hb. apply H; by rewrite <- Hp. }
    exists r'. split; [done|]. by rewrite Hr'.
Qed.
End SortFacts.

(** What is used of the sort of long slices: it calls [less] on elements of
    the slice and permutes it. *)
Definition sorts (pdqsort : (string → string → option bool) → list string → option (list string)) : Prop :=
  ∀ less l, (∀ x y, x ∈ l → y ∈ l → is_Some (less x y)) → ∃ r, pdqsort less l = Some r ∧ r ≡ₚ l.

Lemma sort_Slice_total pdqsort less l :
  sorts pdqsort → (∀ x y, x ∈ l → y ∈ l → is_Some (less x y)) → ∃ r, sort_Slice pdqsort less l = Some r ∧ r ≡ₚ l.
Proof.
  intros Hp H. unfold sort_Slice. destruct (length l <=? maxInsertion)%nat; [|by apply Hp].
  destruct (insertionSort_total less l []) as (r&Er&Hr); [done|]. by exists r.
Qed.

(** ** Bits of resources *)

Definition resource (r : Z) : Prop := r ∈ resources.
Definition mask (b : Z) : Prop := (0 <= b < 32)%Z.
Definition has (b r : Z) : bool := (Z.land b r =? r)%Z.

(** The resources that a deletion goes through. *)
Definition hit (res r : Z) : bool := bool_decide (r ∈ visit_bits 64 0 0 res) && (Z.land r res =? r)%Z.

Definition all_masks : list Z := Z.of_nat <$> seq 0 32.

Lemma mask_in b : mask b → b ∈ all_masks.
Proof.
  intros H. apply list_elem_of_fmap. exists (Z.to_nat b). unfold mask in H. split; [lia|]. apply list_elem_of_In, in_seq. lia.
Qed.

Lemma check2 (P : Z → Z → bool) l :
  forallb (λ b, forallb (P b) l) all_masks = true → ∀ b r, mask b → r ∈ l → P b r = true.
Proof.
  intros H b r Hb Hr. rewrite forallb_forall in H. specialize (H b). rewrite forallb_forall in H.
  apply H; apply list_elem_of_In; [by apply mask_in|done].
Qed.

Lemma check3 (P : Z → Z → Z → bool) l :
  forallb (λ a, forallb (λ b, forallb (P a b) l) all_masks) all_masks = true →
  ∀ a b r, mask a → mask b → r ∈ l → P a b r = true.
Proof.
  intros H a b r Ha Hb Hr. rewrite forallb_forall in H. apply (check2 (P a) l); [|done|done]. apply H, list_elem_of_In, mask_in, Ha.
Qed.

Lemma hit_has res r : mask res → resource r → hit res r = has res r.
Proof.
  intros Hm Hr. apply eqb_prop. revert res r Hm Hr. apply (check2 (λ res r, Bool.eqb (hit res r) (has res r)) resources). vm_compute. reflexivity.
Qed.

Lemma land_keeps b res r : mask b → mask res → resource r → has b r = true → hit res r = false → has (Z.land b (Z.lnot res)) r = true.
Proof.
  intros Hb Hm Hr H1 H2.
  assert (implb (has b r && negb (hit res r)) (has (Z.land b (Z.lnot res)) r) = true) as H.
  { apply (check3 (λ b res r, implb (has b r && negb (hit res r)) (has (Z.land b (Z.lnot res)) r)) resources); [vm_compute; reflexivity|done..]. }
  rewrite H1, H2 in H. exact H.
Qed.

Lemma land_mask b res : mask b → mask (Z.land b (Z.lnot res)).
Proof.
  unfold mask. intros [H1 H2]. split; [apply Z.land_nonneg; by left|].
  destruct (Z.eq_dec b 0) as [->|Hb]; [rewrite Z.land_0_l; lia|].
  destruct (Z.eq_dec (Z.land b (Z.lnot res)) 0) as [->|Hc]; [lia|].
  assert (Hn : (0 <= Z.land b (Z.lnot res))%Z) by (apply Z.land_nonneg; by left).
  change 32%Z with (2 ^ 5)%Z in *. apply Z.log2_lt_pow2; [lia|]. apply Z.log2_lt_pow2 in H2; [|lia].
  eapply Z.le_lt_trans; [|exact H2]. destruct (Z.le_gt_cases 0 (Z.lnot res)) as [Hl|Hl].
  - etrans; [apply Z.log2_land; lia|lia].
  - destruct (Z.le_gt_cases (Z.log2 (Z.land b (Z.lnot res))) (Z.log2 b)) as [|Hgt]; [done|exfalso].
    assert (Z.testbit (Z.land b (Z.lnot res)) (Z.log2 (Z.land b (Z.lnot res))) = true) as Ht by (apply Z.bit_log2; lia).
    rewrite Z.land_spec, (Z.bits_above_log2 b) in Ht by lia. discriminate.
Qed.

Lemma lor_mask b r : mask b → resource r → mask (Z.lor b r) ∧ has (Z.lor b r) r = true ∧ ∀ r', resource r' → has b r' = true → has (Z.lor b r) r' = true.
Proof.
  intros Hb Hr.
  assert (((0 <=? Z.lor b r) && (Z.lor b r <? 32) && has (Z.lor b r) r && forallb (λ r', implb (has b r') (has (Z.lor b r) r')) resources)%Z = true) as H.
  { apply (check2 (λ b r, ((0 <=? Z.lor b r) && (Z.lor b r <? 32) && has (Z.lor b r) r && forallb (λ r', implb (has b r') (has (Z.lor b r) r')) resources)%Z) resources);
      [vm_compute; reflexivity|done|done]. }
  apply andb_true_iff in H as [H H4]. apply andb_true_iff in H as [H H3]. apply andb_true_iff in H as [H1 H2].
  unfold mask. split_and!; [lia|lia|done|]. intros r' Hr' Hh. rewrite forallb_forall in H4. specialize (H4 r').
  rewrite Hh in H4. apply H4, list_elem_of_In, Hr'.
Qed.

(** ** The invariant *)

Definition listed (s : HSnat) (uid : string) (r : Z) (p : string) : Prop :=
  ∃ li l, opflexSnatLocalInfos s !! uid = Some li ∧ Snatpolicies li !! r = Some l ∧ p ∈ l.

Definition podbits (pods : gmap string (gmap string Z)) (p uid : string) : Z := default 0%Z (pods !! p ≫= lookup uid).

Record hsn_ok (s : HSnat) : Prop := {
  ok_bits : ∀ uid r p, listed s uid r p → resource r ∧ has (podbits (snatPods s) p uid) r = true;
  ok_mask : ∀ p uid, mask (podbits (snatPods s) p uid);
  ok_cached : ∀ uid r p, listed s uid r p → is_Some (snatPolicyCache s !! p);
  ok_labels : ∀ key m p res, snatPolicyLabels s !! key = Some m → m !! p = Some res → mask res
}.

Lemma resource_mask r : resource r → mask r.
Proof. unfold resource, resources, mask. rewrite !elem_of_cons. intros H. destruct_or!; [..|by apply not_elem_of_nil in H]; subst; by vm_compute. Qed.

Lemma mask_0 : mask 0.
Proof. unfold mask. lia. Qed.

(** The tables of an operation that matter for the invariant. *)
Lemma hsn_ok_same s s' :
  opflexSnatLocalInfos s' = opflexSnatLocalInfos s → snatPods s' = snatPods s → snatPolicyCache s' = snatPolicyCache s →
  snatPolicyLabels s' = snatPolicyLabels s → hsn_ok s → hsn_ok s'.
Proof. intros E1 E2 E3 E4 [H1 H2 H3 H4]. constructor; unfold listed in *; rewrite ?E1, ?E2, ?E3, ?E4; done. Qed.

(** Fewer local infos. *)
Lemma hsn_ok_fewer s m :
  (∀ uid li', m !! uid = Some li' → ∃ li, opflexSnatLocalInfos s !! uid = Some li ∧ Snatpolicies li' = Snatpolicies li) →
  hsn_ok s → hsn_ok (set_locals m s).
Proof.
  intros Hm [H1 H2 H3 H4].
  assert (Hl : ∀ uid r p, listed (set_locals m s) uid r p → listed s uid r p).
  { intros uid r p (li'&l&E1&E2&Hp). cbn in E1. destruct (Hm _ _ E1) as (li&E&Es). exists li, l. by rewrite <- Es. }
  constructor; cbn [snatPods snatPolicyCache snatPolicyLabels set_locals]; [| done | | done]; intros uid r p Hx; apply Hl in Hx; eauto.
Qed.

Lemma hsn_ok_delete s uid : hsn_ok s → hsn_ok (set_locals (delete uid (opflexSnatLocalInfos s)) s).
Proof. apply hsn_ok_fewer. intros u li' E. apply lookup_delete_Some in E as [_ E]. by exists li'. Qed.

(** ** Applying a policy *)

Lemma podbits_mark s name uid res p u :
  podbits (snatPods (mark_pod name uid res s)) p u =
  if bool_decide (p = name ∧ u = uid) then Z.lor (podbits (snatPods s) p u) res else podbits (snatPods s) p u.
Proof.
  unfold podbits, mark_pod. cbn [snatPods set_pods]. destruct (decide (p = name)) as [->|Hp].
  - rewrite lookup_insert_eq. cbn [mbind option_bind]. destruct (decide (u = uid)) as [->|Hu].
    + rewrite lookup_insert_eq, bool_decide_true by done. cbn. by destruct (snatPods s !! name).
    + rewrite lookup_insert_ne, bool_decide_false by (congruence || tauto). by destruct (snatPods s !! name).
  - rewrite lookup_insert_ne, bool_decide_false by (congruence || tauto). done.
Qed.

Lemma listed_insert s uid li u r p :
  listed (set_locals (<[uid := li]> (opflexSnatLocalInfos s)) s) u r p ↔
  (u = uid ∧ ∃ l, Snatpolicies li !! r = Some l ∧ p ∈ l) ∨ (u ≠ uid ∧ listed s u r p).
Proof.
  unfold listed. cbn [opflexSnatLocalInfos set_locals]. split.
  - intros (li'&l&E&El&Hp). destruct (decide (u = uid)) as [->|Hu].
    + rewrite lookup_insert_eq in E. injection E as <-. left. eauto.
    + rewrite lookup_insert_ne in E by congruence. right. split; [done|]. by exists li', l.
  - intros [[-> (l&El&Hp)]|[Hu (li'&l&E&El&Hp)]].
    + exists li, l. by rewrite lookup_insert_eq.
    + exists li', l. by rewrite lookup_insert_ne by congruence.
Qed.

(** A pod that gets a policy for a resource, in both tables. *)
Lemma mark_ok s uid name res li :
  hsn_ok s → resource res → is_Some (snatPolicyCache s !! name) →
  (∀ r l p, Snatpolicies li !! r = Some l → p ∈ l → (r = res ∧ p = name) ∨ listed s uid r p) →
  hsn_ok (mark_pod name uid res (set_locals (<[uid := li]> (opflexSnatLocalInfos s)) s)).
Proof.
  intros [H1 H2 H3 H4] Hres Hc Hli. set (s1 := set_locals _ s).
  assert (Hl : ∀ u r p, listed (mark_pod name uid res s1) u r p → (u = uid ∧ r = res ∧ p = name) ∨ listed s u r p).
  { intros u r p Hx. change (listed s1 u r p) in Hx. apply listed_insert in Hx as [[-> (l&El&Hp)]|[_ Hx]]; [|by right].
    destruct (Hli _ _ _ El Hp) as [[-> ->]|]; [by left|by right]. }
  assert (Hb : ∀ p u, podbits (snatPods (mark_pod name uid res s1)) p u =
    if bool_decide (p = name ∧ u = uid) then Z.lor (podbits (snatPods s) p u) res else podbits (snatPods s) p u) by exact (podbits_mark s1 name uid res).
  constructor; cbn [snatPolicyCache snatPolicyLabels mark_pod set_pods set_locals s1].
  - intros u r p Hx. rewrite Hb. apply Hl in Hx as [(->&->&->)|Hx].
    + rewrite bool_decide_true by done. split; [done|].
      by destruct (lor_mask _ _ (H2 name uid) Hres) as (_&H5&_).
    + destruct (H1 _ _ _ Hx) as [Hr Hh]. split; [done|]. case_bool_decide; [|done].
      destruct (lor_mask _ _ (H2 p u) Hres) as (_&_&H5). by apply H5.
  - intros p u. rewrite Hb. case_bool_decide; [|done]. by destruct (lor_mask _ _ (H2 p u) Hres) as (H5&_).
  - intros u r p Hx. apply Hl in Hx as [(->&->&->)|Hx]; [done|eauto].
  - done.
Qed.

Lemma apply_to_pod_ok s uid name res :
  hsn_ok s → resource res → is_Some (snatPolicyCache s !! name) → hsn_ok (apply_to_pod res name s uid).
Proof.
  intros Hs Hr Hc. unfold apply_to_pod. destruct (opflexSnatLocalInfos s !! uid) as [li|] eqn:E.
  - case_bool_decide as Hin; [done|]. apply mark_ok; [done..|]. intros r l p El Hp. cbn [Snatpolicies add_policy] in El. unfold add_policy in El.
    destruct (decide (r = res)) as [->|Hne].
    + rewrite lookup_insert_eq in El. injection El as <-. apply elem_of_app in Hp as [Hp|Hp]; [|left; by apply list_elem_of_singleton in Hp].
      right. exists li. destruct (Snatpolicies li !! res) as [l0|] eqn:E0; [|by apply not_elem_of_nil in Hp]. by exists l0.
    + rewrite lookup_insert_ne in El by congruence. right. by exists li, l.
  - apply mark_ok; [done..|]. intros r l p El Hp. cbn [Snatpolicies] in El. apply lookup_singleton_Some in El as [<- <-].
    apply list_elem_of_singleton in Hp. by left.
Qed.

Lemma apply_to_pod_cache res name s uid :
  snatPolicyCache (apply_to_pod res name s uid) = snatPolicyCache s ∧ snatPolicyLabels (apply_to_pod res name s uid) = snatPolicyLabels s ∧
  opflexSnatGlobalInfos (apply_to_pod res name s uid) = opflexSnatGlobalInfos s.
Proof. unfold apply_to_pod. destruct (_ !! uid); [case_bool_decide|]; done. Qed.

Lemma apply_pods_ok res name uids s :
  hsn_ok s → resource res → is_Some (snatPolicyCache s !! name) →
  let s' := foldl (apply_to_pod res name) s uids in
  hsn_ok s' ∧ snatPolicyCache s' = snatPolicyCache s ∧ snatPolicyLabels s' = snatPolicyLabels s ∧ opflexSnatGlobalInfos s' = opflexSnatGlobalInfos s.
Proof.
  cbv zeta. revert s. induction uids as [|u uids IH]; intros s Hs Hr Hc; [done|]. cbn [foldl].
  destruct (apply_to_pod_cache res name s u) as (E1&E2&E3).
  destruct (IH (apply_to_pod res name s u)) as (H1&H2&H3&H4); [by apply apply_to_pod_ok|done|by rewrite E1|]. rewrite H2, H3, H4. done.
Qed.

(** ** Removing a policy *)

(** What an operation leaves alone. *)
Definition same_rest (s s' : HSnat) : Prop :=
  snatPolicyCache s' = snatPolicyCache s ∧ opflexSnatGlobalInfos s' = opflexSnatGlobalInfos s.

Definition same_all (s s' : HSnat) : Prop := same_rest s s' ∧ snatPolicyLabels s' = snatPolicyLabels s.

#[export] Instance same_rest_pre : PreOrder same_rest.
Proof. split; [done|]. intros s1 s2 s3 [H1 H2] [H3 H4]. split; congruence. Qed.
#[export] Instance same_all_pre : PreOrder same_all.
Proof. split; [done|]. intros s1 s2 s3 [H1 H2] [H3 H4]. split; [by etrans|congruence]. Qed.

Definition holds (pols : gmap Z (list string)) (r : Z) (q : string) : Prop := ∃ l, pols !! r = Some l ∧ q ∈ l.

Lemma drop_policy_holds i res p li r q :
  holds (Snatpolicies (drop_policy i res p li)) r q ↔ holds (Snatpolicies li) r q ∧ ¬ (r = i ∧ q = p).
Proof.
  unfold drop_policy. cbn [Snatpolicies]. set (f := List.filter _). set (pols := alter f i (Snatpolicies li)).
  assert (H1 : holds (match pols !! res with Some (_ :: _) => pols | _ => delete res pols end) r q ↔ holds pols r q).
  { unfold holds. destruct (pols !! res) as [[|x l]|] eqn:E; [|done|]; (split; [|]; intros (l'&El&Hq); exists l'; (split; [|done])).
    - by apply lookup_delete_Some in El as [_ El].
    - apply lookup_delete_Some. split; [|done]. intros ->. rewrite E in El. injection El as <-. by apply not_elem_of_nil in Hq.
    - by apply lookup_delete_Some in El as [_ El].
    - apply lookup_delete_Some. split; [|done]. intros ->. congruence. }
  rewrite H1. clear H1. unfold holds, pols. destruct (decide (r = i)) as [->|Hne].
  - rewrite lookup_alter_eq. split.
    + intros (l&El&Hq). destruct (Snatpolicies li !! i) as [l0|]; [|discriminate El]. injection El as <-. apply list_elem_of_In in Hq.
      unfold f in Hq. apply filter_In in Hq as [Hq Hn]. apply list_elem_of_In in Hq. split; [by exists l0|]. intros [_ ->].
      by rewrite String.eqb_refl in Hn.
    + intros [(l&El&Hq) Hn]. rewrite El. cbn. eexists. split; [done|]. apply list_elem_of_In. unfold f. apply filter_In.
      split; [by apply list_elem_of_In|]. apply negb_true_iff, String.eqb_neq. intros ->. by apply Hn.
  - rewrite lookup_alter_ne by congruence. split; [|by intros [H _]]. intros H. split; [done|]. by intros [? _].
Qed.

Lemma clear_bits_spec uid res p pods q u :
  podbits (clear_bits uid res p pods) q u =
  if bool_decide (q = p ∧ u = uid) then Z.land (podbits pods q u) (Z.lnot res) else podbits pods q u.
Proof.
  unfold clear_bits, podbits. destruct (pods !! p) as [v|] eqn:E.
  2:{ case_bool_decide as H; [|done]. destruct H as [-> ->]. by rewrite E. }
  destruct (v !! uid) as [b|] eqn:Eb.
  2:{ case_bool_decide as H; [|done]. destruct H as [-> ->]. rewrite E. cbn. by rewrite Eb. }
  destruct (decide (q = p)) as [->|Hq].
  2:{ rewrite (bool_decide_false (q = p ∧ u = uid)) by tauto. destruct (_ =? 0)%Z; [case_bool_decide|];
        by rewrite ?lookup_delete_ne, ?lookup_insert_ne by congruence. }
  rewrite E. cbn [mbind option_bind]. destruct (Z.eqb_spec (Z.land b (Z.lnot res)) 0) as [H0|H0].
  - case_bool_decide as Hv.
    + rewrite lookup_delete_eq. cbn. destruct (decide (u = uid)) as [->|Hu].
      * rewrite bool_decide_true by done. by rewrite Eb.
      * rewrite bool_decide_false by tauto. assert (delete uid v !! u = None) as H by by rewrite Hv.
        rewrite lookup_delete_ne in H by congruence. by rewrite H.
    + rewrite lookup_insert_eq. cbn. destruct (decide (u = uid)) as [->|Hu].
      * rewrite bool_decide_true, lookup_delete_eq, Eb by done. done.
      * by rewrite bool_decide_false, lookup_delete_ne by (congruence || tauto).
  - rewrite lookup_insert_eq. cbn. destruct (decide (u = uid)) as [->|Hu].
    + rewrite bool_decide_true, lookup_insert_eq, Eb by done. done.
    + by rewrite bool_decide_false, lookup_insert_ne by (congruence || tauto).
Qed.

Lemma listed_alter s f uid u r q :
  listed (set_locals (alter f uid (opflexSnatLocalInfos s)) s) u r q ↔
  ∃ li, opflexSnatLocalInfos s !! u = Some li ∧ holds (Snatpolicies (if bool_decide (u = uid) then f li else li)) r q.
Proof.
  unfold listed. cbn [opflexSnatLocalInfos set_locals]. destruct (decide (u = uid)) as [->|Hu].
  - rewrite lookup_alter_eq, bool_decide_true by done. split.
    + intros (li'&l&E&El&Hq). destruct (_ !! uid) as [li|]; [|discriminate E]. injection E as <-. exists li. split; [done|]. by exists l.
    + intros (li&E&l&El&Hq). rewrite E. cbn. eauto.
  - rewrite lookup_alter_ne, bool_decide_false by congruence. split.
    + intros (li&l&E&El&Hq). exists li. split; [done|]. by exists l.
    + intros (li&E&l&El&Hq). by exists li, l.
Qed.

Lemma listed_holds s u r q : listed s u r q ↔ ∃ li, opflexSnatLocalInfos s !! u = Some li ∧ holds (Snatpolicies li) r q.
Proof. unfold listed, holds. split; [intros (li&l&H1&H2&H3)|intros (li&H1&l&H2&H3)]; eauto. Qed.

Lemma delete_step_listed uid res p s i u r q :
  listed (delete_step uid res p s i) u r q ↔ listed s u r q ∧ ¬ (u = uid ∧ q = p ∧ r = i ∧ Z.land i res = i).
Proof.
  unfold delete_step. destruct (Z.eqb_spec (Z.land i res) i) as [Hi|Hi].
  2:{ split; [|tauto]. intros H. split; [done|]. intros (_&_&_&?). congruence. }
  set (s1 := set_locals _ s).
  change (listed (set_pods (clear_bits uid res p (snatPods s)) s1) u r q) with (listed s1 u r q). unfold s1. rewrite listed_alter, listed_holds.
  split.
  - intros (li&E&Hh). case_bool_decide as Hu; [subst u; apply drop_policy_holds in Hh as [Hh Hn]|]; (split; [exists li; exact (conj E Hh)|]); tauto.
  - intros [(li&E&Hh) Hn]. exists li. split; [done|]. case_bool_decide as Hu; [|done]. subst u. apply drop_policy_holds. tauto.
Qed.

Lemma land_lnot_idem b res : Z.land (Z.land b (Z.lnot res)) (Z.lnot res) = Z.land b (Z.lnot res).
Proof. by rewrite <- Z.land_assoc, Z.land_diag. Qed.

(** The bits after some steps: as before, or those of the resources cleared. *)
Definition bits_cleared (uid : string) (res : Z) (p : string) (s s' : HSnat) : Prop :=
  ∀ q u, podbits (snatPods s') q u = podbits (snatPods s) q u ∨
         (q = p ∧ u = uid ∧ podbits (snatPods s') q u = Z.land (podbits (snatPods s) q u) (Z.lnot res)).

Lemma delete_step_bits uid res p s i : bits_cleared uid res p s (delete_step uid res p s i).
Proof.
  intros q u. unfold delete_step. destruct (Z.land i res =? i)%Z; [|by left]. cbn [snatPods set_pods]. rewrite clear_bits_spec.
  case_bool_decide as Hb; [|by left]. right. tauto.
Qed.

Lemma delete_steps uid res p l s :
  let s' := foldl (delete_step uid res p) s l in
  (∀ u r q, listed s' u r q ↔ listed s u r q ∧ ¬ (u = uid ∧ q = p ∧ r ∈ l ∧ Z.land r res = r)) ∧
  bits_cleared uid res p s s' ∧ same_all s s'.
Proof.
  cbv zeta. revert s. induction l as [|i l IH]; intros s; cbn [foldl].
  { split_and!; [|by left|done]. intros u r q. split; [|tauto]. intros H. split; [done|]. intros (_&_&H'&_). by apply not_elem_of_nil in H'. }
  destruct (IH (delete_step uid res p s i)) as (H1&H2&H3). split_and!.
  - intros u r q. rewrite H1, delete_step_listed, elem_of_cons. split.
    + intros [[Hl Hn1] Hn2]. split; [done|]. intros (Hu&Hq&[Hi|Hin]&Hr); [apply Hn1|apply Hn2]; subst; tauto.
    + intros [Hl Hn]. split; [split; [done|]|]; intros (Hu&Hq&Hr1&Hr2); apply Hn; subst; tauto.
  - intros q u. pose proof (delete_step_bits uid res p s i q u) as Hb. destruct (H2 q u) as [->|(->&->&->)]; [done|].
    right. split_and!; [done..|]. destruct Hb as [->|(_&_&->)]; [done|]. apply land_lnot_idem.
  - etrans; [|exact H3]. unfold delete_step. by destruct (_ =? _)%Z.
Qed.

Lemma deleteSnatLocalInfo_spec uid res p s :
  let s' := deleteSnatLocalInfo uid res p s in
  (∀ u r q, listed s' u r q ↔ listed s u r q ∧ ¬ (u = uid ∧ q = p ∧ hit res r = true)) ∧
  bits_cleared uid res p s s' ∧ same_all s s'.
Proof.
  cbv zeta. unfold deleteSnatLocalInfo. destruct (opflexSnatLocalInfos s !! uid) as [li|] eqn:E.
  - destruct (delete_steps uid res p (visit_bits 64 0 0 res) s) as (H1&H2&H3). split_and!; [|done|done].
    intros u r q. rewrite H1. unfold hit. rewrite andb_true_iff, bool_decide_eq_true, Z.eqb_eq. done.
  - split_and!; [|by left|done]. intros u r q. split; [|tauto]. intros H. split; [done|]. intros (->&_). destruct H as (li&l&E'&_). congruence.
Qed.

Lemma deleteSnatLocalInfo_ok uid res p s : mask res → hsn_ok s → hsn_ok (deleteSnatLocalInfo uid res p s).
Proof.
  intros Hm [H1 H2 H3 H4]. destruct (deleteSnatLocalInfo_spec uid res p s) as (HL&HB&[HC HG] &HS).
  constructor.
  - intros u r q Hl. apply HL in Hl as [Hl Hn]. destruct (H1 _ _ _ Hl) as [Hr Hh]. split; [done|].
    destruct (HB q u) as [->|(->&->&->)]; [done|]. apply land_keeps; [apply H2|done..|]. apply not_true_is_false. intros Hx. by apply Hn.
  - intros q u. destruct (HB q u) as [->|(->&->&->)]; [apply H2|]. apply land_mask, H2.
  - intros u r q Hl. apply HL in Hl as [Hl _]. rewrite HC. eauto.
  - rewrite HS. exact H4.
Qed.

(** ** The identifiers of a pod *)

(** A destination that the comparison can read: an IPv4 address, or a network. *)
Definition dest_ok (a : string) : Prop := is_Some (ParseCIDR (with_mask a)).

Definition dests_ok (cache : gmap string HSnatPolicy) : Prop := ∀ name p, cache !! name = Some p → Forall dest_ok (pol_DestIp p).

Lemma less_dest_total a b : dest_ok a → is_Some (less_dest a b).
Proof.
  intros [n Hn]. unfold less_dest, compareIps. rewrite Hn. cbn. destruct (ParseCIDR_addr _) as [[ip m]|]; by eexists.
Qed.

Lemma compare_total cache p1 p2 : dests_ok cache → is_Some (cache !! p1) → is_Some (cache !! p2) → is_Some (compare cache p1 p2).
Proof.
  intros Hd [x E1] [y E2]. unfold compare. rewrite E1. cbn [mbind option_bind]. specialize (Hd _ _ E1). destruct (pol_DestIp x) as [|a d]; [by eexists|].
  rewrite E2. cbn [mbind option_bind].
  assert (Hm : is_Some (mapM (λ a0, mapM (less_dest a0) (pol_DestIp y)) (a :: d))).
  { apply mapM_is_Some. eapply Forall_impl; [exact Hd|]. intros c Hc. cbn beta. apply mapM_is_Some, Forall_forall. intros z _. by apply less_dest_total. }
  destruct Hm as [l ->]. by eexists.
Qed.

Lemma dedup_elem seen l x : x ∈ dedup seen l ↔ x ∈ l ∧ x ∉ seen.
Proof.
  revert seen. induction l as [|y l IH]; intros seen; simpl; [split; [|intros [H _]]; intros; by apply not_elem_of_nil in H || done|].
  case_bool_decide as Hy; rewrite ?elem_of_cons, IH; [split; [tauto|]|].
  - intros [[->|H] Hn]; [done|tauto].
  - split.
    + intros [->|[H Hn]]; [split; [by left|done]|]. split; [by right|]. set_solver.
    + intros [[->|H] Hn]; [by left|]. destruct (decide (x = y)) as [->|Hne]; [by left|]. right. split; [done|]. set_solver.
Qed.

Lemma dedup_NoDup seen l : NoDup (dedup seen l).
Proof.
  revert seen. induction l as [|y l IH]; intros seen; simpl; [constructor|]. case_bool_decide; [done|]. constructor; [|done].
  rewrite dedup_elem. set_solver.
Qed.

Section Ops.
Context (pdqsort : (string → string → option bool) → list string → option (list string)).
Context (cfg : HostCfg).
Hypothesis Hsort : sorts pdqsort.

Lemma policy_stack_total cache li :
  dests_ok cache → (∀ r p, resource r → holds (Snatpolicies li) r p → is_Some (cache !! p)) →
  ∃ ls, policy_stack pdqsort cache li = Some (concat ls) ∧
    Forall2 (λ r l, ∀ p, p ∈ l ↔ holds (Snatpolicies li) r p) resources ls ∧ Forall NoDup ls.
Proof.
  intros Hd Hc. unfold policy_stack.
  assert (H : ∃ ls, mapM (λ i, match Snatpolicies li !! i with
                 | Some policies => sort_Slice pdqsort (compare cache) (dedup ∅ policies)
                 | None => Some []
                 end) resources = Some ls ∧ Forall2 (λ r l, ∀ p, p ∈ l ↔ holds (Snatpolicies li) r p) resources ls ∧ Forall NoDup ls).
  { assert (Hr : Forall resource resources) by (apply Forall_forall; done). induction Hr as [|r rs Hr _ IH]; [by exists []|].
    destruct IH as (ls&Els&Hls&Hnd). cbn [mapM].
    assert (∃ l, match Snatpolicies li !! r with Some policies => sort_Slice pdqsort (compare cache) (dedup ∅ policies) | None => Some [] end = Some l ∧
      (∀ p, p ∈ l ↔ holds (Snatpolicies li) r p) ∧ NoDup l) as (l&El&Hl&Hndl).
    { destruct (Snatpolicies li !! r) as [policies|] eqn:E.
      - destruct (sort_Slice_total pdqsort (compare cache) (dedup ∅ policies) Hsort) as (l&El&Hl).
        { intros x y Hx Hy. apply dedup_elem in Hx as [Hx _], Hy as [Hy _]. apply compare_total; [done|..]; apply (Hc r); [done|by exists policies|done|by exists policies]. }
        exists l. split; [done|]. split; [|rewrite Hl; apply dedup_NoDup]. intros p. rewrite Hl, dedup_elem. unfold holds. rewrite E. split.
        + intros [Hp _]. by exists policies.
        + intros (l'&[= <-]&Hp). split; [done|set_solver].
      - exists []. split; [done|]. split; [|constructor]. intros p. unfold holds. rewrite E. split; [intros H; by apply not_elem_of_nil in H|by intros (l'&?&_)]. }
    rewrite El. cbn [mbind option_bind]. rewrite Els. cbn. eexists. split; [done|]. split; by constructor. }
  destruct H as (ls&Els&Hls&Hnd). exists ls. rewrite Els. done.
Qed.

Lemma stack_uuids_total cache ginfos stack :
  (∀ p, p ∈ stack → is_Some (cache !! p)) → is_Some (stack_uuids cache ginfos stack).
Proof.
  induction stack as [|p stack IH]; intros H; simpl; [by eexists|]. destruct (H p) as [pol E]; [left|]. rewrite E. cbn.
  destruct (pol_DestIp pol) as [|d0 ds]; [by eexists|]. destruct IH as [l ->]; [intros q Hq; apply H; by right|]. by eexists.
Qed.

(** What an operation on the local infos keeps. *)
Definition fewer (s s' : HSnat) : Prop :=
  same_all s s' ∧ snatPods s' = snatPods s ∧ ∀ u r p, listed s' u r p → listed s u r p.

#[local] Instance fewer_pre : PreOrder fewer.
Proof.
  split; [intros s; split_and!; [done..|]; done|]. intros s1 s2 s3 (H1&H2&H3) (H4&H5&H6). split_and!; [by etrans|congruence|eauto].
Qed.

Lemma stack_cached s uid li :
  hsn_ok s → opflexSnatLocalInfos s !! uid = Some li → ∀ r p, resource r → holds (Snatpolicies li) r p → is_Some (snatPolicyCache s !! p).
Proof. intros [_ _ H3 _] E r p _ Hh. apply (H3 uid r). apply listed_holds. eauto. Qed.

Lemma in_stack ls li p :
  Forall2 (λ r l, ∀ p, p ∈ l ↔ holds (Snatpolicies li) r p) resources ls → p ∈ concat ls → ∃ r, resource r ∧ holds (Snatpolicies li) r p.
Proof.
  intros Hls Hp. apply list_elem_of_In, in_concat in Hp as (l&Hl&Hp). apply list_elem_of_In, list_elem_of_lookup_1 in Hl as [i Hi].
  destruct (Forall2_lookup_r _ _ _ _ _ Hls Hi) as (r&Hr&Hx). exists r. split; [by eapply list_elem_of_lookup_2|]. apply Hx, list_elem_of_In, Hp.
Qed.

Lemma updateEpFile_total uid s :
  hsn_ok s → dests_ok (snatPolicyCache s) →
  ∃ s' b, updateEpFile pdqsort cfg uid s = Some (s', b) ∧ hsn_ok s' ∧ fewer s s'.
Proof.
  intros Hs Hd. unfold updateEpFile. destruct (opflexSnatLocalInfos s !! uid) as [li|] eqn:E; [|by exists s, false].
  destruct (policy_stack_total (snatPolicyCache s) li Hd (stack_cached s uid li Hs E)) as (ls&Els&Hls&_). rewrite Els. cbn [mbind option_bind].
  destruct (stack_uuids_total (snatPolicyCache s) (node_infos cfg s) (concat ls)) as [uids Eu].
  { intros p Hp. destruct (in_stack ls li p Hls Hp) as (r&Hr&Hh). by eapply stack_cached. }
  rewrite Eu. cbn [mbind option_bind]. case_bool_decide; [by exists s, false|]. eexists _, _. split; [done|].
  assert (Hf : ∀ m, (∀ u li', m !! u = Some li' → ∃ li, opflexSnatLocalInfos s !! u = Some li ∧ Snatpolicies li' = Snatpolicies li) →
    hsn_ok (set_locals m s) ∧ fewer s (set_locals m s)).
  { intros m Hm. split; [by apply hsn_ok_fewer|]. split_and!; [done..|]. intros u r p (li'&l&E1&E2&Hp). cbn in E1.
    destruct (Hm _ _ E1) as (li0&E0&Es). exists li0, l. by rewrite <- Es. }
  apply Hf. intros u li' E'. destruct uids as [|x uids].
  - apply lookup_delete_Some in E' as [_ E']. by exists li'.
  - destruct (decide (u = uid)) as [->|Hu].
    + rewrite lookup_insert_eq in E'. injection E' as <-. by exists li.
    + rewrite lookup_insert_ne in E' by congruence. by exists li'.
Qed.

Lemma updateEpFiles_total uids s :
  hsn_ok s → dests_ok (snatPolicyCache s) → ∃ s', updateEpFiles pdqsort cfg uids s = Some s' ∧ hsn_ok s' ∧ fewer s s'.
Proof.
  intros Hs Hd. unfold updateEpFiles.
  assert (H : ∀ b, ∃ s' b', updateEpFiles_loop pdqsort cfg uids s b = Some (s', b') ∧ hsn_ok s' ∧ fewer s s').
  { revert s Hs Hd. induction uids as [|u uids IH]; intros s Hs Hd b; cbn [updateEpFiles_loop]; [by exists s, b|].
    destruct (updateEpFile_total u s Hs Hd) as (s1&b1&E1&H1&F1). rewrite E1. cbn [mbind option_bind].
    destruct (IH s1 H1) with (b := b || b1) as (s2&b2&E2&H2&F2); [destruct F1 as (((Ec&_)&_)&_); by rewrite Ec|].
    exists s2, b2. split_and!; [done..|]. by etrans. }
  destruct (H false) as (s'&b'&E&H1&F). rewrite E. cbn. eexists. split; [done|]. destruct b'; (split; [by eapply hsn_ok_same; [..|exact H1]|exact F]).
Qed.

(** ** Steps that keep the invariant and the policies *)

Definition step_ok (s s' : HSnat) : Prop :=
  hsn_ok s' ∧ snatPolicyCache s' = snatPolicyCache s ∧ dom (snatPolicyLabels s) ⊆ dom (snatPolicyLabels s').

Lemma step_ok_refl s : hsn_ok s → step_ok s s.
Proof. done. Qed.

Lemma step_ok_trans s1 s2 s3 : step_ok s1 s2 → step_ok s2 s3 → step_ok s1 s3.
Proof. intros (H1&H2&H3) (H4&H5&H6). split_and!; [done|congruence|by etrans]. Qed.

Lemma fewer_ok s s' : hsn_ok s' → fewer s s' → step_ok s s'.
Proof. intros H (((Hc&_)&Hl)&_). split_and!; [done..|]. by rewrite Hl. Qed.

(** A computation that returns, with a state that [proj] reads off. *)
Definition runs {A} (proj : A → HSnat) (s : HSnat) (m : option A) : Prop := ∃ a, m = Some a ∧ step_ok s (proj a).

Lemma runs_ret {A} (proj : A → HSnat) s a : step_ok s (proj a) → runs proj s (Some a).
Proof. by exists a. Qed.

Lemma runs_lift {A} (proj : A → HSnat) s s' m : step_ok s s' → runs proj s' m → runs proj s m.
Proof. intros H (a&E&Ha). exists a. split; [done|]. by eapply step_ok_trans. Qed.

Lemma runs_bind {A B} (proj : A → HSnat) (proj' : B → HSnat) s m k :
  runs proj s m → (∀ a, step_ok s (proj a) → runs proj' (proj a) (k a)) → runs proj' s (m ≫= k).
Proof. intros (a&->&Ha) Hk. cbn [mbind option_bind]. eapply runs_lift; [exact Ha|]. by apply Hk. Qed.

Lemma emit_ok l s : hsn_ok s → step_ok s (hsn_emit l s).
Proof. intros H. split_and!; [by eapply hsn_ok_same; [..|exact H]|done|done]. Qed.

Lemma updateEpFiles_runs uids s : hsn_ok s → dests_ok (snatPolicyCache s) → runs id s (updateEpFiles pdqsort cfg uids s).
Proof. intros Hs Hd. destruct (updateEpFiles_total uids s Hs Hd) as (s'&E&H&F). exists s'. split; [done|]. by apply fewer_ok. Qed.

Lemma applyPolicy_runs uids res name s :
  hsn_ok s → dests_ok (snatPolicyCache s) → resource res → is_Some (snatPolicyCache s !! name) →
  runs id s (applyPolicy pdqsort cfg uids res name s).
Proof.
  intros Hs Hd Hr Hc. unfold applyPolicy. destruct uids as [|u uids]; [by apply runs_ret, step_ok_refl|].
  set (s0 := if negb _ then _ else s). assert (H0 : hsn_ok s0 ∧ same_all s s0).
  { unfold s0. case_bool_decide as Hb; cbn [negb]; [done|]. split; [|done]. destruct Hs as [H1 H2 H3 H4].
    assert (Hp : ∀ q v, podbits (<[name := ∅]> (snatPods s)) q v = podbits (snatPods s) q v).
    { intros q v. unfold podbits. destruct (decide (q = name)) as [->|Hq]; [|by rewrite lookup_insert_ne by congruence].
      rewrite lookup_insert_eq. cbn. rewrite lookup_empty. destruct (snatPods s !! name); [by destruct Hb; eexists|done]. }
    constructor; cbn [snatPods set_pods snatPolicyCache snatPolicyLabels]; [|intros q v; rewrite Hp; apply H2|exact H3|exact H4].
    intros v r q Hl. rewrite Hp. exact (H1 v r q Hl). }
  destruct H0 as [H0 [[Ec _] El]].
  destruct (apply_pods_ok res name (u :: uids) s0 H0 Hr) as (H1&Ec1&El1&_); [by rewrite Ec|].
  assert (Hst : step_ok s (foldl (apply_to_pod res name) s0 (u :: uids))).
  { split_and!; [done|congruence|]. by rewrite El1, El. }
  destruct (negb _).
  - apply runs_ret. eapply step_ok_trans; [exact Hst|]. by apply emit_ok.
  - eapply runs_lift; [exact Hst|]. apply updateEpFiles_runs; [done|]. by rewrite Ec1, Ec.
Qed.

End Ops.

(** *** Labels *)

Lemma labels_ok s m :
  hsn_ok s → dom (snatPolicyLabels s) ⊆ dom m → (∀ key l p res, m !! key = Some l → l !! p = Some res → mask res) → step_ok s (set_plabels m s).
Proof. intros [H1 H2 H3 H4] Hd Hm. split_and!; [|done|done]. constructor; cbn [snatPods snatPolicyCache snatPolicyLabels set_plabels]; done. Qed.

Lemma WriteSnatPolicyLabel_runs key policy res s :
  hsn_ok s → mask res → key ∈ dom (snatPolicyLabels s) → runs id s (WriteSnatPolicyLabel key policy res s).
Proof.
  intros Hs Hm Hk. unfold WriteSnatPolicyLabel. apply elem_of_dom in Hk as [m E]. rewrite E. apply runs_ret, labels_ok; [done|cbn; set_solver|].
  intros k l p r E1 E2. destruct (decide (k = key)) as [->|Hne].
  - rewrite lookup_insert_eq in E1. injection E1 as <-. destruct (decide (p = policy)) as [->|Hp].
    + rewrite lookup_insert_eq in E2. by injection E2 as <-.
    + rewrite lookup_insert_ne in E2 by congruence. by eapply ok_labels.
  - rewrite lookup_insert_ne in E1 by congruence. by eapply ok_labels.
Qed.

Lemma write_if_present_runs key policy res s : hsn_ok s → mask res → runs id s (write_if_present key policy res s).
Proof.
  intros Hs Hm. unfold write_if_present. case_bool_decide as Hb; [|by apply runs_ret, step_ok_refl].
  apply WriteSnatPolicyLabel_runs; [done|done|]. by apply elem_of_dom.
Qed.

Lemma new_label_ok key s : hsn_ok s → step_ok s (WriteNewSnatPolicyLabel key s).
Proof.
  intros Hs. apply labels_ok; [done|set_solver|]. intros k l p r E1 E2. destruct (decide (k = key)) as [->|Hne].
  - rewrite lookup_insert_eq in E1. injection E1 as <-. by rewrite lookup_empty in E2.
  - rewrite lookup_insert_ne in E1 by congruence. by eapply ok_labels.
Qed.

Lemma delete_entry_ok key policy s : hsn_ok s → step_ok s (DeleteSnatPolicyLabelEntry key policy s).
Proof.
  intros Hs. apply labels_ok; [done|by rewrite dom_alter_L|]. intros k l p r E1 E2. destruct (decide (k = key)) as [->|Hne].
  - rewrite lookup_alter_eq in E1. destruct (snatPolicyLabels s !! key) as [m|] eqn:E; [|discriminate E1]. injection E1 as <-.
    apply lookup_delete_Some in E2 as [_ E2]. by eapply ok_labels.
  - rewrite lookup_alter_ne in E1 by congruence. by eapply ok_labels.
Qed.

Lemma delete_labels_hsn m s :
  hsn_ok s → (∀ k l p r, m !! k = Some l → l !! p = Some r → ∃ l', snatPolicyLabels s !! k = Some l' ∧ l' !! p = Some r) → hsn_ok (set_plabels m s).
Proof.
  intros [H1 H2 H3 H4] Hm. constructor; cbn [snatPods snatPolicyCache snatPolicyLabels set_plabels]; [done..|].
  intros k l p r E1 E2. destruct (Hm _ _ _ _ E1 E2) as (l'&E&E'). by eapply H4.
Qed.

(** *** Forgetting a pod *)

Lemma forget_ok uid pods' s :
  (∀ q u, podbits pods' q u = podbits (snatPods s) q u ∨ (u = uid ∧ podbits pods' q u = 0%Z)) → hsn_ok s →
  hsn_ok (set_pods pods' (set_locals (delete uid (opflexSnatLocalInfos s)) s)).
Proof.
  intros Hp [H1 H2 H3 H4]. set (s' := set_pods _ _).
  assert (Hl : ∀ u r q, listed s' u r q → u ≠ uid ∧ listed s u r q).
  { intros u r q (li&l&E&El&Hq). cbn in E. apply lookup_delete_Some in E as [Hne E]. split; [congruence|]. by exists li, l. }
  constructor; cbn [snatPods set_pods snatPolicyCache snatPolicyLabels set_locals s'].
  - intros u r q Hx. apply Hl in Hx as [Hne Hx]. destruct (Hp q u) as [->|[? _]]; [eauto|done].
  - intros q u. destruct (Hp q u) as [->|[_ ->]]; [apply H2|apply mask_0].
  - intros u r q Hx. apply Hl in Hx as [_ Hx]. eauto.
  - done.
Qed.

Lemma entry_bits name uid pods q u :
  podbits (alter (delete uid) name pods) q u = podbits pods q u ∨ (u = uid ∧ podbits (alter (delete uid) name pods) q u = 0%Z).
Proof.
  unfold podbits. destruct (decide (q = name)) as [->|Hq]; [|left; by rewrite lookup_alter_ne by congruence].
  rewrite lookup_alter_eq. destruct (pods !! name) as [v|]; [|by left]. cbn. destruct (decide (u = uid)) as [->|Hu].
  - right. by rewrite lookup_delete_eq.
  - left. by rewrite lookup_delete_ne by congruence.
Qed.

(** ** The handlers *)

Section Handlers.
Context (pdqsort : (string → string → option bool) → list string → option (list string)).
Context (cfg : HostCfg) (env : SnatEnv).
Hypothesis Hsort : sorts pdqsort.

Lemma elem_if (b : bool) (r0 r : Z) : r ∈ (if b then [r0] else []) → r = r0.
Proof. destruct b; [by intros ?%list_elem_of_singleton|by intros ?%not_elem_of_nil]. Qed.

Ltac is_res := match goal with |- resource _ => unfold resource, resources; subst; rewrite !elem_of_cons; tauto end.

Lemma match_item_resource obj ns label item r : obj_meta obj ≠ None → r ∈ match_item env obj ns label item → resource r.
Proof.
  intros Ho. unfold match_item. destruct (cluster_policy item); [intros ->%list_elem_of_singleton; is_res|].
  destruct (_ && _).
  { destruct obj; destruct (_ =? 0)%nat; try (intros H; by apply not_elem_of_nil in H); intros ->%list_elem_of_singleton; is_res. }
  destruct (_ || _); [|by intros ?%not_elem_of_nil]. rewrite elem_of_app. intros [H%elem_if|H].
  { destruct obj; cbn in H; [..|done]; is_res. }
  assert (Hs : ∀ l, r ∈ through_service env item ns l → resource r) by (intros l H'%elem_if; is_res).
  assert (Hn : r ∈ through_namespace env item ns → resource r).
  { unfold through_namespace. destruct (_ !! ns); [intros H'%elem_if; is_res|by intros ?%not_elem_of_nil]. }
  destruct obj as [p|d|sv|n|]; [| |by apply not_elem_of_nil in H..]; (destruct (_ =? 0)%nat; [by apply (Hs label)|]);
    apply elem_of_app in H as [H|H]; auto.
  - unfold through_deployments in H. apply list_elem_of_omap in H as (k&_&H). destruct (_ !! k) as [d|]; [|done]. cbn in H.
    destruct (MatchLabels _ _); [|done]. injection H as <-. is_res.
  - unfold through_pods in H. destruct (dep_Selector d) as [sel|]; [|by apply not_elem_of_nil in H].
    destruct (LabelSelectorAsSelector (Some sel)); [|by apply not_elem_of_nil in H]. apply elem_if in H. is_res.
Qed.

Lemma matching_ok cache obj name rs :
  getMatchingSnatPolicy env cache obj !! name = Some rs → is_Some (cache !! name) ∧ Forall resource rs.
Proof.
  unfold getMatchingSnatPolicy. destruct (obj_meta obj) as [[[ns u] label]|] eqn:Eo; [|by rewrite lookup_empty].
  rewrite lookup_omap. destruct (cache !! name) as [item|]; [|done]. cbn. intros H. split; [by eexists|].
  apply Forall_forall. intros r Hr. apply (match_item_resource obj ns label item); [by rewrite Eo|].
  destruct (match_item env obj ns label item); [done|]. by injection H as <-.
Qed.

Definition matched (cache : gmap string HSnatPolicy) (l : list (string * list Z)) : Prop :=
  Forall (λ nr : string * list Z, is_Some (cache !! nr.1) ∧ Forall resource nr.2) l.

Lemma matched_list cache obj : matched cache (map_to_list (getMatchingSnatPolicy env cache obj)).
Proof. apply Forall_forall. intros [name rs] H. apply elem_of_map_to_list in H. by apply matching_ok in H. Qed.

Lemma apply_resources_runs label obj key name rs s sync :
  hsn_ok s → dests_ok (snatPolicyCache s) → is_Some (snatPolicyCache s !! name) → Forall resource rs → key ∈ dom (snatPolicyLabels s) →
  runs fst s (apply_resources pdqsort cfg env label obj key name rs s sync).
Proof.
  intros Hs Hd Hc Hr Hk. revert s sync Hs Hd Hc Hk. induction Hr as [|r rs Hr _ IH]; intros s sync Hs Hd Hc Hk; cbn [apply_resources].
  { by apply runs_ret, step_ok_refl. }
  destruct (getPodsMatchingObject cfg env (snatPolicyCache s) obj name) as [uids z].
  eapply (runs_bind id); [by apply applyPolicy_runs|]. intros s1 (H1&E1&D1). unfold id in *.
  eapply (runs_bind id).
  { destruct label; [|by apply runs_ret, step_ok_refl]. apply WriteSnatPolicyLabel_runs; [done|by apply resource_mask|by apply D1]. }
  intros s2 (H2&E2&D2). unfold id in *. apply IH; [done|..]; rewrite ?E2, ?E1; [done|done|]. by apply D2, D1.
Qed.

Lemma apply_matching_runs obj key l s sync :
  hsn_ok s → dests_ok (snatPolicyCache s) → matched (snatPolicyCache s) l → key ∈ dom (snatPolicyLabels s) →
  runs fst s (apply_matching pdqsort cfg env obj key l s sync).
Proof.
  revert s sync. induction l as [|[name rs] l IH]; intros s sync Hs Hd Hm Hk; cbn [apply_matching]; [by apply runs_ret, step_ok_refl|].
  apply Forall_cons in Hm as [[[pol Ep] Hr] Hm]. cbn in Ep, Hr. rewrite Ep. cbn [mbind option_bind].
  eapply (runs_bind fst); [apply apply_resources_runs; try done; by rewrite Ep|]. intros [s1 b] (H1&E1&D1). cbn [fst] in *.
  apply IH; [done|by rewrite E1|by rewrite E1|by apply D1].
Qed.

Lemma apply_new_runs obj key seen l s sync :
  hsn_ok s → dests_ok (snatPolicyCache s) → matched (snatPolicyCache s) l → key ∈ dom (snatPolicyLabels s) →
  runs fst s (apply_new pdqsort cfg env obj key seen l s sync).
Proof.
  revert s sync. induction l as [|[name rs] l IH]; intros s sync Hs Hd Hm Hk; cbn [apply_new]; [by apply runs_ret, step_ok_refl|].
  apply Forall_cons in Hm as [[Hc Hr] Hm]. cbn in Hc, Hr. case_bool_decide; [by apply IH|].
  eapply (runs_bind fst); [by apply apply_resources_runs|]. intros [s1 b] (H1&E1&D1). cbn [fst] in *.
  apply IH; [done|by rewrite E1|by rewrite E1|by apply D1].
Qed.

Lemma delete_pods_ok res name uids s : mask res → hsn_ok s → step_ok s (foldl (λ s uid, deleteSnatLocalInfo uid res name s) s uids).
Proof.
  intros Hm. revert s. induction uids as [|u uids IH]; intros s Hs; cbn [foldl]; [by apply step_ok_refl|].
  eapply step_ok_trans; [|apply IH; by apply deleteSnatLocalInfo_ok].
  destruct (deleteSnatLocalInfo_spec u res name s) as (_&_&[Hc _]&Hl). split_and!; [by apply deleteSnatLocalInfo_ok|done|by rewrite Hl].
Qed.

Lemma check_labelled_ok obj key names l s dl seen :
  hsn_ok s → Forall (λ nr : string * Z, mask nr.2) l → step_ok s (foldl (check_labelled cfg env obj key names) (s, dl, seen) l).1.1.
Proof.
  intros Hs Hm. revert s dl seen Hs. induction Hm as [|[name res] l Hr _ IH]; intros s dl seen Hs; cbn [foldl]; [by apply step_ok_refl|].
  unfold check_labelled at 2. destruct (getPodsMatchingObject _ _ _ _ _) as [uids z]. destruct (names !! name).
  - destruct (isPresentInOpflexSnatLocalInfos _ _ _ _); by apply IH.
  - pose proof (delete_pods_ok res name uids s Hr Hs) as H1. set (s1 := foldl _ s uids) in *.
    pose proof (delete_entry_ok key name s1 (proj1 H1)) as H2. eapply step_ok_trans; [exact H1|]. eapply step_ok_trans; [exact H2|]. apply IH, H2.
Qed.

(** *** An object is gone *)

Lemma delete_resources_ok uid name rs s : Forall resource rs → hsn_ok s → step_ok s (foldl (λ s res, deleteSnatLocalInfo uid res name s) s rs).
Proof.
  intros Hr. revert s. induction Hr as [|r rs Hr _ IH]; intros s Hs; cbn [foldl]; [by apply step_ok_refl|].
  eapply step_ok_trans; [|apply IH; apply deleteSnatLocalInfo_ok; [by apply resource_mask|done]].
  apply (delete_pods_ok r name [uid] s); [by apply resource_mask|done].
Qed.

Lemma forget_entry_ok name uid s : hsn_ok s → step_ok s (delete_pod_entry name uid (set_locals (delete uid (opflexSnatLocalInfos s)) s)).
Proof. intros Hs. split_and!; [|done|done]. apply (forget_ok uid (alter (delete uid) name (snatPods s)) s); [|done]. intros q u. apply entry_bits. Qed.

Lemma forget_policy_ok obj l s dl :
  hsn_ok s → Forall (λ nr : string * list Z, Forall resource nr.2) l → step_ok s (foldl (forget_policy cfg env obj) (s, dl) l).1.
Proof.
  intros Hs Hm. revert s dl Hs. induction Hm as [|[name rs] l Hr _ IH]; intros s dl Hs; cbn [foldl]; [by apply step_ok_refl|].
  unfold forget_policy at 2. destruct (getPodsMatchingObject _ _ _ _ _) as [uids z]. set (f := λ s uid, _).
  assert (Hf : ∀ s, hsn_ok s → step_ok s (foldl f s uids)).
  { clear dl z Hs s. induction uids as [|u uids IHu]; intros s Hs; cbn [foldl]; [by apply step_ok_refl|].
    assert (H1 : step_ok s (f s u)) by (unfold f; destruct obj; [apply forget_entry_ok|apply forget_entry_ok|apply delete_resources_ok|apply forget_entry_ok|apply forget_entry_ok]; done).
    eapply step_ok_trans; [exact H1|]. apply IHu, H1. }
  eapply step_ok_trans; [by apply Hf|]. apply IH, Hf, Hs.
Qed.

Lemma forget_pod_ok uid s : hsn_ok s → step_ok s (forget_pod uid s).1.
Proof.
  intros Hs. unfold forget_pod. destruct (_ !! uid) as [li|]; [|by apply step_ok_refl]. cbn [fst]. set (names := concat _).
  assert (H : ∃ pods', foldl (λ s name, delete_pod_entry name uid s) s names = set_pods pods' s ∧
    ∀ q u, podbits pods' q u = podbits (snatPods s) q u ∨ (u = uid ∧ podbits pods' q u = 0%Z)).
  { generalize names. clear li names. intros names.
    assert (G : ∀ names pods, (∀ q u, podbits pods q u = podbits (snatPods s) q u ∨ (u = uid ∧ podbits pods q u = 0%Z)) →
      ∃ pods', foldl (λ s name, delete_pod_entry name uid s) (set_pods pods s) names = set_pods pods' s ∧
        ∀ q u, podbits pods' q u = podbits (snatPods s) q u ∨ (u = uid ∧ podbits pods' q u = 0%Z)).
    { clear names. induction names as [|n names IH]; intros pods Hp; cbn [foldl]; [by exists pods|]. apply (IH (alter (delete uid) n pods)).
      intros q u. destruct (entry_bits n uid pods q u) as [->|?]; [apply Hp|by right]. }
    destruct (G names (snatPods s)) as (pods'&E&Hp); [by left|]. exists pods'. split; [|done]. rewrite <- E. by destruct s. }
  destruct H as (pods'&E&Hp). rewrite E. cbn [opflexSnatLocalInfos set_pods].
  change (step_ok s (set_pods pods' (set_locals (delete uid (opflexSnatLocalInfos s)) s))). split_and!; [|done|done]. by apply forget_ok.
Qed.

(** A handler that returns, without a change of the policies. *)
Definition returns (s : HSnat) (m : option HSnat) : Prop := ∃ s', m = Some s' ∧ hsn_ok s' ∧ snatPolicyCache s' = snatPolicyCache s.

Lemma runs_returns s m : runs id s m → returns s m.
Proof. intros (a&E&H&Hc&_). by exists a. Qed.

Lemma returns_ret s s' : hsn_ok s' → snatPolicyCache s' = snatPolicyCache s → returns s (Some s').
Proof. by exists s'. Qed.

Lemma handleObjectDeleteForSnat_returns obj s :
  hsn_ok s → dests_ok (snatPolicyCache s) → returns s (handleObjectDeleteForSnat pdqsort cfg env obj s).
Proof.
  intros Hs Hd. unfold handleObjectDeleteForSnat. destruct (MetaNamespaceUIDFunc obj) as [key|]; [|by apply returns_ret].
  set (l := map_to_list _). destruct (foldl (forget_policy cfg env obj) (s, []) l) as [s1 dl] eqn:E1.
  assert (H1 : step_ok s s1).
  { change s1 with (s1, dl).1. rewrite <- E1. apply forget_policy_ok; [done|]. eapply Forall_impl; [apply matched_list|]. by intros nr [_ ?]. }
  destruct H1 as (H1&C1&_). set (s2 := DeleteSnatPolicyLabel key s1).
  assert (H2 : hsn_ok s2).
  { apply delete_labels_hsn; [done|]. intros k l' p r E E'. apply lookup_delete_Some in E as [_ E]. by exists l'. }
  assert (H3 : ∃ s3 b, match obj with ObjPod p => forget_pod (po_UID p) s2 | _ => (s2, false) end = (s3, b) ∧ hsn_ok s3 ∧ snatPolicyCache s3 = snatPolicyCache s).
  { destruct obj as [p| | | |]; [|by exists s2, false..]. destruct (forget_pod (po_UID p) s2) as [s3 b] eqn:E3. exists s3, b.
    pose proof (forget_pod_ok (po_UID p) s2 H2) as (H3&C3&_). rewrite E3 in H3, C3. cbn [fst] in *. split_and!; [done..|]. by rewrite C3. }
  destruct H3 as (s3&b&->&H3&C3). destruct (_ || b); [|by apply returns_ret].
  destruct (emit_ok [SyncNodeInfo] s3 H3) as (H4&C4&_).
  assert (H5 : returns (hsn_emit [SyncNodeInfo] s3) (updateEpFiles pdqsort cfg dl (hsn_emit [SyncNodeInfo] s3))).
  { apply runs_returns, updateEpFiles_runs; [done..|]. by rewrite C4, C3. }
  assert (H6 : returns (hsn_emit [SyncNodeInfo] s3) (Some (hsn_emit [SyncEps; SyncLocalInfo] (hsn_emit [SyncNodeInfo] s3)))).
  { destruct (emit_ok [SyncEps; SyncLocalInfo] _ H4) as (H5'&C5&_). by apply returns_ret. }
  destruct obj; [destruct H6 as (s'&E&H&C)|destruct H6 as (s'&E&H&C)|destruct H5 as (s'&E&H&C)|destruct H6 as (s'&E&H&C)|destruct H6 as (s'&E&H&C)];
    exists s'; (split_and!; [exact E|exact H|rewrite C; exact C3]).
Qed.

Lemma labels_masks s key : hsn_ok s → Forall (λ nr : string * Z, mask nr.2) (map_to_list (default ∅ (snatPolicyLabels s !! key))).
Proof.
  intros Hs. apply Forall_forall. intros [p r] H. apply elem_of_map_to_list in H. destruct (snatPolicyLabels s !! key) as [m|] eqn:E.
  - by eapply ok_labels.
  - cbn in H. by rewrite lookup_empty in H.
Qed.

Lemma handleObjectUpdateForSnat_returns obj s :
  hsn_ok s → dests_ok (snatPolicyCache s) → returns s (handleObjectUpdateForSnat pdqsort cfg env obj s).
Proof.
  intros Hs Hd. unfold handleObjectUpdateForSnat. destruct (succeeded obj); [by apply handleObjectDeleteForSnat_returns|].
  destruct (MetaNamespaceUIDFunc obj) as [key|]; [|by apply returns_ret].
  set (s1 := match snatPolicyLabels s !! key with Some _ => s | None => WriteNewSnatPolicyLabel key s end).
  assert (H1 : step_ok s s1 ∧ key ∈ dom (snatPolicyLabels s1)).
  { unfold s1. destruct (snatPolicyLabels s !! key) eqn:E; [split; [by apply step_ok_refl|by eapply elem_of_dom_2]|].
    split; [by apply new_label_ok|]. cbn. set_solver. }
  destruct H1 as ((H1&C1&D1)&Hk). apply runs_returns.
  assert (Hst : step_ok s s1) by done.
  pose proof (labels_masks s key Hs) as Hm. set (names := map_to_list (default ∅ (snatPolicyLabels s !! key))) in *.
  pose proof (matched_list (snatPolicyCache s1) obj) as Hl.
  eapply runs_lift; [exact Hst|]. eapply (runs_bind fst).
  - destruct names as [|n names]; [apply apply_matching_runs; try done; by rewrite C1|].
    pose proof (check_labelled_ok obj key (getMatchingSnatPolicy env (snatPolicyCache s1) obj) (n :: names) s1 [] ∅ H1 Hm) as H2.
    destruct (foldl _ (s1, [], ∅) (n :: names)) as [[s2 dl] seen]. cbn [fst] in H2.
    eapply runs_lift; [exact H2|]. destruct H2 as (H2&C2&D2).
    assert (Hd2 : dests_ok (snatPolicyCache s2)) by by rewrite C2, C1.
    eapply (runs_bind id).
    + destruct dl; [by apply runs_ret, step_ok_refl|]. by apply updateEpFiles_runs.
    + intros s3 (H3&C3&D3). unfold id in *. apply apply_new_runs; [done|..]; rewrite ?C3; [done|by rewrite C2|by apply D3, D2].
  - intros [s4 b] (H4&_). cbn [fst] in *. apply runs_ret. destruct b; [by apply emit_ok|by apply step_ok_refl].
Qed.

(** *** Policies *)

Lemma pods_matching_mask cache obj name : mask (getPodsMatchingObject cfg env cache obj name).2.
Proof.
  unfold getPodsMatchingObject. destruct (obj_meta obj) as [[[? ?] ?]|]; [|apply mask_0]. destruct (isPolicyNameSpaceMatches _ _ _); [|apply mask_0].
  destruct obj; cbn; unfold mask; vm_compute; split; congruence.
Qed.

Lemma label_all_runs objs name s acc : hsn_ok s → runs fst s (label_all cfg env objs name s acc).
Proof.
  revert s acc. induction objs as [|obj objs IH]; intros s acc Hs; cbn [label_all]; [by apply runs_ret, step_ok_refl|].
  eapply (runs_bind fst); [|intros [s1 u] (H1&_); cbn [fst] in *; by apply IH].
  unfold updateSnatPolicyLabels. pose proof (pods_matching_mask (snatPolicyCache s) obj name) as Hm.
  destruct (getPodsMatchingObject _ _ _ _ _) as [uids res]. cbn [snd] in Hm.
  destruct uids as [|u uids]; [by apply runs_ret, step_ok_refl|]. destruct (MetaNamespaceUIDFunc obj); [|by apply runs_ret, step_ok_refl].
  eapply (runs_bind id); [by apply write_if_present_runs|]. intros s1 (H1&_). unfold id in *. by apply runs_ret, step_ok_refl.
Qed.

Lemma service_uids_runs policy l s acc : hsn_ok s → runs fst s (service_uids cfg env policy l s acc).
Proof.
  revert s acc. induction l as [|sv l IH]; intros s acc Hs; cbn [service_uids]; [by apply runs_ret, step_ok_refl|].
  destruct (getPodsMatchingObject _ _ _ _ _) as [uids res]. eapply (runs_bind id); [|intros s1 (H1&_); unfold id in *; by apply IH].
  destruct (MetaNamespaceUIDFunc _); [|by apply runs_ret, step_ok_refl]. case_bool_decide; [by apply runs_ret, step_ok_refl|].
  apply write_if_present_runs; [done|]. by apply resource_mask; is_res.
Qed.

(** The targets of a policy are by resource. *)
Lemma policy_targets_runs policy s :
  hsn_ok s → ∃ s' t, policy_targets cfg env policy s = Some (s', t) ∧ step_ok s s' ∧ Forall (λ rt : Z * list string, resource rt.1) t.
Proof.
  intros Hs. unfold policy_targets. destruct (pol_SnatIp policy).
  - destruct (service_uids_runs policy (List.filter (λ sv, Selector_Matches (SelectorFromSet (pol_labels policy)) (ss_Labels sv)) (map_to_list (sn_services env)).*2) s []
      Hs) as ([s1 u]&->&H1). cbn. eexists _, _. split_and!; [done..|]. apply Forall_singleton. is_res.
  - destruct (cluster_policy policy); [eexists _, _; split_and!; [done|by apply step_ok_refl|apply Forall_singleton; is_res]|].
    case_bool_decide; [eexists _, _; split_and!; [done|by apply step_ok_refl|apply Forall_singleton; is_res]|].
    assert (HG : runs fst s (getPodUidsMatchingLabel cfg env (pol_labels policy) (pol_Name policy) s)).
    { unfold getPodUidsMatchingLabel. eapply (runs_bind fst); [by apply label_all_runs|]. intros [s1 u1] (H1&_). cbn [fst] in *.
      eapply (runs_bind fst); [by apply label_all_runs|]. intros [s2 u2] (H2&_). cbn [fst] in *.
      eapply (runs_bind fst); [by apply label_all_runs|]. intros [s3 u3] (H3&_). cbn [fst] in *. by apply runs_ret, step_ok_refl. }
    destruct HG as ([s1 [[u1 u2] u3]]&->&H1). cbn. eexists _, _. split_and!; [done..|]. repeat apply Forall_cons_2; [is_res..|]. apply Forall_nil_2.
Qed.

Lemma apply_targets_runs name t s :
  hsn_ok s → dests_ok (snatPolicyCache s) → is_Some (snatPolicyCache s !! name) → Forall (λ rt : Z * list string, resource rt.1) t →
  runs id s (apply_targets pdqsort cfg env name t s).
Proof.
  intros Hs Hd Hc Ht. revert s Hs Hd Hc. induction Ht as [|[r u] t Hr _ IH]; intros s Hs Hd Hc; cbn [apply_targets]; [by apply runs_ret, step_ok_refl|].
  eapply (runs_bind id); [by apply applyPolicy_runs|]. intros s1 (H1&C1&_). unfold id in *. apply IH; [done|..]; by rewrite C1.
Qed.

Lemma handleSnatUpdate_runs policy s :
  hsn_ok s → dests_ok (snatPolicyCache s) → is_Some (snatPolicyCache s !! pol_Name policy) → runs id s (handleSnatUpdate pdqsort cfg env policy s).
Proof.
  intros Hs Hd Hc. unfold handleSnatUpdate. destruct (policy_targets_runs policy s Hs) as (s1&t&->&H1&Ht). cbn [mbind option_bind].
  eapply runs_lift; [exact H1|]. destruct H1 as (H1&C1&_). apply apply_targets_runs; by rewrite ?C1.
Qed.

Definition good (s : HSnat) : Prop := hsn_ok s ∧ dests_ok (snatPolicyCache s).

(** A handler of policies that returns. *)
Definition good_result (m : option HSnat) : Prop := ∃ s', m = Some s' ∧ good s'.

Lemma runs_good s m : dests_ok (snatPolicyCache s) → runs id s m → good_result m.
Proof. intros Hd (a&E&H&Hc&_). exists a. split; [done|]. split; [done|]. unfold id in *. by rewrite Hc. Qed.

Lemma returns_good s m : dests_ok (snatPolicyCache s) → returns s m → good_result m.
Proof. intros Hd (a&E&H&Hc). exists a. split; [done|]. split; [done|]. by rewrite Hc. Qed.

Lemma setDestIp_total d : Forall dest_ok d → ∃ d', setDestIp pdqsort d = Some d' ∧ d' ≡ₚ d.
Proof.
  intros Hd. unfold setDestIp. destruct d as [|a d]; [by exists []|]. apply sort_Slice_total; [done|].
  intros x y Hx _. apply less_dest_total. rewrite Forall_forall in Hd. by apply Hd.
Qed.

Lemma cache_policy_total policy s :
  good s → Forall dest_ok (pol_DestIp policy) →
  ∃ d s', cache_policy pdqsort policy s = Some (with_dest policy d, s') ∧ d ≡ₚ pol_DestIp policy ∧ good s' ∧
    snatPolicyCache s' = <[pol_Name policy := with_dest policy d]> (snatPolicyCache s) ∧
    opflexSnatLocalInfos s' = opflexSnatLocalInfos s ∧ snatPods s' = snatPods s.
Proof.
  intros [[H1 H2 H3 H4] Hd] Hp. unfold cache_policy. destruct (setDestIp_total _ Hp) as (d&->&Hperm). cbn [mbind option_bind].
  eexists d, _. split; [done|]. split; [done|]. split; [|done]. split.
  - constructor; cbn [snatPods set_cache snatPolicyCache snatPolicyLabels]; [exact H1|exact H2| |exact H4]. intros u r q Hl.
    change (listed s u r q) in Hl. apply H3 in Hl. destruct (decide (q = pol_Name policy)) as [->|Hne].
    + cbn. rewrite lookup_insert_eq. by eexists.
    + cbn. by rewrite lookup_insert_ne by congruence.
  - intros name p E. cbn in E. destruct (decide (name = pol_Name policy)) as [->|Hne].
    + rewrite lookup_insert_eq in E. injection E as <-. cbn. by rewrite Hperm.
    + rewrite lookup_insert_ne in E by congruence. by eapply Hd.
Qed.

Lemma snatPolicyAdded_good policy s : good s → Forall dest_ok (pol_DestIp policy) → good_result (snatPolicyAdded pdqsort cfg env policy s).
Proof.
  intros Hg Hp. unfold snatPolicyAdded. destruct (negb _); [by exists s|].
  destruct (cache_policy_total policy s Hg Hp) as (d&s1&->&_&[G1 D1]&C1&_). cbn [mbind option_bind]. apply (runs_good s1); [done|].
  apply handleSnatUpdate_runs; [done..|]. rewrite C1. cbn. rewrite lookup_insert_eq. by eexists.
Qed.

Lemma policy_pods_mask name s : hsn_ok s → Forall (λ ur : string * Z, mask ur.2) (policy_pods name s).
Proof.
  intros Hs. apply Forall_forall. intros [u r] H. apply elem_of_map_to_list in H. destruct Hs as [_ H2 _ _]. specialize (H2 name u).
  unfold podbits in H2. destruct (snatPods s !! name) as [v|]; [|cbn in H; by rewrite lookup_empty in H]. cbn in H, H2. by rewrite H in H2.
Qed.

Lemma remove_pods_ok name l s : hsn_ok s → Forall (λ ur : string * Z, mask ur.2) l → step_ok s (remove_pods name l s).
Proof.
  intros Hs Hl. unfold remove_pods. revert s Hs. induction Hl as [|[u r] l Hr _ IH]; intros s Hs; cbn [foldl]; [by apply step_ok_refl|].
  pose proof (delete_pods_ok r name [u] s Hr Hs) as H1. cbn [foldl] in H1. eapply step_ok_trans; [exact H1|]. apply IH, H1.
Qed.

Lemma snatPolicyUpdated_good old new s : good s → Forall dest_ok (pol_DestIp new) → good_result (snatPolicyUpdated pdqsort cfg env old new s).
Proof.
  intros Hg Hp. unfold snatPolicyUpdated. case_bool_decide; [by exists s|]. destruct (negb _); [by exists s|].
  destruct (cache_policy_total new s Hg Hp) as (d&s1&->&_&[G1 D1]&C1&_). cbn [mbind option_bind].
  assert (Hc : is_Some (snatPolicyCache s1 !! pol_Name (with_dest new d))) by (rewrite C1; cbn; rewrite lookup_insert_eq; by eexists).
  apply (runs_good s1); [done|]. destruct (negb _); [by apply handleSnatUpdate_runs|]. destruct (negb _).
  - pose proof (policy_pods_mask (pol_Name (with_dest new d)) s1 G1) as Hm. set (pods := policy_pods _ s1) in *.
    pose proof (remove_pods_ok (pol_Name (with_dest new d)) pods s1 G1 Hm) as H2. eapply runs_lift; [exact H2|]. destruct H2 as (H2&C2&_).
    eapply (runs_bind id); [apply updateEpFiles_runs; [done..|by rewrite C2]|]. intros s3 (H3&C3&_). unfold id in *.
    eapply (runs_bind id); [apply handleSnatUpdate_runs; [done..| |]; by rewrite C3, C2|]. intros s4 (H4&C4&_). unfold id in *.
    destruct (_ && _); [by apply runs_ret, emit_ok|]. apply updateEpFiles_runs; [done..|]. by rewrite C4, C3, C2.
  - destruct (negb _); [|by apply runs_ret, step_ok_refl]. eapply (runs_bind id); [by apply updateEpFiles_runs|].
    intros s2 (H2&_). unfold id in *. by apply runs_ret, emit_ok.
Qed.

(** *** A policy is deleted *)

(** Removing a policy from all pods that have its bits leaves none that lists
    it. *)
Lemma remove_pods_listed name l s :
  let s' := remove_pods name l s in
  (∀ u r q, listed s' u r q ↔ listed s u r q ∧ ¬ (q = name ∧ ∃ b, (u, b) ∈ l ∧ hit b r = true)) ∧ same_all s s'.
Proof.
  cbv zeta. unfold remove_pods. revert s. induction l as [|[v b] l IH]; intros s; cbn [foldl].
  { split; [|done]. intros u r q. split; [|tauto]. intros H. split; [done|]. intros (_&b&Hb&_). by apply not_elem_of_nil in Hb. }
  cbn [fst snd]. destruct (deleteSnatLocalInfo_spec v b name s) as (HL&_&HS). destruct (IH (deleteSnatLocalInfo v b name s)) as (HI&HS').
  split; [|by etrans]. intros u r q. rewrite HI, HL. split.
  - intros [[Hl Hn1] Hn2]. split; [done|]. intros (Hq&b'&Hin&Hh). apply elem_of_cons in Hin as [Heq|Hin].
    + injection Heq as Hu Hb. apply Hn1. subst. tauto.
    + apply Hn2. split; [done|]. by exists b'.
  - intros [Hl Hn]. split; [split; [done|]|].
    + intros (Hu&Hq&Hh). apply Hn. split; [done|]. exists b. subst. split; [left|done].
    + intros (Hq&b'&Hin&Hh). apply Hn. split; [done|]. exists b'. split; [by right|done].
Qed.

Lemma remove_all_pods name s : hsn_ok s → ∀ u r, ¬ listed (remove_pods name (policy_pods name s) s) u r name.
Proof.
  intros Hs u r Hl. destruct (remove_pods_listed name (policy_pods name s) s) as [HL _]. apply HL in Hl as [Hl Hn].
  destruct Hs as [H1 H2 _ _]. destruct (H1 _ _ _ Hl) as [Hr Hh]. specialize (H2 name u). unfold podbits in *.
  destruct (snatPods s !! name) as [v|] eqn:Ev; cbn in Hh, H2.
  - destruct (v !! u) as [b|] eqn:Eb; cbn in Hh, H2.
    + apply Hn. split; [done|]. exists b. split; [|by rewrite hit_has]. unfold policy_pods. rewrite Ev. by apply elem_of_map_to_list.
    + exfalso. clear -Hr Hh. unfold resource, resources in Hr. rewrite !elem_of_cons in Hr. destruct_or!; [..|by apply not_elem_of_nil in Hr]; subst; discriminate.
  - exfalso. clear -Hr Hh. unfold resource, resources in Hr. rewrite !elem_of_cons in Hr. destruct_or!; [..|by apply not_elem_of_nil in Hr]; subst; discriminate.
Qed.

(** Nothing of the policy is left. *)
Definition gone (name : string) (s : HSnat) : Prop :=
  snatPolicyCache s !! name = None ∧ snatPods s !! name = None ∧ ∀ u r, ¬ listed s u r name.

Lemma unlisted_without_bits name s : hsn_ok s → snatPods s !! name = None → ∀ u r, ¬ listed s u r name.
Proof.
  intros Hs E u r Hl. apply (remove_all_pods name s Hs u r). unfold policy_pods. rewrite E. exact Hl.
Qed.

Lemma snatPolicyDeleted_gone policy s :
  good s → ∃ s', snatPolicyDeleted pdqsort cfg (Some policy) s = Some s' ∧ good s' ∧ gone (pol_Name policy) s'.
Proof.
  intros [Hs Hd]. set (name := pol_Name policy). unfold snatPolicyDeleted.
  assert (H : ∃ s1, deletePolicy pdqsort cfg policy s = Some s1 ∧ hsn_ok s1 ∧ snatPolicyCache s1 = snatPolicyCache s ∧
    snatPods s1 !! name = None ∧ ∀ u r, ¬ listed s1 u r name).
  { unfold deletePolicy. fold name. destruct (snatPods s !! name) as [v|] eqn:E.
    2:{ exists s. split_and!; [done..|]. by apply unlisted_without_bits. }
    pose proof (remove_all_pods name s Hs) as Hn. destruct (remove_pods_ok name (policy_pods name s) s Hs (policy_pods_mask name s Hs)) as (H1&C1&_).
    set (s1 := remove_pods name _ s) in *. destruct (updateEpFiles_total pdqsort cfg Hsort (policy_pods name s).*1 s1 H1) as (s2&->&H2&(((C2&_)&_)&P2&L2)).
    { by rewrite C1. }
    cbn [mbind option_bind]. eexists. split; [done|]. set (s3 := set_pods (delete name (snatPods s2)) s2).
    assert (Hl3 : ∀ u r q, listed s3 u r q → q ≠ name ∧ listed s2 u r q).
    { intros u r q Hl. change (listed s2 u r q) in Hl. split; [|done]. intros ->. by apply (Hn u r), L2. }
    assert (H3 : hsn_ok s3).
    { destruct H2 as [A1 A2 A3 A4]. assert (Hb : ∀ q u, q ≠ name → podbits (snatPods s3) q u = podbits (snatPods s2) q u).
      { intros q u Hq. unfold podbits. cbn. by rewrite lookup_delete_ne by congruence. }
      constructor; [|..|exact A4].
      - intros u r q Hl. apply Hl3 in Hl as [Hq Hl]. rewrite Hb by done. by apply A1.
      - intros q u. destruct (decide (q = name)) as [->|Hq]; [|rewrite Hb by done; apply A2]. unfold podbits. cbn. rewrite lookup_delete_eq. apply mask_0.
      - intros u r q Hl. apply Hl3 in Hl as [_ Hl]. cbn. by eapply A3. }
    split_and!.
    - apply delete_labels_hsn; [by apply emit_ok|]. intros k l p r E1 E2. cbn in E1. rewrite lookup_fmap in E1.
      change (snatPolicyLabels (hsn_emit [SyncNodeInfo] s3)) with (snatPolicyLabels s2).
      destruct (snatPolicyLabels s2 !! k) as [m|]; [|discriminate E1]. injection E1 as <-. apply lookup_delete_Some in E2 as [_ E2]. by exists m.
    - cbn. by rewrite C2, C1.
    - cbn. apply lookup_delete_eq.
    - intros u r Hl. change (listed s3 u r name) in Hl. by apply Hl3 in Hl as [? _]. }
  destruct H as (s1&->&H1&C1&P1&L1). cbn [mbind option_bind]. eexists. split; [done|]. split; [split|split_and!].
  - destruct H1 as [A1 A2 A3 A4]. constructor; cbn [snatPods snatPolicyCache snatPolicyLabels set_cache]; [exact A1|exact A2| |exact A4].
    intros u r q Hl. change (listed s1 u r q) in Hl. fold name. rewrite lookup_delete_ne; [by eapply A3|]. intros <-. by apply (L1 u r).
  - intros n p E. cbn in E. apply lookup_delete_Some in E as [_ E]. rewrite C1 in E. by eapply Hd.
  - cbn. fold name. apply lookup_delete_eq.
  - exact P1.
  - exact L1.
Qed.
End Handlers.
