(* ===== verification/HostSnatProps.v ===== *)
(** * HostSnatProps: what holds of source NAT on a host

    Runs of the handlers, the identifiers of a pod, the order of destinations
    and the port ranges of the hosts together with the controller; at the end,
    behaviours that do not do what the code means to. *)
From S2P Require Import Prelude GoBytes GoNet GoText IpAlloc IpRangeFacts PodIndex K8s NetPolBlocks Snat SnatFacts SnatSys SnatProps.
From S2P Require Import SvcTypes PodNet OpflexDev SvcGraph HostSvc HostSnat HostSnatFacts.

Open Scope string_scope.

(** ** The port ranges of the nodes *)

Definition ranges_given (cr : gmap string (list GlobalInfo)) : Prop :=
  ∀ n val, cr !! n = Some val → Forall (λ g, PortRanges g ≠ []) val.

Definition host_info (g : GlobalInfo) : GlobalInfo :=
  mkGlobalInfo (MacAddress g) (take 1 (PortRanges g)) (gi_SnatIp g) (SnatIpUid g) (gi_SnatPolicyName g).

Lemma host_infos_total val : Forall (λ g, PortRanges g ≠ []) val → host_infos val = Some (host_info <$> val).
Proof.
  intros H. unfold host_infos. apply mapM_Some. induction H as [|g val Hg _ IH]; [constructor|]. cbn [fmap list_fmap]. constructor; [|done].
  unfold host_info. destruct (PortRanges g); [done|]. done.
Qed.

Lemma merge_infos_total cfg l t sync own :
  NoDup l.*1 → Forall (λ nv : string * list GlobalInfo, Forall (λ g, PortRanges g ≠ []) nv.2) l →
  ∃ t' sync' own', merge_infos cfg l t sync own = Some (t', sync', own') ∧
    (∀ n, t' !! n = match (list_to_map l : gmap string (list GlobalInfo)) !! n with Some val => Some (host_info <$> val) | None => t !! n end).
Proof.
  revert t sync own. induction l as [|[n val] l IH]; intros t sync own Hnd Hl; cbn [merge_infos].
  { eexists _, _, _. split; [done|]. intros n. simpl. by rewrite lookup_empty. }
  apply Forall_cons in Hl as [Hv Hl]. cbn [fmap list_fmap] in Hnd. apply NoDup_cons in Hnd as [Hn Hnd]. cbn in Hv.
  rewrite host_infos_total by done. cbn [mbind option_bind]. assert (Hno : (list_to_map l : gmap string (list GlobalInfo)) !! n = None) by by apply not_elem_of_list_to_map_1.
  case_bool_decide as Hb.
  - destruct (IH t sync own Hnd Hl) as (t'&sy&ow&->&Ht). eexists _, _, _. split; [done|]. intros m. rewrite Ht. cbn [list_to_map foldr uncurry fst snd].
    destruct (decide (m = n)) as [->|Hne]; [by rewrite lookup_insert_eq, Hno|]. by rewrite lookup_insert_ne by congruence.
  - destruct (IH (<[n := host_info <$> val]> t) true (own || String.eqb n (hc_NodeName cfg)) Hnd Hl) as (t'&sy&ow&->&Ht).
    eexists _, _, _. split; [done|]. intros m. rewrite Ht. cbn [list_to_map foldr uncurry fst snd].
    destruct (decide (m = n)) as [->|Hne]; [by rewrite Hno, !lookup_insert_eq|]. by rewrite !lookup_insert_ne by congruence.
Qed.

(** The table after an update: the entries of the resource; entries of nodes
    that it does not have stay unless the resource has fewer nodes than the
    table. *)
Definition table_after (cr old : gmap string (list GlobalInfo)) (n : string) : option (list GlobalInfo) :=
  match cr !! n with
  | Some val => Some (host_info <$> val)
  | None => if (size cr <? size old)%nat then None else old !! n
  end.

Section Globals.
Context (pdqsort : (string → string → option bool) → list string → option (list string)).
Context (cfg : HostCfg) (env : SnatEnv).
Hypothesis Hsort : sorts pdqsort.

Lemma snaGlobalInfoChanged_total cr s :
  good s → ranges_given cr →
  ∃ s', snaGlobalInfoChanged pdqsort cfg env cr s = Some s' ∧ good s' ∧ snatPolicyCache s' = snatPolicyCache s ∧
    ∀ n, opflexSnatGlobalInfos s' !! n = table_after cr (opflexSnatGlobalInfos s) n.
Proof.
  intros [Hs Hd] Hr. unfold snaGlobalInfoChanged. set (old := opflexSnatGlobalInfos s).
  set (kept := if (size cr <? size old)%nat then filter _ old else old).
  destruct (merge_infos_total cfg (map_to_list cr) kept (negb (bool_decide (kept = old))) false) as (t&sy&ow&->&Ht); [apply NoDup_fst_map_to_list| |].
  { apply Forall_forall. intros [n val] H. apply elem_of_map_to_list in H. cbn. by eapply Hr. }
  cbn [mbind option_bind]. rewrite list_to_map_to_list in Ht.
  assert (Ht' : ∀ n, t !! n = table_after cr old n).
  { intros n. rewrite Ht. unfold table_after, kept. destruct (cr !! n) eqn:E; [done|]. destruct (size cr <? size old)%nat; [|done].
    apply map_lookup_filter_None. right. intros x _. cbn. rewrite E. by intros [? ?]. }
  set (s1 := set_services _ (set_globals t s)). set (s2 := if sy then hsn_emit [SyncSnats] s1 else s1).
  assert (H2 : hsn_ok s2 ∧ snatPolicyCache s2 = snatPolicyCache s ∧ opflexSnatGlobalInfos s2 = t).
  { unfold s2. destruct sy; (split_and!; [by eapply hsn_ok_same; [..|exact Hs]|done|done]). }
  destruct H2 as (H2&C2&T2). destruct ow.
  - destruct (updateEpFiles_total pdqsort cfg Hsort (flat_map (λ v, (policy_pods (gi_SnatPolicyName v) s2).*1) (node_infos cfg s2)) s2 H2)
      as (s3&->&H3&(((C3&G3)&_)&_)); [by rewrite C2|].
    exists s3. split; [done|]. split; [split; [done|by rewrite C3, C2]|]. split; [by rewrite C3|]. intros n. by rewrite G3, T2.
  - exists s2. split; [done|]. split; [split; [done|by rewrite C2]|]. split; [done|]. intros n. by rewrite T2.
Qed.
End Globals.

(** ** Runs *)

Inductive hsnat_event :=
  | EvPolicyAdded (env : SnatEnv) (p : HSnatPolicy)
  | EvPolicyUpdated (env : SnatEnv) (old new : HSnatPolicy)
  | EvPolicyDeleted (p : option HSnatPolicy)
  | EvObject (env : SnatEnv) (obj : SnatObj)
  | EvObjectGone (env : SnatEnv) (obj : SnatObj)
  | EvGlobalInfo (env : SnatEnv) (cr : option (gmap string (list GlobalInfo)))
  | EvGlobalInfoGone (cr : gmap string (list GlobalInfo))
  | EvSyncSnat (env : SnatEnv) (enabled : bool)
  | EvSyncNodeInfo (enabled client : bool) (reply : answer (gset string)) (fails : bool)
  | EvPopulate (infos : list PodLocalInfo).

(** The destinations of policies can be read, and every entry for a node has a
    port range. *)
Definition event_ok (e : hsnat_event) : Prop :=
  match e with
  | EvPolicyAdded _ p | EvPolicyUpdated _ _ p => Forall dest_ok (pol_DestIp p)
  | EvGlobalInfo _ (Some cr) => ranges_given cr
  | _ => True
  end.

Section Runs.
Context (pdqsort : (string → string → option bool) → list string → option (list string)).
Context (cfg : HostCfg).

Definition run_event (e : hsnat_event) (s : HSnat) : option HSnat :=
  match e with
  | EvPolicyAdded env p => snatPolicyAdded pdqsort cfg env p s
  | EvPolicyUpdated env old new => snatPolicyUpdated pdqsort cfg env old new s
  | EvPolicyDeleted p => snatPolicyDeleted pdqsort cfg p s
  | EvObject env obj => handleObjectUpdateForSnat pdqsort cfg env obj s
  | EvObjectGone env obj => handleObjectDeleteForSnat pdqsort cfg env obj s
  | EvGlobalInfo env cr => snatGlobalInfoUpdate pdqsort cfg env cr s
  | EvGlobalInfoGone cr => Some (snatGlobalInfoDelete cr s)
  | EvSyncSnat env enabled => Some (syncSnat cfg env enabled s).2
  | EvSyncNodeInfo enabled client reply fails => '(s, _, _) ← syncSnatNodeInfo pdqsort cfg enabled client reply fails s; Some s
  | EvPopulate infos => Some (populateSnatLocalInfos infos s)
  end.

Fixpoint run_events (es : list hsnat_event) (s : HSnat) : option HSnat :=
  match es with
  | [] => Some s
  | e :: es => s ← run_event e s; run_events es s
  end.

Definition hsnat_start (dir : gmap string SnatText) (h : HostState) : HSnat := mkHSnat ∅ ∅ ∅ ∅ ∅ dir h [].

Lemma start_good dir h : good (hsnat_start dir h).
Proof.
  split; [constructor|]; cbn.
  - intros u r p (li&l&E&_). cbn in E. by rewrite lookup_empty in E.
  - intros p u. unfold podbits. rewrite lookup_empty. apply mask_0.
  - intros u r p (li&l&E&_). cbn in E. by rewrite lookup_empty in E.
  - intros k m p r E. by rewrite lookup_empty in E.
  - intros n p E. by rewrite lookup_empty in E.
Qed.

Lemma populate_good infos s : good s → good (populateSnatLocalInfos infos s).
Proof.
  unfold populateSnatLocalInfos. revert s. induction infos as [|i infos IH]; intros s Hs; cbn [foldl]; [done|]. apply IH.
  destruct (String.eqb _ _); [done|]. destruct Hs as [[H1 H2 H3 H4] Hd]. split; [|exact Hd].
  assert (Hl : ∀ u r p, listed (set_locals (<[pli_PodUid i := mkLocalInfo true ∅ []]> (opflexSnatLocalInfos s)) s) u r p → listed s u r p).
  { intros u r p Hx. apply listed_insert in Hx as [[_ (l&E&_)]|[_ Hx]]; [cbn in E; by rewrite lookup_empty in E|done]. }
  constructor; [|exact H2| |exact H4]; intros u r p Hx; apply Hl in Hx; [exact (H1 _ _ _ Hx)|exact (H3 _ _ _ Hx)].
Qed.

Lemma same_good s s' :
  opflexSnatLocalInfos s' = opflexSnatLocalInfos s → snatPods s' = snatPods s → snatPolicyCache s' = snatPolicyCache s →
  snatPolicyLabels s' = snatPolicyLabels s → good s → good s'.
Proof. intros E1 E2 E3 E4 [H Hd]. split; [by eapply hsn_ok_same; [..|exact H]|]. by rewrite E3. Qed.

Hypothesis Hsort : sorts pdqsort.

Lemma run_event_good e s : good s → event_ok e → good_result (run_event e s).
Proof.
  intros Hg He. pose proof Hg as [Hs Hd]. destruct e as [env p|env old new|p|env obj|env obj|env cr|cr|env en|en cl reply fails|infos]; cbn [run_event].
  - by apply snatPolicyAdded_good.
  - by apply snatPolicyUpdated_good.
  - destruct p as [p|]; [|by exists s]. destruct (snatPolicyDeleted_gone pdqsort cfg Hsort p s Hg) as (s'&E&G&_). by exists s'.
  - apply (returns_good s); [done|]. by apply handleObjectUpdateForSnat_returns.
  - apply (returns_good s); [done|]. by apply handleObjectDeleteForSnat_returns.
  - destruct cr as [cr|]; [|by exists s]. destruct (snaGlobalInfoChanged_total pdqsort cfg env Hsort cr s Hg He) as (s'&E&G&_). by exists s'.
  - eexists. split; [done|]. by eapply same_good; [..|exact Hg].
  - eexists. split; [done|]. unfold syncSnat. destruct (negb en); [done|]. destruct (negb _); [done|]. cbv zeta.
    destruct (foldl _ _ _) as [dir seen]. cbn [snd]. by eapply same_good; [..|exact Hg].
  - unfold syncSnatNodeInfo, InformNodeInfo. destruct (negb en); [by exists s|]. destruct (negb cl); [by exists s|].
    destruct reply as [| |old]; [by exists s..|]. case_bool_decide; [|by exists s].
    set (uids := flat_map _ _). destruct (updateEpFiles_total pdqsort cfg Hsort uids s Hs Hd) as (s2&->&H2&(((C2&_)&_)&_)). exists s2. split; [done|]. split; [done|]. by rewrite C2.
  - eexists. split; [done|]. by apply populate_good.
Qed.

Lemma run_events_good es s : good s → Forall event_ok es → good_result (run_events es s).
Proof.
  intros Hg He. revert s Hg. induction He as [|e es He _ IH]; intros s Hg; cbn [run_events]; [by exists s|].
  destruct (run_event_good e s Hg He) as (s1&->&H1). cbn. by apply IH.
Qed.
End Runs.

(** ** An example *)

Definition small_sort (less : string → string → option bool) (l : list string) : option (list string) := insertionSort less [] l.

Lemma small_sorts : sorts small_sort.
Proof. intros less l H. destruct (insertionSort_total less l []) as (r&E&Hr); [done|]. by exists r. Qed.

Definition nat_cfg : HostCfg :=
  mkHostCfg "common" "vrf1" "Kubernetes" "k8s" EmptyString "node1" "bond0" "02:00:00:00:00:09" 4003 [].

Definition nat_host : HostEnv :=
  mkHostEnv (HSlices []) None ∅ ∅ (mkSvcEp EmptyString EmptyString (v4InV6Prefix ++ [10; 2; 0; 1])%list []) EmptyString elements true (λ _, true).

Definition blue_pod (ls : labels) : HostPod := mkHostPod "ns" "web" "uid-1" (Some ls) ∅ "node1" false "Running" "10.1.0.2" ["10.1.0.2"].

Definition nat_env (pods : list HostPod) : SnatEnv :=
  mkSnatEnv (list_to_map ((λ p, (MetaNamespaceKey (po_Namespace p) (po_Name p), p)) <$> pods)) ∅ {["ns" := mkNsObj "ns" "ns-uid" ∅ ∅]} ∅
    NewPodSelectorIndex (po_UID <$> pods) 1 nat_host.

Definition blue : labels := {["color" := "blue"]}.
Definition blue_policy (dest : list string) : HSnatPolicy := mkPol "pol" ["10.20.30.40"] dest (Some blue) EmptyString "Ready" "1".
Definition wide_policy : HSnatPolicy := mkPol "wide" ["10.20.30.50"] [] None EmptyString "Ready" "1".

Definition nat_entry (mac uid ip pol : string) (start : Z) : GlobalInfo := mkGlobalInfo mac [mkRangeP start (start + 2999)] ip uid pol.
Definition nat_cr : gmap string (list GlobalInfo) :=
  list_to_map [("node1", [nat_entry "02:00:00:00:00:09" "u-pol" "10.20.30.40" "pol" 5000; nat_entry "02:00:00:00:00:09" "u-wide" "10.20.30.50" "wide" 5000]);
               ("node2", [nat_entry "02:00:00:00:00:0a" "u-pol" "10.20.30.40" "pol" 8000])].

Definition nat_start : HSnat := hsnat_start ∅ (mkHostState ∅ ∅ ∅ ∅ ∅ []).

Definition nat_events : list hsnat_event :=
  [EvObject (nat_env [blue_pod blue]) (ObjPod (blue_pod blue));
   EvPolicyAdded (nat_env [blue_pod blue]) (blue_policy ["10.0.0.0/8"; "10.1.0.0/16"]);
   EvPolicyAdded (nat_env [blue_pod blue]) wide_policy;
   EvGlobalInfo (nat_env [blue_pod blue]) (Some nat_cr)].

Lemma nat_events_ok : Forall event_ok nat_events.
Proof.
  unfold nat_events. apply Forall_cons; split; [exact I|]. apply Forall_cons; split.
  { cbn [event_ok blue_policy pol_DestIp]. apply Forall_cons; split; [apply (bool_decide_eq_true_1 _); vm_compute; reflexivity|].
    apply Forall_singleton. apply (bool_decide_eq_true_1 _); vm_compute; reflexivity. }
  apply Forall_cons; split; [apply Forall_nil_2|]. apply Forall_singleton. intros n val E. unfold nat_cr in E. apply elem_of_list_to_map_2 in E.
  apply elem_of_cons in E as [E|E]; [|apply list_elem_of_singleton in E]; injection E as _ ->;
    repeat (apply Forall_cons; split; [discriminate|]); apply Forall_nil_2.
Qed.

Definition nat_state : option HSnat := run_events small_sort nat_cfg nat_events nat_start.

Lemma nat_state_run s : nat_state = Some s → run_events small_sort nat_cfg nat_events (hsnat_start ∅ (mkHostState ∅ ∅ ∅ ∅ ∅ [])) = Some s.
Proof. unfold nat_state, nat_start. intros E. exact E. Qed.

(** ** Claims *)



(** When a policy is deleted, in any state that events lead to, nothing of it is left: it is not cached, no pod lists it for any resource, and no pod is recorded for it. *)
Theorem hsnat_policy_gone pdqsort cfg dir h es policy s :
  sorts pdqsort → Forall event_ok es → run_events pdqsort cfg es (hsnat_start dir h) = Some s →
  ∃ s', snatPolicyDeleted pdqsort cfg (Some policy) s = Some s' ∧ snatPolicyCache s' !! pol_Name policy = None ∧
    snatPods s' !! pol_Name policy = None ∧ ∀ uid r, ¬ listed s' uid r (pol_Name policy).
Proof.
  intros Hsort He E. destruct (run_events_good pdqsort cfg Hsort es _ (start_good dir h) He) as (s0&E0&G).
  rewrite E in E0. injection E0 as <-. destruct (snatPolicyDeleted_gone pdqsort cfg Hsort policy s G) as (s'&E'&_&H1&H2&H3). by exists s'.
Qed.

Lemma hsnat_policy_gone_witness :
  ∃ s s', nat_state = Some s ∧ snatPolicyDeleted small_sort nat_cfg (Some wide_policy) s = Some s' ∧ ∀ uid r, ¬ listed s' uid r "wide".
Proof.
  assert (is_Some nat_state) as [s E] by (apply (bool_decide_eq_true_1 _); vm_compute; reflexivity).
  destruct (hsnat_policy_gone small_sort nat_cfg ∅ (mkHostState ∅ ∅ ∅ ∅ ∅ []) nat_events wide_policy s small_sorts nat_events_ok (nat_state_run s E)) as (s'&E'&_&_&H).
  exists s, s'. exact (conj E (conj E' H)).
Defined.

(** ** The identifiers of a pod *)

(** A policy without destinations applies to all traffic. *)
Definition catch_all (s : HSnat) (p : string) : bool :=
  match snatPolicyCache s !! p with Some pol => bool_decide (pol_DestIp pol = []) | None => false end.

(** The policies up to the first one that applies to all traffic. *)
Fixpoint up_to_catch_all (s : HSnat) (stack : list string) : list string :=
  match stack with
  | [] => []
  | p :: stack => p :: (if catch_all s p then [] else up_to_catch_all s stack)
  end.

(** The identifiers of this node's addresses for a policy. *)
Definition node_uuids (cfg : HostCfg) (s : HSnat) (p : string) : list string :=
  SnatIpUid <$> List.filter (λ g, String.eqb (gi_SnatPolicyName g) p) (node_infos cfg s).

Lemma stack_uuids_flat cfg s stack uids :
  stack_uuids (snatPolicyCache s) (node_infos cfg s) stack = Some uids →
  uids = flat_map (node_uuids cfg s) (up_to_catch_all s stack).
Proof.
  revert uids. induction stack as [|n stack IH]; intros uids E; cbn [stack_uuids] in E; [by injection E as <-|].
  destruct (snatPolicyCache s !! n) as [pol|] eqn:En; [|discriminate E]. cbn [mbind option_bind] in E.
  cbn [up_to_catch_all flat_map]. unfold catch_all. rewrite En. destruct (pol_DestIp pol) as [|d ds].
  - rewrite bool_decide_eq_true_2 by done. injection E as <-. cbn [flat_map]. by rewrite app_nil_r.
  - rewrite bool_decide_eq_false_2 by done. destruct (stack_uuids _ _ stack) as [rest|]; [|discriminate E]. cbn in E. injection E as <-.
    by rewrite (IH rest eq_refl).
Qed.

(** The policies with their resources, in the order of the stack. *)
Definition tagged (rs : list Z) (ls : list (list string)) : list (Z * string) := concat (zip_with (λ r l, pair r <$> l) rs ls).

Lemma tagged_names rs ls : length rs = length ls → (tagged rs ls).*2 = concat ls.
Proof.
  revert ls. induction rs as [|r rs IH]; intros [|l ls] H; try discriminate H; [done|]. unfold tagged in *. cbn [zip_with concat].
  rewrite fmap_app, IH by (by injection H). f_equal. rewrite <- list_fmap_compose. apply list_fmap_id.
Qed.

Lemma tagged_in rs ls r p : (r, p) ∈ tagged rs ls ↔ ∃ k l, rs !! k = Some r ∧ ls !! k = Some l ∧ p ∈ l.
Proof.
  unfold tagged. rewrite list_elem_of_In, in_concat. split.
  - intros (x&Hx&Hp). apply list_elem_of_In, list_elem_of_lookup_1 in Hx as [k Hk]. rewrite lookup_zip_with_Some in Hk.
    destruct Hk as (r'&l&->&H1&H2). apply list_elem_of_In, list_elem_of_fmap in Hp as (q&[= <- <-]&Hq). by exists k, l.
  - intros (k&l&H1&H2&Hp). exists (pair r <$> l). split; [|apply list_elem_of_In; by apply list_elem_of_fmap_2].
    apply list_elem_of_In. apply (list_elem_of_lookup_2 _ k). apply lookup_zip_with_Some. by exists r, l.
Qed.

Lemma tagged_sorted rs ls : StronglySorted Z.lt rs → StronglySorted (λ a b, (a.1 <= b.1)%Z) (tagged rs ls).
Proof.
  intros H. revert ls. induction H as [|r rs Hs IH Hr]; intros [|l ls]; try constructor. unfold tagged in *. cbn [zip_with concat].
  rewrite Forall_forall in Hr. induction l as [|x l IHl]; [apply IH|]. cbn [fmap list_fmap app]. constructor; [done|].
  apply Forall_forall. intros [r' p] Hp. cbn [fst].
  apply elem_of_app in Hp as [Hp|Hp]; [apply list_elem_of_fmap in Hp as (?&[= -> _]&_); done|].
  apply (tagged_in rs ls) in Hp as (k&l'&Hk&_). apply list_elem_of_lookup_2, Hr in Hk. lia.
Qed.

Lemma tagged_NoDup rs ls : NoDup rs → Forall NoDup ls → NoDup (tagged rs ls).
Proof.
  intros Hr. revert ls. induction Hr as [|r rs Hn _ IH]; intros ls Hl; [constructor|]. destruct Hl as [|l ls Hl Hls]; [constructor|].
  unfold tagged in *. cbn [zip_with concat]. apply NoDup_app. split_and!; [|intros [r' p] H1 H2|by apply IH].
  - apply NoDup_fmap_2; [|done]. by intros x y [= ->].
  - apply list_elem_of_fmap in H1 as (?&[= -> _]&_). apply (tagged_in rs ls) in H2 as (k&l'&Hk&_). apply Hn. by eapply list_elem_of_lookup_2.
Qed.

(** C27: The identifiers of source NAT of a pod after updateEpFiles handled it, in any state that events lead to (with IPv4 destinations, entries with port ranges and a sort that returns permutations): with the policies that are listed for the pod, each once per resource, in the order of the resources (pod, service, deployment, namespace, cluster), they are this node's identifiers of these policies, one policy after the other, up to and including the first policy without destinations.  This list goes into the endpoint file, but for one case: a pod that was read back from the local resource after a restart and for which the list is the same as before keeps the identifiers that its endpoint file has, if the file can be read. *)
Theorem hsnat_pod_uuids pdqsort cfg dir h es s uid li s' b :
  sorts pdqsort → Forall event_ok es → run_events pdqsort cfg es (hsnat_start dir h) = Some s →
  opflexSnatLocalInfos s !! uid = Some li → updateEpFile pdqsort cfg uid s = Some (s', b) →
  ∃ stack : list (Z * string),
    StronglySorted (λ a b, (a.1 <= b.1)%Z) stack ∧ NoDup stack ∧ (∀ r p, (r, p) ∈ stack ↔ listed s uid r p) ∧
    let uids := flat_map (node_uuids cfg s) (up_to_catch_all s stack.*2) in
    ∀ current, getSnatUuids uid current s' =
      match current with
      | Some file => if Existing li && bool_decide (PlcyUuids li = uids) then file else uids
      | None => uids
      end.
Proof.
  intros Hsort He E El Eu. destruct (run_events_good pdqsort cfg Hsort es _ (start_good dir h) He) as (s0&E0&[Hs Hd]).
  rewrite E in E0. injection E0 as <-. unfold updateEpFile in Eu. rewrite El in Eu.
  destruct (policy_stack_total pdqsort Hsort (snatPolicyCache s) li Hd (stack_cached s uid li Hs El)) as (ls&Els&Hls&Hnd).
  rewrite Els in Eu. cbn [mbind option_bind] in Eu. destruct (stack_uuids _ _ (concat ls)) as [uids|] eqn:Est; [|discriminate Eu]. cbn [mbind option_bind] in Eu.
  exists (tagged resources ls). split; [apply tagged_sorted; decide_now|]. split; [apply tagged_NoDup; [decide_now|done]|]. split.
  - intros r p. rewrite tagged_in, listed_holds. split.
    + intros (k&l&Hk&Hl&Hp). exists li. split; [done|]. destruct (Forall2_lookup_r _ _ _ _ _ Hls Hl) as (r'&Hr'&Hx).
      rewrite Hk in Hr'. injection Hr' as <-. by apply Hx.
    + intros (li'&E'&Hh). rewrite El in E'. injection E' as <-.
      assert (resource r) as Hr by (apply (ok_bits s Hs uid r p); apply listed_holds; eauto). apply list_elem_of_lookup_1 in Hr as [k Hk].
      destruct (Forall2_lookup_l _ _ _ _ _ Hls Hk) as (l&Hl&Hx). exists k, l. split_and!; [done|done|]. by apply Hx.
  - rewrite tagged_names by (by apply Forall2_length in Hls). apply stack_uuids_flat in Est. cbv zeta. rewrite <- Est. intros current.
    unfold getSnatUuids. case_bool_decide as Hb.
    + injection Eu as <- _. rewrite El, Hb, andb_true_r. destruct (Existing li), current; done.
    + rewrite andb_false_r. injection Eu as <- _. cbn. destruct uids; [rewrite lookup_delete_eq|rewrite lookup_insert_eq]; by destruct current.
Qed.

Lemma hsnat_pod_uuids_witness :
  ∃ s s' b, nat_state = Some s ∧ updateEpFile small_sort nat_cfg "uid-1" s = Some (s', b) ∧
    (∀ file, getSnatUuids "uid-1" (Some file) s' = ["u-pol"; "u-wide"]) ∧
    ∃ stack, (∀ r p, (r, p) ∈ stack ↔ listed s "uid-1" r p) ∧
      flat_map (node_uuids nat_cfg s) (up_to_catch_all s stack.*2) = ["u-pol"; "u-wide"].
Proof.
  assert ((s ← nat_state; li ← opflexSnatLocalInfos s !! "uid-1"; '(s', _) ← updateEpFile small_sort nat_cfg "uid-1" s;
           Some (Existing li, getSnatUuids "uid-1" None s')) = Some (false, ["u-pol"; "u-wide"])) as Hc by (vm_compute; reflexivity).
  destruct nat_state as [s|] eqn:E; [|discriminate Hc]. cbn [mbind option_bind] in Hc.
  destruct (opflexSnatLocalInfos s !! "uid-1") as [li|] eqn:El; [|discriminate Hc]. cbn [mbind option_bind] in Hc.
  destruct (updateEpFile small_sort nat_cfg "uid-1" s) as [[s' b]|] eqn:Eu; [|discriminate Hc]. cbn [mbind option_bind] in Hc.
  injection Hc as Hex Hc.
  destruct (hsnat_pod_uuids small_sort nat_cfg ∅ (mkHostState ∅ ∅ ∅ ∅ ∅ []) nat_events s "uid-1" li s' b small_sorts nat_events_ok (nat_state_run s E) El Eu)
    as (stack&_&_&Hl&H). pose proof (H None) as Hn. rewrite Hc in Hn. cbv iota in Hn.
  exists s, s', b. refine (conj eq_refl (conj Eu (conj _ _))).
  - intros file. rewrite (H (Some file)), Hex. cbn [andb]. symmetry. exact Hn.
  - exists stack. exact (conj Hl (eq_sym Hn)).
Defined.

(** ** Ranges of the hosts *)

Definition host_list (val : list GlobalInfo) : list GlobalInfo := host_info <$> val.

(** The table has no node that the resource does not have, or it has more
    nodes. *)
Definition follows (old cr : gmap string (list GlobalInfo)) : Prop := dom old ⊆ dom cr ∨ (size cr < size old)%nat.

Lemma table_follows old cr n : follows old cr → table_after cr old n = host_list <$> cr !! n.
Proof.
  intros Hf. unfold table_after. destruct (cr !! n) eqn:E; [done|]. destruct (Nat.ltb_spec (size cr) (size old)); [done|]. destruct Hf as [Hf|]; [|lia].
  cbn. apply not_elem_of_dom in E. apply not_elem_of_dom. set_solver.
Qed.

Lemma opflexSnatIps_elem cfg env s uid v :
  opflexSnatIps cfg env s !! uid = Some v → ∃ n l g, opflexSnatGlobalInfos s !! n = Some l ∧ g ∈ l ∧ v = snat_ip cfg env s g ∧ SnatIpUid g = uid.
Proof.
  unfold opflexSnatIps. set (L := concat _).
  assert (HL : ∀ g, g ∈ L → ∃ n l, opflexSnatGlobalInfos s !! n = Some l ∧ g ∈ l).
  { intros g Hg. apply list_elem_of_In, in_concat in Hg as (l&Hl&Hg). apply list_elem_of_In, list_elem_of_fmap in Hl as ([n l']&->&Hl).
    apply elem_of_map_to_list in Hl. exists n, l'. split; [done|]. by apply list_elem_of_In. }
  assert (G : ∀ L (m : gmap string OpflexSnatIp), (∀ g, g ∈ L → ∃ n l, opflexSnatGlobalInfos s !! n = Some l ∧ g ∈ l) →
    (∀ u w, m !! u = Some w → ∃ n l g, opflexSnatGlobalInfos s !! n = Some l ∧ g ∈ l ∧ w = snat_ip cfg env s g ∧ SnatIpUid g = u) →
    ∀ u w, foldl (λ m g, <[SnatIpUid g := snat_ip cfg env s g]> m) m L !! u = Some w →
      ∃ n l g, opflexSnatGlobalInfos s !! n = Some l ∧ g ∈ l ∧ w = snat_ip cfg env s g ∧ SnatIpUid g = u).
  { clear L HL uid v. induction L as [|g L IH]; intros m HL Hm u w E; cbn [foldl] in E; [by apply Hm|].
    apply (IH (<[SnatIpUid g := snat_ip cfg env s g]> m)); [intros g' Hg'; apply HL; by right| |done].
    intros u' w' E'. destruct (decide (u' = SnatIpUid g)) as [->|Hne].
    - rewrite lookup_insert_eq in E'. injection E' as <-. destruct (HL g) as (n&l&H1&H2); [left|]. by exists n, l, g.
    - rewrite lookup_insert_ne in E' by congruence. by apply Hm. }
  intros E. apply (G L ∅ HL); [|done]. intros u w Eu. by rewrite lookup_empty in Eu.
Qed.

(** The entries of a host's table, for a resource that a controller wrote. *)
Lemma host_entry cMap sc (t : gmap string (list GlobalInfo)) :
  (1 <= (GetPortRangeFromConfigMap cMap).2)%Z → snat_reach cMap sc →
  (∀ n, t !! n = host_list <$> by_node (snatGlobalInfoCache sc) !! n) →
  ∀ n l g, t !! n = Some l → g ∈ l → ∃ ip g', node_entry (snatGlobalInfoCache sc) ip n = Some g' ∧ g = host_info g'.
Proof.
  intros Hc Hr Ht n l g El Hg. rewrite Ht in El. destruct (by_node _ !! n) as [val|] eqn:E; [|discriminate El]. injection El as <-.
  apply list_elem_of_fmap in Hg as (g'&->&Hg). destruct (proj1 (by_node_spec (snatGlobalInfoCache sc) n g')) as [ip Hip]; [by exists val|]. by exists ip, g'.
Qed.

(** An entry is on the address it is stored for. *)
Lemma entry_address cMap sc ip n g :
  (1 <= (GetPortRangeFromConfigMap cMap).2)%Z → snat_reach cMap sc → node_entry (snatGlobalInfoCache sc) ip n = Some g → gi_SnatIp g = ip.
Proof.
  intros Hstep Hr E. pose proof (cfg_bounds cMap) as Hb.
  destruct (GetPortRangeFromConfigMap cMap) as [range step] eqn:Ec. simpl in Hstep.
  destruct (ExpandPortRanges_ok range step) as (grid&Eg&Hl&Hnd&_); [unfold small; lia|unfold small; lia|lia|].
  destruct (snat_reach_ok grid cMap sc Hnd) as [[C1 _] _]; [unfold configured; by rewrite Ec|done|]. by destruct (C1 _ _ _ E) as [? _].
Qed.

(** Two entries on one address, of different nodes, in tables of hosts. *)
Lemma host_entries_apart cMap sc ip n1 n2 g1 g2 r1 r2 :
  (1 <= (GetPortRangeFromConfigMap cMap).2)%Z → snat_reach cMap sc → n1 ≠ n2 →
  node_entry (snatGlobalInfoCache sc) ip n1 = Some g1 → node_entry (snatGlobalInfoCache sc) ip n2 = Some g2 →
  r1 ∈ PortRanges (host_info g1) → r2 ∈ PortRanges (host_info g2) → disjoint r1 r2.
Proof.
  intros Hc Hr Hne E1 E2. destruct (reach_entries_apart cMap sc Hc Hr ip n1 n2 g1 g2 Hne E1 E2) as (a&b&P1&P2&Hd&_).
  unfold host_info. cbn [PortRanges]. rewrite P1, P2. cbn. intros ->%list_elem_of_singleton ->%list_elem_of_singleton. done.
Qed.

Lemma local_range_elem cfg t ip rs : local_range cfg t ip = Some rs → ∃ l g, t !! hc_NodeName cfg = Some l ∧ g ∈ l ∧ gi_SnatIp g = ip ∧ rs = PortRanges g.
Proof.
  unfold local_range. set (l := List.filter _ _). intros E. destruct (last l) as [g|] eqn:El; [|discriminate E]. injection E as <-.
  assert (Hg : g ∈ l) by (rewrite last_lookup in El; by eapply list_elem_of_lookup_2). apply list_elem_of_In, filter_In in Hg as [Hg Hip]. apply list_elem_of_In in Hg.
  destruct (t !! hc_NodeName cfg) as [l0|]; [|by apply not_elem_of_nil in Hg]. exists l0, g. by apply String.eqb_eq in Hip.
Qed.

Lemma remote_elem cfg t ip ri : ri ∈ remote_infos cfg t ip → ∃ n l g, n ≠ hc_NodeName cfg ∧ t !! n = Some l ∧ g ∈ l ∧ gi_SnatIp g = ip ∧ ri_PortRange ri = PortRanges g.
Proof.
  unfold remote_infos. intros H. apply list_elem_of_In, in_flat_map in H as ([n l]&Hn&H). apply list_elem_of_In, elem_of_map_to_list in Hn. cbn [fst snd] in H.
  destruct (String.eqb_spec n (hc_NodeName cfg)) as [|Hne]; [done|]. apply list_elem_of_In, list_elem_of_fmap in H as (g&->&H).
  apply list_elem_of_In, filter_In in H as [Hg Hip]. apply String.eqb_eq in Hip. exists n, l, g. by apply list_elem_of_In in Hg.
Qed.

(** C6: The hosts and the controller together.  Let the controller be in any state that its handlers reach with a fixed configuration of at least one port per node, let every entry that it publishes have a port range, and let two hosts with different node names, whose tables satisfy the invariant that all events keep and whose policies have IPv4 destinations, with a sort that returns permutations, both have just handled the resource with exactly these entries.  Suppose that the table that each host had before follows the resource: it has no node that the resource does not have, or has more nodes than the resource (otherwise nodes that were replaced stay in the table, [replaced_node_stays]).  Then the files that they write for one address give them port ranges without a common port, and in the file of a host its own ranges have no port in common with those listed for other nodes. *)
Theorem hsnat_ranges_apart cMap sc pdqsort cfgA envA sA sA' cfgB envB sB sB' :
  (1 <= (GetPortRangeFromConfigMap cMap).2)%Z → snat_reach cMap sc → sorts pdqsort → good sA → good sB →
  let cr := by_node (snatGlobalInfoCache sc) in
  ranges_given cr → follows (opflexSnatGlobalInfos sA) cr → follows (opflexSnatGlobalInfos sB) cr →
  snaGlobalInfoChanged pdqsort cfgA envA cr sA = Some sA' → snaGlobalInfoChanged pdqsort cfgB envB cr sB = Some sB' →
  hc_NodeName cfgA ≠ hc_NodeName cfgB →
  ∀ uidA vA, opflexSnatIps cfgA envA sA' !! uidA = Some vA →
  (∀ uidB vB, opflexSnatIps cfgB envB sB' !! uidB = Some vB → os_SnatIp vA = os_SnatIp vB →
     ∀ r1 r2, r1 ∈ os_PortRange vA → r2 ∈ os_PortRange vB → disjoint r1 r2) ∧
  ∀ ri, ri ∈ os_Remote vA → ∀ r1 r2, r1 ∈ os_PortRange vA → r2 ∈ ri_PortRange ri → disjoint r1 r2.
Proof.
  intros Hc Hr Hsort GA GB cr Hg FA FB EA EB Hne.
  assert (T : ∀ cfg env s s', good s → follows (opflexSnatGlobalInfos s) cr → snaGlobalInfoChanged pdqsort cfg env cr s = Some s' →
    ∀ n, opflexSnatGlobalInfos s' !! n = host_list <$> cr !! n).
  { intros cfg env s s' G F E n. destruct (snaGlobalInfoChanged_total pdqsort cfg env Hsort cr s G Hg) as (s1&E1&_&_&Ht).
    rewrite E in E1. injection E1 as <-. rewrite Ht. by apply table_follows. }
  pose proof (T _ _ _ _ GA FA EA) as TA. pose proof (T _ _ _ _ GB FB EB) as TB. clear T.
  assert (L : ∀ cfg env s uid v r, (∀ n, opflexSnatGlobalInfos s !! n = host_list <$> cr !! n) → opflexSnatIps cfg env s !! uid = Some v → r ∈ os_PortRange v →
    ∃ g, node_entry (snatGlobalInfoCache sc) (os_SnatIp v) (hc_NodeName cfg) = Some g ∧ r ∈ PortRanges (host_info g)).
  { intros cfg env s uid v r Ht Ev Hin. apply opflexSnatIps_elem in Ev as (_&_&g0&_&_&->&_). cbn [os_PortRange os_SnatIp snat_ip] in *.
    destruct (local_range cfg (opflexSnatGlobalInfos s) (gi_SnatIp g0)) as [rs|] eqn:El; [|by apply not_elem_of_nil in Hin].
    apply local_range_elem in El as (l&g&Eg&Hgl&Hip&->). destruct (host_entry cMap sc _ Hc Hr Ht _ _ _ Eg Hgl) as (ip&g'&En&->).
    pose proof (entry_address cMap sc ip _ g' Hc Hr En) as Ha. cbn [gi_SnatIp host_info] in Hip. rewrite Ha in Hip. subst ip. by exists g'. }
  intros uidA vA EvA. split.
  - intros uidB vB EvB Hip r1 r2 H1 H2. destruct (L _ _ _ _ _ _ TA EvA H1) as (g1&E1&R1). destruct (L _ _ _ _ _ _ TB EvB H2) as (g2&E2&R2).
    rewrite <- Hip in E2. by eapply host_entries_apart.
  - intros ri Hri r1 r2 H1 H2. destruct (L _ _ _ _ _ _ TA EvA H1) as (g1&E1&R1).
    apply opflexSnatIps_elem in EvA as (_&_&g0&_&_&->&_). cbn [os_Remote os_SnatIp snat_ip] in *.
    apply remote_elem in Hri as (n&l&g&Hn&En&Hgl&Hip&Hpr). destruct (host_entry cMap sc _ Hc Hr TA _ _ _ En Hgl) as (ip&g2&E2&->).
    pose proof (entry_address cMap sc ip _ g2 Hc Hr E2) as Ha. cbn [gi_SnatIp host_info] in Hip. rewrite Ha in Hip. subst ip.
    rewrite Hpr in H2. eapply (host_entries_apart cMap sc (gi_SnatIp g0) (hc_NodeName cfgA) n g1 g2); [done..|congruence|done|done|done|done].
Qed.

Definition nat_cfg2 : HostCfg :=
  mkHostCfg "common" "vrf1" "Kubernetes" "k8s" EmptyString "n2" "bond0" "m2" 4003 [].
Definition nat_cfg1 : HostCfg :=
  mkHostCfg "common" "vrf1" "Kubernetes" "k8s" EmptyString "n1" "bond0" "m1" 4003 [].

Definition nat_uid : string := uuid_String (default [] (ParseIP "10.20.30.40")).

(** The controller of two nodes, and both hosts. *)
Definition nat_hosts : option (SnatState * HSnat * HSnat) :=
  sc ← snat_run ["10.20.30.40"] two_nodes;
  sA ← snaGlobalInfoChanged small_sort nat_cfg1 (nat_env []) (by_node (snatGlobalInfoCache sc)) nat_start;
  sB ← snaGlobalInfoChanged small_sort nat_cfg2 (nat_env []) (by_node (snatGlobalInfoCache sc)) nat_start;
  Some (sc, sA, sB).

Lemma run_ranges_given cMap sc :
  (1 <= (GetPortRangeFromConfigMap cMap).2)%Z → snat_reach cMap sc → ranges_given (by_node (snatGlobalInfoCache sc)).
Proof.
  intros Hstep Hr n val E. apply Forall_forall. intros g Hg. destruct (proj1 (by_node_spec (snatGlobalInfoCache sc) n g)) as [ip Hip]; [by exists val|].
  pose proof (cfg_bounds cMap) as Hb. destruct (GetPortRangeFromConfigMap cMap) as [range step] eqn:Ec. simpl in Hstep.
  destruct (ExpandPortRanges_ok range step) as (grid&Eg&Hl&Hnd&_); [unfold small; lia|unfold small; lia|lia|].
  destruct (snat_reach_ok grid cMap sc Hnd) as [[C1 _] _]; [unfold configured; by rewrite Ec|done|]. destruct (C1 _ _ _ Hip) as (_&r&->&_). discriminate.
Qed.

Lemma nat_hosts_inv sc sA sB :
  nat_hosts = Some (sc, sA, sB) →
  snat_run ["10.20.30.40"] two_nodes = Some sc ∧
  snaGlobalInfoChanged small_sort nat_cfg1 (nat_env []) (by_node (snatGlobalInfoCache sc)) nat_start = Some sA ∧
  snaGlobalInfoChanged small_sort nat_cfg2 (nat_env []) (by_node (snatGlobalInfoCache sc)) nat_start = Some sB.
Proof.
  unfold nat_hosts. intros E. apply bind_Some in E as (sc'&Ec&E). apply bind_Some in E as (sA'&EA&E). apply bind_Some in E as (sB'&EB&E).
  injection E as <- <- <-. exact (conj Ec (conj EA EB)).
Qed.

(** The ranges of both hosts in their files for the address. *)
Definition host_ranges (h : SnatState * HSnat * HSnat) : option (list PortRange * list PortRange * string * string) :=
  vA ← opflexSnatIps nat_cfg1 (nat_env []) h.1.2 !! nat_uid;
  vB ← opflexSnatIps nat_cfg2 (nat_env []) h.2 !! nat_uid;
  Some (os_PortRange vA, os_PortRange vB, os_SnatIp vA, os_SnatIp vB).

Lemma nat_hosts_ranges : nat_hosts ≫= host_ranges = Some ([mkRangeP 5000 7999], [mkRangeP 8000 10999], "10.20.30.40", "10.20.30.40").
Proof. vm_compute. reflexivity. Qed.

Lemma nat_hosts_run :
  ∃ sc sA sB vA vB, nat_hosts = Some (sc, sA, sB) ∧
    opflexSnatIps nat_cfg1 (nat_env []) sA !! nat_uid = Some vA ∧ opflexSnatIps nat_cfg2 (nat_env []) sB !! nat_uid = Some vB ∧
    os_PortRange vA = [mkRangeP 5000 7999] ∧ os_PortRange vB = [mkRangeP 8000 10999] ∧ os_SnatIp vA = os_SnatIp vB.
Proof.
  pose proof nat_hosts_ranges as H. apply bind_Some in H as ([[sc sA] sB]&E&H). unfold host_ranges in H. cbn [fst snd] in H.
  apply bind_Some in H as (vA&EA&H). apply bind_Some in H as (vB&EB&H). injection H as HA HB H1 H2.
  exists sc, sA, sB, vA, vB. exact (conj E (conj EA (conj EB (conj HA (conj HB (eq_trans H1 (eq_sym H2))))))).
Qed.

Lemma nat_follows cr : follows (opflexSnatGlobalInfos nat_start) cr.
Proof. left. cbn. set_solver. Qed.

Lemma nat_steps : (1 <= (GetPortRangeFromConfigMap None).2)%Z.
Proof. vm_compute. discriminate. Qed.

Lemma hsnat_ranges_apart_witness :
  ∃ sc sA sB vA vB r1 r2, nat_hosts = Some (sc, sA, sB) ∧ opflexSnatIps nat_cfg1 (nat_env []) sA !! nat_uid = Some vA ∧
    opflexSnatIps nat_cfg2 (nat_env []) sB !! nat_uid = Some vB ∧ os_PortRange vA = [r1] ∧ os_PortRange vB = [r2] ∧ disjoint r1 r2.
Proof.
  destruct nat_hosts_run as (sc&sA&sB&vA&vB&E&EvA&EvB&HA&HB&Hip). destruct (nat_hosts_inv sc sA sB E) as (Ec&EA&EB).
  pose proof (snat_run_reach _ _ _ Ec) as Hr.
  destruct (hsnat_ranges_apart None sc small_sort nat_cfg1 (nat_env []) nat_start sA nat_cfg2 (nat_env []) nat_start sB nat_steps Hr small_sorts
    (start_good _ _) (start_good _ _) (run_ranges_given None sc nat_steps Hr) (nat_follows _) (nat_follows _) EA EB) with (uidA := nat_uid) (vA := vA)
    as [H _]; [discriminate|exact EvA|].
  exists sc, sA, sB, vA, vB, (mkRangeP 5000 7999), (mkRangeP 8000 10999).
  refine (conj E (conj EvA (conj EvB (conj HA (conj HB _))))).
  apply (H nat_uid vB EvB Hip); [rewrite HA; left|rewrite HB; left].
Defined.

(** ** The order of destinations *)

(** The text of an IPv4 network, by its first address; a single address is
    the network of that address. *)
Definition dest4 (a : string) (n : IPNet) (k : nat) : Prop := ParseCIDR_addr (with_mask a) = Some (net_IP n, n) ∧ net4 n k.

(** The first destination covers the second. *)
Definition covers (a b : string) : Prop :=
  ∃ na ka nb kb, dest4 a na ka ∧ dest4 b nb kb ∧ ∀ x, in_net nb x → in_net na x.

Lemma net4_aligned n k : net4 n k → (val (net_IP n) mod host 4 k = 0)%Z.
Proof.
  intros (Hk&Hok&Hm&Hmask). assert (Hcm : CIDRMask k 32 = cidr_bytes 4 k) by (apply (CIDRMask_cidr 4 k v4_len); lia).
  destruct (mask_val 4 k (net_IP n) Hok ltac:(lia)) as (A1&A2&A3&A4).
  assert (Hz : zip_with Z.land (net_IP n) (cidr_bytes 4 k) = net_IP n).
  { rewrite <- Hcm, <- Hm. rewrite <- Hmask at 2. symmetry. apply (Mask_same 4); [done|]. rewrite Hm, Hcm. apply cidr_bytes_length. }
  rewrite Hz in A3. lia.
Qed.

Lemma masks_order k k' : (k <= 32)%nat → (k' <= 32)%nat → is_gt (Compare (CIDRMask k 32) (CIDRMask k' 32)) = (k' <? k)%nat.
Proof.
  intros H H'. apply eqb_prop.
  assert (forallb (λ k, forallb (λ k', Bool.eqb (is_gt (Compare (CIDRMask k 32) (CIDRMask k' 32))) (k' <? k)%nat) (seq 0 33)) (seq 0 33) = true) as HC
    by (vm_compute; reflexivity).
  rewrite forallb_forall in HC. specialize (HC k). rewrite forallb_forall in HC. apply HC; apply in_seq; lia.
Qed.

Lemma host_split k k' : (k <= k')%nat → (k' <= 32)%nat → ∃ c, (0 < c)%Z ∧ host 4 k = (c * host 4 k')%Z.
Proof.
  intros H H'. exists (2 ^ Z.of_nat (k' - k))%Z. split; [apply Z.pow_pos_nonneg; lia|]. unfold host. rewrite <- Z.pow_add_r by lia. f_equal. lia.
Qed.

Lemma aligned_multiple v h : (0 < h)%Z → (v mod h = 0)%Z → ∃ q, v = (h * q)%Z.
Proof. intros H E. exists (v / h)%Z. pose proof (Z.div_mod v h ltac:(lia)). lia. Qed.

(** Reading containment of networks off the comparison. *)
Lemma less_dest_covers a na ka b nb kb :
  dest4 a na ka → dest4 b nb kb → ∃ r, less_dest a b = Some r ∧ (r = false ↔ ∀ x, in_net nb x → in_net na x).
Proof.
  intros [Ea Na] [Eb Nb]. unfold less_dest, compareIps. rewrite Eb.
  assert (Ec : ParseCIDR (with_mask a) = Some na).
  { unfold ParseCIDR_addr in Ea. destruct (cut "/" (with_mask a)) as [[addr m]|]; [|discriminate Ea]. cbn [mbind option_bind] in Ea.
    destruct (ParseAddr addr) as [[v ip]|]; [|discriminate Ea]. cbn [mbind option_bind] in Ea.
    destruct (ParseCIDR (with_mask a)) as [n|]; [|discriminate Ea]. injection Ea as _ ->. done. }
  rewrite Ec. cbn [mbind option_bind]. eexists. split; [done|].
  pose proof Na as (Ka&Oa&Ma&_). pose proof Nb as (Kb&Ob&Mb&_).
  pose proof (net4_aligned na ka Na) as Aa. pose proof (net4_aligned nb kb Nb) as Ab.
  pose proof (host_pos 4 ka ltac:(lia)) as Ha. pose proof (host_pos 4 kb ltac:(lia)) as Hb.
  assert (Hin : (∀ x, in_net nb x → in_net na x) ↔
    (val (net_IP na) <= val (net_IP nb) ∧ val (net_IP nb) + host 4 kb <= val (net_IP na) + host 4 ka)%Z).
  { split.
    - intros H. pose proof (H (val (net_IP nb))) as H1. pose proof (H (val (net_IP nb) + host 4 kb - 1)%Z) as H2.
      rewrite (net4_in_net nb kb), (net4_in_net na ka) in H1, H2 by done. lia.
    - intros H x. rewrite (net4_in_net nb kb), (net4_in_net na ka) by done. lia. }
  rewrite Hin. pose proof (Contains_net4 na ka (net_IP nb) Na Ob) as Hc. rewrite (net4_in_net na ka) in Hc by done.
  rewrite Ma, Mb, masks_order by done. unfold IP_Equal. assert (H4 : ∀ q, ok 4 q → To4 q = Some q) by (intros q [Hl _]; unfold To4; by rewrite Hl).
  rewrite !H4 by done. cbn [default]. unfold id.
  set (va := val (net_IP na)) in *. set (vb := val (net_IP nb)) in *.
  destruct (GoNet.Contains na (net_IP nb)).
  - destruct (proj1 Hc eq_refl) as [H1 H2]. clear Hc. destruct (Nat.ltb_spec kb ka) as [Hlt|Hge].
    + destruct (host_split kb ka) as (c&Hc&Hs); [lia|done|]. set (h := host 4 ka) in *.
      assert (vb = va) as Hv.
      { destruct (aligned_multiple va h Ha Aa) as [q Hq]. destruct (aligned_multiple vb (host 4 kb) Hb Ab) as [q' Hq'].
        rewrite Hs in Hq'. assert (Hm : vb = (h * (c * q'))%Z) by lia. clear -H1 H2 Hq Hm Ha. set (x := (c * q')%Z) in *. assert (q = x) by nia. lia. }
      apply (val_inj 4) in Hv; [|done|done]. rewrite bool_decide_true by congruence. cbn [andb]. split; [done|]. intros [_ H].
      destruct (Z.eq_dec c 1) as [->|]; [|nia].
      exfalso. assert (host 4 kb = host 4 ka) as He by lia. unfold host in He. apply Z.pow_inj_r in He; lia.
    + rewrite andb_false_r. split; [|done]. intros _. split; [done|].
      destruct (host_split ka kb) as (c&Hc&Hs); [done|done|]. set (h := host 4 kb) in *.
      destruct (aligned_multiple va (host 4 ka) Ha Aa) as [q Hq]. destruct (aligned_multiple vb h Hb Ab) as [q' Hq'].
      rewrite Hs in Hq, H2 |- *. assert (Hm : va = (h * (c * q))%Z) by lia. assert (Hcq : (q' < c * q + c)%Z) by nia. nia.
  - split; [done|]. intros [H1 H2]. symmetry. apply Hc. lia.
Qed.

Section InsertionOrder.
Context {A : Type} (less : A → A → option bool) (dom_ : A → Prop) (R : A → A → Prop).
Hypothesis less_R : ∀ x y, dom_ x → dom_ y → ∃ b, less x y = Some b ∧ (b = false ↔ R x y).
Hypothesis R_trans : ∀ x y z, dom_ x → dom_ y → dom_ z → R x y → R y z → R x z.

(** The later of two elements does not lie strictly below the earlier one. *)
Definition narrow_first (x y : A) : Prop := R x y → R y x.

Lemma move_left_order x l :
  dom_ x → Forall dom_ l → StronglySorted (λ a b, narrow_first b a) l →
  ∃ r, move_left less x l = Some r ∧ StronglySorted (λ a b, narrow_first b a) r ∧ r ≡ₚ x :: l.
Proof.
  intros Hx Hd Hs. induction Hs as [|y l Hs IH Hy]; cbn [move_left].
  { exists [x]. split; [done|]. split; [repeat constructor|done]. }
  apply Forall_cons in Hd as [Dy Dl]. destruct (less_R x y Hx Dy) as (b&->&Hb). cbn [mbind option_bind].
  rewrite Forall_forall in Hy, Dl. destruct b.
  - destruct IH as (r&->&Hr&Hp); [by apply Forall_forall|]. cbn. eexists. split; [done|]. split; [|rewrite Hp; apply Permutation_swap].
    constructor; [done|]. apply Forall_forall. intros w Hw. rewrite Hp in Hw. apply elem_of_cons in Hw as [->|Hw]; [|by apply Hy].
    intros HR. exfalso. by apply Hb in HR.
  - eexists. split; [done|]. split; [|done]. pose proof (proj1 Hb eq_refl) as HR. constructor; [constructor; [done|by apply Forall_forall]|].
    apply Forall_cons; split; [by intros _|]. apply Forall_forall. intros z Hz Hzx. specialize (Hy z Hz). specialize (Dl z Hz).
    apply (R_trans x y z); [done..|]. apply Hy. by apply (R_trans z x y).
Qed.

Lemma insertionSort_order l acc :
  Forall dom_ acc → Forall dom_ l → StronglySorted (λ a b, narrow_first b a) acc →
  ∃ r, insertionSort less acc l = Some r ∧ StronglySorted narrow_first r ∧ r ≡ₚ (acc ++ l)%list.
Proof.
  intros Ha Hl. revert acc Ha. induction Hl as [|x l Hx Hl IH]; intros acc Ha Hs; cbn [insertionSort].
  - exists (rev acc). split; [done|]. split; [|rewrite app_nil_r; symmetry; apply Permutation_rev].
    clear -Hs. induction Hs as [|y acc Hs IH Hy]; [constructor|]. cbn [rev]. apply StronglySorted_app_iff. split_and!; [done|repeat constructor|].
    intros a b Ha Hb. apply list_elem_of_singleton in Hb as ->. rewrite Forall_forall in Hy. apply Hy. apply list_elem_of_In. apply list_elem_of_In, in_rev in Ha. done.
  - destruct (move_left_order x acc Hx Ha Hs) as (r&->&Hr&Hp). cbn [mbind option_bind].
    destruct (IH r) as (r'&->&Hr'&Hp'); [rewrite Hp; by constructor|done|]. exists r'. split; [done|]. split; [done|]. rewrite Hp', Hp. apply Permutation_middle.
Qed.
End InsertionOrder.

(** The destinations of a policy are put in order so that the longest match comes first: for at most twelve IPv4 networks or addresses, sorting returns them in an order in which no destination stands before one that it strictly contains, although the comparison it sorts by is not an order (of two networks that do not overlap each is less than the other). *)
Theorem hsnat_dest_order pdqsort d :
  (length d <= maxInsertion)%nat → Forall (λ a, ∃ n k, dest4 a n k) d →
  ∃ d', setDestIp pdqsort d = Some d' ∧ d' ≡ₚ d ∧ StronglySorted (λ a b, covers a b → covers b a) d'.
Proof.
  intros Hl Hd. unfold setDestIp. destruct d as [|a d]; [exists []; split_and!; [done..|constructor]|]. unfold sort_Slice.
  apply Nat.leb_le in Hl. rewrite Hl. clear Hl.
  destruct (insertionSort_order less_dest (λ a, ∃ n k, dest4 a n k) covers) with (l := a :: d) (acc := @nil string) as (r&E&Hs&Hp); [| |constructor|done|constructor|].
  - intros x y (nx&kx&Hx) (ny&ky&Hy). destruct (less_dest_covers x nx kx y ny ky Hx Hy) as (b&E&Hb). exists b. split; [done|]. rewrite Hb. split.
    + intros H. by exists nx, kx, ny, ky.
    + intros (nx'&kx'&ny'&ky'&Hx'&Hy'&H). destruct Hx as [Ex _], Hy as [Ey _], Hx' as [Ex' _], Hy' as [Ey' _]. rewrite Ex in Ex'. rewrite Ey in Ey'.
      injection Ex' as _ ->. by injection Ey' as _ ->.
  - intros x y z _ _ _ (nx&kx&ny&ky&Hx&Hy&H) (ny'&ky'&nz&kz&Hy'&Hz&H'). exists nx, kx, nz, kz. split_and!; [done..|].
    destruct Hy as [Ey _], Hy' as [Ey' _]. rewrite Ey in Ey'. injection Ey' as _ <-. auto.
  - exists r. by split_and!.
Qed.

Definition three_dests : list string := ["10.0.0.0/8"; "192.168.1.7"; "10.1.0.0/16"].

(** A network given by its bytes. *)
Definition dest_check (a : string) (ip : IP) (k : nat) : bool :=
  bool_decide (ParseCIDR_addr (with_mask a) = Some (ip, mkNet ip (CIDRMask k 32))) && bool_decide (Mask ip (CIDRMask k 32) = ip).

Lemma dest_check_ok a ip k : dest_check a ip k = true → (k <= 32)%nat → ok 4 ip → ∃ n k, dest4 a n k.
Proof.
  intros H Hk Hip. apply andb_true_iff in H as [H1%bool_decide_eq_true H2%bool_decide_eq_true]. exists (mkNet ip (CIDRMask k 32)), k. done.
Qed.

Lemma three_dests_ok : Forall (λ a, ∃ n k, dest4 a n k) three_dests.
Proof.
  unfold three_dests. apply Forall_cons; split; [|apply Forall_cons; split; [|apply Forall_singleton]].
  - apply (dest_check_ok _ [10; 0; 0; 0] 8); [vm_compute; reflexivity|lia|]. split; [done|]. repeat constructor; lia.
  - apply (dest_check_ok _ [192; 168; 1; 7] 32); [vm_compute; reflexivity|lia|]. split; [done|]. repeat constructor; lia.
  - apply (dest_check_ok _ [10; 1; 0; 0] 16); [vm_compute; reflexivity|lia|]. split; [done|]. repeat constructor; lia.
Qed.

Lemma hsnat_dest_order_witness :
  setDestIp small_sort three_dests = Some ["10.1.0.0/16"; "192.168.1.7"; "10.0.0.0/8"] ∧
  StronglySorted (λ a b, covers a b → covers b a) ["10.1.0.0/16"; "192.168.1.7"; "10.0.0.0/8"].
Proof.
  assert (setDestIp small_sort three_dests = Some ["10.1.0.0/16"; "192.168.1.7"; "10.0.0.0/8"]) as E by (vm_compute; reflexivity).
  destruct (hsnat_dest_order small_sort three_dests) as (d'&E'&_&Hs); [apply Nat.leb_le; reflexivity|exact three_dests_ok|].
  rewrite E in E'. injection E' as <-. exact (conj E Hs).
Defined.

(** ** Behaviours that do not do what the code means to *)

(** A node that left the resource while another one came stays in the table,
    and in the files of its addresses: nodes are only removed when the resource
    has fewer of them. *)
Lemma replaced_node_stays :
  (s ← run_events small_sort nat_cfg [EvGlobalInfo (nat_env []) (Some nat_cr);
         EvGlobalInfo (nat_env []) (Some (<["node3" := [nat_entry "02:00:00:00:00:0b" "u-pol" "10.20.30.40" "pol" 8000]]> (delete "node2" nat_cr)))] nat_start;
   v ← opflexSnatIps nat_cfg (nat_env []) s !! "u-pol"; Some (ri_Mac <$> os_Remote v, ri_PortRange <$> os_Remote v))
  = Some (["02:00:00:00:00:0b"; "02:00:00:00:00:0a"], [[mkRangeP 8000 10999]; [mkRangeP 8000 10999]]).
Proof. vm_compute. reflexivity. Qed.

(** The label that a policy leaves on a pod that is already there has no
    resource, so the policy stays with the pod when the pod's labels do not
    match any more. *)
Lemma label_without_resource :
  (s ← run_events small_sort nat_cfg
         [EvObject (nat_env [blue_pod blue]) (ObjPod (blue_pod blue));
          EvPolicyAdded (nat_env [blue_pod blue]) (blue_policy []);
          EvGlobalInfo (nat_env [blue_pod blue]) (Some nat_cr);
          EvObject (nat_env [blue_pod ∅]) (ObjPod (blue_pod ∅))] nat_start;
   li ← opflexSnatLocalInfos s !! "uid-1"; Some (Snatpolicies li !! POD, PlcyUuids li))
  = Some (Some ["pol"], ["u-pol"]).
Proof. vm_compute. reflexivity. Qed.

(** A second IPv6 destination is a panic. *)
Lemma ipv6_destinations_panic :
  snatPolicyAdded small_sort nat_cfg (nat_env []) (blue_policy ["2001:db8::1"; "2001:db8::2"]) nat_start = None.
Proof. vm_compute. reflexivity. Qed.

(** When the last identifier of a pod goes, its policies are forgotten, and the
    next port range of the node does not bring them back, although the pod is
    still recorded for the policy. *)
Lemma identifiers_do_not_return :
  (s ← run_events small_sort nat_cfg
         [EvObject (nat_env [blue_pod blue]) (ObjPod (blue_pod blue));
          EvPolicyAdded (nat_env [blue_pod blue]) (blue_policy []);
          EvGlobalInfo (nat_env [blue_pod blue]) (Some nat_cr);
          EvGlobalInfo (nat_env [blue_pod blue]) (Some (<["node1" := []]> nat_cr));
          EvPolicyUpdated (nat_env [blue_pod blue]) (blue_policy []) (blue_policy ["10.0.0.0/8"]);
          EvGlobalInfo (nat_env [blue_pod blue]) (Some nat_cr)] nat_start;
   Some (snatPods s !! "pol" ≫= lookup "uid-1", getSnatUuids "uid-1" None s)) = Some (Some POD, []).
Proof. vm_compute. reflexivity. Qed.

(** After a restart, a pod that no policy selects any more keeps the
    identifiers of its endpoint file. *)
Lemma restart_keeps_identifiers :
  (s ← run_events small_sort nat_cfg
         [EvPopulate [mkPodLocalInfo "web" "ns" "uid-1" [mkLocalPolicy "pol" "10.20.30.40" []]];
          EvObject (nat_env [blue_pod ∅]) (ObjPod (blue_pod ∅));
          EvPolicyAdded (nat_env [blue_pod ∅]) (blue_policy []);
          EvGlobalInfo (nat_env [blue_pod ∅]) (Some nat_cr)] nat_start;
   Some (getSnatUuids "uid-1" (Some ["u-pol"]) s)) = Some ["u-pol"].
Proof. vm_compute. reflexivity. Qed.

(** A policy without destinations that was applied first hides a more specific
    one of the same resource: the comparison does not move it. *)
Lemma catch_all_hides_specific :
  (s ← run_events small_sort nat_cfg
         [EvObject (nat_env [blue_pod blue]) (ObjPod (blue_pod blue));
          EvPolicyAdded (nat_env [blue_pod blue]) (mkPol "any" ["10.20.30.50"] [] (Some blue) EmptyString "Ready" "1");
          EvPolicyAdded (nat_env [blue_pod blue]) (blue_policy ["10.1.0.0/16"]);
          EvGlobalInfo (nat_env [blue_pod blue])
            (Some {["node1" := [nat_entry "m" "u-pol" "10.20.30.40" "pol" 5000; nat_entry "m" "u-any" "10.20.30.50" "any" 5000]]})] nat_start;
   Some (getSnatUuids "uid-1" None s)) = Some ["u-any"].
Proof. vm_compute. reflexivity. Qed.
