(* ===== verification/GoJson.v ===== *)
(** * GoJson: the JSON texts of annotations

    What json.Unmarshal of Go's encoding/json accepts and the tree that it
    reads: white space, literals, numbers, strings with escapes and invalid
    UTF-8 replaced, arrays and objects, nested at most [maxNestingDepth] deep.
    A text is a list of bytes.  Numbers keep their text.

    The parser carries fuel; [value_enough] shows that twice the length of the
    text is enough. *)
From S2P Require Import Prelude GoSha.

Open Scope Z_scope.

Inductive json :=
  | JNull
  | JBool (b : bool)
  | JNum (text : list Z)
  | JStr (s : string)
  | JArr (l : list json)
  | JObj (l : list (string * json)).

Fixpoint bytes_string (l : list Z) : string :=
  match l with
  | [] => EmptyString
  | b :: l => String (Ascii.ascii_of_nat (Z.to_nat b)) (bytes_string l)
  end.

(** ** Strings *)

Definition between (lo hi c : Z) : bool := (lo <=? c) && (c <=? hi).

Definition unhex (c : Z) : option Z :=
  if between 48 57 c then Some (c - 48)
  else if between 97 102 c then Some (c - 87)
  else if between 65 70 c then Some (c - 55)
  else None.

Definition hex4 (a b c d : Z) : option Z :=
  a ← unhex a; b ← unhex b; c ← unhex c; d ← unhex d;
  Some (((a * 16 + b) * 16 + c) * 16 + d).

(** The character that an escape of two characters stands for. *)
Definition escape (e : Z) : option Z :=
  if e =? 98 then Some 8
  else if e =? 102 then Some 12
  else if e =? 110 then Some 10
  else if e =? 114 then Some 13
  else if e =? 116 then Some 9
  else if (e =? 92) || (e =? 47) || (e =? 34) then Some e
  else None.

Definition RuneError : Z := 65533.

(** utf8.EncodeRune. *)
Definition EncodeRune (r : Z) : list Z :=
  if r <? 128 then [r]
  else if r <? 2048 then [192 + r / 64; 128 + r mod 64]
  else if between 55296 57343 r || (1114111 <? r) then [239; 191; 189]
  else if r <? 65536 then [224 + r / 4096; 128 + (r / 64) mod 64; 128 + r mod 64]
  else [240 + r / 262144; 128 + (r / 4096) mod 64; 128 + (r / 64) mod 64; 128 + r mod 64].

(** utf16.DecodeRune, [None] for the replacement character. *)
Definition DecodeSurrogates (r1 r2 : Z) : option Z :=
  if between 55296 56319 r1 && between 56320 57343 r2
  then Some ((r1 - 55296) * 1024 + (r2 - 56320) + 65536) else None.

Definition cont (c : Z) : bool := between 128 191 c.

(** The second bytes that a first byte of a longer sequence allows. *)
Definition second_ok (c0 c1 : Z) : bool :=
  if c0 =? 224 then between 160 191 c1
  else if c0 =? 237 then between 128 159 c1
  else if c0 =? 240 then between 144 191 c1
  else if c0 =? 244 then between 128 143 c1
  else cont c1.

(** The raw text up to the closing quote, and what follows it. *)
Fixpoint scan_string (l : list Z) : option (list Z * list Z) :=
  match l with
  | [] => None
  | c :: l =>
      if c =? 34 then Some ([], l)
      else if c =? 92 then
        match l with
        | [] => None
        | e :: l =>
            if e =? 117 then
              match l with
              | x0 :: x1 :: x2 :: x3 :: l =>
                  _ ← hex4 x0 x1 x2 x3;
                  '(raw, r) ← scan_string l;
                  Some (c :: e :: x0 :: x1 :: x2 :: x3 :: raw, r)
              | _ => None
              end
            else _ ← escape e; '(raw, r) ← scan_string l; Some (c :: e :: raw, r)
        end
      else if c <? 32 then None
      else '(raw, r) ← scan_string l; Some (c :: raw, r)
  end.

(** unquoteBytes on a text that was scanned. *)
Fixpoint unquote (l : list Z) : list Z :=
  match l with
  | [] => []
  | c :: l1 =>
      if c =? 92 then
        match l1 with
        | [] => []
        | e :: l2 =>
            if e =? 117 then
              match l2 with
              | x0 :: x1 :: x2 :: x3 :: l3 =>
                  let rr := default RuneError (hex4 x0 x1 x2 x3) in
                  if between 55296 57343 rr then
                    match l3 with
                    | y0 :: y1 :: y2 :: y3 :: y4 :: y5 :: l4 =>
                        match (if (y0 =? 92) && (y1 =? 117) then hex4 y2 y3 y4 y5 ≫= DecodeSurrogates rr else None) with
                        | Some r => (EncodeRune r ++ unquote l4)%list
                        | None => (EncodeRune RuneError ++ unquote l3)%list
                        end
                    | _ => (EncodeRune RuneError ++ unquote l3)%list
                    end
                  else (EncodeRune rr ++ unquote l3)%list
              | _ => []
              end
            else default e (escape e) :: unquote l2
        end
      else if c <? 128 then c :: unquote l1
      else
        match l1 with
        | c1 :: l2 =>
            if between 194 223 c && cont c1 then c :: c1 :: unquote l2
            else
              match l2 with
              | c2 :: l3 =>
                  if between 224 239 c && second_ok c c1 && cont c2 then c :: c1 :: c2 :: unquote l3
                  else
                    match l3 with
                    | c3 :: l4 =>
                        if between 240 244 c && second_ok c c1 && cont c2 && cont c3
                        then c :: c1 :: c2 :: c3 :: unquote l4
                        else (EncodeRune RuneError ++ unquote l1)%list
                    | [] => (EncodeRune RuneError ++ unquote l1)%list
                    end
              | [] => (EncodeRune RuneError ++ unquote l1)%list
              end
        | [] => EncodeRune RuneError
        end
  end.

Definition string_of (raw : list Z) : string := bytes_string (unquote raw).

(** ** Values *)

Definition is_space (c : Z) : bool := (c =? 32) || (c =? 9) || (c =? 13) || (c =? 10).

Fixpoint skip_space (l : list Z) : list Z :=
  match l with
  | c :: l' => if is_space c then skip_space l' else l
  | [] => []
  end.

Fixpoint eat (word l : list Z) : option (list Z) :=
  match word, l with
  | [], _ => Some l
  | w :: word, c :: l => if w =? c then eat word l else None
  | _ :: _, [] => None
  end.

Fixpoint skip_digits (l : list Z) : list Z :=
  match l with
  | c :: l' => if between 48 57 c then skip_digits l' else l
  | [] => []
  end.

(** At least one digit. *)
Definition digits1 (l : list Z) : option (list Z) :=
  match l with
  | c :: l' => if between 48 57 c then Some (skip_digits l') else None
  | [] => None
  end.

Definition exponent (l : list Z) : option (list Z) :=
  match l with
  | c :: l' =>
      if (c =? 101) || (c =? 69) then
        match l' with
        | s :: l'' => digits1 (if (s =? 43) || (s =? 45) then l'' else l')
        | [] => None
        end
      else Some l
  | [] => Some []
  end.

Definition fraction (l : list Z) : option (list Z) :=
  match l with
  | c :: l' => if c =? 46 then digits1 l' else Some l
  | [] => Some []
  end.

(** What follows the number at the head of the text. *)
Definition number (l : list Z) : option (list Z) :=
  let l := match l with c :: l' => if c =? 45 then l' else l | [] => [] end in
  match l with
  | c :: l' =>
      if c =? 48 then fraction l' ≫= exponent
      else if between 49 57 c then fraction (skip_digits l') ≫= exponent
      else None
  | [] => None
  end.

Definition maxNestingDepth : Z := 10000.

Definition scalar (c : Z) (l : list Z) : option (json * list Z) :=
  if c =? 110 then r ← eat [117; 108; 108] l; Some (JNull, r)
  else if c =? 116 then r ← eat [114; 117; 101] l; Some (JBool true, r)
  else if c =? 102 then r ← eat [97; 108; 115; 101] l; Some (JBool false, r)
  else if c =? 34 then '(raw, r) ← scan_string l; Some (JStr (string_of raw), r)
  else r ← number (c :: l); Some (JNum (take (length (c :: l) - length r) (c :: l)), r).

(** [d] values are open around the value. *)
Fixpoint value (n : nat) (d : Z) (l : list Z) {struct n} : option (json * list Z) :=
  match n with
  | O => None
  | S n =>
      match skip_space l with
      | [] => None
      | c :: l =>
          if (c =? 91) || (c =? 123) then
            if maxNestingDepth <=? d then None
            else
              match skip_space l with
              | [] => None
              | c' :: l' =>
                  if c' =? c + 2 then Some (if c =? 91 then JArr [] else JObj [], l')
                  else if c =? 91 then '(vs, r) ← json_elements n (d + 1) l; Some (JArr vs, r)
                  else '(ms, r) ← json_members n (d + 1) l; Some (JObj ms, r)
              end
          else scalar c l
      end
  end
with json_elements (n : nat) (d : Z) (l : list Z) {struct n} : option (list json * list Z) :=
  match n with
  | O => None
  | S n =>
      '(v, l) ← value n d l;
      match skip_space l with
      | [] => None
      | c :: l =>
          if c =? 44 then '(vs, r) ← json_elements n d l; Some (v :: vs, r)
          else if c =? 93 then Some ([v], l)
          else None
      end
  end
with json_members (n : nat) (d : Z) (l : list Z) {struct n} : option (list (string * json) * list Z) :=
  match n with
  | O => None
  | S n =>
      match skip_space l with
      | [] => None
      | q :: l =>
          if negb (q =? 34) then None
          else
            '(raw, l) ← scan_string l;
            match skip_space l with
            | [] => None
            | c :: l =>
                if negb (c =? 58) then None
                else
                  '(v, l) ← value n d l;
                  match skip_space l with
                  | [] => None
                  | c :: l =>
                      if c =? 44 then '(ms, r) ← json_members n d l; Some ((string_of raw, v) :: ms, r)
                      else if c =? 125 then Some ([(string_of raw, v)], l)
                      else None
                  end
            end
      end
  end.

(** The whole text is one value. *)
Definition parse_bytes (l : list Z) : option json :=
  match value (2 * length l + 2) 0 l with
  | Some (v, r) => match skip_space r with [] => Some v | _ => None end
  | None => None
  end.

Definition Unmarshal_json (text : string) : option json := parse_bytes (string_bytes text).

(** ** The fuel is enough *)

Lemma skip_space_length l : (length (skip_space l) <= length l)%nat.
Proof. induction l as [|c l IH]; simpl; [done|]. case_match; simpl; lia. Qed.

Lemma skip_digits_length l : (length (skip_digits l) <= length l)%nat.
Proof. induction l as [|c l IH]; simpl; [done|]. case_match; simpl; lia. Qed.

Lemma eat_length w l r : eat w l = Some r → (length r <= length l)%nat.
Proof.
  revert l. induction w as [|x w IH]; intros [|c l]; simpl; try (intros [= <-]; simpl; lia).
  case_match; [|done]. intros E. apply IH in E. simpl. lia.
Qed.

Lemma digits1_length l r : digits1 l = Some r → (length r < length l)%nat.
Proof.
  destruct l as [|c l]; simpl; [done|]. case_match; [|done]. intros [= <-]. pose proof (skip_digits_length l). lia.
Qed.

Lemma exponent_length l r : exponent l = Some r → (length r <= length l)%nat.
Proof.
  destruct l as [|c [|x l]]; simpl; repeat case_match; try done; try (intros [= <-]; simpl; lia);
    intros E; apply digits1_length in E; simpl in *; lia.
Qed.

Lemma fraction_length l r : fraction l = Some r → (length r <= length l)%nat.
Proof.
  destruct l as [|c l]; simpl; repeat case_match; try (intros [= <-]; simpl; lia).
  intros E. apply digits1_length in E. lia.
Qed.

Lemma number_length l r : number l = Some r → (length r < length l)%nat.
Proof.
  unfold number. set (l1 := match l with c :: l' => if c =? 45 then l' else l | [] => [] end).
  assert (length l1 <= length l)%nat as Hl by (subst l1; repeat case_match; simpl; lia).
  destruct l1 as [|c l']; [done|]. simpl in Hl.
  assert (G : ∀ x, (length x <= length l')%nat → fraction x ≫= exponent = Some r → (length r < length l)%nat).
  { intros x Hx (y&Hf&He)%bind_Some. apply fraction_length in Hf. apply exponent_length in He. lia. }
  repeat case_match; [by apply G| |done]. apply G, skip_digits_length.
Qed.

(** The recursion of [scan_string] skips up to six characters, hence the
    bound on the length. *)
Lemma scan_string_length l raw r : scan_string l = Some (raw, r) → (length r < length l)%nat.
Proof.
  remember (length l) as n eqn:Hn. revert l raw r Hn.
  induction (lt_wf n) as [n _ IH]. intros l raw r Hn H. subst n. destruct l as [|c l]; [done|]. cbn [scan_string] in H.
  assert (G : ∀ (l' : list Z) (f : list Z → list Z), (length l' <= length l)%nat →
    ('(raw0, r0) ← scan_string l'; Some (f raw0, r0)) = Some (raw, r) → (length r < S (length l))%nat).
  { intros l' f Hl ([raw0 r0]&E&[= <- <-])%bind_Some. apply (IH (length l')) in E; simpl; [lia|lia|done]. }
  simpl. destruct (c =? 34); [injection H as <- <-; lia|]. destruct (c =? 92).
  - destruct l as [|e l]; [done|]. destruct (e =? 117).
    + destruct l as [|x0 [|x1 [|x2 [|x3 l]]]]; try done. apply bind_Some in H as (?&_&H).
      eapply (G l (λ raw0, c :: e :: x0 :: x1 :: x2 :: x3 :: raw0)); [simpl; lia|exact H].
    + apply bind_Some in H as (?&_&H). eapply (G l (λ raw0, c :: e :: raw0)); [simpl; lia|exact H].
  - destruct (c <? 32); [done|]. eapply (G l (cons c)); [lia|exact H].
Qed.

Lemma scalar_length c l v r : scalar c l = Some (v, r) → (length r <= length l)%nat.
Proof.
  unfold scalar. destruct (c =? 110); [|destruct (c =? 116); [|destruct (c =? 102); [|destruct (c =? 34)]]]; intros H.
  1-3: apply bind_Some in H as (?&E&[= <- <-]); by apply eat_length in E.
  - apply bind_Some in H as ([raw x]&E&[= <- <-]). apply scan_string_length in E. lia.
  - apply bind_Some in H as (?&E&[= <- <-]). apply number_length in E. simpl in E. lia.
Qed.

Lemma skip_space_cons l c l' : skip_space l = c :: l' → (length l' < length l)%nat.
Proof. intros H. pose proof (skip_space_length l) as Hl. rewrite H in Hl. simpl in Hl. lia. Qed.

Lemma parser_length n :
  (∀ d l v r, value n d l = Some (v, r) → (length r < length l)%nat) ∧
  (∀ d l v r, json_elements n d l = Some (v, r) → (length r < length l)%nat) ∧
  (∀ d l v r, json_members n d l = Some (v, r) → (length r < length l)%nat).
Proof.
  induction n as [|n (IHv&IHe&IHm)]; [done|]. split_and!; intros d l v r; simpl.
  - destruct (skip_space l) as [|c l1] eqn:E1; [done|]. apply skip_space_cons in E1.
    destruct ((c =? 91) || (c =? 123)); [|intros H; apply scalar_length in H; lia].
    destruct (maxNestingDepth <=? d); [done|]. destruct (skip_space l1) as [|c' l2] eqn:E2; [done|]. apply skip_space_cons in E2.
    destruct (c' =? c + 2); [intros [= _ <-]; lia|]. destruct (c =? 91); intros ([vs x]&E&[= _ <-])%bind_Some.
    + apply IHe in E. lia.
    + apply IHm in E. lia.
  - intros ([v1 l1]&E&H)%bind_Some. apply IHv in E. destruct (skip_space l1) as [|c l2] eqn:E2; [done|].
    apply skip_space_cons in E2. destruct (c =? 44).
    + apply bind_Some in H as ([vs x]&H&[= _ <-]). apply IHe in H. lia.
    + destruct (c =? 93); [|done]. injection H as _ <-. lia.
  - destruct (skip_space l) as [|q l1] eqn:E1; [done|]. apply skip_space_cons in E1. destruct (negb (q =? 34)); [done|].
    intros ([raw l2]&E2&H)%bind_Some. apply scan_string_length in E2.
    destruct (skip_space l2) as [|c l3] eqn:E3; [done|]. apply skip_space_cons in E3. destruct (negb (c =? 58)); [done|].
    apply bind_Some in H as ([v1 l4]&E4&H). apply IHv in E4.
    destruct (skip_space l4) as [|c2 l5] eqn:E5; [done|]. apply skip_space_cons in E5. destruct (c2 =? 44).
    + apply bind_Some in H as ([ms x]&H&[= _ <-]). apply IHm in H. lia.
    + destruct (c2 =? 125); [|done]. injection H as _ <-. lia.
Qed.

(** With at least twice the length of the text (and one more for a list), more
    fuel does not change the result. *)
Lemma parser_enough k :
  (∀ n m d l, (length l <= k)%nat → (2 * k <= n)%nat → (2 * k <= m)%nat → value n d l = value m d l) ∧
  (∀ n m d l, (length l <= k)%nat → (2 * k < n)%nat → (2 * k < m)%nat → json_elements n d l = json_elements m d l) ∧
  (∀ n m d l, (length l <= k)%nat → (2 * k < n)%nat → (2 * k < m)%nat → json_members n d l = json_members m d l).
Proof.
  induction k as [|k (IHv&IHe&IHm)].
  { split_and!; intros n m d [|] Hl Hn Hm; simpl in Hl; try lia.
    - by destruct n, m.
    - by destruct n as [|[|n]], m as [|[|m]]; try lia.
    - by destruct n as [|n], m as [|m]; try lia. }
  assert (Hval : ∀ n m d l, (length l <= S k)%nat → (2 * S k <= n)%nat → (2 * S k <= m)%nat → value n d l = value m d l).
  { intros [|n] [|m] d l Hl Hn Hm; try lia. cbn [value]. destruct (skip_space l) as [|c l1] eqn:E1; [done|].
    apply skip_space_cons in E1. destruct ((c =? 91) || (c =? 123)); [|done]. case_match; [done|].
    destruct (skip_space l1) as [|c' l2]; [done|]. destruct (c' =? c + 2); [done|].
    rewrite (IHe n m), (IHm n m) by lia. done. }
  split_and!; [exact Hval| |].
  - intros [|n] [|m] d l Hl Hn Hm; try lia. cbn [json_elements]. rewrite (Hval n m) by lia.
    destruct (value m d l) as [[v l1]|] eqn:E; [|done]. apply parser_length in E. simpl.
    destruct (skip_space l1) as [|c l2] eqn:E2; [done|]. apply skip_space_cons in E2.
    destruct (c =? 44); [|done]. by rewrite (IHe n m) by lia.
  - intros [|n] [|m] d l Hl Hn Hm; try lia. cbn [json_members].
    destruct (skip_space l) as [|q l1] eqn:E1; [done|]. apply skip_space_cons in E1. destruct (negb (q =? 34)); [done|].
    destruct (scan_string l1) as [[raw l2]|] eqn:E2; [|done]. apply scan_string_length in E2. simpl.
    destruct (skip_space l2) as [|c l3] eqn:E3; [done|]. apply skip_space_cons in E3. destruct (negb (c =? 58)); [done|].
    rewrite (Hval n m) by lia. destruct (value m d l3) as [[v l4]|] eqn:E4; [|done]. apply parser_length in E4. simpl.
    destruct (skip_space l4) as [|c2 l5] eqn:E5; [done|]. apply skip_space_cons in E5.
    destruct (c2 =? 44); [|done]. by rewrite (IHm n m) by lia.
Qed.

(** Any larger amount of fuel reads the same value. *)
Lemma value_enough n l : (2 * length l <= n)%nat → value n 0 l = value (2 * length l + 2) 0 l.
Proof. intros H. apply (proj1 (parser_enough (length l))); lia. Qed.

(** ** Texts

    The texts of the examples write an apostrophe for the double quote. *)
Fixpoint dq (s : string) : string :=
  match s with
  | EmptyString => EmptyString
  | String c s => String (if Ascii.eqb c (Ascii.ascii_of_nat 39) then Ascii.ascii_of_nat 34 else c) (dq s)
  end.

Open Scope string_scope.

Example parse_object :
  Unmarshal_json (dq " {'a' : [1, -2.5e3, null ,true], 'b\u00e9\n':{}} ") =
  Some (JObj [("a", JArr [JNum [49%Z]; JNum [45; 50; 46; 53; 101; 51]%Z; JNull; JBool true]);
              (bytes_string [98; 195; 169; 10]%Z, JObj [])]).
Proof. vm_compute. reflexivity. Qed.

Example parse_strings :
  (Unmarshal_json (dq "'\ud83d\ude00\ud83d!'"), Unmarshal_json (dq "'a\x'"), Unmarshal_json (dq "{'a':1,}"),
   Unmarshal_json (dq "01"), Unmarshal_json (dq "'a' b")) =
  (Some (JStr (bytes_string [240; 159; 152; 128; 239; 191; 189; 33]%Z)), None, None, None, None).
Proof. vm_compute. reflexivity. Qed.
