(* ===== verification/HostPods.v ===== *)
(** * HostPods: groups and endpoints of the pods of a host

    src/pkg/hostagent/group_assign.go, pods.go and pod_relatives.go.  A pod of
    the node gets an endpoint group, security groups and a QoS policy from the
    configuration, from annotations and from the policies that select it
    ([assignGroups]); with the interfaces that were configured for its
    containers they make its endpoints ([epChanged]), which [syncEps] writes
    to files for the OpFlex agent.

    The slices of security groups share their arrays: decoding an annotation
    into a slice changes the array of the slice that it starts from.  Arrays
    are kept in a store, and a slice is the address of its array and a length;
    the array's length is the slice's capacity.  The labels of a pod are
    changed in the informer's store.  A panic is [None].

    Parameters: the capacity that a slice gets when it grows, the orders of
    loops over Go maps where they show, the answers of the API server and of
    the file system.  Random identifiers are an argument. *)
From S2P Require Import Prelude GoBytes GoNet GoText IpAlloc IpCache GoSha PodIndex K8s AciNames NetPol SvcTypes PodNet OpflexDev SvcGraph HostIpam HostSvc HostSnat.
From S2P Require Import GoJson.

Open Scope string_scope.

(** ** Groups and their JSON *)

Record OpflexGroup := mkGroup {
  Tenant : string;
  PolicySpace : string;
  AppProfile : string;
  og_Name : string
}.

#[export] Instance OpflexGroup_eq_dec : EqDecision OpflexGroup.
Proof. solve_decision. Defined.
#[export] Instance OpflexGroup_countable : Countable OpflexGroup.
Proof.
  refine (inj_countable' (λ g, (Tenant g, PolicySpace g, AppProfile g, og_Name g)) (λ '(t, p, a, n), mkGroup t p a n) _).
  by intros [].
Defined.

Definition zero_group : OpflexGroup := mkGroup EmptyString EmptyString EmptyString EmptyString.

Inductive gfield := FTenant | FPolicySpace | FAppProfile | FName.

#[export] Instance gfield_eq_dec : EqDecision gfield.
Proof. solve_decision. Defined.

Definition get_field (f : gfield) (g : OpflexGroup) : string :=
  match f with FTenant => Tenant g | FPolicySpace => PolicySpace g | FAppProfile => AppProfile g | FName => og_Name g end.

Definition set_field (f : gfield) (s : string) (g : OpflexGroup) : OpflexGroup :=
  match f with
  | FTenant => mkGroup s (PolicySpace g) (AppProfile g) (og_Name g)
  | FPolicySpace => mkGroup (Tenant g) s (AppProfile g) (og_Name g)
  | FAppProfile => mkGroup (Tenant g) (PolicySpace g) s (og_Name g)
  | FName => mkGroup (Tenant g) (PolicySpace g) (AppProfile g) s
  end.

(** The tags of the fields. *)
Definition gfields : list (gfield * string) :=
  [(FTenant, "tenant"); (FPolicySpace, "policy-space"); (FAppProfile, "app-profile"); (FName, "name")].

Definition upper (c : Z) : Z := if between 97 122 c then c - 32 else c.

(** encoding/json compares keys without case; the long s counts as s. *)
Fixpoint equalFold (name key : list Z) : bool :=
  match name, key with
  | [], [] => true
  | n :: name, k :: key =>
      if (k <? 128)%Z then (upper n =? upper k)%Z && equalFold name key
      else match key with
           | k2 :: key => (k =? 197)%Z && (k2 =? 191)%Z && (upper n =? 83)%Z && equalFold name key
           | [] => false
           end
  | _, _ => false
  end.

Definition field_of (key : string) : option gfield :=
  fst <$> List.find (λ f, equalFold (string_bytes f.2) (string_bytes key)) gfields.

(** A member that is not a string is an error, which is saved, or null; the
    field keeps its value. *)
Definition decode_member (g : OpflexGroup) (m : string * json) : OpflexGroup :=
  match field_of m.1, m.2 with
  | Some f, JStr s => set_field f s g
  | _, _ => g
  end.

Definition decode_group (g : OpflexGroup) (v : json) : OpflexGroup :=
  match v with JObj ms => foldl decode_member g ms | _ => g end.

(** ** Slices of groups *)

Record gslice := mkSl { sl_arr : nat; sl_len : nat }.
Abbreviation garrays := (list (list OpflexGroup)).

#[export] Instance gslice_eq_dec : EqDecision gslice.
Proof. solve_decision. Defined.

Definition array (h : garrays) (a : nat) : list OpflexGroup := default [] (h !! a).

(** What a slice holds; nil is [None]. *)
Definition groups_of (h : garrays) (s : option gslice) : list OpflexGroup :=
  match s with Some s => take (sl_len s) (array h (sl_arr s)) | None => [] end.

(** A new slice with these elements and no further capacity. *)
Definition new_slice (h : garrays) (l : list OpflexGroup) : garrays * option gslice :=
  ((h ++ [l])%list, Some (mkSl (length h) (length l))).

Abbreviation pod_index := (PodSelectorIndex (Selector := Selector)).

Section Groups.
Context (growcap : nat → nat).

(** Room for the element [i]: the slice, or a copy of it in a larger array. *)
Definition make_room (i : nat) (h : garrays) (s : option gslice) : garrays * gslice :=
  match s with
  | Some s =>
      let a := array h (sl_arr s) in
      if (length a <=? i)%nat then
        ((h ++ [(take (sl_len s) a ++ replicate (growcap (length a) - sl_len s) zero_group)%list])%list, mkSl (length h) (sl_len s))
      else (h, s)
  | None => ((h ++ [replicate (growcap 0) zero_group])%list, mkSl (length h) 0)
  end.

(** The elements of a JSON array, from index [i] on: each is decoded into the
    element that is there. *)
Fixpoint decode_elems (i : nat) (vs : list json) (h : garrays) (s : option gslice) : garrays * option gslice :=
  match vs with
  | [] =>
      match i, s with
      | O, _ | _, None => new_slice h []
      | _, Some s => (h, Some (mkSl (sl_arr s) i))
      end
  | v :: vs =>
      let '(h, s) := make_room i h s in
      decode_elems (S i) vs (alter (alter (λ g, decode_group g v) i) (sl_arr s) h)
        (Some (mkSl (sl_arr s) (sl_len s `max` S i)))
  end.

Definition decode_slice (h : garrays) (s : option gslice) (v : json) : garrays * option gslice :=
  match v with JArr vs => decode_elems 0 vs h s | _ => (h, s) end.

(** decodeAnnotation into a group and into a slice of groups. *)
Definition annotation_json (annStr : string) : option json :=
  if String.eqb annStr EmptyString then None else Unmarshal_json annStr.

Definition decodeAnnotation (annStr : string) (into : OpflexGroup) : OpflexGroup :=
  match annotation_json annStr with Some v => decode_group into v | None => into end.

Definition decodeAnnotation_slice (annStr : string) (into : garrays * option gslice) : garrays * option gslice :=
  match annotation_json annStr with Some v => decode_slice into.1 into.2 v | None => into end.

Definition EgAnnotation : string := "opflex.cisco.com/endpoint-group".
Definition SgAnnotation : string := "opflex.cisco.com/security-group".
Definition QpAnnotation : string := "opflex.cisco.com/qospolicy".
Definition NetAttDefAnnotation : string := "k8s.v1.cni.cncf.io/networks".
Definition MultusNetAnnotation : string := "v1.multus-cni.io/default-network".

Definition ann (m : gmap string string) (key : string) : string := default EmptyString (m !! key).

(** ** Objects, stores and indexes *)

Record RC := mkRC {
  rc_Namespace : string;
  rc_Name : string;
  rc_Annotations : gmap string string;
  rc_Selector : labels;
  rc_TemplateLabels : labels
}.

(** A QoS policy; the ingress and egress parts are only compared. *)
Record QosPolicy := mkQos {
  qp_Namespace : string;
  qp_Name : string;
  qp_Selector : labels;
  qp_Ingress : string;
  qp_Egress : string
}.

Record PodStores := mkPodStores {
  st_pods : gmap string HostPod;
  st_nss : gmap string NsObj;
  st_netpols : gmap string NetworkPolicy;
  st_qos : gmap string QosPolicy;
  st_deps : gmap string Deployment;
  st_rcs : gmap string RC
}.

Record PodIndexes := mkPodIndexes {
  depPods : pod_index;
  rcPods : pod_index;
  netPolPods : pod_index;
  qosPolPods : pod_index
}.

(** The configuration; the slices of security groups are in the store of
    arrays. *)
Record PodCfg := mkPodCfg {
  pc_AciPrefix : string;
  pc_HppOptimization : bool;
  pc_AciVmmDomainType : string;
  pc_NodeName : string;
  DefaultEg : OpflexGroup;
  DefaultSg : option gslice;
  DefaultQp : OpflexGroup;
  NamespaceDefaultEg : gmap string OpflexGroup;
  NamespaceDefaultSg : gmap string (option gslice);
  NamespaceDefaultQp : gmap string OpflexGroup
}.

Context (cfg : PodCfg).
(** The order in which a loop over a set of keys takes them. *)
Context (set_order : gset string → list string).

Definition pod_key (p : HostPod) : string := MetaNamespaceKey (po_Namespace p) (po_Name p).
Definition aci_name (ktype key : string) : string := AciNameForKey (pc_AciPrefix cfg) ktype key.
Definition own_group (name : string) : OpflexGroup := mkGroup EmptyString (PolicySpace (DefaultEg cfg)) EmptyString name.

(** ** Assigning groups *)

(** The set that guards against repetition, and the slice so far. *)
Definition addGroup (acc : gset OpflexGroup * list OpflexGroup) (newg : OpflexGroup) : gset OpflexGroup * list OpflexGroup :=
  let '(gset, g) := acc in
  if bool_decide (newg ∈ gset) then acc else ({[newg]} ∪ gset, (g ++ [newg])%list).

Definition addPolicy (acc : gset OpflexGroup * OpflexGroup) (newg : OpflexGroup) : gset OpflexGroup * OpflexGroup :=
  let '(gset, g) := acc in
  if bool_decide (newg ∈ gset) then acc else ({[newg]} ∪ gset, newg).

Definition mergeQosPolicy (ix : PodIndexes) (podkey : string) (qpval : OpflexGroup) : OpflexGroup :=
  let '(gset, g) := foldl (λ acc qpkey, addPolicy acc (own_group (aci_name "qp" qpkey))) (∅, zero_group)
                      (set_order (GetObjForPod (qosPolPods ix) podkey)) in
  if bool_decide (gset = ∅) then qpval else g.

Definition np_group (npkey : string) (np : NetworkPolicy) : OpflexGroup :=
  own_group (if pc_HppOptimization cfg then aci_name "np" (CreateHashFromNetPol np) else aci_name "np" npkey).

(** The policies of the pod that are in the store. *)
Definition stored_policies (st : PodStores) (ix : PodIndexes) (podkey : string) : list (string * NetworkPolicy) :=
  omap (λ npkey, np ← st_netpols st !! npkey; Some (npkey, np)) (set_order (GetObjForPod (netPolPods ix) podkey)).

Definition mergeNetPolSg (st : PodStores) (ix : PodIndexes) (podkey : string) (pod : HostPod)
    (hs : garrays * option gslice) : garrays * option gslice :=
  let '(h, sgval) := hs in
  let pols := stored_policies st ix podkey in
  let '(gset, g) := foldl (λ acc p, addGroup acc (np_group p.1 p.2)) (∅, []) pols in
  let ptypeset : list string := concat (map (λ p, GetNetPolPolicyTypes (Some p.2)) pols) in
  if bool_decide (gset = ∅) then hs
  else
    let sgs := groups_of h sgval in
    let acc := (list_to_set sgs ∪ gset, (g ++ sgs)%list) in
    let acc := if String.eqb (po_NodeName pod) EmptyString then acc else addGroup acc (own_group (aci_name "node" (po_NodeName pod))) in
    let acc := addGroup acc (own_group (aci_name "np" "static-discovery")) in
    let acc := if bool_decide ("Ingress" ∈ ptypeset) then acc else addGroup acc (own_group (aci_name "np" "static-ingress")) in
    let acc := if bool_decide ("Egress" ∈ ptypeset) then acc else addGroup acc (own_group (aci_name "np" "static-egress")) in
    new_slice h acc.2.

(** The annotations of the first deployment that is in the store, or else of
    the first replication controller. *)
Definition getParentAnn (st : PodStores) (ix : PodIndexes) (podKey : string) : option (gmap string string) :=
  let deps := omap (λ pkey, dep_Annotations <$> st_deps st !! pkey) (set_order (GetObjForPod (depPods ix) podKey)) in
  let rcs := omap (λ pkey, rc_Annotations <$> st_rcs st !! pkey) (set_order (GetObjForPod (rcPods ix) podKey)) in
  head (deps ++ rcs)%list.

(** Namespaces whose annotation for the system group is not followed. *)
Definition offset_namespaces : list string :=
  ["kube-service-catalog"; "openshift-console"; "openshift-monitoring"; "openshift-web-console"].

Definition ignored_ns_annotation (ns : NsObj) : bool :=
  String.eqb (pc_AciVmmDomainType cfg) "OpenShift" &&
  String.eqb (og_Name (decodeAnnotation (ann (nso_Annotations ns) EgAnnotation) zero_group)) "kubernetes|kube-system" &&
  bool_decide (nso_Name ns ∈ offset_namespaces).

(** The three values that are assigned, with the store of arrays. *)
Record assigned := mkAssigned { as_eg : OpflexGroup; as_sg : garrays * option gslice; as_qp : OpflexGroup }.

Definition annotate (m : gmap string string) (with_eg : bool) (v : assigned) : assigned :=
  mkAssigned (if with_eg then decodeAnnotation (ann m EgAnnotation) (as_eg v) else as_eg v)
    (decodeAnnotation_slice (ann m SgAnnotation) (as_sg v))
    (decodeAnnotation (ann m QpAnnotation) (as_qp v)).

(** The configured values for a namespace. *)
Definition configured (ns : string) (h : garrays) : assigned :=
  mkAssigned (default (DefaultEg cfg) (NamespaceDefaultEg cfg !! ns))
    (h, default (DefaultSg cfg) (NamespaceDefaultSg cfg !! ns))
    (default (DefaultQp cfg) (NamespaceDefaultQp cfg !! ns)).

(** The annotations in the order in which they are applied: of the namespace,
    of the parent, of the pod. *)
Definition annotated (st : PodStores) (ix : PodIndexes) (pod : HostPod) (h : garrays) : assigned :=
  let v := configured (po_Namespace pod) h in
  let v := match st_nss st !! po_Namespace pod with
           | Some ns => annotate (nso_Annotations ns) (negb (ignored_ns_annotation ns)) v
           | None => v
           end in
  let v := match getParentAnn st ix (pod_key pod) with Some m => annotate m true v | None => v end in
  annotate (po_Annotations pod) true v.

Definition assignGroups (st : PodStores) (ix : PodIndexes) (pod : HostPod) (h : garrays) : assigned :=
  let v := annotated st ix pod h in
  mkAssigned (as_eg v) (mergeNetPolSg st ix (pod_key pod) pod (as_sg v)) (mergeQosPolicy ix (pod_key pod) (as_qp v)).
End Groups.

(** ** Endpoints *)

(** The security groups are a slice in the agent, and a list in a file or in a
    copy. *)
Record opflexEndpoint {SG : Type} := mkEp {
  oe_Uuid : string;
  EgPolicySpace : string;
  EndpointGroup : string;
  SecurityGroup : SG;
  oe_QosPolicy : OpflexGroup;
  IpAddress : list string;
  MacAddress : string;
  AccessIface : string;
  AccessUplinkIface : string;
  IfaceName : string;
  Attributes : gmap string string;
  SnatUuid : list string;
  ServiceClusterIps : list string;
  registered : bool
}.
Arguments opflexEndpoint : clear implicits.
Arguments mkEp {SG}.

#[export] Instance opflexEndpoint_eq_dec {SG} `{!EqDecision SG} : EqDecision (opflexEndpoint SG).
Proof. solve_decision. Defined.

Abbreviation endpoint := (opflexEndpoint (option gslice)).
Abbreviation file_ep := (opflexEndpoint (list OpflexGroup)).

Definition map_sg {A B} (f : A → B) (e : opflexEndpoint A) : opflexEndpoint B :=
  mkEp (oe_Uuid e) (EgPolicySpace e) (EndpointGroup e) (f (SecurityGroup e)) (oe_QosPolicy e) (IpAddress e) (MacAddress e)
    (AccessIface e) (AccessUplinkIface e) (IfaceName e) (Attributes e) (SnatUuid e) (ServiceClusterIps e) (registered e).

Definition set_registered {A} (b : bool) (e : opflexEndpoint A) : opflexEndpoint A :=
  mkEp (oe_Uuid e) (EgPolicySpace e) (EndpointGroup e) (SecurityGroup e) (oe_QosPolicy e) (IpAddress e) (MacAddress e)
    (AccessIface e) (AccessUplinkIface e) (IfaceName e) (Attributes e) (SnatUuid e) (ServiceClusterIps e) b.

Definition set_snat_services {A} (uuids ips : list string) (e : opflexEndpoint A) : opflexEndpoint A :=
  mkEp (oe_Uuid e) (EgPolicySpace e) (EndpointGroup e) (SecurityGroup e) (oe_QosPolicy e) (IpAddress e) (MacAddress e)
    (AccessIface e) (AccessUplinkIface e) (IfaceName e) (Attributes e) uuids ips (registered e).

(** What reflect.DeepEqual compares: nil and the empty slice differ. *)
Definition deep_ep (h : garrays) (e : endpoint) : opflexEndpoint (option (list OpflexGroup)) :=
  map_sg (λ s, match s with Some _ => Some (groups_of h s) | None => None end) e.

(** util.DeepCopyObj: through JSON, where [registered] is not written. *)
Definition copy_ep (h : garrays) (e : endpoint) : file_ep := set_registered false (map_sg (groups_of h) e).

(** The endpoint of an interface. *)
Definition iface_ep (epUuid contId : string) (g : OpflexGroup) (sg : option gslice) (qp : OpflexGroup)
    (attrs : gmap string string) (iface : ContainerIfaceMd) : endpoint :=
  let veth := HostVethName iface in
  let ips := map IP_String (List.filter (λ ip, negb (length ip =? 0)%nat) (map ip_of (if_IPs iface))) in
  mkEp (epUuid ++ "_" ++ contId ++ "_" ++ veth)
    (if String.eqb (Tenant g) EmptyString then PolicySpace g else Tenant g)
    (if String.eqb (AppProfile g) EmptyString then og_Name g else AppProfile g ++ "|" ++ og_Name g)
    sg qp ips (if_Mac iface) veth ("pa-" ++ veth) ("pi-" ++ veth)
    (<["interface-name" := veth]> attrs) [] [] false.

(** ** State *)

Record PodTables := mkTables {
  cniToPodID : gmap string string;
  podIpToName : gmap string string;
  podUidToName : gmap string string;
  podToNetAttachDef : gmap string (list string)
}.

(** An interface that is published through the API server. *)
Record PodIF := mkPodIF {
  PodNS : string;
  PodName : string;
  ContainerID : string;
  MacAddr : string;
  IPAddr : string;
  EPG : string;
  VTEP : string;
  IFName : string
}.

#[export] Instance PodIF_eq_dec : EqDecision PodIF.
Proof. solve_decision. Defined.

(** An endpoint file, or any other text, which does not decode. *)
Inductive EpText := EpFile (e : file_ep) | EpOther (s : string).
#[export] Instance EpText_eq_dec : EqDecision EpText.
Proof. solve_decision. Defined.

(** The directory of endpoint files, and what is published. *)
Record EpOutput := mkEpOutput {
  epDir : gmap string EpText;
  nodePodIfEPs : gmap string file_ep;
  podIFs : gmap string PodIF;
  nodePodIF : option (list PodIF)
}.

(** [hp_syncs] counts the calls of scheduleSyncEps. *)
Record HostPods := mkHostPods {
  hp_stores : PodStores;
  hp_arrays : garrays;
  opflexEps : gmap string (list endpoint);
  hp_tables : PodTables;
  hp_ix : PodIndexes;
  hp_snat : HSnat;
  hp_agent : HostAgent;
  hp_out : EpOutput;
  hp_syncs : nat
}.

Definition set_stores (st : PodStores) (s : HostPods) : HostPods :=
  mkHostPods st (hp_arrays s) (opflexEps s) (hp_tables s) (hp_ix s) (hp_snat s) (hp_agent s) (hp_out s) (hp_syncs s).
Definition set_arrays (h : garrays) (s : HostPods) : HostPods :=
  mkHostPods (hp_stores s) h (opflexEps s) (hp_tables s) (hp_ix s) (hp_snat s) (hp_agent s) (hp_out s) (hp_syncs s).
Definition set_eps (m : gmap string (list endpoint)) (s : HostPods) : HostPods :=
  mkHostPods (hp_stores s) (hp_arrays s) m (hp_tables s) (hp_ix s) (hp_snat s) (hp_agent s) (hp_out s) (hp_syncs s).
Definition set_tables (t : PodTables) (s : HostPods) : HostPods :=
  mkHostPods (hp_stores s) (hp_arrays s) (opflexEps s) t (hp_ix s) (hp_snat s) (hp_agent s) (hp_out s) (hp_syncs s).
Definition set_ix (i : PodIndexes) (s : HostPods) : HostPods :=
  mkHostPods (hp_stores s) (hp_arrays s) (opflexEps s) (hp_tables s) i (hp_snat s) (hp_agent s) (hp_out s) (hp_syncs s).
Definition set_snat (n : HSnat) (s : HostPods) : HostPods :=
  mkHostPods (hp_stores s) (hp_arrays s) (opflexEps s) (hp_tables s) (hp_ix s) n (hp_agent s) (hp_out s) (hp_syncs s).
Definition set_agent (a : HostAgent) (s : HostPods) : HostPods :=
  mkHostPods (hp_stores s) (hp_arrays s) (opflexEps s) (hp_tables s) (hp_ix s) (hp_snat s) a (hp_out s) (hp_syncs s).
Definition set_out (o : EpOutput) (s : HostPods) : HostPods :=
  mkHostPods (hp_stores s) (hp_arrays s) (opflexEps s) (hp_tables s) (hp_ix s) (hp_snat s) (hp_agent s) o (hp_syncs s).
Definition scheduleSyncEps (s : HostPods) : HostPods :=
  mkHostPods (hp_stores s) (hp_arrays s) (opflexEps s) (hp_tables s) (hp_ix s) (hp_snat s) (hp_agent s) (hp_out s) (S (hp_syncs s)).

#[export] Instance HostPod_eq_dec : EqDecision HostPod.
Proof. solve_decision. Defined.

(** Deletions are told with the object, or with the last known state of an
    object whose deletion was missed. *)
Inductive deleted {A : Type} := DeletedObj (a : A) | DeletedFinalStateUnknown (o : option A) | DeletedUnexpected.
Arguments deleted : clear implicits.

(** What the handlers take from the rest of the agent: the services, the zone
    of source NAT and the environment of the services. *)
Record PodEnv := mkPodEnv { pe_services : gmap string SnatSvc; pe_zone : Z; pe_host : HostEnv }.

Section Handlers.
Context (growcap : nat → nat) (set_order : gset string → list string).
Context (md_order : gmap string ContainerMetadata → list ContainerMetadata).
Context (pdqsort : (string → string → option bool) → list string → option (list string)).
Context (cfg : PodCfg) (hcfg : HostCfg) (env : PodEnv).

(** A loop whose body can panic. *)
Fixpoint for_each {A} (f : A → HostPods → option HostPods) (l : list A) (s : HostPods) : option HostPods :=
  match l with
  | [] => Some s
  | x :: l => s ← f x s; for_each f l s
  end.

(** ** Source NAT *)

Definition snat_env (s : HostPods) : SnatEnv :=
  mkSnatEnv (st_pods (hp_stores s)) (st_deps (hp_stores s)) (st_nss (hp_stores s)) (pe_services env) (depPods (hp_ix s))
    (map_to_list (opflexEps s)).*1 (pe_zone env) (pe_host env).

Definition snat_update (obj : SnatObj) (s : HostPods) : option HostPods :=
  n ← handleObjectUpdateForSnat pdqsort hcfg (snat_env s) obj (hp_snat s); Some (set_snat n s).
Definition snat_delete (obj : SnatObj) (s : HostPods) : option HostPods :=
  n ← handleObjectDeleteForSnat pdqsort hcfg (snat_env s) obj (hp_snat s); Some (set_snat n s).

(** ** Pods *)

Definition epDeleted (epUuid : string) (s : HostPods) : HostPods :=
  match opflexEps s !! epUuid with
  | Some _ => scheduleSyncEps (set_eps (delete epUuid (opflexEps s)) s)
  | None => s
  end.

(** [neweps[ix].registered = ep.registered] for every existing endpoint; an
    index out of range is a panic. *)
Fixpoint keep_registered (existing neweps : list endpoint) : option (list endpoint) :=
  match existing, neweps with
  | [], _ => Some neweps
  | _ :: _, [] => None
  | e :: existing, n :: neweps => r ← keep_registered existing neweps; Some (set_registered (registered e) n :: r)
  end.

Definition new_eps (epUuid : string) (mdmap : gmap string ContainerMetadata) (g : OpflexGroup) (sg : option gslice)
    (qp : OpflexGroup) (attrs : gmap string string) : list endpoint :=
  flat_map (λ md, map (iface_ep epUuid (md_ContId md) g sg qp attrs) (Ifaces md)) (md_order mdmap).

Definition epChanged (epUuid epMetaKey : string) (g : OpflexGroup) (sg : option gslice) (qp : OpflexGroup)
    (attrs : gmap string string) (s : HostPods) : option HostPods :=
  match epMetadata (hp_agent s) !! epMetaKey with
  | None => Some (scheduleSyncEps (set_eps (delete epUuid (opflexEps s)) s))
  | Some mdmap =>
      let existing := opflexEps s !! epUuid in
      neweps ← keep_registered (default [] existing) (new_eps epUuid mdmap g sg qp attrs);
      let changed := match existing with
                     | Some existing => negb (bool_decide (map (deep_ep (hp_arrays s)) existing = map (deep_ep (hp_arrays s)) neweps))
                     | None => true
                     end in
      if changed then
        match neweps with
        | [] => None
        | _ => Some (scheduleSyncEps (set_eps (<[epUuid := neweps]> (opflexEps s)) s))
        end
      else Some s
  end.

Definition pod_attrs (pod : HostPod) : labels :=
  <["namespace" := po_Namespace pod]> (<["vm-name" := po_Name pod]> (default ∅ (po_Labels pod))).

(** The attributes are written into the map of labels that the informer's
    store holds. *)
Definition label_pod (pod : HostPod) (st : PodStores) : PodStores :=
  match po_Labels pod with
  | Some _ =>
      if bool_decide (st_pods st !! pod_key pod = Some pod) then
        mkPodStores
          (<[pod_key pod := mkHostPod (po_Namespace pod) (po_Name pod) (po_UID pod) (Some (pod_attrs pod)) (po_Annotations pod)
               (po_NodeName pod) (po_HostNetwork pod) (po_Phase pod) (po_PodIP pod) (po_PodIPs pod)]> (st_pods st))
          (st_nss st) (st_netpols st) (st_qos st) (st_deps st) (st_rcs st)
      else st
  | None => st
  end.

Definition ep_meta_key (pod : HostPod) : string := po_Namespace pod ++ "/" ++ po_Name pod.

Definition note_pod (pod : HostPod) (t : PodTables) : PodTables :=
  let ips := if String.eqb (po_PodIP pod) EmptyString then [] else po_PodIP pod :: po_PodIPs pod in
  mkTables (<[ep_meta_key pod := po_UID pod]> (cniToPodID t))
    (foldl (λ m ip, <[ip := ep_meta_key pod]> m) (podIpToName t) ips)
    (<[po_UID pod := ep_meta_key pod]> (podUidToName t)) (podToNetAttachDef t).

Definition net_attach_defs (pod : HostPod) : option (list string) :=
  let nad := ann (po_Annotations pod) NetAttDefAnnotation in
  let multus := ann (po_Annotations pod) MultusNetAnnotation in
  if negb (String.eqb nad EmptyString) then Some (split_on "," nad)
  else if negb (String.eqb multus EmptyString) then Some (split_on "," multus)
  else None.

Definition note_net_attach (pod : HostPod) (t : PodTables) : PodTables :=
  match net_attach_defs pod with
  | Some l => mkTables (cniToPodID t) (podIpToName t) (podUidToName t)
                (<[po_Name pod ++ "-" ++ po_Namespace pod := l]> (podToNetAttachDef t))
  | None => t
  end.

Definition podChangedLocked (pod : HostPod) (s : HostPods) : option HostPods :=
  if po_HostNetwork pod then Some (epDeleted (po_UID pod) s)
  else
    let s := set_tables (note_pod pod (hp_tables s)) s in
    let v := assignGroups growcap cfg set_order (hp_stores s) (hp_ix s) pod (hp_arrays s) in
    let s := set_stores (label_pod pod (hp_stores s)) (set_arrays (as_sg v).1 s) in
    s ← epChanged (po_UID pod) (ep_meta_key pod) (as_eg v) (as_sg v).2 (as_qp v) (pod_attrs pod) s;
    Some (set_tables (note_net_attach pod (hp_tables s)) s).

(** podChanged and podChangedPostLock, which differ in the mutex. *)
Definition podChanged (podkey : string) (s : HostPods) : option HostPods :=
  match st_pods (hp_stores s) !! podkey with
  | Some pod => podChangedLocked pod s
  | None => Some s
  end.

(** ** Indexes *)

Definition to_pod (p : HostPod) : Pod := mkPod (po_Namespace p) (po_Name p) (default ∅ (po_Labels p)) (po_PodIP p) (po_PodIPs p) [].

Definition index_stores {Obj} (o : gmap string Obj) (s : HostPods) : Stores (Obj := Obj) :=
  mkStores (to_pod <$> st_pods (hp_stores s)) (nso_Labels <$> st_nss (hp_stores s)) o.

Definition update_pod (pod : HostPod) (i : pod_index) : pod_index := (UpdatePodNoCallback Selector_Matches None (to_pod pod) i).1.1.
Definition delete_pod (pod : HostPod) (i : pod_index) : pod_index := (DeletePod (to_pod pod) i).1.

Definition podUpdated (pod : HostPod) (s : HostPods) : option HostPods :=
  let i := hp_ix s in
  let s := set_ix (mkPodIndexes (update_pod pod (depPods i)) (update_pod pod (rcPods i)) (update_pod pod (netPolPods i))
                     (update_pod pod (qosPolPods i))) s in
  s ← snat_update (ObjPod pod) s;
  podChangedLocked pod s.

(** The callback of the indexes of network policies and of QoS policies. *)
Definition update_callback (podkey : string) (s : HostPods) : option HostPods :=
  match st_pods (hp_stores s) !! podkey with
  | Some pod => podUpdated pod s
  | None => Some s
  end.

Definition np_key (np : NetworkPolicy) : option string := Some (npkey np).
Definition dep_key (d : Deployment) : string := MetaNamespaceKey (dep_Namespace d) (dep_Name d).
Definition dep_selector (d : Deployment) : list pod_selector :=
  PodSelectorFromNsAndSelector LabelSelectorAsSelector (dep_Namespace d) (dep_Selector d).
Definition qp_key (q : QosPolicy) : string := MetaNamespaceKey (qp_Namespace q) (qp_Name q).
Definition qp_selector (q : QosPolicy) : list pod_selector :=
  PodSelectorFromNsAndSelector LabelSelectorAsSelector (qp_Namespace q) (Some (mkLs (qp_Selector q) [])).
Definition rc_key (r : RC) : string := MetaNamespaceKey (rc_Namespace r) (rc_Name r).
Definition rc_selector (r : RC) : list pod_selector :=
  let podLabels := if bool_decide (rc_Selector r = ∅) then rc_TemplateLabels r else rc_Selector r in
  PodSelectorFromNsAndSelector LabelSelectorAsSelector (rc_Namespace r) (Some (mkLs podLabels [])).

Definition set_netPolPods (i : pod_index) (s : HostPods) : HostPods :=
  set_ix (mkPodIndexes (depPods (hp_ix s)) (rcPods (hp_ix s)) i (qosPolPods (hp_ix s))) s.
Definition set_qosPolPods (i : pod_index) (s : HostPods) : HostPods :=
  set_ix (mkPodIndexes (depPods (hp_ix s)) (rcPods (hp_ix s)) (netPolPods (hp_ix s)) i) s.
Definition set_depPods (i : pod_index) (s : HostPods) : HostPods :=
  set_ix (mkPodIndexes i (rcPods (hp_ix s)) (netPolPods (hp_ix s)) (qosPolPods (hp_ix s))) s.
Definition set_rcPods (i : pod_index) (s : HostPods) : HostPods :=
  set_ix (mkPodIndexes (depPods (hp_ix s)) i (netPolPods (hp_ix s)) (qosPolPods (hp_ix s))) s.

(** ** Namespaces *)

Definition updatePodsForNamespace (ns : string) (s : HostPods) : option HostPods :=
  for_each (λ p s, if String.eqb (po_NodeName p.2) (pc_NodeName cfg) then podUpdated p.2 s else Some s)
    (List.filter (λ p, String.eqb ns EmptyString || String.eqb (po_Namespace p.2) ns) (map_to_list (st_pods (hp_stores s)))) s.

Definition netPolPods_namespace (s : HostPods) : option HostPods :=
  let '(i, updPods, _) := UpdateNamespace Selector_Matches np_key netPolPodSelector
                            (index_stores (st_netpols (hp_stores s)) s) (netPolPods (hp_ix s)) in
  for_each update_callback (elements updPods) (set_netPolPods i s).

Definition namespaceAdded (ns : NsObj) (s : HostPods) : option HostPods :=
  s ← netPolPods_namespace s;
  s ← updatePodsForNamespace (nso_Name ns) s;
  snat_update (ObjNs ns) s.

Definition namespaceChanged (oldns newns : NsObj) (s : HostPods) : option HostPods :=
  s ← (if bool_decide (nso_Labels oldns = nso_Labels newns) then Some s
       else s ← netPolPods_namespace s; snat_update (ObjNs newns) s);
  if bool_decide (nso_Annotations oldns = nso_Annotations newns) then Some s
  else updatePodsForNamespace (nso_Name newns) s.

Definition namespaceDeleted (obj : deleted NsObj) (s : HostPods) : option HostPods :=
  match obj with
  | DeletedObj ns => s ← snat_delete (ObjNs ns) s; netPolPods_namespace s
  | DeletedFinalStateUnknown (Some _) => s ← snat_delete ObjOther s; netPolPods_namespace s
  | _ => Some s
  end.

(** ** Network policies *)

Definition networkPolicyAdded (np : NetworkPolicy) (s : HostPods) : option HostPods :=
  let '(i, updPods, _) := UpdateSelectorObj Selector_Matches np_key netPolPodSelector
                            (index_stores (st_netpols (hp_stores s)) s) np (netPolPods (hp_ix s)) in
  for_each update_callback (elements updPods) (set_netPolPods i s).

Definition same_spec (a b : NetworkPolicy) : bool :=
  if pc_HppOptimization cfg then
    bool_decide ((np_PodSelector a, np_Ingress a, np_Egress a, np_PolicyTypes a) =
                 (np_PodSelector b, np_Ingress b, np_Egress b, np_PolicyTypes b))
  else bool_decide (np_PolicyTypes a = np_PolicyTypes b).

Definition networkPolicyChanged (oldnp newnp : NetworkPolicy) (s : HostPods) : option HostPods :=
  let s :=
    if bool_decide (np_PodSelector oldnp = np_PodSelector newnp) then s
    else set_netPolPods (UpdateSelectorObjNoCallback Selector_Matches np_key netPolPodSelector
                           (index_stores (st_netpols (hp_stores s)) s) newnp (netPolPods (hp_ix s))).1.1 s in
  if same_spec oldnp newnp then Some s
  else for_each podChanged (set_order (GetPodForObj (netPolPods (hp_ix s)) (npkey newnp))) s.

(** An object of another type has no key, and the index does not change. *)
Definition networkPolicyDeleted (obj : deleted NetworkPolicy) (s : HostPods) : option HostPods :=
  match obj with
  | DeletedObj np =>
      let '(i, updPods) := DeleteSelectorObj np_key np (netPolPods (hp_ix s)) in
      for_each update_callback (elements updPods) (set_netPolPods i s)
  | _ => Some s
  end.

(** ** QoS policies *)

Definition qosPolicyAdded (qp : QosPolicy) (s : HostPods) : option HostPods :=
  let '(i, updPods, _) := UpdateSelectorObj Selector_Matches (λ q, Some (qp_key q)) qp_selector
                            (index_stores (st_qos (hp_stores s)) s) qp (qosPolPods (hp_ix s)) in
  for_each update_callback (elements updPods) (set_qosPolPods i s).

Definition qosPolicyChanged (oldqp newqp : QosPolicy) (s : HostPods) : option HostPods :=
  let s :=
    if bool_decide (qp_Selector oldqp = qp_Selector newqp) then s
    else set_qosPolPods (UpdateSelectorObjNoCallback Selector_Matches (λ q, Some (qp_key q)) qp_selector
                           (index_stores (st_qos (hp_stores s)) s) newqp (qosPolPods (hp_ix s))).1.1 s in
  let peers s := set_order (GetPodForObj (qosPolPods (hp_ix s)) (qp_key newqp)) in
  s ← (if bool_decide (qp_Ingress oldqp = qp_Ingress newqp) then Some s else for_each podChanged (peers s) s);
  if bool_decide (qp_Egress oldqp = qp_Egress newqp) then Some s else for_each podChanged (peers s) s.

Definition qosPolicyDeleted (obj : deleted QosPolicy) (s : HostPods) : option HostPods :=
  match obj with
  | DeletedObj qp =>
      let '(i, updPods) := DeleteSelectorObj (λ q, Some (qp_key q)) qp (qosPolPods (hp_ix s)) in
      for_each update_callback (elements updPods) (set_qosPolPods i s)
  | _ => Some s
  end.

(** ** Deployments and replication controllers *)

(** [for ix := range GetPodForObj(key) { podChanged(&GetPodForObj(key)[ix]) }]:
    every call lists the pods in an order of its own, [calls n] the n-th. *)
Fixpoint index_loop (calls : nat → gset string → list string) (podset : gset string) (ixs : list nat) (s : HostPods)
  : option HostPods :=
  match ixs with
  | [] => Some s
  | ix :: ixs =>
      k ← calls (S ix) podset !! ix;
      s ← podChanged k s;
      index_loop calls podset ixs s
  end.

Definition parent_pods (calls : nat → gset string → list string) (podset : gset string) (s : HostPods) : option HostPods :=
  index_loop calls podset (seq 0 (length (calls 0%nat podset))) s.

Definition update_depPods (dep : Deployment) (s : HostPods) : option HostPods :=
  let '(i, updPods, _) := UpdateSelectorObj Selector_Matches (λ d, Some (dep_key d)) dep_selector
                            (index_stores (st_deps (hp_stores s)) s) dep (depPods (hp_ix s)) in
  for_each podChanged (elements updPods) (set_depPods i s).

Definition deploymentAdded (dep : Deployment) (s : HostPods) : option HostPods :=
  s ← update_depPods dep s; snat_update (ObjDep dep) s.

Definition deploymentChanged (calls : nat → gset string → list string) (olddep newdep : Deployment) (s : HostPods) : option HostPods :=
  s ← (if bool_decide (dep_Selector olddep = dep_Selector newdep) then Some s else update_depPods newdep s);
  s ← (if bool_decide (dep_Annotations olddep = dep_Annotations newdep) then Some s
       else parent_pods calls (GetPodForObj (depPods (hp_ix s)) (dep_key newdep)) s);
  if bool_decide (dep_Labels olddep = dep_Labels newdep) then Some s else snat_update (ObjDep newdep) s.

Definition deploymentDeleted (obj : deleted Deployment) (s : HostPods) : option HostPods :=
  match obj with
  | DeletedObj dep =>
      s ← snat_delete (ObjDep dep) s;
      let '(i, updPods) := DeleteSelectorObj (λ d, Some (dep_key d)) dep (depPods (hp_ix s)) in
      for_each podChanged (elements updPods) (set_depPods i s)
  | DeletedFinalStateUnknown (Some _) => snat_delete ObjOther s
  | _ => Some s
  end.

Definition rcAdded (rc : RC) (s : HostPods) : option HostPods :=
  let '(i, updPods, _) := UpdateSelectorObj Selector_Matches (λ r, Some (rc_key r)) rc_selector
                            (index_stores (st_rcs (hp_stores s)) s) rc (rcPods (hp_ix s)) in
  for_each podChanged (elements updPods) (set_rcPods i s).

Definition rcChanged (calls : nat → gset string → list string) (oldrc newrc : RC) (s : HostPods) : option HostPods :=
  s ← (if bool_decide (rc_Selector oldrc = rc_Selector newrc) then Some s else rcAdded newrc s);
  if bool_decide (rc_Annotations oldrc = rc_Annotations newrc) then Some s
  else parent_pods calls (GetPodForObj (rcPods (hp_ix s)) (rc_key newrc)) s.

Definition rcDeleted (obj : deleted RC) (s : HostPods) : option HostPods :=
  match obj with
  | DeletedObj rc =>
      let '(i, updPods) := DeleteSelectorObj (λ r, Some (rc_key r)) rc (rcPods (hp_ix s)) in
      for_each podChanged (elements updPods) (set_rcPods i s)
  | _ => Some s
  end.

(** ** Pods and containers go *)

Definition cniEpDelete (cniKey : string) (s : HostPods) : HostPods :=
  match cniToPodID (hp_tables s) !! cniKey with
  | None => s
  | Some epUuid =>
      let t := hp_tables s in
      epDeleted epUuid (set_tables (mkTables (delete cniKey (cniToPodID t)) (podIpToName t) (podUidToName t) (podToNetAttachDef t)) s)
  end.

(** unconfigureContainerIfaces, with the call of cniEpDelete once the file of
    the container is gone. *)
Definition unconfigure (clearOk : string → bool) (ns pod cont : string) (s : HostPods) : HostPods :=
  let a := hp_agent s in
  let s := set_agent (unconfigureContainerIfaces clearOk ns pod cont a) s in
  match epMetadata a !! (ns ++ "/" ++ pod) ≫= (.!! cont), cni_dir a !! cont with
  | Some _, Some _ => if clearOk cont then cniEpDelete (ns ++ "/" ++ pod) s else s
  | _, _ => s
  end.

Definition podDeletedLocked (pod : HostPod) (s : HostPods) : HostPods :=
  let s := epDeleted (po_UID pod) s in
  let t := hp_tables s in
  let ips := if String.eqb (po_PodIP pod) EmptyString then podIpToName t else delete (po_PodIP pod) (podIpToName t) in
  epDeleted (po_UID pod) (set_tables (mkTables (cniToPodID t) ips (delete (po_UID pod) (podUidToName t)) (podToNetAttachDef t)) s).

Definition unconfigure_all (clearOk : string → bool) (pod : HostPod) (s : HostPods) : HostPods :=
  foldl (λ s md, unconfigure clearOk (po_Namespace pod) (po_Name pod) md.1 s) s
    (map_to_list (default ∅ (epMetadata (hp_agent s) !! ep_meta_key pod))).

(** The handler asserts that the object it got is a pod; the last known state
    of one is not. *)
Definition podDeleted (clearOk : string → bool) (obj : deleted HostPod) (s : HostPods) : option HostPods :=
  match obj with
  | DeletedObj pod =>
      let s := podDeletedLocked pod (unconfigure_all clearOk pod s) in
      let i := hp_ix s in
      let s := set_ix (mkPodIndexes (delete_pod pod (depPods i)) (delete_pod pod (rcPods i)) (delete_pod pod (netPolPods i))
                         (delete_pod pod (qosPolPods i))) s in
      snat_delete (ObjPod pod) s
  | DeletedFinalStateUnknown (Some _) => None
  | _ => Some s
  end.
End Handlers.

(** ** Files and published interfaces *)

(** The client of the interfaces, if there is one, the answers of the API
    server (a failing read, a failing write) and of the file system; the order
    of the pods in a loop over the table of endpoints. *)
Record EpApi := mkEpApi {
  crdClient : bool;
  nodeClient : bool;
  vtepIP : string;
  api_readable : string → bool;
  api_writable : string → bool;
  ep_dirReadable : bool;
  ep_writable : string → bool;
  new_uuid : string;
  block_order : list (list file_ep) → list (list file_ep)
}.

Definition cut_ep (name : string) : option string := cut_suffix ".ep" name.

Fixpoint has_substring (pat s : string) : bool :=
  String.prefix pat s || match s with String _ s => has_substring pat s | EmptyString => false end.

Definition NullMac : string := "null-mac".

Section Sync.
Context (cfg : PodCfg) (api : EpApi).

Definition getPodIFName (ns podName : string) : string := ns ++ "." ++ podName ++ "." ++ vtepIP api.

Definition attr {A} (e : opflexEndpoint A) (k : string) : string := default EmptyString (Attributes e !! k).

(** The first address decides; an endpoint without addresses is a panic. *)
Definition podif_of (e : file_ep) : option PodIF :=
  ip ← head (IpAddress e);
  Some (mkPodIF (attr e "namespace") (attr e "vm-name") (oe_Uuid e) (MacAddress e)
          (default EmptyString (head (split_on "/" ip)) ++ "/32") (EndpointGroup e) (vtepIP api) (IfaceName e)).

(** The result says whether to retry. *)
Definition EPRegAdd (e : file_ep) (reg : gmap string PodIF) : option (bool * gmap string PodIF) :=
  if negb (crdClient api) then Some (false, reg)
  else
    remEP ← podif_of e;
    let name := getPodIFName (attr e "namespace") (attr e "vm-name") in
    match (if api_readable api name then reg !! name else None) with
    | None =>
        match reg !! name with
        | None => if api_writable api name then Some (false, <[name := remEP]> reg) else Some (true, reg)
        | Some _ => Some (true, reg)
        end
    | Some _ => if api_writable api name then Some (false, <[name := remEP]> reg) else Some (true, reg)
    end.

Definition EPRegDelEP (name : string) (reg : gmap string PodIF) : gmap string PodIF :=
  if crdClient api && api_writable api name then delete name reg else reg.

Definition readEp (dir : gmap string EpText) (name : string) : option file_ep :=
  match dir !! name with Some (EpFile e) => Some e | _ => None end.

(** The directory, whether it was written, whether there was an error. *)
Definition writeEp (name : string) (e : file_ep) (dir : gmap string EpText) : gmap string EpText * bool * bool :=
  if bool_decide (dir !! name = Some (EpFile (set_registered false e))) then (dir, false, false)
  else if ep_writable api name then (<[name := EpFile (set_registered false e)]> dir, true, false)
  else (dir, true, true).

Definition getEpFileName (epGroupName : string) : string :=
  match split_on "|" epGroupName with
  | _ :: b :: _ => b ++ "_" ++ NullMac ++ ".ep"
  | _ => epGroupName ++ "_" ++ NullMac ++ ".ep"
  end.

Record SyncState := mkSync {
  sy_dir : gmap string EpText;
  sy_seen : gset string;
  sy_ifs : gmap string file_ep;
  sy_reg : gmap string PodIF;
  sy_retry : bool;
  sy_null : bool
}.

(** The endpoint with the identifiers of source NAT and the addresses of
    services of its pod. *)
Definition finish_ep (snat : HSnat) (dir : gmap string EpText) (poduuid name : string) (e : file_ep) : file_ep :=
  set_snat_services (getSnatUuids poduuid (SnatUuid <$> readEp dir name) snat) (getServiceIPs poduuid (hsn_services snat)) e.

(** An endpoint that has a file. *)
Definition sync_existing (snat : HSnat) (poduuid epidstr name : string) (st : option SyncState) (e : file_ep) : option SyncState :=
  st ← st;
  if negb (String.eqb (oe_Uuid e) epidstr) then Some st
  else
    let e := finish_ep snat (sy_dir st) poduuid name e in
    let '(dir, wrote, err) := writeEp name e (sy_dir st) in
    '(retry, reg, e) ← (if (err : bool) then Some (sy_retry st, sy_reg st, e)
                        else if (wrote : bool) || negb (registered e) then
                          '(b, reg) ← EPRegAdd e (sy_reg st); Some (b, reg, if (b : bool) then e else set_registered true e)
                        else Some (sy_retry st, sy_reg st, e));
    let ifs := match sy_ifs st !! oe_Uuid e with Some _ => sy_ifs st | None => <[oe_Uuid e := e]> (sy_ifs st) end in
    Some (mkSync dir ({[epidstr]} ∪ sy_seen st) ifs reg retry (sy_null st)).

(** A file that no endpoint has. *)
Definition remove_stale (name : string) (st : SyncState) : SyncState :=
  let '(ifs, reg) :=
    match readEp (sy_dir st) name with
    | Some e => (delete (oe_Uuid e) (sy_ifs st), EPRegDelEP (getPodIFName (attr e "namespace") (attr e "vm-name")) (sy_reg st))
    | None => (sy_ifs st, sy_reg st)
    end in
  mkSync (delete name (sy_dir st)) (sy_seen st) ifs reg (sy_retry st) (sy_null st).

Definition sync_ep_file (snat : HSnat) (eps : gmap string (list file_ep)) (st : option SyncState) (name : string) : option SyncState :=
  st ← st;
  match cut_ep name with
  | None => Some st
  | Some epidstr =>
      if has_substring "veth_host_ac" name then Some st
      else if String.eqb name (getEpFileName (og_Name (DefaultEg cfg)))
      then Some (mkSync (sy_dir st) (sy_seen st) (sy_ifs st) (sy_reg st) (sy_retry st) true)
      else
        match split_on "_" epidstr with
        | poduuid :: _ :: _ :: _ =>
            st ← foldl (sync_existing snat poduuid epidstr name) (Some st) (default [] (eps !! poduuid));
            if bool_decide (is_Some (eps !! poduuid)) && bool_decide (epidstr ∈ sy_seen st) then Some st
            else Some (remove_stale name st)
        | _ => Some (mkSync (delete name (sy_dir st)) (sy_seen st) (sy_ifs st) (sy_reg st) (sy_retry st) (sy_null st))
        end
  end.

(** An endpoint that has no file yet. *)
Definition sync_new (snat : HSnat) (st : option SyncState) (e : file_ep) : option SyncState :=
  st ← st;
  if bool_decide (oe_Uuid e ∈ sy_seen st) then Some st
  else
    let name := oe_Uuid e ++ ".ep" in
    let poduuid := default EmptyString (head (split_on "_" (oe_Uuid e))) in
    let e := finish_ep snat (sy_dir st) poduuid name e in
    let '(dir, _, err) := writeEp name e (sy_dir st) in
    if (err : bool) then Some (mkSync dir (sy_seen st) (sy_ifs st) (sy_reg st) true (sy_null st))
    else
      '(b, reg) ← EPRegAdd e (sy_reg st);
      let e := if (b : bool) then e else set_registered true e in
      Some (mkSync dir (sy_seen st) (<[oe_Uuid e := e]> (sy_ifs st)) reg b (sy_null st)).

(** The file of the endpoint group's own endpoint. *)
Definition creatNullMacEp (dir : gmap string EpText) : gmap string EpText :=
  let epGroup := DefaultEg cfg in
  let name := getEpFileName (og_Name epGroup) in
  match dir !! name with
  | Some _ => dir
  | None =>
      (writeEp name (mkEp (new_uuid api) (PolicySpace epGroup) (og_Name epGroup) [] zero_group [] "00:00:00:00:00:00"
                       EmptyString EmptyString EmptyString ∅ [] [] false) dir).1.1
  end.

(** The directory's entries, sorted by name. *)
Definition ReadDir (dir : gmap string EpText) : list string := sort_strs (map_to_list dir).*1.

Definition ep_copies (s : HostPods) : gmap string (list file_ep) := map (copy_ep (hp_arrays s)) <$> opflexEps s.

(** The result says whether the synchronisation is to be repeated. *)
Definition syncEps (syncEnabled : bool) (s : HostPods) : option (bool * HostPods) :=
  if negb syncEnabled then Some (false, s)
  else
    let eps := ep_copies s in
    let o := hp_out s in
    if negb (ep_dirReadable api) then Some (true, s)
    else
      st ← foldl (sync_ep_file (hp_snat s) eps) (Some (mkSync (epDir o) ∅ (nodePodIfEPs o) (podIFs o) false false)) (ReadDir (epDir o));
      st ← foldl (sync_new (hp_snat s)) (Some st) (concat (block_order api (map_to_list eps).*2));
      let dir := if sy_null st then sy_dir st else creatNullMacEp (sy_dir st) in
      Some (sy_retry st, set_out (mkEpOutput dir (sy_ifs st) (sy_reg st) (nodePodIF o)) s).

Definition getNodePodIFName (nodeName : string) : string := nodeName ++ "." ++ vtepIP api.

(** The published list is replaced if it differs; [None] in [nodePodIF] is an
    object that does not exist. *)
Definition NodeEPRegAdd (o : EpOutput) : option (bool * EpOutput) :=
  if negb (nodeClient api) then Some (false, o)
  else
    podifs ← mapM podif_of (map_to_list (nodePodIfEPs o)).*2;
    let name := getNodePodIFName (pc_NodeName cfg) in
    let set_node l := mkEpOutput (epDir o) (nodePodIfEPs o) (podIFs o) (Some l) in
    if negb (api_readable api name) then Some (false, o)
    else
      match nodePodIF o with
      | None => if api_writable api name then Some (false, set_node podifs) else Some (true, o)
      | Some l =>
          if bool_decide (l = podifs) then Some (true, o)
          else if api_writable api name then Some (true, set_node podifs) else Some (true, o)
      end.

Definition syncNodePodIfs (syncEnabled : bool) (s : HostPods) : option (bool * HostPods) :=
  if negb syncEnabled then Some (false, s)
  else '(_, o) ← NodeEPRegAdd (hp_out s); Some (false, set_out o s).
End Sync.
