(* ===== verification/HostPodsProps.v ===== *)
(** * HostPodsProps: what holds of the groups and endpoints of pods

    Annotations take precedence field by field; the security groups of a pod
    are the policies that select it and the static ones that follow from them,
    under the names that the controller writes; pods do not change each other's
    groups unless the configuration has default security groups; the files are
    exactly the endpoints.  The last part runs the handlers where they do not
    do what they mean to. *)
From S2P Require Import Prelude GoBytes GoNet GoText IpAlloc IpCache GoSha PodIndex PodIndexFacts K8s AciNames ApicTypes ApicTypesFacts NetPol NetPolCtl NetPolRules SvcTypes PodNet OpflexDev SvcGraph HostIpam HostSvc HostSnat.
From S2P Require Import HostSnatProps GoJson HostPods.

Open Scope string_scope.

(** ** Fields of a group *)

Lemma get_set_field f f' x g : get_field f (set_field f' x g) = if decide (f = f') then x else get_field f g.
Proof. by destruct f, f', g. Qed.

(** The last value that an object gives to a field. *)
Definition last_set (f : gfield) (v : json) : option string :=
  match v with
  | JObj ms => foldl (λ acc m, match field_of m.1, m.2 with
                               | Some f', JStr x => if decide (f = f') then Some x else acc
                               | _, _ => acc
                               end) None ms
  | _ => None
  end.

Lemma decode_group_field f v g : get_field f (decode_group g v) = default (get_field f g) (last_set f v).
Proof.
  destruct v as [| | | | |ms]; try done. simpl.
  assert (G : ∀ g acc, get_field f g = default (get_field f g) acc →
    ∀ base, get_field f g = default base acc →
    get_field f (foldl decode_member g ms) =
    default base (foldl (λ acc m, match field_of m.1, m.2 with
                                  | Some f', JStr x => if decide (f = f') then Some x else acc
                                  | _, _ => acc end) acc ms)).
  2: { by apply (G g None). }
  clear g. induction ms as [|[k w] ms IH]; intros g acc H base Hb; simpl; [done|]. unfold decode_member at 2. simpl.
  destruct (field_of k) as [f'|]; [|by apply IH]. destruct w; try by apply IH.
  apply IH; rewrite get_set_field; by destruct (decide (f = f')).
Qed.

(** The value that an annotation gives to a field. *)
Definition ann_sets (f : gfield) (annStr : string) : option string := annotation_json annStr ≫= last_set f.

Lemma decodeAnnotation_field f a g : get_field f (decodeAnnotation a g) = default (get_field f g) (ann_sets f a).
Proof. unfold decodeAnnotation, ann_sets. destruct (annotation_json a) as [v|]; [apply decode_group_field|done]. Qed.

Ltac ann_cases := repeat match goal with |- context [ann_sets ?f ?a] => destruct (ann_sets f a) end; done.

Section Precedence.
Context (growcap : nat → nat) (cfg : PodCfg) (set_order : gset string → list string).
Context (st : PodStores) (ix : PodIndexes) (pod : HostPod).

(** The annotations that count, the strongest first. *)
Definition sources (with_ns : NsObj → bool) : list (gmap string string) :=
  (po_Annotations pod :: option_list (getParentAnn set_order st ix (pod_key pod)) ++
   option_list (ns ← st_nss st !! po_Namespace pod; if with_ns ns then Some (nso_Annotations ns) else None))%list.

Definition strongest (key : string) (f : gfield) (with_ns : NsObj → bool) : option string :=
  head (omap (λ m, ann_sets f (ann m key)) (sources with_ns)).

Lemma annotated_eg f h :
  get_field f (as_eg (annotated growcap cfg set_order st ix pod h)) =
  default (get_field f (default (DefaultEg cfg) (NamespaceDefaultEg cfg !! po_Namespace pod)))
    (strongest EgAnnotation f (λ ns, negb (ignored_ns_annotation cfg ns))).
Proof.
  unfold annotated, strongest, sources.
  destruct (st_nss st !! po_Namespace pod) as [ns|]; [destruct (ignored_ns_annotation cfg ns) eqn:Ei|];
    destruct (getParentAnn set_order st ix (pod_key pod)) as [m|]; simpl;
    rewrite ?Ei, !decodeAnnotation_field; simpl; ann_cases.
Qed.

Lemma annotated_qp f h :
  get_field f (as_qp (annotated growcap cfg set_order st ix pod h)) =
  default (get_field f (default (DefaultQp cfg) (NamespaceDefaultQp cfg !! po_Namespace pod)))
    (strongest QpAnnotation f (λ _, true)).
Proof.
  unfold annotated, strongest, sources.
  destruct (st_nss st !! po_Namespace pod) as [ns|]; destruct (getParentAnn set_order st ix (pod_key pod)) as [m|]; simpl;
    rewrite !decodeAnnotation_field; ann_cases.
Qed.
End Precedence.

(** The QoS policy: that of a policy that selects the pod, if there is one. *)
Lemma qos_fold cfg l acc :
  let r := foldl (λ acc qpkey, addPolicy acc (own_group cfg (aci_name cfg "qp" qpkey))) acc l in
  r = acc ∧ (∀ k, k ∈ l → own_group cfg (aci_name cfg "qp" k) ∈ acc.1) ∨
  (r.1 ≠ ∅ ∧ ∃ k, k ∈ l ∧ r.2 = own_group cfg (aci_name cfg "qp" k)).
Proof.
  revert acc. induction l as [|k l IH]; intros [gs g]; simpl; [left; set_solver|].
  case_bool_decide as Hin.
  - destruct (IH (gs, g)) as [[E H]|(H1&k'&Hk&E)].
    + left. split; [done|]. intros k'. rewrite elem_of_cons. intros [->|Hk]; [done|by apply H].
    + right. split; [done|]. exists k'. split; [by apply list_elem_of_further|done].
  - right. destruct (IH ({[own_group cfg (aci_name cfg "qp" k)]} ∪ gs, own_group cfg (aci_name cfg "qp" k)))
      as [[E H]|(H1&k'&Hk&E)].
    + rewrite E. simpl. split; [set_solver|]. exists k. split; [apply list_elem_of_here|done].
    + split; [done|]. exists k'. split; [by apply list_elem_of_further|done].
Qed.

Lemma mergeQosPolicy_cases cfg set_order ix podkey qp :
  (∀ X, set_order X ≡ₚ elements X) →
  (GetObjForPod (qosPolPods ix) podkey = ∅ ∧ mergeQosPolicy cfg set_order ix podkey qp = qp) ∨
  ∃ k, k ∈ GetObjForPod (qosPolPods ix) podkey ∧
    mergeQosPolicy cfg set_order ix podkey qp = own_group cfg (aci_name cfg "qp" k).
Proof.
  intros Ho. unfold mergeQosPolicy. set (l := set_order (GetObjForPod (qosPolPods ix) podkey)).
  assert (Hl : ∀ k, k ∈ l ↔ k ∈ GetObjForPod (qosPolPods ix) podkey) by (intros k; unfold l; rewrite Ho; apply elem_of_elements).
  destruct (qos_fold cfg l (∅, zero_group)) as [[E H]|(H1&k&Hk&E)].
  - left. rewrite E. simpl. split; [|done]. apply set_eq. intros k. split; [|set_solver]. intros Hk.
    apply Hl, H in Hk. set_solver.
  - right. exists k. split; [by apply Hl|].
    destruct (foldl _ (∅, zero_group) l) as [gs g]. simpl in *. by rewrite bool_decide_false.
Qed.

(** C19: The endpoint group and the QoS policy of a pod are made field by field: a field has the value of the strongest annotation that sets it, the pod's before that of its deployment or replication controller before that of its namespace (unless that is one whose annotation is ignored), and otherwise the value that the configuration has for the namespace or by default. A QoS policy that selects the pod replaces the QoS policy. *)
Theorem hpods_precedence growcap cfg set_order st ix pod h :
  (∀ X, set_order X ≡ₚ elements X) →
  let v := assignGroups growcap cfg set_order st ix pod h in
  (∀ f, get_field f (as_eg v) =
     default (get_field f (default (DefaultEg cfg) (NamespaceDefaultEg cfg !! po_Namespace pod)))
       (strongest set_order st ix pod EgAnnotation f (λ ns, negb (ignored_ns_annotation cfg ns)))) ∧
  (if decide (GetObjForPod (qosPolPods ix) (pod_key pod) = ∅) then
     ∀ f, get_field f (as_qp v) =
       default (get_field f (default (DefaultQp cfg) (NamespaceDefaultQp cfg !! po_Namespace pod)))
         (strongest set_order st ix pod QpAnnotation f (λ _, true))
   else ∃ k, k ∈ GetObjForPod (qosPolPods ix) (pod_key pod) ∧ as_qp v = own_group cfg (aci_name cfg "qp" k)).
Proof.
  intros Ho v. split; [intros f; apply annotated_eg|]. unfold v, assignGroups. cbn [as_qp].
  destruct (mergeQosPolicy_cases cfg set_order ix (pod_key pod) (as_qp (annotated growcap cfg set_order st ix pod h)) Ho)
    as [[E1 E2]|(k&Hk&E)].
  - rewrite decide_True by done. intros f. rewrite E2. apply annotated_qp.
  - rewrite decide_False by set_solver. by exists k.
Qed.

(** ** Security groups *)

(** The set that guards against repetition is the set of the slice. *)
Definition agree (acc : gset OpflexGroup * list OpflexGroup) : Prop := ∀ x, x ∈ acc.1 ↔ x ∈ acc.2.

Lemma addGroup_agree acc g :
  agree acc → agree (addGroup acc g) ∧ ∀ x, x ∈ (addGroup acc g).2 ↔ x = g ∨ x ∈ acc.2.
Proof.
  destruct acc as [gs l]. unfold agree, addGroup. simpl. intros H. case_bool_decide as Hg; simpl.
  - split; [done|]. intros x. split; [by right|]. intros [->|]; [by apply H|done].
  - split; intros x; rewrite ?elem_of_app, ?elem_of_union, ?elem_of_singleton, ?list_elem_of_singleton, ?H; tauto.
Qed.

Lemma addGroups_agree {A} (f : A → OpflexGroup) l acc :
  agree acc →
  let r := foldl (λ acc p, addGroup acc (f p)) acc l in
  agree r ∧ ∀ x, x ∈ r.2 ↔ (∃ p, p ∈ l ∧ x = f p) ∨ x ∈ acc.2.
Proof.
  revert acc. induction l as [|p l IH]; intros acc H; simpl; [set_solver|].
  destruct (addGroup_agree acc (f p) H) as [H' E]. destruct (IH _ H') as [H1 H2]. split; [done|].
  intros x. rewrite H2, E. set_solver.
Qed.

(** A group that is added under a condition. *)
Definition add_if (b : bool) (g : OpflexGroup) (acc : gset OpflexGroup * list OpflexGroup) := if b then acc else addGroup acc g.

Lemma add_if_agree b g acc :
  agree acc → agree (add_if b g acc) ∧ ∀ x, x ∈ (add_if b g acc).2 ↔ (b = false ∧ x = g) ∨ x ∈ acc.2.
Proof.
  intros H. unfold add_if. destruct b; [naive_solver|]. destruct (addGroup_agree acc g H) as [H1 H2]. split; [done|].
  intros x. rewrite H2. naive_solver.
Qed.

Lemma new_slice_groups h l : groups_of (new_slice h l).1 (new_slice h l).2 = l.
Proof. unfold groups_of, array. simpl. rewrite lookup_app_r, Nat.sub_diag by lia. simpl. by rewrite firstn_all. Qed.

Section SecurityGroups.
Context (cfg : PodCfg) (set_order : gset string → list string) (Hord : ∀ X, set_order X ≡ₚ elements X).
Context (st : PodStores) (ix : PodIndexes).

Lemma stored_policies_in pk k np :
  (k, np) ∈ stored_policies set_order st ix pk ↔ k ∈ GetObjForPod (netPolPods ix) pk ∧ st_netpols st !! k = Some np.
Proof.
  unfold stored_policies. rewrite list_elem_of_omap. setoid_rewrite Hord. setoid_rewrite elem_of_elements. split.
  - intros (k'&Hk&E). apply bind_Some in E as (np'&E&[= <- <-]). done.
  - intros [Hk E]. exists k. rewrite E. done.
Qed.

Lemma mergeNetPolSg_none pk pod hs : stored_policies set_order st ix pk = [] → mergeNetPolSg cfg set_order st ix pk pod hs = hs.
Proof. intros E. unfold mergeNetPolSg. rewrite E. by destruct hs. Qed.

(** The groups of a pod that some policy selects. *)
Lemma mergeNetPolSg_some pk pod hs x :
  stored_policies set_order st ix pk ≠ [] →
  let pols := stored_policies set_order st ix pk in
  let r := mergeNetPolSg cfg set_order st ix pk pod hs in
  let no_type t := ∀ k np, (k, np) ∈ pols → t ∉ GetNetPolPolicyTypes (Some np) in
  x ∈ groups_of r.1 r.2 ↔
    (∃ k np, (k, np) ∈ pols ∧ x = np_group cfg k np) ∨ x ∈ groups_of hs.1 hs.2 ∨
    (po_NodeName pod ≠ EmptyString ∧ x = own_group cfg (aci_name cfg "node" (po_NodeName pod))) ∨
    x = own_group cfg (aci_name cfg "np" "static-discovery") ∨
    (no_type "Ingress" ∧ x = own_group cfg (aci_name cfg "np" "static-ingress")) ∨
    (no_type "Egress" ∧ x = own_group cfg (aci_name cfg "np" "static-egress")).
Proof.
  intros Hne pols r no_type. unfold r, mergeNetPolSg. destruct hs as [h sg]. fold pols. fold pols in Hne.
  destruct (addGroups_agree (λ p, np_group cfg p.1 p.2) pols (∅, [])) as [Ha Hg]; [intros y; simpl; set_solver|].
  destruct (foldl _ (∅, []) pols) as [gs g] eqn:E. simpl in Hg.
  assert (Hgs : gs ≠ ∅).
  { destruct pols as [|p ps]; [done|]. intros ->. specialize (Ha (np_group cfg p.1 p.2)). simpl in Ha.
    assert (np_group cfg p.1 p.2 ∈ g) as Hin by (apply Hg; left; exists p; split; [apply list_elem_of_here|done]).
    set_solver. }
  rewrite bool_decide_false by done.
  assert (Ht : ∀ t, bool_decide (t ∈ concat (map (λ p : string * NetworkPolicy, GetNetPolPolicyTypes (Some p.2)) pols)) = false
    ↔ no_type t).
  { intros t. rewrite bool_decide_eq_false. unfold no_type. rewrite <- flat_map_concat_map, list_elem_of_In, in_flat_map.
    setoid_rewrite <- list_elem_of_In. split.
    - intros H k np Hin Ht. apply H. by exists (k, np).
    - intros H ([k np]&Hin&Ht). by apply (H k np). }
  change (if String.eqb (po_NodeName pod) EmptyString then ?a else addGroup ?a ?g)
    with (add_if (String.eqb (po_NodeName pod) EmptyString) g a).
  repeat match goal with |- context [if bool_decide ?P then ?a else addGroup ?a ?g] =>
    change (if bool_decide P then a else addGroup a g) with (add_if (bool_decide P) g a) end.
  rewrite new_slice_groups.
  set (sgs := groups_of h sg). set (a0 := (list_to_set sgs ∪ gs, (g ++ sgs)%list)).
  assert (A0 : agree a0).
  { intros y. simpl. rewrite elem_of_union, elem_of_list_to_set, elem_of_app. specialize (Ha y). simpl in Ha. tauto. }
  destruct (add_if_agree (String.eqb (po_NodeName pod) EmptyString) (own_group cfg (aci_name cfg "node" (po_NodeName pod))) a0 A0) as [A1 M1].
  destruct (addGroup_agree _ (own_group cfg (aci_name cfg "np" "static-discovery")) A1) as [A2 M2].
  edestruct (add_if_agree (bool_decide ("Ingress" ∈ concat (map (λ p : string * NetworkPolicy, GetNetPolPolicyTypes (Some p.2)) pols)))
    (own_group cfg (aci_name cfg "np" "static-ingress")) _ A2) as [A3 M3].
  edestruct (add_if_agree (bool_decide ("Egress" ∈ concat (map (λ p : string * NetworkPolicy, GetNetPolPolicyTypes (Some p.2)) pols)))
    (own_group cfg (aci_name cfg "np" "static-egress")) _ A3) as [A4 M4].
  rewrite M4, M3, M2, M1, !Ht, String.eqb_neq. unfold a0. cbn [snd]. rewrite elem_of_app, Hg.
  assert (P : (∃ p, p ∈ pols ∧ x = np_group cfg p.1 p.2) ↔ (∃ k np, (k, np) ∈ pols ∧ x = np_group cfg k np)).
  { split; [intros ([k np]&?&?); by exists k, np|intros (k&np&?&?); by exists (k, np)]. }
  rewrite P. fold sgs. clear. set_solver.
Qed.
End SecurityGroups.

(** ** The policies of the controller *)

(** The host protection policy that a group names. *)
Definition denotes (g : OpflexGroup) (hpp : ApicObject) : Prop :=
  GetDn hpp = "uni/tn-" ++ PolicySpace g ++ "/pol-" ++ og_Name g.

Lemma ingress_subject_dn ips inf s np pp pn o o' : ingress_subject ips inf s np pp pn o = Some o' → GetDn o' = GetDn o.
Proof.
  unfold ingress_subject. case_match; [|by intros [= <-]]. intros (subj&_&E)%bind_Some. apply bind_Some in E as (?&_&[= <-]).
  by autorewrite with apicobj.
Qed.

Lemma egress_subject_dn ips inf s np pp pn o o' : egress_subject ips inf s np pp pn o = Some o' → GetDn o' = GetDn o.
Proof.
  unfold egress_subject. case_match; [|by intros [= <-]]. intros (subj&_&E)%bind_Some. apply bind_Some in E as ([? [? ?]]&_&E).
  apply bind_Some in E as (?&_&[= <-]). by autorewrite with apicobj.
Qed.

Lemma handleNetPolUpdate_dn ccfg ips inf np s s' :
  NetPol.ChainedMode ccfg = false → handleNetPolUpdate ccfg ips inf np s = Some s' →
  ∃ hpp, effects s' = (effects s ++ [WriteObjects (label_key ccfg np) [hpp]])%list ∧
    GetDn hpp = "uni/tn-" ++ NetPol.AciPolicyTenant ccfg ++ "/pol-" ++ label_key ccfg np.
Proof.
  intros Hch. unfold handleNetPolUpdate. rewrite Hch. destruct (peer_pods _ _ _ _) as [pp pn].
  destruct (NewHostprotPol_spec (NetPol.AciPolicyTenant ccfg) (label_key ccfg np)) as (o&->&Hdn&_). simpl.
  intros (o1&E1&H)%bind_Some. apply bind_Some in H as (o2&E2&[= <-]).
  apply ingress_subject_dn in E1. apply egress_subject_dn in E2. exists o2. split; [by destruct (NetPol.HppOptimization ccfg)|congruence].
Qed.

Lemma static_pol_dn ccfg polname subjname fill o :
  static_pol ccfg polname subjname fill = Some o →
  GetDn o = "uni/tn-" ++ NetPol.AciPolicyTenant ccfg ++ "/pol-" ++ AciNameForKey (NetPol.AciPrefix ccfg) "np" polname.
Proof.
  unfold static_pol, aciNameForKey.
  destruct (NewHostprotPol_spec (NetPol.AciPolicyTenant ccfg) (AciNameForKey (NetPol.AciPrefix ccfg) "np" polname)) as (hpp&->&Hdn&_). simpl.
  intros (subj&_&E)%bind_Some. apply bind_Some in E as (?&_&[= <-]). by autorewrite with apicobj.
Qed.

Lemma static_dns ccfg ips l :
  staticNetPolObjs ccfg ips = Some l →
  GetDn <$> l = (λ n, "uni/tn-" ++ NetPol.AciPolicyTenant ccfg ++ "/pol-" ++ AciNameForKey (NetPol.AciPrefix ccfg) "np" n)
    <$> ["static-ingress"; "static-egress"; "static-discovery"].
Proof.
  unfold staticNetPolObjs. intros (i&Ei&E)%bind_Some. apply bind_Some in E as (e&Ee&E). apply bind_Some in E as (d&Ed&[= <-]).
  apply static_pol_dn in Ei, Ee, Ed. cbn [fmap list_fmap]. by rewrite Ei, Ee, Ed.
Qed.

(** The agent and the controller are configured alike. *)
Definition same_config (cfg : PodCfg) (ccfg : Config) : Prop :=
  pc_AciPrefix cfg = NetPol.AciPrefix ccfg ∧ pc_HppOptimization cfg = NetPol.HppOptimization ccfg ∧
  PolicySpace (DefaultEg cfg) = NetPol.AciPolicyTenant ccfg ∧ NetPol.ChainedMode ccfg = false.

Lemma np_group_label cfg ccfg np :
  same_config cfg ccfg → np_group cfg (npkey np) np = own_group cfg (label_key ccfg np).
Proof. intros (H1&H2&_). unfold np_group, label_key, aci_name, aciNameForKey. rewrite H1, H2. by destruct (NetPol.HppOptimization ccfg). Qed.

Section Enforced.
Context (growcap : nat → nat) (cfg : PodCfg) (set_order : gset string → list string) (st : PodStores) (ix : PodIndexes).
Context (pod : HostPod) (h : garrays).

(** A stored policy that selects the pod. *)
Definition selecting (np : NetworkPolicy) : Prop :=
  st_netpols st !! npkey np = Some np ∧
  selects Selector_Matches netPolPodSelector (mkStores (to_pod <$> st_pods st) (nso_Labels <$> st_nss st) (st_netpols st)) np (to_pod pod).

(** The index of network policies is up to date for the pod. *)
Definition policies_indexed : Prop :=
  (∀ k np, st_netpols st !! k = Some np → k = npkey np) ∧
  (∀ np, st_netpols st !! npkey np = Some np →
     (npkey np ∈ GetObjForPod (netPolPods ix) (pod_key pod) ↔ selecting np)).

Definition user_groups : list OpflexGroup :=
  let v := as_sg (annotated growcap cfg set_order st ix pod h) in groups_of v.1 v.2.

Definition pod_groups : list OpflexGroup :=
  let v := as_sg (assignGroups growcap cfg set_order st ix pod h) in groups_of v.1 v.2.

Lemma selecting_stored k np :
  (∀ X, set_order X ≡ₚ elements X) → policies_indexed →
  (k, np) ∈ stored_policies set_order st ix (pod_key pod) ↔ k = npkey np ∧ selecting np.
Proof.
  intros Ho [Hk Hi]. rewrite stored_policies_in by done. split.
  - intros [Hin E]. pose proof (Hk k np E) as ->. split; [done|]. by apply Hi.
  - intros [-> Hs]. pose proof Hs as [E _]. split; [by apply Hi|done].
Qed.
End Enforced.

(** C4: A pod that no network policy selects has the security groups of its annotations. A pod that policies select has exactly these: the group of every policy that selects it, which names the host protection policy that the controller writes for that policy; the groups of its annotations; that of its node; static-discovery; static-ingress if and only if no policy that selects it applies to ingress, and static-egress likewise, and these name the static policies that the controller writes. *)
Theorem hpods_policy_groups growcap cfg ccfg set_order st ix pod h :
  (∀ X, set_order X ≡ₚ elements X) → policies_indexed st ix pod → same_config cfg ccfg →
  let sel np := selecting st pod np in
  let no_type t := ∀ np, sel np → t ∉ GetNetPolPolicyTypes (Some np) in
  let static n := own_group cfg (aci_name cfg "np" n) in
  ((¬ ∃ np, sel np) → pod_groups growcap cfg set_order st ix pod h = user_groups growcap cfg set_order st ix pod h) ∧
  ((∃ np, sel np) → ∀ g, g ∈ pod_groups growcap cfg set_order st ix pod h ↔
     (∃ np, sel np ∧ g = own_group cfg (label_key ccfg np)) ∨ g ∈ user_groups growcap cfg set_order st ix pod h ∨
     (po_NodeName pod ≠ EmptyString ∧ g = own_group cfg (aci_name cfg "node" (po_NodeName pod))) ∨
     g = static "static-discovery" ∨ (no_type "Ingress" ∧ g = static "static-ingress") ∨
     (no_type "Egress" ∧ g = static "static-egress")) ∧
  (∀ ips inf np s s', handleNetPolUpdate ccfg ips inf np s = Some s' →
     ∃ hpp, effects s' = (effects s ++ [WriteObjects (label_key ccfg np) [hpp]])%list ∧
       denotes (own_group cfg (label_key ccfg np)) hpp) ∧
  (∀ ips l, staticNetPolObjs ccfg ips = Some l →
     Forall2 denotes (static <$> ["static-ingress"; "static-egress"; "static-discovery"]) l).
Proof.
  intros Ho Hix Hc sel no_type static. split_and!.
  - intros Hno. unfold pod_groups, user_groups, assignGroups. cbn [as_sg]. rewrite mergeNetPolSg_none; [done|].
    destruct (stored_policies _ _ _ _) as [|[k np] l] eqn:E; [done|]. exfalso. apply Hno. exists np.
    apply (selecting_stored set_order st ix pod k np Ho Hix). rewrite E. apply list_elem_of_here.
  - intros (np0&Hnp0) g. unfold pod_groups, user_groups, assignGroups. cbn [as_sg].
    pose proof (λ k np, selecting_stored set_order st ix pod k np Ho Hix) as Hst.
    rewrite mergeNetPolSg_some; [|done|intros E; specialize (Hst (npkey np0) np0); rewrite E in Hst; set_solver].
    assert (P : (∃ k np, (k, np) ∈ stored_policies set_order st ix (pod_key pod) ∧ g = np_group cfg k np) ↔
      (∃ np, sel np ∧ g = own_group cfg (label_key ccfg np))).
    { setoid_rewrite Hst. split.
      - intros (k&np&[-> Hs]&->). exists np. split; [done|by apply np_group_label].
      - intros (np&Hs&->). exists (npkey np), np. split; [done|]. by rewrite (np_group_label _ ccfg). }
    assert (N : ∀ t, (∀ k np, (k, np) ∈ stored_policies set_order st ix (pod_key pod) → t ∉ GetNetPolPolicyTypes (Some np)) ↔ no_type t).
    { intros t. setoid_rewrite Hst. unfold no_type. split; [intros H np Hs; by apply (H (npkey np))|intros H k np [_ Hs]; by apply H]. }
    rewrite P, !N. done.
  - intros ips inf np s s' E. destruct Hc as (_&_&Ht&Hch).
    destruct (handleNetPolUpdate_dn ccfg ips inf np s s' Hch E) as (hpp&E1&E2). exists hpp. split; [done|].
    unfold denotes. simpl. by rewrite Ht.
  - intros ips l E. apply static_dns in E. destruct Hc as (Hp&_&Ht&_). unfold static, denotes, own_group, aci_name.
    rewrite Hp, Ht. apply Forall2_fmap_l. cbn [PolicySpace og_Name].
    destruct l as [|a [|b [|c [|d l]]]]; try discriminate E. injection E as E1 E2 E3. repeat constructor; done.
Qed.

(** ** Arrays *)

(** The slice's array is not one of the first [n], or has no room. *)
Definition safe (n : nat) (h : garrays) (s : option gslice) : Prop :=
  match s with Some s => (n <= sl_arr s)%nat ∨ array h (sl_arr s) = [] | None => True end.

(** The first [n] arrays are as before. *)
Definition kept (n : nat) (h h' : garrays) : Prop := (n <= length h')%nat ∧ ∀ a, (a < n)%nat → h' !! a = h !! a.

Lemma kept_refl n h : (n <= length h)%nat → kept n h h.
Proof. done. Qed.

Lemma kept_trans n h h1 h2 : kept n h h1 → kept n h1 h2 → kept n h h2.
Proof. intros [_ H1] [L H2]. split; [done|]. intros a Ha. by rewrite H2, H1. Qed.

Lemma kept_app n h l : (n <= length h)%nat → kept n h (h ++ l)%list.
Proof. intros Hn. split; [rewrite length_app; lia|]. intros a Ha. apply lookup_app_l. lia. Qed.

Lemma kept_alter n h f a : (n <= length h)%nat → (n <= a)%nat → kept n h (alter f a h).
Proof. intros Hn Ha. split; [by rewrite length_alter|]. intros b Hb. apply list_lookup_alter_ne. lia. Qed.

Lemma safe_kept n h h' s : kept n h h' → safe n h s → safe n h' s.
Proof.
  intros [_ H]. destruct s as [s|]; [|done]. simpl. intros [?|E]; [by left|].
  destruct (decide (n <= sl_arr s)%nat); [by left|]. right. unfold array in *. rewrite H by lia. done.
Qed.

Lemma make_room_kept growcap n i h s :
  (n <= length h)%nat → safe n h s →
  let r := make_room growcap i h s in kept n h r.1 ∧ (n <= sl_arr r.2)%nat.
Proof.
  intros Hn Hs. unfold make_room. destruct s as [s|]; simpl in *.
  - destruct (Nat.leb_spec (length (array h (sl_arr s))) i) as [Hc|Hc]; simpl; [split; [by apply kept_app|lia]|].
    split; [by apply kept_refl|]. destruct Hs as [?|E]; [done|]. rewrite E in Hc. simpl in Hc. lia.
  - split; [by apply kept_app|lia].
Qed.

Lemma decode_elems_kept growcap n vs i h s :
  (n <= length h)%nat → safe n h s →
  let r := decode_elems growcap i vs h s in kept n h r.1 ∧ safe n r.1 r.2.
Proof.
  revert i h s. induction vs as [|v vs IH]; intros i h s Hn Hs; simpl.
  - assert (N : kept n h (new_slice h []).1 ∧ safe n (new_slice h []).1 (new_slice h []).2).
    { split; [by apply kept_app|]. simpl. left. lia. }
    destruct i as [|i]; [exact N|]. destruct s as [s|]; [|exact N]. split; [by apply kept_refl|]. exact Hs.
  - pose proof (make_room_kept growcap n i h s Hn Hs) as [Hk Ha]. destruct (make_room growcap i h s) as [h1 s1]. simpl in *.
    pose proof (kept_alter n h1 (alter (λ g, decode_group g v) i) (sl_arr s1) (proj1 Hk) Ha) as Hk2.
    destruct (IH (S i) (alter (alter (λ g, decode_group g v) i) (sl_arr s1) h1) (Some (mkSl (sl_arr s1) (sl_len s1 `max` S i))))
      as [H1 H2]; [by destruct Hk2|by left|].
    split; [|done]. by eapply kept_trans, kept_trans.
Qed.

(** The pair of the store and of the slice that is being made. *)
Definition good (n : nat) (h : garrays) (hs : garrays * option gslice) : Prop := kept n h hs.1 ∧ safe n hs.1 hs.2.

Lemma decodeAnnotation_slice_good growcap n h a hs : good n h hs → good n h (decodeAnnotation_slice growcap a hs).
Proof.
  intros [Hk Hs]. unfold decodeAnnotation_slice. destruct (annotation_json a) as [v|]; [|done].
  unfold decode_slice. destruct v as [| | | |vs|]; try (split; done).
  destruct (decode_elems_kept growcap n vs 0 hs.1 hs.2 (proj1 Hk) Hs) as [H1 H2]. split; [by eapply kept_trans|done].
Qed.

(** The configured security groups are in the store and have no room. *)
Definition no_defaults (cfg : PodCfg) (h : garrays) : Prop :=
  ∀ ns, match default (DefaultSg cfg) (NamespaceDefaultSg cfg !! ns) with
        | Some s => (sl_arr s < length h)%nat ∧ array h (sl_arr s) = []
        | None => True
        end.

Lemma no_defaults_kept cfg h h' : kept (length h) h h' → no_defaults cfg h → no_defaults cfg h'.
Proof.
  intros [L H] Hn ns. specialize (Hn ns). destruct (default _ _) as [s|]; [|done]. destruct Hn as [H1 H2].
  unfold array in *. rewrite H by done. split; [lia|done].
Qed.

(** Nothing that was in the store changes. *)
Lemma assignGroups_kept growcap cfg set_order st ix pod h :
  no_defaults cfg h → kept (length h) h (as_sg (assignGroups growcap cfg set_order st ix pod h)).1.
Proof.
  intros Hn. specialize (Hn (po_Namespace pod)).
  assert (G0 : good (length h) h (as_sg (configured cfg (po_Namespace pod) h))).
  { split; [by apply kept_refl|]. simpl. revert Hn. destruct (default _ _) as [s|]; [|done]. intros [_ E]. by right. }
  assert (GA : ∀ m b v, good (length h) h (as_sg v) → good (length h) h (as_sg (annotate growcap m b v))).
  { intros m b v. apply decodeAnnotation_slice_good. }
  assert (G1 : good (length h) h (as_sg (annotated growcap cfg set_order st ix pod h))).
  { unfold annotated. apply GA. destruct (getParentAnn _ _ _ _); [apply GA|]; destruct (st_nss st !! _); auto. }
  destruct G1 as [Hk _]. unfold assignGroups. cbn [as_sg].
  set (hs := as_sg (annotated growcap cfg set_order st ix pod h)) in *. unfold mergeNetPolSg. destruct hs as [h1 s1]. simpl in *.
  destruct (foldl _ _ _) as [gs g]. case_bool_decide; [done|]. eapply kept_trans; [done|]. apply kept_app, Hk.
Qed.

Lemma groups_kept h h' s : kept (length h) h h' → match s with Some s => (sl_arr s < length h)%nat | None => True end → groups_of h' s = groups_of h s.
Proof. intros [_ H] Hs. destruct s as [s|]; [|done]. unfold groups_of, array. by rewrite H. Qed.

Definition in_store (h : garrays) (e : endpoint) : Prop :=
  match SecurityGroup e with Some s => (sl_arr s < length h)%nat | None => True end.

Lemma deep_kept h h' e : kept (length h) h h' → in_store h e → deep_ep h' e = deep_ep h e.
Proof.
  intros Hk Hi. unfold deep_ep, map_sg. unfold in_store in Hi. pose proof (groups_kept h h' (SecurityGroup e) Hk Hi) as E.
  destruct (SecurityGroup e); [by rewrite E|done].
Qed.

(** The slice's array is in the store. *)
Definition valid (hs : garrays * option gslice) : Prop :=
  match hs.2 with Some s => (sl_arr s < length hs.1)%nat | None => True end.

Lemma new_slice_valid h l : valid (new_slice h l).
Proof. unfold valid. simpl. rewrite length_app. simpl. lia. Qed.

Lemma decode_elems_valid growcap vs i h s : valid (h, s) → valid (decode_elems growcap i vs h s).
Proof.
  revert i h s. induction vs as [|v vs IH]; intros i h s Hv; simpl.
  - destruct i, s as [s|]; try apply new_slice_valid. exact Hv.
  - assert (R : (sl_arr (make_room growcap i h s).2 < length (make_room growcap i h s).1)%nat).
    { unfold make_room. destruct s as [s|]; [case_match|]; simpl; rewrite ?length_app; simpl; try lia. exact Hv. }
    destruct (make_room growcap i h s) as [h1 s1]. apply IH. unfold valid. simpl in *. by rewrite length_alter.
Qed.

Lemma decodeAnnotation_slice_valid growcap a hs : valid hs → valid (decodeAnnotation_slice growcap a hs).
Proof.
  intros Hv. unfold decodeAnnotation_slice. destruct (annotation_json a) as [v|]; [|done]. destruct hs as [h s].
  unfold decode_slice. destruct v; try exact Hv. by apply decode_elems_valid.
Qed.

Lemma assignGroups_valid growcap cfg set_order st ix pod h :
  no_defaults cfg h → valid (as_sg (assignGroups growcap cfg set_order st ix pod h)).
Proof.
  intros Hn. specialize (Hn (po_Namespace pod)).
  assert (G0 : valid (as_sg (configured cfg (po_Namespace pod) h))).
  { unfold valid. simpl. revert Hn. destruct (default _ _) as [s|]; [|done]. by intros [H _]. }
  assert (GA : ∀ m b v, valid (as_sg v) → valid (as_sg (annotate growcap m b v))).
  { intros m b v. apply decodeAnnotation_slice_valid. }
  assert (G1 : valid (as_sg (annotated growcap cfg set_order st ix pod h))).
  { unfold annotated. apply GA. destruct (getParentAnn _ _ _ _); [apply GA|]; destruct (st_nss st !! _); auto. }
  unfold assignGroups. cbn [as_sg]. destruct (as_sg (annotated _ _ _ _ _ _ _)) as [h1 s1]. unfold mergeNetPolSg.
  destruct (foldl _ _ _) as [gs g]. case_bool_decide; [done|]. apply new_slice_valid.
Qed.

(** ** Endpoints *)

(** An endpoint as it is compared, without the mark. *)
Definition view_ep (h : garrays) (e : endpoint) : opflexEndpoint (option (list OpflexGroup)) := set_registered false (deep_ep h e).

Lemma keep_registered_some existing neweps r :
  keep_registered existing neweps = Some r →
  (length existing <= length neweps)%nat ∧ set_registered false <$> r = set_registered false <$> neweps ∧
  SecurityGroup <$> r = SecurityGroup <$> neweps.
Proof.
  revert neweps r. induction existing as [|e existing IH]; intros neweps r; simpl.
  - intros [= <-]. split; [lia|done].
  - destruct neweps as [|n neweps]; [done|]. intros (r'&E&[= <-])%bind_Some. apply IH in E as (H1&H2&H3).
    split_and!; [simpl; lia| |]; rewrite !fmap_cons; [by rewrite H2|by rewrite H3].
Qed.

Lemma keep_registered_ok existing neweps :
  (length existing <= length neweps)%nat → is_Some (keep_registered existing neweps).
Proof.
  revert neweps. induction existing as [|e existing IH]; intros neweps; simpl; [by eexists|].
  destruct neweps as [|n neweps]; simpl; [lia|]. intros H. destruct (IH neweps) as [r ->]; [lia|]. by eexists.
Qed.

Lemma view_unmarked h (l l' : list endpoint) : set_registered false <$> l = set_registered false <$> l' → view_ep h <$> l = view_ep h <$> l'.
Proof.
  intros E. assert (V : ∀ x : list endpoint, view_ep h <$> x = deep_ep h <$> (set_registered false <$> x)).
  { intros x. rewrite <- list_fmap_compose. by apply list_fmap_ext. }
  by rewrite !V, E.
Qed.

Lemma view_deep h (l l' : list endpoint) : deep_ep h <$> l = deep_ep h <$> l' → view_ep h <$> l = view_ep h <$> l'.
Proof.
  intros E. assert (V : ∀ x : list endpoint, view_ep h <$> x = set_registered false <$> (deep_ep h <$> x)).
  { intros x. rewrite <- list_fmap_compose. by apply list_fmap_ext. }
  by rewrite !V, E.
Qed.

(** Everything but the endpoints. *)
Definition same_rest (s s' : HostPods) : Prop :=
  hp_stores s' = hp_stores s ∧ hp_arrays s' = hp_arrays s ∧ hp_tables s' = hp_tables s ∧ hp_ix s' = hp_ix s ∧
  hp_snat s' = hp_snat s ∧ hp_agent s' = hp_agent s ∧ hp_out s' = hp_out s.

Section Changed.
Context (md_order : gmap string ContainerMetadata → list ContainerMetadata).

Lemma epChanged_some uid key g sg qp attrs s s' :
  epChanged md_order uid key g sg qp attrs s = Some s' →
  same_rest s s' ∧ (∀ u, u ≠ uid → opflexEps s' !! u = opflexEps s !! u) ∧
  (∀ l e, opflexEps s' !! uid = Some l → e ∈ l → SecurityGroup e = sg ∨ ∃ l', opflexEps s !! uid = Some l' ∧ e ∈ l') ∧
  match epMetadata (hp_agent s) !! key with
  | None => opflexEps s' !! uid = None
  | Some mdmap => ∃ l, opflexEps s' !! uid = Some l ∧
      view_ep (hp_arrays s) <$> l = view_ep (hp_arrays s) <$> new_eps md_order uid mdmap g sg qp attrs
  end.
Proof.
  unfold epChanged. destruct (epMetadata (hp_agent s) !! key) as [mdmap|].
  2: { intros [= <-]. simpl. split_and!; [done|intros u Hu; by apply lookup_delete_ne| |apply lookup_delete_eq].
       intros l e. by rewrite lookup_delete_eq. }
  intros (neweps&E&H)%bind_Some. apply keep_registered_some in E as (_&E&Esg).
  assert (Hsg : ∀ e, e ∈ neweps → SecurityGroup e = sg).
  { intros e He. assert (SecurityGroup e ∈ SecurityGroup <$> neweps) as Hin by (apply list_elem_of_fmap; by exists e).
    rewrite Esg in Hin. apply list_elem_of_fmap in Hin as (n&->&Hn). unfold new_eps in Hn.
    rewrite list_elem_of_In, in_flat_map in Hn. destruct Hn as (md&_&Hn). apply in_map_iff in Hn as (i&<-&_). done. }
  assert (V : view_ep (hp_arrays s) <$> neweps = view_ep (hp_arrays s) <$> new_eps md_order uid mdmap g sg qp attrs) by by apply view_unmarked.
  destruct (match opflexEps s !! uid with Some _ => _ | None => _ end) eqn:Ec.
  - destruct neweps as [|n l] eqn:En; [done|]. injection H as <-. simpl. split_and!; [done| | |].
    + intros u Hu. by apply lookup_insert_ne.
    + intros l' e. rewrite lookup_insert_eq. intros [= <-] He. left. by apply Hsg.
    + eexists. by rewrite lookup_insert_eq.
  - injection H as <-. destruct (opflexEps s !! uid) as [existing|] eqn:Ee; [|done]. apply negb_false_iff, bool_decide_eq_true in Ec.
    split_and!; [done|done|intros l e [= <-] He; right; by exists existing|]. exists existing. split; [done|]. rewrite <- V.
    apply view_deep. exact Ec.
Qed.

(** It panics only where there are fewer interfaces than before, or none. *)
Lemma epChanged_returns uid key g sg qp attrs s :
  (∀ mdmap, epMetadata (hp_agent s) !! key = Some mdmap →
     (length (default [] (opflexEps s !! uid)) <= length (new_eps md_order uid mdmap g sg qp attrs))%nat ∧
     new_eps md_order uid mdmap g sg qp attrs ≠ []) →
  is_Some (epChanged md_order uid key g sg qp attrs s).
Proof.
  intros H. unfold epChanged. destruct (epMetadata (hp_agent s) !! key) as [mdmap|]; [|by eexists].
  destruct (H mdmap eq_refl) as [H1 H2]. destruct (keep_registered_ok _ _ H1) as [r Er]. rewrite Er. simpl.
  apply keep_registered_some in Er as (_&E&_). case_match; [|by eexists]. destruct r as [|e r]; [|by eexists].
  by destruct (new_eps md_order uid mdmap g sg qp attrs).
Qed.
End Changed.

(** ** One pod at a time *)

(** The configuration has no security groups of its own, and the slices of
    the endpoints are in the store. *)
Definition apart (cfg : PodCfg) (s : HostPods) : Prop :=
  no_defaults cfg (hp_arrays s) ∧ ∀ uid l e, opflexEps s !! uid = Some l → e ∈ l → in_store (hp_arrays s) e.

(** What the endpoints of a pod say. *)
Definition pod_view (s : HostPods) (uid : string) : option (list (opflexEndpoint (option (list OpflexGroup)))) :=
  map (view_ep (hp_arrays s)) <$> opflexEps s !! uid.

Lemma view_kept h h' (l : list endpoint) : kept (length h) h h' → (∀ e, e ∈ l → in_store h e) → view_ep h' <$> l = view_ep h <$> l.
Proof.
  intros Hk Hl. apply list_fmap_ext. intros i e He. unfold view_ep. by rewrite (deep_kept h h') by (done || by eapply Hl, list_elem_of_lookup_2).
Qed.

Lemma epDeleted_view uid s :
  same_rest s (epDeleted uid s) ∧ opflexEps (epDeleted uid s) = delete uid (opflexEps s).
Proof.
  unfold epDeleted. destruct (opflexEps s !! uid) eqn:E; [done|]. by rewrite delete_id.
Qed.

Lemma label_pod_other pod st :
  st_netpols (label_pod pod st) = st_netpols st ∧ ∀ k, k ≠ pod_key pod → st_pods (label_pod pod st) !! k = st_pods st !! k.
Proof.
  unfold label_pod. destruct (po_Labels pod); [|done]. case_bool_decide; [|done]. split; [done|].
  intros k Hk. cbn [st_pods]. by apply lookup_insert_ne.
Qed.

Section OnePod.
Context (growcap : nat → nat) (set_order : gset string → list string).
Context (md_order : gmap string ContainerMetadata → list ContainerMetadata) (cfg : PodCfg).

Let changed := podChangedLocked growcap set_order md_order cfg.

Lemma podChangedLocked_some pod s s' :
  apart cfg s → changed pod s = Some s' →
  apart cfg s' ∧ kept (length (hp_arrays s)) (hp_arrays s) (hp_arrays s') ∧
  (∀ u, u ≠ po_UID pod → pod_view s' u = pod_view s u) ∧
  hp_ix s' = hp_ix s ∧ hp_agent s' = hp_agent s ∧ st_netpols (hp_stores s') = st_netpols (hp_stores s) ∧
  (∀ k, k ≠ pod_key pod → st_pods (hp_stores s') !! k = st_pods (hp_stores s) !! k) ∧
  (po_HostNetwork pod = false → ∀ mdmap, epMetadata (hp_agent s) !! ep_meta_key pod = Some mdmap →
   ∃ l, opflexEps s' !! po_UID pod = Some l ∧ ∀ e, e ∈ l →
     groups_of (hp_arrays s') (SecurityGroup e) = pod_groups growcap cfg set_order (hp_stores s) (hp_ix s) pod (hp_arrays s)).
Proof using changed.
  intros Ha. destruct Ha as [Hnd Hin]. unfold changed, podChangedLocked. destruct (po_HostNetwork pod).
  { intros [= <-]. destruct (epDeleted_view (po_UID pod) s) as [(R1&R2&R3&R4&R5&R6&R7) Ee]. unfold apart, pod_view.
    rewrite R1, R2, R4, R6, Ee. split_and!; try done.
    - intros uid l e. destruct (decide (uid = po_UID pod)) as [->|]; [by rewrite lookup_delete_eq|rewrite lookup_delete_ne by done; apply Hin].
    - intros u Hu. by rewrite lookup_delete_ne. }
  cbn zeta. cbn [set_tables hp_stores hp_ix hp_arrays hp_tables].
  set (v := assignGroups growcap cfg set_order (hp_stores s) (hp_ix s) pod (hp_arrays s)).
  pose proof (assignGroups_kept growcap cfg set_order (hp_stores s) (hp_ix s) pod (hp_arrays s) Hnd) as Hk. fold v in Hk.
  pose proof (assignGroups_valid growcap cfg set_order (hp_stores s) (hp_ix s) pod (hp_arrays s) Hnd) as Hv. fold v in Hv.
  assert (Eg : pod_groups growcap cfg set_order (hp_stores s) (hp_ix s) pod (hp_arrays s) = groups_of (as_sg v).1 (as_sg v).2) by done.
  clearbody v. intros (s1&E&[= <-])%bind_Some. apply epChanged_some in E as ((R1&R2&R3&R4&R5&R6&R7)&Hoth&Hsg&Hmd). simpl in *.
  assert (Hold : ∀ u l e, opflexEps s !! u = Some l → e ∈ l → in_store (as_sg v).1 e).
  { intros u l e Hu He. specialize (Hin u l e Hu He). revert Hin. unfold in_store. destruct (SecurityGroup e); [|done]. destruct Hk. lia. }
  assert (Hnew : ∀ u l e, opflexEps s1 !! u = Some l → e ∈ l → in_store (as_sg v).1 e).
  { intros u l e Hu He. destruct (decide (u = po_UID pod)) as [->|Hne].
    - destruct (Hsg l e Hu He) as [E|(l'&Hl&He')]; [|by eapply Hold]. unfold in_store. rewrite E. exact Hv.
    - rewrite Hoth in Hu by done. by eapply Hold. }
  split_and!.
  - unfold apart. simpl. rewrite R2. split; [by eapply no_defaults_kept|exact Hnew].
  - simpl. by rewrite R2.
  - intros u Hu. unfold pod_view. simpl. rewrite R2, Hoth by done. destruct (opflexEps s !! u) as [l|] eqn:El; [|done].
    cbn. f_equal. apply view_kept; [done|]. intros e He. by eapply Hin.
  - simpl. by rewrite R4.
  - simpl. by rewrite R6.
  - simpl. rewrite R1. apply label_pod_other.
  - intros k Hk'. simpl. rewrite R1. by apply label_pod_other.
  - intros _ mdmap Emd. rewrite Emd in Hmd. destruct Hmd as (l&El&Ev). exists l. split; [done|]. intros e He. simpl. rewrite R2.
    assert (view_ep (as_sg v).1 e ∈ view_ep (as_sg v).1 <$> l) as Hv' by (apply list_elem_of_fmap; by exists e).
    rewrite Ev in Hv'. apply list_elem_of_fmap in Hv' as (n&E1&Hn). unfold new_eps in Hn.
    rewrite list_elem_of_In, in_flat_map in Hn. destruct Hn as (md&_&Hn). apply in_map_iff in Hn as (i&<-&_).
    pose proof (f_equal SecurityGroup E1) as E2. unfold view_ep, deep_ep, map_sg in E2. cbn [SecurityGroup set_registered iface_ep] in E2.
    rewrite Eg.
    destruct (SecurityGroup e), (as_sg v).2; try discriminate E2; [by injection E2|done].
Qed.
End OnePod.

(** C18: As long as the configuration has no default security groups, work on a pod leaves what the endpoints of all other pods say as it is, and the arrays that hold the configured groups; and afterwards every endpoint of the pod, if containers of it are configured, has the security groups that assignGroups computes for the pod. *)
Theorem hpods_pods_apart growcap set_order md_order cfg pod s s' :
  apart cfg s → podChangedLocked growcap set_order md_order cfg pod s = Some s' →
  apart cfg s' ∧
  (∀ u, u ≠ po_UID pod → pod_view s' u = pod_view s u) ∧
  (∀ ns, let sg := default (DefaultSg cfg) (NamespaceDefaultSg cfg !! ns) in groups_of (hp_arrays s') sg = groups_of (hp_arrays s) sg) ∧
  (po_HostNetwork pod = false → ∀ mdmap, epMetadata (hp_agent s) !! ep_meta_key pod = Some mdmap →
   ∃ l, opflexEps s' !! po_UID pod = Some l ∧ ∀ e, e ∈ l →
     groups_of (hp_arrays s') (SecurityGroup e) = pod_groups growcap cfg set_order (hp_stores s) (hp_ix s) pod (hp_arrays s)).
Proof.
  intros Ha E. pose proof Ha as [Hnd _].
  destruct (podChangedLocked_some growcap set_order md_order cfg pod s s' Ha E) as (H1&Hk&H2&_&_&_&_&H3).
  split_and!; [done|done| |done]. intros ns sg. apply groups_kept; [done|]. specialize (Hnd ns). revert Hnd. subst sg.
  destruct (default _ _); [by intros [? _]|done].
Qed.

(** ** A policy that is added *)

Section Added.
Context (growcap : nat → nat) (set_order : gset string → list string) (Hord : ∀ X, set_order X ≡ₚ elements X).
Context (md_order : gmap string ContainerMetadata → list ContainerMetadata).
Context (pdqsort : (string → string → option bool) → list string → option (list string)).
Context (cfg : PodCfg) (hcfg : HostCfg) (env : PodEnv).

Let updated := podUpdated growcap set_order md_order pdqsort cfg hcfg env.
Let callback := update_callback growcap set_order md_order pdqsort cfg hcfg env.

Lemma update_pod_spec pod (i : pod_index) :
  inverse i →
  inverse (update_pod pod i) ∧ objNsIndex (update_pod pod i) = objNsIndex i ∧
  GetObjForPod (update_pod pod i) (pod_key pod) = matched_objs Selector_Matches (to_pod pod) (objNsIndex i).
Proof.
  intros Hi. unfold update_pod. destruct (UpdatePodNoCallback Selector_Matches None (to_pod pod) i) as [[i' upd] b] eqn:E.
  destruct (UpdatePod_spec Selector_Matches None (to_pod pod) i i' upd b Hi I E) as (H1&H2&H3). simpl. split_and!; [|done|].
  - intros pk ok. rewrite H2, H3. destruct (decide _); [done|apply Hi].
  - rewrite H2. by rewrite decide_True.
Qed.

(** The pod's policies, by the selectors that the index has. *)
Definition matched_by (s : HostPods) (pod : HostPod) (k : string) : Prop :=
  k ∈ matched_objs Selector_Matches (to_pod pod) (objNsIndex (netPolPods (hp_ix s))).

(** The endpoints of the pod have the group of the policy. *)
Definition has_policy (s : HostPods) (pod : HostPod) (k : string) (np : NetworkPolicy) : Prop :=
  ∃ l, opflexEps s !! po_UID pod = Some l ∧ ∀ e, e ∈ l → np_group cfg k np ∈ groups_of (hp_arrays s) (SecurityGroup e).

Lemma mergeNetPolSg_in st ix pk pod hs k np :
  k ∈ GetObjForPod (netPolPods ix) pk → st_netpols st !! k = Some np →
  np_group cfg k np ∈ groups_of (mergeNetPolSg cfg set_order st ix pk pod hs).1 (mergeNetPolSg cfg set_order st ix pk pod hs).2.
Proof using Hord.
  intros Hk Hnp. assert (Hin : (k, np) ∈ stored_policies set_order st ix pk) by by apply stored_policies_in.
  rewrite (mergeNetPolSg_some cfg set_order Hord st ix pk pod hs (np_group cfg k np)); [left; by exists k, np|].
  intros E. rewrite E in Hin. set_solver.
Qed.

Lemma podUpdated_some pod s s' :
  apart cfg s → inverse (netPolPods (hp_ix s)) → updated pod s = Some s' →
  apart cfg s' ∧ inverse (netPolPods (hp_ix s')) ∧ objNsIndex (netPolPods (hp_ix s')) = objNsIndex (netPolPods (hp_ix s)) ∧
  hp_agent s' = hp_agent s ∧ st_netpols (hp_stores s') = st_netpols (hp_stores s) ∧
  (∀ k, k ≠ pod_key pod → st_pods (hp_stores s') !! k = st_pods (hp_stores s) !! k) ∧
  (∀ u, u ≠ po_UID pod → pod_view s' u = pod_view s u) ∧
  (po_HostNetwork pod = false → is_Some (epMetadata (hp_agent s) !! ep_meta_key pod) →
   ∀ k np, st_netpols (hp_stores s) !! k = Some np → matched_by s pod k → has_policy s' pod k np).
Proof using Hord.
  intros Ha Hi. unfold updated, podUpdated. intros (s2&E2&E)%bind_Some. unfold snat_update in E2.
  apply bind_Some in E2 as (n&_&[= <-]). apply podChangedLocked_some in E; [|exact Ha].
  destruct E as (H1&_&H3&H4&H5&H6&H7&H8). simpl in *.
  destruct (update_pod_spec pod (netPolPods (hp_ix s)) Hi) as (U1&U2&U3). rewrite H4. simpl.
  split_and!; try done. intros Hh [mdmap Hmd] k np Hnp Hm. destruct (H8 Hh mdmap Hmd) as (l&El&Hl). exists l. split; [done|].
  intros e He. rewrite (Hl e He). unfold pod_groups, assignGroups. cbn [as_sg].
  match goal with |- context [mergeNetPolSg cfg set_order ?st ?ix ?pk pod ?hs] =>
    apply (mergeNetPolSg_in st ix pk pod hs k np); cbn [hp_stores hp_ix netPolPods set_ix set_snat] end; [|done].
  by rewrite U3.
Qed.

(** A policy's group stays while other pods are worked on. *)
Lemma has_policy_view s s' pod k np : pod_view s' (po_UID pod) = pod_view s (po_UID pod) → has_policy s pod k np → has_policy s' pod k np.
Proof.
  unfold pod_view, has_policy. intros E (l&El&Hl). rewrite El in E. simpl in E.
  destruct (opflexEps s' !! po_UID pod) as [l'|]; [|done]. injection E as E. exists l'. split; [done|]. intros e He.
  assert (view_ep (hp_arrays s') e ∈ map (view_ep (hp_arrays s')) l') as Hv by (apply list_elem_of_In, in_map, list_elem_of_In; done).
  rewrite E in Hv. apply list_elem_of_In, in_map_iff in Hv as (e0&Ev&He0). apply list_elem_of_In, Hl in He0.
  pose proof (f_equal SecurityGroup Ev) as Es. unfold view_ep, deep_ep, map_sg in Es. cbn [SecurityGroup set_registered] in Es.
  destruct (SecurityGroup e) as [x|], (SecurityGroup e0) as [x0|]; try discriminate Es; [|simpl in He0; set_solver].
  injection Es as Es. unfold groups_of in He0 |- *. by rewrite <- Es.
Qed.

(** Pods are stored under their keys, and their identifiers are different. *)
Definition pods_keyed (st : PodStores) : Prop :=
  (∀ k p, st_pods st !! k = Some p → k = pod_key p) ∧
  (∀ k k' p p', st_pods st !! k = Some p → st_pods st !! k' = Some p' → po_UID p = po_UID p' → k = k').

(** The loop over the pods of a policy: [st0] are the stores at its start. *)
Lemma callbacks_apply (st0 : PodStores) k np keys s s' :
  pods_keyed st0 → NoDup keys → for_each callback keys s = Some s' →
  apart cfg s → inverse (netPolPods (hp_ix s)) → st_netpols (hp_stores s) !! k = Some np →
  (∀ pk, pk ∈ keys → st_pods (hp_stores s) !! pk = st_pods st0 !! pk) →
  ∀ pk pod, st_pods st0 !! pk = Some pod → po_HostNetwork pod = false → is_Some (epMetadata (hp_agent s) !! ep_meta_key pod) →
    matched_by s pod k → pk ∈ keys ∨ has_policy s pod k np → has_policy s' pod k np.
Proof using Hord.
  intros [Hk Hu]. revert s. induction keys as [|x keys IH]; intros s Hnd; simpl.
  - intros [= <-] _ _ _ _ pk pod _ _ _ _ [H|H]; [set_solver|done].
  - apply NoDup_cons in Hnd as [Hx Hnd]. intros (s1&E1&E)%bind_Some Ha Hi Hnp Hst pk pod Hp Hh Hmd Hm Hor.
    unfold callback, update_callback in E1. rewrite (Hst x) in E1 by apply list_elem_of_here.
    destruct (st_pods st0 !! x) as [px|] eqn:Ex.
    2: { injection E1 as <-. apply (IH s Hnd E Ha Hi Hnp) with (pk := pk); [|done..|].
         - intros y Hy. by apply Hst, list_elem_of_further.
         - destruct Hor as [Hin|]; [|by right]. apply elem_of_cons in Hin as [->|]; [congruence|by left]. }
    pose proof (Hk x px Ex) as ->.
    destruct (podUpdated_some px s s1 Ha Hi E1) as (A1&A2&A3&A4&A5&A6&A7&A8).
    apply (IH s1 Hnd E A1 A2) with (pk := pk).
    + by rewrite A5.
    + intros y Hy. rewrite A6 by (intros ->; done). by apply Hst, list_elem_of_further.
    + done.
    + done.
    + by rewrite A4.
    + unfold matched_by in *. by rewrite A3.
    + destruct (decide (pk = pod_key px)) as [->|Hne].
      * right. assert (pod = px) as -> by congruence. by apply A8.
      * destruct Hor as [Hin|Hpol].
        -- apply elem_of_cons in Hin as [->|Hin]; [done|by left].
        -- right. eapply has_policy_view; [|exact Hpol]. apply A7. intros Eu. apply Hne. by apply (Hu pk (pod_key px) pod px).
Qed.
End Added.

Lemma netPolPodSelector_named st np :
  np_Namespace np ≠ EmptyString → named (getObjNamespaces Selector_Matches netPolPodSelector st np).
Proof.
  intros Hns. unfold named. destruct (sels_of _ _) as [|x l] eqn:E; [done|]. exfalso.
  assert (Hx : x ∈ sels_of (getObjNamespaces Selector_Matches netPolPodSelector st np) EmptyString) by (rewrite E; apply list_elem_of_here).
  apply getObjNamespaces_of in Hx as (ps&Hps&_&Hsel). unfold netPolPodSelector, PodSelectorFromNsAndSelector in Hps.
  destruct (LabelSelectorAsSelector _); [|set_solver]. apply list_elem_of_singleton in Hps as ->.
  destruct Hsel as [[= Hn]|(?&?&[=]&_)]. done.
Qed.

(** C17: When a network policy is added and the index has no pods for it yet, every pod of the node that it selects and that has configured containers has endpoints with the policy's security group afterwards, whatever else the handler does on the way. *)
Theorem hpods_policy_applied growcap set_order md_order pdqsort cfg hcfg env np s s' :
  (∀ X, set_order X ≡ₚ elements X) → apart cfg s → inverse (netPolPods (hp_ix s)) → pods_keyed (hp_stores s) →
  st_netpols (hp_stores s) !! npkey np = Some np → np_Namespace np ≠ EmptyString →
  GetPodForObj (netPolPods (hp_ix s)) (npkey np) = ∅ →
  networkPolicyAdded growcap set_order md_order pdqsort cfg hcfg env np s = Some s' →
  ∀ pk pod, st_pods (hp_stores s) !! pk = Some pod → po_HostNetwork pod = false →
    is_Some (epMetadata (hp_agent s) !! ep_meta_key pod) →
    selects Selector_Matches netPolPodSelector (index_stores (st_netpols (hp_stores s)) s) np (to_pod pod) →
    has_policy cfg s' pod (npkey np) np.
Proof.
  intros Ho Ha Hi Hk Hnp Hns Hnew. unfold networkPolicyAdded, UpdateSelectorObj, UpdateSelectorObjNoCallback, UpdateSelectorObj_locked, UpdateSelectorObj_read.
  set (st := index_stores (st_netpols (hp_stores s)) s). set (v := getObjNamespaces Selector_Matches netPolPodSelector st np).
  destruct (updateSelectorObjForNs Selector_Matches np_key st np v (netPolPods (hp_ix s))) as [[i upd] b] eqn:E.
  destruct (updateSelector_spec Selector_Matches np_key st np (npkey np) v _ i upd b Hi eq_refl E) as (S1&S2&S3).
  destruct (updateSelector_callbacks Selector_Matches np_key st np (npkey np) v _ i upd b Hi eq_refl E) as (Hupd&_).
  intros Hrun pk pod Hp Hh Hmd Hsel. pose proof (proj1 Hk pk pod Hp) as Epk.
  assert (Hv : ns_matches Selector_Matches (to_pod pod) v = true) by (apply (ns_matches_selects Selector_Matches np_key netPolPodSelector st np); exact Hsel).
  eapply (callbacks_apply growcap set_order Ho md_order pdqsort cfg hcfg env (hp_stores s) (npkey np) np (elements upd)
    (set_netPolPods i s) s'); try done.
  - apply NoDup_elements.
  - intros k ok. rewrite S2, S3. destruct (decide _); [done|apply Hi].
  - unfold matched_by. cbn [hp_ix set_netPolPods set_ix netPolPods]. apply matched_objs_in. exists v. by rewrite S1, lookup_insert_eq.
  - left. apply elem_of_elements, Hupd. rewrite Hnew. apply elem_of_union_r, elem_of_difference. split; [|set_solver].
    apply S2. rewrite decide_True by done. apply list_elem_of_fmap. exists (to_pod pod). split; [done|].
    apply selected_pods_of; [by apply netPolPodSelector_named|]. split; [|done]. exists pk. simpl. by rewrite lookup_fmap, Hp.
Qed.

(** ** A small node

    Two pods; a namespace, a deployment and a pod with annotations; a policy. *)
Definition sg_text (name : string) : string := dq ("[{'policy-space':'tn','name':'" ++ name ++ "'}]").

Definition node_cfg (sg : option gslice) : PodCfg :=
  mkPodCfg "kube" false "Kubernetes" "node1" (mkGroup EmptyString "tn" EmptyString "kubernetes|kube-default") sg zero_group ∅ ∅ ∅.

Definition node_pod (name uid : string) (anns : gmap string string) : HostPod :=
  mkHostPod "default" name uid (Some {["app" := "web"]}) anns "node1" false "Running" "10.1.0.2" [].

Definition web_pod : HostPod := node_pod "web" "u1" {[EgAnnotation := dq "{'name':'ap|web', 'x':[1]}"]}.
Definition db_pod : HostPod := node_pod "db" "u2" ∅.

Definition web_dep : Deployment :=
  mkDeployment "default" "web" "d1" ∅ {[EgAnnotation := dq "{'Tenant':'t1','name':'other'}"]} (Some (mkLs {["app" := "web"]} [])).
Definition node_ns : NsObj := mkNsObj "default" "n1" ∅ {[EgAnnotation := dq "{'policy-space':'ps','app-profile':'p'}"; SgAnnotation := sg_text "ns-sg"]}.

Definition web_policy (types : list string) : NetworkPolicy :=
  mkNp "default" "np1" (mkLs {["app" := "web"]} []) [] [] (Some types).

Definition node_stores : PodStores :=
  mkPodStores {["default/web" := web_pod; "default/db" := db_pod]} {["default" := node_ns]}
    {["default/np1" := web_policy ["Ingress"]]} ∅ {["default/web" := web_dep]} ∅.

Definition new_indexes : PodIndexes := mkPodIndexes NewPodSelectorIndex NewPodSelectorIndex NewPodSelectorIndex NewPodSelectorIndex.

Definition node_md (cont veth : string) (ip : Z) : ContainerMetadata :=
  mkMd "default" "web" cont [mkIface veth "eth0" "0a:58" "sandbox" [mkIfaceIP (mkNet (v4InV6Prefix ++ [10; 1; 0; ip])%list []) []]].

Definition node_agent : HostAgent :=
  mkAgent None NewIpCache ∅ (Raw EmptyString)
    {["default/web" := {["c1" := node_md "c1" "veth1" 2]}; "default/db" := {["c2" := node_md "c2" "veth2" 3]}]} ∅.

Definition node_state (st : PodStores) (h : garrays) : HostPods :=
  mkHostPods st h ∅ (mkTables ∅ ∅ ∅ ∅) new_indexes nat_start node_agent (mkEpOutput ∅ ∅ ∅ None) 0.

Definition node_env : PodEnv := mkPodEnv ∅ 0 nat_host.
Definition in_map_order (m : gmap string ContainerMetadata) : list ContainerMetadata := (map_to_list m).*2.
Definition no_sort : (string → string → option bool) → list string → option (list string) := λ _ l, Some l.
Definition double (n : nat) : nat := (n + n + 1)%nat.

(** The handlers with these parameters. *)
Definition run_changed (cfg : PodCfg) := podChangedLocked double elements in_map_order cfg.
Definition run_updated (cfg : PodCfg) := podUpdated double elements in_map_order no_sort cfg nat_cfg node_env.
Definition run_policy_added (cfg : PodCfg) := networkPolicyAdded double elements in_map_order no_sort cfg nat_cfg node_env.

(** The endpoints of a pod: group space, group and security groups. *)
Definition ep_groups (s : HostPods) (uid : string) : list (string * string * list OpflexGroup) :=
  map (λ e, (EgPolicySpace e, EndpointGroup e, groups_of (hp_arrays s) (SecurityGroup e))) (default [] (opflexEps s !! uid)).

Lemma elements_order (X : gset string) : elements X ≡ₚ elements X.
Proof. done. Qed.

(** The indexes after the pods and the deployment. *)
Definition web_indexes : PodIndexes :=
  match (s ← deploymentAdded double elements in_map_order no_sort (node_cfg None) nat_cfg node_env web_dep (node_state node_stores []);
         run_policy_added (node_cfg None) (web_policy ["Ingress"]) s) with
  | Some s => hp_ix s
  | None => new_indexes
  end.

Lemma hpods_precedence_witness :
  let v := assignGroups double (node_cfg None) elements node_stores web_indexes web_pod [] in
  (Tenant (as_eg v), PolicySpace (as_eg v), AppProfile (as_eg v), og_Name (as_eg v)) = ("t1", "ps", "p", "ap|web").
Proof.
  intros v. destruct (hpods_precedence double (node_cfg None) elements node_stores web_indexes web_pod [] elements_order) as [H _].
  fold v in H. pose proof (H FTenant) as H1. pose proof (H FPolicySpace) as H2. pose proof (H FAppProfile) as H3. pose proof (H FName) as H4.
  cbn [get_field] in H1, H2, H3, H4. rewrite H1, H2, H3, H4. vm_compute. reflexivity.
Defined.

Definition node_ccfg : Config := NetPol.mkConfig "tn" "kube" "dom" "Kubernetes" "ctl" EmptyString false false.

Lemma web_selected : selecting node_stores web_pod (web_policy ["Ingress"]).
Proof.
  split; [reflexivity|]. eexists. split; [apply list_elem_of_here|]. split; [left; reflexivity|]. vm_compute. reflexivity.
Qed.

Lemma web_indexed : policies_indexed node_stores web_indexes web_pod.
Proof.
  assert (U : ∀ k np, st_netpols node_stores !! k = Some np → k = "default/np1" ∧ np = web_policy ["Ingress"]).
  { intros k np H. unfold node_stores in H. cbn [st_netpols] in H. apply lookup_singleton_Some in H as [<- <-]. done. }
  split.
  - intros k np H. apply U in H as [-> ->]. reflexivity.
  - intros np H. apply U in H as [_ ->]. split; [intros _; exact web_selected|intros _].
    apply (bool_decide_eq_true_1 _). vm_compute. reflexivity.
Qed.

Lemma hpods_policy_groups_witness :
  own_group (node_cfg None) (label_key node_ccfg (web_policy ["Ingress"])) ∈ pod_groups double (node_cfg None) elements node_stores web_indexes web_pod [] ∧
  own_group (node_cfg None) (aci_name (node_cfg None) "np" "static-egress") ∈ pod_groups double (node_cfg None) elements node_stores web_indexes web_pod [].
Proof.
  destruct (hpods_policy_groups double (node_cfg None) node_ccfg elements node_stores web_indexes web_pod [] elements_order web_indexed) as (_&H&_).
  { split_and!; reflexivity. }
  assert (E : ∃ np, selecting node_stores web_pod np) by (exists (web_policy ["Ingress"]); exact web_selected).
  split; apply (H E).
  - left. exists (web_policy ["Ingress"]). split; [exact web_selected|reflexivity].
  - do 5 right. split; [|reflexivity]. intros np [Hs _]. unfold node_stores in Hs. cbn [st_netpols] in Hs. apply lookup_singleton_Some in Hs as [_ <-]. vm_compute.
    intros Hin. apply list_elem_of_singleton in Hin. discriminate Hin.
Defined.

(** A pod whose endpoints name an array of the store, and another one. *)
Definition two_pods : HostPods :=
  set_eps {["u2" := [iface_ep "u2" "c2" zero_group (Some (mkSl 0 1)) zero_group ∅ (mkIface "veth2" "eth0" EmptyString EmptyString [])]]}
    (node_state node_stores [[mkGroup EmptyString "tn" EmptyString "old"]]).

Lemma two_pods_apart : apart (node_cfg None) two_pods.
Proof.
  split; [intros ns; cbn; by rewrite lookup_empty|]. intros uid l e Hl He. unfold two_pods in Hl. cbn [opflexEps set_eps] in Hl. apply lookup_singleton_Some in Hl as [_ <-].
  apply list_elem_of_singleton in He as ->. cbn. lia.
Qed.

Definition two_pods' : HostPods := default two_pods (run_changed (node_cfg None) web_pod two_pods).

Lemma two_pods_run : run_changed (node_cfg None) web_pod two_pods = Some two_pods'.
Proof. vm_compute. reflexivity. Qed.

Lemma hpods_pods_apart_witness :
  pod_view two_pods' "u2" = pod_view two_pods "u2" ∧
  ∃ l, opflexEps two_pods' !! "u1" = Some l ∧ ∀ e, e ∈ l →
    groups_of (hp_arrays two_pods') (SecurityGroup e) =
    pod_groups double (node_cfg None) elements node_stores new_indexes web_pod [[mkGroup EmptyString "tn" EmptyString "old"]].
Proof.
  destruct (hpods_pods_apart double elements in_map_order (node_cfg None) web_pod two_pods two_pods' two_pods_apart two_pods_run)
    as (_&H1&_&H2).
  split; [apply H1; discriminate|]. exact (H2 eq_refl {["c1" := node_md "c1" "veth1" 2]} eq_refl).
Defined.

(** The policy is added to a node that has the two pods. *)
Definition added_state : HostPods := node_state node_stores [].
Definition added_state' : HostPods := default added_state (run_policy_added (node_cfg None) (web_policy ["Ingress"]) added_state).

Lemma added_run : run_policy_added (node_cfg None) (web_policy ["Ingress"]) added_state = Some added_state'.
Proof. vm_compute. reflexivity. Qed.

Lemma added_apart : apart (node_cfg None) added_state.
Proof. split; [intros ns; cbn; by rewrite lookup_empty|]. intros uid l e Hl. cbn in Hl. by rewrite lookup_empty in Hl. Qed.

Lemma added_keyed : pods_keyed (hp_stores added_state).
Proof.
  assert (U : ∀ k p, st_pods (hp_stores added_state) !! k = Some p → (k = "default/web" ∧ p = web_pod) ∨ (k = "default/db" ∧ p = db_pod)).
  { intros k p H. unfold added_state, node_state, node_stores in H. cbn [hp_stores st_pods] in H.
    apply lookup_insert_Some in H as [[<- <-]|[_ H]]; [by left|]. apply lookup_singleton_Some in H as [<- <-]. by right. }
  split.
  - intros k p H. apply U in H as [[-> ->]|[-> ->]]; reflexivity.
  - intros k k' p p' H H' E. apply U in H as [[-> ->]|[-> ->]]; apply U in H' as [[-> ->]|[-> ->]]; try reflexivity; discriminate E.
Qed.

Lemma hpods_policy_applied_witness : has_policy (node_cfg None) added_state' web_pod "default/np1" (web_policy ["Ingress"]).
Proof.
  apply (hpods_policy_applied double elements in_map_order no_sort (node_cfg None) nat_cfg node_env (web_policy ["Ingress"]) added_state added_state'
    elements_order added_apart inverse_new added_keyed eq_refl) with (pk := "default/web").
  - discriminate.
  - reflexivity.
  - exact added_run.
  - reflexivity.
  - reflexivity.
  - eexists. reflexivity.
  - exact (proj2 web_selected).
Defined.

(** ** Where the handlers do not do what they mean to *)

Definition plain_stores (pods : gmap string HostPod) (pols : gmap string NetworkPolicy) : PodStores :=
  mkPodStores pods ∅ pols ∅ ∅ ∅.

Definition group_names (s : HostPods) (uid : string) : list (list string) := map (λ g, map og_Name g.2) (ep_groups s uid).

(** With a default security group, the annotation of one pod is decoded into
    the array of the default: a pod without annotations then has the groups of
    the other pod, in the table, at once, and no synchronisation is scheduled
    for it. *)
Lemma default_groups_overwritten :
  let cfg := node_cfg (Some (mkSl 0 1)) in
  let web := node_pod "web" "u1" {[SgAnnotation := sg_text "web-sg"]} in
  let s0 := node_state (plain_stores {["default/web" := web; "default/db" := db_pod]} ∅) [[mkGroup EmptyString "tn" EmptyString "default-sg"]] in
  (λ s, (group_names s "u2", hp_syncs s)) <$> run_changed cfg db_pod s0 = Some ([["default-sg"]], 1%nat) ∧
  (s1 ← run_changed cfg db_pod s0; s2 ← run_changed cfg web s1; s3 ← run_changed cfg db_pod s2;
   Some (group_names s2 "u2", group_names s3 "u2", hp_syncs s2, hp_syncs s3)) = Some ([["web-sg"]], [["web-sg"]], 2%nat, 2%nat).
Proof. vm_compute. done. Qed.

(** A change of a policy's selector updates the index but not the pods: a pod
    that the policy now selects keeps its endpoints without the policy. *)
Lemma selector_change_not_applied :
  let cfg := node_cfg None in
  let old := mkNp "default" "np1" (mkLs {["app" := "none"]} []) [] [] (Some ["Ingress"]) in
  let new := web_policy ["Ingress"] in
  let s0 := node_state (plain_stores {["default/web" := node_pod "web" "u1" ∅]} {["default/np1" := old]}) [] in
  (s ← run_policy_added cfg old s0;
   s ← run_updated cfg (node_pod "web" "u1" ∅) s;
   let s := set_stores (plain_stores (st_pods (hp_stores s)) {["default/np1" := new]}) s in
   s ← networkPolicyChanged double elements in_map_order cfg old new s;
   Some (elements (GetObjForPod (netPolPods (hp_ix s)) "default/web"), group_names s "u1")) = Some (["default/np1"], [[]]).
Proof. vm_compute. done. Qed.

(** The loop over the pods of a deployment asks for the list again in every
    round; with another order in the second round, one pod is done twice and
    the other one not at all. *)
Lemma deployment_pod_skipped :
  let cfg := node_cfg None in
  let web := node_pod "web" "u1" ∅ in
  let dep g := mkDeployment "default" "dep" "d1" ∅ {[EgAnnotation := dq ("{'name':'" ++ g ++ "'}")]} (Some (mkLs {["app" := "web"]} [])) in
  let stores g pods := mkPodStores pods ∅ ∅ ∅ {["default/dep" := dep g]} ∅ in
  let calls n (X : gset string) := if (n =? 2)%nat then ["default/web"; "default/db"] else ["default/db"; "default/web"] in
  (s ← deploymentAdded double elements in_map_order no_sort cfg nat_cfg node_env (dep "old")
         (node_state (stores "old" {["default/web" := web; "default/db" := db_pod]}) []);
   let s := set_stores (stores "new" (st_pods (hp_stores s))) s in
   s ← deploymentChanged double elements in_map_order no_sort cfg nat_cfg node_env calls (dep "old") (dep "new") s;
   Some ((λ g, g.1.2) <$> ep_groups s "u1", (λ g, g.1.2) <$> ep_groups s "u2")) = Some (["old"], ["new"]).
Proof. vm_compute. done. Qed.

(** After a restart with the records of two containers of a pod, configuring a
    third one removes both records; the pod then has fewer interfaces than
    endpoints, and the handler panics. *)
Lemma fewer_interfaces_panic :
  let cfg := node_cfg None in
  let web := node_pod "web" "u1" ∅ in
  let a := Init (Some []) {["c1" := node_md "c1" "veth1" 2; "c2" := node_md "c2" "veth2" 3]} in
  let s0 := set_agent a (node_state (plain_stores {["default/web" := web]} ∅) []) in
  (s1 ← run_updated cfg web s0;
   let '(a', ok) := configureContainerIfaces (λ _ _, Some ("veth3", "0a:58")) (λ _, true) (λ _, true) (λ _, true) (node_md "c3" EmptyString 4) a in
   Some (length <$> opflexEps s1 !! "u1", ok, podChanged double elements in_map_order cfg "default/web" (set_agent a' s1)))
  = Some (Some 2%nat, true, None).
Proof. vm_compute. done. Qed.

(** Work on a pod writes its name and namespace into the labels of the stored
    pod; a policy for that label then selects it, which the pod in the cluster
    is not. *)
Lemma stored_labels_change :
  let cfg := node_cfg None in
  let web := node_pod "web" "u1" ∅ in
  let np := mkNp "default" "np1" (mkLs {["vm-name" := "web"]} []) [] [] (Some ["Ingress"]) in
  let st := plain_stores {["default/web" := web]} {["default/np1" := np]} in
  (s ← run_policy_added cfg np (node_state st []); Some (group_names s "u1")) = Some [] ∧
  (s ← run_updated cfg web (node_state st []); s ← run_policy_added cfg np s;
   Some (map (λ g, bool_decide (aci_name cfg "np" "default/np1" ∈ g)) (group_names s "u1"))) = Some [true].
Proof. vm_compute. done. Qed.

(** A pod whose deletion was missed is a panic; a policy whose deletion was
    missed stays in the index, and its pods keep its group. *)
Lemma missed_deletions :
  let cfg := node_cfg None in
  podDeleted no_sort nat_cfg node_env (λ _, true) (DeletedFinalStateUnknown (Some web_pod)) added_state = None ∧
  (s ← networkPolicyDeleted double elements in_map_order no_sort cfg nat_cfg node_env
         (DeletedFinalStateUnknown (Some (web_policy ["Ingress"])))
         (set_stores (plain_stores (st_pods node_stores) ∅) added_state');
   Some (elements (GetObjForPod (netPolPods (hp_ix s)) "default/web"),
         map (λ g, bool_decide (aci_name cfg "np" "default/np1" ∈ g)) (group_names s "u1"))) = Some (["default/np1"], [true]).
Proof. vm_compute. done. Qed.

(** Of the addresses of a pod with two, the deletion forgets one. *)
Lemma second_address_stays :
  let p := mkHostPod "default" "web" "u1" None ∅ "node1" false "Running" "10.1.0.2" ["10.1.0.2"; "fd00::2"] in
  (s ← run_changed (node_cfg None) p added_state; Some (podIpToName (hp_tables (podDeletedLocked p s)) !! "fd00::2")) =
  Some (Some "default/web").
Proof. vm_compute. done. Qed.
