(* ===== verification/HostPodsSync.v ===== *)
(** * HostPodsSync: the endpoint files of a host

    [syncEps] of HostPods: after it the directory has the file of every
    endpoint, and no other file that is the agent's. *)
From S2P Require Import Prelude GoBytes GoNet GoText IpAlloc IpCache GoSha PodIndex K8s AciNames SvcTypes PodNet OpflexDev SvcGraph HostIpam HostSvc HostSvcProps HostSnat.
From S2P Require Import HostSnatProps GoJson HostPods HostPodsProps.

Open Scope string_scope.

(** ** Names *)

Lemma cut_ep_file u : cut_ep (u ++ ".ep") = Some u.
Proof.
  unfold cut_ep, cut_suffix. rewrite length_append. cbn [String.length].
  assert ((3 <=? String.length u + 3)%nat = true) as -> by (apply Nat.leb_le; lia).
  replace (String.length u + 3 - 3)%nat with (String.length u + 0)%nat by lia. rewrite substring_skip.
  cbn [String.substring String.eqb Ascii.eqb andb Bool.eqb]. by rewrite Nat.add_0_r, substring_keep.
Qed.

Lemma substring_split n s : (n <= String.length s)%nat → String.substring 0 n s ++ String.substring n (String.length s - n) s = s.
Proof.
  revert n. induction s as [|c s IH]; intros [|n] Hn; simpl in *; try done; try lia.
  - change (String c (String.substring 0 (String.length s) s) = String c s). f_equal.
    specialize (IH 0%nat ltac:(lia)). rewrite Nat.sub_0_r in IH.
    replace (String.substring 0 0 s) with EmptyString in IH by (by destruct s). exact IH.
  - change (String c (String.substring 0 n s ++ String.substring n (String.length s - n) s) = String c s). f_equal. apply IH. lia.
Qed.

Lemma cut_ep_inv name u : cut_ep name = Some u → name = u ++ ".ep".
Proof.
  unfold cut_ep, cut_suffix. cbn [String.length]. destruct (Nat.leb_spec 3 (String.length name)) as [Hl|]; [|done]. simpl.
  destruct (String.eqb_spec (String.substring (String.length name - 3) 3 name) ".ep") as [E|]; [|done]. intros [= <-].
  rewrite <- E. rewrite <- (substring_split (String.length name - 3) name) at 1 by lia. f_equal. f_equal. lia.
Qed.

Lemma NoDup_concat {A B} (f : A → B) (ls : list (list A)) l : NoDup (f <$> concat ls) → l ∈ ls → NoDup (f <$> l).
Proof.
  induction ls as [|x ls IH]; simpl; [set_solver|]. rewrite fmap_app, NoDup_app. intros (H1&_&H2).
  rewrite elem_of_cons. intros [->|Hl]; [done|by apply IH].
Qed.

Section Files.
Context (cfg : PodCfg) (api : EpApi) (snat : HSnat).
Context (eps : gmap string (list file_ep)) (dir0 : gmap string EpText).

Definition file_of (e : file_ep) : string := oe_Uuid e ++ ".ep".
Definition pod_of (e : file_ep) : string := default EmptyString (head (split_on "_" (oe_Uuid e))).
Definition null_file : string := getEpFileName (og_Name (DefaultEg cfg)).

(** Every endpoint of the table. *)
Definition listed (e : file_ep) : Prop := ∃ uid l, eps !! uid = Some l ∧ e ∈ l.

(** The identifiers name the pod, are all different, and their files are not
    those of the host's own interface or of the endpoint group. *)
Record eps_named : Prop := {
  en_pod : ∀ uid l e, eps !! uid = Some l → e ∈ l → ∃ c v r, split_on "_" (oe_Uuid e) = uid :: c :: v :: r;
  en_unique : NoDup (oe_Uuid <$> concat (map_to_list eps).*2);
  en_own : ∀ e, listed e → has_substring "veth_host_ac" (file_of e) = false ∧ file_of e ≠ null_file;
  en_ips : crdClient api = true → ∀ e, listed e → IpAddress e ≠ []
}.

Record files_ok : Prop := {
  fo_read : ep_dirReadable api = true;
  fo_write : ∀ name, ep_writable api name = true;
  fo_order : ∀ l, block_order api l ≡ₚ l
}.

Context (Hn : eps_named) (Hf : files_ok).

(** A file that the agent manages. *)
Definition own_file (name : string) : Prop :=
  is_Some (cut_ep name) ∧ has_substring "veth_host_ac" name = false ∧ name ≠ null_file.

Lemma listed_in e : listed e ↔ e ∈ concat (map_to_list eps).*2.
Proof.
  unfold listed. rewrite list_elem_of_In, in_concat. split.
  - intros (uid&l&Hl&He). exists l. split; [|by apply list_elem_of_In]. apply list_elem_of_In, list_elem_of_fmap.
    exists (uid, l). split; [done|]. by apply elem_of_map_to_list.
  - intros (l&Hl&He). apply list_elem_of_In, list_elem_of_fmap in Hl as ([uid l']&->&Hl). apply elem_of_map_to_list in Hl.
    exists uid, l'. split; [done|by apply list_elem_of_In].
Qed.

Lemma listed_unique e e' : listed e → listed e' → oe_Uuid e = oe_Uuid e' → e = e'.
Proof using Hn.
  rewrite !listed_in. intros H1 H2 E. pose proof (en_unique Hn) as Hd.
  apply list_elem_of_lookup in H1 as [i Hi]. apply list_elem_of_lookup in H2 as [j Hj].
  assert (i = j) as <-; [|congruence].
  apply (NoDup_lookup (oe_Uuid <$> concat (map_to_list eps).*2) i j (oe_Uuid e) Hd); rewrite list_lookup_fmap.
  - by rewrite Hi.
  - rewrite Hj. simpl. by rewrite E.
Qed.

Lemma listed_pod e : listed e → ∃ l, eps !! pod_of e = Some l ∧ e ∈ l.
Proof using Hn.
  intros (uid&l&Hl&He). destruct (en_pod Hn uid l e Hl He) as (c&v&r&E). exists l. unfold pod_of. by rewrite E.
Qed.

Lemma file_of_inj e e' : file_of e = file_of e' → oe_Uuid e = oe_Uuid e'.
Proof. unfold file_of. intros E. apply (f_equal cut_ep) in E. rewrite !cut_ep_file in E. by injection E. Qed.

(** ** One endpoint *)

(** What the file of an endpoint says. *)
Definition wanted (e : file_ep) : EpText := EpFile (set_registered false (finish_ep snat dir0 (pod_of e) (file_of e) e)).

Lemma finish_ext dir u name e : dir !! name = dir0 !! name → finish_ep snat dir u name e = finish_ep snat dir0 u name e.
Proof. intros E. unfold finish_ep, readEp. by rewrite E. Qed.

Lemma writeEp_ok name e dir :
  (writeEp api name e dir).1.1 = <[name := EpFile (set_registered false e)]> dir ∧ (writeEp api name e dir).2 = false.
Proof using Hn Hf.
  unfold writeEp. case_bool_decide as E; [by rewrite insert_id|]. by rewrite (fo_write Hf).
Qed.

Lemma EPRegAdd_ok e reg : (crdClient api = true → IpAddress e ≠ []) → is_Some (EPRegAdd api e reg).
Proof.
  intros Hip. unfold EPRegAdd. destruct (crdClient api); [|by eexists]. simpl.
  unfold podif_of. specialize (Hip eq_refl). destruct (IpAddress e) as [|ip ips]; [done|]. simpl.
  repeat case_match; by eexists.
Qed.

Lemma pod_unique uid l : eps !! uid = Some l → NoDup (oe_Uuid <$> l).
Proof using Hn.
  intros Hl. apply (NoDup_concat oe_Uuid (map_to_list eps).*2); [apply (en_unique Hn)|].
  apply list_elem_of_fmap. exists (uid, l). split; [done|]. by apply elem_of_map_to_list.
Qed.

Lemma sync_existing_hit u name e st :
  (crdClient api = true → IpAddress e ≠ []) →
  ∃ st', sync_existing api snat u (oe_Uuid e) name (Some st) e = Some st' ∧
    sy_dir st' = <[name := EpFile (set_registered false (finish_ep snat (sy_dir st) u name e))]> (sy_dir st) ∧
    sy_seen st' = {[oe_Uuid e]} ∪ sy_seen st ∧ sy_null st' = sy_null st.
Proof using Hn Hf.
  intros Hip. unfold sync_existing. cbn [mbind option_bind]. rewrite String.eqb_refl. cbn [negb].
  set (f := finish_ep snat (sy_dir st) u name e). destruct (writeEp_ok name f (sy_dir st)) as [H1 H2].
  destruct (writeEp api name f (sy_dir st)) as [[dir wrote] err]. simpl in H1, H2. subst dir err.
  destruct (EPRegAdd_ok f (sy_reg st) Hip) as [[b reg] Er].
  destruct (wrote || negb (registered f)); [rewrite Er|]; cbn; eexists; split; [reflexivity|done|reflexivity|done].
Qed.

Lemma sync_existing_miss u epidstr name e st : oe_Uuid e ≠ epidstr → sync_existing api snat u epidstr name (Some st) e = Some st.
Proof. intros H. unfold sync_existing. cbn [mbind option_bind]. by rewrite (proj2 (String.eqb_neq _ _) H). Qed.

(** The endpoints of a pod against one file. *)
Lemma sync_existing_all u epidstr name l st :
  NoDup (oe_Uuid <$> l) → (∀ e, e ∈ l → crdClient api = true → IpAddress e ≠ []) →
  ∃ st', foldl (sync_existing api snat u epidstr name) (Some st) l = Some st' ∧ sy_null st' = sy_null st ∧
    ((∃ e, e ∈ l ∧ oe_Uuid e = epidstr ∧ sy_seen st' = {[epidstr]} ∪ sy_seen st ∧
       sy_dir st' = <[name := EpFile (set_registered false (finish_ep snat (sy_dir st) u name e))]> (sy_dir st)) ∨
     ((∀ e, e ∈ l → oe_Uuid e ≠ epidstr) ∧ sy_seen st' = sy_seen st ∧ sy_dir st' = sy_dir st)).
Proof using Hn Hf.
  revert st. induction l as [|e l IH]; intros st Hd Hip; cbn [foldl].
  { exists st. split; [done|]. split; [done|]. right. split; [set_solver|done]. }
  cbn [fmap list_fmap] in Hd. apply NoDup_cons in Hd as [Hnotin Hd].
  assert (Hip' : ∀ e, e ∈ l → crdClient api = true → IpAddress e ≠ []) by (intros x Hx; apply Hip; by apply list_elem_of_further).
  destruct (decide (oe_Uuid e = epidstr)) as [<-|Hne].
  - destruct (sync_existing_hit u name e st) as (st1&E1&D1&S1&N1); [apply Hip, list_elem_of_here|]. rewrite E1.
    destruct (IH st1 Hd Hip') as (st2&E2&N2&[(e'&He'&Eu&_)|(_&S2&D2)]).
    + exfalso. apply Hnotin. apply list_elem_of_fmap. by exists e'.
    + exists st2. split; [done|]. split; [congruence|]. left. exists e. split; [apply list_elem_of_here|]. split; [done|]. split; congruence.
  - rewrite sync_existing_miss by done. destruct (IH st Hd Hip') as (st2&E2&N2&[(e'&He'&H)|(H1&H2)]).
    + exists st2. split; [done|]. split; [done|]. left. exists e'. split; [by apply list_elem_of_further|done].
    + exists st2. split; [done|]. split; [done|]. right. split; [|done]. intros x. rewrite elem_of_cons. intros [->|Hx]; [done|by apply H1].
Qed.

(** ** The files that are there *)

(** A file after the first loop passed it. *)
Definition passed (name : string) (t : option EpText) : Prop :=
  (¬ own_file name → t = dir0 !! name) ∧
  (own_file name → (∃ e, listed e ∧ file_of e = name ∧ t = Some (wanted e)) ∨
                   (t = None ∧ ∀ e, listed e → file_of e ≠ name)).

(** The first loop, after the files [d]. *)
Record loop1 (d : list string) (st : SyncState) : Prop := {
  l1_done : ∀ name, name ∈ d → passed name (sy_dir st !! name);
  l1_rest : ∀ name, name ∉ d → sy_dir st !! name = dir0 !! name;
  l1_seen : ∀ e, listed e → (oe_Uuid e ∈ sy_seen st ↔ file_of e ∈ d);
  l1_listed : ∀ u, u ∈ sy_seen st → ∃ e, listed e ∧ oe_Uuid e = u;
  l1_null : sy_null st = true → null_file ∈ d
}.

Lemma own_file_of e : listed e → own_file (file_of e).
Proof using Hn Hf. intros He. destruct (en_own Hn e He) as [H1 H2]. split; [|done]. unfold file_of. rewrite cut_ep_file. by eexists. Qed.

Lemma loop1_skip d st st' name :
  loop1 d st → name ∉ d → ¬ own_file name → sy_dir st' = sy_dir st → sy_seen st' = sy_seen st →
  (sy_null st' = true → sy_null st = true ∨ name = null_file) → loop1 (name :: d) st'.
Proof using Hn Hf.
  intros [H1 H2 H3 H4 H5] Hd Hno Ed Es En. split; rewrite ?Ed, ?Es; [| | |done|].
  - intros n. rewrite elem_of_cons. intros [->|Hin]; [|by apply H1]. split; [intros _; by apply H2|done].
  - intros n Hnin. apply H2. set_solver.
  - intros e He. rewrite (H3 e He), elem_of_cons. split; [by right|]. intros [E|]; [|done]. exfalso. apply Hno. rewrite <- E. by apply own_file_of.
  - intros E. apply elem_of_cons. destruct (En E) as [E'| ->]; [right; by apply H5|by left].
Qed.

(** A file that goes: no endpoint has it. *)
Lemma loop1_remove d st st' name :
  loop1 d st → name ∉ d → own_file name → (∀ e, listed e → file_of e ≠ name) →
  sy_dir st' = delete name (sy_dir st) → sy_seen st' = sy_seen st → sy_null st' = sy_null st → loop1 (name :: d) st'.
Proof using Hn Hf.
  intros [H1 H2 H3 H4 H5] Hd Hown Hno Ed Es En. split; [| | |by rewrite Es|].
  - intros n. rewrite elem_of_cons, Ed. intros [->|Hin].
    + rewrite lookup_delete_eq. split; [done|]. intros _. by right.
    + rewrite lookup_delete_ne by (intros ->; done). by apply H1.
  - intros n Hnin. rewrite Ed, lookup_delete_ne by set_solver. apply H2. set_solver.
  - intros e He. rewrite Es, (H3 e He), elem_of_cons. split; [by right|]. intros [E|]; [|done]. by destruct (Hno e He).
  - rewrite En. intros E. apply list_elem_of_further, H5, E.
Qed.

(** A file that is written for its endpoint. *)
Lemma loop1_write d st st' e :
  loop1 d st → file_of e ∉ d → listed e →
  sy_dir st' = <[file_of e := EpFile (set_registered false (finish_ep snat (sy_dir st) (pod_of e) (file_of e) e))]> (sy_dir st) →
  sy_seen st' = {[oe_Uuid e]} ∪ sy_seen st → sy_null st' = sy_null st → loop1 (file_of e :: d) st'.
Proof using Hn Hf.
  intros [H1 H2 H3 H4 H5] Hd He Ed Es En. rewrite finish_ext in Ed by by apply H2. split.
  - intros n. rewrite elem_of_cons, Ed. intros [->|Hin].
    + rewrite lookup_insert_eq. split; [intros Hno; by destruct Hno; apply own_file_of|]. intros _. left. by exists e.
    + rewrite lookup_insert_ne by (intros <-; done). by apply H1.
  - intros n Hnin. rewrite Ed, lookup_insert_ne by set_solver. apply H2. set_solver.
  - intros e' He'. rewrite Es, elem_of_union, elem_of_singleton, (H3 e' He'), elem_of_cons.
    split; (intros [E|]; [left|by right]); [unfold file_of; by rewrite E|by apply file_of_inj].
  - intros u. rewrite Es, elem_of_union, elem_of_singleton. intros [->|Hu]; [by exists e|by apply H4].
  - rewrite En. intros E. apply list_elem_of_further, H5, E.
Qed.

Lemma split_pod name u c v r e :
  cut_ep name = Some u → split_on "_" u = c :: v :: r → listed e → file_of e = name → oe_Uuid e = u ∧ pod_of e = c.
Proof.
  intros Ec Es He E. assert (oe_Uuid e = u) as <-.
  { unfold file_of in E. rewrite <- E, cut_ep_file in Ec. by injection Ec. }
  split; [done|]. unfold pod_of. by rewrite Es.
Qed.

Lemma sync_ep_file_step d st name :
  loop1 d st → name ∉ d → ∃ st', sync_ep_file cfg api snat eps (Some st) name = Some st' ∧ loop1 (name :: d) st'.
Proof using Hn Hf.
  intros HL Hd. unfold sync_ep_file. cbn [mbind option_bind].
  destruct (cut_ep name) as [epidstr|] eqn:Ec.
  2: { exists st. split; [done|]. apply (loop1_skip d st); [done|done|intros ([x Hx]&_); congruence|done|done|by left]. }
  destruct (has_substring "veth_host_ac" name) eqn:Eh.
  { exists st. split; [done|]. apply (loop1_skip d st); [done|done|intros (_&Hx&_); congruence|done|done|by left]. }
  change (getEpFileName (og_Name (DefaultEg cfg))) with null_file. destruct (String.eqb_spec name null_file) as [->|Hnn].
  { eexists. split; [reflexivity|]. apply (loop1_skip d st); [done|done|intros (_&_&Hx); done|done|done|by right]. }
  assert (Hown : own_file name) by (split_and!; [by eexists|done|done]).
  destruct (split_on "_" epidstr) as [|poduuid [|c [|v r]]] eqn:Es;
    try (eexists; split; [reflexivity|]; apply (loop1_remove d st _ name); [done|done|done| |done|done|done];
         intros e He E; destruct He as (uid&l&Hl&He); destruct (en_pod Hn uid l e Hl He) as (c'&v'&r'&Ep);
         unfold file_of in E; rewrite <- E, cut_ep_file in Ec; injection Ec as Ec; congruence).
  assert (Hpod : ∀ e, listed e → file_of e = name → oe_Uuid e = epidstr ∧ e ∈ default [] (eps !! poduuid)).
  { intros e He E. destruct (split_pod name epidstr poduuid c (v :: r) e Ec Es He E) as [E1 E2]. split; [done|].
    destruct (listed_pod e He) as (l&Hl&Hin). rewrite <- E2, Hl. done. }
  assert (Hl : NoDup (oe_Uuid <$> default [] (eps !! poduuid)) ∧ ∀ e, e ∈ default [] (eps !! poduuid) → listed e).
  { destruct (eps !! poduuid) as [l|] eqn:El; simpl; [split; [by eapply pod_unique|intros e He; by exists poduuid, l]|split; [constructor|set_solver]]. }
  destruct Hl as [Hdup Hlist].
  destruct (sync_existing_all poduuid epidstr name _ st Hdup) as (st1&E1&N1&Hcase).
  { intros e He Hc. by apply (en_ips Hn), Hlist. }
  rewrite E1. cbn [mbind option_bind]. destruct Hcase as [(e&He&Eu&Sn&Dr)|(Hmiss&Sn&Dr)].
  - assert (Hle : listed e) by by apply Hlist.
    assert (Efile : file_of e = name) by (unfold file_of; rewrite Eu; symmetry; by apply cut_ep_inv).
    rewrite (bool_decide_true (is_Some _)) by (destruct (eps !! poduuid); [by eexists|set_solver]).
    rewrite (bool_decide_true (epidstr ∈ sy_seen st1)) by (rewrite Sn; set_solver). cbn [andb]. exists st1. split; [done|].
    destruct (split_pod name epidstr poduuid c (v :: r) e Ec Es Hle Efile) as [_ E2]. rewrite <- Efile in *. rewrite <- E2, <- Eu in *.
    by apply (loop1_write d st st1 e).
  - assert (Hno : ∀ e, listed e → file_of e ≠ name).
    { intros e He E. destruct (Hpod e He E) as [Eu Hin]. by apply (Hmiss e Hin). }
    assert (Hns : epidstr ∉ sy_seen st1).
    { rewrite Sn. intros Hin. apply (l1_listed _ _ HL) in Hin as (e&He&Eu). apply (Hno e He). unfold file_of. rewrite Eu.
      symmetry. by apply cut_ep_inv. }
    rewrite (bool_decide_false (epidstr ∈ sy_seen st1)) by done. rewrite andb_false_r. eexists. split; [reflexivity|].
    unfold remove_stale. destruct (match readEp _ _ with Some _ => _ | None => _ end) as [ifs reg].
    apply (loop1_remove d st _ name); [done|done|done|done|simpl; by rewrite Dr|done|done].
Qed.

Lemma sync_ep_files names d st :
  loop1 d st → NoDup names → (∀ n, n ∈ names → n ∉ d) →
  ∃ st', foldl (sync_ep_file cfg api snat eps) (Some st) names = Some st' ∧ loop1 (rev names ++ d)%list st'.
Proof using Hn Hf.
  revert d st. induction names as [|n names IH]; intros d st HL Hnd Hd; cbn [foldl rev app]; [by exists st|].
  apply NoDup_cons in Hnd as [Hn' Hnd]. destruct (sync_ep_file_step d st n HL) as (st1&E1&HL1); [apply Hd, list_elem_of_here|].
  rewrite E1. destruct (IH (n :: d) st1 HL1 Hnd) as (st2&E2&HL2).
  { intros x Hx. rewrite not_elem_of_cons. split; [intros ->; done|]. apply Hd. by apply list_elem_of_further. }
  exists st2. split; [done|]. by rewrite <- app_assoc.
Qed.

(** ** The files that are missing *)

(** The second loop, which started with [st1], after the endpoints [p]. *)
Record loop2 (st1 : SyncState) (p : list file_ep) (st : SyncState) : Prop := {
  l2_done : ∀ e, listed e → e ∈ p ∨ oe_Uuid e ∈ sy_seen st1 → sy_dir st !! file_of e = Some (wanted e);
  l2_todo : ∀ e, listed e → e ∉ p → oe_Uuid e ∉ sy_seen st1 → sy_dir st !! file_of e = dir0 !! file_of e;
  l2_rest : ∀ name, (∀ e, listed e → file_of e ≠ name) → sy_dir st !! name = sy_dir st1 !! name;
  l2_same : sy_seen st = sy_seen st1 ∧ sy_null st = sy_null st1
}.

Lemma sync_new_seen st1 p st e :
  loop2 st1 p st → listed e → oe_Uuid e ∈ sy_seen st1 → loop2 st1 (e :: p) st.
Proof using Hn Hf.
  intros [H1 H2 H3 H4] He Hs. split; [|..|done|done].
  - intros e' He' [Hin|Hin]; [|apply H1; [done|by right]]. apply elem_of_cons in Hin as [->|Hin]; apply H1; auto.
  - intros e' He' Hin Hns. apply H2; [done| |done]. set_solver.
Qed.

Lemma sync_new_step st1 p st e :
  loop2 st1 p st → listed e → e ∉ p → ∃ st', sync_new api snat (Some st) e = Some st' ∧ loop2 st1 (e :: p) st'.
Proof using Hn Hf.
  intros HL He Hp. pose proof HL as [H1 H2 H3 [H4 H5]]. unfold sync_new. cbn [mbind option_bind]. rewrite H4.
  case_bool_decide as Hs; [exists st; split; [done|]; by apply sync_new_seen|].
  change (oe_Uuid e ++ ".ep") with (file_of e). change (default EmptyString (head (split_on "_" (oe_Uuid e)))) with (pod_of e).
  rewrite finish_ext by by apply H2. set (f := finish_ep snat dir0 (pod_of e) (file_of e) e).
  destruct (writeEp_ok (file_of e) f (sy_dir st)) as [W1 W2]. destruct (writeEp api (file_of e) f (sy_dir st)) as [[dir wrote] err].
  simpl in W1, W2. subst dir err. destruct (EPRegAdd_ok f (sy_reg st)) as [[b reg] Er].
  { intros Hc. by apply (en_ips Hn Hc e He). }
  rewrite Er. cbn [mbind option_bind]. eexists. split; [reflexivity|].
  assert (Hne : ∀ e', listed e' → e' ≠ e → file_of e ≠ file_of e').
  { intros e' He' Hd E. apply Hd. apply listed_unique; [done|done|]. by apply file_of_inj. }
  split; cbn [sy_dir sy_seen sy_null]; [| | |done].
  - intros e' He' Hor. destruct (decide (e' = e)) as [->|Hd]; [by rewrite lookup_insert_eq|].
    rewrite lookup_insert_ne by by apply Hne. apply H1; [done|]. destruct Hor as [Hin|]; [|by right].
    apply elem_of_cons in Hin as [->|]; [done|by left].
  - intros e' He' Hin Hns. apply not_elem_of_cons in Hin as [Hd Hin]. rewrite lookup_insert_ne by by apply Hne. by apply H2.
  - intros name Hname. rewrite lookup_insert_ne by by apply Hname. by apply H3.
Qed.

Lemma sync_news st1 l p st :
  loop2 st1 p st → NoDup l → (∀ e, e ∈ l → listed e ∧ e ∉ p) →
  ∃ st', foldl (sync_new api snat) (Some st) l = Some st' ∧ loop2 st1 (rev l ++ p)%list st'.
Proof using Hn Hf.
  revert p st. induction l as [|e l IH]; intros p st HL Hnd Hl; cbn [foldl rev app]; [by exists st|].
  apply NoDup_cons in Hnd as [Hnot Hnd]. destruct (Hl e) as [He Hp]; [apply list_elem_of_here|].
  destruct (sync_new_step st1 p st e HL He Hp) as (st2&E2&HL2). rewrite E2.
  destruct (IH (e :: p) st2 HL2 Hnd) as (st3&E3&HL3).
  { intros x Hx. destruct (Hl x) as [H1 H2]; [by apply list_elem_of_further|]. split; [done|].
    rewrite not_elem_of_cons. split; [intros ->; done|done]. }
  exists st3. split; [done|]. by rewrite <- app_assoc.
Qed.

Lemma creatNullMacEp_lookup dir name :
  creatNullMacEp cfg api dir !! name = dir !! name ∨ (name = null_file ∧ dir !! name = None ∧ is_Some (creatNullMacEp cfg api dir !! name)).
Proof using Hn Hf.
  unfold creatNullMacEp. fold null_file. destruct (dir !! null_file) as [t|] eqn:E; [by left|].
  rewrite (proj1 (writeEp_ok _ _ _)). destruct (decide (name = null_file)) as [->|Hne].
  - right. rewrite lookup_insert_eq. split; [done|]. split; [done|by eexists].
  - left. by rewrite lookup_insert_ne by done.
Qed.

Lemma creatNullMacEp_some dir : is_Some (creatNullMacEp cfg api dir !! null_file).
Proof using Hn Hf.
  unfold creatNullMacEp. fold null_file. destruct (dir !! null_file) as [t|] eqn:E; [by rewrite E; eexists|].
  rewrite (proj1 (writeEp_ok _ _ _)), lookup_insert_eq. by eexists.
Qed.
End Files.

(** The directory after the synchronisation: the file of every endpoint of
    the table; no other file of the agent; everything else as before. *)
Definition dir_synced (cfg : PodCfg) (s : HostPods) (dir : gmap string EpText) : Prop :=
  let dir0 := epDir (hp_out s) in
  (∀ e, listed (ep_copies s) e → dir !! file_of e = Some (wanted (hp_snat s) dir0 e)) ∧
  (∀ name, own_file cfg name → (∀ e, listed (ep_copies s) e → file_of e ≠ name) → dir !! name = None) ∧
  (∀ name, ¬ own_file cfg name → name ≠ null_file cfg → dir !! name = dir0 !! name) ∧
  is_Some (dir !! null_file cfg) ∧ (is_Some (dir0 !! null_file cfg) → dir !! null_file cfg = dir0 !! null_file cfg).

Lemma ReadDir_in dir name : name ∈ ReadDir dir ↔ is_Some (dir !! name).
Proof.
  unfold ReadDir, sort_strs. rewrite merge_sort_Permutation, list_elem_of_fmap. split.
  - intros ([n t]&->&H). apply elem_of_map_to_list in H. by eexists.
  - intros [t H]. exists (name, t). split; [done|]. by apply elem_of_map_to_list.
Qed.

Lemma ReadDir_NoDup dir : NoDup (ReadDir dir).
Proof. unfold ReadDir, sort_strs. rewrite merge_sort_Permutation. apply NoDup_fst_map_to_list. Qed.

(** Both loops, and what the directory has after them. *)
Lemma syncEps_loops cfg api s :
  eps_named cfg api (ep_copies s) → files_ok api →
  let o := hp_out s in let eps := ep_copies s in
  ∃ st1 st, foldl (sync_ep_file cfg api (hp_snat s) eps) (Some (mkSync (epDir o) ∅ (nodePodIfEPs o) (podIFs o) false false)) (ReadDir (epDir o)) = Some st1 ∧
    foldl (sync_new api (hp_snat s)) (Some st1) (concat (block_order api (map_to_list eps).*2)) = Some st ∧
    (∀ e, listed eps e → sy_dir st !! file_of e = Some (wanted (hp_snat s) (epDir o) e)) ∧
    (∀ name, own_file cfg name → (∀ e, listed eps e → file_of e ≠ name) → sy_dir st !! name = None) ∧
    (∀ name, ¬ own_file cfg name → sy_dir st !! name = epDir o !! name) ∧
    (sy_null st = true → is_Some (epDir o !! null_file cfg)).
Proof.
  intros Hn Hf o eps. set (snat := hp_snat s). set (dir0 := epDir o).
  assert (L0 : loop1 cfg snat eps dir0 [] (mkSync dir0 ∅ (nodePodIfEPs o) (podIFs o) false false)).
  { split; cbn; [set_solver|done|set_solver|set_solver|done]. }
  destruct (sync_ep_files cfg api snat eps dir0 Hn Hf (ReadDir dir0) [] _ L0 (ReadDir_NoDup dir0)) as (st1&E1&L1); [set_solver|].
  rewrite app_nil_r in L1. destruct L1 as [P1 P2 P3 P4 P5].
  assert (Hread : ∀ name, name ∈ rev (ReadDir dir0) ↔ is_Some (dir0 !! name)).
  { intros name. rewrite <- ReadDir_in, !list_elem_of_In. symmetry. apply in_rev. }
  assert (L2 : loop2 snat eps dir0 st1 [] st1).
  { split; [| |done|done].
    - intros e He [Hin|Hs]; [set_solver|]. apply (P3 e He) in Hs. pose proof (P1 _ Hs) as [_ Hp].
      destruct Hp as [(e'&He'&Ef&->)|[_ Hno]]; [by eapply own_file_of| |by destruct (Hno e He)].
      f_equal. f_equal. eapply listed_unique; [done|done|done|]. by apply file_of_inj.
    - intros e He _ Hs. apply P2. rewrite <- (P3 e He). done. }
  set (l := concat (block_order api (map_to_list eps).*2)).
  assert (Hl : l ≡ₚ concat (map_to_list eps).*2) by (unfold l; by rewrite (fo_order api Hf)).
  destruct (sync_news cfg api snat eps dir0 Hn Hf st1 l [] st1 L2) as (st2&E2&L2').
  { apply (NoDup_fmap_1 oe_Uuid). rewrite Hl. apply (en_unique _ _ _ Hn). }
  { intros e He. split; [|set_solver]. apply listed_in. by rewrite <- Hl. }
  destruct L2' as [Q1 Q2 Q3 [Q4 Q5]]. exists st1, st2. split_and!; [done|done|..].
  - intros e He. apply Q1; [done|]. left. rewrite app_nil_r, list_elem_of_In, <- in_rev, <- list_elem_of_In, Hl. by apply listed_in.
  - intros name Hown Hno. rewrite Q3 by done. destruct (decide (name ∈ rev (ReadDir dir0))) as [Hin|Hin].
    + destruct (proj2 (P1 name Hin) Hown) as [(e&He&Ef&_)|[? _]]; [by destruct (Hno e He)|done].
    + rewrite P2 by done. rewrite Hread in Hin. by apply eq_None_not_Some.
  - intros name Hno. rewrite Q3 by (intros e He <-; apply Hno; by eapply own_file_of).
    destruct (decide (name ∈ rev (ReadDir dir0))) as [Hin|Hin]; [by apply (P1 name Hin)|by apply P2].
  - rewrite Q5. intros E. by apply Hread, P5.
Qed.

Lemma syncEps_synced cfg api s :
  eps_named cfg api (ep_copies s) → files_ok api →
  ∃ retry s', syncEps cfg api true s = Some (retry, s') ∧ dir_synced cfg s (epDir (hp_out s')) ∧
    ep_copies s' = ep_copies s ∧ hp_snat s' = hp_snat s.
Proof.
  intros Hn Hf. destruct (syncEps_loops cfg api s Hn Hf) as (st1&st&E1&E2&A&B&C&D).
  set (o := hp_out s) in *. set (dir := creatNullMacEp cfg api (sy_dir st)).
  assert (Hnull : ¬ own_file cfg (null_file cfg)) by (intros (_&_&H); done).
  exists (sy_retry st), (set_out (mkEpOutput dir (sy_ifs st) (sy_reg st) (nodePodIF o)) s). split; [|split; [|done]].
  - unfold syncEps. cbn [negb]. rewrite (fo_read api Hf). cbn [negb]. fold o. rewrite E1. cbn [mbind option_bind].
    rewrite E2. cbn [mbind option_bind]. f_equal. f_equal. f_equal. f_equal.
    destruct (sy_null st); [|done]. unfold dir, creatNullMacEp. fold (null_file cfg). rewrite (C _ Hnull).
    by destruct (D eq_refl) as [t ->].
  - pose proof (creatNullMacEp_lookup cfg api _ Hn Hf (sy_dir st)) as L. fold dir in L. unfold dir_synced. cbn [hp_out set_out epDir]. fold o. split_and!.
    + intros e He. destruct (L (file_of e)) as [->|(E&_)]; [by apply A|]. by destruct (proj2 (en_own _ _ _ Hn e He)).
    + intros name Hown Hno. destruct (L name) as [->|(->&_)]; [by apply B|done].
    + intros name Hno Hne. destruct (L name) as [->|(->&_)]; [by apply C|done].
    + by eapply creatNullMacEp_some.
    + intros [t Ht]. destruct (L (null_file cfg)) as [->|(_&E&_)]; [by apply C|]. rewrite (C _ Hnull) in E. congruence.
Qed.

(** ** A second time *)

(** The file that was written gives the same file again. *)
Lemma wanted_again snat dir0 dir1 e : dir1 !! file_of e = Some (wanted snat dir0 e) → wanted snat dir1 e = wanted snat dir0 e.
Proof.
  intros E. unfold wanted at 1. unfold finish_ep, readEp. rewrite E. unfold wanted, finish_ep, getSnatUuids. simpl.
  destruct (opflexSnatLocalInfos snat !! pod_of e) as [li|]; [|done]. by destruct (Existing li), (readEp dir0 (file_of e)).
Qed.

Definition own_fileb (cfg : PodCfg) (name : string) : bool :=
  bool_decide (is_Some (cut_ep name)) && negb (has_substring "veth_host_ac" name) && negb (String.eqb name (null_file cfg)).

Lemma own_fileb_iff cfg name : own_fileb cfg name = true ↔ own_file cfg name.
Proof. unfold own_fileb, own_file. rewrite !andb_true_iff, bool_decide_eq_true, !negb_true_iff, String.eqb_neq. tauto. Qed.

Lemma synced_again cfg api s s1 dir2 :
  eps_named cfg api (ep_copies s) → ep_copies s1 = ep_copies s → hp_snat s1 = hp_snat s →
  dir_synced cfg s (epDir (hp_out s1)) → dir_synced cfg s1 dir2 → dir2 = epDir (hp_out s1).
Proof.
  intros Hn Ee Es (A1&A2&A3&A4&A5) (B1&B2&B3&B4&B5). rewrite Ee in B1, B2. rewrite Es in B1. set (dir1 := epDir (hp_out s1)) in *.
  apply map_eq. intros name. destruct (own_fileb cfg name) eqn:Eo.
  - apply own_fileb_iff in Eo. destruct (decide (name ∈ file_of <$> concat (map_to_list (ep_copies s)).*2)) as [Hin|Hin].
    + apply list_elem_of_fmap in Hin as (e&->&He). apply listed_in in He. rewrite (B1 e He), (A1 e He).
      f_equal. apply wanted_again. by apply A1.
    + assert (Hno : ∀ e, listed (ep_copies s) e → file_of e ≠ name).
      { intros e He E. apply Hin, list_elem_of_fmap. exists e. split; [done|]. by apply listed_in. }
      by rewrite (B2 name Eo Hno), (A2 name Eo Hno).
  - assert (Hno : ¬ own_file cfg name) by (rewrite <- own_fileb_iff, Eo; done).
    destruct (decide (name = null_file cfg)) as [->|Hne]; [by apply B5|by apply B3].
Qed.

(** C15: Suppose that the identifiers of the endpoints are all different, consist of the pod's identifier and at least two more parts, and name files that are neither those of the host's own interface nor that of the endpoint group; that every endpoint has an address if interfaces are published in custom resources (without one the agent panics on its first address); and that the directory can be read, every file in it can be written; and that the loop over the pods, in whatever order, sees each pod once.  Then a synchronisation completes, and the directory has for every endpoint its file, with the endpoint's groups and addresses, the identifiers of source NAT of its pod (or, before these are known after a restart, those of the file) and the cluster addresses of its services; the agent's other endpoint files are gone; the files of others are as before; and the endpoint group has a file of its own. A further synchronisation leaves the directory as it is. *)
Theorem hpods_files cfg api s :
  eps_named cfg api (ep_copies s) → files_ok api →
  ∃ retry s', syncEps cfg api true s = Some (retry, s') ∧ dir_synced cfg s (epDir (hp_out s')) ∧
  ∃ retry' s'', syncEps cfg api true s' = Some (retry', s'') ∧ epDir (hp_out s'') = epDir (hp_out s').
Proof.
  intros Hn Hf. destruct (syncEps_synced cfg api s Hn Hf) as (r1&s1&E1&D1&C1&S1).
  destruct (syncEps_synced cfg api s1) as (r2&s2&E2&D2&_); [by rewrite C1|done|].
  exists r1, s1. split; [done|]. split; [done|]. exists r2, s2. split; [done|]. by eapply synced_again.
Qed.

(** ** A node with two pods *)

Definition sync_api (crd : bool) (writable : string → bool) : EpApi :=
  mkEpApi crd true "10.0.0.1" (λ _, true) writable true (λ _, true) "7d444840" id.

(** A file of a pod that is gone, one of the host's own interface, one that is
    no endpoint. *)
Definition old_dir : gmap string EpText :=
  {["u9_c9_veth9.ep" := EpOther EmptyString; "x_veth_host_ac.ep" := EpOther "host"; "notes" := EpOther "n"]}.

Definition synced_node : HostPods :=
  match (s ← run_updated (node_cfg None) web_pod added_state; run_updated (node_cfg None) db_pod s) with
  | Some s => set_out (mkEpOutput old_dir ∅ ∅ None) s
  | None => added_state
  end.

Lemma node_files_ok crd w : files_ok (sync_api crd w).
Proof. by split. Qed.

Definition named_ep (uid : string) (e : file_ep) : bool :=
  match split_on "_" (oe_Uuid e) with u :: _ :: _ :: _ => String.eqb u uid | _ => false end &&
  negb (has_substring "veth_host_ac" (file_of e)) && negb (String.eqb (file_of e) (null_file (node_cfg None))) &&
  negb (bool_decide (IpAddress e = [])).

Lemma named_ep_spec uid e :
  named_ep uid e = true →
  (∃ c v r, split_on "_" (oe_Uuid e) = uid :: c :: v :: r) ∧
  (has_substring "veth_host_ac" (file_of e) = false ∧ file_of e ≠ null_file (node_cfg None)) ∧ IpAddress e ≠ [].
Proof.
  unfold named_ep. rewrite !andb_true_iff, !negb_true_iff, String.eqb_neq, bool_decide_eq_false. intros [[[Hs H1] H2] H3].
  split; [|done]. destruct (split_on "_" (oe_Uuid e)) as [|u [|c [|v r]]]; try done. apply String.eqb_eq in Hs as ->. by exists c, v, r.
Qed.

(** A table whose endpoints all pass the test. *)
Lemma named_eps crd w (eps : gmap string (list file_ep)) :
  forallb (λ p, forallb (named_ep p.1) p.2) (map_to_list eps) = true → NoDup (oe_Uuid <$> concat (map_to_list eps).*2) →
  eps_named (node_cfg None) (sync_api crd w) eps.
Proof.
  intros A Hd. assert (H : ∀ uid l e, eps !! uid = Some l → e ∈ l → named_ep uid e = true).
  { intros uid l e Hl He. apply elem_of_map_to_list in Hl. rewrite forallb_forall in A. specialize (A (uid, l)).
    rewrite forallb_forall in A. apply A; by apply list_elem_of_In. }
  split; [|done|..].
  - intros uid l e Hl He. by apply named_ep_spec, (H uid l).
  - intros e (uid&l&Hl&He). by apply (named_ep_spec uid), (H uid l).
  - intros _ e (uid&l&Hl&He). by apply (named_ep_spec uid), (H uid l).
Qed.

Lemma node_eps_named crd w : eps_named (node_cfg None) (sync_api crd w) (ep_copies synced_node).
Proof.
  apply named_eps; [vm_compute; reflexivity|]. apply (bool_decide_eq_true_1 _). vm_compute. reflexivity.
Qed.

Definition node_dir (api : EpApi) (s : HostPods) : list (string * option (list string)) :=
  match syncEps (node_cfg None) api true s with
  | Some (_, s) => (λ p, (p.1, match p.2 with EpFile e => Some (IpAddress e) | EpOther _ => None end)) <$> map_to_list (epDir (hp_out s))
  | None => []
  end.

Lemma hpods_files_witness :
  ∃ retry s', syncEps (node_cfg None) (sync_api true (λ _, true)) true synced_node = Some (retry, s') ∧
    epDir (hp_out s') !! "u9_c9_veth9.ep" = None ∧ epDir (hp_out s') !! "notes" = Some (EpOther "n").
Proof.
  destruct (hpods_files (node_cfg None) (sync_api true (λ _, true)) synced_node (node_eps_named _ _) (node_files_ok _ _))
    as (retry&s'&E&(_&H2&H3&_)&_).
  exists retry, s'. split; [exact E|]. split.
  - apply H2; [apply own_fileb_iff; vm_compute; reflexivity|]. intros e He Ef. apply listed_in in He.
    assert (A : forallb (λ e, negb (String.eqb (file_of e) "u9_c9_veth9.ep")) (concat (map_to_list (ep_copies synced_node)).*2) = true)
      by (vm_compute; reflexivity).
    rewrite forallb_forall in A. apply list_elem_of_In, A, negb_true_iff, String.eqb_neq in He. exact (He Ef).
  - rewrite H3; [vm_compute; reflexivity| |vm_compute; discriminate]. intros Ho. apply own_fileb_iff in Ho. vm_compute in Ho. discriminate Ho.
Defined.

Example synced_files :
  node_dir (sync_api true (λ _, true)) synced_node =
  [("kube-default_null-mac.ep", Some []); ("u1_c1_veth1.ep", Some ["10.1.0.2"]); ("u2_c2_veth2.ep", Some ["10.1.0.3"]);
   ("notes", None); ("x_veth_host_ac.ep", None)].
Proof. vm_compute. reflexivity. Qed.

(** ** Where it does not do what it means to *)

(** The result of the last registration is what counts: that of an earlier
    endpoint failed and is not repeated. *)
Lemma failed_registration_forgotten :
  let api := sync_api true (λ name, negb (has_substring ".web." name)) in
  let backwards := mkEpApi true true "10.0.0.1" (λ _, true) (api_writable api) true (λ _, true) "7d444840" (@rev _) in
  let run api := '(retry, s) ← syncEps (node_cfg None) api true synced_node; Some (retry, (map_to_list (podIFs (hp_out s))).*1) in
  run api = Some (false, ["default.db.10.0.0.1"]) ∧ run backwards = Some (true, ["default.db.10.0.0.1"]).
Proof. vm_compute. done. Qed.

(** The list of interfaces that is published for the node keeps the endpoint
    that was first written: another endpoint group of the pod does not appear
    in it. *)
Lemma published_group_stale :
  let api := sync_api false (λ _, true) in
  let moved := node_pod "web" "u1" {[EgAnnotation := dq "{'name':'moved'}"]} in
  ('(_, s) ← syncEps (node_cfg None) api true synced_node;
   s ← run_updated (node_cfg None) moved (set_stores (plain_stores {["default/web" := moved; "default/db" := db_pod]} ∅) s);
   '(_, s) ← syncEps (node_cfg None) api true s;
   '(_, s) ← syncNodePodIfs (node_cfg None) api true s;
   Some (match epDir (hp_out s) !! "u1_c1_veth1.ep" with Some (EpFile e) => EndpointGroup e | _ => EmptyString end,
         EPG <$> List.filter (λ p, String.eqb (PodName p) "web") (default [] (nodePodIF (hp_out s))))) =
  Some ("moved", ["p|ap|web"]).
Proof. vm_compute. reflexivity. Qed.
