(* ===== verification/CtlMirror.v ===== *)
(** * CtlMirror: the objects of the cluster on the APIC

    src/pkg/controller/pods.go, deployments.go, replicasets.go, namespaces.go
    and epgcache.go: the controller writes an injected object for every pod,
    deployment, replica set and namespace, tells the indexes of pods, and
    raises a fault for an annotation that names an endpoint group which the
    fabric does not have.

    What the handlers ask of the APIC connection and of the queues is recorded
    in order.  Goroutines that a handler starts are recorded too; their bodies
    are [NetPolCtl.updateCtrNmPortForPod] and [deleteCtrNmPortForPod].  The
    stores of the informers are an argument: an informer changes its store
    before it calls a handler.  A panic is [None].  A nil map of labels or
    annotations is an empty one. *)
From S2P Require Import Prelude GoText ApicMetadata ApicTypes ApicBuild ApicState ApicSync ApicConn GoJson HostPods.
From S2P Require Import PodIndex K8s AciNames PodNet NetPol NetPolIndex NetPolAugment NetPolCtl.

Open Scope string_scope.

(** ** Data *)

Record CtlCfg := mkCtlCfg {
  cc_np : NetPol.Config;
  cc_node : NodeCfg;
  cc_EnableVmmInjectedLabels : bool;
  cc_ApicVersion : string
}.

Record OwnerReference := mkOwner { or_Kind : string; or_Name : string }.

(** A pod: what the indexes read of it, and the rest. *)
Record CtlPod := mkCtlPod {
  kp_pod : Pod;
  kp_UID : string;
  kp_NodeName : string;
  kp_HostNetwork : bool;
  kp_Annotations : gmap string string;
  kp_Owners : list OwnerReference
}.

Record CtlNs := mkCtlNs {
  kn_Name : string;
  kn_Labels : labels;
  kn_Annotations : gmap string string
}.

Record CtlDep := mkCtlDep {
  kd_Namespace : string;
  kd_Name : string;
  kd_UID : string;
  kd_Labels : labels;
  kd_Annotations : gmap string string;
  kd_Selector : option LabelSelector;
  kd_Replicas : option Z
}.

Record CtlRs := mkCtlRs {
  kr_Namespace : string;
  kr_Name : string;
  kr_UID : string;
  kr_Labels : labels;
  kr_Owners : list OwnerReference
}.

Record ErspanPolicy := mkErspan {
  es_Namespace : string;
  es_Name : string;
  es_Selector_Labels : labels;
  es_Selector_Namespace : string;
  es_AdminState : string;
  es_Direction : string;
  es_DestIP : string;
  es_FlowID : Z
}.

(** An interface of a pod, from the resource NodePodIF of its node. *)
Record EndPointData := mkEpData {
  ed_MacAddr : string;
  ed_EPG : string;
  ed_Namespace : string;
  ed_AppProfile : string
}.

#[export] Instance LabelSelector_opt_eq_dec : EqDecision (option LabelSelector) := _.

Definition kp_key (p : CtlPod) : string := podkey (kp_pod p).
Definition kd_key (d : CtlDep) : string := MetaNamespaceKey (kd_Namespace d) (kd_Name d).
Definition kr_key (r : CtlRs) : string := MetaNamespaceKey (kr_Namespace r) (kr_Name r).
Definition es_key (e : ErspanPolicy) : string := MetaNamespaceKey (es_Namespace e) (es_Name e).

(** What an informer hands to a handler of deletions: the object, a
    DeletedFinalStateUnknown with it or with something else, or something
    else. *)
Inductive notified (A : Type) := Plain (a : A) | FinalState (o : option A) | BadObject.
Arguments Plain {A} a.
Arguments FinalState {A} o.
Arguments BadObject {A}.

Definition deleted_obj {A} (n : notified A) : option A :=
  match n with Plain a => Some a | FinalState o => o | BadObject => None end.

Record CtlStores := mkCtlStores {
  k_pods : gmap string CtlPod;
  k_nss : gmap string CtlNs;
  k_deps : gmap string CtlDep;
  k_nps : gmap string NetworkPolicy;
  k_spans : gmap string ErspanPolicy
}.

Inductive ctl_effect :=
  | CWrite (key : string) (objs : ApicSlice)
  | CWriteContainer (key : string) (objs : ApicSlice)
  | CClear (key : string)
  | CQueuePod (key : string)
  | CQueueNetPol (key : string)
  | CQueueSpan (key : string)
  | CQueueQos (key : string)
  | CQueueNetflow (key : string)
  | GoUpdatePorts (pod : Pod) (podkey : string)
  | GoDeletePorts (pod : Pod) (podkey : string).

(** The requests to the connection. *)
Definition ctl_apply (e : ctl_effect) : M unit :=
  match e with
  | CWrite key objs => WriteApicObjects key (Some objs)
  | CWriteContainer key objs => WriteApicContainer key (Some objs)
  | CClear key => ClearApicObjects key
  | _ => mret tt
  end.

Record CtlState := mkCtlState {
  cs_np : NpState;
  cs_nodes : NodeState;
  depPods : np_index;
  erspanPolPods : np_index;
  podIftoEp : gmap string EndPointData;
  cachedEpgDns : list string;
  cs_effects : list ctl_effect
}.

Definition set_cs_np (v : NpState) (s : CtlState) : CtlState :=
  mkCtlState v (cs_nodes s) (depPods s) (erspanPolPods s) (podIftoEp s) (cachedEpgDns s) (cs_effects s).
Definition set_cs_nodes (v : NodeState) (s : CtlState) : CtlState :=
  mkCtlState (cs_np s) v (depPods s) (erspanPolPods s) (podIftoEp s) (cachedEpgDns s) (cs_effects s).
Definition set_depPods (v : np_index) (s : CtlState) : CtlState :=
  mkCtlState (cs_np s) (cs_nodes s) v (erspanPolPods s) (podIftoEp s) (cachedEpgDns s) (cs_effects s).
Definition set_erspanPolPods (v : np_index) (s : CtlState) : CtlState :=
  mkCtlState (cs_np s) (cs_nodes s) (depPods s) v (podIftoEp s) (cachedEpgDns s) (cs_effects s).
Definition set_podIftoEp (v : gmap string EndPointData) (s : CtlState) : CtlState :=
  mkCtlState (cs_np s) (cs_nodes s) (depPods s) (erspanPolPods s) v (cachedEpgDns s) (cs_effects s).
Definition set_cachedEpgDns (v : list string) (s : CtlState) : CtlState :=
  mkCtlState (cs_np s) (cs_nodes s) (depPods s) (erspanPolPods s) (podIftoEp s) v (cs_effects s).
Definition c_emit (l : list ctl_effect) (s : CtlState) : CtlState :=
  mkCtlState (cs_np s) (cs_nodes s) (depPods s) (erspanPolPods s) (podIftoEp s) (cachedEpgDns s) (cs_effects s ++ l)%list.

(** ** Strings and sorted slices *)

(** strings.Split by a separator that is not empty; [skip] characters belong
    to a separator that was found. *)
Fixpoint split_str (sep : string) (skip : nat) (s : string) : list string :=
  match s with
  | EmptyString => [EmptyString]
  | String c s' =>
      match skip with
      | S k => split_str sep k s'
      | O =>
          if String.prefix sep s then EmptyString :: split_str sep (String.length sep - 1) s'
          else match split_str sep 0 s' with [] => [String c EmptyString] | x :: l => String c x :: l end
      end
  end.
Definition Split (s sep : string) : list string := split_str sep 0 s.

(** strings.Replace(s, c, "", -1). *)
Fixpoint remove_char (c : ascii) (s : string) : string :=
  match s with
  | EmptyString => EmptyString
  | String d s => if Ascii.eqb d c then remove_char c s else String d (remove_char c s)
  end.

(** The slice is sorted; sort.SearchStrings is that of ApicConn. *)
Definition found_at (s : list string) (i : nat) (x : string) : bool := bool_decide (s !! i = Some x).

Definition contains (s : list string) (searchterm : string) : bool :=
  found_at s (SearchStrings s searchterm) searchterm.

(** removeSlice(s, searchterm): append moves the elements behind the one that
    is found one place down in the array; the slice of the caller keeps its
    length, so its last place keeps what it held. *)
Definition removeSlice (s : list string) (searchterm : string) : list string :=
  let i := SearchStrings s searchterm in
  if found_at s i searchterm then (take i s ++ drop (S i) s ++ drop (length s - 1) s)%list else s.

(** body.Attributes[name].(string). *)
Definition attr_str (o : ApicObject) (name : string) : option string :=
  match ApicTypes.Attributes o !! name with Some (AStr v) => Some v | _ => None end.

Section Mirror.
Context (cfg : CtlCfg) (st : CtlStores).

Abbreviation np_cfg := (cc_np cfg).
Abbreviation c_name := (aciNameForKey np_cfg).
Abbreviation chained := (NetPol.ChainedMode np_cfg).
Abbreviation provider := (vmmDomainProvider np_cfg).
Abbreviation domain := (NetPol.AciVmmDomain np_cfg).
Abbreviation vmm_controller := (NetPol.AciVmmController np_cfg).

Definition pod_store : gmap string Pod := kp_pod <$> k_pods st.
Definition ns_store : gmap string labels := kn_Labels <$> k_nss st.

(** ** Queues and callbacks *)

Definition queuePodUpdate (pod : CtlPod) (s : CtlState) : CtlState := c_emit [CQueuePod (kp_key pod)] s.

(** The callbacks of the indexes: pods, policies and ERSPAN sessions that are
    in their stores are queued. *)
Definition stored_keys {A} (m : gmap string A) (keys : gset string) : list string :=
  List.filter (λ k, bool_decide (is_Some (m !! k))) (elements keys).
Definition callback_pods (keys : gset string) (s : CtlState) : CtlState :=
  c_emit (CQueuePod <$> (kp_key <$> omap (λ k, k_pods st !! k) (elements keys))) s.
Definition callback_nps (keys : gset string) (s : CtlState) : CtlState :=
  c_emit (CQueueNetPol <$> stored_keys (k_nps st) keys) s.
Definition callback_spans (keys : gset string) (s : CtlState) : CtlState :=
  c_emit (CQueueSpan <$> (es_key <$> omap (λ k, k_spans st !! k) (elements keys))) s.

(** ** The cache of endpoint groups *)

Definition getEpgFromEppd (dn : string) : option string :=
  epgDn ← Split dn ("uni/vmmp-" ++ provider ++ "/dom-" ++ domain ++ "/eppd-[") !! 1%nat;
  Some (remove_char "]" epgDn).

Definition vmmEpPDChanged (obj : ApicObject) (s : CtlState) : option CtlState :=
  epgDn ← getEpgFromEppd (GetAttrStr obj "dn");
  let l := if contains (cachedEpgDns s) epgDn then cachedEpgDns s else (cachedEpgDns s ++ [epgDn])%list in
  Some (set_cachedEpgDns (sort_strs l) s).

Definition vmmEpPDDeleted (dn : string) (s : CtlState) : option CtlState :=
  epgDn ← getEpgFromEppd dn;
  Some (if contains (cachedEpgDns s) epgDn then set_cachedEpgDns (removeSlice (cachedEpgDns s) epgDn) s else s).

(** The DNs of the faults that are deleted when the controller starts, for the
    answer of the APIC to the query. *)
Definition clearFaultInstances (GetApicResponse : string → option ApicSlice) : list string :=
  match GetApicResponse ("/api/node/class/vmmClusterFaultInfo.json?" ++
          dq "query-target-filter=and(wcard(vmmClusterFaultInfo.dn,'" ++ "comp/prov-" ++ provider ++ "/ctrlr-\[" ++ domain ++ "\]-" ++
          domain ++ dq "'))" ++ "&order-by=vmmClusterFaultInfo.modTs|desc") with
  | None => []
  | Some imdata => omap (M := list) (λ body, attr_str body "dn") imdata
  end.

(** json.Unmarshal into a group fails on text that is no JSON, on a value that
    is no object, and on a field that is no string. *)
Definition group_error (v : json) : bool :=
  match v with
  | JNull => false
  | JObj ms => existsb (λ m, match field_of m.1, m.2 with Some _, JStr _ | Some _, JNull | None, _ => false | Some _, _ => true end) ms
  | _ => true
  end.

Definition Unmarshal_group (text : string) : option OpflexGroup :=
  v ← Unmarshal_json text;
  if group_error v then None else Some (decode_group zero_group v).

(** Whether the group exists, the group, and whether a fault is to be
    raised.  The group is used only with a fault. *)
Definition checkEpgCache (epGroup : string) (s : CtlState) : bool * OpflexGroup * bool :=
  let decoded := if (String.length epGroup =? 0)%nat then Some zero_group else Unmarshal_group epGroup in
  match decoded with
  | None => (false, zero_group, false)
  | Some egval =>
      if String.eqb (Tenant egval) EmptyString || String.eqb (AppProfile egval) EmptyString || String.eqb (og_Name egval) EmptyString
      then (false, egval, false)
      else if (length (cachedEpgDns s) =? 0)%nat then (false, egval, false)
      else
        let dn := "uni/tn-" ++ Tenant egval ++ "/ap-" ++ AppProfile egval ++ "/epg-" ++ og_Name egval in
        if contains (cachedEpgDns s) dn then (true, egval, false) else (false, egval, true)
  end.

Definition podFaultCode : Z := 10.
Definition nsFaultCode : Z := 11.
Definition depFaultCode : Z := 12.
Definition major : Z := 4.
Definition critical : Z := 5.

Definition fault_object (faultCode severity : Z) (entity : string) (egval : OpflexGroup) : option ApicObject :=
  let desc := "Annotation failed on Ns/Dep/Pod for the entity " ++ entity ++ ", Reason being: Cannot resolve the EPG:" ++
              og_Name egval ++ " for the tenant:" ++ Tenant egval ++ " and app-profile:" ++ AppProfile egval in
  aPrObj ← NewVmmInjectedClusterInfo provider domain vmm_controller;
  aObj ← NewVmmClusterFaultInfo (GetDn aPrObj) (Itoa faultCode);
  Some (SetAttr (SetAttr (SetAttr aObj "faultDesc" (AStr desc)) "faultCode" (AStr (Itoa faultCode)))
          "faultSeverity" (AStr (Itoa severity))).

Definition handleEpgAnnotationUpdate (key : string) (faultCode severity : Z) (entity epGroup : string) (s : CtlState)
  : option (CtlState * bool) :=
  let '(epgExist, egval, setFaultInst) := checkEpgCache epGroup s in
  if (epgExist : bool) then Some (c_emit [CClear key] s, false)
  else if (setFaultInst : bool) then
    aObj ← fault_object faultCode severity entity egval;
    Some (c_emit [if (faultCode =? nsFaultCode)%Z then CWriteContainer key [aObj] else CWrite key [aObj]] s, true)
  else Some (s, false).

(** The three callers: an annotation that is absent changes nothing. *)
Definition check_annotation (key : string) (faultCode severity : Z) (entity : string) (annotations : gmap string string)
    (s : CtlState) : option CtlState :=
  match annotations !! EgAnnotation with
  | Some epGroup => '(s, _) ← handleEpgAnnotationUpdate key faultCode severity entity epGroup s; Some s
  | None => Some s
  end.

Definition checkIfEpgExistPod (pod : CtlPod) : CtlState → option CtlState :=
  check_annotation (c_name "podfs" (kp_key pod)) podFaultCode major (pod_name (kp_pod pod)) (kp_Annotations pod).
Definition checkIfEpgExistDep (dep : CtlDep) : CtlState → option CtlState :=
  check_annotation (c_name "depfs" (kd_key dep)) depFaultCode major (kd_Name dep) (kd_Annotations dep).
Definition checkIfEpgExistNs (ns : CtlNs) (s : CtlState) : option CtlState :=
  let nskey := c_name "nsfs" (kn_Name ns) in
  if String.eqb nskey EmptyString then Some s
  else check_annotation nskey nsFaultCode critical (kn_Name ns) (kn_Annotations ns) s.

(** ** Injected objects *)

(** A child for every label. *)
Fixpoint add_labels (dn : string) (kvs : list (string * string)) (o : ApicObject) : option ApicObject :=
  match kvs with
  | [] => Some o
  | (key, val) :: kvs =>
      label ← NewVmmInjectedLabel dn (c_name "label" key) val;
      add_labels dn kvs (AddChild o label)
  end.

Definition with_labels (version : string) (ls : labels) (o : ApicObject) : option ApicObject :=
  if cc_EnableVmmInjectedLabels cfg && String.leb version (cc_ApicVersion cfg)
  then add_labels (GetDn o) (map_to_list ls) o else Some o.

(** The first owner of the kind that has a name. *)
Definition set_owner (kind attr : string) (owners : list OwnerReference) (o : ApicObject) : ApicObject :=
  match List.find (λ r, String.eqb (or_Kind r) kind && negb (String.eqb (or_Name r) EmptyString)) owners with
  | Some r => SetAttr o attr (AStr (or_Name r))
  | None => o
  end.

Definition podFilter (pod : CtlPod) : bool := negb (kp_HostNetwork pod).

Definition pod_object (pod : CtlPod) : option ApicObject :=
  aobj ← NewVmmInjectedContGrp provider domain vmm_controller (pod_ns (kp_pod pod)) (pod_name (kp_pod pod));
  let aobj := SetAttr aobj "guid" (AStr (kp_UID pod)) in
  let aobj := SetAttr aobj "hostName" (AStr (kp_NodeName pod)) in
  let aobj := SetAttr aobj "computeNodeName" (AStr (kp_NodeName pod)) in
  with_labels "5.0" (pod_labels (kp_pod pod)) (set_owner "ReplicaSet" "replicaSetName" (kp_Owners pod) aobj).

Definition writeApicPod (pod : CtlPod) (s : CtlState) : option CtlState :=
  if chained then Some s
  else
    match k_nss st !! pod_ns (kp_pod pod) with
    | None => Some s
    | Some _ =>
        let key := c_name "pod" (kp_key pod) in
        if negb (podFilter pod) || String.eqb (kp_NodeName pod) EmptyString then Some (c_emit [CClear key] s)
        else aobj ← pod_object pod; Some (c_emit [CWrite key [aobj]] s)
    end.

Definition dep_object (dep : CtlDep) : option ApicObject :=
  aobj ← NewVmmInjectedDepl provider domain vmm_controller (kd_Namespace dep) (kd_Name dep);
  let aobj := SetAttr aobj "guid" (AStr (kd_UID dep)) in
  let aobj := SetAttr aobj "replicas" (AStr (match kd_Replicas dep with Some n => Itoa n | None => "1" end)) in
  with_labels "5.0" (kd_Labels dep) aobj.

Definition writeApicDepl (dep : CtlDep) (s : CtlState) : option CtlState :=
  if chained then Some s
  else aobj ← dep_object dep; Some (c_emit [CWrite (c_name "deployment" (kd_key dep)) [aobj]] s).

Definition rs_object (rs : CtlRs) : option ApicObject :=
  aobj ← NewVmmInjectedReplSet provider domain vmm_controller (kr_Namespace rs) (kr_Name rs);
  let aobj := SetAttr aobj "guid" (AStr (kr_UID rs)) in
  with_labels "5.0" (kr_Labels rs) (set_owner "Deployment" "deploymentName" (kr_Owners rs) aobj).

Definition writeApicRs (rs : CtlRs) (s : CtlState) : option CtlState :=
  if chained then Some s
  else aobj ← rs_object rs; Some (c_emit [CWrite (c_name "replicaSet" (kr_key rs)) [aobj]] s).

Definition ns_object (ns : CtlNs) : option ApicObject :=
  aobj ← NewVmmInjectedNs provider domain vmm_controller (kn_Name ns);
  with_labels "5.2" (kn_Labels ns) aobj.

Definition writeApicNs (ns : CtlNs) (s : CtlState) : option CtlState :=
  if chained then Some s
  else aobj ← ns_object ns; Some (c_emit [CWriteContainer (c_name "ns" (kn_Name ns)) [aobj]] s).

(** ** Pods *)

Definition no_hash : option (Pod → string) := None.
Definition ip_hash : option (Pod → string) := Some nphash.

Definition dep_update (p : Pod) (s : CtlState) : CtlState * bool :=
  let '(i, _, b) := UpdatePodNoCallback Selector_Matches no_hash p (depPods s) in (set_depPods i s, b).
Definition span_update (p : Pod) (s : CtlState) : CtlState * bool :=
  let '(i, objs, b) := UpdatePodNoCallback Selector_Matches ip_hash p (erspanPolPods s) in
  (callback_spans objs (set_erspanPolPods i s), b).
Definition netpol_update (p : Pod) (s : CtlState) : CtlState * bool :=
  let '(i, _, b) := UpdatePodNoCallback Selector_Matches no_hash p (netPolPods (cs_np s)) in
  (set_cs_np (set_pods (λ _, i) (cs_np s)) s, b).
Definition ingress_update (p : Pod) (s : CtlState) : CtlState * bool :=
  let '(i, objs, b) := UpdatePodNoCallback Selector_Matches ip_hash p (netPolIngressPods (cs_np s)) in
  (callback_nps objs (set_cs_np (set_ingress (λ _, i) (cs_np s)) s), b).
Definition egress_update (p : Pod) (s : CtlState) : CtlState * bool :=
  let '(i, objs, b) := UpdatePodNoCallback Selector_Matches ip_hash p (netPolEgressPods (cs_np s)) in
  (callback_nps objs (set_cs_np (set_egress (λ _, i) (cs_np s)) s), b).

(** UpdatePodNoCallback on the five indexes, in this order; whether one of
    them asks for an update of the pod. *)
Definition update_indexes (p : Pod) (s : CtlState) : CtlState * bool :=
  let '(s, b1) := dep_update p s in
  if chained then (s, b1)
  else
    let '(s, b2) := span_update p s in
    let '(s, b3) := netpol_update p s in
    let '(s, b4) := ingress_update p s in
    let '(s, b5) := egress_update p s in
    (s, b1 || b2 || b3 || b4 || b5).

Definition delete_indexes (p : Pod) (s : CtlState) : CtlState :=
  let s := set_depPods (DeletePod p (depPods s)).1 s in
  if chained then s
  else
    let '(i, objs) := DeletePod p (erspanPolPods s) in
    let s := callback_spans objs (set_erspanPolPods i s) in
    let s := set_cs_np (set_pods (λ i, (DeletePod p i).1) (cs_np s)) s in
    let '(i, objs) := DeletePod p (netPolIngressPods (cs_np s)) in
    let s := callback_nps objs (set_cs_np (set_ingress (λ _, i) (cs_np s)) s) in
    let '(i, objs) := DeletePod p (netPolEgressPods (cs_np s)) in
    callback_nps objs (set_cs_np (set_egress (λ _, i) (cs_np s)) s).

Definition podAdded (pod : CtlPod) (s : CtlState) : option CtlState :=
  s ← writeApicPod pod s;
  let s := (update_indexes (kp_pod pod) s).1 in
  checkIfEpgExistPod pod (queuePodUpdate pod s).

Definition podUpdated (oldpod newpod : CtlPod) (s : CtlState) : option CtlState :=
  s ← writeApicPod newpod s;
  let same_ip := String.eqb (pod_ip (kp_pod oldpod)) (pod_ip (kp_pod newpod)) in
  let same_labels := bool_decide (pod_labels (kp_pod oldpod) = pod_labels (kp_pod newpod)) in
  let '(s, shouldqueue) := if same_ip && same_labels then (s, false) else update_indexes (kp_pod newpod) s in
  let shouldqueue := shouldqueue || negb (bool_decide (kp_Annotations oldpod = kp_Annotations newpod)) ||
                     negb (String.eqb (kp_NodeName oldpod) (kp_NodeName newpod)) in
  checkIfEpgExistPod newpod (if (shouldqueue : bool) then queuePodUpdate newpod s else s).

Definition podDeleted (obj : notified CtlPod) (s : CtlState) : CtlState :=
  match deleted_obj obj with
  | None => s
  | Some pod =>
      let podkey := kp_key pod in
      let s := c_emit [CClear (c_name "pod" podkey); CClear (c_name "podfs" podkey)] s in
      let s := delete_indexes (kp_pod pod) s in
      let s := set_cs_nodes (removePodFromNode (cc_node cfg) (kp_NodeName pod) podkey (cs_nodes s)) s in
      c_emit [GoDeletePorts (kp_pod pod) podkey] s
  end.

(** The handler of the queue of pods. *)
Definition handlePodUpdate (pod : CtlPod) (s : CtlState) : CtlState :=
  if negb (podFilter pod) || chained then s
  else
    let podkey := kp_key pod in
    let s := if String.eqb (kp_NodeName pod) EmptyString then s
             else set_cs_nodes (addPodToNode (cc_node cfg) (kp_NodeName pod) podkey (cs_nodes s)) s in
    c_emit [GoUpdatePorts (kp_pod pod) podkey] s.

(** ** Deployments and replica sets *)

Definition dep_getKey (d : CtlDep) : option string := Some (kd_key d).
Definition dep_selector (d : CtlDep) : list (PodSelector (Selector := Selector)) :=
  PodSelectorFromNsAndSelector LabelSelectorAsSelector (kd_Namespace d) (kd_Selector d).
Definition dep_stores : Stores (Obj := CtlDep) := mkStores pod_store ns_store (k_deps st).

Definition update_depPods (dep : CtlDep) (s : CtlState) : CtlState :=
  let '(i, pods, _) := UpdateSelectorObj Selector_Matches dep_getKey dep_selector dep_stores dep (depPods s) in
  callback_pods pods (set_depPods i s).

Definition deploymentAdded (dep : CtlDep) (s : CtlState) : option CtlState :=
  s ← writeApicDepl dep s;
  checkIfEpgExistDep dep (update_depPods dep s).

Definition deploymentChanged (olddep newdep : CtlDep) (s : CtlState) : option CtlState :=
  s ← writeApicDepl newdep s;
  let s := if bool_decide (kd_Selector olddep = kd_Selector newdep) then s else update_depPods newdep s in
  let s := if bool_decide (kd_Annotations olddep = kd_Annotations newdep) then s
           else callback_pods (GetPodForObj (depPods s) (kd_key newdep)) s in
  checkIfEpgExistDep newdep s.

(** The index is given the object as it came: the key of a
    DeletedFinalStateUnknown is an error, and the index is left alone. *)
Definition deploymentDeleted (obj : notified CtlDep) (s : CtlState) : CtlState :=
  match deleted_obj obj with
  | None => s
  | Some dep =>
      let s := c_emit [CClear (c_name "deployment" (kd_key dep)); CClear (c_name "depfs" (kd_key dep))] s in
      match obj with
      | Plain dep =>
          let '(i, pods) := DeleteSelectorObj dep_getKey dep (depPods s) in
          callback_pods pods (set_depPods i s)
      | _ => s
      end
  end.

Definition replicaSetAdded (rs : CtlRs) (s : CtlState) : option CtlState := writeApicRs rs s.
Definition replicaSetChanged (newrs : CtlRs) (s : CtlState) : option CtlState := writeApicRs newrs s.

(** The logger of an unexpected object reads through a nil pointer. *)
Definition replicaSetDeleted (obj : notified CtlRs) (s : CtlState) : option CtlState :=
  rs ← deleted_obj obj;
  Some (c_emit [CClear (c_name "replicaSet" (kr_key rs))] s).

(** ** Namespaces *)

(** cache.ListAllByNamespace: the empty name stands for all namespaces. *)
Definition updatePodsForNamespace (ns : string) (s : CtlState) : CtlState :=
  foldl (λ s pod, queuePodUpdate pod s) s
    (List.filter (λ p, String.eqb ns EmptyString || String.eqb (pod_ns (kp_pod p)) ns) (snd <$> map_to_list (k_pods st))).

Definition np_store : Stores (Obj := NetworkPolicy) := mkStores pod_store ns_store (k_nps st).

(** UpdateNamespace (and DeleteNamespace, which is the same) on the indexes
    of deployments, policies and ingress peers. *)
Definition namespace_indexes (s : CtlState) : CtlState :=
  let '(i, pods, _) := UpdateNamespace Selector_Matches dep_getKey dep_selector dep_stores (depPods s) in
  let s := callback_pods pods (set_depPods i s) in
  if chained then s
  else
    let '(i, pods, _) := UpdateNamespace Selector_Matches np_getKey netPolPodSelector np_store (netPolPods (cs_np s)) in
    let s := callback_pods pods (set_cs_np (set_pods (λ _, i) (cs_np s)) s) in
    let '(i, _, objs) := UpdateNamespace Selector_Matches np_getKey ingressPodSelector np_store (netPolIngressPods (cs_np s)) in
    callback_nps objs (set_cs_np (set_ingress (λ _, i) (cs_np s)) s).

Definition namespaceAdded (ns : CtlNs) (s : CtlState) : option CtlState :=
  s ← writeApicNs ns s;
  checkIfEpgExistNs ns (updatePodsForNamespace (kn_Name ns) (namespace_indexes s)).

Definition namespaceChanged (oldns newns : CtlNs) (s : CtlState) : option CtlState :=
  s ← writeApicNs newns s;
  let s := if bool_decide (kn_Labels oldns = kn_Labels newns) then s else namespace_indexes s in
  let s := if bool_decide (kn_Annotations oldns = kn_Annotations newns) then s else updatePodsForNamespace (kn_Name newns) s in
  checkIfEpgExistNs newns s.

Definition namespaceDeleted (obj : notified CtlNs) (s : CtlState) : CtlState :=
  match deleted_obj obj with
  | None => s
  | Some ns =>
      let s := c_emit [CClear (c_name "ns" (kn_Name ns)); CClear (c_name "nsfs" (kn_Name ns))] s in
      updatePodsForNamespace (kn_Name ns) (namespace_indexes s)
  end.
End Mirror.
