(* ===== verification/CtlPols.v ===== *)
(** * CtlPols: policies for QoS, netflow and ERSPAN

    src/pkg/controller/qos.go, netflow.go, erspan.go and nodepodif.go: custom
    resources that the controller translates to objects of the APIC.  The
    sources of an ERSPAN session are the interfaces of the pods it selects,
    which the host agents publish in NodePodIF resources.  The state and the
    conventions are those of CtlMirror. *)
From S2P Require Import Prelude GoText ApicMetadata ApicTypes ApicBuild ApicState ApicSync GoJson HostPods.
From S2P Require Import PodIndex K8s AciNames OpflexDev PodNet NetPol NetPolIndex NetPolAugment NetPolCtl CtlMirror.

Open Scope string_scope.

(** ** Data *)

Record PolicingType := mkPolicing { PolicingRate : Z; PolicingBurst : Z }.

Record QosPol := mkQosPol {
  qo_Namespace : string;
  qo_Name : string;
  qo_Ingress : PolicingType;
  qo_Egress : PolicingType;
  qo_Mark : Z
}.

Record NetflowPolicy := mkNetflow {
  nf_Namespace : string;
  nf_Name : string;
  nf_DstAddr : string;
  nf_DstPort : Z;
  nf_FlowType : string;
  nf_ActiveFlowTimeOut : Z;
  nf_IdleFlowTimeOut : Z;
  nf_SamplingRate : Z
}.

Definition qo_key (q : QosPol) : string := MetaNamespaceKey (qo_Namespace q) (qo_Name q).
Definition nf_key (n : NetflowPolicy) : string := MetaNamespaceKey (nf_Namespace n) (nf_Name n).

Section Policies.
Context (cfg : CtlCfg) (st : CtlStores).

Abbreviation np_cfg := (cc_np cfg).
Abbreviation c_name := (aciNameForKey np_cfg).
Abbreviation tenant := (NetPol.AciPolicyTenant np_cfg).

(** ** QoS *)

Definition qosPolicyUpdated (q : QosPol) (s : CtlState) : CtlState := c_emit [CQueueQos (qo_key q)] s.

(** The logger of an unexpected object reads through a nil pointer; so do
    those of the other policies. *)
Definition qosPolicyDeleted (obj : notified QosPol) (s : CtlState) : option CtlState :=
  q ← deleted_obj obj;
  Some (c_emit [CClear (c_name "qp" (qo_key q))] s).

Definition dpp_pol (name : string) (p : PolicingType) : option ApicObject :=
  o ← NewQosDppPol tenant name;
  let o := SetAttr o "rate" (AStr (Itoa (PolicingRate p))) in
  let o := SetAttr o "rateUnit" (AStr "kilo") in
  let o := SetAttr o "burst" (AStr (Itoa (PolicingBurst p))) in
  Some (SetAttr o "burstUnit" (AStr "kilo")).

Definition policed (p : PolicingType) : bool := negb (PolicingRate p =? 0)%Z && negb (PolicingBurst p =? 0)%Z.

Definition qosPolObjs (q : QosPol) : option ApicSlice :=
  let labelKey := c_name "qp" (qo_key q) in
  qr ← NewQosRequirement tenant labelKey;
  let qrDn := GetDn qr in
  marking ← NewQosEpDscpMarking qrDn "EpDscpMarking";
  let qr := AddChild qr (SetAttr marking "mark" (AStr (Itoa (qo_Mark q)))) in
  ingress ← (if policed (qo_Ingress q) then
               pol ← dpp_pol (labelKey ++ "_ingress") (qo_Ingress q);
               rs ← NewRsIngressDppPol qrDn (labelKey ++ "_ingress");
               Some (AddChild qr rs, [pol])
             else Some (qr, []));
  egress ← (if policed (qo_Egress q) then
              pol ← dpp_pol (labelKey ++ "_egress") (qo_Egress q);
              rs ← NewRsEgressDppPol qrDn (labelKey ++ "_egress");
              Some (AddChild ingress.1 rs, [pol])
            else Some (ingress.1, []));
  Some (egress.1 :: ingress.2 ++ egress.2)%list.

Definition handleQosPolUpdate (q : QosPol) (s : CtlState) : option (CtlState * bool) :=
  if String.ltb (cc_ApicVersion cfg) "5.1" then Some (s, false)
  else objs ← qosPolObjs q; Some (c_emit [CWrite (c_name "qp" (qo_key q)) objs] s, false).

(** ** Netflow *)

Definition netflowPolicyUpdated (n : NetflowPolicy) (s : CtlState) : CtlState := c_emit [CQueueNetflow (nf_key n)] s.

Definition netflowPolicyDelete (obj : notified NetflowPolicy) (s : CtlState) : option CtlState :=
  n ← deleted_obj obj;
  Some (c_emit [CClear (c_name "nfp" (nf_key n))] s).

Definition netflowPolObjs (n : NetflowPolicy) : option ApicSlice :=
  nf ← NewNetflowVmmExporterPol (c_name "nfp" (nf_key n));
  let nfDn := GetDn nf in
  let nf := SetAttr nf "dstAddr" (AStr (nf_DstAddr n)) in
  let nf := SetAttr nf "dstPort" (AStr (Itoa (nf_DstPort n))) in
  let nf := if String.eqb (nf_FlowType n) "netflow" then SetAttr nf "ver" (AStr "v5")
            else if String.eqb (nf_FlowType n) "ipfix" then SetAttr nf "ver" (AStr "v9") else nf in
  vswitch ← NewVmmVSwitchPolicyCont (vmmDomainProvider np_cfg) (NetPol.AciVmmDomain np_cfg);
  rs ← NewVmmRsVswitchExporterPol (GetDn vswitch) nfDn;
  let rs := SetAttr rs "activeFlowTimeOut" (AStr (Itoa (nf_ActiveFlowTimeOut n))) in
  let rs := SetAttr rs "idleFlowTimeOut" (AStr (Itoa (nf_IdleFlowTimeOut n))) in
  let rs := SetAttr rs "samplingRate" (AStr (Itoa (nf_SamplingRate n))) in
  Some [nf; AddChild vswitch rs].

Definition handleNetflowPolUpdate (n : NetflowPolicy) (s : CtlState) : option (CtlState * bool) :=
  if String.ltb (cc_ApicVersion cfg) "5.0" then Some (s, false)
  else objs ← netflowPolObjs n; Some (c_emit [CWrite (c_name "nfp" (nf_key n)) objs] s, false).

(** ** ERSPAN *)

Definition span_getKey (e : ErspanPolicy) : option string := Some (es_key e).
Definition span_selector (e : ErspanPolicy) : list (PodSelector (Selector := Selector)) :=
  PodSelectorFromNsAndSelector LabelSelectorAsSelector (es_Selector_Namespace e) (Some (mkLs (es_Selector_Labels e) [])).
Definition span_stores : Stores (Obj := ErspanPolicy) := mkStores (pod_store st) (ns_store st) (k_spans st).

Definition queueErspanUpdateByKey (key : string) (s : CtlState) : CtlState := c_emit [CQueueSpan key] s.

Definition erspanPolicyUpdated (span : ErspanPolicy) (s : CtlState) : CtlState :=
  let s := queueErspanUpdateByKey (es_key span) s in
  let '(i, _, objs) := UpdateSelectorObj Selector_Matches span_getKey span_selector span_stores span (erspanPolPods s) in
  callback_spans st objs (set_erspanPolPods i s).

(** The index is given the object as it came. *)
Definition erspanPolicyDeleted (obj : notified ErspanPolicy) (s : CtlState) : option CtlState :=
  span ← deleted_obj obj;
  let s := c_emit [CClear (c_name "span" (es_key span))] s in
  Some match obj with
       | Plain span => set_erspanPolPods (DeleteSelectorObj span_getKey span (erspanPolPods s)).1 s
       | _ => s
       end.

Definition erspanSyncOpflexDev (s : CtlState) : CtlState :=
  foldl (λ s span, queueErspanUpdateByKey (es_key span) s) s (snd <$> map_to_list (k_spans st)).

Definition set_devices (v : gmap string ApicSlice) (s : CtlState) : CtlState :=
  let n := cs_nodes s in
  set_cs_nodes (mkNodeState (configuredPodNetworkIps n) (podNetworkIps n) (nodePodNetCache n) (nodeServiceIps n)
    (nodeServiceMetaCache n) v (nodeACIPod n) (snatNodeInfoCache_ n) (nodeSyncEnabled n) (tunnelGetter n) (node_effects n)) s.

(** Looking for the path of a node records the states of its devices. *)
Definition getFabricPaths (now : Z) (devs : gmap string ApicSlice) : gmap string ApicSlice * list string :=
  let '(devs, paths) := device_paths now devs in (devs, snd <$> map_to_list paths).

(** The name within the brackets after the last "/pathep-[". *)
Definition path_port (path : string) : string := TrimSuffix (List.last (Split path "/pathep-[") EmptyString) "]".

Definition getVpcs (now : Z) (devs : gmap string ApicSlice) : gmap string ApicSlice * list string :=
  let '(devs, paths) := getFabricPaths now devs in
  (devs, path_port <$> List.filter (λ path, Contains path "/protpaths-") paths).

Definition getAccLeafPorts (now : Z) (devs : gmap string ApicSlice) : gmap string ApicSlice * list string :=
  let '(devs, paths) := getFabricPaths now devs in
  (devs, path_port <$> List.filter (λ path, Contains path "/paths-") paths).

Definition transformMac (mac : string) : string := replace_char ":" "-" mac.

Definition fvCEpDn (ep : EndPointData) : string :=
  "uni/tn-" ++ tenant ++ "/ap-" ++ ed_AppProfile ep ++ "/epg-" ++ ed_EPG ep ++ "/cep-" ++ ToUpper (ed_MacAddr ep).

Definition span_source (labelKey dir grpDn : string) (ep : EndPointData) : option ApicObject :=
  src ← NewSpanVSrc grpDn (labelKey ++ "_Src_" ++ transformMac (ToUpper (ed_MacAddr ep)));
  let src := SetAttr src "dir" (AStr dir) in
  srcCEp ← NewSpanRsSrcToVPort (GetDn src) (fvCEpDn ep);
  Some (AddChild src srcCEp).

(** The loop over the selected pods: one without interface data is left out. *)
Fixpoint span_sources (labelKey dir : string) (eps : gmap string EndPointData) (podKeys : list string) (srcGrp : ApicObject)
  : option ApicObject :=
  match podKeys with
  | [] => Some srcGrp
  | podkey :: podKeys =>
      match eps !! podkey with
      | None => span_sources labelKey dir eps podKeys srcGrp
      | Some ep =>
          src ← span_source labelKey dir (GetDn srcGrp) ep;
          span_sources labelKey dir eps podKeys (AddChild srcGrp src)
      end
  end.

Definition span_destination (labelKey : string) (span : ErspanPolicy) : option ApicObject :=
  destGrp ← NewSpanVDestGrp labelKey;
  dest ← NewSpanVDest (GetDn destGrp) (labelKey ++ "_Dest");
  destSummary ← NewSpanVEpgSummary (GetDn dest);
  let destSummary := SetAttr destSummary "dstIp" (AStr (es_DestIP span)) in
  let destSummary := SetAttr destSummary "flowId" (AStr (Itoa (es_FlowID span))) in
  Some (AddChild destGrp (AddChild dest destSummary)).

(** The bindings of a session to ports; the group of the port that they are
    added to is not written. *)
Definition span_bindings (src dest : string → string → option ApicObject) (labelKey : string) (ports : list string)
  : option ApicSlice :=
  l ← mapM (λ port, a ← src port labelKey; b ← dest port labelKey; Some [a; b]) ports;
  Some (concat l).

(** The objects of a session, and the devices with their states recorded. *)
Definition buildErspanObjs (now : Z) (span : ErspanPolicy) (s : CtlState) : option (CtlState * ApicSlice) :=
  let spankey := es_key span in
  let labelKey := c_name "span" spankey in
  srcGrp ← NewSpanVSrcGrp labelKey;
  let srcGrp := SetAttr srcGrp "adminSt" (AStr (es_AdminState span)) in
  srcGrp ← span_sources labelKey (es_Direction span) (podIftoEp s) (elements (GetPodForObj (erspanPolPods s) spankey)) srcGrp;
  destGrp ← span_destination labelKey span;
  let '(devs, vpcs) := getVpcs now (PodNet.nodeOpflexDevice (cs_nodes s)) in
  bundles ← span_bindings NewInfraRsSpanVSrcGrp NewInfraRsSpanVDestGrp labelKey vpcs;
  let '(devs, accPorts) := getAccLeafPorts now devs in
  ports ← span_bindings NewInfraRsSpanVSrcGrpAP NewInfraRsSpanVDestGrpAP labelKey accPorts;
  lbl ← NewSpanSpanLbl (GetDn srcGrp) labelKey;
  Some (set_devices devs s, (AddChild srcGrp lbl :: destGrp :: bundles ++ ports)%list).

Definition handleErspanUpdate (now : Z) (span : ErspanPolicy) (s : CtlState) : option (CtlState * bool) :=
  '(s, objs) ← buildErspanObjs now span s;
  Some (c_emit [CWrite (c_name "span" (es_key span)) objs] s, false).

(** ** Interfaces of pods *)

Definition getPodifKey (podif : PodIF) : string := PodNS podif ++ "/" ++ PodName podif.
Definition getPodifEPG (podif : PodIF) : string := List.last (split_on "|" (EPG podif)) EmptyString.
Definition getPodifAppProfile (podif : PodIF) : string := List.hd EmptyString (split_on "|" (EPG podif)).

Definition podifdata (podif : PodIF) : EndPointData :=
  mkEpData (MacAddr podif) (getPodifEPG podif) (PodNS podif) (getPodifAppProfile podif).

Definition nodePodIFAdded (podifs : list PodIF) (s : CtlState) : CtlState :=
  set_podIftoEp (foldl (λ m podif, <[getPodifKey podif := podifdata podif]> m) (podIftoEp s) podifs) s.

Definition podif_updated (s : CtlState) (podif : PodIF) : CtlState :=
  let s := set_podIftoEp (<[getPodifKey podif := podifdata podif]> (podIftoEp s)) s in
  c_emit (CQueueSpan <$> elements (GetObjForPod (erspanPolPods s) (getPodifKey podif))) s.

Definition nodePodIFUpdated (oldifs newifs : list PodIF) (s : CtlState) : CtlState :=
  if bool_decide (oldifs = newifs) then s else foldl podif_updated s newifs.

Definition nodePodIFDeleted (obj : notified (list PodIF)) (s : CtlState) : CtlState :=
  match deleted_obj obj with
  | None => s
  | Some podifs => set_podIftoEp (foldl (λ m podif, delete (getPodifKey podif) m) (podIftoEp s) podifs) s
  end.
End Policies.
