(* ===== verification/CtlProps.v ===== *)
(** * CtlProps: what the mirror of the cluster and the policies promise

    The tables of the APIC follow the stores of the informers; an annotation
    that names an existing endpoint group raises no fault; the sources of an
    ERSPAN session are the endpoints of the pods that it selects; the objects
    fit the metadata.  Lemmas at the end run the code on inputs where it does
    not do what it means to. *)
From S2P Require Import Prelude GoText ApicMetadata ApicTypes ApicBuild ApicTypesFacts ApicState ApicSync ApicConn ApicConnFacts GoJson HostPods.
From S2P Require Import PodIndex K8s AciNames OpflexDev PodNet NetPol NetPolIndex NetPolAugment NetPolCtl CtlMirror CtlPols.

Open Scope string_scope.

(** ** The tables of the APIC *)

(** The effects of requests on the desired state, by key. *)
Definition table_step (m : gmap string ApicSlice) (e : ctl_effect) : gmap string ApicSlice :=
  match e with
  | CWrite key objs | CWriteContainer key objs => <[key := objs]> m
  | CClear key => delete key m
  | _ => m
  end.
Definition table (s : CtlState) : gmap string ApicSlice := foldl table_step ∅ (cs_effects s).

(** From [s] to [s'] only keys in [P] are written or cleared. *)
Definition effect_key (e : ctl_effect) : option string :=
  match e with CWrite key _ | CWriteContainer key _ | CClear key => Some key | _ => None end.
Definition touches (P : string → Prop) (s s' : CtlState) : Prop :=
  ∃ l, cs_effects s' = (cs_effects s ++ l)%list ∧ Forall (λ e, ∀ k, effect_key e = Some k → P k) l.
Abbreviation quiet := (touches (λ _, False)).

Lemma touches_refl P s : touches P s s.
Proof. exists []. by rewrite app_nil_r. Qed.
Lemma touches_same P s s' : cs_effects s' = cs_effects s → touches P s s'.
Proof. intros E. exists []. by rewrite app_nil_r. Qed.
Lemma touches_trans P s1 s2 s3 : touches P s1 s2 → touches P s2 s3 → touches P s1 s3.
Proof.
  intros (l1&E1&H1) (l2&E2&H2). exists (l1 ++ l2)%list. rewrite E2, E1, <- (assoc_L (++)%list). split; [done|].
  by apply Forall_app.
Qed.
Lemma touches_weaken (P Q : string → Prop) s s' : (∀ k, P k → Q k) → touches P s s' → touches Q s s'.
Proof. intros HPQ (l&E&H). exists l. split; [done|]. eapply Forall_impl; [exact H|]. eauto. Qed.
Lemma touches_emit (P : string → Prop) l s : Forall (λ e, ∀ k, effect_key e = Some k → P k) l → touches P s (c_emit l s).
Proof. intros H. by exists l. Qed.
Lemma quiet_any P s s' : quiet s s' → touches P s s'.
Proof. apply touches_weaken. done. Qed.

Lemma table_emit l s : table (c_emit l s) = foldl table_step (table s) l.
Proof. unfold table. simpl. by rewrite foldl_app. Qed.

Lemma touches_table P s s' k : touches P s s' → ¬ P k → table s' !! k = table s !! k.
Proof.
  intros (l&E&H) Hk. unfold table. rewrite E, foldl_app. clear E. generalize (foldl table_step ∅ (cs_effects s)).
  induction H as [|e l He _ IH]; intros m; simpl; [done|]. rewrite IH.
  destruct e; simpl; try done; (apply lookup_insert_ne || apply lookup_delete_ne); intros ->; by apply Hk, He.
Qed.

Lemma quiet_queue {A} (f : A → ctl_effect) l s : (∀ a, effect_key (f a) = None) → quiet s (c_emit (f <$> l) s).
Proof.
  intros H. apply touches_emit. apply Forall_fmap, Forall_forall. intros a _ k. simpl. by rewrite H.
Qed.

Lemma touches_np P s0 s v : touches P s0 s → touches P s0 (set_cs_np v s).
Proof. intros (l&E&H). by exists l. Qed.
Lemma touches_nodes P s0 s v : touches P s0 s → touches P s0 (set_cs_nodes v s).
Proof. intros (l&E&H). by exists l. Qed.
Lemma touches_dep P s0 s v : touches P s0 s → touches P s0 (set_depPods v s).
Proof. intros (l&E&H). by exists l. Qed.
Lemma touches_span P s0 s v : touches P s0 s → touches P s0 (set_erspanPolPods v s).
Proof. intros (l&E&H). by exists l. Qed.

Create HintDb ctl.
#[export] Hint Resolve touches_refl touches_np touches_nodes touches_dep touches_span : ctl.

(** ** Steps that only queue *)

Section Quiet.
Context (cfg : CtlCfg) (st : CtlStores).

Lemma callback_pods_quiet keys s s0 : quiet s0 s → quiet s0 (callback_pods st keys s).
Proof. intros H. eapply touches_trans; [exact H|]. by apply quiet_queue. Qed.
Lemma callback_nps_quiet keys s s0 : quiet s0 s → quiet s0 (callback_nps st keys s).
Proof. intros H. eapply touches_trans; [exact H|]. by apply quiet_queue. Qed.
Lemma callback_spans_quiet keys s s0 : quiet s0 s → quiet s0 (callback_spans st keys s).
Proof. intros H. eapply touches_trans; [exact H|]. by apply quiet_queue. Qed.

#[local] Hint Resolve callback_pods_quiet callback_nps_quiet callback_spans_quiet : ctl.
Ltac index_op f := unfold f; repeat case_match; simpl; auto with ctl.

Lemma dep_update_quiet p s : quiet s (dep_update p s).1.
Proof. index_op dep_update. Qed.
Lemma span_update_quiet p s : quiet s (span_update st p s).1.
Proof. index_op span_update. Qed.
Lemma netpol_update_quiet p s : quiet s (netpol_update p s).1.
Proof. index_op netpol_update. Qed.
Lemma ingress_update_quiet p s : quiet s (ingress_update st p s).1.
Proof. index_op ingress_update. Qed.
Lemma egress_update_quiet p s : quiet s (egress_update st p s).1.
Proof. index_op egress_update. Qed.

Lemma update_indexes_quiet p s : quiet s (update_indexes cfg st p s).1.
Proof.
  unfold update_indexes. pose proof (dep_update_quiet p s) as H1. destruct (dep_update p s) as [s1 b1].
  destruct (NetPol.ChainedMode _); [done|].
  pose proof (span_update_quiet p s1) as H2. destruct (span_update st p s1) as [s2 b2].
  pose proof (netpol_update_quiet p s2) as H3. destruct (netpol_update p s2) as [s3 b3].
  pose proof (ingress_update_quiet p s3) as H4. destruct (ingress_update st p s3) as [s4 b4].
  pose proof (egress_update_quiet p s4) as H5. destruct (egress_update st p s4) as [s5 b5]. simpl in *.
  eauto 6 using touches_trans.
Qed.

Lemma delete_indexes_quiet p s : quiet s (delete_indexes cfg st p s).
Proof.
  unfold delete_indexes. destruct (NetPol.ChainedMode _); [by apply touches_same|].
  repeat case_match. auto 20 with ctl.
Qed.

Lemma update_depPods_quiet dep s : quiet s (update_depPods st dep s).
Proof. index_op update_depPods. Qed.

Lemma namespace_indexes_quiet s : quiet s (namespace_indexes cfg st s).
Proof. unfold namespace_indexes. repeat case_match; auto 20 with ctl. Qed.

Lemma updatePodsForNamespace_quiet ns s : quiet s (updatePodsForNamespace st ns s).
Proof.
  unfold updatePodsForNamespace. revert s. generalize (List.filter (λ p, String.eqb ns EmptyString || String.eqb (pod_ns (kp_pod p)) ns) (snd <$> map_to_list (k_pods st))).
  induction l as [|p l IH]; intros s; simpl; [auto with ctl|]. eapply touches_trans; [|apply IH].
  apply (quiet_queue CQueuePod [kp_key p]). done.
Qed.
End Quiet.

(** ** Objects *)

Ltac attr_typed := repeat (apply typed_SetAttr; [discriminate|]).

Section Objects.
Context (cfg : CtlCfg).

Lemma fault_object_tree fc sev entity g : tree "vmmClusterFaultInfo" (fault_object cfg fc sev entity g).
Proof.
  unfold fault_object. destruct (NewVmmInjectedClusterInfo _ _ _) as [o1|] eqn:E1.
  2: { assert (tree "vmmInjectedClusterInfo" (NewVmmInjectedClusterInfo (vmmDomainProvider (cc_np cfg)) (NetPol.AciVmmDomain (cc_np cfg))
         (NetPol.AciVmmController (cc_np cfg)))) as (o&E&_) by plain_tree. congruence. }
  cbn [mbind option_bind].
  assert (tree "vmmClusterFaultInfo" (NewVmmClusterFaultInfo (GetDn o1) (Itoa fc))) as (o&->&C&T) by plain_tree.
  cbn [mbind option_bind]. eexists. split; [reflexivity|]. rewrite !class_SetAttr. split; [exact C|]. attr_typed. exact T.
Qed.

Lemma add_labels_total dn kvs o : ∃ o', add_labels cfg dn kvs o = Some o'.
Proof.
  revert o. induction kvs as [|[k v] kvs IH]; intros o; simpl; [eauto|].
  assert (tree "vmmInjectedLabel" (NewVmmInjectedLabel dn (aciNameForKey (cc_np cfg) "label" k) v)) as (l&->&_) by plain_tree.
  apply IH.
Qed.

(** An object to which labels may be added: it is written, and typed if the
    labels are off. *)
Definition labelled (cl : string) (r : option ApicObject) : Prop :=
  ∃ o, r = Some o ∧ (cc_EnableVmmInjectedLabels cfg = false → class o = cl ∧ typed o).

Lemma with_labels_labelled cl v ls o : class o = cl → typed o → labelled cl (with_labels cfg v ls o).
Proof.
  intros C T. unfold with_labels, labelled. destruct (cc_EnableVmmInjectedLabels cfg); [|by exists o].
  destruct (String.leb _ _); simpl; [|by exists o]. destruct (add_labels_total (GetDn o) (map_to_list ls) o) as [o' ->]. by exists o'.
Qed.

Lemma owner_labelled cl v ls kind attr owners o :
  attr ≠ "dn" → class o = cl → typed o → labelled cl (with_labels cfg v ls (set_owner kind attr owners o)).
Proof.
  intros H C T. apply with_labels_labelled; unfold set_owner; destruct (List.find _ _).
  - rewrite class_SetAttr. exact C.
  - exact C.
  - apply typed_SetAttr; [exact H|exact T].
  - exact T.
Qed.

Lemma pod_object_labelled p : labelled "vmmInjectedContGrp" (pod_object cfg p).
Proof.
  unfold pod_object.
  assert (tree "vmmInjectedContGrp" (NewVmmInjectedContGrp (vmmDomainProvider (cc_np cfg)) (NetPol.AciVmmDomain (cc_np cfg))
    (NetPol.AciVmmController (cc_np cfg)) (pod_ns (kp_pod p)) (pod_name (kp_pod p)))) as (o&->&C&T) by plain_tree.
  cbn [mbind option_bind]. apply owner_labelled; [discriminate|rewrite !class_SetAttr; exact C|attr_typed; exact T].
Qed.

Lemma dep_object_labelled d : labelled "vmmInjectedDepl" (dep_object cfg d).
Proof.
  unfold dep_object.
  assert (tree "vmmInjectedDepl" (NewVmmInjectedDepl (vmmDomainProvider (cc_np cfg)) (NetPol.AciVmmDomain (cc_np cfg))
    (NetPol.AciVmmController (cc_np cfg)) (kd_Namespace d) (kd_Name d))) as (o&->&C&T) by plain_tree.
  cbn [mbind option_bind]. apply with_labels_labelled; [rewrite !class_SetAttr; exact C|attr_typed; exact T].
Qed.

Lemma rs_object_labelled r : labelled "vmmInjectedReplSet" (rs_object cfg r).
Proof.
  unfold rs_object.
  assert (tree "vmmInjectedReplSet" (NewVmmInjectedReplSet (vmmDomainProvider (cc_np cfg)) (NetPol.AciVmmDomain (cc_np cfg))
    (NetPol.AciVmmController (cc_np cfg)) (kr_Namespace r) (kr_Name r))) as (o&->&C&T) by plain_tree.
  cbn [mbind option_bind]. apply owner_labelled; [discriminate|rewrite !class_SetAttr; exact C|attr_typed; exact T].
Qed.

Lemma ns_object_labelled n : labelled "vmmInjectedNs" (ns_object cfg n).
Proof.
  unfold ns_object.
  assert (tree "vmmInjectedNs" (NewVmmInjectedNs (vmmDomainProvider (cc_np cfg)) (NetPol.AciVmmDomain (cc_np cfg))
    (NetPol.AciVmmController (cc_np cfg)) (kn_Name n))) as (o&->&C&T) by plain_tree.
  cbn [mbind option_bind]. by apply with_labels_labelled.
Qed.
End Objects.

(** ** Faults touch their key only *)

Lemma check_annotation_touches cfg key fc sev entity anns s :
  ∃ s', check_annotation cfg key fc sev entity anns s = Some s' ∧ touches (λ k, k = key) s s'.
Proof.
  unfold check_annotation, handleEpgAnnotationUpdate.
  destruct (anns !! EgAnnotation) as [t|]; [|exists s; split; [done|auto with ctl]].
  destruct (checkEpgCache t s) as [[e g] f]. destruct e; cbn [mbind option_bind].
  { eexists. split; [done|]. apply touches_emit. repeat constructor. intros k [= <-]. done. }
  destruct f; cbn [mbind option_bind]; [|exists s; split; [done|auto with ctl]].
  destruct (fault_object_tree cfg fc sev entity g) as (o&->&_). cbn [mbind option_bind].
  eexists. split; [done|]. apply touches_emit. repeat constructor. by destruct (fc =? nsFaultCode)%Z; intros k [= <-].
Qed.

(** ** The cluster *)

(** The stores of the informers with those of replica sets, and the
    controller. *)
Record World := mkWorld { w_st : CtlStores; w_rss : gmap string CtlRs; w_ctl : CtlState }.

(** Changes of the cluster; a deletion may have been missed by the informer,
    which then hands over a DeletedFinalStateUnknown. *)
Inductive event :=
  | SetPod (p : CtlPod) | DelPod (k : string) (missed : bool)
  | SetNs (n : CtlNs) | DelNs (k : string) (missed : bool)
  | SetDep (d : CtlDep) | DelDep (k : string) (missed : bool)
  | SetRs (r : CtlRs) | DelRs (k : string) (missed : bool).

Definition notice {A} (missed : bool) (a : A) : notified A := if missed then FinalState (Some a) else Plain a.

Definition put_pods (v : gmap string CtlPod) (st : CtlStores) := mkCtlStores v (k_nss st) (k_deps st) (k_nps st) (k_spans st).
Definition put_nss (v : gmap string CtlNs) (st : CtlStores) := mkCtlStores (k_pods st) v (k_deps st) (k_nps st) (k_spans st).
Definition put_deps (v : gmap string CtlDep) (st : CtlStores) := mkCtlStores (k_pods st) (k_nss st) v (k_nps st) (k_spans st).

(** The informer changes its store and calls the handler. *)
Definition step (cfg : CtlCfg) (e : event) (w : World) : option World :=
  let st := w_st w in let s := w_ctl w in
  match e with
  | SetPod p =>
      let st' := put_pods (<[kp_key p := p]> (k_pods st)) st in
      s' ← match k_pods st !! kp_key p with
           | None => podAdded cfg st' p s
           | Some old => podUpdated cfg st' old p s
           end;
      Some (mkWorld st' (w_rss w) s')
  | DelPod k missed =>
      match k_pods st !! k with
      | None => Some w
      | Some p => let st' := put_pods (delete k (k_pods st)) st in Some (mkWorld st' (w_rss w) (podDeleted cfg st' (notice missed p) s))
      end
  | SetNs n =>
      let st' := put_nss (<[kn_Name n := n]> (k_nss st)) st in
      s' ← match k_nss st !! kn_Name n with
           | None => namespaceAdded cfg st' n s
           | Some old => namespaceChanged cfg st' old n s
           end;
      Some (mkWorld st' (w_rss w) s')
  | DelNs k missed =>
      match k_nss st !! k with
      | None => Some w
      | Some n => let st' := put_nss (delete k (k_nss st)) st in Some (mkWorld st' (w_rss w) (namespaceDeleted cfg st' (notice missed n) s))
      end
  | SetDep d =>
      let st' := put_deps (<[kd_key d := d]> (k_deps st)) st in
      s' ← match k_deps st !! kd_key d with
           | None => deploymentAdded cfg st' d s
           | Some old => deploymentChanged cfg st' old d s
           end;
      Some (mkWorld st' (w_rss w) s')
  | DelDep k missed =>
      match k_deps st !! k with
      | None => Some w
      | Some d => let st' := put_deps (delete k (k_deps st)) st in Some (mkWorld st' (w_rss w) (deploymentDeleted cfg st' (notice missed d) s))
      end
  | SetRs r =>
      s' ← match w_rss w !! kr_key r with None => replicaSetAdded cfg r s | Some _ => replicaSetChanged cfg r s end;
      Some (mkWorld st (<[kr_key r := r]> (w_rss w)) s')
  | DelRs k missed =>
      match w_rss w !! k with
      | None => Some w
      | Some r => s' ← replicaSetDeleted cfg (notice missed r) s; Some (mkWorld st (delete k (w_rss w)) s')
      end
  end.

Fixpoint run (cfg : CtlCfg) (evs : list event) (w : World) : option World :=
  match evs with [] => Some w | e :: evs => w' ← step cfg e w; run cfg evs w' end.

(** A pod changes only while its namespace is stored. *)
Definition in_namespace (e : event) (w : World) : bool :=
  match e with SetPod p => bool_decide (is_Some (k_nss (w_st w) !! pod_ns (kp_pod p))) | _ => true end.
Fixpoint in_namespaces (cfg : CtlCfg) (evs : list event) (w : World) : bool :=
  match evs with
  | [] => true
  | e :: evs => in_namespace e w && match step cfg e w with Some w' => in_namespaces cfg evs w' | None => false end
  end.

(** The kinds and keys that an event may write: the object and its fault. *)
Definition event_keys (e : event) : list (string * string) :=
  match e with
  | SetPod p => [("pod", kp_key p); ("podfs", kp_key p)]
  | DelPod k _ => [("pod", k); ("podfs", k)]
  | SetNs n => [("ns", kn_Name n); ("nsfs", kn_Name n)]
  | DelNs k _ => [("ns", k); ("nsfs", k)]
  | SetDep d => [("deployment", kd_key d); ("depfs", kd_key d)]
  | DelDep k _ => [("deployment", k); ("depfs", k)]
  | SetRs r => [("replicaSet", kr_key r)]
  | DelRs k _ => [("replicaSet", k)]
  end.

Definition nm (cfg : CtlCfg) (tk : string * string) : string := aciNameForKey (cc_np cfg) tk.1 tk.2.

(** Different objects have different names on the APIC. *)
Definition distinct (cfg : CtlCfg) (K : list (string * string)) : bool :=
  forallb (λ a, forallb (λ b, negb (String.eqb (nm cfg a) (nm cfg b)) || bool_decide (a = b)) K) K.

(** What the APIC should hold for the object of a kind with a key. *)
Definition as_slice (o : option ApicObject) : option ApicSlice := (λ o, [o]) <$> o.
Definition mirror (cfg : CtlCfg) (w : World) (tk : string * string) : option ApicSlice :=
  let '(t, k) := tk in
  if String.eqb t "pod" then
    p ← k_pods (w_st w) !! k;
    if kp_HostNetwork p || String.eqb (kp_NodeName p) EmptyString then None else as_slice (pod_object cfg p)
  else if String.eqb t "deployment" then d ← k_deps (w_st w) !! k; as_slice (dep_object cfg d)
  else if String.eqb t "replicaSet" then r ← w_rss w !! k; as_slice (rs_object cfg r)
  else n ← k_nss (w_st w) !! k; as_slice (ns_object cfg n).

Definition kinds : list string := ["pod"; "deployment"; "replicaSet"; "ns"].

Definition mirrored (cfg : CtlCfg) (K : list (string * string)) (w : World) : Prop :=
  ∀ tk, tk ∈ K → tk.1 ∈ kinds → table (w_ctl w) !! nm cfg tk = mirror cfg w tk.

(** The stores are keyed by the keys of their objects. *)
Record keyed (w : World) : Prop := mkKeyed {
  keyed_pods : ∀ k p, k_pods (w_st w) !! k = Some p → kp_key p = k;
  keyed_nss : ∀ k n, k_nss (w_st w) !! k = Some n → kn_Name n = k;
  keyed_deps : ∀ k d, k_deps (w_st w) !! k = Some d → kd_key d = k;
  keyed_rss : ∀ k r, w_rss w !! k = Some r → kr_key r = k
}.

Section Step.
Context (cfg : CtlCfg) (Hch : NetPol.ChainedMode (cc_np cfg) = false).

(** [s'] has [v] at the name of [tk], and else only names in [F] changed. *)
Definition sets (tk : string * string) (F : string → Prop) (v : option ApicSlice) (s s' : CtlState) : Prop :=
  ∃ s1, table s1 !! nm cfg tk = v ∧ touches (λ k, k = nm cfg tk) s s1 ∧ touches F s1 s'.
Abbreviation fault_of fs k := (λ n, n = nm cfg (fs, k)).

Lemma write_sets key objs s : table (c_emit [CWrite key objs] s) !! key = Some objs ∧ touches (λ k, k = key) s (c_emit [CWrite key objs] s).
Proof.
  split; [rewrite table_emit; simpl; by rewrite lookup_insert_eq|]. apply touches_emit. repeat constructor. by intros k [= <-].
Qed.
Lemma write_container_sets key objs s :
  table (c_emit [CWriteContainer key objs] s) !! key = Some objs ∧ touches (λ k, k = key) s (c_emit [CWriteContainer key objs] s).
Proof.
  split; [rewrite table_emit; simpl; by rewrite lookup_insert_eq|]. apply touches_emit. repeat constructor. by intros k [= <-].
Qed.
Lemma clear_sets key s : table (c_emit [CClear key] s) !! key = None ∧ touches (λ k, k = key) s (c_emit [CClear key] s).
Proof.
  split; [rewrite table_emit; simpl; by rewrite lookup_delete_eq|]. apply touches_emit. repeat constructor. by intros k [= <-].
Qed.
Lemma clear2_sets tk fs s s' :
  quiet (c_emit [CClear (nm cfg tk); CClear (nm cfg (fs, tk.2))] s) s' → sets tk (fault_of fs tk.2) None s s'.
Proof.
  intros Hq. exists (c_emit [CClear (nm cfg tk)] s). split; [apply clear_sets|]. split; [apply clear_sets|].
  eapply touches_trans; [|apply quiet_any, Hq]. exists [CClear (nm cfg (fs, tk.2))]. simpl. rewrite <- (assoc_L (++)%list).
  split; [done|]. repeat constructor. by intros k [= <-].
Qed.

Lemma distinct_inj K a b : distinct cfg K = true → a ∈ K → b ∈ K → nm cfg a = nm cfg b → a = b.
Proof.
  unfold distinct. rewrite forallb_forall. intros H Ha Hb E. specialize (H a (proj1 (list_elem_of_In _ _) Ha)).
  rewrite forallb_forall in H. specialize (H b (proj1 (list_elem_of_In _ _) Hb)). rewrite E, String.eqb_refl in H.
  by apply bool_decide_eq_true_1 in H.
Qed.

(** The object of a kind with a key changes: the table follows. *)
Lemma sets_mirrored K tk (F : string → Prop) v w w' :
  distinct cfg K = true → tk ∈ K → tk.1 ∈ kinds → (∀ tk', tk' ∈ K → tk'.1 ∈ kinds → ¬ F (nm cfg tk')) →
  mirrored cfg K w → sets tk F v (w_ctl w) (w_ctl w') → mirror cfg w' tk = v →
  (∀ tk', tk'.1 ∈ kinds → tk' ≠ tk → mirror cfg w' tk' = mirror cfg w tk') → mirrored cfg K w'.
Proof.
  intros HK Htk Hkind HF Hm (s1&Hv&H1&H2) Hnew Hold tk' Htk' Hk'. rewrite (touches_table _ _ _ _ H2 (HF _ Htk' Hk')).
  destruct (decide (tk' = tk)) as [->|Hne]; [congruence|]. rewrite (touches_table _ _ _ _ H1).
  - rewrite (Hm _ Htk' Hk'). symmetry. by apply Hold.
  - intros E. by apply Hne, (distinct_inj K).
Qed.

Lemma fault_apart K fs k : distinct cfg K = true → (fs, k) ∈ K → fs ∉ kinds → ∀ tk', tk' ∈ K → tk'.1 ∈ kinds → ¬ fault_of fs k (nm cfg tk').
Proof. intros HK Hin Hfs tk' Htk' Hk' E. apply (distinct_inj K _ _ HK Htk' Hin) in E as ->. done. Qed.

(** ** The handlers *)

Definition pod_value (p : CtlPod) : option ApicSlice :=
  if kp_HostNetwork p || String.eqb (kp_NodeName p) EmptyString then None else as_slice (pod_object cfg p).

Lemma writeApicPod_sets st p s :
  is_Some (k_nss st !! pod_ns (kp_pod p)) →
  ∃ s1, writeApicPod cfg st p s = Some s1 ∧ table s1 !! nm cfg ("pod", kp_key p) = pod_value p ∧
        touches (λ k, k = nm cfg ("pod", kp_key p)) s s1.
Proof using Hch.
  intros [n Hn]. unfold writeApicPod, podFilter, pod_value. rewrite Hch, Hn, negb_involutive.
  destruct (_ || _); [eexists; split; [reflexivity|apply clear_sets]|].
  destruct (pod_object_labelled cfg p) as (o&->&_). eexists. split; [reflexivity|apply write_sets].
Qed.

Lemma quiet_queuePod p s s0 : quiet s0 s → quiet s0 (queuePodUpdate p s).
Proof. intros H. eapply touches_trans; [exact H|]. by apply (quiet_queue CQueuePod [kp_key p]). Qed.

Lemma quiet_maybe (b : bool) p s s0 : quiet s0 s → quiet s0 (if b then queuePodUpdate p s else s).
Proof. destruct b; [apply quiet_queuePod|done]. Qed.

(** The end of the handlers of pods, deployments and namespaces: what was
    written stays, up to the fault. *)
Lemma fault_sets tk F v s s1 s2 s' :
  table s1 !! nm cfg tk = v → touches (λ k, k = nm cfg tk) s s1 → quiet s1 s2 → touches F s2 s' → sets tk F v s s'.
Proof. intros Hv H1 H2 H3. exists s1. split; [done|]. split; [done|]. eapply touches_trans; [apply quiet_any, H2|done]. Qed.

Lemma podAdded_sets st p s :
  is_Some (k_nss st !! pod_ns (kp_pod p)) →
  ∃ s', podAdded cfg st p s = Some s' ∧ sets ("pod", kp_key p) (fault_of "podfs" (kp_key p)) (pod_value p) s s'.
Proof using Hch.
  intros Hn. unfold podAdded. destruct (writeApicPod_sets st p s Hn) as (s1&->&Hv&Ht). cbn [mbind option_bind].
  unfold checkIfEpgExistPod. edestruct check_annotation_touches as (s'&->&H'). eexists. split; [reflexivity|].
  eapply fault_sets; cycle 3; [exact H'|exact Hv|exact Ht|]. apply quiet_queuePod, update_indexes_quiet.
Qed.

Lemma podUpdated_sets st old p s :
  is_Some (k_nss st !! pod_ns (kp_pod p)) →
  ∃ s', podUpdated cfg st old p s = Some s' ∧ sets ("pod", kp_key p) (fault_of "podfs" (kp_key p)) (pod_value p) s s'.
Proof using Hch.
  intros Hn. unfold podUpdated. destruct (writeApicPod_sets st p s Hn) as (s1&->&Hv&Ht). cbn [mbind option_bind].
  match goal with |- context [if ?b then (s1, false) else _] => destruct b end.
  - unfold checkIfEpgExistPod. edestruct check_annotation_touches as (s'&->&H'). eexists. split; [reflexivity|].
    eapply fault_sets; cycle 3; [exact H'|exact Hv|exact Ht|]. apply quiet_maybe. auto with ctl.
  - pose proof (update_indexes_quiet cfg st (kp_pod p) s1) as Hq. destruct (update_indexes cfg st (kp_pod p) s1) as [s2 b]. simpl in Hq.
    unfold checkIfEpgExistPod. edestruct check_annotation_touches as (s'&->&H'). eexists. split; [reflexivity|].
    eapply fault_sets; cycle 3; [exact H'|exact Hv|exact Ht|]. by apply quiet_maybe.
Qed.

Lemma podDeleted_sets st p missed s :
  sets ("pod", kp_key p) (fault_of "podfs" (kp_key p)) None s (podDeleted cfg st (notice missed p) s).
Proof.
  unfold podDeleted. replace (deleted_obj (notice missed p)) with (Some p) by by destruct missed.
  apply clear2_sets. eapply touches_trans; [apply touches_nodes, delete_indexes_quiet|].
  apply (quiet_queue (λ _, GoDeletePorts (kp_pod p) (kp_key p)) [tt]). done.
Qed.

Lemma writeApicDepl_sets d s :
  ∃ s1, writeApicDepl cfg d s = Some s1 ∧ table s1 !! nm cfg ("deployment", kd_key d) = as_slice (dep_object cfg d) ∧
        touches (λ k, k = nm cfg ("deployment", kd_key d)) s s1.
Proof using Hch.
  unfold writeApicDepl. rewrite Hch. destruct (dep_object_labelled cfg d) as (o&->&_). eexists. split; [reflexivity|apply write_sets].
Qed.

Lemma deploymentAdded_sets st d s :
  ∃ s', deploymentAdded cfg st d s = Some s' ∧
        sets ("deployment", kd_key d) (fault_of "depfs" (kd_key d)) (as_slice (dep_object cfg d)) s s'.
Proof using Hch.
  unfold deploymentAdded. destruct (writeApicDepl_sets d s) as (s1&->&Hv&Ht). cbn [mbind option_bind].
  unfold checkIfEpgExistDep. edestruct check_annotation_touches as (s'&->&H'). eexists. split; [reflexivity|].
  eapply fault_sets; cycle 3; [exact H'|exact Hv|exact Ht|]. apply update_depPods_quiet.
Qed.

Lemma deploymentChanged_sets st old d s :
  ∃ s', deploymentChanged cfg st old d s = Some s' ∧
        sets ("deployment", kd_key d) (fault_of "depfs" (kd_key d)) (as_slice (dep_object cfg d)) s s'.
Proof using Hch.
  unfold deploymentChanged. destruct (writeApicDepl_sets d s) as (s1&->&Hv&Ht). cbn [mbind option_bind].
  unfold checkIfEpgExistDep. edestruct check_annotation_touches as (s'&->&H'). eexists. split; [reflexivity|].
  eapply fault_sets; cycle 3; [exact H'|exact Hv|exact Ht|].
  destruct (bool_decide (kd_Annotations old = kd_Annotations d)); [|apply callback_pods_quiet];
    (destruct (bool_decide (kd_Selector old = kd_Selector d)); [auto with ctl|apply update_depPods_quiet]).
Qed.

Lemma deploymentDeleted_sets st d missed s :
  sets ("deployment", kd_key d) (fault_of "depfs" (kd_key d)) None s (deploymentDeleted cfg st (notice missed d) s).
Proof.
  unfold deploymentDeleted. replace (deleted_obj (notice missed d)) with (Some d) by by destruct missed.
  apply clear2_sets. destruct missed; simpl; [auto with ctl|]. apply callback_pods_quiet. auto with ctl.
Qed.

Lemma writeApicNs_sets n s :
  ∃ s1, writeApicNs cfg n s = Some s1 ∧ table s1 !! nm cfg ("ns", kn_Name n) = as_slice (ns_object cfg n) ∧
        touches (λ k, k = nm cfg ("ns", kn_Name n)) s s1.
Proof using Hch.
  unfold writeApicNs. rewrite Hch. destruct (ns_object_labelled cfg n) as (o&->&_). eexists. split; [reflexivity|apply write_container_sets].
Qed.

Lemma checkIfEpgExistNs_touches n s :
  ∃ s', checkIfEpgExistNs cfg n s = Some s' ∧ touches (fault_of "nsfs" (kn_Name n)) s s'.
Proof.
  unfold checkIfEpgExistNs. destruct (String.eqb _ _); [exists s; split; [done|auto with ctl]|]. apply check_annotation_touches.
Qed.

Lemma namespaceAdded_sets st n s :
  ∃ s', namespaceAdded cfg st n s = Some s' ∧ sets ("ns", kn_Name n) (fault_of "nsfs" (kn_Name n)) (as_slice (ns_object cfg n)) s s'.
Proof using Hch.
  unfold namespaceAdded. destruct (writeApicNs_sets n s) as (s1&->&Hv&Ht). cbn [mbind option_bind].
  edestruct checkIfEpgExistNs_touches as (s'&->&H'). eexists. split; [reflexivity|].
  eapply fault_sets; cycle 3; [exact H'|exact Hv|exact Ht|]. eapply touches_trans; [apply namespace_indexes_quiet|apply updatePodsForNamespace_quiet].
Qed.

Lemma namespaceChanged_sets st old n s :
  ∃ s', namespaceChanged cfg st old n s = Some s' ∧ sets ("ns", kn_Name n) (fault_of "nsfs" (kn_Name n)) (as_slice (ns_object cfg n)) s s'.
Proof using Hch.
  unfold namespaceChanged. destruct (writeApicNs_sets n s) as (s1&->&Hv&Ht). cbn [mbind option_bind].
  edestruct checkIfEpgExistNs_touches as (s'&->&H'). eexists. split; [reflexivity|].
  eapply fault_sets; cycle 3; [exact H'|exact Hv|exact Ht|].
  destruct (bool_decide (kn_Annotations old = kn_Annotations n)); [|eapply touches_trans; [|apply updatePodsForNamespace_quiet]];
    (destruct (bool_decide (kn_Labels old = kn_Labels n)); [auto with ctl|apply namespace_indexes_quiet]).
Qed.

Lemma namespaceDeleted_sets st n missed s :
  sets ("ns", kn_Name n) (fault_of "nsfs" (kn_Name n)) None s (namespaceDeleted cfg st (notice missed n) s).
Proof.
  unfold namespaceDeleted. replace (deleted_obj (notice missed n)) with (Some n) by by destruct missed.
  apply clear2_sets. eapply touches_trans; [apply namespace_indexes_quiet|apply updatePodsForNamespace_quiet].
Qed.

Lemma writeApicRs_sets r s :
  ∃ s', writeApicRs cfg r s = Some s' ∧ sets ("replicaSet", kr_key r) (λ _, False) (as_slice (rs_object cfg r)) s s'.
Proof using Hch.
  unfold writeApicRs. rewrite Hch. destruct (rs_object_labelled cfg r) as (o&->&_). eexists. split; [reflexivity|].
  destruct (write_sets (nm cfg ("replicaSet", kr_key r)) [o] s) as [Hv Ht]. eexists. split; [exact Hv|]. split; [exact Ht|auto with ctl].
Qed.

Lemma replicaSetDeleted_sets r missed s :
  ∃ s', replicaSetDeleted cfg (notice missed r) s = Some s' ∧ sets ("replicaSet", kr_key r) (λ _, False) None s s'.
Proof.
  unfold replicaSetDeleted. replace (deleted_obj (notice missed r)) with (Some r) by by destruct missed. cbn [mbind option_bind].
  eexists. split; [reflexivity|]. destruct (clear_sets (nm cfg ("replicaSet", kr_key r)) s) as [Hv Ht].
  eexists. split; [exact Hv|]. split; [exact Ht|auto with ctl].
Qed.

(** ** Steps of the cluster *)

(** Another object keeps what it should have. *)
Lemma mirror_other t0 k0 w w' tk' :
  (t0 ≠ "pod" → k_pods (w_st w') = k_pods (w_st w)) → (t0 ≠ "deployment" → k_deps (w_st w') = k_deps (w_st w)) →
  (t0 ≠ "replicaSet" → w_rss w' = w_rss w) → (t0 ≠ "ns" → k_nss (w_st w') = k_nss (w_st w)) →
  (∀ k, k ≠ k0 → k_pods (w_st w') !! k = k_pods (w_st w) !! k) → (∀ k, k ≠ k0 → k_deps (w_st w') !! k = k_deps (w_st w) !! k) →
  (∀ k, k ≠ k0 → w_rss w' !! k = w_rss w !! k) → (∀ k, k ≠ k0 → k_nss (w_st w') !! k = k_nss (w_st w) !! k) →
  tk'.1 ∈ kinds → tk' ≠ (t0, k0) → mirror cfg w' tk' = mirror cfg w tk'.
Proof.
  intros Hp Hd Hr Hn Hp' Hd' Hr' Hn' Hk Hne. destruct tk' as [t k]. simpl in Hk. unfold mirror.
  destruct (decide (k = k0)) as [->|Hk0]; [|by rewrite Hp', Hd', Hr', Hn'].
  assert (t ≠ t0) by congruence. unfold kinds in Hk.
  destruct (String.eqb_spec t "pod") as [->|Ht1]; [by rewrite Hp|].
  destruct (String.eqb_spec t "deployment") as [->|Ht2]; [by rewrite Hd|].
  destruct (String.eqb_spec t "replicaSet") as [->|Ht3]; [by rewrite Hr|].
  assert (t = "ns") as -> by set_solver. by rewrite Hn.
Qed.

Ltac mirror_rest := intros tk' ? ?; eapply mirror_other; try done; intros; simpl; try done;
  first [by rewrite lookup_insert_ne|by rewrite lookup_delete_ne].
Ltac keyed_rest Hk := destruct Hk; constructor; simpl; try done; intros k x;
  first [rewrite lookup_insert_Some; intros [[<- <-]|[? ?]]; [done|by eauto]|rewrite lookup_delete_Some; intros [? ?]; by eauto].
Ltac fault_out He := apply fault_apart; [done|apply He; set_solver|unfold kinds; set_solver].
(** The event changes one object; [fault] shows that its fault has another
    name than the objects. *)
Ltac mirror_event K w HK He Hk Hm Hs fault :=
  split; [keyed_rest Hk|]; eapply (sets_mirrored K _ _ _ w _ HK); [| | |exact Hm|exact Hs| |mirror_rest];
  [apply He; set_solver|simpl; unfold kinds; set_solver|fault|simpl; first [by rewrite lookup_insert_eq|by rewrite lookup_delete_eq]].

Lemma step_mirrored K e w :
  distinct cfg K = true → (∀ tk, tk ∈ event_keys e → tk ∈ K) → keyed w → in_namespace e w = true → mirrored cfg K w →
  ∃ w', step cfg e w = Some w' ∧ keyed w' ∧ mirrored cfg K w'.
Proof using Hch.
  intros HK He Hk Hns Hm. destruct w as [st rss s].
  destruct e as [p|k missed|n|k missed|d|k missed|r|k missed]; unfold step; cbn [w_st w_rss w_ctl in_namespace] in *; cbv zeta.
  - apply bool_decide_eq_true_1 in Hns. set (st' := put_pods _ _).
    assert (is_Some (k_nss st' !! pod_ns (kp_pod p))) as Hns' by done.
    destruct (k_pods st !! kp_key p) as [old|];
      [destruct (podUpdated_sets st' old p s Hns') as (s'&->&Hs)|destruct (podAdded_sets st' p s Hns') as (s'&->&Hs)]; cbn [mbind option_bind];
      (eexists; split; [reflexivity|]; mirror_event K (mkWorld st rss s) HK He Hk Hm Hs ltac:(fault_out He)).
  - destruct (k_pods st !! k) as [p|] eqn:E; [|by eauto]. assert (kp_key p = k) as <- by by apply (keyed_pods _ Hk).
    eexists. split; [reflexivity|]. pose proof (podDeleted_sets (put_pods (delete (kp_key p) (k_pods st)) st) p missed s) as Hs.
    mirror_event K (mkWorld st rss s) HK He Hk Hm Hs ltac:(fault_out He).
  - set (st' := put_nss _ _). destruct (k_nss st !! kn_Name n) as [old|];
      [destruct (namespaceChanged_sets st' old n s) as (s'&->&Hs)|destruct (namespaceAdded_sets st' n s) as (s'&->&Hs)]; cbn [mbind option_bind];
      (eexists; split; [reflexivity|]; mirror_event K (mkWorld st rss s) HK He Hk Hm Hs ltac:(fault_out He)).
  - destruct (k_nss st !! k) as [n|] eqn:E; [|by eauto]. assert (kn_Name n = k) as <- by by apply (keyed_nss _ Hk).
    eexists. split; [reflexivity|]. pose proof (namespaceDeleted_sets (put_nss (delete (kn_Name n) (k_nss st)) st) n missed s) as Hs.
    mirror_event K (mkWorld st rss s) HK He Hk Hm Hs ltac:(fault_out He).
  - set (st' := put_deps _ _). destruct (k_deps st !! kd_key d) as [old|];
      [destruct (deploymentChanged_sets st' old d s) as (s'&->&Hs)|destruct (deploymentAdded_sets st' d s) as (s'&->&Hs)]; cbn [mbind option_bind];
      (eexists; split; [reflexivity|]; mirror_event K (mkWorld st rss s) HK He Hk Hm Hs ltac:(fault_out He)).
  - destruct (k_deps st !! k) as [d|] eqn:E; [|by eauto]. assert (kd_key d = k) as <- by by apply (keyed_deps _ Hk).
    eexists. split; [reflexivity|]. pose proof (deploymentDeleted_sets (put_deps (delete (kd_key d) (k_deps st)) st) d missed s) as Hs.
    mirror_event K (mkWorld st rss s) HK He Hk Hm Hs ltac:(fault_out He).
  - unfold replicaSetChanged, replicaSetAdded. destruct (writeApicRs_sets r s) as (s'&E&Hs).
    exists (mkWorld st (<[kr_key r := r]> rss) s'). split; [rewrite E; by destruct (rss !! kr_key r)|].
    mirror_event K (mkWorld st rss s) HK He Hk Hm Hs ltac:(intros ? ? ? []).
  - destruct (rss !! k) as [r|] eqn:E; [|by eauto]. assert (kr_key r = k) as <- by by apply (keyed_rss _ Hk).
    destruct (replicaSetDeleted_sets r missed s) as (s'&->&Hs). cbn [mbind option_bind]. eexists. split; [reflexivity|].
    mirror_event K (mkWorld st rss s) HK He Hk Hm Hs ltac:(intros ? ? ? []).
Qed.

Lemma run_mirrored K evs w :
  distinct cfg K = true → (∀ tk, tk ∈ flat_map event_keys evs → tk ∈ K) → keyed w → in_namespaces cfg evs w = true → mirrored cfg K w →
  ∃ w', run cfg evs w = Some w' ∧ mirrored cfg K w'.
Proof using Hch.
  intros HK. revert w. induction evs as [|e evs IH]; intros w He Hk Hns Hm; simpl in *; [by eauto|].
  apply andb_true_iff in Hns as [Hn Hns].
  destruct (step_mirrored K e w HK) as (w'&E&Hk'&Hm'); [intros; apply He; set_solver|done..|]. rewrite E in Hns |- *.
  apply IH; [intros; apply He; set_solver|done..].
Qed.
End Step.

(** A cluster without objects; the tables of the controller besides are
    arbitrary, and nothing has been written. *)
Definition empty_world (nps : gmap string NetworkPolicy) (spans : gmap string ErspanPolicy) (s : CtlState) : World :=
  mkWorld (mkCtlStores ∅ ∅ ∅ nps spans) ∅
    (mkCtlState (cs_np s) (cs_nodes s) (depPods s) (erspanPolPods s) (podIftoEp s) (cachedEpgDns s) []).

(** C16: The APIC mirrors the cluster.  Unless the controller is chained, from an empty cluster, for every sequence of changes of pods, deployments, replica sets and namespaces, missed deletions included, in which a pod is added or changed only while its namespace is stored (otherwise it has no object, [pod_before_namespace]) and different objects have different names on the APIC, the handlers return without a panic, and afterwards the objects that are desired for a key are exactly the injected object of the stored object with that key; there are none for an object that was deleted, for a pod of the host network and for a pod that has no node.  Whatever faults the annotations raise does not disturb this. *)
Theorem ctl_mirror cfg nps spans s evs :
  let w0 := empty_world nps spans s in
  NetPol.ChainedMode (cc_np cfg) = false → distinct cfg (flat_map event_keys evs) = true → in_namespaces cfg evs w0 = true →
  ∃ w, run cfg evs w0 = Some w ∧
    ∀ t k, (t, k) ∈ flat_map event_keys evs → t ∈ kinds → table (w_ctl w) !! aciNameForKey (cc_np cfg) t k = mirror cfg w (t, k).
Proof.
  intros w0 Hch HK Hns. destruct (run_mirrored cfg Hch (flat_map event_keys evs) evs w0 HK) as (w&E&Hm).
  - done.
  - by constructor.
  - exact Hns.
  - intros [t k] _ Hk. unfold mirror, kinds in *. simpl in *. repeat case_match; done.
  - exists w. split; [done|]. intros t k Hin Ht. exact (Hm (t, k) Hin Ht).
Qed.

Definition demo_np_cfg : NetPol.Config := NetPol.mkConfig "common" "kube" "kube" "Kubernetes" "kube" EmptyString false false.
Definition demo_node_cfg : NodeCfg :=
  mkNodeCfg false "kube" "common" "common" "kube" "kube" "Kubernetes" "5.2" 0 false EmptyString 0 0 256 [] [].
Definition demo_ctl : CtlCfg := mkCtlCfg demo_np_cfg demo_node_cfg true "5.2".
Definition demo_state : CtlState :=
  mkCtlState initial_np (initIpam demo_node_cfg) NewPodSelectorIndex NewPodSelectorIndex ∅ [] [].

Definition demo_pod (name ip node : string) : CtlPod :=
  mkCtlPod (mkPod "web" name {["app" := "shop"]} ip [ip] []) "u1" node false ∅ [mkOwner "ReplicaSet" "shop-1"].
Definition demo_ns : CtlNs := mkCtlNs "web" {["team" := "a"]} ∅.
Definition demo_dep : CtlDep := mkCtlDep "web" "shop" "u2" ∅ ∅ (Some (mkLs {["app" := "shop"]} [])) (Some 2).
Definition demo_rs : CtlRs := mkCtlRs "web" "shop-1" "u3" ∅ [mkOwner "Deployment" "shop"].

Definition demo_events : list event :=
  [SetNs demo_ns; SetDep demo_dep; SetRs demo_rs; SetPod (demo_pod "a" EmptyString EmptyString); SetPod (demo_pod "a" "10.0.0.1" "n1");
   SetPod (demo_pod "b" "10.0.0.2" "n2"); DelPod "web/b" true; DelRs "web/shop-1" false].

Lemma ctl_mirror_witness :
  ∃ w, run demo_ctl demo_events (empty_world ∅ ∅ demo_state) = Some w ∧
    table (w_ctl w) !! "kube_pod_web_a" = as_slice (pod_object demo_ctl (demo_pod "a" "10.0.0.1" "n1")) ∧
    table (w_ctl w) !! "kube_pod_web_b" = None ∧
    is_Some (table (w_ctl w) !! "kube_deployment_web_shop").
Proof.
  destruct (ctl_mirror demo_ctl ∅ ∅ demo_state demo_events) as (w&E&H); [reflexivity|vm_compute; reflexivity|vm_compute; reflexivity|].
  exists w. split; [exact E|].
  pose proof (H "pod" "web/a" ltac:(apply (bool_decide_eq_true_1 _); vm_compute; reflexivity) ltac:(apply (bool_decide_eq_true_1 _); vm_compute; reflexivity)) as H1.
  pose proof (H "pod" "web/b" ltac:(apply (bool_decide_eq_true_1 _); vm_compute; reflexivity) ltac:(apply (bool_decide_eq_true_1 _); vm_compute; reflexivity)) as H2.
  pose proof (H "deployment" "web/shop" ltac:(apply (bool_decide_eq_true_1 _); vm_compute; reflexivity) ltac:(apply (bool_decide_eq_true_1 _); vm_compute; reflexivity)) as H3.
  assert (w = default (empty_world ∅ ∅ demo_state) (run demo_ctl demo_events (empty_world ∅ ∅ demo_state))) as -> by (rewrite E; reflexivity).
  clear H E. split; [|split].
  - refine (eq_trans H1 _). vm_compute. reflexivity.
  - refine (eq_trans H2 _). vm_compute. reflexivity.
  - apply (bool_decide_eq_true_1 _). vm_compute. reflexivity.
Defined.

(** ** Endpoint groups *)

Lemma contains_spec l x : StronglySorted String.le l → contains l x = true ↔ x ∈ l.
Proof. intros H. unfold contains, found_at. rewrite bool_decide_eq_true. by apply SearchStrings_found. Qed.

Lemma sort_strs_perm l : sort_strs l ≡ₚ l.
Proof. apply merge_sort_Permutation. Qed.

Lemma sorted_remove (l1 l2 : list string) x : StronglySorted String.le (l1 ++ x :: l2) → StronglySorted String.le (l1 ++ l2).
Proof.
  induction l1 as [|y l1 IH]; simpl; inversion 1 as [|? ? Hs Hf]; subst; [done|]. constructor; [by apply IH|].
  apply Forall_app in Hf as [H1 H2]. inversion H2; subst. by apply Forall_app.
Qed.

Lemma sorted_snoc (l : list string) z : StronglySorted String.le l → Forall (λ y, String.le y z) l → StronglySorted String.le (l ++ [z]).
Proof.
  induction 1 as [|y l Hs IH Hf]; intros Hz; simpl; [by repeat constructor|]. inversion Hz; subst. constructor; [by apply IH|].
  apply Forall_app. split; [done|by repeat constructor].
Qed.

(** Removing from a sorted slice keeps it sorted and drops at most the element
    itself. *)
Lemma removeSlice_spec l x :
  StronglySorted String.le l →
  StronglySorted String.le (removeSlice l x) ∧ (∀ y, y ∈ removeSlice l x → y ∈ l) ∧ (∀ y, y ∈ l → y ≠ x → y ∈ removeSlice l x).
Proof.
  intros Hs. unfold removeSlice, found_at. case_bool_decide as E; [|done]. set (i := SearchStrings l x) in *. clearbody i.
  assert (l = take i l ++ x :: drop (S i) l)%list as Hl by (symmetry; by apply take_drop_middle).
  set (l1 := take i l) in *. set (l2 := drop (S i) l) in *. clearbody l1 l2. subst l.
  destruct (decide (l2 = [])) as [->|Hne].
  - replace (drop (length (l1 ++ [x]) - 1) (l1 ++ [x]))%list with [x]; [simpl; set_solver|].
    rewrite length_app. simpl. rewrite Nat.add_sub. by rewrite drop_app_length.
  - destruct (exists_last Hne) as (l3&z&->).
    assert (drop (length (l1 ++ x :: l3 ++ [z]) - 1) (l1 ++ x :: l3 ++ [z]) = [z])%list as ->.
    { rewrite length_app. simpl. rewrite length_app. simpl.
      replace (l1 ++ x :: l3 ++ [z])%list with ((l1 ++ x :: l3) ++ [z])%list by by rewrite <- (assoc_L (++)%list).
      apply drop_app_length'. rewrite length_app. simpl. lia. }
    split; [|set_solver]. rewrite (assoc_L (++)%list). apply sorted_snoc; [by apply (sorted_remove _ _ x)|].
    apply Forall_forall. intros y Hy. apply sorted_remove in Hs. rewrite (assoc_L (++)%list) in Hs, Hy.
    apply elem_of_app in Hy as [Hy|Hy]; [|apply list_elem_of_singleton in Hy as ->; reflexivity].
    apply list_elem_of_lookup_1 in Hy as [j Hj]. eapply (sorted_lookup_le _ j (length (l1 ++ l3))); [exact Hs| | |].
    + apply lookup_lt_Some in Hj. lia.
    + by apply lookup_app_l_Some.
    + by rewrite list_lookup_middle.
Qed.

Lemma split_skip sep p x : split_str sep (String.length p) (p ++ x) = split_str sep 0 x.
Proof. induction p as [|c p IH]; simpl; [done|exact IH]. Qed.

Lemma split_none sep x : Contains x sep = false → split_str sep 0 x = [x].
Proof.
  unfold Contains. induction x as [|c x IH]; intros H; [done|]. cbn [split_str]. cbn [String.index] in H.
  destruct (String.prefix sep (String c x)) eqn:E; [done|]. rewrite IH; [done|]. by destruct (String.index 0 sep x).
Qed.

Lemma prefix_self p x : String.prefix p (p ++ x) = true.
Proof. induction p as [|c p IH]; simpl; [by destruct x|]. by destruct (ascii_dec c c). Qed.

Lemma remove_char_last c x : none (Ascii.eqb c) x = true → remove_char c (x ++ String c EmptyString) = x.
Proof.
  induction x as [|d x IH]; simpl; [by rewrite Ascii.eqb_refl|]. rewrite andb_true_iff, negb_true_iff. intros [Hd Hx].
  rewrite Ascii.eqb_sym, Hd. f_equal. by apply IH.
Qed.

Section Epgs.
Context (cfg : CtlCfg).

Definition eppd_prefix : string :=
  "uni/vmmp-" ++ vmmDomainProvider (cc_np cfg) ++ "/dom-" ++ NetPol.AciVmmDomain (cc_np cfg) ++ "/eppd-[".

(** The DN that the APIC gives the deployment of an endpoint group to the VMM
    domain; the DN of the group has no bracket and does not repeat the
    prefix. *)
Definition eppd (epgDn : string) : string := eppd_prefix ++ epgDn ++ "]".
Definition plain_dn (epgDn : string) : bool := none (Ascii.eqb "]") epgDn && negb (Contains (epgDn ++ "]") eppd_prefix).

Lemma getEpgFromEppd_eppd x : plain_dn x = true → getEpgFromEppd cfg (eppd x) = Some x.
Proof.
  unfold plain_dn. rewrite andb_true_iff, negb_true_iff. intros [Hb Hc]. unfold getEpgFromEppd. fold eppd_prefix.
  unfold Split, eppd. destruct eppd_prefix as [|c p] eqn:Ep; [discriminate|].
  change (String c p ++ x ++ "]") with (String c (p ++ (x ++ "]"))). cbn [split_str].
  change (String c (p ++ (x ++ "]"))) with (String c p ++ (x ++ "]")). rewrite prefix_self.
  replace (String.length (String c p) - 1)%nat with (String.length p) by (simpl; lia). rewrite split_skip, split_none by done.
  simpl. by rewrite remove_char_last.
Qed.

(** What the subscription reports: a group that is new or changed, and one
    that is gone. *)
Inductive epg_event := EpgSeen (obj : ApicObject) (epgDn : string) | EpgGone (epgDn : string).
Definition epg_ok (e : epg_event) : Prop :=
  match e with
  | EpgSeen obj x => GetAttrStr obj "dn" = eppd x ∧ plain_dn x = true
  | EpgGone x => plain_dn x = true
  end.

Fixpoint epg_run (evs : list epg_event) (s : CtlState) : option CtlState :=
  match evs with
  | [] => Some s
  | EpgSeen obj _ :: evs => s ← vmmEpPDChanged cfg obj s; epg_run evs s
  | EpgGone x :: evs => s ← vmmEpPDDeleted cfg (eppd x) s; epg_run evs s
  end.

(** The groups that exist, and those that have ever existed. *)
Definition epg_live (live : gset string) (e : epg_event) : gset string :=
  match e with EpgSeen _ x => {[x]} ∪ live | EpgGone x => live ∖ {[x]} end.
Definition epg_seen (seen : gset string) (e : epg_event) : gset string :=
  match e with EpgSeen _ x => {[x]} ∪ seen | EpgGone _ => seen end.

Definition cache_inv (live seen : gset string) (s : CtlState) : Prop :=
  StronglySorted String.le (cachedEpgDns s) ∧ (∀ x, x ∈ live → x ∈ cachedEpgDns s) ∧ (∀ x, x ∈ cachedEpgDns s → x ∈ seen).

Lemma epg_run_inv evs live seen s :
  Forall epg_ok evs → cache_inv live seen s →
  ∃ s', epg_run evs s = Some s' ∧ cache_inv (foldl epg_live live evs) (foldl epg_seen seen evs) s' ∧
    cs_effects s' = cs_effects s.
Proof.
  intros Hok. revert live seen s. induction Hok as [|e evs He _ IH]; intros live seen s Hi; [by exists s|].
  destruct Hi as (Hs&Hl&Hc). destruct e as [obj x|x]; simpl in He |- *.
  - destruct He as [Hdn Hx]. unfold vmmEpPDChanged. rewrite Hdn, getEpgFromEppd_eppd by done. cbn [mbind option_bind].
    match goal with |- context [epg_run evs ?s1] => destruct (IH ({[x]} ∪ live) ({[x]} ∪ seen) s1) as (s'&E&Hi&Hf); [|by exists s'] end.
    assert (∀ y, y ∈ sort_strs (if contains (cachedEpgDns s) x then cachedEpgDns s else (cachedEpgDns s ++ [x])%list) ↔ y = x ∨ y ∈ cachedEpgDns s) as Hin.
    { intros y. rewrite sort_strs_perm. destruct (contains _ x) eqn:Ec; [apply contains_spec in Ec; [set_solver|done]|set_solver]. }
    split; [apply (StronglySorted_merge_sort String.le)|]. split; simpl; intros y; rewrite Hin; set_solver.
  - unfold vmmEpPDDeleted. rewrite getEpgFromEppd_eppd by done. cbn [mbind option_bind].
    match goal with |- context [epg_run evs ?s1] => destruct (IH (live ∖ {[x]}) seen s1) as (s'&E&Hi&Hf) end.
    + destruct (contains (cachedEpgDns s) x); [|split; [done|split; [set_solver|done]]].
      destruct (removeSlice_spec (cachedEpgDns s) x Hs) as (H1&H2&H3). split; [done|]. simpl. split; [set_solver|eauto].
    + exists s'. split; [done|]. split; [done|]. rewrite Hf. by destruct (contains _ x).
Qed.
End Epgs.

Definition group_dn (g : OpflexGroup) : string := "uni/tn-" ++ Tenant g ++ "/ap-" ++ AppProfile g ++ "/epg-" ++ og_Name g.

(** C22: An annotation that names an existing endpoint group raises no fault.  Start with an empty cache of groups, and take any sequence of reports about endpoint groups of the VMM domain, whose DNs have no bracket and do not repeat the prefix of the domain.  Then the handlers of the reports return, and for an annotation that can be read and names a tenant, an application profile and a group: if the group exists at the end (it was reported and not deleted since), handleEpgAnnotationUpdate clears the fault of the key and asks for no other; if the group was never reported, and some group exists at the end, it raises the fault, with the code it was called with.  Nothing is said of a group that was deleted, or when no group exists: with an empty cache the code raises no fault. *)
Theorem epg_no_false_fault cfg evs s key fc sev entity text g :
  cachedEpgDns s = [] → Forall (epg_ok cfg) evs →
  text ≠ EmptyString → Unmarshal_group text = Some g → Tenant g ≠ EmptyString → AppProfile g ≠ EmptyString → og_Name g ≠ EmptyString →
  let live := foldl epg_live ∅ evs in
  ∃ s', epg_run cfg evs s = Some s' ∧
    (group_dn g ∈ live → handleEpgAnnotationUpdate cfg key fc sev entity text s' = Some (c_emit [CClear key] s', false)) ∧
    (group_dn g ∉ foldl epg_seen ∅ evs → live ≠ ∅ →
     ∃ o, fault_object cfg fc sev entity g = Some o ∧
       handleEpgAnnotationUpdate cfg key fc sev entity text s' =
         Some (c_emit [if (fc =? nsFaultCode)%Z then CWriteContainer key [o] else CWrite key [o]] s', true)).
Proof.
  intros Hs0 Hok Htext Hg Ht Ha Hn live.
  destruct (epg_run_inv cfg evs ∅ ∅ s Hok) as (s'&E&(Hs&Hl&Hc)&_).
  { split_and!; rewrite Hs0; [constructor|set_solver|set_solver]. }
  exists s'. split; [done|].
  assert (∀ y, y ∈ cachedEpgDns s' → checkEpgCache text s' = if contains (cachedEpgDns s') (group_dn g) then (true, g, false) else (false, g, true)) as Hcheck.
  { intros y Hy. unfold checkEpgCache. destruct (Nat.eqb_spec (String.length text) 0) as [H0|_]; [exfalso; destruct text; [by apply Htext|discriminate]|].
    rewrite Hg, !(proj2 (String.eqb_neq _ _)) by done. simpl.
    destruct (cachedEpgDns s') as [|z l] eqn:El; [by apply elem_of_nil in Hy|]. reflexivity. }
  unfold handleEpgAnnotationUpdate. split.
  - intros Hlive. rewrite (Hcheck _ (Hl _ Hlive)). by rewrite (proj2 (contains_spec _ _ Hs) (Hl _ Hlive)).
  - intros Hnew Hne. apply set_choose_L in Hne as [y Hy]. rewrite (Hcheck _ (Hl _ Hy)).
    destruct (contains (cachedEpgDns s') (group_dn g)) eqn:Ec; [apply contains_spec in Ec; [by apply Hc in Ec|done]|].
    destruct (fault_object_tree cfg fc sev entity g) as (o&Eo&_). exists o. split; [done|]. by rewrite Eo.
Qed.

(** ** ERSPAN *)

(** The endpoints that a source names. *)
Definition source_dns (src : ApicObject) : list string := (λ r, GetAttrStr r "tDn") <$> Children src.
Definition group_dns (grp : ApicObject) : list string := flat_map source_dns (Children grp).

Section Erspan.
Context (cfg : CtlCfg).

Lemma NewSpanRsSrcToVPort_made p t :
  made "spanRsSrcToVPort" (p ++ "/rssrcToVPort-[" ++ t ++ "]") [("tDn", t)] (NewSpanRsSrcToVPort p t).
Proof. made_by NewSpanRsSrcToVPort. Qed.

Lemma span_source_spec labelKey dir grpDn ep :
  ∃ src, span_source cfg labelKey dir grpDn ep = Some src ∧ class src = "spanVSrc" ∧ typed src ∧
    (∃ rn, GetDn src = grpDn ++ "/" ++ rn) ∧ source_dns src = [fvCEpDn cfg ep].
Proof.
  unfold span_source. set (name := labelKey ++ _). set (t := fvCEpDn cfg ep). clearbody name t.
  assert (tree_under "spanVSrc" grpDn (NewSpanVSrc grpDn name)) as (src&E&C&T&Hu) by plain_under.
  assert (made "spanVSrc" (grpDn ++ "/vsrc-" ++ name) [] (NewSpanVSrc grpDn name)) as (src'&E'&_&_&Hch&_) by made_by NewSpanVSrc.
  rewrite E in E'. injection E' as <-. rewrite E. cbn [mbind option_bind]. rewrite SetAttr_dn by discriminate.
  assert (tree_under "spanRsSrcToVPort" (GetDn src) (NewSpanRsSrcToVPort (GetDn src) t)) as (r&Er&Cr&Tr&Hr) by plain_under.
  destruct (NewSpanRsSrcToVPort_made (GetDn src) t) as (r'&Er'&_&_&_&Ha).
  rewrite Er in Er'. injection Er' as <-. apply (proj1 (Forall_singleton _ _)) in Ha. change (GetAttrStr r "tDn" = t) in Ha. rewrite Er. cbn [mbind option_bind].
  eexists. split; [reflexivity|]. rewrite class_AddChild, class_SetAttr. split; [exact C|]. split.
  - apply typed_AddChild; [apply typed_SetAttr; [discriminate|exact T]|exact Tr|rewrite class_SetAttr, C, Cr; child_class|].
    rewrite SetAttr_dn by discriminate. exact Hr.
  - rewrite AddChild_dn, SetAttr_dn by discriminate. split; [exact Hu|].
    unfold source_dns. rewrite AddChild_children, SetAttr_children, Hch. cbn [app fmap list_fmap]. by rewrite Ha.
Qed.

Lemma span_sources_spec labelKey dir eps keys grp :
  class grp = "spanVSrcGrp" → typed grp →
  ∃ grp', span_sources cfg labelKey dir eps keys grp = Some grp' ∧ class grp' = "spanVSrcGrp" ∧ typed grp' ∧ GetDn grp' = GetDn grp ∧
    group_dns grp' = (group_dns grp ++ omap (λ k, fvCEpDn cfg <$> eps !! k) keys)%list.
Proof.
  revert grp. induction keys as [|k keys IH]; intros grp C T; simpl.
  { exists grp. split; [done|]. split; [done|]. split; [exact T|]. split; [done|]. by rewrite app_nil_r. }
  destruct (eps !! k) as [ep|]; simpl; [|by apply IH].
  destruct (span_source_spec labelKey dir (GetDn grp) ep) as (src&->&Cs&Ts&Hu&Hd). cbn [mbind option_bind].
  destruct (IH (AddChild grp src)) as (grp'&E&C'&T'&Hdn&Hg).
  { by rewrite class_AddChild. }
  { apply typed_AddChild; [exact T|exact Ts|rewrite C, Cs; child_class|exact Hu]. }
  exists grp'. split; [exact E|]. split; [exact C'|]. split; [exact T'|]. rewrite Hdn, AddChild_dn. split; [done|].
  rewrite Hg. unfold group_dns at 1. rewrite AddChild_children, flat_map_app. simpl. rewrite Hd, app_nil_r, <- (assoc_L (++)%list). done.
Qed.

Lemma span_destination_tree labelKey span : tree "spanVDestGrp" (span_destination labelKey span).
Proof.
  unfold span_destination.
  assert (tree "spanVDestGrp" (NewSpanVDestGrp labelKey)) as (grp&->&Cg&Tg) by plain_tree. cbn [mbind option_bind].
  assert (tree_under "spanVDest" (GetDn grp) (NewSpanVDest (GetDn grp) (labelKey ++ "_Dest"))) as (dest&->&Cd&Td&Hd) by plain_under.
  cbn [mbind option_bind].
  assert (tree_under "spanVEpgSummary" (GetDn dest) (NewSpanVEpgSummary (GetDn dest))) as (sum&->&Cs&Ts&Hs) by plain_under.
  cbn [mbind option_bind]. eexists. split; [reflexivity|]. rewrite class_AddChild. split; [exact Cg|].
  apply typed_AddChild; [exact Tg| |rewrite class_AddChild, Cg, Cd; child_class|by rewrite AddChild_dn].
  apply typed_AddChild; [exact Td|attr_typed; exact Ts|rewrite !class_SetAttr, Cd, Cs; child_class|by rewrite !SetAttr_dn by discriminate].
Qed.

Lemma span_bindings_typed src dest labelKey ports :
  (∀ p l, ∃ o, src p l = Some o ∧ typed o) → (∀ p l, ∃ o, dest p l = Some o ∧ typed o) →
  ∃ l, span_bindings src dest labelKey ports = Some l ∧ Forall typed l.
Proof.
  intros Hs Hd. unfold span_bindings. induction ports as [|p ports IH]; [by exists []|]. cbn [mapM].
  destruct (Hs p labelKey) as (a&Ea&Ta), (Hd p labelKey) as (b&Eb&Tb). rewrite Ea. cbn [mbind option_bind]. rewrite Eb. cbn [mbind option_bind].
  destruct IH as (l&E&Tl). apply bind_Some in E as (ls&El&[= <-]). rewrite El. cbn [mbind option_bind].
  eexists. split; [reflexivity|]. simpl. apply Forall_cons. split; [exact Ta|]. apply Forall_cons. by split.
Qed.

Lemma plain_typed cl r : tree cl r → ∃ o, r = Some o ∧ typed o.
Proof. intros (o&E&_&T). by exists o. Qed.

(** The objects of a session, typed, with the endpoints of their sources. *)
Lemma buildErspanObjs_spec now span s :
  ∃ s' grp rest, buildErspanObjs cfg now span s = Some (s', grp :: rest) ∧ Forall typed (grp :: rest) ∧
    group_dns grp = omap (λ k, fvCEpDn cfg <$> podIftoEp s !! k) (elements (GetPodForObj (erspanPolPods s) (es_key span))).
Proof.
  unfold buildErspanObjs. set (labelKey := aciNameForKey _ _ _). clearbody labelKey.
  assert (tree "spanVSrcGrp" (NewSpanVSrcGrp labelKey)) as (g0&E0&C0&T0) by plain_tree.
  assert (made "spanVSrcGrp" ("uni/infra/vsrcgrp-" ++ labelKey) [] (NewSpanVSrcGrp labelKey)) as (g0'&E0'&_&_&Hch&_) by made_by NewSpanVSrcGrp.
  rewrite E0 in E0'. injection E0' as <-. rewrite E0. cbn [mbind option_bind].
  destruct (span_sources_spec labelKey (es_Direction span) (podIftoEp s) (elements (GetPodForObj (erspanPolPods s) (es_key span)))
    (SetAttr g0 "adminSt" (AStr (es_AdminState span)))) as (g1&->&C1&T1&Hdn&Hg).
  { by rewrite class_SetAttr. }
  { apply typed_SetAttr; [discriminate|exact T0]. }
  cbn [mbind option_bind]. destruct (span_destination_tree labelKey span) as (dst&->&_&Td). cbn [mbind option_bind].
  destruct (getVpcs now _) as [devs vpcs].
  destruct (span_bindings_typed NewInfraRsSpanVSrcGrp NewInfraRsSpanVDestGrp labelKey vpcs) as (b1&->&Tb1).
  { intros p l. apply (plain_typed "infraRsSpanVSrcGrp"). plain_tree. }
  { intros p l. apply (plain_typed "infraRsSpanVDestGrp"). plain_tree. }
  cbn [mbind option_bind]. destruct (getAccLeafPorts now devs) as [devs' ports].
  destruct (span_bindings_typed NewInfraRsSpanVSrcGrpAP NewInfraRsSpanVDestGrpAP labelKey ports) as (b2&->&Tb2).
  { intros p l. apply (plain_typed "infraRsSpanVSrcGrp"). plain_tree. }
  { intros p l. apply (plain_typed "infraRsSpanVDestGrp"). plain_tree. }
  cbn [mbind option_bind].
  assert (tree_under "spanSpanLbl" (GetDn g1) (NewSpanSpanLbl (GetDn g1) labelKey)) as (lbl&El&Cl&Tl&Hl) by plain_under.
  assert (made "spanSpanLbl" (GetDn g1 ++ "/spanlbl-" ++ labelKey) [] (NewSpanSpanLbl (GetDn g1) labelKey)) as (lbl'&El'&_&_&Hlc&_) by made_by NewSpanSpanLbl.
  rewrite El in El'. injection El' as <-. rewrite El. cbn [mbind option_bind].
  eexists _, _, _. split; [reflexivity|]. split.
  - apply Forall_cons. split; [apply typed_AddChild; [exact T1|exact Tl|rewrite C1, Cl; child_class|exact Hl]|].
    apply Forall_cons. split; [exact Td|]. apply Forall_app. split; [exact Tb1|exact Tb2].
  - unfold group_dns. rewrite AddChild_children, flat_map_app. fold (group_dns g1). rewrite Hg. unfold group_dns, source_dns at 2.
    rewrite SetAttr_children, Hch. simpl. unfold source_dns. by rewrite Hlc, app_nil_r.
Qed.
End Erspan.

Lemma podIftoEp_added podifs s pif :
  NoDup (getPodifKey <$> podifs) → pif ∈ podifs → podIftoEp (nodePodIFAdded podifs s) !! getPodifKey pif = Some (podifdata pif).
Proof.
  unfold nodePodIFAdded. cbn [podIftoEp set_podIftoEp]. generalize (podIftoEp s).
  induction podifs as [|q podifs IH]; intros m Hnd Hin; [by apply elem_of_nil in Hin|]. cbn [foldl].
  rewrite fmap_cons in Hnd. apply NoDup_cons in Hnd as [Hq Hnd]. apply elem_of_cons in Hin as [->|Hin]; [|by apply IH].
  clear IH Hnd. revert m Hq. induction podifs as [|r podifs IH]; intros m Hq; cbn [foldl]; [by rewrite lookup_insert_eq|].
  rewrite fmap_cons, not_elem_of_cons in Hq. destruct Hq as [Hne Hq]. rewrite insert_insert_ne by done. by apply IH.
Qed.

(** The endpoint group of an endpoint file, read back. *)
Lemma podif_group api e pif app name :
  podif_of api e = Some pif → EndpointGroup e = app ++ "|" ++ name → none (Ascii.eqb "|") app = true → none (Ascii.eqb "|") name = true →
  getPodifAppProfile pif = app ∧ getPodifEPG pif = name ∧ MacAddr pif = MacAddress e.
Proof.
  unfold podif_of. intros Hp He Ha Hn. apply bind_Some in Hp as (ip&_&[= <-]). unfold getPodifAppProfile, getPodifEPG. cbn [EPG MacAddr].
  rewrite He. change (app ++ "|" ++ name) with (app ++ String "|" name). rewrite split_on_none, split_on_all by done. done.
Qed.

(** C23: The sources of an ERSPAN session are the endpoints of the pods that it selects.  After the controller learned the interfaces that a node publishes, each for another pod, the objects of a session are built; the endpoints that its sources name are exactly those of the selected pods with a known interface.  In particular, for an interface that the host agent published for an endpoint of the group [name] in the application profile [app], of a pod that the session selects, the source names the DN of that endpoint in the policy tenant. *)
Theorem erspan_sources cfg now span s podifs :
  NoDup (getPodifKey <$> podifs) →
  let s1 := nodePodIFAdded podifs s in
  let selected := GetPodForObj (erspanPolPods s) (es_key span) in
  ∃ s' grp rest, buildErspanObjs cfg now span s1 = Some (s', grp :: rest) ∧
    (∀ dn, dn ∈ group_dns grp ↔ ∃ pod ep, pod ∈ selected ∧ podIftoEp s1 !! pod = Some ep ∧ dn = fvCEpDn cfg ep) ∧
    ∀ api e pif app name,
      pif ∈ podifs → podif_of api e = Some pif → EndpointGroup e = app ++ "|" ++ name →
      none (Ascii.eqb "|") app = true → none (Ascii.eqb "|") name = true → getPodifKey pif ∈ selected →
      ("uni/tn-" ++ NetPol.AciPolicyTenant (cc_np cfg) ++ "/ap-" ++ app ++ "/epg-" ++ name ++ "/cep-" ++ ToUpper (MacAddress e)) ∈ group_dns grp.
Proof.
  intros Hnd s1 selected. destruct (buildErspanObjs_spec cfg now span s1) as (s'&grp&rest&E&_&Hg).
  assert (∀ dn, dn ∈ group_dns grp ↔ ∃ pod ep, pod ∈ selected ∧ podIftoEp s1 !! pod = Some ep ∧ dn = fvCEpDn cfg ep) as Hdn.
  { intros dn. rewrite Hg, list_elem_of_omap. change (erspanPolPods s1) with (erspanPolPods s). fold selected. split.
    - intros (pod&Hin&Hd). apply elem_of_elements in Hin. apply fmap_Some in Hd as (ep&Hep&->). eauto.
    - intros (pod&ep&Hin&Hep&->). exists pod. split; [by apply elem_of_elements|]. by rewrite Hep. }
  exists s', grp, rest. split; [exact E|]. split; [exact Hdn|].
  intros api e pif app name Hin Hp He Ha Hn Hsel. apply Hdn. exists (getPodifKey pif), (podifdata pif). split; [exact Hsel|].
  split; [by apply podIftoEp_added|]. destruct (podif_group api e pif app name Hp He Ha Hn) as (H1&H2&H3).
  unfold fvCEpDn, podifdata. cbn [ed_AppProfile ed_EPG ed_MacAddr]. by rewrite H1, H2, H3.
Qed.

(** ** Types *)

Section PolicyTypes.
Context (cfg : CtlCfg).

Lemma dpp_pol_tree name p : tree "qosDppPol" (dpp_pol cfg name p).
Proof.
  unfold dpp_pol. assert (tree "qosDppPol" (NewQosDppPol (NetPol.AciPolicyTenant (cc_np cfg)) name)) as (o&->&C&T) by plain_tree.
  cbn [mbind option_bind]. eexists. split; [reflexivity|]. rewrite !class_SetAttr. split; [exact C|]. attr_typed. exact T.
Qed.

Lemma qosPolObjs_typed q : ∃ l, qosPolObjs cfg q = Some l ∧ Forall typed l.
Proof.
  unfold qosPolObjs. set (key := aciNameForKey _ _ _). clearbody key. set (tn := NetPol.AciPolicyTenant _).
  assert (tree "qosRequirement" (NewQosRequirement tn key)) as (qr&->&C&T) by plain_tree. cbn [mbind option_bind].
  assert (tree_under "qosEpDscpMarking" (GetDn qr) (NewQosEpDscpMarking (GetDn qr) "EpDscpMarking")) as (m&->&Cm&Tm&Hm) by plain_under.
  cbn [mbind option_bind]. set (qr1 := AddChild qr _).
  assert (class qr1 = "qosRequirement" ∧ GetDn qr1 = GetDn qr ∧ typed qr1) as (C1&D1&T1).
  { unfold qr1. rewrite class_AddChild, AddChild_dn. split; [exact C|]. split; [done|].
    apply typed_AddChild; [exact T|attr_typed; exact Tm|rewrite class_SetAttr, C, Cm; child_class|by rewrite SetAttr_dn by discriminate]. }
  clearbody qr1.
  assert (∃ qr2 l2, (if policed (qo_Ingress q) then pol ← dpp_pol cfg (key ++ "_ingress") (qo_Ingress q);
      rs ← NewRsIngressDppPol (GetDn qr) (key ++ "_ingress"); Some (AddChild qr1 rs, [pol]) else Some (qr1, [])) = Some (qr2, l2) ∧
    class qr2 = "qosRequirement" ∧ GetDn qr2 = GetDn qr ∧ typed qr2 ∧ Forall typed l2) as (qr2&l2&->&C2&D2&T2&L2).
  { destruct (policed _); [|exists qr1, []; split; [done|]; split; [exact C1|]; split; [exact D1|]; split; [exact T1|constructor]].
    destruct (dpp_pol_tree (key ++ "_ingress") (qo_Ingress q)) as (pol&->&_&Tp). cbn [mbind option_bind].
    assert (tree_under "qosRsIngressDppPol" (GetDn qr) (NewRsIngressDppPol (GetDn qr) (key ++ "_ingress"))) as (rs&->&Cr&Tr&Hr) by plain_under.
    cbn [mbind option_bind]. eexists _, _. split; [reflexivity|]. rewrite class_AddChild, AddChild_dn. split; [exact C1|]. split; [exact D1|].
    split; [|by apply Forall_singleton]. apply typed_AddChild; [exact T1|exact Tr|rewrite C1, Cr; child_class|by rewrite D1]. }
  cbn [mbind option_bind fst snd].
  assert (∃ qr3 l3, (if policed (qo_Egress q) then pol ← dpp_pol cfg (key ++ "_egress") (qo_Egress q);
      rs ← NewRsEgressDppPol (GetDn qr) (key ++ "_egress"); Some (AddChild qr2 rs, [pol]) else Some (qr2, [])) = Some (qr3, l3) ∧
    typed qr3 ∧ Forall typed l3) as (qr3&l3&->&T3&L3).
  { destruct (policed _); [|exists qr2, []; split; [done|]; split; [exact T2|constructor]].
    destruct (dpp_pol_tree (key ++ "_egress") (qo_Egress q)) as (pol&->&_&Tp). cbn [mbind option_bind].
    assert (tree_under "qosRsEgressDppPol" (GetDn qr) (NewRsEgressDppPol (GetDn qr) (key ++ "_egress"))) as (rs&->&Cr&Tr&Hr) by plain_under.
    cbn [mbind option_bind]. eexists _, _. split; [reflexivity|].
    split; [|by apply Forall_singleton]. apply typed_AddChild; [exact T2|exact Tr|rewrite C2, Cr; child_class|by rewrite D2]. }
  cbn [mbind option_bind fst snd]. eexists. split; [reflexivity|]. apply Forall_cons. split; [exact T3|]. apply Forall_app. split; [exact L2|exact L3].
Qed.

Lemma netflowPolObjs_typed n : ∃ l, netflowPolObjs cfg n = Some l ∧ Forall typed l.
Proof.
  unfold netflowPolObjs. set (key := aciNameForKey _ _ _). clearbody key.
  assert (tree "netflowVmmExporterPol" (NewNetflowVmmExporterPol key)) as (nf&->&C&T) by plain_tree. cbn [mbind option_bind].
  set (prov := vmmDomainProvider _). set (dom := NetPol.AciVmmDomain _).
  assert (tree "vmmVSwitchPolicyCont" (NewVmmVSwitchPolicyCont prov dom)) as (v&->&Cv&Tv) by plain_tree. cbn [mbind option_bind].
  assert (tree_under "vmmRsVswitchExporterPol" (GetDn v) (NewVmmRsVswitchExporterPol (GetDn v) (GetDn nf))) as (rs&->&Cr&Tr&Hr) by plain_under.
  cbn [mbind option_bind]. eexists. split; [reflexivity|]. apply Forall_cons. split.
  - destruct (String.eqb _ "netflow"); [attr_typed; exact T|]. destruct (String.eqb _ "ipfix"); attr_typed; exact T.
  - apply Forall_singleton. apply typed_AddChild; [exact Tv|attr_typed; exact Tr|rewrite !class_SetAttr, Cv, Cr; child_class|].
    rewrite !SetAttr_dn by discriminate. exact Hr.
Qed.
End PolicyTypes.

(** Every object that is written for a QoS policy, a netflow policy, an ERSPAN session or a fault is a typed tree, in which each class has metadata with all its compared attributes set, each child is of a class that the metadata lists below its parent's class and has a DN that extends its parent's; the constructors never panic.  Pods, deployments, replica sets and namespaces are always written, and typed where no labels are added. *)
Theorem ctl_objects_typed cfg now q n span s fc sev entity g p d r ns :
  (∃ l, qosPolObjs cfg q = Some l ∧ Forall typed l) ∧ (∃ l, netflowPolObjs cfg n = Some l ∧ Forall typed l) ∧
  (∃ s' l, buildErspanObjs cfg now span s = Some (s', l) ∧ Forall typed l) ∧
  (∃ o, fault_object cfg fc sev entity g = Some o ∧ typed o) ∧
  (∃ op od orr on, pod_object cfg p = Some op ∧ dep_object cfg d = Some od ∧ rs_object cfg r = Some orr ∧ ns_object cfg ns = Some on ∧
     (cc_EnableVmmInjectedLabels cfg = false → typed op ∧ typed od ∧ typed orr ∧ typed on)).
Proof.
  split; [apply qosPolObjs_typed|]. split; [apply netflowPolObjs_typed|]. split; [|split].
  - destruct (buildErspanObjs_spec cfg now span s) as (s'&grp&rest&E&T&_). exists s', (grp :: rest). split; [exact E|exact T].
  - destruct (fault_object_tree cfg fc sev entity g) as (o&E&_&T). exists o. split; [exact E|exact T].
  - destruct (pod_object_labelled cfg p) as (op&E1&T1), (dep_object_labelled cfg d) as (od&E2&T2),
      (rs_object_labelled cfg r) as (orr&E3&T3), (ns_object_labelled cfg ns) as (on&E4&T4).
    exists op, od, orr, on. repeat (split; [assumption|]). intros Hl.
    split; [apply (T1 Hl)|]. split; [apply (T2 Hl)|]. split; [apply (T3 Hl)|apply (T4 Hl)].
Qed.

(** ** Witnesses *)

Definition seen (x : string) : epg_event :=
  EpgSeen (SetAttr (Obj "vmmEpPD" EmptyString ∅ []) "dn" (AStr (eppd demo_ctl x))) x.
Definition gone (x : string) : epg_event := EpgGone x.
Definition demo_annotation : string := dq "{'tenant':'t','app-profile':'a','name':'web'}".
Definition demo_group : OpflexGroup := mkGroup "t" EmptyString "a" "web".

Lemma epg_no_false_fault_witness :
  ∃ s', epg_run demo_ctl [seen "uni/tn-t/ap-a/epg-db"; seen "uni/tn-t/ap-a/epg-web"; gone "uni/tn-t/ap-a/epg-db"] demo_state = Some s' ∧
    handleEpgAnnotationUpdate demo_ctl "k" podFaultCode major "p" demo_annotation s' = Some (c_emit [CClear "k"] s', false).
Proof.
  destruct (epg_no_false_fault demo_ctl [seen "uni/tn-t/ap-a/epg-db"; seen "uni/tn-t/ap-a/epg-web"; gone "uni/tn-t/ap-a/epg-db"] demo_state "k" podFaultCode major "p"
    demo_annotation demo_group) as (s'&E&H&_); [reflexivity| |discriminate|vm_compute; reflexivity|discriminate|discriminate|discriminate|].
  - repeat (apply Forall_cons; split; [first [split; vm_compute; reflexivity|vm_compute; reflexivity]|]). apply Forall_nil_2.
  - exists s'. split; [exact E|]. apply H. apply (bool_decide_eq_true_1 _). vm_compute. reflexivity.
Defined.

Definition demo_span : ErspanPolicy := mkErspan "web" "trace" {["app" := "shop"]} "web" "start" "both" "1.1.1.1" 1.
Definition demo_stores : CtlStores := mkCtlStores {["web/a" := demo_pod "a" "10.0.0.1" "n1"]} {["web" := demo_ns]} ∅ ∅ {["web/trace" := demo_span]}.
Definition demo_podifs : list PodIF :=
  [mkPodIF "web" "a" "c1" "0a:58:00:00:00:01" "10.0.0.1/32" "shop|front" "10.1.1.1" "veth1";
   mkPodIF "web" "b" "c2" "0a:58:00:00:00:02" "10.0.0.2/32" "shop|front" "10.1.1.1" "veth2"].

Lemma erspan_sources_witness :
  ∃ s' grp rest, buildErspanObjs demo_ctl 0 demo_span (nodePodIFAdded demo_podifs (erspanPolicyUpdated demo_stores demo_span demo_state)) =
    Some (s', grp :: rest) ∧ "uni/tn-common/ap-shop/epg-front/cep-0A:58:00:00:00:01" ∈ group_dns grp ∧
    "uni/tn-common/ap-shop/epg-front/cep-0A:58:00:00:00:02" ∉ group_dns grp.
Proof.
  destruct (erspan_sources demo_ctl 0 demo_span (erspanPolicyUpdated demo_stores demo_span demo_state) demo_podifs) as (s'&grp&rest&E&H&_).
  { apply (bool_decide_eq_true_1 _). vm_compute. reflexivity. }
  exists s', grp, rest. split; [exact E|]. rewrite !H.
  replace (GetPodForObj (erspanPolPods (erspanPolicyUpdated demo_stores demo_span demo_state)) (es_key demo_span)) with ({["web/a"]} : gset string)
    by (vm_compute; reflexivity). split.
  - exists "web/a", (mkEpData "0a:58:00:00:00:01" "front" "web" "shop"). split; [set_solver|]. split; vm_compute; reflexivity.
  - intros (pod&ep&Hin&Hep&Hdn). apply elem_of_singleton in Hin as ->. vm_compute in Hep. injection Hep as <-. vm_compute in Hdn. discriminate Hdn.
Defined.

(** ** Where the code does not do what it means to *)

Definition run_requests (l : list ctl_effect) (c : Conn) : option Conn := snd <$> forM l ctl_apply c.

(** The slice of the caller keeps its length: when the last group in the order
    of names is deleted, it stays in the cache, and an annotation that names it
    raises no fault. *)
Lemma last_epg_stays :
  cachedEpgDns <$> epg_run demo_ctl [seen "uni/tn-t/ap-a/epg-db"; seen "uni/tn-t/ap-a/epg-web"; gone "uni/tn-t/ap-a/epg-web"] demo_state =
    Some ["uni/tn-t/ap-a/epg-db"; "uni/tn-t/ap-a/epg-web"] ∧
  cachedEpgDns <$> epg_run demo_ctl [seen "uni/tn-t/ap-a/epg-db"; seen "uni/tn-t/ap-a/epg-web"; gone "uni/tn-t/ap-a/epg-db"] demo_state =
    Some ["uni/tn-t/ap-a/epg-web"; "uni/tn-t/ap-a/epg-web"].
Proof. split; vm_compute; reflexivity. Qed.

(** A pod whose notification comes before that of its namespace is not
    written; the handler of the namespace only queues it, and the handler of
    the queue does not write it. *)
Lemma pod_before_namespace :
  let p := demo_pod "a" "10.0.0.1" "n1" in
  match run demo_ctl [SetPod p; SetNs demo_ns] (empty_world ∅ ∅ demo_state) with
  | Some w => table (handlePodUpdate demo_ctl p (w_ctl w)) !! "kube_pod_web_a" = None ∧
              k_pods (w_st w) !! "web/a" = Some p ∧ CQueuePod "web/a" ∈ cs_effects (w_ctl w)
  | None => False
  end.
Proof. vm_compute. split; [reflexivity|]. split; [reflexivity|]. repeat constructor. Qed.

(** An egress rule for the pods of the namespaces with a label. *)
Definition egress_np : NetworkPolicy :=
  mkNp "db" "out" (mkLs ∅ []) [] [mkRule [] [mkPeer None (Some (mkLs {["team" := "b"]} [])) None]] (Some ["Egress"]).
Definition egress_stores (ns_labels : labels) : CtlStores :=
  mkCtlStores {["web/a" := demo_pod "a" "10.0.0.1" "n1"]} {["web" := mkCtlNs "web" ns_labels ∅]} ∅ {["db/out" := egress_np]} ∅.
Definition index_with (sel : NetworkPolicy → list (PodSelector (Selector := Selector))) (st : CtlStores) : np_index :=
  (UpdateSelectorObj Selector_Matches np_getKey sel (np_store st) egress_np NewPodSelectorIndex).1.1.
Abbreviation egress_index := (index_with egressPodSelector).

(** The handlers of namespaces leave the index of egress peers out: when a
    namespace gets the label of an egress rule, its pods do not become peers
    and the policy is not queued. *)
Lemma egress_peers_stale :
  let old := egress_stores {["team" := "a"]} in
  let new := egress_stores {["team" := "b"]} in
  let s := set_cs_np (set_egress (λ _, egress_index old) (set_ingress (λ _, index_with ingressPodSelector old) (cs_np demo_state))) demo_state in
  GetPodForObj (egress_index new) "db/out" = {["web/a"]} ∧
  (λ s, (GetPodForObj (netPolEgressPods (cs_np s)) "db/out", existsb (λ e, match e with CQueueNetPol _ => true | _ => false end) (cs_effects s))) <$>
    namespaceChanged demo_ctl new (mkCtlNs "web" {["team" := "a"]} ∅) (mkCtlNs "web" {["team" := "b"]} ∅) s = Some (∅, false).
Proof. split; vm_compute; reflexivity. Qed.

Definition annotated (name : string) (anns : gmap string string) : CtlPod :=
  mkCtlPod (mkPod "web" name ∅ "10.0.0.1" ["10.0.0.1"] []) "u1" "n1" false anns [].
Definition bad_annotation : gmap string string := {[EgAnnotation := demo_annotation]}.
Definition epg_world : World := empty_world ∅ ∅ (set_cachedEpgDns ["uni/tn-t/ap-a/epg-db"] demo_state).

(** A fault stays when the annotation that caused it is removed. *)
Lemma fault_outlives_annotation :
  (λ w, bool_decide (is_Some (table (w_ctl w) !! "kube_podfs_web_a"))) <$>
    run demo_ctl [SetNs demo_ns; SetPod (annotated "a" bad_annotation); SetPod (annotated "a" ∅)] epg_world = Some true.
Proof. vm_compute. reflexivity. Qed.

(** The faults of all pods have one DN: when the annotation of one pod is
    corrected, or the pod is deleted, the fault of the others is deleted on the
    APIC too. *)
Lemma faults_share_a_dn :
  (w ← run demo_ctl [SetNs demo_ns; SetPod (annotated "a" bad_annotation); SetPod (annotated "b" bad_annotation); DelPod "web/a" false] epg_world;
   c ← run_requests (cs_effects (w_ctl w)) (New_connection "kube" "5.2");
   Some (bool_decide (is_Some (desiredState c !! "kube_podfs_web_b")),
         bool_decide (is_Some (desiredStateDn c !! "comp/prov-Kubernetes/ctrlr-[kube]-kube/injcont/info/clusterfaultinfo-10")))) = Some (true, false).
Proof. vm_compute. reflexivity. Qed.

Definition demo_netflow (name : string) : NetflowPolicy := mkNetflow EmptyString name "10.9.9.9" 2055 "netflow" 60 15 0.

(** All netflow policies write the container of the virtual switch under their
    own key; deleting one policy deletes the container with the exporters of
    the others. *)
Lemma netflow_container_shared :
  ('(s, _) ← handleNetflowPolUpdate demo_ctl (demo_netflow "a") demo_state;
   '(s, _) ← handleNetflowPolUpdate demo_ctl (demo_netflow "b") s;
   s ← netflowPolicyDelete demo_ctl (Plain (demo_netflow "a")) s;
   c ← run_requests (cs_effects s) (New_connection "kube" "5.2");
   Some (bool_decide (is_Some (desiredState c !! "kube_nfp_b")),
         bool_decide (is_Some (desiredStateDn c !! "uni/vmmp-Kubernetes/dom-kube/vswitchpolcont")))) = Some (true, false).
Proof. vm_compute. reflexivity. Qed.

(** An interface that is no longer published stays known, and interfaces that
    come with a new resource do not make the sessions of their pods write their
    sources. *)
Lemma interfaces_stale :
  let s := erspanPolicyUpdated demo_stores demo_span demo_state in
  let s1 := nodePodIFAdded demo_podifs s in
  podIftoEp (nodePodIFUpdated demo_podifs (drop 1 demo_podifs) s1) !! "web/a" = Some (mkEpData "0a:58:00:00:00:01" "front" "web" "shop") ∧
  cs_effects s1 = cs_effects s ∧ GetObjForPod (erspanPolPods s1) "web/a" = {["web/trace"]}.
Proof. vm_compute. split; [reflexivity|]. split; reflexivity. Qed.

(** For an endpoint group without application profile the published name has no
    separator: it is taken for the profile too. *)
Lemma group_without_profile :
  fvCEpDn demo_ctl (podifdata (mkPodIF "web" "a" "c1" "0a:58:00:00:00:01" "10.0.0.1/32" "front" "10.1.1.1" "veth1")) =
  "uni/tn-common/ap-front/epg-front/cep-0A:58:00:00:00:01".
Proof. vm_compute. reflexivity. Qed.

(** A missed deletion leaves the deployment in the index. *)
Lemma missed_deployment :
  let w := run demo_ctl [SetNs demo_ns; SetPod (demo_pod "a" "10.0.0.1" "n1"); SetDep demo_dep; DelDep "web/shop" true] (empty_world ∅ ∅ demo_state) in
  (λ w, (GetPodForObj (depPods (w_ctl w)) "web/shop", bool_decide (is_Some (k_deps (w_st w) !! "web/shop")))) <$> w = Some ({["web/a"]}, false).
Proof. vm_compute. reflexivity. Qed.

(** The class of labels is not listed below the classes they are added to, so
    the labels of an object are never read back from the APIC. *)
Lemma labels_not_read_back :
  Forall (λ cl, child_of cl "vmmInjectedLabel" = false) ["vmmInjectedContGrp"; "vmmInjectedDepl"; "vmmInjectedReplSet"; "vmmInjectedNs"; "vmmInjectedSvc"].
Proof. repeat constructor. Qed.
