(* ===== verification/CtlSubnets.v ===== *)
(** * CtlSubnets: the subnets of the fabric and the resource RdConfig

    src/pkg/controller/subnetcache.go and rdconfig.go: the controller keeps
    the subnets of the bridge domains and endpoint groups of its VRF and
    publishes them, with the subnets of its configuration, in the resource
    RdConfig, whose subnets the hosts do not translate.

    The APIC is a function from the URI of a query to its answer, [None] for
    an error; the API server is the stored resource with the answers to
    requests.  The order of a loop over a Go map, which shows in the published
    list, is a parameter: any function that lists the values of a map.  A nil
    slice is an empty one. *)
From S2P Require Import Prelude GoText ApicMetadata ApicTypes ApicConnFacts PodIndex AciNames GoJson CtlMirror CtlProps.

Open Scope string_scope.

(** ** The cache of subnets *)

Section Subnets.
Context (GetApicResponse : string → option (list ApicObject)) (AciVrfDn : string).

(** strings.Split(dn, sep)[0]. *)
Definition before (dn sep : string) : string := List.hd EmptyString (Split dn sep).

(** The cache, and how often the publication was scheduled. *)
Record Subnets := mkSubnets { CachedSubnetDns : gmap string string; scheduled : nat }.

Definition cache_subnet (dn ip : string) (s : Subnets) : Subnets :=
  mkSubnets (<[dn := ip]> (CachedSubnetDns s)) (scheduled s).
Definition scheduleRdConfig (s : Subnets) : Subnets := mkSubnets (CachedSubnetDns s) (S (scheduled s)).

Definition isBdPresentInVrf (bdDn : string) : bool :=
  match GetApicResponse ("/api/node/mo/" ++ bdDn ++ ".json?query-target=children&target-subtree-class=fvRsCtx") with
  | None => false
  | Some imdata => existsb (λ body, bool_decide (attr_str body "tDn" = Some AciVrfDn)) imdata
  end.

(** The bridge domains of an endpoint group; an error ends the caller. *)
Definition epg_bds (epgDn : string) : option (list string) :=
  imdata ← GetApicResponse ("/api/node/mo/" ++ epgDn ++ ".json?query-target=children&target-subtree-class=fvRsBd");
  Some (omap (M := list) (λ body, attr_str body "tDn") imdata).

Fixpoint update_for_parents (parentDn subnetDn subnetIp : string) (objs : list ApicObject) (s : Subnets) : Subnets :=
  match objs with
  | [] => s
  | obj :: objs =>
      if String.eqb (class obj) "fvBD" then
        update_for_parents parentDn subnetDn subnetIp objs (if isBdPresentInVrf parentDn then cache_subnet subnetDn subnetIp s else s)
      else
        match epg_bds parentDn with
        | None => s
        | Some bds =>
            update_for_parents parentDn subnetDn subnetIp objs
              (foldl (λ s bd, if isBdPresentInVrf bd then cache_subnet subnetDn subnetIp s else s) s bds)
        end
  end.

Definition UpdateSubnetDnCacheForDn (subnetDn subnetIp : string) (s : Subnets) : Subnets :=
  let subnetParentDn := before subnetDn "/subnet" in
  match GetApicResponse ("/api/node/mo/" ++ subnetParentDn ++ ".json?query-target=self") with
  | None => s
  | Some imdata => update_for_parents subnetParentDn subnetDn subnetIp imdata s
  end.

(** A subnet whose parent has another subnet in the cache is taken over
    without a query. *)
Definition UpdateSubnetDnCache (subnetDn subnetIp : string) (s : Subnets) : Subnets :=
  let subnetParentDn := before subnetDn "/subnet" in
  if existsb (λ kv, String.eqb subnetParentDn (before kv.1 "/subnet")) (map_to_list (CachedSubnetDns s))
  then cache_subnet subnetDn subnetIp s
  else scheduleRdConfig (UpdateSubnetDnCacheForDn subnetDn subnetIp s).

Definition SubnetChanged (obj : ApicObject) (s : Subnets) : Subnets :=
  let subnetDn := GetAttrStr obj "dn" in
  match CachedSubnetDns s !! subnetDn with
  | Some _ => s
  | None => scheduleRdConfig (UpdateSubnetDnCache subnetDn (GetAttrStr obj "ip") s)
  end.

Definition SubnetDeleted (dn : string) (s : Subnets) : Subnets :=
  match CachedSubnetDns s !! dn with
  | Some _ => scheduleRdConfig (mkSubnets (delete dn (CachedSubnetDns s)) (scheduled s))
  | None => s
  end.

Definition bdUri : string :=
  "/api/node/class/fvBD.json?rsp-prop-include=config-only&query-target=subtree&" ++
  dq "query-target-filter=and(wcard(fvRsCtx.tDn,'" ++ AciVrfDn ++ dq "'))".
Definition epgUri : string := "/api/node/class/fvAEPg.json?query-target=subtree&target-subtree-class=fvRsBd".
Definition SubnetUri : string := "/api/node/class/fvSubnet.json?rsp-prop-include=config-only".

(** The bridge domains of the VRF, the endpoint groups of these, and then the
    subnets of both; an error leaves the cache as it is. *)
Definition BuildSubnetDnCache (s : Subnets) : Subnets :=
  match GetApicResponse bdUri with
  | None => s
  | Some bds =>
      let vrfBdDns := sort_strs (omap (λ body, dn ← attr_str body "dn"; Some (before dn "/rsctx")) bds) in
      match GetApicResponse epgUri with
      | None => s
      | Some epgs =>
          let vrfEpgDns := sort_strs (omap (λ body,
            epgParentDn ← attr_str body "tDn";
            if contains vrfBdDns epgParentDn then dn ← attr_str body "dn"; Some (before dn "/rsbd") else None) epgs) in
          match GetApicResponse SubnetUri with
          | None => s
          | Some subnets =>
              foldl (λ s body,
                match attr_str body "dn" with
                | None => s
                | Some subnetDn =>
                    let subnetParentDn := before subnetDn "/subnet" in
                    let subnetIp := default EmptyString (attr_str body "ip") in
                    if contains vrfBdDns subnetParentDn || contains vrfEpgDns subnetParentDn
                    then cache_subnet subnetDn subnetIp s else s
                end) s subnets
          end
      end
  end.
End Subnets.

(** ** The resource *)

Record RdConfigSpec := mkRdSpec { UserSubnets : list string; DiscoveredSubnets : list string }.
Record RdConfig := mkRdConfig { rd_Namespace : string; rd_Name : string; rd_Spec : RdConfigSpec }.

#[export] Instance RdConfigSpec_eq_dec : EqDecision RdConfigSpec.
Proof. solve_decision. Defined.

Record RdCfg := mkRdCfg {
  rdConfigClient : bool;
  rd_ChainedMode : bool;
  AddExternalSubnetsToRdconfig : bool;
  ExternStatic : list string;
  ExternDynamic : list string;
  ACI_RDCONFIG_NAME : string
}.

(** Which requests the API server answers without an error; a resource that
    is not there is no error. *)
Record RdApi := mkRdApi { get_ok : bool; create_ok : bool; update_ok : bool }.

(** The controller's tables and its queue, and the stored resource. *)
Record RdState := mkRdState {
  rdConfigCache : gmap string RdConfig;
  rdConfigSubnetCache : gmap string RdConfigSpec;
  rdConfigQueue : list string;
  rd_scheduled : nat;
  rd_stored : option RdConfigSpec
}.

(** The order in which one loop over a Go map sees its values. *)
Record range_order := mkRange {
  range_values :> gmap string string → list string;
  range_law : ∀ m, range_values m ≡ₚ (map_to_list m).*2
}.

Section Rd.
Context (cfg : RdCfg) (api : RdApi) (values : range_order).

Definition rd_key (r : RdConfig) : string := MetaNamespaceKey (rd_Namespace r) (rd_Name r).

Definition set_rd_cache (f : gmap string RdConfig → gmap string RdConfig) (s : RdState) : RdState :=
  mkRdState (f (rdConfigCache s)) (rdConfigSubnetCache s) (rdConfigQueue s) (rd_scheduled s) (rd_stored s).
Definition queueRdConfigUpdateByKey (key : string) (s : RdState) : RdState :=
  mkRdState (rdConfigCache s) (rdConfigSubnetCache s) (rdConfigQueue s ++ [key])%list (rd_scheduled s) (rd_stored s).
Definition set_rd_stored (v : option RdConfigSpec) (s : RdState) : RdState :=
  mkRdState (rdConfigCache s) (rdConfigSubnetCache s) (rdConfigQueue s) (rd_scheduled s) v.

Definition RdConfigAdded (r : RdConfig) (s : RdState) : RdState :=
  queueRdConfigUpdateByKey (rd_key r) (set_rd_cache (insert (rd_Name r) r) s).

Definition RdConfigUpdated (oldr newr : RdConfig) (s : RdState) : RdState :=
  if bool_decide (rd_Spec oldr = rd_Spec newr) then s
  else queueRdConfigUpdateByKey (rd_key newr) (set_rd_cache (insert (rd_Name newr) newr) s).

Definition RdConfigDeleted (obj : notified RdConfig) (s : RdState) : RdState :=
  match deleted_obj obj with
  | None => s
  | Some r => queueRdConfigUpdateByKey (rd_key r) (set_rd_cache (delete (rd_Name r)) s)
  end.

(** The results say whether the key is queued again. *)
Definition handleRdConfig (r : RdConfig) (s : RdState) : RdState * bool :=
  if bool_decide ((UserSubnets <$> rdConfigSubnetCache s !! rd_Name r) = Some (UserSubnets (rd_Spec r))) then (s, false)
  else (mkRdState (rdConfigCache s) (<[rd_Name r := rd_Spec r]> (rdConfigSubnetCache s)) (rdConfigQueue s) (rd_scheduled s)
          (rd_stored s), true).

(** util.CreateRdConfigCR: an error if the resource exists. *)
Definition CreateRdConfigCR (spec : RdConfigSpec) (s : RdState) : option RdState :=
  match rd_stored s with
  | None => if create_ok api then Some (set_rd_stored (Some spec) s) else None
  | Some _ => None
  end.

Definition schedule_rd (s : RdState) : RdState :=
  mkRdState (rdConfigCache s) (rdConfigSubnetCache s) (rdConfigQueue s) (S (rd_scheduled s)) (rd_stored s).

Definition postDelHandleRdConfig (s : RdState) : RdState * bool :=
  match rdConfigSubnetCache s !! ACI_RDCONFIG_NAME cfg with
  | Some spec =>
      match CreateRdConfigCR spec s with
      | None => (s, true)
      | Some s => (schedule_rd s, false)
      end
  | None => (schedule_rd s, false)
  end.

(** The subnets that are not yet listed are added behind those that are. *)
Definition add_subnet (l : list string) (subnet : string) : list string :=
  if bool_decide (subnet ∈ l) then l else (l ++ [subnet])%list.

Definition rd_update (discovered user : list string) (old : RdConfigSpec) : RdConfigSpec * bool :=
  let '(disc, upd1) := if bool_decide (DiscoveredSubnets old = discovered) then (DiscoveredSubnets old, false) else (discovered, true) in
  let merge := negb (bool_decide (UserSubnets old = user)) && AddExternalSubnetsToRdconfig cfg in
  let users := if merge then foldl add_subnet (UserSubnets old) user else UserSubnets old in
  (mkRdSpec users disc, upd1 || negb (bool_decide (users = UserSubnets old))).

Definition syncRdConfig (cache : gmap string string) (s : RdState) : RdState * bool :=
  let discoveredSubnets := values cache in
  let userSubnets := (ExternStatic cfg ++ ExternDynamic cfg)%list in
  if negb (rdConfigClient cfg) || rd_ChainedMode cfg then (s, false)
  else if negb (get_ok api) then (s, false)
  else
    match rd_stored s with
    | None =>
        let spec := mkRdSpec (if AddExternalSubnetsToRdconfig cfg then userSubnets else []) discoveredSubnets in
        match CreateRdConfigCR spec s with None => (s, true) | Some s => (s, false) end
    | Some rdCon =>
        let '(spec, isUpdated) := rd_update discoveredSubnets userSubnets rdCon in
        if (isUpdated : bool) then if update_ok api then (set_rd_stored (Some spec) s, false) else (s, true)
        else (s, false)
    end.
End Rd.

(** ** What the cache holds *)

Section SubnetFacts.
Context (GetApicResponse : string → option (list ApicObject)) (AciVrfDn : string).

Abbreviation in_cache dn s := (is_Some (CachedSubnetDns s !! dn)).
Abbreviation bd_in_vrf := (isBdPresentInVrf GetApicResponse AciVrfDn).
Abbreviation bds_of := (epg_bds GetApicResponse).

Lemma cache_subnet_in dn ip s x : in_cache x (cache_subnet dn ip s) ↔ x = dn ∨ in_cache x s.
Proof. unfold cache_subnet. cbn [CachedSubnetDns]. rewrite lookup_insert_is_Some. destruct (decide (x = dn)) as [->|]; naive_solver. Qed.

(** Caching one subnet if some element of a list says so. *)
Lemma fold_cache {A} (P : A → bool) dn ip (l : list A) s x :
  in_cache x (foldl (λ s a, if P a then cache_subnet dn ip s else s) s l) ↔ (x = dn ∧ ∃ a, a ∈ l ∧ P a = true) ∨ in_cache x s.
Proof.
  revert s. induction l as [|a l IH]; intros s; cbn [foldl].
  { split; [by right|]. intros [(_&a&Ha&_)|H]; [by apply elem_of_nil in Ha|exact H]. }
  rewrite IH. destruct (P a) eqn:E; [rewrite cache_subnet_in|]; split.
  - intros [(->&b&Hb&Hp)|[->|H]]; [left|left|by right].
    + split; [done|]. exists b. split; [by right|exact Hp].
    + split; [done|]. exists a. split; [by left|exact E].
  - intros [(->&_)|H]; right; [by left|by right].
  - intros [(->&b&Hb&Hp)|H]; [left|by right]. split; [done|]. exists b. split; [by right|exact Hp].
  - intros [(->&b&Hb&Hp)|H]; [left|by right]. split; [done|]. apply elem_of_cons in Hb as [->|Hb]; [congruence|by exists b].
Qed.

Definition self_uri (dn : string) : string := "/api/node/mo/" ++ dn ++ ".json?query-target=self".

(** The APIC says of a parent that it is a bridge domain of the VRF, or an
    endpoint group of one. *)
Definition parent_in_vrf (p : string) : Prop :=
  ∃ o, GetApicResponse (self_uri p) = Some [o] ∧
    if String.eqb (class o) "fvBD" then bd_in_vrf p = true else ∃ bds bd, bds_of p = Some bds ∧ bd ∈ bds ∧ bd_in_vrf bd = true.

Hypothesis self_unique : ∀ p imdata, GetApicResponse (self_uri p) = Some imdata → (length imdata <= 1)%nat.

Lemma UpdateSubnetDnCacheForDn_in dn ip s x :
  in_cache x (UpdateSubnetDnCacheForDn GetApicResponse AciVrfDn dn ip s) ↔ (x = dn ∧ parent_in_vrf (before dn "/subnet")) ∨ in_cache x s.
Proof using self_unique.
  unfold UpdateSubnetDnCacheForDn. cbv zeta. fold (self_uri (before dn "/subnet")). set (p := before dn "/subnet"). clearbody p.
  unfold parent_in_vrf. destruct (GetApicResponse (self_uri p)) as [imdata|] eqn:E.
  2: { split; [by right|]. intros [(_&o&Ho&_)|H]; [discriminate Ho|exact H]. }
  apply self_unique in E as Hlen. destruct imdata as [|o [|o' l]]; simpl in Hlen; [|clear Hlen|lia].
  { cbn [update_for_parents]. split; [by right|]. intros [(_&o&Ho&_)|H]; [discriminate Ho|exact H]. }
  cbn [update_for_parents]. destruct (String.eqb (class o) "fvBD") eqn:Ec.
  - destruct (bd_in_vrf p) eqn:Eb.
    + rewrite cache_subnet_in. split; [intros [->|H]; [left|by right]|intros [[-> _]|H]; [by left|by right]].
      split; [done|]. exists o. split; [done|]. by rewrite Ec.
    + split; [by right|]. intros [(_&o'&[= <-]&H)|H]; [|exact H]. rewrite Ec in H. discriminate H.
  - destruct (bds_of p) as [bds|] eqn:Eb.
    + rewrite fold_cache. split.
      * intros [(->&bd&Hin&Hb)|H]; [left|by right]. split; [done|]. exists o. split; [done|]. rewrite Ec. eauto.
      * intros [(->&o'&[= <-]&H)|H]; [|by right]. rewrite Ec in H. destruct H as (bds'&bd&[= <-]&Hin&Hb). left. eauto.
    + split; [by right|]. intros [(_&o'&[= <-]&H)|H]; [|exact H]. rewrite Ec in H. destruct H as (bds'&bd&Hb&_). discriminate Hb.
Qed.

(** Only subnets of the VRF are in the cache. *)
Definition sound (s : Subnets) : Prop := ∀ dn, in_cache dn s → parent_in_vrf (before dn "/subnet").

Lemma UpdateSubnetDnCache_in dn ip s x :
  sound s →
  in_cache x (UpdateSubnetDnCache GetApicResponse AciVrfDn dn ip s) ↔ (x = dn ∧ parent_in_vrf (before dn "/subnet")) ∨ in_cache x s.
Proof using self_unique.
  intros Hs. unfold UpdateSubnetDnCache. cbv zeta. destruct (existsb _ _) eqn:E; [|apply UpdateSubnetDnCacheForDn_in].
  apply existsb_exists in E as ([k v]&Hin&Hk). apply list_elem_of_In, elem_of_map_to_list in Hin. apply String.eqb_eq in Hk. simpl in Hk.
  rewrite cache_subnet_in. split; [intros [->|H]; [left|by right]|intros [[-> _]|H]; [by left|by right]].
  split; [done|]. rewrite Hk. apply Hs. by exists v.
Qed.

(** Notifications about subnets. *)
Inductive subnet_event := SubnetSet (obj : ApicObject) | SubnetGone (dn : string).
Definition subnet_step (s : Subnets) (e : subnet_event) : Subnets :=
  match e with
  | SubnetSet obj => SubnetChanged GetApicResponse AciVrfDn obj s
  | SubnetGone dn => SubnetDeleted dn s
  end.
Definition subnet_live (live : gset string) (e : subnet_event) : gset string :=
  match e with SubnetSet obj => {[GetAttrStr obj "dn"]} ∪ live | SubnetGone dn => live ∖ {[dn]} end.

Definition cache_exact (live : gset string) (s : Subnets) : Prop := ∀ dn, in_cache dn s ↔ dn ∈ live ∧ parent_in_vrf (before dn "/subnet").

Lemma subnet_step_exact live s e : cache_exact live s → cache_exact (subnet_live live e) (subnet_step s e).
Proof using self_unique.
  intros H. assert (sound s) as Hs by (intros dn Hd; by apply H in Hd as [_ ?]). intros dn. destruct e as [obj|d]; simpl.
  - unfold SubnetChanged. cbv zeta. set (x := GetAttrStr obj "dn"). destruct (CachedSubnetDns s !! x) as [ip|] eqn:E.
    + assert (x ∈ live) by (apply (H x); by exists ip). rewrite (H dn). set_solver.
    + change (in_cache dn (scheduleRdConfig ?t)) with (in_cache dn t). rewrite UpdateSubnetDnCache_in by done. rewrite (H dn).
      rewrite elem_of_union, elem_of_singleton. naive_solver.
  - unfold SubnetDeleted. destruct (CachedSubnetDns s !! d) as [ip|] eqn:E.
    + cbn [scheduleRdConfig CachedSubnetDns]. rewrite lookup_delete_is_Some, (H dn). set_solver.
    + rewrite (H dn), elem_of_difference, elem_of_singleton. split; [|naive_solver]. intros [H1 H2]. split; [|done]. split; [done|].
      intros ->. assert (in_cache d s) as [? ?] by by apply H. congruence.
Qed.

(** ** The first filling of the cache *)

(** The bridge domains and endpoint groups that the queries of classes
    report. *)
Definition reported_bd (bds : list ApicObject) (p : string) : Prop :=
  ∃ body dn, body ∈ bds ∧ attr_str body "dn" = Some dn ∧ p = before dn "/rsctx".
Definition reported_epg (bds epgs : list ApicObject) (p : string) : Prop :=
  ∃ body bd dn, body ∈ epgs ∧ attr_str body "tDn" = Some bd ∧ reported_bd bds bd ∧ attr_str body "dn" = Some dn ∧ p = before dn "/rsbd".

Lemma contains_sorted l x : contains (sort_strs l) x = true ↔ x ∈ l.
Proof. rewrite contains_spec by apply (StronglySorted_merge_sort String.le). by rewrite sort_strs_perm. Qed.

Lemma BuildSubnetDnCache_in bds epgs subnets s x :
  GetApicResponse (bdUri AciVrfDn) = Some bds → GetApicResponse epgUri = Some epgs → GetApicResponse SubnetUri = Some subnets →
  in_cache x (BuildSubnetDnCache GetApicResponse AciVrfDn s) ↔
  in_cache x s ∨ (∃ body, body ∈ subnets ∧ attr_str body "dn" = Some x) ∧
                 (reported_bd bds (before x "/subnet") ∨ reported_epg bds epgs (before x "/subnet")).
Proof.
  intros E1 E2 E3. unfold BuildSubnetDnCache. rewrite E1, E2, E3. cbv zeta.
  set (lb := omap _ bds).
  assert (∀ p, p ∈ lb ↔ reported_bd bds p) as Hb.
  { intros p. unfold lb. rewrite list_elem_of_omap. split.
    - intros (body&Hin&H). apply bind_Some in H as (dn&Hdn&[= <-]). by exists body, dn.
    - intros (body&dn&Hin&Hdn&->). exists body. split; [done|]. by rewrite Hdn. }
  clearbody lb. set (le := omap _ epgs).
  assert (∀ p, p ∈ le ↔ reported_epg bds epgs p) as He.
  { intros p. unfold le. rewrite list_elem_of_omap. split.
    - intros (body&Hin&H). apply bind_Some in H as (bd&Hbd&H). destruct (contains (sort_strs lb) bd) eqn:Ec; [|done].
      apply contains_sorted, Hb in Ec. apply bind_Some in H as (dn&Hdn&[= <-]). by exists body, bd, dn.
    - intros (body&bd&dn&Hin&Hbd&Hr&Hdn&->). exists body. split; [done|]. rewrite Hbd. cbn [mbind option_bind].
      rewrite (proj2 (contains_sorted _ _) (proj2 (Hb _) Hr)), Hdn. done. }
  clearbody le. clear E1 E2 E3. setoid_rewrite <- Hb. setoid_rewrite <- He. clear Hb He.
  revert s. induction subnets as [|body subnets IH]; intros s; cbn [foldl].
  { split; [by left|]. intros [H|[(body&Hin&_) _]]; [exact H|by apply elem_of_nil in Hin]. }
  rewrite IH. clear IH. destruct (attr_str body "dn") as [dn|] eqn:Ed.
  2: { split; (intros [H|[(b&Hin&Hd) Hp]]; [by left|right]; split; [|done]).
       - exists b. split; [by right|done].
       - apply elem_of_cons in Hin as [->|Hin]; [congruence|by exists b]. }
  destruct (contains (sort_strs lb) (before dn "/subnet") || contains (sort_strs le) (before dn "/subnet")) eqn:Ec.
  - rewrite cache_subnet_in. apply orb_true_iff in Ec. rewrite !contains_sorted in Ec. split.
    + intros [[->|H]|[(b&Hin&Hd) Hp]]; [right|by left|right]; (split; [|done]); [exists body; split; [by left|done]|exists b; split; [by right|done]].
    + intros [H|[(b&Hin&Hd) Hp]]; [left; by right|]. apply elem_of_cons in Hin as [->|Hin]; [left; left; congruence|right; split; [by exists b|done]].
  - apply orb_false_iff in Ec as [Ec1 Ec2]. split; (intros [H|[(b&Hin&Hd) Hp]]; [by left|right]).
    + split; [exists b; split; [by right|done]|done].
    + apply elem_of_cons in Hin as [->|Hin]; [|split; [by exists b|done]]. assert (x = dn) as -> by congruence.
      destruct Hp as [Hp|Hp]; apply contains_sorted in Hp; congruence.
Qed.
End SubnetFacts.

(** ** The fabric that the APIC describes

    The bridge domains with their VRFs, the endpoint groups with their bridge
    domains, and the subnets.  The controller learns which of them belong to
    its VRF in two ways, from queries of whole classes when it starts and from
    queries of single objects later; [answers] says what both report. *)
Record Fabric := mkFabric { fab_bds : gmap string string; fab_epgs : gmap string string; fab_subnets : gset string }.

(** The filter wcard of the APIC: the attribute contains the text. *)
Definition wcard (text attr : string) : bool := match String.index 0 text attr with Some _ => true | None => false end.

Lemma wcard_refl s : wcard s s = true.
Proof.
  assert (∀ t, String.prefix t t = true) as Hp by (induction t as [|c t IH]; simpl; [done|by destruct (ascii_dec c c)]).
  unfold wcard. destruct s as [|c s]; [done|]. cbn [String.index]. by rewrite Hp.
Qed.

(** A bridge domain of a VRF that [P] holds of, or an endpoint group of one. *)
Definition parent_of (fab : Fabric) (P : string → Prop) (p : string) : Prop :=
  ∃ v, P v ∧ (fab_bds fab !! p = Some v ∨ ∃ bd, fab_epgs fab !! p = Some bd ∧ fab_bds fab !! bd = Some v).

Definition ctx_uri (bd : string) : string := "/api/node/mo/" ++ bd ++ ".json?query-target=children&target-subtree-class=fvRsCtx".
Definition rsbd_uri (epg : string) : string := "/api/node/mo/" ++ epg ++ ".json?query-target=children&target-subtree-class=fvRsBd".

(** The DNs of the parts of the fabric: a bridge domain is no endpoint group,
    and the DN of a relation gives back the DN of its object. *)
Record fabric_names (fab : Fabric) : Prop := {
  fn_apart : dom (fab_bds fab) ## dom (fab_epgs fab);
  fn_rsctx : ∀ bd, bd ∈ dom (fab_bds fab) → before (bd ++ "/rsctx") "/rsctx" = bd;
  fn_rsbd : ∀ epg, epg ∈ dom (fab_epgs fab) → before (epg ++ "/rsbd") "/rsbd" = epg
}.

Definition reports (imdata : list ApicObject) (attrs : list (string * string)) : Prop :=
  ∃ body, body ∈ imdata ∧ Forall (λ kv, attr_str body kv.1 = Some kv.2) attrs.

(** The answers to the six kinds of queries of subnetcache.go. *)
Record answers (fab : Fabric) (vrf : string) (Get : string → option (list ApicObject)) : Prop := {
  an_bds : ∃ l, Get (bdUri vrf) = Some l ∧
    ∀ d, reports l [("dn", d)] ↔ ∃ bd v, fab_bds fab !! bd = Some v ∧ wcard vrf v = true ∧ d = bd ++ "/rsctx";
  an_epgs : ∃ l, Get epgUri = Some l ∧
    ∀ d bd, reports l [("dn", d); ("tDn", bd)] ↔ ∃ epg, fab_epgs fab !! epg = Some bd ∧ d = epg ++ "/rsbd";
  an_subnets : ∃ l, Get SubnetUri = Some l ∧ ∀ d, reports l [("dn", d)] ↔ d ∈ fab_subnets fab;
  an_self : ∀ p,
    match fab_bds fab !! p, fab_epgs fab !! p with
    | Some _, _ => ∃ o, Get (self_uri p) = Some [o] ∧ class o = "fvBD"
    | None, Some _ => ∃ o, Get (self_uri p) = Some [o] ∧ class o = "fvAEPg"
    | None, None => default [] (Get (self_uri p)) = []
    end;
  an_ctx : ∀ bd v, reports (default [] (Get (ctx_uri bd))) [("tDn", v)] ↔ fab_bds fab !! bd = Some v;
  an_rsbd : ∀ epg bd, reports (default [] (Get (rsbd_uri epg))) [("tDn", bd)] ↔ fab_epgs fab !! epg = Some bd
}.

Lemma reports_1 l a d : reports l [(a, d)] ↔ ∃ body, body ∈ l ∧ attr_str body a = Some d.
Proof. unfold reports. setoid_rewrite Forall_singleton. done. Qed.

Lemma reports_2 l a b d e : reports l [(a, d); (b, e)] ↔ ∃ body, body ∈ l ∧ attr_str body a = Some d ∧ attr_str body b = Some e.
Proof. unfold reports. setoid_rewrite Forall_cons. setoid_rewrite Forall_singleton. done. Qed.

Section FabricFacts.
Context (fab : Fabric) (vrf : string) (Get : string → option (list ApicObject)).
Hypothesis names : fabric_names fab.
Hypothesis told : answers fab vrf Get.

Lemma answers_self_unique p imdata : Get (self_uri p) = Some imdata → (length imdata <= 1)%nat.
Proof using told.
  intros E. pose proof (an_self _ _ _ told p) as H. rewrite E in H.
  destruct (fab_bds fab !! p); [destruct H as (o&[= ->]&_); simpl; lia|].
  destruct (fab_epgs fab !! p); [destruct H as (o&[= ->]&_); simpl; lia|]. simpl in H. subst. simpl. lia.
Qed.

Lemma isBdPresentInVrf_spec bd : isBdPresentInVrf Get vrf bd = true ↔ fab_bds fab !! bd = Some vrf.
Proof using told.
  rewrite <- (an_ctx _ _ _ told bd vrf), reports_1. unfold isBdPresentInVrf. fold (ctx_uri bd).
  destruct (Get (ctx_uri bd)) as [l|]; simpl; [|split; [done|intros (?&H&_); by apply elem_of_nil in H]].
  rewrite existsb_exists. setoid_rewrite <- list_elem_of_In. by setoid_rewrite bool_decide_eq_true.
Qed.

Lemma epg_bds_spec epg bd : (∃ l, epg_bds Get epg = Some l ∧ bd ∈ l) ↔ fab_epgs fab !! epg = Some bd.
Proof using told.
  rewrite <- (an_rsbd _ _ _ told epg bd), reports_1. unfold epg_bds. fold (rsbd_uri epg).
  destruct (Get (rsbd_uri epg)) as [l|]; simpl.
  - setoid_rewrite <- list_elem_of_omap. naive_solver.
  - split; [intros (?&?&_); discriminate|intros (?&H&_); by apply elem_of_nil in H].
Qed.

(** Queries of single objects give the membership in the VRF. *)
Lemma parent_in_vrf_spec p : parent_in_vrf Get vrf p ↔ parent_of fab (eq vrf) p.
Proof using names told.
  pose proof (an_self _ _ _ told p) as H. unfold parent_in_vrf, parent_of.
  destruct (fab_bds fab !! p) as [v|] eqn:Eb.
  { assert (fab_epgs fab !! p = None) as Ee.
    { apply not_elem_of_dom. intros Hin. by apply (fn_apart _ names p); [apply elem_of_dom_2 in Eb|]. }
    destruct H as (o&E&Hc). rewrite E. split.
    - intros (o'&[= <-]&Ho). rewrite Hc in Ho. simpl in Ho. apply isBdPresentInVrf_spec in Ho. exists vrf. split; [done|left; congruence].
    - intros (w&<-&[[= ->]|(bd&Hbd&_)]); [|congruence]. exists o. split; [done|]. rewrite Hc. by apply isBdPresentInVrf_spec. }
  destruct (fab_epgs fab !! p) as [bd|] eqn:Ee.
  - destruct H as (o&E&Hc). rewrite E. split.
    + intros (o'&[= <-]&Ho). rewrite Hc in Ho. simpl in Ho. destruct Ho as (bds&bd'&Hl&Hin&Hv).
      assert (fab_epgs fab !! p = Some bd') by (apply epg_bds_spec; eauto). apply isBdPresentInVrf_spec in Hv.
      exists vrf. split; [done|]. right. exists bd'. by rewrite <- Ee.
    + intros (w&<-&[?|(bd'&[= <-]&Hv)]); [done|]. exists o. split; [done|]. rewrite Hc. simpl.
      apply epg_bds_spec in Ee as (l&Hl&Hin). exists l, bd. split_and!; [done..|]. by apply isBdPresentInVrf_spec.
  - split; [intros (o&E&_); rewrite E in H; discriminate H|intros (w&_&[?|(?&?&_)]); discriminate].
Qed.

(** Queries of classes give the membership in any VRF whose DN contains that
    of the VRF. *)
Lemma reported_spec bds epgs p :
  Get (bdUri vrf) = Some bds → Get epgUri = Some epgs →
  reported_bd bds p ∨ reported_epg bds epgs p ↔ parent_of fab (λ v, wcard vrf v = true) p.
Proof using names told.
  intros E1 E2. destruct (an_bds _ _ _ told) as (l&El&Hb), (an_epgs _ _ _ told) as (l'&El'&He). rewrite E1 in El. rewrite E2 in El'.
  injection El as <-. injection El' as <-.
  assert (∀ q, reported_bd bds q ↔ ∃ v, fab_bds fab !! q = Some v ∧ wcard vrf v = true) as Hrb.
  { intros q. split.
    - intros (body&dn&Hin&Hdn&->). assert (reports bds [("dn", dn)]) as Hr by (apply reports_1; eauto).
      apply Hb in Hr as (bd&v&Hv&Hw&->). rewrite (fn_rsctx _ names) by (by eapply elem_of_dom_2). eauto.
    - intros (v&Hv&Hw). assert (reports bds [("dn", q ++ "/rsctx")]) as Hr by (apply Hb; eauto).
      apply reports_1 in Hr as (body&Hin&Hdn). exists body, (q ++ "/rsctx"). split_and!; [done..|].
      by rewrite (fn_rsctx _ names) by (by eapply elem_of_dom_2). }
  assert (reported_epg bds epgs p ↔ ∃ bd, fab_epgs fab !! p = Some bd ∧ reported_bd bds bd) as Hre.
  { split.
    - intros (body&bd&dn&Hin&Htd&Hr&Hdn&->). assert (reports epgs [("dn", dn); ("tDn", bd)]) as Hr' by (apply reports_2; eauto).
      apply He in Hr' as (epg&Hepg&->). rewrite (fn_rsbd _ names) by (by eapply elem_of_dom_2). eauto.
    - intros (bd&Hepg&Hr). assert (reports epgs [("dn", p ++ "/rsbd"); ("tDn", bd)]) as Hr' by (apply He; eauto).
      apply reports_2 in Hr' as (body&Hin&Hdn&Htd). exists body, bd, (p ++ "/rsbd"). split_and!; [done..|].
      by rewrite (fn_rsbd _ names) by (by eapply elem_of_dom_2). }
  rewrite Hre. setoid_rewrite Hrb. unfold parent_of. naive_solver.
Qed.

(** What the controller starts with. *)
Lemma BuildSubnetDnCache_spec dn :
  is_Some (CachedSubnetDns (BuildSubnetDnCache Get vrf (mkSubnets ∅ 0)) !! dn) ↔
  dn ∈ fab_subnets fab ∧ parent_of fab (λ v, wcard vrf v = true) (before dn "/subnet").
Proof using names told.
  destruct (an_bds _ _ _ told) as (bds&E1&_), (an_epgs _ _ _ told) as (epgs&E2&_), (an_subnets _ _ _ told) as (subnets&E3&Hs).
  rewrite (BuildSubnetDnCache_in _ _ _ _ _ _ _ E1 E2 E3), (reported_spec _ _ _ E1 E2), <- Hs, reports_1. cbn [CachedSubnetDns].
  rewrite lookup_empty. split; [intros [[? ?]|H]; [discriminate|exact H]|by right].
Qed.
End FabricFacts.

(** C21: The cache of subnets follows the fabric.  Let the APIC answer all the controller's queries, whole classes and single objects, from one description of the bridge domains, endpoint groups and subnets, with the filter wcard meaning that the attribute contains the given text, where no bridge domain is an endpoint group and the DNs of bridge domains and endpoint groups do not contain the suffixes of their relations.  Then the cache that the controller builds when it starts holds exactly the listed subnets whose parent is a bridge domain, or an endpoint group of a bridge domain, of a VRF whose DN contains the configured one.  If the configured VRF is the only one of the fabric with such a DN, and the bridge domains and endpoint groups stay as they are, then after any sequence of notifications that follows the cache holds exactly the subnets that exist and whose parent belongs to the VRF: taking over a subnet because another one of its parent is cached gives the same result as asking the APIC. *)
Theorem subnet_cache_exact fab vrf GetApicResponse evs dn :
  fabric_names fab → answers fab vrf GetApicResponse →
  let start := BuildSubnetDnCache GetApicResponse vrf (mkSubnets ∅ 0) in
  (is_Some (CachedSubnetDns start !! dn) ↔ dn ∈ fab_subnets fab ∧ parent_of fab (λ v, wcard vrf v = true) (before dn "/subnet")) ∧
  ((∀ bd v, fab_bds fab !! bd = Some v → wcard vrf v = true → v = vrf) →
   (is_Some (CachedSubnetDns (foldl (subnet_step GetApicResponse vrf) start evs) !! dn) ↔
    dn ∈ foldl subnet_live (fab_subnets fab) evs ∧ parent_of fab (eq vrf) (before dn "/subnet"))).
Proof.
  intros Hn Ha start. split; [by apply BuildSubnetDnCache_spec|]. intros Honly.
  rewrite <- (parent_in_vrf_spec fab vrf GetApicResponse Hn Ha).
  assert (cache_exact GetApicResponse vrf (fab_subnets fab) start) as He.
  { intros d. unfold start. rewrite (BuildSubnetDnCache_spec fab vrf GetApicResponse Hn Ha), (parent_in_vrf_spec fab vrf GetApicResponse Hn Ha).
    apply and_iff_compat_l. unfold parent_of. split.
    - intros (v&Hw&Hp). exists v. split; [|done]. symmetry. destruct Hp as [Hp|(bd&_&Hp)]; eauto.
    - intros (v&<-&Hp). exists vrf. split; [apply wcard_refl|done]. }
  revert dn. generalize (fab_subnets fab), start, He. clear start He. induction evs as [|e evs IH]; intros live s He dn; [apply He|].
  cbn [foldl]. apply IH, subnet_step_exact; [|done]. intros p imdata. by apply (answers_self_unique fab vrf).
Qed.

Definition mo (cl : string) (attrs : list (string * string)) : ApicObject :=
  Obj cl EmptyString (list_to_map (prod_map id AStr <$> attrs)) [].

(** An APIC that answers from a fabric. *)
Definition fabric_apic (fab : Fabric) (vrf uri : string) : option (list ApicObject) :=
  let bds := map_to_list (fab_bds fab) in let epgs := map_to_list (fab_epgs fab) in
  if String.eqb uri (bdUri vrf) then
    Some ((λ kv, mo "fvRsCtx" [("dn", kv.1 ++ "/rsctx"); ("tDn", kv.2)]) <$> filter (λ kv, wcard vrf kv.2 = true) bds)
  else if String.eqb uri epgUri then Some ((λ kv, mo "fvRsBd" [("dn", kv.1 ++ "/rsbd"); ("tDn", kv.2)]) <$> epgs)
  else if String.eqb uri SubnetUri then Some ((λ d, mo "fvSubnet" [("dn", d)]) <$> elements (fab_subnets fab))
  else Some (((λ _, mo "fvBD" []) <$> filter (λ kv, uri = self_uri kv.1) bds) ++
             ((λ _, mo "fvAEPg" []) <$> filter (λ kv, uri = self_uri kv.1) epgs) ++
             ((λ kv, mo "fvRsCtx" [("tDn", kv.2)]) <$> filter (λ kv, uri = ctx_uri kv.1) bds) ++
             ((λ kv, mo "fvRsBd" [("tDn", kv.2)]) <$> filter (λ kv, uri = rsbd_uri kv.1) epgs))%list.


Lemma append_inj_r a b c : a ++ c = b ++ c → a = b.
Proof.
  assert (∀ x y : string, String.length (x ++ y) = String.length x + String.length y)%nat as Hl
    by (intros x y; induction x as [|? x IH]; simpl; [done|by rewrite IH]).
  revert b. induction a as [|x a IH]; intros [|y b] H; simpl in H; [done| | |injection H as -> H; f_equal; by apply IH];
    apply (f_equal String.length) in H; simpl in H; rewrite !Hl in H; simpl in H; lia.
Qed.

(** URIs of objects with different ends differ. *)
Fixpoint last_byte (c : ascii) (s : string) : ascii := match s with EmptyString => c | String d s => last_byte d s end.
Lemma last_byte_app c a b d e : last_byte c (a ++ b ++ String d e) = last_byte d e.
Proof.
  revert c. induction a as [|x a IH]; intros c; [|apply (IH x)]. revert c. induction b as [|y b IH]; intros c; [done|apply (IH y)].
Qed.

Ltac uris_differ := intros Huri; apply (f_equal (last_byte "0"%char)) in Huri; unfold self_uri, ctx_uri, rsbd_uri in Huri; rewrite !last_byte_app in Huri; vm_compute in Huri; discriminate Huri.

Lemma uris_inj : Inj (=) (=) self_uri ∧ Inj (=) (=) ctx_uri ∧ Inj (=) (=) rsbd_uri.
Proof. split_and!; intros a b H; unfold self_uri, ctx_uri, rsbd_uri in H; by apply (inj (String.append "/api/node/mo/")), append_inj_r in H. Qed.

(** The entry of a map under one key. *)
Lemma filter_key {A B} (l : list (string * A)) (f : string * A → B) p (P : string * A → Prop) `{∀ kv, Decision (P kv)} :
  NoDup l.*1 → (∀ kv, P kv ↔ kv.1 = p) →
  f <$> filter P l = match (list_to_map l : gmap string A) !! p with Some v => [f (p, v)] | None => [] end.
Proof.
  intros Hnd HP. induction l as [|[k v] l IH]; [done|]. apply NoDup_cons in Hnd as [Hk Hnd]. rewrite filter_cons, list_to_map_cons. cbn [fst snd].
  destruct (decide (P (k, v))) as [E|E]; rewrite HP in E; simpl in E.
  - subst. rewrite lookup_insert_eq, fmap_cons, IH by done. by rewrite (not_elem_of_list_to_map_1 _ _ Hk).
  - rewrite lookup_insert_ne by done. by apply IH.
Qed.

Lemma filter_no_uri {A B} (l : list (string * A)) (f : string * A → B) uri (g : string → string) :
  (∀ k, uri ≠ g k) → f <$> filter (λ kv, uri = g kv.1) l = [].
Proof. intros H. induction l as [|kv l IH]; [done|]. rewrite filter_cons, decide_False by apply H. exact IH. Qed.

Lemma filter_uri {A B} (m : gmap string A) (f : string * A → B) p (g : string → string) :
  Inj (=) (=) g →
  f <$> filter (λ kv, g p = g kv.1) (map_to_list m) = match m !! p with Some v => [f (p, v)] | None => [] end.
Proof.
  intros Hg. rewrite (filter_key _ f p); [|apply NoDup_fst_map_to_list|intros kv; split; [intros H; by apply Hg in H|by intros ->]].
  by rewrite list_to_map_to_list.
Qed.

Lemma mo_attr cl attrs a : attr_str (mo cl attrs) a = (list_to_map attrs : gmap string string) !! a.
Proof.
  unfold attr_str, mo. cbn [ApicTypes.Attributes]. induction attrs as [|[k v] attrs IH]; [done|]. simpl.
  destruct (decide (a = k)) as [->|]; [by rewrite !lookup_insert_eq|by rewrite !lookup_insert_ne].
Qed.

(** What it says of one object. *)
Lemma fabric_apic_mo fab vrf u :
  fabric_apic fab vrf ("/api/node/mo/" ++ u) =
  let uri := "/api/node/mo/" ++ u in
  Some (((λ _, mo "fvBD" []) <$> filter (λ kv, uri = self_uri kv.1) (map_to_list (fab_bds fab))) ++
        ((λ _, mo "fvAEPg" []) <$> filter (λ kv, uri = self_uri kv.1) (map_to_list (fab_epgs fab))) ++
        ((λ kv, mo "fvRsCtx" [("tDn", kv.2)]) <$> filter (λ kv, uri = ctx_uri kv.1) (map_to_list (fab_bds fab))) ++
        ((λ kv, mo "fvRsBd" [("tDn", kv.2)]) <$> filter (λ kv, uri = rsbd_uri kv.1) (map_to_list (fab_epgs fab))))%list.
Proof. done. Qed.

Lemma fabric_apic_self fab vrf p :
  fabric_apic fab vrf (self_uri p) =
  Some (match fab_bds fab !! p with Some _ => [mo "fvBD" []] | None => [] end ++
        match fab_epgs fab !! p with Some _ => [mo "fvAEPg" []] | None => [] end)%list.
Proof.
  unfold self_uri at 1. rewrite fabric_apic_mo. cbv zeta. fold (self_uri p). rewrite !filter_uri by apply uris_inj.
  rewrite (filter_no_uri _ _ _ ctx_uri), (filter_no_uri _ _ _ rsbd_uri) by (intros k; uris_differ). by rewrite !app_nil_r.
Qed.

Lemma fabric_apic_ctx fab vrf p :
  fabric_apic fab vrf (ctx_uri p) = Some match fab_bds fab !! p with Some v => [mo "fvRsCtx" [("tDn", v)]] | None => [] end.
Proof.
  unfold ctx_uri at 1. rewrite fabric_apic_mo. cbv zeta. fold (ctx_uri p).
  rewrite !(filter_no_uri _ _ _ self_uri), (filter_no_uri _ _ _ rsbd_uri) by (intros k; uris_differ).
  rewrite filter_uri by apply uris_inj. by rewrite app_nil_r.
Qed.

Lemma fabric_apic_rsbd fab vrf p :
  fabric_apic fab vrf (rsbd_uri p) = Some match fab_epgs fab !! p with Some v => [mo "fvRsBd" [("tDn", v)]] | None => [] end.
Proof.
  unfold rsbd_uri at 1. rewrite fabric_apic_mo. cbv zeta. fold (rsbd_uri p).
  rewrite !(filter_no_uri _ _ _ self_uri), (filter_no_uri _ _ _ ctx_uri) by (intros k; uris_differ).
  by rewrite filter_uri by apply uris_inj.
Qed.

Lemma reports_mo (o : option string) cl a v :
  reports match o with Some w => [mo cl [(a, w)]] | None => [] end [(a, v)] ↔ o = Some v.
Proof.
  rewrite reports_1. destruct o as [w|]; [setoid_rewrite list_elem_of_singleton|].
  - split; [intros (?&->&H); rewrite mo_attr in H; simpl in H; by rewrite lookup_insert_eq in H|intros [= ->]].
    eexists. split; [done|]. rewrite mo_attr. simpl. by rewrite lookup_insert_eq.
  - split; [intros (?&H&_); by apply elem_of_nil in H|done].
Qed.

(** Every fabric has an APIC that answers from it. *)
Lemma fabric_apic_answers fab vrf : fabric_names fab → answers fab vrf (fabric_apic fab vrf).
Proof.
  intros Hn. split.
  - eexists. split; [unfold fabric_apic; by rewrite String.eqb_refl|]. intros d. rewrite reports_1. split.
    + intros (body&Hin&Hd). apply list_elem_of_fmap in Hin as ([bd v]&->&Hin). apply list_elem_of_filter in Hin as [Hw Hin].
      apply elem_of_map_to_list in Hin. rewrite mo_attr in Hd. injection Hd as <-. eauto.
    + intros (bd&v&Hv&Hw&->). exists (mo "fvRsCtx" [("dn", bd ++ "/rsctx"); ("tDn", v)]). rewrite mo_attr. split; [|done].
      apply list_elem_of_fmap. exists (bd, v). split; [done|]. apply list_elem_of_filter. split; [done|]. by apply elem_of_map_to_list.
  - eexists. split; [reflexivity|]. intros d bd. rewrite reports_2. split.
    + intros (body&Hin&Hd&Ht). apply list_elem_of_fmap in Hin as ([epg b]&->&Hin). apply elem_of_map_to_list in Hin.
      rewrite mo_attr in Hd, Ht. injection Hd as <-. injection Ht as <-. eauto.
    + intros (epg&He&->). exists (mo "fvRsBd" [("dn", epg ++ "/rsbd"); ("tDn", bd)]). rewrite !mo_attr. split; [|done].
      apply list_elem_of_fmap. exists (epg, bd). split; [done|]. by apply elem_of_map_to_list.
  - eexists. split; [reflexivity|]. intros d. rewrite reports_1, <- elem_of_elements. split.
    + intros (body&Hin&Hd). apply list_elem_of_fmap in Hin as (x&->&Hin). rewrite mo_attr in Hd. by injection Hd as <-.
    + intros Hd. exists (mo "fvSubnet" [("dn", d)]). rewrite mo_attr. split; [|done]. apply list_elem_of_fmap. by exists d.
  - intros p. rewrite fabric_apic_self.
    destruct (fab_bds fab !! p) eqn:Eb, (fab_epgs fab !! p) eqn:Ee; [|by eexists..|done].
    exfalso. by apply (fn_apart _ Hn p); eapply elem_of_dom_2.
  - intros bd v. rewrite fabric_apic_ctx. apply reports_mo.
  - intros epg bd. rewrite fabric_apic_rsbd. apply reports_mo.
Qed.

Definition demo_vrf : string := "uni/tn-c/ctx-v".
Definition demo_fabric : Fabric :=
  mkFabric {["uni/tn-c/BD-b" := demo_vrf; "uni/tn-c/BD-x" := "uni/tn-c/ctx-w"]} {["uni/tn-c/ap-a/epg-e" := "uni/tn-c/BD-b"]}
    {["uni/tn-c/BD-b/subnet-[10.3.0.1/16]"; "uni/tn-c/ap-a/epg-e/subnet-[10.6.0.1/16]"]}.

Lemma fabric_names_check fab :
  bool_decide (set_Forall (λ bd, bd ∉ dom (fab_epgs fab)) (dom (fab_bds fab))) &&
  bool_decide (set_Forall (λ bd, before (bd ++ "/rsctx") "/rsctx" = bd) (dom (fab_bds fab))) &&
  bool_decide (set_Forall (λ epg, before (epg ++ "/rsbd") "/rsbd" = epg) (dom (fab_epgs fab))) = true → fabric_names fab.
Proof. intros [[H1%bool_decide_eq_true H2%bool_decide_eq_true]%andb_true_iff H3%bool_decide_eq_true]%andb_true_iff. split; [intros x; apply H1|exact H2|exact H3]. Qed.

Lemma subnet_cache_exact_witness :
  let apic := fabric_apic demo_fabric demo_vrf in
  let events := [SubnetSet (mo "fvSubnet" [("dn", "uni/tn-c/BD-b/subnet-[10.4.0.1/16]"); ("ip", "10.4.0.1/16")]);
                 SubnetSet (mo "fvSubnet" [("dn", "uni/tn-c/BD-x/subnet-[10.5.0.1/16]"); ("ip", "10.5.0.1/16")]);
                 SubnetGone "uni/tn-c/BD-b/subnet-[10.3.0.1/16]"] in
  let start := BuildSubnetDnCache apic demo_vrf (mkSubnets ∅ 0) in
  let cached dn := is_Some (CachedSubnetDns (foldl (subnet_step apic demo_vrf) start events) !! dn) in
  is_Some (CachedSubnetDns start !! "uni/tn-c/BD-b/subnet-[10.3.0.1/16]") ∧
  cached "uni/tn-c/BD-b/subnet-[10.4.0.1/16]" ∧ cached "uni/tn-c/ap-a/epg-e/subnet-[10.6.0.1/16]" ∧
  ¬ cached "uni/tn-c/BD-b/subnet-[10.3.0.1/16]".
Proof.
  intros apic events start cached.
  assert (fabric_names demo_fabric) as Hn by (apply fabric_names_check; vm_compute; reflexivity).
  pose proof (fabric_apic_answers demo_fabric demo_vrf Hn) as Ha.
  pose proof (λ dn, subnet_cache_exact demo_fabric demo_vrf apic events dn Hn Ha) as H.
  assert (∀ bd v, fab_bds demo_fabric !! bd = Some v → wcard demo_vrf v = true → v = demo_vrf) as Honly.
  { assert (map_Forall (λ _ v, wcard demo_vrf v = true → v = demo_vrf) (fab_bds demo_fabric)) as Hf
      by (apply (bool_decide_eq_true_1 _); vm_compute; reflexivity). exact (proj1 (map_Forall_lookup _ _) Hf). }
  split; [|split; [|split]].
  - refine (proj2 (proj1 (H _)) _). split; [apply (bool_decide_eq_true_1 _); vm_compute; reflexivity|].
    exists demo_vrf. split; [reflexivity|]. left. reflexivity.
  - refine (proj2 (proj2 (H _) Honly) _). split; [apply (bool_decide_eq_true_1 _); vm_compute; reflexivity|].
    exists demo_vrf. split; [reflexivity|]. left. reflexivity.
  - refine (proj2 (proj2 (H _) Honly) _). split; [apply (bool_decide_eq_true_1 _); vm_compute; reflexivity|].
    exists demo_vrf. split; [reflexivity|]. right. exists "uni/tn-c/BD-b". split; reflexivity.
  - intros Hc. apply (proj1 (proj2 (H _) Honly)) in Hc. destruct Hc as [Hc _].
    apply (bool_decide_eq_true_2 _) in Hc. vm_compute in Hc. discriminate Hc.
Defined.

(** Without the condition on the names, the two ways disagree: a subnet of the
    VRF ctx-v10 is cached at the start, and would not be after a
    notification. *)
Lemma wcard_other_vrf :
  let dn := "uni/tn-c/BD-x/subnet-[10.5.0.1/16]" in
  let fab := mkFabric {["uni/tn-c/BD-x" := "uni/tn-c/ctx-v10"]} ∅ {[dn]} in
  let apic := fabric_apic fab demo_vrf in
  is_Some (CachedSubnetDns (BuildSubnetDnCache apic demo_vrf (mkSubnets ∅ 0)) !! dn) ∧
  CachedSubnetDns (SubnetChanged apic demo_vrf (mo "fvSubnet" [("dn", dn)]) (mkSubnets ∅ 0)) = ∅.
Proof. split; [eexists|]; vm_compute; reflexivity. Qed.

(** ** Publishing *)

Lemma add_subnet_in l u x : x ∈ add_subnet l u ↔ x ∈ l ∨ x = u.
Proof. unfold add_subnet. case_bool_decide; set_solver. Qed.

Lemma add_subnets_in l us x : x ∈ foldl add_subnet l us ↔ x ∈ l ∨ x ∈ us.
Proof. revert l. induction us as [|u us IH]; intros l; cbn [foldl]; [set_solver|]. rewrite IH, add_subnet_in. set_solver. Qed.

Lemma add_subnets_id l us : (∀ u, u ∈ us → u ∈ l) → foldl add_subnet l us = l.
Proof.
  induction us as [|u us IH]; intros H; cbn [foldl]; [done|]. unfold add_subnet. rewrite bool_decide_true by set_solver.
  apply IH. set_solver.
Qed.

Section RdFacts.
Context (cfg : RdCfg) (api : RdApi).
Hypothesis rd_on : rdConfigClient cfg = true ∧ rd_ChainedMode cfg = false.
Hypothesis api_works : get_ok api = true ∧ create_ok api = true ∧ update_ok api = true.

Abbreviation configured := (ExternStatic cfg ++ ExternDynamic cfg)%list.

(** What a synchronisation leaves: the subnets of the cache, the subnets of
    users that were there, and those of the configuration if they are to be
    added. *)
Definition rd_synced (cache : gmap string string) (old : list string) (spec : RdConfigSpec) : Prop :=
  DiscoveredSubnets spec ≡ₚ (map_to_list cache).*2 ∧
  (∀ u, u ∈ UserSubnets spec ↔ u ∈ old ∨ (AddExternalSubnetsToRdconfig cfg = true ∧ u ∈ configured)).

Lemma rd_update_synced (values : range_order) cache old :
  rd_synced cache (UserSubnets old) (rd_update cfg (values cache) configured old).1 ∧
  ((rd_update cfg (values cache) configured old).2 = false → (rd_update cfg (values cache) configured old).1 = old) ∧
  DiscoveredSubnets (rd_update cfg (values cache) configured old).1 = values cache.
Proof.
  unfold rd_update, rd_synced. destruct old as [us ds]. cbn [UserSubnets DiscoveredSubnets]. split; [|split].
  - case_bool_decide as Hd; cbn [fst UserSubnets DiscoveredSubnets]; (split; [rewrite ?Hd; apply range_law|]); intros u;
      (case_bool_decide as Hu; cbn [negb andb];
       [rewrite Hu; clear; naive_solver|destruct (AddExternalSubnetsToRdconfig cfg); [rewrite add_subnets_in|]; clear; naive_solver]).
  - case_bool_decide as Hd; cbn [fst snd orb]; [|done]. rewrite negb_false_iff, bool_decide_eq_true. by intros ->.
  - by case_bool_decide.
Qed.

(** A further update may only change the order of the discovered subnets. *)
Lemma rd_update_again cache spec old discovered :
  rd_synced cache old spec →
  rd_update cfg discovered configured spec = (mkRdSpec (UserSubnets spec) discovered, negb (bool_decide (DiscoveredSubnets spec = discovered))).
Proof.
  destruct spec as [us ds]. unfold rd_synced, rd_update. cbn [UserSubnets DiscoveredSubnets]. intros [_ Hu].
  set (merge := negb _ && _).
  assert ((if merge then foldl add_subnet us configured else us) = us) as ->.
  { unfold merge. destruct (negb _); [|done]. destruct (AddExternalSubnetsToRdconfig cfg); [|done]. apply add_subnets_id.
    intros u Hin. apply Hu. right. by split. }
  rewrite (bool_decide_true (us = us)) by done. by case_bool_decide; subst.
Qed.

Lemma syncRdConfig_synced (values : range_order) cache s :
  ∃ spec, syncRdConfig cfg api values cache s = (set_rd_stored (Some spec) s, false) ∧
    rd_synced cache (match rd_stored s with Some old => UserSubnets old | None => [] end) spec ∧ DiscoveredSubnets spec = values cache.
Proof using rd_on api_works.
  destruct rd_on as [Hc Hm], api_works as (Hg&Hcr&Hup). unfold syncRdConfig, CreateRdConfigCR. rewrite Hc, Hm, Hg. cbn [negb orb].
  destruct s as [c1 c2 q n [old|]]; cbn [rd_stored].
  - destruct (rd_update_synced values cache old) as (H1&H2&H3). destruct (rd_update cfg (values cache) configured old) as [spec b]. cbn [fst snd] in *.
    exists spec. split_and!; [|exact H1|exact H3]. destruct b; [by rewrite Hup|]. by rewrite (H2 eq_refl).
  - rewrite Hcr. eexists. split; [reflexivity|]. split; [|done]. split; [apply range_law|]. intros u. cbn [UserSubnets].
    destruct (AddExternalSubnetsToRdconfig cfg); set_solver.
Qed.
End RdFacts.

(** C24: The resource RdConfig is kept up to date.  Suppose that there is a client for the resource, the controller is not chained and the API server answers every request.  Then one synchronisation stores a resource whose discovered subnets are the values of the cache, each as often as it is there, in the order of its loop over the cache, and whose user subnets are exactly the ones that were there and, if this is configured, the external subnets of the configuration; it does not ask for a retry.  A second synchronisation of the same cache keeps the user subnets and again stores the values of the cache, in the order of its own loop, so it changes nothing if the two loops see the same order, and otherwise at most the order of the discovered subnets.  If the resource is deleted after its user subnets were handled, the handler of the deletion and the synchronisation that it schedules store a resource with these user subnets and the values of the cache. *)
Theorem rdconfig_synced cfg api (values1 values2 : range_order) cache s spec0 :
  rdConfigClient cfg = true → rd_ChainedMode cfg = false → get_ok api = true → create_ok api = true → update_ok api = true →
  (∃ spec, syncRdConfig cfg api values1 cache s = (set_rd_stored (Some spec) s, false) ∧
     rd_synced cfg cache (match rd_stored s with Some old => UserSubnets old | None => [] end) spec ∧
     DiscoveredSubnets spec = values1 cache ∧
     syncRdConfig cfg api values2 cache (set_rd_stored (Some spec) s) =
       (set_rd_stored (Some (mkRdSpec (UserSubnets spec) (values2 cache))) s, false) ∧
     (values2 cache = values1 cache →
      syncRdConfig cfg api values2 cache (set_rd_stored (Some spec) s) = (set_rd_stored (Some spec) s, false))) ∧
  (rdConfigSubnetCache s !! ACI_RDCONFIG_NAME cfg = Some spec0 →
   let '(s1, again) := postDelHandleRdConfig cfg api (set_rd_stored None s) in
   again = false ∧ rd_scheduled s1 = S (rd_scheduled s) ∧
   ∃ spec, syncRdConfig cfg api values1 cache s1 = (set_rd_stored (Some spec) s1, false) ∧ rd_synced cfg cache (UserSubnets spec0) spec).
Proof.
  intros H1 H2 H3 H4 H5. split.
  - destruct (syncRdConfig_synced cfg api (conj H1 H2) (conj H3 (conj H4 H5)) values1 cache s) as (spec&E&Hs&Hd). exists spec.
    assert (syncRdConfig cfg api values2 cache (set_rd_stored (Some spec) s) =
       (set_rd_stored (Some (mkRdSpec (UserSubnets spec) (values2 cache))) s, false)) as E2.
    { unfold syncRdConfig. rewrite H1, H2, H3. cbn [negb orb set_rd_stored rd_stored]. rewrite (rd_update_again cfg cache spec _ _ Hs).
      case_bool_decide as Ed; simpl; [|by rewrite H5]. rewrite <- Ed. by destruct spec. }
    split_and!; [done..|]. intros Ho. rewrite E2, Ho, <- Hd. by destruct spec.
  - intros Hspec. unfold postDelHandleRdConfig, CreateRdConfigCR. cbn [set_rd_stored rdConfigSubnetCache rd_stored]. rewrite Hspec, H4.
    split; [done|]. split; [done|].
    destruct (syncRdConfig_synced cfg api (conj H1 H2) (conj H3 (conj H4 H5)) values1 cache (schedule_rd (set_rd_stored (Some spec0) (set_rd_stored None s))))
      as (spec&E&Hs&_). by exists spec.
Qed.

Definition demo_rd : RdCfg := mkRdCfg true false true ["10.9.0.0/16"] ["10.8.0.0/16"] "routing-domain-config".
Definition demo_rd_state : RdState :=
  mkRdState ∅ {["routing-domain-config" := mkRdSpec ["1.2.3.0/24"] []]} [] 0 (Some (mkRdSpec ["1.2.3.0/24"] ["10.7.0.1/16"])).
Definition first_values : range_order := mkRange (λ m, (map_to_list m).*2) (λ m, Permutation_refl _).
Definition last_values : range_order := mkRange (λ m, rev (map_to_list m).*2) (λ m, Permutation_sym (Permutation_rev _)).

Lemma rdconfig_synced_witness :
  let cache : gmap string string := {["a" := "10.3.0.1/16"; "b" := "10.4.0.1/16"]} in
  ∃ spec, syncRdConfig demo_rd (mkRdApi true true true) first_values cache demo_rd_state = (set_rd_stored (Some spec) demo_rd_state, false) ∧
    DiscoveredSubnets spec ≡ₚ ["10.3.0.1/16"; "10.4.0.1/16"] ∧ "1.2.3.0/24" ∈ UserSubnets spec ∧ "10.9.0.0/16" ∈ UserSubnets spec.
Proof.
  intros cache.
  destruct (rdconfig_synced demo_rd (mkRdApi true true true) first_values last_values cache demo_rd_state (mkRdSpec ["1.2.3.0/24"] []))
    as [(spec&E&[Hd Hu]&_) _]; [reflexivity..|]. exists spec. split; [exact E|]. split; [|split; apply Hu].
  - rewrite Hd. apply (bool_decide_eq_true_1 _). vm_compute. reflexivity.
  - left. by left.
  - right. split; [reflexivity|]. by left.
Defined.

(** The published list follows the order of a Go map, and is compared with the
    stored one in order: a synchronisation without any change may update the
    resource. *)
Lemma rdconfig_order :
  let cache : gmap string string := {["a" := "10.3.0.1/16"; "b" := "10.4.0.1/16"]} in
  let s := (syncRdConfig demo_rd (mkRdApi true true true) first_values cache demo_rd_state).1 in
  (syncRdConfig demo_rd (mkRdApi true true true) last_values cache s).1 ≠ s.
Proof. vm_compute. discriminate. Qed.
